(* ===== verification/_CoqProject ===== *)
-Q . S2P
Prelude.v
Text.v
Models.v
Hlc.v
Crdt.v
BanStore.v
Whitelist.v
Wal.v
Snapshot.v
State.v
Recovery.v
Admission.v
AntiPoison.v
Floats.v
Trust.v
Signed.v
Membership.v
Gossip.v
Merkle.v
Sync.v
Wire.v
SigmaCond.v
Scoring.v
Windows.v
Detector.v
Bruteforce.v
HttpRate.v
Probes.v
PortScan.v
Crawl.v
Campaign.v
Webshell.v
Timing.v
Entropy.v
Sigma.v
SshLog.v
Tail.v
LogParsers.v
Syslog.v
PluginConfig.v
CrawlPlugin.v
Plugins.v
Secrets.v
Host.v
Alerts.v
Sanitize.v
Enforcer.v
Nftables.v
AgentScan.v
AgentLogs.v
NftablesSpec.v
Firewall.v
Cloudflare.v
Durations.v
Config.v
Bots.v
Cti.v
Admin.v
Redact.v
Rest.v
AgentView.v
Fail2ban.v
Cluster.v
ClusterSpec.v
Pipeline.v
