(* ===== verification/Prelude.v ===== *)
(** * HiveGuard: a verification development

    HiveGuard is a distributed intrusion detection and auto-ban system: log
    events are turned into detection signals, signals are scored, bans are
    persisted, pushed to the firewall and replicated to peers by gossip. This
    library models the parts that decide what is banned and what survives a
    crash or a hostile peer, and proves what they promise. This file is the root:
    it documents the whole and holds the shared definitions, automation and
    generic lemmas.

    ** The program and where it is modelled

    Data and local state ([hiveguard-core/src])
    - [Models.v]: [models.rs], [errors.rs]; IP addresses and networks. The
      [ipnet] crate is the class [IpNetOps] with the laws [IpNetLaws] its
      documentation promises; [ipnet_ref] is an instance.
    - [Hlc.v]: [hlc.rs], the hybrid logical clock ([tick], [update]).
    - [Crdt.v]: [crdt.rs], the replicated ban record ([merge], votes, expiry).
    - [BanStore.v]: [ban_store.rs], the in-memory store with its per-prefix
      [u32] counters and longest-prefix lookup.
    - [Whitelist.v]: [whitelist.rs], configured and hard-coded protection.
    - [Text.v]: the string operations of the language on UTF-8 bytes.
    - [Durations.v]: the durations of [config.rs] and their text form;
      [Config.v]: the validation of a whole configuration.
    - [Bots.v]: [bot_registry.rs], rules for user agents and unknown bots.

    Persistence ([hiveguard-core/src/persistence])
    - [Wal.v]: [wal.rs], the write-ahead log over the bytes of its file.
    - [Snapshot.v]: [snapshot.rs], four file versions, atomic replacement.
    - [State.v]: [state_manager.rs], recovery and every state change; each one
      appends to the log first. [Recovery.v] and [Admission.v] hold its theorems.

    Trust and the cluster ([hiveguard-core/src], [hiveguard-net/src])
    - [AntiPoison.v]: [anti_poison.rs], rate limiter, median, quarantine.
    - [Floats.v]: IEEE 754 rounding facts; [Trust.v]: [trust.rs].
    - [Signed.v]: [hashcash.rs] and [signed_record.rs].
    - [Membership.v]: [peer.rs] and [membership.rs] (SWIM).
    - [Gossip.v]: [gossip.rs]; [Merkle.v]: [merkle.rs]; [Sync.v]: [sync.rs], the
      coordinator that composes membership and gossip.
    - [Wire.v]: [messages.rs], the frames of [transport.rs], the pages of
      [signed_record.rs] and the reader task.
    - [Cluster.v], [ClusterSpec.v]: [hiveguard-daemon/src/cluster.rs], the actor
      that drives all of these and applies the bans of peers.

    Log ingestion
    - [Tail.v]: [plugins/source-file/src/lib.rs], reading a growing file.
    - [SshLog.v], [LogParsers.v]: [hiveguard-plugin-utils/src], the parsers.
    - [Syslog.v]: [plugins/source-syslog/src], messages of other hosts: formats,
      framing, senders, routing.

    Detection
    - [Windows.v], [Detector.v]: sliding windows and the detector interface;
      [Bruteforce.v], [HttpRate.v], [Probes.v], [PortScan.v], [Crawl.v],
      [Campaign.v], [Webshell.v], [Timing.v], [Entropy.v]: the detectors of
      [hiveguard-core/src/detectors].
    - [SigmaCond.v], [Sigma.v]: [hiveguard-sigma/src], conditions and rules.
    - [PluginConfig.v], [CrawlPlugin.v], [Plugins.v]: the detector plugins
      ([plugins/detector-*]), their configuration and their common interface.
    - [Scoring.v]: [plugins/scoring-default/src/lib.rs].

    Enforcement and operation
    - [Enforcer.v]: the firewall interface and its laws, which clients are
      proved against; [Nftables.v], [NftablesSpec.v]: [nftables.rs], an
      implementation that discharges them; [Cloudflare.v]: [cloudflare.rs], one
      that does not, since it queues bans and reports lost requests as done;
      [Firewall.v]: the firewall against the whitelist.
    - [Cti.v]: [hiveguard-cti/src] and the [cti-*] plugins, the reputation of an
      address: cache, providers, enricher.
    - [Admin.v]: [socket_server.rs] and [ui_api.rs], operators' commands.
    - [Rest.v]: [plugins/ui-rest/src], the HTTP interface: tokens, routes,
      handlers, audit records, pushed log lines; the daemon behind it is the
      interface [UiApiHandle].
    - [Redact.v]: the secrets of a configuration in [agent_api.rs] and
      [ui_api.rs]: what is shown of a file and what may be written.
    - [AgentView.v]: the views of bans, detections and plugins and the events of
      [agent_api.rs]; [AgentScan.v], [AgentLogs.v]: [agent_logs.rs], the queries
      over log files; [Sanitize.v]: [hiveguard-plugin-api/src/sanitize.rs], what
      agents are shown of untrusted text.
    - [Secrets.v], [Host.v], [Alerts.v]: [hiveguard-plugin-api/src/secrets.rs]
      and [hiveguard-host/src], placeholders, plugin loading, alert delivery.
    - [Pipeline.v]: [pipeline.rs], [whitelist_sync.rs]: an event from its signals
      through scoring, admission and the firewall, the periodic tasks, commands
      and remote bans, as one state machine over the shared state.

    ** How the code is rendered

    A Rust struct is a [Record], an enum an [Inductive] with its variants, a
    method a function from the old state to the new state and result, [Result]
    is [result] with [?] as [let?]; a function that may panic returns an
    [option]. Integers are [Z]; where the source can overflow the wrap-around of
    a release build is written out ([wrap], [u32_add], [u64_add]). [f32] and
    [f64] are the Standard Library's [spec_float]. Strings whose bytes matter
    are lists of bytes. Hash maps are [gmap]; where the iteration order of a
    hash map reaches a result it is a parameter ([HashOrder], [HashIter]). Times
    are nanoseconds; every reading of a clock and every random choice is an
    argument. A file is its list of bytes, and input/output may fail: a log write
    after any number of bytes, a snapshot before or after its rename, the
    truncation of the log, a firewall command before or after it took effect.
    Locks are held for whole operations in the source, so an operation is one
    step and interleavings are sequences of steps; tasks a component spawns are
    effects, and those that report back are steps of their own.

    Parameters, each a class with documented behaviour as its laws and an
    instance used by the witnesses: [IpNetOps] and [AddrText] (addresses),
    [Blake3], [Crc32], [Codec] (postcard), [Bincode], [BincodeSer], [WireLaws]
    (bincode), [Ed25519] (ring), [UnicodeTables], [HashOrder], [HashIter],
    [Log2], [Deflate] (flate2), [SigmaEnv] (regex and addresses), [YamlParse],
    [FromValue] (serde), [JsonSchema], [ScoringJson], [ApiText] (formatting),
    [Nft] (the nft program), [CloudApi] (the Cloudflare service), [LogPatterns],
    [SshPatterns], [NetdevPatterns], [RouteRegex] (regular expressions),
    [SyslogDates], [DiskLaws] (the cache file), [AgentDates], [AgentRegex],
    [Gzip], [JsonText] (serde_json), [ConfigYaml] (serde_yaml), [Surroundings]
    (environment and files), [Extract] (the web framework), [AnyOrder]. [Enforcer] and [Detector] are interfaces of the
    source with several implementations. No law says that hashes do not collide:
    theorems that need it name the inputs.

    ** What is proved

    - Persistence: the log returns exactly what was acknowledged whatever bytes
      the file held and wherever writes failed ([wal_durability]); a logged
      change is atomic; snapshots lose nothing; recovery rebuilds the running
      state after any history ([recovery_exact], against the abstract [View]).
    - Bans: the store refines a finite map with longest-prefix match
      ([store_refines_map]); admission never shortens a ban; revocation is final;
      protected addresses are never banned ([protected_never_banned]) and never
      reach the firewall ([firewall_never_blocks_protected]); whitelisting by
      hand takes effect at once ([whitelist_add_lifts]).
    - Firewall: the nftables backend implements a set of networks
      ([nft_implements_set]) in transactions ([nft_transaction]); the expiry
      task repairs what failed ([expiry_tick_reconciles]).
    - Replication: merge is a least upper bound and replicas converge
      ([replicas_converge]); cancelling needs two nodes; long bans travel in
      windows peers accept ([announced_window_accepted]), pages arrive as they
      were cut ([pages_delivered]) and no record starves ([diff_rotation_fair]).
    - Hostile peers: a ban taken from the network has a quorum of authenticated,
      sufficiently trusted signers behind every attribute ([gossip_quorum_sound]),
      and is all a peer can change on a node ([remote_bans_legitimate]); rates,
      memory and message budgets are bounded; trust is a proportion in floating
      point.
    - Failure detection: silent peers are detected, responsive ones are not
      accused; certificates stay pinned.
    - Ingestion: every complete line is delivered once ([tail_exactly_once]);
      user names cannot forge addresses ([ssh_address_authentic]); how the
      network cuts a syslog connection does not matter ([connection_chunking])
      and framed messages arrive whole ([counted_frames_delivered]).
    - Surroundings: findings are backed by reports about that address
      ([findings_backed]); a blocking rule of a valid configuration blocks
      ([block_rule_enforced]); the edge list follows the bans when the service
      answers ([edge_sync_exact]).
    - Interfaces: no request does more than its token allows
      ([calls_authorised]), and every change is on record ([changes_audited]);
      secrets of the configuration are not shown ([text_secrets_hidden],
      [settings_secrets_hidden]), a marker never replaces one
      ([marker_never_written]) and a written configuration reads no file outside
      the directories for secrets ([written_config_confined]).
    - Agents: log queries and statistics are exact ([query_exact],
      [stats_exact]) and confined to the configured logs ([agents_confined]);
      pages and rankings are exact ([ban_pages_exact], [top_ips_exact]), events
      keep a subscriber's copy in step ([events_follow_bans]), and the text is
      clean ([response_clean]).
    - Detection: the condition parser is total and inverts printing, the
      evaluator computes the declared meaning; each detector signals what it
      documents and forgets only what no longer counts; whatever its
      configuration, a loaded detector's signals are well formed and about the
      source of the event ([plugin_signals_typed], [plugin_signals_scoped]);
      signals are spent on one ban.
    - Host: a dry run lists every secret start-up reads; plugins load in order;
      alerts keep their cooldown and retries end.
    - Limits found: the clock's counter wraps ([update_counter_wraps]), merge is
      not commutative on equal stamps ([merge_comm_idem]), a forced tombstone is
      undone by a merge ([forced_tombstone_lost]), an oversize snapshot is saved
      but not loadable ([oversize_snapshot_not_loadable]), the campaign detector
      panics on some paths ([campaign_panics_exactly]) and the syslog parser on
      some messages ([syslog_panics_exactly]), a lagging reader may
      replay ([lag_skip_replays]), a lifetime limit may stop the cluster actor
      ([long_ttl_panics]).

    ** Fuel

    [parse_fuel] is five units per token plus five; [parse_condition_total]
    shows it never runs out and [parse_or_le] that more changes nothing. The log
    reader, the tokenizer and the placeholder reader take one unit per byte or
    character, and each iteration consumes at least one; draining a file takes
    one turn per byte ([drain_delivers_all]). The readers of structured data take
    the length of the text ([sd_elements_exit]), an octet count eleven turns, one
    more than the digits allowed; the backward and the compressed log scans take
    one unit per byte, a source name one more than the names taken, the dashes
    and flow mappings of a configuration line the length of the line. [mine_range] runs on the binary
    attempt count itself.

    ** Not modelled

    QUIC, TLS and certificates, sockets and HTTP themselves, the queue clients
    (Kafka, NATS, Kinesis and the like), sinks, notifiers and metrics with the
    counters read back from their text, cross-origin headers, static files and
    the frames of an open stream, the terminal and web front ends, the download of the GeoIP database,
    the journald and Windows sources, the command line and the wiring of
    [main.rs]: input and output around the modelled parts, whose behaviour is
    that of the libraries they call. The data types of [config.rs] that are only
    read by serde, the configuration migration ([hiveguard-migrate-config], a
    field-by-field copy), the fail2ban import and the benchmarks have no
    behaviour of their own to state. *)

From stdpp Require Export gmap strings list fin_maps sorting relations.
From Stdlib Require Export ZArith Lia.

#[global] Set Default Proof Using "Type".

Open Scope Z_scope.

(** ** Rust results

    [Result<T, E>] of the source: fallible operations return it, and [?] is
    the bind below. *)
Inductive result (A E : Type) : Type :=
| Ok (a : A)
| Err (e : E).
Arguments Ok {A E} a.
Arguments Err {A E} e.

Declare Scope rust_scope.
Delimit Scope rust_scope with rust.
Open Scope rust_scope.

Definition result_bind {A B E} (r : result A E) (k : A -> result B E) : result B E :=
  match r with
  | Ok a => k a
  | Err e => Err e
  end.

Notation "'let?' x ':=' e 'in' k" := (result_bind e (fun x => k))
  (at level 10, x pattern, e at level 100, k at level 200) : rust_scope.

Lemma result_bind_ok {A B E} (r : result A E) (k : A -> result B E) (b : B) :
  (let? x := r in k x) = Ok b -> exists x, r = Ok x /\ k x = Ok b.
Proof. destruct r as [a|e]; simpl; [intros Hk; by exists a|done]. Qed.

Definition is_ok {A E} (r : result A E) : bool :=
  match r with Ok _ => true | Err _ => false end.

(** ** Machine integers

    Unsigned integers are [Z]; the release profile of the workspace does not
    enable overflow checks, so [+] wraps at the width. *)
Definition in_width (w : Z) (x : Z) : Prop := 0 <= x < 2 ^ w.
Definition wrap (w : Z) (x : Z) : Z := x mod 2 ^ w.
Definition u32_add (a b : Z) : Z := wrap 32 (a + b).
Definition u64_add (a b : Z) : Z := wrap 64 (a + b).
Definition saturating_sub (a b : Z) : Z := Z.max 0 (a - b).
Definition u64_max : Z := 2 ^ 64 - 1.
Definition u32_max : Z := 2 ^ 32 - 1.

(** Time: [DateTime<Utc>] and [Duration] are counted in nanoseconds. *)
Abbreviation DateTime := Z (only parsing).
Abbreviation Duration := Z (only parsing).
Definition nanos_per_sec : Z := 1000000000.
Definition secs (n : Z) : Z := n * nanos_per_sec.
Definition millis (n : Z) : Z := n * 1000000.
Definition minutes (n : Z) : Z := secs (60 * n).
Definition days (n : Z) : Z := secs (86400 * n).

(** [chrono::Duration::from_std]: a duration holds at most [i64::MAX]
    milliseconds. *)
Definition duration_from_std (d : Duration) : option Duration :=
  if d <=? millis (2 ^ 63 - 1) then Some d else None.

(** ** Automation *)
Create HintDb hive discriminated.
Create Rewrite HintDb hive.

(** Split conjunctions and existentials of the context, then simplify. *)
Ltac split_hyps :=
  repeat match goal with
  | H : _ /\ _ |- _ => destruct H
  | H : exists _, _ |- _ => destruct H
  end.

(** Case on the scrutinee of the outermost [match] or [if] of the goal. *)
Ltac case_goal :=
  match goal with
  | |- context [match ?x with _ => _ end] => destruct x eqn:?
  end.

(** Turn boolean comparisons of the context into propositions. *)
Ltac breflect :=
  repeat match goal with
  | H : (_ && _)%bool = true |- _ => apply andb_true_iff in H; destruct H
  | H : (_ || _)%bool = false |- _ => apply orb_false_iff in H; destruct H
  | H : negb _ = true |- _ => apply negb_true_iff in H
  | H : negb _ = false |- _ => apply negb_false_iff in H
  | H : (_ <? _) = true |- _ => apply Z.ltb_lt in H
  | H : (_ <? _) = false |- _ => apply Z.ltb_ge in H
  | H : (_ <=? _) = true |- _ => apply Z.leb_le in H
  | H : (_ <=? _) = false |- _ => apply Z.leb_gt in H
  | H : (_ =? _) = true |- _ => apply Z.eqb_eq in H
  | H : (_ =? _) = false |- _ => apply Z.eqb_neq in H
  | H : bool_decide _ = true |- _ => apply bool_decide_eq_true in H
  | H : bool_decide _ = false |- _ => apply bool_decide_eq_false in H
  end.

Lemma wrap_small (w x : Z) : in_width w x -> wrap w x = x.
Proof. intros H. apply Z.mod_small, H. Qed.

Lemma wrap_range (w x : Z) : 0 <= w -> in_width w (wrap w x).
Proof. intros H. apply Z.mod_pos_bound. apply Z.pow_pos_nonneg; lia. Qed.

#[export] Hint Resolve wrap_range : hive.
#[export] Hint Rewrite wrap_small using (unfold in_width in *; lia) : hive.

(** ** Hashing: the [blake3] crate

    Not part of the repository: a function from byte strings to 32 bytes. *)
Class Blake3 : Type := blake3 : list Z -> list Z.
Class Blake3Laws `{Blake3} : Prop := {
  blake3_length (bs : list Z) : length (blake3 bs) = 32%nat;
  blake3_bytes (bs : list Z) : Forall (in_width 8) (blake3 bs);
}.

(** [str::as_bytes] *)
Fixpoint as_bytes (s : string) : list Z :=
  match s with
  | EmptyString => []
  | String c s' => Z.of_N (Ascii.N_of_ascii c) :: as_bytes s'
  end.

(** [uN::from_le_bytes] and [uN::to_le_bytes]. *)
Fixpoint of_le_bytes (bs : list Z) : Z :=
  match bs with
  | [] => 0
  | b :: bs' => b + 256 * of_le_bytes bs'
  end.
Fixpoint to_le_bytes (n : nat) (x : Z) : list Z :=
  match n with
  | O => []
  | S n' => x mod 256 :: to_le_bytes n' (x / 256)
  end.

Lemma to_le_bytes_length (n : nat) (x : Z) : length (to_le_bytes n x) = n.
Proof. revert x; induction n as [|n IH]; intros x; simpl; [done|by rewrite IH]. Qed.

Lemma of_to_le_bytes (n : nat) (x : Z) :
  0 <= x < 256 ^ Z.of_nat n -> of_le_bytes (to_le_bytes n x) = x.
Proof.
  revert x; induction n as [|n IH]; intros x Hx; simpl.
  - simpl in Hx. lia.
  - rewrite Nat2Z.inj_succ, Z.pow_succ_r in Hx by lia.
    rewrite IH; [pose proof (Z.div_mod x 256); lia|].
    split; [apply Z.div_pos; lia|]. apply Z.div_lt_upper_bound; lia.
Qed.

(** ** Folds of an associative, commutative, idempotent operation

    The result depends only on the set of elements folded. *)
Section aci.
Context {A : Type} (op : A -> A -> A).
Context (op_assoc : forall x y z, op x (op y z) = op (op x y) z).
Context (op_comm : forall x y, op x y = op y x).
Context (op_idem : forall x, op x x = x).

Lemma foldl_op_shift (x y : A) (l : list A) : foldl op (op x y) l = op x (foldl op y l).
Proof using op_assoc.
  revert x y; induction l as [|z l IH]; intros x y; simpl; [done|].
  by rewrite <- op_assoc, IH.
Qed.

Lemma foldl_op_absorb (x y : A) (l : list A) :
  y ∈ x :: l -> op y (foldl op x l) = foldl op x l.
Proof using op_assoc op_comm op_idem.
  revert x; induction l as [|z l IH]; intros x Hy; simpl.
  - apply list_elem_of_singleton in Hy. subst y. apply op_idem.
  - assert (y = x \/ y = z \/ y ∈ l) as [-> | [-> | Hin]] by set_solver.
    + by rewrite foldl_op_shift, op_assoc, op_idem.
    + by rewrite (op_comm x z), foldl_op_shift, op_assoc, op_idem.
    + rewrite foldl_op_shift, op_assoc, (op_comm y x), <- op_assoc.
      f_equal. apply IH. set_solver.
Qed.

Lemma foldl_op_incl (x y : A) (l k : list A) :
  y :: k ⊆ x :: l -> op (foldl op y k) (foldl op x l) = foldl op x l.
Proof using op_assoc op_comm op_idem.
  revert y; induction k as [|z k IH]; intros y Hsub; simpl.
  - apply foldl_op_absorb. set_solver.
  - rewrite foldl_op_shift, <- op_assoc, (IH z) by set_solver.
    apply foldl_op_absorb. set_solver.
Qed.

(** Same elements, same fold. *)
Lemma foldl_op_same_set (x y : A) (l k : list A) :
  x :: l ≡ y :: k -> foldl op x l = foldl op y k.
Proof using op_assoc op_comm op_idem.
  intros E.
  rewrite <- (foldl_op_incl x y l k), op_comm by (intros z; rewrite E; done).
  apply foldl_op_incl. intros z. by rewrite E.
Qed.
End aci.

Lemma foldl_hom {A B} (f : A -> B) (opA : A -> A -> A) (opB : B -> B -> B) (x : A) (l : list A) :
  (forall x y, f (opA x y) = opB (f x) (f y)) ->
  f (foldl opA x l) = foldl opB (f x) (f <$> l).
Proof.
  intros Hf. revert x; induction l as [|y l IH]; intros x; simpl; [done|].
  by rewrite IH, Hf.
Qed.

(** The image of a list depends, as a set, only on the list as a set. *)
Lemma fmap_same_set {A B} (f : A -> B) (l k : list A) : l ≡ k -> f <$> l ≡ f <$> k.
Proof. intros E x. rewrite !list_elem_of_fmap. by setoid_rewrite E. Qed.

Lemma list_alter_comm {A} (f g : A -> A) (i j : nat) (l : list A) :
  i <> j -> alter f i (alter g j l) = alter g j (alter f i l).
Proof.
  revert i j. induction l as [|x l IH]; intros [|i] [|j] Hij; try done.
  unfold alter in *; simpl. f_equal. apply IH. congruence.
Qed.

(** Membership in a boolean filter. *)
Lemma elem_of_lfilter {A} (f : A -> bool) (l : list A) (x : A) :
  x ∈ List.filter f l <-> x ∈ l /\ f x = true.
Proof. by rewrite !list_elem_of_In, filter_In. Qed.

(** [while let Some(x) = deque.front() { if f(x) { deque.pop_front() } ... }] *)
Fixpoint drop_while {A} (f : A -> bool) (l : list A) : list A :=
  match l with
  | [] => []
  | x :: l' => if f x then drop_while f l' else l
  end.

Lemma drop_while_suffix {A} (f : A -> bool) (l : list A) : drop_while f l `suffix_of` l.
Proof. induction l as [|x l IH]; simpl; [done|]. destruct (f x); [by apply suffix_cons_r|done]. Qed.

(** A suffix of elements that all stay is never cut. *)
Lemma drop_while_keep {A} (f : A -> bool) (k l : list A) :
  Forall (fun x => f x = false) k -> k `suffix_of` l -> k `suffix_of` drop_while f l.
Proof.
  intros Hk. induction l as [|x l IH]; simpl; [done|]. intros Hs.
  destruct k as [|y k]; [apply suffix_nil|]. apply suffix_cons_inv in Hs as [[= -> ->]|Hs].
  - apply Forall_cons in Hk as [-> _]. done.
  - destruct (f x); [by apply IH|by apply suffix_cons_r].
Qed.

(** Cutting a sorted list at its front leaves nothing below the cut. *)
Lemma drop_while_sorted (c : Z) (l : list Z) :
  StronglySorted Z.le l -> Forall (fun x => c <= x) (drop_while (fun x => x <? c) l).
Proof.
  induction 1 as [|x l Hs IH Hx]; simpl; [done|]. destruct (Z.ltb_spec x c); [done|].
  constructor; [done|]. eapply Forall_impl; [exact Hx|]. intros y Hy. simpl in *. lia.
Qed.

(** ** Binary codecs: the [postcard] crate

    Not part of the repository: a partial encoder and a decoder that returns
    the unread bytes, with the documented round trip. *)
Class Codec (A : Type) : Type := {
  encode_bytes : A -> option (list Z);
  take_from_bytes : list Z -> option (A * list Z);
}.
Class CodecLaws (A : Type) `{Codec A} : Prop :=
  codec_roundtrip (a : A) (bs rest : list Z) :
    encode_bytes a = Some bs -> take_from_bytes (bs ++ rest) = Some (a, rest).

(** A codec that satisfies the law, for any countable type: one number, then
    [pad] zeroes. *)
Definition codec_ref (pad : nat) (A : Type) `{Countable A} : Codec A := {|
  encode_bytes a := Some (Z.pos (encode a) :: replicate pad 0);
  take_from_bytes bs :=
    match bs with
    | Z.pos p :: rest => (fun a => (a, drop pad rest)) <$> decode p
    | _ => None
    end;
|}.

Lemma codec_ref_laws (pad : nat) (A : Type) `{Countable A} : @CodecLaws A (codec_ref pad A).
Proof.
  intros a bs rest. unfold encode_bytes, take_from_bytes, codec_ref. intros [= <-]. simpl.
  rewrite decode_encode. simpl. rewrite drop_app_length'; [done|by rewrite length_replicate].
Qed.

(** [crc32fast::hash], likewise. *)
Class Crc32 : Type := crc32 : list Z -> Z.
Class Crc32Laws `{Crc32} : Prop := crc32_range (bs : list Z) : in_width 32 (crc32 bs).

(** [Read::read_exact]: [None] is the [UnexpectedEof] error. *)
Definition read_exact (n : nat) (bs : list Z) : option (list Z * list Z) :=
  if (n <=? length bs)%nat then Some (take n bs, drop n bs) else None.

Lemma read_exact_app (bs rest : list Z) : read_exact (length bs) (bs ++ rest) = Some (bs, rest).
Proof.
  unfold read_exact. rewrite length_app, (proj2 (Nat.leb_le _ _)) by lia.
  by rewrite take_app_length, drop_app_length.
Qed.

Lemma read_exact_Some (n : nat) (bs chunk rest : list Z) :
  read_exact n bs = Some (chunk, rest) -> bs = chunk ++ rest /\ length chunk = n.
Proof.
  unfold read_exact. destruct (Nat.leb_spec n (length bs)); [|done]. intros [= <- <-].
  rewrite take_drop, length_take. split; [done|lia].
Qed.

Lemma read_exact_None (n : nat) (bs : list Z) :
  read_exact n bs = None <-> (length bs < n)%nat.
Proof. unfold read_exact. destruct (Nat.leb_spec n (length bs)); naive_solver lia. Qed.

(** Inserting the entries of a map, in any enumeration, rebuilds the map. *)
Lemma foldl_insert_union `{Countable K} {A} (l : list (K * A)) (m : gmap K A) :
  NoDup l.*1 -> foldl (fun c p => <[p.1 := p.2]> c) m l = list_to_map l ∪ m.
Proof.
  revert m. induction l as [|[k v] l IH]; intros m Hnd; simpl; [by rewrite (left_id_L ∅ (∪))|].
  apply NoDup_cons in Hnd as [Hk Hnd]. rewrite IH by done. simpl.
  rewrite <- insert_union_l. symmetry. apply insert_union_r.
  by apply not_elem_of_list_to_map_1.
Qed.

Lemma foldl_insert_map_to_list `{Countable K} {A} (m : gmap K A) :
  foldl (fun c p => <[p.1 := p.2]> c) ∅ (map_to_list m) = m.
Proof.
  rewrite foldl_insert_union by apply NoDup_fst_map_to_list.
  by rewrite list_to_map_to_list, (right_id_L ∅ (∪)).
Qed.

(** The same when the key is a field of the value. *)
Lemma foldl_insert_values `{Countable K} {A} (key : A -> K) (m : gmap K A) :
  (forall k v, m !! k = Some v -> key v = k) ->
  foldl (fun c v => <[key v := v]> c) ∅ (map_to_list m).*2 = m.
Proof.
  intros Hkey. rewrite <- (foldl_insert_map_to_list m) at 2.
  generalize (∅ : gmap K A) as c.
  assert (Forall (fun p : K * A => key p.2 = p.1) (map_to_list m)) as Hf.
  { apply Forall_forall. intros [k v] Hin. apply elem_of_map_to_list in Hin. by apply Hkey. }
  induction Hf as [|[k v] l Hk _ IH]; intros c; simpl in *; [done|]. by rewrite Hk, IH.
Qed.

(** ** Sorted strings: [sort] on a vector of strings (bytewise order). *)
Definition sort_strings (l : list string) : list string := merge_sort String.le l.

Lemma sort_strings_sorted (l : list string) : StronglySorted String.le (sort_strings l).
Proof. apply (StronglySorted_merge_sort _). Qed.

Lemma sort_strings_perm (l : list string) : sort_strings l ≡ₚ l.
Proof. apply merge_sort_Permutation. Qed.

(** The sorted vector does not depend on the order of the original. *)
Lemma sort_strings_unique (l k : list string) : l ≡ₚ k -> sort_strings l = sort_strings k.
Proof.
  intros Hp. apply (StronglySorted_unique String.le); auto using sort_strings_sorted.
  by rewrite !sort_strings_perm.
Qed.

(** [sort] followed by [dedup]. *)
Definition sort_dedup (l : list string) : list string := sort_strings (elements (list_to_set l : gset string)).

(** ** Hash maps iterate in an unspecified order

    Where the order matters (floating-point sums, what is logged first), the
    enumeration of the keys is a parameter. *)
Class HashOrder : Type := hash_keys : gset string -> list string.
Class HashOrderLaws `{HashOrder} : Prop := hash_keys_perm (X : gset string) : hash_keys X ≡ₚ elements X.
