(* ===== verification/Text.v ===== *)
(** * Text

    What the sources use of Rust's [str], [String] and [fmt]: a string is the
    list of its bytes. Searching and splitting, ASCII case, white space, UTF-8
    with lossy decoding, integer parsing and the formatting of durations. *)
From S2P Require Import Prelude.
From stdpp Require Import pretty.
Local Open Scope Z_scope.

Abbreviation bytes := (list Z) (only parsing).

(** Back from bytes to a string. *)
Fixpoint of_bytes (bs : bytes) : string :=
  match bs with
  | [] => EmptyString
  | b :: bs' => String (Ascii.ascii_of_N (Z.to_N b)) (of_bytes bs')
  end.

Lemma of_as_bytes (s : string) : of_bytes (as_bytes s) = s.
Proof. induction s as [|c s IH]; simpl; [done|]. by rewrite IH, N2Z.id, Ascii.ascii_N_embedding. Qed.

#[export] Instance as_bytes_inj : Inj (=) (=) as_bytes.
Proof. intros s t E. rewrite <- (of_as_bytes s), E. apply of_as_bytes. Qed.

Lemma as_bytes_app (s t : string) : as_bytes (s +:+ t) = as_bytes s ++ as_bytes t.
Proof. induction s as [|c s IH]; [done|]. change (as_bytes (String c s +:+ t)) with (Z.of_N (Ascii.N_of_ascii c) :: as_bytes (s +:+ t)). by rewrite IH. Qed.

Lemma as_bytes_range (s : string) : Forall (in_width 8) (as_bytes s).
Proof.
  induction s as [|c s IH]; simpl; constructor; [|done]. pose proof (Ascii.N_ascii_bounded c). unfold in_width. lia.
Qed.

(** ** Searching *)
Fixpoint starts_with (prefix s : bytes) : bool :=
  match prefix, s with
  | [], _ => true
  | p :: prefix', c :: s' => (p =? c) && starts_with prefix' s'
  | _, [] => false
  end.

Definition ends_with (suffix s : bytes) : bool := starts_with (rev suffix) (rev s).

(** [str::contains], and [str::find]: the first occurrence. *)
Fixpoint contains (pat s : bytes) : bool :=
  starts_with pat s || match s with [] => false | _ :: s' => contains pat s' end.

Fixpoint str_find (pat s : bytes) : option nat :=
  if starts_with pat s then Some 0%nat
  else match s with [] => None | _ :: s' => S <$> str_find pat s' end.

Lemma starts_with_spec (p s : bytes) : starts_with p s = true <-> p `prefix_of` s.
Proof.
  revert s. induction p as [|x p IH]; intros [|y s]; simpl.
  - split; [intros _; by exists []|done].
  - split; [intros _; by exists (y :: s)|done].
  - split; [done|]. intros [k Hk]. done.
  - rewrite andb_true_iff, Z.eqb_eq, IH. split.
    + intros [-> Hp]. by apply prefix_cons.
    + intros Hp. split; [by eapply prefix_cons_inv_1|by eapply prefix_cons_inv_2].
Qed.

Lemma ends_with_spec (p s : bytes) : ends_with p s = true <-> p `suffix_of` s.
Proof.
  unfold ends_with. rewrite starts_with_spec. split.
  - intros [k Hk]. exists (rev k). rewrite <- (rev_involutive s), Hk, rev_app_distr. by rewrite rev_involutive.
  - intros [k ->]. exists (rev k). by rewrite rev_app_distr.
Qed.

Lemma contains_spec (p s : bytes) : contains p s = true <-> exists a b, s = a ++ p ++ b.
Proof.
  induction s as [|c s IH]; simpl; rewrite orb_true_iff, starts_with_spec.
  - split.
    + intros [[k Hk]|]; [by exists [], k|done].
    + intros (a & b & E). left. symmetry in E. apply app_eq_nil in E as [_ E]. by exists b.
  - rewrite IH. split.
    + intros [[k Hk]|(a & b & ->)]; [by exists [], k|by exists (c :: a), b].
    + intros ([|x a] & b & E); [left; by exists b|right]. injection E as _ ->. by exists a, b.
Qed.

Lemma str_find_Some (p s : bytes) (i : nat) : str_find p s = Some i <->
  p `prefix_of` drop i s /\ (i <= length s)%nat /\ forall j, (j < i)%nat -> ~ p `prefix_of` drop j s.
Proof.
  revert i. induction s as [|c s IH]; intros i; simpl; destruct (starts_with p _) eqn:E.
  - apply starts_with_spec in E. split.
    + intros [= <-]. split_and!; [done|lia|intros; lia].
    + intros (_ & Hl & _). simpl in Hl. f_equal. lia.
  - split; [done|]. intros (Hp & Hl & _). assert (i = 0)%nat by (simpl in Hl; lia). subst i.
    apply starts_with_spec in Hp. simpl in Hp. congruence.
  - apply starts_with_spec in E. split.
    + intros [= <-]. split_and!; [done|lia|intros; lia].
    + intros (_ & _ & Hmin). destruct i as [|i]; [done|]. destruct (Hmin 0%nat); [lia|done].
  - rewrite fmap_Some. setoid_rewrite IH. split.
    + intros (k & (Hp & Hl & Hmin) & ->). split_and!; [done|simpl; lia|]. intros [|j] Hj; simpl.
      * rewrite <- starts_with_spec. congruence.
      * apply Hmin. lia.
    + intros (Hp & Hl & Hmin). destruct i as [|i]; [apply starts_with_spec in Hp; simpl in Hp; congruence|].
      exists i. simpl in *. split_and!; [done|lia| |done]. intros j Hj. apply (Hmin (S j)). lia.
Qed.

Lemma str_find_None (p s : bytes) : str_find p s = None <-> contains p s = false.
Proof.
  induction s as [|c s IH]; simpl; destruct (starts_with p _); simpl; try done. by rewrite fmap_None.
Qed.

(** [s.split(pred).next()]: everything before the first match. *)
Fixpoint before (f : Z -> bool) (s : bytes) : bytes :=
  match s with
  | [] => []
  | c :: s' => if f c then [] else c :: before f s'
  end.

(** [s.split_once(c)] *)
Fixpoint split_once (c : Z) (s : bytes) : option (bytes * bytes) :=
  match s with
  | [] => None
  | x :: s' => if x =? c then Some ([], s') else (fun '(a, b) => (x :: a, b)) <$> split_once c s'
  end.

(** [s.rsplit(c).next()] and [s.rfind(c)], as what follows and precedes the
    last match. *)
Definition after_last (c : Z) (s : bytes) : bytes := rev (before (Z.eqb c) (rev s)).
Definition rsplit_once (c : Z) (s : bytes) : option (bytes * bytes) :=
  (fun '(a, b) => (rev b, rev a)) <$> split_once c (rev s).

(** [s.rsplit_once(pat)]: around the last occurrence. *)
Definition rsplit_once_str (pat s : bytes) : option (bytes * bytes) :=
  match str_find (rev pat) (rev s) with
  | Some i => let n := (length s - i - length pat)%nat in Some (take n s, drop (n + length pat) s)
  | None => None
  end.
(** [s.strip_prefix(pat)] *)
Definition strip_prefix (pat s : bytes) : option bytes := if starts_with pat s then Some (drop (length pat) s) else None.

Lemma strip_prefix_app (pat s : bytes) : strip_prefix pat (pat ++ s) = Some s.
Proof.
  unfold strip_prefix. assert (starts_with pat (pat ++ s) = true) as -> by (apply starts_with_spec; by eexists).
  by rewrite drop_app_length.
Qed.

Lemma rsplit_once_str_end (pat s : bytes) : rsplit_once_str pat (s ++ pat) = Some (s, []).
Proof.
  unfold rsplit_once_str. rewrite rev_app_distr.
  assert (E : str_find (rev pat) (rev pat ++ rev s) = Some 0%nat).
  { destruct (rev pat ++ rev s) eqn:E; cbn [str_find]; rewrite <- E;
      (assert (starts_with (rev pat) (rev pat ++ rev s) = true) as -> by (apply starts_with_spec; by eexists)); done. }
  rewrite E, length_app, Nat.sub_0_r. replace (length s + length pat - length pat)%nat with (length s) by lia.
  rewrite take_app_length, drop_ge; [done|]. rewrite length_app. lia.
Qed.

(** The last occurrence of a byte splits in one way. *)
Lemma last_split (c : Z) (a b a' b' : bytes) : a ++ c :: b = a' ++ c :: b' -> c ∉ b -> c ∉ b' -> a = a' /\ b = b'.
Proof.
  revert a'. induction a as [|x a IH]; intros [|y a'] E Hb Hb'; simplify_eq/=.
  - done.
  - destruct Hb. apply elem_of_app. right. left.
  - destruct Hb'. apply elem_of_app. right. left.
  - destruct (IH a') as [-> ->]; done.
Qed.
(** The first, too. *)
Lemma first_split (c : Z) (a b a' b' : bytes) : a ++ c :: b = a' ++ c :: b' -> c ∉ a -> c ∉ a' -> a = a' /\ b = b'.
Proof.
  revert a'. induction a as [|x a IH]; intros [|y a'] E Ha Ha'; simplify_eq/=.
  - done.
  - destruct Ha'. left.
  - destruct Ha. left.
  - apply not_elem_of_cons in Ha as [_ Ha]. apply not_elem_of_cons in Ha' as [_ Ha']. destruct (IH a') as [-> ->]; done.
Qed.

(** [s.trim_end_matches(c)] *)
Definition trim_end_matches (c : Z) (s : bytes) : bytes := rev (drop_while (Z.eqb c) (rev s)).

(** [s.split(c)]: always at least one piece. *)
Fixpoint split_on (c : Z) (s : bytes) : list bytes :=
  match s with
  | [] => [[]]
  | x :: s' =>
      match split_on c s' with
      | p :: ps => if x =? c then [] :: p :: ps else (x :: p) :: ps
      | [] => [[]]
      end
  end.

(** [s.lines()]: a line break ends a line, with a carriage return before it. *)
Definition strip_cr (l : bytes) : bytes := if bool_decide (last l = Some 13) then removelast l else l.
Fixpoint lines_of (pieces : list bytes) : list bytes :=
  match pieces with
  | [] => []
  | [p] => if bool_decide (p = []) then [] else [p]
  | p :: ps => strip_cr p :: lines_of ps
  end.
Definition lines (s : bytes) : list bytes := lines_of (split_on 10 s).

Lemma split_on_ne (c : Z) (s : bytes) : exists p ps, split_on c s = p :: ps.
Proof. destruct s as [|x s]; [by exists [], []|]. simpl. destruct (split_on c s) as [|p ps]; [by exists [], []|]. destruct (x =? c); eauto. Qed.
Lemma split_on_sep (c : Z) (a b : bytes) : split_on c (a ++ c :: b) = split_on c a ++ split_on c b.
Proof.
  induction a as [|x a IH]; simpl.
  - destruct (split_on_ne c b) as (p & ps & ->). by rewrite Z.eqb_refl.
  - rewrite IH. destruct (split_on_ne c a) as (p & ps & ->). simpl. by destruct (x =? c).
Qed.
Lemma split_on_free (c : Z) (a : bytes) : c ∉ a -> split_on c a = [a].
Proof.
  induction a as [|x a IH]; intros Hc; simpl; [done|]. apply not_elem_of_cons in Hc as [Hx Ha]. rewrite IH by done.
  by destruct (Z.eqb_spec x c); [congruence|].
Qed.
Lemma split_on_app (c : Z) (w rest : bytes) : c ∉ w -> split_on c (w ++ c :: rest) = w :: split_on c rest.
Proof. intros Hw. by rewrite split_on_sep, (split_on_free c w Hw). Qed.

Lemma split_once_spec (c : Z) (s a b : bytes) :
  split_once c s = Some (a, b) <-> s = a ++ c :: b /\ c ∉ a.
Proof.
  revert a b. induction s as [|x s IH]; intros a b; simpl.
  - split; [done|]. intros [E _]. by destruct a.
  - destruct (Z.eqb_spec x c) as [->|Hne].
    + split.
      * intros [= <- <-]. split; [done|]. apply not_elem_of_nil.
      * intros [E Hc]. destruct a as [|y a]; [by injection E as ->|]. injection E as -> _. destruct Hc. apply elem_of_cons. by left.
    + rewrite fmap_Some. split.
      * intros ([a' b'] & E & [= -> ->]). apply IH in E as [-> Hc]. split; [done|].
        rewrite not_elem_of_cons. done.
      * intros [E Hc]. destruct a as [|y a]; [by injection E as -> _|]. injection E as -> ->.
        apply not_elem_of_cons in Hc as [_ Hc]. exists (a, b). split; [by apply IH|done].
Qed.

Lemma before_spec (f : Z -> bool) (s : bytes) :
  exists r, s = before f s ++ r /\ Forall (fun c => f c = false) (before f s) /\
    (r = [] \/ exists c r', r = c :: r' /\ f c = true).
Proof.
  induction s as [|c s (r & E & Hf & Hr)]; simpl; [exists []; split_and!; auto|].
  destruct (f c) eqn:Ec; [exists (c :: s); split_and!; eauto|].
  exists r. split_and!; [by rewrite E at 1|by constructor|done].
Qed.

(** ** ASCII case *)
Definition is_ascii_digit (c : Z) : bool := (48 <=? c) && (c <=? 57).
Definition is_ascii_upper (c : Z) : bool := (65 <=? c) && (c <=? 90).
Definition is_ascii_lower (c : Z) : bool := (97 <=? c) && (c <=? 122).
Definition is_ascii_alpha (c : Z) : bool := is_ascii_upper c || is_ascii_lower c.
Definition is_ascii_hexdigit (c : Z) : bool :=
  is_ascii_digit c || ((65 <=? c) && (c <=? 70)) || ((97 <=? c) && (c <=? 102)).

Definition lower_byte (c : Z) : Z := if is_ascii_upper c then c + 32 else c.
Definition upper_byte (c : Z) : Z := if is_ascii_lower c then c - 32 else c.
Definition to_ascii_lowercase (s : bytes) : bytes := lower_byte <$> s.
Definition to_ascii_uppercase (s : bytes) : bytes := upper_byte <$> s.
Definition eq_ignore_ascii_case (s t : bytes) : bool :=
  bool_decide (to_ascii_lowercase s = to_ascii_lowercase t).

Lemma lower_byte_idem (c : Z) : lower_byte (lower_byte c) = lower_byte c.
Proof.
  unfold lower_byte, is_ascii_upper.
  destruct (65 <=? c) eqn:?, (c <=? 90) eqn:?; simpl; breflect;
    rewrite ?(proj2 (Z.leb_le 65 _)), ?(proj2 (Z.leb_gt _ 90)) by lia; simpl; try done.
  all: destruct (65 <=? c) eqn:?, (c <=? 90) eqn:?; simpl; breflect; lia.
Qed.

Lemma to_ascii_lowercase_idem (s : bytes) : to_ascii_lowercase (to_ascii_lowercase s) = to_ascii_lowercase s.
Proof. unfold to_ascii_lowercase. rewrite <- list_fmap_compose. apply list_fmap_ext. intros i c _. apply lower_byte_idem. Qed.

(** ** Integers: [s.parse::<uN>()], with an optional plus sign. *)
Fixpoint parse_digits (acc : Z) (s : bytes) : option Z :=
  match s with
  | [] => Some acc
  | c :: s' => if is_ascii_digit c then parse_digits (10 * acc + (c - 48)) s' else None
  end.

Definition parse_uint (max : Z) (s : bytes) : option Z :=
  let s := match s with 43 :: ((_ :: _) as s') => s' | _ => s end in
  match s with
  | [] => None
  | _ => match parse_digits 0 s with Some n => if n <=? max then Some n else None | None => None end
  end.
Definition parse_u16 : bytes -> option Z := parse_uint (2 ^ 16 - 1).

Lemma parse_digits_ge (s : bytes) (acc n : Z) : 0 <= acc -> parse_digits acc s = Some n -> acc <= n.
Proof.
  revert acc. induction s as [|c s IH]; simpl; intros acc Ha E; [injection E; lia|].
  destruct (is_ascii_digit c) eqn:Ed; [|done]. unfold is_ascii_digit in Ed. breflect. apply IH in E; lia.
Qed.

Lemma parse_digits_digits (s : bytes) (acc n : Z) : parse_digits acc s = Some n -> Forall (fun c => is_ascii_digit c = true) s.
Proof.
  revert acc. induction s as [|c s IH]; intros acc; simpl; [done|]. destruct (is_ascii_digit c) eqn:E; [|done]. intros Hp. constructor; [done|by eapply IH].
Qed.

Lemma parse_uint_range (max n : Z) (s : bytes) : parse_uint max s = Some n -> 0 <= n <= max.
Proof.
  unfold parse_uint. destruct (match s with 43 :: ((_ :: _) as s') => s' | _ => s end) as [|c t]; [done|].
  destruct (parse_digits 0 (c :: t)) as [k|] eqn:E; [|done].
  destruct (Z.leb_spec k max); [|done]. intros [= <-]. apply parse_digits_ge in E; lia.
Qed.

(** ** UTF-8

    One step of the decoder: whether the bytes start with a whole character,
    and how many bytes belong to it (or to the broken sequence). *)
Definition is_continuation (b : Z) : bool := (128 <=? b) && (b <? 192).
Definition in_range (lo hi b : Z) : bool := (lo <=? b) && (b <=? hi).
Definition byte_at (n : nat) (s : bytes) : Z := default 0 (s !! n).

Definition char_width (b : Z) : nat :=
  if b <? 128 then 1 else if in_range 194 223 b then 2 else if in_range 224 239 b then 3
  else if in_range 240 244 b then 4 else 0.

(** The second byte a lead byte allows. *)
Definition second_ok (b c : Z) : bool :=
  if b =? 224 then in_range 160 191 c else if b =? 237 then in_range 128 159 c
  else if b =? 240 then in_range 144 191 c else if b =? 244 then in_range 128 143 c
  else is_continuation c.

Definition utf8_step (s : bytes) : bool * nat :=
  let b := byte_at 0 s in
  match char_width b with
  | 1 => (true, 1)
  | 2 => if second_ok b (byte_at 1 s) then (true, 2) else (false, 1)
  | 3 => if second_ok b (byte_at 1 s) then if is_continuation (byte_at 2 s) then (true, 3) else (false, 2)
         else (false, 1)
  | 4 => if second_ok b (byte_at 1 s) then
           if is_continuation (byte_at 2 s) then if is_continuation (byte_at 3 s) then (true, 4) else (false, 3)
           else (false, 2)
         else (false, 1)
  | _ => (false, 1)
  end%nat.

Fixpoint valid_from (fuel : nat) (s : bytes) : bool :=
  match fuel, s with
  | _, [] => true
  | O, _ => false
  | S fuel', _ => let '(ok, n) := utf8_step s in ok && valid_from fuel' (drop n s)
  end.
Definition valid_utf8 (s : bytes) : bool := valid_from (length s) s.

(** [String::from_utf8_lossy]: each broken sequence becomes U+FFFD. *)
Definition REPLACEMENT : bytes := [239; 191; 189].

Fixpoint lossy_from (fuel : nat) (s : bytes) : bytes :=
  match fuel, s with
  | _, [] => []
  | O, _ => []
  | S fuel', _ =>
      let '(ok, n) := utf8_step s in
      (if ok then take n s else REPLACEMENT) ++ lossy_from fuel' (drop n s)
  end.
Definition from_utf8_lossy (s : bytes) : bytes := lossy_from (length s) s.

Lemma utf8_step_width (s : bytes) : (1 <= (utf8_step s).2)%nat.
Proof. unfold utf8_step. repeat (case_match; simpl; try lia). Qed.

Lemma byte_at_app (n : nat) (s t : bytes) : (n < length s)%nat -> byte_at n (s ++ t) = byte_at n s.
Proof. intros Hn. unfold byte_at. by rewrite lookup_app_l. Qed.

Lemma byte_at_take (n k : nat) (s : bytes) : (n < k)%nat -> byte_at n (take k s) = byte_at n s.
Proof. intros Hn. unfold byte_at. by rewrite lookup_take_lt. Qed.

Lemma byte_at_nonzero (n : nat) (s : bytes) : byte_at n s <> 0 -> (n < length s)%nat.
Proof. unfold byte_at. intros Hb. apply lookup_lt_is_Some. destruct (s !! n); [by eexists|done]. Qed.

Lemma second_ok_nonzero (b c : Z) : second_ok b c = true -> c <> 0.
Proof. unfold second_ok, in_range, is_continuation. intros E ->. by repeat case_match. Qed.

Lemma continuation_nonzero (c : Z) : is_continuation c = true -> c <> 0.
Proof. unfold is_continuation. intros E ->. done. Qed.

(** A whole character is there in full, and decodes the same in any context. *)
Lemma utf8_step_ok (s t : bytes) (n : nat) : s <> [] -> utf8_step s = (true, n) ->
  (n <= length s)%nat /\ utf8_step (take n s ++ t) = (true, n).
Proof.
  intros Hs E.
  assert (Hn : (n <= length s)%nat).
  { assert (0 < length s)%nat by (destruct s; simpl; [done|lia]). unfold utf8_step in E.
    repeat case_match; simplify_eq; try done;
      repeat match goal with
      | H : second_ok _ _ = true |- _ => apply second_ok_nonzero, byte_at_nonzero in H
      | H : is_continuation _ = true |- _ => apply continuation_nonzero, byte_at_nonzero in H
      end; lia. }
  split; [done|].
  assert (Hb : forall i, (i < n)%nat -> byte_at i (take n s ++ t) = byte_at i s).
  { intros i Hi. rewrite byte_at_app by (rewrite length_take; lia). by apply byte_at_take. }
  pose proof (utf8_step_width s) as Hw. rewrite E in Hw. simpl in Hw.
  unfold utf8_step in *. rewrite Hb by lia.
  destruct (char_width _) as [|[|[|[|[|]]]]]; simplify_eq; try done;
    repeat match type of E with context [if ?x then _ else _] => destruct x eqn:? end; simplify_eq;
    rewrite ?(Hb 1%nat), ?(Hb 2%nat), ?(Hb 3%nat) by lia;
    repeat match goal with H : _ = true |- _ => rewrite H end; done.
Qed.

(** More fuel than bytes changes nothing. *)
Lemma valid_from_any (f k : nat) (s : bytes) : (length s <= k)%nat -> (length s <= f)%nat ->
  valid_from f s = valid_from k s.
Proof.
  revert s k. induction f as [|f IH]; intros s k Hk Hf.
  - assert (s = []) as -> by (apply nil_length_inv; lia). by destruct k.
  - destruct s as [|b s]; [by destruct k|]. destruct k as [|k]; [simpl in Hk; lia|]. cbn [valid_from].
    pose proof (utf8_step_width (b :: s)). destruct (utf8_step (b :: s)) as [ok n]. f_equal.
    simpl in *. apply IH; rewrite length_drop; simpl; lia.
Qed.

Lemma valid_from_fuel (f : nat) (s : bytes) : (length s <= f)%nat -> valid_from f s = valid_utf8 s.
Proof. intros Hf. by apply valid_from_any. Qed.

Lemma valid_utf8_cons (s : bytes) (n : nat) : s <> [] -> utf8_step s = (true, n) ->
  valid_utf8 s = valid_utf8 (drop n s).
Proof.
  intros Hs E. unfold valid_utf8 at 1. pose proof (utf8_step_width s) as Hw.
  destruct s as [|b s]; [done|]. cbn [length valid_from]. rewrite E in *. simpl in Hw. cbn [andb].
  apply valid_from_fuel. rewrite length_drop. simpl. lia.
Qed.

Lemma valid_utf8_app_char (c s : bytes) (n : nat) : utf8_step c = (true, n) -> length c = n ->
  valid_utf8 (c ++ s) = valid_utf8 s.
Proof.
  intros E Hl. pose proof (utf8_step_width c) as Hw. rewrite E in Hw. simpl in Hw.
  assert (c <> []) by (intros ->; simpl in Hl; lia).
  destruct (utf8_step_ok c s n) as [_ Es]; [done..|]. rewrite take_ge in Es by lia.
  rewrite (valid_utf8_cons _ n); [|by destruct c|done]. by rewrite <- Hl, drop_app_length.
Qed.

Lemma lossy_from_spec (f : nat) (s : bytes) : (length s <= f)%nat ->
  valid_utf8 (lossy_from f s) = true /\ (valid_utf8 s = true -> lossy_from f s = s).
Proof.
  revert s. induction f as [|f IH]; intros s Hf.
  { assert (s = []) as -> by (apply nil_length_inv; lia). done. }
  destruct s as [|b s]; [done|]. cbn [lossy_from].
  pose proof (utf8_step_width (b :: s)) as Hw. destruct (utf8_step (b :: s)) as [ok n] eqn:E. simpl in Hw.
  destruct (IH (drop n (b :: s))) as [Hv Hid]; [rewrite length_drop; simpl in *; lia|]. destruct ok.
  - destruct (utf8_step_ok (b :: s) [] n) as [Hl Es]; [done..|]. rewrite app_nil_r in Es. split.
    + by rewrite (valid_utf8_app_char _ _ n), Hv by (done || (rewrite length_take; lia)).
    + intros Hs. rewrite (valid_utf8_cons _ n) in Hs by done. by rewrite Hid, take_drop.
  - split; [by rewrite (valid_utf8_app_char _ _ 3)|].
    unfold valid_utf8. simpl valid_from. by rewrite E.
Qed.

(** Lossy decoding always yields a valid string, and keeps valid input. *)
Lemma from_utf8_lossy_valid (s : bytes) : valid_utf8 (from_utf8_lossy s) = true.
Proof. by apply lossy_from_spec. Qed.
Lemma from_utf8_lossy_id (s : bytes) : valid_utf8 s = true -> from_utf8_lossy s = s.
Proof. by apply lossy_from_spec. Qed.

(** ASCII text is valid. *)
Lemma ascii_valid (s : bytes) : Forall (fun b => 0 <= b < 128) s -> valid_utf8 s = true.
Proof.
  induction 1 as [|b s Hb _ IH]; [done|].
  assert (E : utf8_step [b] = (true, 1%nat)).
  { unfold utf8_step, byte_at. simpl. unfold char_width. by rewrite (proj2 (Z.ltb_lt b 128)) by lia. }
  change (b :: s) with ([b] ++ s). by rewrite (valid_utf8_app_char _ _ 1%nat).
Qed.

Lemma lossy_from_any (f k : nat) (s : bytes) : (length s <= k)%nat -> (length s <= f)%nat ->
  lossy_from f s = lossy_from k s.
Proof.
  revert s k. induction f as [|f IH]; intros s k Hk Hf.
  - assert (s = []) as -> by (apply nil_length_inv; lia). by destruct k.
  - destruct s as [|b s]; [by destruct k|]. destruct k as [|k]; [simpl in Hk; lia|]. cbn [lossy_from].
    pose proof (utf8_step_width (b :: s)). destruct (utf8_step (b :: s)) as [ok n]. f_equal.
    simpl in *. apply IH; rewrite length_drop; simpl; lia.
Qed.

Lemma lossy_step (s : bytes) : s <> [] ->
  from_utf8_lossy s = (if (utf8_step s).1 then take (utf8_step s).2 s else REPLACEMENT) ++
                      from_utf8_lossy (drop (utf8_step s).2 s).
Proof.
  intros Hs. unfold from_utf8_lossy at 1. destruct s as [|b s]; [done|]. cbn [length lossy_from].
  pose proof (utf8_step_width (b :: s)) as Hw. destruct (utf8_step (b :: s)) as [ok n]. cbn [fst snd] in *. f_equal.
  apply lossy_from_any; rewrite length_drop; simpl; lia.
Qed.

Lemma second_ok_ascii (b c : Z) : c < 128 -> second_ok b c = false.
Proof.
  intros Hc. unfold second_ok, in_range, is_continuation.
  repeat case_match; apply andb_false_iff; left; apply Z.leb_gt; lia.
Qed.
Lemma continuation_ascii (c : Z) : c < 128 -> is_continuation c = false.
Proof. intros Hc. unfold is_continuation. apply andb_false_iff. left. apply Z.leb_gt. lia. Qed.

Lemma byte_at_cut (i : nat) (a b : bytes) (c : Z) : (i <= length a)%nat ->
  byte_at i (a ++ c :: b) = byte_at i a \/ byte_at i (a ++ c :: b) = c /\ byte_at i a = 0 /\ i = length a.
Proof.
  intros Hi. destruct (decide (i = length a)) as [->|Hne].
  - right. unfold byte_at. rewrite lookup_app_r, Nat.sub_diag by lia. by rewrite (lookup_ge_None_2 a) by lia.
  - left. apply byte_at_app. lia.
Qed.

(** An ASCII byte is never part of another character: decoding stops before it. *)
Lemma utf8_step_cut (a b : bytes) (c : Z) : c < 128 -> a <> [] ->
  utf8_step (a ++ c :: b) = utf8_step a /\ ((utf8_step a).2 <= length a)%nat.
Proof.
  intros Hc Ha. assert (Hl : (1 <= length a)%nat) by (destruct a; simpl; [done|lia]).
  assert (Hcont : forall i, (i <= length a)%nat ->
    is_continuation (byte_at i (a ++ c :: b)) = is_continuation (byte_at i a) /\
    (is_continuation (byte_at i a) = true -> (i < length a)%nat)).
  { intros i Hi. split; [|intros E; by apply byte_at_nonzero, continuation_nonzero].
    destruct (byte_at_cut i a b c Hi) as [->|(-> & -> & _)]; [done|]. by rewrite continuation_ascii. }
  assert (Hsec : forall x, second_ok x (byte_at 1 (a ++ c :: b)) = second_ok x (byte_at 1 a) /\
    (second_ok x (byte_at 1 a) = true -> (1 < length a)%nat)).
  { intros x. split; [|intros E; by eapply byte_at_nonzero, second_ok_nonzero].
    destruct (byte_at_cut 1 a b c Hl) as [->|(-> & -> & _)]; [done|]. by rewrite !second_ok_ascii. }
  unfold utf8_step. rewrite (byte_at_app 0) by lia. set (x := byte_at 0 a).
  destruct (Hsec x) as [-> Hs1].
  destruct (char_width x) as [|[|[|[|[|]]]]]; cbn [snd]; try (split; [done|lia]);
    (destruct (second_ok x (byte_at 1 a)); [specialize (Hs1 eq_refl)|cbn [snd]; split; [done|lia]]); try (split; [done|cbn [snd]; lia]).
  all: destruct (Hcont 2%nat ltac:(lia)) as [-> Hs2];
    (destruct (is_continuation (byte_at 2 a)); [specialize (Hs2 eq_refl)|cbn [snd]; split; [done|lia]]); try (split; [done|cbn [snd]; lia]).
  destruct (Hcont 3%nat ltac:(lia)) as [-> Hs3].
  destruct (is_continuation (byte_at 3 a)); [specialize (Hs3 eq_refl)|]; cbn [snd]; split; (done || lia).
Qed.

Lemma lossy_cut (a b : bytes) (c : Z) : 0 <= c < 128 ->
  from_utf8_lossy (a ++ c :: b) = from_utf8_lossy a ++ c :: from_utf8_lossy b.
Proof.
  intros Hc. remember (length a) as k eqn:Ek. revert a Ek. induction k as [k IH] using lt_wf_ind. intros a ->.
  destruct (decide (a = [])) as [->|Ha].
  - simpl. rewrite lossy_step by done. unfold utf8_step, byte_at, char_width. simpl.
    rewrite (proj2 (Z.ltb_lt c 128)) by lia. done.
  - destruct (utf8_step_cut a b c) as [E Hn]; [lia|done|]. pose proof (utf8_step_width a) as Hw.
    rewrite (lossy_step (a ++ c :: b)) by (by destruct a). rewrite (lossy_step a) by done. rewrite E.
    rewrite take_app_le, drop_app_le, <- app_assoc by lia. f_equal.
    apply (IH (length (drop (utf8_step a).2 a))); [|done]. rewrite length_drop. assert (0 < length a)%nat by (destruct a; simpl; [done|lia]). lia.
Qed.

Lemma lossy_ascii_prefix (p b : bytes) : Forall (fun c => 0 <= c < 128) p ->
  from_utf8_lossy (p ++ b) = p ++ from_utf8_lossy b.
Proof. induction 1 as [|c p Hc _ IH]; [done|]. simpl. rewrite <- IH. apply (lossy_cut [] (p ++ b) c Hc). Qed.

(** Lossy decoding keeps every ASCII substring. *)
Lemma lossy_contains (p s : bytes) : Forall (fun c => 0 <= c < 128) p ->
  contains p s = true -> contains p (from_utf8_lossy s) = true.
Proof.
  intros Hp. rewrite !contains_spec. intros (a & b & ->). destruct Hp as [|c p Hc Hp].
  - by exists [], (from_utf8_lossy (a ++ b)).
  - exists (from_utf8_lossy a), (from_utf8_lossy b). simpl. by rewrite lossy_cut, lossy_ascii_prefix.
Qed.

(** Lower case touches ASCII bytes only, so it commutes with decoding. *)
Lemma lower_byte_wide (b : Z) : 91 <= b -> lower_byte b = b.
Proof. intros Hb. unfold lower_byte, is_ascii_upper. by rewrite (proj2 (Z.leb_gt b 90)), andb_false_r by lia. Qed.

Lemma lower_byte_small (b : Z) : b < 128 -> lower_byte b < 128.
Proof.
  unfold lower_byte, is_ascii_upper. destruct (65 <=? b) eqn:E1, (b <=? 90) eqn:E2; simpl; breflect; lia.
Qed.

Lemma byte_at_lower (i : nat) (s : bytes) : byte_at i (to_ascii_lowercase s) = lower_byte (byte_at i s).
Proof. unfold byte_at, to_ascii_lowercase. rewrite list_lookup_fmap. by destruct (s !! i). Qed.

Lemma utf8_step_lower (s : bytes) : utf8_step (to_ascii_lowercase s) = utf8_step s.
Proof.
  assert (Hc : forall c, is_continuation (lower_byte c) = is_continuation c).
  { intros c. destruct (Z.lt_ge_cases c 128) as [Hlt|Hge]; [|by rewrite lower_byte_wide by lia].
    rewrite !continuation_ascii by (done || by apply lower_byte_small). done. }
  assert (Hs : forall b c, second_ok b (lower_byte c) = second_ok b c).
  { intros b c. destruct (Z.lt_ge_cases c 128) as [Hlt|Hge]; [|by rewrite lower_byte_wide by lia].
    rewrite !second_ok_ascii by (done || by apply lower_byte_small). done. }
  unfold utf8_step. rewrite !byte_at_lower, !Hc, !Hs. destruct (Z.lt_ge_cases (byte_at 0 s) 128) as [Hlt|Hge].
  - unfold char_width. rewrite !(proj2 (Z.ltb_lt _ 128)) by (done || by apply lower_byte_small). done.
  - by rewrite lower_byte_wide by lia.
Qed.

Lemma lossy_lower (s : bytes) : from_utf8_lossy (to_ascii_lowercase s) = to_ascii_lowercase (from_utf8_lossy s).
Proof.
  remember (length s) as k eqn:Ek. revert s Ek. induction k as [k IH] using lt_wf_ind. intros s ->.
  destruct (decide (s = [])) as [->|Hs]; [done|]. pose proof (utf8_step_width s) as Hw.
  rewrite lossy_step by (by destruct s). rewrite (lossy_step s) by done. rewrite utf8_step_lower.
  unfold to_ascii_lowercase in *. rewrite fmap_app, <- fmap_drop, <- fmap_take. f_equal.
  - by destruct (utf8_step s).1.
  - apply (IH (length (drop (utf8_step s).2 s))); [|done]. rewrite length_drop.
    assert (0 < length s)%nat by (destruct s; simpl; [done|lia]). lia.
Qed.

(** The first character of a valid string: a lead byte, then continuations. *)
Lemma second_ok_continuation (b c : Z) : second_ok b c = true -> is_continuation c = true.
Proof.
  unfold second_ok, in_range, is_continuation. repeat case_match; try done; intros; breflect;
    apply andb_true_iff; rewrite Z.leb_le, Z.ltb_lt; lia.
Qed.

Lemma valid_first_char (b : Z) (s : bytes) : valid_utf8 (b :: s) = true ->
  is_continuation b = false /\ (1 <= char_width b <= length (b :: s))%nat /\
  forall j, (0 < j < char_width b)%nat -> is_continuation (byte_at j (b :: s)) = true.
Proof.
  unfold valid_utf8. cbn [length valid_from]. destruct (utf8_step (b :: s)) as [ok n] eqn:E. intros Hv.
  apply andb_true_iff in Hv as [-> _]. destruct (utf8_step_ok (b :: s) [] n) as [Hn _]; [done..|].
  assert (Hb : is_continuation b = false).
  { destruct (is_continuation b) eqn:Hc; [|done]. exfalso. unfold is_continuation in Hc. breflect.
    unfold utf8_step, char_width, in_range in E. simpl in E. change (byte_at 0 (b :: s)) with b in E.
    rewrite (proj2 (Z.ltb_ge b 128)), (proj2 (Z.leb_gt 194 b)), (proj2 (Z.leb_gt 224 b)), (proj2 (Z.leb_gt 240 b)) in E by lia.
    done. }
  split; [done|]. unfold utf8_step in E. change (byte_at 0 (b :: s)) with b in E.
  destruct (char_width b) as [|[|[|[|[|]]]]]; try done;
    repeat match type of E with context [if ?x then _ else _] => destruct x eqn:? end; simplify_eq;
    (split; [split; [lia|exact Hn]|]); intros j Hj;
    repeat match goal with H : second_ok _ _ = true |- _ => apply second_ok_continuation in H end;
    destruct j as [|[|[|[|]]]]; (lia || done).
Qed.

(** [is_char_boundary], and the slice [&s[..n]], which panics off a boundary. *)
Definition is_char_boundary (n : nat) (s : bytes) : bool :=
  match s !! n with
  | Some b => negb (is_continuation b)
  | None => (n =? length s)%nat
  end || (n =? 0)%nat.

Definition slice_to (n : nat) (s : bytes) : option bytes :=
  if is_char_boundary n s then Some (take n s) else None.

(** The UTF-8 encoding of a character. *)
Definition encode_char (c : Z) : bytes :=
  if c <? 128 then [c]
  else if c <? 2048 then [192 + c / 64; 128 + c mod 64]
  else if c <? 65536 then [224 + c / 4096; 128 + c / 64 mod 64; 128 + c mod 64]
  else [240 + c / 262144; 128 + c / 4096 mod 64; 128 + c / 64 mod 64; 128 + c mod 64].
Definition utf8 (s : bytes) : bytes := c ← s; encode_char c.

(** [&s[..i]] with [i] the start of character number [max], or all of [s]. *)
Fixpoint truncate_chars (max : nat) (s : bytes) : bytes :=
  match s with
  | [] => []
  | b :: s' =>
      if is_continuation b then b :: truncate_chars max s'
      else match max with O => [] | S max' => b :: truncate_chars max' s' end
  end.

(** ** White space: [str::trim] removes the characters of Unicode's
    [White_Space], here by their encodings. *)
Definition WHITE_SPACE : list bytes :=
  [[9]; [10]; [11]; [12]; [13]; [32]; [194; 133]; [194; 160]; [225; 154; 128];
   [226; 128; 128]; [226; 128; 129]; [226; 128; 130]; [226; 128; 131]; [226; 128; 132]; [226; 128; 133];
   [226; 128; 134]; [226; 128; 135]; [226; 128; 136]; [226; 128; 137]; [226; 128; 138];
   [226; 128; 168]; [226; 128; 169]; [226; 128; 175]; [226; 129; 159]; [227; 128; 128]].

(** Remove any of the sequences from the front, as long as one is there. *)
Fixpoint strip_front (fuel : nat) (pats : list bytes) (s : bytes) : bytes :=
  match fuel with
  | O => s
  | S fuel' =>
      match List.find (fun p => starts_with p s) pats with
      | Some p => strip_front fuel' pats (drop (length p) s)
      | None => s
      end
  end.

Definition trim_start (s : bytes) : bytes := strip_front (length s) WHITE_SPACE s.
Definition trim_end (s : bytes) : bytes := rev (strip_front (length s) ((@rev Z) <$> WHITE_SPACE) (rev s)).
Definition trim (s : bytes) : bytes := trim_end (trim_start s).

(** White space at the front, and everything before the first of it. *)
Definition white_prefix (s : bytes) : option bytes := List.find (fun w => starts_with w s) WHITE_SPACE.
Fixpoint before_white (s : bytes) : bytes :=
  match s with
  | [] => []
  | c :: s' => if bool_decide (white_prefix s = None) then c :: before_white s' else []
  end.
(** [split_whitespace]; [word] is the word at hand, reversed. *)
Fixpoint words_from (fuel : nat) (word : bytes) (s : bytes) : list bytes :=
  let flush (l : list bytes) := match word with [] => l | _ => rev word :: l end in
  match fuel, s with
  | S fuel', c :: s' =>
      match white_prefix s with
      | Some w => flush (words_from fuel' [] (drop (length w) s))
      | None => words_from fuel' (c :: word) s'
      end
  | _, _ => flush []
  end.
Definition split_whitespace (s : bytes) : list bytes := words_from (length s) [] s.
(** [trim_matches] of a set of ASCII characters. *)
Definition trim_chars (set : bytes) (s : bytes) : bytes :=
  let f c := bool_decide (c ∈ set) in rev (drop_while f (rev (drop_while f s))).

(** ** Formatting *)
Definition fmt_uint (n : Z) : string := pretty n.

(** Leading zeros up to a width. *)
Definition pad_zeros (width : nat) (s : string) : string :=
  of_bytes (replicate (width - String.length s) 48 ++ as_bytes s).

(** [{:?}] of a [Duration]: the largest unit with a non-zero integer part, and
    the fraction without trailing zeros. *)
Definition fmt_decimal (int frac : Z) (digits : nat) (unit : string) : string :=
  let f := of_bytes (trim_end_matches 48 (as_bytes (pad_zeros digits (fmt_uint frac)))) in
  (fmt_uint int +:+ (if decide (frac = 0) then "" else "." +:+ f) +:+ unit)%string.

Definition fmt_duration (d : Duration) : string :=
  if nanos_per_sec <=? d then fmt_decimal (d / nanos_per_sec) (d mod nanos_per_sec) 9 "s"
  else if 1000000 <=? d then fmt_decimal (d / 1000000) (d mod 1000000) 6 "ms"
  else if 1000 <=? d then fmt_decimal (d / 1000) (d mod 1000) 3 "µs"
  else fmt_decimal d 0 1 "ns".

Example fmt_duration_samples :
  fmt_duration (secs 600) = "600s"%string /\ fmt_duration (millis 1500) = "1.5s"%string /\
  fmt_duration 2000050 = "2.00005ms"%string /\ fmt_duration 0 = "0ns"%string.
Proof. by vm_compute. Qed.

Example parse_u16_samples :
  parse_u16 (as_bytes "+443") = Some 443 /\ parse_u16 (as_bytes "70000") = None /\
  parse_u16 (as_bytes "+") = None /\ parse_u16 [] = None.
Proof. by vm_compute. Qed.

(** ** Unicode lower case

    [str::to_lowercase] needs the Unicode case tables: a parameter that agrees
    with ASCII lower case on ASCII text. *)
Class UnicodeLower : Type := str_to_lowercase : bytes -> bytes.
Class UnicodeLowerLaws `{UnicodeLower} : Prop :=
  str_to_lowercase_ascii (s : bytes) :
    Forall (fun b => 0 <= b < 128) s -> str_to_lowercase s = to_ascii_lowercase s.

(** ** Characters: [s.chars()], as code points. *)
Definition decode_char (c : bytes) : Z :=
  match c with
  | [b1; b2] => (b1 - 192) * 64 + (b2 - 128)
  | [b1; b2; b3] => (b1 - 224) * 4096 + (b2 - 128) * 64 + (b3 - 128)
  | [b1; b2; b3; b4] => (b1 - 240) * 262144 + (b2 - 128) * 4096 + (b3 - 128) * 64 + (b4 - 128)
  | b :: _ => b
  | [] => 0
  end.

Fixpoint chars_from (fuel : nat) (s : bytes) : list Z :=
  match fuel, s with
  | S fuel', _ :: _ => let n := (utf8_step s).2 in decode_char (take n s) :: chars_from fuel' (drop n s)
  | _, _ => []
  end.
Definition chars (s : bytes) : list Z := chars_from (length s) s.

Example chars_samples : chars (as_bytes "aé€😀") = [97; 233; 8364; 128512].
Proof. by vm_compute. Qed.

Lemma chars_ascii (s : bytes) : Forall (fun b => 0 <= b < 128) s -> chars s = s.
Proof.
  unfold chars. induction 1 as [|b s Hb Hs IH]; [done|]. cbn [length chars_from].
  assert (E : utf8_step (b :: s) = (true, 1%nat)).
  { unfold utf8_step, char_width. change (byte_at 0 (b :: s)) with b. by destruct (Z.ltb_spec b 128); [|lia]. }
  rewrite E. change (b :: chars_from (length s) s = b :: s). by rewrite IH.
Qed.
