(* ===== verification/Models.v ===== *)
(** * Data model: addresses, networks, events, signals and ban records

    [hiveguard-core/src/models.rs], [errors.rs], and the [ipnet] crate's types
    as the sources use them. *)
From S2P Require Import Prelude.
From stdpp Require Import pretty.
From Stdlib Require Import SpecFloat.
Local Open Scope Z_scope.

(** ** Addresses and networks

    [std::net::IpAddr]: the address as its 32- or 128-bit integer. *)
Inductive IpAddr : Type :=
| IpV4 (bits : Z)
| IpV6 (bits : Z).

(** [ipnet::IpNet]: an address and a prefix length, host bits kept. *)
Inductive IpNet : Type :=
| NetV4 (bits : Z) (plen : nat)
| NetV6 (bits : Z) (plen : nat).

#[export] Instance IpAddr_eq_dec : EqDecision IpAddr.
Proof. solve_decision. Defined.
#[export] Instance IpNet_eq_dec : EqDecision IpNet.
Proof. solve_decision. Defined.

Definition IpAddr_to_sum (a : IpAddr) : Z + Z :=
  match a with IpV4 b => inl b | IpV6 b => inr b end.
Definition IpAddr_of_sum (s : Z + Z) : IpAddr :=
  match s with inl b => IpV4 b | inr b => IpV6 b end.
#[export] Program Instance IpAddr_countable : Countable IpAddr :=
  inj_countable' IpAddr_to_sum IpAddr_of_sum _.
Next Obligation. by intros []. Qed.

Definition IpNet_to_sum (n : IpNet) : (Z * nat) + (Z * nat) :=
  match n with NetV4 b p => inl (b, p) | NetV6 b p => inr (b, p) end.
Definition IpNet_of_sum (s : (Z * nat) + (Z * nat)) : IpNet :=
  match s with inl (b, p) => NetV4 b p | inr (b, p) => NetV6 b p end.
#[export] Program Instance IpNet_countable : Countable IpNet :=
  inj_countable' IpNet_to_sum IpNet_of_sum _.
Next Obligation. by intros []. Qed.

Definition net_addr (n : IpNet) : IpAddr :=
  match n with NetV4 b _ => IpV4 b | NetV6 b _ => IpV6 b end.
Definition prefix_len (n : IpNet) : nat :=
  match n with NetV4 _ p | NetV6 _ p => p end.

Definition net_bits (n : IpNet) : Z :=
  match n with NetV4 b _ | NetV6 b _ => b end.
Definition ip_bits (a : IpAddr) : Z :=
  match a with IpV4 b | IpV6 b => b end.
Definition net_width (n : IpNet) : nat :=
  match n with NetV4 _ _ => 32%nat | NetV6 _ _ => 128%nat end.
Definition ip_width (a : IpAddr) : nat :=
  match a with IpV4 _ => 32%nat | IpV6 _ => 128%nat end.

(** What the Rust types guarantee of every value. *)
Definition wf_ip (a : IpAddr) : Prop := in_width (Z.of_nat (ip_width a)) (ip_bits a).
Definition wf_net (n : IpNet) : Prop :=
  wf_ip (net_addr n) /\ (prefix_len n <= net_width n)%nat.

(** The first [p] bits of a [w]-bit address, and the address with the
    remaining bits cleared. *)
Definition top_bits (w p : nat) (a : Z) : Z := Z.shiftr a (Z.of_nat (w - p)).
Definition mask_bits (w p : nat) (a : Z) : Z :=
  Z.shiftl (top_bits w p a) (Z.of_nat (w - p)).

Definition trunc_ref (n : IpNet) : IpNet :=
  match n with
  | NetV4 b p => NetV4 (mask_bits 32 p b) p
  | NetV6 b p => NetV6 (mask_bits 128 p b) p
  end.

(** Membership of an address in a network: same family, same first
    [prefix_len] bits. *)
Definition in_net (n : IpNet) (a : IpAddr) : Prop :=
  net_width n = ip_width a /\
  top_bits (net_width n) (prefix_len n) (net_bits n) =
  top_bits (net_width n) (prefix_len n) (ip_bits a).

#[export] Instance in_net_dec (n : IpNet) (a : IpAddr) : Decision (in_net n a).
Proof. unfold in_net. apply _. Defined.

(** ** The [ipnet] crate

    Not part of the repository: its operations are a parameter, and the laws
    state what its documentation promises of them on well-formed values
    ([trunc] clears the host bits, [contains] is address containment, [new]
    refuses a prefix longer than the address). *)
Class IpNetOps : Type := {
  net_trunc : IpNet -> IpNet;
  net_contains : IpNet -> IpAddr -> bool;
  ipnet_new : IpAddr -> nat -> option IpNet;
  net_to_string : IpNet -> string;
  ip_to_string : IpAddr -> string;
}.

Class IpNetLaws `{IpNetOps} : Prop := {
  net_trunc_law (n : IpNet) : wf_net n -> net_trunc n = trunc_ref n;
  net_contains_law (n : IpNet) (a : IpAddr) :
    wf_net n -> wf_ip a -> net_contains n a = true <-> in_net n a;
  ipnet_new_law (a : IpAddr) (p : nat) :
    ipnet_new a p =
      if decide (p <= ip_width a)%nat
      then Some (match a with IpV4 b => NetV4 b p | IpV6 b => NetV6 b p end)
      else None;
  net_to_string_inj (n m : IpNet) :
    wf_net n -> wf_net m -> net_to_string n = net_to_string m -> n = m;
}.

Lemma top_bits_mask (w p : nat) (a : Z) : top_bits w p (mask_bits w p a) = top_bits w p a.
Proof.
  unfold mask_bits, top_bits.
  rewrite Z.shiftr_shiftl_l, Z.sub_diag, Z.shiftl_0_r; lia.
Qed.

Lemma mask_bits_idem (w p : nat) (a : Z) : mask_bits w p (mask_bits w p a) = mask_bits w p a.
Proof. unfold mask_bits at 1. by rewrite top_bits_mask. Qed.

Lemma mask_bits_alt (w p : nat) (a : Z) :
  mask_bits w p a = a - a mod 2 ^ Z.of_nat (w - p).
Proof.
  unfold mask_bits, top_bits.
  rewrite Z.shiftl_mul_pow2, Z.shiftr_div_pow2 by lia.
  pose proof (Z.div_mod a (2 ^ Z.of_nat (w - p))). lia.
Qed.

Lemma mask_bits_range (w p : nat) (a : Z) :
  in_width (Z.of_nat w) a -> in_width (Z.of_nat w) (mask_bits w p a).
Proof.
  unfold in_width. rewrite mask_bits_alt. intros [? ?].
  pose proof (Z.mod_pos_bound a (2 ^ Z.of_nat (w - p)) ltac:(lia)).
  pose proof (Z.mod_le a (2 ^ Z.of_nat (w - p)) ltac:(lia) ltac:(lia)). lia.
Qed.

(** A shorter prefix sees fewer bits. *)
Lemma top_bits_shorter (w p q : nat) (a b : Z) :
  (p <= q <= w)%nat -> top_bits w q a = top_bits w q b -> top_bits w p a = top_bits w p b.
Proof.
  unfold top_bits. intros [? ?] E.
  replace (Z.of_nat (w - p)) with (Z.of_nat (w - q) + Z.of_nat (q - p)) by lia.
  by rewrite <- !Z.shiftr_shiftr, E by lia.
Qed.

Lemma mask_bits_eq (w p : nat) (a b : Z) :
  mask_bits w p a = mask_bits w p b <-> top_bits w p a = top_bits w p b.
Proof.
  split.
  - intros E. apply (f_equal (top_bits w p)) in E. by rewrite !top_bits_mask in E.
  - unfold mask_bits. by intros ->.
Qed.

(** ** Facts about networks, from the laws *)
Definition canonical (n : IpNet) : Prop := trunc_ref n = n.

#[export] Instance canonical_dec (n : IpNet) : Decision (canonical n).
Proof. unfold canonical. apply _. Defined.

(** The network of prefix length [p] around an address. *)
Definition net_around (a : IpAddr) (p : nat) : IpNet :=
  match a with
  | IpV4 b => NetV4 (mask_bits 32 p b) p
  | IpV6 b => NetV6 (mask_bits 128 p b) p
  end.

Lemma trunc_ref_canonical (n : IpNet) : canonical (trunc_ref n).
Proof. destruct n; unfold canonical; simpl; by rewrite mask_bits_idem. Qed.

Lemma trunc_ref_wf (n : IpNet) : wf_net n -> wf_net (trunc_ref n).
Proof.
  destruct n; unfold wf_net, wf_ip; simpl; intros [? ?]; (split; [|done]);
    by apply mask_bits_range.
Qed.

Lemma net_around_canonical (a : IpAddr) (p : nat) : canonical (net_around a p).
Proof. destruct a; unfold canonical; simpl; by rewrite mask_bits_idem. Qed.

Lemma in_net_around (a : IpAddr) (p : nat) : in_net (net_around a p) a.
Proof. destruct a; split; simpl; [done | apply top_bits_mask | done | apply top_bits_mask]. Qed.

(** A canonical network containing an address is the network of its own
    prefix length around that address. *)
Lemma canonical_in_net (n : IpNet) (a : IpAddr) :
  canonical n -> in_net n a -> n = net_around a (prefix_len n).
Proof.
  unfold canonical, in_net.
  destruct n as [b p|b p], a as [c|c]; simpl; intros Hc [Hw Ht]; try done;
    rewrite <- Hc at 1; f_equal; by apply mask_bits_eq.
Qed.

Lemma trunc_ref_in_net (n : IpNet) (a : IpAddr) : in_net (trunc_ref n) a <-> in_net n a.
Proof. destruct n; unfold in_net; simpl; by rewrite top_bits_mask. Qed.

Lemma in_net_addr (n : IpNet) : in_net n (net_addr n).
Proof. by destruct n. Qed.

(** Two networks that share an address nest: the wider one contains the
    other's network address. *)
Lemma in_net_nest (n m : IpNet) (a : IpAddr) :
  wf_net m -> in_net n a -> in_net m a -> (prefix_len n <= prefix_len m)%nat ->
  in_net n (net_addr m).
Proof.
  unfold in_net, wf_net.
  destruct n as [b p|b p], m as [c q|c q], a as [d|d]; simpl;
    intros [? ?] [? Hn] [? Hm] ?; try done;
    (split; [done|]; rewrite Hn; symmetry; by apply (top_bits_shorter _ _ q)).
Qed.

(** A wider network around the network address of [m] contains all of [m]. *)
Lemma in_net_widen (n m : IpNet) (a : IpAddr) :
  wf_net m -> in_net n (net_addr m) -> (prefix_len n <= prefix_len m)%nat -> in_net m a -> in_net n a.
Proof.
  unfold in_net, wf_net.
  destruct n as [b p|b p], m as [c q|c q], a as [d|d]; simpl;
    intros [? ?] [? Hn] ? [? Hm]; try done; (split; [done|]; rewrite Hn; by apply (top_bits_shorter _ _ q)).
Qed.

(** ** A reference implementation of the contract

    Used by the witnesses, to show that the laws are satisfiable. Printing
    only has to be injective, so it prints a code of the network. *)
Definition net_to_string_ref (n : IpNet) : string := pretty (N.pos (encode n)).
Definition ip_to_string_ref (a : IpAddr) : string := pretty (N.pos (encode a)).

Definition ipnet_new_ref (a : IpAddr) (p : nat) : option IpNet :=
  if decide (p <= ip_width a)%nat
  then Some (match a with IpV4 b => NetV4 b p | IpV6 b => NetV6 b p end)
  else None.

Definition ipnet_ref : IpNetOps := {|
  net_trunc := trunc_ref;
  net_contains n a := bool_decide (in_net n a);
  ipnet_new := ipnet_new_ref;
  net_to_string := net_to_string_ref;
  ip_to_string := ip_to_string_ref;
|}.

Lemma ipnet_ref_laws : @IpNetLaws ipnet_ref.
Proof.
  split; simpl.
  - done.
  - intros. apply bool_decide_eq_true.
  - done.
  - intros n m _ _ E. apply pretty_N_inj in E. injection E as E. by apply encode_inj.
Qed.

(** [ip_to_net] of the scoring engine and of the detectors; also [IpNet::from]. *)
Definition ip_to_net (ip : IpAddr) : IpNet :=
  match ip with IpV4 a => NetV4 a 32 | IpV6 a => NetV6 a 128 end.

Lemma ip_to_net_wf (ip : IpAddr) : wf_ip ip -> wf_net (ip_to_net ip).
Proof. destruct ip; unfold wf_net, wf_ip; simpl; intros Hi; (split; [exact Hi|lia]). Qed.

(** ** Records of [models.rs] *)
Inductive EventType : Type :=
| AuthFailure
| AuthSuccess
| HttpRequest
| Http4xx
| Http5xx
| SmtpAuthFailure
| PortAccess
| ConnectionEvent
| Custom (name : string).

#[export] Instance EventType_eq_dec : EqDecision EventType.
Proof. solve_decision. Defined.

Record NormalizedEvent : Type := {
  ev_timestamp : DateTime;
  ev_source_ip : IpAddr;
  ev_event_type : EventType;
  ev_source_name : string;
  ev_raw_line : string;
  ev_metadata : gmap string string;
}.

Inductive Action : Type :=
| Ban (d : Duration)
| Observe
| Escalate.

(** [confidence : f32] is an IEEE binary32 value. *)
Record DetectionSignal : Type := {
  sig_source_ip : IpNet;
  sig_severity : Z;
  sig_confidence : spec_float;
  sig_reason : string;
  sig_evidence_hash : list Z;
  sig_suggested_action : Action;
  sig_detector_name : string;
  sig_timestamp : DateTime;
}.

Inductive BanSource : Type :=
| LocalDetector (name : string)
| ClusterPeer (node : string)
| ManualAdmin.

#[export] Instance BanSource_eq_dec : EqDecision BanSource.
Proof. solve_decision. Defined.

Record GeoIpInfo : Type := {
  geo_country_iso : option string;
  geo_asn : option Z;
  geo_asn_org : option string;
  geo_is_datacenter : bool;
}.

#[export] Instance GeoIpInfo_eq_dec : EqDecision GeoIpInfo.
Proof. solve_decision. Defined.

Record BanRecord : Type := {
  subject : IpNet;
  created_at : DateTime;
  expires_at : option DateTime;
  severity : Z;
  reason : string;
  evidence_hash : list Z;
  source : BanSource;
  geo_info : option GeoIpInfo;
}.

#[export] Instance BanRecord_eq_dec : EqDecision BanRecord.
Proof. solve_decision. Defined.

#[export] Instance BanSource_countable : Countable BanSource.
Proof.
  refine (inj_countable'
    (fun s => match s with LocalDetector n => inl n | ClusterPeer n => inr (Some n) | ManualAdmin => inr None end)
    (fun x => match x with inl n => LocalDetector n | inr (Some n) => ClusterPeer n | inr None => ManualAdmin end) _).
  by intros [].
Defined.
#[export] Instance GeoIpInfo_countable : Countable GeoIpInfo.
Proof.
  refine (inj_countable' (fun g => (geo_country_iso g, geo_asn g, geo_asn_org g, geo_is_datacenter g))
    (fun '(a, b, c, d) => Build_GeoIpInfo a b c d) _).
  by intros [].
Defined.
#[export] Instance BanRecord_countable : Countable BanRecord.
Proof.
  refine (inj_countable'
    (fun r => (subject r, created_at r, expires_at r, severity r, (reason r, evidence_hash r, source r, geo_info r)))
    (fun '(a, b, c, d, (e, f, g, h)) => Build_BanRecord a b c d e f g h) _).
  by intros [].
Defined.

Definition set_subject (n : IpNet) (r : BanRecord) : BanRecord := {|
  subject := n; created_at := created_at r; expires_at := expires_at r;
  severity := severity r; reason := reason r; evidence_hash := evidence_hash r;
  source := source r; geo_info := geo_info r |}.
Definition set_created_at (t : DateTime) (r : BanRecord) : BanRecord := {|
  subject := subject r; created_at := t; expires_at := expires_at r;
  severity := severity r; reason := reason r; evidence_hash := evidence_hash r;
  source := source r; geo_info := geo_info r |}.
Definition set_geo_info (g : option GeoIpInfo) (r : BanRecord) : BanRecord := {|
  subject := subject r; created_at := created_at r; expires_at := expires_at r;
  severity := severity r; reason := reason r; evidence_hash := evidence_hash r;
  source := source r; geo_info := g |}.

(** [errors.rs]; an I/O error carries the kind the sources match on. *)
Inductive IoErrorKind : Type := UnexpectedEof | OtherIo.
Inductive HiveGuardError : Type :=
| EConfig (msg : string)
| EIo (kind : IoErrorKind)
| EParse (msg : string)
| EEnforcement (msg : string)
| EStorage (msg : string)
| EProtocol (msg : string).

Abbreviation hresult A := (result A HiveGuardError) (only parsing).

(** ** Addresses as text: [str::parse] of an address and of a network. *)
Class AddrText : Type := {
  parse_ip : list Z -> option IpAddr;
  parse_net : list Z -> option IpNet;
}.
