(* ===== verification/Hlc.v ===== *)
(** * Hybrid logical clock ([hiveguard-core/src/hlc.rs])

    Timestamps, their total order, and the two clock moves: [tick] for a local
    event and [update] for a received timestamp. The system clock is an
    argument ([now_ms], the value [SystemTime::now()] yields in the call). *)
From S2P Require Import Prelude.
Local Open Scope Z_scope.

Record HlcTimestamp : Type := {
  wall_time_ms : Z;
  counter : Z;
  node_id_hash : Z;
}.

#[export] Instance HlcTimestamp_eq_dec : EqDecision HlcTimestamp.
Proof. solve_decision. Defined.

#[export] Instance HlcTimestamp_countable : Countable HlcTimestamp.
Proof.
  refine (inj_countable' (fun t => (wall_time_ms t, counter t, node_id_hash t))
    (fun '(a, b, c) => Build_HlcTimestamp a b c) _).
  by intros [].
Defined.

Definition hlc_new (w c n : Z) : HlcTimestamp :=
  {| wall_time_ms := w; counter := c; node_id_hash := n |}.

Definition hlc_now (now_ms n : Z) : HlcTimestamp := hlc_new now_ms 0 n.

Definition MAX_SKEW_MS : Z := 5 * 60 * 1000.

(** What the field types guarantee. *)
Definition wf_hlc (t : HlcTimestamp) : Prop :=
  in_width 64 (wall_time_ms t) /\ in_width 32 (counter t) /\ in_width 32 (node_id_hash t).

(** First four bytes of the blake3 hash, little endian. *)
Definition hash_node_id `{Blake3} (node_id : string) : Z :=
  of_le_bytes (take 4 (blake3 (as_bytes node_id))).

Definition tick (now_ms : Z) (self : HlcTimestamp) : HlcTimestamp :=
  if wall_time_ms self <? now_ms
  then hlc_new now_ms 0 (node_id_hash self)
  else hlc_new (wall_time_ms self) (u32_add (counter self) 1) (node_id_hash self).

(** The remote wall time after the skew clamp. *)
Definition clamp_remote (now_ms : Z) (remote : HlcTimestamp) : Z :=
  if u64_add now_ms MAX_SKEW_MS <? wall_time_ms remote
  then u64_add now_ms MAX_SKEW_MS
  else wall_time_ms remote.

Definition update (now_ms : Z) (self remote : HlcTimestamp) : HlcTimestamp :=
  let remote_wall := clamp_remote now_ms remote in
  if (wall_time_ms self <? now_ms) && (remote_wall <? now_ms)
  then hlc_new now_ms 0 (node_id_hash self)
  else if wall_time_ms self =? remote_wall
  then hlc_new (wall_time_ms self)
         (u32_add (Z.max (counter self) (counter remote)) 1) (node_id_hash self)
  else if wall_time_ms self <? remote_wall
  then hlc_new remote_wall (u32_add (counter remote) 1) (node_id_hash self)
  else hlc_new (wall_time_ms self) (u32_add (counter self) 1) (node_id_hash self).

Definition is_within_skew (now_ms : Z) (self : HlcTimestamp) : bool :=
  let diff := if now_ms <? wall_time_ms self
              then wall_time_ms self - now_ms
              else now_ms - wall_time_ms self in
  diff <=? MAX_SKEW_MS.

(** [impl Ord]: wall time, then counter, then node hash. *)
Definition then_with (c d : comparison) : comparison :=
  match c with Eq => d | _ => c end.
Definition hlc_cmp (a b : HlcTimestamp) : comparison :=
  then_with (wall_time_ms a ?= wall_time_ms b)
    (then_with (counter a ?= counter b) (node_id_hash a ?= node_id_hash b)).

Definition hlc_gtb (a b : HlcTimestamp) : bool :=
  match hlc_cmp a b with Gt => true | _ => false end.
(** [std::cmp::min] and [std::cmp::max]. *)
Definition hlc_min (a b : HlcTimestamp) : HlcTimestamp := if hlc_gtb a b then b else a.
Definition hlc_max (a b : HlcTimestamp) : HlcTimestamp := if hlc_gtb a b then a else b.

Definition hlc_lt (a b : HlcTimestamp) : Prop := hlc_cmp a b = Lt.
Definition hlc_le (a b : HlcTimestamp) : Prop := hlc_gtb a b = false.

(** The order in arithmetic terms, which [lia] decides. *)
Lemma hlc_lt_spec (a b : HlcTimestamp) :
  hlc_lt a b <->
  wall_time_ms a < wall_time_ms b \/
  wall_time_ms a = wall_time_ms b /\
    (counter a < counter b \/ counter a = counter b /\ node_id_hash a < node_id_hash b).
Proof.
  unfold hlc_lt, hlc_cmp, then_with.
  destruct (Z.compare_spec (wall_time_ms a) (wall_time_ms b)),
    (Z.compare_spec (counter a) (counter b)),
    (Z.compare_spec (node_id_hash a) (node_id_hash b));
    (split; [intros ?; try discriminate; lia|intros ?; try reflexivity; lia]).
Qed.

Lemma hlc_gtb_spec (a b : HlcTimestamp) : hlc_gtb a b = true <-> hlc_lt b a.
Proof.
  rewrite hlc_lt_spec. unfold hlc_gtb, hlc_cmp, then_with.
  destruct (Z.compare_spec (wall_time_ms a) (wall_time_ms b)),
    (Z.compare_spec (counter a) (counter b)),
    (Z.compare_spec (node_id_hash a) (node_id_hash b));
    (split; [intros ?; try discriminate; lia|intros ?; try reflexivity; lia]).
Qed.

Lemma hlc_gtbP (a b : HlcTimestamp) : BoolSpec (hlc_lt b a) (~ hlc_lt b a) (hlc_gtb a b).
Proof.
  pose proof (hlc_gtb_spec a b). destruct (hlc_gtb a b); constructor; [tauto|].
  intros Hlt%H. done.
Qed.

Lemma hlc_le_spec (a b : HlcTimestamp) : hlc_le a b <-> ~ hlc_lt b a.
Proof. unfold hlc_le. rewrite <- hlc_gtb_spec. by destruct (hlc_gtb a b). Qed.

Lemma hlc_eq (a b : HlcTimestamp) :
  wall_time_ms a = wall_time_ms b -> counter a = counter b ->
  node_id_hash a = node_id_hash b -> a = b.
Proof. destruct a, b; simpl; congruence. Qed.

#[export] Instance hlc_le_dec : RelDecision hlc_le.
Proof. intros a b. unfold hlc_le. apply _. Defined.

Ltac hlc_order :=
  intros; unfold hlc_min, hlc_max in *;
  repeat match goal with
  | H : hlc_le _ _ |- _ => rewrite hlc_le_spec, hlc_lt_spec in H
  | H : hlc_lt _ _ |- _ => rewrite hlc_lt_spec in H
  | H : ~ hlc_lt _ _ |- _ => rewrite hlc_lt_spec in H
  | |- hlc_le _ _ => rewrite hlc_le_spec, hlc_lt_spec
  | |- hlc_lt _ _ => rewrite hlc_lt_spec
  end;
  repeat match goal with
  | |- context [hlc_gtb ?a ?b] =>
      lazymatch constr:((a, b)) with context [hlc_gtb] => fail | _ => idtac end;
      let E := fresh in destruct (hlc_gtb a b) eqn:E;
      [rewrite hlc_gtb_spec, hlc_lt_spec in E|
       apply not_true_iff_false in E; rewrite hlc_gtb_spec, hlc_lt_spec in E]
  end; try done; try lia; try (apply hlc_eq; lia).

#[export] Instance hlc_le_total : TotalOrder hlc_le.
Proof.
  split; [split; [split|]|].
  - intros a. hlc_order.
  - intros a b c. hlc_order.
  - intros a b. hlc_order.
  - intros a b. unfold strict. rewrite !hlc_le_spec, !hlc_lt_spec.
    destruct (decide (a = b)) as [|n]; [tauto|].
    assert (~ (wall_time_ms a = wall_time_ms b /\ counter a = counter b /\
      node_id_hash a = node_id_hash b)) by (intros (?&?&?); by apply n, hlc_eq).
    lia.
Qed.

Lemma hlc_min_assoc (a b c : HlcTimestamp) : hlc_min a (hlc_min b c) = hlc_min (hlc_min a b) c.
Proof. hlc_order. Qed.
Lemma hlc_min_comm (a b : HlcTimestamp) : hlc_min a b = hlc_min b a.
Proof. hlc_order. Qed.
Lemma hlc_max_assoc (a b c : HlcTimestamp) : hlc_max a (hlc_max b c) = hlc_max (hlc_max a b) c.
Proof. hlc_order. Qed.
Lemma hlc_max_comm (a b : HlcTimestamp) : hlc_max a b = hlc_max b a.
Proof. hlc_order. Qed.
Lemma hlc_min_idem (a : HlcTimestamp) : hlc_min a a = a.
Proof. hlc_order. Qed.
Lemma hlc_max_idem (a : HlcTimestamp) : hlc_max a a = a.
Proof. hlc_order. Qed.

Lemma hlc_max_ub (a b : HlcTimestamp) : hlc_le a (hlc_max a b) /\ hlc_le b (hlc_max a b).
Proof. split; hlc_order. Qed.

Lemma hlc_max_alt (a b : HlcTimestamp) : hlc_max a b = if hlc_gtb b a then b else a.
Proof. hlc_order. Qed.

(** ** Theorems *)

(** The timestamp order is a total order whose equality is equality of the
    three fields: exactly one of [<], [=], [>] holds of any two timestamps, so
    replicas always agree on which of two stamps is later. *)
Theorem hlc_cmp_total_order (a b c : HlcTimestamp) :
  (hlc_cmp a b = Eq <-> a = b) /\
  (hlc_cmp b a = CompOpp (hlc_cmp a b)) /\
  (hlc_cmp a b = Lt -> hlc_cmp b c = Lt -> hlc_cmp a c = Lt).
Proof.
  repeat split.
  - unfold hlc_cmp, then_with.
    destruct (Z.compare_spec (wall_time_ms a) (wall_time_ms b)),
      (Z.compare_spec (counter a) (counter b)),
      (Z.compare_spec (node_id_hash a) (node_id_hash b)); intros; try discriminate.
    by apply hlc_eq.
  - intros ->. unfold hlc_cmp. by rewrite !Z.compare_refl.
  - unfold hlc_cmp. rewrite (Z.compare_antisym (wall_time_ms a)),
      (Z.compare_antisym (counter a)), (Z.compare_antisym (node_id_hash a)).
    by destruct (_ ?= _), (_ ?= _), (_ ?= _).
  - fold (hlc_lt a b) (hlc_lt b c) (hlc_lt a c). hlc_order.
Qed.

Lemma u32_add_1 (x : Z) : 0 <= x < u32_max -> u32_add x 1 = x + 1.
Proof. unfold u32_max, u32_add. intros. apply wrap_small. unfold in_width. lia. Qed.

Lemma u64_add_skew (now_ms : Z) :
  0 <= now_ms < 2 ^ 64 - MAX_SKEW_MS -> u64_add now_ms MAX_SKEW_MS = now_ms + MAX_SKEW_MS.
Proof. unfold MAX_SKEW_MS, u64_add. intros. apply wrap_small. unfold in_width. lia. Qed.

(** A local event never moves the clock backwards: while the counter has
    room, [tick] returns a strictly later stamp of the same node, at least as
    late as the system clock and no later than the later of the two clocks. *)
Theorem tick_advances (now_ms : Z) (self : HlcTimestamp)
  (Hc : 0 <= counter self < u32_max) :
  hlc_lt self (tick now_ms self) /\
  node_id_hash (tick now_ms self) = node_id_hash self /\
  wall_time_ms (tick now_ms self) = Z.max now_ms (wall_time_ms self).
Proof.
  unfold tick. destruct (Z.ltb_spec (wall_time_ms self) now_ms).
  - repeat split; simpl; [|lia]. apply hlc_lt_spec; simpl; lia.
  - rewrite u32_add_1 by done. repeat split; simpl; [|lia]. apply hlc_lt_spec; simpl; lia.
Qed.

Lemma tick_advances_witness :
  0 <= counter (hlc_new 1000 7 3) < u32_max /\
  hlc_lt (hlc_new 1000 7 3) (tick 900 (hlc_new 1000 7 3)).
Proof.
  assert (H : 0 <= counter (hlc_new 1000 7 3) < u32_max) by (vm_compute; split; congruence).
  split; [exact H|]. exact (proj1 (tick_advances 900 (hlc_new 1000 7 3) H)).
Defined.

Lemma clamp_remote_min (now_ms : Z) (remote : HlcTimestamp) :
  0 <= now_ms < 2 ^ 64 - MAX_SKEW_MS ->
  clamp_remote now_ms remote = Z.min (wall_time_ms remote) (now_ms + MAX_SKEW_MS).
Proof.
  intros. unfold clamp_remote. rewrite u64_add_skew by done.
  destruct (Z.ltb_spec (now_ms + MAX_SKEW_MS) (wall_time_ms remote)); lia.
Qed.

(** A receive event is causal and skew-bounded: while the counters have
    room, [update] returns a stamp strictly later than the local one and than
    the remote one (taken at its clamped wall time); its wall time is the
    latest of the system clock, the local clock and the clamped remote clock,
    so a remote stamp, however far in the future, cannot push the local clock
    beyond [now + MAX_SKEW_MS]. *)
Theorem update_causal_and_bounded (now_ms : Z) (self remote : HlcTimestamp)
  (Hnow : 0 <= now_ms < 2 ^ 64 - MAX_SKEW_MS)
  (Hs : 0 <= counter self < u32_max) (Hr : 0 <= counter remote < u32_max) :
  hlc_lt self (update now_ms self remote) /\
  hlc_lt (hlc_new (Z.min (wall_time_ms remote) (now_ms + MAX_SKEW_MS))
            (counter remote) (node_id_hash remote))
         (update now_ms self remote) /\
  wall_time_ms (update now_ms self remote) =
    Z.max (Z.max now_ms (wall_time_ms self))
      (Z.min (wall_time_ms remote) (now_ms + MAX_SKEW_MS)).
Proof.
  unfold update. rewrite clamp_remote_min, !hlc_lt_spec by done.
  generalize (Z.min (wall_time_ms remote) (now_ms + MAX_SKEW_MS)) as rw; intros rw.
  repeat match goal with
  | |- context [?x <? ?y] => destruct (Z.ltb_spec x y); simpl
  | |- context [?x =? ?y] => destruct (Z.eqb_spec x y); simpl
  end; rewrite ?u32_add_1 by lia; lia.
Qed.

Lemma update_causal_and_bounded_witness :
  hlc_lt (hlc_new 5000 2 1) (update 4000 (hlc_new 5000 2 1) (hlc_new 9000000 4 2)) /\
  wall_time_ms (update 4000 (hlc_new 5000 2 1) (hlc_new 9000000 4 2)) = 304000.
Proof.
  assert (H : 0 <= 4000 < 2 ^ 64 - MAX_SKEW_MS) by (vm_compute; split; congruence).
  assert (Hs : 0 <= counter (hlc_new 5000 2 1) < u32_max) by (vm_compute; split; congruence).
  assert (Hr : 0 <= counter (hlc_new 9000000 4 2) < u32_max) by (vm_compute; split; congruence).
  destruct (update_causal_and_bounded 4000 (hlc_new 5000 2 1) (hlc_new 9000000 4 2) H Hs Hr)
    as (H1 & _ & H2).
  split; [exact H1|exact H2].
Defined.

(** The counter is a [u32] that wraps: a received stamp whose counter is
    [u32::MAX] and whose wall time is ahead of the local clock leaves the local
    clock strictly before that very stamp, so the causal order is lost. *)
Theorem update_counter_wraps (now_ms : Z) (self remote : HlcTimestamp)
  (Hnow : 0 <= now_ms < 2 ^ 64 - MAX_SKEW_MS)
  (Hr : counter remote = u32_max)
  (Hahead : now_ms <= wall_time_ms remote <= now_ms + MAX_SKEW_MS)
  (Hlocal : wall_time_ms self < wall_time_ms remote) :
  counter (update now_ms self remote) = 0 /\
  hlc_lt (update now_ms self remote) remote.
Proof.
  assert (update now_ms self remote = hlc_new (wall_time_ms remote) 0 (node_id_hash self)) as ->.
  { unfold update. rewrite clamp_remote_min by done. rewrite Z.min_l by lia.
    destruct (Z.ltb_spec (wall_time_ms remote) now_ms); [lia|].
    rewrite andb_false_r, (proj2 (Z.eqb_neq _ _)), (proj2 (Z.ltb_lt _ _)) by lia.
    by rewrite Hr. }
  split; [done|]. apply hlc_lt_spec; simpl. rewrite Hr. unfold u32_max. lia.
Qed.

Lemma update_counter_wraps_witness :
  hlc_lt (update 4000 (hlc_new 4000 0 1) (hlc_new 5000 u32_max 2)) (hlc_new 5000 u32_max 2).
Proof.
  refine (proj2 (update_counter_wraps 4000 (hlc_new 4000 0 1) (hlc_new 5000 u32_max 2) _ _ _ _));
    vm_compute; repeat split; congruence.
Defined.
