(* ===== verification/Crdt.v ===== *)
(** * Replicated ban record ([hiveguard-core/src/crdt.rs])

    The state-based CRDT that nodes exchange, its merge, and the cluster-wide
    consequences: merging is a join, replicas that saw the same records agree,
    and one node alone cannot cancel a ban. *)
From S2P Require Import Prelude Models Hlc.
Local Open Scope Z_scope.

Record CrdtBanRecord : Type := {
  cr_subject : IpNet;
  first_seen : HlcTimestamp;
  ban_until : HlcTimestamp;
  cr_severity : Z;
  reporters : gset string;
  cr_evidence_hash : list Z;
  cr_reason : string;
  tombstone_reporters : gset string;
  tombstone : bool;
  last_modified : HlcTimestamp;
}.

#[export] Instance CrdtBanRecord_eq_dec : EqDecision CrdtBanRecord.
Proof. solve_decision. Defined.

#[export] Instance CrdtBanRecord_countable : Countable CrdtBanRecord.
Proof.
  refine (inj_countable'
    (fun r => (cr_subject r, first_seen r, ban_until r, cr_severity r, reporters r,
               (cr_evidence_hash r, cr_reason r, tombstone_reporters r, tombstone r, last_modified r)))
    (fun '(a, b, c, d, e, (f, g, h, i, j)) => Build_CrdtBanRecord a b c d e f g h i j) _).
  by intros [].
Defined.

Definition TOMBSTONE_QUORUM : nat := 2.

(** [tombstone_reporters.len() >= TOMBSTONE_QUORUM] *)
Definition quorum (voters : gset string) : bool :=
  bool_decide (TOMBSTONE_QUORUM <= size voters)%nat.

(** [CrdtBanRecord::new]: the record and the ticked clock. *)
Definition crdt_new (now_ms : Z) (subject : IpNet) (sev : Z) (why : string) (evidence : list Z)
    (reporter : string) (hlc : HlcTimestamp) : CrdtBanRecord * HlcTimestamp :=
  let now := tick now_ms hlc in
  ({| cr_subject := subject;
      first_seen := now;
      ban_until := hlc_new (u64_add (wall_time_ms now) (24 * 3600 * 1000)) 0 (node_id_hash now);
      cr_severity := sev;
      reporters := {[ reporter ]};
      cr_evidence_hash := evidence;
      cr_reason := why;
      tombstone := false;
      tombstone_reporters := ∅;
      last_modified := now |}, now).

(** [CrdtBanRecord::merge] *)
Definition merge (self other : CrdtBanRecord) : option CrdtBanRecord :=
  if decide (cr_subject self = cr_subject other) then
    let why := if hlc_gtb (last_modified other) (last_modified self)
               then cr_reason other else cr_reason self in
    let evidence := if hlc_gtb (last_modified other) (last_modified self)
                    then cr_evidence_hash other else cr_evidence_hash self in
    let merged := tombstone_reporters self ∪ tombstone_reporters other in
    Some {| cr_subject := cr_subject self;
            first_seen := hlc_min (first_seen self) (first_seen other);
            ban_until := hlc_max (ban_until self) (ban_until other);
            cr_severity := Z.max (cr_severity self) (cr_severity other);
            reporters := reporters self ∪ reporters other;
            cr_evidence_hash := evidence;
            cr_reason := why;
            tombstone_reporters := merged;
            tombstone := quorum merged;
            last_modified := hlc_max (last_modified self) (last_modified other) |}
  else None.

Definition is_active (self : CrdtBanRecord) (current_time_ms : Z) : bool :=
  negb (tombstone self) && (current_time_ms <? wall_time_ms (ban_until self)).

(** [CrdtBanRecord::tombstone]: the record and the ticked clock. *)
Definition tombstone_by (node_id : string) (now_ms : Z) (hlc : HlcTimestamp)
    (self : CrdtBanRecord) : CrdtBanRecord * HlcTimestamp :=
  let voters := {[ node_id ]} ∪ tombstone_reporters self in
  let t := tick now_ms hlc in
  ({| cr_subject := cr_subject self; first_seen := first_seen self;
      ban_until := ban_until self; cr_severity := cr_severity self;
      reporters := reporters self; cr_evidence_hash := cr_evidence_hash self;
      cr_reason := cr_reason self; tombstone_reporters := voters;
      tombstone := quorum voters; last_modified := t |}, t).

(** [CrdtBanRecord::extend_ban] *)
Definition extend_ban (additional_ms : Z) (now_ms : Z) (hlc : HlcTimestamp)
    (self : CrdtBanRecord) : CrdtBanRecord * HlcTimestamp :=
  let t := tick now_ms hlc in
  ({| cr_subject := cr_subject self; first_seen := first_seen self;
      ban_until := hlc_new (u64_add (wall_time_ms (ban_until self)) additional_ms)
                     (counter (ban_until self)) (node_id_hash (ban_until self));
      cr_severity := cr_severity self;
      reporters := reporters self; cr_evidence_hash := cr_evidence_hash self;
      cr_reason := cr_reason self; tombstone_reporters := tombstone_reporters self;
      tombstone := tombstone self; last_modified := t |}, t).

(** ** Merge as a total join on records of one subject *)
Definition later {P} (x y : HlcTimestamp * P) : HlcTimestamp * P :=
  if hlc_gtb y.1 x.1 then y else x.

(** What last-writer-wins selects. *)
Definition payload (r : CrdtBanRecord) : HlcTimestamp * (string * list Z) :=
  (last_modified r, (cr_reason r, cr_evidence_hash r)).

Definition join (a b : CrdtBanRecord) : CrdtBanRecord :=
  let p := later (payload a) (payload b) in
  {| cr_subject := cr_subject a;
     first_seen := hlc_min (first_seen a) (first_seen b);
     ban_until := hlc_max (ban_until a) (ban_until b);
     cr_severity := Z.max (cr_severity a) (cr_severity b);
     reporters := reporters a ∪ reporters b;
     cr_evidence_hash := p.2.2;
     cr_reason := p.2.1;
     tombstone_reporters := tombstone_reporters a ∪ tombstone_reporters b;
     tombstone := quorum (tombstone_reporters a ∪ tombstone_reporters b);
     last_modified := p.1 |}.

(** The tombstone flag agrees with the votes. *)
Definition flag_ok (r : CrdtBanRecord) : Prop := tombstone r = quorum (tombstone_reporters r).

Lemma merge_join (a b : CrdtBanRecord) :
  merge a b = if decide (cr_subject a = cr_subject b) then Some (join a b) else None.
Proof.
  unfold merge, join, later, payload. case_decide; [|done]. simpl.
  rewrite (hlc_max_alt (last_modified a)).
  by destruct (hlc_gtb (last_modified b) (last_modified a)).
Qed.

Lemma later_assoc {P} (x y z : HlcTimestamp * P) : later x (later y z) = later (later x y) z.
Proof.
  unfold later.
  destruct (hlc_gtb z.1 y.1) eqn:E1, (hlc_gtb y.1 x.1) eqn:E2; rewrite ?E1, ?E2; try done.
  - rewrite hlc_gtb_spec in E1, E2.
    assert (hlc_gtb z.1 x.1 = true) as -> by (rewrite hlc_gtb_spec; hlc_order). done.
  - apply not_true_iff_false in E1, E2. rewrite hlc_gtb_spec in E1, E2.
    assert (hlc_gtb z.1 x.1 = false) as ->; [|done].
    apply not_true_iff_false. rewrite hlc_gtb_spec, hlc_lt_spec in *. lia.
Qed.

Lemma payload_join (a b : CrdtBanRecord) : payload (join a b) = later (payload a) (payload b).
Proof. unfold payload at 1, join; simpl. by destruct (later _ _) as [? [? ?]]. Qed.

Lemma record_ext (a b : CrdtBanRecord) :
  cr_subject a = cr_subject b -> first_seen a = first_seen b -> ban_until a = ban_until b ->
  cr_severity a = cr_severity b -> reporters a = reporters b -> payload a = payload b ->
  tombstone_reporters a = tombstone_reporters b -> tombstone a = tombstone b -> a = b.
Proof. destruct a, b; unfold payload; simpl. intros; simplify_eq. done. Qed.

Lemma join_assoc (a b c : CrdtBanRecord) : join a (join b c) = join (join a b) c.
Proof.
  apply record_ext; rewrite ?payload_join; simpl;
    auto using hlc_min_assoc, hlc_max_assoc, Z.max_assoc, later_assoc.
  - by rewrite (assoc_L (∪)).
  - by rewrite (assoc_L (∪)).
  - by rewrite (assoc_L (∪)).
Qed.

(** Two records agree on ties: equal stamps carry equal reason and evidence. *)
Definition tie_ok (a b : CrdtBanRecord) : Prop :=
  last_modified a = last_modified b ->
  cr_reason a = cr_reason b /\ cr_evidence_hash a = cr_evidence_hash b.

Lemma later_comm (a b : CrdtBanRecord) :
  later (payload a) (payload b) = later (payload b) (payload a) <-> tie_ok a b.
Proof.
  unfold later, payload, tie_ok; simpl.
  destruct (hlc_gtbP (last_modified b) (last_modified a)) as [E1|E1],
    (hlc_gtbP (last_modified a) (last_modified b)) as [E2|E2]; rewrite hlc_lt_spec in E1, E2.
  - lia.
  - split; [intros _ Heq; rewrite Heq in E1; lia|done].
  - split; [intros _ Heq; rewrite Heq in E2; lia|done].
  - split; [intros Heq _; by simplify_eq|].
    intros Ht. assert (last_modified a = last_modified b) as Heq by (apply hlc_eq; lia).
    destruct (Ht Heq) as [-> ->]. by rewrite Heq.
Qed.

Lemma join_comm (a b : CrdtBanRecord) :
  cr_subject a = cr_subject b -> join a b = join b a <-> tie_ok a b.
Proof.
  intros Hs. split.
  - intros E. apply later_comm. rewrite <- !payload_join. by rewrite E.
  - intros Ht%later_comm. apply record_ext; rewrite ?payload_join; simpl;
      auto using hlc_min_comm, hlc_max_comm, Z.max_comm.
    + by rewrite (comm_L (∪)).
    + by rewrite (comm_L (∪)).
    + by rewrite (comm_L (∪)).
Qed.

Lemma join_idem (a : CrdtBanRecord) : join a a = a <-> flag_ok a.
Proof.
  unfold flag_ok. split.
  - intros E. rewrite <- E at 1. simpl. by rewrite (idemp_L (∪)).
  - intros Hf. apply record_ext; rewrite ?payload_join; simpl;
      rewrite ?hlc_min_idem, ?hlc_max_idem, ?Z.max_id, ?(idemp_L (∪)); auto.
    unfold later. by destruct (hlc_gtb _ _).
Qed.

Lemma join_flag_ok (a b : CrdtBanRecord) : flag_ok (join a b).
Proof. done. Qed.

(** ** Replaying received records: a replica folds [merge] over what it saw *)
Definition merge_all (x : CrdtBanRecord) (l : list CrdtBanRecord) : option CrdtBanRecord :=
  foldl (fun acc r => a ← acc; merge a r) (Some x) l.

Lemma foldl_join_subject (x : CrdtBanRecord) (l : list CrdtBanRecord) :
  cr_subject (foldl join x l) = cr_subject x.
Proof. revert x; induction l as [|r l IH]; intros x; simpl; [done|by rewrite IH]. Qed.

Lemma merge_all_join (x : CrdtBanRecord) (l : list CrdtBanRecord) :
  Forall (fun r => cr_subject r = cr_subject x) l -> merge_all x l = Some (foldl join x l).
Proof.
  unfold merge_all. revert x; induction l as [|r l IH]; intros x Hl; [done|].
  apply Forall_cons in Hl as [Hr Hl]. cbn [foldl mbind option_bind].
  rewrite merge_join, decide_True by done. by apply IH.
Qed.

Lemma foldl_join_flag (x : CrdtBanRecord) (l : list CrdtBanRecord) :
  flag_ok x -> flag_ok (foldl join x l).
Proof.
  revert x; induction l as [|r l IH]; intros x Hx; simpl; [done|].
  apply IH, join_flag_ok.
Qed.

Lemma foldl_later_max {P} (x : HlcTimestamp * P) (l : list (HlcTimestamp * P)) :
  foldl later x l ∈ x :: l /\ forall y, y ∈ x :: l -> hlc_le y.1 (foldl later x l).1.
Proof.
  revert x; induction l as [|z l IH]; intros x; simpl.
  - split; [set_solver|]. intros y ->%list_elem_of_singleton. done.
  - destruct (IH (later x z)) as [Hin Hmax]. split.
    + unfold later in *. destruct (hlc_gtb _ _); set_solver.
    + intros y Hy.
      assert (hlc_le x.1 (later x z).1 /\ hlc_le z.1 (later x z).1) as [Hx Hz].
      { unfold later. destruct (hlc_gtbP z.1 x.1); split; hlc_order. }
      assert (y = x \/ y = z \/ y ∈ l) as [-> | [-> | Hl]] by set_solver.
      * etrans; [exact Hx|]. apply Hmax. set_solver.
      * etrans; [exact Hz|]. apply Hmax. set_solver.
      * apply Hmax. set_solver.
Qed.

(** The selected payload depends only on the set of records. *)
Lemma foldl_payload_same_set (x y : CrdtBanRecord) (l k : list CrdtBanRecord) :
  x :: l ≡ y :: k ->
  (forall a b, a ∈ x :: l -> b ∈ x :: l -> tie_ok a b) ->
  payload (foldl join x l) = payload (foldl join y k).
Proof.
  intros E Ht.
  rewrite !(foldl_hom payload join later) by apply payload_join.
  destruct (foldl_later_max (payload x) (payload <$> l)) as [Hi1 Hm1].
  destruct (foldl_later_max (payload y) (payload <$> k)) as [Hi2 Hm2].
  rewrite <- !fmap_cons in *.
  pose proof (fmap_same_set payload _ _ E) as E'.
  set (p := foldl later (payload x) _) in *. set (q := foldl later (payload y) _) in *.
  assert (p.1 = q.1) as Hst.
  { apply (anti_symm hlc_le); [apply Hm2|apply Hm1]; [by rewrite <- E'|by rewrite E']. }
  rewrite <- E' in Hi2.
  apply list_elem_of_fmap in Hi1 as (a & Ha & Hina).
  apply list_elem_of_fmap in Hi2 as (b & Hb & Hinb).
  rewrite Ha, Hb in *. destruct (Ht a b Hina Hinb Hst) as [Hr He].
  unfold payload in *; simpl in *. by rewrite Hst, Hr, He.
Qed.

(** ** Theorems: merge *)

(** [merge] refuses records of different subjects and only those, and on
    records of one subject it is associative on every field, reason and
    evidence included. *)
Theorem merge_assoc (a b c : CrdtBanRecord) :
  (merge a b = None <-> cr_subject a <> cr_subject b) /\
  (ab ← merge a b; merge ab c) = (bc ← merge b c; merge a bc).
Proof.
  split; [rewrite merge_join; case_decide; naive_solver|].
  rewrite !merge_join. case_decide as H1; case_decide as H2; cbn [mbind option_bind].
  - rewrite !merge_join. simpl. rewrite !decide_True by congruence. by rewrite join_assoc.
  - rewrite merge_join. simpl. by rewrite decide_False by congruence.
  - rewrite merge_join. simpl. by rewrite decide_False by congruence.
  - done.
Qed.

(** The order in which two records meet matters in exactly one case, equal
    modification stamps with different reason or evidence; and merging a record
    with itself changes it exactly when its tombstone flag disagrees with its
    tombstone votes. *)
Theorem merge_comm_idem (a b : CrdtBanRecord) :
  (merge a b = merge b a <-> (cr_subject a = cr_subject b -> tie_ok a b)) /\
  (merge a a = Some a <-> flag_ok a).
Proof.
  rewrite !merge_join. split.
  - destruct (decide (cr_subject a = cr_subject b)) as [Hs|Hs].
    + rewrite decide_True by done. rewrite <- join_comm by done.
      split; [by intros E%(inj Some) _|intros E; by rewrite E].
    + rewrite decide_False by congruence. done.
  - rewrite decide_True by done. rewrite <- join_idem. split; [by intros E%(inj Some)|intros E; by rewrite E].
Qed.


Definition sample_record (n sev w : Z) : CrdtBanRecord :=
  (crdt_new w (NetV4 167772161 32) sev "ssh" [] "node-a" (hlc_new 0 0 n)).1.


(** The information order of records of one subject. *)
Definition record_le (a b : CrdtBanRecord) : Prop :=
  cr_subject a = cr_subject b /\
  hlc_le (first_seen b) (first_seen a) /\
  hlc_le (ban_until a) (ban_until b) /\
  cr_severity a <= cr_severity b /\
  reporters a ⊆ reporters b /\
  tombstone_reporters a ⊆ tombstone_reporters b /\
  hlc_le (last_modified a) (last_modified b).

(** [merge] computes the least upper bound of the two records in the
    information order (earliest sighting, latest expiry and stamp, highest
    severity, all reporters and all tombstone votes): nothing either replica
    knew is lost and nothing is invented. *)
Theorem merge_is_least_upper_bound (a b c : CrdtBanRecord) (Hm : merge a b = Some c) :
  record_le a c /\ record_le b c /\
  (forall d, record_le a d -> record_le b d -> record_le c d).
Proof.
  rewrite merge_join in Hm. case_decide as Hs; [|done]. apply (inj Some) in Hm as <-.
  assert (last_modified (join a b) = hlc_max (last_modified a) (last_modified b)) as Hlm.
  { simpl. unfold later, payload; simpl. rewrite hlc_max_alt.
    by destruct (hlc_gtb (last_modified b) (last_modified a)). }
  unfold record_le. rewrite Hlm; simpl. split; [|split].
  - split_and!; try done; try lia; try set_solver; hlc_order.
  - split_and!; try done; try lia; try set_solver; hlc_order.
  - intros d (? & ? & ? & ? & ? & ? & ?) (? & ? & ? & ? & ? & ? & ?).
    split_and!; try done; try lia; try set_solver; hlc_order.
Qed.

Lemma merge_is_least_upper_bound_witness :
  let a := sample_record 1 10 100 in let b := sample_record 2 20 200 in
  merge a b = Some (join a b) /\ record_le a (join a b).
Proof.
  intros a b. assert (H : merge a b = Some (join a b)) by (vm_compute; reflexivity).
  split; [exact H|]. exact (proj1 (merge_is_least_upper_bound a b (join a b) H)).
Defined.

(** ** Records as the cluster builds them

    [built V r]: [r] arises from fresh records by tombstone votes of the nodes
    [V], extensions and merges, in any interleaving across replicas. *)
Inductive built : gset string -> CrdtBanRecord -> Prop :=
| built_new now_ms n sev why ev node hlc :
    built ∅ (crdt_new now_ms n sev why ev node hlc).1
| built_tombstone V r node now_ms hlc :
    built V r -> built ({[ node ]} ∪ V) (tombstone_by node now_ms hlc r).1
| built_extend V r ms now_ms hlc :
    built V r -> built V (extend_ban ms now_ms hlc r).1
| built_merge V W r s t :
    built V r -> built W s -> merge r s = Some t -> built (V ∪ W) t.

(** The votes of a record are the votes cast, and the flag is their quorum. *)
Lemma built_votes (V : gset string) (r : CrdtBanRecord) :
  built V r -> tombstone_reporters r = V /\ flag_ok r.
Proof.
  unfold flag_ok. induction 1 as [|V r node ? ? _ [IH _]| |V W r s t _ [IHr _] _ [IHs _] Hm]; simpl.
  - by vm_compute.
  - by rewrite IH.
  - done.
  - rewrite merge_join in Hm. case_decide; [|done]. apply (inj Some) in Hm as <-. simpl.
    by rewrite IHr, IHs.
Qed.

(** C23: Cancelling a ban takes two nodes. Whatever the interleaving of votes,
    extensions and merges across the cluster, a record is tombstoned exactly
    when at least [TOMBSTONE_QUORUM] distinct nodes voted; so a single node,
    voting as often as it likes, leaves the ban active until it expires. *)
Theorem tombstone_needs_quorum (V : gset string) (r : CrdtBanRecord) (Hb : built V r) :
  (tombstone r = true <-> (TOMBSTONE_QUORUM <= size V)%nat) /\
  (forall node t, V ⊆ {[ node ]} -> is_active r t = (t <? wall_time_ms (ban_until r))).
Proof.
  destruct (built_votes V r Hb) as [Hv Hf]. unfold flag_ok, quorum in Hf. rewrite Hv in Hf.
  split; [rewrite Hf; apply bool_decide_eq_true|].
  intros node t HV. unfold is_active. rewrite Hf, bool_decide_eq_false_2; [done|].
  apply subseteq_size in HV. rewrite size_singleton in HV. unfold TOMBSTONE_QUORUM. lia.
Qed.

Lemma tombstone_needs_quorum_witness :
  let r := sample_record 1 10 100 in
  tombstone (tombstone_by "x" 5 (hlc_new 0 0 1) (tombstone_by "y" 5 (hlc_new 0 0 1) r).1).1 = true.
Proof.
  intros r.
  refine (proj2 (proj1 (tombstone_needs_quorum ({[ "x" ]} ∪ ({[ "y" ]} ∪ ∅)) _ _)) _).
  - do 2 apply built_tombstone. apply built_new.
  - vm_compute. lia.
Defined.
