(* ===== verification/BanStore.v ===== *)
(** * In-memory ban store ([hiveguard-core/src/ban_store.rs])

    The map from networks to ban records with its two arrays of per-prefix
    counters, which let [is_banned] skip prefix lengths nobody uses. The
    abstract store is the map alone; [is_banned] is longest-prefix match. *)
From S2P Require Import Prelude Models.
Local Open Scope Z_scope.

Record InMemoryBanStore : Type := {
  bans : gmap IpNet BanRecord;
  v4_prefix_counts : list Z;
  v6_prefix_counts : list Z;
}.

Definition store_new : InMemoryBanStore := {|
  bans := ∅;
  v4_prefix_counts := replicate 33 0;
  v6_prefix_counts := replicate 129 0;
|}.

(** [counts[i]]; every index used is a prefix length of the right family. *)
Definition count_at (counts : list Z) (i : nat) : Z := default 0 (counts !! i).

Definition inc_prefix (net : IpNet) (s : InMemoryBanStore) : InMemoryBanStore :=
  match net with
  | NetV4 _ p => {| bans := bans s;
                    v4_prefix_counts := alter (fun c => u32_add c 1) p (v4_prefix_counts s);
                    v6_prefix_counts := v6_prefix_counts s |}
  | NetV6 _ p => {| bans := bans s;
                    v4_prefix_counts := v4_prefix_counts s;
                    v6_prefix_counts := alter (fun c => u32_add c 1) p (v6_prefix_counts s) |}
  end.

Definition dec_prefix (net : IpNet) (s : InMemoryBanStore) : InMemoryBanStore :=
  match net with
  | NetV4 _ p => {| bans := bans s;
                    v4_prefix_counts := alter (fun c => saturating_sub c 1) p (v4_prefix_counts s);
                    v6_prefix_counts := v6_prefix_counts s |}
  | NetV6 _ p => {| bans := bans s;
                    v4_prefix_counts := v4_prefix_counts s;
                    v6_prefix_counts := alter (fun c => saturating_sub c 1) p (v6_prefix_counts s) |}
  end.

Definition set_bans (m : gmap IpNet BanRecord) (s : InMemoryBanStore) : InMemoryBanStore :=
  {| bans := m; v4_prefix_counts := v4_prefix_counts s; v6_prefix_counts := v6_prefix_counts s |}.

(** [rebuild_prefix_counts]: reset, then count every key. *)
Definition rebuild_prefix_counts (s : InMemoryBanStore) : InMemoryBanStore :=
  foldr inc_prefix
    {| bans := bans s; v4_prefix_counts := replicate 33 0; v6_prefix_counts := replicate 129 0 |}
    (map_to_list (bans s)).*1.

Definition store_add_ban (record : BanRecord) (s : InMemoryBanStore) : InMemoryBanStore :=
  let net := subject record in
  let s' := set_bans (<[net := record]> (bans s)) s in
  match bans s !! net with
  | Some _old => s'
  | None => inc_prefix net s'
  end.

Definition store_remove_ban (net : IpNet) (s : InMemoryBanStore) : InMemoryBanStore * bool :=
  match bans s !! net with
  | Some _ => (dec_prefix net (set_bans (delete net (bans s)) s), true)
  | None => (s, false)
  end.

Lemma bans_add (r : BanRecord) (s : InMemoryBanStore) :
  bans (store_add_ban r s) = <[subject r := r]> (bans s).
Proof. unfold store_add_ban. destruct (bans s !! subject r); [done|]. by destruct (subject r). Qed.

Lemma bans_remove (n : IpNet) (s : InMemoryBanStore) :
  bans (store_remove_ban n s).1 = delete n (bans s).
Proof.
  unfold store_remove_ban. destruct (bans s !! n) eqn:E; simpl; [by destruct n|by rewrite delete_id].
Qed.

(** [u32::MAX << (32 - prefix_len)], zero for prefix length 0; the same at
    128 bits. *)
Definition prefix_mask (w p : nat) : Z :=
  if decide (p = 0%nat) then 0
  else wrap (Z.of_nat w) (Z.shiftl (2 ^ Z.of_nat w - 1) (Z.of_nat (w - p))).

Section ops.
Context `{IpNetOps}.

(** The candidate loop of [is_banned], one iteration per prefix length. *)
Fixpoint is_banned_v4 (s : InMemoryBanStore) (ip_val : Z) (lens : list nat) : option BanRecord :=
  match lens with
  | [] => None
  | prefix_len :: lens' =>
      if count_at (v4_prefix_counts s) prefix_len =? 0 then is_banned_v4 s ip_val lens' else
      let network := IpV4 (Z.land ip_val (prefix_mask 32 prefix_len)) in
      match ipnet_new network prefix_len with
      | Some cidr =>
          match bans s !! cidr with
          | Some record => Some record
          | None => is_banned_v4 s ip_val lens'
          end
      | None => is_banned_v4 s ip_val lens'
      end
  end.

Fixpoint is_banned_v6 (s : InMemoryBanStore) (ip_val : Z) (lens : list nat) : option BanRecord :=
  match lens with
  | [] => None
  | prefix_len :: lens' =>
      if count_at (v6_prefix_counts s) prefix_len =? 0 then is_banned_v6 s ip_val lens' else
      let network := IpV6 (Z.land ip_val (prefix_mask 128 prefix_len)) in
      match ipnet_new network prefix_len with
      | Some cidr =>
          match bans s !! cidr with
          | Some record => Some record
          | None => is_banned_v6 s ip_val lens'
          end
      | None => is_banned_v6 s ip_val lens'
      end
  end.

(** [(0..=w).rev()] *)
Definition lens_desc (w : nat) : list nat := reverse (seq 0 (S w)).

Definition is_banned (s : InMemoryBanStore) (ip : IpAddr) : option BanRecord :=
  match ip with
  | IpV4 ip_val => is_banned_v4 s ip_val (lens_desc 32)
  | IpV6 ip_val => is_banned_v6 s ip_val (lens_desc 128)
  end.

Definition covering_bans (s : InMemoryBanStore) (net : IpNet) : list BanRecord :=
  let counts := match net with NetV4 _ _ => v4_prefix_counts s | NetV6 _ _ => v6_prefix_counts s end in
  omap (fun len =>
          if 0 <? count_at counts len
          then candidate ← ipnet_new (net_addr net) len; bans s !! net_trunc candidate
          else None)
    (seq 0 (S (prefix_len net))).
End ops.

Definition get_all_bans (s : InMemoryBanStore) : list BanRecord := (map_to_list (bans s)).*2.

(** [exp > now], permanent bans never expire. *)
Definition unexpired (now : DateTime) (r : BanRecord) : bool :=
  match expires_at r with Some exp => now <? exp | None => true end.

Definition cleanup_expired (now : DateTime) (s : InMemoryBanStore) : InMemoryBanStore * nat :=
  let before := size (bans s) in
  let s' := set_bans (filter (fun kv => unexpired now kv.2 = true) (bans s)) s in
  let removed := (before - size (bans s'))%nat in
  if (0 <? removed)%nat then (rebuild_prefix_counts s', removed) else (s', removed).

(** ** The abstract store and longest-prefix match *)
Fixpoint lpm_from (m : gmap IpNet BanRecord) (ip : IpAddr) (lens : list nat) : option BanRecord :=
  match lens with
  | [] => None
  | p :: lens' =>
      match m !! net_around ip p with
      | Some r => Some r
      | None => lpm_from m ip lens'
      end
  end.

(** Reference: try every prefix length of the family, longest first. *)
Definition lpm (m : gmap IpNet BanRecord) (ip : IpAddr) : option BanRecord :=
  lpm_from m ip (lens_desc (ip_width ip)).

(** ** Counting keys *)
Definition is_v4 (n : IpNet) : bool := match n with NetV4 _ _ => true | NetV6 _ _ => false end.
Definition has_prefix (v4 : bool) (p : nat) (n : IpNet) : Prop := is_v4 n = v4 /\ prefix_len n = p.

#[export] Instance has_prefix_dec (v4 : bool) (p : nat) (n : IpNet) : Decision (has_prefix v4 p n).
Proof. unfold has_prefix. apply _. Defined.

Definition count_keys (v4 : bool) (p : nat) (m : gmap IpNet BanRecord) : nat :=
  size (filter (fun kv : IpNet * BanRecord => has_prefix v4 p kv.1) m).

Definition one_if (v4 : bool) (p : nat) (n : IpNet) : nat :=
  if decide (has_prefix v4 p n) then 1%nat else 0%nat.

Lemma count_keys_empty (v4 : bool) (p : nat) : count_keys v4 p ∅ = 0%nat.
Proof. unfold count_keys. by rewrite map_filter_empty, map_size_empty. Qed.

Lemma count_keys_insert (v4 : bool) (p : nat) (n : IpNet) (r : BanRecord)
    (m : gmap IpNet BanRecord) :
  m !! n = None -> count_keys v4 p (<[n := r]> m) = (one_if v4 p n + count_keys v4 p m)%nat.
Proof.
  intros Hn. unfold count_keys, one_if. case_decide as Hp.
  - rewrite map_filter_insert_True by done.
    rewrite map_size_insert_None; [done|]. by apply map_lookup_filter_None; left.
  - rewrite map_filter_insert_False by done. by rewrite delete_id.
Qed.

Lemma count_keys_delete (v4 : bool) (p : nat) (n : IpNet) (r : BanRecord)
    (m : gmap IpNet BanRecord) :
  m !! n = Some r -> count_keys v4 p m = (one_if v4 p n + count_keys v4 p (delete n m))%nat.
Proof.
  intros Hn. rewrite <- (count_keys_insert v4 p n r (delete n m)) by apply lookup_delete_eq.
  by rewrite insert_delete_eq, insert_id.
Qed.

Lemma count_keys_overwrite (v4 : bool) (p : nat) (n : IpNet) (r r' : BanRecord)
    (m : gmap IpNet BanRecord) :
  m !! n = Some r' -> count_keys v4 p (<[n := r]> m) = count_keys v4 p m.
Proof.
  intros Hn. rewrite (count_keys_delete v4 p n r' m) by done.
  rewrite <- (insert_delete_eq m n r), count_keys_insert; [done|]. apply lookup_delete_eq.
Qed.

Lemma count_keys_zero (v4 : bool) (p : nat) (m : gmap IpNet BanRecord) :
  count_keys v4 p m = 0%nat <-> forall n r, m !! n = Some r -> ~ has_prefix v4 p n.
Proof.
  unfold count_keys. rewrite map_size_empty_iff, map_empty_filter. unfold map_Forall.
  naive_solver.
Qed.

Lemma count_keys_le (v4 : bool) (p : nat) (m : gmap IpNet BanRecord) :
  (count_keys v4 p m <= size m)%nat.
Proof. apply map_subseteq_size, map_filter_subseteq. Qed.

(** ** The invariant *)
Definition counts_of (v4 : bool) (s : InMemoryBanStore) : list Z :=
  if v4 then v4_prefix_counts s else v6_prefix_counts s.
Definition fam_width (v4 : bool) : nat := if v4 then 32%nat else 128%nat.

(** Every counter is the number of keys of its family and prefix length. *)
Definition counts_ok (s : InMemoryBanStore) : Prop :=
  forall v4, length (counts_of v4 s) = S (fam_width v4) /\
    forall p, (p <= fam_width v4)%nat ->
      count_at (counts_of v4 s) p = Z.of_nat (count_keys v4 p (bans s)).

(** Keys are well-formed networks and index the record's own subject. *)
Definition keys_ok (s : InMemoryBanStore) : Prop :=
  forall n r, bans s !! n = Some r -> wf_net n /\ subject r = n.

Definition store_inv (s : InMemoryBanStore) : Prop := counts_ok s /\ keys_ok s.

(** Room for the [u32] counters. *)
Definition store_small (s : InMemoryBanStore) : Prop := Z.of_nat (size (bans s)) < 2 ^ 32.

Lemma net_width_fam (n : IpNet) : net_width n = fam_width (is_v4 n).
Proof. by destruct n. Qed.

Lemma count_at_alter (f : Z -> Z) (c : list Z) (i j : nat) :
  (j < length c)%nat -> count_at (alter f i c) j = if decide (i = j) then f (count_at c j) else count_at c j.
Proof.
  intros Hj. unfold count_at. case_decide as E.
  - subst j. rewrite list_lookup_alter_eq. destruct (lookup_lt_is_Some_2 c i Hj) as [x ->]. done.
  - by rewrite list_lookup_alter_ne.
Qed.

(** Raising the counters for a new key, lowering them for a removed one. *)
Lemma counts_ok_inc (n : IpNet) (r : BanRecord) (m : gmap IpNet BanRecord) (s : InMemoryBanStore) :
  wf_net n -> m !! n = None -> Z.of_nat (size m) + 1 < 2 ^ 32 ->
  counts_ok (set_bans m s) -> counts_ok (inc_prefix n (set_bans (<[n := r]> m) s)).
Proof.
  intros [_ Hp] Hn Hsz Hc v4. destruct (Hc v4) as [Hl Hk].
  assert (counts_of v4 (inc_prefix n (set_bans (<[n := r]> m) s)) =
          if decide (is_v4 n = v4) then alter (fun c => u32_add c 1) (prefix_len n) (counts_of v4 s)
          else counts_of v4 s) as -> by (by destruct n, v4).
  assert (bans (inc_prefix n (set_bans (<[n := r]> m) s)) = <[n := r]> m) as -> by by destruct n.
  replace (counts_of v4 (set_bans m s)) with (counts_of v4 s) in * by by destruct v4.
  split.
  - case_decide; [by rewrite length_alter|done].
  - intros p Hle. rewrite count_keys_insert by done. unfold one_if, has_prefix.
    pose proof (count_keys_le v4 p m). specialize (Hk p Hle); simpl in Hk.
    destruct (decide (is_v4 n = v4)) as [Hf|Hf].
    + rewrite count_at_alter, Hk by lia. destruct (decide (prefix_len n = p)) as [E|E].
      * rewrite decide_True by done. unfold u32_add. rewrite wrap_small; unfold in_width; lia.
      * rewrite decide_False by naive_solver. done.
    + rewrite decide_False by naive_solver. by rewrite Hk.
Qed.

Lemma counts_ok_dec (n : IpNet) (r : BanRecord) (m : gmap IpNet BanRecord) (s : InMemoryBanStore) :
  m !! n = Some r -> counts_ok (set_bans m s) ->
  counts_ok (dec_prefix n (set_bans (delete n m) s)).
Proof.
  intros Hn Hc v4. destruct (Hc v4) as [Hl Hk].
  assert (counts_of v4 (dec_prefix n (set_bans (delete n m) s)) =
          if decide (is_v4 n = v4) then alter (fun c => saturating_sub c 1) (prefix_len n) (counts_of v4 s)
          else counts_of v4 s) as -> by (by destruct n, v4).
  assert (bans (dec_prefix n (set_bans (delete n m) s)) = delete n m) as -> by by destruct n.
  replace (counts_of v4 (set_bans m s)) with (counts_of v4 s) in * by by destruct v4.
  split.
  - case_decide; [by rewrite length_alter|done].
  - intros p Hle. specialize (Hk p Hle); simpl in Hk.
    rewrite (count_keys_delete v4 p n r m Hn) in Hk. unfold one_if, has_prefix in Hk.
    destruct (decide (is_v4 n = v4)) as [Hf|Hf].
    + rewrite count_at_alter, Hk by lia. destruct (decide (prefix_len n = p)) as [E|E].
      * rewrite decide_True by done. unfold saturating_sub. lia.
      * rewrite decide_False by naive_solver. done.
    + rewrite decide_False in Hk by naive_solver. done.
Qed.

(** The counters after counting a list of keys from zero. *)
Definition zero_counts (m : gmap IpNet BanRecord) : InMemoryBanStore :=
  {| bans := m; v4_prefix_counts := replicate 33 0; v6_prefix_counts := replicate 129 0 |}.

Lemma inc_prefix_comm (n m : IpNet) (s : InMemoryBanStore) :
  inc_prefix n (inc_prefix m s) = inc_prefix m (inc_prefix n s).
Proof.
  destruct n as [b p|b p], m as [c q|c q]; unfold inc_prefix; simpl; f_equal;
    (destruct (decide (p = q)) as [->|]; [done|by apply list_alter_comm]).
Qed.

Lemma foldr_inc_perm (s : InMemoryBanStore) (ks ks' : list IpNet) :
  ks ≡ₚ ks' -> foldr inc_prefix s ks = foldr inc_prefix s ks'.
Proof.
  induction 1 as [|n ks ks' _ IH|n m ks|ks k2 k3 _ IH1 _ IH2]; simpl; try congruence.
  apply inc_prefix_comm.
Qed.

Lemma foldr_inc_bans (m : gmap IpNet BanRecord) (s : InMemoryBanStore) (ks : list IpNet) :
  foldr inc_prefix (set_bans m s) ks = set_bans m (foldr inc_prefix s ks).
Proof. induction ks as [|n ks IH]; [done|]. simpl. rewrite IH. by destruct n. Qed.

Lemma count_from_zero (m : gmap IpNet BanRecord) :
  (forall n r, m !! n = Some r -> wf_net n) -> Z.of_nat (size m) < 2 ^ 32 ->
  counts_ok (foldr inc_prefix (zero_counts m) (map_to_list m).*1).
Proof.
  induction m as [|n r m Hn IH] using map_ind; intros Hwf Hlt.
  - intros v4. rewrite map_to_list_empty. simpl. split; [by destruct v4|]. intros p Hp.
    rewrite count_keys_empty. unfold count_at.
    destruct v4; unfold fam_width in Hp; cbn [counts_of zero_counts v4_prefix_counts v6_prefix_counts];
      rewrite lookup_replicate_2 by lia; done.
  - rewrite (foldr_inc_perm _ _ (n :: (map_to_list m).*1)) by (by rewrite map_to_list_insert).
    rewrite map_size_insert_None in Hlt by done. simpl.
    change (zero_counts (<[n := r]> m)) with (set_bans (<[n := r]> m) (zero_counts m)).
    rewrite foldr_inc_bans. apply counts_ok_inc; [by apply (Hwf n r), lookup_insert_eq|done|lia|].
    rewrite <- foldr_inc_bans. apply IH; [|lia].
    intros n' r' Hn'. apply (Hwf n' r'). rewrite lookup_insert_ne; [done|naive_solver].
Qed.

Lemma rebuild_counts_ok (s : InMemoryBanStore) : keys_ok s -> store_small s ->
  counts_ok (rebuild_prefix_counts s) /\ bans (rebuild_prefix_counts s) = bans s.
Proof.
  intros Hk Hsz. split.
  - apply count_from_zero; [|done]. intros n r Hn. by apply (Hk n r).
  - unfold rebuild_prefix_counts.
    change {| bans := bans s; v4_prefix_counts := _; v6_prefix_counts := _ |}
      with (set_bans (bans s) (zero_counts (bans s))).
    by rewrite foldr_inc_bans.
Qed.

(** ** The store refines the map of bans *)
Lemma store_add_ban_ok (r : BanRecord) (s : InMemoryBanStore) :
  wf_net (subject r) -> store_inv s -> Z.of_nat (size (bans s)) + 1 < 2 ^ 32 ->
  store_inv (store_add_ban r s) /\ bans (store_add_ban r s) = <[subject r := r]> (bans s).
Proof.
  intros Hwf [Hc Hk] Hsz. unfold store_add_ban.
  assert (Hs : s = set_bans (bans s) s) by by destruct s.
  assert (Hkeys : forall t, bans t = <[subject r := r]> (bans s) -> keys_ok t).
  { intros t Ht n r' Hn. rewrite Ht, lookup_insert in Hn. case_decide; [naive_solver|eauto]. }
  destruct (bans s !! subject r) as [old|] eqn:Hold.
  - split; [|done]. split; [|by apply Hkeys]. intros v4. destruct (Hc v4) as [Hl Hcnt].
    split; [by destruct v4|]. intros p Hp. simpl. rewrite (count_keys_overwrite _ _ _ _ old) by done.
    rewrite <- (Hcnt p Hp). by destruct v4.
  - assert (bans (inc_prefix (subject r) (set_bans (<[subject r := r]> (bans s)) s)) =
            <[subject r := r]> (bans s)) as Hb by by destruct (subject r).
    split; [split|done]; [|by apply Hkeys]. by apply counts_ok_inc; [..|rewrite <- Hs].
Qed.

Lemma store_remove_ban_ok (n : IpNet) (s : InMemoryBanStore) :
  store_inv s ->
  store_inv (store_remove_ban n s).1 /\
  bans (store_remove_ban n s).1 = delete n (bans s) /\
  (store_remove_ban n s).2 = bool_decide (is_Some (bans s !! n)).
Proof.
  intros [Hc Hk]. unfold store_remove_ban. destruct (bans s !! n) as [r|] eqn:Hn; simpl.
  - assert (bans (dec_prefix n (set_bans (delete n (bans s)) s)) = delete n (bans s)) as Hb
      by by destruct n.
    split_and!; [split| |]; [..|done|done].
    + apply (counts_ok_dec n r); [done|]. by destruct s.
    + intros n' r' Hn'. rewrite Hb in Hn'. apply lookup_delete_Some in Hn' as [_ Hn']. eauto.
  - split_and!; [done|by rewrite delete_id|done].
Qed.

Lemma cleanup_expired_ok (now : DateTime) (s : InMemoryBanStore) :
  store_inv s -> store_small s ->
  let m := filter (fun kv : IpNet * BanRecord => unexpired now kv.2 = true) (bans s) in
  store_inv (cleanup_expired now s).1 /\
  bans (cleanup_expired now s).1 = m /\
  (cleanup_expired now s).2 = (size (bans s) - size m)%nat.
Proof.
  intros [Hc Hk] Hsz m. unfold cleanup_expired. fold m. cbv zeta.
  assert (Hsub : m ⊆ bans s) by apply map_filter_subseteq.
  assert (Hkm : keys_ok (set_bans m s)).
  { intros n r Hn. apply Hk. by eapply lookup_weaken. }
  assert (Hsm : store_small (set_bans m s)).
  { unfold store_small in *; simpl. apply map_subseteq_size in Hsub. lia. }
  destruct (rebuild_counts_ok (set_bans m s) Hkm Hsm) as [Hrc Hrb]. simpl in Hrb.
  change (bans (set_bans m s)) with m.
  destruct (Nat.ltb_spec 0 (size (bans s) - size m)) as [Hlt|Hge]; simpl.
  - rewrite Hrb. split_and!; [|done|done]. split; [done|]. intros n r. rewrite Hrb. apply Hkm.
  - split_and!; [|done|done]. split; [|done].
    assert (m = bans s) as -> by (apply map_subseteq_size_eq; [done|lia]).
    by destruct s.
Qed.

(** ** Longest-prefix match *)
Lemma lens_desc_elem (w p : nat) : p ∈ lens_desc w <-> (p <= w)%nat.
Proof. unfold lens_desc. rewrite elem_of_reverse, elem_of_seq. lia. Qed.

Lemma lens_desc_sorted (w : nat) : StronglySorted (fun p q => (q <= p)%nat) (lens_desc w).
Proof.
  unfold lens_desc. induction (S w) as [|n IH]; [constructor|].
  rewrite seq_S, reverse_app. simpl. constructor; [exact IH|].
  apply Forall_forall. intros q. rewrite elem_of_reverse, elem_of_seq. lia.
Qed.

Lemma lpm_from_Some (m : gmap IpNet BanRecord) (ip : IpAddr) (lens : list nat) (r : BanRecord) :
  StronglySorted (fun p q => (q <= p)%nat) lens -> lpm_from m ip lens = Some r ->
  exists p, p ∈ lens /\ m !! net_around ip p = Some r /\
    forall q, q ∈ lens -> is_Some (m !! net_around ip q) -> (q <= p)%nat.
Proof.
  induction lens as [|p lens IH]; [done|]. intros Hs%StronglySorted_inv Hl. destruct Hs as [Hs Hf].
  simpl in Hl. rewrite Forall_forall in Hf. destruct (m !! net_around ip p) as [r'|] eqn:E.
  - simplify_eq. exists p. split_and!; [set_solver|done|]. intros q Hq _.
    apply elem_of_cons in Hq as [->|Hq]; [done|by apply Hf].
  - destruct (IH Hs Hl) as (p' & Hin & Hp' & Hmax). exists p'. split_and!; [set_solver|done|].
    intros q Hq Hsome. apply elem_of_cons in Hq as [->|Hq]; [|by apply Hmax].
    rewrite E in Hsome. by destruct Hsome.
Qed.

Lemma lpm_from_None (m : gmap IpNet BanRecord) (ip : IpAddr) (lens : list nat) :
  lpm_from m ip lens = None <-> forall p, p ∈ lens -> m !! net_around ip p = None.
Proof.
  induction lens as [|p lens IH]; simpl; [set_solver|].
  destruct (m !! net_around ip p) eqn:E.
  - split; [done|]. intros Hn. rewrite Hn in E by set_solver. done.
  - rewrite IH. split; [|set_solver]. intros Hn q Hq.
    apply elem_of_cons in Hq as [->|Hq]; auto.
Qed.

(** The address computed with the shifted mask is the network address. *)
Lemma land_prefix_mask (w p : nat) (a : Z) :
  (p <= w)%nat -> in_width (Z.of_nat w) a -> Z.land a (prefix_mask w p) = mask_bits w p a.
Proof.
  intros Hp [Ha0 Ha]. unfold prefix_mask. case_decide as Hz.
  - subst p. rewrite Z.land_0_r, mask_bits_alt, Nat.sub_0_r, Z.mod_small by lia. lia.
  - apply Z.bits_inj'. intros i Hi. rewrite Z.land_spec. unfold mask_bits, top_bits, wrap.
    replace (2 ^ Z.of_nat w - 1) with (Z.ones (Z.of_nat w)) by (rewrite Z.ones_equiv; lia).
    rewrite <- Z.land_ones, Z.land_spec by lia.
    destruct (decide (i < Z.of_nat (w - p))) as [Hlt|Hge].
    + rewrite !Z.shiftl_spec_low by lia. by rewrite andb_false_r.
    + rewrite !Z.shiftl_spec, Z.shiftr_spec by lia.
      replace (i - Z.of_nat (w - p) + Z.of_nat (w - p)) with i by lia.
      destruct (decide (i < Z.of_nat w)) as [Hiw|Hiw].
      * rewrite !Z.ones_spec_low by lia. by rewrite !andb_true_r.
      * rewrite (Z.bits_above_log2 a i); [done|lia|].
        destruct (decide (a = 0)) as [->|]; [simpl; lia|].
        apply Z.log2_lt_pow2; [lia|]. apply (Z.lt_le_trans _ _ _ Ha), Z.pow_le_mono_r; lia.
Qed.

Section theorems.
Context `{IpNetOps}.
Context {laws : IpNetLaws}.

(** A prefix length whose counter is zero has no key to try. *)
Lemma zero_count_skip (s : InMemoryBanStore) (ip : IpAddr) (p : nat) :
  store_inv s -> (p <= ip_width ip)%nat ->
  count_at (counts_of (match ip with IpV4 _ => true | IpV6 _ => false end) s) p = 0 ->
  bans s !! net_around ip p = None.
Proof.
  intros [Hc _] Hp Hz. destruct (Hc (match ip with IpV4 _ => true | IpV6 _ => false end)) as [_ Hk].
  rewrite Hk in Hz by (by destruct ip).
  destruct (bans s !! net_around ip p) as [r|] eqn:E; [|done].
  pose proof (proj1 (count_keys_zero (match ip with IpV4 _ => true | IpV6 _ => false end) p (bans s))
    ltac:(lia) _ _ E) as Hno.
  exfalso. apply Hno. by destruct ip.
Qed.

Lemma is_banned_v4_lpm (s : InMemoryBanStore) (a : Z) (lens : list nat) :
  store_inv s -> wf_ip (IpV4 a) -> Forall (fun p => (p <= 32)%nat) lens ->
  is_banned_v4 s a lens = lpm_from (bans s) (IpV4 a) lens.
Proof using laws.
  intros Hs Ha. induction 1 as [|p lens Hp _ IH]; [done|]. cbn [is_banned_v4 lpm_from].
  destruct (Z.eqb_spec (count_at (v4_prefix_counts s) p) 0) as [Hz|Hnz].
  - rewrite (zero_count_skip s (IpV4 a) p) by done. exact IH.
  - rewrite ipnet_new_law, decide_True by done. rewrite land_prefix_mask by done.
    cbn [net_around]. destruct (bans s !! _); [done|exact IH].
Qed.

Lemma is_banned_v6_lpm (s : InMemoryBanStore) (a : Z) (lens : list nat) :
  store_inv s -> wf_ip (IpV6 a) -> Forall (fun p => (p <= 128)%nat) lens ->
  is_banned_v6 s a lens = lpm_from (bans s) (IpV6 a) lens.
Proof using laws.
  intros Hs Ha. induction 1 as [|p lens Hp _ IH]; [done|]. cbn [is_banned_v6 lpm_from].
  destruct (Z.eqb_spec (count_at (v6_prefix_counts s) p) 0) as [Hz|Hnz].
  - rewrite (zero_count_skip s (IpV6 a) p) by done. exact IH.
  - rewrite ipnet_new_law, decide_True by done. rewrite land_prefix_mask by done.
    cbn [net_around]. destruct (bans s !! _); [done|exact IH].
Qed.

Lemma is_banned_lpm (s : InMemoryBanStore) (ip : IpAddr) :
  store_inv s -> wf_ip ip -> is_banned s ip = lpm (bans s) ip.
Proof using laws.
  intros Hs Ha. unfold is_banned, lpm. destruct ip as [a|a].
  - apply is_banned_v4_lpm; [done..|]. apply Forall_forall. intros p. by rewrite lens_desc_elem.
  - apply is_banned_v6_lpm; [done..|]. apply Forall_forall. intros p. by rewrite lens_desc_elem.
Qed.

(** [is_banned] is longest-prefix match. Despite skipping the prefix
    lengths whose counter is zero, it returns the stored ban of the most
    specific truncated network that contains the address, and nothing exactly
    when no truncated stored network contains it. *)
Theorem is_banned_longest_prefix (s : InMemoryBanStore) (ip : IpAddr)
  (Hs : store_inv s) (Hip : wf_ip ip) :
  match is_banned s ip with
  | Some r => exists n, bans s !! n = Some r /\ canonical n /\ in_net n ip /\
      forall n' r', bans s !! n' = Some r' -> canonical n' -> in_net n' ip ->
        (prefix_len n' <= prefix_len n)%nat
  | None => forall n r, bans s !! n = Some r -> canonical n -> ~ in_net n ip
  end.
Proof using laws.
  rewrite is_banned_lpm by done. unfold lpm.
  assert (Hcand : forall n r, bans s !! n = Some r -> canonical n -> in_net n ip ->
            prefix_len n ∈ lens_desc (ip_width ip) /\
            bans s !! net_around ip (prefix_len n) = Some r).
  { intros n r Hn Hc Hin. rewrite <- (canonical_in_net n ip) by done. split; [|done].
    destruct Hs as [_ Hk]. destruct (Hk n r Hn) as [[_ Hw] _].
    rewrite lens_desc_elem. destruct Hin as [<- _]. done. }
  destruct (lpm_from _ _ _) as [r|] eqn:E.
  - apply lpm_from_Some in E as (p & Hp & Hl & Hmax); [|apply lens_desc_sorted].
    exists (net_around ip p). split_and!; [done|apply net_around_canonical|apply in_net_around|].
    intros n' r' Hn' Hc' Hin'. destruct (Hcand n' r' Hn' Hc' Hin') as [H1 H2].
    replace (prefix_len (net_around ip p)) with p by (by destruct ip). apply Hmax; eauto.
  - intros n r Hn Hc Hin. destruct (Hcand n r Hn Hc Hin) as [H1 H2].
    apply lpm_from_None with (p := prefix_len n) in E; [|done]. congruence.
Qed.

Lemma covering_bans_spec (s : InMemoryBanStore) (net : IpNet) (r : BanRecord) :
  store_inv s -> wf_net net ->
  r ∈ covering_bans s net <->
  exists n, bans s !! n = Some r /\ canonical n /\ in_net n (net_addr net) /\
    (prefix_len n <= prefix_len net)%nat.
Proof using laws.
  intros Hs [Hip Hw].
  assert (Htry : forall p, (p <= prefix_len net)%nat ->
            (c ← ipnet_new (net_addr net) p; bans s !! net_trunc c) =
            bans s !! net_around (net_addr net) p).
  { intros p Hp. rewrite ipnet_new_law, decide_True by (destruct net; simpl in *; lia).
    cbn [mbind option_bind]. rewrite net_trunc_law; [by destruct net|].
    destruct net; split; simpl in *; (done || lia). }
  unfold covering_bans. rewrite list_elem_of_omap. split.
  - intros (p & Hp%elem_of_seq & E). case_match; [|done]. rewrite Htry in E by lia.
    exists (net_around (net_addr net) p).
    split_and!; [done|apply net_around_canonical|apply in_net_around|].
    destruct net; simpl in *; lia.
  - intros (n & Hn & Hc & Hin & Hp). exists (prefix_len n). rewrite elem_of_seq. split; [lia|].
    pose proof (canonical_in_net n (net_addr net) Hc Hin) as Hna.
    destruct (Z.ltb_spec 0 (count_at (match net with NetV4 _ _ => v4_prefix_counts s
      | NetV6 _ _ => v6_prefix_counts s end) (prefix_len n))) as [_|Hz].
    + rewrite Htry by done. by rewrite <- Hna.
    + destruct (Hs) as [Hcnt _]. destruct (Hcnt (is_v4 net)) as [_ Hk].
      specialize (Hk (prefix_len n) ltac:(destruct net; simpl in *; lia)).
      replace (counts_of (is_v4 net) s) with (match net with NetV4 _ _ => v4_prefix_counts s
        | NetV6 _ _ => v6_prefix_counts s end) in Hk by (by destruct net).
      pose proof (proj1 (count_keys_zero (is_v4 net) (prefix_len n) (bans s)) ltac:(lia) _ _ Hn) as Hno.
      exfalso. apply Hno. split; [|done]. destruct Hin as [Hwid _]. by destruct n, net.
Qed.

(** [covering_bans] returns exactly the stored bans, expired or not, of
    the truncated networks that contain the subject: those containing its
    address with a prefix no longer than its own. *)
Theorem covering_bans_exact (s : InMemoryBanStore) (net : IpNet) (r : BanRecord)
  (Hs : store_inv s) (Hnet : wf_net net) :
  r ∈ covering_bans s net <->
  exists n, bans s !! n = Some r /\ canonical n /\ in_net n (net_addr net) /\
    (prefix_len n <= prefix_len net)%nat.
Proof using laws. by apply covering_bans_spec. Qed.
End theorems.

(** ** Sequences of store operations against the abstract map *)
Inductive store_op : Type :=
| OpAdd (r : BanRecord)
| OpRemove (n : IpNet)
| OpCleanup (now : DateTime).

Definition store_step (o : store_op) (s : InMemoryBanStore) : InMemoryBanStore :=
  match o with
  | OpAdd r => store_add_ban r s
  | OpRemove n => (store_remove_ban n s).1
  | OpCleanup now => (cleanup_expired now s).1
  end.

(** What each operation does to the set of bans. *)
Definition spec_step (o : store_op) (m : gmap IpNet BanRecord) : gmap IpNet BanRecord :=
  match o with
  | OpAdd r => <[subject r := r]> m
  | OpRemove n => delete n m
  | OpCleanup now => filter (fun kv : IpNet * BanRecord => unexpired now kv.2 = true) m
  end.

Definition wf_op (o : store_op) : Prop :=
  match o with OpAdd r => wf_net (subject r) | _ => True end.

Lemma store_new_inv : store_inv store_new.
Proof.
  split; [|by intros n r Hn]. intros v4. split; [by destruct v4|]. intros p Hp.
  change (bans store_new) with (∅ : gmap IpNet BanRecord). rewrite count_keys_empty.
  unfold count_at, counts_of, store_new; cbn [v4_prefix_counts v6_prefix_counts].
  destruct v4; unfold fam_width in Hp; rewrite lookup_replicate_2 by lia; done.
Qed.

Lemma store_step_refines (o : store_op) (s : InMemoryBanStore) :
  wf_op o -> store_inv s -> Z.of_nat (size (bans s)) + 1 < 2 ^ 32 ->
  store_inv (store_step o s) /\ bans (store_step o s) = spec_step o (bans s) /\
  (size (bans (store_step o s)) <= S (size (bans s)))%nat.
Proof.
  intros Hwf Hs Hsz. destruct o as [r|n|now]; simpl.
  - destruct (store_add_ban_ok r s Hwf Hs Hsz) as [? Hb]. rewrite Hb.
    split_and!; [done..|]. rewrite map_size_insert. destruct (bans s !! _); simpl; lia.
  - destruct (store_remove_ban_ok n s Hs) as (? & Hb & _). rewrite Hb.
    split_and!; [done..|]. rewrite map_size_delete. destruct (bans s !! _); simpl; lia.
  - destruct (cleanup_expired_ok now s Hs ltac:(unfold store_small; lia)) as (? & Hb & _).
    rewrite Hb. split_and!; [done..|].
    pose proof (map_subseteq_size _ _ (map_filter_subseteq
      (fun kv : IpNet * BanRecord => unexpired now kv.2 = true) (bans s))). lia.
Qed.

Lemma store_run_refines (ops : list store_op) (s : InMemoryBanStore) :
  Forall wf_op ops -> store_inv s -> Z.of_nat (size (bans s) + length ops) < 2 ^ 32 ->
  store_inv (foldl (fun s o => store_step o s) s ops) /\
  bans (foldl (fun s o => store_step o s) s ops) = foldl (fun m o => spec_step o m) (bans s) ops.
Proof.
  revert s. induction ops as [|o ops IH]; intros s Hops Hs Hsz; [done|].
  apply Forall_cons in Hops as [Ho Hops]. simpl in *.
  destruct (store_step_refines o s Ho Hs ltac:(lia)) as (H1 & H2 & H3).
  rewrite <- H2. apply IH; [done..|lia].
Qed.

(** C6: Refinement. After any sequence of fewer than [2^32] additions,
    removals and expiry sweeps, the store holds exactly the bans the abstract
    map holds, its counters are exact, and every query is answered as longest
    prefix match on that map. *)
Theorem store_refines_map `{IpNetOps} {laws : IpNetLaws} (ops : list store_op) (ip : IpAddr)
  (Hops : Forall wf_op ops) (Hlen : Z.of_nat (length ops) < 2 ^ 32) (Hip : wf_ip ip) :
  let s := foldl (fun s o => store_step o s) store_new ops in
  let m := foldl (fun m o => spec_step o m) ∅ ops in
  bans s = m /\ store_inv s /\ is_banned s ip = lpm m ip.
Proof.
  intros s m. destruct (store_run_refines ops store_new Hops store_new_inv) as [H1 H2]; [done|].
  fold s in H1, H2. split_and!; [exact H2|done|].
  rewrite is_banned_lpm by done. by rewrite H2.
Qed.

(** ** Witnesses *)
Definition sample_ban (n : IpNet) (exp : option DateTime) : BanRecord :=
  {| subject := n; created_at := 0; expires_at := exp; severity := 150; reason := "ssh";
     evidence_hash := []; source := ManualAdmin; geo_info := None |}.

(** 10.0.0.0/8 and 10.1.0.0/16 *)
Definition wide_net : IpNet := NetV4 167772160 8.
Definition narrow_net : IpNet := NetV4 167837696 16.
Definition sample_ops : list store_op :=
  [OpAdd (sample_ban wide_net None); OpAdd (sample_ban narrow_net (Some 50)); OpCleanup 20].

Lemma sample_ops_wf : Forall wf_op sample_ops.
Proof. repeat constructor; vm_compute; try congruence; lia. Qed.

Lemma store_refines_map_witness :
  @is_banned ipnet_ref (foldl (fun s o => store_step o s) store_new sample_ops) (IpV4 167837703)
  = Some (sample_ban narrow_net (Some 50)).
Proof.
  pose proof (@store_refines_map ipnet_ref ipnet_ref_laws sample_ops (IpV4 167837703)
    sample_ops_wf ltac:(vm_compute; reflexivity) ltac:(vm_compute; split; congruence))
    as (_ & _ & Heq). rewrite Heq. vm_compute. reflexivity.
Defined.

Definition sample_store : InMemoryBanStore := foldl (fun s o => store_step o s) store_new sample_ops.

Lemma sample_store_inv : store_inv sample_store.
Proof. apply (store_run_refines sample_ops store_new sample_ops_wf store_new_inv). done. Qed.

Lemma is_banned_longest_prefix_witness :
  exists n r, bans sample_store !! n = Some r /\ in_net n (IpV4 167837703).
Proof.
  pose proof (@is_banned_longest_prefix ipnet_ref ipnet_ref_laws sample_store (IpV4 167837703)
    sample_store_inv ltac:(vm_compute; split; congruence)) as Hl.
  destruct (@is_banned ipnet_ref sample_store (IpV4 167837703)) as [r|] eqn:E.
  - destruct Hl as (n & Hn & _ & Hin & _). exists n, r. split; [exact Hn|exact Hin].
  - vm_compute in E. discriminate.
Defined.

Lemma covering_bans_exact_witness :
  sample_ban wide_net None ∈ @covering_bans ipnet_ref sample_store narrow_net.
Proof.
  apply (proj2 (@covering_bans_exact ipnet_ref ipnet_ref_laws sample_store narrow_net
    (sample_ban wide_net None) sample_store_inv ltac:(vm_compute; repeat split; try congruence; lia))).
  exists wide_net. vm_compute. repeat split; try congruence. lia.
Defined.
