(* ===== verification/Whitelist.v ===== *)
(** * Whitelist ([hiveguard-core/src/whitelist.rs])

    The two-layer list of networks that are never banned: the hard-coded
    ranges and the configured entries, with the overlap test used on every
    ban subject. *)
From S2P Require Import Prelude Models.
Local Open Scope Z_scope.

Definition ipv4 (a b c d : Z) : Z := ((a * 256 + b) * 256 + c) * 256 + d.
(** The first 16-bit group of an IPv6 address, the rest zero. *)
Definition ipv6_top (g : Z) : Z := g * 2 ^ 112.

(** The literals of the source, as the networks they denote. *)
Definition IMMUTABLE_PROTECTED : list IpNet := [
  NetV4 (ipv4 127 0 0 0) 8;
  NetV6 1 128;
  NetV4 (ipv4 10 0 0 0) 8;
  NetV4 (ipv4 172 16 0 0) 12;
  NetV4 (ipv4 192 168 0 0) 16;
  NetV4 (ipv4 169 254 0 0) 16;
  NetV6 (ipv6_top 65152) 10;
  NetV4 (ipv4 192 0 2 0) 24;
  NetV4 (ipv4 198 51 100 0) 24;
  NetV4 (ipv4 203 0 113 0) 24;
  NetV4 (ipv4 0 0 0 0) 8;
  NetV6 0 128;
  NetV4 (ipv4 224 0 0 0) 4;
  NetV6 (ipv6_top 65280) 8;
  NetV6 (ipv6_top 64512) 7
].

Record WhitelistManager : Type := {
  wl_entries : gset IpNet;
  wl_immutable : list IpNet;
}.

Definition whitelist_new : WhitelistManager :=
  {| wl_entries := ∅; wl_immutable := IMMUTABLE_PROTECTED |}.

Definition whitelist_add (net : IpNet) (w : WhitelistManager) : WhitelistManager :=
  {| wl_entries := {[ net ]} ∪ wl_entries w; wl_immutable := wl_immutable w |}.

Definition whitelist_remove (net : IpNet) (w : WhitelistManager) : WhitelistManager * bool :=
  ({| wl_entries := wl_entries w ∖ {[ net ]}; wl_immutable := wl_immutable w |},
   bool_decide (net ∈ wl_entries w)).

(** [immutable.iter().chain(entries.iter())] *)
Definition all_entries (w : WhitelistManager) : list IpNet :=
  wl_immutable w ++ elements (wl_entries w).

Section ops.
Context `{IpNetOps}.

Definition is_immutably_protected (w : WhitelistManager) (ip : IpAddr) : bool :=
  existsb (fun net => net_contains net ip) (wl_immutable w).

Definition is_whitelisted (w : WhitelistManager) (ip : IpAddr) : bool :=
  is_immutably_protected w ip ||
  existsb (fun net => net_contains net ip) (elements (wl_entries w)).

Definition nets_overlap (a b : IpNet) : bool :=
  net_contains a (net_addr b) || net_contains b (net_addr a).

Definition overlaps (w : WhitelistManager) (net : IpNet) : bool :=
  existsb (fun x => nets_overlap x net) (all_entries w).

Definition covers (w : WhitelistManager) (net : IpNet) : bool :=
  existsb (fun x => net_contains x (net_addr net) && (prefix_len x <=? prefix_len net)%nat)
    (all_entries w).
End ops.

Definition wf_whitelist (w : WhitelistManager) : Prop := forall n, n ∈ all_entries w -> wf_net n.

Lemma existsb_elem {A} (f : A -> bool) (l : list A) :
  existsb f l = true <-> exists x, x ∈ l /\ f x = true.
Proof. rewrite existsb_exists. by setoid_rewrite list_elem_of_In. Qed.

Lemma immutable_wf (n : IpNet) : n ∈ IMMUTABLE_PROTECTED -> wf_net n.
Proof.
  assert (Forall wf_net IMMUTABLE_PROTECTED) as Hf.
  { unfold IMMUTABLE_PROTECTED, wf_net, wf_ip, in_width.
    repeat (constructor; [vm_compute; repeat split; (congruence || lia)|]). constructor. }
  by rewrite Forall_forall in Hf; apply Hf.
Qed.

Lemma whitelist_new_wf : wf_whitelist whitelist_new.
Proof.
  intros n Hn. apply immutable_wf. unfold all_entries in Hn; simpl in Hn. set_solver.
Qed.

Lemma whitelist_add_wf (n : IpNet) (w : WhitelistManager) :
  wf_net n -> wf_whitelist w -> wf_whitelist (whitelist_add n w).
Proof.
  unfold wf_whitelist, all_entries. intros Hn Hw m Hm. simpl in Hm.
  destruct (decide (m = n)) as [->|Hne]; [done|]. apply Hw. set_solver.
Qed.

Lemma whitelist_remove_wf (n : IpNet) (w : WhitelistManager) :
  wf_whitelist w -> wf_whitelist (whitelist_remove n w).1.
Proof. unfold wf_whitelist, all_entries. simpl. intros Hw m Hm. apply Hw. set_solver. Qed.

Lemma overlaps_remove `{IpNetOps} (n net : IpNet) (w : WhitelistManager) :
  overlaps w net = false -> overlaps (whitelist_remove n w).1 net = false.
Proof.
  intros Ho. apply not_true_iff_false. intros Ht. apply not_true_iff_false in Ho. apply Ho.
  revert Ht. unfold overlaps. rewrite !existsb_elem. unfold all_entries; simpl.
  intros (x & Hx & Hn). exists x. split; [set_solver|done].
Qed.

Section theorems.
Context `{IpNetOps}.
Context {laws : IpNetLaws}.

(** Two blocks overlap exactly when they share an address. *)
Lemma nets_overlap_spec (a b : IpNet) : wf_net a -> wf_net b ->
  nets_overlap a b = true <-> exists ip, wf_ip ip /\ in_net a ip /\ in_net b ip.
Proof using laws.
  intros Ha Hb. unfold nets_overlap.
  rewrite orb_true_iff, !net_contains_law by (done || apply Ha || apply Hb). split.
  - intros [Hi|Hi].
    + exists (net_addr b). split_and!; [apply Hb|done|apply in_net_addr].
    + exists (net_addr a). split_and!; [apply Ha|apply in_net_addr|done].
  - intros (ip & _ & Hia & Hib).
    destruct (decide (prefix_len a <= prefix_len b)%nat) as [Hle|Hgt].
    + left. by apply (in_net_nest a b ip).
    + right. apply (in_net_nest b a ip); (done || lia).
Qed.

Lemma overlaps_spec (w : WhitelistManager) (net : IpNet) : wf_whitelist w -> wf_net net ->
  overlaps w net = true <->
  exists x ip, x ∈ all_entries w /\ wf_ip ip /\ in_net x ip /\ in_net net ip.
Proof using laws.
  intros Hw Hn. unfold overlaps. rewrite existsb_elem. split.
  - intros (x & Hx & Ho). apply nets_overlap_spec in Ho as (ip & ?); [|by apply Hw|done].
    exists x, ip. naive_solver.
  - intros (x & ip & Hx & Hip & H1 & H2). exists x. split; [done|].
    apply nets_overlap_spec; [by apply Hw|done|]. eauto.
Qed.

(** The overlap test on ban subjects is exact. [overlaps] holds of a
    network exactly when some address of it is protected, by a hard-coded or a
    configured entry; so a ban that passes the test cannot hit any whitelisted
    address, whichever of the two blocks is the wider one. *)
Theorem overlaps_exact (w : WhitelistManager) (net : IpNet)
  (Hw : wf_whitelist w) (Hn : wf_net net) :
  overlaps w net = true <->
  exists ip, wf_ip ip /\ in_net net ip /\ is_whitelisted w ip = true.
Proof using laws.
  rewrite overlaps_spec by done. unfold is_whitelisted, is_immutably_protected.
  setoid_rewrite orb_true_iff. setoid_rewrite existsb_elem. split.
  - intros (x & ip & Hx & Hip & H1 & H2). exists ip. split_and!; [done..|].
    pose proof (Hw x Hx) as Hwx. unfold all_entries in Hx. rewrite elem_of_app in Hx.
    destruct Hx as [Hx|Hx]; [left|right]; exists x; (split; [done|]);
      by apply net_contains_law.
  - intros (ip & Hip & H2 & [(x & Hx & Hc)|(x & Hx & Hc)]); exists x, ip;
      (assert (x ∈ all_entries w) as Hin by (unfold all_entries; set_solver));
      (split_and!; [done..| |done]); (apply net_contains_law in Hc; [done|by apply Hw|done]).
Qed.

(** [covers] is sound: when it holds of a network, every address of that
    network is whitelisted, so skipping a configured entry that is already
    covered loses no protection. *)
Theorem covers_sound (w : WhitelistManager) (net : IpNet) (ip : IpAddr)
  (Hw : wf_whitelist w) (Hn : wf_net net) (Hip : wf_ip ip)
  (Hc : covers w net = true) (Hin : in_net net ip) :
  is_whitelisted w ip = true.
Proof using laws.
  unfold covers in Hc. rewrite existsb_elem in Hc. destruct Hc as (x & Hx & Hc).
  apply andb_true_iff in Hc as [Hc Hp%Nat.leb_le].
  apply net_contains_law in Hc; [|by apply Hw|apply Hn].
  assert (in_net x ip) as Hxi by by eapply in_net_widen.
  unfold is_whitelisted, is_immutably_protected. rewrite orb_true_iff, !existsb_elem.
  pose proof (Hw x Hx). unfold all_entries in Hx. rewrite elem_of_app in Hx.
  destruct Hx as [Hx|Hx]; [left|right]; exists x; (split; [done|]); by apply net_contains_law.
Qed.
End theorems.

(** ** Runtime changes of the whitelist *)
Inductive whitelist_op : Type :=
| WlAdd (n : IpNet)
| WlRemove (n : IpNet).

Definition whitelist_step (w : WhitelistManager) (o : whitelist_op) : WhitelistManager :=
  match o with
  | WlAdd n => whitelist_add n w
  | WlRemove n => (whitelist_remove n w).1
  end.

Definition wf_whitelist_op (o : whitelist_op) : Prop :=
  match o with WlAdd n => wf_net n | WlRemove _ => True end.

Lemma whitelist_run_inv (ops : list whitelist_op) (w : WhitelistManager) :
  Forall wf_whitelist_op ops -> wf_whitelist w ->
  wf_whitelist (foldl whitelist_step w ops) /\
  wl_immutable (foldl whitelist_step w ops) = wl_immutable w.
Proof.
  revert w. induction ops as [|o ops IH]; intros w Hops Hw; [done|].
  apply Forall_cons in Hops as [Ho Hops]. simpl.
  assert (Hw' : wf_whitelist (whitelist_step w o)) 
    by (destruct o; [by apply whitelist_add_wf|by apply whitelist_remove_wf]).
  destruct (IH (whitelist_step w o) Hops Hw') as [H1 H2].
  split; [done|]. rewrite H2. by destruct o.
Qed.

(** The hard-coded ranges cannot be lifted at run time. After any
    sequence of additions and removals, a network that shares an address with
    a hard-coded range (loopback, RFC 1918, link-local, ...) still overlaps the
    whitelist, so it can never become a ban subject. *)
Theorem immutable_ranges_permanent `{IpNetOps} {laws : IpNetLaws}
  (ops : list whitelist_op) (x net : IpNet) (ip : IpAddr)
  (Hops : Forall wf_whitelist_op ops) (Hx : x ∈ IMMUTABLE_PROTECTED)
  (Hn : wf_net net) (Hip : wf_ip ip) (H1 : in_net x ip) (H2 : in_net net ip) :
  overlaps (foldl whitelist_step whitelist_new ops) net = true /\
  is_immutably_protected (foldl whitelist_step whitelist_new ops) ip = true.
Proof.
  destruct (whitelist_run_inv ops whitelist_new Hops whitelist_new_wf) as [Hw Him].
  split.
  - apply overlaps_spec; [done..|]. exists x, ip. split_and!; try done.
    unfold all_entries. rewrite Him. simpl. set_solver.
  - unfold is_immutably_protected. rewrite existsb_elem, Him. exists x. split; [done|].
    apply net_contains_law; [by apply immutable_wf|done..].
Qed.

(** ** Witnesses: 8.8.0.0/16 against an entry 8.8.8.8/32, and 10.0.0.0/24. *)
Definition entry_net : IpNet := NetV4 (ipv4 8 8 8 8) 32.
Definition wide_ban : IpNet := NetV4 (ipv4 8 8 0 0) 16.

Lemma overlaps_exact_witness :
  @overlaps ipnet_ref (whitelist_add entry_net whitelist_new) wide_ban = true.
Proof.
  apply (proj2 (@overlaps_exact ipnet_ref ipnet_ref_laws (whitelist_add entry_net whitelist_new) wide_ban
    ltac:(apply whitelist_add_wf; [vm_compute; repeat split; (congruence || lia)|apply whitelist_new_wf])
    ltac:(vm_compute; repeat split; (congruence || lia)))).
  exists (IpV4 (ipv4 8 8 8 8)). split; [vm_compute; split; congruence|].
  split; [vm_compute; split; reflexivity|vm_compute; reflexivity].
Defined.

Lemma covers_sound_witness :
  @is_whitelisted ipnet_ref (whitelist_add wide_ban whitelist_new) (IpV4 (ipv4 8 8 8 9)) = true.
Proof.
  apply (@covers_sound ipnet_ref ipnet_ref_laws (whitelist_add wide_ban whitelist_new)
    (NetV4 (ipv4 8 8 8 0) 24) (IpV4 (ipv4 8 8 8 9))).
  - apply whitelist_add_wf; [vm_compute; repeat split; (congruence || lia)|apply whitelist_new_wf].
  - vm_compute; repeat split; (congruence || lia).
  - vm_compute; split; congruence.
  - vm_compute; reflexivity.
  - vm_compute; split; reflexivity.
Defined.

Lemma immutable_ranges_permanent_witness :
  @overlaps ipnet_ref
    (foldl whitelist_step whitelist_new [WlAdd wide_ban; WlRemove (NetV4 (ipv4 10 0 0 0) 8)])
    (NetV4 (ipv4 10 0 0 0) 24) = true.
Proof.
  refine (proj1 (@immutable_ranges_permanent ipnet_ref ipnet_ref_laws
    [WlAdd wide_ban; WlRemove (NetV4 (ipv4 10 0 0 0) 8)] (NetV4 (ipv4 10 0 0 0) 8)
    (NetV4 (ipv4 10 0 0 0) 24) (IpV4 (ipv4 10 0 0 7)) _ _ _ _ _ _)).
  - repeat constructor; vm_compute; congruence || lia.
  - unfold IMMUTABLE_PROTECTED. do 2 right. left.
  - vm_compute; repeat split; (congruence || lia).
  - vm_compute; split; congruence.
  - vm_compute; split; reflexivity.
  - vm_compute; split; reflexivity.
Defined.
