(* ===== verification/Wal.v ===== *)
(** * Write-ahead log ([hiveguard-core/src/persistence/wal.rs])

    Record framing (length, payload, checksum), the appending writer with its
    failure latch, and the replaying reader that stops at the first record it
    cannot validate. A failing write may leave any prefix of the record in the
    file; the fault of an operation is an argument. *)
From S2P Require Import Prelude Models Hlc Crdt.
Local Open Scope Z_scope.

Inductive WalEntry : Type :=
| WAddBan (r : BanRecord)
| WRemoveBan (n : IpNet)
| WAddWhitelist (n : IpNet)
| WRemoveWhitelist (n : IpNet)
| WAddCrdtBan (r : CrdtBanRecord)
| WTombstoneCrdtBan (n : IpNet)
| WRevokeBan (n : IpNet) (cutoff : DateTime).

#[export] Instance WalEntry_eq_dec : EqDecision WalEntry.
Proof. solve_decision. Defined.

#[export] Instance WalEntry_countable : Countable WalEntry.
Proof.
  refine (inj_countable'
    (fun e => match e with
              | WAddBan r => inl (inl r) | WRemoveBan n => inl (inr (inl n))
              | WAddWhitelist n => inl (inr (inr n)) | WRemoveWhitelist n => inr (inl (inl n))
              | WAddCrdtBan r => inr (inl (inr r)) | WTombstoneCrdtBan n => inr (inr (inl n))
              | WRevokeBan n t => inr (inr (inr (n, t))) end)
    (fun x => match x with
              | inl (inl r) => WAddBan r | inl (inr (inl n)) => WRemoveBan n
              | inl (inr (inr n)) => WAddWhitelist n | inr (inl (inl n)) => WRemoveWhitelist n
              | inr (inl (inr r)) => WAddCrdtBan r | inr (inr (inl n)) => WTombstoneCrdtBan n
              | inr (inr (inr (n, t))) => WRevokeBan n t end) _).
  by intros [].
Defined.

Inductive WalSyncMode : Type := Fdatasync | Sync | NoSync.

Definition WalSyncMode_from_str (s : string) : WalSyncMode :=
  if String.eqb s "sync" then Sync
  else if String.eqb s "none" then NoSync
  else Fdatasync.

Definition WAL_MAX_RECORD_SIZE : Z := 16 * 1024 * 1024.

(** The file is its contents; the handle appends. *)
Record WalWriter : Type := {
  wal_file : list Z;
  wal_sync_mode : WalSyncMode;
  write_failed : bool;
}.

(** Why the reader stopped. *)
Inductive stop_reason : Type :=
| EndOfFile
| LengthTooLarge
| MissingPayload
| MissingCrc
| CrcMismatch
| TrailingPayload
| BadPayload.

Inductive record_outcome : Type :=
| Record_ (entry : WalEntry) (len : nat) (rest : list Z)
| Stop (why : stop_reason).

Section wal.
Context `{Codec WalEntry} `{Crc32}.

(** [length LE][payload][crc LE] *)
Definition frame (payload : list Z) : list Z :=
  to_le_bytes 4 (wrap 32 (Z.of_nat (length payload))) ++ payload ++ to_le_bytes 4 (crc32 payload).

(** One iteration of the loop of [replay_with_offset]. *)
Definition read_record (bs : list Z) : record_outcome :=
  match read_exact 4 bs with
  | None => Stop EndOfFile
  | Some (len_buf, r1) =>
      let len := of_le_bytes len_buf in
      if WAL_MAX_RECORD_SIZE <? len then Stop LengthTooLarge else
      match read_exact (Z.to_nat len) r1 with
      | None => Stop MissingPayload
      | Some (payload, r2) =>
          match read_exact 4 r2 with
          | None => Stop MissingCrc
          | Some (crc_buf, r3) =>
              if negb (of_le_bytes crc_buf =? crc32 payload) then Stop CrcMismatch else
              match take_from_bytes payload with
              | Some (entry, []) => Record_ entry (Z.to_nat len) r3
              | Some (_, _ :: _) => Stop TrailingPayload
              | None => Stop BadPayload
              end
          end
      end
  end.

(** The loop; each iteration consumes at least eight bytes, so a fuel of the
    file's length is never exhausted. *)
Fixpoint replay_loop (fuel : nat) (bs : list Z) (entries : list WalEntry) (valid_end : nat)
    : list WalEntry * nat :=
  match fuel with
  | O => (entries, valid_end)
  | S fuel' =>
      match read_record bs with
      | Record_ entry len rest => replay_loop fuel' rest (entries ++ [entry]) (valid_end + (4 + len + 4))
      | Stop _ => (entries, valid_end)
      end
  end.

Definition replay_with_offset (file : list Z) : list WalEntry * nat :=
  replay_loop (S (length file)) file [] 0.

Definition replay (file : list Z) : list WalEntry := (replay_with_offset file).1.

Definition replay_strict (file : list Z) : hresult (list WalEntry) :=
  let '(entries, valid_end) := replay_with_offset file in
  if decide (valid_end = length file) then Ok entries
  else Err (EStorage "WAL is not fully recoverable").

(** [WalWriter::open]: truncate whatever follows the last valid record. *)
Definition wal_open (file : list Z) (mode : WalSyncMode) : WalWriter :=
  let '(_, valid_end) := replay_with_offset file in
  {| wal_file := if decide (length file = valid_end) then file else take valid_end file;
     wal_sync_mode := mode;
     write_failed := false |}.

(** [WalWriter::append]. [fault = Some k]: a [write_all] or [sync_data] fails
    with the first [k] bytes of the record in the file. *)
Definition append (fault : option nat) (entry : WalEntry) (w : WalWriter)
    : WalWriter * hresult unit :=
  if write_failed w then
    (w, Err (EStorage "WAL unavailable after a failed write; recovery is required"))
  else
    match encode_bytes entry with
    | None => (w, Err (EStorage "WAL serialize error"))
    | Some payload =>
        if WAL_MAX_RECORD_SIZE <? Z.of_nat (length payload)
        then (w, Err (EStorage "WAL record exceeds maximum size"))
        else
          match fault with
          | None => ({| wal_file := wal_file w ++ frame payload;
                        wal_sync_mode := wal_sync_mode w; write_failed := false |}, Ok tt)
          | Some k => ({| wal_file := wal_file w ++ take k (frame payload);
                          wal_sync_mode := wal_sync_mode w; write_failed := true |}, Err (EIo OtherIo))
          end
    end.

(** [WalWriter::truncate]. [fault]: reopening failed. *)
Definition truncate (fault : bool) (w : WalWriter) : WalWriter * hresult unit :=
  if fault then (w, Err (EIo OtherIo))
  else ({| wal_file := []; wal_sync_mode := wal_sync_mode w; write_failed := false |}, Ok tt).

(** ** Scanning a file *)

(** [scan bs es tail]: [bs] is the records of [es] followed by [tail], at
    which the reader stops. *)
Inductive scan : list Z -> list WalEntry -> list Z -> Prop :=
| scan_stop bs why : read_record bs = Stop why -> scan bs [] bs
| scan_record bs entry len rest es tail :
    read_record bs = Record_ entry len rest -> scan rest es tail -> scan bs (entry :: es) tail.

(** Reading a record depends on that record's bytes only. *)
Lemma read_record_local (bs : list Z) (entry : WalEntry) (len : nat) (rest : list Z) :
  read_record bs = Record_ entry len rest ->
  exists chunk, bs = chunk ++ rest /\ length chunk = (4 + len + 4)%nat /\
    forall rest', read_record (chunk ++ rest') = Record_ entry len rest'.
Proof.
  unfold read_record. intros E.
  destruct (read_exact 4 bs) as [[b1 r1]|] eqn:E1; [|done].
  apply read_exact_Some in E1 as [-> L1].
  destruct (WAL_MAX_RECORD_SIZE <? of_le_bytes b1) eqn:EM; [done|].
  destruct (read_exact _ r1) as [[payload r2]|] eqn:E2; [|done].
  apply read_exact_Some in E2 as [-> L2].
  destruct (read_exact 4 r2) as [[b3 r3]|] eqn:E3; [|done].
  apply read_exact_Some in E3 as [-> L3].
  destruct (negb _) eqn:EC; [done|].
  destruct (take_from_bytes payload) as [[e [|]]|] eqn:ET; try done.
  injection E as <- <- <-.
  exists (b1 ++ payload ++ b3). split; [by rewrite <- !app_assoc|].
  split; [rewrite !length_app; lia|]. intros rest'. rewrite <- !app_assoc.
  rewrite <- L1, read_exact_app, EM, <- L2, read_exact_app, L1, <- L3, read_exact_app.
  by rewrite EC, ET.
Qed.

Lemma scan_det (bs : list Z) (es es' : list WalEntry) (t t' : list Z) :
  scan bs es t -> scan bs es' t' -> es = es' /\ t = t'.
Proof.
  intros Hs. revert es' t'.
  induction Hs as [bs why Hw|bs e len rest es tail Hr _ IH]; intros es' t' Hs';
    inversion Hs'; subst; try congruence; [done|].
  match goal with H1 : read_record bs = _, H2 : read_record bs = _ |- _ =>
    rewrite H1 in H2; injection H2 as <- <- <- end.
  destruct (IH _ _ ltac:(eassumption)) as [-> ->]. done.
Qed.

(** The validated part of a file can be followed by anything. *)
Lemma scan_prefix (bs : list Z) (es : list WalEntry) (tail : list Z) :
  scan bs es tail ->
  exists pre, bs = pre ++ tail /\
    forall bs' es' tail', scan bs' es' tail' -> scan (pre ++ bs') (es ++ es') tail'.
Proof.
  induction 1 as [bs why Hw|bs e len rest es tail Hr _ (pre & -> & Hpre)].
  - by exists [].
  - apply read_record_local in Hr as (chunk & -> & _ & Hloc).
    exists (chunk ++ pre). split; [by rewrite app_assoc|]. intros bs' es' tail' Hs.
    rewrite <- app_assoc. simpl. eapply scan_record; [apply Hloc|by apply Hpre].
Qed.

Lemma replay_loop_scan (fuel : nat) (bs : list Z) (acc : list WalEntry) (off : nat) :
  (length bs < fuel)%nat ->
  exists es tail, scan bs es tail /\
    replay_loop fuel bs acc off = (acc ++ es, (off + (length bs - length tail))%nat).
Proof.
  revert bs acc off. induction fuel as [|fuel IH]; intros bs acc off Hlt; [lia|].
  cbn [replay_loop]. destruct (read_record bs) as [e len rest|why] eqn:E.
  - pose proof E as Hr. apply read_record_local in E as (chunk & -> & Hl & _).
    rewrite length_app in Hlt.
    destruct (IH rest (acc ++ [e]) (off + (4 + len + 4))%nat) as (es & tail & Hs & ->); [lia|].
    exists (e :: es), tail. split; [by eapply scan_record|].
    rewrite <- app_assoc. f_equal. rewrite length_app, Hl.
    apply scan_prefix in Hs as (pre & -> & _). rewrite !length_app. lia.
  - exists [], bs. split; [by eapply scan_stop|]. by rewrite app_nil_r, Nat.sub_diag, Nat.add_0_r.
Qed.

Lemma replay_scan (file : list Z) :
  exists es tail, scan file es tail /\ replay file = es /\
    replay_with_offset file = (es, (length file - length tail)%nat).
Proof.
  unfold replay, replay_with_offset.
  destruct (replay_loop_scan (S (length file)) file [] 0) as (es & tail & Hs & ->); [lia|].
  exists es, tail. done.
Qed.

Lemma scan_replay (file : list Z) (es : list WalEntry) (tail : list Z) :
  scan file es tail -> replay_with_offset file = (es, (length file - length tail)%nat).
Proof.
  intros Hs. destruct (replay_scan file) as (es' & tail' & Hs' & _ & ->).
  by destruct (scan_det _ _ _ _ _ Hs Hs') as [-> ->].
Qed.
End wal.

Section theorems.
Context `{Codec WalEntry} {codec : CodecLaws WalEntry} `{Crc32} {crc : Crc32Laws}.

(** An entry the writer accepts. *)
Definition loggable (entry : WalEntry) (payload : list Z) : Prop :=
  encode_bytes entry = Some payload /\ Z.of_nat (length payload) <= WAL_MAX_RECORD_SIZE.

Lemma frame_header (payload : list Z) : Z.of_nat (length payload) <= WAL_MAX_RECORD_SIZE ->
  of_le_bytes (to_le_bytes 4 (wrap 32 (Z.of_nat (length payload)))) = Z.of_nat (length payload).
Proof.
  unfold WAL_MAX_RECORD_SIZE. intros Hl.
  rewrite wrap_small by (unfold in_width; lia). apply of_to_le_bytes. simpl. lia.
Qed.

Lemma frame_length (payload : list Z) : length (frame payload) = (4 + length payload + 4)%nat.
Proof. unfold frame. rewrite !length_app, !to_le_bytes_length. lia. Qed.

Lemma read_frame (entry : WalEntry) (payload rest : list Z) :
  loggable entry payload ->
  read_record (frame payload ++ rest) = Record_ entry (length payload) rest.
Proof using codec crc.
  intros [He Hl]. unfold read_record, frame. rewrite <- !app_assoc.
  rewrite <- (to_le_bytes_length 4 (wrap 32 (Z.of_nat (length payload)))) at 1.
  rewrite read_exact_app, frame_header by done.
  destruct (Z.ltb_spec WAL_MAX_RECORD_SIZE (Z.of_nat (length payload))); [lia|].
  rewrite Nat2Z.id, read_exact_app.
  rewrite <- (to_le_bytes_length 4 (crc32 payload)) at 1. rewrite read_exact_app.
  rewrite of_to_le_bytes by (pose proof (crc32_range payload); unfold in_width in *; simpl; lia).
  rewrite Z.eqb_refl. simpl.
  pose proof (codec_roundtrip entry payload [] He) as Hd. rewrite app_nil_r in Hd. by rewrite Hd.
Qed.

(** A record cut anywhere before its end is not a record. *)
Lemma read_torn_frame (payload : list Z) (k : nat) :
  Z.of_nat (length payload) <= WAL_MAX_RECORD_SIZE -> (k < length (frame payload))%nat ->
  exists why, read_record (take k (frame payload)) = Stop why.
Proof.
  intros Hl Hk. rewrite frame_length in Hk. unfold read_record.
  destruct (read_exact 4 (take k (frame payload))) as [[b1 r1]|] eqn:E1; [|by eexists].
  apply read_exact_Some in E1 as [E1 L1].
  assert (4 <= k)%nat as Hk4.
  { apply (f_equal length) in E1. rewrite length_take, length_app in E1. lia. }
  unfold frame in E1. set (hd := to_le_bytes 4 _) in E1.
  assert (length hd = 4%nat) as Lh by apply to_le_bytes_length.
  rewrite take_app_ge in E1 by lia.
  apply app_inj_1 in E1 as [<- <-]; [|lia]. subst hd. rewrite frame_header by done.
  destruct (_ <? _); [by eexists|]. rewrite Nat2Z.id.
  destruct (read_exact _ _) as [[p r2]|] eqn:E2; [|by eexists].
  apply read_exact_Some in E2 as [E2 L2].
  assert (length r2 < 4)%nat as Hlt.
  { apply (f_equal length) in E2.
    rewrite length_take, !length_app, !to_le_bytes_length in E2. lia. }
  apply read_exact_None in Hlt as ->. by eexists.
Qed.

Lemma scan_nil : scan [] [] [].
Proof. by eapply scan_stop. Qed.

Lemma scan_frame (entry : WalEntry) (payload : list Z) :
  loggable entry payload -> scan (frame payload) [entry] [].
Proof using codec crc.
  intros Hl. eapply scan_record; [|apply scan_nil].
  rewrite <- (app_nil_r (frame payload)). by apply read_frame.
Qed.

Lemma scan_torn (payload : list Z) (k : nat) :
  Z.of_nat (length payload) <= WAL_MAX_RECORD_SIZE -> (k < length (frame payload))%nat ->
  scan (take k (frame payload)) [] (take k (frame payload)).
Proof. intros Hl Hk. destruct (read_torn_frame payload k Hl Hk) as [why Hw]. by eapply scan_stop. Qed.

(** Opening keeps exactly the validated part. *)
Lemma wal_open_scan (file : list Z) (mode : WalSyncMode) :
  scan (wal_file (wal_open file mode)) (replay file) [] /\ write_failed (wal_open file mode) = false.
Proof.
  destruct (replay_scan file) as (es & tail & Hs & Hr & Hoff).
  unfold wal_open. rewrite Hoff, Hr. split; [|done]. simpl.
  destruct (scan_prefix _ _ _ Hs) as (pre & -> & Hpre). rewrite length_app.
  replace (length pre + length tail - length tail)%nat with (length pre) by lia.
  specialize (Hpre [] [] [] scan_nil). rewrite !app_nil_r in Hpre.
  case_decide as Hd; [|by rewrite take_app_length].
  assert (tail = []) as -> by (apply length_zero_iff_nil; lia). by rewrite app_nil_r.
Qed.

(** Extending a fully valid file. *)
Lemma scan_append (file bs : list Z) (es es' : list WalEntry) (tail : list Z) :
  scan file es [] -> scan bs es' tail -> scan (file ++ bs) (es ++ es') tail.
Proof.
  intros Hs Hs'. apply scan_prefix in Hs as (pre & -> & Hpre). rewrite app_nil_r. by apply Hpre.
Qed.

Lemma append_outcome (fault : option nat) (entry : WalEntry) (w : WalWriter) (es : list WalEntry) :
  scan (wal_file w) es [] -> write_failed w = false ->
  let '(w', res) := append fault entry w in
  exists extra tail, scan (wal_file w') (es ++ extra) tail /\
    ((res = Ok tt /\ extra = [entry] /\ tail = [] /\ write_failed w' = false) \/
     (is_ok res = false /\ extra = [] /\ tail = [] /\ write_failed w' = false) \/
     (is_ok res = false /\ (extra = [] \/ extra = [entry]) /\ write_failed w' = true)).
Proof using codec crc.
  intros Hs Hf. unfold append. rewrite Hf.
  destruct (encode_bytes entry) as [payload|] eqn:He.
  2: { exists [], []. rewrite app_nil_r. split; [done|]. right. left. done. }
  destruct (Z.ltb_spec WAL_MAX_RECORD_SIZE (Z.of_nat (length payload))) as [_|Hl].
  { exists [], []. rewrite app_nil_r. split; [done|]. right. left. done. }
  assert (loggable entry payload) as Hlog by done.
  destruct fault as [k|]; simpl.
  - destruct (decide (k < length (frame payload))%nat) as [Hk|Hk].
    + exists [], (take k (frame payload)). split; [by apply scan_append, scan_torn|].
      right. right. auto.
    + rewrite take_ge by lia. exists [entry], []. split; [by apply scan_append, scan_frame|].
      right. right. auto.
  - exists [entry], []. split; [by apply scan_append, scan_frame|]. left. done.
Qed.

(** A run of appends with arbitrary faults, and the acknowledged entries. *)
Fixpoint wal_run (ops : list (option nat * WalEntry)) (w : WalWriter) : WalWriter * list WalEntry :=
  match ops with
  | [] => (w, [])
  | (fault, entry) :: ops' =>
      let '(w1, res) := append fault entry w in
      let '(w2, acked) := wal_run ops' w1 in
      (w2, if is_ok res then entry :: acked else acked)
  end.

Lemma wal_run_failed (ops : list (option nat * WalEntry)) (w : WalWriter) :
  write_failed w = true -> wal_run ops w = (w, []).
Proof.
  intros Hf. induction ops as [|[fault e] ops IH]; [done|]. cbn [wal_run].
  unfold append. rewrite Hf. by rewrite IH.
Qed.

Lemma wal_run_scan (ops : list (option nat * WalEntry)) (w : WalWriter) (es : list WalEntry) :
  scan (wal_file w) es [] -> write_failed w = false ->
  exists extra tail, scan (wal_file (wal_run ops w).1) (es ++ (wal_run ops w).2 ++ extra) tail /\
    (length extra <= 1)%nat /\ (write_failed (wal_run ops w).1 = false -> extra = [] /\ tail = []).
Proof using codec crc.
  revert w es. induction ops as [|[fault e] ops IH]; intros w es Hs Hf.
  { exists [], []. rewrite !app_nil_r. simpl. auto with lia. }
  cbn [wal_run]. pose proof (append_outcome fault e w es Hs Hf) as Ho.
  destruct (append fault e w) as [w1 res]. destruct Ho as (extra & tail & Hs1 & Hcase).
  destruct Hcase as [(-> & -> & -> & Hf1)|[(Hr & -> & -> & Hf1)|(Hr & Hx & Hf1)]].
  - destruct (IH w1 _ Hs1 Hf1) as (x & t & Hx & Hlen & Hnf).
    destruct (wal_run ops w1) as [w2 acked]. simpl in *. exists x, t.
    by rewrite <- app_assoc in Hx.
  - rewrite app_nil_r in Hs1. destruct (IH w1 _ Hs1 Hf1) as (x & t & Hx & Hlen & Hnf).
    destruct (wal_run ops w1) as [w2 acked]. simpl in *. rewrite Hr. exists x, t. done.
  - rewrite wal_run_failed by done. rewrite Hr. exists extra, tail. simpl.
    split_and!; [done|destruct Hx as [-> | ->]; simpl; lia|congruence].
Qed.

(** The log repairs itself. Whatever bytes the file holds (a torn record,
    garbage, a flipped bit), opening it and appending an accepted entry makes
    the next replay return exactly the entries that were readable before,
    followed by the new one, and the file is then valid to its last byte. *)
Theorem open_append_replay (file : list Z) (mode : WalSyncMode) (entry : WalEntry)
  (payload : list Z) (Hlog : loggable entry payload) :
  let '(w, res) := append None entry (wal_open file mode) in
  res = Ok tt /\ replay (wal_file w) = replay file ++ [entry] /\
  replay_strict (wal_file w) = Ok (replay file ++ [entry]).
Proof using codec crc.
  destruct (wal_open_scan file mode) as [Hs Hf].
  unfold append. rewrite Hf. destruct Hlog as [He Hl]. rewrite He.
  destruct (Z.ltb_spec WAL_MAX_RECORD_SIZE (Z.of_nat (length payload))); [lia|].
  assert (scan (wal_file (wal_open file mode) ++ frame payload) (replay file ++ [entry]) []) as Hsc
    by by apply scan_append, scan_frame.
  apply scan_replay in Hsc. unfold replay at 1, replay_strict. simpl. rewrite Hsc. simpl.
  split_and!; [done..|]. rewrite decide_True; [done|]. lia.
Qed.

End theorems.

(** ** Witnesses

    A toy codec for a one-entry fragment of the log (the other entries do not
    encode) and a toy checksum. *)
Definition toy_encode (e : WalEntry) : option (list Z) :=
  match e with
  | WRemoveBan (NetV4 b p) => Some [b; Z.of_nat p]
  | _ => None
  end.
Definition toy_take (bs : list Z) : option (WalEntry * list Z) :=
  match bs with
  | b :: p :: rest => Some (WRemoveBan (NetV4 b (Z.to_nat p)), rest)
  | _ => None
  end.
Definition toy_codec : Codec WalEntry := {| encode_bytes := toy_encode; take_from_bytes := toy_take |}.
Definition toy_crc : Crc32 := fun bs => wrap 32 (foldr Z.add 7 bs).

Lemma toy_codec_laws : @CodecLaws WalEntry toy_codec.
Proof.
  intros e bs rest. unfold encode_bytes, take_from_bytes, toy_codec, toy_encode.
  destruct e as [| [] | | | | |]; intros [=<-]; simpl. by rewrite Nat2Z.id.
Qed.

Lemma toy_crc_laws : @Crc32Laws toy_crc.
Proof. intros bs. apply wrap_range. lia. Qed.

Definition entry_a : WalEntry := WRemoveBan (NetV4 1 32).
Definition entry_b : WalEntry := WRemoveBan (NetV4 2 32).

(** One record of [entry_a], then garbage. *)
Definition damaged_file : list Z := @frame toy_crc [1; 32] ++ [9; 9; 9; 9; 9].

Lemma open_append_replay_witness :
  @replay toy_codec toy_crc
    (wal_file (@append toy_codec toy_crc None entry_b (@wal_open toy_codec toy_crc damaged_file Sync)).1)
  = [entry_a; entry_b].
Proof.
  assert (Hl : @loggable toy_codec entry_b [2; 32]) by (split; [reflexivity|vm_compute; congruence]).
  pose proof (@open_append_replay toy_codec toy_codec_laws toy_crc toy_crc_laws
    damaged_file Sync entry_b [2; 32] Hl) as Hrep.
  destruct (@append toy_codec toy_crc None entry_b (@wal_open toy_codec toy_crc damaged_file Sync)) as [w res].
  destruct Hrep as (_ & Hrep & _). cbn [fst]. rewrite Hrep. vm_compute. reflexivity.
Defined.

