(* ===== verification/Snapshot.v ===== *)
(** * Snapshots ([hiveguard-core/src/persistence/snapshot.rs])

    The four on-disk formats, told apart by an eight-byte magic, and the
    save that writes a temporary file and renames it over the snapshot. *)
From S2P Require Import Prelude Models Crdt.
Local Open Scope Z_scope.

Definition SNAPSHOT_MAGIC_V1 : list Z := as_bytes "HVGD0001".
Definition SNAPSHOT_MAGIC_V2 : list Z := as_bytes "HVGD0002".
Definition SNAPSHOT_MAGIC_V3 : list Z := as_bytes "HVGD0003".
Definition SNAPSHOT_MAGIC_V4 : list Z := as_bytes "HVGD0004".
Definition SNAPSHOT_MAX_SIZE : Z := 256 * 1024 * 1024.

Record SnapshotDataV1 : Type := {
  v1_bans : list BanRecord;
  v1_whitelist : list IpNet;
}.
Record SnapshotDataV2 : Type := {
  v2_bans : list BanRecord;
  v2_whitelist : list IpNet;
  v2_crdt_bans : list CrdtBanRecord;
}.
Record SnapshotDataV4 : Type := {
  v4_bans : list BanRecord;
  v4_whitelist : list IpNet;
  v4_crdt_bans : list CrdtBanRecord;
  v4_revocations : list (IpNet * DateTime);
}.
#[export] Instance SnapshotDataV4_eq_dec : EqDecision SnapshotDataV4.
Proof. solve_decision. Defined.
#[export] Instance SnapshotDataV4_countable : Countable SnapshotDataV4.
Proof.
  refine (inj_countable' (fun d => (v4_bans d, v4_whitelist d, v4_crdt_bans d, v4_revocations d))
    (fun '(a, b, c, d) => Build_SnapshotDataV4 a b c d) _).
  by intros [].
Defined.

Record SnapshotResult : Type := {
  sr_bans : list BanRecord;
  sr_whitelist : list IpNet;
  sr_crdt_bans : list CrdtBanRecord;
  sr_revocations : list (IpNet * DateTime);
}.

(** [bincode::deserialize], the codec of the first two formats. *)
Class Bincode (A : Type) : Type := bincode_deserialize : list Z -> option A.

(** Where the save fails: before the rename (the old snapshot stays), or in
    the directory sync after it (the new one is in place). *)
Inductive save_fault : Type := SaveFine | FailBeforeRename | FailAfterRename.

Section snapshot.
Context `{Codec SnapshotDataV4, Codec SnapshotDataV2, Bincode SnapshotDataV2, Bincode SnapshotDataV1}.

(** [save_snapshot_with_revocations]: the new contents of the snapshot path
    and the result. *)
Definition save_snapshot_with_revocations (fault : save_fault) (disk : option (list Z))
    (bans : list BanRecord) (whitelist : list IpNet) (crdt_bans : list CrdtBanRecord)
    (revocations : list (IpNet * DateTime)) : option (list Z) * hresult unit :=
  let data := {| v4_bans := bans; v4_whitelist := whitelist; v4_crdt_bans := crdt_bans;
                 v4_revocations := revocations |} in
  match encode_bytes data with
  | None => (disk, Err (EStorage "snapshot serialize"))
  | Some encoded =>
      match fault with
      | FailBeforeRename => (disk, Err (EIo OtherIo))
      | FailAfterRename => (Some (SNAPSHOT_MAGIC_V4 ++ encoded), Err (EIo OtherIo))
      | SaveFine => (Some (SNAPSHOT_MAGIC_V4 ++ encoded), Ok tt)
      end
  end.

Definition save_snapshot_v2 (fault : save_fault) (disk : option (list Z)) (bans : list BanRecord)
    (whitelist : list IpNet) (crdt_bans : list CrdtBanRecord) : option (list Z) * hresult unit :=
  save_snapshot_with_revocations fault disk bans whitelist crdt_bans [].

Definition save_snapshot (fault : save_fault) (disk : option (list Z)) (bans : list BanRecord)
    (whitelist : list IpNet) : option (list Z) * hresult unit :=
  save_snapshot_v2 fault disk bans whitelist [].

(** [load_snapshot_v2] on the contents of the snapshot path. *)
Definition load_snapshot_v2 (file : list Z) : hresult SnapshotResult :=
  if SNAPSHOT_MAX_SIZE <? Z.of_nat (length file) then Err (EStorage "snapshot file too large") else
  match read_exact 8 file with
  | None => Err (EIo UnexpectedEof)
  | Some (magic, encoded) =>
      if decide (magic = SNAPSHOT_MAGIC_V4) then
        match @take_from_bytes SnapshotDataV4 _ encoded with
        | None => Err (EStorage "snapshot deserialize")
        | Some (data, tail) =>
            if decide (tail = []) then
              Ok {| sr_bans := v4_bans data; sr_whitelist := v4_whitelist data;
                    sr_crdt_bans := v4_crdt_bans data; sr_revocations := v4_revocations data |}
            else Err (EStorage "unexpected trailing snapshot bytes")
        end
      else if decide (magic = SNAPSHOT_MAGIC_V3) then
        match @take_from_bytes SnapshotDataV2 _ encoded with
        | None => Err (EStorage "snapshot deserialize")
        | Some (data, tail) =>
            if decide (tail = []) then
              Ok {| sr_bans := v2_bans data; sr_whitelist := v2_whitelist data;
                    sr_crdt_bans := v2_crdt_bans data; sr_revocations := [] |}
            else Err (EStorage "unexpected trailing snapshot bytes")
        end
      else if decide (magic = SNAPSHOT_MAGIC_V2) then
        match @bincode_deserialize SnapshotDataV2 _ encoded with
        | None => Err (EStorage "bincode")
        | Some data =>
            Ok {| sr_bans := v2_bans data; sr_whitelist := v2_whitelist data;
                  sr_crdt_bans := v2_crdt_bans data; sr_revocations := [] |}
        end
      else if decide (magic = SNAPSHOT_MAGIC_V1) then
        match @bincode_deserialize SnapshotDataV1 _ encoded with
        | None => Err (EStorage "bincode")
        | Some data =>
            Ok {| sr_bans := v1_bans data; sr_whitelist := v1_whitelist data;
                  sr_crdt_bans := []; sr_revocations := [] |}
        end
      else Err (EStorage "invalid snapshot magic")
  end.

Definition load_snapshot (file : list Z) : hresult (list BanRecord * list IpNet) :=
  let? r := load_snapshot_v2 file in Ok (sr_bans r, sr_whitelist r).

(** What was saved is what is loaded. *)
Lemma load_saved {laws : CodecLaws SnapshotDataV4} (data : SnapshotDataV4) (encoded : list Z) :
  encode_bytes data = Some encoded ->
  load_snapshot_v2 (SNAPSHOT_MAGIC_V4 ++ encoded) =
    if SNAPSHOT_MAX_SIZE <? 8 + Z.of_nat (length encoded) then Err (EStorage "snapshot file too large")
    else Ok {| sr_bans := v4_bans data; sr_whitelist := v4_whitelist data;
               sr_crdt_bans := v4_crdt_bans data; sr_revocations := v4_revocations data |}.
Proof.
  intros He. unfold load_snapshot_v2. rewrite length_app.
  replace (Z.of_nat (length SNAPSHOT_MAGIC_V4 + length encoded)) with (8 + Z.of_nat (length encoded))
    by (change (length SNAPSHOT_MAGIC_V4) with 8%nat; lia).
  destruct (_ <? _); [done|].
  change 8%nat with (length SNAPSHOT_MAGIC_V4). rewrite read_exact_app, decide_True by done.
  pose proof (codec_roundtrip data encoded [] He) as Hd. rewrite app_nil_r in Hd. by rewrite Hd.
Qed.

(** A snapshot is all or nothing, and reads back as written: when the save
    reports success the path holds a file that loads to exactly the saved
    state (as long as it stays within the reader's size limit), and when it
    fails the path holds either the old contents or such a new file. *)
Theorem save_load_roundtrip {laws : CodecLaws SnapshotDataV4} (fault : save_fault)
  (disk : option (list Z)) (bans : list BanRecord) (whitelist : list IpNet)
  (crdt_bans : list CrdtBanRecord) (revocations : list (IpNet * DateTime)) :
  let '(disk', res) := save_snapshot_with_revocations fault disk bans whitelist crdt_bans revocations in
  let saved := Ok {| sr_bans := bans; sr_whitelist := whitelist; sr_crdt_bans := crdt_bans;
                     sr_revocations := revocations |} in
  (is_ok res = true -> exists file, disk' = Some file /\
     (Z.of_nat (length file) <= SNAPSHOT_MAX_SIZE -> load_snapshot_v2 file = saved)) /\
  (is_ok res = false -> disk' = disk \/ exists file, disk' = Some file /\
     (Z.of_nat (length file) <= SNAPSHOT_MAX_SIZE -> load_snapshot_v2 file = saved)).
Proof.
  unfold save_snapshot_with_revocations.
  destruct (encode_bytes _) as [encoded|] eqn:He; [|split; [done|by left]].
  assert (Hload : Z.of_nat (length (SNAPSHOT_MAGIC_V4 ++ encoded)) <= SNAPSHOT_MAX_SIZE ->
    load_snapshot_v2 (SNAPSHOT_MAGIC_V4 ++ encoded) =
    Ok {| sr_bans := bans; sr_whitelist := whitelist; sr_crdt_bans := crdt_bans;
          sr_revocations := revocations |}).
  { rewrite length_app. change (length SNAPSHOT_MAGIC_V4) with 8%nat. intros Hl.
    erewrite load_saved by exact He.
    destruct (Z.ltb_spec SNAPSHOT_MAX_SIZE (8 + Z.of_nat (length encoded))); [lia|done]. }
  destruct fault; split; try done; intros _; eauto.
Qed.

(** The writer does not enforce the reader's size limit: a state whose
    encoding exceeds [SNAPSHOT_MAX_SIZE] is saved with success and can then
    not be loaded. *)
Theorem oversize_snapshot_not_loadable {laws : CodecLaws SnapshotDataV4} (disk : option (list Z))
  (data : SnapshotDataV4) (encoded : list Z)
  (He : encode_bytes data = Some encoded)
  (Hbig : SNAPSHOT_MAX_SIZE < 8 + Z.of_nat (length encoded)) :
  exists file, save_snapshot_with_revocations SaveFine disk (v4_bans data) (v4_whitelist data)
      (v4_crdt_bans data) (v4_revocations data) = (Some file, Ok tt) /\
    load_snapshot_v2 file = Err (EStorage "snapshot file too large").
Proof.
  exists (SNAPSHOT_MAGIC_V4 ++ encoded). split.
  - unfold save_snapshot_with_revocations. destruct data; simpl in *. by rewrite He.
  - erewrite load_saved by exact He.
    destruct (Z.ltb_spec SNAPSHOT_MAX_SIZE (8 + Z.of_nat (length encoded))); [done|lia].
Qed.
End snapshot.

(** ** Witnesses *)
Definition no_v2 : Codec SnapshotDataV2 := {| encode_bytes _ := None; take_from_bytes _ := None |}.
Definition no_bincode (A : Type) : Bincode A := fun _ => None.

Lemma save_load_roundtrip_witness :
  exists file, (@save_snapshot_with_revocations (codec_ref 0 SnapshotDataV4) SaveFine None [] [NetV4 9 8]
      [] [(NetV4 1 32, 5)]).1 = Some file /\
    @load_snapshot_v2 (codec_ref 0 SnapshotDataV4) no_v2 (no_bincode _) (no_bincode _) file =
    Ok {| sr_bans := []; sr_whitelist := [NetV4 9 8]; sr_crdt_bans := [];
          sr_revocations := [(NetV4 1 32, 5)] |}.
Proof.
  destruct (@save_load_roundtrip (codec_ref 0 SnapshotDataV4) no_v2 (no_bincode _) (no_bincode _)
    (codec_ref_laws 0 _) SaveFine None [] [NetV4 9 8] [] [(NetV4 1 32, 5)]) as [Hok _].
  destruct (Hok eq_refl) as (file & Hd & Hl). exists file. split; [exact Hd|]. apply Hl.
  injection Hd as <-. vm_compute. congruence.
Defined.

Lemma large_pad : exists pad : nat, SNAPSHOT_MAX_SIZE < Z.of_nat pad.
Proof. exists (Z.to_nat (SNAPSHOT_MAX_SIZE + 1)). rewrite Z2Nat.id; unfold SNAPSHOT_MAX_SIZE; lia. Qed.

Lemma oversize_snapshot_not_loadable_witness :
  exists pad file, @load_snapshot_v2 (codec_ref pad SnapshotDataV4) no_v2 (no_bincode _) (no_bincode _) file
    = Err (EStorage "snapshot file too large").
Proof.
  destruct large_pad as [pad Hpad]. exists pad.
  destruct (@oversize_snapshot_not_loadable (codec_ref pad SnapshotDataV4)
    no_v2 (no_bincode _) (no_bincode _) (codec_ref_laws _ _) None
    {| v4_bans := []; v4_whitelist := []; v4_crdt_bans := []; v4_revocations := [] |} _ eq_refl)
    as (file & _ & Hl).
  - cbn [length]. rewrite length_replicate. lia.
  - exists file. exact Hl.
Defined.
