(* ===== verification/State.v ===== *)
(** * State manager ([hiveguard-core/src/persistence/state_manager.rs])

    The in-memory state behind the write-ahead log and the snapshot: recovery
    at start-up, and every operation, which logs first and then changes
    memory. I/O faults are consumed from [io_faults], one per log write, so a
    run is a sequence of operations against a chosen fault schedule. *)
From S2P Require Import Prelude Models Hlc Crdt BanStore Whitelist Wal Snapshot.
Local Open Scope Z_scope.

Definition MIN_BAN_EXTENSION : Duration := minutes 5.

Inductive BanAdmission : Type :=
| Added
| Extended (previous_expiry : option DateTime)
| AlreadyCovered (by_net : IpNet) (expires : option DateTime).

(** The in-memory fields. *)
Record Mem : Type := {
  ban_store : InMemoryBanStore;
  whitelist : WhitelistManager;
  crdt_store : gmap IpNet CrdtBanRecord;
  revocations : gmap IpNet DateTime;
}.

Record StateManager : Type := {
  mem : Mem;
  wal_writer : WalWriter;
  snapshot_disk : option (list Z);
  io_faults : list (option nat);
}.

Definition mem_new : Mem := {|
  ban_store := store_new; whitelist := whitelist_new; crdt_store := ∅; revocations := ∅ |}.

Definition set_store (s : InMemoryBanStore) (m : Mem) : Mem :=
  {| ban_store := s; whitelist := whitelist m; crdt_store := crdt_store m; revocations := revocations m |}.
Definition set_whitelist (w : WhitelistManager) (m : Mem) : Mem :=
  {| ban_store := ban_store m; whitelist := w; crdt_store := crdt_store m; revocations := revocations m |}.
Definition set_crdt (c : gmap IpNet CrdtBanRecord) (m : Mem) : Mem :=
  {| ban_store := ban_store m; whitelist := whitelist m; crdt_store := c; revocations := revocations m |}.
Definition set_revocations (r : gmap IpNet DateTime) (m : Mem) : Mem :=
  {| ban_store := ban_store m; whitelist := whitelist m; crdt_store := crdt_store m; revocations := r |}.

Definition force_tombstone (r : CrdtBanRecord) : CrdtBanRecord := {|
  cr_subject := cr_subject r; first_seen := first_seen r; ban_until := ban_until r;
  cr_severity := cr_severity r; reporters := reporters r;
  cr_evidence_hash := cr_evidence_hash r; cr_reason := cr_reason r;
  tombstone_reporters := tombstone_reporters r; tombstone := true;
  last_modified := last_modified r |}.

(** Merge a record into the CRDT store, inserting it when it is new. *)
Definition crdt_insert (record : CrdtBanRecord) (c : gmap IpNet CrdtBanRecord) : gmap IpNet CrdtBanRecord :=
  match c !! cr_subject record with
  | Some existing =>
      match merge existing record with
      | Some merged => <[cr_subject record := merged]> c
      | None => c
      end
  | None => <[cr_subject record := record]> c
  end.

(** One arm of the replay loop of [StateManager::new]. *)
Definition apply_entry (m : Mem) (entry : WalEntry) : Mem :=
  match entry with
  | WAddBan record => set_store (store_add_ban record (ban_store m)) m
  | WRevokeBan subject cutoff =>
      set_store (store_remove_ban subject (ban_store m)).1
        (set_revocations (<[subject := cutoff]> (revocations m)) m)
  | WRemoveBan subject => set_store (store_remove_ban subject (ban_store m)).1 m
  | WAddWhitelist net => set_whitelist (whitelist_add net (whitelist m)) m
  | WRemoveWhitelist net => set_whitelist (whitelist_remove net (whitelist m)).1 m
  | WAddCrdtBan record => set_crdt (crdt_insert record (crdt_store m)) m
  | WTombstoneCrdtBan subject => set_crdt (alter force_tombstone subject (crdt_store m)) m
  end.

(** The state a loaded snapshot stands for. *)
Definition load_mem (r : SnapshotResult) : Mem :=
  {| ban_store := foldl (fun s b => store_add_ban b s) store_new (sr_bans r);
     whitelist := foldl (fun w n => whitelist_add n w) whitelist_new (sr_whitelist r);
     crdt_store := foldl (fun c b => <[cr_subject b := b]> c) ∅ (sr_crdt_bans r);
     revocations := foldl (fun c nt => <[nt.1 := nt.2]> c) ∅ (sr_revocations r) |}.

Section state.
Context `{IpNetOps}.
Context `{Codec WalEntry} `{Crc32}.
Context `{Codec SnapshotDataV4, Codec SnapshotDataV2, Bincode SnapshotDataV2, Bincode SnapshotDataV1}.

(** The state the snapshot file stands for; a damaged snapshot is fatal. *)
Definition recover_base (snapshot : option (list Z)) : hresult Mem :=
  match snapshot with
  | None => Ok mem_new
  | Some file =>
      match load_snapshot_v2 file with
      | Ok r => Ok (load_mem r)
      | Err e => Err (EStorage "cannot recover snapshot; refusing to start with empty state")
      end
  end.

(** Snapshot, then the log on top of it. *)
Definition recover (snapshot : option (list Z)) (wal : list Z) : hresult Mem :=
  let? m := recover_base snapshot in Ok (foldl apply_entry m (replay wal)).

(** [StateManager::new] *)
Definition state_new (snapshot : option (list Z)) (wal : list Z) (mode : WalSyncMode)
    (faults : list (option nat)) : hresult StateManager :=
  let? m := recover snapshot wal in
  Ok {| mem := m; wal_writer := wal_open wal mode; snapshot_disk := snapshot; io_faults := faults |}.

(** [self.wal_writer.append(..)], meeting the next scheduled fault. *)
Definition sm_append (entry : WalEntry) (sm : StateManager) : StateManager * hresult unit :=
  let fault := default None (head (io_faults sm)) in
  let '(w, res) := append fault entry (wal_writer sm) in
  ({| mem := mem sm; wal_writer := w; snapshot_disk := snapshot_disk sm;
      io_faults := tail (io_faults sm) |}, res).

Definition set_mem (m : Mem) (sm : StateManager) : StateManager :=
  {| mem := m; wal_writer := wal_writer sm; snapshot_disk := snapshot_disk sm; io_faults := io_faults sm |}.

(** Log [entry], then change memory as replaying it would; on a log error
    memory stays as it is. *)
Definition logged (entry : WalEntry) (sm : StateManager) : StateManager * hresult unit :=
  let '(sm', res) := sm_append entry sm in
  match res with
  | Err e => (sm', Err e)
  | Ok _ => (set_mem (apply_entry (mem sm') entry) sm', Ok tt)
  end.

Definition add_ban (record : BanRecord) (sm : StateManager) : StateManager * hresult unit :=
  let record := set_subject (net_trunc (subject record)) record in
  if overlaps (whitelist (mem sm)) (subject record)
  then (sm, Err (EConfig "ban overlaps a protected network"))
  else logged (WAddBan record) sm.

(** [is_active] and [outlasts] of [admit_ban]. *)
Definition ban_active (now : DateTime) (b : BanRecord) : bool :=
  match expires_at b with Some exp => now <? exp | None => true end.
Definition outlasts (existing new : option DateTime) : bool :=
  match existing, new with
  | None, _ => true
  | Some _, None => false
  | Some e, Some n => n <=? e + MIN_BAN_EXTENSION
  end.

(** [Iterator::find] *)
Fixpoint find_first {A} (f : A -> bool) (l : list A) : option A :=
  match l with
  | [] => None
  | x :: l' => if f x then Some x else find_first f l'
  end.

Definition admit_ban (record : BanRecord) (now : DateTime) (sm : StateManager)
    : StateManager * hresult BanAdmission :=
  let covering := covering_bans (ban_store (mem sm)) (subject record) in
  match find_first (fun b => ban_active now b && outlasts (expires_at b) (expires_at record)) covering with
  | Some b => (sm, Ok (AlreadyCovered (subject b) (expires_at b)))
  | None =>
      match find_first (fun b => bool_decide (subject b = subject record) && ban_active now b) covering with
      | Some b =>
          let '(sm', res) := add_ban (set_created_at (created_at b) record) sm in
          (sm', let? _ := res in Ok (Extended (expires_at b)))
      | None =>
          let '(sm', res) := add_ban record sm in
          (sm', let? _ := res in Ok Added)
      end
  end.

Definition remove_ban (subject : IpNet) (sm : StateManager) : StateManager * hresult bool :=
  let present := bool_decide (is_Some (bans (ban_store (mem sm)) !! subject)) in
  let '(sm', res) := logged (WRemoveBan subject) sm in
  (sm', let? _ := res in Ok present).

Definition revoke_ban (now : DateTime) (net : IpNet) (sm : StateManager) : StateManager * hresult bool :=
  let subject := net_trunc net in
  let cutoff := match find_first (fun b => bool_decide (Models.subject b = subject))
                        (get_all_bans (ban_store (mem sm))) with
                | Some record => Z.max now (created_at record)
                | None => now
                end in
  let cutoff := match revocations (mem sm) !! subject with
                | Some previous => Z.max cutoff previous
                | None => cutoff
                end in
  let present := bool_decide (is_Some (bans (ban_store (mem sm)) !! subject)) in
  let '(sm', res) := logged (WRevokeBan subject cutoff) sm in
  (sm', let? _ := res in Ok present).

Definition accepts_remote_ban (record : BanRecord) (sm : StateManager) : bool :=
  negb (overlaps (whitelist (mem sm)) (subject record)) &&
  negb (existsb (fun nt : IpNet * DateTime =>
          (net_contains nt.1 (net_addr (subject record)) || net_contains (subject record) (net_addr nt.1))
          && (created_at record <=? nt.2))
        (map_to_list (revocations (mem sm)))).

Definition tombstone_crdt_ban (subject : IpNet) (sm : StateManager) : StateManager * hresult bool :=
  let present := bool_decide (is_Some (crdt_store (mem sm) !! subject)) in
  let '(sm', res) := logged (WTombstoneCrdtBan subject) sm in
  (sm', let? _ := res in Ok present).

(** The loop of [revoke_bans_covered_by_whitelist]. *)
Fixpoint revoke_loop (covered : list IpNet) (revoked : list IpNet) (sm : StateManager)
    : StateManager * hresult (list IpNet) :=
  match covered with
  | [] => (sm, Ok revoked)
  | subject :: covered' =>
      let '(sm1, res) := remove_ban subject sm in
      match res with
      | Err e => (sm1, Err e)
      | Ok removed =>
          let revoked := if removed then revoked ++ [subject] else revoked in
          if bool_decide (is_Some (crdt_store (mem sm1) !! subject)) then
            let '(sm2, res2) := tombstone_crdt_ban subject sm1 in
            match res2 with
            | Err e => (sm2, Err e)
            | Ok _ => revoke_loop covered' revoked sm2
            end
          else revoke_loop covered' revoked sm1
      end
  end.

Definition revoke_bans_covered_by_whitelist (sm : StateManager) : StateManager * hresult (list IpNet) :=
  let covered := List.filter (fun n => overlaps (whitelist (mem sm)) n)
                   (subject <$> get_all_bans (ban_store (mem sm))) in
  revoke_loop covered [] sm.

Definition add_whitelist (net : IpNet) (sm : StateManager) : StateManager * hresult (list IpNet) :=
  let '(sm', res) := logged (WAddWhitelist net) sm in
  match res with
  | Err e => (sm', Err e)
  | Ok _ => revoke_bans_covered_by_whitelist sm'
  end.

Definition remove_whitelist (net : IpNet) (sm : StateManager) : StateManager * hresult unit :=
  logged (WRemoveWhitelist net) sm.

Definition add_crdt_ban (record : CrdtBanRecord) (sm : StateManager) : StateManager * hresult unit :=
  logged (WAddCrdtBan record) sm.

Definition get_active_crdt_bans (current_time_ms : Z) (sm : StateManager) : list CrdtBanRecord :=
  List.filter (fun r => is_active r current_time_ms) (map_to_list (crdt_store (mem sm))).*2.

(** [take_snapshot]: save, then truncate the log; either step may fail. *)
Definition take_snapshot (fault : save_fault) (truncate_fault : bool) (sm : StateManager)
    : StateManager * hresult unit :=
  let m := mem sm in
  let '(disk, res) := save_snapshot_with_revocations fault (snapshot_disk sm)
      (get_all_bans (ban_store m)) (elements (wl_entries (whitelist m)))
      (map_to_list (crdt_store m)).*2 (map_to_list (revocations m)) in
  match res with
  | Err e => ({| mem := m; wal_writer := wal_writer sm; snapshot_disk := disk;
                 io_faults := io_faults sm |}, Err e)
  | Ok _ =>
      let '(w, res2) := truncate truncate_fault (wal_writer sm) in
      ({| mem := m; wal_writer := w; snapshot_disk := disk; io_faults := io_faults sm |}, res2)
  end.
End state.
