(* ===== verification/Recovery.v ===== *)
(** * Crash recovery of the state manager

    The abstract state is the set of bans, whitelist entries, CRDT records and
    revocations. Every operation of [State.v] is a sequence of logged entries
    and snapshots; recovery from disk refines the running state, through
    failed writes, failed snapshots and crashes between the two. *)
From S2P Require Import Prelude Models Hlc Crdt BanStore Whitelist Wal Snapshot State.
Local Open Scope Z_scope.

(** ** The abstract state *)
Record View : Type := {
  v_bans : gmap IpNet BanRecord;
  v_entries : gset IpNet;
  v_crdt : gmap IpNet CrdtBanRecord;
  v_revoked : gmap IpNet DateTime;
}.

Definition view (m : Mem) : View :=
  {| v_bans := bans (ban_store m); v_entries := wl_entries (whitelist m);
     v_crdt := crdt_store m; v_revoked := revocations m |}.

Definition view_empty : View := {| v_bans := ∅; v_entries := ∅; v_crdt := ∅; v_revoked := ∅ |}.

Definition v_apply (v : View) (entry : WalEntry) : View :=
  match entry with
  | WAddBan r => {| v_bans := <[subject r := r]> (v_bans v); v_entries := v_entries v;
                    v_crdt := v_crdt v; v_revoked := v_revoked v |}
  | WRevokeBan n t => {| v_bans := delete n (v_bans v); v_entries := v_entries v;
                         v_crdt := v_crdt v; v_revoked := <[n := t]> (v_revoked v) |}
  | WRemoveBan n => {| v_bans := delete n (v_bans v); v_entries := v_entries v;
                       v_crdt := v_crdt v; v_revoked := v_revoked v |}
  | WAddWhitelist n => {| v_bans := v_bans v; v_entries := {[ n ]} ∪ v_entries v;
                          v_crdt := v_crdt v; v_revoked := v_revoked v |}
  | WRemoveWhitelist n => {| v_bans := v_bans v; v_entries := v_entries v ∖ {[ n ]};
                             v_crdt := v_crdt v; v_revoked := v_revoked v |}
  | WAddCrdtBan r => {| v_bans := v_bans v; v_entries := v_entries v;
                        v_crdt := crdt_insert r (v_crdt v); v_revoked := v_revoked v |}
  | WTombstoneCrdtBan n => {| v_bans := v_bans v; v_entries := v_entries v;
                              v_crdt := alter force_tombstone n (v_crdt v); v_revoked := v_revoked v |}
  end.

Abbreviation v_apply_all := (foldl v_apply) (only parsing).

Lemma view_apply (m : Mem) (entry : WalEntry) : view (apply_entry m entry) = v_apply (view m) entry.
Proof.
  destruct entry; unfold view, v_apply; simpl;
    rewrite ?bans_add, ?bans_remove; done.
Qed.

Lemma view_apply_all (es : list WalEntry) (m : Mem) :
  view (foldl apply_entry m es) = v_apply_all (view m) es.
Proof. revert m. induction es as [|e es IH]; intros m; simpl; [done|]. by rewrite IH, view_apply. Qed.

(** Records are filed under their own subject. *)
Definition keyed (v : View) : Prop :=
  (forall n r, v_bans v !! n = Some r -> subject r = n) /\
  (forall n r, v_crdt v !! n = Some r -> cr_subject r = n).

Lemma crdt_insert_lookup (c : gmap IpNet CrdtBanRecord) (r : CrdtBanRecord) (n : IpNet) :
  (forall n r, c !! n = Some r -> cr_subject r = n) ->
  crdt_insert r c !! n =
    if decide (cr_subject r = n)
    then Some (match c !! n with Some x => join x r | None => r end) else c !! n.
Proof.
  intros Hk. unfold crdt_insert. destruct (c !! cr_subject r) as [x|] eqn:E.
  - rewrite merge_join, decide_True by by apply Hk.
    rewrite lookup_insert. case_decide as Hd; [|done]. subst n. by rewrite E.
  - rewrite lookup_insert. case_decide as Hd; [|done]. subst n. by rewrite E.
Qed.

Lemma keyed_apply (v : View) (entry : WalEntry) : keyed v -> keyed (v_apply v entry).
Proof.
  intros [Hb Hc]. destruct entry as [r|n|n|n|r|n|n t]; split; simpl; try done; intros n' r' Hl.
  - rewrite lookup_insert in Hl. case_decide; [naive_solver|eauto].
  - apply lookup_delete_Some in Hl as [_ Hl]. eauto.
  - rewrite crdt_insert_lookup in Hl by done. case_decide as Hd; [|eauto].
    destruct (v_crdt v !! n') as [x|] eqn:E; simplify_eq; simpl; eauto.
  - rewrite lookup_alter in Hl. case_decide as Hd; [|eauto].
    subst n'. destruct (v_crdt v !! n) as [x|] eqn:E; simplify_eq/=. by apply Hc.
  - apply lookup_delete_Some in Hl as [_ Hl]. eauto.
Qed.

Lemma keyed_apply_all (es : list WalEntry) (v : View) : keyed v -> keyed (v_apply_all v es).
Proof. revert v. induction es as [|e es IH]; intros v Hv; simpl; auto using keyed_apply. Qed.

(** Loading what [take_snapshot] saved gives the state back. *)
Definition saved_result (m : Mem) : SnapshotResult := {|
  sr_bans := get_all_bans (ban_store m); sr_whitelist := elements (wl_entries (whitelist m));
  sr_crdt_bans := (map_to_list (crdt_store m)).*2; sr_revocations := map_to_list (revocations m) |}.

Lemma foldl_store_bans (l : list BanRecord) (s : InMemoryBanStore) :
  bans (foldl (fun s b => store_add_ban b s) s l) = foldl (fun c b => <[subject b := b]> c) (bans s) l.
Proof. revert s. induction l as [|b l IH]; intros s; simpl; [done|]. by rewrite IH, bans_add. Qed.

Lemma foldl_whitelist_entries (l : list IpNet) (w : WhitelistManager) :
  wl_entries (foldl (fun w n => whitelist_add n w) w l) = list_to_set l ∪ wl_entries w.
Proof. revert w. induction l as [|n l IH]; intros w; simpl; [set_solver|]. rewrite IH. simpl. set_solver. Qed.

Lemma view_load_saved (m : Mem) : keyed (view m) -> view (load_mem (saved_result m)) = view m.
Proof.
  intros [Hb Hc]. unfold view, load_mem, saved_result; simpl. f_equal.
  - rewrite foldl_store_bans. by apply foldl_insert_values.
  - rewrite foldl_whitelist_entries. simpl. rewrite list_to_set_elements_L. set_solver.
  - by apply foldl_insert_values.
  - apply foldl_insert_map_to_list.
Qed.

(** ** Replaying a log twice is replaying it once

    Bans, whitelist entries and revocations: the last entry about a key
    decides. *)
Section last_writer.
Context {K V : Type} (get : View -> K -> V) (effect : WalEntry -> K -> option V).
Context (get_apply : forall v e k, get (v_apply v e) k = default (get v k) (effect e k)).

Lemma last_writer_apply (es : list WalEntry) (k : K) :
  (exists c, forall v, get (v_apply_all v es) k = c) \/
  (forall v, get (v_apply_all v es) k = get v k).
Proof using get_apply.
  induction es as [|e es IH] using rev_ind; [by right|].
  assert (Hlast : forall v, get (v_apply_all v (es ++ [e])) k =
                   default (get (v_apply_all v es) k) (effect e k)).
  { intros v. rewrite foldl_app. simpl. apply get_apply. }
  setoid_rewrite Hlast. destruct (effect e k) as [x|]; simpl; [left; by exists x|exact IH].
Qed.

Lemma last_writer_idem (es : list WalEntry) (v : View) (k : K) :
  get (v_apply_all (v_apply_all v es) es) k = get (v_apply_all v es) k.
Proof using get_apply.
  destruct (last_writer_apply es k) as [[c Hc]|Hid]; [by rewrite !Hc|by rewrite Hid].
Qed.
End last_writer.

Definition ban_effect (e : WalEntry) (n : IpNet) : option (option BanRecord) :=
  match e with
  | WAddBan r => if decide (subject r = n) then Some (Some r) else None
  | WRemoveBan m | WRevokeBan m _ => if decide (m = n) then Some None else None
  | _ => None
  end.
Definition entry_effect (e : WalEntry) (n : IpNet) : option bool :=
  match e with
  | WAddWhitelist m => if decide (m = n) then Some true else None
  | WRemoveWhitelist m => if decide (m = n) then Some false else None
  | _ => None
  end.
Definition revoked_effect (e : WalEntry) (n : IpNet) : option (option DateTime) :=
  match e with
  | WRevokeBan m t => if decide (m = n) then Some (Some t) else None
  | _ => None
  end.

(** The CRDT records: what a log says about one key. *)
Inductive crdt_op : Type := CAdd (r : CrdtBanRecord) | CTomb.

Definition crdt_effect (n : IpNet) (e : WalEntry) : option crdt_op :=
  match e with
  | WAddCrdtBan r => if decide (cr_subject r = n) then Some (CAdd r) else None
  | WTombstoneCrdtBan m => if decide (m = n) then Some CTomb else None
  | _ => None
  end.

Definition crdt_run1 (o : option CrdtBanRecord) (op : crdt_op) : option CrdtBanRecord :=
  match op with
  | CAdd r => Some (match o with Some x => join x r | None => r end)
  | CTomb => force_tombstone <$> o
  end.

Abbreviation crdt_run := (foldl crdt_run1) (only parsing).

Lemma crdt_lookup_run (es : list WalEntry) (v : View) (n : IpNet) : keyed v ->
  v_crdt (v_apply_all v es) !! n = crdt_run (v_crdt v !! n) (omap (crdt_effect n) es).
Proof.
  revert v. induction es as [|e es IH]; intros v Hv; [done|]. cbn [foldl].
  rewrite IH by by apply keyed_apply.
  destruct e as [r|m|m|m|r|m|m t]; cbn [omap list_omap crdt_effect v_apply v_crdt]; try done.
  - rewrite crdt_insert_lookup by apply Hv. by destruct (decide (cr_subject r = n)).
  - rewrite lookup_alter. destruct (decide (m = n)) as [->|]; done.
Qed.

(** The record with the flag its votes imply. *)
Definition norm (r : CrdtBanRecord) : CrdtBanRecord := {|
  cr_subject := cr_subject r; first_seen := first_seen r; ban_until := ban_until r;
  cr_severity := cr_severity r; reporters := reporters r;
  cr_evidence_hash := cr_evidence_hash r; cr_reason := cr_reason r;
  tombstone_reporters := tombstone_reporters r; tombstone := quorum (tombstone_reporters r);
  last_modified := last_modified r |}.

Definition op_ok (op : crdt_op) : Prop := match op with CAdd r => flag_ok r | CTomb => True end.
Definition op_add (op : crdt_op) : option CrdtBanRecord :=
  match op with CAdd r => Some r | CTomb => None end.

Lemma norm_flag_ok (r : CrdtBanRecord) : flag_ok r -> norm r = r.
Proof. unfold flag_ok, norm. destruct r; simpl. by intros ->. Qed.

(** A merged record absorbs every record that went into it. *)
Lemma join_absorbs (b r : CrdtBanRecord) (l : list CrdtBanRecord) :
  flag_ok b -> r ∈ b :: l -> join (foldl join b l) r = foldl join b l.
Proof.
  intros Hb Hr. pose proof (foldl_join_flag b l Hb) as Hflag.
  assert (Hset : forall f : CrdtBanRecord -> gset string,
            (forall x y, f (join x y) = f x ∪ f y) -> f (foldl join b l) ∪ f r = f (foldl join b l)).
  { intros f Hf. rewrite (foldl_hom f join (∪)) by done. rewrite (comm_L (∪)).
    apply foldl_op_absorb; [intros; apply (assoc_L _)|intros; apply (comm_L _)|
      intros; apply (idemp_L _)|]. rewrite <- fmap_cons. by apply list_elem_of_fmap_2. }
  apply record_ext; rewrite ?payload_join; simpl; try done.
  - rewrite (foldl_hom first_seen join hlc_min), hlc_min_comm by done.
    apply foldl_op_absorb; auto using hlc_min_assoc, hlc_min_comm, hlc_min_idem.
    rewrite <- fmap_cons. by apply list_elem_of_fmap_2.
  - rewrite (foldl_hom ban_until join hlc_max), hlc_max_comm by done.
    apply foldl_op_absorb; auto using hlc_max_assoc, hlc_max_comm, hlc_max_idem.
    rewrite <- fmap_cons. by apply list_elem_of_fmap_2.
  - rewrite (foldl_hom cr_severity join Z.max), Z.max_comm by done.
    apply foldl_op_absorb; auto using Z.max_assoc, Z.max_comm, Z.max_id.
    rewrite <- fmap_cons. by apply list_elem_of_fmap_2.
  - by apply Hset.
  - rewrite (foldl_hom payload join later) by apply payload_join.
    destruct (foldl_later_max (payload b) (payload <$> l)) as [_ Hmax].
    rewrite <- fmap_cons in Hmax. specialize (Hmax (payload r) ltac:(by apply list_elem_of_fmap_2)).
    unfold later at 1. unfold hlc_le in Hmax. by rewrite Hmax.
  - by apply Hset.
  - rewrite Hset by done. by rewrite <- Hflag.
Qed.

Lemma join_absorbs_all (y : CrdtBanRecord) (l : list CrdtBanRecord) :
  (forall r, r ∈ l -> join y r = y) -> foldl join y l = y.
Proof.
  induction l as [|r l IH]; intros Hl; simpl; [done|].
  rewrite Hl by set_solver. apply IH. set_solver.
Qed.

Lemma crdt_run_Some (ops : list crdt_op) (x : CrdtBanRecord) :
  norm <$> crdt_run (Some x) ops = Some (foldl join (norm x) (omap op_add ops)).
Proof.
  revert x. induction ops as [|[r|] ops IH]; intros x; simpl; [done|..].
  - rewrite IH. by rewrite norm_flag_ok by apply join_flag_ok.
  - by rewrite IH.
Qed.

(** The result up to its flag, as a fold over the records added. *)
Lemma crdt_run_base (ops : list crdt_op) (o : option CrdtBanRecord) (y : CrdtBanRecord) :
  Forall op_ok ops -> crdt_run o ops = Some y ->
  exists b l, flag_ok b /\ norm y = foldl join b l /\ omap op_add ops ⊆ b :: l.
Proof.
  intros Hok. destruct o as [x|]; intros Hy.
  - exists (norm x), (omap op_add ops). split_and!; [done| |set_solver].
    pose proof (crdt_run_Some ops x) as E. rewrite Hy in E. simpl in E. by simplify_eq.
  - revert Hy. induction Hok as [|[r|] ops Hop _ IH]; simpl; intros Hy; [done|..].
    + exists r, (omap op_add ops). split_and!; [done| |done].
      pose proof (crdt_run_Some ops r) as E. rewrite Hy in E. simpl in E.
      rewrite (norm_flag_ok r Hop) in E. by simplify_eq.
    + by apply IH.
Qed.

(** The flag is decided by the last operation. *)
Lemma crdt_run_last (ops : list crdt_op) (op : crdt_op) (o : option CrdtBanRecord) :
  op_ok op ->
  crdt_run o (ops ++ [op]) =
    (match op with CAdd _ => id | CTomb => fmap force_tombstone end)
      (norm <$> crdt_run o (ops ++ [op])).
Proof.
  intros Hop. rewrite foldl_app. simpl. destruct op as [r|]; simpl.
  - f_equal. destruct (crdt_run o ops) as [x|]; symmetry; apply norm_flag_ok; [apply join_flag_ok|done].
  - destruct (crdt_run o ops); done.
Qed.

Lemma crdt_run_idem (ops : list crdt_op) (o : option CrdtBanRecord) :
  Forall op_ok ops -> crdt_run (crdt_run o ops) ops = crdt_run o ops.
Proof.
  intros Hok. destruct ops as [|op ops _] using rev_ind; [done|].
  assert (op_ok op) as Hop by (apply Forall_app in Hok as [_ Hop]; by inversion Hop).
  assert (E : norm <$> crdt_run (crdt_run o (ops ++ [op])) (ops ++ [op]) =
              norm <$> crdt_run o (ops ++ [op])).
  { destruct (crdt_run o (ops ++ [op])) as [y|] eqn:Hy.
    - rewrite crdt_run_Some. simpl. f_equal.
      destruct (crdt_run_base _ _ _ Hok Hy) as (b & l & Hb & Hn & Hsub).
      apply join_absorbs_all. intros r Hr. rewrite Hn. apply join_absorbs; [done|by apply Hsub].
    - destruct o as [x|]; [|by rewrite Hy].
      pose proof (crdt_run_Some (ops ++ [op]) x) as E. by rewrite Hy in E. }
  rewrite (crdt_run_last ops op (crdt_run o _)), E by done. symmetry. by apply crdt_run_last.
Qed.

(** ** Idempotence of replay *)
Definition entry_ok (e : WalEntry) : Prop :=
  match e with WAddCrdtBan r => flag_ok r | _ => True end.

Lemma view_ext (v w : View) :
  (forall n, v_bans v !! n = v_bans w !! n) -> (forall n, n ∈ v_entries v <-> n ∈ v_entries w) ->
  (forall n, v_crdt v !! n = v_crdt w !! n) -> (forall n, v_revoked v !! n = v_revoked w !! n) -> v = w.
Proof.
  destruct v, w; simpl. intros. f_equal; [by apply map_eq|by apply set_eq|by apply map_eq..].
Qed.

Lemma crdt_effects_ok (n : IpNet) (es : list WalEntry) :
  Forall entry_ok es -> Forall op_ok (omap (crdt_effect n) es).
Proof.
  intros Hes. apply Forall_forall. intros op Hop. apply list_elem_of_omap in Hop as (e & He & Heff).
  rewrite Forall_forall in Hes. specialize (Hes e He).
  destruct e; simpl in *; try case_decide; by simplify_eq.
Qed.

Definition has_entry (v : View) (n : IpNet) : bool := bool_decide (n ∈ v_entries v).

Lemma replay_idem (es : list WalEntry) (v : View) :
  keyed v -> Forall entry_ok es -> v_apply_all (v_apply_all v es) es = v_apply_all v es.
Proof.
  intros Hv Hes. apply view_ext; intros n.
  - apply (last_writer_idem (fun v n => v_bans v !! n) ban_effect).
    intros u e k. destruct e; simpl; rewrite ?lookup_insert, ?lookup_delete; by repeat case_decide.
  - assert (E : has_entry (v_apply_all (v_apply_all v es) es) n = has_entry (v_apply_all v es) n).
    { apply (last_writer_idem has_entry entry_effect). unfold has_entry.
      intros u e k. destruct e; simpl; try done; case_decide as Hd; simpl; subst;
        first [apply bool_decide_eq_true_2; set_solver
              |apply bool_decide_eq_false_2; set_solver|apply bool_decide_ext; set_solver]. }
    unfold has_entry in E. split; intros Hin; eapply bool_decide_eq_true; [rewrite <- E|rewrite E];
      by apply bool_decide_eq_true.
  - rewrite !crdt_lookup_run by auto using keyed_apply_all.
    by apply crdt_run_idem, crdt_effects_ok.
  - apply (last_writer_idem (fun v n => v_revoked v !! n) revoked_effect).
    intros u e k. destruct e; simpl; rewrite ?lookup_insert; by repeat case_decide.
Qed.

(** ** Runs of the state manager *)
Inductive sm_op : Type :=
| OAddBan (r : BanRecord)
| OAdmitBan (r : BanRecord) (now : DateTime)
| ORemoveBan (n : IpNet)
| ORevokeBan (now : DateTime) (n : IpNet)
| OTombstone (n : IpNet)
| OAddWhitelist (n : IpNet)
| ORemoveWhitelist (n : IpNet)
| OAddCrdtBan (r : CrdtBanRecord)
| OSnapshot (fault : save_fault) (truncate_fault : bool)
| ORestart (mode : WalSyncMode) (faults : list (option nat)).

Section runs.
Context `{IpNetOps}.
Context `{Codec WalEntry} {codec : CodecLaws WalEntry} `{Crc32} {crc : Crc32Laws}.
Context `{Codec SnapshotDataV4} {snap_codec : CodecLaws SnapshotDataV4}.
Context `{Codec SnapshotDataV2, Bincode SnapshotDataV2, Bincode SnapshotDataV1}.

(** One operation; a restart is a crash of the process followed by
    [StateManager::new] on whatever the two files hold. *)
Definition step_op (op : sm_op) (sm : StateManager) : StateManager :=
  match op with
  | OAddBan r => (add_ban r sm).1
  | OAdmitBan r now => (admit_ban r now sm).1
  | ORemoveBan n => (remove_ban n sm).1
  | ORevokeBan now n => (revoke_ban now n sm).1
  | OTombstone n => (tombstone_crdt_ban n sm).1
  | OAddWhitelist n => (add_whitelist n sm).1
  | ORemoveWhitelist n => (remove_whitelist n sm).1
  | OAddCrdtBan r => (add_crdt_ban r sm).1
  | OSnapshot fault tf => (take_snapshot fault tf sm).1
  | ORestart mode faults =>
      match state_new (snapshot_disk sm) (wal_file (wal_writer sm)) mode faults with
      | Ok sm' => sm'
      | Err _ => sm
      end
  end.

Definition snapshot_fits (sm : StateManager) : Prop :=
  match snapshot_disk sm with
  | Some file => Z.of_nat (length file) <= SNAPSHOT_MAX_SIZE
  | None => True
  end.

(** What the callers guarantee: a CRDT record's flag agrees with its votes,
    and a snapshot stays within the size the reader accepts. *)
Definition op_allowed (op : sm_op) (sm : StateManager) : Prop :=
  match op with
  | OAddCrdtBan r => flag_ok r
  | OSnapshot fault tf => snapshot_fits (take_snapshot fault tf sm).1
  | _ => True
  end.

Inductive reach : StateManager -> Prop :=
| reach_init mode faults sm : state_new None [] mode faults = Ok sm -> reach sm
| reach_step op sm : reach sm -> op_allowed op sm -> reach (step_op op sm).

(** Every operation is a sequence of these. *)
Inductive prim : StateManager -> StateManager -> Prop :=
| prim_log e sm : entry_ok e -> prim sm (logged e sm).1
| prim_snapshot fault tf sm :
    snapshot_fits (take_snapshot fault tf sm).1 -> prim sm (take_snapshot fault tf sm).1
| prim_restart mode faults sm : prim sm (step_op (ORestart mode faults) sm).

(** What the files stand for: the running state, except that a failed write
    may have left its own entry readable. *)
Definition on_disk (sm : StateManager) (base : Mem) (es : list WalEntry) (tail : list Z) : Prop :=
  recover_base (snapshot_disk sm) = Ok base /\ keyed (view base) /\
  scan (wal_file (wal_writer sm)) es tail /\ Forall entry_ok es /\
  (write_failed (wal_writer sm) = false -> tail = []) /\
  (v_apply_all (view base) es = view (mem sm) \/
   write_failed (wal_writer sm) = true /\
   exists es' e, es = es' ++ [e] /\ v_apply_all (view base) es' = view (mem sm)).

Definition consistent (sm : StateManager) : Prop := exists base es tail, on_disk sm base es tail.

Lemma keyed_empty : keyed view_empty.
Proof. split; intros n r; simpl; by rewrite lookup_empty. Qed.

Lemma consistent_init (mode : WalSyncMode) (faults : list (option nat)) (sm : StateManager) :
  state_new None [] mode faults = Ok sm -> consistent sm.
Proof.
  unfold state_new, recover. simpl. intros [= <-]. exists mem_new, [], [].
  split_and!; simpl; auto using keyed_empty. apply scan_nil.
Qed.

Lemma consistent_keyed (sm : StateManager) : consistent sm -> keyed (view (mem sm)).
Proof.
  intros (base & es & tail & _ & Hk & _ & _ & _ & [<- |(_ & es' & e & _ & <-)]);
    by apply keyed_apply_all.
Qed.

Lemma recover_on_disk (sm : StateManager) (base : Mem) (es : list WalEntry) (tail : list Z) :
  on_disk sm base es tail ->
  recover (snapshot_disk sm) (wal_file (wal_writer sm)) = Ok (foldl apply_entry base es).
Proof.
  intros (Hb & _ & Hs & _). unfold recover, replay. rewrite Hb. simpl.
  by rewrite (scan_replay _ _ _ Hs).
Qed.

Lemma consistent_logged (e : WalEntry) (sm : StateManager) :
  entry_ok e -> consistent sm -> consistent (logged e sm).1.
Proof using codec crc.
  intros He (base & es & tail & Hb & Hk & Hs & Hok & Htail & Hv). unfold logged, sm_append.
  destruct (write_failed (wal_writer sm)) eqn:Hf.
  - unfold append. rewrite Hf. simpl. exists base, es, tail. unfold on_disk. simpl. rewrite Hf. by split_and!.
  - specialize (Htail eq_refl). subst tail. destruct Hv as [Hv|[? _]]; [|done].
    pose proof (append_outcome (default None (head (io_faults sm))) e _ _ Hs Hf) as Ho.
    destruct (append _ e (wal_writer sm)) as [w res]. destruct Ho as (extra & tail & Hs' & Hcase).
    destruct Hcase as [(-> & -> & -> & Hf')|[(Hr & -> & -> & Hf')|(Hr & Hx & Hf')]].
    + exists base, (es ++ [e]), []. unfold on_disk; simpl.
      rewrite view_apply, foldl_app, Hv. split_and!; auto. apply Forall_app; auto.
    + destruct res; [done|]. rewrite app_nil_r in Hs'.
      exists base, es, []. unfold on_disk; simpl. split_and!; auto.
    + destruct res; [done|]. exists base, (es ++ extra), tail. unfold on_disk; simpl.
      split_and!; auto; [|congruence|].
      * apply Forall_app. split; [done|]. destruct Hx as [-> | ->]; auto.
      * destruct Hx as [-> | ->]; [left; by rewrite app_nil_r|right]. eauto.
Qed.

Lemma consistent_snapshot (fault : save_fault) (tf : bool) (sm : StateManager) :
  snapshot_fits (take_snapshot fault tf sm).1 -> consistent sm -> consistent (take_snapshot fault tf sm).1.
Proof using snap_codec.
  intros Hfit Hc. pose proof (consistent_keyed sm Hc) as Hkm.
  destruct Hc as (base & es & tail & Hb & Hk & Hs & Hok & Htail & Hv).
  revert Hfit. unfold take_snapshot, save_snapshot_with_revocations.
  destruct (encode_bytes _) as [encoded|] eqn:He;
    [|intros _; exists base, es, tail; unfold on_disk; simpl; by split_and!].
  assert (Hload : Z.of_nat (length (SNAPSHOT_MAGIC_V4 ++ encoded)) <= SNAPSHOT_MAX_SIZE ->
    recover_base (Some (SNAPSHOT_MAGIC_V4 ++ encoded)) = Ok (load_mem (saved_result (mem sm)))).
  { rewrite length_app. change (length SNAPSHOT_MAGIC_V4) with 8%nat. intros Hl.
    unfold recover_base. erewrite load_saved by exact He.
    by destruct (Z.ltb_spec SNAPSHOT_MAX_SIZE (8 + Z.of_nat (length encoded))); [lia|]. }
  assert (Hkeep : v_apply_all (view (mem sm)) es = view (mem sm) \/
    write_failed (wal_writer sm) = true /\
    exists es' e, es = es' ++ [e] /\ v_apply_all (view (mem sm)) es' = view (mem sm)).
  { destruct Hv as [Hv|(Hf & es' & e & -> & Hv)]; [left|right; split; [done|exists es', e; split; [done|]]];
      rewrite <- Hv; apply replay_idem; [done..|by apply Forall_app in Hok as [? _]]. }
  unfold snapshot_fits. destruct fault; [destruct tf|..]; simpl; intros Hfit.
  - exists (load_mem (saved_result (mem sm))), es, tail. unfold on_disk. simpl.
    rewrite view_load_saved by done. split_and!; auto.
  - exists (load_mem (saved_result (mem sm))), [], []. unfold on_disk. simpl.
    rewrite view_load_saved by done. split_and!; auto using scan_nil.
  - exists base, es, tail. unfold on_disk. simpl. by split_and!.
  - exists (load_mem (saved_result (mem sm))), es, tail. unfold on_disk. simpl.
    rewrite view_load_saved by done. split_and!; auto.
Qed.

Lemma consistent_restart (mode : WalSyncMode) (faults : list (option nat)) (sm : StateManager) :
  consistent sm -> consistent (step_op (ORestart mode faults) sm).
Proof.
  intros (base & es & tail & Hd). pose proof (recover_on_disk sm base es tail Hd) as Hr.
  destruct Hd as (Hb & Hk & Hs & Hok & _). unfold step_op, state_new. rewrite Hr. simpl.
  destruct (wal_open_scan (wal_file (wal_writer sm)) mode) as [Hs' Hf'].
  replace (replay (wal_file (wal_writer sm))) with es in Hs'
    by (unfold replay; by rewrite (scan_replay _ _ _ Hs)).
  exists base, es, []. unfold on_disk; simpl. rewrite view_apply_all. split_and!; auto.
Qed.

(** Each operation is a sequence of primitive steps. *)
Lemma prim_logged (e : WalEntry) (sm : StateManager) : entry_ok e -> rtc prim sm (logged e sm).1.
Proof. intros He. by apply rtc_once, prim_log. Qed.

(** An operation that logs one entry and reports something about it. *)
Lemma logged_fst {A} (f : hresult unit -> hresult A) (e : WalEntry) (sm : StateManager) :
  (let '(sm', res) := logged e sm in (sm', f res)).1 = (logged e sm).1.
Proof. by destruct (logged e sm). Qed.

Lemma add_ban_prims (r : BanRecord) (sm : StateManager) : rtc prim sm (add_ban r sm).1.
Proof. unfold add_ban. case_match; [done|by apply prim_logged]. Qed.

Lemma admit_ban_prims (r : BanRecord) (now : DateTime) (sm : StateManager) :
  rtc prim sm (admit_ban r now sm).1.
Proof.
  unfold admit_ban. destruct (find_first _ _) as [b|]; [done|].
  destruct (find_first _ _) as [b|]; match goal with |- context [add_ban ?x sm] =>
    pose proof (add_ban_prims x sm) as Hp; destruct (add_ban x sm) end; exact Hp.
Qed.

Lemma remove_ban_fst (n : IpNet) (sm : StateManager) :
  (remove_ban n sm).1 = (logged (WRemoveBan n) sm).1.
Proof. unfold remove_ban. by destruct (logged _ sm). Qed.

Lemma tombstone_fst (n : IpNet) (sm : StateManager) :
  (tombstone_crdt_ban n sm).1 = (logged (WTombstoneCrdtBan n) sm).1.
Proof. unfold tombstone_crdt_ban. by destruct (logged _ sm). Qed.

Lemma revoke_loop_prims (ns acc : list IpNet) (sm : StateManager) :
  rtc prim sm (revoke_loop ns acc sm).1.
Proof.
  revert acc sm. induction ns as [|n ns IH]; intros acc sm; simpl; [done|].
  pose proof (remove_ban_fst n sm) as E1. destruct (remove_ban n sm) as [sm1 [removed|err]]; simpl in E1;
    subst sm1; [|by apply prim_logged].
  etrans; [by apply (prim_logged (WRemoveBan n))|]. case_match; [|apply IH].
  set (sm1 := (logged _ sm).1). pose proof (tombstone_fst n sm1) as E2.
  destruct (tombstone_crdt_ban n sm1) as [sm2 [b|err]]; simpl in E2; subst sm2;
    [etrans; [by apply (prim_logged (WTombstoneCrdtBan n))|apply IH]|by apply prim_logged].
Qed.

Lemma add_whitelist_prims (n : IpNet) (sm : StateManager) : rtc prim sm (add_whitelist n sm).1.
Proof.
  unfold add_whitelist. pose proof (prim_logged (WAddWhitelist n) sm I) as Hp.
  destruct (logged _ sm) as [sm' [u|e]]; [|done]. etrans; [exact Hp|]. apply revoke_loop_prims.
Qed.

Lemma step_op_prims (op : sm_op) (sm : StateManager) :
  op_allowed op sm -> rtc prim sm (step_op op sm).
Proof.
  intros Hop. destruct op as [r|r now|n|now n|n|n|n|r|fault tf|mode faults].
  - apply add_ban_prims.
  - apply admit_ban_prims.
  - simpl. rewrite remove_ban_fst. by apply prim_logged.
  - simpl. unfold revoke_ban. rewrite (logged_fst (fun res => let? _ := res in Ok _)). by apply prim_logged.
  - simpl. rewrite tombstone_fst. by apply prim_logged.
  - apply add_whitelist_prims.
  - by apply prim_logged.
  - by apply prim_logged.
  - by apply rtc_once, prim_snapshot.
  - apply rtc_once, prim_restart.
Qed.

Lemma consistent_reach (sm : StateManager) : reach sm -> consistent sm.
Proof using codec crc snap_codec.
  induction 1 as [mode faults sm Hnew|op sm _ IH Hop]; [by eapply consistent_init|].
  apply step_op_prims in Hop. revert IH.
  induction Hop as [|sm sm1 sm2 Hp _ IH]; [done|]. intros Hc. apply IH.
  destruct Hp; auto using consistent_logged, consistent_snapshot, consistent_restart.
Qed.



End runs.

(** ** Witnesses: a run with a ban, a whitelist entry, a snapshot whose log
    truncation fails, and a torn write. *)
Module Sample.
#[local] Existing Instances ipnet_ref toy_crc toy_crc_laws no_v2.
#[local] Instance wal_codec : Codec WalEntry := codec_ref 0 WalEntry.
#[local] Instance wal_laws : CodecLaws WalEntry := codec_ref_laws 0 WalEntry.
#[local] Instance snap_codec : Codec SnapshotDataV4 := codec_ref 0 SnapshotDataV4.
#[local] Instance snap_laws : CodecLaws SnapshotDataV4 := codec_ref_laws 0 SnapshotDataV4.
#[local] Instance v2_bincode : Bincode SnapshotDataV2 := no_bincode _.
#[local] Instance v1_bincode : Bincode SnapshotDataV1 := no_bincode _.

Definition start : StateManager :=
  {| mem := mem_new; wal_writer := wal_open [] Sync; snapshot_disk := None; io_faults := [None; None; Some 3%nat] |}.
Definition ops : list sm_op :=
  [OAddBan (sample_ban (NetV4 134744073 32) None); OAddWhitelist entry_net; OSnapshot SaveFine true].
Definition before_fault : StateManager := foldl (fun sm op => step_op op sm) start ops.

Lemma reach_before : reach before_fault.
Proof.
  unfold before_fault, ops. cbn [foldl].
  repeat (apply reach_step; [|first [exact I|vm_compute; congruence]]).
  eapply reach_init. reflexivity.
Qed.



End Sample.
