(* ===== verification/Admission.v ===== *)
(** * What the state manager promises about bans

    Properties of the operations of [State.v] in terms of addresses: protected
    addresses are never banned, an accepted ban takes effect, an admission
    never shortens an existing ban, and a revocation is final. *)
From S2P Require Import Prelude Models Hlc Crdt BanStore Whitelist Wal Snapshot State Recovery.
Local Open Scope Z_scope.

Section admission.
Context `{IpNetOps} {laws : IpNetLaws}.
Context `{Codec WalEntry} `{Crc32}.
Context `{Codec SnapshotDataV4, Codec SnapshotDataV2, Bincode SnapshotDataV2, Bincode SnapshotDataV1}.

(** ** Logging, seen from memory *)
Lemma logged_mem (e : WalEntry) (sm : StateManager) :
  let '(sm', res) := logged e sm in
  mem sm' = if is_ok res then apply_entry (mem sm) e else mem sm.
Proof.
  unfold logged, sm_append. destruct (append _ e _) as [w [u|x]]; done.
Qed.

(** ** The safety invariant *)
Definition safe (m : Mem) : Prop :=
  wf_whitelist (whitelist m) /\
  forall n r, bans (ban_store m) !! n = Some r ->
    wf_net n /\ canonical n /\ subject r = n /\ overlaps (whitelist m) n = false.

Lemma safe_new : safe mem_new.
Proof. split; [apply whitelist_new_wf|]. intros n r. simpl. by rewrite lookup_empty. Qed.

(** Bans only disappear, the whitelist only shrinks or stays. *)
Lemma safe_shrink (m m' : Mem) :
  safe m -> bans (ban_store m') ⊆ bans (ban_store m) -> whitelist m' = whitelist m -> safe m'.
Proof.
  intros [Hw Hb] Hsub Hwl. unfold safe. rewrite Hwl. split; [done|].
  intros n r Hn. apply Hb. by eapply lookup_weaken.
Qed.

Lemma add_ban_mem (r : BanRecord) (sm : StateManager) :
  let r' := set_subject (net_trunc (subject r)) r in
  let '(sm', res) := add_ban r sm in
  mem sm' = if is_ok res then apply_entry (mem sm) (WAddBan r') else mem sm.
Proof.
  intros r'. unfold add_ban. fold r'. destruct (overlaps _ _); [done|]. apply logged_mem.
Qed.

Lemma add_ban_ok_clear (r : BanRecord) (sm : StateManager) :
  is_ok (add_ban r sm).2 = true -> overlaps (whitelist (mem sm)) (net_trunc (subject r)) = false.
Proof. unfold add_ban. simpl. by destruct (overlaps _ _). Qed.

Lemma safe_add_ban (r : BanRecord) (sm : StateManager) :
  wf_net (subject r) -> safe (mem sm) -> safe (mem (add_ban r sm).1).
Proof using laws.
  intros Hwf [Hw Hb]. pose proof (add_ban_mem r sm) as Hm. pose proof (add_ban_ok_clear r sm) as Hclr.
  destruct (add_ban r sm) as [sm' res]. cbn [fst snd] in *. rewrite Hm.
  destruct (is_ok res); [|done]. split; [done|]. simpl. intros n b Hn.
  rewrite bans_add in Hn. simpl in Hn. apply lookup_insert_Some in Hn as [[<- <-]|[_ Hn]]; [|eauto].
  simpl. rewrite net_trunc_law in * by done.
  split_and!; auto using trunc_ref_wf, trunc_ref_canonical.
Qed.

Lemma safe_admit_ban (r : BanRecord) (now : DateTime) (sm : StateManager) :
  wf_net (subject r) -> safe (mem sm) -> safe (mem (admit_ban r now sm).1).
Proof using laws.
  intros Hwf Hs. unfold admit_ban. destruct (find_first _ _) as [b|]; [done|].
  destruct (find_first _ _) as [b|]; match goal with |- context [add_ban ?x sm] =>
    pose proof (safe_add_ban x sm Hwf Hs) as Hp; destruct (add_ban x sm) end; exact Hp.
Qed.

(** Entries that neither add a ban nor extend the whitelist. *)
Definition harmless (e : WalEntry) : Prop :=
  match e with WAddBan _ | WAddWhitelist _ => False | _ => True end.

Lemma safe_apply_harmless (m : Mem) (e : WalEntry) : harmless e -> safe m -> safe (apply_entry m e).
Proof.
  intros He Hs. destruct e as [r|n|n|n|r|n|n t]; simpl in *; try done.
  - eapply safe_shrink; [exact Hs| |done]. simpl. rewrite bans_remove. apply delete_subseteq.
  - destruct Hs as [Hw Hb]. split; simpl; [by apply whitelist_remove_wf|].
    intros n' r Hn. destruct (Hb n' r Hn) as (? & ? & ? & ?). split_and!; try done. by apply overlaps_remove.
  - eapply safe_shrink; [exact Hs| |done]. simpl. rewrite bans_remove. apply delete_subseteq.
Qed.

Lemma safe_logged (e : WalEntry) (sm : StateManager) :
  harmless e -> safe (mem sm) -> safe (mem (logged e sm).1).
Proof.
  intros He Hs. pose proof (logged_mem e sm) as Hm. destruct (logged e sm) as [sm' res]. simpl.
  rewrite Hm. destruct (is_ok res); [by apply safe_apply_harmless|done].
Qed.

(** ** Whitelisting revokes the bans it covers *)
Lemma remove_ban_mem (n : IpNet) (sm : StateManager) :
  let '(sm', res) := remove_ban n sm in
  mem sm' = if is_ok res then apply_entry (mem sm) (WRemoveBan n) else mem sm.
Proof.
  unfold remove_ban. pose proof (logged_mem (WRemoveBan n) sm) as Hm.
  by destruct (logged _ sm) as [sm' [u|x]].
Qed.

Lemma tombstone_mem (n : IpNet) (sm : StateManager) :
  let '(sm', res) := tombstone_crdt_ban n sm in
  mem sm' = if is_ok res then apply_entry (mem sm) (WTombstoneCrdtBan n) else mem sm.
Proof.
  unfold tombstone_crdt_ban. pose proof (logged_mem (WTombstoneCrdtBan n) sm) as Hm.
  by destruct (logged _ sm) as [sm' [u|x]].
Qed.

Lemma revoke_loop_ok (ns acc revoked : list IpNet) (sm sm' : StateManager) :
  revoke_loop ns acc sm = (sm', Ok revoked) ->
  whitelist (mem sm') = whitelist (mem sm) /\
  forall n, bans (ban_store (mem sm')) !! n =
    if decide (n ∈ ns) then None else bans (ban_store (mem sm)) !! n.
Proof.
  clear laws H. revert acc sm. induction ns as [|n ns IH]; intros acc sm E; cbn [revoke_loop] in E.
  { simplify_eq. split; [done|]. intros n. rewrite decide_False; [done|]. set_solver. }
  pose proof (remove_ban_mem n sm) as Hm1. destruct (remove_ban n sm) as [sm1 [removed|x]]; [|done].
  cbn [is_ok] in Hm1.
  assert (Hstep : exists acc' sm2, revoke_loop ns acc' sm2 = (sm', Ok revoked) /\
            ban_store (mem sm2) = ban_store (mem sm1) /\ whitelist (mem sm2) = whitelist (mem sm1)).
  { destruct (bool_decide _); [|by eauto]. pose proof (tombstone_mem n sm1) as Hm2.
    destruct (tombstone_crdt_ban n sm1) as [sm2 [b|x]]; [|done]. cbn [is_ok] in Hm2.
    eexists _, sm2. split_and!; [exact E|by rewrite Hm2..]. }
  destruct Hstep as (acc' & sm2 & E2 & Hb2 & Hw2). destruct (IH _ _ E2) as [Hw Hb].
  split; [by rewrite Hw, Hw2, Hm1|]. intros k. rewrite Hb, Hb2, Hm1. simpl. rewrite bans_remove.
  rewrite lookup_delete. destruct (decide (k = n)) as [->|Hne].
  - rewrite (decide_True (P := n ∈ n :: ns)) by set_solver. case_decide; [done|]. by rewrite decide_True.
  - rewrite (decide_False (P := n = k)) by done.
    destruct (decide (k ∈ ns)); [rewrite decide_True by set_solver|rewrite decide_False by set_solver]; done.
Qed.

Lemma safe_add_whitelist (n : IpNet) (sm : StateManager) :
  wf_net n -> safe (mem sm) -> is_ok (add_whitelist n sm).2 = true -> safe (mem (add_whitelist n sm).1).
Proof.
  intros Hn [Hw Hb]. unfold add_whitelist. pose proof (logged_mem (WAddWhitelist n) sm) as Hm.
  destruct (logged _ sm) as [sm1 [u|x]]; [|done]. cbn [is_ok] in Hm.
  unfold revoke_bans_covered_by_whitelist. set (covered := List.filter _ _).
  destruct (revoke_loop covered [] sm1) as [sm' [revoked|x]] eqn:E; [|done]. intros _. cbn [fst].
  destruct (revoke_loop_ok _ _ _ _ _ E) as [Hw' Hb']. unfold safe. rewrite Hw'.
  split; [rewrite Hm; by apply whitelist_add_wf|].
  intros k r Hk. rewrite Hb' in Hk. case_decide as Hin; [done|].
  rewrite Hm in Hk. simpl in Hk. destruct (Hb k r Hk) as (? & ? & Hs & _). split_and!; [done..|].
  destruct (overlaps (whitelist (mem sm1)) k) eqn:Ho; [|done]. exfalso. apply Hin.
  apply elem_of_lfilter. split; [|done]. rewrite <- Hs.
  apply list_elem_of_fmap_2, list_elem_of_fmap. exists (k, r). split; [done|].
  apply elem_of_map_to_list. by rewrite Hm.
Qed.
End admission.

(** ** Runs that respect the protected networks *)
Section safe_runs.
Context `{IpNetOps} {laws : IpNetLaws}.
Context `{Codec WalEntry} {codec : CodecLaws WalEntry} `{Crc32} {crc : Crc32Laws}.
Context `{Codec SnapshotDataV4} {snap_codec : CodecLaws SnapshotDataV4}.
Context `{Codec SnapshotDataV2, Bincode SnapshotDataV2, Bincode SnapshotDataV1}.

Definition wf_sm_op (op : sm_op) : Prop :=
  match op with
  | OAddBan r | OAdmitBan r _ => wf_net (subject r)
  | OAddWhitelist n => wf_net n
  | _ => True
  end.

(** A whitelist change ran to its end, and no restart follows a failed write. *)
Definition op_completes (op : sm_op) (sm : StateManager) : Prop :=
  match op with
  | OAddWhitelist n => is_ok (add_whitelist n sm).2 = true
  | ORestart _ _ => write_failed (wal_writer sm) = false
  | _ => True
  end.

Inductive safe_run : StateManager -> Prop :=
| run_init mode faults sm : state_new None [] mode faults = Ok sm -> safe_run sm
| run_step op sm : safe_run sm -> op_allowed op sm -> wf_sm_op op -> op_completes op sm ->
    safe_run (step_op op sm).

Lemma safe_run_reach (sm : StateManager) : safe_run sm -> reach sm.
Proof. induction 1; [by eapply reach_init|by apply reach_step]. Qed.

Lemma safe_view (m m' : Mem) :
  view m' = view m -> wl_immutable (whitelist m') = wl_immutable (whitelist m) -> safe m -> safe m'.
Proof.
  intros Hv Hi. injection Hv as Hb He _ _.
  assert (whitelist m' = whitelist m) as Hw by (destruct (whitelist m'), (whitelist m); simpl in *; congruence).
  unfold safe. by rewrite Hb, Hw.
Qed.

Lemma immutable_apply (es : list WalEntry) (m : Mem) :
  wl_immutable (whitelist (foldl apply_entry m es)) = wl_immutable (whitelist m).
Proof. revert m. induction es as [|e es IH]; intros m; simpl; [done|]. rewrite IH. by destruct e. Qed.

Lemma immutable_load (l : list IpNet) (w : WhitelistManager) :
  wl_immutable (foldl (fun w n => whitelist_add n w) w l) = wl_immutable w.
Proof. revert w. induction l as [|n l IH]; intros w; simpl; [done|]. by rewrite IH. Qed.

Lemma immutable_recover (snapshot : option (list Z)) (wal : list Z) (m : Mem) :
  recover snapshot wal = Ok m -> wl_immutable (whitelist m) = IMMUTABLE_PROTECTED.
Proof.
  unfold recover, recover_base. intros E. destruct snapshot as [file|]; simpl in E.
  - destruct (load_snapshot_v2 file); simpl in E; [|done]. injection E as <-.
    rewrite immutable_apply. simpl. by rewrite immutable_load.
  - injection E as <-. by rewrite immutable_apply.
Qed.

Lemma immutable_prim (sm sm' : StateManager) : prim sm sm' ->
  wl_immutable (whitelist (mem sm)) = IMMUTABLE_PROTECTED ->
  wl_immutable (whitelist (mem sm')) = IMMUTABLE_PROTECTED.
Proof.
  intros [e s _|fault tf s _|mode faults s] Hi.
  - pose proof (logged_mem e s) as Hm. destruct (logged e s) as [s' res]. simpl. rewrite Hm.
    destruct (is_ok res); [by destruct e|done].
  - unfold take_snapshot. destruct (save_snapshot_with_revocations _ _ _ _ _ _) as [d [u|x]]; [|done].
    by destruct (truncate tf _).
  - simpl. unfold state_new. destruct (recover _ _) as [m|x] eqn:E; [|done]. by eapply immutable_recover.
Qed.

Lemma immutable_run (sm : StateManager) :
  safe_run sm -> wl_immutable (whitelist (mem sm)) = IMMUTABLE_PROTECTED.
Proof.
  induction 1 as [mode faults sm Hn|op sm _ IH Hop _ _].
  - unfold state_new, recover in Hn. simpl in Hn. by injection Hn as <-.
  - apply step_op_prims in Hop. induction Hop as [|s1 s2 s3 Hp _ IHp]; [done|]. by eauto using immutable_prim.
Qed.

Lemma safe_restart (mode : WalSyncMode) (faults : list (option nat)) (sm : StateManager) :
  safe_run sm -> write_failed (wal_writer sm) = false -> safe (mem sm) ->
  safe (mem (step_op (ORestart mode faults) sm)).
Proof using codec crc snap_codec.
  intros Hr Hf Hs. simpl. unfold state_new.
  destruct (consistent_reach sm (safe_run_reach sm Hr)) as (base & es & tail & Hd).
  pose proof (recover_on_disk _ _ _ _ Hd) as Hrec. rewrite Hrec. simpl.
  destruct Hd as (_ & _ & _ & _ & _ & [Hv|[? _]]); [|congruence].
  apply (safe_view (mem sm)); [by rewrite view_apply_all| |done].
  rewrite (immutable_recover _ _ _ Hrec). symmetry. by apply immutable_run.
Qed.

Lemma safe_runs_safe (sm : StateManager) : safe_run sm -> safe (mem sm).
Proof using laws codec crc snap_codec.
  induction 1 as [mode faults sm Hn|op sm Hr IH _ Hwf Hc].
  { unfold state_new, recover in Hn. simpl in Hn. injection Hn as <-. apply safe_new. }
  destruct op as [r|r now|n|now n|n|n|n|r|fault tf|mode faults]; simpl in Hwf, Hc |- *.
  - by apply safe_add_ban.
  - by apply safe_admit_ban.
  - rewrite remove_ban_fst. by apply safe_logged.
  - unfold revoke_ban. rewrite (logged_fst (fun res => let? _ := res in Ok _)). by apply safe_logged.
  - rewrite tombstone_fst. by apply safe_logged.
  - by apply safe_add_whitelist.
  - by apply safe_logged.
  - by apply safe_logged.
  - unfold take_snapshot. destruct (save_snapshot_with_revocations _ _ _ _ _ _) as [d [u|x]]; [|done].
    by destruct (truncate tf _).
  - by apply safe_restart.
Qed.

(** What a lookup returns was stored under a network containing the address. *)
Lemma is_banned_sound (s : InMemoryBanStore) (ip : IpAddr) (r : BanRecord) :
  is_banned s ip = Some r -> wf_ip ip -> exists n, bans s !! n = Some r /\ in_net n ip.
Proof using laws.
  intros Hb Hip. unfold is_banned in Hb. destruct ip as [a|a].
  - assert (Hall : Forall (fun p => (p <= 32)%nat) (lens_desc 32))
      by (apply Forall_forall; intros p; by rewrite lens_desc_elem).
    revert Hb. induction Hall as [|p lens Hp _ IH]; cbn [is_banned_v4]; intros Hb; [done|].
    destruct (_ =? 0); [by apply IH|]. rewrite ipnet_new_law, decide_True in Hb by done.
    rewrite land_prefix_mask in Hb by done.
    destruct (bans s !! _) as [r'|] eqn:E; [|by apply IH]. simplify_eq. exists (net_around (IpV4 a) p). split; [done|apply in_net_around].
  - assert (Hall : Forall (fun p => (p <= 128)%nat) (lens_desc 128))
      by (apply Forall_forall; intros p; by rewrite lens_desc_elem).
    revert Hb. induction Hall as [|p lens Hp _ IH]; cbn [is_banned_v6]; intros Hb; [done|].
    destruct (_ =? 0); [by apply IH|]. rewrite ipnet_new_law, decide_True in Hb by done.
    rewrite land_prefix_mask in Hb by done.
    destruct (bans s !! _) as [r'|] eqn:E; [|by apply IH]. simplify_eq. exists (net_around (IpV6 a) p). split; [done|apply in_net_around].
Qed.

Lemma whitelisted_overlaps (w : WhitelistManager) (n : IpNet) (ip : IpAddr) :
  wf_whitelist w -> wf_net n -> wf_ip ip -> in_net n ip -> is_whitelisted w ip = true ->
  overlaps w n = true.
Proof using laws.
  intros Hw Hn Hip Hin Hl. apply overlaps_spec; [done..|].
  unfold is_whitelisted, is_immutably_protected in Hl. rewrite orb_true_iff, !existsb_elem in Hl.
  destruct Hl as [(x & Hx & Hc)|(x & Hx & Hc)]; exists x, ip;
    (assert (x ∈ all_entries w) as Hall by (unfold all_entries; rewrite elem_of_app; auto));
    (split_and!; [done..| |done]); (apply net_contains_law in Hc; [done|by apply Hw|done]).
Qed.

End safe_runs.

(** ** Admission *)
Lemma find_first_Some {A} (f : A -> bool) (l : list A) (x : A) :
  find_first f l = Some x -> x ∈ l /\ f x = true.
Proof.
  induction l as [|y l IH]; simpl; [done|]. destruct (f y) eqn:E; [intros [= <-]; set_solver|].
  intros Hx. destruct (IH Hx). set_solver.
Qed.

Lemma find_first_None {A} (f : A -> bool) (l : list A) (x : A) :
  find_first f l = None -> x ∈ l -> f x = false.
Proof.
  induction l as [|y l IH]; simpl; intros Hn Hx; [set_solver|]. destruct (f y) eqn:E; [done|].
  apply elem_of_cons in Hx as [->|Hx]; auto.
Qed.

(** Expiry order; no expiry is the longest. *)
Definition expiry_le (a b : option DateTime) : Prop :=
  match a, b with
  | _, None => True
  | None, Some _ => False
  | Some x, Some y => x <= y
  end.

Lemma not_outlasts (e n : option DateTime) : outlasts e n = false -> expiry_le e n.
Proof.
  unfold outlasts, MIN_BAN_EXTENSION, minutes, secs, nanos_per_sec.
  destruct e as [e|], n as [n|]; simpl; try done. intros Hl%Z.leb_gt. lia.
Qed.

Lemma expiry_le_refl (e : option DateTime) : expiry_le e e.
Proof. destruct e; simpl; [lia|done]. Qed.

Section admitting.
Context `{IpNetOps} {laws : IpNetLaws}.
Context `{Codec WalEntry} `{Crc32}.

Lemma outlasts_refl (e : option DateTime) : outlasts e e = true.
Proof. unfold outlasts, MIN_BAN_EXTENSION, minutes, secs, nanos_per_sec. destruct e; [apply Z.leb_le; lia|done]. Qed.

(** The record under the subject's own key is among the covering ones. *)
Lemma own_key_covering (s : InMemoryBanStore) (net : IpNet) (b : BanRecord) :
  store_inv s -> wf_net net -> bans s !! trunc_ref net = Some b -> b ∈ covering_bans s net.
Proof using laws.
  intros Hs Hn Hb. apply covering_bans_spec; [done..|]. exists (trunc_ref net).
  split_and!; [done|apply trunc_ref_canonical|apply trunc_ref_in_net, in_net_addr|by destruct net].
Qed.

(** Storing a record that outlasts every active covering ban. *)
Lemma store_never_shortens (s : InMemoryBanStore) (r r' : BanRecord) (now : DateTime) :
  store_inv s -> wf_net (subject r) ->
  find_first (fun b => ban_active now b && outlasts (expires_at b) (expires_at r)) (covering_bans s (subject r)) = None ->
  subject r' = trunc_ref (subject r) -> expires_at r' = expires_at r ->
  forall n b, bans s !! n = Some b -> ban_active now b = true ->
    exists b', bans (store_add_ban r' s) !! n = Some b' /\ expiry_le (expires_at b) (expires_at b').
Proof using laws.
  intros Hs Hwf Hf Hsub Hexp n b Hb Ha. rewrite bans_add, lookup_insert. case_decide as Hn.
  - exists r'. split; [done|]. rewrite Hexp. apply not_outlasts.
    assert (b ∈ covering_bans s (subject r)) as Hin by (apply own_key_covering; [done..|congruence]).
    pose proof (find_first_None _ _ _ Hf Hin) as Hb'. simpl in Hb'. by rewrite Ha in Hb'.
  - exists b. split; [done|apply expiry_le_refl].
Qed.

(** C10: The contract of [admit_ban]. When a ban that is still running is
    admitted, all of its addresses end up under one active ban that lasts at
    least as long, up to the five-minute tolerance; no ban that was active is
    removed or shortened; and the verdict is truthful: [AlreadyCovered] changes
    nothing, [Extended] replaces the active ban of the same subject and keeps
    its creation time, [Added] stores the record under its truncated subject. *)
Theorem admission_contract (sm sm' : StateManager) (r : BanRecord) (now : DateTime) (a : BanAdmission)
  (Hs : store_inv (ban_store (mem sm))) (Hwf : wf_net (subject r)) (Hact : ban_active now r = true)
  (He : admit_ban r now sm = (sm', Ok a)) :
  let before := bans (ban_store (mem sm)) in
  let after := bans (ban_store (mem sm')) in
  (exists n b, after !! n = Some b /\ ban_active now b = true /\
     outlasts (expires_at b) (expires_at r) = true /\
     forall ip, in_net (subject r) ip -> in_net n ip) /\
  (forall n b, before !! n = Some b -> ban_active now b = true ->
     exists b', after !! n = Some b' /\ expiry_le (expires_at b) (expires_at b')) /\
  match a with
  | AlreadyCovered n exp => sm' = sm /\ exists b, before !! n = Some b /\ expires_at b = exp
  | Extended exp => exists b, before !! subject r = Some b /\ expires_at b = exp /\
      after = <[subject r := set_created_at (created_at b) r]> before
  | Added => after = <[trunc_ref (subject r) := set_subject (trunc_ref (subject r)) r]> before
  end.
Proof using laws.
  intros before after. unfold admit_ban in He.
  destruct (find_first _ (covering_bans _ _)) as [b|] eqn:Hf1.
  { simplify_eq. apply find_first_Some in Hf1 as [Hin Hb]. apply andb_true_iff in Hb as [Ha Ho].
    apply covering_bans_spec in Hin as (n & Hn & _ & Hin & Hp); [|done..].
    destruct Hs as [_ Hk]. destruct (Hk n b Hn) as [_ Hsub]. rewrite Hsub.
    split_and!; [|intros m c Hm _; exists c; split; [done|apply expiry_le_refl]|done|eauto].
    exists n, b. split_and!; [done..|]. intros ip. by apply in_net_widen. }
  assert (Hadd : forall r' sm1 u, add_ban r' sm = (sm1, Ok u) -> subject r' = subject r ->
      expires_at r' = expires_at r ->
      bans (ban_store (mem sm1)) = <[trunc_ref (subject r) := set_subject (trunc_ref (subject r)) r']> before /\
      (exists n b, bans (ban_store (mem sm1)) !! n = Some b /\ ban_active now b = true /\
         outlasts (expires_at b) (expires_at r) = true /\ forall ip, in_net (subject r) ip -> in_net n ip) /\
      (forall n b, before !! n = Some b -> ban_active now b = true ->
         exists b', bans (ban_store (mem sm1)) !! n = Some b' /\ expiry_le (expires_at b) (expires_at b'))).
  { intros r' sm1 u E Hsub Hexp. pose proof (add_ban_mem r' sm) as Hm. rewrite E in Hm. cbn [is_ok] in Hm.
    rewrite Hsub, net_trunc_law in Hm by done. rewrite Hm. simpl.
    set (r2 := set_subject _ r'). split_and!; [by rewrite bans_add| |].
    - exists (trunc_ref (subject r)), r2. rewrite bans_add. simpl. rewrite lookup_insert_eq.
      split_and!; [done|unfold ban_active in *; simpl; by rewrite Hexp|simpl; rewrite Hexp; apply outlasts_refl|].
      intros ip Hip. by apply trunc_ref_in_net.
    - by apply (store_never_shortens _ r r2 now). }
  destruct (find_first (fun b => bool_decide _ && _) _) as [b|] eqn:Hf2.
  - destruct (add_ban _ sm) as [sm1 [u|x]] eqn:E; [|done]. simpl in He. simplify_eq.
    destruct (Hadd _ _ _ E eq_refl eq_refl) as (Haf & Hcov & Hsh). split_and!; [done..|].
    apply find_first_Some in Hf2 as [Hin Hb]. apply andb_true_iff in Hb as [Heq%bool_decide_eq_true _].
    apply covering_bans_spec in Hin as (n & Hn & Hc & _); [|done..].
    destruct Hs as [_ Hk]. destruct (Hk n b Hn) as [_ Hsub].
    assert (n = subject r) as -> by congruence. exists b. split_and!; [done..|].
    unfold canonical in Hc. subst after. rewrite Haf, Hc. by destruct r.
  - destruct (add_ban r sm) as [sm1 [u|x]] eqn:E; [|done]. simpl in He. simplify_eq.
    by destruct (Hadd _ _ _ E eq_refl eq_refl) as (Haf & Hcov & Hsh).
Qed.

(** An accepted ban takes effect at once: after [add_ban] succeeds, every
    address of the subject, given with or without host bits, is reported as
    banned, by a ban at least as specific. *)
Theorem add_ban_effective (sm sm' : StateManager) (r : BanRecord) (ip : IpAddr)
  (Hs : store_inv (ban_store (mem sm)))
  (Hroom : Z.of_nat (size (bans (ban_store (mem sm)))) + 1 < 2 ^ 32)
  (Hwf : wf_net (subject r)) (Hip : wf_ip ip) (Hin : in_net (subject r) ip)
  (He : add_ban r sm = (sm', Ok tt)) :
  exists b, is_banned (ban_store (mem sm')) ip = Some b /\
    (prefix_len (subject r) <= prefix_len (subject b))%nat.
Proof using laws.
  pose proof (add_ban_mem r sm) as Hm. rewrite He in Hm. cbn [is_ok] in Hm.
  rewrite net_trunc_law in Hm by done. rewrite Hm. simpl. set (r2 := set_subject _ r).
  destruct (store_add_ban_ok r2 (ban_store (mem sm)) (trunc_ref_wf _ Hwf) Hs Hroom) as [Hs' Hb'].
  rewrite is_banned_lpm by done. unfold lpm.
  assert (Hlk : bans (store_add_ban r2 (ban_store (mem sm))) !! net_around ip (prefix_len (subject r)) = Some r2).
  { rewrite Hb'. simpl. replace (net_around ip (prefix_len (subject r))) with (trunc_ref (subject r));
      [apply lookup_insert_eq|].
    rewrite (canonical_in_net (trunc_ref (subject r)) ip); [by destruct (subject r)|apply trunc_ref_canonical|].
    by apply trunc_ref_in_net. }
  assert (Hlen : prefix_len (subject r) ∈ lens_desc (ip_width ip)).
  { rewrite lens_desc_elem. destruct Hin as [<- _]. apply Hwf. }
  destruct (lpm_from _ ip _) as [b|] eqn:E.
  - exists b. split; [done|]. apply lpm_from_Some in E as (p & _ & Hp & Hmax); [|apply lens_desc_sorted].
    destruct Hs' as [_ Hk]. destruct (Hk _ _ Hp) as [_ ->].
    replace (prefix_len (net_around ip p)) with p by (by destruct ip). apply Hmax; eauto.
  - apply lpm_from_None with (p := prefix_len (subject r)) in E; [|done]. congruence.
Qed.
End admitting.

(** ** Revocation *)
Section revocation.
Context `{IpNetOps} {laws : IpNetLaws}.
Context `{Codec WalEntry} {codec : CodecLaws WalEntry} `{Crc32} {crc : Crc32Laws}.
Context `{Codec SnapshotDataV4} {snap_codec : CodecLaws SnapshotDataV4}.
Context `{Codec SnapshotDataV2, Bincode SnapshotDataV2, Bincode SnapshotDataV1}.

(** Cutoffs only move forward. *)
Definition cutoffs_le (c c' : gmap IpNet DateTime) : Prop :=
  forall n t, c !! n = Some t -> exists t', c' !! n = Some t' /\ t <= t'.

#[local] Instance cutoffs_le_preorder : PreOrder cutoffs_le.
Proof.
  split.
  - intros c n t Hn. eauto with lia.
  - intros c1 c2 c3 H12 H23 n t Hn. destruct (H12 n t Hn) as (t2 & E2 & ?).
    destruct (H23 n t2 E2) as (t3 & E3 & ?). eauto with lia.
Qed.

Lemma logged_revocations (e : WalEntry) (sm : StateManager) :
  (forall n t, e <> WRevokeBan n t) -> revocations (mem (logged e sm).1) = revocations (mem sm).
Proof.
  intros He. pose proof (logged_mem e sm) as Hm. destruct (logged e sm) as [sm' res]. simpl. rewrite Hm.
  destruct (is_ok res); [|done]. destruct e; simpl; try done. by edestruct He.
Qed.

Lemma add_ban_revocations (r : BanRecord) (sm : StateManager) :
  revocations (mem (add_ban r sm).1) = revocations (mem sm).
Proof.
  pose proof (add_ban_mem r sm) as Hm. destruct (add_ban r sm) as [sm' res]. simpl. rewrite Hm.
  by destruct (is_ok res).
Qed.

Lemma revoke_loop_revocations (ns acc : list IpNet) (sm : StateManager) :
  revocations (mem (revoke_loop ns acc sm).1) = revocations (mem sm).
Proof.
  revert acc sm. induction ns as [|n ns IH]; intros acc sm; cbn [revoke_loop]; [done|].
  pose proof (remove_ban_mem n sm) as Hm1. destruct (remove_ban n sm) as [sm1 [b|x]]; cbn [is_ok] in Hm1;
    [|simpl; by rewrite Hm1].
  assert (E1 : revocations (mem sm1) = revocations (mem sm)) by by rewrite Hm1.
  destruct (bool_decide _); [|by rewrite IH].
  pose proof (tombstone_mem n sm1) as Hm2. destruct (tombstone_crdt_ban n sm1) as [sm2 [c|x]];
    cbn [is_ok] in Hm2; [rewrite IH|]; simpl; by rewrite Hm2.
Qed.

(** The cutoff a revocation at time [now] records for [net]. *)
Lemma revoke_ban_cutoffs (now : DateTime) (net : IpNet) (sm : StateManager) :
  let '(sm', res) := revoke_ban now net sm in
  cutoffs_le (revocations (mem sm)) (revocations (mem sm')) /\
  (is_ok res = true -> exists t, revocations (mem sm') !! net_trunc net = Some t /\ now <= t).
Proof.
  unfold revoke_ban. set (cutoff0 := match find_first _ _ with Some _ => _ | None => now end).
  set (cutoff := match revocations _ !! _ with Some _ => _ | None => cutoff0 end).
  assert (Hge : now <= cutoff0 <= cutoff).
  { subst cutoff cutoff0. destruct (find_first _ _), (revocations _ !! _); lia. }
  pose proof (logged_mem (WRevokeBan (net_trunc net) cutoff) sm) as Hm.
  destruct (logged _ sm) as [sm' res]. destruct res as [u|x]; simpl in *; [|by rewrite Hm].
  rewrite Hm. simpl. split.
  - intros n t Hn. rewrite lookup_insert. case_decide as Hd; [|eauto with lia].
    subst n. exists cutoff. split; [done|]. subst cutoff. rewrite Hn. lia.
  - intros _. exists cutoff. rewrite lookup_insert_eq. split; [done|lia].
Qed.

(** One more operation; a restart only when no log write has failed. *)
Definition next (sm sm' : StateManager) : Prop :=
  exists op, op_allowed op sm /\ sm' = step_op op sm /\
    match op with ORestart _ _ => write_failed (wal_writer sm) = false | _ => True end.

Lemma next_cutoffs (sm sm' : StateManager) :
  reach sm -> next sm sm' -> cutoffs_le (revocations (mem sm)) (revocations (mem sm')).
Proof using codec crc snap_codec.
  intros Hr (op & Ha & -> & Hc).
  destruct op as [r|r now|n|now n|n|n|n|r|fault tf|mode faults]; cbn [step_op].
  - by rewrite add_ban_revocations.
  - unfold admit_ban. destruct (find_first _ _) as [b|]; [done|].
    destruct (find_first _ _) as [b|]; match goal with |- context [add_ban ?x sm] =>
      pose proof (add_ban_revocations x sm) as Hp; destruct (add_ban x sm) end; simpl in *; by rewrite Hp.
  - by rewrite remove_ban_fst, logged_revocations.
  - pose proof (revoke_ban_cutoffs now n sm) as Hm. by destruct (revoke_ban now n sm) as [sm' res], Hm.
  - by rewrite tombstone_fst, logged_revocations.
  - unfold add_whitelist. pose proof (logged_revocations (WAddWhitelist n) sm) as Hm.
    destruct (logged _ sm) as [sm' [u|x]]; simpl in *; [|by rewrite Hm].
    unfold revoke_bans_covered_by_whitelist. by rewrite revoke_loop_revocations, Hm.
  - unfold remove_whitelist. by rewrite logged_revocations.
  - unfold add_crdt_ban. by rewrite logged_revocations.
  - unfold take_snapshot. destruct (save_snapshot_with_revocations _ _ _ _ _ _) as [d [u|x]]; [|done].
    by destruct (truncate tf _).
  - simpl. unfold state_new. destruct (consistent_reach sm Hr) as (base & es & tail & Hd).
    rewrite (recover_on_disk _ _ _ _ Hd). simpl.
    destruct Hd as (_ & _ & _ & _ & _ & [Hv|[? _]]); [|congruence].
    rewrite <- view_apply_all in Hv. apply (f_equal v_revoked) in Hv. simpl in Hv. by rewrite Hv.
Qed.

Lemma later_cutoffs (sm sm' : StateManager) :
  reach sm -> rtc next sm sm' -> cutoffs_le (revocations (mem sm)) (revocations (mem sm')).
Proof using codec crc snap_codec.
  intros Hr Hn. induction Hn as [|s1 s2 s3 Hs _ IH]; [done|].
  etrans; [by apply next_cutoffs|]. apply IH. destruct Hs as (op & Ha & -> & _). by apply reach_step.
Qed.

Lemma cutoff_rejects (sm : StateManager) (n : IpNet) (t : DateTime) (r : BanRecord) :
  revocations (mem sm) !! n = Some t -> nets_overlap n (subject r) = true -> created_at r <= t ->
  accepts_remote_ban r sm = false.
Proof.
  intros Hn Ho Ht. unfold accepts_remote_ban. apply andb_false_iff. right. apply negb_false_iff.
  apply existsb_elem. exists (n, t). rewrite elem_of_map_to_list. split; [done|].
  unfold nets_overlap in Ho. simpl. rewrite Ho. by apply Z.leb_le.
Qed.


(** The forced tombstone does not survive a merge. A record tombstoned
    without a quorum of votes (as whitelisting a network does) is live again
    as soon as any record about the same subject is merged in, unless the
    merged votes reach the quorum. *)
Theorem forced_tombstone_lost (sm sm1 sm2 : StateManager) (n : IpNet) (x r : CrdtBanRecord)
  (b : bool) (Hx : crdt_store (mem sm) !! n = Some x) (Hk : cr_subject x = n) (Hn : cr_subject r = n)
  (Htomb : tombstone_crdt_ban n sm = (sm1, Ok b)) (Hadd : add_crdt_ban r sm1 = (sm2, Ok tt))
  (Hvotes : quorum (tombstone_reporters x ∪ tombstone_reporters r) = false) :
  tombstone <$> crdt_store (mem sm1) !! n = Some true /\
  tombstone <$> crdt_store (mem sm2) !! n = Some false.
Proof.
  pose proof (tombstone_mem n sm) as H1'. rewrite Htomb in H1'. cbn [is_ok] in H1'.
  assert (Hs1 : crdt_store (mem sm1) !! n = Some (force_tombstone x))
    by (rewrite H1'; simpl; by rewrite lookup_alter_eq, Hx).
  split; [by rewrite Hs1|].
  pose proof (logged_mem (WAddCrdtBan r) sm1) as H2'. unfold add_crdt_ban in Hadd.
  rewrite Hadd in H2'. cbn [is_ok] in H2'. rewrite H2'. simpl. unfold crdt_insert. rewrite Hn, Hs1.
  rewrite merge_join, decide_True by (simpl; congruence). rewrite lookup_insert_eq. simpl. by rewrite Hvotes.
Qed.
End revocation.

(** ** Witnesses *)
Module AdmissionSample.
#[local] Existing Instances ipnet_ref ipnet_ref_laws toy_crc toy_crc_laws no_v2.
#[local] Instance wal_codec : Codec WalEntry := codec_ref 0 WalEntry.
#[local] Instance wal_laws : CodecLaws WalEntry := codec_ref_laws 0 WalEntry.
#[local] Instance snap_codec : Codec SnapshotDataV4 := codec_ref 0 SnapshotDataV4.
#[local] Instance snap_laws : CodecLaws SnapshotDataV4 := codec_ref_laws 0 SnapshotDataV4.
#[local] Instance v2_bincode : Bincode SnapshotDataV2 := no_bincode _.
#[local] Instance v1_bincode : Bincode SnapshotDataV1 := no_bincode _.

Definition start : StateManager :=
  {| mem := mem_new; wal_writer := wal_open [] Sync; snapshot_disk := None; io_faults := [] |}.

(** 8.8.8.0/24, given with host bits, banned until minute 60. *)
Definition wide : BanRecord := sample_ban (NetV4 (ipv4 8 8 8 77) 24) (Some (minutes 60)).
Definition target : IpAddr := IpV4 (ipv4 8 8 8 9).

Definition banned_clear : StateManager := step_op (OAddBan wide) start.

Lemma run_whitelisted : safe_run (step_op (OAddWhitelist entry_net) banned_clear).
Proof.
  apply run_step; [|exact I|vm_compute; repeat split; (congruence || lia)|vm_compute; reflexivity].
  apply run_step; [|exact I|vm_compute; repeat split; (congruence || lia)|exact I].
  eapply run_init. reflexivity.
Qed.

(** A second ban, of 9.9.9.9, is in force while 8.8.8.8 is whitelisted. *)
Definition other : BanRecord := sample_ban (NetV4 (ipv4 9 9 9 9) 32) None.
Definition mixed : StateManager := step_op (OAddBan other) (step_op (OAddWhitelist entry_net) banned_clear).


Lemma start_inv : store_inv (ban_store (mem start)).
Proof. apply store_new_inv. Qed.

Lemma admission_contract_witness :
  exists n b, bans (ban_store (mem (admit_ban wide 0 start).1)) !! n = Some b /\ ban_active 0 b = true.
Proof.
  destruct (admission_contract start (admit_ban wide 0 start).1 wide 0 Added start_inv
    ltac:(vm_compute; repeat split; (congruence || lia)) ltac:(vm_compute; reflexivity)
    ltac:(vm_compute; reflexivity)) as [(n & b & Hn & Ha & _) _].
  exists n, b. split; [exact Hn|exact Ha].
Defined.

Lemma add_ban_effective_witness :
  exists b, is_banned (ban_store (mem (add_ban wide start).1)) target = Some b.
Proof.
  destruct (add_ban_effective start (add_ban wide start).1 wide target start_inv
    ltac:(vm_compute; reflexivity) ltac:(vm_compute; repeat split; (congruence || lia))
    ltac:(vm_compute; split; congruence) ltac:(vm_compute; split; reflexivity)
    ltac:(vm_compute; reflexivity)) as (b & Hb & _).
  exists b. exact Hb.
Defined.

Lemma start_reach : reach start.
Proof. apply (reach_init Sync []). reflexivity. Qed.


Definition crdt_a : CrdtBanRecord := sample_record 1 10 100.
Definition crdt_b : CrdtBanRecord := sample_record 2 20 200.
Definition crdt_start : StateManager := (add_crdt_ban crdt_a start).1.
Definition crdt_tombstoned : StateManager := (tombstone_crdt_ban (cr_subject crdt_a) crdt_start).1.

Lemma forced_tombstone_lost_witness :
  tombstone <$> crdt_store (mem (add_crdt_ban crdt_b crdt_tombstoned).1) !! cr_subject crdt_a = Some false.
Proof.
  refine (proj2 (forced_tombstone_lost crdt_start crdt_tombstoned _ (cr_subject crdt_a) crdt_a crdt_b true
    _ _ _ _ _ _)); vm_compute; reflexivity.
Defined.
End AdmissionSample.
