(* ===== verification/AntiPoison.v ===== *)
(** * Anti-poisoning ([hiveguard-core/src/anti_poison.rs])

    The sliding-window rate limiter, per key and bounded in keys, and the
    quarantine test against the median report volume. Clock readings are
    arguments: one per [Utc::now()] call. *)
From S2P Require Import Prelude.
Local Open Scope Z_scope.

Record RateLimiter : Type := {
  max_per_window : nat;
  window : Duration;
  entries : gmap string (list DateTime);
  max_keys : nat;
}.

Definition DEFAULT_MAX_KEYS : nat := Z.to_nat 10000.

Definition limiter_new (max_per_window : nat) (window : Duration) : RateLimiter :=
  {| max_per_window := max_per_window; window := window; entries := ∅; max_keys := DEFAULT_MAX_KEYS |}.

(** [retain(|t| *t > cutoff)] *)
Definition live (cutoff : DateTime) (ts : list DateTime) : list DateTime :=
  List.filter (fun t => cutoff <? t) ts.

Definition set_entries (m : gmap string (list DateTime)) (rl : RateLimiter) : RateLimiter :=
  {| max_per_window := max_per_window rl; window := window rl; entries := m; max_keys := max_keys rl |}.

Definition cleanup (now : DateTime) (rl : RateLimiter) : RateLimiter :=
  let cutoff := now - window rl in
  set_entries (omap (fun ts => match live cutoff ts with [] => None | ts' => Some ts' end) (entries rl)) rl.

(** [now] is the reading at entry, [now_cleanup] the one [cleanup] makes. *)
Definition check_and_record (now now_cleanup : DateTime) (key : string) (rl : RateLimiter)
    : RateLimiter * bool :=
  let cutoff := now - window rl in
  let full := bool_decide (entries rl !! key = None) && (max_keys rl <=? size (entries rl))%nat in
  let rl := if full then cleanup now_cleanup rl else rl in
  if full && (max_keys rl <=? size (entries rl))%nat then (rl, false) else
  let timestamps := live cutoff (default [] (entries rl !! key)) in
  if (max_per_window rl <=? length timestamps)%nat
  then (set_entries (<[key := timestamps]> (entries rl)) rl, false)
  else (set_entries (<[key := timestamps ++ [now]]> (entries rl)) rl, true).

Definition current_count (now : DateTime) (key : string) (rl : RateLimiter) : nat :=
  match entries rl !! key with
  | Some ts => length (live (now - window rl) ts)
  | None => 0
  end.

Definition would_allow (now : DateTime) (key : string) (rl : RateLimiter) : bool :=
  match entries rl !! key with
  | Some ts => (length (live (now - window rl) ts) <? max_per_window rl)%nat
  | None => true
  end.

(** [usize] arithmetic wraps at 64 bits. *)
Definition check_quarantine (node_ban_count median_ban_count : Z) : bool :=
  let threshold := if median_ban_count =? 0 then 10 else wrap 64 (median_ban_count * 10) in
  threshold <? node_ban_count.

(** [slice::sort] *)
Definition sort (values : list Z) : list Z := merge_sort (≤)%Z values.

Definition median (values : list Z) : Z :=
  match values with
  | [] => 0
  | _ =>
      let sorted := sort values in
      let mid := (length sorted / 2)%nat in
      let at_ i := default 0 (sorted !! i) in
      if (length sorted mod 2 =? 0)%nat then u64_add (at_ (mid - 1)%nat) (at_ mid) / 2 else at_ mid
  end.

(** ** Runs of the limiter *)
Record call : Type := { c_now : DateTime; c_cleanup : DateTime; c_key : string }.

(** The times at which a call about [key] was admitted. *)
Fixpoint admitted (key : string) (calls : list call) (rl : RateLimiter) : RateLimiter * list DateTime :=
  match calls with
  | [] => (rl, [])
  | c :: calls' =>
      let '(rl1, ok) := check_and_record (c_now c) (c_cleanup c) (c_key c) rl in
      let '(rl2, ts) := admitted key calls' rl1 in
      (rl2, if ok && bool_decide (c_key c = key) then c_now c :: ts else ts)
  end.

(** The clock does not go back. *)
Fixpoint clock_ok (t : DateTime) (calls : list call) : Prop :=
  match calls with
  | [] => True
  | c :: calls' => t <= c_now c <= c_cleanup c /\ clock_ok (c_cleanup c) calls'
  end.

Definition in_window (w : Duration) (t : DateTime) (ts : list DateTime) : nat :=
  length (List.filter (fun x => (t - w <? x) && (x <=? t)) ts).

Lemma live_app (c : DateTime) (l k : list DateTime) : live c (l ++ k) = live c l ++ live c k.
Proof. apply List.filter_app. Qed.

Lemma live_live (c c' : DateTime) (l : list DateTime) : c <= c' -> live c' (live c l) = live c' l.
Proof.
  intros Hc. induction l as [|x l IH]; simpl; [done|].
  destruct (Z.ltb_spec c x), (Z.ltb_spec c' x); simpl; rewrite ?IH; try done; try lia;
    destruct (Z.ltb_spec c' x); (done || lia).
Qed.

(** [acc] agrees with what the limiter remembers of [key], from time [t] on. *)
Definition remembers (key : string) (t : DateTime) (acc : list DateTime) (rl : RateLimiter) : Prop :=
  Forall (fun x => x <= t) acc /\
  forall c, t - window rl <= c -> live c (default [] (entries rl !! key)) = live c acc.

Lemma remembers_later (key : string) (t t' : DateTime) (acc : list DateTime) (rl : RateLimiter) :
  t <= t' -> remembers key t acc rl -> remembers key t' acc rl.
Proof.
  intros Ht [Hf Hr]. split; [|intros c Hc; apply Hr; lia].
  eapply Forall_impl; [exact Hf|]. simpl. lia.
Qed.

Lemma cleanup_lookup (now : DateTime) (rl : RateLimiter) (key : string) :
  default [] (entries (cleanup now rl) !! key) = live (now - window rl) (default [] (entries rl !! key)).
Proof.
  unfold cleanup; simpl. rewrite lookup_omap. destruct (entries rl !! key) as [ts|]; simpl; [|done].
  by destruct (live _ ts).
Qed.

Lemma remembers_cleanup (key : string) (t now : DateTime) (acc : list DateTime) (rl : RateLimiter) :
  t <= now -> remembers key t acc rl -> remembers key now acc (cleanup now rl).
Proof.
  intros Ht Hr. destruct (remembers_later _ _ _ _ _ Ht Hr) as [Hf Hl]. split; [done|].
  intros c Hc. rewrite cleanup_lookup. simpl in Hc. rewrite live_live by lia. by apply Hl.
Qed.

Lemma in_window_le_live (w : Duration) (t now : DateTime) (acc : list DateTime) :
  now <= t -> (in_window w t acc <= length (live (now - w) acc))%nat.
Proof.
  intros Ht. unfold in_window, live. induction acc as [|x acc IH]; simpl; [lia|].
  destruct (Z.ltb_spec (t - w) x), (Z.leb_spec x t), (Z.ltb_spec (now - w) x); simpl; lia.
Qed.

Lemma in_window_app (w : Duration) (t : DateTime) (l k : list DateTime) :
  in_window w t (l ++ k) = (in_window w t l + in_window w t k)%nat.
Proof. unfold in_window. by rewrite List.filter_app, length_app. Qed.

(** One call: the record of accepted times stays exact and within the limit. *)
Lemma check_and_record_spec (key : string) (t : DateTime) (acc : list DateTime) (c : call) (rl : RateLimiter) :
  remembers key t acc rl -> t <= c_now c <= c_cleanup c ->
  (forall T, (in_window (window rl) T acc <= max_per_window rl)%nat) ->
  let '(rl', ok) := check_and_record (c_now c) (c_cleanup c) (c_key c) rl in
  let acc' := if ok && bool_decide (c_key c = key) then acc ++ [c_now c] else acc in
  remembers key (c_cleanup c) acc' rl' /\ window rl' = window rl /\ max_per_window rl' = max_per_window rl /\
  forall T, (in_window (window rl) T acc' <= max_per_window rl)%nat.
Proof.
  intros Hr Ht Hw. destruct c as [now nowc k]; simpl in *. unfold check_and_record; cbv zeta.
  set (full := bool_decide (entries rl !! _ = None) && _). set (rl1 := if full then cleanup nowc rl else rl).
  assert (Hr1 : remembers key nowc acc rl1).
  { subst rl1. destruct full; [apply (remembers_cleanup _ t); [lia|done]|apply (remembers_later _ t); [lia|done]]. }
  assert (Hpar : window rl1 = window rl /\ max_per_window rl1 = max_per_window rl)
    by (subst rl1; by destruct full).
  destruct Hpar as [Hwin Hmax]. rewrite Hmax.
  destruct (full && _) eqn:Hrej; [by simpl|].
  (** The key's own list: exact at the earlier reading [now] too *)
  assert (Hown : k = key -> live (now - window rl) (default [] (entries rl1 !! k)) = live (now - window rl) acc).
  { intros ->. destruct Hr as [Hf Hl]. subst rl1. destruct full eqn:Hfull; [|apply Hl; lia].
    assert (Hn : entries rl !! key = None) by (unfold full in Hfull; by breflect).
    rewrite cleanup_lookup, Hn. simpl. specialize (Hl (now - window rl) ltac:(lia)). by rewrite Hn in Hl. }
  assert (Hother : forall l, k <> key -> remembers key nowc acc (set_entries (<[k := l]> (entries rl1)) rl1)).
  { intros l Hne. destruct Hr1 as [Hf Hl]. split; [done|]. simpl. by rewrite lookup_insert_ne. }
  set (ts := live (now - window rl) (default [] (entries rl1 !! k))) in *.
  destruct (Nat.leb_spec (max_per_window rl) (length ts)) as [Hge|Hlt]; simpl.
  - split_and!; try done. destruct (decide (k = key)) as [->|Hne]; [|by apply Hother].
    destruct Hr1 as [Hf Hl]. split; [done|]. simpl. rewrite lookup_insert_eq. simpl. intros c Hc.
    rewrite Hown by done. apply live_live. lia.
  - destruct (bool_decide_reflect (k = key)) as [->|Hne]; [|by split_and!; [apply Hother|..]].
    specialize (Hown eq_refl). split_and!; try done.
    + destruct Hr1 as [Hf _]. split.
      * apply Forall_app. split; [done|]. constructor; [lia|done].
      * simpl. rewrite lookup_insert_eq. simpl. intros c Hc. rewrite !live_app, Hown.
        f_equal. apply live_live. lia.
    + intros T. rewrite in_window_app. unfold in_window at 2. simpl.
      destruct (Z.leb_spec now T) as [HT|HT].
      * pose proof (in_window_le_live (window rl) T now acc HT) as Hle. rewrite <- Hown in Hle.
        destruct (_ <? now); simpl; lia.
      * rewrite andb_false_r. simpl. specialize (Hw T). lia.
Qed.

Lemma admitted_spec (key : string) (calls : list call) (t : DateTime) (acc : list DateTime) (rl : RateLimiter) :
  remembers key t acc rl -> clock_ok t calls ->
  (forall T, (in_window (window rl) T acc <= max_per_window rl)%nat) ->
  forall T, (in_window (window rl) T (acc ++ (admitted key calls rl).2) <= max_per_window rl)%nat.
Proof.
  revert t acc rl. induction calls as [|c calls IH]; intros t acc rl Hr Hc Hw T; simpl.
  { by rewrite app_nil_r. }
  destruct Hc as [Hc Hcs]. pose proof (check_and_record_spec key t acc c rl Hr Hc Hw) as Hs.
  destruct (check_and_record _ _ _ rl) as [rl1 ok]. destruct Hs as (Hr1 & Hwin & Hmax & Hw1).
  rewrite <- Hwin, <- Hmax in Hw1. specialize (IH _ _ rl1 Hr1 Hcs Hw1 T). rewrite Hwin, Hmax in IH.
  destruct (admitted key calls rl1) as [rl2 ts]. simpl in *.
  destruct (ok && _); [|done]. by rewrite <- app_assoc in IH.
Qed.

(** C25: The rate limit holds. Over any sequence of calls about any keys, with a
    clock that does not go back and with the limiter cleaning up and dropping
    keys under memory pressure, no window of the configured length contains
    more than [max_per_window] admitted entries of one key. *)
Theorem rate_limit_enforced (max : nat) (w : Duration) (key : string) (calls : list call)
  (t T : DateTime) (Hc : clock_ok t calls) :
  (in_window w T (admitted key calls (limiter_new max w)).2 <= max)%nat.
Proof.
  apply (admitted_spec key calls t [] (limiter_new max w)); [|done|].
  - split; [done|]. intros c _. simpl. by rewrite lookup_empty.
  - intros ?. unfold in_window. simpl. lia.
Qed.

(** ** Memory bound *)
Definition bounded (rl : RateLimiter) : Prop :=
  (size (entries rl) <= max_keys rl)%nat /\
  forall key ts, entries rl !! key = Some ts -> (length ts <= max_per_window rl)%nat.

Lemma live_length (c : DateTime) (l : list DateTime) : (length (live c l) <= length l)%nat.
Proof. apply List.filter_length_le. Qed.

Lemma cleanup_bounded (now : DateTime) (rl : RateLimiter) :
  bounded rl -> bounded (cleanup now rl).
Proof.
  intros [Hs Hl]. split.
  - unfold cleanup; simpl. etrans; [|exact Hs]. rewrite <- !size_dom.
    apply subseteq_size. intros k. rewrite !elem_of_dom. intros [x Hx].
    rewrite lookup_omap in Hx. destruct (entries rl !! k); [by eexists|done].
  - unfold cleanup; simpl. intros key ts Hk. rewrite lookup_omap in Hk.
    destruct (entries rl !! key) as [l|] eqn:E; simpl in Hk; [|done].
    pose proof (live_length (now - window rl) l). specialize (Hl key l E).
    destruct (live _ l) eqn:El; simplify_eq. simpl in *. lia.
Qed.

Lemma check_bounded (now nowc : DateTime) (key : string) (rl : RateLimiter) :
  bounded rl -> bounded (check_and_record now nowc key rl).1 /\
    max_keys (check_and_record now nowc key rl).1 = max_keys rl /\
    max_per_window (check_and_record now nowc key rl).1 = max_per_window rl.
Proof.
  intros Hb. unfold check_and_record; cbv zeta. set (full := bool_decide (entries rl !! _ = None) && _).
  set (rl1 := if full then cleanup nowc rl else rl).
  assert (Hb1 : bounded rl1) by (subst rl1; destruct full; auto using cleanup_bounded).
  assert (Hpar : max_keys rl1 = max_keys rl /\ max_per_window rl1 = max_per_window rl)
    by (subst rl1; by destruct full).
  assert (Hsame : full = false -> rl1 = rl) by (subst rl1; by intros ->). clearbody rl1.
  destruct (full && _) eqn:Hrej; [done|].
  assert (Hroom : forall l, (size (<[key := l]> (entries rl1)) <= max_keys rl1)%nat).
  { intros l. destruct Hb1 as [Hs _]. destruct (entries rl1 !! key) eqn:E.
    - rewrite map_size_insert_Some; [done|by rewrite E].
    - rewrite map_size_insert_None by done. destruct full eqn:Hfull; simpl in Hrej.
      + apply Nat.leb_gt in Hrej. lia.
      + rewrite (Hsame eq_refl) in *. unfold full in Hfull. rewrite E in Hfull. rewrite bool_decide_true in Hfull by done.
        simpl in Hfull. apply Nat.leb_gt in Hfull. lia. }
  destruct Hb1 as [Hs Hl]. set (ts := live _ _).
  destruct (Nat.leb_spec (max_per_window rl1) (length ts)) as [Hge|Hlt]; simpl; (split; [|done]).
  - split; simpl; [apply Hroom|]. intros k' l' Hk'.
    apply lookup_insert_Some in Hk' as [[<- <-]|[_ Hk']]; [|eauto].
    unfold ts. destruct (entries rl1 !! key) as [l|] eqn:E; simpl; [|lia].
    pose proof (live_length (now - window rl) l). specialize (Hl key l E). lia.
  - split; simpl; [apply Hroom|]. intros k' l' Hk'.
    apply lookup_insert_Some in Hk' as [[<- <-]|[_ Hk']]; [|eauto]. rewrite length_app. simpl. lia.
Qed.

(** The limiter's memory is bounded: however many peers call it, it never
    tracks more than [DEFAULT_MAX_KEYS] keys nor more than [max_per_window]
    timestamps for one of them. *)
Theorem limiter_memory_bounded (max : nat) (w : Duration) (key : string) (calls : list call) :
  bounded (admitted key calls (limiter_new max w)).1 /\
  max_keys (admitted key calls (limiter_new max w)).1 = DEFAULT_MAX_KEYS /\
  max_per_window (admitted key calls (limiter_new max w)).1 = max.
Proof.
  assert (Hb : bounded (limiter_new max w))
    by (split; simpl; [rewrite map_size_empty; lia|intros k ts; by rewrite lookup_empty]).
  assert (Hk : max_keys (limiter_new max w) = DEFAULT_MAX_KEYS) by done.
  assert (Hm : max_per_window (limiter_new max w) = max) by done.
  revert Hb Hk Hm. generalize (limiter_new max w) as rl.
  induction calls as [|c calls IH]; intros rl Hb Hk Hm; simpl; [done|].
  destruct (check_bounded (c_now c) (c_cleanup c) (c_key c) rl Hb) as (Hb1 & Hk1 & Hm1).
  destruct (check_and_record _ _ _ rl) as [rl1 ok]. simpl in *.
  specialize (IH rl1 Hb1 ltac:(congruence) ltac:(congruence)).
  by destruct (admitted key calls rl1) as [rl2 ts].
Qed.

(** ** The median *)
Definition at_most (m : Z) (values : list Z) : nat := length (List.filter (fun v => v <=? m) values).
Definition at_least (m : Z) (values : list Z) : nat := length (List.filter (fun v => m <=? v) values).

Lemma filter_length_perm (f : Z -> bool) (l k : list Z) :
  l ≡ₚ k -> length (List.filter f l) = length (List.filter f k).
Proof. induction 1 as [|x l k _ IH|x y l|l k j _ IH1 _ IH2]; simpl; repeat case_match; simpl; lia. Qed.

Lemma sorted_lookup (l : list Z) (i j : nat) (x y : Z) :
  StronglySorted (≤)%Z l -> (i <= j)%nat -> l !! i = Some x -> l !! j = Some y -> x <= y.
Proof.
  intros Hs. revert i j. induction Hs as [|z l _ IH Hf]; intros i j Hij Hi Hj; [done|].
  destruct i as [|i], j as [|j]; simpl in *; simplify_eq; [done| |lia|].
  - rewrite Forall_forall in Hf. apply Hf. by eapply list_elem_of_lookup_2.
  - eapply IH; [|done..]. lia.
Qed.

(** In a sorted list the elements up to index [i] are at most any bound of
    the [i]-th, and those from [i] on at least any lower bound of it. *)
Lemma sorted_at_most (l : list Z) (i : nat) (x m : Z) :
  StronglySorted (≤)%Z l -> l !! i = Some x -> x <= m -> (S i <= at_most m l)%nat.
Proof.
  intros Hs Hi Hm. rewrite <- (take_drop (S i) l). unfold at_most. rewrite List.filter_app, length_app.
  enough (length (List.filter (fun v => v <=? m) (take (S i) l)) = S i) by lia.
  rewrite (List.forallb_filter_id _ _).
  - rewrite length_take. apply lookup_lt_Some in Hi. lia.
  - apply List.forallb_forall. intros v Hv%list_elem_of_In. apply list_elem_of_lookup in Hv as [j Hj].
    apply lookup_take_Some in Hj as [Hj Hlt]. apply Z.leb_le.
    pose proof (sorted_lookup l j i v x Hs ltac:(lia) Hj Hi). lia.
Qed.

Lemma sorted_at_least (l : list Z) (i : nat) (x m : Z) :
  StronglySorted (≤)%Z l -> l !! i = Some x -> m <= x -> (length l - i <= at_least m l)%nat.
Proof.
  intros Hs Hi Hm. rewrite <- (take_drop i l) at 2. unfold at_least. rewrite List.filter_app, length_app.
  enough (length (List.filter (fun v => (m <=? v)%Z) (drop i l)) = length l - i)%nat by lia.
  rewrite (List.forallb_filter_id _ _); [by rewrite length_drop|].
  apply List.forallb_forall. intros v Hv%list_elem_of_In. apply list_elem_of_lookup in Hv as [j Hj].
  rewrite lookup_drop in Hj. apply Z.leb_le.
  pose proof (sorted_lookup l i (i + j) x v Hs ltac:(lia) Hi Hj). lia.
Qed.

Lemma sort_spec (l : list Z) : StronglySorted (≤)%Z (sort l) /\ sort l ≡ₚ l.
Proof. split; [apply (StronglySorted_merge_sort _)|apply merge_sort_Permutation]. Qed.

(** The median lies between the two middle elements. *)
Lemma median_between (values : list Z) :
  values <> [] -> Forall (fun v => 0 <= v < 2 ^ 63) values ->
  exists lo hi x y, sort values !! lo = Some x /\ sort values !! hi = Some y /\
    x <= median values <= y /\ (length values <= 2 * S lo)%nat /\ (2 * hi <= length values)%nat.
Proof.
  intros Hne Hr. destruct (sort_spec values) as [Hs Hp].
  assert (Hlen : length (sort values) = length values) by by apply Permutation_length.
  assert (Hpos : (0 < length values)%nat) by (destruct values; simpl; [done|lia]).
  assert (Hlk : forall i, (i < length values)%nat -> exists x, sort values !! i = Some x /\ 0 <= x < 2 ^ 63).
  { intros i Hi. destruct (lookup_lt_is_Some_2 (sort values) i ltac:(lia)) as [x Hx].
    exists x. split; [done|]. rewrite Forall_forall in Hr. apply Hr.
    rewrite <- Hp. by eapply list_elem_of_lookup_2. }
  unfold median. destruct values as [|v vs] eqn:Ev; [done|]. rewrite <- Ev in *. rewrite Hlen.
  set (n := length values) in *. pose proof (Nat.div_mod_eq n 2) as Hdm.
  pose proof (Nat.mod_upper_bound n 2 ltac:(lia)) as Hmod.
  destruct (Nat.eqb_spec (n mod 2) 0) as [He|Ho].
  - destruct (Hlk (n / 2 - 1)%nat ltac:(lia)) as (x & Hx & Hxr).
    destruct (Hlk (n / 2)%nat ltac:(lia)) as (y & Hy & Hyr).
    exists (n / 2 - 1)%nat, (n / 2)%nat, x, y. rewrite Hx, Hy. cbn [default from_option id].
    pose proof (sorted_lookup _ (n / 2 - 1)%nat (n / 2)%nat x y Hs ltac:(lia) Hx Hy).
    unfold u64_add. rewrite wrap_small by (unfold in_width; lia).
    split_and!; [done..|apply Z.div_le_lower_bound; lia|apply Z.div_le_upper_bound; lia|lia|lia].
  - destruct (Hlk (n / 2)%nat ltac:(lia)) as (x & Hx & _).
    exists (n / 2)%nat, (n / 2)%nat, x, x. rewrite Hx. cbn [default from_option id]. split_and!; (done || lia).
Qed.

(** [median] is a median: at least half of the values are at most it, at
    least half are at least it, and the order of the values is irrelevant. *)
Theorem median_splits (values values' : list Z) (Hne : values <> [])
  (Hr : Forall (fun v => 0 <= v < 2 ^ 63) values) (Hp : values' ≡ₚ values) :
  (length values <= 2 * at_most (median values) values)%nat /\
  (length values <= 2 * at_least (median values) values)%nat /\
  median values' = median values.
Proof.
  destruct (sort_spec values) as [Hs Hps].
  destruct (median_between values Hne Hr) as (lo & hi & x & y & Hx & Hy & Hm & Hlo & Hhi).
  pose proof (sorted_at_most _ _ _ (median values) Hs Hx ltac:(lia)) as H1.
  pose proof (sorted_at_least _ _ _ (median values) Hs Hy ltac:(lia)) as H2.
  unfold at_most, at_least in *. rewrite (filter_length_perm _ _ _ Hps) in H1. rewrite (filter_length_perm _ _ _ Hps) in H2.
  apply Permutation_length in Hps as Hl. split_and!; [lia|lia|].
  assert (Hsort : sort values' = sort values).
  { apply (StronglySorted_unique (≤)%Z); [apply sort_spec|done|].
    destruct (sort_spec values') as [_ ->]. by rewrite Hps. }
  unfold median. destruct values as [|v vs]; [done|].
  destruct values' as [|v' vs']; [by apply Permutation_nil_cons in Hp|]. by rewrite Hsort.
Qed.

(** Quarantine judges outliers only: measured against the median of the
    whole cluster, at most half of the nodes can be quarantined at once. *)
Theorem quarantine_minority (values : list Z) (Hne : values <> [])
  (Hr : Forall (fun v => 0 <= v < 2 ^ 60) values) :
  (2 * length (List.filter (fun v => check_quarantine v (median values)) values) <= length values)%nat.
Proof.
  assert (Hr' : Forall (fun v => 0 <= v < 2 ^ 63) values)
    by (eapply Forall_impl; [exact Hr|simpl; lia]).
  destruct (sort_spec values) as [Hs Hps].
  destruct (median_between values Hne Hr') as (lo & hi & x & y & Hx & Hy & Hm & Hlo & Hhi).
  assert (0 <= x /\ y < 2 ^ 60) as [Hx0 Hy60].
  { rewrite Forall_forall in Hr. split; apply Hr; rewrite <- Hps; by eapply list_elem_of_lookup_2. }
  pose proof (sorted_at_most _ _ _ (median values) Hs Hx ltac:(lia)) as H1.
  unfold at_most in H1. rewrite (filter_length_perm _ _ _ Hps) in H1.
  set (m := median values) in *. clearbody m.
  assert (Hsum : forall l, (length (List.filter (fun v => check_quarantine v m) l) +
      length (List.filter (fun v => (v <=? m)%Z) l) <= length l)%nat).
  { induction l as [|v l IH]; simpl; [lia|].
    assert (check_quarantine v m = true -> (v <=? m) = false) as Hexcl.
    { unfold check_quarantine. intros Hq. destruct (Z.eqb_spec m 0).
      - breflect. apply Z.leb_gt. lia.
      - rewrite wrap_small in Hq by (unfold in_width; lia). breflect. apply Z.leb_gt. lia. }
    destruct (check_quarantine v m); [rewrite Hexcl by done|]; destruct (v <=? m); simpl; lia. }
  specialize (Hsum values). lia.
Qed.

(** ** Witnesses *)
Definition sample_calls : list call :=
  [{| c_now := 0; c_cleanup := 0; c_key := "p" |}; {| c_now := 3; c_cleanup := 3; c_key := "p" |};
   {| c_now := 5; c_cleanup := 5; c_key := "p" |}; {| c_now := 12; c_cleanup := 12; c_key := "p" |}].

Lemma rate_limit_enforced_witness :
  (in_window 10 5 (admitted "p" sample_calls (limiter_new 2 10)).2 <= 2)%nat.
Proof. apply (rate_limit_enforced 2 10 "p" sample_calls 0 5). vm_compute. repeat split; congruence. Defined.

Lemma median_splits_witness : median [9; 1; 4; 2] = median [1; 2; 4; 9].
Proof.
  refine (proj2 (proj2 (median_splits [1; 2; 4; 9] [9; 1; 4; 2] _ _ _))).
  - discriminate.
  - repeat constructor; lia.
  - apply (bool_decide_unpack _). vm_compute. exact I.
Defined.

Definition volumes : list Z := [1; 2; 3; 500].
Lemma quarantine_minority_witness :
  (2 * length (List.filter (fun v => check_quarantine v (median volumes)) volumes) <= length volumes)%nat.
Proof. apply (quarantine_minority volumes); [discriminate|repeat constructor; lia]. Defined.
