(* ===== verification/Floats.v ===== *)
(** * IEEE floating point

    [f32] and [f64] are the Standard Library's [spec_float] at their formats;
    this file has the operations the sources use and the rounding facts behind
    the bounds on scores. *)
From S2P Require Import Prelude.
From Stdlib Require Export SpecFloat.
Local Open Scope Z_scope.

(** ** Rounding, at any format *)
Section rounding.
Context (prec emax : Z).
Context (prec_gt : 1 < prec) (emax_gt : prec < emax).

Lemma digits_spec (m : positive) :
  2 ^ (Z.pos (digits2_pos m) - 1) <= Z.pos m < 2 ^ Z.pos (digits2_pos m).
Proof.
  assert (E : digits2_pos m = Pos.size m) by (induction m; simpl; congruence).
  rewrite E. pose proof (Pos.size_gt m) as Hgt. pose proof (Pos.size_le m) as Hle.
  apply Pos2Z.pos_lt_pos in Hgt. apply Pos2Z.pos_le_pos in Hle. rewrite Pos2Z.inj_pow in Hgt, Hle.
  change (Z.pos m~0) with (2 * Z.pos m) in Hle. split; [|done].
  apply (Z.mul_le_mono_pos_l _ _ 2); [lia|]. rewrite <- Z.pow_succ_r by lia.
  replace (Z.succ (Z.pos (Pos.size m) - 1)) with (Z.pos (Pos.size m)) by lia. lia.
Qed.

Lemma Zdigits_spec (m : Z) : 0 < m -> 2 ^ (Zdigits2 m - 1) <= m < 2 ^ Zdigits2 m.
Proof. destruct m as [|m|m]; try lia. intros _. apply digits_spec. Qed.

Lemma Zdigits_nonneg (m : Z) : 0 <= m -> 0 <= Zdigits2 m.
Proof. destruct m; simpl; lia. Qed.

(** Fewer than [k] bits exactly when below [2^k]. *)
Lemma Zdigits_le (m k : Z) : 0 <= m -> 0 <= k -> m < 2 ^ k -> Zdigits2 m <= k.
Proof.
  intros Hm Hk Hlt. destruct (decide (m = 0)) as [->|Hne]; [simpl; lia|].
  destruct (Zdigits_spec m ltac:(lia)) as [Hlo _].
  destruct (decide (Zdigits2 m <= k)); [done|]. exfalso.
  assert (2 ^ k <= 2 ^ (Zdigits2 m - 1)) by (apply Z.pow_le_mono_r; lia). lia.
Qed.

Lemma Zdigits_lt_pow (m : Z) : 0 <= m -> m < 2 ^ Zdigits2 m.
Proof. intros Hm. destruct (decide (m = 0)) as [->|]; [simpl; lia|]. apply Zdigits_spec. lia. Qed.

Lemma shr_1_m (mrs : shr_record) : 0 <= shr_m mrs -> shr_m (shr_1 mrs) = shr_m mrs / 2.
Proof.
  destruct mrs as [[|[p|p|]|p] r s]; simpl; intros Hm; try lia; try done.
  - rewrite <- Z.div2_div. done.
  - rewrite <- Z.div2_div. done.
Qed.

Lemma iter_shr_m (n : positive) (mrs : shr_record) :
  0 <= shr_m mrs -> shr_m (iter_pos shr_1 n mrs) = shr_m mrs / 2 ^ Z.pos n.
Proof.
  revert mrs. induction n as [n IH|n IH|]; intros mrs Hm; cbn [iter_pos].
  - assert (0 <= shr_m (shr_1 mrs)) by (rewrite shr_1_m by done; apply Z.div_pos; lia).
    rewrite IH, IH; [|done|rewrite IH by done; apply Z.div_pos; lia].
    rewrite shr_1_m by done. rewrite !Z.div_div by lia. f_equal.
    rewrite (Pos2Z.inj_xI n). rewrite Z.pow_add_r, Z.pow_1_r by lia. rewrite Z.pow_twice_r. lia.
  - rewrite IH, IH; [|done|rewrite IH by done; apply Z.div_pos; lia].
    rewrite Z.div_div by lia. f_equal. rewrite (Pos2Z.inj_xO n), Z.pow_twice_r. lia.
  - by apply shr_1_m.
Qed.

Lemma shr_fexp_m (m e : Z) (l : location) : 0 <= m ->
  let '(mrs, e') := shr_fexp prec emax m e l in
  e' = Z.max e (fexp prec emax (Zdigits2 m + e)) /\ shr_m mrs = m / 2 ^ (e' - e).
Proof.
  intros Hm. unfold shr_fexp, shr.
  assert (E : shr_m (shr_record_of_loc m l) = m) by by destruct l as [|[]].
  destruct (fexp prec emax (Zdigits2 m + e) - e) as [|n|n] eqn:En.
  - split; [lia|]. by rewrite Z.sub_diag, Z.div_1_r.
  - split; [lia|]. rewrite iter_shr_m by by rewrite E. rewrite E. f_equal. f_equal. lia.
  - split; [lia|]. by rewrite Z.sub_diag, Z.div_1_r.
Qed.


Lemma round_nearest_le (m : Z) (l : location) : m <= round_nearest_even m l <= m + 1.
Proof. unfold round_nearest_even. destruct l as [|[]]; try lia. destruct (Z.even m); lia. Qed.

(** One shift leaves at most [prec] bits. *)
Lemma shr_fexp_bits (m e : Z) (l : location) : 0 <= m ->
  let '(mrs, e') := shr_fexp prec emax m e l in
  0 <= shr_m mrs < 2 ^ prec /\ emin prec emax <= e' /\ e <= e'.
Proof using prec_gt.
  intros Hm. pose proof (shr_fexp_m m e l Hm) as Hs.
  destruct (shr_fexp prec emax m e l) as [mrs e']. destruct Hs as [He ->].
  unfold fexp in He. split_and!; [apply Z.div_pos; lia| |lia|lia].
  apply Z.div_lt_upper_bound; [lia|]. rewrite <- Z.pow_add_r by lia.
  eapply Z.lt_le_trans; [by apply Zdigits_lt_pow|]. apply Z.pow_le_mono_r; lia.
Qed.

(** The result of rounding: sign kept, at most [prec] bits, and a value at
    most one when the exact value is. *)
Lemma round_bounds (sx : bool) (m e : Z) (l : location) : 0 <= m ->
  match binary_round_aux prec emax sx m e l with
  | S754_zero s => s = sx
  | S754_infinity s => s = sx /\ ~ (e <= - prec /\ Zdigits2 m + e <= 0)
  | S754_nan => False
  | S754_finite s m' e' => s = sx /\ Z.pos m' < 2 ^ prec /\
      (e <= - prec -> Zdigits2 m + e <= 0 ->
       e' < 1 - prec \/ e' = 1 - prec /\ Z.pos m' <= 2 ^ (prec - 1))
  end.
Proof using prec_gt emax_gt.
  intros Hm. unfold binary_round_aux.
  pose proof (shr_fexp_m m e l Hm) as H1. pose proof (shr_fexp_bits m e l Hm) as B1.
  destruct (shr_fexp prec emax m e l) as [mrs1 e1]. destruct H1 as [He1 Hm1], B1 as (Hr1 & Hmin & _).
  set (r1 := round_nearest_even _ _).
  assert (Hrn : shr_m mrs1 <= r1 <= shr_m mrs1 + 1) by apply round_nearest_le.
  pose proof (shr_fexp_m r1 e1 loc_Exact ltac:(lia)) as H2.
  pose proof (shr_fexp_bits r1 e1 loc_Exact ltac:(lia)) as B2.
  destruct (shr_fexp prec emax r1 e1 loc_Exact) as [mrs2 e2]. destruct H2 as [He2 Hm2], B2 as (Hr2 & _ & _).
  assert (Hunit : e <= - prec -> Zdigits2 m + e <= 0 ->
    e2 < 1 - prec \/ e2 = 1 - prec /\ shr_m mrs2 <= 2 ^ (prec - 1)).
  { intros Hlow Hunit. assert (Hle1 : e1 <= - prec) by (unfold fexp, emin in He1; lia).
    destruct (decide (r1 = 2 ^ prec)) as [Htop|Hbelow].
    - assert (Hd : Zdigits2 r1 <= prec + 1).
      { apply Zdigits_le; [lia|lia|]. rewrite Htop. apply Z.pow_lt_mono_r; lia. }
      assert (e2 <= e1 + 1) by (unfold fexp in He2; lia).
      destruct (decide (e2 < 1 - prec)); [by left|]. right. split; [lia|].
      rewrite Hm2, Htop. replace (e2 - e1) with 1 by lia. rewrite Z.pow_1_r.
      replace prec with (Z.succ (prec - 1)) at 1 by lia. rewrite Z.pow_succ_r, Z.mul_comm by lia.
      by rewrite Z.div_mul.
    - assert (Hd : Zdigits2 r1 <= prec) by (apply Zdigits_le; lia).
      left. unfold fexp in He2. lia. }
  destruct (shr_m mrs2) as [|m2|m2] eqn:Em2; [done| |lia].
  destruct (Z.leb_spec e2 (emax - prec)) as [_|Hbig]; [split_and!; [done|lia|done]|]. split; [done|].
  intros [Hlow Hu]. destruct (Hunit Hlow Hu); lia.
Qed.

(** ** Rounding against a bound

    Rounding never crosses a representable number. [vle m e n f] compares
    [m * 2^e] with [n * 2^f] without fractions. *)
Definition vle (m e n f : Z) : Prop :=
  m * 2 ^ (e - Z.min e f) <= n * 2 ^ (f - Z.min e f).

Lemma vle_base (b m e n f : Z) : b <= e -> b <= f ->
  vle m e n f <-> m * 2 ^ (e - b) <= n * 2 ^ (f - b).
Proof.
  intros He Hf. unfold vle. set (k := Z.min e f).
  replace (e - b) with (e - k + (k - b)) by lia. replace (f - b) with (f - k + (k - b)) by lia.
  rewrite !Z.pow_add_r, !Z.mul_assoc by lia. apply Z.mul_le_mono_pos_r. apply Z.pow_pos_nonneg; lia.
Qed.

Lemma iter_shr_exact (n : positive) (q : Z) : 0 <= q ->
  iter_pos shr_1 n {| shr_m := q * 2 ^ Z.pos n; shr_r := false; shr_s := false |}
  = {| shr_m := q; shr_r := false; shr_s := false |}.
Proof.
  assert (H1 : forall q, 0 <= q ->
    shr_1 {| shr_m := q * 2; shr_r := false; shr_s := false |} = {| shr_m := q; shr_r := false; shr_s := false |}).
  { clear. intros [|p|p]; try done. intros _. by rewrite Z.mul_comm. }
  revert q. induction n as [n IH|n IH|]; intros q Hq; cbn [iter_pos].
  - replace (q * 2 ^ Z.pos n~1) with (q * 2 ^ Z.pos n * 2 ^ Z.pos n * 2)
      by (rewrite (Pos2Z.inj_xI n), (Z.pow_add_r 2), Z.pow_twice_r by lia; lia).
    by rewrite H1, !IH by lia.
  - replace (q * 2 ^ Z.pos n~0) with (q * 2 ^ Z.pos n * 2 ^ Z.pos n)
      by (rewrite (Pos2Z.inj_xO n), Z.pow_twice_r; lia).
    by rewrite !IH by lia.
  - by apply H1.
Qed.

(** The first shift rounds up only what it cut off. *)
Lemma shr_round (m e : Z) : 0 <= m ->
  let '(mrs, e') := shr_fexp prec emax m e loc_Exact in
  let r := round_nearest_even (shr_m mrs) (loc_of_shr_record mrs) in
  r * 2 ^ (e' - e) <= m \/
  e < e' /\ shr_m mrs * 2 ^ (e' - e) < m /\ r <= shr_m mrs + 1.
Proof.
  intros Hm. unfold shr_fexp, shr. destruct (_ - e) as [|n|n] eqn:En; cbn [shr_record_of_loc shr_m loc_of_shr_record].
  1, 3: left; rewrite Z.sub_diag; simpl; lia.
  replace (e + Z.pos n - e) with (Z.pos n) by lia.
  pose proof (iter_shr_m n {| shr_m := m; shr_r := false; shr_s := false |} Hm) as Hq. simpl in Hq.
  pose proof (Z.div_mod m (2 ^ Z.pos n) ltac:(lia)) as Hd. pose proof (Z.mod_pos_bound m (2 ^ Z.pos n) ltac:(lia)).
  destruct (decide (m mod 2 ^ Z.pos n = 0)) as [E|E].
  - left. replace m with (m / 2 ^ Z.pos n * 2 ^ Z.pos n) at 1 2 by lia.
    rewrite iter_shr_exact by (apply Z.div_pos; lia). simpl. lia.
  - right. rewrite Hq. split_and!; [lia|lia|]. apply round_nearest_le.
Qed.

(** Nothing with [prec] bits above the bound's last place is below the bound. *)
Lemma too_big (n f b x k : Z) :
  n < 2 ^ prec -> b <= f -> f < k -> 2 ^ (prec - 1) <= x -> n * 2 ^ (f - b) < x * 2 ^ (k - b).
Proof using prec_gt.
  intros Hn Hb Hk Hx. eapply Z.lt_le_trans with (m := 2 ^ prec * 2 ^ (f - b)).
  { apply Z.mul_lt_mono_pos_r; [apply Z.pow_pos_nonneg; lia|done]. }
  transitivity (2 ^ (prec - 1) * 2 ^ (k - b)).
  - rewrite <- !Z.pow_add_r by lia. apply Z.pow_le_mono_r; lia.
  - apply Z.mul_le_mono_nonneg_r; [apply Z.pow_nonneg; lia|done].
Qed.

Lemma div_scale (m e k b : Z) : b <= e -> e <= k -> m / 2 ^ (k - e) * 2 ^ (k - b) <= m * 2 ^ (e - b).
Proof.
  intros Hb Hk. replace (k - b) with (k - e + (e - b)) by lia. rewrite Z.pow_add_r, Z.mul_assoc by lia.
  apply Z.mul_le_mono_nonneg_r; [apply Z.pow_nonneg; lia|]. rewrite Z.mul_comm. apply Z.mul_div_le.
  apply Z.pow_pos_nonneg; lia.
Qed.

Lemma shifted_normal (m e k : Z) :
  0 < m -> e <= k -> k = Zdigits2 m + e - prec -> 2 ^ (prec - 1) <= m / 2 ^ (k - e).
Proof using prec_gt.
  intros Hm He Hk. destruct (Zdigits_spec m Hm) as [Hlo _].
  apply Z.div_le_lower_bound; [apply Z.pow_pos_nonneg; lia|]. rewrite <- Z.pow_add_r by lia.
  by replace (k - e + (prec - 1)) with (Zdigits2 m - 1) by lia.
Qed.

(** Rounding to the result's last place stays below the bound. *)
Lemma first_round_below (b m e n f : Z) :
  0 < m -> b <= e -> b <= f -> emin prec emax <= f -> n < 2 ^ prec -> m * 2 ^ (e - b) <= n * 2 ^ (f - b) ->
  let '(mrs, e') := shr_fexp prec emax m e loc_Exact in
  round_nearest_even (shr_m mrs) (loc_of_shr_record mrs) * 2 ^ (e' - b) <= n * 2 ^ (f - b) /\
  (e < e' -> emin prec emax < e' -> e' <= f).
Proof using prec_gt.
  intros Hm Hbe Hbf Hmin Hn Hle. pose proof (shr_fexp_m m e loc_Exact ltac:(lia)) as H1.
  pose proof (shr_round m e ltac:(lia)) as R1. pose proof (shr_fexp_bits m e loc_Exact ltac:(lia)) as B1.
  destruct (shr_fexp prec emax m e loc_Exact) as [mrs e']. destruct H1 as [He' Hm'], B1 as (_ & Hmin' & Hee).
  cbv zeta in R1. set (r := round_nearest_even _ _) in *.
  assert (Hcap : e < e' -> emin prec emax < e' -> e' <= f).
  { intros Hlt Hmn. destruct (decide (e' <= f)) as [|Hfe]; [done|]. exfalso.
    pose proof (shifted_normal m e e' Hm Hee ltac:(unfold fexp in He'; lia)) as Hx.
    pose proof (too_big n f b _ e' Hn Hbf ltac:(lia) Hx). pose proof (div_scale m e e' b Hbe Hee). lia. }
  split; [|done]. destruct R1 as [R1|(Hlt & Hcut & Hup)].
  - etransitivity; [|exact Hle]. replace (e' - b) with (e' - e + (e - b)) by lia.
    rewrite Z.pow_add_r, Z.mul_assoc by lia. apply Z.mul_le_mono_nonneg_r; [apply Z.pow_nonneg; lia|done].
  - assert (Hfe : e' <= f) by (destruct (decide (emin prec emax < e')); [by apply Hcap|lia]).
    replace (f - b) with (f - e' + (e' - b)) in * by lia. rewrite Z.pow_add_r, Z.mul_assoc in * by lia.
    apply Z.mul_le_mono_nonneg_r; [apply Z.pow_nonneg; lia|].
    assert (shr_m mrs < n * 2 ^ (f - e')); [|lia].
    apply (Z.mul_lt_mono_pos_r (2 ^ (e' - b))); [apply Z.pow_pos_nonneg; lia|].
    eapply Z.lt_le_trans; [|exact Hle]. replace (e' - b) with (e' - e + (e - b)) by lia.
    rewrite Z.pow_add_r, Z.mul_assoc by lia. apply Z.mul_lt_mono_pos_r; [apply Z.pow_pos_nonneg; lia|done].
Qed.

Lemma round_below (m e n f : Z) :
  0 < m -> e <= emax - prec -> emin prec emax <= f <= emax - prec -> 0 < n < 2 ^ prec -> vle m e n f ->
  match binary_round_aux prec emax false m e loc_Exact with
  | S754_zero false => True
  | S754_finite false m' e' => vle (Z.pos m') e' n f /\ e <= e'
  | _ => False
  end.
Proof using prec_gt emax_gt.
  intros Hm He Hf Hn Hle. remember (Z.min e f) as b eqn:Eb. rewrite (vle_base b) in Hle by lia.
  unfold binary_round_aux. pose proof (first_round_below b m e n f Hm ltac:(lia) ltac:(lia) ltac:(lia) ltac:(lia) Hle) as H1.
  pose proof (shr_fexp_bits m e loc_Exact ltac:(lia)) as B1. pose proof (shr_fexp_m m e loc_Exact ltac:(lia)) as F1.
  destruct (shr_fexp prec emax m e loc_Exact) as [mrs1 e1]. destruct H1 as [HA Hcap], B1 as (Hr1 & Hmin & Hee), F1 as [He1 _].
  set (r1 := round_nearest_even _ _) in *.
  assert (Hrn : shr_m mrs1 <= r1 <= shr_m mrs1 + 1) by apply round_nearest_le.
  pose proof (shr_fexp_m r1 e1 loc_Exact ltac:(lia)) as H2.
  destruct (shr_fexp prec emax r1 e1 loc_Exact) as [mrs2 e2]. destruct H2 as [He2 Hm2].
  pose proof (div_scale r1 e1 e2 b ltac:(lia) ltac:(lia)) as HB. rewrite <- Hm2 in HB.
  destruct (shr_m mrs2) as [|m2|m2] eqn:Em2; [done| |].
  2: { assert (0 <= r1 / 2 ^ (e2 - e1)) by (apply Z.div_pos; [lia|apply Z.pow_pos_nonneg; lia]). lia. }
  assert (Hr : 0 < r1) by (destruct (decide (r1 = 0)) as [Ez|]; [rewrite Ez, Z.div_0_l in Hm2; lia|lia]).
  destruct (Z.leb_spec e2 (emax - prec)) as [_|Hover].
  - split; [|lia]. rewrite (vle_base b) by lia. lia.
  - assert (e1 <= emax - prec).
    { destruct (decide (e1 <= emax - prec)); [done|]. unfold emin in *.
      assert (e1 <= f) by (apply Hcap; lia). lia. }
    pose proof (shifted_normal r1 e1 e2 Hr ltac:(lia) ltac:(unfold fexp, emin in *; lia)) as Hx.
    pose proof (too_big n f b _ e2 ltac:(lia) ltac:(lia) ltac:(lia) Hx). rewrite <- Hm2 in *. lia.
Qed.

Lemma shl_align_value (b : Z) (m : positive) (e k : Z) : b <= k ->  b <= e ->
  let '(m', e') := shl_align m e k in
  Z.pos m' * 2 ^ (e' - b) = Z.pos m * 2 ^ (e - b) /\ b <= e' <= e.
Proof.
  intros Hb Hbe. unfold shl_align. destruct (k - e) as [|d|d] eqn:Ed; [split; [done|lia]..|].
  split; [|lia]. assert (E : Z.pos (Pos.iter xO m d) = Z.pos m * 2 ^ Z.pos d).
  { clear. induction d as [|d IH] using Pos.peano_ind; [simpl; lia|].
    rewrite Pos.iter_succ, Pos2Z.inj_succ, Z.pow_succ_r by lia.
    change (Z.pos (Pos.iter xO m d)~0) with (2 * Z.pos (Pos.iter xO m d)). lia. }
  rewrite E, <- Z.mul_assoc, <- Z.pow_add_r by lia. do 2 f_equal. lia.
Qed.

Lemma shl_align_fst (m : positive) (e k : Z) : k <= e -> Z.pos (shl_align m e k).1 = Z.pos m * 2 ^ (e - k).
Proof.
  intros Hk. pose proof (shl_align_value k m e k ltac:(lia) Hk) as Hv. unfold shl_align in *.
  destruct (k - e) as [|d|d] eqn:Ed; [|lia|].
  - replace (e - k) with 0 by lia. simpl. lia.
  - destruct Hv as [Hv _]. rewrite Z.sub_diag, Z.mul_1_r in Hv. exact Hv.
Qed.

Lemma binary_round_below (m : positive) (e n f : Z) :
  e <= emax - prec -> emin prec emax <= f <= emax - prec -> 0 < n < 2 ^ prec -> vle (Z.pos m) e n f ->
  match binary_round prec emax false m e with
  | S754_zero false => True
  | S754_finite false m' e' => vle (Z.pos m') e' n f
  | _ => False
  end.
Proof using prec_gt emax_gt.
  intros He Hf Hn Hle. unfold binary_round. set (k := fexp _ _ _).
  pose proof (shl_align_value (Z.min (Z.min e f) k) m e k ltac:(lia) ltac:(lia)) as Hs.
  destruct (shl_align m e k) as [mz ez]. destruct Hs as [Hv Hez].
  rewrite (vle_base (Z.min (Z.min e f) k)) in Hle by lia. rewrite <- Hv in Hle.
  pose proof (round_below (Z.pos mz) ez n f ltac:(lia) ltac:(lia) Hf Hn) as Hr.
  rewrite (vle_base (Z.min (Z.min e f) k)) in Hr by lia. specialize (Hr Hle).
  destruct (binary_round_aux _ _ _ _ _ _) as [[]|[]| |[] m' e']; try done. apply Hr.
Qed.

(** A sum of positive numbers that is below the bound exactly stays below it. *)
Lemma add_below (mx my : positive) (ex ey n f : Z) :
  ex <= emax - prec -> emin prec emax <= f <= emax - prec -> 0 < n < 2 ^ prec ->
  (let b := Z.min (Z.min ex ey) f in
   Z.pos mx * 2 ^ (ex - b) + Z.pos my * 2 ^ (ey - b) <= n * 2 ^ (f - b)) ->
  match SFadd prec emax (S754_finite false mx ex) (S754_finite false my ey) with
  | S754_zero false => True
  | S754_finite false m' e' => vle (Z.pos m') e' n f
  | _ => False
  end.
Proof using prec_gt emax_gt.
  intros He Hf Hn. cbn [SFadd cond_Zopp]. set (ez := Z.min ex ey). rewrite !shl_align_fst by lia.
  set (b := Z.min ez f). intros Hle. cbv zeta in Hle.
  destruct (Z.pos mx * 2 ^ (ex - ez) + Z.pos my * 2 ^ (ey - ez)) as [|m|m] eqn:Em; [done| |].
  - apply binary_round_below; [lia|done|done|]. rewrite <- Em, (vle_base b) by lia.
    etransitivity; [|exact Hle]. apply Z.eq_le_incl.
    rewrite Z.mul_add_distr_r, <- !Z.mul_assoc, <- !Z.pow_add_r by lia. do 3 f_equal; lia.
  - assert (0 <= 2 ^ (ex - ez) /\ 0 <= 2 ^ (ey - ez)) by (split; apply Z.pow_nonneg; lia). nia.
Qed.

(** ** Rounding above a bound *)
Lemma shr_fexp_above (m e n f : Z) : 0 < m -> 0 < n < 2 ^ prec -> emin prec emax <= f -> vle n f m e ->
  let '(mrs, e') := shr_fexp prec emax m e loc_Exact in vle n f (shr_m mrs) e'.
Proof using prec_gt.
  intros Hm Hn Hf Hle. pose proof (shr_fexp_m m e loc_Exact ltac:(lia)) as H1. destruct (shr_fexp _ _ _ _ _) as [mrs e'].
  destruct H1 as [He' ->]. destruct (Z.le_gt_cases e' f) as [Hfe|Hfe].
  - rewrite (vle_base e) in Hle by lia. rewrite Z.sub_diag, Z.mul_1_r in Hle. rewrite (vle_base e') by lia.
    rewrite Z.sub_diag, Z.mul_1_r. apply Z.div_le_lower_bound; [apply Z.pow_pos_nonneg; lia|].
    rewrite Z.mul_comm, <- Z.mul_assoc, <- Z.pow_add_r by lia. replace (f - e' + (e' - e)) with (f - e) by lia. done.
  - destruct (decide (e' = e)) as [->|Hne]; [by rewrite Z.sub_diag, Z.div_1_r|].
    assert (Hk : e' = Zdigits2 m + e - prec) by (unfold fexp in He'; lia).
    pose proof (shifted_normal m e e' Hm ltac:(lia) Hk) as Hx. rewrite (vle_base (Z.min f e')) by lia.
    pose proof (too_big n f (Z.min f e') _ e' ltac:(lia) ltac:(lia) ltac:(lia) Hx). lia.
Qed.

Lemma vle_pos (n f m e : Z) : 0 < n -> vle n f m e -> 0 < m.
Proof.
  clear prec_gt emax_gt. unfold vle. intros Hn Hle. assert (0 < 2 ^ (f - Z.min f e) /\ 0 < 2 ^ (e - Z.min f e)) by (split; apply Z.pow_pos_nonneg; lia). nia.
Qed.

Lemma vle_up (n f m m' e : Z) : m <= m' -> vle n f m e -> vle n f m' e.
Proof. clear prec_gt emax_gt. unfold vle. intros Hm Hle. assert (0 < 2 ^ (e - Z.min f e)) by (apply Z.pow_pos_nonneg; lia). nia. Qed.

Lemma round_above (m e n f : Z) : 0 < m -> 0 < n < 2 ^ prec -> emin prec emax <= f -> vle n f m e ->
  match binary_round_aux prec emax false m e loc_Exact with
  | S754_finite false m' e' => vle n f (Z.pos m') e'
  | S754_infinity false => True
  | _ => False
  end.
Proof using prec_gt.
  intros Hm Hn Hf Hle. unfold binary_round_aux. pose proof (shr_fexp_above m e n f Hm Hn Hf Hle) as H1.
  destruct (shr_fexp prec emax m e loc_Exact) as [mrs1 e1]. set (r1 := round_nearest_even _ _).
  assert (Hr : shr_m mrs1 <= r1) by apply round_nearest_le. apply (vle_up _ _ _ _ _ Hr) in H1.
  pose proof (vle_pos n f _ _ (proj1 Hn) H1) as Hr1. pose proof (shr_fexp_above r1 e1 n f Hr1 Hn Hf H1) as H2.
  destruct (shr_fexp prec emax r1 e1 loc_Exact) as [mrs2 e2]. pose proof (vle_pos n f _ _ (proj1 Hn) H2) as Hm2.
  destruct (shr_m mrs2) as [|m2|m2]; [lia| |lia]. by destruct (e2 <=? emax - prec).
Qed.

Lemma binary_round_above (m : positive) (e n f : Z) : 0 < n < 2 ^ prec -> emin prec emax <= f -> vle n f (Z.pos m) e ->
  match binary_round prec emax false m e with
  | S754_finite false m' e' => vle n f (Z.pos m') e'
  | S754_infinity false => True
  | _ => False
  end.
Proof using prec_gt.
  intros Hn Hf Hle. unfold binary_round. set (k := fexp _ _ _).
  pose proof (shl_align_value (Z.min (Z.min e f) k) m e k ltac:(lia) ltac:(lia)) as Hs.
  destruct (shl_align m e k) as [mz ez]. destruct Hs as [Hv Hez]. apply round_above; [lia|done|done|].
  rewrite (vle_base (Z.min (Z.min e f) k)) in Hle |- * by lia. lia.
Qed.

(** ** Values in the unit interval *)
Definition sf_one : spec_float := S754_finite false (Z.to_pos (2 ^ (prec - 1))) (1 - prec).
Definition sf_zero : spec_float := S754_zero false.

Definition unit_ok (x : spec_float) : Prop :=
  match x with
  | S754_zero false => True
  | S754_finite false m e =>
      Z.pos m < 2 ^ prec /\ (e < 1 - prec \/ e = 1 - prec /\ Z.pos m <= 2 ^ (prec - 1))
  | _ => False
  end.
Definition below_one (x : spec_float) : Prop :=
  match x with
  | S754_zero false => True
  | S754_finite false m e => Z.pos m < 2 ^ prec /\ e < 1 - prec
  | _ => False
  end.
(** Not negative, or not a number. *)
Definition nonneg_ok (x : spec_float) : Prop :=
  match x with
  | S754_zero false | S754_infinity false | S754_nan => True
  | S754_finite false m _ => Z.pos m < 2 ^ prec
  | _ => False
  end.

Lemma to_pos_one : Z.pos (Z.to_pos (2 ^ (prec - 1))) = 2 ^ (prec - 1).
Proof using prec_gt. rewrite Z2Pos.id; [done|]. apply Z.pow_pos_nonneg; lia. Qed.

Lemma unit_ok_range (x : spec_float) : unit_ok x -> SFleb sf_zero x = true /\ SFleb x sf_one = true.
Proof using prec_gt.
  destruct x as [[]|s| |[] m e]; simpl; try done. intros [_ He]. split; [done|].
  unfold SFleb, SFcompare, sf_one. destruct He as [He|[-> Hm]].
  - apply Z.compare_lt_iff in He. by rewrite He.
  - rewrite Z.compare_refl. fold (Pos.compare m (Z.to_pos (2 ^ (prec - 1)))).
    destruct (Pos.compare_spec m (Z.to_pos (2 ^ (prec - 1)))) as [| |Hgt]; try done.
    apply Pos2Z.pos_lt_pos in Hgt. rewrite to_pos_one in Hgt. lia.
Qed.

(** The converse, for a value of the format. *)
Lemma unit_ok_intro (x : spec_float) : nonneg_ok x -> SFltb x sf_one = true -> unit_ok x.
Proof using prec_gt.
  destruct x as [[]|[]| |[] m e]; simpl; try done. intros Hm. unfold SFltb, SFcompare, sf_one.
  destruct (Z.compare_spec e (1 - prec)) as [->|He|He]; [|by auto|done].
  fold (Pos.compare m (Z.to_pos (2 ^ (prec - 1)))).
  destruct (Pos.compare_spec m (Z.to_pos (2 ^ (prec - 1)))) as [| Hlt |]; try done. intros _.
  apply Pos2Z.pos_lt_pos in Hlt. rewrite to_pos_one in Hlt. split; [done|]. right. lia.
Qed.

Lemma unit_ok_one : unit_ok sf_one.
Proof using prec_gt.
  simpl. rewrite to_pos_one. split; [apply Z.pow_lt_mono_r; lia|]. right. lia.
Qed.

Lemma mul_unit (x y : spec_float) : unit_ok x -> below_one y -> unit_ok (SFmul prec emax x y).
Proof using prec_gt emax_gt.
  destruct x as [[]|s| |[] mx ex]; try done; destruct y as [[]|t| |[] my ey]; try done.
  intros [Hmx Hex] [Hmy Hey]. simpl.
  pose proof (round_bounds false (Z.pos (mx * my)) (ex + ey) loc_Exact ltac:(lia)) as Hb.
  assert (Hpre : ex + ey <= - prec /\ Zdigits2 (Z.pos (mx * my)) + (ex + ey) <= 0).
  { rewrite Pos2Z.inj_mul. destruct Hex as [Hex|[-> Hmx']].
    - split; [lia|]. assert (Zdigits2 (Z.pos mx * Z.pos my) <= 2 * prec); [|lia].
      apply Zdigits_le; [lia..|]. replace (2 * prec) with (prec + prec) by lia. rewrite Z.pow_add_r by lia. nia.
    - split; [lia|]. assert (Zdigits2 (Z.pos mx * Z.pos my) <= 2 * prec - 1); [|lia].
      apply Zdigits_le; [lia..|]. replace (2 * prec - 1) with ((prec - 1) + prec) by lia.
      rewrite Z.pow_add_r by lia. nia. }
  destruct Hpre as [H1 H2].
  destruct (binary_round_aux _ _ _ _ _ _) as [s|s| |s m e]; simpl; try done.
  - by subst s.
  - by destruct Hb as [_ []].
  - destruct Hb as (-> & Hm & He). auto.
Qed.

Lemma round_nonneg (m e : Z) (l : location) : 0 <= m -> nonneg_ok (binary_round_aux prec emax false m e l).
Proof using prec_gt emax_gt.
  intros Hm. pose proof (round_bounds false m e l Hm) as Hb.
  destruct (binary_round_aux _ _ _ _ _ _) as [s|s| |s m' e']; simpl; try done.
  - by subst s.
  - by destruct Hb as [-> _].
  - by destruct Hb as (-> & ? & _).
Qed.

Lemma binary_round_nonneg (m : positive) (e : Z) : nonneg_ok (binary_round prec emax false m e).
Proof using prec_gt emax_gt.
  unfold binary_round. destruct (shl_align _ _ _) as [mz ez]. by apply round_nonneg.
Qed.

Lemma of_Z_nonneg (z : Z) : 0 <= z -> nonneg_ok (binary_normalize prec emax z 0 false).
Proof using prec_gt emax_gt. destruct z; [done|intros _; apply binary_round_nonneg|lia]. Qed.

Lemma add_nonneg (x y : spec_float) : nonneg_ok x -> nonneg_ok y -> nonneg_ok (SFadd prec emax x y).
Proof using prec_gt emax_gt.
  destruct x as [[]|[]| |[] mx ex], y as [[]|[]| |[] my ey]; try done.
  intros _ _. simpl. apply binary_round_nonneg.
Qed.

Lemma div_nonneg (x y : spec_float) : nonneg_ok x -> nonneg_ok y -> nonneg_ok (SFdiv prec emax x y).
Proof using prec_gt emax_gt.
  destruct x as [[]|[]| |[] mx ex], y as [[]|[]| |[] my ey]; try done.
  intros _ _. unfold SFdiv, SFdiv_core_binary. simpl xorb.
  set (m' := match _ with Z0 => _ | Zpos _ => _ | Zneg _ => _ end).
  assert (Hm' : 0 <= m') by (subst m'; case_match; [lia|apply Z.shiftl_nonneg; lia|lia]).
  pose proof (Z_div_mod m' (Z.pos my) ltac:(lia)) as Hd. destruct (Z.div_eucl m' (Z.pos my)) as [q r].
  apply round_nonneg. nia.
Qed.
End rounding.

(** ** [f64] and [f32] *)
Definition f64_add := SFadd 53 1024.
Definition f64_mul := SFmul 53 1024.
Definition f64_div := SFdiv 53 1024.
Definition f64_sub := SFsub 53 1024.
Definition f64_sqrt := SFsqrt 53 1024.
(** [n as f64] for an unsigned integer. *)
Definition f64_of_u64 (n : Z) : spec_float := binary_normalize 53 1024 n 0 false.
(** A decimal literal: the correctly rounded quotient of two exact integers. *)
Definition f64_lit (num den : Z) : spec_float := f64_div (f64_of_u64 num) (f64_of_u64 den).
(** [a >= b] and [a > b]; both are false when an operand is not a number. *)
Definition sf_ge (a b : spec_float) : bool := SFleb b a.
Definition sf_gt (a b : spec_float) : bool := SFltb b a.

Definition is_nan (x : spec_float) : bool := match x with S754_nan => true | _ => false end.
(** [f64::min] and [f64::max] prefer the operand that is a number. *)
Definition sf_min (a b : spec_float) : spec_float :=
  if is_nan a then b else if is_nan b then a else if SFltb a b then a else b.
Definition sf_max (a b : spec_float) : spec_float :=
  if is_nan a then b else if is_nan b then a else if SFltb a b then b else a.

(** [Iterator::sum] starts from negative zero, the neutral element. *)
Definition f64_sum (l : list spec_float) : spec_float := foldl f64_add (S754_zero true) l.

Abbreviation f64_unit := (unit_ok 53) (only parsing).
Abbreviation f64_one := (sf_one 53) (only parsing).
Abbreviation f64_zero := sf_zero (only parsing).

Lemma sf_min_one (x : spec_float) : nonneg_ok 53 x -> f64_unit (sf_min x f64_one).
Proof.
  intros Hx. unfold sf_min. destruct (is_nan x) eqn:En; [apply unit_ok_one; lia|]. simpl is_nan. cbv iota.
  destruct (SFltb x f64_one) eqn:E; [apply unit_ok_intro; (done || lia)|apply unit_ok_one; lia].
Qed.

Lemma sf_max_unit (x y : spec_float) : f64_unit x -> f64_unit y -> f64_unit (sf_max x y).
Proof. intros Hx Hy. unfold sf_max. by repeat case_match. Qed.

(** ** Single precision *)
Definition f32_add := SFadd 24 128.
Definition f32_mul := SFmul 24 128.
(** [n as f32], exact for the small integers the sources convert. *)
Definition f32_of_uint (n : Z) : spec_float := binary_normalize 24 128 n 0 false.
Definition f32_lit (num den : Z) : spec_float := SFdiv 24 128 (f32_of_uint num) (f32_of_uint den).

(** [f32::clamp]: not-a-number stays what it is. *)
Definition sf_clamp (x lo hi : spec_float) : spec_float :=
  if SFltb x lo then lo else if SFltb hi x then hi else x.

(** [x as uN]: towards zero, saturating, not-a-number to zero. *)
Definition sf_floor (x : spec_float) : Z :=
  match x with
  | S754_finite false m e => if 0 <=? e then Z.pos m * 2 ^ e else Z.pos m / 2 ^ (- e)
  | _ => 0
  end.
Definition sf_to_uint (max : Z) (x : spec_float) : Z :=
  match x with
  | S754_infinity false => max
  | _ => Z.min max (sf_floor x)
  end.

Lemma sf_floor_below (m : positive) (e n k : Z) :
  k <= 0 -> vle (Z.pos m) e n k -> sf_floor (S754_finite false m e) <= n / 2 ^ (- k).
Proof.
  intros Hk Hle. rewrite (vle_base (Z.min e k)) in Hle by lia. cbn [sf_floor].
  apply Z.div_le_lower_bound; [apply Z.pow_pos_nonneg; lia|].
  destruct (Z.leb_spec 0 e) as [He|He].
  - rewrite Z.min_r, Z.sub_diag, Z.mul_1_r in Hle by lia. etransitivity; [|exact Hle].
    apply Z.eq_le_incl. rewrite Z.mul_comm, <- Z.mul_assoc, <- Z.pow_add_r by lia. do 2 f_equal.
  - pose proof (Z.mul_div_le (Z.pos m) (2 ^ (- e)) ltac:(apply Z.pow_pos_nonneg; lia)) as Hd.
    set (q := Z.pos m / 2 ^ (- e)) in *. destruct (Z.le_ge_cases e k) as [Hek|Hek].
    + rewrite Z.min_l, Z.sub_diag, Z.mul_1_r in Hle by lia.
      apply (Z.mul_le_mono_pos_r _ _ (2 ^ (k - e))); [apply Z.pow_pos_nonneg; lia|].
      etransitivity; [|exact Hle]. etransitivity; [|exact Hd]. apply Z.eq_le_incl.
      rewrite (Z.mul_comm _ q), <- Z.mul_assoc, <- Z.pow_add_r, Z.mul_comm by lia. do 2 f_equal. lia.
    + rewrite Z.min_r, Z.sub_diag, Z.mul_1_r in Hle by lia. etransitivity; [|exact Hle].
      replace (- k) with (- e + (e - k)) by lia. rewrite Z.pow_add_r by lia.
      assert (0 <= 2 ^ (e - k)) by (apply Z.pow_nonneg; lia). nia.
Qed.

Lemma valid_mantissa (s : bool) (m : positive) (e : Z) :
  valid_binary 24 128 (S754_finite s m e) = true -> Z.pos m < 2 ^ 24.
Proof.
  unfold valid_binary, bounded, canonical_mantissa, fexp, emin. rewrite andb_true_iff, Z.eqb_eq. intros [Hc _].
  eapply Z.lt_le_trans; [apply digits_spec|]. apply Z.pow_le_mono_r; lia.
Qed.

(** ** Exact sums

    Small multiples of a power of two are added without rounding. *)
Lemma Zdigits_unique (m d : Z) : 0 < m -> 1 <= d -> 2 ^ (d - 1) <= m < 2 ^ d -> Zdigits2 m = d.
Proof.
  intros Hm Hd [Hlo Hhi]. pose proof (Zdigits_spec m Hm) as [Hl Hh]. pose proof (Zdigits_le m d ltac:(lia) ltac:(lia) Hhi).
  destruct (decide (Zdigits2 m = d)); [done|]. assert (2 ^ Zdigits2 m <= 2 ^ (d - 1)) by (apply Z.pow_le_mono_r; lia). lia.
Qed.

Lemma Zdigits_shift (m k : Z) : 0 < m -> 0 <= k -> Zdigits2 (m * 2 ^ k) = Zdigits2 m + k.
Proof.
  intros Hm Hk. pose proof (Zdigits_spec m Hm) as [Hl Hh].
  assert (Hd : 1 <= Zdigits2 m) by (destruct m; simpl in *; lia).
  assert (Hp : 0 < 2 ^ k) by (apply Z.pow_pos_nonneg; lia). apply Zdigits_unique; [nia|lia|].
  replace (Zdigits2 m + k - 1) with (Zdigits2 m - 1 + k) by lia. rewrite !Z.pow_add_r by lia. nia.
Qed.

Lemma Zdigits_mul (p q : Z) : 0 < p -> 0 < q -> Zdigits2 p + Zdigits2 q - 1 <= Zdigits2 (p * q) <= Zdigits2 p + Zdigits2 q.
Proof.
  intros Hp Hq. pose proof (Zdigits_spec p Hp) as [Pl Ph]. pose proof (Zdigits_spec q Hq) as [Ql Qh].
  assert (1 <= Zdigits2 p /\ 1 <= Zdigits2 q) as [Dp Dq] by (destruct p, q; simpl in *; lia). split.
  - destruct (decide (Zdigits2 p + Zdigits2 q - 1 <= Zdigits2 (p * q))) as [|Hn]; [done|]. exfalso.
    pose proof (Zdigits_lt_pow (p * q) ltac:(nia)) as Hlt.
    assert (2 ^ Zdigits2 (p * q) <= 2 ^ (Zdigits2 p - 1 + (Zdigits2 q - 1))) by (apply Z.pow_le_mono_r; lia).
    rewrite Z.pow_add_r in * by lia. nia.
  - apply Zdigits_le; [nia|lia|]. rewrite Z.pow_add_r by lia. nia.
Qed.

Lemma new_location_exact (n : Z) : new_location n 0 = loc_Exact.
Proof. unfold new_location. by destruct (Z.even n). Qed.

Section exact.
Context (prec emax : Z).
Context (prec_gt : 1 < prec) (emax_gt : prec < emax).

(** The canonical form of [q * 2^e]. *)
Definition sf_of (q e : Z) : spec_float :=
  S754_finite false (Z.to_pos (q * 2 ^ (prec - Zdigits2 q))) (Zdigits2 q + e - prec).

Definition fits (q e : Z) : Prop :=
  0 < q /\ Zdigits2 q <= prec /\ emin prec emax <= Zdigits2 q + e - prec <= emax - prec.

(** Shifting out zeros loses nothing. *)
Lemma shr_fexp_exact (q j e : Z) : 0 < q -> 0 <= j -> Zdigits2 q = prec -> emin prec emax <= e ->
  shr_fexp prec emax (q * 2 ^ j) (e - j) loc_Exact = ({| shr_m := q; shr_r := false; shr_s := false |}, e).
Proof using prec_gt emax_gt.
  intros Hq Hj Hd He. unfold shr_fexp. rewrite Zdigits_shift, Hd by lia. unfold fexp, shr.
  replace (Z.max (prec + j + (e - j) - prec) (emin prec emax) - (e - j)) with j by lia. cbn [shr_record_of_loc].
  destruct j as [|j|j]; [|rewrite iter_shr_exact by lia; f_equal; lia|lia].
  rewrite Z.pow_0_r, Z.mul_1_r. f_equal. lia.
Qed.

Lemma round_aux_exact (q j e : Z) : 0 < q -> 0 <= j -> Zdigits2 q = prec -> emin prec emax <= e <= emax - prec ->
  binary_round_aux prec emax false (q * 2 ^ j) (e - j) loc_Exact = S754_finite false (Z.to_pos q) e.
Proof using prec_gt emax_gt.
  intros Hq Hj Hd He. unfold binary_round_aux. rewrite shr_fexp_exact by lia.
  cbn [shr_m loc_of_shr_record round_nearest_even].
  pose proof (shr_fexp_exact q 0 e Hq ltac:(lia) Hd ltac:(lia)) as E. rewrite Z.pow_0_r, Z.mul_1_r, Z.sub_0_r in E. rewrite E.
  cbn [shr_m]. destruct q as [|q|q]; [lia| |lia]. by rewrite (proj2 (Z.leb_le e (emax - prec))) by lia.
Qed.

Lemma normalize_exact (q j e : Z) : fits q e -> 0 <= j -> binary_normalize prec emax (q * 2 ^ j) (e - j) false = sf_of q e.
Proof using prec_gt emax_gt.
  intros (Hq & Hd & Hlo & Hhi) Hj. assert (Hp : 0 < 2 ^ j) by (apply Z.pow_pos_nonneg; lia).
  destruct (q * 2 ^ j) as [|m|m] eqn:Em; [nia| |nia]. cbn [binary_normalize]. unfold binary_round.
  assert (Edig : Z.pos (digits2_pos m) = Zdigits2 q + j) by (rewrite <- Zdigits_shift, Em by lia; done).
  rewrite Edig. set (F := Zdigits2 q + e - prec) in *.
  assert (EF : fexp prec emax (Zdigits2 q + j + (e - j)) = F) by (unfold fexp; lia). rewrite EF.
  set (q' := q * 2 ^ (prec - Zdigits2 q)).
  assert (Hpq : 0 < 2 ^ (prec - Zdigits2 q)) by (apply Z.pow_pos_nonneg; lia).
  assert (Hq' : 0 < q' /\ Zdigits2 q' = prec) by (unfold q'; rewrite Zdigits_shift by lia; split; [nia|lia]).
  unfold sf_of. fold F q'. destruct (Z.le_ge_cases (e - j) F) as [Hge|Hlt].
  - assert (E : shl_align m (e - j) F = (m, e - j)) by (unfold shl_align; destruct (F - (e - j)) eqn:?; [done|done|lia]).
    rewrite E, <- Em. replace (q * 2 ^ j) with (q' * 2 ^ (F - (e - j))).
    { replace (e - j) with (F - (F - (e - j))) at 2 by lia. apply round_aux_exact; (apply Hq' || lia). }
    unfold q'. rewrite <- Z.mul_assoc, <- Z.pow_add_r by lia. do 2 f_equal. lia.
  - pose proof (shl_align_fst m (e - j) F ltac:(lia)) as Ev.
    assert (E2 : (shl_align m (e - j) F).2 = F) by (unfold shl_align; destruct (F - (e - j)) eqn:?; [simpl; lia|lia|done]).
    destruct (shl_align m (e - j) F) as [mz ez]. simpl in *. subst ez. rewrite Ev, <- Em.
    replace (q * 2 ^ j * 2 ^ (e - j - F)) with (q' * 2 ^ 0).
    { rewrite <- (Z.sub_0_r F) at 1. apply round_aux_exact; (apply Hq' || lia). }
    unfold q'. rewrite Z.pow_0_r, Z.mul_1_r, <- Z.mul_assoc, <- Z.pow_add_r by lia. do 2 f_equal. lia.
Qed.

Lemma add_exact (p q e : Z) : fits p e -> fits q e -> fits (p + q) e ->
  SFadd prec emax (sf_of p e) (sf_of q e) = sf_of (p + q) e.
Proof using prec_gt emax_gt.
  intros Hp Hq Hpq. unfold sf_of at 1 2. cbn [SFadd cond_Zopp]. destruct Hp as (Hp & Hdp & _), Hq as (Hq & Hdq & _).
  set (ez := Z.min _ _). rewrite !shl_align_fst by lia.
  rewrite !Z2Pos.id by (apply Z.mul_pos_pos; [lia|apply Z.pow_pos_nonneg; lia]).
  rewrite <- !Z.mul_assoc, <- !Z.pow_add_r by lia.
  replace (prec - Zdigits2 p + (Zdigits2 p + e - prec - ez)) with (e - ez) by lia.
  replace (prec - Zdigits2 q + (Zdigits2 q + e - prec - ez)) with (e - ez) by lia.
  rewrite <- Z.mul_add_distr_r. replace ez with (e - (e - ez)) at 2 by lia. apply normalize_exact; [done|lia].
Qed.

(** A quotient that is representable is not rounded. *)
Lemma div_exact (v q e f : Z) : fits (v * q) e -> fits q f -> fits v (e - f) ->
  SFdiv prec emax (sf_of (v * q) e) (sf_of q f) = sf_of v (e - f).
Proof using prec_gt emax_gt.
  intros (Hp & Hdp & Hp1 & Hp2) (Hq & Hdq & _) (Hv & Hdv & Hv1 & Hv2). pose proof (Zdigits_mul v q Hv Hq) as Hd.
  pose proof (fun x Hx => Z.pow_pos_nonneg 2 x ltac:(lia) Hx) as Hpow.
  pose proof (Hpow (prec - Zdigits2 (v * q)) ltac:(lia)). pose proof (Hpow (prec - Zdigits2 q) ltac:(lia)).
  pose proof (Hpow (prec - Zdigits2 v) ltac:(lia)).
  unfold sf_of at 1 2, SFdiv, SFdiv_core_binary. rewrite !Z2Pos.id by nia. rewrite !Zdigits_shift by lia. simpl xorb.
  set (D := Zdigits2 (v * q) + e - prec - (Zdigits2 q + f - prec)). set (k := Z.min _ _).
  assert (Ek : k = Z.max (D - prec) (emin prec emax)) by (unfold k, fexp; lia).
  set (m' := match D - k with Z0 => _ | Zpos _ => _ | Zneg _ => _ end).
  set (m2 := q * 2 ^ (prec - Zdigits2 q)).
  assert (Em : m' = v * 2 ^ (e - f - k) * m2).
  { assert (E : m' = v * q * 2 ^ (prec - Zdigits2 (v * q)) * 2 ^ (D - k)).
    { unfold m'. destruct (D - k) eqn:Es; [by rewrite Z.pow_0_r, Z.mul_1_r|by rewrite Z.shiftl_mul_pow2|lia]. }
    rewrite E. transitivity (v * q * (2 ^ (prec - Zdigits2 (v * q)) * 2 ^ (D - k))); [ring|].
    transitivity (v * q * (2 ^ (e - f - k) * 2 ^ (prec - Zdigits2 q))); [|unfold m2; ring].
    rewrite <- !Z.pow_add_r by lia. do 2 f_equal. lia. }
  assert (Hm2 : 0 < m2) by (unfold m2; nia).
  assert (Ed : Z.div_eucl m' m2 = (v * 2 ^ (e - f - k), 0)).
  { pose proof (Z.div_mul (v * 2 ^ (e - f - k)) m2 ltac:(lia)) as Hq1. pose proof (Z.mod_mul (v * 2 ^ (e - f - k)) m2 ltac:(lia)) as Hr1.
    rewrite <- Em in Hq1, Hr1. unfold Z.div, Z.modulo in *. destruct (Z.div_eucl m' m2). by subst. }
  rewrite Ed, new_location_exact. unfold sf_of. set (F := Zdigits2 v + (e - f) - prec) in *.
  replace (v * 2 ^ (e - f - k)) with (v * 2 ^ (prec - Zdigits2 v) * 2 ^ (F - k)).
  { replace k with (F - (F - k)) at 2 by lia. apply round_aux_exact; [nia|lia|rewrite Zdigits_shift by lia; lia|lia]. }
  rewrite <- Z.mul_assoc, <- Z.pow_add_r by lia. do 2 f_equal. lia.
Qed.
End exact.

(** ** Well-formedness

    The operations return numbers of the format. *)
Section valid.
Context (prec emax : Z).
Context (prec_gt : 1 < prec) (emax_gt : prec < emax).

Definition canon (m e : Z) : Prop := fexp prec emax (Zdigits2 m + e) = e.

Lemma valid_finite (s : bool) (m : positive) (e : Z) :
  valid_binary prec emax (S754_finite s m e) = true <-> canon (Z.pos m) e /\ e <= emax - prec.
Proof. unfold valid_binary, bounded, canonical_mantissa, canon. rewrite andb_true_iff, Z.eqb_eq, Z.leb_le. done. Qed.

Lemma canon_spec (m e : Z) : 0 < m -> canon m e <->
  emin prec emax <= e /\ m < 2 ^ prec /\ (e = emin prec emax \/ 2 ^ (prec - 1) <= m).
Proof using prec_gt.
  intros Hm. unfold canon, fexp. destruct (Zdigits_spec m Hm) as [Hl Hh].
  assert (Hd : 1 <= Zdigits2 m) by (destruct m; simpl in *; lia). split.
  - intros E. split_and!; [lia| |].
    + eapply Z.lt_le_trans; [exact Hh|]. apply Z.pow_le_mono_r; lia.
    + destruct (decide (e = emin prec emax)) as [|Hne]; [by left|right]. by replace (prec - 1) with (Zdigits2 m - 1) by lia.
  - intros (He & Hb & Hn). pose proof (Zdigits_le m prec ltac:(lia) ltac:(lia) Hb).
    destruct Hn as [->|Hn]; [lia|]. assert (Zdigits2 m = prec); [|lia]. apply Zdigits_unique; lia.
Qed.

(** The second shift of the rounding, and its range check. *)
Lemma round_aux_valid (sx : bool) (m e : Z) (l : location) : 0 <= m -> e <= fexp prec emax (Zdigits2 m + e) ->
  valid_binary prec emax (binary_round_aux prec emax sx m e l) = true.
Proof using prec_gt emax_gt.
  intros Hm He. unfold binary_round_aux. pose proof (shr_fexp_m prec emax m e l Hm) as H1.
  pose proof (shr_fexp_bits prec emax prec_gt m e l Hm) as B1.
  destruct (shr_fexp prec emax m e l) as [mrs1 e1]. destruct H1 as [He1 Hm1], B1 as (Hr1 & Hmin & _).
  rewrite Z.max_r in He1 by done. set (r1 := round_nearest_even _ _).
  assert (Hrn : shr_m mrs1 <= r1 <= shr_m mrs1 + 1) by apply round_nearest_le.
  assert (Hn1 : e1 = emin prec emax \/ 2 ^ (prec - 1) <= r1).
  { destruct (decide (e1 = emin prec emax)) as [|Hne]; [by left|right]. unfold fexp in He1.
    assert (0 < m) by (unfold fexp in He; destruct m; simpl in *; unfold emin in *; lia).
    pose proof (shifted_normal prec prec_gt m e e1 ltac:(done) ltac:(unfold fexp in He; lia) ltac:(lia)). lia. }
  pose proof (shr_fexp_m prec emax r1 e1 loc_Exact ltac:(lia)) as H2.
  destruct (shr_fexp prec emax r1 e1 loc_Exact) as [mrs2 e2]. destruct H2 as [He2 Hm2].
  destruct (shr_m mrs2) as [|m2|m2] eqn:Em2; [done| |done]. destruct (Z.leb_spec e2 (emax - prec)); [|done].
  apply valid_finite. split; [|done]. apply canon_spec; [lia|]. rewrite Hm2. destruct (decide (r1 = 2 ^ prec)) as [Htop|Hlt].
  - assert (Hd : Zdigits2 r1 = prec + 1).
    { rewrite Htop. apply Zdigits_unique; [lia..|]. replace (prec + 1 - 1) with prec by lia. split; [lia|]. apply Z.pow_lt_mono_r; lia. }
    assert (E2 : e2 = e1 + 1) by (unfold fexp in He2; lia). rewrite Htop, E2. replace (e1 + 1 - e1) with 1 by lia.
    assert (E3 : 2 ^ prec / 2 ^ 1 = 2 ^ (prec - 1)).
    { replace prec with (1 + (prec - 1)) at 1 by lia. rewrite Z.pow_add_r, Z.mul_comm by lia. by rewrite Z.div_mul. }
    rewrite E3. split_and!; [lia|apply Z.pow_lt_mono_r; lia|by right].
  - assert (Hd : Zdigits2 r1 <= prec) by (apply Zdigits_le; lia).
    assert (E2 : e2 = e1) by (unfold fexp in He2; lia). rewrite E2, Z.sub_diag, Z.div_1_r. split_and!; [lia|lia|done].
Qed.

Lemma binary_round_valid (sx : bool) (m : positive) (e : Z) : valid_binary prec emax (binary_round prec emax sx m e) = true.
Proof using prec_gt emax_gt.
  unfold binary_round. change (Z.pos (digits2_pos m)) with (Zdigits2 (Z.pos m)). set (k := fexp _ _ _).
  destruct (Z.le_gt_cases k e) as [Hk|Hk].
  - pose proof (shl_align_fst m e k Hk) as Ev.
    assert (E2 : (shl_align m e k).2 = k) by (unfold shl_align; destruct (k - e) eqn:?; [simpl; lia|lia|done]).
    destruct (shl_align m e k) as [mz ez]. simpl in Ev, E2. subst ez. apply round_aux_valid; [lia|].
    rewrite Ev, Zdigits_shift by lia. replace (Zdigits2 (Z.pos m) + (e - k) + k) with (Zdigits2 (Z.pos m) + e) by lia. fold k. lia.
  - assert (E : shl_align m e k = (m, e)) by (unfold shl_align; destruct (k - e) eqn:?; [done|done|lia]).
    rewrite E. apply round_aux_valid; [lia|]. fold k. lia.
Qed.

Lemma normalize_valid (m e : Z) (s : bool) : valid_binary prec emax (binary_normalize prec emax m e s) = true.
Proof using prec_gt emax_gt. destruct m; [done|apply binary_round_valid..]. Qed.

Lemma add_valid (x y : spec_float) : valid_binary prec emax x = true -> valid_binary prec emax y = true ->
  valid_binary prec emax (SFadd prec emax x y) = true.
Proof using prec_gt emax_gt.
  destruct x as [[]|[]| |sx mx ex], y as [[]|[]| |sy my ey]; simpl; intros; try done. apply normalize_valid.
Qed.
Lemma sub_valid (x y : spec_float) : valid_binary prec emax x = true -> valid_binary prec emax y = true ->
  valid_binary prec emax (SFsub prec emax x y) = true.
Proof using prec_gt emax_gt.
  destruct x as [[]|[]| |sx mx ex], y as [[]|[]| |sy my ey]; simpl; intros; try done; apply normalize_valid.
Qed.

Lemma mul_valid (x y : spec_float) : valid_binary prec emax x = true -> valid_binary prec emax y = true ->
  valid_binary prec emax (SFmul prec emax x y) = true.
Proof using prec_gt emax_gt.
  destruct x as [sx|sx| |sx mx ex], y as [sy|sy| |sy my ey]; try done. rewrite !valid_finite. intros [Hx Hx'] [Hy Hy'].
  simpl. apply round_aux_valid; [lia|]. pose proof (Zdigits_mul (Z.pos mx) (Z.pos my) ltac:(lia) ltac:(lia)) as Hd.
  change (Z.pos (mx * my)) with (Z.pos mx * Z.pos my). unfold canon, fexp, emin in *.
  assert (1 <= Zdigits2 (Z.pos mx) /\ 1 <= Zdigits2 (Z.pos my)) by (simpl; lia). lia.
Qed.

Lemma div_valid (x y : spec_float) : valid_binary prec emax x = true -> valid_binary prec emax y = true ->
  valid_binary prec emax (SFdiv prec emax x y) = true.
Proof using prec_gt emax_gt.
  destruct x as [sx|sx| |sx mx ex], y as [sy|sy| |sy my ey]; try done. intros _ _. unfold SFdiv, SFdiv_core_binary.
  set (D := Zdigits2 (Z.pos mx) + ex - (Zdigits2 (Z.pos my) + ey)). set (k := Z.min _ _). set (s := ex - ey - k).
  set (m' := match s with Z0 => _ | Zpos _ => _ | Zneg _ => _ end).
  assert (Em : m' = Z.pos mx * 2 ^ s) by (unfold m'; destruct s eqn:Es; [simpl; lia|by rewrite Z.shiftl_mul_pow2|lia]).
  pose proof (Z_div_mod m' (Z.pos my) ltac:(lia)) as Hqr. pose proof (Z.pow_pos_nonneg 2 s ltac:(lia) ltac:(lia)) as Hs.
  destruct (Z.div_eucl m' (Z.pos my)) as [q r]. destruct Hqr as [Hq Hr]. assert (Hq0 : 0 <= q) by nia.
  apply round_aux_valid; [done|]. destruct (Z.le_gt_cases k (emin prec emax)) as [Hk|Hk]; [unfold fexp; lia|].
  assert (HD : k + prec <= D) by (unfold k, fexp in *; lia).
  assert (Hqd : prec <= Zdigits2 q); [|unfold fexp; lia].
  destruct (decide (prec <= Zdigits2 q)) as [|Hn]; [done|]. exfalso.
  assert (Hql : q + 1 <= 2 ^ (prec - 1)).
  { pose proof (Zdigits_lt_pow q Hq0). assert (2 ^ Zdigits2 q <= 2 ^ (prec - 1)) by (apply Z.pow_le_mono_r; lia). lia. }
  destruct (Zdigits_spec (Z.pos mx) ltac:(lia)) as [Hlx _]. destruct (Zdigits_spec (Z.pos my) ltac:(lia)) as [_ Hhy].
  assert (Hlow : 2 ^ (Zdigits2 (Z.pos mx) - 1 + s) <= m') by (rewrite Z.pow_add_r by (simpl; lia); nia).
  assert (Hup : m' < 2 ^ (prec - 1 + Zdigits2 (Z.pos my))) by (rewrite Z.pow_add_r by (simpl; lia); nia).
  assert (2 ^ (prec - 1 + Zdigits2 (Z.pos my)) <= 2 ^ (Zdigits2 (Z.pos mx) - 1 + s)) by (apply Z.pow_le_mono_r; lia). lia.
Qed.

(** ** The order of well-formed numbers is that of their values *)
Lemma canon_lt (mx my ex ey b : Z) : 0 < mx -> 0 < my -> canon mx ex -> canon my ey -> ex < ey -> b <= ex ->
  mx * 2 ^ (ex - b) < my * 2 ^ (ey - b).
Proof using prec_gt.
  intros Hx Hy Cx Cy Hlt Hb. apply canon_spec in Cx as (Hmin & Hbx & _); [|done]. apply canon_spec in Cy as (_ & _ & Hn); [|done].
  destruct Hn as [->|Hn]; [lia|]. by apply (too_big prec prec_gt).
Qed.

Definition plus_ok (x : spec_float) : Prop :=
  match x with S754_zero false | S754_infinity false | S754_nan | S754_finite false _ _ => True | _ => False end.

Lemma plus_nonneg (x : spec_float) : valid_binary prec emax x = true -> plus_ok x -> nonneg_ok prec x.
Proof using prec_gt.
  destruct x as [[]|[]| |[] m e]; try done. rewrite valid_finite. intros [Hc _] _. apply canon_spec in Hc; [|lia]. apply Hc.
Qed.

Lemma normalize_plus (m e : Z) : 0 <= m -> plus_ok (binary_normalize prec emax m e false).
Proof using prec_gt emax_gt.
  destruct m as [|m|m]; [done| |lia]. intros _. simpl. pose proof (binary_round_nonneg prec emax prec_gt emax_gt m e) as Hn.
  by destruct (binary_round _ _ _ _ _) as [[]|[]| |[] ? ?].
Qed.

Lemma compare_finite (x y : positive) (ex ey : Z) : canon (Z.pos x) ex -> canon (Z.pos y) ey ->
  forall b, b <= ex -> b <= ey ->
  match SFcompare (S754_finite false x ex) (S754_finite false y ey) with
  | Some Lt => Z.pos x * 2 ^ (ex - b) < Z.pos y * 2 ^ (ey - b)
  | Some Eq => Z.pos x * 2 ^ (ex - b) = Z.pos y * 2 ^ (ey - b)
  | _ => Z.pos y * 2 ^ (ey - b) < Z.pos x * 2 ^ (ex - b)
  end.
Proof using prec_gt.
  intros Cx Cy b Hbx Hby. cbn [SFcompare]. destruct (Z.compare_spec ex ey) as [->|Hlt|Hgt].
  - fold (Pos.compare x y). pose proof (Z.pow_pos_nonneg 2 (ey - b) ltac:(lia) ltac:(lia)).
    destruct (Pos.compare_spec x y) as [->|Hlt|Hgt]; [done|nia..].
  - by apply canon_lt.
  - by apply canon_lt.
Qed.

(** A number that is not below another, minus the other, is not negative. *)
Lemma sub_plus (x y : spec_float) : valid_binary prec emax x = true -> valid_binary prec emax y = true ->
  SFltb x y = false -> plus_ok (SFsub prec emax x y) \/ x = S754_zero true /\ SFsub prec emax x y = S754_zero true.
Proof using prec_gt emax_gt.
  destruct x as [sx|[]| |sx mx ex], y as [sy|[]| |sy my ey]; 
    try (intros; repeat match goal with b : bool |- _ => destruct b end; simpl in *; by auto).
  rewrite !valid_finite. intros [Cx _] [Cy _]. unfold SFltb, SFsub. set (ez := Z.min ex ey).
  pose proof (Z.pow_pos_nonneg 2 (ex - ez) ltac:(lia) ltac:(lia)). pose proof (Z.pow_pos_nonneg 2 (ey - ez) ltac:(lia) ltac:(lia)).
  pose proof (compare_finite mx my ex ey Cx Cy ez ltac:(lia) ltac:(lia)) as Hc.
  pose proof (compare_finite my mx ey ex Cy Cx ez ltac:(lia) ltac:(lia)) as Hc'.
  intros Hlt. left. apply normalize_plus. rewrite !shl_align_fst by lia.
  destruct sx, sy; unfold cond_Zopp; [|by simpl in Hlt|nia|].
  - cbn [SFcompare] in *. rewrite (Z.compare_antisym ey ex) in Hlt.
    destruct (ey ?= ex)%Z; simpl in *; [|done|lia]. fold (Pos.compare mx my) in Hlt. fold (Pos.compare my mx) in Hc'.
    rewrite (Pos.compare_antisym my mx) in Hlt. destruct (my ?= mx)%positive; simpl in *; [lia|done|lia].
  - destruct (SFcompare _ _) as [[]|] in Hlt, Hc; try done; lia.
Qed.

Lemma leb_vle (x y : positive) (ex ey : Z) : canon (Z.pos x) ex -> canon (Z.pos y) ey -> vle (Z.pos x) ex (Z.pos y) ey ->
  SFleb (S754_finite false x ex) (S754_finite false y ey) = true.
Proof using prec_gt.
  intros Cx Cy Hle. unfold SFleb. pose proof (compare_finite x y ex ey Cx Cy (Z.min ex ey) ltac:(lia) ltac:(lia)) as Hc.
  unfold vle in Hle. destruct (SFcompare _ _) as [[]|]; [done|done|lia..].
Qed.

(** ** Sums and products of positive numbers *)
Lemma vle_trans (a e b f c g : Z) : vle a e b f -> vle b f c g -> vle a e c g.
Proof.
  intros H1 H2. set (k := Z.min e (Z.min f g)). rewrite (vle_base k) in H1, H2 |- * by lia. lia.
Qed.

(** A sum is at least its summands. *)
Lemma add_above (mx my : positive) (ex ey n f : Z) : 0 < n < 2 ^ prec -> emin prec emax <= f ->
  vle n f (Z.pos mx) ex \/ vle n f (Z.pos my) ey ->
  match SFadd prec emax (S754_finite false mx ex) (S754_finite false my ey) with
  | S754_finite false m' e' => vle n f (Z.pos m') e'
  | S754_infinity false => True
  | _ => False
  end.
Proof using prec_gt.
  intros Hn Hf Hor. cbn [SFadd cond_Zopp]. set (ez := Z.min ex ey). rewrite !shl_align_fst by lia.
  pose proof (Z.pow_pos_nonneg 2 (ex - ez) ltac:(lia) ltac:(lia)). pose proof (Z.pow_pos_nonneg 2 (ey - ez) ltac:(lia) ltac:(lia)).
  destruct (Z.pos mx * 2 ^ (ex - ez) + Z.pos my * 2 ^ (ey - ez)) as [|m|m] eqn:Em; [nia| |nia].
  apply (binary_round_above prec emax prec_gt); [done|done|]. destruct Hor as [Hor|Hor]; (eapply vle_trans; [exact Hor|]);
    rewrite (vle_base ez), Z.sub_diag, Z.mul_1_r, <- Em by lia; nia.
Qed.

(** A positive number times one of the unit interval. *)
Lemma mul_below (mx my : positive) (ex ey : Z) : vle (Z.pos mx) ex 1 0 -> ex <= 0 ->
  emin prec emax <= ey <= emax - prec -> Z.pos my < 2 ^ prec ->
  match SFmul prec emax (S754_finite false mx ex) (S754_finite false my ey) with
  | S754_zero false => True
  | S754_finite false m' e' => vle (Z.pos m') e' (Z.pos my) ey
  | _ => False
  end.
Proof using prec_gt emax_gt.
  intros Hx Hex Hey Hmy. simpl. pose proof (round_below prec emax prec_gt emax_gt (Z.pos (mx * my)) (ex + ey) (Z.pos my) ey) as Hr.
  assert (Hle : vle (Z.pos (mx * my)) (ex + ey) (Z.pos my) ey).
  { rewrite (vle_base ex) in Hx by lia. rewrite (vle_base (ex + ey)) by lia. rewrite Z.sub_diag, Z.mul_1_r in Hx |- *.
    replace (ey - (ex + ey)) with (0 - ex) by lia. rewrite Pos2Z.inj_mul. nia. }
  specialize (Hr ltac:(lia) ltac:(lia) ltac:(lia) ltac:(lia) Hle).
  destruct (binary_round_aux _ _ _ _ _ _) as [[]|[]| |[] m e]; try done. apply Hr.
Qed.
End valid.

(** Not below a bound, rounded down. *)
Lemma sf_floor_above (m : positive) (e n k : Z) :
  k <= 0 -> 0 <= n -> vle n k (Z.pos m) e -> n / 2 ^ (- k) <= sf_floor (S754_finite false m e).
Proof.
  intros Hk Hn Hle. cbn [sf_floor]. pose proof (Z.pow_pos_nonneg 2 (- k) ltac:(lia) ltac:(lia)).
  pose proof (Z.mul_div_le n (2 ^ (- k)) ltac:(lia)) as Hd. set (q := n / 2 ^ (- k)) in *.
  assert (Hq : vle q 0 n k) by (rewrite (vle_base k) by lia; rewrite Z.sub_diag, Z.mul_1_r; replace (0 - k) with (- k) by lia; lia).
  pose proof (vle_trans _ _ _ _ _ _ Hq Hle) as Hv. destruct (Z.leb_spec 0 e) as [He|He].
  - rewrite (vle_base 0) in Hv by lia. rewrite !Z.sub_0_r, Z.mul_1_r in Hv. done.
  - rewrite (vle_base e) in Hv by lia. rewrite Z.sub_diag, Z.mul_1_r in Hv. apply Z.div_le_lower_bound; [apply Z.pow_pos_nonneg; lia|].
    replace (0 - e) with (- e) in Hv by lia. lia.
Qed.

Lemma SFltb_trans (a b c : spec_float) : SFltb a b = true -> SFltb b c = true -> SFltb a c = true.
Proof.
  destruct a as [[]|[]| |[] ma ea], b as [[]|[]| |[] mb eb], c as [[]|[]| |[] mc ec]; try done; unfold SFltb; cbn [SFcompare];
    fold (Pos.compare ma mb) (Pos.compare mb mc) (Pos.compare ma mc);
    destruct (Z.compare_spec ea eb), (Z.compare_spec eb ec), (Z.compare_spec ea ec); try (done || lia);
    destruct (Pos.compare_spec ma mb), (Pos.compare_spec mb mc), (Pos.compare_spec ma mc); (done || lia).
Qed.

Lemma SFltb_irrefl (x : spec_float) : SFltb x x = false.
Proof.
  destruct x as [[]|[]| |[] m e]; try done; unfold SFltb; cbn [SFcompare]; rewrite Z.compare_refl; fold (Pos.compare m m);
    by rewrite Pos.compare_refl.
Qed.

(** Not above a number that is below a third. *)
Lemma not_lt_trans (a b c : spec_float) : a <> S754_nan -> SFltb b a = false -> SFltb b c = true -> SFltb a c = true.
Proof.
  destruct a as [[]|[]| |[] ma ea], b as [[]|[]| |[] mb eb], c as [[]|[]| |[] mc ec]; try done; unfold SFltb; cbn [SFcompare];
    fold (Pos.compare ma mb) (Pos.compare mb mc) (Pos.compare ma mc) (Pos.compare mb ma);
    destruct (Z.compare_spec eb ea), (Z.compare_spec eb ec), (Z.compare_spec ea ec); try (done || lia);
    destruct (Pos.compare_spec mb ma), (Pos.compare_spec mb mc), (Pos.compare_spec ma mc); (done || lia).
Qed.
