(* ===== verification/Trust.v ===== *)
(** * Peer trust ([hiveguard-core/src/trust.rs])

    Trust scores from confirmed and refuted bans and seniority, the quorum
    test on the reporters of a ban, and the weighted suspicion score. Scores
    are IEEE doubles; clock readings are arguments. *)
From S2P Require Import Prelude Floats.
Local Open Scope Z_scope.

Record TrustScore : Type := {
  score : spec_float;
  true_positives : Z;
  false_positives : Z;
  joined_at : DateTime;
  minority_penalties : Z;
}.

Definition with_join_time (joined_at : DateTime) : TrustScore :=
  {| score := f64_lit 5 10; true_positives := 0; false_positives := 0; joined_at := joined_at;
     minority_penalties := 0 |}.

(** [TrustScore::new] at time [now]. *)
Definition trust_new (now : DateTime) : TrustScore := with_join_time now.

Definition founder (now : DateTime) : TrustScore :=
  {| score := f64_lit 1 1; true_positives := 100; false_positives := 0;
     joined_at := now - days 30; minority_penalties := 0 |}.

Record BanReport : Type := { reporter_id : string; event_weight : spec_float }.

Record TrustManager : Type := {
  trust_scores : gmap string TrustScore;
  ban_threshold : spec_float;
  ip_reports : gmap string (list BanReport);
}.

Definition manager_new (threshold : spec_float) : TrustManager :=
  {| trust_scores := ∅; ban_threshold := threshold; ip_reports := ∅ |}.

Definition set_scores (m : gmap string TrustScore) (tm : TrustManager) : TrustManager :=
  {| trust_scores := m; ban_threshold := ban_threshold tm; ip_reports := ip_reports tm |}.
Definition set_reports (m : gmap string (list BanReport)) (tm : TrustManager) : TrustManager :=
  {| trust_scores := trust_scores tm; ban_threshold := ban_threshold tm; ip_reports := m |}.

(** [entry(node_id).or_insert_with(..)] *)
Definition register_with (ts : TrustScore) (node_id : string) (tm : TrustManager) : TrustManager :=
  match trust_scores tm !! node_id with
  | Some _ => tm
  | None => set_scores (<[node_id := ts]> (trust_scores tm)) tm
  end.

Definition register_node (now : DateTime) (node_id : string) (tm : TrustManager) : TrustManager :=
  register_with (trust_new now) node_id tm.
Definition register_founder_node (now : DateTime) (node_id : string) (tm : TrustManager) : TrustManager :=
  register_with (founder now) node_id tm.
Definition register_node_with_time (node_id : string) (joined : DateTime) (tm : TrustManager) : TrustManager :=
  register_with (with_join_time joined) node_id tm.

Definition calculate_score (now : DateTime) (tp fp : Z) (joined : DateTime) : spec_float :=
  let base := f64_div (f64_of_u64 tp) (f64_add (f64_add (f64_of_u64 tp) (f64_of_u64 fp)) (f64_lit 1 1)) in
  let elapsed := now - joined in
  let seniority_bonus :=
    if days 7 <=? elapsed then f64_lit 2 10
    else if days 1 <=? elapsed then f64_lit 1 10
    else f64_lit 0 1 in
  sf_min (f64_add base seniority_bonus) (f64_lit 1 1).

Definition record_true_positive (now : DateTime) (node_id : string) (tm : TrustManager) : TrustManager :=
  set_scores (alter (fun ts =>
    let tp := u64_add (true_positives ts) 1 in
    {| score := calculate_score now tp (false_positives ts) (joined_at ts); true_positives := tp;
       false_positives := false_positives ts; joined_at := joined_at ts;
       minority_penalties := minority_penalties ts |}) node_id (trust_scores tm)) tm.

Definition record_false_positive (now : DateTime) (node_id : string) (tm : TrustManager) : TrustManager :=
  set_scores (alter (fun ts =>
    let fp := u64_add (false_positives ts) 1 in
    {| score := calculate_score now (true_positives ts) fp (joined_at ts);
       true_positives := true_positives ts; false_positives := fp; joined_at := joined_at ts;
       minority_penalties := minority_penalties ts |}) node_id (trust_scores tm)) tm.

Definition penalized (ts : TrustScore) : TrustScore :=
  {| score := sf_max (f64_mul (score ts) (f64_lit 9 10)) (f64_lit 1 10);
     true_positives := true_positives ts; false_positives := false_positives ts; joined_at := joined_at ts;
     minority_penalties := Z.min u32_max (minority_penalties ts + 1) |}.

Definition penalize_minority_reporter (node_id : string) (tm : TrustManager) : TrustManager :=
  set_scores (alter penalized node_id (trust_scores tm)) tm.

Definition should_enforce (reporters : list string) (tm : TrustManager) : bool :=
  let total := f64_sum (score <$> omap (fun r => trust_scores tm !! r) reporters) in
  sf_ge total (ban_threshold tm).

Definition record_ban_report (target_ip reporter : string) (weight : spec_float) (tm : TrustManager) : TrustManager :=
  set_reports (<[target_ip := default [] (ip_reports tm !! target_ip)
                              ++ [{| reporter_id := reporter; event_weight := weight |}]]> (ip_reports tm)) tm.

(** The highest weight each reporter gave, starting from zero. *)
Definition max_weight_per_reporter (reports : list BanReport) : gmap string spec_float :=
  foldl (fun m r =>
           let entry := default (f64_lit 0 1) (m !! reporter_id r) in
           <[reporter_id r := if sf_gt (event_weight r) entry then event_weight r else entry]> m) ∅ reports.

Section manager.
Context `{HashOrder}.

Definition weighted_suspicion_score (target_ip : string) (tm : TrustManager) : spec_float :=
  match ip_reports tm !! target_ip with
  | None => f64_lit 0 1
  | Some reports =>
      let m := max_weight_per_reporter reports in
      f64_sum ((fun reporter =>
        let v := default (f64_lit 0 1) (m !! reporter) in
        let w := match trust_scores tm !! reporter with Some ts => score ts | None => f64_lit 0 1 end in
        f64_mul w v) <$> hash_keys (dom m))
  end.

Definition should_global_ban (target_ip : string) (tm : TrustManager) : bool :=
  sf_ge (weighted_suspicion_score target_ip tm) (ban_threshold tm).

Definition clear_reports (target_ip : string) (tm : TrustManager) : TrustManager :=
  set_reports (delete target_ip (ip_reports tm)) tm.

Definition distinct_reporters (reports : list BanReport) : list string := sort_dedup (reporter_id <$> reports).

(** The targets of [drain_isolated_reports]. *)
Definition isolated (min_corroboration : nat) (tm : TrustManager) (ip : string) : bool :=
  match ip_reports tm !! ip with
  | None => false
  | Some reports =>
      negb (sf_ge (weighted_suspicion_score ip tm) (ban_threshold tm)) &&
      (length (distinct_reporters reports) <? min_corroboration)%nat
  end.

Definition drain_one (st : TrustManager * list string) (ip : string) : TrustManager * list string :=
  let '(tm, penalized) := st in
  match ip_reports tm !! ip with
  | None => (tm, penalized)
  | Some reports =>
      let distinct := distinct_reporters reports in
      (foldl (fun tm r => penalize_minority_reporter r tm) (clear_reports ip tm) distinct,
       penalized ++ distinct)
  end.

Definition drain_isolated_reports (min_corroboration : nat) (tm : TrustManager) : TrustManager * list string :=
  let to_penalize := List.filter (isolated min_corroboration tm) (hash_keys (dom (ip_reports tm))) in
  foldl drain_one (tm, []) to_penalize.
End manager.

Definition is_in_grace_period (now : DateTime) (node_id : string) (tm : TrustManager) : bool :=
  match trust_scores tm !! node_id with
  | Some ts => now - joined_at ts <? days 1
  | None => true
  end.

Definition effective_threshold (now : DateTime) (node_id : string) (tm : TrustManager) : spec_float :=
  if is_in_grace_period now node_id tm then f64_mul (ban_threshold tm) (f64_lit 2 1) else ban_threshold tm.

(** ** Scores stay in the unit interval *)
Inductive trust_op : Type :=
| TRegister (now : DateTime) (n : string)
| TFounder (now : DateTime) (n : string)
| TRegisterAt (n : string) (joined : DateTime)
| TTruePositive (now : DateTime) (n : string)
| TFalsePositive (now : DateTime) (n : string)
| TPenalize (n : string)
| TReport (ip n : string) (w : spec_float)
| TClear (ip : string)
| TDrain (min_corroboration : nat).

Definition trust_step `{HashOrder} (tm : TrustManager) (o : trust_op) : TrustManager :=
  match o with
  | TRegister now n => register_node now n tm
  | TFounder now n => register_founder_node now n tm
  | TRegisterAt n j => register_node_with_time n j tm
  | TTruePositive now n => record_true_positive now n tm
  | TFalsePositive now n => record_false_positive now n tm
  | TPenalize n => penalize_minority_reporter n tm
  | TReport ip n w => record_ban_report ip n w tm
  | TClear ip => clear_reports ip tm
  | TDrain k => (drain_isolated_reports k tm).1
  end.

(** Every score is in range, and the counters are at their width. *)
Definition ts_ok (ts : TrustScore) : Prop :=
  f64_unit (score ts) /\ 0 <= true_positives ts /\ 0 <= false_positives ts.
Definition scores_ok (tm : TrustManager) : Prop :=
  forall n ts, trust_scores tm !! n = Some ts -> ts_ok ts.

Lemma lit_one : f64_lit 1 1 = f64_one.
Proof. vm_compute. reflexivity. Qed.

Lemma calculate_unit (now : DateTime) (tp fp : Z) (joined : DateTime) :
  0 <= tp -> 0 <= fp -> f64_unit (calculate_score now tp fp joined).
Proof.
  intros Htp Hfp. unfold calculate_score. rewrite lit_one. apply sf_min_one.
  assert (Hone : nonneg_ok 53 f64_one) by (vm_compute; reflexivity).
  apply add_nonneg; [lia..| |].
  - apply div_nonneg; [lia..|by apply of_Z_nonneg; lia|].
    apply add_nonneg; [lia..| |done]. apply add_nonneg; [lia..| |]; by apply of_Z_nonneg; lia.
  - repeat case_match; vm_compute; done.
Qed.

Lemma u64_add_nonneg (a b : Z) : 0 <= u64_add a b.
Proof. unfold u64_add. pose proof (wrap_range 64 (a + b)). unfold in_width in *. lia. Qed.

Lemma scores_ok_register (ts : TrustScore) (n : string) (tm : TrustManager) :
  ts_ok ts -> scores_ok tm -> scores_ok (register_with ts n tm).
Proof.
  intros Hts Htm. unfold register_with. destruct (trust_scores tm !! n); [done|].
  intros k t Hk. simpl in Hk. apply lookup_insert_Some in Hk as [[_ <-]|[_ Hk]]; [done|eauto].
Qed.

Lemma scores_ok_alter (f : TrustScore -> TrustScore) (n : string) (tm : TrustManager) :
  (forall ts, ts_ok ts -> ts_ok (f ts)) -> scores_ok tm ->
  scores_ok (set_scores (alter f n (trust_scores tm)) tm).
Proof.
  intros Hf Htm k t Hk. simpl in Hk. rewrite lookup_alter in Hk. case_decide as Hd; [|eauto].
  apply fmap_Some in Hk as (t' & E & ->). apply Hf. by eapply Htm.
Qed.

Lemma penalized_ok (ts : TrustScore) : ts_ok ts -> ts_ok (penalized ts).
Proof.
  intros (Hs & ? & ?). split_and!; try done. simpl. apply sf_max_unit.
  - apply mul_unit; [lia|lia|done|vm_compute; done].
  - vm_compute. split; [done|by left].
Qed.

Lemma scores_ok_penalize (l : list string) (tm : TrustManager) :
  scores_ok tm -> scores_ok (foldl (fun tm r => penalize_minority_reporter r tm) tm l).
Proof.
  revert tm. induction l as [|n l IH]; intros tm Htm; simpl; [done|].
  apply IH. by apply scores_ok_alter; [apply penalized_ok|].
Qed.

Lemma scores_ok_drain (l : list string) (st : TrustManager * list string) :
  scores_ok st.1 -> scores_ok (foldl drain_one st l).1.
Proof.
  revert st. induction l as [|ip l IH]; intros [tm p] Htm; simpl; [done|]. apply IH.
  destruct (ip_reports tm !! ip); [|done]. simpl. by apply scores_ok_penalize.
Qed.

Lemma trust_step_ok `{HashOrder} (tm : TrustManager) (o : trust_op) :
  scores_ok tm -> scores_ok (trust_step tm o).
Proof.
  intros Htm. destruct o; simpl.
  - apply scores_ok_register; [|done]. split_and!; simpl; try lia. vm_compute. split; [done|by left].
  - apply scores_ok_register; [|done]. split_and!; [|vm_compute; congruence..].
    vm_compute. split; [done|right; split; congruence].
  - apply scores_ok_register; [|done]. split_and!; simpl; try lia. vm_compute. split; [done|by left].
  - apply scores_ok_alter; [|done]. intros ts (? & ? & ?).
    split_and!; simpl; try done; [|apply u64_add_nonneg]. apply calculate_unit; [apply u64_add_nonneg|done].
  - apply scores_ok_alter; [|done]. intros ts (? & ? & ?).
    split_and!; simpl; try done; [|apply u64_add_nonneg]. apply calculate_unit; [done|apply u64_add_nonneg].
  - by apply scores_ok_alter; [apply penalized_ok|].
  - done.
  - done.
  - by apply scores_ok_drain.
Qed.

Lemma trust_run_ok `{HashOrder} (ops : list trust_op) (tm : TrustManager) :
  scores_ok tm -> scores_ok (foldl trust_step tm ops).
Proof. revert tm. induction ops as [|o ops IH]; intros tm Htm; simpl; auto using trust_step_ok. Qed.

(** C26: Trust stays a proportion. Whatever happens to a peer (confirmed and
    refuted bans, seniority, repeated minority penalties, founder status), its
    score is a number between 0 and 1, in double precision rounding. *)
Theorem trust_in_unit_interval `{HashOrder} (threshold : spec_float) (ops : list trust_op)
  (n : string) (ts : TrustScore)
  (Hn : trust_scores (foldl trust_step (manager_new threshold) ops) !! n = Some ts) :
  sf_ge (score ts) f64_zero = true /\ sf_ge f64_one (score ts) = true.
Proof.
  assert (Hok : scores_ok (foldl trust_step (manager_new threshold) ops))
    by (apply trust_run_ok; intros k t; simpl; by rewrite lookup_empty).
  destruct (Hok n ts Hn) as [Hu _]. unfold sf_ge. apply unit_ok_range; [lia|done].
Qed.

Lemma sum_one (x : spec_float) : f64_unit x -> f64_sum [x] = x.
Proof. unfold f64_sum. simpl. by destruct x as [[]|s| |[] m e]. Qed.

Lemma threshold_above_unit (x t : spec_float) :
  f64_unit x -> SFltb f64_one t = true -> SFleb t x = false.
Proof.
  intros Hx Ht. destruct (unit_ok_range 53 ltac:(lia) x Hx) as [_ Hle].
  destruct t as [s|[]| |[] mt et], x as [[]|s'| |[] mx ex]; try done.
  unfold SFltb, SFleb, SFcompare, sf_one in *. revert Ht Hle. clear Hx.
  generalize (Z.to_pos (2 ^ (53 - 1))) as one. intros one.
  fold (Pos.compare one mt) (Pos.compare mx one) (Pos.compare mt mx).
  destruct (Z.compare_spec (1 - 53) et) as [H1|H1|H1], (Z.compare_spec ex (1 - 53)) as [H2|H2|H2],
    (Z.compare_spec et ex) as [H3|H3|H3]; try done; try (exfalso; lia).
  destruct (Pos.compare_spec one mt), (Pos.compare_spec mx one), (Pos.compare_spec mt mx);
    try done; exfalso; lia.
Qed.

Lemma penalize_all (l : list string) (tm : TrustManager) :
  let tm' := foldl (fun tm r => penalize_minority_reporter r tm) tm l in
  ban_threshold tm' = ban_threshold tm /\ ip_reports tm' = ip_reports tm /\
  forall n, n ∉ l -> trust_scores tm' !! n = trust_scores tm !! n.
Proof.
  revert tm. induction l as [|r l IH]; intros tm; simpl; [done|].
  destruct (IH (penalize_minority_reporter r tm)) as (E1 & E2 & E3). split_and!; [done..|].
  intros n Hn. rewrite E3 by set_solver. simpl. apply lookup_alter_ne. set_solver.
Qed.

(** The fold of [drain_isolated_reports] over distinct targets. *)
Lemma drain_fold (l : list string) (tm : TrustManager) (pen : list string) : NoDup l ->
  let '(tm', pen') := foldl drain_one (tm, pen) l in
  ban_threshold tm' = ban_threshold tm /\
  (forall ip, ip_reports tm' !! ip = if decide (ip ∈ l) then None else ip_reports tm !! ip) /\
  (forall n, n ∈ pen' <-> n ∈ pen \/ exists ip reports, ip ∈ l /\ ip_reports tm !! ip = Some reports /\
     n ∈ reporter_id <$> reports) /\
  (forall n, n ∉ pen' -> trust_scores tm' !! n = trust_scores tm !! n).
Proof.
  revert tm pen. induction l as [|ip l IH]; intros tm pen Hnd; cbn [foldl].
  { split_and!; [done|intros ip; by rewrite decide_False by set_solver|set_solver|done]. }
  apply NoDup_cons in Hnd as [Hip Hnd]. unfold drain_one at 2.
  destruct (ip_reports tm !! ip) as [reports|] eqn:Er.
  - set (d := distinct_reporters reports).
    assert (Hd : forall n, n ∈ d <-> n ∈ reporter_id <$> reports).
    { intros n. unfold d, distinct_reporters, sort_dedup. rewrite sort_strings_perm, elem_of_elements.
      apply elem_of_list_to_set. }
    destruct (penalize_all d (clear_reports ip tm)) as (P1 & P2 & P3).
    specialize (IH (foldl (fun tm r => penalize_minority_reporter r tm) (clear_reports ip tm) d) (pen ++ d) Hnd).
    destruct (foldl drain_one _ l) as [tm' pen']. destruct IH as (I1 & I2 & I3 & I4).
    rewrite P1 in I1. rewrite P2 in I2, I3. simpl in *. split_and!; [done| | |].
    + intros ip'. rewrite I2, lookup_delete.
      destruct (decide (ip' = ip)) as [->|Hne].
      * rewrite (decide_True (P := ip ∈ ip :: l)) by set_solver. rewrite decide_False by done. by rewrite decide_True.
      * rewrite (decide_False (P := ip = ip')) by done.
        destruct (decide (ip' ∈ l)); [rewrite decide_True by set_solver|rewrite decide_False by set_solver]; done.
    + intros n. rewrite I3, elem_of_app, Hd. split.
      * intros [[?|Hn]|(ip' & rs & Hl & Hrs & Hn)]; [by left|right|right].
        -- exists ip, reports. set_solver.
        -- apply lookup_delete_Some in Hrs as [_ Hrs]. exists ip', rs. set_solver.
      * intros [?|(ip' & rs & Hl & Hrs & Hn)]; [by do 2 left|].
        apply elem_of_cons in Hl as [->|Hl]; [left; right; by simplify_eq|].
        right. exists ip', rs. rewrite lookup_delete_ne by set_solver. done.
    + intros n Hn. rewrite I4 by done. apply P3. intros Hin. apply Hn, I3. left. set_solver.
  - specialize (IH tm pen Hnd). destruct (foldl drain_one _ l) as [tm' pen'].
    destruct IH as (I1 & I2 & I3 & I4). split_and!; [done| | |done].
    + intros ip'. rewrite I2. destruct (decide (ip' = ip)) as [->|Hne].
      * rewrite (decide_True (P := ip ∈ ip :: l)) by set_solver. by rewrite decide_False.
      * destruct (decide (ip' ∈ l)); [rewrite decide_True by set_solver|rewrite decide_False by set_solver]; done.
    + intros n. rewrite I3. split; (intros [?|(ip' & rs & Hl & Hrs & Hn)]; [by left|right]); exists ip', rs.
      * set_solver.
      * apply elem_of_cons in Hl as [->|Hl]; [congruence|done].
Qed.

Lemma trust_step_threshold `{HashOrder} (tm : TrustManager) (o : trust_op) :
  ban_threshold (trust_step tm o) = ban_threshold tm.
Proof.
  destruct o as [| | | | | | | |k]; simpl; try done; try (unfold register_node, register_founder_node, register_node_with_time, register_with; by case_match).
  unfold drain_isolated_reports. generalize (List.filter (isolated k tm) (hash_keys (dom (ip_reports tm)))) as l.
  generalize ([] : list string) as pen. intros pen l. revert tm pen. induction l as [|ip l IH]; intros tm pen; simpl; [done|].
  destruct (ip_reports tm !! ip); [|by apply IH]. rewrite IH.
  by rewrite (proj1 (penalize_all _ (clear_reports ip tm))).
Qed.

(** No single node can get a ban enforced. With a threshold above 1.0 (the
    default is 2.0) one reporter, however trusted, a founder included, never
    reaches the quorum. *)
Theorem no_lone_reporter_quorum `{HashOrder} (threshold : spec_float) (ops : list trust_op) (n : string)
  (Ht : SFltb f64_one threshold = true) :
  should_enforce [n] (foldl trust_step (manager_new threshold) ops) = false.
Proof.
  set (tm := foldl _ _ _).
  assert (Hok : scores_ok tm) by (apply trust_run_ok; intros k t; simpl; by rewrite lookup_empty).
  assert (Hthr : ban_threshold tm = threshold).
  { subst tm. clear Hok. assert (Hm : ban_threshold (manager_new threshold) = threshold) by done. revert Hm.
    generalize (manager_new threshold) as m. induction ops as [|o ops IH]; intros m Hm; simpl; [done|].
    apply IH. by rewrite trust_step_threshold. }
  unfold should_enforce, sf_ge. rewrite Hthr. simpl.
  destruct (trust_scores tm !! n) as [ts|] eqn:E; simpl.
  - rewrite sum_one by apply (Hok n ts E). apply threshold_above_unit; [apply (Hok n ts E)|done].
  - by destruct threshold as [|[]| |[] m e].
Qed.

(** Only isolated reporters are penalized. Draining clears exactly the
    reports of targets that neither reach the threshold nor have the required
    number of distinct reporters, penalizes exactly the reporters of those
    targets, and leaves every other report and every other node's trust as it
    was. *)
Theorem drain_only_isolated `{HashOrder} {order : HashOrderLaws} (k : nat) (tm : TrustManager) :
  let '(tm', pen) := drain_isolated_reports k tm in
  (forall ip, ip_reports tm' !! ip = if isolated k tm ip then None else ip_reports tm !! ip) /\
  (forall n, n ∈ pen <-> exists ip reports, isolated k tm ip = true /\ ip_reports tm !! ip = Some reports /\
     n ∈ reporter_id <$> reports) /\
  (forall n, n ∉ pen -> trust_scores tm' !! n = trust_scores tm !! n).
Proof.
  unfold drain_isolated_reports. set (l := List.filter _ _).
  assert (Hl : forall ip, ip ∈ l <-> isolated k tm ip = true).
  { intros ip. unfold l. rewrite elem_of_lfilter, hash_keys_perm, elem_of_elements, elem_of_dom.
    split; [by intros [_ ?]|]. intros Hi. split; [|done]. unfold isolated in Hi. by case_match. }
  assert (Hnd : NoDup l).
  { unfold l. apply NoDup_ListNoDup, List.NoDup_filter, NoDup_ListNoDup. rewrite hash_keys_perm. apply NoDup_elements. }
  pose proof (drain_fold l tm [] Hnd) as Hf. destruct (foldl drain_one (tm, []) l) as [tm' pen].
  destruct Hf as (_ & F2 & F3 & F4). split_and!; [| |done].
  - intros ip. rewrite F2. destruct (isolated k tm ip) eqn:E; [by rewrite decide_True by by apply Hl|].
    rewrite decide_False; [done|]. rewrite Hl. congruence.
  - intros n. rewrite F3. setoid_rewrite Hl. set_solver.
Qed.

(** ** Witnesses *)
Module TrustSample.
#[local] Instance order : HashOrder := fun X => elements X.
#[local] Instance order_laws : HashOrderLaws.
Proof. intros X. done. Qed.

Definition ops : list trust_op :=
  [TFounder 0 "a"; TRegister 0 "b"; TTruePositive (days 8) "b"; TPenalize "b"].

Lemma trust_in_unit_interval_witness :
  exists ts, trust_scores (foldl trust_step (manager_new (f64_lit 2 1)) ops) !! "b" = Some ts /\
    sf_ge f64_one (score ts) = true.
Proof.
  eexists. split; [vm_compute; reflexivity|].
  refine (proj2 (trust_in_unit_interval (f64_lit 2 1) ops "b" _ _)). vm_compute. reflexivity.
Defined.

Lemma no_lone_reporter_quorum_witness :
  should_enforce ["a"] (foldl trust_step (manager_new (f64_lit 2 1)) ops) = false.
Proof. apply (no_lone_reporter_quorum (f64_lit 2 1) ops "a"). vm_compute. reflexivity. Defined.

Definition reported : TrustManager :=
  foldl trust_step (manager_new (f64_lit 2 1)) (ops ++ [TReport "9.9.9.9" "b" (f64_lit 1 1)]).

Lemma drain_only_isolated_witness : "b" ∈ (drain_isolated_reports 2 reported).2.
Proof.
  pose proof (drain_only_isolated 2 reported) as Hd.
  destruct (drain_isolated_reports 2 reported) as [tm' pen]. destruct Hd as (_ & Hp & _).
  apply (proj2 (Hp "b")). exists "9.9.9.9". eexists. split; [vm_compute; reflexivity|].
  split; [vm_compute; reflexivity|]. left.
Defined.
End TrustSample.
