(* ===== verification/Signed.v ===== *)
(** * Proof of work and signed ban records
    ([hiveguard-core/src/hashcash.rs], [hiveguard-net/src/signed_record.rs])

    The hashcash stamp, the signed record that carries it between nodes, and
    the cache that keeps a record from being mined twice. Hashing, signatures
    and serialization belong to crates outside the repository and are
    parameters. *)
From S2P Require Import Prelude Models.
Local Open Scope Z_scope.

(** ** Hashcash *)
Record PowStamp : Type := { nonce : Z; difficulty : Z }.

#[export] Instance PowStamp_eq_dec : EqDecision PowStamp.
Proof. solve_decision. Defined.

Definition MIN_DIFFICULTY : Z := 16.

(** The loop over the first [full_bytes] bytes, then the partial byte. The
    index is in range: a difficulty is at most 255 and a hash has 32 bytes. *)
Definition has_leading_zeros (hash : list Z) (full_bytes remainder : nat) : bool :=
  forallb (fun b => b =? 0) (take full_bytes hash) &&
  (if (0 <? remainder)%nat
   then let mask := wrap 8 (Z.shiftl 255 (Z.of_nat (8 - remainder))) in
        Z.land (default 0 (hash !! full_bytes)) mask =? 0
   else true).

Section pow.
Context `{Blake3}.

Definition compute_hash (nonce : Z) (data : list Z) : list Z := blake3 (to_le_bytes 8 nonce ++ data).

Definition attempt (canonical : list Z) (d : Z) (n : Z) : bool :=
  has_leading_zeros (compute_hash n canonical) (Z.to_nat (d / 8)) (Z.to_nat (d mod 8)).

(** [for nonce in n..n+count]: the first success. The count is binary so that
    the search can be evaluated. *)
Fixpoint mine_range (canonical : list Z) (d : Z) (count : positive) (n : Z) : option Z :=
  match count with
  | xH => if attempt canonical d n then Some n else None
  | xO c => match mine_range canonical d c n with
            | Some k => Some k
            | None => mine_range canonical d c (n + Z.pos c)
            end
  | xI c => if attempt canonical d n then Some n else
            match mine_range canonical d c (n + 1) with
            | Some k => Some k
            | None => mine_range canonical d c (n + 1 + Z.pos c)
            end
  end.

Definition mine (canonical : list Z) (d : Z) (max_attempts : Z) : option PowStamp :=
  match max_attempts with
  | Z.pos c => (fun k => {| nonce := k; difficulty := d |}) <$> mine_range canonical d c 0
  | _ => None
  end.

Definition pow_verify (s : PowStamp) (canonical : list Z) : result unit string :=
  if difficulty s <? MIN_DIFFICULTY then Err "PoW difficulty below minimum"
  else if attempt canonical (difficulty s) (nonce s) then Ok tt
  else Err "PoW verification failed".

Lemma mine_range_spec (canonical : list Z) (d : Z) (count : positive) (n : Z) :
  match mine_range canonical d count n with
  | Some k => n <= k < n + Z.pos count /\ attempt canonical d k = true /\
      forall j, n <= j < k -> attempt canonical d j = false
  | None => forall j, n <= j < n + Z.pos count -> attempt canonical d j = false
  end.
Proof.
  assert (Hone : forall m, (attempt canonical d m = false) -> forall j, m <= j < m + 1 -> attempt canonical d j = false)
    by (intros m Hm j Hj; replace j with m by lia; done).
  revert n. induction count as [c IH|c IH|]; intros n; cbn [mine_range].
  - destruct (attempt canonical d n) eqn:E; [split_and!; [lia..|done|lia]|].
    pose proof (IH (n + 1)) as H1. destruct (mine_range canonical d c (n + 1)) as [k|].
    { destruct H1 as (? & ? & Hlt). split_and!; [lia..|done|]. intros j Hj.
      destruct (decide (j = n)) as [->|]; [done|]. apply Hlt. lia. }
    pose proof (IH (n + 1 + Z.pos c)) as H2. destruct (mine_range _ _ _ (n + 1 + Z.pos c)) as [k|].
    + destruct H2 as (? & ? & Hlt). split_and!; [lia..|done|]. intros j Hj.
      destruct (decide (j = n)) as [->|]; [done|].
      destruct (decide (j < n + 1 + Z.pos c)); [apply H1; lia|apply Hlt; lia].
    + intros j Hj. destruct (decide (j = n)) as [->|]; [done|].
      destruct (decide (j < n + 1 + Z.pos c)); [apply H1; lia|apply H2; lia].
  - pose proof (IH n) as H1. destruct (mine_range canonical d c n) as [k|].
    { destruct H1 as (? & ? & Hlt). split_and!; [lia..|done|done]. }
    pose proof (IH (n + Z.pos c)) as H2. destruct (mine_range _ _ _ (n + Z.pos c)) as [k|].
    + destruct H2 as (? & ? & Hlt). split_and!; [lia..|done|]. intros j Hj.
      destruct (decide (j < n + Z.pos c)); [apply H1; lia|apply Hlt; lia].
    + intros j Hj. destruct (decide (j < n + Z.pos c)); [apply H1; lia|apply H2; lia].
  - destruct (attempt canonical d n) eqn:E; [split_and!; [lia..|done|lia]|by apply Hone].
Qed.

(** A stamp found by [mine]. *)
Lemma mine_Some (canonical : list Z) (d max : Z) (s : PowStamp) :
  mine canonical d max = Some s -> difficulty s = d /\ 0 <= nonce s < max /\
    attempt canonical d (nonce s) = true /\ forall j, 0 <= j < nonce s -> attempt canonical d j = false.
Proof.
  unfold mine. destruct max as [|c|c]; try done. intros Hs.
  pose proof (mine_range_spec canonical d c 0) as Hr.
  destruct (mine_range canonical d c 0) as [k|]; simplify_eq/=.
  destruct Hr as (? & ? & ?). split_and!; try done; lia.
Qed.
End pow.

(** The hash as the big-endian number it denotes. *)
Fixpoint be_value (bs : list Z) : Z :=
  match bs with
  | [] => 0
  | b :: bs' => b * 256 ^ Z.of_nat (length bs') + be_value bs'
  end.

Lemma be_value_range (bs : list Z) :
  Forall (in_width 8) bs -> 0 <= be_value bs < 256 ^ Z.of_nat (length bs).
Proof.
  induction 1 as [|b bs Hb _ IH]; simpl; [lia|].
  rewrite Nat2Z.inj_succ, Z.pow_succ_r by lia. unfold in_width in Hb. nia.
Qed.

(** The partial byte, by trying all bytes. *)
Lemma mask_byte (b : Z) (r : nat) : in_width 8 b -> (0 < r < 8)%nat ->
  Z.land b (wrap 8 (Z.shiftl 255 (Z.of_nat (8 - r)))) = 0 <-> b < 2 ^ Z.of_nat (8 - r).
Proof.
  intros Hb Hr.
  assert (Hall : forallb (fun b => forallb (fun r =>
      Bool.eqb (Z.land (Z.of_nat b) (wrap 8 (Z.shiftl 255 (Z.of_nat (8 - r)))) =? 0)
        (Z.of_nat b <? 2 ^ Z.of_nat (8 - r))) (seq 1 7)) (seq 0 256) = true) by (vm_compute; reflexivity).
  rewrite forallb_forall in Hall. unfold in_width in Hb.
  specialize (Hall (Z.to_nat b) ltac:(apply in_seq; lia)). rewrite forallb_forall in Hall.
  specialize (Hall r ltac:(apply in_seq; lia)). apply Bool.eqb_prop in Hall.
  rewrite Z2Nat.id in Hall by lia. rewrite <- Z.eqb_eq, <- Z.ltb_lt. by rewrite Hall.
Qed.

Lemma leading_zeros_value (bs : list Z) (fb r : nat) :
  Forall (in_width 8) bs -> (r < 8)%nat -> (8 * fb + r <= 8 * length bs)%nat ->
  has_leading_zeros bs fb r = true <-> be_value bs < 2 ^ Z.of_nat (8 * length bs - (8 * fb + r)).
Proof.
  intros Hbs Hr. revert fb. induction Hbs as [|b bs Hb Hbs IH]; intros fb Hlen.
  { simpl in Hlen. assert (fb = 0 /\ r = 0)%nat as [-> ->] by lia. simpl. split; [lia|done]. }
  pose proof (be_value_range bs Hbs) as Hv. unfold in_width in Hb.
  assert (Hpow : forall k, 256 ^ Z.of_nat k = 2 ^ Z.of_nat (8 * k)).
  { intros k. replace 256 with (2 ^ 8) by done. rewrite <- Z.pow_mul_r by lia. f_equal. lia. }
  destruct fb as [|fb].
  - unfold has_leading_zeros. simpl take. simpl forallb. cbn [andb lookup list_lookup default from_option id].
    destruct (Nat.ltb_spec 0 r) as [Hpos|Hz].
    + rewrite Z.eqb_eq, mask_byte by (done || lia). cbn [be_value length].
      replace (8 * S (length bs) - (8 * 0 + r))%nat with ((8 - r) + 8 * length bs)%nat by lia.
      rewrite Nat2Z.inj_add, Z.pow_add_r, <- Hpow by lia.
      split; intros Hlt; nia.
    + assert (r = 0%nat) as -> by lia. cbn [be_value]. split; [intros _|done].
      replace (8 * length (b :: bs) - (8 * 0 + 0))%nat with (8 + 8 * length bs)%nat by (simpl; lia).
      rewrite Nat2Z.inj_add, Z.pow_add_r, <- Hpow by lia. change (2 ^ Z.of_nat 8) with 256. nia.
  - simpl in Hlen. specialize (IH fb ltac:(lia)).
    transitivity (b = 0 /\ has_leading_zeros bs fb r = true).
    { unfold has_leading_zeros. cbn [take forallb lookup list_lookup].
      rewrite !andb_true_iff, Z.eqb_eq. tauto. }
    rewrite IH. cbn [be_value].
    replace (8 * length (b :: bs) - (8 * S fb + r))%nat with (8 * length bs - (8 * fb + r))%nat by (simpl; lia).
    assert (2 ^ Z.of_nat (8 * length bs - (8 * fb + r)) <= 256 ^ Z.of_nat (length bs)) as Hle
      by (rewrite Hpow; apply Z.pow_le_mono_r; lia).
    split; [intros [-> ?]; lia|]. intros Hlt. assert (b = 0) as -> by nia. split; [done|lia].
Qed.

Section pow_theorems.
Context `{Blake3} {hash_laws : Blake3Laws}.

Lemma attempt_value (canonical : list Z) (d n : Z) : 0 <= d < 256 ->
  attempt canonical d n = true <-> be_value (compute_hash n canonical) < 2 ^ (256 - d).
Proof using hash_laws.
  intros Hd. unfold attempt.
  assert (Hlen : length (compute_hash n canonical) = 32%nat) by apply blake3_length.
  pose proof (Z.div_mod d 8 ltac:(lia)). pose proof (Z.mod_pos_bound d 8 ltac:(lia)).
  assert (0 <= d / 8) by (apply Z.div_pos; lia).
  rewrite leading_zeros_value, Hlen; [|apply blake3_bytes|lia|lia].
  replace (Z.of_nat (8 * 32 - (8 * Z.to_nat (d / 8) + Z.to_nat (d mod 8)))) with (256 - d) by lia. done.
Qed.

(** A stamp is accepted exactly when its hash, read as a 256-bit number, is
    below [2^(256 - difficulty)] and the difficulty is at least the minimum;
    so a stamp of difficulty [d] proves [d] leading zero bits. *)
Theorem pow_verify_exact (s : PowStamp) (canonical : list Z) (Hd : in_width 8 (difficulty s)) :
  pow_verify s canonical = Ok tt <->
  MIN_DIFFICULTY <= difficulty s /\
  be_value (compute_hash (nonce s) canonical) < 2 ^ (256 - difficulty s).
Proof using hash_laws.
  unfold pow_verify, in_width in *. rewrite <- attempt_value by lia.
  destruct (Z.ltb_spec (difficulty s) MIN_DIFFICULTY).
  - split; [done|lia].
  - destruct (attempt _ _ _); split; try done. by intros [_ ?].
Qed.

(** Mining is a complete search: it returns the least nonce below
    [max_attempts] whose hash has the required leading zeros, that stamp passes
    verification, and it fails only when no such nonce exists. *)
Theorem mine_complete (canonical : list Z) (d max : Z)
  (Hd : MIN_DIFFICULTY <= d < 256) (Hmax : 0 <= max) :
  match mine canonical d max with
  | Some s => difficulty s = d /\ 0 <= nonce s < max /\ pow_verify s canonical = Ok tt /\
      forall j, 0 <= j < nonce s -> 2 ^ (256 - d) <= be_value (compute_hash j canonical)
  | None => forall j, 0 <= j < max -> 2 ^ (256 - d) <= be_value (compute_hash j canonical)
  end.
Proof using hash_laws.
  unfold MIN_DIFFICULTY in Hd.
  assert (Hno : forall j, attempt canonical d j = false -> 2 ^ (256 - d) <= be_value (compute_hash j canonical)).
  { intros j Hj. apply Z.nlt_ge. intros Hlt. apply attempt_value in Hlt; [congruence|lia]. }
  destruct (mine canonical d max) as [s|] eqn:E.
  - apply mine_Some in E as (E1 & Hn & Hok & Hmin). split_and!; try done; try lia.
    + unfold pow_verify. rewrite E1, Hok. unfold MIN_DIFFICULTY. destruct (Z.ltb_spec d 16); [lia|done].
    + intros j Hj. by apply Hno, Hmin.
  - unfold mine in E. destruct max as [|c|c]; [lia| |lia]. intros j Hj. apply Hno.
    pose proof (mine_range_spec canonical d c 0) as Hr.
    destruct (mine_range canonical d c 0); [done|]. apply Hr. lia.
Qed.
End pow_theorems.

(** ** Signed records *)

(** The [ring] crate's Ed25519: keys from PKCS#8 bytes, signing, and
    verification against a raw public key. *)
Class Ed25519 : Type := {
  key_pair : Type;
  from_pkcs8 : list Z -> option key_pair;
  public_key : key_pair -> list Z;
  ed_sign : key_pair -> list Z -> list Z;
  ed_verify : list Z -> list Z -> list Z -> bool;
}.
Class Ed25519Laws `{Ed25519} : Prop :=
  ed_verify_sign (k : key_pair) (msg : list Z) : ed_verify (public_key k) msg (ed_sign k msg) = true.

(** [bincode::serialize] of a ban record. *)
Class BincodeSer (A : Type) : Type := bincode_serialize : A -> option (list Z).

Record SignedBanRecord : Type := {
  sb_record : BanRecord;
  signer_id : string;
  signature : list Z;
  pow : PowStamp;
}.

#[export] Instance SignedBanRecord_eq_dec : EqDecision SignedBanRecord.
Proof. solve_decision. Defined.

Record SigningCache : Type := {
  sc_entries : gmap (list Z) SignedBanRecord;
  sc_capacity : nat;
  insertion_order : list (list Z);
  hits : Z;
  misses : Z;
}.

Definition DEFAULT_CAPACITY : nat := Z.to_nat 8192.

Definition cache_new (capacity : nat) : SigningCache :=
  {| sc_entries := ∅; sc_capacity := Nat.max capacity 1; insertion_order := []; hits := 0; misses := 0 |}.

Section signed.
Context `{Blake3} `{Ed25519} `{BincodeSer BanRecord}.

Definition sign_canonical (record : BanRecord) (canonical : list Z) (local_node_id : string)
    (pkcs8 : list Z) (d : Z) : hresult SignedBanRecord :=
  match from_pkcs8 pkcs8 with
  | None => Err (EProtocol "sign: invalid Ed25519 PKCS#8 key")
  | Some k =>
      let signature := ed_sign k canonical in
      match mine canonical d u64_max with
      | None => Err (EProtocol "PoW mining exhausted nonce space")
      | Some stamp => Ok {| sb_record := record; signer_id := local_node_id; signature := signature; pow := stamp |}
      end
  end.

Definition sign (record : BanRecord) (local_node_id : string) (pkcs8 : list Z) (d : Z)
    : hresult SignedBanRecord :=
  match bincode_serialize record with
  | None => Err (EProtocol "sign: serialize error")
  | Some canonical => sign_canonical record canonical local_node_id pkcs8 d
  end.

Definition sb_verify (s : SignedBanRecord) (public_key_raw : list Z) : hresult unit :=
  match bincode_serialize (sb_record s) with
  | None => Err (EProtocol "verify: serialize error")
  | Some canonical =>
      if negb (ed_verify public_key_raw canonical (signature s))
      then Err (EProtocol "invalid signature")
      else match pow_verify (pow s) canonical with
           | Err e => Err (EProtocol e)
           | Ok _ => Ok tt
           end
  end.

Definition cache_key (local_node_id : string) (d : Z) (canonical : list Z) : list Z :=
  blake3 (as_bytes local_node_id ++ [d] ++ canonical).

(** The eviction step: at capacity, drop the oldest entry. *)
Definition evict (c : SigningCache) : SigningCache :=
  if (sc_capacity c <=? size (sc_entries c))%nat then
    match insertion_order c with
    | oldest :: rest =>
        {| sc_entries := delete oldest (sc_entries c); sc_capacity := sc_capacity c;
           insertion_order := rest; hits := hits c; misses := misses c |}
    | [] => c
    end
  else c.

Definition cache_sign (record : BanRecord) (local_node_id : string) (pkcs8 : list Z) (d : Z)
    (c : SigningCache) : SigningCache * hresult SignedBanRecord :=
  match bincode_serialize record with
  | None => (c, Err (EProtocol "sign: serialize error"))
  | Some canonical =>
      let key := cache_key local_node_id d canonical in
      match sc_entries c !! key with
      | Some hit =>
          ({| sc_entries := sc_entries c; sc_capacity := sc_capacity c;
              insertion_order := insertion_order c; hits := u64_add (hits c) 1; misses := misses c |}, Ok hit)
      | None =>
          match sign_canonical record canonical local_node_id pkcs8 d with
          | Err e => (c, Err e)
          | Ok signed =>
              let c := evict {| sc_entries := sc_entries c; sc_capacity := sc_capacity c;
                                insertion_order := insertion_order c; hits := hits c;
                                misses := u64_add (misses c) 1 |} in
              ({| sc_entries := <[key := signed]> (sc_entries c); sc_capacity := sc_capacity c;
                  insertion_order := insertion_order c ++ [key]; hits := hits c; misses := misses c |},
               Ok signed)
          end
      end
  end.

(** What a node signs, every peer holding its public key accepts. *)
Theorem sign_verify_roundtrip {laws : Ed25519Laws} (record : BanRecord) (id : string) (pkcs8 : list Z)
  (d : Z) (k : key_pair) (s : SignedBanRecord)
  (Hk : from_pkcs8 pkcs8 = Some k) (Hd : MIN_DIFFICULTY <= d)
  (Hs : sign record id pkcs8 d = Ok s) :
  sb_verify s (public_key k) = Ok tt /\ sb_record s = record /\ signer_id s = id.
Proof.
  unfold sign in Hs. destruct (bincode_serialize record) as [canonical|] eqn:Ec; [|done].
  unfold sign_canonical in Hs. rewrite Hk in Hs.
  destruct (mine canonical d u64_max) as [stamp|] eqn:Em; [|done]. simplify_eq. simpl.
  split_and!; try done. unfold sb_verify. simpl. rewrite Ec, ed_verify_sign. simpl.
  apply mine_Some in Em as (Hdiff & _ & Hok & _). unfold pow_verify. rewrite Hdiff, Hok.
  by destruct (Z.ltb_spec d MIN_DIFFICULTY); [lia|].
Qed.

(** A record that passes [verify] carries a signature of exactly its own
    serialization, and work for exactly that serialization: a hash below
    [2^(256 - difficulty)] at a difficulty no lower than the minimum. *)
Theorem verified_is_authentic {hash_laws : Blake3Laws} (s : SignedBanRecord) (pk : list Z)
  (Hd : in_width 8 (difficulty (pow s))) :
  sb_verify s pk = Ok tt <->
  exists canonical, bincode_serialize (sb_record s) = Some canonical /\
    ed_verify pk canonical (signature s) = true /\ MIN_DIFFICULTY <= difficulty (pow s) /\
    be_value (compute_hash (nonce (pow s)) canonical) < 2 ^ (256 - difficulty (pow s)).
Proof.
  unfold sb_verify. destruct (bincode_serialize (sb_record s)) as [canonical|]; [|naive_solver].
  unfold in_width in Hd. pose proof (attempt_value canonical (difficulty (pow s)) (nonce (pow s)) ltac:(lia)) as Hv.
  unfold pow_verify. split.
  - destruct (ed_verify pk canonical (signature s)) eqn:Es; [|done]. simpl.
    destruct (Z.ltb_spec (difficulty (pow s)) MIN_DIFFICULTY); [done|].
    destruct (attempt _ _ _); [|done]. intros _. exists canonical. split_and!; try done. by apply Hv.
  - intros (c & [= <-] & -> & Hm & Hlt). simpl.
    destruct (Z.ltb_spec (difficulty (pow s)) MIN_DIFFICULTY); [lia|].
    apply Hv in Hlt. by rewrite Hlt.
Qed.

(** ** The cache *)

(** The queue lists the cached keys, without repetition. *)
Definition cache_wf (c : SigningCache) : Prop :=
  NoDup (insertion_order c) /\ (forall k, k ∈ insertion_order c <-> is_Some (sc_entries c !! k)) /\
  (size (sc_entries c) <= sc_capacity c)%nat /\ (1 <= sc_capacity c)%nat.

Lemma evict_wf (c : SigningCache) : cache_wf c ->
  cache_wf (evict c) /\ (size (sc_entries (evict c)) < sc_capacity c)%nat /\
  sc_capacity (evict c) = sc_capacity c /\ sc_entries (evict c) ⊆ sc_entries c.
Proof.
  intros (Hnd & Hk & Hs & Hc). unfold evict.
  destruct (Nat.leb_spec (sc_capacity c) (size (sc_entries c))) as [Hfull|]; [|done].
  destruct (insertion_order c) as [|o rest] eqn:Eo.
  - exfalso. assert (sc_entries c = ∅) as E.
    { apply map_empty. intros k. apply eq_None_not_Some. rewrite <- Hk. set_solver. }
    rewrite E, map_size_empty in Hfull. lia.
  - apply NoDup_cons in Hnd as [Hno Hnd].
    assert (is_Some (sc_entries c !! o)) as [x Hx] by (apply Hk; set_solver).
    assert (size (delete o (sc_entries c)) < sc_capacity c)%nat as Hlt.
    { rewrite map_size_delete, Hx. simpl.
      assert (size (sc_entries c) <> 0)%nat by (rewrite map_size_non_empty_iff; intros E; by rewrite E, lookup_empty in Hx).
      lia. }
    unfold cache_wf; split_and!; simpl; [done| |lia|done|done|done|apply delete_subseteq].
    intros k. rewrite lookup_delete_is_Some, <- Hk. set_solver.
Qed.

Lemma cache_sign_wf (record : BanRecord) (id : string) (pkcs8 : list Z) (d : Z) (c : SigningCache) :
  cache_wf c -> cache_wf (cache_sign record id pkcs8 d c).1 /\
    sc_capacity (cache_sign record id pkcs8 d c).1 = sc_capacity c.
Proof.
  intros Hwf. unfold cache_sign. destruct (bincode_serialize record) as [canonical|]; [|done].
  destruct (sc_entries c !! _) as [hit|] eqn:Eh; [done|].
  destruct (sign_canonical _ _ _ _ _) as [s|e]; [|done].
  set (c0 := {| misses := u64_add _ _ |}). assert (Hwf0 : cache_wf c0) by exact Hwf.
  destruct (evict_wf c0 Hwf0) as ((Hnd & Hk & Hs & Hc) & Hlt & Hcap & Hsub).
  set (key := cache_key id d canonical) in *.
  assert (Hnone : sc_entries (evict c0) !! key = None).
  { apply eq_None_not_Some. intros [x Hx]. eapply lookup_weaken in Hx; [|exact Hsub]. simpl in Hx. congruence. }
  cbn [fst sc_capacity]. split; [|done]. split_and!; cbn [insertion_order sc_entries sc_capacity].
  - apply NoDup_app. split_and!; [done| |apply NoDup_singleton].
    intros k Hin ->%list_elem_of_singleton. apply Hk in Hin as [x Hx]. congruence.
  - intros k. rewrite elem_of_app, list_elem_of_singleton, Hk, lookup_insert_is_Some'. naive_solver.
  - rewrite map_size_insert_None by done. lia.
  - done.
Qed.

(** What a node asks its cache to sign. *)
Record sign_request : Type := { rq_record : BanRecord; rq_difficulty : Z }.

Fixpoint cache_run (id : string) (pkcs8 : list Z) (reqs : list sign_request) (c : SigningCache)
    : SigningCache * list (hresult SignedBanRecord) :=
  match reqs with
  | [] => (c, [])
  | r :: reqs' =>
      let '(c1, res) := cache_sign (rq_record r) id pkcs8 (rq_difficulty r) c in
      let '(c2, out) := cache_run id pkcs8 reqs' c1 in (c2, res :: out)
  end.

(** No two different requests of the run have the same cache key. *)
Definition collision_free (id : string) (reqs : list sign_request) : Prop :=
  forall r r' x x', r ∈ reqs -> r' ∈ reqs ->
    bincode_serialize (rq_record r) = Some x -> bincode_serialize (rq_record r') = Some x' ->
    cache_key id (rq_difficulty r) x = cache_key id (rq_difficulty r') x' -> r = r'.

(** Every cached entry is the signature of a request of the run. *)
Definition cache_sound (id : string) (pkcs8 : list Z) (reqs : list sign_request) (c : SigningCache) : Prop :=
  forall key s, sc_entries c !! key = Some s ->
    exists r x, r ∈ reqs /\ bincode_serialize (rq_record r) = Some x /\
      key = cache_key id (rq_difficulty r) x /\ sign (rq_record r) id pkcs8 (rq_difficulty r) = Ok s.

Lemma cache_sign_sound (id : string) (pkcs8 : list Z) (reqs : list sign_request) (r : sign_request)
    (c : SigningCache) :
  collision_free id reqs -> r ∈ reqs -> cache_wf c -> cache_sound id pkcs8 reqs c ->
  let '(c', res) := cache_sign (rq_record r) id pkcs8 (rq_difficulty r) c in
  res = sign (rq_record r) id pkcs8 (rq_difficulty r) /\ cache_sound id pkcs8 reqs c'.
Proof.
  intros Hcf Hr Hwf Hs. unfold cache_sign.
  destruct (bincode_serialize (rq_record r)) as [x|] eqn:Ex; [|unfold sign; by rewrite Ex].
  destruct (sc_entries c !! _) as [hit|] eqn:Eh.
  { destruct (Hs _ _ Eh) as (r' & x' & Hr' & Ex' & Hkey & Hsign).
    assert (r = r') as <- by by eapply Hcf. split; [by rewrite Hsign|exact Hs]. }
  destruct (sign_canonical _ _ _ _ _) as [s|e] eqn:Es;
    (split; [unfold sign; by rewrite Ex|]); [|done].
  set (c0 := {| misses := u64_add _ _ |}). destruct (evict_wf c0 Hwf) as (_ & _ & _ & Hsub).
  intros key s' Hk. cbn [sc_entries] in Hk. apply lookup_insert_Some in Hk as [[<- <-]|[_ Hk]].
  - exists r, x. split_and!; try done. unfold sign. by rewrite Ex.
  - eapply lookup_weaken in Hk; [|exact Hsub]. by apply Hs.
Qed.

Lemma cache_run_sound (id : string) (pkcs8 : list Z) (all reqs : list sign_request) (c : SigningCache) :
  collision_free id all -> reqs ⊆ all -> cache_wf c -> cache_sound id pkcs8 all c ->
  (cache_run id pkcs8 reqs c).2 = (fun r => sign (rq_record r) id pkcs8 (rq_difficulty r)) <$> reqs /\
  cache_wf (cache_run id pkcs8 reqs c).1 /\ sc_capacity (cache_run id pkcs8 reqs c).1 = sc_capacity c.
Proof.
  intros Hcf. revert c. induction reqs as [|r reqs IH]; intros c Hsub Hwf Hs; simpl; [done|].
  pose proof (cache_sign_sound id pkcs8 all r c Hcf ltac:(set_solver) Hwf Hs) as Hstep.
  pose proof (cache_sign_wf (rq_record r) id pkcs8 (rq_difficulty r) c Hwf) as [Hwf1 Hcap].
  destruct (cache_sign _ _ _ _ c) as [c1 res]. destruct Hstep as [-> Hs1]. simpl in Hwf1, Hcap.
  destruct (IH c1 ltac:(set_solver) Hwf1 Hs1) as (E & Hwf2 & Hcap2).
  destruct (cache_run id pkcs8 reqs c1) as [c2 out]. simpl in *. split_and!; [by f_equal|done|congruence].
Qed.

(** The signing cache is transparent. Through any sequence of requests,
    with hits and evictions, it answers each one exactly as signing afresh
    would, provided no two requests collide on the hash, and it never holds
    more than its capacity. *)
Theorem signing_cache_transparent (id : string) (pkcs8 : list Z) (capacity : nat)
  (reqs : list sign_request) (Hcf : collision_free id reqs) :
  let '(c, out) := cache_run id pkcs8 reqs (cache_new capacity) in
  out = (fun r => sign (rq_record r) id pkcs8 (rq_difficulty r)) <$> reqs /\
  (size (sc_entries c) <= Nat.max capacity 1)%nat.
Proof.
  assert (Hwf : cache_wf (cache_new capacity)).
  { split_and!; simpl; [apply NoDup_nil_2|intros k; rewrite lookup_empty|rewrite map_size_empty|]; try lia.
    split; [set_solver|by intros [? ?]]. }
  assert (Hs : cache_sound id pkcs8 reqs (cache_new capacity)).
  { intros key s. simpl. by rewrite lookup_empty. }
  destruct (cache_run_sound id pkcs8 reqs reqs (cache_new capacity) Hcf ltac:(done) Hwf Hs)
    as (E & (_ & _ & Hsz & _) & Hcap).
  destruct (cache_run id pkcs8 reqs _) as [c out]. simpl in *. split; [done|]. by rewrite <- Hcap.
Qed.
End signed.

(** ** Witnesses *)
Module SignedSample.
#[local] Instance toy_blake3 : Blake3 := fun bs => replicate 31 0 ++ [wrap 8 (foldr Z.add 0 bs)].
#[local] Instance toy_blake3_laws : Blake3Laws.
Proof.
  split; intros bs; unfold blake3, toy_blake3.
  - by rewrite length_app, length_replicate.
  - apply Forall_app. split; [apply Forall_replicate; unfold in_width; lia|].
    constructor; [apply wrap_range; lia|done].
Qed.
#[local] Instance toy_ed : Ed25519 := {|
  key_pair := unit; from_pkcs8 bs := match bs with [] => None | _ => Some tt end;
  public_key _ := [7]; ed_sign _ m := m; ed_verify pk m s := bool_decide (pk = [7] /\ s = m) |}.
#[local] Instance toy_ed_laws : Ed25519Laws.
Proof. intros k m. apply bool_decide_eq_true. done. Qed.
#[local] Instance toy_ser : BincodeSer BanRecord := fun r => Some [severity r].

Definition rec (sev : Z) : BanRecord :=
  {| subject := NetV4 134744072 32; created_at := 0; expires_at := None; severity := sev; reason := "ssh";
     evidence_hash := []; source := ManualAdmin; geo_info := None |}.
Definition signed_rec : SignedBanRecord :=
  {| sb_record := rec 9; signer_id := "n"; signature := [9]; pow := {| nonce := 0; difficulty := 16 |} |}.

Lemma pow_verify_exact_witness :
  be_value (compute_hash 0 [1; 2]) < 2 ^ (256 - 16).
Proof.
  refine (proj2 (proj1 (pow_verify_exact {| nonce := 0; difficulty := 16 |} [1; 2] _) _)).
  - vm_compute. split; congruence.
  - vm_compute. reflexivity.
Defined.

Lemma mine_complete_witness : mine [1; 2] 16 u64_max = Some {| nonce := 0; difficulty := 16 |} /\
  pow_verify {| nonce := 0; difficulty := 16 |} [1; 2] = Ok tt.
Proof.
  split; [vm_compute; reflexivity|].
  pose proof (mine_complete [1; 2] 16 u64_max ltac:(vm_compute; split; congruence)
    ltac:(vm_compute; congruence)) as Hm.
  assert (E : mine [1; 2] 16 u64_max = Some {| nonce := 0; difficulty := 16 |}) by (vm_compute; reflexivity).
  rewrite E in Hm. exact (proj1 (proj2 (proj2 Hm))).
Defined.

Lemma sign_verify_roundtrip_witness : sb_verify signed_rec [7] = Ok tt.
Proof.
  apply (@sign_verify_roundtrip toy_blake3 toy_ed toy_ser toy_ed_laws (rec 9) "n" [1] 16 tt signed_rec).
  - reflexivity.
  - vm_compute. congruence.
  - vm_compute. reflexivity.
Defined.

Lemma verified_is_authentic_witness :
  exists canonical, bincode_serialize (sb_record signed_rec) = Some canonical /\
    ed_verify [7] canonical (signature signed_rec) = true.
Proof.
  assert (Hd : in_width 8 (difficulty (pow signed_rec))) by (vm_compute; split; congruence).
  assert (Hv : sb_verify signed_rec [7] = Ok tt) by (vm_compute; reflexivity).
  destruct (proj1 (verified_is_authentic signed_rec [7] Hd) Hv) as (x & H1 & H2 & _).
  exists x. split; [exact H1|exact H2].
Defined.

Definition requests : list sign_request :=
  [{| rq_record := rec 9; rq_difficulty := 16 |}; {| rq_record := rec 10; rq_difficulty := 16 |};
   {| rq_record := rec 9; rq_difficulty := 16 |}].

Lemma signing_cache_transparent_witness :
  (cache_run "n" [1] requests (cache_new 1)).2 =
  (fun r => sign (rq_record r) "n" [1] (rq_difficulty r)) <$> requests.
Proof.
  assert (Hcf : collision_free "n" requests).
  { intros r r' x x' Hr Hr' Ex Ex' Hk. unfold requests in Hr, Hr'.
    repeat (apply elem_of_cons in Hr as [->|Hr]); try (by apply not_elem_of_nil in Hr);
    repeat (apply elem_of_cons in Hr' as [->|Hr']); try (by apply not_elem_of_nil in Hr');
    try reflexivity; injection Ex as <-; injection Ex' as <-; vm_compute in Hk; congruence. }
  pose proof (signing_cache_transparent "n" [1] 1 requests Hcf) as Ht.
  destruct (cache_run "n" [1] requests (cache_new 1)) as [c out]. exact (proj1 Ht).
Defined.
End SignedSample.
