(* ===== verification/Membership.v ===== *)
(** * Cluster peers and failure detection
    ([hiveguard-net/src/peer.rs], [hiveguard-net/src/membership.rs])

    The table of known peers with its fingerprint pinning, and the SWIM
    failure detector on top of it. Clock readings and random choices are
    arguments, one per reading or choice the code makes. *)
From S2P Require Import Prelude Models Floats.
Local Open Scope Z_scope.

(** ** Peers *)
Inductive PeerState : Type := Alive | Suspect | Dead.

#[export] Instance PeerState_eq_dec : EqDecision PeerState.
Proof. solve_decision. Defined.

(** The socket address is only stored and passed on. *)
Record PeerInfo : Type := {
  node_id : string;
  address : string;
  fingerprint : string;
  trust_score : spec_float;
  state : PeerState;
  last_seen : DateTime;
  public_key_bytes : list Z;
}.

Definition peer_new (now : DateTime) (id addr fp : string) : PeerInfo :=
  {| node_id := id; address := addr; fingerprint := fp; trust_score := f64_lit 5 10; state := Alive;
     last_seen := now; public_key_bytes := [] |}.

Definition set_key (k : list Z) (p : PeerInfo) : PeerInfo :=
  {| node_id := node_id p; address := address p; fingerprint := fingerprint p; trust_score := trust_score p;
     state := state p; last_seen := last_seen p; public_key_bytes := k |}.
Definition set_state (s : PeerState) (now : DateTime) (p : PeerInfo) : PeerInfo :=
  {| node_id := node_id p; address := address p; fingerprint := fingerprint p; trust_score := trust_score p;
     state := s; last_seen := now; public_key_bytes := public_key_bytes p |}.

Record PeerManager : Type := {
  known_peers : gmap string PeerInfo;
  auto_accept : bool;
}.

Definition peers_new : PeerManager := {| known_peers := ∅; auto_accept := false |}.
Definition peers_new_auto_accept : PeerManager := {| known_peers := ∅; auto_accept := true |}.

Definition set_peers (m : gmap string PeerInfo) (pm : PeerManager) : PeerManager :=
  {| known_peers := m; auto_accept := auto_accept pm |}.

Definition add_peer (p : PeerInfo) (pm : PeerManager) : PeerManager :=
  set_peers (<[node_id p := p]> (known_peers pm)) pm.
Definition remove_peer (id : string) (pm : PeerManager) : PeerManager * option PeerInfo :=
  (set_peers (delete id (known_peers pm)) pm, known_peers pm !! id).
Definition update_peer_state (now : DateTime) (id : string) (s : PeerState) (pm : PeerManager)
    : PeerManager * bool :=
  match known_peers pm !! id with
  | Some p => (set_peers (<[id := set_state s now p]> (known_peers pm)) pm, true)
  | None => (pm, false)
  end.

Definition all_peers (pm : PeerManager) : list PeerInfo := (map_to_list (known_peers pm)).*2.
Definition get_alive_peers (pm : PeerManager) : list PeerInfo :=
  List.filter (fun p => bool_decide (state p = Alive)) (all_peers pm).
Definition get_peer (id : string) (pm : PeerManager) : option PeerInfo := known_peers pm !! id.

(** [cert]: the fingerprint and key of the certificate the peer presented. *)
Definition validate_peer_connection (now : DateTime) (cert : option (string * list Z)) (remote : string)
    (claimed : string) (pm : PeerManager) : PeerManager * hresult unit :=
  match cert with
  | None => (pm, Err (EProtocol "no peer certificate"))
  | Some (fp, key) =>
      match known_peers pm !! claimed with
      | Some known =>
          if bool_decide (fingerprint known = fp)
          then (set_peers (<[claimed := set_key key known]> (known_peers pm)) pm, Ok tt)
          else (pm, Err (EProtocol "fingerprint mismatch"))
      | None =>
          if auto_accept pm
          then (add_peer (set_key key (peer_new now claimed remote fp)) pm, Ok tt)
          else (pm, Err (EProtocol "unknown peer, auto-accept disabled"))
      end
  end.

Definition verify_sender (claimed fp : string) (pm : PeerManager) : bool :=
  match known_peers pm !! claimed with
  | Some p => bool_decide (fingerprint p = fp)
  | None => false
  end.

(** ** SWIM *)
Record SwimConfig : Type := {
  ping_interval : Duration;
  ping_timeout : Duration;
  ping_req_fanout : nat;
  suspect_timeout : Duration;
  dead_timeout : Duration;
}.

Definition swim_default : SwimConfig :=
  {| ping_interval := secs 1; ping_timeout := millis 500; ping_req_fanout := 3;
     suspect_timeout := secs 5; dead_timeout := secs 30 |}.

Inductive SwimAction : Type :=
| SendPing (target_id : string) (digest : list Z)
| SendPingReq (target_id : string) (via_peers : list string)
| MarkSuspect (node : string)
| MarkDead (node : string)
| RemovePeer (node : string)
| NoAction.

Record PendingPing : Type := {
  target_id : string;
  sent_at : DateTime;
  indirect_sent : bool;
}.

#[export] Instance PendingPing_eq_dec : EqDecision PendingPing.
Proof. solve_decision. Defined.

Record SwimMembership : Type := {
  swim_config : SwimConfig;
  swim_local : string;
  pending_pings : list PendingPing;
}.

Definition swim_new (local : string) (config : SwimConfig) : SwimMembership :=
  {| swim_config := config; swim_local := local; pending_pings := [] |}.

Definition set_pending (l : list PendingPing) (s : SwimMembership) : SwimMembership :=
  {| swim_config := swim_config s; swim_local := swim_local s; pending_pings := l |}.

(** [choose]: an element of the non-empty list. *)
Definition select_probe_target (now : DateTime) (choose : list PeerInfo -> option PeerInfo)
    (pm : PeerManager) (digest : list Z) (s : SwimMembership) : SwimMembership * SwimAction :=
  match get_alive_peers pm, choose (get_alive_peers pm) with
  | [], _ | _, None => (s, NoAction)
  | _, Some target =>
      (set_pending (pending_pings s ++ [{| target_id := node_id target; sent_at := now; indirect_sent := false |}]) s,
       SendPing (node_id target) digest)
  end.

Definition handle_pong (now : DateTime) (sender : string) (pm : PeerManager) (s : SwimMembership)
    : SwimMembership * PeerManager :=
  (set_pending (List.filter (fun p => negb (bool_decide (target_id p = sender))) (pending_pings s)) s,
   (update_peer_state now sender Alive pm).1).

(** [to_std().unwrap_or(ZERO)] *)
Definition elapsed (now since : DateTime) : Duration := Z.max 0 (now - since).

(** The readings of one [check_timeouts]: at entry, when the [i]-th pending
    ping marks its target suspect, when a node is marked dead; and the
    intermediaries drawn for the [i]-th ping. *)
Record readings : Type := {
  r_now : DateTime;
  r_suspect : nat -> DateTime;
  r_dead : string -> DateTime;
  r_choose : nat -> nat -> list string -> list string;
}.

(** The loop over the pending pings: the pings kept, the actions, the peers. *)
Fixpoint ping_loop (rd : readings) (s : SwimMembership) (idx : nat) (pings : list PendingPing) (pm : PeerManager)
    : list PendingPing * list SwimAction * PeerManager :=
  match pings with
  | [] => ([], [], pm)
  | p :: pings' =>
      let el := elapsed (r_now rd) (sent_at p) in
      let suspect :=
        let pm' := (update_peer_state (r_suspect rd idx) (target_id p) Suspect pm).1 in
        let '(kept, actions, pm'') := ping_loop rd s (S idx) pings' pm' in
        (kept, MarkSuspect (target_id p) :: actions, pm'') in
      let keep p' acts :=
        let '(kept, actions, pm'') := ping_loop rd s (S idx) pings' pm in (p' :: kept, acts ++ actions, pm'') in
      if negb (indirect_sent p) && (ping_timeout (swim_config s) <=? el) then
        let alive := node_id <$> List.filter (fun q => negb (bool_decide (node_id q = target_id p)) &&
                                                      negb (bool_decide (node_id q = swim_local s)))
                                   (get_alive_peers pm) in
        let k := Nat.min (ping_req_fanout (swim_config s)) (length alive) in
        let via := if (0 <? k)%nat then r_choose rd idx k alive else [] in
        match via with
        | [] => suspect
        | _ => keep {| target_id := target_id p; sent_at := sent_at p; indirect_sent := true |}
                 [SendPingReq (target_id p) via]
        end
      else if indirect_sent p then
        if ping_timeout (swim_config s) * 2 <=? el then suspect else keep p []
      else keep p []
  end.

(** Suspects silent for [suspect_timeout] become dead. *)
Definition dead_step (rd : readings) (timeout : Duration) (st : list SwimAction * PeerManager) (p : PeerInfo)
    : list SwimAction * PeerManager :=
  let '(actions, pm) := st in
  if timeout <=? elapsed (r_now rd) (last_seen p)
  then (actions ++ [MarkDead (node_id p)], (update_peer_state (r_dead rd (node_id p)) (node_id p) Dead pm).1)
  else st.

(** Dead peers silent for [dead_timeout] are removed. *)
Definition remove_step (rd : readings) (timeout : Duration) (st : list SwimAction * PeerManager) (p : PeerInfo)
    : list SwimAction * PeerManager :=
  let '(actions, pm) := st in
  if timeout <=? elapsed (r_now rd) (last_seen p)
  then (actions ++ [RemovePeer (node_id p)], (remove_peer (node_id p) pm).1)
  else st.

Definition with_state (s : PeerState) (pm : PeerManager) : list PeerInfo :=
  List.filter (fun p => bool_decide (state p = s)) (all_peers pm).

Definition check_timeouts (rd : readings) (pm : PeerManager) (s : SwimMembership)
    : SwimMembership * PeerManager * list SwimAction :=
  let '(kept, actions, pm1) := ping_loop rd s 0 (pending_pings s) pm in
  let '(actions2, pm2) := foldl (dead_step rd (suspect_timeout (swim_config s))) (actions, pm1) (with_state Suspect pm1) in
  let '(actions3, pm3) := foldl (remove_step rd (dead_timeout (swim_config s))) (actions2, pm2) (with_state Dead pm2) in
  (set_pending kept s, pm3, actions3).

(** ** Lookups through the operations *)
Definition peers_keyed (pm : PeerManager) : Prop :=
  forall id p, known_peers pm !! id = Some p -> node_id p = id.

Lemma update_lookup (now : DateTime) (id n : string) (s : PeerState) (pm : PeerManager) :
  known_peers (update_peer_state now id s pm).1 !! n =
    if decide (id = n) then set_state s now <$> known_peers pm !! n else known_peers pm !! n.
Proof.
  unfold update_peer_state. destruct (known_peers pm !! id) as [p|] eqn:E; simpl.
  - rewrite lookup_insert. case_decide as Hd; [subst; by rewrite E|done].
  - case_decide as Hd; [subst; by rewrite E|done].
Qed.

Lemma update_keyed (now : DateTime) (id : string) (s : PeerState) (pm : PeerManager) :
  peers_keyed pm -> peers_keyed (update_peer_state now id s pm).1.
Proof.
  intros Hk n p Hp. rewrite update_lookup in Hp. case_decide as Hd; [|eauto].
  apply fmap_Some in Hp as (q & Hq & ->). simpl. eauto.
Qed.

Lemma with_state_spec (s : PeerState) (pm : PeerManager) (p : PeerInfo) : peers_keyed pm ->
  p ∈ with_state s pm <-> known_peers pm !! node_id p = Some p /\ state p = s.
Proof.
  intros Hk. unfold with_state, all_peers.
  rewrite elem_of_lfilter, list_elem_of_fmap, bool_decide_eq_true. split.
  - intros [([id q] & -> & Hin) Hs]. apply elem_of_map_to_list in Hin. simpl in *.
    by rewrite (Hk id q Hin).
  - intros [Hl Hs]. split; [|done]. exists (node_id p, p). split; [done|]. by apply elem_of_map_to_list.
Qed.

(** What the ping loop can do to a peer: nothing, or mark it suspect because
    of one of its own pings. *)
Lemma ping_loop_peer (rd : readings) (s : SwimMembership) (pings : list PendingPing) (idx : nat)
    (pm : PeerManager) (n : string) :
  let '(kept, actions, pm') := ping_loop rd s idx pings pm in
  known_peers pm' !! n = known_peers pm !! n \/
  n ∈ target_id <$> pings /\ exists i, known_peers pm' !! n = set_state Suspect (r_suspect rd i) <$> known_peers pm !! n.
Proof.
  revert idx pm. induction pings as [|p pings IH]; intros idx pm; cbn [ping_loop]; [by left|].
  set (upd := (update_peer_state (r_suspect rd idx) (target_id p) Suspect pm).1).
  pose proof (IH (S idx) pm) as Hkeep. pose proof (IH (S idx) upd) as Hsus.
  destruct (ping_loop rd s (S idx) pings pm) as [[k1 a1] pm1].
  destruct (ping_loop rd s (S idx) pings upd) as [[k2 a2] pm2].
  assert (Hs : known_peers pm2 !! n = known_peers pm !! n \/
    n ∈ target_id <$> p :: pings /\ exists i, known_peers pm2 !! n = set_state Suspect (r_suspect rd i) <$> known_peers pm !! n).
  { unfold upd in Hsus. rewrite !update_lookup in Hsus.
    destruct (decide (target_id p = n)) as [<-|Hne]; [|set_solver].
    right. split; [set_solver|]. destruct Hsus as [->|(_ & i & ->)]; [by exists idx|].
    exists i. by destruct (known_peers pm !! target_id p). }
  assert (Hk : known_peers pm1 !! n = known_peers pm !! n \/
    n ∈ target_id <$> p :: pings /\ exists i, known_peers pm1 !! n = set_state Suspect (r_suspect rd i) <$> known_peers pm !! n)
    by set_solver.
  cbv zeta beta. destruct (negb (indirect_sent p) && _); [|destruct (indirect_sent p); [destruct (_ <=? _)|]]; try done.
  set (via := if (_ <? _)%nat then _ else _). by destruct via.
Qed.

Lemma ping_loop_keyed (rd : readings) (s : SwimMembership) (pings : list PendingPing) (idx : nat) (pm : PeerManager) :
  peers_keyed pm -> peers_keyed (ping_loop rd s idx pings pm).2.
Proof.
  intros Hk n p Hp. pose proof (ping_loop_peer rd s pings idx pm n) as Hl.
  destruct (ping_loop rd s idx pings pm) as [[kept actions] pm']. simpl in Hp.
  destruct Hl as [E|(_ & i & E)]; rewrite E in Hp; [eauto|].
  apply fmap_Some in Hp as (q & Hq & ->). simpl. eauto.
Qed.

Lemma dead_fold_peer (rd : readings) (timeout : Duration) (l : list PeerInfo) (st : list SwimAction * PeerManager)
    (n : string) :
  let pm' := (foldl (dead_step rd timeout) st l).2 in
  known_peers pm' !! n = known_peers st.2 !! n \/
  (exists p, p ∈ l /\ node_id p = n /\ timeout <= elapsed (r_now rd) (last_seen p)) /\
  known_peers pm' !! n = set_state Dead (r_dead rd n) <$> known_peers st.2 !! n.
Proof.
  revert st. induction l as [|p l IH]; intros [acts pm]; [by left|]. cbn [foldl].
  specialize (IH (dead_step rd timeout (acts, pm) p)). cbv zeta in *.
  set (pm' := (foldl _ _ l).2) in *. clearbody pm'. unfold dead_step in IH. revert IH.
  destruct (Z.leb_spec timeout (elapsed (r_now rd) (last_seen p))) as [Ht|_]; cbn [snd].
  - rewrite update_lookup. destruct (decide (node_id p = n)) as [Hd|Hne]; intros IH.
    + right. split; [exists p; set_solver|]. subst n. destruct IH as [->|[_ ->]]; [done|].
      by destruct (known_peers pm !! node_id p).
    + destruct IH as [->|[(q & ? & ? & ?) ->]]; [by left|right]. split; [exists q; set_solver|done].
  - intros [->|[(q & ? & ? & ?) ->]]; [by left|right]. split; [exists q; set_solver|done].
Qed.

Lemma remove_fold_peer (rd : readings) (timeout : Duration) (l : list PeerInfo) (st : list SwimAction * PeerManager)
    (n : string) :
  let pm' := (foldl (remove_step rd timeout) st l).2 in
  known_peers pm' !! n = known_peers st.2 !! n \/
  (exists p, p ∈ l /\ node_id p = n /\ timeout <= elapsed (r_now rd) (last_seen p)) /\
  known_peers pm' !! n = None.
Proof.
  revert st. induction l as [|p l IH]; intros [acts pm]; [by left|]. cbn [foldl].
  specialize (IH (remove_step rd timeout (acts, pm) p)). cbv zeta in *.
  set (pm' := (foldl _ _ l).2) in *. clearbody pm'. unfold remove_step in IH. revert IH.
  destruct (Z.leb_spec timeout (elapsed (r_now rd) (last_seen p))) as [Ht|_]; cbn [snd].
  - simpl. rewrite lookup_delete. destruct (decide (node_id p = n)) as [Hd|Hne]; intros IH.
    + right. split; [exists p; set_solver|]. by destruct IH as [->|[_ ->]].
    + destruct IH as [->|[(q & ? & ? & ?) ->]]; [by left|right]. split; [exists q; set_solver|done].
  - intros [->|[(q & ? & ? & ?) ->]]; [by left|right]. split; [exists q; set_solver|done].
Qed.

(** The whole round, for one peer: the three phases one after the other. *)
Lemma check_timeouts_peer (rd : readings) (pm : PeerManager) (s : SwimMembership) (n : string) :
  peers_keyed pm ->
  let '(s', pm', actions) := check_timeouts rd pm s in
  peers_keyed pm' /\
  exists pm1 pm2,
    (known_peers pm1 !! n = known_peers pm !! n \/ n ∈ target_id <$> pending_pings s /\
       exists i, known_peers pm1 !! n = set_state Suspect (r_suspect rd i) <$> known_peers pm !! n) /\
    (known_peers pm2 !! n = known_peers pm1 !! n \/
       (exists p, known_peers pm1 !! n = Some p /\ state p = Suspect /\
          suspect_timeout (swim_config s) <= elapsed (r_now rd) (last_seen p)) /\
       known_peers pm2 !! n = set_state Dead (r_dead rd n) <$> known_peers pm1 !! n) /\
    (known_peers pm' !! n = known_peers pm2 !! n \/
       (exists p, known_peers pm2 !! n = Some p /\ state p = Dead /\
          dead_timeout (swim_config s) <= elapsed (r_now rd) (last_seen p)) /\
       known_peers pm' !! n = None).
Proof.
  intros Hk. unfold check_timeouts.
  pose proof (ping_loop_peer rd s (pending_pings s) 0 pm n) as H1.
  pose proof (ping_loop_keyed rd s (pending_pings s) 0 pm Hk) as Hk1.
  destruct (ping_loop rd s 0 (pending_pings s) pm) as [[kept acts] pm1]. cbn [snd] in Hk1.
  set (dt := suspect_timeout (swim_config s)). set (rt := dead_timeout (swim_config s)).
  pose proof (fun m => dead_fold_peer rd dt (with_state Suspect pm1) (acts, pm1) m) as H2. cbv zeta in H2.
  destruct (foldl (dead_step rd dt) (acts, pm1) (with_state Suspect pm1)) as [acts2 pm2]. cbn [snd] in H2.
  assert (Hk2 : peers_keyed pm2).
  { intros m p Hp. destruct (H2 m) as [E|[_ E]]; rewrite E in Hp; [eauto|].
    apply fmap_Some in Hp as (q & Hq & ->). simpl. eauto. }
  pose proof (fun m => remove_fold_peer rd rt (with_state Dead pm2) (acts2, pm2) m) as H3. cbv zeta in H3.
  destruct (foldl (remove_step rd rt) (acts2, pm2) (with_state Dead pm2)) as [acts3 pm3]. cbn [snd] in H3.
  split.
  { intros m p Hp. destruct (H3 m) as [E|[_ E]]; rewrite E in Hp; [eauto|done]. }
  exists pm1, pm2. split_and!; [exact H1| |].
  - destruct (H2 n) as [E|[(p & Hp & <- & Ht) E]]; [by left|right]. split; [|done].
    apply with_state_spec in Hp as [Hl Hs]; [|done]. eauto.
  - destruct (H3 n) as [E|[(p & Hp & <- & Ht) E]]; [by left|right]. split; [|done].
    apply with_state_spec in Hp as [Hl Hs]; [|done]. eauto.
Qed.

(** The failure detector does not accuse a peer that answers: an alive peer
    with no unanswered ping outstanding is left exactly as it was by a timeout
    round, whatever the clock shows. *)
Theorem swim_accuracy (rd : readings) (pm : PeerManager) (s : SwimMembership) (n : string) (p : PeerInfo)
  (Hk : peers_keyed pm) (Hp : known_peers pm !! n = Some p) (Ha : state p = Alive)
  (Hping : n ∉ target_id <$> pending_pings s) :
  known_peers (check_timeouts rd pm s).1.2 !! n = Some p.
Proof.
  pose proof (check_timeouts_peer rd pm s n Hk) as Hc.
  destruct (check_timeouts rd pm s) as [[s' pm'] acts]. destruct Hc as (_ & pm1 & pm2 & H1 & H2 & H3). simpl.
  assert (E1 : known_peers pm1 !! n = Some p) by (destruct H1 as [->|[? _]]; done).
  assert (E2 : known_peers pm2 !! n = Some p).
  { destruct H2 as [->|[(q & Hq & Hs & _) _]]; [done|]. congruence. }
  destruct H3 as [->|[(q & Hq & Hs & _) _]]; [done|]. congruence.
Qed.

(** No peer dies without warning. In one round an alive peer can at most
    become suspect, a suspect heard from within [suspect_timeout] stays known
    and not dead, and no suspect is removed: a removal takes three separate
    rounds at least [suspect_timeout] and [dead_timeout] apart. *)
Theorem swim_no_sudden_death (rd : readings) (pm : PeerManager) (s : SwimMembership) (n : string) (p : PeerInfo)
  (Hk : peers_keyed pm) (Hp : known_peers pm !! n = Some p)
  (Hst : 0 < suspect_timeout (swim_config s)) (Hdt : 0 < dead_timeout (swim_config s))
  (Hsus : forall i, r_now rd <= r_suspect rd i) (Hdead : forall m, r_now rd <= r_dead rd m) :
  let pm' := (check_timeouts rd pm s).1.2 in
  (state p = Alive -> exists p', known_peers pm' !! n = Some p' /\ (p' = p \/ state p' = Suspect)) /\
  (state p = Suspect -> r_now rd - last_seen p < suspect_timeout (swim_config s) ->
     exists p', known_peers pm' !! n = Some p' /\ state p' = Suspect) /\
  (state p = Suspect -> is_Some (known_peers pm' !! n)).
Proof.
  pose proof (check_timeouts_peer rd pm s n Hk) as Hc.
  destruct (check_timeouts rd pm s) as [[s' pm'] acts]. destruct Hc as (_ & pm1 & pm2 & H1 & H2 & H3). simpl.
  assert (Hfresh : forall i d, 0 < d -> ~ d <= elapsed (r_now rd) (r_suspect rd i))
    by (intros i d Hd; unfold elapsed; specialize (Hsus i); lia).
  assert (E1 : known_peers pm1 !! n = Some p \/ exists i, known_peers pm1 !! n = Some (set_state Suspect (r_suspect rd i) p))
    by (destruct H1 as [->|(_ & i & ->)]; rewrite Hp; simpl; eauto).
  assert (Hq : forall q, known_peers pm1 !! n = Some q ->
    ~ (state q = Suspect /\ suspect_timeout (swim_config s) <= elapsed (r_now rd) (last_seen q)) -> state q <> Dead ->
    known_peers pm' !! n = Some q).
  { intros q Hq Hno Hd. assert (E2 : known_peers pm2 !! n = Some q).
    { destruct H2 as [->|[(q' & Hq' & ? & ?) _]]; [done|]. exfalso. apply Hno. simplify_eq. done. }
    destruct H3 as [->|[(q' & Hq' & ? & _) _]]; [done|]. congruence. }
  split_and!.
  - intros Ha. destruct E1 as [E1|[i E1]].
    + exists p. split; [|by left]. apply Hq; [done| |]; rewrite Ha; [by intros [? _]|done].
    + eexists. split; [apply Hq; [exact E1| |]; simpl|by right]; [|done].
      intros [_ Hle]. by apply (Hfresh i _ Hst).
  - intros Ha Hlt. destruct E1 as [E1|[i E1]].
    + exists p. split; [|done]. apply Hq; [done| |by rewrite Ha]. intros [_ Hle]. unfold elapsed in Hle. lia.
    + eexists. split; [apply Hq; [exact E1| |]; simpl|done]; [|done].
      intros [_ Hle]. by apply (Hfresh i _ Hst).
  - intros Ha. assert (exists q, known_peers pm1 !! n = Some q /\ state q = Suspect) as (q & E & Hs)
      by (destruct E1 as [E1|[i E1]]; eauto).
    destruct H2 as [E2|[_ E2]].
    + destruct H3 as [->|[(q' & Hq' & Hd & _) _]]; [rewrite E2, E; eauto|]. congruence.
    + rewrite E in E2. simpl in E2. destruct H3 as [->|[(q' & Hq' & _ & Hle) _]]; [rewrite E2; eauto|].
      rewrite E2 in Hq'. simplify_eq. simpl in Hle. unfold elapsed in Hle. specialize (Hdead n). lia.
Qed.

(** ** Completeness *)

(** A peer that is not alive. *)
Definition accused (n : string) (pm : PeerManager) : Prop :=
  forall p, known_peers pm !! n = Some p -> state p <> Alive.

Lemma ping_loop_accused (rd : readings) (s : SwimMembership) (pings : list PendingPing) (idx : nat)
    (pm : PeerManager) (n : string) : accused n pm -> accused n (ping_loop rd s idx pings pm).2.
Proof.
  intros Ha p Hp. pose proof (ping_loop_peer rd s pings idx pm n) as Hl.
  destruct (ping_loop rd s idx pings pm) as [[kept actions] pm']. simpl in Hp.
  destruct Hl as [E|(_ & i & E)]; rewrite E in Hp; [eauto|].
  by apply fmap_Some in Hp as (q & Hq & ->).
Qed.

Lemma accused_update (now : DateTime) (n : string) (pm : PeerManager) :
  accused n (update_peer_state now n Suspect pm).1.
Proof.
  intros p Hp. rewrite update_lookup, decide_True in Hp by done. by apply fmap_Some in Hp as (q & _ & ->).
Qed.

(** A ping that has waited [ping_timeout] has either accused its target or
    moved on to the indirect probe; one that has waited twice that after an
    indirect probe accuses. *)
Lemma ping_loop_progress (rd : readings) (s : SwimMembership) (pings : list PendingPing) (idx : nat)
    (pm : PeerManager) (p : PendingPing) :
  p ∈ pings -> ping_timeout (swim_config s) <= elapsed (r_now rd) (sent_at p) ->
  let '(kept, actions, pm') := ping_loop rd s idx pings pm in
  accused (target_id p) pm' \/
  (~ (indirect_sent p = true /\ ping_timeout (swim_config s) * 2 <= elapsed (r_now rd) (sent_at p)) /\
   {| target_id := target_id p; sent_at := sent_at p; indirect_sent := true |} ∈ kept).
Proof.
  intros Hin Hto. revert idx pm. induction pings as [|q pings IH]; intros idx pm; [set_solver|].
  cbn [ping_loop]. set (upd := (update_peer_state (r_suspect rd idx) (target_id q) Suspect pm).1).
  destruct (decide (q = p)) as [->|Hne].
  - clear IH Hin. pose proof (ping_loop_accused rd s pings (S idx) upd (target_id p) (accused_update _ _ _)) as Hacc.
    destruct (ping_loop rd s (S idx) pings upd) as [[k2 a2] pm2]. simpl in Hacc.
    destruct (ping_loop rd s (S idx) pings pm) as [[k1 a1] pm1]. cbv zeta beta.
    rewrite (proj2 (Z.leb_le _ _) Hto). destruct p as [tgt sent ind]; simpl in *. destruct ind; simpl.
    + destruct (Z.leb_spec (ping_timeout (swim_config s) * 2) (elapsed (r_now rd) sent)); [by left|].
      right. split; [intros [_ ?]; lia|]. set_solver.
    + set (via := if (_ <? _)%nat then _ else _). destruct via; [by left|].
      right. split; [by intros [? _]|]. set_solver.
  - assert (p ∈ pings) as Hp by set_solver. specialize (IH Hp).
    pose proof (IH (S idx) pm) as Hk. pose proof (IH (S idx) upd) as Hs.
    destruct (ping_loop rd s (S idx) pings upd) as [[k2 a2] pm2].
    destruct (ping_loop rd s (S idx) pings pm) as [[k1 a1] pm1]. cbv zeta beta.
    assert (Hk' : forall q', accused (target_id p) pm1 \/
      (~ (indirect_sent p = true /\ ping_timeout (swim_config s) * 2 <= elapsed (r_now rd) (sent_at p)) /\
       {| target_id := target_id p; sent_at := sent_at p; indirect_sent := true |} ∈ q' :: k1)) by set_solver.
    destruct (negb (indirect_sent q) && _); [|destruct (indirect_sent q); [destruct (_ <=? _)|]]; try done;
      try apply Hk'.
    set (via := if (_ <? _)%nat then _ else _). destruct via; [done|apply Hk'].
Qed.

(** The later phases of a round do not make a peer alive. *)
Lemma check_timeouts_accused (rd : readings) (pm : PeerManager) (s : SwimMembership) (n : string) :
  accused n (ping_loop rd s 0 (pending_pings s) pm).2 -> accused n (check_timeouts rd pm s).1.2.
Proof.
  unfold check_timeouts. destruct (ping_loop rd s 0 (pending_pings s) pm) as [[kept acts] pm1]. simpl. intros Ha.
  set (dt := suspect_timeout (swim_config s)). set (rt := dead_timeout (swim_config s)).
  pose proof (dead_fold_peer rd dt (with_state Suspect pm1) (acts, pm1) n) as H2. cbv zeta in H2.
  destruct (foldl (dead_step rd dt) (acts, pm1) (with_state Suspect pm1)) as [acts2 pm2]. cbn [snd] in H2.
  pose proof (remove_fold_peer rd rt (with_state Dead pm2) (acts2, pm2) n) as H3. cbv zeta in H3.
  destruct (foldl (remove_step rd rt) (acts2, pm2) (with_state Dead pm2)) as [acts3 pm3]. cbn [snd] in H3. simpl.
  intros p Hp. destruct H3 as [E|[_ E]]; rewrite E in Hp; [|done].
  destruct H2 as [E2|[_ E2]]; rewrite E2 in Hp; [eauto|]. by apply fmap_Some in Hp as (q & _ & ->).
Qed.

(** C27: A silent peer is detected. If a ping stays unanswered, then after a
    timeout round at least [ping_timeout] and another at least twice that after
    it was sent, its target is no longer considered alive. *)
Theorem swim_completeness (rd1 rd2 : readings) (pm : PeerManager) (s : SwimMembership) (p : PendingPing)
  (Hp : p ∈ pending_pings s)
  (H1 : sent_at p + ping_timeout (swim_config s) <= r_now rd1)
  (H2 : sent_at p + 2 * ping_timeout (swim_config s) <= r_now rd2)
  (Hpos : 0 <= ping_timeout (swim_config s)) :
  let '(s1, pm1, _) := check_timeouts rd1 pm s in
  accused (target_id p) (check_timeouts rd2 pm1 s1).1.2.
Proof.
  pose proof (ping_loop_progress rd1 s (pending_pings s) 0 pm p Hp ltac:(unfold elapsed; lia)) as Hl.
  pose proof (check_timeouts_accused rd1 pm s (target_id p)) as Hacc. unfold check_timeouts in *.
  destruct (ping_loop rd1 s 0 (pending_pings s) pm) as [[kept acts] pm0]. cbn [snd] in Hacc.
  destruct (foldl (dead_step rd1 _) _ _) as [acts2 pm2]. destruct (foldl (remove_step rd1 _) _ _) as [acts3 pm3].
  cbn [fst snd] in Hacc. set (s1 := set_pending kept s).
  pose proof (check_timeouts_accused rd2 pm3 s1 (target_id p)) as Hfin. unfold check_timeouts in Hfin.
  apply Hfin. clear Hfin. destruct Hl as [Ha|[_ Hk]].
  - apply ping_loop_accused. auto.
  - set (p' := {| target_id := target_id p; sent_at := sent_at p; indirect_sent := true |}) in *.
    pose proof (ping_loop_progress rd2 s1 (pending_pings s1) 0 pm3 p' Hk ltac:(simpl; unfold elapsed; lia)) as Hl2.
    destruct (ping_loop rd2 s1 0 (pending_pings s1) pm3) as [[k a] q]. simpl.
    destruct Hl2 as [Ha|[Hno _]]; [done|]. exfalso. apply Hno. simpl. split; [done|]. unfold elapsed. lia.
Qed.

(** ** Fingerprint pinning *)
Inductive peer_op : Type :=
| PValidate (now : DateTime) (cert : option (string * list Z)) (remote claimed : string)
| PUpdate (now : DateTime) (id : string) (s : PeerState)
| PTimeouts (rd : readings) (s : SwimMembership)
| PPong (now : DateTime) (sender : string) (s : SwimMembership).

Definition peer_step (pm : PeerManager) (o : peer_op) : PeerManager :=
  match o with
  | PValidate now cert remote claimed => (validate_peer_connection now cert remote claimed pm).1
  | PUpdate now id s => (update_peer_state now id s pm).1
  | PTimeouts rd s => (check_timeouts rd pm s).1.2
  | PPong now sender s => (handle_pong now sender pm s).2
  end.

Lemma update_fingerprint (now : DateTime) (id n : string) (s : PeerState) (pm : PeerManager) :
  fingerprint <$> known_peers (update_peer_state now id s pm).1 !! n = fingerprint <$> known_peers pm !! n.
Proof. rewrite update_lookup. case_decide; [|done]. by destruct (known_peers pm !! n). Qed.

Lemma update_auto (now : DateTime) (id : string) (s : PeerState) (pm : PeerManager) :
  auto_accept (update_peer_state now id s pm).1 = auto_accept pm.
Proof. unfold update_peer_state. by destruct (known_peers pm !! id). Qed.

Lemma ping_loop_auto (rd : readings) (s : SwimMembership) (pings : list PendingPing) (idx : nat) (pm : PeerManager) :
  auto_accept (ping_loop rd s idx pings pm).2 = auto_accept pm.
Proof.
  revert idx pm. induction pings as [|p pings IH]; intros idx pm; cbn [ping_loop]; [done|].
  set (upd := (update_peer_state (r_suspect rd idx) (target_id p) Suspect pm).1).
  pose proof (IH (S idx) pm) as H1. pose proof (IH (S idx) upd) as H2. unfold upd in H2 at 2. rewrite update_auto in H2.
  destruct (ping_loop rd s (S idx) pings upd) as [[k2 a2] pm2].
  destruct (ping_loop rd s (S idx) pings pm) as [[k1 a1] pm1]. simpl in *.
  destruct (negb (indirect_sent p) && _); [|destruct (indirect_sent p); [destruct (_ <=? _)|]]; try done.
  set (via := if (_ <? _)%nat then _ else _). by destruct via.
Qed.

Lemma check_timeouts_auto (rd : readings) (pm : PeerManager) (s : SwimMembership) :
  auto_accept (check_timeouts rd pm s).1.2 = auto_accept pm.
Proof.
  unfold check_timeouts. pose proof (ping_loop_auto rd s (pending_pings s) 0 pm) as H1.
  destruct (ping_loop rd s 0 (pending_pings s) pm) as [[kept acts] pm1]. simpl in H1.
  assert (Hd : forall t l st, auto_accept (foldl (dead_step rd t) st l).2 = auto_accept st.2).
  { intros t l. induction l as [|p l IH]; intros [a m]; simpl; [done|]. rewrite IH.
    destruct (_ <=? _); simpl; [apply update_auto|done]. }
  assert (Hr : forall t l st, auto_accept (foldl (remove_step rd t) st l).2 = auto_accept st.2).
  { intros t l. induction l as [|p l IH]; intros [a m]; simpl; [done|]. rewrite IH. by destruct (_ <=? _). }
  specialize (Hd (suspect_timeout (swim_config s)) (with_state Suspect pm1) (acts, pm1)).
  destruct (foldl (dead_step rd _) _ _) as [acts2 pm2]. simpl in Hd.
  specialize (Hr (dead_timeout (swim_config s)) (with_state Dead pm2) (acts2, pm2)).
  destruct (foldl (remove_step rd _) _ _) as [acts3 pm3]. simpl in *. congruence.
Qed.

(** In strict mode, an operation keeps a peer's pinned fingerprint, or the
    peer is removed; and nobody becomes known. *)
Lemma peer_step_pinned (pm : PeerManager) (o : peer_op) :
  peers_keyed pm -> auto_accept pm = false ->
  peers_keyed (peer_step pm o) /\ auto_accept (peer_step pm o) = false /\
  forall n, known_peers (peer_step pm o) !! n = None \/
    fingerprint <$> known_peers (peer_step pm o) !! n = fingerprint <$> known_peers pm !! n.
Proof.
  intros Hk Ha. assert (Hupd : forall now id s, peers_keyed (update_peer_state now id s pm).1 /\
      auto_accept (update_peer_state now id s pm).1 = false /\
      forall n, known_peers (update_peer_state now id s pm).1 !! n = None \/
       fingerprint <$> known_peers (update_peer_state now id s pm).1 !! n = fingerprint <$> known_peers pm !! n).
  { intros now id s. split_and!; [by apply update_keyed|by rewrite update_auto|right; apply update_fingerprint]. }
  destruct o as [now cert remote claimed|now id s|rd s|now sender s]; simpl; [|apply Hupd| |apply Hupd].
  - unfold validate_peer_connection. destruct cert as [[fp key]|]; [|auto].
    destruct (known_peers pm !! claimed) as [known|] eqn:E; [|rewrite Ha; simpl; auto].
    destruct (bool_decide _); simpl; [|auto]. split_and!; [|done|intros n; right].
    + intros id p Hp. simpl in Hp. apply lookup_insert_Some in Hp as [[<- <-]|[_ Hp]]; [simpl; eauto|eauto].
    + rewrite lookup_insert. case_decide as Hd; [|done]. subst claimed. by rewrite E.
  - rewrite check_timeouts_auto. split_and!; [|done|].
    + pose proof (check_timeouts_peer rd pm s "" Hk) as Hc. by destruct (check_timeouts rd pm s) as [[s' pm'] acts], Hc.
    + intros n. pose proof (check_timeouts_peer rd pm s n Hk) as Hc.
      destruct (check_timeouts rd pm s) as [[s' pm'] acts]. destruct Hc as (_ & pm1 & pm2 & H1 & H2 & H3). simpl.
      destruct H3 as [->|[_ ->]]; [right|by left].
      assert (E2 : fingerprint <$> known_peers pm2 !! n = fingerprint <$> known_peers pm1 !! n)
        by (destruct H2 as [->|[_ ->]]; [done|by destruct (known_peers pm1 !! n)]).
      rewrite E2. destruct H1 as [->|(_ & i & ->)]; [done|by destruct (known_peers pm !! n)].
Qed.

(** Fingerprints are pinned. With auto-accept off, after any history of
    handshakes, state changes and failure-detection rounds, a node id that a
    message is attributed to belongs to a configured peer and was presented
    with the fingerprint configured for it; no handshake can introduce or
    replace an identity. *)
Theorem fingerprint_pinned (pm : PeerManager) (ops : list peer_op) (n fp : string)
  (Hk : peers_keyed pm) (Ha : auto_accept pm = false)
  (Hv : verify_sender n fp (foldl peer_step pm ops) = true) :
  exists p, known_peers pm !! n = Some p /\ fingerprint p = fp.
Proof.
  assert (Hf : known_peers (foldl peer_step pm ops) !! n = None \/
    fingerprint <$> known_peers (foldl peer_step pm ops) !! n = fingerprint <$> known_peers pm !! n).
  { clear Hv. revert pm Hk Ha. induction ops as [|o ops IH]; intros pm Hk Ha; simpl; [by right|].
    destruct (peer_step_pinned pm o Hk Ha) as (Hk' & Ha' & Hp). specialize (Hp n).
    destruct (IH _ Hk' Ha') as [?|E]; [by left|]. destruct Hp as [Hn|E2]; [|right; congruence].
    left. rewrite Hn in E. by destruct (known_peers (foldl peer_step (peer_step pm o) ops) !! n). }
  unfold verify_sender in Hv. destruct (known_peers (foldl peer_step pm ops) !! n) as [q|]; [|done].
  apply bool_decide_eq_true in Hv. destruct Hf as [?|Hf]; [done|].
  destruct (known_peers pm !! n) as [p|]; simplify_eq/=. exists p. split; [done|congruence].
Qed.

(** ** Witnesses *)
Module SwimSample.
Definition peer_a : PeerInfo := peer_new 0 "a" "10.0.0.1:7" "fpa".
Definition pm : PeerManager := add_peer peer_a peers_new.
Definition rd (t : DateTime) : readings :=
  {| r_now := t; r_suspect := fun _ => t; r_dead := fun _ => t; r_choose := fun _ k l => take k l |}.
Definition idle : SwimMembership := swim_new "me" swim_default.
Definition ping_a : PendingPing := {| target_id := "a"; sent_at := 0; indirect_sent := false |}.
Definition waiting : SwimMembership := set_pending [ping_a] idle.

Lemma pm_keyed : peers_keyed pm.
Proof.
  intros id p Hp. unfold pm, add_peer in Hp. simpl in Hp.
  apply lookup_insert_Some in Hp as [[<- <-]|[_ Hp]]; [done|]. by rewrite lookup_empty in Hp.
Qed.

Lemma swim_accuracy_witness :
  known_peers (check_timeouts (rd (secs 100)) pm idle).1.2 !! "a" = Some peer_a.
Proof.
  apply (swim_accuracy (rd (secs 100)) pm idle "a" peer_a pm_keyed).
  - reflexivity.
  - reflexivity.
  - apply not_elem_of_nil.
Defined.

Lemma swim_no_sudden_death_witness :
  exists p', known_peers (check_timeouts (rd (secs 100)) pm waiting).1.2 !! "a" = Some p' /\
    (p' = peer_a \/ state p' = Suspect).
Proof.
  refine (proj1 (swim_no_sudden_death (rd (secs 100)) pm waiting "a" peer_a pm_keyed _ _ _ _ _) _).
  - reflexivity.
  - vm_compute; reflexivity.
  - vm_compute; reflexivity.
  - intros i. apply Z.le_refl.
  - intros m. apply Z.le_refl.
  - reflexivity.
Defined.

Lemma swim_completeness_witness :
  let '(s1, pm1, _) := check_timeouts (rd (secs 1)) pm waiting in
  accused "a" (check_timeouts (rd (secs 2)) pm1 s1).1.2.
Proof.
  apply (swim_completeness (rd (secs 1)) (rd (secs 2)) pm waiting ping_a).
  - left.
  - vm_compute; congruence.
  - vm_compute; congruence.
  - vm_compute; congruence.
Defined.

Lemma fingerprint_pinned_witness :
  exists p, known_peers pm !! "a" = Some p /\ fingerprint p = "fpa".
Proof.
  apply (fingerprint_pinned pm [PValidate 5 (Some ("evil", [1])) "10.0.0.9:7" "a"; PPong 6 "a" idle] "a" "fpa" pm_keyed).
  - reflexivity.
  - vm_compute; reflexivity.
Defined.
End SwimSample.
