(* ===== verification/Gossip.v ===== *)
(** * Gossip ([hiveguard-net/src/gossip.rs])

    Ban propagation between nodes: the digest and difference exchange of
    anti-entropy, and the filter every record received from the network passes
    before it is applied. The two mutex-protected maps of the engine are its
    state; the mutexes are held for the whole filtering of a packet. *)
From S2P Require Import Prelude Models Floats Trust AntiPoison Signed Membership.
Local Open Scope Z_scope.

Record GossipConfig : Type := { fanout : nat; pow_difficulty : Z }.
Definition gossip_default : GossipConfig := {| fanout := 3; pow_difficulty := 16 |}.

Inductive GossipAction : Type :=
| SendBanSync (target_ids : list string) (records : list SignedBanRecord)
| SendDigestExchange (target : string) (digest : list Z)
| SendDiffRequest (target : string) (missing_keys : list string)
| ApplyBans (records : list BanRecord).

Record GossipEngine : Type := {
  g_config : GossipConfig;
  g_local : string;
  g_reports : gmap string (gmap string BanRecord);
  g_accepted : gmap (list Z) DateTime;
}.

Definition gossip_new (local : string) (config : GossipConfig) : GossipEngine :=
  {| g_config := config; g_local := local; g_reports := ∅; g_accepted := ∅ |}.

(** The fields of a record that identify its version. *)
Abbreviation version := (IpNet * DateTime * option DateTime * Z * string * list Z)%type (only parsing).
Definition version_of (r : BanRecord) : version :=
  (subject r, created_at r, expires_at r, severity r, reason r, evidence_hash r).

(** [to_hex] *)
Definition hex_digit (n : Z) : string :=
  default "0" (["0"; "1"; "2"; "3"; "4"; "5"; "6"; "7"; "8"; "9"; "a"; "b"; "c"; "d"; "e"; "f"] !! Z.to_nat n).
Definition to_hex (bs : list Z) : string :=
  foldr (fun b s => String.append (hex_digit (b / 16)) (String.append (hex_digit (b mod 16)) s)) "" bs.

(** [keys.join(",")] *)
Fixpoint join_strings (sep : string) (l : list string) : string :=
  match l with
  | [] => ""
  | [x] => x
  | x :: l' => String.append x (String.append sep (join_strings sep l'))
  end.

(** ** Anti-entropy *)
Section anti_entropy.
Context `{Blake3} `{IpNetOps} `{BincodeSer version}.

(** Serializing plain fields does not fail ([expect]). *)
Definition record_key (r : BanRecord) : string :=
  let payload := default [] (bincode_serialize (version_of r)) in
  String.append (net_to_string (subject r)) (String.append "#" (to_hex (blake3 payload))).

Definition compute_digest (bans : list BanRecord) : list Z :=
  let keys := sort_strings (record_key <$> bans) in
  blake3 (as_bytes (join_strings "," keys)).

(** [choose]: the random sample of [choose_multiple]. *)
Definition select_gossip_targets (choose : nat -> list PeerInfo -> list PeerInfo) (g : GossipEngine)
    (pm : PeerManager) : list string :=
  match get_alive_peers pm with
  | [] => []
  | alive => node_id <$> choose (Nat.min (fanout (g_config g)) (length alive)) alive
  end.

Definition propagate_bans (choose : nat -> list PeerInfo -> list PeerInfo) (g : GossipEngine)
    (records : list SignedBanRecord) (pm : PeerManager) : option GossipAction :=
  match records, select_gossip_targets choose g pm with
  | [], _ | _, [] => None
  | _, targets => Some (SendBanSync targets records)
  end.

(** [take_while] with its running byte count. *)
Fixpoint inventory (bytes : Z) (keys : list string) : list string :=
  match keys with
  | [] => []
  | k :: keys' =>
      let bytes := bytes + Z.of_nat (String.length k) + 8 in
      if bytes <=? 2 * 1024 * 1024 then k :: inventory bytes keys' else []
  end.

Definition handle_digest_exchange (remote_digest : list Z) (local_bans : list BanRecord) (sender : string)
    : option GossipAction :=
  if bool_decide (compute_digest local_bans = remote_digest) then None
  else Some (SendDiffRequest sender (inventory 0 (record_key <$> local_bans))).

Definition handle_diff_request (peer_keys : list string) (local_bans : list BanRecord) : list BanRecord :=
  List.filter (fun b => negb (bool_decide (record_key b ∈ peer_keys)) &&
                        negb (bool_decide (net_to_string (subject b) ∈ peer_keys))) local_bans.

Definition handle_ban_sync (records : list SignedBanRecord) : option GossipAction :=
  match records with [] => None | _ => Some (ApplyBans (sb_record <$> records)) end.
End anti_entropy.

(** ** Filtering received records *)

(** [old > new] on the pair of creation and expiry; no expiry sorts first. *)
Definition opt_ltb (a b : option DateTime) : bool :=
  match a, b with
  | None, None => false
  | None, Some _ => true
  | Some _, None => false
  | Some x, Some y => x <? y
  end.
Definition newer (old new : BanRecord) : bool :=
  (created_at new <? created_at old) ||
  ((created_at new =? created_at old) && opt_ltb (expires_at new) (expires_at old)).

(** [values().map(..).min()] *)
Definition min_of (l : list Z) : option Z :=
  match l with [] => None | x :: l' => Some (foldr Z.min x l') end.

Definition votes_min (f : BanRecord -> Z) (votes : gmap string BanRecord) : option Z :=
  min_of (f <$> (map_to_list votes).*2).
Definition votes_min_expiry (votes : gmap string BanRecord) : option DateTime :=
  min_of (omap expires_at (map_to_list votes).*2).

Definition merged_record (signed : SignedBanRecord) (votes : gmap string BanRecord) : BanRecord :=
  let r := sb_record signed in
  {| subject := subject r;
     created_at := default (created_at r) (votes_min created_at votes);
     expires_at := votes_min_expiry votes;
     severity := default (severity r) (votes_min severity votes);
     reason := reason r; evidence_hash := evidence_hash r;
     source := ClusterPeer (signer_id signed); geo_info := geo_info r |}.

(** [min_by_key] on the expiry. *)
Definition oldest_seen (seen : gmap (list Z) DateTime) : option (list Z) :=
  fst <$> foldr (fun kt best => match best with
                                | Some b => if b.2 <? kt.2 then Some b else Some kt
                                | None => Some kt
                                end) None (map_to_list seen).

(** Mutable state of the loop over a packet. *)
Record sync_state : Type := {
  st_reports : gmap string (gmap string BanRecord);
  st_count : nat;
  st_seen : gmap (list Z) DateTime;
  st_batch : gset (list Z);
  st_limiter : RateLimiter;
  st_out : list BanRecord;
}.

Definition MAX_ENTRIES : nat := Z.to_nat 8192.
Definition MAX_VOTES : nat := 64.
Definition MAX_ENCODED : Z := 16 * 1024.

Definition total_votes (reports : gmap string (gmap string BanRecord)) : nat :=
  map_fold (fun _ votes n => size votes + n)%nat 0%nat reports.

Definition is_cluster_source (s : BanSource) : bool := match s with ClusterPeer _ => true | _ => false end.

(** The eviction and recording of an accepted packet entry. *)
Definition record_seen (key : list Z) (until : DateTime) (seen : gmap (list Z) DateTime) : gmap (list Z) DateTime :=
  let seen := if (MAX_ENTRIES <=? size seen)%nat
              then match oldest_seen seen with Some k => delete k seen | None => seen end
              else seen in
  <[key := until]> seen.

Section filter.
Context `{Blake3} `{IpNetOps} `{Ed25519} `{HashOrder}.
Context `{BincodeSer BanRecord, BincodeSer SignedBanRecord}.
Context (now : DateTime) (sender : string) (tm : TrustManager).
Context (keys : gmap string (list Z)) (eligible : BanRecord -> bool).
(** The two clock readings a rate-limiter call on the [i]-th record makes. *)
Context (ticks : nat -> DateTime * DateTime).

(** The signature check with the signer's registered key. *)
Definition authentic (signed : SignedBanRecord) : bool :=
  match keys !! signer_id signed with
  | Some pk => is_ok (sb_verify signed pk)
  | None => false
  end.

(** From the stored vote on: quorum, eligibility, rate limit, acceptance. *)
Definition decide_one (i : nat) (signed : SignedBanRecord) (key : list Z) (votes : gmap string BanRecord)
    (st : sync_state) : sync_state :=
  if negb (should_enforce (hash_keys (dom votes)) tm) then st else
  let record := merged_record signed votes in
  if negb (eligible record) then st else
  let '(rl, ok) := check_and_record (ticks i).1 (ticks i).2 sender (st_limiter st) in
  if negb ok then
    {| st_reports := st_reports st; st_count := st_count st; st_seen := st_seen st; st_batch := st_batch st;
       st_limiter := rl; st_out := st_out st |}
  else
    {| st_reports := st_reports st; st_count := st_count st;
       st_seen := record_seen key (now + secs 5) (st_seen st); st_batch := st_batch st;
       st_limiter := rl; st_out := st_out st ++ [record] |}.

Definition set_votes (reports : gmap string (gmap string BanRecord)) (count : nat) (st : sync_state) : sync_state :=
  {| st_reports := reports; st_count := count; st_seen := st_seen st; st_batch := st_batch st;
     st_limiter := st_limiter st; st_out := st_out st |}.

(** The vote of an authenticated record. *)
Definition vote_one (i : nat) (signed : SignedBanRecord) (key : list Z) (st : sync_state) : sync_state :=
  let subj := net_to_string (subject (sb_record signed)) in
  let known := bool_decide (is_Some (st_reports st !! subj)) in
  if negb known && (MAX_ENTRIES <=? size (st_reports st))%nat then st else
  let votes := default ∅ (st_reports st !! subj) in
  let reports := <[subj := votes]> (st_reports st) in
  match votes !! signer_id signed with
  | None =>
      if (MAX_ENTRIES <=? st_count st)%nat || (MAX_VOTES <=? size votes)%nat
      then set_votes reports (st_count st) st
      else
        let votes := <[signer_id signed := sb_record signed]> votes in
        decide_one i signed key votes (set_votes (<[subj := votes]> reports) (S (st_count st)) st)
  | Some old =>
      if newer old (sb_record signed) then set_votes reports (st_count st) st
      else
        let votes := <[signer_id signed := sb_record signed]> votes in
        decide_one i signed key votes (set_votes (<[subj := votes]> reports) (st_count st) st)
  end.

Definition expired (r : BanRecord) : bool :=
  match expires_at r with Some e => e <=? now | None => false end.

(** One iteration of the loop over the packet. *)
Definition process_one (i : nat) (signed : SignedBanRecord) (st : sync_state) : sync_state :=
  if is_cluster_source (source (sb_record signed)) || expired (sb_record signed) then st else
  match bincode_serialize signed with
  | None => st
  | Some encoded =>
      if MAX_ENCODED <? Z.of_nat (length encoded) then st else
      let key := blake3 encoded in
      if bool_decide (is_Some (st_seen st !! key)) || bool_decide (key ∈ st_batch st) then st else
      let st := {| st_reports := st_reports st; st_count := st_count st; st_seen := st_seen st;
                   st_batch := {[ key ]} ∪ st_batch st; st_limiter := st_limiter st; st_out := st_out st |} in
      if negb (authentic signed) then st else vote_one i signed key st
  end.

Fixpoint process_all (i : nat) (records : list SignedBanRecord) (st : sync_state) : sync_state :=
  match records with
  | [] => st
  | signed :: records' => process_all (S i) records' (process_one i signed st)
  end.

(** [reports.retain(..)]: expired votes are dropped, then empty subjects. *)
Definition live_votes (votes : gmap string BanRecord) : option (gmap string BanRecord) :=
  let votes := filter (fun kv : string * BanRecord => expired kv.2 = false) votes in
  if decide (votes = ∅) then None else Some votes.

(** The counts of the other nodes, and the quarantine decision. *)
Definition quarantined (ban_counts : gmap string Z) (n_records : nat) : bool :=
  let counts := (map_to_list (delete sender ban_counts)).*2 in
  let sender_count := default 0 (ban_counts !! sender) in
  negb (bool_decide (counts = [])) && check_quarantine (u64_add sender_count (Z.of_nat n_records)) (median counts).

Definition start_state (g : GossipEngine) (rl : RateLimiter) : sync_state :=
  let reports := omap live_votes (g_reports g) in
  {| st_reports := reports; st_count := total_votes reports;
     st_seen := filter (fun kt : list Z * DateTime => now < kt.2) (g_accepted g);
     st_batch := ∅; st_limiter := rl; st_out := [] |}.

Definition handle_ban_sync_filtered_with_policy (g : GossipEngine) (records : list SignedBanRecord)
    (ban_counts : gmap string Z) (rl : RateLimiter) : GossipEngine * RateLimiter * option GossipAction :=
  match records with
  | [] => (g, rl, None)
  | _ =>
      if quarantined ban_counts (length records) then (g, rl, None) else
      let st := process_all 0 records (start_state g rl) in
      ({| g_config := g_config g; g_local := g_local g; g_reports := st_reports st; g_accepted := st_seen st |},
       st_limiter st,
       match st_out st with [] => None | out => Some (ApplyBans out) end)
  end.
End filter.

(** ** What an accepted record stands on *)
Lemma min_of_spec (l : list Z) (x : Z) : x ∈ l -> exists m, min_of l = Some m /\ m <= x.
Proof.
  destruct l as [|y l]; [set_solver|]. simpl. intros Hx. eexists. split; [done|].
  induction l as [|z l IH]; simpl; [set_solver by lia|].
  assert (x = z \/ x ∈ y :: l) as [->|Hin] by set_solver; [lia|]. specialize (IH Hin). lia.
Qed.

Lemma min_of_In (l : list Z) (m : Z) : min_of l = Some m -> m ∈ l.
Proof.
  destruct l as [|y l]; [done|]. simpl. intros [= <-].
  induction l as [|z l IH]; simpl; [set_solver|].
  destruct (Z.min_spec z (foldr Z.min y l)) as [[_ ->]|[_ ->]]; set_solver.
Qed.

Lemma values_elem (votes : gmap string BanRecord) (v : BanRecord) :
  v ∈ (map_to_list votes).*2 <-> exists s, votes !! s = Some v.
Proof.
  rewrite list_elem_of_fmap. split.
  - intros ([s v'] & -> & Hin). exists s. by apply elem_of_map_to_list.
  - intros [s Hs]. exists (s, v). split; [done|]. by apply elem_of_map_to_list.
Qed.

(** The merged record claims no more than any of the votes. *)
Lemma merged_record_min (signed : SignedBanRecord) (votes : gmap string BanRecord) (s : string) (v : BanRecord) :
  votes !! s = Some v ->
  created_at (merged_record signed votes) <= created_at v /\ severity (merged_record signed votes) <= severity v /\
  forall e, expires_at v = Some e -> exists e', expires_at (merged_record signed votes) = Some e' /\ e' <= e.
Proof.
  intros Hv. assert (Hin : v ∈ (map_to_list votes).*2) by (apply values_elem; eauto).
  destruct (min_of_spec (created_at <$> (map_to_list votes).*2) (created_at v)) as (c & Hc & Hcv);
    [by apply list_elem_of_fmap_2|].
  destruct (min_of_spec (severity <$> (map_to_list votes).*2) (severity v)) as (q & Hq & Hqv);
    [by apply list_elem_of_fmap_2|].
  simpl. unfold votes_min, votes_min_expiry. rewrite Hc, Hq. simpl. split_and!; [done..|].
  intros e He. apply min_of_spec. apply list_elem_of_omap. eauto.
Qed.

Section soundness.
Context `{Blake3} `{IpNetOps} `{Ed25519} `{HashOrder}.
Context `{BincodeSer BanRecord, BincodeSer SignedBanRecord}.
Context (now : DateTime) (sender : string) (tm : TrustManager).
Context (keys : gmap string (list Z)) (eligible : BanRecord -> bool).
Context (ticks : nat -> DateTime * DateTime).

(** [P signer record]: the observation [signer] is known to have signed. *)
Context (P : string -> BanRecord -> Prop).
Context (authentic_P : forall signed, authentic keys signed = true ->
  is_cluster_source (source (sb_record signed)) = false -> P (signer_id signed) (sb_record signed)).

(** Every stored vote is a live, signed observation of its subject. *)
Definition votes_ok (subj : string) (votes : gmap string BanRecord) : Prop :=
  forall s v, votes !! s = Some v -> P s v /\ net_to_string (subject v) = subj /\ expired now v = false.
Definition reports_ok (reports : gmap string (gmap string BanRecord)) : Prop :=
  forall subj votes, reports !! subj = Some votes -> votes_ok subj votes.

(** A record supported by a quorum of signed observations. *)
Definition supported (r : BanRecord) : Prop :=
  eligible r = true /\ expired now r = false /\
  exists votes : gmap string BanRecord,
    should_enforce (hash_keys (dom votes)) tm = true /\
    (exists s, source r = ClusterPeer s /\ is_Some (votes !! s)) /\
    forall s v, votes !! s = Some v ->
      P s v /\ net_to_string (subject v) = net_to_string (subject r) /\
      created_at r <= created_at v /\ severity r <= severity v /\
      forall e, expires_at v = Some e -> exists e', expires_at r = Some e' /\ e' <= e.

Definition st_ok (st : sync_state) : Prop := reports_ok (st_reports st) /\ Forall supported (st_out st).

Lemma merged_live (signed : SignedBanRecord) (votes : gmap string BanRecord) (subj : string) :
  votes_ok subj votes -> expired now (merged_record signed votes) = false.
Proof.
  intros Hv. unfold expired. simpl. unfold votes_min_expiry.
  destruct (min_of _) as [e|] eqn:E; [|done].
  apply min_of_In, list_elem_of_omap in E as (v & Hin & He). apply values_elem in Hin as [s Hs].
  destruct (Hv s v Hs) as (_ & _ & Hx). unfold expired in Hx. by rewrite He in Hx.
Qed.

Lemma decide_one_ok (i : nat) (signed : SignedBanRecord) (key : list Z) (votes : gmap string BanRecord) (st : sync_state) :
  st_ok st -> votes_ok (net_to_string (subject (sb_record signed))) votes -> is_Some (votes !! signer_id signed) ->
  st_ok (decide_one now sender tm eligible ticks i signed key votes st).
Proof.
  intros [Hr Ho] Hv Hs. unfold decide_one.
  destruct (should_enforce _ tm) eqn:Eq; [|done]. simpl negb. cbv iota.
  destruct (eligible (merged_record signed votes)) eqn:Ee; [|done]. simpl negb. cbv iota.
  destruct (check_and_record _ _ _ _) as [rl ok]. destruct ok; [|done]. simpl negb. cbv iota.
  split; [done|]. simpl. apply Forall_app. split; [done|]. apply Forall_singleton.
  split_and!; [done|by eapply merged_live|]. exists votes. split_and!; [done|by exists (signer_id signed)|].
  intros s v Hsv. destruct (Hv s v Hsv) as (HP & Hsub & _).
  destruct (merged_record_min signed votes s v Hsv) as (? & ? & ?). done.
Qed.

Lemma reports_ok_insert (reports : gmap string (gmap string BanRecord)) (subj : string) (votes : gmap string BanRecord) :
  reports_ok reports -> votes_ok subj votes -> reports_ok (<[subj := votes]> reports).
Proof. intros Hr Hv k vs Hk. apply lookup_insert_Some in Hk as [[<- <-]|[_ Hk]]; eauto. Qed.

Lemma vote_one_ok (i : nat) (signed : SignedBanRecord) (key : list Z) (st : sync_state) :
  st_ok st -> P (signer_id signed) (sb_record signed) -> expired now (sb_record signed) = false ->
  st_ok (vote_one now sender tm eligible ticks i signed key st).
Proof.
  intros [Hr Ho] HP Hx. unfold vote_one. set (subj := net_to_string _).
  destruct (negb _ && _); [done|].
  assert (Hv : votes_ok subj (default ∅ (st_reports st !! subj))).
  { destruct (st_reports st !! subj) as [vs|] eqn:E; simpl; [by eapply Hr|]. intros s v. by rewrite lookup_empty. }
  set (votes := default ∅ _) in *.
  assert (Hins : votes_ok subj (<[signer_id signed := sb_record signed]> votes)).
  { intros s v Hs. apply lookup_insert_Some in Hs as [[<- <-]|[_ Hs]]; [done|eauto]. }
  assert (Hdec : forall c, st_ok (decide_one now sender tm eligible ticks i signed key
      (<[signer_id signed := sb_record signed]> votes)
      (set_votes (<[subj := <[signer_id signed := sb_record signed]> votes]> (<[subj := votes]> (st_reports st))) c st))).
  { intros c. apply decide_one_ok; [split; [simpl|done]|done|rewrite lookup_insert_eq; eauto].
    auto using reports_ok_insert. }
  destruct (votes !! signer_id signed) as [old|].
  - destruct (newer _ _); [split; [simpl; auto using reports_ok_insert|done]|apply Hdec].
  - destruct (_ || _); [split; [simpl; auto using reports_ok_insert|done]|apply Hdec].
Qed.

Lemma process_one_ok (i : nat) (signed : SignedBanRecord) (st : sync_state) :
  st_ok st -> st_ok (process_one now sender tm keys eligible ticks i signed st).
Proof using authentic_P.
  intros Hst. unfold process_one.
  destruct (is_cluster_source _ || expired now _) eqn:E; [done|]. apply orb_false_iff in E as [Hc Hx].
  destruct (bincode_serialize signed) as [encoded|]; [|done]. destruct (_ <? _); [done|].
  destruct (_ || _); [done|]. destruct (authentic keys signed) eqn:Ea; [|done]. simpl negb. cbv iota.
  apply vote_one_ok; auto.
Qed.

Lemma process_all_ok (records : list SignedBanRecord) (i : nat) (st : sync_state) :
  st_ok st -> st_ok (process_all now sender tm keys eligible ticks i records st).
Proof using authentic_P.
  revert i st. induction records as [|r rs IH]; intros i st Hst; simpl; [done|]. auto using process_one_ok.
Qed.

(** Dropping expired votes. *)
Lemma retained_ok (reports : gmap string (gmap string BanRecord)) :
  (forall subj votes s v, reports !! subj = Some votes -> votes !! s = Some v ->
     P s v /\ net_to_string (subject v) = subj) ->
  reports_ok (omap (live_votes now) reports).
Proof.
  intros Hr subj votes Hl. rewrite lookup_omap in Hl.
  destruct (reports !! subj) as [vs|] eqn:E; [|done]. simpl in Hl. unfold live_votes in Hl.
  case_decide; [done|]. simplify_eq. intros s v Hs. apply map_lookup_filter_Some in Hs as [Hs Hx].
  destruct (Hr subj vs s v E Hs). done.
Qed.

(** The engine's stored votes are signed observations. *)
Definition engine_ok (g : GossipEngine) : Prop :=
  forall subj votes s v, g_reports g !! subj = Some votes -> votes !! s = Some v ->
    P s v /\ net_to_string (subject v) = subj.

(** The filter keeps its votes sound and lets only supported records out. *)
Lemma filter_sound (g : GossipEngine) (records : list SignedBanRecord) (ban_counts : gmap string Z)
  (rl : RateLimiter) (Hg : engine_ok g) :
  let '(g', rl', action) := handle_ban_sync_filtered_with_policy now sender tm keys eligible ticks g records ban_counts rl in
  engine_ok g' /\
  match action with
  | None => True
  | Some (ApplyBans out) => Forall supported out /\ out <> []
  | Some _ => False
  end.
Proof using authentic_P.
  unfold handle_ban_sync_filtered_with_policy. destruct records as [|r rs]; [done|].
  destruct (quarantined _ _ _); [done|]. set (st := process_all _ _ _ _ _ _ _ _ _).
  assert (Hst : st_ok st) by (apply process_all_ok; split; [by apply retained_ok|done]).
  destruct Hst as [Hr Ho]. split.
  - intros subj votes s v Hl Hs. destruct (Hr subj votes Hl s v Hs) as (? & ? & _). done.
  - destruct (st_out st); done.
Qed.

(** C5: Every ban taken from the network has a quorum behind it. A record that
    leaves the filter was allowed by the local policy, has not expired, and is
    backed by a set of distinct signers whose trust reaches the threshold, each
    of which signed an observation of the same subject that began no earlier,
    is at least as severe and lasts at least as long; and the votes kept for
    later packets are again signed observations. Re-signed replicas, unknown
    signers and bad signatures count for nothing. *)
Theorem gossip_quorum_sound (g : GossipEngine) (records : list SignedBanRecord) (ban_counts : gmap string Z)
  (rl : RateLimiter) (Hg : engine_ok g) :
  let '(g', rl', action) := handle_ban_sync_filtered_with_policy now sender tm keys eligible ticks g records ban_counts rl in
  engine_ok g' /\
  match action with
  | None => True
  | Some (ApplyBans out) => Forall supported out /\ out <> []
  | Some _ => False
  end.
Proof using authentic_P. exact (filter_sound g records ban_counts rl Hg). Qed.
End soundness.

(** ** Memory bounds *)
Lemma total_insert_None (reports : gmap string (gmap string BanRecord)) (subj : string) (votes : gmap string BanRecord) :
  reports !! subj = None -> total_votes (<[subj := votes]> reports) = (size votes + total_votes reports)%nat.
Proof. intros Hn. unfold total_votes. rewrite map_fold_insert_L; [done| |done]. intros. lia. Qed.

Lemma total_insert (reports : gmap string (gmap string BanRecord)) (subj : string) (votes : gmap string BanRecord) :
  (total_votes (<[subj := votes]> reports) + size (default ∅ (reports !! subj)) = total_votes reports + size votes)%nat.
Proof.
  destruct (reports !! subj) as [old|] eqn:E; simpl.
  - rewrite <- (insert_delete_eq reports subj votes), total_insert_None by apply lookup_delete_eq.
    rewrite <- (insert_id reports subj old) at 2 by done.
    rewrite <- (insert_delete_eq reports subj old), total_insert_None by apply lookup_delete_eq. lia.
  - rewrite total_insert_None by done. rewrite map_size_empty. lia.
Qed.

Lemma total_retain (now : DateTime) (reports : gmap string (gmap string BanRecord)) :
  (total_votes (omap (live_votes now) reports) <= total_votes reports)%nat /\
  (size (omap (live_votes now) reports) <= size reports)%nat.
Proof.
  induction reports as [|subj votes reports Hn [IH1 IH2]] using map_ind.
  - by rewrite omap_empty.
  - rewrite total_insert_None, map_size_insert_None by done.
    assert (Hno : omap (live_votes now) reports !! subj = None) by by rewrite lookup_omap, Hn.
    destruct (live_votes now votes) as [vs|] eqn:E.
    + rewrite (omap_insert_Some _ _ _ _ vs) by done. rewrite total_insert_None, map_size_insert_None by done.
      assert (size vs <= size votes)%nat; [|lia]. unfold live_votes in E. case_decide; simplify_eq.
      apply map_subseteq_size, map_filter_subseteq.
    + rewrite omap_insert_None by done. rewrite delete_id by done. lia.
Qed.

Definition votes_small (reports : gmap string (gmap string BanRecord)) : Prop :=
  forall subj votes, reports !! subj = Some votes -> (size votes <= MAX_VOTES)%nat.

Definition st_bounded (st : sync_state) : Prop :=
  (size (st_reports st) <= MAX_ENTRIES)%nat /\ st_count st = total_votes (st_reports st) /\
  (total_votes (st_reports st) <= MAX_ENTRIES)%nat /\ votes_small (st_reports st) /\
  (size (st_seen st) <= MAX_ENTRIES)%nat.

Definition engine_bounded (g : GossipEngine) : Prop :=
  (size (g_reports g) <= MAX_ENTRIES)%nat /\ (total_votes (g_reports g) <= MAX_ENTRIES)%nat /\
  votes_small (g_reports g) /\ (size (g_accepted g) <= MAX_ENTRIES)%nat.

Lemma oldest_seen_In (seen : gmap (list Z) DateTime) (k : list Z) :
  oldest_seen seen = Some k -> is_Some (seen !! k).
Proof.
  unfold oldest_seen. intros Hk. apply fmap_Some in Hk as ([k' t] & Hf & ->). simpl.
  assert (Hin : (k', t) ∈ map_to_list seen); [|apply elem_of_map_to_list in Hin; eauto].
  revert Hf. generalize (map_to_list seen) as l. induction l as [|[x y] l IH]; simpl; [done|].
  destruct (foldr _ None l) as [[b1 b2]|]; simpl; [case_match|]; intros ?; simplify_eq; set_solver.
Qed.

Lemma oldest_seen_None (seen : gmap (list Z) DateTime) : oldest_seen seen = None -> seen = ∅.
Proof.
  unfold oldest_seen. intros Hn. apply fmap_None in Hn. apply map_to_list_empty_iff.
  destruct (map_to_list seen) as [|[x y] l]; [done|]. simpl in Hn. repeat case_match; done.
Qed.

Lemma max_entries_pos : (0 < MAX_ENTRIES)%nat.
Proof. unfold MAX_ENTRIES. lia. Qed.

Lemma record_seen_bounded (key : list Z) (until : DateTime) (seen : gmap (list Z) DateTime) :
  (size seen <= MAX_ENTRIES)%nat -> (size (record_seen key until seen) <= MAX_ENTRIES)%nat.
Proof.
  intros Hs. pose proof max_entries_pos. unfold record_seen. set (seen' := if (_ <=? _)%nat then _ else _).
  assert (size seen' < MAX_ENTRIES)%nat as Hlt.
  { subst seen'. destruct (Nat.leb_spec MAX_ENTRIES (size seen)); [|done].
    destruct (oldest_seen seen) as [k|] eqn:E.
    - apply oldest_seen_In in E as [t Ht]. rewrite map_size_delete, Ht. simpl. lia.
    - apply oldest_seen_None in E as ->. rewrite map_size_empty in *. lia. }
  rewrite map_size_insert. destruct (seen' !! key); simpl; lia.
Qed.

Section bounds.
Context `{Blake3} `{IpNetOps} `{Ed25519} `{HashOrder}.
Context `{BincodeSer BanRecord, BincodeSer SignedBanRecord}.
Context (now : DateTime) (sender : string) (tm : TrustManager).
Context (keys : gmap string (list Z)) (eligible : BanRecord -> bool).
Context (ticks : nat -> DateTime * DateTime).

Lemma decide_one_bounded (i : nat) (signed : SignedBanRecord) (key : list Z) (votes : gmap string BanRecord) (st : sync_state) :
  st_bounded st -> st_bounded (decide_one now sender tm eligible ticks i signed key votes st).
Proof.
  intros Hb. unfold decide_one. destruct (negb (should_enforce _ _)); [done|].
  destruct (negb (eligible _)); [done|]. destruct (check_and_record _ _ _ _) as [rl ok].
  destruct (negb ok); [done|]. destruct Hb as (? & ? & ? & ? & ?).
  unfold st_bounded; simpl. split_and!; auto using record_seen_bounded.
Qed.

Lemma vote_one_bounded (i : nat) (signed : SignedBanRecord) (key : list Z) (st : sync_state) :
  st_bounded st -> st_bounded (vote_one now sender tm eligible ticks i signed key st).
Proof.
  intros (Hr & Hc & Ht & Hv & Hs). unfold vote_one. set (subj := net_to_string _).
  destruct (negb _ && _) eqn:Hroom; [done|].
  set (votes := default ∅ (st_reports st !! subj)).
  assert (Hsz : forall vs : gmap string BanRecord, (size (<[subj := vs]> (st_reports st)) <= MAX_ENTRIES)%nat).
  { intros vs. rewrite map_size_insert. destruct (st_reports st !! subj) eqn:E; [done|].
    apply andb_false_iff in Hroom as [Hroom|Hroom].
    - apply negb_false_iff, bool_decide_eq_true in Hroom as [? ?]. congruence.
    - apply Nat.leb_gt in Hroom. lia. }
  assert (Hvotes : (size votes <= MAX_VOTES)%nat).
  { subst votes. destruct (st_reports st !! subj) eqn:E; simpl; [eauto|rewrite map_size_empty; unfold MAX_VOTES; lia]. }
  assert (Hsmall : forall vs : gmap string BanRecord, (size vs <= MAX_VOTES)%nat -> votes_small (<[subj := vs]> (st_reports st))).
  { intros vs Hvs k ws Hk. apply lookup_insert_Some in Hk as [[<- <-]|[_ Hk]]; eauto. }
  pose proof (fun vs => total_insert (st_reports st) subj vs) as Htot. fold votes in Htot.
  assert (Hsame : st_bounded (set_votes (<[subj := votes]> (st_reports st)) (st_count st) st)).
  { specialize (Htot votes). unfold st_bounded; simpl. split_and!; auto; lia. }
  rewrite insert_insert_eq. set (votes' := <[signer_id signed := sb_record signed]> votes).
  specialize (Htot votes').
  destruct (votes !! signer_id signed) as [old|] eqn:Eo.
  - assert (size votes' = size votes) as Hsz' by (unfold votes'; rewrite map_size_insert_Some; [done|by rewrite Eo]).
    destruct (newer _ _); [done|]. apply decide_one_bounded. unfold st_bounded; simpl.
    split_and!; auto; try lia. apply Hsmall. lia.
  - assert (size votes' = S (size votes)) as Hsz' by (unfold votes'; by rewrite map_size_insert_None).
    destruct (_ || _) eqn:Efull; [done|]. apply orb_false_iff in Efull as [E1%Nat.leb_gt E2%Nat.leb_gt].
    apply decide_one_bounded. unfold st_bounded; simpl. split_and!; auto; try lia. apply Hsmall. lia.
Qed.

Lemma process_all_bounded (records : list SignedBanRecord) (i : nat) (st : sync_state) :
  st_bounded st -> st_bounded (process_all now sender tm keys eligible ticks i records st).
Proof.
  revert i st. induction records as [|r rs IH]; intros i st Hst; simpl; [done|]. apply IH.
  unfold process_one. destruct (_ || _); [done|]. destruct (bincode_serialize r); [|done].
  destruct (_ <? _); [done|]. destruct (_ || _); [done|]. destruct (negb _); [done|].
  by apply vote_one_bounded.
Qed.

(** The filter's memory is bounded. Whatever packets arrive, the engine
    keeps at most 8192 subjects, 8192 votes in all, 64 votes per subject and
    8192 remembered decisions. *)
Theorem gossip_memory_bounded (g : GossipEngine) (records : list SignedBanRecord) (ban_counts : gmap string Z)
  (rl : RateLimiter) (Hg : engine_bounded g) :
  engine_bounded (handle_ban_sync_filtered_with_policy now sender tm keys eligible ticks g records ban_counts rl).1.1.
Proof.
  unfold handle_ban_sync_filtered_with_policy. destruct records as [|r rs]; [done|].
  destruct (quarantined _ _ _); [done|]. set (st := process_all _ _ _ _ _ _ _ _ _).
  assert (Hst : st_bounded st).
  { apply process_all_bounded. destruct Hg as (H1' & H2' & H3' & H4').
    destruct (total_retain now (g_reports g)) as [Ht Hs]. unfold st_bounded; simpl. split_and!; try done; try lia.
    - intros subj votes Hl. rewrite lookup_omap in Hl. destruct (g_reports g !! subj) as [vs|] eqn:E; [|done].
      simpl in Hl. unfold live_votes in Hl. case_decide; simplify_eq.
      etrans; [apply map_subseteq_size, map_filter_subseteq|]. eauto.
    - etrans; [apply map_subseteq_size, map_filter_subseteq|]. done. }
  destruct Hst as (? & ? & ? & ? & ?). done.
Qed.
End bounds.

(** ** Anti-entropy *)
Section digest.
Context `{Blake3} `{IpNetOps} `{BincodeSer version}.

Lemma inventory_prefix (keys : list string) (b : Z) : inventory b keys ⊆ keys.
Proof.
  revert b. induction keys as [|k keys IH]; intros b; simpl; [done|].
  destruct (_ <=? _); [|set_solver]. specialize (IH (b + Z.of_nat (String.length k) + 8)). set_solver.
Qed.

Lemma handle_diff_elem (peer_keys : list string) (local : list BanRecord) (r : BanRecord) :
  r ∈ handle_diff_request peer_keys local <->
  r ∈ local /\ (record_key r ∉ peer_keys) /\ (net_to_string (subject r) ∉ peer_keys).
Proof.
  unfold handle_diff_request. rewrite elem_of_lfilter, andb_true_iff, !negb_true_iff,
    !bool_decide_eq_false. tauto.
Qed.

(** The difference exchange loses nothing. When a node whose digest differs
    asks a peer for what it is missing, the answer contains every ban of the
    peer whose version key and plain subject the node does not already hold,
    however long the inventory is (cutting it off only makes the answer
    larger), and nothing the peer does not have; nodes with the same set of
    bans have equal digests and exchange nothing. *)
Theorem anti_entropy_complete (local remote : list BanRecord) (peer : string) :
  (local ≡ₚ remote -> handle_digest_exchange (compute_digest remote) local peer = None) /\
  match handle_digest_exchange (compute_digest remote) local peer with
  | Some (SendDiffRequest target keys) => target = peer /\
      (forall r, r ∈ remote -> record_key r ∉ (record_key <$> local) ->
         net_to_string (subject r) ∉ (record_key <$> local) -> r ∈ handle_diff_request keys remote) /\
      (forall r, r ∈ handle_diff_request keys remote -> r ∈ remote /\ record_key r ∉ keys)
  | Some _ => False
  | None => compute_digest local = compute_digest remote
  end.
Proof.
  split.
  - intros Hp. unfold handle_digest_exchange. rewrite bool_decide_true; [done|].
    unfold compute_digest. f_equal. f_equal. f_equal. apply sort_strings_unique. by apply fmap_Permutation.
  - unfold handle_digest_exchange. case_bool_decide as Hd; [done|]. split_and!; [done| |].
    + intros r Hr Hk Hs. apply handle_diff_elem. split_and!; [done| |];
        intros Hin; apply inventory_prefix in Hin; done.
    + intros r Hr. apply handle_diff_elem in Hr as (? & ? & _). done.
Qed.
End digest.

(** ** Witnesses: two peers of trust 0.5 report one address, threshold 1.0. *)
Module GossipSample.
Import SignedSample.
#[local] Existing Instances ipnet_ref toy_blake3 toy_ed toy_ser.
#[local] Instance ser_signed : BincodeSer SignedBanRecord :=
  fun s => Some (as_bytes (signer_id s) ++ [severity (sb_record s)]).
#[local] Instance order : HashOrder := fun X => elements X.

Definition tm : TrustManager :=
  foldl trust_step (manager_new (f64_lit 1 1)) [TRegister 0 "a"; TRegister 0 "b"].
Definition keys : gmap string (list Z) := {[ "a" := [7]; "b" := [7] ]}.
Definition signed_by (id : string) (sev : Z) : SignedBanRecord :=
  {| sb_record := rec sev; signer_id := id; signature := [sev]; pow := {| nonce := 0; difficulty := 16 |} |}.
Definition packet : list SignedBanRecord := [signed_by "a" 9; signed_by "b" 5; signed_by "c" 1].
Definition engine : GossipEngine := gossip_new "me" gossip_default.
Definition limiter : RateLimiter := limiter_new 10 (secs 60).
Definition yes (_ : BanRecord) : bool := true.
Definition ticks (i : nat) : DateTime * DateTime := (1, 1).
Definition P (s : string) (v : BanRecord) : Prop :=
  exists signed, authentic keys signed = true /\ signer_id signed = s /\ sb_record signed = v.

Lemma engine_fine : engine_ok P engine.
Proof. intros subj votes s v Hl. simpl in Hl. by rewrite lookup_empty in Hl. Qed.

Lemma gossip_quorum_sound_witness : exists r,
  (handle_ban_sync_filtered_with_policy 1 "a" tm keys yes ticks engine packet ∅ limiter).2 = Some (ApplyBans [r]) /\
  severity r = 5 /\ supported 1 tm yes P r.
Proof.
  pose proof (gossip_quorum_sound 1 "a" tm keys yes ticks P
    (fun signed Ha _ => ex_intro _ signed (conj Ha (conj eq_refl eq_refl))) engine packet ∅ limiter engine_fine) as Hs.
  destruct (handle_ban_sync_filtered_with_policy 1 "a" tm keys yes ticks engine packet ∅ limiter)
    as [[g rl] action] eqn:E.
  assert (Ha : exists r, action = Some (ApplyBans [r]) /\ severity r = 5).
  { vm_compute in E. injection E as _ _ <-. eexists. split; reflexivity. }
  destruct Ha as (r & -> & Hsev). exists r. cbn [snd]. split; [reflexivity|]. split; [exact Hsev|].
  destruct Hs as [_ [Hf _]]. by apply Forall_inv in Hf.
Defined.

Lemma gossip_memory_bounded_witness :
  engine_bounded (handle_ban_sync_filtered_with_policy 1 "a" tm keys yes ticks engine packet ∅ limiter).1.1.
Proof.
  apply (gossip_memory_bounded 1 "a" tm keys yes ticks engine packet ∅ limiter).
  unfold engine_bounded; simpl. rewrite map_size_empty. unfold total_votes. rewrite map_fold_empty.
  split_and!; [apply Nat.le_0_l|apply Nat.le_0_l| |rewrite map_size_empty; apply Nat.le_0_l].
  intros subj votes Hl. simpl in Hl. by rewrite lookup_empty in Hl.
Defined.
End GossipSample.
