(* ===== verification/Merkle.v ===== *)
(** * Bucketed digests ([hiveguard-net/src/merkle.rs])

    The digest of a set of subjects, one hash per bucket, and the comparison
    that tells which buckets to exchange. *)
From S2P Require Import Prelude Gossip.
From Stdlib Require Import Ascii.
Local Open Scope Z_scope.

Record MerkleDigest : Type := {
  root_hash : list Z;
  buckets : gmap Z (list Z);
  entry_count : nat;
}.

(** A [BTreeMap<u8, _>] iterates in key order. *)
Definition byte_range : list Z := Z.of_nat <$> seq 0 256.
Definition byte_keys {A} (m : gmap Z A) : list Z :=
  List.filter (fun k => bool_decide (is_Some (m !! k))) byte_range.

Lemma elem_of_byte_range (k : Z) : k ∈ byte_range <-> 0 <= k < 256.
Proof.
  unfold byte_range. rewrite list_elem_of_fmap. setoid_rewrite elem_of_seq. split.
  - intros (n & -> & Hn). lia.
  - intros Hk. exists (Z.to_nat k). lia.
Qed.

Lemma elem_of_byte_keys {A} (m : gmap Z A) (k : Z) : k ∈ byte_keys m <-> 0 <= k < 256 /\ is_Some (m !! k).
Proof. unfold byte_keys. by rewrite elem_of_lfilter, elem_of_byte_range, bool_decide_eq_true. Qed.
#[global] Opaque byte_range.

(** [sort] then [dedup] on bucket numbers. *)
Definition sort_dedup_Z (l : list Z) : list Z := merge_sort Z.le (remove_dups l).

Section merkle.
Context `{Blake3}.

Definition bucket_of (subject : string) : Z := default 0 (blake3 (as_bytes subject) !! 0%nat).

(** [buckets.entry(key).or_default().push(subject)] *)
Definition push_bucket (m : gmap Z (list string)) (subject : string) : gmap Z (list string) :=
  <[bucket_of subject := default [] (m !! bucket_of subject) ++ [subject]]> m.

Definition bucket_hash (entries : list string) : list Z :=
  blake3 (as_bytes (join_strings "," (sort_strings entries))).

Definition build (subjects : list string) : MerkleDigest :=
  let m := foldl push_bucket ∅ subjects in
  let hashes := bucket_hash <$> m in
  {| root_hash := blake3 (foldr (fun k acc => default [] (hashes !! k) ++ acc) [] (byte_keys m));
     buckets := hashes;
     entry_count := length subjects |}.

Definition digest_matches (a b : MerkleDigest) : bool := bool_decide (root_hash a = root_hash b).

Definition diff_buckets (a b : MerkleDigest) : list Z :=
  let differing := List.filter (fun k => negb (bool_decide (buckets b !! k = buckets a !! k))) (byte_keys (buckets a)) in
  let missing := List.filter (fun k => bool_decide (buckets a !! k = None)) (byte_keys (buckets b)) in
  sort_dedup_Z (differing ++ missing).

Definition subjects_in_buckets (subjects : list string) (ks : list Z) : list string :=
  List.filter (fun s => bool_decide (bucket_of s ∈ ks)) subjects.

Definition root_hash_only (subjects : list string) : list Z :=
  blake3 (as_bytes (join_strings "," (sort_strings subjects))).

(** ** The buckets hold each subject once per occurrence *)
Definition in_bucket (k : Z) (l : list string) : list string :=
  List.filter (fun s => bucket_of s =? k) l.

Lemma push_all (l : list string) (m : gmap Z (list string)) (k : Z) :
  foldl push_bucket m l !! k =
    if decide (in_bucket k l = []) then m !! k else Some (default [] (m !! k) ++ in_bucket k l).
Proof.
  revert m. induction l as [|s l IH]; intros m; [done|]. cbn [foldl]. rewrite IH. clear IH.
  unfold push_bucket. rewrite lookup_insert. unfold in_bucket. cbn [List.filter].
  destruct (Z.eqb_spec (bucket_of s) k) as [->|Hne].
  - rewrite (decide_False (P := s :: _ = [])) by done. rewrite (decide_True (P := k = k)) by done.
    case_decide as Hd; simpl; [by rewrite Hd|]. by rewrite <- app_assoc.
  - by rewrite (decide_False (P := bucket_of s = k)).
Qed.

Lemma build_bucket (l : list string) (k : Z) :
  buckets (build l) !! k = if decide (in_bucket k l = []) then None else Some (bucket_hash (in_bucket k l)).
Proof.
  simpl. rewrite lookup_fmap, push_all, lookup_empty. case_decide; done.
Qed.

Lemma in_bucket_perm (k : Z) (l l' : list string) : l ≡ₚ l' -> in_bucket k l ≡ₚ in_bucket k l'.
Proof.
  unfold in_bucket. induction 1 as [|x l l' _ IH|x y l|l1 l2 l3 _ IH1 _ IH2]; simpl; [done| | |by etrans].
  - destruct (_ =? k); [by constructor|done].
  - destruct (bucket_of x =? k), (bucket_of y =? k); try done. constructor.
Qed.

(** The same subjects in any order fill the buckets with the same hashes. *)
Lemma bucket_hash_perm (l l' : list string) : l ≡ₚ l' -> bucket_hash l = bucket_hash l'.
Proof. intros Hp. unfold bucket_hash. by rewrite (sort_strings_unique l l'). Qed.

Lemma buckets_perm (l l' : list string) : l ≡ₚ l' -> buckets (build l) = buckets (build l').
Proof.
  intros Hp. apply map_eq. intros k. rewrite !build_bucket. pose proof (in_bucket_perm k l l' Hp) as Hk.
  destruct (decide (in_bucket k l = [])) as [E|E].
  - rewrite E in Hk. apply Permutation_nil in Hk. by rewrite Hk, decide_True.
  - rewrite decide_False; [by rewrite (bucket_hash_perm _ _ Hk)|]. intros E'. rewrite E' in Hk.
    by symmetry in Hk; apply Permutation_nil in Hk.
Qed.

Lemma byte_keys_fmap {A B} (f : A -> B) (m : gmap Z A) : byte_keys (f <$> m) = byte_keys m.
Proof.
  unfold byte_keys. apply List.filter_ext. intros k. rewrite lookup_fmap.
  by apply bool_decide_ext; rewrite fmap_is_Some.
Qed.

Lemma filter_none {A} (f : A -> bool) (l : list A) : (forall x, x ∈ l -> f x = false) -> List.filter f l = [].
Proof.
  induction l as [|x l IH]; intros Hf; simpl; [done|]. rewrite Hf by apply list_elem_of_here.
  apply IH. intros y Hy. apply Hf. by apply list_elem_of_further.
Qed.

Lemma diff_self (a : MerkleDigest) : diff_buckets a a = [].
Proof.
  unfold diff_buckets. rewrite filter_none, filter_none; [done|..].
  - intros k [_ [x Hx]]%elem_of_byte_keys. apply bool_decide_eq_false. by rewrite Hx.
  - intros k _. by rewrite bool_decide_true.
Qed.

(** A digest depends on the set of bans only: nodes holding the same
    subjects, in whatever order they learned them, compute equal digests, root
    and buckets, so they never exchange anything. *)
Theorem merkle_order_independent (l l' : list string) (Hp : l ≡ₚ l') :
  build l = build l' /\ digest_matches (build l) (build l') = true /\ diff_buckets (build l) (build l') = [].
Proof.
  assert (E : build l = build l').
  { pose proof (buckets_perm l l' Hp) as Hb. unfold build in *. cbn [buckets] in Hb.
    rewrite <- (byte_keys_fmap bucket_hash (foldl push_bucket ∅ l)), <- (byte_keys_fmap bucket_hash (foldl push_bucket ∅ l')).
    rewrite Hb. f_equal. by apply Permutation_length. }
  split; [done|]. rewrite E. split; [by apply bool_decide_eq_true|apply diff_self].
Qed.

(** A bucket is listed exactly when its hashes differ. *)
Lemma diff_buckets_exact (a b : MerkleDigest) (k : Z) : 0 <= k < 256 ->
  k ∈ diff_buckets a b <-> buckets a !! k <> buckets b !! k.
Proof.
  intros Hk.
  unfold diff_buckets, sort_dedup_Z. rewrite merge_sort_Permutation, elem_of_remove_dups, elem_of_app.
  rewrite !elem_of_lfilter, !elem_of_byte_keys, negb_true_iff, bool_decide_eq_false, bool_decide_eq_true.
  destruct (buckets a !! k) eqn:Ea, (buckets b !! k) eqn:Eb; unfold is_Some; naive_solver.
Qed.
End merkle.

(** ** Joined subjects determine the subjects *)
Fixpoint comma_free (s : string) : bool :=
  match s with
  | EmptyString => true
  | String c s' => negb (Ascii.eqb c ","%char) && comma_free s'
  end.

Lemma append_comma_inj (a b s t : string) : comma_free a = true -> comma_free b = true ->
  String.append a (String ","%char s) = String.append b (String ","%char t) -> a = b /\ s = t.
Proof.
  revert b. induction a as [|c a IH]; intros [|d b] Ha Hb E; simpl in *.
  - by injection E.
  - by injection E as <- _.
  - by injection E as -> _.
  - injection E as -> E. apply andb_true_iff in Ha as [_ Ha], Hb as [_ Hb]. by destruct (IH b Ha Hb E) as [-> ->].
Qed.

Lemma append_comma_neq (a b t : string) : comma_free a = true -> a <> String.append b (String ","%char t).
Proof.
  revert a. induction b as [|d b IH]; intros [|c a] Ha E; simpl in *; try done.
  - by injection E as -> _.
  - injection E as _ E. apply andb_true_iff in Ha as [_ Ha]. by apply (IH a).
Qed.

Lemma join_inj (l l' : list string) : l <> [] -> l' <> [] ->
  Forall (fun s => comma_free s = true) l -> Forall (fun s => comma_free s = true) l' ->
  join_strings "," l = join_strings "," l' -> l = l'.
Proof.
  intros Hl Hl' Hf. revert l' Hl'. induction Hf as [|a l Ha Hf IH]; [done|]. intros [|b l'] Hl' Hf' E; [done|].
  apply Forall_cons in Hf' as [Hb Hf']. destruct l as [|a2 l], l' as [|b2 l']; cbn [join_strings] in E.
  - by subst.
  - exfalso. by eapply (append_comma_neq a b).
  - exfalso. symmetry in E. by eapply (append_comma_neq b a).
  - apply append_comma_inj in E as [-> E]; [|done..]. f_equal. by apply IH.
Qed.

Section completeness.
Context `{Blake3} {hash_laws : Blake3Laws}.

Lemma bucket_range (s : string) : 0 <= bucket_of s < 256.
Proof using hash_laws.
  unfold bucket_of. pose proof (blake3_bytes (as_bytes s)) as Hb. pose proof (blake3_length (as_bytes s)) as Hl.
  destruct (blake3 (as_bytes s)) as [|x l]; [done|]. apply Forall_cons in Hb as [Hx _]. unfold in_width in Hx. simpl. lia.
Qed.

(** The bucket comparison misses nothing: a subject one node has and the
    other lacks lies in a differing bucket and is among the subjects that node
    selects for the exchange, unless the two nodes' bucket contents collide
    under the hash. *)
Theorem merkle_diff_complete (mine theirs : list string) (s : string)
  (Hs : s ∈ mine) (Hno : s ∉ theirs)
  (Hm : Forall (fun x => comma_free x = true) mine) (Ht : Forall (fun x => comma_free x = true) theirs)
  (Hcf : let k := bucket_of s in
    bucket_hash (in_bucket k mine) = bucket_hash (in_bucket k theirs) ->
    join_strings "," (sort_strings (in_bucket k mine)) = join_strings "," (sort_strings (in_bucket k theirs))) :
  s ∈ subjects_in_buckets mine (diff_buckets (build mine) (build theirs)).
Proof using hash_laws.
  unfold subjects_in_buckets. apply elem_of_lfilter. split; [done|].
  apply bool_decide_eq_true. apply diff_buckets_exact; [apply bucket_range|]. cbv zeta in Hcf.
  set (k := bucket_of s) in *. rewrite !build_bucket.
  assert (Hin : s ∈ in_bucket k mine).
  { apply elem_of_lfilter. by rewrite Z.eqb_refl. }
  rewrite decide_False by (intros E; rewrite E in Hin; set_solver). case_decide as Hd; [done|].
  intros E. apply (inj Some) in E. specialize (Hcf E).
  assert (Hsub : forall l, Forall (fun x => comma_free x = true) l ->
    Forall (fun x => comma_free x = true) (sort_strings (in_bucket k l))).
  { intros l Hl. apply Forall_forall. intros x Hx. rewrite sort_strings_perm in Hx. apply elem_of_lfilter in Hx as [Hx _].
    rewrite Forall_forall in Hl. by apply Hl. }
  assert (Hne : forall l, in_bucket k l <> [] -> sort_strings (in_bucket k l) <> []).
  { intros l Hl E'. pose proof (sort_strings_perm (in_bucket k l)) as Hp. rewrite E' in Hp.
    by apply Permutation_nil in Hp. }
  apply join_inj in Hcf; auto; [|apply Hne; intros E'; rewrite E' in Hin; set_solver].
  assert (Hin' : s ∈ in_bucket k theirs) by (rewrite <- sort_strings_perm, <- Hcf, sort_strings_perm; done).
  by apply elem_of_lfilter in Hin' as [Hin' _].
Qed.
End completeness.

(** ** Witnesses *)
Module MerkleSample.
#[local] Instance toy_hash : Blake3 := fun bs => wrap 8 (foldr Z.add 0 bs) :: replicate 31 0.
#[local] Instance toy_hash_laws : Blake3Laws.
Proof.
  split; intros bs; unfold blake3, toy_hash.
  - simpl. done.
  - constructor; [apply wrap_range; lia|apply Forall_replicate; unfold in_width; lia].
Qed.

Lemma merkle_order_independent_witness : build ["a"; "b"] = build ["b"; "a"].
Proof. refine (proj1 (merkle_order_independent ["a"; "b"] ["b"; "a"] _)). apply perm_swap. Defined.

Lemma merkle_diff_complete_witness :
  "c" ∈ subjects_in_buckets ["a"; "c"] (diff_buckets (build ["a"; "c"]) (build ["a"])).
Proof.
  apply (merkle_diff_complete ["a"; "c"] ["a"] "c").
  - right. left.
  - intros Hin. by apply list_elem_of_singleton in Hin.
  - repeat constructor.
  - repeat constructor.
  - cbv zeta. intros E. vm_compute in E. congruence.
Defined.
End MerkleSample.
