(* ===== verification/Sync.v ===== *)
(** * Sync coordinator ([hiveguard-net/src/sync.rs])

    The component the daemon drives: the failure detector, the gossip engine
    and the peer table behind one interface. *)
From S2P Require Import Prelude Models Floats Trust AntiPoison Signed Membership Gossip.
Local Open Scope Z_scope.

Record SyncCoordinator : Type := {
  co_swim : SwimMembership;
  co_gossip : GossipEngine;
  co_peers : PeerManager;
}.

Definition coordinator_new (local : string) (swim : SwimConfig) (gossip : GossipConfig) : SyncCoordinator :=
  {| co_swim := swim_new local swim; co_gossip := gossip_new local gossip; co_peers := peers_new |}.

Definition is_no_action (a : SwimAction) : bool := match a with NoAction => true | _ => false end.

(** [run_probe_cycle]: probe one peer, then process the timeouts. *)
Definition run_probe_cycle (now : DateTime) (choose : list PeerInfo -> option PeerInfo) (rd : readings)
    (digest : list Z) (c : SyncCoordinator) : SyncCoordinator * list SwimAction :=
  let '(swim1, probe) := select_probe_target now choose (co_peers c) digest (co_swim c) in
  let actions := if is_no_action probe then [] else [probe] in
  let '(swim2, peers, timeouts) := check_timeouts rd (co_peers c) swim1 in
  ({| co_swim := swim2; co_gossip := co_gossip c; co_peers := peers |}, actions ++ timeouts).

Definition co_handle_pong (now : DateTime) (sender : string) (c : SyncCoordinator) : SyncCoordinator :=
  let '(swim, peers) := handle_pong now sender (co_peers c) (co_swim c) in
  {| co_swim := swim; co_gossip := co_gossip c; co_peers := peers |}.

Definition co_handle_ping (now : DateTime) (sender : string) (c : SyncCoordinator) : SyncCoordinator * SwimAction :=
  ({| co_swim := co_swim c; co_gossip := co_gossip c;
      co_peers := (update_peer_state now sender Alive (co_peers c)).1 |}, NoAction).

Definition alive_peer_count (c : SyncCoordinator) : nat := length (get_alive_peers (co_peers c)).
Definition total_peer_count (c : SyncCoordinator) : nat := size (known_peers (co_peers c)).

Section coordinator.
Context `{Blake3} `{IpNetOps} `{Ed25519} `{HashOrder} `{BincodeSer version}.
Context `{BincodeSer BanRecord, BincodeSer SignedBanRecord}.

Definition co_propagate_bans (choose : nat -> list PeerInfo -> list PeerInfo) (records : list SignedBanRecord)
    (c : SyncCoordinator) : option GossipAction :=
  propagate_bans choose (co_gossip c) records (co_peers c).

Definition co_handle_ban_sync_filtered_with_policy (now : DateTime) (sender : string) (tm : TrustManager)
    (keys : gmap string (list Z)) (eligible : BanRecord -> bool) (ticks : nat -> DateTime * DateTime)
    (records : list SignedBanRecord) (ban_counts : gmap string Z) (rl : RateLimiter) (c : SyncCoordinator)
    : SyncCoordinator * RateLimiter * option GossipAction :=
  let '(g, rl', action) :=
    handle_ban_sync_filtered_with_policy now sender tm keys eligible ticks (co_gossip c) records ban_counts rl in
  ({| co_swim := co_swim c; co_gossip := g; co_peers := co_peers c |}, rl', action).

(** Without a local policy every record is eligible. *)
Definition co_handle_ban_sync_filtered (now : DateTime) (sender : string) (tm : TrustManager)
    (keys : gmap string (list Z)) (ticks : nat -> DateTime * DateTime)
    (records : list SignedBanRecord) (ban_counts : gmap string Z) (rl : RateLimiter) (c : SyncCoordinator)
    : SyncCoordinator * RateLimiter * option GossipAction :=
  co_handle_ban_sync_filtered_with_policy now sender tm keys (fun _ => true) ticks records ban_counts rl c.

Definition co_handle_digest_exchange (remote : list Z) (local_bans : list BanRecord) (sender : string)
    : option GossipAction := handle_digest_exchange remote local_bans sender.
Definition co_handle_diff_request (peer_keys : list string) (local_bans : list BanRecord) : list BanRecord :=
  handle_diff_request peer_keys local_bans.
End coordinator.

(** ** Probe rounds over time *)

(** A round, or an answer to a ping. *)
Inductive co_event : Type :=
| ECycle (now : DateTime) (choose : list PeerInfo -> option PeerInfo) (rd : readings) (digest : list Z)
| EPong (now : DateTime) (sender : string)
| EPing (now : DateTime) (sender : string).

Definition co_step (c : SyncCoordinator) (e : co_event) : SyncCoordinator :=
  match e with
  | ECycle now choose rd digest => (run_probe_cycle now choose rd digest c).1
  | EPong now sender => co_handle_pong now sender c
  | EPing now sender => (co_handle_ping now sender c).1
  end.

(** ** Responsive peers *)

(** A ping that, if it is for [n], has not timed out. *)
Definition fresh (rd : readings) (s : SwimMembership) (n : string) (p : PendingPing) : Prop :=
  target_id p = n -> indirect_sent p = false /\ elapsed (r_now rd) (sent_at p) < ping_timeout (swim_config s).
Definition direct (n : string) (p : PendingPing) : Prop := target_id p = n -> indirect_sent p = false.

Lemma ping_loop_fresh (rd : readings) (s : SwimMembership) (n : string) (pings : list PendingPing) (idx : nat)
    (pm : PeerManager) :
  Forall (fresh rd s n) pings ->
  let '(kept, actions, pm') := ping_loop rd s idx pings pm in
  known_peers pm' !! n = known_peers pm !! n /\ Forall (direct n) kept.
Proof.
  intros Hf. revert idx pm. induction Hf as [|p pings Hp _ IH]; intros idx pm; cbn [ping_loop]; [done|].
  set (upd := (update_peer_state (r_suspect rd idx) (target_id p) Suspect pm).1).
  pose proof (IH (S idx) pm) as Hkeep. pose proof (IH (S idx) upd) as Hsus.
  destruct (ping_loop rd s (S idx) pings upd) as [[k2 a2] pm2].
  destruct (ping_loop rd s (S idx) pings pm) as [[k1 a1] pm1]. cbv zeta beta.
  destruct (decide (target_id p = n)) as [Hn|Hne].
  - destruct (Hp Hn) as [Hi Hel]. rewrite Hi. simpl negb.
    destruct (Z.leb_spec (ping_timeout (swim_config s)) (elapsed (r_now rd) (sent_at p))); [lia|]. simpl.
    destruct Hkeep as [E Hk]. split; [done|]. constructor; [|done]. by intros _.
  - assert (Hs : known_peers pm2 !! n = known_peers pm !! n /\ Forall (direct n) k2).
    { unfold upd in Hsus. by rewrite update_lookup, decide_False in Hsus. }
    assert (Hk : forall q, target_id q = target_id p ->
      known_peers pm1 !! n = known_peers pm !! n /\ Forall (direct n) (q :: k1)).
    { intros q Hq. destruct Hkeep as [E Hk]. split; [done|]. constructor; [|done]. intros Hq'. congruence. }
    destruct (negb (indirect_sent p) && _); [|destruct (indirect_sent p); [destruct (_ <=? _)|]];
      try (by apply Hk); try exact Hs.
    set (via := if (_ <? _)%nat then _ else _). destruct via; [exact Hs|by apply Hk].
Qed.

(** A round leaves alone an alive peer whose pings are all fresh. *)
Lemma check_timeouts_fresh (rd : readings) (pm : PeerManager) (s : SwimMembership) (n : string) (p : PeerInfo) :
  peers_keyed pm -> known_peers pm !! n = Some p -> state p = Alive -> Forall (fresh rd s n) (pending_pings s) ->
  known_peers (check_timeouts rd pm s).1.2 !! n = Some p /\
  Forall (direct n) (pending_pings (check_timeouts rd pm s).1.1).
Proof.
  intros Hk Hp Ha Hf. unfold check_timeouts. pose proof (ping_loop_fresh rd s n _ 0 pm Hf) as Hl.
  pose proof (ping_loop_keyed rd s (pending_pings s) 0 pm Hk) as Hk1.
  destruct (ping_loop rd s 0 (pending_pings s) pm) as [[kept acts] pm1]. simpl in Hk1. destruct Hl as [E1 Hkept].
  rewrite Hp in E1. set (dt := suspect_timeout (swim_config s)). set (rt := dead_timeout (swim_config s)).
  pose proof (fun m => dead_fold_peer rd dt (with_state Suspect pm1) (acts, pm1) m) as H2. cbv zeta in H2.
  destruct (foldl (dead_step rd dt) (acts, pm1) (with_state Suspect pm1)) as [acts2 pm2]. cbn [snd] in H2.
  assert (Hk2 : peers_keyed pm2).
  { intros m q Hq. destruct (H2 m) as [E|[_ E]]; rewrite E in Hq; [eauto|].
    apply fmap_Some in Hq as (q' & Hq' & ->). simpl. eauto. }
  assert (E2 : known_peers pm2 !! n = Some p).
  { destruct (H2 n) as [E|[(q & Hq & <- & _) _]]; [congruence|].
    apply with_state_spec in Hq as [Hl Hs]; [|done]. congruence. }
  pose proof (remove_fold_peer rd rt (with_state Dead pm2) (acts2, pm2) n) as H3. cbv zeta in H3.
  destruct (foldl (remove_step rd rt) (acts2, pm2) (with_state Dead pm2)) as [acts3 pm3]. cbn [snd] in H3. simpl.
  split; [|done]. destruct H3 as [E|[(q & Hq & <- & _) _]]; [congruence|].
  apply with_state_spec in Hq as [Hl Hs]; [|done]. congruence.
Qed.

(** In this cycle no ping to [n], the one being sent included, has timed out. *)
Definition timely (n : string) (c : SyncCoordinator) (e : co_event) : Prop :=
  match e with
  | ECycle now choose rd digest =>
      let s := (select_probe_target now choose (co_peers c) digest (co_swim c)).1 in
      forall p, p ∈ pending_pings s -> target_id p = n ->
        elapsed (r_now rd) (sent_at p) < ping_timeout (swim_config s)
  | _ => True
  end.

Fixpoint timely_run (n : string) (c : SyncCoordinator) (es : list co_event) : Prop :=
  match es with
  | [] => True
  | e :: es' => timely n c e /\ timely_run n (co_step c e) es'
  end.

Definition healthy (n : string) (c : SyncCoordinator) : Prop :=
  peers_keyed (co_peers c) /\ Forall (direct n) (pending_pings (co_swim c)) /\
  exists p, known_peers (co_peers c) !! n = Some p /\ state p = Alive.

Lemma select_probe_direct (now : DateTime) (choose : list PeerInfo -> option PeerInfo) (pm : PeerManager)
    (digest : list Z) (s : SwimMembership) (n : string) :
  Forall (direct n) (pending_pings s) ->
  Forall (direct n) (pending_pings (select_probe_target now choose pm digest s).1).
Proof.
  intros Hf. unfold select_probe_target. destruct (get_alive_peers pm) as [|q l]; [done|].
  destruct (choose (q :: l)) as [p|]; [|done]. simpl. apply Forall_app. split; [done|]. by repeat constructor.
Qed.

Lemma update_alive (now : DateTime) (sender n : string) (pm : PeerManager) (p : PeerInfo) :
  known_peers pm !! n = Some p -> state p = Alive ->
  exists p', known_peers (update_peer_state now sender Alive pm).1 !! n = Some p' /\ state p' = Alive.
Proof. intros Hp Ha. rewrite update_lookup, Hp. case_decide; simpl; eauto. Qed.

Lemma co_step_healthy (n : string) (c : SyncCoordinator) (e : co_event) :
  healthy n c -> timely n c e -> healthy n (co_step c e).
Proof.
  intros (Hk & Hd & p & Hp & Ha) Ht. destruct e as [now choose rd digest|now sender|now sender]; simpl in *.
  - unfold run_probe_cycle. pose proof (select_probe_direct now choose (co_peers c) digest _ n Hd) as Hd1.
    destruct (select_probe_target now choose (co_peers c) digest (co_swim c)) as [s1 probe]. simpl in *.
    assert (Hf : Forall (fresh rd s1 n) (pending_pings s1)).
    { apply Forall_forall. intros q Hq Hn. rewrite Forall_forall in Hd1. split; [by apply Hd1|by apply Ht]. }
    pose proof (check_timeouts_fresh rd (co_peers c) s1 n p Hk Hp Ha Hf) as [E1 E2].
    pose proof (check_timeouts_peer rd (co_peers c) s1 n Hk) as Hc.
    destruct (check_timeouts rd (co_peers c) s1) as [[s2 pm2] acts]. simpl in *. destruct Hc as [Hk2 _].
    split_and!; [done..|]. eauto.
  - split_and!; [by apply update_keyed| |by eapply update_alive]. simpl.
    apply Forall_forall. intros q Hq. apply elem_of_lfilter in Hq as [Hq _]. rewrite Forall_forall in Hd. by apply Hd.
  - split_and!; [by apply update_keyed|done|by eapply update_alive].
Qed.

(** A responsive peer is never suspected. Through any sequence of probe
    cycles, pings and pongs in which no ping to a peer is left unanswered for
    [ping_timeout], that peer stays alive in the table. *)
Theorem responsive_peer_stays_alive (n : string) (c : SyncCoordinator) (es : list co_event)
  (Hc : healthy n c) (Ht : timely_run n c es) :
  exists p, known_peers (co_peers (foldl co_step c es)) !! n = Some p /\ state p = Alive.
Proof.
  assert (Hh : healthy n (foldl co_step c es)).
  { revert c Hc Ht. induction es as [|e es IH]; intros c Hc Ht; simpl; [done|].
    destruct Ht as [H1 H2]. apply IH; [by apply co_step_healthy|done]. }
  by destruct Hh as (_ & _ & ?).
Qed.

(** ** Witness: a cycle that probes the peer, its answer, another cycle. *)
Definition sample_coordinator : SyncCoordinator :=
  {| co_swim := swim_new "me" swim_default; co_gossip := gossip_new "me" gossip_default;
     co_peers := SwimSample.pm |}.
Definition sample_events : list co_event :=
  [ECycle (secs 1) head (SwimSample.rd (secs 1)) []; EPong (secs 1) "a";
   ECycle (secs 2) head (SwimSample.rd (secs 2)) []].

Lemma responsive_peer_stays_alive_witness :
  exists p, known_peers (co_peers (foldl co_step sample_coordinator sample_events)) !! "a" = Some p /\ state p = Alive.
Proof.
  apply (responsive_peer_stays_alive "a" sample_coordinator sample_events).
  - split; [exact SwimSample.pm_keyed|]. split; [constructor|].
    exists SwimSample.peer_a. split; reflexivity.
  - split; [|split; [exact I|split; [|exact I]]]; intros p Hp Hn; vm_compute in Hp;
      apply list_elem_of_singleton in Hp; subst p; vm_compute; reflexivity.
Defined.
