(* ===== verification/Wire.v ===== *)
(** * Cluster messages on the wire
    ([hiveguard-net/src/messages.rs], [transport.rs], [signed_record.rs])

    The protocol messages, their frames (a little-endian 32-bit length, then
    the bincode payload), the pages a batch of signed records is cut into, and
    the task that reads a connection within a budget. QUIC streams are the
    bytes they carry. *)
From S2P Require Import Prelude Models Snapshot Signed Membership.
Local Open Scope Z_scope.

(** ** Messages *)
Inductive ClusterMessage : Type :=
| Ping (sender : string) (digest : list Z)
| Pong (sender : string) (digest : list Z)
| PingReq (sender target : string)
| BanSync (sender : string) (records : list SignedBanRecord)
| DigestExchange (merkle_root : list Z)
| DiffRequest (missing_keys : list string)
| DiffResponse (records : list SignedBanRecord)
| MembershipUpdate (peers : list PeerInfo).


(** [sender_id] of the messages that carry one. *)
Definition message_sender (m : ClusterMessage) : option string :=
  match m with Ping s _ | Pong s _ | PingReq s _ | BanSync s _ => Some s | _ => None end.

(** ** Pages of signed records *)
Definition PAGE_BYTES : Z := 4 * 1024 * 1024.
Definition PAGE_OVERHEAD : Z := 12.
Definition PAGE_RECORDS : nat := 128.

Record pager : Type := { pg_pages : list (list SignedBanRecord); pg_page : list SignedBanRecord; pg_bytes : Z }.

Section pages.
Context `{BincodeSer SignedBanRecord}.

(** [bincode::serialized_size] *)
Definition serialized_size (r : SignedBanRecord) : option Z := (fun bs => Z.of_nat (length bs)) <$> bincode_serialize r.

Definition page_step (st : pager) (record : SignedBanRecord) : pager :=
  match serialized_size record with
  | None => st
  | Some size =>
      if PAGE_BYTES <? size + PAGE_OVERHEAD then st else
      let st := if negb (bool_decide (pg_page st = [])) &&
                   ((PAGE_BYTES <? pg_bytes st + size) || (PAGE_RECORDS <=? length (pg_page st))%nat)
                then {| pg_pages := pg_pages st ++ [pg_page st]; pg_page := []; pg_bytes := PAGE_OVERHEAD |}
                else st in
      {| pg_pages := pg_pages st; pg_page := pg_page st ++ [record]; pg_bytes := pg_bytes st + size |}
  end.

Definition signed_pages (records : list SignedBanRecord) : list (list SignedBanRecord) :=
  let st := foldl page_step {| pg_pages := []; pg_page := []; pg_bytes := PAGE_OVERHEAD |} records in
  if bool_decide (pg_page st = []) then pg_pages st else pg_pages st ++ [pg_page st].
End pages.

(** ** Frames *)
Definition MAX_MESSAGE_SIZE : Z := 4 * 1024 * 1024.

Section frames.
Context `{BincodeSer ClusterMessage} `{Bincode ClusterMessage}.

Definition send_message (msg : ClusterMessage) : hresult (list Z) :=
  match bincode_serialize msg with
  | None => Err (EProtocol "bincode serialization error")
  | Some payload =>
      if MAX_MESSAGE_SIZE <? Z.of_nat (length payload) then Err (EProtocol "serialized message exceeds MAX_MESSAGE_SIZE")
      else Ok (to_le_bytes 4 (Z.of_nat (length payload)) ++ payload)
  end.

Definition read_bounded_message (stream : list Z) : hresult (list Z) :=
  match read_exact 4 stream with
  | None => Err (EProtocol "QUIC stream read (len prefix)")
  | Some (len_buf, rest) =>
      let declared := of_le_bytes len_buf in
      if MAX_MESSAGE_SIZE <? declared then Err (EProtocol "declared message length exceeds maximum")
      else match read_exact (Z.to_nat declared) rest with
           | None => Err (EProtocol "QUIC stream read (body)")
           | Some (buf, _) => Ok buf
           end
  end.

Definition decode_message (data : list Z) : hresult ClusterMessage :=
  match bincode_deserialize data with
  | Some m => Ok m
  | None => Err (EProtocol "bincode deserialization error")
  end.

(** ** The reader of a connection *)

(** What the next stream of the connection brings. *)
Inductive incoming : Type :=
| Stream (bytes : list Z)
| Deadline
| Closed.

Record Reader : Type := { rd_window : DateTime; rd_bytes : Z; rd_messages : nat }.

Definition READER_BYTES : Z := 16 * 1024 * 1024.
Definition READER_MESSAGES : nat := Z.to_nat 1024.
Definition READER_WINDOW : Duration := secs 60.

(** Charging the budget: the new counters and whether it holds. *)
Definition charge (now : DateTime) (size : Z) (r : Reader) : Reader * bool :=
  let r := if READER_WINDOW <=? elapsed now (rd_window r) then {| rd_window := now; rd_bytes := 0; rd_messages := 0 |} else r in
  let r := {| rd_window := rd_window r; rd_bytes := rd_bytes r + size; rd_messages := S (rd_messages r) |} in
  (r, negb ((READER_BYTES <? rd_bytes r) || (READER_MESSAGES <? rd_messages r)%nat)).

(** [reader_loop]: the messages handed to the actor, with the time of each
    and the size of its frame; it ends with the connection. *)
Fixpoint reader_loop (ins : list (DateTime * incoming)) (r : Reader) : list (DateTime * Z * ClusterMessage) :=
  match ins with
  | [] => []
  | (_, Closed) :: _ => []
  | (_, Deadline) :: ins' => reader_loop ins' r
  | (now, Stream stream) :: ins' =>
      match read_bounded_message stream with
      | Err _ => reader_loop ins' r
      | Ok bytes =>
          let '(r, ok) := charge now (Z.of_nat (length bytes)) r in
          if negb ok then [] else
          match decode_message bytes with
          | Ok msg => (now, Z.of_nat (length bytes), msg) :: reader_loop ins' r
          | Err _ => reader_loop ins' r
          end
      end
  end.
End frames.

(** ** Batches reach the peer *)

(** What the bincode documentation promises: reading inverts writing, and an
    enum variant with a vector is a 32-bit tag, a 64-bit count and the
    elements. *)
Class WireLaws `{BincodeSer ClusterMessage} `{Bincode ClusterMessage} `{BincodeSer SignedBanRecord} : Prop := {
  wire_inverse (m : ClusterMessage) (bs : list Z) : bincode_serialize m = Some bs -> bincode_deserialize bs = Some m;
  wire_diff_response (rs : list SignedBanRecord) (sizes : list Z) :
    Forall2 (fun r n => serialized_size r = Some n) rs sizes ->
    exists bs, bincode_serialize (DiffResponse rs) = Some bs /\ Z.of_nat (length bs) = 4 + 8 + foldr Z.add 0 sizes;
}.

Section delivery.
Context `{BincodeSer ClusterMessage} `{Bincode ClusterMessage} `{BincodeSer SignedBanRecord} {wire : WireLaws}.

Lemma send_read (m : ClusterMessage) (frame rest : list Z) : send_message m = Ok frame ->
  (let? data := read_bounded_message (frame ++ rest) in decode_message data) = Ok m.
Proof using wire.
  unfold send_message. destruct (bincode_serialize m) as [payload|] eqn:Em; [|done].
  destruct (Z.ltb_spec MAX_MESSAGE_SIZE (Z.of_nat (length payload))) as [|Hle]; [done|]. intros Ef.
  assert (frame = to_le_bytes 4 (Z.of_nat (length payload)) ++ payload) as -> by congruence. clear Ef.
  unfold read_bounded_message. rewrite <- app_assoc. set (n := Z.of_nat (length payload)) in *.
  rewrite <- (to_le_bytes_length 4 n) at 1. rewrite read_exact_app.
  rewrite of_to_le_bytes by (unfold MAX_MESSAGE_SIZE in Hle; simpl; lia).
  destruct (Z.ltb_spec MAX_MESSAGE_SIZE n); [lia|]. unfold n. rewrite Nat2Z.id, read_exact_app. simpl.
  unfold decode_message. by rewrite (wire_inverse m payload Em).
Qed.

(** Small enough to be sent at all. *)
Definition fits (r : SignedBanRecord) : bool :=
  match serialized_size r with Some n => n + PAGE_OVERHEAD <=? PAGE_BYTES | None => false end.

Definition page_bytes (page : list SignedBanRecord) (bytes : Z) : Prop :=
  exists sizes, Forall2 (fun r n => serialized_size r = Some n) page sizes /\ bytes = PAGE_OVERHEAD + foldr Z.add 0 sizes.
Definition page_ok (page : list SignedBanRecord) : Prop :=
  page <> [] /\ (length page <= PAGE_RECORDS)%nat /\ exists bytes, page_bytes page bytes /\ bytes <= PAGE_BYTES.

Definition pager_ok (done : list SignedBanRecord) (st : pager) : Prop :=
  concat (pg_pages st) ++ pg_page st = List.filter fits done /\ Forall page_ok (pg_pages st) /\
  (length (pg_page st) <= PAGE_RECORDS)%nat /\ page_bytes (pg_page st) (pg_bytes st) /\ pg_bytes st <= PAGE_BYTES.

Lemma sum_snoc (l : list Z) (x : Z) : foldr Z.add 0 (l ++ [x]) = foldr Z.add 0 l + x.
Proof. induction l as [|y l IH]; simpl; lia. Qed.

Lemma page_step_ok (done : list SignedBanRecord) (st : pager) (r : SignedBanRecord) :
  pager_ok done st -> pager_ok (done ++ [r]) (page_step st r).
Proof.
  intros (Hc & Hp & Hl & Hb & Hm). unfold pager_ok, page_step. rewrite List.filter_app. simpl List.filter.
  replace (fits r) with (match serialized_size r with Some n => n + PAGE_OVERHEAD <=? PAGE_BYTES | None => false end) by done.
  destruct (serialized_size r) as [n|] eqn:En; [|by rewrite app_nil_r].
  rewrite (Z.ltb_antisym (n + PAGE_OVERHEAD)). destruct (Z.leb_spec (n + PAGE_OVERHEAD) PAGE_BYTES) as [Hfit|]; simpl negb; cbv iota; [|by rewrite app_nil_r].
  assert (Hadd : forall page bytes, page_bytes page bytes -> page_bytes (page ++ [r]) (bytes + n)).
  { intros page bytes (sizes & Hs & ->). exists (sizes ++ [n]). split; [|rewrite sum_snoc; lia]. apply Forall2_app; [done|by repeat constructor]. }
  assert (Hnil : page_bytes [] PAGE_OVERHEAD) by (exists []; split; [constructor|done]).
  destruct (negb _ && _) eqn:Efull; simpl.
  - apply andb_true_iff in Efull as [Hne%negb_true_iff%bool_decide_eq_false _]. rewrite concat_app. simpl. rewrite app_nil_r, Hc.
    split_and!; [done| |unfold PAGE_RECORDS; lia|by apply (Hadd [])|lia]. apply Forall_app. split; [done|]. apply Forall_singleton.
    split_and!; [done..|by exists (pg_bytes st)].
  - rewrite app_assoc, Hc. assert (Hroom : (length (pg_page st ++ [r]) <= PAGE_RECORDS)%nat /\ pg_bytes st + n <= PAGE_BYTES).
    { rewrite length_app. simpl. apply andb_false_iff in Efull as [He%negb_false_iff%bool_decide_eq_true|He%orb_false_iff].
      - rewrite He in *. simpl. destruct Hb as (sizes & Hs & Hb). apply Forall2_nil_inv_l in Hs as ->. simpl in Hb. unfold PAGE_RECORDS. lia.
      - destruct He as [?%Z.ltb_ge ?%Nat.leb_gt]. lia. }
    split_and!; [done|done|apply Hroom|by apply Hadd|apply Hroom].
Qed.

Lemma signed_pages_ok (records : list SignedBanRecord) :
  concat (signed_pages records) = List.filter fits records /\ Forall page_ok (signed_pages records).
Proof.
  unfold signed_pages. set (st := foldl _ _ _).
  assert (pager_ok records st) as (Hc & Hp & Hl & Hb & Hm).
  { subst st. induction records as [|r rs IH] using rev_ind.
    - split_and!; [done|constructor|simpl; lia|by exists []; split; [constructor|]|simpl; unfold PAGE_OVERHEAD, PAGE_BYTES; lia].
    - rewrite foldl_app. by apply page_step_ok. }
  case_bool_decide as He; [by rewrite He, app_nil_r in Hc|]. rewrite concat_app. simpl. rewrite app_nil_r. split; [done|].
  apply Forall_app. split; [done|]. apply Forall_singleton. split_and!; [done|done|by exists (pg_bytes st)].
Qed.

(** C30: Nothing that can be sent is lost on the way: cutting a batch of signed
    records into pages keeps every record that fits a frame, once and in order;
    every page is accepted by the sender's own size check, and the peer, whatever
    follows on the stream, reads back exactly that page. *)
Theorem pages_delivered (records : list SignedBanRecord) :
  concat (signed_pages records) = List.filter fits records /\
  Forall (fun page => (0 < length page <= PAGE_RECORDS)%nat /\
    exists frame, send_message (DiffResponse page) = Ok frame /\
      forall rest, (let? data := read_bounded_message (frame ++ rest) in decode_message data) = Ok (DiffResponse page)) (signed_pages records).
Proof using wire.
  destruct (signed_pages_ok records) as [Hc Hp]. split; [done|]. eapply Forall_impl; [exact Hp|].
  intros page (Hne & Hl & bytes & (sizes & Hs & Hb) & Hm). split; [by destruct page; simpl in *; [|lia]|].
  destruct (wire_diff_response page sizes Hs) as (bs & Hbs & Hlen). assert (Hsend : exists frame, send_message (DiffResponse page) = Ok frame).
  { unfold send_message. rewrite Hbs. destruct (Z.ltb_spec MAX_MESSAGE_SIZE (Z.of_nat (length bs))) as [Hbig|]; [|by eexists].
    unfold MAX_MESSAGE_SIZE, PAGE_BYTES, PAGE_OVERHEAD in *. lia. }
  destruct Hsend as [frame Hf]. exists frame. split; [done|]. intros rest. by apply send_read.
Qed.
End delivery.

(** ** The budget of a connection *)
Section budget.
Context `{BincodeSer ClusterMessage} `{Bincode ClusterMessage}.

(** A quantity the budget limits: messages, or bytes. *)
Context (cost : Z -> Z) (used : Reader -> Z) (limit : Z).
Context (cost_nonneg : forall n, 0 <= n -> 0 <= cost n).
Context (used_fresh : forall t, used {| rd_window := t; rd_bytes := 0; rd_messages := 0 |} = 0).
Context (used_charge : forall r n, used {| rd_window := rd_window r; rd_bytes := rd_bytes r + n; rd_messages := S (rd_messages r) |} = used r + cost n).
Context (used_limit : forall r, (READER_BYTES <? rd_bytes r) || (READER_MESSAGES <? rd_messages r)%nat = false -> used r <= limit).

(** What is handed over in the minute from [t]. *)
Definition in_minute (t now : DateTime) : bool := (t <=? now) && (now <? t + READER_WINDOW).
Fixpoint handed (t : DateTime) (l : list (DateTime * Z * ClusterMessage)) : Z :=
  match l with
  | [] => 0
  | (now, size, _) :: l' => (if in_minute t now then cost size else 0) + handed t l'
  end.

Definition from_time (t : DateTime) (ins : list (DateTime * incoming)) : Prop :=
  StronglySorted (fun a b : DateTime * incoming => a.1 <= b.1) ins /\ Forall (fun a => t <= a.1) ins.

Lemma from_time_cons (t : DateTime) (x : DateTime * incoming) (ins : list (DateTime * incoming)) :
  from_time t (x :: ins) -> t <= x.1 /\ from_time x.1 ins /\ from_time t ins.
Proof. intros [Hs Hf]. inversion_clear Hs. inversion_clear Hf. by split_and!. Qed.

Lemma charge_spec (now : DateTime) (size : Z) (r r' : Reader) : rd_window r <= now -> charge now size r = (r', true) ->
  used r' <= limit /\ ((rd_window r' = rd_window r /\ used r' = used r + cost size) \/
                       (rd_window r' = now /\ rd_window r + READER_WINDOW <= now /\ used r' = cost size)).
Proof using used_fresh used_charge used_limit.
  intros Hw. unfold charge. set (r0 := if READER_WINDOW <=? _ then _ else _). set (r1 := {| rd_window := rd_window r0; rd_bytes := _; rd_messages := _ |}).
  intros [= <- Hok]. apply negb_true_iff in Hok. split; [by apply used_limit|]. subst r1. simpl rd_window. rewrite used_charge.
  subst r0. destruct (Z.leb_spec READER_WINDOW (elapsed now (rd_window r))) as [He|He]; [right|by left]. rewrite used_fresh.
  simpl. unfold elapsed in He. split_and!; [done|unfold READER_WINDOW in *; lia|lia].
Qed.

(** What may still be handed over in the minute from [t]. *)
Definition remaining (t now : DateTime) (r : Reader) : Z :=
  if t + READER_WINDOW <=? rd_window r then 0
  else if t <=? rd_window r then limit - used r
  else if t <=? now then 2 * limit - used r else 2 * limit.

Lemma handed_remaining (t now : DateTime) (ins : list (DateTime * incoming)) (r : Reader) :
  from_time now ins -> rd_window r <= now -> 0 <= used r <= limit -> handed t (reader_loop ins r) <= remaining t now r.
Proof using cost_nonneg used_fresh used_charge used_limit.
  assert (Hrw : 0 < READER_WINDOW) by (unfold READER_WINDOW, secs, nanos_per_sec; lia).
  assert (Hnone : forall now r, 0 <= used r <= limit -> 0 <= remaining t now r) by (intros; unfold remaining; repeat case_match; lia).
  revert now r. induction ins as [|[now' x] ins IH]; intros now r Hins Hw Hu; [simpl; by apply Hnone|].
  apply from_time_cons in Hins as (Hle & Hnext & Hsame). simpl in Hle, Hnext.
  cbn [reader_loop]. destruct x as [stream| |]; [|by apply IH|simpl; by apply Hnone].
  destruct (read_bounded_message stream) as [bytes|]; [|by apply IH]. set (size := Z.of_nat (length bytes)).
  assert (Hsize : 0 <= cost size) by (apply cost_nonneg; lia).
  destruct (charge now' size r) as [r' [|]] eqn:Ec; cbn [negb]; [|simpl; by apply Hnone].
  destruct (charge_spec now' size r r' ltac:(lia) Ec) as [Hlim Hr]. assert (Hw' : rd_window r' <= now') by lia.
  specialize (IH now' r' Hnext Hw' ltac:(lia)).
  assert (Hmax : (if in_minute t now' then cost size else 0) + remaining t now' r' <= remaining t now r).
  { unfold in_minute, remaining in *. repeat (case_match; breflect); try lia. }
  destruct (decode_message bytes); cbn [handed]; [lia|]. destruct (in_minute t now'); lia.
Qed.

Lemma handed_bounded (t now : DateTime) (ins : list (DateTime * incoming)) : from_time now ins -> 0 <= limit ->
  handed t (reader_loop ins {| rd_window := now; rd_bytes := 0; rd_messages := 0 |}) <= 2 * limit.
Proof using cost_nonneg used_fresh used_charge used_limit.
  intros Hins Hl. etransitivity; [apply handed_remaining; [exact Hins|done|rewrite used_fresh; lia]|].
  unfold remaining. rewrite used_fresh. repeat case_match; lia.
Qed.
End budget.

(** A hostile peer cannot flood the actor: whatever streams a connection
    carries and however they are timed, in no minute does its reader hand over
    more than 2048 messages or 32 MiB of them. (The budget is twice the
    configured one because the reader counts in fixed windows.) *)
Theorem reader_budget_kept `{BincodeSer ClusterMessage} `{Bincode ClusterMessage} (start t : DateTime) (ins : list (DateTime * incoming))
  (Hins : from_time start ins) :
  let out := reader_loop ins {| rd_window := start; rd_bytes := 0; rd_messages := 0 |} in
  handed (fun _ => 1) t out <= 2048 /\ handed (fun n => n) t out <= 32 * 1024 * 1024.
Proof.
  cbv zeta. split.
  - apply (handed_bounded (fun _ => 1) (fun r => Z.of_nat (rd_messages r)) 1024); [done|done|intros; simpl; lia| |done|done].
    intros r Hr. apply orb_false_iff in Hr as [_ Hr%Nat.ltb_ge]. unfold READER_MESSAGES in Hr. lia.
  - apply (handed_bounded (fun n => n) rd_bytes READER_BYTES); [done|done|done| |done|done].
    intros r Hr. by apply orb_false_iff in Hr as [Hr%Z.ltb_ge _].
Qed.

(** ** Witnesses *)
Module WireSample.
Definition signed_tuple (s : SignedBanRecord) : BanRecord * string * list Z * (Z * Z) :=
  (sb_record s, signer_id s, signature s, (nonce (pow s), difficulty (pow s))).
Definition of_signed_tuple (t : BanRecord * string * list Z * (Z * Z)) : SignedBanRecord :=
  let '(r, id, sig, (n, d)) := t in {| sb_record := r; signer_id := id; signature := sig; pow := {| nonce := n; difficulty := d |} |}.
#[local] Instance signed_countable : Countable SignedBanRecord.
Proof. apply (inj_countable' signed_tuple of_signed_tuple). by intros [? ? ? []]. Defined.

(** A record is one number; a message is its tag, its count and its records. *)
#[local] Instance ser_record : BincodeSer SignedBanRecord := fun s => Some [Z.pos (encode s)].
#[local] Instance ser_message : BincodeSer ClusterMessage := fun m =>
  match m with
  | DiffResponse rs => Some ([6; 0; 0; 0] ++ to_le_bytes 8 (Z.of_nat (length rs)) ++ ((fun s => Z.pos (encode s)) <$> rs))
  | _ => None
  end.
#[local] Instance de_message : Bincode ClusterMessage := fun bs =>
  DiffResponse <$> mapM (fun z => match z with Z.pos p => decode p | _ => None end) (drop 12 bs).
#[local] Instance wire : WireLaws.
Proof.
  split.
  - intros m bs Hm. destruct m as [| | | | | |rs|]; try done. unfold bincode_serialize, ser_message in Hm.
    assert (bs = [6; 0; 0; 0] ++ to_le_bytes 8 (Z.of_nat (length rs)) ++ ((fun s => Z.pos (encode s)) <$> rs)) as -> by congruence.
    unfold bincode_deserialize, de_message. rewrite (app_assoc [6; 0; 0; 0]).
    rewrite drop_app_length' by (by rewrite length_app, to_le_bytes_length).
    assert (Hd : mapM (fun z => match z with Z.pos p => decode p | _ => None end) ((fun s => Z.pos (encode s)) <$> rs) = Some rs); [|by rewrite Hd].
    apply mapM_Some. rewrite Forall2_fmap_l. apply Forall_Forall2_diag, Forall_forall. intros s _. apply decode_encode.
  - intros rs sizes Hs. eexists. split; [done|]. rewrite !length_app, to_le_bytes_length, length_fmap. simpl.
    assert (foldr Z.add 0 sizes = Z.of_nat (length rs)) as ->; [|lia].
    induction Hs as [|s n rs sizes Hn _ IH]; [done|]. injection Hn as <-. simpl in *. lia.
Qed.

Lemma pages_delivered_witness :
  exists page frame, signed_pages [SignedSample.signed_rec] = [page] /\ page = [SignedSample.signed_rec] /\ send_message (DiffResponse page) = Ok frame /\
    forall rest, (let? data := read_bounded_message (frame ++ rest) in decode_message data) = Ok (DiffResponse page).
Proof.
  destruct (pages_delivered [SignedSample.signed_rec]) as [_ Hp]. exists [SignedSample.signed_rec].
  assert (E : signed_pages [SignedSample.signed_rec] = [[SignedSample.signed_rec]]) by (vm_compute; reflexivity). rewrite E in Hp |- *.
  apply Forall_inv in Hp as (_ & frame & Hs & Hr). exists frame. split_and!; [reflexivity|reflexivity|exact Hs|exact Hr].
Defined.

Definition busy : list (DateTime * incoming) :=
  [(secs 1, Stream (from_option id [] (match send_message (DiffResponse [SignedSample.signed_rec]) with Ok f => Some f | Err _ => None end)));
   (secs 2, Deadline); (secs 3, Stream [1; 2]); (secs 4, Stream [0; 0; 0; 0; 9]); (secs 70, Closed)].
Lemma reader_budget_kept_witness :
  let out := reader_loop busy {| rd_window := 0; rd_bytes := 0; rd_messages := 0 |} in
  (fun x => x.1) <$> out = [(secs 1, 13); (secs 4, 0)] /\ handed (fun _ => 1) 0 out <= 2048.
Proof.
  cbv zeta. split; [vm_compute; reflexivity|]. 
  assert (Hb : from_time 0 busy) by (by split; repeat constructor). exact (proj1 (reader_budget_kept 0 0 busy Hb)).
Defined.
End WireSample.
