(* ===== verification/SigmaCond.v ===== *)
(** * Sigma conditions ([hiveguard-sigma/src/condition.rs])

    The condition language of detection rules: tokenizer, recursive-descent
    parser and evaluator. A string is its list of characters (code points);
    the Unicode tables behind the character classes are a parameter outside
    ASCII. *)
From S2P Require Import Prelude Text.
Local Open Scope Z_scope.

Abbreviation str := (list Z) (only parsing).

(** ** Characters *)
Class UnicodeTables : Type := {
  wide_alphabetic : Z -> bool;
  wide_numeric : Z -> bool;
  wide_lowercase : Z -> list Z;
}.

Section chars.
Context `{UnicodeTables}.
Definition is_alphabetic (c : Z) : bool := if c <? 128 then is_ascii_alpha c else wide_alphabetic c.
Definition is_alphanumeric (c : Z) : bool :=
  if c <? 128 then is_ascii_alpha c || is_ascii_digit c else wide_alphabetic c || wide_numeric c.
Definition to_lowercase (s : str) : str :=
  c ← s; if c <? 128 then [if is_ascii_upper c then c + 32 else c] else wide_lowercase c.
End chars.

(** ** Tokens *)
Inductive Token : Type :=
| TIdent (s : str) | TAnd | TOr | TNot | TLParen | TRParen | TOf | TThem | TAll | TCount | TBy
| TInteger (n : Z) | TPipe | TGt | TGte | TLt | TLte | TEq.

#[export] Instance Token_eq_dec : EqDecision Token.
Proof. solve_decision. Defined.

(** Split off the longest prefix of characters satisfying [f]. *)
Fixpoint span (f : Z -> bool) (s : str) : str * str :=
  match s with
  | c :: s' => if f c then let '(a, b) := span f s' in (c :: a, b) else ([], s)
  | [] => ([], [])
  end.

Lemma span_app (f : Z -> bool) (s a b : str) : span f s = (a, b) ->
  s = a ++ b /\ Forall (fun c => f c = true) a /\ match b with [] => True | c :: _ => f c = false end.
Proof.
  revert a b. induction s as [|c s IH]; intros a b E; simpl in E; [by simplify_eq|].
  destruct (f c) eqn:Ef; [|by simplify_eq]. destruct (span f s) as [a' b']. injection E as <- <-.
  destruct (IH a' b' eq_refl) as (-> & Ha & Hb). split; [done|]. split; [by constructor|done].
Qed.

Lemma span_intro (f : Z -> bool) (a b : str) : Forall (fun c => f c = true) a -> match b with [] => True | c :: _ => f c = false end ->
  span f (a ++ b) = (a, b).
Proof.
  intros Ha Hb. induction Ha as [|c a Hc Ha IH]; simpl; [|by rewrite Hc, IH]. destruct b as [|c b]; [done|]. simpl. by rewrite Hb.
Qed.

(** [parse::<u64>] of a string of digits. *)
Definition digits_value (s : str) : Z := foldl (fun n c => 10 * n + (c - 48)) 0 s.
Definition parse_u64 (s : str) : option Z :=
  let n := digits_value s in if n <=? u64_max then Some n else None.

Section tokenizer.
Context `{UnicodeTables}.

Definition ident_char (c : Z) : bool := is_alphanumeric c || (c =? 95) || (c =? 42) || (c =? 46).

Definition keyword (ident : str) : Token :=
  let l := to_lowercase ident in
  if decide (l = as_bytes "and") then TAnd
  else if decide (l = as_bytes "or") then TOr
  else if decide (l = as_bytes "not") then TNot
  else if decide (l = as_bytes "of") then TOf
  else if decide (l = as_bytes "them") then TThem
  else if decide (l = as_bytes "all") then TAll
  else if decide (l = as_bytes "count") then TCount
  else if decide (l = as_bytes "by") then TBy
  else TIdent ident.

(** One iteration of the loop on a non-empty input: the tokens pushed (none
    or one) and the rest. *)
Definition token_step (c : Z) (s : str) : list Token * str :=
  if (c =? 32) || (c =? 9) || (c =? 10) || (c =? 13) then ([], s)
  else if c =? 40 then ([TLParen], s)
  else if c =? 41 then ([TRParen], s)
  else if c =? 124 then ([TPipe], s)
  else if c =? 62 then match s with 61 :: s' => ([TGte], s') | _ => ([TGt], s) end
  else if c =? 60 then match s with 61 :: s' => ([TLte], s') | _ => ([TLt], s) end
  else if c =? 61 then ([TEq], s)
  else if is_ascii_digit c then
    let '(num, rest) := span is_ascii_digit (c :: s) in
    (match parse_u64 num with Some n => [TInteger n] | None => [] end, rest)
  else if is_alphabetic c || (c =? 95) then
    let '(ident, rest) := span ident_char (c :: s) in ([keyword ident], rest)
  else ([], s).

(** Each iteration consumes at least one character. *)
Fixpoint tokenize_loop (fuel : nat) (s : str) : list Token :=
  match fuel, s with
  | S fuel', c :: s' => let '(ts, rest) := token_step c s' in ts ++ tokenize_loop fuel' rest
  | _, _ => []
  end.

Definition tokenize (input : str) : list Token := tokenize_loop (length input) input.
End tokenizer.

(** ** Syntax *)
Inductive CompareOp : Type := OpGt | OpGte | OpLt | OpLte | OpEq.
Inductive NOfQuantifier : Type := QN (n : Z) | QAll.
Inductive SelectionPattern : Type := Named (s : str) | Wildcard (prefix : str) | Them.
Inductive ConditionExpr : Type :=
| Selection (name : str)
| Not (e : ConditionExpr)
| And (l r : ConditionExpr)
| Or (l r : ConditionExpr)
| NOf (n : NOfQuantifier) (pattern : SelectionPattern)
| CountAgg (field group_by : option str) (op : CompareOp) (value : Z).

(** [SigmaError::InvalidCondition], with what was expected. *)
Inductive SigmaError : Type := InvalidCondition (expected : string).

(** A parser step: [None] when the fuel runs out, otherwise the result of the
    source's function together with the unread tokens. *)
Abbreviation presult A := (option (result (A * list Token) SigmaError)) (only parsing).

Definition pbind {A B} (r : presult A) (k : A -> list Token -> presult B) : presult B :=
  match r with
  | None => None
  | Some (Err e) => Some (Err e)
  | Some (Ok (a, ts)) => k a ts
  end.

Definition expect (t : Token) (ts : list Token) : presult unit :=
  match ts with
  | t' :: ts' => if decide (t' = t) then Some (Ok (tt, ts')) else Some (Err (InvalidCondition "token"))
  | [] => Some (Err (InvalidCondition "token"))
  end.

(** [trim_end_matches('*')] *)
Definition trim_stars (s : str) : str :=
  reverse (span (fun c => c =? 42) (reverse s)).2.
Definition ends_with_star (s : str) : bool :=
  match last s with Some c => c =? 42 | None => false end.

Definition parse_selection_pattern (ts : list Token) : presult SelectionPattern :=
  match ts with
  | TThem :: ts' => Some (Ok (Them, ts'))
  | TIdent name :: ts' =>
      Some (Ok (if ends_with_star name then Wildcard (trim_stars name) else Named name, ts'))
  | _ => Some (Err (InvalidCondition "selection pattern"))
  end.

(** An optional identifier. *)
Definition opt_ident (ts : list Token) : option str * list Token :=
  match ts with
  | TIdent f :: ts' => (Some f, ts')
  | _ => (None, ts)
  end.

Definition compare_op (t : Token) : option CompareOp :=
  match t with
  | TGt => Some OpGt | TGte => Some OpGte | TLt => Some OpLt | TLte => Some OpLte | TEq => Some OpEq
  | _ => None
  end.

(** [parse_count_agg], after the [count] token. *)
Definition parse_count_agg (ts : list Token) : presult ConditionExpr :=
  pbind (expect TLParen ts) (fun _ ts1 =>
    let '(field, ts2) := opt_ident ts1 in
    pbind (expect TRParen ts2) (fun _ ts3 =>
      let '(group_by, ts4) := match ts3 with TBy :: ts' => opt_ident ts' | _ => (None, ts3) end in
      match ts4 with
      | [] => Some (Err (InvalidCondition "comparison operator"))
      | t :: ts5 =>
          match compare_op t with
          | None => Some (Err (InvalidCondition "comparison operator"))
          | Some op =>
              match ts5 with
              | TInteger n :: ts6 => Some (Ok (CountAgg field group_by op n, ts6))
              | _ => Some (Err (InvalidCondition "integer"))
              end
          end
      end)).

Fixpoint parse_or (fuel : nat) (ts : list Token) {struct fuel} : presult ConditionExpr :=
  match fuel with
  | O => None
  | S f => pbind (parse_and f ts) (fun left ts' => or_loop f left ts')
  end
with or_loop (fuel : nat) (left : ConditionExpr) (ts : list Token) {struct fuel} : presult ConditionExpr :=
  match fuel with
  | O => None
  | S f =>
      match ts with
      | TOr :: ts' => pbind (parse_and f ts') (fun right ts'' => or_loop f (Or left right) ts'')
      | _ => Some (Ok (left, ts))
      end
  end
with parse_and (fuel : nat) (ts : list Token) {struct fuel} : presult ConditionExpr :=
  match fuel with
  | O => None
  | S f => pbind (parse_not f ts) (fun left ts' => and_loop f left ts')
  end
with and_loop (fuel : nat) (left : ConditionExpr) (ts : list Token) {struct fuel} : presult ConditionExpr :=
  match fuel with
  | O => None
  | S f =>
      match ts with
      | TAnd :: ts' | TPipe :: ts' =>
          pbind (parse_not f ts') (fun right ts'' => and_loop f (And left right) ts'')
      | _ => Some (Ok (left, ts))
      end
  end
with parse_not (fuel : nat) (ts : list Token) {struct fuel} : presult ConditionExpr :=
  match fuel with
  | O => None
  | S f =>
      match ts with
      | TNot :: ts' => pbind (parse_not f ts') (fun e ts'' => Some (Ok (Not e, ts'')))
      | _ => parse_primary f ts
      end
  end
with parse_primary (fuel : nat) (ts : list Token) {struct fuel} : presult ConditionExpr :=
  match fuel with
  | O => None
  | S f =>
      match ts with
      | TLParen :: ts' =>
          pbind (parse_or f ts') (fun e ts1 => pbind (expect TRParen ts1) (fun _ ts2 => Some (Ok (e, ts2))))
      | TCount :: ts' => parse_count_agg ts'
      | TAll :: ts' =>
          pbind (expect TOf ts') (fun _ ts1 =>
            pbind (parse_selection_pattern ts1) (fun p ts2 => Some (Ok (NOf QAll p, ts2))))
      | TInteger n :: ts' =>
          pbind (expect TOf ts') (fun _ ts1 =>
            pbind (parse_selection_pattern ts1) (fun p ts2 => Some (Ok (NOf (QN n) p, ts2))))
      | TIdent name :: ts' => Some (Ok (Selection name, ts'))
      | _ :: _ => Some (Err (InvalidCondition "unexpected token"))
      | [] => Some (Err (InvalidCondition "unexpected end"))
      end
  end.

(** Enough for any input; see [parse_condition_total]. *)
Definition parse_fuel (ts : list Token) : nat := 5 * length ts + 5.

Definition parse_tokens (ts : list Token) : presult ConditionExpr := parse_or (parse_fuel ts) ts.

(** [parse_condition]: trailing tokens are ignored. *)
Definition parse_condition `{UnicodeTables} (input : str) : option (result ConditionExpr SigmaError) :=
  match parse_tokens (tokenize input) with
  | None => None
  | Some (Err e) => Some (Err e)
  | Some (Ok (e, _)) => Some (Ok e)
  end.

(** ** Evaluation *)
Definition selection_pattern_matches (pattern : SelectionPattern) (name : str) : bool :=
  match pattern with
  | Named n => bool_decide (n = name)
  | Wildcard prefix => starts_with prefix name
  | Them => true
  end.

Fixpoint evaluate_condition (expr : ConditionExpr) (matched all_names : gset str) : bool :=
  match expr with
  | Selection name => bool_decide (name ∈ matched)
  | Not e => negb (evaluate_condition e matched all_names)
  | And l r => evaluate_condition l matched all_names && evaluate_condition r matched all_names
  | Or l r => evaluate_condition l matched all_names || evaluate_condition r matched all_names
  | NOf n pattern =>
      let candidates := filter (fun name => selection_pattern_matches pattern name = true) all_names in
      let matching := filter (fun name => name ∈ matched) candidates in
      match n with
      | QAll => bool_decide (size matching = size candidates) && (0 <? size candidates)%nat
      | QN required => required <=? Z.of_nat (size matching)
      end
  | CountAgg _ _ _ _ => true
  end.

(** [evaluate_detection]; [matches] says which selections match the event. *)
Definition evaluate_detection {S} `{UnicodeTables} (condition : str) (selections : gmap (list Z) S)
    (matches : S -> bool) : option (result bool SigmaError) :=
  match parse_condition condition with
  | None => None
  | Some (Err e) => Some (Err e)
  | Some (Ok expr) =>
      let all_names := dom selections in
      let matched := dom (filter (fun kv : list Z * S => matches kv.2 = true) selections) in
      Some (Ok (evaluate_condition expr matched all_names))
  end.

(** ** Termination: the fuel is never exhausted *)
Definition consumed {A} (n : nat) (r : presult A) : Prop :=
  match r with
  | None => False
  | Some (Err _) => True
  | Some (Ok (_, rest)) => (length rest <= n)%nat
  end.

Lemma consumed_bind {A B} (n m : nat) (r : presult A) (k : A -> list Token -> presult B) :
  consumed n r -> (forall a ts, (length ts <= n)%nat -> consumed m (k a ts)) -> consumed m (pbind r k).
Proof. destruct r as [[[a ts]|e]|]; simpl; auto. Qed.

Lemma consumed_weaken {A} (n m : nat) (r : presult A) : (n <= m)%nat -> consumed n r -> consumed m r.
Proof. destruct r as [[[a ts]|e]|]; simpl; auto. lia. Qed.

Lemma expect_consumed (t : Token) (ts : list Token) : consumed (length ts - 1) (expect t ts).
Proof. destruct ts as [|t' ts]; simpl; [done|]. case_decide; simpl; [lia|done]. Qed.

Lemma pattern_consumed (ts : list Token) : consumed (length ts - 1) (parse_selection_pattern ts).
Proof. destruct ts as [|[] ts]; simpl; try done; lia. Qed.

Lemma opt_ident_length (ts : list Token) : (length (opt_ident ts).2 <= length ts)%nat.
Proof. destruct ts as [|[] ts]; simpl; lia. Qed.

Lemma count_consumed (ts : list Token) : consumed (length ts) (parse_count_agg ts).
Proof.
  unfold parse_count_agg. eapply consumed_bind; [apply expect_consumed|]. intros _ ts1 H1.
  pose proof (opt_ident_length ts1) as L1. destruct (opt_ident ts1) as [field ts2]. simpl in L1.
  eapply consumed_bind; [apply expect_consumed|]. intros _ ts3 H3.
  set (g := match ts3 with TBy :: ts' => opt_ident ts' | _ => (None, ts3) end).
  assert (Hg : (length g.2 <= length ts3)%nat).
  { subst g. destruct ts3 as [|[] ts3]; simpl; try lia. pose proof (opt_ident_length ts3). lia. }
  destruct g as [group ts4]. simpl in Hg. destruct ts4 as [|t ts5]; [done|]. simpl in Hg.
  destruct (compare_op t); [|done]. destruct ts5 as [|[] ts6]; try done. simpl in *. lia.
Qed.

(** Each function, given the fuel its token count calls for, returns, having
    read at least one token (the loops at least none). *)
Definition fuel_ok (f : nat) : Prop :=
  (forall ts, (5 * length ts + 5 <= f)%nat -> consumed (length ts - 1) (parse_or f ts)) /\
  (forall e ts, (5 * length ts + 1 <= f)%nat -> consumed (length ts) (or_loop f e ts)) /\
  (forall ts, (5 * length ts + 4 <= f)%nat -> consumed (length ts - 1) (parse_and f ts)) /\
  (forall e ts, (5 * length ts + 1 <= f)%nat -> consumed (length ts) (and_loop f e ts)) /\
  (forall ts, (5 * length ts + 3 <= f)%nat -> consumed (length ts - 1) (parse_not f ts)) /\
  (forall ts, (5 * length ts + 2 <= f)%nat -> consumed (length ts - 1) (parse_primary f ts)).

Lemma fuel_ok_primary (f : nat) : fuel_ok f ->
  forall ts, (5 * length ts + 2 <= S f)%nat -> consumed (length ts - 1) (parse_primary (S f) ts).
Proof.
  intros (Hor & _) ts Hf. cbn [parse_primary].
  assert (Hnof : forall n ts', consumed (length ts') (pbind (expect TOf ts') (fun _ ts1 =>
    pbind (parse_selection_pattern ts1) (fun p ts2 => Some (Ok (NOf n p, ts2)))))).
  { intros n ts'. eapply consumed_bind; [apply expect_consumed|]. intros _ ts1 L1.
    eapply consumed_bind; [apply pattern_consumed|]. intros p ts2 L2. simpl. lia. }
  destruct ts as [|[] ts]; cbn [length] in *; rewrite ?Nat.sub_succ, ?Nat.sub_0_r; try done;
    try apply Hnof; try apply count_consumed; try (simpl; lia).
  eapply consumed_bind; [apply Hor; lia|]. intros e ts1 L1.
  eapply consumed_bind; [apply expect_consumed|]. intros _ ts2 L2. simpl. lia.
Qed.

Lemma fuel_ok_all (f : nat) : fuel_ok f.
Proof.
  induction f as [|f IH]; [split_and!; intros; lia|].
  pose proof (fuel_ok_primary f IH) as Hprim. destruct IH as (Hor & Hol & Hand & Hal & Hnot & Hpr).
  split_and!; [| | | | |exact Hprim].
  - intros ts Hf. cbn [parse_or]. eapply consumed_bind; [apply Hand; lia|]. intros e ts' L.
    eapply consumed_weaken; [|apply Hol]; lia.
  - intros e ts Hf. cbn [or_loop]. destruct ts as [|[] ts]; simpl in Hf; try (simpl; lia).
    eapply consumed_bind; [apply Hand; lia|]. intros r ts'' L. eapply consumed_weaken; [|apply Hol]; simpl; lia.
  - intros ts Hf. cbn [parse_and]. eapply consumed_bind; [apply Hnot; lia|]. intros e ts' L.
    eapply consumed_weaken; [|apply Hal]; lia.
  - intros e ts Hf. cbn [and_loop]. destruct ts as [|[] ts]; simpl in Hf; try (simpl; lia);
      (eapply consumed_bind; [apply Hnot; lia|]; intros r ts'' L; eapply consumed_weaken; [|apply Hal]; simpl; lia).
  - intros ts Hf. cbn [parse_not]. destruct ts as [|[] ts]; try (apply Hpr; simpl in *; lia).
    simpl in Hf. eapply consumed_bind; [apply Hnot; lia|]. intros e ts'' L. simpl. lia.
Qed.

Lemma parse_tokens_total (ts : list Token) : is_Some (parse_tokens ts).
Proof.
  destruct (fuel_ok_all (parse_fuel ts)) as (Hor & _). specialize (Hor ts ltac:(unfold parse_fuel; lia)).
  unfold parse_tokens, consumed in *. by destruct (parse_or _ ts) as [[[e r]|e]|].
Qed.

(** The parser is total. On every input string, however deeply nested or
    malformed, tokenizing and parsing finish with a syntax tree or a syntax
    error: the recursion always consumes tokens. *)
Theorem parse_condition_total `{UnicodeTables} (input : str) :
  exists r, parse_condition input = Some r.
Proof.
  unfold parse_condition. destruct (parse_tokens_total (tokenize input)) as [[[e rest]|e] ->]; eauto.
Qed.

(** ** More fuel does not change a result *)
Lemma pbind_mono {A B} (r r' : presult A) (k k' : A -> list Token -> presult B) (x : result (B * list Token) SigmaError) :
  (forall y, r = Some y -> r' = Some y) -> (forall a ts y, k a ts = Some y -> k' a ts = Some y) ->
  pbind r k = Some x -> pbind r' k' = Some x.
Proof.
  intros Hr Hk. destruct r as [y|]; [|done]. rewrite (Hr y eq_refl).
  destruct y as [[a ts]|e]; simpl; [apply Hk|done].
Qed.

(** One unfolding of each function. *)
Lemma parse_or_S (f : nat) (ts : list Token) :
  parse_or (S f) ts = pbind (parse_and f ts) (fun left ts' => or_loop f left ts').
Proof. done. Qed.
Lemma or_loop_S (f : nat) (left : ConditionExpr) (ts : list Token) :
  or_loop (S f) left ts = match ts with
    | TOr :: ts' => pbind (parse_and f ts') (fun right ts'' => or_loop f (Or left right) ts'')
    | _ => Some (Ok (left, ts)) end.
Proof. done. Qed.
Lemma parse_and_S (f : nat) (ts : list Token) :
  parse_and (S f) ts = pbind (parse_not f ts) (fun left ts' => and_loop f left ts').
Proof. done. Qed.
Lemma and_loop_S (f : nat) (left : ConditionExpr) (ts : list Token) :
  and_loop (S f) left ts = match ts with
    | TAnd :: ts' | TPipe :: ts' => pbind (parse_not f ts') (fun right ts'' => and_loop f (And left right) ts'')
    | _ => Some (Ok (left, ts)) end.
Proof. done. Qed.
Lemma parse_not_S (f : nat) (ts : list Token) :
  parse_not (S f) ts = match ts with
    | TNot :: ts' => pbind (parse_not f ts') (fun e ts'' => Some (Ok (Not e, ts'')))
    | _ => parse_primary f ts end.
Proof. done. Qed.
Lemma parse_paren_S (f : nat) (ts : list Token) :
  parse_primary (S f) (TLParen :: ts) =
    pbind (parse_or f ts) (fun e ts1 => pbind (expect TRParen ts1) (fun _ ts2 => Some (Ok (e, ts2)))).
Proof. done. Qed.

Definition fuel_mono (f : nat) : Prop :=
  (forall ts x, parse_or f ts = Some x -> parse_or (S f) ts = Some x) /\
  (forall e ts x, or_loop f e ts = Some x -> or_loop (S f) e ts = Some x) /\
  (forall ts x, parse_and f ts = Some x -> parse_and (S f) ts = Some x) /\
  (forall e ts x, and_loop f e ts = Some x -> and_loop (S f) e ts = Some x) /\
  (forall ts x, parse_not f ts = Some x -> parse_not (S f) ts = Some x) /\
  (forall ts x, parse_primary f ts = Some x -> parse_primary (S f) ts = Some x).

Lemma fuel_mono_all (f : nat) : fuel_mono f.
Proof.
  induction f as [|f (Hor & Hol & Hand & Hal & Hnot & Hpr)]; [done|]. split_and!.
  - intros ts x. rewrite (parse_or_S f), (parse_or_S (S f)). apply pbind_mono; auto.
  - intros e ts x. rewrite (or_loop_S f), (or_loop_S (S f)). destruct ts as [|[] ts]; try done. apply pbind_mono; auto.
  - intros ts x. rewrite (parse_and_S f), (parse_and_S (S f)). apply pbind_mono; auto.
  - intros e ts x. rewrite (and_loop_S f), (and_loop_S (S f)). destruct ts as [|[] ts]; try done; apply pbind_mono; auto.
  - intros ts x. rewrite (parse_not_S f), (parse_not_S (S f)). destruct ts as [|[] ts]; auto. apply pbind_mono; auto.
  - intros ts x. destruct ts as [|[] ts]; try done. rewrite (parse_paren_S f), (parse_paren_S (S f)).
    apply pbind_mono; auto.
Qed.

Lemma parse_or_le (f g : nat) (ts : list Token) x : (f <= g)%nat -> parse_or f ts = Some x -> parse_or g ts = Some x.
Proof. induction 1 as [|g _ IH]; [done|]. intros Hx. apply (fuel_mono_all g). auto. Qed.
Lemma or_loop_le (f g : nat) (e : ConditionExpr) (ts : list Token) x :
  (f <= g)%nat -> or_loop f e ts = Some x -> or_loop g e ts = Some x.
Proof. induction 1 as [|g _ IH]; [done|]. intros Hx. apply (fuel_mono_all g). auto. Qed.
Lemma parse_and_le (f g : nat) (ts : list Token) x : (f <= g)%nat -> parse_and f ts = Some x -> parse_and g ts = Some x.
Proof. induction 1 as [|g _ IH]; [done|]. intros Hx. apply (fuel_mono_all g). auto. Qed.
Lemma and_loop_le (f g : nat) (e : ConditionExpr) (ts : list Token) x :
  (f <= g)%nat -> and_loop f e ts = Some x -> and_loop g e ts = Some x.
Proof. induction 1 as [|g _ IH]; [done|]. intros Hx. apply (fuel_mono_all g). auto. Qed.
Lemma parse_not_le (f g : nat) (ts : list Token) x : (f <= g)%nat -> parse_not f ts = Some x -> parse_not g ts = Some x.
Proof. induction 1 as [|g _ IH]; [done|]. intros Hx. apply (fuel_mono_all g). auto. Qed.

(** ** Printing and parsing back *)
Definition op_token (op : CompareOp) : Token :=
  match op with OpGt => TGt | OpGte => TGte | OpLt => TLt | OpLte => TLte | OpEq => TEq end.

Definition print_pattern (p : SelectionPattern) : list Token :=
  match p with
  | Named n => [TIdent n]
  | Wildcard prefix => [TIdent (prefix ++ [42])]
  | Them => [TThem]
  end.

Definition opt_token (o : option str) : list Token := match o with Some f => [TIdent f] | None => [] end.

(** [pp lvl e]: tokens for [e] where the grammar expects a condition (0), a
    conjunction (1) or a negation (2). *)
Fixpoint pp (lvl : nat) (e : ConditionExpr) : list Token :=
  match e with
  | Selection name => [TIdent name]
  | NOf QAll p => [TAll; TOf] ++ print_pattern p
  | NOf (QN n) p => [TInteger n; TOf] ++ print_pattern p
  | CountAgg field group op v =>
      [TCount; TLParen] ++ opt_token field ++ [TRParen]
      ++ match group with Some g => [TBy; TIdent g] | None => [] end ++ [op_token op; TInteger v]
  | Not e => TNot :: pp 2 e
  | And l r => let body := pp 1 l ++ [TAnd] ++ pp 2 r in
               if (lvl <=? 1)%nat then body else [TLParen] ++ body ++ [TRParen]
  | Or l r => let body := pp 0 l ++ [TOr] ++ pp 1 r in
              if (lvl <=? 0)%nat then body else [TLParen] ++ body ++ [TRParen]
  end.

(** Patterns the parser can produce. *)
Definition wf_pattern (p : SelectionPattern) : Prop :=
  match p with
  | Named n => ends_with_star n = false
  | Wildcard prefix => ends_with_star prefix = false
  | Them => True
  end.
Fixpoint wf_expr (e : ConditionExpr) : Prop :=
  match e with
  | NOf _ p => wf_pattern p
  | Not e => wf_expr e
  | And l r | Or l r => wf_expr l /\ wf_expr r
  | _ => True
  end.

Lemma ends_with_star_snoc (s : str) : ends_with_star (s ++ [42]) = true.
Proof. unfold ends_with_star. by rewrite last_snoc. Qed.

Lemma trim_stars_snoc (s : str) : ends_with_star s = false -> trim_stars (s ++ [42]) = s.
Proof.
  unfold trim_stars, ends_with_star. rewrite reverse_app. simpl. intros Hs.
  destruct s as [|c s _] using rev_ind; [done|]. rewrite last_snoc in Hs. rewrite reverse_app. simpl. rewrite Hs.
  simpl. change (c :: reverse s) with (reverse [c] ++ reverse s). rewrite <- reverse_app. apply reverse_involutive.
Qed.

Lemma pattern_roundtrip (p : SelectionPattern) (ts : list Token) :
  wf_pattern p -> parse_selection_pattern (print_pattern p ++ ts) = Some (Ok (p, ts)).
Proof.
  destruct p as [n|prefix|]; simpl; [intros ->; done|intros Hs|done].
  by rewrite ends_with_star_snoc, trim_stars_snoc.
Qed.

Lemma count_roundtrip (field group : option str) (op : CompareOp) (v : Z) (ts : list Token) :
  parse_count_agg ([TLParen] ++ opt_token field ++ [TRParen]
      ++ match group with Some g => [TBy; TIdent g] | None => [] end ++ [op_token op; TInteger v] ++ ts)
  = Some (Ok (CountAgg field group op v, ts)).
Proof. by destruct field, group, op. Qed.

(** What parsing the printed [e] comes to at each level, in front of [ts]. *)
Definition no_and (ts : list Token) : Prop :=
  match ts with TAnd :: _ | TPipe :: _ => False | _ => True end.
Definition reads_or (e : ConditionExpr) : Prop := forall ts r f,
  no_and ts -> or_loop f e ts = Some r -> exists g, parse_or g (pp 0 e ++ ts) = Some r.
Definition reads_and (e : ConditionExpr) : Prop := forall ts r f,
  and_loop f e ts = Some r -> exists g, parse_and g (pp 1 e ++ ts) = Some r.
Definition reads_not (e : ConditionExpr) : Prop := forall ts,
  exists g, parse_not g (pp 2 e ++ ts) = Some (Ok (e, ts)).

Lemma reads_and_from_not (e : ConditionExpr) : pp 1 e = pp 2 e -> reads_not e -> reads_and e.
Proof.
  intros Hpp Hn ts r f Hl. destruct (Hn ts) as [g Hg]. exists (S (f + g)). rewrite parse_and_S, Hpp.
  rewrite (parse_not_le g (f + g) _ _ ltac:(lia) Hg). simpl. by apply (and_loop_le f); [lia|].
Qed.

Lemma and_loop_stop (f : nat) (e : ConditionExpr) (ts : list Token) :
  no_and ts -> and_loop (S f) e ts = Some (Ok (e, ts)).
Proof. rewrite and_loop_S. by destruct ts as [|[] ts]. Qed.

Lemma reads_or_from_and (e : ConditionExpr) : pp 0 e = pp 1 e -> reads_and e -> reads_or e.
Proof.
  intros Hpp Ha ts r f Hts Hl. destruct (Ha ts _ 1%nat (and_loop_stop 0 e ts Hts)) as [g Hg].
  exists (S (f + g)). rewrite parse_or_S, Hpp. rewrite (parse_and_le g (f + g) _ _ ltac:(lia) Hg). simpl.
  by apply (or_loop_le f); [lia|].
Qed.

Lemma reads_not_from_or (e : ConditionExpr) :
  pp 2 e = [TLParen] ++ pp 0 e ++ [TRParen] -> reads_or e -> reads_not e.
Proof.
  intros Hpp Ho ts. destruct (Ho (TRParen :: ts) (Ok (e, TRParen :: ts)) 1%nat I eq_refl) as [g Hg].
  exists (S (S g)). rewrite parse_not_S, Hpp. cbn [app]. rewrite <- app_assoc. cbn [app].
  rewrite parse_paren_S, Hg. done.
Qed.

Lemma reads_and_And (l r : ConditionExpr) : reads_and l -> reads_not r -> reads_and (And l r).
Proof.
  intros Hl Hr ts x f Hx. destruct (Hr ts) as [g Hg].
  cbn [pp Nat.leb]. rewrite <- !app_assoc. apply (Hl _ _ (S (f + g))). cbn [app]. rewrite and_loop_S.
  rewrite (parse_not_le g (f + g) _ _ ltac:(lia) Hg). simpl. by apply (and_loop_le f); [lia|].
Qed.

Lemma reads_or_Or (l r : ConditionExpr) : reads_or l -> reads_and r -> reads_or (Or l r).
Proof.
  intros Hl Hr ts x f Hts Hx. destruct (Hr ts _ 1%nat (and_loop_stop 0 r ts Hts)) as [g Hg].
  cbn [pp Nat.leb]. rewrite <- !app_assoc. apply (Hl _ _ (S (f + g))); [done|]. cbn [app]. rewrite or_loop_S.
  rewrite (parse_and_le g (f + g) _ _ ltac:(lia) Hg). simpl. by apply (or_loop_le f); [lia|].
Qed.

(** An expression printed the same at every level. *)
Lemma reads_atom (e : ConditionExpr) :
  pp 0 e = pp 2 e -> pp 1 e = pp 2 e -> reads_not e -> reads_or e /\ reads_and e /\ reads_not e.
Proof.
  intros H02 H12 Hn. pose proof (reads_and_from_not e H12 Hn) as Ha. split_and!; [|done|done].
  apply reads_or_from_and; [congruence|done].
Qed.

Lemma reads_all (e : ConditionExpr) : wf_expr e -> reads_or e /\ reads_and e /\ reads_not e.
Proof.
  induction e as [name|e IH|l IHl r IHr|l IHl r IHr|n p|field group op v]; intros Hwf.
  - apply reads_atom; [done..|]. intros ts. by exists 2%nat.
  - destruct (IH Hwf) as (_ & _ & Hn). apply reads_atom; [done..|]. intros ts. destruct (Hn ts) as [g Hg].
    exists (S g). cbn [pp app]. by rewrite parse_not_S, Hg.
  - destruct Hwf as [Hwl Hwr], (IHl Hwl) as (_ & Hla & _), (IHr Hwr) as (_ & _ & Hrn).
    pose proof (reads_and_And l r Hla Hrn) as Ha.
    assert (Ho : reads_or (And l r)) by by apply reads_or_from_and.
    split_and!; [done..|]. by apply reads_not_from_or.
  - destruct Hwf as [Hwl Hwr], (IHl Hwl) as (Hlo & _ & _), (IHr Hwr) as (_ & Hra & _).
    pose proof (reads_or_Or l r Hlo Hra) as Ho.
    assert (Hn : reads_not (Or l r)) by by apply reads_not_from_or.
    split_and!; [done| |done]. by apply reads_and_from_not.
  - apply reads_atom; [by destruct n..|]. intros ts. exists 2%nat.
    destruct n; cbn [pp app parse_not parse_primary expect pbind]; rewrite decide_True by done; cbn [pbind];
      by rewrite pattern_roundtrip.
  - apply reads_atom; [done..|]. intros ts. exists 2%nat. cbn [pp]. rewrite <- !app_assoc.
    cbn [app parse_not parse_primary]. rewrite <- (count_roundtrip field group op v ts). done.
Qed.

(** C32: The grammar's precedence and associativity. Printing any syntax tree the
    language has with the fewest parentheses ([or] weakest, then [and], then
    [not], both binary operators to the left) and parsing the tokens gives the
    tree back, with no token left. *)
Theorem parse_print_roundtrip (e : ConditionExpr) :
  wf_expr e -> parse_tokens (pp 0 e) = Some (Ok (e, [])).
Proof.
  intros Hwf. destruct (reads_all e Hwf) as (Ho & _).
  destruct (Ho [] (Ok (e, [])) 1%nat I eq_refl) as [g Hg]. rewrite app_nil_r in Hg.
  destruct (parse_tokens_total (pp 0 e)) as [r Hr]. rewrite Hr. unfold parse_tokens in Hr.
  apply (parse_or_le _ (g + parse_fuel (pp 0 e))) in Hr, Hg; [|lia..]. congruence.
Qed.

(** ** Evaluation, declaratively *)
(** The selections named by a pattern. *)
Definition named_by (p : SelectionPattern) (all_names : gset str) : gset str :=
  filter (fun name => selection_pattern_matches p name = true) all_names.

Fixpoint holds (e : ConditionExpr) (matched all_names : gset str) : Prop :=
  match e with
  | Selection name => name ∈ matched
  | Not e => ~ holds e matched all_names
  | And l r => holds l matched all_names /\ holds r matched all_names
  | Or l r => holds l matched all_names \/ holds r matched all_names
  | NOf QAll p => named_by p all_names ⊆ matched /\ exists name, name ∈ named_by p all_names
  | NOf (QN n) p => exists X : gset str, X ⊆ named_by p all_names /\ X ⊆ matched /\ n <= Z.of_nat (size X)
  | CountAgg _ _ _ _ => True
  end.

Lemma selection_pattern_matches_spec (p : SelectionPattern) (name : str) :
  selection_pattern_matches p name = true <->
  match p with Named n => n = name | Wildcard prefix => exists rest, name = prefix ++ rest | Them => True end.
Proof.
  destruct p as [n|prefix|]; simpl; [apply bool_decide_eq_true| |done].
  revert name. induction prefix as [|c prefix IH]; intros name; simpl.
  - split; [intros _; by exists name|done].
  - destruct name as [|d name]; [split; [done|intros [rest ?]; done]|].
    rewrite andb_true_iff, Z.eqb_eq, IH. split.
    + intros [-> [rest ->]]. by exists rest.
    + intros [rest [= -> ->]]. split; [done|]. by exists rest.
Qed.

Lemma filter_in_subset (X Y : gset str) : filter (fun name => name ∈ Y) X ⊆ X.
Proof. set_solver. Qed.

Lemma all_of_spec (X Y : gset str) :
  bool_decide (size (filter (fun name => name ∈ Y) X) = size X) && (0 <? size X)%nat = true
  <-> X ⊆ Y /\ exists name, name ∈ X.
Proof.
  rewrite andb_true_iff, bool_decide_eq_true, Nat.ltb_lt. split.
  - intros [Hs Hp]. split.
    + assert (Heq : filter (fun name => name ∈ Y) X ≡ X)
        by (apply set_subseteq_size_equiv; [apply filter_in_subset|lia]).
      intros x Hx. apply Heq in Hx. set_solver.
    + destruct (size_pos_elem_of X Hp) as [x Hx]. by exists x.
  - intros [Hsub [x Hx]]. split.
    + f_equal. apply leibniz_equiv. set_solver.
    + destruct (size X) eqn:Hz; [|lia]. apply size_empty_inv in Hz. set_solver.
Qed.

Lemma n_of_spec (n : Z) (X Y : gset str) :
  (n <=? Z.of_nat (size (filter (fun name => name ∈ Y) X))) = true
  <-> exists Z' : gset str, Z' ⊆ X /\ Z' ⊆ Y /\ n <= Z.of_nat (size Z').
Proof.
  rewrite Z.leb_le. split.
  - intros Hn. eexists. split_and!; [| |exact Hn]; set_solver.
  - intros (Z' & HX & HY & Hn). assert (Hsub : Z' ⊆ filter (fun name => name ∈ Y) X) by set_solver.
    apply subseteq_size in Hsub. lia.
Qed.

(** The evaluator computes the language's meaning: a name holds when its
    selection matched, the connectives are the logical ones, [all of p] holds
    when [p] names at least one selection and every one it names matched,
    [n of p] when some [n] of the selections it names matched. *)
Theorem evaluate_condition_spec (e : ConditionExpr) (matched all_names : gset str) :
  evaluate_condition e matched all_names = true <-> holds e matched all_names.
Proof.
  induction e as [name|e IH|l IHl r IHr|l IHl r IHr|n p|field group op v]; cbn [evaluate_condition holds].
  - apply bool_decide_eq_true.
  - rewrite <- IH. by destruct (evaluate_condition e matched all_names).
  - by rewrite andb_true_iff, IHl, IHr.
  - by rewrite orb_true_iff, IHl, IHr.
  - destruct n; [apply n_of_spec|apply all_of_spec].
  - done.
Qed.

(** A condition that never negates. *)
Fixpoint negation_free (e : ConditionExpr) : Prop :=
  match e with
  | Not _ => False
  | And l r | Or l r => negation_free l /\ negation_free r
  | _ => True
  end.

Lemma holds_mono (e : ConditionExpr) (m m' all_names : gset str) :
  negation_free e -> m ⊆ m' -> holds e m all_names -> holds e m' all_names.
Proof.
  induction e as [name|e IH|l IHl r IHr|l IHl r IHr|n p|field group op v]; simpl; intros Hnf Hsub.
  - set_solver.
  - done.
  - naive_solver.
  - naive_solver.
  - destruct n; [intros (X & HX & Hm & Hn); exists X; set_solver|set_solver].
  - done.
Qed.

Module SigmaSample.
#[local] Instance ascii_only : UnicodeTables :=
  {| wide_alphabetic _ := false; wide_numeric _ := false; wide_lowercase c := [c] |}.

(** The precedence of the operators, from the source's text. *)
Example parse_precedence :
  parse_condition (as_bytes "a or not b and 1 of sel_*")
  = Some (Ok (Or (Selection (as_bytes "a"))
                 (And (Not (Selection (as_bytes "b"))) (NOf (QN 1) (Wildcard (as_bytes "sel_")))))).
Proof. vm_compute. done. Qed.

Lemma parse_print_roundtrip_witness :
  let e := And (Or (Selection (as_bytes "a")) (Selection (as_bytes "b"))) (NOf QAll (Wildcard (as_bytes "sel_"))) in
  parse_tokens (pp 0 e) = Some (Ok (e, [])).
Proof. intros e. apply (parse_print_roundtrip e). by vm_compute. Defined.
End SigmaSample.
