(* ===== verification/Scoring.v ===== *)
(** * Scoring engine ([plugins/scoring-default/src/lib.rs])

    The sliding-window accumulator that turns detection signals into ban
    decisions: weights in single-precision floating point, sums in [u32]. *)
From S2P Require Import Prelude Models Floats.
From stdpp Require Import pretty.
Local Open Scope Z_scope.

Record Config : Type := {
  accumulation_window_secs : Z;
  ban_severity_threshold : Z;
  default_ban_duration_secs : Z;
}.

Definition default_window : Z := 1800.
Definition default_threshold : Z := 100.
Definition default_ban_duration : Z := 86400.

(** [signals : DashMap<IpAddr, Vec<DetectionSignal>>] *)
Record ScoringEngine : Type := {
  sc_config : Config;
  signals : gmap IpAddr (list DetectionSignal);
}.

Record SnapshotState : Type := {
  ss_config : Config;
  ss_by_ip : list (IpAddr * list DetectionSignal);
}.

(** [BanDecision] of the plugin interface. *)
Record BanDecision : Type := {
  bd_subject : IpNet;
  bd_duration : Duration;
  bd_reason : string;
  bd_severity : Z;
  bd_evidence_hash : list Z;
  bd_source : BanSource;
  bd_timestamp : DateTime;
}.

(** JSON values and their conversions ([serde_json]). Numbers that are not
    finite become [null], which does not read back. *)
Definition finite_signal (s : DetectionSignal) : bool :=
  match sig_confidence s with S754_nan | S754_infinity _ => false | _ => true end.

Class ScoringJson : Type := {
  json : Type;
  json_empty : json;
  config_of_json : json -> option Config;
  state_to_json : SnapshotState -> option json;
  state_of_json : json -> option SnapshotState;
}.
Class ScoringJsonLaws `{ScoringJson} : Prop :=
  state_json_roundtrip (st : SnapshotState) :
    Forall (fun p => Forall (fun s => finite_signal s = true) p.2) (ss_by_ip st) ->
    exists j, state_to_json st = Some j /\ state_of_json j = Some st.

Definition weighted_severity (s : DetectionSignal) : Z :=
  sf_to_uint u32_max
    (f32_add (f32_mul (f32_of_uint (sig_severity s)) (sf_clamp (sig_confidence s) (f32_lit 0 1) (f32_lit 1 1)))
             (f32_lit 1 1000)).

(** [max_by_key] keeps the last of equals, [min_by_key] the first. *)
Definition max_by_key {A} (f : A -> Z) (l : list A) : option A :=
  foldl (fun o x => match o with Some y => if f x <? f y then Some y else Some x | None => Some x end) None l.
Definition min_by_key {A} (f : A -> nat) (l : list A) : option A :=
  foldl (fun o x => match o with Some y => if (f x <? f y)%nat then Some x else Some y | None => Some x end) None l.

Definition ban_duration_of (s : DetectionSignal) : option Duration :=
  match sig_suggested_action s with
  | Ban d => Some d
  | Observe => None
  | Escalate => None
  end.

Definition set_signals (m : gmap IpAddr (list DetectionSignal)) (e : ScoringEngine) : ScoringEngine :=
  {| sc_config := sc_config e; signals := m |}.

Definition cutoff_of (e : ScoringEngine) (now : DateTime) : DateTime :=
  now - default 0 (duration_from_std (secs (accumulation_window_secs (sc_config e)))).

Definition prune_signals (ip : IpAddr) (now : DateTime) (e : ScoringEngine) : ScoringEngine :=
  match signals e !! ip with
  | None => e
  | Some bucket =>
      let kept := List.filter (fun s => cutoff_of e now <=? sig_timestamp s) bucket in
      match kept with
      | [] => set_signals (delete ip (signals e)) e
      | _ => set_signals (<[ip := kept]> (signals e)) e
      end
  end.

Definition record (signal : DetectionSignal) (e : ScoringEngine) : ScoringEngine :=
  let ip := net_addr (sig_source_ip signal) in
  set_signals (<[ip := default [] (signals e !! ip) ++ [signal]]> (signals e)) e.

Definition total_severity (bucket : list DetectionSignal) : Z :=
  foldl u32_add 0 (weighted_severity <$> bucket).

(** The body of [evaluate] on a non-empty bucket that reached the threshold. *)
Definition decision `{IpNetOps} (e : ScoringEngine) (ip : IpAddr) (now : DateTime) (bucket : list DetectionSignal)
    : option BanDecision :=
  let total := total_severity bucket in
  let ban_duration := default (secs (default_ban_duration_secs (sc_config e)))
                        (max_by_key id (omap ban_duration_of bucket)) in
  match max_by_key sig_severity bucket with
  | None => None
  | Some best_signal =>
      let subject := default (ip_to_net ip) (min_by_key prefix_len (sig_source_ip <$> bucket)) in
      let reason := ("Accumulated severity " +:+ pretty total +:+ " (threshold "
        +:+ pretty (ban_severity_threshold (sc_config e)) +:+ ") for " +:+ net_to_string subject)%string in
      Some {| bd_subject := subject; bd_duration := ban_duration; bd_reason := reason;
              bd_severity := Z.min total 255; bd_evidence_hash := sig_evidence_hash best_signal;
              bd_source := LocalDetector (sig_detector_name best_signal); bd_timestamp := now |}
  end.

Definition evaluate `{IpNetOps} (now : DateTime) (ip : IpAddr) (e : ScoringEngine)
    : ScoringEngine * option BanDecision :=
  let e := prune_signals ip now e in
  match signals e !! ip with
  | None | Some [] => (e, None)
  | Some bucket =>
      if total_severity bucket <? ban_severity_threshold (sc_config e) then (e, None)
      else
        match decision e ip now bucket with
        | None => (e, None)
        | Some d => (set_signals (<[ip := []]> (signals e)) e, Some d)
        end
  end.

Definition decay (now : DateTime) (e : ScoringEngine) : ScoringEngine :=
  foldl (fun e ip => prune_signals ip now e) e (map_to_list (signals e)).*1.

Section persistence.
Context `{ScoringJson}.

Definition scoring_init (cfg : json) (e : ScoringEngine) : result ScoringEngine string :=
  match config_of_json cfg with
  | None => Err "config validation"%string
  | Some c => Ok {| sc_config := c; signals := ∅ |}
  end.

Definition scoring_create (cfg : json) : result ScoringEngine string :=
  scoring_init cfg {| sc_config := {| accumulation_window_secs := default_window;
                                      ban_severity_threshold := default_threshold;
                                      default_ban_duration_secs := default_ban_duration |};
                      signals := ∅ |}.

Definition snapshot (e : ScoringEngine) : json :=
  default json_empty (state_to_json {| ss_config := sc_config e; ss_by_ip := map_to_list (signals e) |}).

Definition restore (state : json) (e : ScoringEngine) : result ScoringEngine string :=
  match state_of_json state with
  | None => Err "config validation"%string
  | Some parsed => Ok (set_signals (foldl (fun m p => <[p.1 := p.2]> m) ∅ (ss_by_ip parsed)) e)
  end.
End persistence.

(** ** Weights *)
Definition severity_floats_ok (sev : nat) : bool :=
  match f32_of_uint (Z.of_nat sev) with
  | S754_zero false => (sev =? 0)%nat
  | S754_finite false m e => (-24 <=? e) && (e <=? 0) && (Z.pos m =? Z.of_nat sev * 2 ^ (- e))
  | _ => false
  end.

Lemma severity_float (sev : Z) : 0 <= sev < 256 ->
  f32_of_uint sev = S754_zero false /\ sev = 0 \/
  exists m e, f32_of_uint sev = S754_finite false m e /\ -24 <= e <= 0 /\ Z.pos m = sev * 2 ^ (- e).
Proof.
  intros Hsev. assert (Hall : forallb severity_floats_ok (seq 0 256) = true) by (vm_compute; done).
  rewrite forallb_forall in Hall. specialize (Hall (Z.to_nat sev)). rewrite in_seq in Hall.
  specialize (Hall ltac:(lia)). unfold severity_floats_ok in Hall. rewrite Z2Nat.id in Hall by lia.
  destruct (f32_of_uint sev) as [[]|s| |[] m e]; try done.
  - apply Nat.eqb_eq in Hall. left. split; [done|lia].
  - breflect. right. exists m, e. split_and!; (done || lia).
Qed.

(** The clamped confidence: not a number, a zero, or in the unit interval. *)
Lemma clamped_confidence (c : spec_float) : valid_binary 24 128 c = true ->
  let x := sf_clamp c (f32_lit 0 1) (f32_lit 1 1) in
  x = S754_nan \/ x = S754_zero true \/ unit_ok 24 x.
Proof.
  intros Hv. cbv zeta. change (f32_lit 1 1) with (sf_one 24). change (f32_lit 0 1) with sf_zero.
  unfold sf_clamp. destruct (SFltb c sf_zero) eqn:E0; [by right; right|].
  destruct (SFltb (sf_one 24) c) eqn:E1; [right; right; by apply unit_ok_one|].
  destruct c as [[]|[]| |[] m e]; try done; [by right; left|by right; right|by left|].
  apply valid_mantissa in Hv. right; right. split; [done|].
  unfold SFltb, SFcompare, sf_one in E1. destruct (Z.compare_spec (1 - 24) e) as [Hc|Hc|Hc]; [|done|by left].
  right. split; [done|]. fold (Pos.compare (Z.to_pos (2 ^ (24 - 1))) m) in E1.
  destruct (Pos.compare_spec (Z.to_pos (2 ^ (24 - 1))) m) as [Hm|Hm|Hm]; try done; simpl in *; lia.
Qed.

(** The product of a severity and a unit confidence does not exceed the severity. *)
Lemma weighted_product (sev : Z) (c : spec_float) : 0 <= sev < 256 -> unit_ok 24 c ->
  match f32_mul (f32_of_uint sev) c with
  | S754_zero false => True
  | S754_finite false m e => vle (Z.pos m) e sev 0
  | _ => False
  end.
Proof.
  intros Hsev Hc. destruct (severity_float sev Hsev) as [[-> ->]|(ms & es & -> & Hes & Hms)].
  { by destruct c as [[]|s| |[] m e]. }
  destruct c as [[]|s| |[] mc ec]; try done. destruct Hc as [Hmc Hec]. cbn [f32_mul SFmul xorb].
  assert (Hcle : Z.pos mc <= 2 ^ (- ec)).
  { destruct Hec as [Hec|[-> Hle]]; [|exact Hle]. etransitivity; [apply Z.lt_le_incl, Hmc|].
    apply Z.pow_le_mono_r; lia. }
  pose proof (round_below 24 128 ltac:(lia) ltac:(lia) (Z.pos (ms * mc)) (es + ec) sev 0) as Hr.
  assert (Hv : vle (Z.pos (ms * mc)) (es + ec) sev 0).
  { rewrite (vle_base (es + ec)) by lia. rewrite Z.sub_diag, Pos2Z.inj_mul, Hms, Z.mul_1_r.
    replace (0 - (es + ec)) with (- es + - ec) by lia. rewrite Z.pow_add_r by lia.
    rewrite Z.mul_assoc. apply Z.mul_le_mono_nonneg_l; [lia|done]. }
  specialize (Hr ltac:(lia) ltac:(lia) ltac:(unfold emin; lia) ltac:(lia) Hv).
  unfold f32_mul, SFmul, xorb. destruct (binary_round_aux _ _ _ _ _ _) as [[]|[]| |[] m' e']; try done. apply Hr.
Qed.

Lemma epsilon_value : f32_lit 1 1000 = S754_finite false 8589935 (-33).
Proof. vm_compute. done. Qed.

Lemma epsilon_floor : sf_to_uint u32_max (S754_finite false 8589935 (-33)) = 0.
Proof. vm_compute. done. Qed.

(** Adding the epsilon to a value below the severity stays below the next half. *)
Lemma epsilon_below (m : positive) (e sev : Z) : 0 <= sev < 256 -> vle (Z.pos m) e sev 0 ->
  0 <= sf_to_uint u32_max (f32_add (S754_finite false m e) (S754_finite false 8589935 (-33))) <= sev.
Proof.
  intros Hsev Hv.
  assert (He : e <= 8).
  { destruct (decide (e <= 8)) as [|Hbig]; [done|]. exfalso. rewrite (vle_base 0), !Z.sub_0_r in Hv by lia.
    assert (2 ^ 8 <= 2 ^ e) by (apply Z.pow_le_mono_r; lia). change (2 ^ 8) with 256 in *. lia. }
  pose proof (add_below 24 128 ltac:(lia) ltac:(lia) m 8589935 e (-33) (2 * sev + 1) (-1)
    ltac:(lia) ltac:(unfold emin; lia) ltac:(lia)) as Ha. cbv zeta in Ha.
  set (b := Z.min (Z.min e (-33)) (-1)) in Ha. rewrite (vle_base b) in Hv by lia.
  assert (E1 : 2 ^ (0 - b) = 2 * 2 ^ (-1 - b)).
  { replace (0 - b) with (Z.succ (-1 - b)) by lia. apply Z.pow_succ_r. lia. }
  assert (E2 : 2 ^ (-1 - b) = 4294967296 * 2 ^ (-33 - b)).
  { replace (-1 - b) with (32 + (-33 - b)) by lia. rewrite Z.pow_add_r by lia. done. }
  assert (0 < 2 ^ (-33 - b)) by (apply Z.pow_pos_nonneg; lia).
  specialize (Ha ltac:(rewrite E1, E2 in *; nia)). unfold f32_add.
  destruct (SFadd _ _ _ _) as [[]|[]| |[] m' e']; try done; [unfold sf_to_uint, sf_floor, u32_max; lia|].
  apply (sf_floor_below m' e' _ (-1)) in Ha; [|lia].
  assert (E : (2 * sev + 1) / 2 ^ (- -1) = sev).
  { change (2 ^ (- -1)) with 2. rewrite (Z.mul_comm 2), Z.div_add_l by done. change (1 / 2) with 0. lia. }
  rewrite E in Ha.
  unfold sf_to_uint. split; [|lia]. apply Z.min_glb; [unfold u32_max; lia|]. cbn [sf_floor].
  destruct (0 <=? e') eqn:He'; breflect; [apply Z.mul_nonneg_nonneg; [lia|apply Z.pow_nonneg; lia]|].
  apply Z.div_pos; [lia|]. apply Z.pow_pos_nonneg; lia.
Qed.

(** A signal counts for at least nothing and at most its severity. *)
Lemma weighted_bounds (s : DetectionSignal) :
  0 <= sig_severity s < 256 -> valid_binary 24 128 (sig_confidence s) = true ->
  0 <= weighted_severity s <= sig_severity s.
Proof.
  intros Hsev Hv. unfold weighted_severity. rewrite epsilon_value.
  destruct (clamped_confidence _ Hv) as [->|[->|Hu]].
  - destruct (severity_float _ Hsev) as [[-> _]|(m & e & -> & _)]; change (sf_to_uint _ _) with 0; lia.
  - destruct (severity_float _ Hsev) as [[-> _]|(m & e & -> & _)]; change (sf_to_uint _ _) with 0; lia.
  - pose proof (weighted_product (sig_severity s) _ Hsev Hu) as Hp.
    destruct (f32_mul _ _) as [[]|t| |[] m e]; try done; [|by apply epsilon_below].
    change (f32_add _ _) with (S754_finite false 8589935 (-33)). rewrite epsilon_floor. lia.
Qed.

Lemma sf_floor_nonneg (x : spec_float) : 0 <= sf_floor x.
Proof.
  destruct x as [s|s| |[] m e]; simpl; try done. case_match; [|apply Z.div_pos; [lia|]].
  - apply Z.mul_nonneg_nonneg; [lia|apply Z.pow_nonneg; lia].
  - breflect. apply Z.pow_pos_nonneg; lia.
Qed.

Lemma weighted_nonneg (s : DetectionSignal) : 0 <= weighted_severity s.
Proof.
  unfold weighted_severity, sf_to_uint. set (x := f32_add _ _). pose proof (sf_floor_nonneg x).
  assert (0 <= u32_max) by done. destruct x as [t|[]| |t m e]; lia.
Qed.

(** ** Buckets *)
Definition bucket (e : ScoringEngine) (ip : IpAddr) : list DetectionSignal := default [] (signals e !! ip).
Definition live (e : ScoringEngine) (now : DateTime) (ss : list DetectionSignal) : list DetectionSignal :=
  List.filter (fun s => cutoff_of e now <=? sig_timestamp s) ss.
(** What a list of signals is worth, without overflow. *)
Definition weight (ss : list DetectionSignal) : Z := foldr (fun s w => weighted_severity s + w) 0 ss.

Lemma weight_app (ss ss' : list DetectionSignal) : weight (ss ++ ss') = weight ss + weight ss'.
Proof. induction ss as [|s ss IH]; simpl; lia. Qed.

Lemma weight_nonneg (ss : list DetectionSignal) : 0 <= weight ss.
Proof.
  induction ss as [|s ss IH]; simpl; [lia|]. pose proof (weighted_nonneg s). lia.
Qed.

Lemma weight_live (e : ScoringEngine) (now : DateTime) (ss : list DetectionSignal) :
  weight (live e now ss) <= weight ss.
Proof.
  unfold live. induction ss as [|s ss IH]; simpl; [lia|]. pose proof (weighted_nonneg s).
  case_match; simpl; lia.
Qed.

Lemma total_severity_weight (ss : list DetectionSignal) : weight ss < 2 ^ 32 -> total_severity ss = weight ss.
Proof.
  intros Hw. unfold total_severity.
  assert (Hgen : forall acc, 0 <= acc -> acc + weight ss < 2 ^ 32 ->
    foldl u32_add acc (weighted_severity <$> ss) = acc + weight ss).
  { clear Hw. induction ss as [|s ss IH]; intros acc Hacc Hlt; simpl in *; [lia|].
    pose proof (weighted_nonneg s). pose proof (weight_nonneg ss).
    unfold u32_add at 2. rewrite wrap_small by (unfold in_width; lia). rewrite IH; lia. }
  rewrite Hgen; lia.
Qed.

Lemma prune_spec (ip : IpAddr) (now : DateTime) (e : ScoringEngine) :
  sc_config (prune_signals ip now e) = sc_config e /\
  forall j, bucket (prune_signals ip now e) j = if decide (j = ip) then live e now (bucket e ip) else bucket e j.
Proof.
  unfold prune_signals, bucket, live. destruct (signals e !! ip) as [b|] eqn:Eb.
  - simpl. destruct (List.filter _ b) as [|s kept] eqn:Ek; (split; [done|]); intros j; simpl.
    + rewrite lookup_delete. case_decide as Hj; [by rewrite decide_True|]. by rewrite decide_False.
    + rewrite lookup_insert. case_decide as Hj; [by rewrite decide_True|]. by rewrite decide_False.
  - split; [done|]. intros j. case_decide as Hj; [|done]. by rewrite Hj, Eb.
Qed.

Lemma record_bucket (s : DetectionSignal) (e : ScoringEngine) (j : IpAddr) :
  bucket (record s e) j = if decide (j = net_addr (sig_source_ip s)) then bucket e j ++ [s] else bucket e j.
Proof.
  unfold bucket, record. simpl. rewrite lookup_insert. case_decide as Hj.
  - by rewrite <- Hj, decide_True.
  - by rewrite decide_False.
Qed.

Lemma decay_spec (now : DateTime) (e : ScoringEngine) :
  sc_config (decay now e) = sc_config e /\
  forall j, weight (bucket (decay now e) j) <= weight (bucket e j).
Proof.
  unfold decay. generalize (map_to_list (signals e)).*1 as ips. intros ips. revert e.
  induction ips as [|ip ips IH]; intros e; simpl; [split; [done|intros; lia]|].
  destruct (prune_spec ip now e) as [Hc Hb]. destruct (IH (prune_signals ip now e)) as [Hc' Hw].
  split; [by rewrite Hc'|]. intros j. etransitivity; [apply Hw|]. rewrite Hb.
  case_decide as Hj; [rewrite Hj; apply weight_live|lia].
Qed.

(** ** Selecting by key *)
Lemma max_by_key_spec {A} (f : A -> Z) (l : list A) :
  match max_by_key f l with
  | None => l = []
  | Some x => x ∈ l /\ forall y, y ∈ l -> f y <= f x
  end.
Proof.
  unfold max_by_key. induction l as [|z l IH] using rev_ind; [done|]. rewrite foldl_app. simpl.
  destruct (foldl _ None l) as [x|].
  - destruct IH as [Hx Hmax]. destruct (Z.ltb_spec (f z) (f x)); (split; [set_solver|]);
      intros y [Hy|Hy%list_elem_of_singleton]%elem_of_app; subst; try lia; specialize (Hmax y Hy); lia.
  - subst l. split; [set_solver|]. intros y Hy. assert (y = z) as -> by set_solver. lia.
Qed.

Lemma min_by_key_spec {A} (f : A -> nat) (l : list A) :
  match min_by_key f l with
  | None => l = []
  | Some x => x ∈ l /\ forall y, y ∈ l -> (f x <= f y)%nat
  end.
Proof.
  unfold min_by_key. induction l as [|z l IH] using rev_ind; [done|]. rewrite foldl_app. simpl.
  destruct (foldl _ None l) as [x|].
  - destruct IH as [Hx Hmin]. destruct (Nat.ltb_spec (f z) (f x)); (split; [set_solver|]);
      intros y [Hy|Hy%list_elem_of_singleton]%elem_of_app; subst; try lia; specialize (Hmin y Hy); lia.
  - subst l. split; [set_solver|]. intros y Hy. assert (y = z) as -> by set_solver. lia.
Qed.

(** ** Decisions *)
Section decisions.
Context `{IpNetOps}.

(** What a decision says about the signals behind it. *)
Definition decided_by (cfg : Config) (now : DateTime) (ss : list DetectionSignal) (d : BanDecision) : Prop :=
  bd_severity d = Z.min (total_severity ss) 255 /\ bd_timestamp d = now /\
  bd_subject d ∈ sig_source_ip <$> ss /\
  (forall s, s ∈ ss -> (prefix_len (bd_subject d) <= prefix_len (sig_source_ip s))%nat) /\
  (exists s, s ∈ ss /\ (forall s', s' ∈ ss -> sig_severity s' <= sig_severity s) /\
     bd_source d = LocalDetector (sig_detector_name s) /\ bd_evidence_hash d = sig_evidence_hash s) /\
  (forall s t, s ∈ ss -> sig_suggested_action s = Ban t -> t <= bd_duration d) /\
  ((exists s, s ∈ ss /\ sig_suggested_action s = Ban (bd_duration d)) \/
   bd_duration d = secs (default_ban_duration_secs cfg)).

Lemma ban_durations_spec (ss : list DetectionSignal) (t : Duration) :
  t ∈ omap ban_duration_of ss <-> exists s, s ∈ ss /\ sig_suggested_action s = Ban t.
Proof.
  rewrite list_elem_of_omap. unfold ban_duration_of.
  split; intros (s & Hs & Ht); exists s; (split; [done|]); destruct (sig_suggested_action s); naive_solver.
Qed.

Lemma decision_spec (e : ScoringEngine) (ip : IpAddr) (now : DateTime) (ss : list DetectionSignal) :
  ss <> [] -> exists d, decision e ip now ss = Some d /\ decided_by (sc_config e) now ss d.
Proof.
  intros Hne. unfold decision. pose proof (max_by_key_spec sig_severity ss) as Hbest.
  destruct (max_by_key sig_severity ss) as [best|]; [|done]. eexists. split; [done|]. unfold decided_by. simpl.
  pose proof (min_by_key_spec prefix_len (sig_source_ip <$> ss)) as Hsub.
  destruct (min_by_key prefix_len _) as [subj|]; [|by destruct ss]. destruct Hsub as [Hin Hmin]. simpl.
  pose proof (max_by_key_spec id (omap ban_duration_of ss)) as Hdur.
  split_and!; [done|done|done| | | |].
  - intros s Hs. apply Hmin, list_elem_of_fmap_2, Hs.
  - exists best. naive_solver.
  - intros s t Hs Ht. destruct (max_by_key id _) as [t'|]; simpl.
    + apply Hdur, ban_durations_spec. eauto.
    + assert (Hx : t ∈ omap ban_duration_of ss) by (apply ban_durations_spec; eauto). rewrite Hdur in Hx. set_solver.
  - destruct (max_by_key id _) as [t'|]; [left|by right]. apply ban_durations_spec, Hdur.
Qed.

(** [evaluate] decides exactly on the signals of the window. It bans when they
    are worth the threshold, with the widest subnet any of them asked for, the
    longest duration any of them suggested and the detector of the most severe
    one, and then forgets them all; otherwise it only forgets the expired ones.
    No other source's signals change. *)
Theorem evaluate_exact (now : DateTime) (ip : IpAddr) (e : ScoringEngine) :
  let ss := live e now (bucket e ip) in
  let '(e', d) := evaluate now ip e in
  sc_config e' = sc_config e /\ (forall j, j <> ip -> bucket e' j = bucket e j) /\
  match d with
  | None => (ss = [] \/ total_severity ss < ban_severity_threshold (sc_config e)) /\ bucket e' ip = ss
  | Some d => ss <> [] /\ ban_severity_threshold (sc_config e) <= total_severity ss /\
      bucket e' ip = [] /\ decided_by (sc_config e) now ss d
  end.
Proof.
  cbv zeta. unfold evaluate. destruct (prune_spec ip now e) as [Hc Hb].
  set (p := prune_signals ip now e) in *.
  assert (Hother : forall j, j <> ip -> bucket p j = bucket e j) by (intros j Hj; by rewrite Hb, decide_False).
  pose proof (Hb ip) as Hip. rewrite decide_True in Hip by done. unfold bucket at 1 in Hip.
  destruct (signals p !! ip) as [[|s ss]|] eqn:Ep; simpl in Hip; rewrite <- Hip.
  - split_and!; [done|done|by left|]. unfold bucket. by rewrite Ep.
  - rewrite <- Hc. destruct (Z.ltb_spec (total_severity (s :: ss)) (ban_severity_threshold (sc_config p))) as [Hlt|Hge].
    + split_and!; [done|done|by right|]. unfold bucket. by rewrite Ep.
    + destruct (decision_spec p ip now (s :: ss) ltac:(done)) as (d & -> & Hd). simpl.
      split_and!; [done| |done|done| |done].
      * intros j Hj. rewrite <- Hother by done. unfold bucket. simpl. by rewrite lookup_insert_ne.
      * unfold bucket. simpl. by rewrite lookup_insert_eq.
  - split_and!; [done|done|by left|]. unfold bucket. by rewrite Ep.
Qed.

(** ** Runs *)
Inductive score_op : Type :=
| SRecord (s : DetectionSignal)
| SEvaluate (ip : IpAddr) (now : DateTime)
| SDecay (now : DateTime).

(** The engine after a run and the decisions it took about each address. *)
Fixpoint score_run (ops : list score_op) (e : ScoringEngine) : ScoringEngine * list (IpAddr * BanDecision) :=
  match ops with
  | [] => (e, [])
  | SRecord s :: ops' => score_run ops' (record s e)
  | SEvaluate ip now :: ops' =>
      let '(e1, d) := evaluate now ip e in
      let '(e', ds) := score_run ops' e1 in
      (e', match d with Some d => (ip, d) :: ds | None => ds end)
  | SDecay now :: ops' => score_run ops' (decay now e)
  end.

(** The signals a run recorded about an address. *)
Definition recorded (ip : IpAddr) (ops : list score_op) : list DetectionSignal :=
  omap (fun o => match o with
                 | SRecord s => if decide (ip = net_addr (sig_source_ip s)) then Some s else None
                 | _ => None
                 end) ops.

Definition bans_of (ip : IpAddr) (ds : list (IpAddr * BanDecision)) : Z :=
  Z.of_nat (length (List.filter (fun p => bool_decide (p.1 = ip)) ds)).

Lemma evaluate_weight (now : DateTime) (ip j : IpAddr) (e : ScoringEngine) :
  weight (bucket e j) < 2 ^ 32 ->
  let '(e', d) := evaluate now ip e in
  sc_config e' = sc_config e /\
  (if d is Some _ then if decide (ip = j) then ban_severity_threshold (sc_config e) else 0 else 0)
    + weight (bucket e' j) <= weight (bucket e j).
Proof.
  intros Hw. pose proof (evaluate_exact now ip e) as Hev. destruct (evaluate now ip e) as [e' d].
  destruct Hev as (Hc & Hother & Hd). split; [done|]. destruct (decide (ip = j)) as [<-|Hne].
  - pose proof (weight_live e now (bucket e ip)) as Hl. destruct d as [d|].
    + destruct Hd as (_ & Hthr & -> & _). rewrite total_severity_weight in Hthr by lia. simpl. lia.
    + destruct Hd as [_ ->]. lia.
  - rewrite Hother by done. destruct d; lia.
Qed.

Lemma score_run_weight (ops : list score_op) (ip : IpAddr) (e : ScoringEngine) :
  0 <= ban_severity_threshold (sc_config e) -> weight (bucket e ip) + weight (recorded ip ops) < 2 ^ 32 ->
  let '(e', ds) := score_run ops e in
  bans_of ip ds * ban_severity_threshold (sc_config e) + weight (bucket e' ip)
    <= weight (bucket e ip) + weight (recorded ip ops).
Proof.
  revert e. induction ops as [|[s|ip' now|now] ops IH]; intros e Hthr Hw; simpl.
  - simpl in Hw. unfold bans_of. simpl. lia.
  - specialize (IH (record s e) Hthr). rewrite record_bucket in IH. simpl in Hw.
    case_decide; simpl in *; rewrite ?weight_app in IH; simpl in IH;
      destruct (score_run ops (record s e)) as [e' ds]; simpl in IH; lia.
  - pose proof (weight_nonneg (recorded ip ops)). simpl in Hw.
    pose proof (evaluate_weight now ip' ip e ltac:(lia)) as Hev.
    destruct (evaluate now ip' e) as [e1 d]. destruct Hev as [Hc Hev]. specialize (IH e1).
    destruct (score_run ops e1) as [e' ds]. rewrite Hc in IH. unfold bans_of in *.
    destruct d as [d|]; [|specialize (IH Hthr ltac:(lia)); lia]. simpl.
    destruct (decide (ip' = ip)) as [Hip|Hip].
    + rewrite bool_decide_true by done. specialize (IH Hthr ltac:(lia)). simpl. lia.
    + rewrite bool_decide_false by done. specialize (IH Hthr ltac:(lia)). lia.
  - destruct (decay_spec now e) as [Hc Hd]. specialize (Hd ip). simpl in Hw.
    specialize (IH (decay now e)). rewrite Hc in IH. specialize (IH Hthr ltac:(lia)).
    destruct (score_run ops (decay now e)) as [e' ds]. simpl. lia.
Qed.

(** C20: Signals are spent once. Over any run of records, evaluations and decays,
    the bans issued against an address, each paid for at the threshold, never
    exceed what the signals about it are worth, which is at most the sum of
    their severities, whatever confidence (even not-a-number or infinite) the
    detectors attached. So one signal cannot contribute to two bans. *)
Theorem bans_paid_for (cfg : Config) (ops : list score_op) (ip : IpAddr)
  (Hthr : 0 <= ban_severity_threshold cfg)
  (Hsig : Forall (fun s => 0 <= sig_severity s < 256 /\ valid_binary 24 128 (sig_confidence s) = true) (recorded ip ops))
  (Hlen : Z.of_nat (length (recorded ip ops)) < 2 ^ 24) :
  let '(e, ds) := score_run ops {| sc_config := cfg; signals := ∅ |} in
  bans_of ip ds * ban_severity_threshold cfg + weight (bucket e ip)
    <= foldr (fun s n => sig_severity s + n) 0 (recorded ip ops).
Proof.
  assert (Hle : weight (recorded ip ops) <= foldr (fun s n => sig_severity s + n) 0 (recorded ip ops) /\
                foldr (fun s n => sig_severity s + n) 0 (recorded ip ops) <= 255 * Z.of_nat (length (recorded ip ops))).
  { clear Hlen. induction Hsig as [|s ss [Hs Hv] _ IH]; [simpl; lia|]. cbn [foldr weight length].
    pose proof (weighted_bounds s Hs Hv). fold (weight ss). lia. }
  pose proof (score_run_weight ops ip {| sc_config := cfg; signals := ∅ |} Hthr) as Hrun.
  assert (Hempty : weight (bucket {| sc_config := cfg; signals := ∅ |} ip) = 0)
    by (unfold bucket; simpl; by rewrite lookup_empty).
  rewrite Hempty in Hrun. specialize (Hrun ltac:(lia)).
  destruct (score_run _ _) as [e ds]. simpl in Hrun. lia.
Qed.
End decisions.

(** Restoring a snapshot gives the accumulated signals back. *)
Theorem snapshot_restore `{ScoringJson} {laws : ScoringJsonLaws} (e e0 : ScoringEngine)
  (Hfin : forall ip ss, signals e !! ip = Some ss -> Forall (fun s => finite_signal s = true) ss) :
  exists e', restore (snapshot e) e0 = Ok e' /\ signals e' = signals e /\ sc_config e' = sc_config e0.
Proof.
  unfold snapshot, restore.
  destruct (state_json_roundtrip {| ss_config := sc_config e; ss_by_ip := map_to_list (signals e) |}) as (j & -> & Hj).
  - apply Forall_forall. intros [ip ss] Hin%elem_of_map_to_list. by apply (Hfin ip).
  - simpl. rewrite Hj. eexists. split; [done|]. simpl. split; [|done]. apply foldl_insert_map_to_list.
Qed.

Module ScoringSample.
#[local] Existing Instance ipnet_ref.

Definition cfg : Config :=
  {| accumulation_window_secs := default_window; ban_severity_threshold := default_threshold;
     default_ban_duration_secs := default_ban_duration |}.
Definition host : IpNet := NetV4 167772161 32.
Definition sample_signal (sev t : Z) (conf : spec_float) : DetectionSignal :=
  {| sig_source_ip := host; sig_severity := sev; sig_confidence := conf; sig_reason := "probe";
     sig_evidence_hash := []; sig_suggested_action := Ban (minutes 60); sig_detector_name := "path_probe";
     sig_timestamp := secs t |}.

(** The weight the source's comment gives: [125 * 0.8] counts 100. *)
Example weight_on_threshold : weighted_severity (sample_signal 125 0 (f32_lit 8 10)) = 100.
Proof. vm_compute. done. Qed.

Definition ops : list score_op :=
  [SRecord (sample_signal 125 10 (f32_lit 8 10)); SEvaluate (net_addr host) (secs 11);
   SRecord (sample_signal 60 12 S754_nan); SEvaluate (net_addr host) (secs 13)].

Lemma bans_paid_for_witness :
  let '(e, ds) := score_run ops {| sc_config := cfg; signals := ∅ |} in
  bans_of (net_addr host) ds * 100 + weight (bucket e (net_addr host)) <= 185 /\ length ds = 1%nat.
Proof.
  pose proof (bans_paid_for cfg ops (net_addr host) ltac:(by vm_compute)
    ltac:(apply (bool_decide_unpack _); by vm_compute) ltac:(by vm_compute)) as Hp.
  assert (Hl : length (score_run ops {| sc_config := cfg; signals := ∅ |}).2 = 1%nat) by (vm_compute; done).
  destruct (score_run _ _) as [e ds]. split; [exact Hp|exact Hl].
Defined.

#[local] Instance no_json : ScoringJson := {|
  json := SnapshotState; json_empty := {| ss_config := cfg; ss_by_ip := [] |};
  config_of_json _ := Some cfg; state_to_json := Some; state_of_json := Some |}.
#[local] Instance no_json_laws : ScoringJsonLaws.
Proof. intros st _. by exists st. Qed.

Definition loaded : ScoringEngine :=
  record (sample_signal 60 12 (f32_lit 1 2)) {| sc_config := cfg; signals := ∅ |}.

Lemma snapshot_restore_witness :
  exists e', restore (snapshot loaded) {| sc_config := cfg; signals := ∅ |} = Ok e' /\ signals e' = signals loaded.
Proof.
  destruct (snapshot_restore loaded {| sc_config := cfg; signals := ∅ |}) as (e' & He & Hs & _).
  - intros ip ss. unfold loaded, record. simpl. rewrite lookup_empty. simpl. rewrite lookup_insert.
    case_decide; [intros [= <-]|rewrite lookup_empty; done]. by repeat constructor.
  - by exists e'.
Defined.
End ScoringSample.
