(* ===== verification/Windows.v ===== *)
(** * Sliding windows

    The window of time stamps most detectors keep per source: a deque that is
    pushed at the back, pruned at the front and cleared when it fires. Stated
    once for all of them: what is counted, when it fires, and what a signal
    costs the attacker. *)
From S2P Require Import Prelude.
Local Open Scope Z_scope.

(** [now - chrono::Duration::from_std(window).unwrap_or(zero)] *)
Definition cutoff (window : Duration) (now : DateTime) : DateTime := now - default 0 (duration_from_std window).

(** [prune_window]: expired entries leave from the front only. *)
Definition prune_window (deque : list DateTime) (window : Duration) (now : DateTime) : list DateTime :=
  drop_while (fun t => t <? cutoff window now) deque.

(** Push, prune, compare; a window that fires is cleared. The count is the
    length at the moment it fires. *)
Definition record_hit (threshold : Z) (window : Duration) (now : DateTime) (deque : list DateTime)
    : list DateTime * option nat :=
  let d := prune_window (deque ++ [now]) window now in
  if threshold <=? Z.of_nat (length d) then ([], Some (length d)) else (d, None).

Section single.
Context (threshold : Z) (window : Duration).

(** The window after a sequence of time stamps, and whether one fires. *)
Definition window_after (ts : list DateTime) : list DateTime :=
  foldl (fun d t => (record_hit threshold window t d).1) [] ts.
Definition fires (ts : list DateTime) (t : DateTime) : option nat :=
  (record_hit threshold window t (window_after ts)).2.

Lemma window_after_snoc (ts : list DateTime) (t : DateTime) :
  window_after (ts ++ [t]) = (record_hit threshold window t (window_after ts)).1.
Proof. unfold window_after. by rewrite foldl_app. Qed.

(** The window holds a run of the most recent events. *)
Lemma window_after_suffix (ts : list DateTime) : window_after ts `suffix_of` ts.
Proof.
  induction ts as [|t ts IH] using rev_ind; [done|]. rewrite window_after_snoc. unfold record_hit.
  case_match; simpl; [apply suffix_nil|]. etransitivity; [apply drop_while_suffix|].
  by apply suffix_app.
Qed.

(** It fires on at least [threshold] events, the most recent ones. *)
Lemma fires_count (ts : list DateTime) (t : DateTime) (n : nat) : fires ts t = Some n ->
  threshold <= Z.of_nat n /\ exists d, d `suffix_of` ts ++ [t] /\ length d = n /\
    d = prune_window (window_after ts ++ [t]) window t.
Proof.
  unfold fires, record_hit. case_match eqn:E; [|done]. intros [= <-]. breflect. split; [done|].
  eexists. split_and!; [|done|done]. etransitivity; [apply drop_while_suffix|]. apply suffix_app, window_after_suffix.
Qed.

Lemma suffix_sorted (k l : list Z) : k `suffix_of` l -> StronglySorted Z.le l -> StronglySorted Z.le k.
Proof. intros [p ->] Hs. induction p as [|x p IH]; simpl in Hs; [done|]. apply IH. by inversion Hs. Qed.

(** Soundness: with time stamps in order, all of them lie in the window. *)
Lemma fires_sound (ts : list DateTime) (t : DateTime) (n : nat) :
  StronglySorted Z.le (ts ++ [t]) -> fires ts t = Some n ->
  threshold <= Z.of_nat n /\ exists d, d `suffix_of` ts ++ [t] /\ length d = n /\
    Forall (fun x => cutoff window t <= x <= t) d.
Proof.
  intros Hs Hf. apply fires_count in Hf as (Hn & d & Hd & Hl & E). split; [done|]. exists d. split_and!; [done..|].
  assert (Hlo : Forall (fun x => cutoff window t <= x) d).
  { rewrite E. apply drop_while_sorted. eapply suffix_sorted; [|exact Hs]. apply suffix_app, window_after_suffix. }
  assert (Hhi : Forall (fun x => x <= t) (ts ++ [t])).
  { clear -Hs. induction ts as [|x ts IH]; simpl in *; [by repeat constructor|].
    inversion Hs as [|? ? Hs' Hx]; subst. constructor; [|by apply IH].
    rewrite Forall_forall in Hx. apply Hx. apply elem_of_app. right. by apply list_elem_of_singleton. }
  destruct Hd as [p Hp]. rewrite Hp in Hhi. apply Forall_app in Hhi as [_ Hhi].
  apply Forall_and. done.
Qed.

(** A block whose events are all younger than every cut stays in the window
    until it fires. *)
Lemma window_keeps (pre x : list DateTime) (lo : DateTime) :
  Forall (fun t => cutoff window t <= lo /\ lo <= t) x ->
  x `suffix_of` window_after (pre ++ x) \/ exists x1 t x2, x = x1 ++ t :: x2 /\ fires (pre ++ x1) t <> None.
Proof.
  induction x as [|t x IH] using rev_ind; intros Hx; [left; apply suffix_nil|].
  apply Forall_app in Hx as [Hx Ht]. apply Forall_singleton in Ht as [Hc Ht].
  destruct (IH Hx) as [Hk|(x1 & u & x2 & -> & Hf)]; [|right; exists x1, u, (x2 ++ [t]); by rewrite <- app_assoc].
  destruct (fires (pre ++ x) t) as [n|] eqn:Ef; [right; exists x, t, []; by rewrite Ef|left].
  rewrite app_assoc, window_after_snoc. unfold fires, record_hit in *. case_match; [done|]. simpl.
  apply drop_while_keep; [|by apply suffix_app].
  apply Forall_app. split; [|apply Forall_singleton; apply Z.ltb_ge; lia].
  eapply Forall_impl; [exact Hx|]. intros u [_ Hu]. apply Z.ltb_ge. simpl in *. lia.
Qed.

(** Completeness: among any [threshold] consecutive events that fit in one
    window, one fires. No order is assumed of the others. *)
Lemma fires_complete (pre x : list DateTime) (now : DateTime) :
  0 < threshold <= Z.of_nat (length x) -> Forall (fun t => cutoff window now <= t <= now) x ->
  exists x1 t x2, x = x1 ++ t :: x2 /\ fires (pre ++ x1) t <> None.
Proof.
  intros Hn Hx.
  assert (Hx' : Forall (fun t => cutoff window t <= cutoff window now /\ cutoff window now <= t) x).
  { eapply Forall_impl; [exact Hx|]. unfold cutoff. intros t ?. simpl in *. lia. }
  destruct (window_keeps pre x (cutoff window now) Hx') as [Hk|Hex]; [|exact Hex].
  destruct x as [|t x _] using rev_ind; [simpl in Hn; lia|]. exists x, t, []. split; [done|].
  intros Hf. rewrite app_assoc, window_after_snoc in Hk. unfold fires, record_hit in *. case_match eqn:E; [done|].
  simpl in Hk. apply suffix_length in Hk. breflect. lia.
Qed.

(** Each event pays for at most one signal. *)
Definition fire_count (ts : list DateTime) : nat :=
  (foldl (fun '(d, c) t => let '(d', o) := record_hit threshold window t d in
            (d', if o is Some _ then S c else c)) ([], O) ts).2.

Lemma fire_count_paid (ts : list DateTime) :
  0 <= threshold -> threshold * Z.of_nat (fire_count ts) <= Z.of_nat (length ts).
Proof.
  intros Hthr. unfold fire_count.
  enough (Hg : let '(d, c) := foldl (fun '(d, c) t => let '(d', o) := record_hit threshold window t d in
            (d', if o is Some _ then S c else c)) ([], O) ts in
    threshold * Z.of_nat c + Z.of_nat (length d) <= Z.of_nat (length ts)).
  { destruct (foldl _ _ ts) as [d c]. simpl. lia. }
  induction ts as [|t ts IH] using rev_ind; [simpl; lia|]. rewrite foldl_app. simpl.
  destruct (foldl _ _ ts) as [d c]. unfold record_hit.
  assert (Hl : (length (prune_window (d ++ [t]) window t) <= S (length d))%nat).
  { etransitivity; [apply suffix_length, drop_while_suffix|]. rewrite length_app. simpl. lia. }
  rewrite length_app. simpl. destruct (Z.leb_spec threshold (Z.of_nat (length (prune_window (d ++ [t]) window t)))); simpl; nia.
Qed.
End single.

(** ** One window per key *)
Section keyed.
Context {K : Type} `{Countable K}.
Context (threshold : Z) (window : Duration).

(** [map.entry(key).or_default()], then the window of that key. *)
Definition keyed_hit (k : K) (now : DateTime) (m : gmap K (list DateTime)) : gmap K (list DateTime) * option nat :=
  let '(d, o) := record_hit threshold window now (default [] (m !! k)) in (<[k := d]> m, o).

Definition times (k : K) (evs : list (K * DateTime)) : list DateTime :=
  omap (fun '(k', t) => if decide (k' = k) then Some t else None) evs.

Definition keyed_after (evs : list (K * DateTime)) : gmap K (list DateTime) :=
  foldl (fun m '(k, t) => (keyed_hit k t m).1) ∅ evs.

Lemma times_app (k : K) (l l' : list (K * DateTime)) : times k (l ++ l') = times k l ++ times k l'.
Proof. apply omap_app. Qed.

(** The windows do not interfere: each key sees its own events only. *)
Lemma keyed_after_snoc (evs : list (K * DateTime)) (k : K) (t : DateTime) :
  keyed_after (evs ++ [(k, t)]) = (keyed_hit k t (keyed_after evs)).1.
Proof. unfold keyed_after. by rewrite foldl_app. Qed.

Lemma keyed_hit_lookup (k j : K) (t : DateTime) (m : gmap K (list DateTime)) :
  default [] ((keyed_hit j t m).1 !! k) =
  if decide (j = k) then (record_hit threshold window t (default [] (m !! k))).1 else default [] (m !! k).
Proof.
  unfold keyed_hit. destruct (record_hit _ _ t _) as [d o] eqn:E. cbn [fst]. rewrite lookup_insert.
  case_decide as Hjk; [subst j; by rewrite E|done].
Qed.

Lemma keyed_after_lookup (evs : list (K * DateTime)) (k : K) :
  default [] (keyed_after evs !! k) = window_after threshold window (times k evs).
Proof.
  induction evs as [|[j t] evs IH] using rev_ind; [unfold keyed_after; simpl; by rewrite lookup_empty|].
  rewrite keyed_after_snoc, keyed_hit_lookup, times_app. simpl. case_decide; simpl.
  - by rewrite window_after_snoc, IH.
  - by rewrite app_nil_r, IH.
Qed.

Lemma keyed_fires (evs : list (K * DateTime)) (k : K) (t : DateTime) :
  (keyed_hit k t (keyed_after evs)).2 = fires threshold window (times k evs) t.
Proof. unfold keyed_hit, fires. rewrite keyed_after_lookup. by destruct (record_hit _ _ t _). Qed.
End keyed.

(** ** Tumbling counters *)
Record WindowCounter : Type := { window_start : DateTime; wc_count : Z }.

(** [counter.count] is a [u64]. *)
Definition bump (window : Duration) (threshold : Z) (ts : DateTime) (c : WindowCounter) : WindowCounter * bool :=
  let w := default (secs 60) (duration_from_std window) in
  let c := if w <=? ts - window_start c then {| window_start := ts; wc_count := 0 |} else c in
  let c := {| window_start := window_start c; wc_count := u64_add (wc_count c) 1 |} in
  (c, wc_count c =? threshold).

Lemma omap_sublist {A B} (f : A -> option B) (l k : list A) : l `sublist_of` k -> omap f l `sublist_of` omap f k.
Proof. induction 1; simpl; [done|by case_match; [apply sublist_skip|]|by case_match; [apply sublist_cons|]]. Qed.

Lemma suffix_sublist {A} (l k : list A) : l `suffix_of` k -> l `sublist_of` k.
Proof. intros [p ->]. by apply sublist_inserts_l. Qed.

Lemma sublist_sorted (l k : list Z) : l `sublist_of` k -> StronglySorted Z.le k -> StronglySorted Z.le l.
Proof.
  induction 1 as [|x l k Hl IH|x l k Hl IH]; intros Hs; [constructor|..]; inversion Hs as [|? ? Hk Hx]; subst.
  - constructor; [by apply IH|]. apply Forall_forall. intros y Hy. rewrite Forall_forall in Hx. apply Hx. by eapply elem_of_sublist.
  - by apply IH.
Qed.

(** [entry(k).or_insert_with(..)] followed by [bump]. *)
Definition keyed_bump {K} `{Countable K} (window : Duration) (threshold : Z) (k : K) (ts : DateTime)
    (m : gmap K WindowCounter) : gmap K WindowCounter * option Z :=
  let '(c, hit) := bump window threshold ts (default {| window_start := ts; wc_count := 0 |} (m !! k)) in
  (<[k := c]> m, if hit : bool then Some (wc_count c) else None).

(** A counter may be forgotten once its window is over. *)
Definition stale_rel (w now : Z) (mc rc : option WindowCounter) : Prop :=
  mc = rc \/ mc = None /\ exists c, rc = Some c /\ w <= now - window_start c.

Lemma bump_fresh (window : Duration) (threshold : Z) (ts : DateTime) (c : WindowCounter) :
  default (secs 60) (duration_from_std window) <= ts - window_start c ->
  bump window threshold ts {| window_start := ts; wc_count := 0 |} = bump window threshold ts c.
Proof. intros Hc. unfold bump. rewrite (proj2 (Z.leb_le _ (ts - window_start c))) by done. simpl. by case_match. Qed.

Section swept.
Context {K : Type} `{Countable K} (window : Duration).
Let w := default (secs 60) (duration_from_std window).

Definition swept (now : DateTime) (m r : gmap K WindowCounter) : Prop := forall k, stale_rel w now (m !! k) (r !! k).

Lemma swept_refl (now : DateTime) (m : gmap K WindowCounter) : swept now m m.
Proof. by left. Qed.

Lemma swept_later (now now' : DateTime) (m r : gmap K WindowCounter) : now <= now' -> swept now m r -> swept now' m r.
Proof. intros Hle Hs k. destruct (Hs k) as [?|(? & c & ? & ?)]; [by left|right]. split; [done|]. exists c. split; [done|lia]. Qed.

Lemma swept_filter (now : DateTime) (stale : Duration) (m r : gmap K WindowCounter) : w <= stale ->
  swept now m r -> swept now (filter (fun kc => now - window_start kc.2 < stale) m) r.
Proof.
  intros Hst Hs k. destruct (Hs k) as [E|(E & c & Er & Hc)].
  - rewrite map_lookup_filter. destruct (m !! k) as [c|] eqn:Em; simpl; [|by left].
    case_guard as Hg; simpl; [by left|]. right. split; [done|]. exists c. split; [done|]. simpl in Hg. lia.
  - right. split; [|by exists c]. apply map_lookup_filter_None. by left.
Qed.

Lemma swept_bump (threshold : Z) (k : K) (ts : DateTime) (m r : gmap K WindowCounter) : swept ts m r ->
  (keyed_bump window threshold k ts m).2 = (keyed_bump window threshold k ts r).2 /\
  swept ts (keyed_bump window threshold k ts m).1 (keyed_bump window threshold k ts r).1.
Proof.
  intros Hs.
  assert (E : bump window threshold ts (default {| window_start := ts; wc_count := 0 |} (m !! k)) =
              bump window threshold ts (default {| window_start := ts; wc_count := 0 |} (r !! k))).
  { destruct (Hs k) as [->|(-> & c & -> & Hc)]; [done|]. simpl. by apply bump_fresh. }
  unfold keyed_bump. rewrite E. clear E. destruct (bump _ _ _ _) as [c hit]. split; [done|]. intros j. cbn [fst].
  rewrite !lookup_insert. case_decide; [by left|apply Hs].
Qed.
End swept.

(** At least [n] of the time stamps lie in the window that ends at [now]. *)
Definition enough (n : Z) (window : Duration) (now : DateTime) (ts : list DateTime) : Prop :=
  exists d, d `sublist_of` ts /\ n <= Z.of_nat (length d) /\ Forall (fun x => cutoff window now <= x <= now) d.

(** A window that saw a part of the events of its key, in order, fires only
    with enough of them. *)
Lemma keyed_sound {K} `{Countable K} (threshold : Z) (window : Duration) (l evs : list (K * DateTime)) (k : K)
    (t : DateTime) (n : nat) :
  l `sublist_of` evs -> StronglySorted Z.le (times k evs ++ [t]) ->
  (keyed_hit threshold window k t (keyed_after threshold window l)).2 = Some n ->
  enough threshold window t (times k evs ++ [t]).
Proof.
  intros Hl Hs Hf. rewrite keyed_fires in Hf.
  assert (Hsub : times k l ++ [t] `sublist_of` times k evs ++ [t]) by (apply sublist_app; [by apply omap_sublist|done]).
  apply fires_sound in Hf as (Hn & d & Hd & <- & Hw); [|by eapply sublist_sorted]. exists d. split_and!; [|done|done].
  etransitivity; [by apply suffix_sublist|exact Hsub].
Qed.

(** ** Detectors built on a keyed window

    [step] processes an event of type [E] on a state [S]; [proj] says which
    events it counts, for which key, and [win] is the window in its state. *)
Lemma omap_split {A B} (f : A -> option B) (l : list A) (x1 x2 : list B) (b : B) :
  omap f l = x1 ++ b :: x2 ->
  exists l1 a l2, l = l1 ++ a :: l2 /\ omap f l1 = x1 /\ f a = Some b /\ omap f l2 = x2.
Proof.
  revert x1. induction l as [|a l IH]; intros x1 Hl; simpl in Hl; [by destruct x1|].
  destruct (f a) as [c|] eqn:Ea.
  - destruct x1 as [|y x1]; injection Hl as -> Hl; [by exists [], a, l|].
    apply IH in Hl as (l1 & a' & l2 & -> & <- & ? & <-). exists (a :: l1), a', l2. simpl. by rewrite Ea.
  - apply IH in Hl as (l1 & a' & l2 & -> & <- & ? & <-). exists (a :: l1), a', l2. simpl. by rewrite Ea.
Qed.

Section windowed.
Context {E S O K : Type} `{Countable K}.
Context (step : E -> S -> S * option O) (proj : E -> option (K * DateTime)) (win : S -> gmap K (list DateTime)).
Context (threshold : Z) (window : Duration) (inv : S -> Prop) (init : S) (out_ok : E -> K -> O -> Prop).
Context (init_ok : inv init /\ win init = ∅).
Context (step_ok : forall e s, inv s -> inv (step e s).1 /\
  match proj e with
  | None => win (step e s).1 = win s
  | Some (k, t) => win (step e s).1 = (keyed_hit threshold window k t (win s)).1 /\
      ((keyed_hit threshold window k t (win s)).2 <> None -> exists o, (step e s).2 = Some o /\ out_ok e k o)
  end).

Definition run_events (es : list E) : S := foldl (fun s e => (step e s).1) init es.

(** The time stamps counted for one key. *)
Definition counted (k : K) (es : list E) : list DateTime := times k (omap proj es).

Lemma run_events_win (es : list E) :
  inv (run_events es) /\ win (run_events es) = keyed_after threshold window (omap proj es).
Proof using init_ok step_ok.
  induction es as [|e es [IHi IHw]] using rev_ind; [exact init_ok|].
  unfold run_events in *. rewrite foldl_app, omap_app. simpl. destruct (step_ok e _ IHi) as [Hi Hw].
  split; [done|]. destruct (proj e) as [[k t]|]; simpl.
  - destruct Hw as [-> _]. by rewrite IHw, keyed_after_snoc.
  - by rewrite app_nil_r, Hw.
Qed.

(** A window that fires makes the detector emit. *)
Lemma run_emits (es : list E) (e : E) (k : K) (t : DateTime) :
  proj e = Some (k, t) -> fires threshold window (counted k es) t <> None ->
  exists o, (step e (run_events es)).2 = Some o /\ out_ok e k o.
Proof using init_ok step_ok.
  intros Hp Hf. destruct (run_events_win es) as [Hi Hw]. destruct (step_ok e _ Hi) as [_ Hs].
  rewrite Hp, Hw, keyed_fires in Hs. by apply Hs.
Qed.

(** Any burst is detected, whatever happened before and whatever else is
    interleaved with it. *)
Lemma burst_emits (pre block : list E) (k : K) (now : DateTime) :
  0 < threshold <= Z.of_nat (length (counted k block)) ->
  Forall (fun t => cutoff window now <= t <= now) (counted k block) ->
  exists b1 e b2 o, block = b1 ++ e :: b2 /\ (step e (run_events (pre ++ b1))).2 = Some o /\ out_ok e k o.
Proof using init_ok step_ok.
  intros Hn Hx.
  destruct (fires_complete threshold window (counted k pre) (counted k block) now Hn Hx) as (x1 & t & x2 & E1 & Hf).
  unfold counted, times in E1. apply omap_split in E1 as (l1 & [k' t'] & l2 & El & E1 & Hk & _).
  case_decide; simplify_eq. apply omap_split in El as (b1 & e & b2 & -> & E2 & Hp & _).
  destruct (run_emits (pre ++ b1) e k t Hp) as (o & Ho & Hok); [|by exists b1, e, b2, o].
  unfold counted in *. by rewrite omap_app, times_app, E2.
Qed.
End windowed.

(** ** Iteration order

    The order in which a [HashMap] yields its keys is not specified: a
    parameter that enumerates every key once. *)
Class HashIter : Type := hash_iter : forall {K : Type} `{Countable K}, gset K -> list K.
Class HashIterLaws `{HashIter} : Prop := hash_iter_perm : forall {K : Type} `{Countable K} (X : gset K), hash_iter X ≡ₚ elements X.

Lemma elem_of_hash_iter `{HashIterLaws} {K} `{Countable K} (X : gset K) (k : K) : k ∈ hash_iter X <-> k ∈ X.
Proof. rewrite hash_iter_perm. apply elem_of_elements. Qed.

Definition hash_iter_ref : HashIter := fun K _ _ X => elements X.
Lemma hash_iter_ref_laws : @HashIterLaws hash_iter_ref.
Proof. by intros K ? ? X. Qed.

(** [Iterator::min_by_key]: the first of the least elements. *)
Fixpoint min_by_key {A} (le : A -> A -> bool) (l : list A) : option A :=
  match l with
  | [] => None
  | x :: l' => match min_by_key le l' with
               | Some y => Some (if le x y then x else y)
               | None => Some x
               end
  end.

Lemma min_by_key_elem {A} (le : A -> A -> bool) (l : list A) (x : A) : min_by_key le l = Some x -> x ∈ l.
Proof.
  revert x. induction l as [|y l IH]; intros x; simpl; [done|]. destruct (min_by_key le l) as [z|]; intros [= <-].
  - destruct (le y z); [left|right]; by apply IH.
  - left.
Qed.

Lemma min_by_key_None {A} (le : A -> A -> bool) (l : list A) : min_by_key le l = None -> l = [].
Proof. destruct l; simpl; [done|]. by destruct (min_by_key le l). Qed.
