(* ===== verification/Detector.v ===== *)
(** * Detectors: the trait and what they share

    [hiveguard-core/src/detector.rs]: a detector consumes events and emits
    signals. [detectors/netkey.rs]: the network a source is counted and banned
    under. The sliding window of time stamps most detectors keep per source:
    what it counts, and when it fires. *)
From S2P Require Import Prelude Text Models Floats.
From stdpp Require Import pretty.
Local Open Scope Z_scope.

(** ** The trait *)
Class Detector (D : Type) : Type := process_multi : NormalizedEvent -> D -> D * list DetectionSignal.

(** The default [process_multi] wraps [process]. *)
Definition multi_of_process {D} (process : NormalizedEvent -> D -> D * option DetectionSignal)
    : NormalizedEvent -> D -> D * list DetectionSignal :=
  fun event d => let '(d', s) := process event d in (d', option_list s).

(** What the field types of a signal guarantee. *)
Definition wf_signal (s : DetectionSignal) : Prop :=
  wf_net (sig_source_ip s) /\ in_width 8 (sig_severity s) /\
  valid_binary 24 128 (sig_confidence s) = true /\ length (sig_evidence_hash s) = 32%nat.

(** What the pipeline relies on: an invariant of the detector's state under
    which every signal is well formed. *)
Class DetectorLaws (D : Type) `{Detector D} : Type := {
  det_ok : D -> Prop;
  process_multi_ok (event : NormalizedEvent) (d : D) :
    wf_ip (ev_source_ip event) -> det_ok d ->
    det_ok (process_multi event d).1 /\ Forall wf_signal (process_multi event d).2;
}.

(** For a detector that emits at most one signal, whatever its state. *)
Lemma multi_of_process_ok {D} (P : D -> Prop) (process : NormalizedEvent -> D -> D * option DetectionSignal)
    (event : NormalizedEvent) (d : D) :
  P (process event d).1 -> (forall s, (process event d).2 = Some s -> wf_signal s) ->
  P (multi_of_process process event d).1 /\ Forall wf_signal (multi_of_process process event d).2.
Proof.
  unfold multi_of_process. destruct (process event d) as [d' [s|]]; simpl; intros Hp Hs; split; try done.
  constructor; [by apply Hs|done].
Qed.

(** What a run emits, event by event. *)
Fixpoint outputs {D} (process : NormalizedEvent -> D -> D * option DetectionSignal) (d : D) (es : list NormalizedEvent)
    : list (option DetectionSignal) :=
  match es with
  | [] => []
  | e :: es' => let '(d', o) := process e d in o :: outputs process d' es'
  end.

Lemma in_order (e : NormalizedEvent) (es : list NormalizedEvent) :
  StronglySorted Z.le (ev_timestamp <$> e :: es) ->
  Forall (fun x => ev_timestamp e <= ev_timestamp x) es /\ StronglySorted Z.le (ev_timestamp <$> es).
Proof.
  intros Hs. inversion Hs as [|? ? Hs' Hle]; subst. split; [|done]. exact (proj1 (Forall_fmap ev_timestamp (Z.le (ev_timestamp e)) es) Hle).
Qed.

(** Two detectors in step, at the time of the last event, emit the same. *)
Lemma outputs_sim {D D'} (p : NormalizedEvent -> D -> D * option DetectionSignal)
    (q : NormalizedEvent -> D' -> D' * option DetectionSignal) (R : DateTime -> D -> D' -> Prop) :
  (forall now e d d', R now d d' -> now <= ev_timestamp e ->
     (p e d).2 = (q e d').2 /\ R (ev_timestamp e) (p e d).1 (q e d').1) ->
  forall es now d d', R now d d' -> Forall (fun e => now <= ev_timestamp e) es ->
    StronglySorted Z.le (ev_timestamp <$> es) -> outputs p d es = outputs q d' es.
Proof.
  intros Hstep es. induction es as [|e es IH]; intros now d d' HR Hnow Hs; simpl; [done|].
  apply Forall_cons in Hnow as [He _]. destruct (Hstep now e d d' HR He) as [Ho HR'].
  destruct (p e d) as [d1 o], (q e d') as [d1' o']. simpl in *. subst o'. f_equal.
  apply in_order in Hs as [Hle Hs]. by apply (IH (ev_timestamp e)).
Qed.

(** [event.metadata.get(key)], as bytes. *)
Definition meta (event : NormalizedEvent) (key : string) : option bytes := as_bytes <$> ev_metadata event !! key.

(** The event types of a request. *)
Definition is_http (t : EventType) : bool :=
  match t with HttpRequest | Http4xx | Http5xx => true | _ => false end.

(** [timestamp() / 60] of a date: whole seconds, rounded down, over 60. *)
Definition minute_of (t : DateTime) : Z := Z.quot (t / nanos_per_sec) 60.
Definition as_secs (d : Duration) : Z := d / nanos_per_sec.

(** [{:.n}] of a float: the exact value rounded to [n] decimals, ties to even. *)
Definition round_ratio (a d : Z) : Z :=
  let q := a / d in let r := a mod d in if (d <? 2 * r) || ((2 * r =? d) && Z.odd q) then q + 1 else q.
Definition fmt_fixed (n : nat) (x : spec_float) : string :=
  let sign (s : bool) := (if s then "-" else "")%string in
  let digits (k : Z) := (fmt_uint (k / 10 ^ Z.of_nat n) +:+ "." +:+ pad_zeros n (fmt_uint (k mod 10 ^ Z.of_nat n)))%string in
  match x with
  | S754_finite s m e =>
      (sign s +:+ digits (if (0 <=? e)%Z then Z.pos m * 2 ^ e * 10 ^ Z.of_nat n
                          else round_ratio (Z.pos m * 10 ^ Z.of_nat n) (2 ^ (- e))))%string
  | S754_zero s => (sign s +:+ digits 0)%string
  | S754_infinity s => (sign s +:+ "inf")%string
  | S754_nan => "NaN"%string
  end.

(** ** Counting keys ([netkey.rs]) *)
Definition DEFAULT_IPV6_PREFIX : Z := 64.
Definition MIN_IPV6_PREFIX : Z := 48.
Definition MIN_IPV4_SUBNET_PREFIX : Z := 16.

Section netkey.
Context `{IpNetOps}.

Definition source_key (ip : IpAddr) (ipv6_prefix : Z) : IpNet :=
  match ip with
  | IpV4 b => NetV4 b 32
  | IpV6 b =>
      let p := if (ipv6_prefix =? 0) || (128 <=? ipv6_prefix) then 128 else ipv6_prefix in
      net_trunc (NetV6 b (Z.to_nat p))
  end.

Definition subnet_of (ip : IpAddr) (v4_prefix v6_prefix : Z) : option IpNet :=
  match ip with
  | IpV4 b => if 0 <? v4_prefix then Some (net_trunc (NetV4 b (Z.to_nat (Z.min v4_prefix 32)))) else None
  | IpV6 b => if 0 <? v6_prefix then Some (net_trunc (NetV6 b (Z.to_nat (Z.min v6_prefix 128)))) else None
  end.
End netkey.

Definition validate_ipv6_prefix (key : string) (prefix : Z) : result unit string :=
  if (prefix =? 0) || in_range MIN_IPV6_PREFIX 128 prefix then Ok tt
  else Err (key +:+ " must be 0 (per address) or " +:+ fmt_uint MIN_IPV6_PREFIX +:+ "..=128, got " +:+ fmt_uint prefix)%string.

Definition validate_v4_subnet_prefix (key : string) (prefix : Z) : result unit string :=
  if (prefix =? 0) || in_range MIN_IPV4_SUBNET_PREFIX 32 prefix then Ok tt
  else Err (key +:+ " must be 0 (off) or " +:+ fmt_uint MIN_IPV4_SUBNET_PREFIX +:+ "..=32, got " +:+ fmt_uint prefix)%string.

Section netkey_facts.
Context `{IpNetOps} {laws : IpNetLaws}.

Lemma net_trunc_wf (n : IpNet) : wf_net n -> wf_net (net_trunc n).
Proof using laws. intros Hn. rewrite net_trunc_law by done. by apply trunc_ref_wf. Qed.

Lemma wf_v6 (b : Z) (p : Z) : wf_ip (IpV6 b) -> p <= 128 -> wf_net (NetV6 b (Z.to_nat p)).
Proof. intros Hb Hp. split; [exact Hb|]. simpl. lia. Qed.
Lemma wf_v4 (b : Z) (p : Z) : wf_ip (IpV4 b) -> p <= 32 -> wf_net (NetV4 b (Z.to_nat p)).
Proof. intros Hb Hp. split; [exact Hb|]. simpl. lia. Qed.

Lemma source_key_prefix (p : Z) : (if (p =? 0) || (128 <=? p) then 128 else p) <= 128.
Proof. destruct (Z.eqb_spec p 0), (Z.leb_spec 128 p); simpl; lia. Qed.

Lemma source_key_wf (ip : IpAddr) (p : Z) : wf_ip ip -> wf_net (source_key ip p).
Proof using laws.
  destruct ip as [b|b]; intros Hb; [by apply (wf_v4 b 32)|].
  apply net_trunc_wf, wf_v6; [done|apply source_key_prefix].
Qed.

Lemma subnet_of_wf (ip : IpAddr) (p q : Z) (n : IpNet) : wf_ip ip -> subnet_of ip p q = Some n -> wf_net n.
Proof using laws.
  destruct ip as [b|b]; intros Hb; simpl; case_match; try done; intros [= <-]; apply net_trunc_wf.
  - apply wf_v4; [done|lia].
  - apply wf_v6; [done|lia].
Qed.

Lemma subnet_of_contains (ip : IpAddr) (p q : Z) (n : IpNet) :
  wf_ip ip -> subnet_of ip p q = Some n -> canonical n /\ in_net n ip.
Proof using laws.
  destruct ip as [b|b]; intros Hb; simpl; case_match; try done; intros [= <-].
  - rewrite net_trunc_law by (apply wf_v4; [done|lia]). split; [apply trunc_ref_canonical|]. by apply trunc_ref_in_net.
  - rewrite net_trunc_law by (apply wf_v6; [done|lia]). split; [apply trunc_ref_canonical|]. by apply trunc_ref_in_net.
Qed.

(** The key is a truncated network around the source, and two sources have the
    same key exactly when one's key contains the other: rotating through the
    addresses of a prefix does not change it. *)
Lemma source_key_spec (a b : IpAddr) (p : Z) : wf_ip a -> wf_ip b ->
  canonical (source_key a p) /\ in_net (source_key a p) a /\
  (source_key a p = source_key b p <-> in_net (source_key a p) b).
Proof using laws.
  intros Ha Hb.
  assert (Hcan : canonical (source_key a p) /\ in_net (source_key a p) a).
  { destruct a as [x|x]; simpl.
    - split; [|by split]. unfold canonical. simpl. unfold mask_bits, top_bits. simpl. by rewrite Z.shiftl_0_r, Z.shiftr_0_r.
    - rewrite net_trunc_law by (apply wf_v6; [done|apply source_key_prefix]).
      split; [apply trunc_ref_canonical|]. by apply trunc_ref_in_net. }
  split_and!; [apply Hcan|apply Hcan|]. destruct a as [x|x], b as [y|y]; simpl.
  - split; [intros [= ->]; by split|]. intros [_ E]. unfold top_bits in E. simpl in E. rewrite !Z.shiftr_0_r in E. by subst.
  - rewrite net_trunc_law by (apply wf_v6; [done|apply source_key_prefix]). split; [done|]. by intros [? _].
  - rewrite net_trunc_law by (apply wf_v6; [done|apply source_key_prefix]). split; [done|]. by intros [? _].
  - rewrite !net_trunc_law by (apply wf_v6; [done|apply source_key_prefix]). simpl. split.
    + intros [= E]. split; [done|]. simpl. rewrite top_bits_mask. by apply mask_bits_eq.
    + intros [_ E]. simpl in E. rewrite top_bits_mask in E. f_equal. by apply mask_bits_eq.
Qed.

(** The network address identifies the key. *)
Lemma source_key_addr (a b : IpAddr) (p : Z) : wf_ip a -> wf_ip b ->
  net_addr (source_key a p) = net_addr (source_key b p) -> source_key a p = source_key b p.
Proof using laws.
  intros Ha Hb. destruct a as [x|x], b as [y|y]; simpl;
    rewrite ?net_trunc_law by (apply wf_v6; [done|apply source_key_prefix]); simpl; try done; by intros [= ->].
Qed.
End netkey_facts.
