(* ===== verification/Bruteforce.v ===== *)
(** * Rate detectors ([detectors/ssh_bruteforce.rs], [smtp_bruteforce.rs], [http_4xx_flood.rs])

    One sliding window per source address (per IPv6 prefix for SSH); a full
    window emits one signal and starts again. *)
From S2P Require Import Prelude Text Models Floats Windows Detector.
From stdpp Require Import pretty.
Local Open Scope Z_scope.

Section detectors.
Context `{IpNetOps} `{Blake3}.

(** [compute_evidence_hash] of the three detectors. *)
Definition compute_evidence_hash (ip : IpAddr) (reason : string) : list Z :=
  blake3 (as_bytes (ip_to_string ip +:+ ":" +:+ reason)%string).

(** ** SSH *)
Record SshBruteforceDetector : Type := {
  ssh_threshold : Z; ssh_window : Duration; ssh_ban_duration : Duration;
  ssh_enum_threshold : Z; ssh_enum_window : Duration; ssh_enum_ban_duration : Duration;
  ssh_failures : gmap IpAddr (list DateTime);
  ssh_enum_failures : gmap IpAddr (list DateTime);
  ssh_ipv6_prefix : Z;
}.

Definition ssh_with_config (threshold : Z) (window ban : Duration) (enum_threshold : Z) (enum_window enum_ban : Duration)
    : SshBruteforceDetector :=
  {| ssh_threshold := threshold; ssh_window := window; ssh_ban_duration := ban;
     ssh_enum_threshold := enum_threshold; ssh_enum_window := enum_window; ssh_enum_ban_duration := enum_ban;
     ssh_failures := ∅; ssh_enum_failures := ∅; ssh_ipv6_prefix := DEFAULT_IPV6_PREFIX |}.
Definition ssh_new : SshBruteforceDetector :=
  ssh_with_config 5 (secs 300) (secs 86400) 3 (secs 120) (secs 172800).
Definition ssh_set (failures enum : gmap IpAddr (list DateTime)) (prefix : Z) (d : SshBruteforceDetector) :=
  {| ssh_threshold := ssh_threshold d; ssh_window := ssh_window d; ssh_ban_duration := ssh_ban_duration d;
     ssh_enum_threshold := ssh_enum_threshold d; ssh_enum_window := ssh_enum_window d;
     ssh_enum_ban_duration := ssh_enum_ban_duration d;
     ssh_failures := failures; ssh_enum_failures := enum; ssh_ipv6_prefix := prefix |}.
Definition ssh_with_ipv6_prefix (prefix : Z) (d : SshBruteforceDetector) : SshBruteforceDetector :=
  ssh_set (ssh_failures d) (ssh_enum_failures d) prefix d.

(** [metadata.get("invalid_user") == "true"] *)
Definition is_invalid_user (event : NormalizedEvent) : bool :=
  bool_decide (ev_metadata event !! "invalid_user"%string = Some "true"%string).

Definition ssh_signal (key : IpNet) (now : DateTime) (severity : Z) (reason : string) (ban : Duration) : DetectionSignal :=
  {| sig_source_ip := key; sig_severity := severity; sig_confidence := f32_lit 9 10; sig_reason := reason;
     sig_evidence_hash := compute_evidence_hash (net_addr key) reason; sig_suggested_action := Ban ban;
     sig_detector_name := "ssh_bruteforce"; sig_timestamp := now |}.

Definition process_ssh (event : NormalizedEvent) (d : SshBruteforceDetector)
    : SshBruteforceDetector * option DetectionSignal :=
  if negb (bool_decide (ev_event_type event = AuthFailure)) then (d, None)
  else
    let key := source_key (ev_source_ip event) (ssh_ipv6_prefix d) in
    let ip := net_addr key in
    let now := ev_timestamp event in
    let '(failures, hit) := keyed_hit (ssh_threshold d) (ssh_window d) ip now (ssh_failures d) in
    let d := ssh_set failures (ssh_enum_failures d) (ssh_ipv6_prefix d) d in
    match hit with
    | Some n =>
        let reason := ("SSH brute-force: " +:+ pretty n +:+ " failed logins from " +:+ net_to_string key +:+ " in window")%string in
        (d, Some (ssh_signal key now 150 reason (ssh_ban_duration d)))
    | None =>
        if is_invalid_user event then
          let '(enum, hit) := keyed_hit (ssh_enum_threshold d) (ssh_enum_window d) ip now (ssh_enum_failures d) in
          let d := ssh_set (ssh_failures d) enum (ssh_ipv6_prefix d) d in
          match hit with
          | Some n =>
              let reason := ("SSH user enumeration: " +:+ pretty n +:+ " invalid-user attempts from "
                             +:+ net_to_string key +:+ " in window")%string in
              (d, Some (ssh_signal key now 180 reason (ssh_enum_ban_duration d)))
          | None => (d, None)
          end
        else (d, None)
    end.

(** ** SMTP *)
Record SmtpBruteforceDetector : Type := {
  smtp_threshold : Z; smtp_window : Duration; smtp_ban_duration : Duration;
  smtp_failures : gmap IpAddr (list DateTime);
}.
Definition smtp_with_config (threshold : Z) (window ban : Duration) : SmtpBruteforceDetector :=
  {| smtp_threshold := threshold; smtp_window := window; smtp_ban_duration := ban; smtp_failures := ∅ |}.
Definition smtp_new : SmtpBruteforceDetector := smtp_with_config 5 (secs 300) (secs 86400).

Definition process_smtp (event : NormalizedEvent) (d : SmtpBruteforceDetector)
    : SmtpBruteforceDetector * option DetectionSignal :=
  if negb (bool_decide (ev_event_type event = SmtpAuthFailure)) then (d, None)
  else
    let ip := ev_source_ip event in
    let now := ev_timestamp event in
    let '(failures, hit) := keyed_hit (smtp_threshold d) (smtp_window d) ip now (smtp_failures d) in
    let d := {| smtp_threshold := smtp_threshold d; smtp_window := smtp_window d;
                smtp_ban_duration := smtp_ban_duration d; smtp_failures := failures |} in
    match hit with
    | Some n =>
        let reason := ("SMTP brute-force: " +:+ pretty n +:+ " failed SASL authentications from " +:+ ip_to_string ip
                       +:+ " in window")%string in
        (d, Some {| sig_source_ip := ip_to_net ip; sig_severity := 150; sig_confidence := f32_lit 9 10;
                    sig_reason := reason; sig_evidence_hash := compute_evidence_hash ip reason;
                    sig_suggested_action := Ban (smtp_ban_duration d); sig_detector_name := "smtp_bruteforce";
                    sig_timestamp := now |})
    | None => (d, None)
    end.

(** ** HTTP errors *)
Record Http4xxFloodDetector : Type := {
  fx_threshold : Z; fx_window : Duration; fx_ban_duration : Duration;
  fx_hits : gmap IpAddr (list DateTime);
}.
Definition fx_with_config (threshold : Z) (window ban : Duration) : Http4xxFloodDetector :=
  {| fx_threshold := threshold; fx_window := window; fx_ban_duration := ban; fx_hits := ∅ |}.
Definition fx_new : Http4xxFloodDetector := fx_with_config 50 (secs 60) (secs 3600).

Definition process_4xx (event : NormalizedEvent) (d : Http4xxFloodDetector)
    : Http4xxFloodDetector * option DetectionSignal :=
  if negb (bool_decide (ev_event_type event = Http4xx)) then (d, None)
  else
    let ip := ev_source_ip event in
    let now := ev_timestamp event in
    let '(hits, hit) := keyed_hit (fx_threshold d) (fx_window d) ip now (fx_hits d) in
    let d := {| fx_threshold := fx_threshold d; fx_window := fx_window d; fx_ban_duration := fx_ban_duration d;
                fx_hits := hits |} in
    match hit with
    | Some n =>
        let reason := ("HTTP 4xx flood: " +:+ pretty n +:+ " errors from " +:+ ip_to_string ip +:+ " in window")%string in
        (d, Some {| sig_source_ip := ip_to_net ip; sig_severity := 120; sig_confidence := f32_lit 85 100;
                    sig_reason := reason; sig_evidence_hash := compute_evidence_hash ip reason;
                    sig_suggested_action := Ban (fx_ban_duration d); sig_detector_name := "http_4xx_flood";
                    sig_timestamp := now |})
    | None => (d, None)
    end.

#[export] Instance ssh_detector : Detector SshBruteforceDetector := multi_of_process process_ssh.
#[export] Instance smtp_detector : Detector SmtpBruteforceDetector := multi_of_process process_smtp.
#[export] Instance fx_detector : Detector Http4xxFloodDetector := multi_of_process process_4xx.
End detectors.

(** ** What they promise *)
Section facts.
Context `{IpNetOps} {laws : IpNetLaws} `{Blake3} {hash : Blake3Laws}.

Lemma process_ssh_wf (event : NormalizedEvent) (d : SshBruteforceDetector) (s : DetectionSignal) :
  wf_ip (ev_source_ip event) -> (process_ssh event d).2 = Some s -> wf_signal s.
Proof using laws hash.
  intros Hip. unfold process_ssh. destruct (negb _); [done|].
  destruct (keyed_hit _ _ _ _ _) as [m [n|]]; simpl.
  - intros [= <-]. split_and!; [by apply source_key_wf|done|done|apply blake3_length].
  - destruct (is_invalid_user event); [|done]. destruct (keyed_hit _ _ _ _ _) as [m' [n|]]; simpl; [|done].
    intros [= <-]. split_and!; [by apply source_key_wf|done|done|apply blake3_length].
Qed.

Lemma process_smtp_wf (event : NormalizedEvent) (d : SmtpBruteforceDetector) (s : DetectionSignal) :
  wf_ip (ev_source_ip event) -> (process_smtp event d).2 = Some s -> wf_signal s.
Proof using hash.
  intros Hip. unfold process_smtp. destruct (negb _); [done|].
  destruct (keyed_hit _ _ _ _ _) as [m [n|]]; simpl; [|done].
  intros [= <-]. split_and!; [by apply ip_to_net_wf|done|done|apply blake3_length].
Qed.

Lemma process_4xx_wf (event : NormalizedEvent) (d : Http4xxFloodDetector) (s : DetectionSignal) :
  wf_ip (ev_source_ip event) -> (process_4xx event d).2 = Some s -> wf_signal s.
Proof using hash.
  intros Hip. unfold process_4xx. destruct (negb _); [done|].
  destruct (keyed_hit _ _ _ _ _) as [m [n|]]; simpl; [|done].
  intros [= <-]. split_and!; [by apply ip_to_net_wf|done|done|apply blake3_length].
Qed.

#[export, refine] Instance ssh_laws : DetectorLaws SshBruteforceDetector := {| det_ok _ := True |}.
Proof using laws hash. intros event d Hip _. apply (multi_of_process_ok (fun _ => True) process_ssh); [done|]. intros s. by apply process_ssh_wf. Defined.
#[export, refine] Instance smtp_laws : DetectorLaws SmtpBruteforceDetector := {| det_ok _ := True |}.
Proof using hash. intros event d Hip _. apply (multi_of_process_ok (fun _ => True) process_smtp); [done|]. intros s. by apply process_smtp_wf. Defined.
#[export, refine] Instance fx_laws : DetectorLaws Http4xxFloodDetector := {| det_ok _ := True |}.
Proof using hash. intros event d Hip _. apply (multi_of_process_ok (fun _ => True) process_4xx); [done|]. intros s. by apply process_4xx_wf. Defined.

(** *** SSH *)
(** The failures counted, and under which key. *)
Definition ssh_proj (prefix : Z) (e : NormalizedEvent) : option (IpAddr * DateTime) :=
  if bool_decide (ev_event_type e = AuthFailure) then Some (net_addr (source_key (ev_source_ip e) prefix), ev_timestamp e)
  else None.
Definition enum_proj (prefix : Z) (e : NormalizedEvent) : option (IpAddr * DateTime) :=
  if is_invalid_user e then ssh_proj prefix e else None.

Definition ssh_run (d : SshBruteforceDetector) (es : list NormalizedEvent) : SshBruteforceDetector :=
  run_events process_ssh d es.

Definition same_config (d0 d : SshBruteforceDetector) : Prop :=
  d = ssh_set (ssh_failures d) (ssh_enum_failures d) (ssh_ipv6_prefix d0) d0.

Lemma ssh_step_ok (d0 : SshBruteforceDetector) (e : NormalizedEvent) (d : SshBruteforceDetector) :
  same_config d0 d -> same_config d0 (process_ssh e d).1 /\
  match ssh_proj (ssh_ipv6_prefix d0) e with
  | None => ssh_failures (process_ssh e d).1 = ssh_failures d
  | Some (k, t) =>
      let h := keyed_hit (ssh_threshold d0) (ssh_window d0) k t (ssh_failures d) in
      ssh_failures (process_ssh e d).1 = h.1 /\
      (h.2 <> None -> exists s, (process_ssh e d).2 = Some s /\
        sig_source_ip s = source_key (ev_source_ip e) (ssh_ipv6_prefix d0) /\
        sig_suggested_action s = Ban (ssh_ban_duration d0) /\ sig_timestamp s = ev_timestamp e)
  end.
Proof.
  unfold same_config, process_ssh, ssh_proj. intros ->. cbn [ssh_set ssh_failures ssh_enum_failures ssh_ipv6_prefix ssh_threshold ssh_window].
  destruct (bool_decide _); cbn [negb]; [|done].
  destruct (keyed_hit _ _ _ _ _) as [m [n|]]; cbn [fst snd]; [by split_and!; eauto|].
  destruct (is_invalid_user e); [|done]. by destruct (keyed_hit _ _ _ _ _) as [m' [n|]].
Qed.

(** The enumeration window sees a part of the invalid-user failures (those that
    did not complete the other window). *)
Lemma ssh_enum_recorded (d0 : SshBruteforceDetector) (es : list NormalizedEvent) :
  ssh_enum_failures d0 = ∅ -> same_config d0 d0 ->
  same_config d0 (ssh_run d0 es) /\
  exists l, l `sublist_of` omap (enum_proj (ssh_ipv6_prefix d0)) es /\
    ssh_enum_failures (ssh_run d0 es) = keyed_after (ssh_enum_threshold d0) (ssh_enum_window d0) l.
Proof.
  intros He Hc0. induction es as [|e es (Hc & l & Hl & E)] using rev_ind; [split; [done|]; by exists []|].
  unfold ssh_run, run_events in *. rewrite foldl_app, omap_app. simpl.
  destruct (ssh_step_ok d0 e _ Hc) as [Hc' _]. split; [exact Hc'|]. revert Hc E.
  generalize (foldl (fun s e => (process_ssh e s).1) d0 es). clear Hc'. intros d -> E. unfold process_ssh, enum_proj, ssh_proj.
  assert (Hsub : forall o, l `sublist_of` omap (enum_proj (ssh_ipv6_prefix d0)) es ++ o).
  { intros o. etransitivity; [exact Hl|]. apply sublist_inserts_r. done. }
  cbn [ssh_set ssh_failures ssh_enum_failures ssh_ipv6_prefix ssh_threshold ssh_window] in *.
  destruct (bool_decide _); cbn [negb]; [|by exists l; eauto].
  destruct (keyed_hit (ssh_threshold d0) _ _ _ _) as [m [n|]]; [by exists l; eauto|].
  destruct (is_invalid_user e); [|by exists l; eauto]. set (k := net_addr _).
  exists (l ++ [(k, ev_timestamp e)]). split; [by apply sublist_app|].
  rewrite keyed_after_snoc, <- E. simpl. by destruct (keyed_hit (ssh_enum_threshold d0) _ _ _ _) as [m' [n|]].
Qed.

(** Failures of the source [ip] (of its IPv6 prefix), in order. *)
Definition ssh_times (d0 : SshBruteforceDetector) (ip : IpAddr) (es : list NormalizedEvent) : list DateTime :=
  counted (ssh_proj (ssh_ipv6_prefix d0)) (net_addr (source_key ip (ssh_ipv6_prefix d0))) es.
Definition enum_times (d0 : SshBruteforceDetector) (ip : IpAddr) (es : list NormalizedEvent) : list DateTime :=
  counted (enum_proj (ssh_ipv6_prefix d0)) (net_addr (source_key ip (ssh_ipv6_prefix d0))) es.

Lemma ssh_windowed (d0 e : _) (d : SshBruteforceDetector) : same_config d0 d ->
  same_config d0 (process_ssh e d).1 /\
  match ssh_proj (ssh_ipv6_prefix d0) e with
  | None => ssh_failures (process_ssh e d).1 = ssh_failures d
  | Some (k, t) =>
      ssh_failures (process_ssh e d).1 = (keyed_hit (ssh_threshold d0) (ssh_window d0) k t (ssh_failures d)).1 /\
      ((keyed_hit (ssh_threshold d0) (ssh_window d0) k t (ssh_failures d)).2 <> None ->
       exists s, (process_ssh e d).2 = Some s /\
         (k = net_addr (source_key (ev_source_ip e) (ssh_ipv6_prefix d0)) /\
          sig_source_ip s = source_key (ev_source_ip e) (ssh_ipv6_prefix d0) /\
          sig_suggested_action s = Ban (ssh_ban_duration d0)))
  end.
Proof.
  intros Hc. destruct (ssh_step_ok d0 e d Hc) as [Hc' Hstep]. split; [done|]. unfold ssh_proj in *.
  destruct (bool_decide _); [|done]. destruct Hstep as [Hw Hsig]. split; [done|].
  intros Hf. destruct (Hsig Hf) as (s & ? & ? & ? & _). by exists s.
Qed.

(** Where a signal comes from. *)
Lemma process_ssh_Some (d0 d : SshBruteforceDetector) (e : NormalizedEvent) (s : DetectionSignal) :
  same_config d0 d -> (process_ssh e d).2 = Some s ->
  let k := net_addr (source_key (ev_source_ip e) (ssh_ipv6_prefix d0)) in
  let t := ev_timestamp e in
  ssh_proj (ssh_ipv6_prefix d0) e = Some (k, t) /\
  sig_source_ip s = source_key (ev_source_ip e) (ssh_ipv6_prefix d0) /\
  (sig_suggested_action s = Ban (ssh_ban_duration d0) /\
     (exists n, (keyed_hit (ssh_threshold d0) (ssh_window d0) k t (ssh_failures d)).2 = Some n) \/
   sig_suggested_action s = Ban (ssh_enum_ban_duration d0) /\ enum_proj (ssh_ipv6_prefix d0) e = Some (k, t) /\
     (exists n, (keyed_hit (ssh_enum_threshold d0) (ssh_enum_window d0) k t (ssh_enum_failures d)).2 = Some n)).
Proof.
  unfold same_config, process_ssh, ssh_proj, enum_proj. intros ->.
  cbn [ssh_set ssh_failures ssh_enum_failures ssh_ipv6_prefix ssh_threshold ssh_window ssh_enum_threshold
       ssh_enum_window ssh_ban_duration ssh_enum_ban_duration].
  unfold ssh_proj. destruct (bool_decide _); cbn [negb]; [|done].
  destruct (keyed_hit (ssh_threshold d0) _ _ _ _) as [m [n|]]; cbn [fst snd].
  { intros [= <-]. split_and!; [done..|]. left. eauto. }
  destruct (is_invalid_user e); [|done].
  destruct (keyed_hit (ssh_enum_threshold d0) _ _ _ _) as [m' [n|]] eqn:E; cbn [fst snd]; [|done]. intros [= <-].
  split_and!; [done..|]. right. split_and!; [done..|]. eauto.
Qed.

(** An SSH burst is always detected: of any [threshold] consecutive failures of
    one source within one window, whatever came before and whatever other
    traffic is interleaved, one makes the detector ask for a ban of exactly that
    source, for the configured time. *)
Theorem ssh_burst_detected (d0 : SshBruteforceDetector) (pre block : list NormalizedEvent) (ip : IpAddr) (now : DateTime)
  (Hnew : ssh_failures d0 = ∅) (Hip : wf_ip ip) (Hwf : Forall (fun e => wf_ip (ev_source_ip e)) block)
  (Hn : 0 < ssh_threshold d0 <= Z.of_nat (length (ssh_times d0 ip block)))
  (Hx : Forall (fun t => cutoff (ssh_window d0) now <= t <= now) (ssh_times d0 ip block)) :
  exists b1 e b2 s, block = b1 ++ e :: b2 /\ (process_ssh e (ssh_run d0 (pre ++ b1))).2 = Some s /\
    sig_source_ip s = source_key ip (ssh_ipv6_prefix d0) /\ sig_suggested_action s = Ban (ssh_ban_duration d0).
Proof using laws.
  assert (Hi : same_config d0 d0 /\ ssh_failures d0 = ∅) by (split; [by destruct d0|done]).
  destruct (burst_emits _ _ _ _ _ _ _ _ Hi (ssh_windowed d0) pre block _ now Hn Hx)
    as (b1 & e & b2 & s & Hb & Hs & Hk & Hsrc & Hact).
  exists b1, e, b2, s. split_and!; [done|done| |done]. rewrite Hsrc. apply source_key_addr; [|done|by symmetry].
    rewrite Hb in Hwf. apply Forall_app in Hwf as [_ Hwf]. by apply Forall_cons in Hwf as [? _].
Qed.

(** An SSH signal is never raised without cause: the ban names the source of the
    event, and at least [threshold] failures of that source lie within the
    window that ends now (for the longer ban: [enum_threshold] failures for
    unknown users within the enumeration window). *)
Theorem ssh_signal_sound (d0 : SshBruteforceDetector) (es : list NormalizedEvent) (e : NormalizedEvent) (s : DetectionSignal)
  (Hnew : ssh_failures d0 = ∅) (Henum : ssh_enum_failures d0 = ∅)
  (Hsorted : StronglySorted Z.le (ssh_times d0 (ev_source_ip e) (es ++ [e])))
  (Hs : (process_ssh e (ssh_run d0 es)).2 = Some s) :
  sig_source_ip s = source_key (ev_source_ip e) (ssh_ipv6_prefix d0) /\
  (sig_suggested_action s = Ban (ssh_ban_duration d0) /\
     enough (ssh_threshold d0) (ssh_window d0) (ev_timestamp e) (ssh_times d0 (ev_source_ip e) (es ++ [e])) \/
   sig_suggested_action s = Ban (ssh_enum_ban_duration d0) /\
     enough (ssh_enum_threshold d0) (ssh_enum_window d0) (ev_timestamp e) (enum_times d0 (ev_source_ip e) (es ++ [e]))).
Proof.
  assert (Hc0 : same_config d0 d0) by by destruct d0.
  destruct (ssh_enum_recorded d0 es Henum Hc0) as (Hc & l & Hl & Ee).
  destruct (run_events_win _ _ _ _ _ _ _ _ (conj Hc0 Hnew) (ssh_windowed d0) es) as [_ Ew].
  apply (process_ssh_Some d0) in Hs as (Hp & Hsrc & Hcase); [|exact Hc]. split; [done|].
  fold (ssh_run d0 es) in Ew. rewrite Ew, Ee in Hcase.
  unfold ssh_times, enum_times, counted in *. rewrite !omap_app, !times_app in *. simpl in *.
  rewrite Hp in *. unfold times at 2 in Hsorted. unfold times at 2. simpl in *. rewrite decide_True in * by done.
  destruct Hcase as [(Ha & n & Hn)|(Ha & Hq & n & Hn)]; [left|right]; (split; [done|]).
  - by eapply keyed_sound.
  - rewrite Hq. unfold times at 2. simpl. rewrite decide_True by done. eapply keyed_sound; [exact Hl| |exact Hn].
    eapply sublist_sorted; [|exact Hsorted]. apply sublist_app; [|done]. apply omap_sublist. unfold enum_proj.
    clear. induction es as [|e es IH]; simpl; [done|].
    destruct (is_invalid_user e); destruct (ssh_proj _ e); try done; by constructor.
Qed.
End facts.

(** ** Witnesses *)
Module BruteforceSample.
#[local] Existing Instances ipnet_ref ipnet_ref_laws.
#[local] Instance flat_hash : Blake3 := fun _ => replicate 32 0.

(** Failures from rotating addresses of one /64, at the given seconds. *)
Definition rotating (i t : Z) : NormalizedEvent :=
  {| ev_timestamp := secs t; ev_source_ip := IpV6 (2 ^ 100 + i); ev_event_type := AuthFailure; ev_source_name := "sshd";
     ev_raw_line := ""; ev_metadata := {["invalid_user"%string := "true"%string]} |}.
Definition det : SshBruteforceDetector := ssh_with_config 3 (secs 60) (secs 600) 2 (secs 10) (secs 900).
Definition block : list NormalizedEvent := [rotating 1 40; rotating 2 61; rotating 3 80].

Lemma ssh_burst_detected_witness :
  exists b1 e b2 s, block = b1 ++ e :: b2 /\ (process_ssh e (ssh_run det ([rotating 9 0] ++ b1))).2 = Some s /\
    sig_source_ip s = source_key (IpV6 (2 ^ 100)) 64 /\ sig_suggested_action s = Ban (secs 600).
Proof.
  apply (ssh_burst_detected det [rotating 9 0] block (IpV6 (2 ^ 100)) (secs 80)).
  - reflexivity.
  - split; by vm_compute.
  - repeat constructor; by vm_compute.
  - split; by vm_compute.
  - apply (bool_decide_unpack _). by vm_compute.
Defined.

Lemma ssh_signal_sound_witness :
  exists s, (process_ssh (rotating 2 9) (ssh_run det [rotating 1 0])).2 = Some s /\
    sig_source_ip s = source_key (IpV6 (2 ^ 100 + 2)) 64.
Proof.
  eexists. split; [vm_compute; reflexivity|].
  refine (proj1 (ssh_signal_sound det [rotating 1 0] (rotating 2 9) _ _ _ _ _)).
  - reflexivity.
  - reflexivity.
  - vm_compute. repeat constructor; discriminate.
  - vm_compute. reflexivity.
Defined.
End BruteforceSample.
