(* ===== verification/HttpRate.v ===== *)
(** * Request-rate detectors ([detectors/http_flood.rs], [http_login_bruteforce.rs])

    Tumbling counters per source and per subnet for request floods; sliding
    windows of login attempts per source and per subnet. Both sweep idle state
    now and then. *)
From S2P Require Import Prelude Text Models Floats Windows Detector.
From stdpp Require Import pretty.
Local Open Scope Z_scope.

(** Everything before the query or fragment. *)
Definition strip_query (path : bytes) : bytes := before (fun c => (c =? 63) || (c =? 35)) path.

Definition default_ignore_extensions : list bytes :=
  as_bytes <$> [".css"; ".js"; ".mjs"; ".map"; ".png"; ".jpg"; ".jpeg"; ".gif"; ".webp"; ".avif"; ".svg"; ".ico";
                ".woff"; ".woff2"; ".ttf"; ".eot"; ".mp4"; ".webm"; ".pdf"]%string.

Section flood.
Context `{IpNetOps} `{Blake3}.

(** ** Request floods *)
Definition FLOOD_SWEEP_EVERY : Z := 8192.

Record HttpFloodDetector : Type := {
  fl_window : Duration; fl_ip_threshold : Z; fl_subnet_threshold : Z; fl_ban_duration : Duration;
  fl_ignore_extensions : list bytes;
  fl_ip_counters : gmap IpAddr WindowCounter;
  fl_subnet_counters : gmap IpNet WindowCounter;
  fl_events_since_sweep : Z;
}.

Definition flood_with_config (window : Duration) (ip_threshold subnet_threshold : Z) (ban : Duration)
    (ignore_extensions : list bytes) : HttpFloodDetector :=
  {| fl_window := window; fl_ip_threshold := ip_threshold; fl_subnet_threshold := subnet_threshold;
     fl_ban_duration := ban; fl_ignore_extensions := to_ascii_lowercase <$> ignore_extensions;
     fl_ip_counters := ∅; fl_subnet_counters := ∅; fl_events_since_sweep := 0 |}.
Definition flood_new : HttpFloodDetector :=
  flood_with_config (secs 60) 600 2400 (secs (12 * 3600)) default_ignore_extensions.

Definition flood_set (ips : gmap IpAddr WindowCounter) (subnets : gmap IpNet WindowCounter) (n : Z) (d : HttpFloodDetector) :=
  {| fl_window := fl_window d; fl_ip_threshold := fl_ip_threshold d; fl_subnet_threshold := fl_subnet_threshold d;
     fl_ban_duration := fl_ban_duration d; fl_ignore_extensions := fl_ignore_extensions d;
     fl_ip_counters := ips; fl_subnet_counters := subnets; fl_events_since_sweep := n |}.

(** The /24 or /48 around an address: the last octet, or the last five
    segments, cleared. *)
Definition ip_to_subnet (ip : IpAddr) : IpNet :=
  match ip with
  | IpV4 b => NetV4 (Z.shiftl (Z.shiftr b 8) 8) 24
  | IpV6 b => NetV6 (Z.shiftl (Z.shiftr b 80) 80) 48
  end.

Definition is_ignored_path (exts : list bytes) (path : bytes) : bool :=
  let lower := to_ascii_lowercase (strip_query path) in
  existsb (fun ext => ends_with ext lower) exts.

Definition flood_sweep (now : DateTime) (d : HttpFloodDetector) : HttpFloodDetector :=
  let stale := default (secs 240) (duration_from_std (fl_window d * 4)) in
  flood_set (filter (fun kc => now - window_start kc.2 < stale) (fl_ip_counters d))
            (filter (fun kc => now - window_start kc.2 < stale) (fl_subnet_counters d)) (fl_events_since_sweep d) d.

Definition flood_maybe_sweep (now : DateTime) (d : HttpFloodDetector) : HttpFloodDetector :=
  let n := fl_events_since_sweep d in
  let d := flood_set (fl_ip_counters d) (fl_subnet_counters d) (u64_add n 1) d in
  if n mod FLOOD_SWEEP_EVERY =? FLOOD_SWEEP_EVERY - 1 then flood_sweep now d else d.

Definition flood_signal (d : HttpFloodDetector) (target : IpNet) (count : Z) (ts : DateTime) (kind : string) : DetectionSignal :=
  let evidence := (net_to_string target +:+ ":http_flood:" +:+ kind +:+ ":" +:+ fmt_uint count +:+ ":" +:+ fmt_uint (minute_of ts))%string in
  {| sig_source_ip := target; sig_severity := 200; sig_confidence := f32_lit 85 100;
     sig_reason := ("HTTP flood: " +:+ fmt_uint count +:+ " requests from " +:+ net_to_string target +:+ " in "
                    +:+ fmt_uint (as_secs (fl_window d)) +:+ "s")%string;
     sig_evidence_hash := blake3 (as_bytes evidence); sig_suggested_action := Ban (fl_ban_duration d);
     sig_detector_name := "http_flood"; sig_timestamp := ts |}.

(** The two counters, the subnet's first. *)
Definition count_request (event : NormalizedEvent) (d : HttpFloodDetector) : HttpFloodDetector * option DetectionSignal :=
  let ts := ev_timestamp event in
  let subnet := ip_to_subnet (ev_source_ip event) in
  let '(d, fired) :=
    if 0 <? fl_subnet_threshold d then
      let '(m, hit) := keyed_bump (fl_window d) (fl_subnet_threshold d) subnet ts (fl_subnet_counters d) in
      (flood_set (fl_ip_counters d) m (fl_events_since_sweep d) d, hit)
    else (d, None) in
  match fired with
  | Some count => (d, Some (flood_signal d subnet count ts "subnet"))
  | None =>
      if 0 <? fl_ip_threshold d then
        let '(m, hit) := keyed_bump (fl_window d) (fl_ip_threshold d) (ev_source_ip event) ts (fl_ip_counters d) in
        let d := flood_set m (fl_subnet_counters d) (fl_events_since_sweep d) d in
        match hit with
        | Some count => (d, Some (flood_signal d (ip_to_net (ev_source_ip event)) count ts "ip"))
        | None => (d, None)
        end
      else (d, None)
  end.

(** Static assets never count. *)
Definition flood_counts (d : HttpFloodDetector) (event : NormalizedEvent) : bool :=
  is_http (ev_event_type event) && negb (default false (is_ignored_path (fl_ignore_extensions d) <$> meta event "path")).

Definition process_flood (event : NormalizedEvent) (d : HttpFloodDetector) : HttpFloodDetector * option DetectionSignal :=
  if flood_counts d event then count_request event (flood_maybe_sweep (ev_timestamp event) d) else (d, None).

(** ** Login attempts *)
Definition LOGIN_SWEEP_EVERY : Z := 4096.
Definition DEFAULT_SUBNET_THRESHOLD : Z := 20.
Definition DEFAULT_SUBNET_MIN_DISTINCT_IPS : nat := 5.
Definition default_login_paths : list bytes := as_bytes <$> ["/wp-login.php"; "/xmlrpc.php"]%string.

Record HttpLoginBruteforceDetector : Type := {
  lg_paths : list bytes; lg_threshold : Z; lg_window : Duration; lg_ban_duration : Duration;
  lg_hits : gmap IpAddr (list DateTime);
  lg_subnet_v4_prefix : Z; lg_subnet_v6_prefix : Z; lg_subnet_threshold : Z; lg_subnet_min_distinct_ips : nat;
  lg_subnet_hits : gmap IpNet (list (DateTime * IpAddr));
  lg_events : Z;
}.

Definition login_with_config (paths : list bytes) (threshold : Z) (window ban : Duration) : HttpLoginBruteforceDetector :=
  {| lg_paths := paths; lg_threshold := threshold; lg_window := window; lg_ban_duration := ban; lg_hits := ∅;
     lg_subnet_v4_prefix := 0; lg_subnet_v6_prefix := 0; lg_subnet_threshold := DEFAULT_SUBNET_THRESHOLD;
     lg_subnet_min_distinct_ips := DEFAULT_SUBNET_MIN_DISTINCT_IPS; lg_subnet_hits := ∅; lg_events := 0 |}.
Definition login_new : HttpLoginBruteforceDetector :=
  login_with_config default_login_paths 5 (secs 600) (secs 86400).
Definition login_with_subnet_aggregation (v4_prefix v6_prefix threshold : Z) (min_distinct_ips : nat)
    (d : HttpLoginBruteforceDetector) : HttpLoginBruteforceDetector :=
  {| lg_paths := lg_paths d; lg_threshold := lg_threshold d; lg_window := lg_window d;
     lg_ban_duration := lg_ban_duration d; lg_hits := lg_hits d;
     lg_subnet_v4_prefix := Z.min v4_prefix 32; lg_subnet_v6_prefix := Z.min v6_prefix 128;
     lg_subnet_threshold := threshold; lg_subnet_min_distinct_ips := Nat.max min_distinct_ips 1;
     lg_subnet_hits := lg_subnet_hits d; lg_events := lg_events d |}.

Definition login_set (hits : gmap IpAddr (list DateTime)) (subnets : gmap IpNet (list (DateTime * IpAddr))) (n : Z)
    (d : HttpLoginBruteforceDetector) : HttpLoginBruteforceDetector :=
  {| lg_paths := lg_paths d; lg_threshold := lg_threshold d; lg_window := lg_window d;
     lg_ban_duration := lg_ban_duration d; lg_hits := hits;
     lg_subnet_v4_prefix := lg_subnet_v4_prefix d; lg_subnet_v6_prefix := lg_subnet_v6_prefix d;
     lg_subnet_threshold := lg_subnet_threshold d; lg_subnet_min_distinct_ips := lg_subnet_min_distinct_ips d;
     lg_subnet_hits := subnets; lg_events := n |}.

(** An entry is kept while its newest element is in the window. *)
Definition login_maybe_sweep (now : DateTime) (d : HttpLoginBruteforceDetector) : HttpLoginBruteforceDetector :=
  let n := lg_events d in
  let d := login_set (lg_hits d) (lg_subnet_hits d) (u64_add n 1) d in
  if n mod LOGIN_SWEEP_EVERY =? LOGIN_SWEEP_EVERY - 1 then
    let c := cutoff (lg_window d) now in
    login_set (filter (fun kv => default false ((fun t => c <=? t) <$> last kv.2) = true) (lg_hits d))
              (filter (fun kv => default false ((fun t : DateTime * IpAddr => c <=? t.1) <$> last kv.2) = true) (lg_subnet_hits d))
              (lg_events d) d
  else d.

(** The loop that drops expired entries and the excess over [cap]. *)
Fixpoint prune_capped (c : DateTime) (cap : nat) (deque : list (DateTime * IpAddr)) : list (DateTime * IpAddr) :=
  match deque with
  | [] => []
  | x :: deque' => if (x.1 <? c) || (cap <? length deque)%nat then prune_capped c cap deque' else deque
  end.

Definition distinct_ips (l : list (DateTime * IpAddr)) : nat := size (list_to_set l.*2 : gset IpAddr).

Definition subnet_check (ip : IpAddr) (now : DateTime) (path : bytes) (d : HttpLoginBruteforceDetector)
    : HttpLoginBruteforceDetector * option DetectionSignal :=
  if lg_subnet_threshold d =? 0 then (d, None)
  else
    match subnet_of ip (lg_subnet_v4_prefix d) (lg_subnet_v6_prefix d) with
    | None => (d, None)
    | Some subnet =>
        let cap := (Z.to_nat (lg_subnet_threshold d) * 4 + 64)%nat in
        let deque := prune_capped (cutoff (lg_window d) now) cap (default [] (lg_subnet_hits d !! subnet) ++ [(now, ip)]) in
        let store q := login_set (lg_hits d) (<[subnet := q]> (lg_subnet_hits d)) (lg_events d) d in
        let count := length deque in
        let distinct := distinct_ips deque in
        if (count <? Z.to_nat (lg_subnet_threshold d))%nat then (store deque, None)
        else if (distinct <? lg_subnet_min_distinct_ips d)%nat then (store deque, None)
        else
          let reason := ("HTTP login brute-force (subnet): " +:+ pretty count +:+ " POST requests to '" +:+ of_bytes path
            +:+ "' from " +:+ pretty distinct +:+ " addresses in " +:+ net_to_string subnet +:+ " in "
            +:+ fmt_duration (lg_window d))%string in
          let evidence := (net_to_string subnet +:+ ":http_login_bruteforce:subnet:" +:+ pretty count +:+ ":"
            +:+ fmt_uint (minute_of now))%string in
          (store [], Some {| sig_source_ip := subnet; sig_severity := 180; sig_confidence := f32_lit 90 100;
             sig_reason := reason; sig_evidence_hash := blake3 (as_bytes evidence);
             sig_suggested_action := Ban (lg_ban_duration d); sig_detector_name := "http_login_bruteforce";
             sig_timestamp := now |})
    end.

Definition matches_login_path (paths : list bytes) (request_path : bytes) : bool :=
  existsb (fun p => starts_with p request_path) paths.

(** The path of a login attempt: a POST, whatever the response, to one of the
    monitored endpoints. *)
Definition login_attempt (paths : list bytes) (event : NormalizedEvent) : option bytes :=
  if negb (is_http (ev_event_type event)) then None
  else
    match meta event "method", meta event "path" with
    | Some method, Some request_path =>
        if eq_ignore_ascii_case method (as_bytes "POST") && matches_login_path paths request_path
        then Some request_path else None
    | _, _ => None
    end.

Definition count_login (request_path : bytes) (event : NormalizedEvent) (d : HttpLoginBruteforceDetector)
    : HttpLoginBruteforceDetector * option DetectionSignal :=
  let ip := ev_source_ip event in
  let now := ev_timestamp event in
  let '(d, sub) := subnet_check ip now request_path d in
  match sub with
  | Some s => (d, Some s)
  | None =>
      let deque := prune_window (default [] (lg_hits d !! ip) ++ [now]) (lg_window d) now in
      let d := login_set (<[ip := deque]> (lg_hits d)) (lg_subnet_hits d) (lg_events d) d in
      let count := wrap 32 (Z.of_nat (length deque)) in
      if count <? lg_threshold d then (d, None)
      else
        let reason := ("HTTP login brute-force: " +:+ fmt_uint count +:+ " POST requests to '"
          +:+ of_bytes request_path +:+ "' from " +:+ ip_to_string ip +:+ " in " +:+ fmt_duration (lg_window d))%string in
        (d, Some {| sig_source_ip := ip_to_net ip; sig_severity := 180; sig_confidence := f32_lit 90 100;
           sig_reason := reason;
           sig_evidence_hash := blake3 (as_bytes (ip_to_string ip +:+ ":http_login_bruteforce:" +:+ fmt_uint count)%string);
           sig_suggested_action := Ban (lg_ban_duration d); sig_detector_name := "http_login_bruteforce";
           sig_timestamp := ev_timestamp event |})
  end.

Definition process_login (event : NormalizedEvent) (d : HttpLoginBruteforceDetector)
    : HttpLoginBruteforceDetector * option DetectionSignal :=
  match login_attempt (lg_paths d) event with
  | Some request_path => count_login request_path event (login_maybe_sweep (ev_timestamp event) d)
  | None => (d, None)
  end.

#[export] Instance flood_detector : Detector HttpFloodDetector := multi_of_process process_flood.
#[export] Instance login_detector : Detector HttpLoginBruteforceDetector := multi_of_process process_login.
End flood.


(** ** Well-formed signals *)
Section facts.
Context `{IpNetOps} {laws : IpNetLaws} `{Blake3} {hash : Blake3Laws}.

Lemma ip_to_subnet_spec (ip : IpAddr) : wf_ip ip ->
  wf_net (ip_to_subnet ip) /\ canonical (ip_to_subnet ip) /\ in_net (ip_to_subnet ip) ip.
Proof.
  intros Hip. destruct ip as [b|b].
  - change (ip_to_subnet (IpV4 b)) with (net_around (IpV4 b) 24).
    split_and!; [|apply net_around_canonical|apply in_net_around]. apply (trunc_ref_wf (NetV4 b 24)). split; [done|simpl; lia].
  - change (ip_to_subnet (IpV6 b)) with (net_around (IpV6 b) 48).
    split_and!; [|apply net_around_canonical|apply in_net_around]. apply (trunc_ref_wf (NetV6 b 48)). split; [done|simpl; lia].
Qed.

Lemma process_flood_wf (event : NormalizedEvent) (d : HttpFloodDetector) (s : DetectionSignal) :
  wf_ip (ev_source_ip event) -> (process_flood event d).2 = Some s -> wf_signal s.
Proof using hash.
  intros Hip. unfold process_flood. destruct (flood_counts d event); [|done].
  unfold count_request. generalize (flood_maybe_sweep (ev_timestamp event) d). clear d. intros d.
  destruct (if 0 <? fl_subnet_threshold d then _ else _) as [d' [n|]].
  - intros [= <-]. split_and!; [by apply ip_to_subnet_spec|done|done|apply blake3_length].
  - destruct (0 <? fl_ip_threshold d'); [|done]. destruct (keyed_bump _ _ _ _ _) as [m [n|]]; [|done].
    intros [= <-]. split_and!; [by apply ip_to_net_wf|done|done|apply blake3_length].
Qed.

Lemma subnet_check_wf (ip : IpAddr) (now : DateTime) (path : bytes) (d : HttpLoginBruteforceDetector) (s : DetectionSignal) :
  wf_ip ip -> (subnet_check ip now path d).2 = Some s -> wf_signal s.
Proof using laws hash.
  intros Hip. unfold subnet_check. destruct (_ =? 0); [done|].
  destruct (subnet_of _ _ _) as [n|] eqn:En; [|done]. do 2 (case_match; [done|]).
  intros [= <-]. split_and!; [by eapply subnet_of_wf|done|done|apply blake3_length].
Qed.

Lemma process_login_wf (event : NormalizedEvent) (d : HttpLoginBruteforceDetector) (s : DetectionSignal) :
  wf_ip (ev_source_ip event) -> (process_login event d).2 = Some s -> wf_signal s.
Proof using laws hash.
  intros Hip. unfold process_login. destruct (login_attempt _ _) as [p|]; [|done]. unfold count_login.
  pose proof (subnet_check_wf (ev_source_ip event) (ev_timestamp event) p (login_maybe_sweep (ev_timestamp event) d)) as Hs.
  destruct (subnet_check _ _ _ _) as [d' [s'|]]; simpl in *; [intros [= <-]; by apply Hs|].
  destruct (_ <? _); [done|]. intros [= <-]. split_and!; [by apply ip_to_net_wf|done|done|apply blake3_length].
Qed.

#[export, refine] Instance flood_laws : DetectorLaws HttpFloodDetector := {| det_ok _ := True |}.
Proof using hash. intros event d Hip _. apply (multi_of_process_ok (fun _ => True) process_flood); [done|]. intros s. by apply process_flood_wf. Defined.
#[export, refine] Instance login_laws : DetectorLaws HttpLoginBruteforceDetector := {| det_ok _ := True |}.
Proof using laws hash. intros event d Hip _. apply (multi_of_process_ok (fun _ => True) process_login); [done|]. intros s. by apply process_login_wf. Defined.

(** ** Sweeping is invisible *)
(** The detector that never forgets a counter. *)
Definition process_unswept (event : NormalizedEvent) (d : HttpFloodDetector) : HttpFloodDetector * option DetectionSignal :=
  if flood_counts d event then count_request event d else (d, None).

Definition flood_sim (now : DateTime) (d r : HttpFloodDetector) : Prop :=
  r = flood_set (fl_ip_counters r) (fl_subnet_counters r) (fl_events_since_sweep r) d /\
  0 <= fl_window d /\ duration_from_std (fl_window d * 4) <> None /\
  swept (fl_window d) now (fl_ip_counters d) (fl_ip_counters r) /\
  swept (fl_window d) now (fl_subnet_counters d) (fl_subnet_counters r).

Lemma stale_covers (w : Duration) : 0 <= w -> duration_from_std (w * 4) <> None ->
  default (secs 60) (duration_from_std w) <= default (secs 240) (duration_from_std (w * 4)).
Proof.
  unfold duration_from_std. intros Hw. destruct (Z.leb_spec (w * 4) (millis (2 ^ 63 - 1))) as [Hle|]; [|done]. intros _.
  destruct (Z.leb_spec w (millis (2 ^ 63 - 1))); simpl; lia.
Qed.

Lemma flood_sim_sweep (now ts : DateTime) (d r : HttpFloodDetector) :
  now <= ts -> flood_sim now d r -> flood_sim ts (flood_maybe_sweep ts d) r.
Proof.
  intros Hts (Hr & Hw & Hin & Hi & Hn). unfold flood_maybe_sweep.
  pose proof (swept_later _ _ _ _ _ Hts Hi) as Hi'. pose proof (swept_later _ _ _ _ _ Hts Hn) as Hn'.
  case_match; [|by split_and!; simpl; [rewrite Hr|..]].
  unfold flood_sweep. split_and!; simpl; [by rewrite Hr|done|done|..]; apply swept_filter; auto using stale_covers.
Qed.

Lemma flood_sim_count (event : NormalizedEvent) (d r : HttpFloodDetector) : flood_sim (ev_timestamp event) d r ->
  (count_request event d).2 = (count_request event r).2 /\
  flood_sim (ev_timestamp event) (count_request event d).1 (count_request event r).1.
Proof.
  intros (-> & Hw & Hin & Hi & Hn). unfold count_request.
  cbn [flood_set fl_subnet_threshold fl_window fl_subnet_counters fl_ip_counters fl_ip_threshold] in *.
  destruct (swept_bump (fl_window d) (fl_subnet_threshold d) (ip_to_subnet (ev_source_ip event)) (ev_timestamp event) _ _ Hn) as [Es Hs].
  destruct (swept_bump (fl_window d) (fl_ip_threshold d) (ev_source_ip event) (ev_timestamp event) _ _ Hi) as [Ei Hsi].
  destruct (keyed_bump _ (fl_subnet_threshold d) _ _ (fl_subnet_counters d)) as [m hit].
  destruct (keyed_bump _ (fl_subnet_threshold d) _ _ (fl_subnet_counters r)) as [m' hit'].
  destruct (keyed_bump _ (fl_ip_threshold d) _ _ (fl_ip_counters d)) as [mi hi] eqn:Edi.
  destruct (keyed_bump _ (fl_ip_threshold d) _ _ (fl_ip_counters r)) as [mi' hi'] eqn:Eri.
  simpl in Es, Ei, Hs, Hsi. subst hit' hi'.
  destruct (0 <? fl_subnet_threshold d); [destruct hit as [n|]|];
    cbn [flood_set fl_subnet_threshold fl_window fl_subnet_counters fl_ip_counters fl_ip_threshold fst snd];
    [by split_and!| |]; (destruct (0 <? fl_ip_threshold d); [|by split_and!]); rewrite ?Edi, ?Eri; destruct hi; by split_and!.
Qed.

(** Forgetting idle counters is invisible: on events in time order, the flood
    detector, which sweeps its maps every 8192 requests to bound its memory,
    emits exactly the signals of the detector that keeps every counter for
    ever. *)
Theorem flood_sweep_transparent (d : HttpFloodDetector) (es : list NormalizedEvent)
  (Hw : 0 <= fl_window d) (Hrange : duration_from_std (fl_window d * 4) <> None)
  (Hs : StronglySorted Z.le (ev_timestamp <$> es)) :
  outputs process_flood d es = outputs process_unswept d es.
Proof.
  destruct es as [|e es]; [done|]. apply (outputs_sim _ _ flood_sim) with (now := ev_timestamp e); [| | |done].
  - clear. intros now e d r Hsim Hle. unfold process_flood, process_unswept.
    assert (Hc : flood_counts r e = flood_counts d e) by by destruct Hsim as (-> & _).
    rewrite Hc. destruct (flood_counts d e).
    + apply flood_sim_count. by eapply flood_sim_sweep.
    + split; [done|]. destruct Hsim as (? & ? & ? & Hi & Hn). split_and!; [done..| |]; by eapply swept_later.
  - split_and!; [by destruct d|done|done|apply swept_refl|apply swept_refl].
  - constructor; [lia|]. by apply in_order.
Qed.

(** ** Login attempts: what a signal rests on *)
(** The attempts of a history, and those of one source or subnet. *)
Definition attempts (d0 : HttpLoginBruteforceDetector) (es : list NormalizedEvent) : list (DateTime * IpAddr) :=
  omap (fun e => (fun _ => (ev_timestamp e, ev_source_ip e)) <$> login_attempt (lg_paths d0) e) es.
Definition from_ip (ip : IpAddr) (l : list (DateTime * IpAddr)) : list DateTime :=
  (List.filter (fun x => bool_decide (x.2 = ip)) l).*1.
Definition from_subnet (d0 : HttpLoginBruteforceDetector) (n : IpNet) (l : list (DateTime * IpAddr)) : list (DateTime * IpAddr) :=
  List.filter (fun x => bool_decide (subnet_of x.2 (lg_subnet_v4_prefix d0) (lg_subnet_v6_prefix d0) = Some n)) l.

Definition login_cap (d0 : HttpLoginBruteforceDetector) : nat := (Z.to_nat (lg_subnet_threshold d0) * 4 + 64)%nat.

(** What the state holds: part of the attempts, each under its own key, and a
    bounded number per subnet. *)
Definition login_inv (d0 : HttpLoginBruteforceDetector) (l : list (DateTime * IpAddr)) (d : HttpLoginBruteforceDetector) : Prop :=
  d = login_set (lg_hits d) (lg_subnet_hits d) (lg_events d) d0 /\
  (forall ip q, lg_hits d !! ip = Some q -> q `sublist_of` from_ip ip l) /\
  (forall n q, lg_subnet_hits d !! n = Some q -> q `sublist_of` from_subnet d0 n l /\ (length q <= login_cap d0)%nat).

Lemma prune_capped_spec (c : DateTime) (cap : nat) (q : list (DateTime * IpAddr)) :
  prune_capped c cap q `suffix_of` q /\ (length (prune_capped c cap q) <= cap)%nat /\
  (StronglySorted Z.le q.*1 -> Forall (fun x => c <= x.1) (prune_capped c cap q)).
Proof.
  induction q as [|x q (IHs & IHl & IHf)]; cbn [prune_capped]; [split_and!; [done|simpl; lia|done]|].
  destruct ((x.1 <? c) || (cap <? length (x :: q))%nat) eqn:E.
  - split_and!; [by apply suffix_cons_r|done|]. intros Hs. apply IHf. by inversion Hs.
  - apply orb_false_iff in E as [Ec El]. apply Nat.ltb_ge in El. breflect. split_and!; [done|done|].
    intros Hs. inversion Hs as [|? ? _ Hle]; subst. constructor; [done|].
    apply (proj1 (Forall_fmap fst (Z.le x.1) q)) in Hle. eapply Forall_impl; [exact Hle|].
    intros t Ht. simpl in *. lia.
Qed.

Lemma login_inv_sweep (d0 d : HttpLoginBruteforceDetector) (l : list (DateTime * IpAddr)) (now : DateTime) :
  login_inv d0 l d -> login_inv d0 l (login_maybe_sweep now d).
Proof.
  intros (Hd & Hi & Hn). unfold login_maybe_sweep. case_match.
  - split_and!; simpl; [by rewrite Hd| |].
    + intros ip q [Hq _]%map_lookup_filter_Some. by apply Hi.
    + intros n q [Hq _]%map_lookup_filter_Some. by apply Hn.
  - split_and!; simpl; [by rewrite Hd|done|done].
Qed.

Lemma login_inv_grow (d0 d : HttpLoginBruteforceDetector) (l : list (DateTime * IpAddr)) (x : DateTime * IpAddr) :
  login_inv d0 l d -> login_inv d0 (l ++ [x]) d.
Proof.
  intros (Hd & Hi & Hn). unfold from_ip, from_subnet in *. split_and!; [done| |].
  - intros ip q Hq. unfold from_ip. rewrite List.filter_app, fmap_app. apply sublist_inserts_r. by apply Hi.
  - intros n q Hq. destruct (Hn n q Hq) as [Hsub Hl]. split; [|done]. unfold from_subnet. rewrite List.filter_app.
    by apply sublist_inserts_r.
Qed.

Lemma sublist_fst {B} (q l : list (Z * B)) : q `sublist_of` l -> StronglySorted Z.le l.*1 -> StronglySorted Z.le q.*1.
Proof. intros Hq. apply sublist_sorted. induction Hq; simpl; by constructor. Qed.

Lemma filter_sublist {A} (f : A -> bool) (l : list A) : List.filter f l `sublist_of` l.
Proof. induction l as [|x l IH]; simpl; [done|]. destruct (f x); by constructor. Qed.

(** The entries a subnet signal rests on. *)
Definition subnet_evidence (d0 : HttpLoginBruteforceDetector) (n : IpNet) (now : DateTime) (l : list (DateTime * IpAddr)) : Prop :=
  exists q, q `sublist_of` from_subnet d0 n l /\ lg_subnet_threshold d0 <= Z.of_nat (length q) /\
    (lg_subnet_min_distinct_ips d0 <= distinct_ips q)%nat /\
    (StronglySorted Z.le l.*1 -> Forall (fun x => cutoff (lg_window d0) now <= x.1) q).

Lemma subnet_check_ok (d0 d : HttpLoginBruteforceDetector) (l : list (DateTime * IpAddr)) (ip : IpAddr) (now : DateTime)
    (path : bytes) : login_inv d0 l d ->
  let l' := l ++ [(now, ip)] in
  login_inv d0 l' (subnet_check ip now path d).1 /\ lg_hits (subnet_check ip now path d).1 = lg_hits d /\
  forall s, (subnet_check ip now path d).2 = Some s ->
    subnet_of ip (lg_subnet_v4_prefix d0) (lg_subnet_v6_prefix d0) = Some (sig_source_ip s) /\
    subnet_evidence d0 (sig_source_ip s) now l'.
Proof.
  intros Hinv l'. pose proof (login_inv_grow _ _ _ (now, ip) Hinv) as Hg. destruct Hinv as (Hd & Hi & Hn).
  unfold subnet_check. rewrite Hd. cbn [login_set lg_subnet_threshold lg_subnet_v4_prefix lg_subnet_v6_prefix lg_window
    lg_subnet_hits lg_subnet_min_distinct_ips lg_hits lg_events lg_ban_duration]. rewrite <- Hd.
  destruct (lg_subnet_threshold d0 =? 0); [done|]. destruct (subnet_of _ _ _) as [n|] eqn:En; [|done].
  destruct (prune_capped_spec (cutoff (lg_window d0) now) (login_cap d0) (default [] (lg_subnet_hits d !! n) ++ [(now, ip)]))
    as (Hsuf & Hlen & Hwin). fold (login_cap d0). set (q := prune_capped _ _ _) in *.
  assert (Hq : default [] (lg_subnet_hits d !! n) ++ [(now, ip)] `sublist_of` from_subnet d0 n l').
  { unfold from_subnet, l'. rewrite List.filter_app. apply sublist_app.
    - destruct (lg_subnet_hits d !! n) as [q0|] eqn:E0; simpl; [|apply sublist_nil_l]. by apply Hn.
    - simpl. rewrite En, bool_decide_eq_true_2 by done. done. }
  assert (Hqs : q `sublist_of` from_subnet d0 n l') by (etransitivity; [by apply suffix_sublist|done]).
  assert (Hst : forall q', q' `sublist_of` from_subnet d0 n l' -> (length q' <= login_cap d0)%nat ->
    login_inv d0 l' (login_set (lg_hits d) (<[n := q']> (lg_subnet_hits d)) (lg_events d) d)).
  { intros q' Hs' Hl'. destruct Hg as (_ & Hgi & Hgn). split_and!; simpl; [by rewrite Hd|done|].
    intros m p'. rewrite lookup_insert. case_decide; [by intros [= <-]; subst|apply Hgn]. }
  destruct (Nat.ltb_spec (length q) (Z.to_nat (lg_subnet_threshold d0))); [split_and!; [by apply Hst|done|done]|].
  destruct (Nat.ltb_spec (distinct_ips q) (lg_subnet_min_distinct_ips d0)); [split_and!; [by apply Hst|done|done]|].
  cbn [fst snd]. split_and!; [apply Hst; [apply sublist_nil_l|simpl; lia]|done|]. intros s [= <-]. split; [done|].
  exists q. split_and!; [done|lia|done|]. intros Hs. apply Hwin. eapply sublist_fst; [|exact Hs].
  etransitivity; [exact Hq|apply filter_sublist].
Qed.

Lemma count_login_ok (d0 d : HttpLoginBruteforceDetector) (l : list (DateTime * IpAddr)) (e : NormalizedEvent) (path : bytes) :
  login_inv d0 l d ->
  let l' := l ++ [(ev_timestamp e, ev_source_ip e)] in
  login_inv d0 l' (count_login path e d).1 /\
  forall s, (count_login path e d).2 = Some s -> StronglySorted Z.le l'.*1 ->
    subnet_of (ev_source_ip e) (lg_subnet_v4_prefix d0) (lg_subnet_v6_prefix d0) = Some (sig_source_ip s) /\
      subnet_evidence d0 (sig_source_ip s) (ev_timestamp e) l' \/
    sig_source_ip s = ip_to_net (ev_source_ip e) /\
      exists q, q `sublist_of` from_ip (ev_source_ip e) l' /\ lg_threshold d0 <= Z.of_nat (length q) /\
        Forall (fun t => cutoff (lg_window d0) (ev_timestamp e) <= t) q.
Proof.
  intros Hinv l'. destruct (subnet_check_ok d0 d l (ev_source_ip e) (ev_timestamp e) path Hinv) as (Hg & Hh & Hs).
  unfold count_login. destruct (subnet_check _ _ _ _) as [d1 [s1|]]; simpl in *.
  { split; [done|]. intros s [= <-] _. left. by apply Hs. }
  destruct Hg as (Hd & Hi & Hn). set (q := prune_window _ _ _).
  assert (Hq : default [] (lg_hits d1 !! ev_source_ip e) ++ [ev_timestamp e] `sublist_of` from_ip (ev_source_ip e) l').
  { unfold from_ip, l'. rewrite List.filter_app, fmap_app. apply sublist_app; [|simpl; by rewrite bool_decide_eq_true_2].
    destruct Hinv as (_ & Hi0 & _). rewrite Hh. destruct (lg_hits d !! ev_source_ip e) as [q0|] eqn:E0; [by apply Hi0|apply sublist_nil_l]. }
  assert (Hqs : q `sublist_of` from_ip (ev_source_ip e) l').
  { etransitivity; [|exact Hq]. apply suffix_sublist, drop_while_suffix. }
  assert (Hst : login_inv d0 l' (login_set (<[ev_source_ip e := q]> (lg_hits d1)) (lg_subnet_hits d1) (lg_events d1) d1)).
  { split_and!; simpl; [by rewrite Hd| |done]. intros ip p. rewrite lookup_insert. case_decide; [by intros [= <-]; subst|apply Hi]. }
  destruct (Z.ltb_spec (wrap 32 (Z.of_nat (length q))) (lg_threshold d1)) as [|Hle]; (split; [exact Hst|]); [done|].
  intros s [= <-] Hsort. right. split; [done|]. assert (Ht : lg_threshold d1 = lg_threshold d0) by by rewrite Hd.
  assert (Hwd : lg_window d1 = lg_window d0) by by rewrite Hd. exists q. split_and!; [done| |].
  - rewrite <- Ht. etransitivity; [exact Hle|]. apply Z.mod_le; lia.
  - rewrite <- Hwd. apply drop_while_sorted. eapply sublist_sorted; [exact Hq|]. eapply sublist_sorted; [|exact Hsort].
    unfold from_ip. pose proof (filter_sublist (fun x : DateTime * IpAddr => bool_decide (x.2 = ev_source_ip e)) l') as Hf.
    clear -Hf. induction Hf; simpl; by constructor.
Qed.

Lemma process_login_ok (d0 d : HttpLoginBruteforceDetector) (es : list NormalizedEvent) (e : NormalizedEvent) :
  login_inv d0 (attempts d0 es) d -> login_inv d0 (attempts d0 (es ++ [e])) (process_login e d).1 /\
  forall s, (process_login e d).2 = Some s -> StronglySorted Z.le (attempts d0 (es ++ [e])).*1 ->
    subnet_of (ev_source_ip e) (lg_subnet_v4_prefix d0) (lg_subnet_v6_prefix d0) = Some (sig_source_ip s) /\
      subnet_evidence d0 (sig_source_ip s) (ev_timestamp e) (attempts d0 (es ++ [e])) \/
    sig_source_ip s = ip_to_net (ev_source_ip e) /\
      exists q, q `sublist_of` from_ip (ev_source_ip e) (attempts d0 (es ++ [e])) /\
        lg_threshold d0 <= Z.of_nat (length q) /\ Forall (fun t => cutoff (lg_window d0) (ev_timestamp e) <= t) q.
Proof.
  intros Hinv. assert (Hp : lg_paths d = lg_paths d0) by by destruct Hinv as (-> & _).
  unfold process_login, attempts in *. rewrite Hp, omap_app. simpl.
  destruct (login_attempt (lg_paths d0) e) as [path|]; simpl.
  - by apply count_login_ok, login_inv_sweep.
  - by rewrite app_nil_r.
Qed.

(** A login signal is never raised without cause, and a subnet never for one
    noisy host: with events in time order, a signal for a single address rests
    on [threshold] login attempts of that address within the window; a signal
    for a subnet names the subnet of the event's source and rests on
    [subnet_threshold] attempts within the window by at least
    [subnet_min_distinct_ips] different members of it. *)
Theorem login_signal_sound (d0 : HttpLoginBruteforceDetector) (es : list NormalizedEvent) (e : NormalizedEvent) (s : DetectionSignal)
  (Hnew : lg_hits d0 = ∅ /\ lg_subnet_hits d0 = ∅)
  (Hs : (process_login e (run_events process_login d0 es)).2 = Some s)
  (Hsorted : StronglySorted Z.le (attempts d0 (es ++ [e])).*1) :
  subnet_of (ev_source_ip e) (lg_subnet_v4_prefix d0) (lg_subnet_v6_prefix d0) = Some (sig_source_ip s) /\
    (exists q, q `sublist_of` from_subnet d0 (sig_source_ip s) (attempts d0 (es ++ [e])) /\
       lg_subnet_threshold d0 <= Z.of_nat (length q) /\ (lg_subnet_min_distinct_ips d0 <= distinct_ips q)%nat /\
       Forall (fun x => cutoff (lg_window d0) (ev_timestamp e) <= x.1) q) \/
  sig_source_ip s = ip_to_net (ev_source_ip e) /\
    exists q, q `sublist_of` from_ip (ev_source_ip e) (attempts d0 (es ++ [e])) /\
      lg_threshold d0 <= Z.of_nat (length q) /\ Forall (fun t => cutoff (lg_window d0) (ev_timestamp e) <= t) q.
Proof.
  assert (Hinv : login_inv d0 (attempts d0 es) (run_events process_login d0 es)).
  { clear Hs Hsorted. induction es as [|x es IH] using rev_ind.
    - destruct Hnew as [Hh Hn]. split_and!; [by destruct d0|simpl; rewrite Hh; by intros ? ? ?%lookup_empty_Some|].
      simpl. rewrite Hn. by intros ? ? ?%lookup_empty_Some.
    - unfold run_events. rewrite foldl_app. by apply process_login_ok. }
  destruct (proj2 (process_login_ok d0 _ es e Hinv) s Hs Hsorted) as [(Hn & q & Hq & Hl & Hd & Hw)|Hip]; [left|by right].
  split; [done|]. exists q. split_and!; auto.
Qed.
End facts.

(** ** Witnesses *)
Module HttpRateSample.
#[local] Existing Instances ipnet_ref ipnet_ref_laws.
#[local] Instance flat_hash : Blake3 := fun _ => replicate 32 0.

Definition post (host t : Z) : NormalizedEvent :=
  {| ev_timestamp := secs t; ev_source_ip := IpV4 (2 ^ 24 + host); ev_event_type := Http4xx; ev_source_name := "nginx";
     ev_raw_line := ""; ev_metadata := {["method"%string := "post"%string; "path"%string := "/wp-login.php?x=1"%string]} |}.

(** Two members of one /24: the third attempt completes the subnet. *)
Definition login_det : HttpLoginBruteforceDetector :=
  login_with_subnet_aggregation 24 0 3 2 (login_with_config default_login_paths 5 (secs 60) (secs 600)).

Lemma login_signal_sound_witness :
  exists s, (process_login (post 2 30) (run_events process_login login_det [post 1 10; post 1 20])).2 = Some s /\
    (sig_source_ip s = NetV4 (2 ^ 24) 24) /\
    (subnet_of (IpV4 (2 ^ 24 + 2)) 24 0 = Some (sig_source_ip s) \/ sig_source_ip s = ip_to_net (IpV4 (2 ^ 24 + 2))).
Proof.
  destruct (process_login (post 2 30) (run_events process_login login_det [post 1 10; post 1 20])).2 as [s|] eqn:E;
    [|exfalso; vm_compute in E; discriminate].
  exists s. split_and!; [done|vm_compute in E; by injection E as <-|].
  destruct (login_signal_sound login_det [post 1 10; post 1 20] (post 2 30) s) as [[Hn _]|[Hn _]].
  - split; reflexivity.
  - exact E.
  - apply (bool_decide_unpack _). by vm_compute.
  - left. exact Hn.
  - right. exact Hn.
Defined.

(** A detector about to sweep, with a counter that is long out of date. *)
Definition flood_det : HttpFloodDetector :=
  flood_set {[IpV4 5 := {| window_start := 0; wc_count := 7 |}]} ∅ 8191
    (flood_with_config (secs 10) 1 0 (secs 600) []).

Lemma flood_sweep_transparent_witness :
  outputs process_flood flood_det [post 5 100; post 5 120] = outputs process_unswept flood_det [post 5 100; post 5 120] /\
  Forall (fun o => o <> None) (outputs process_flood flood_det [post 5 100; post 5 120]).
Proof.
  split.
  - apply flood_sweep_transparent.
    + vm_compute. discriminate.
    + vm_compute. discriminate.
    + apply (bool_decide_unpack _). by vm_compute.
  - vm_compute. repeat constructor; discriminate.
Defined.
End HttpRateSample.
