(* ===== verification/Probes.v ===== *)
(** * Detectors of suspicious requests ([detectors/honeypot.rs], [path_probe.rs], [scanner_fingerprint.rs])

    One request is enough: honeypot paths, probed paths and query payloads (also
    percent-encoded, once or twice), scanner user agents. *)
From S2P Require Import Prelude Text Models Floats Detector.
From stdpp Require Import pretty.
Local Open Scope Z_scope.

Section detectors.
Context `{IpNetOps} `{Blake3} `{UnicodeLower}.

(** ** Honeypot paths *)
Record HoneypotDetector : Type := { hp_paths : list bytes; hp_ban_duration : option Duration; hp_severity : Z }.

Definition honeypot_with_paths (paths : list bytes) : HoneypotDetector :=
  {| hp_paths := paths; hp_ban_duration := None; hp_severity := 250 |}.
Definition honeypot_new : HoneypotDetector :=
  honeypot_with_paths (as_bytes <$> ["/.git/config"; "/.aws/credentials"; "/backup.sql"; "/debug/vars";
                                     "/server-status"; "/actuator/env"]%string).
Definition honeypot_with_config (paths : list bytes) (ban : option Duration) (severity : Z) : HoneypotDetector :=
  {| hp_paths := paths; hp_ban_duration := ban; hp_severity := Z.max severity 250 |}.

Definition process_honeypot (event : NormalizedEvent) (d : HoneypotDetector) : HoneypotDetector * option DetectionSignal :=
  match ev_event_type event with
  | HttpRequest | Http4xx =>
      match meta event "path" with
      | None => (d, None)
      | Some path =>
          match List.find (fun h => starts_with h path) (hp_paths d) with
          | Some honeypot =>
              let evidence := (ip_to_string (ev_source_ip event) +:+ ":honeypot:" +:+ of_bytes path)%string in
              (d, Some {| sig_source_ip := ip_to_net (ev_source_ip event); sig_severity := hp_severity d;
                 sig_confidence := f32_lit 1 1;
                 sig_reason := ("Honeypot path accessed: " +:+ of_bytes honeypot)%string;
                 sig_evidence_hash := blake3 (as_bytes evidence); sig_suggested_action := Escalate;
                 sig_detector_name := "honeypot"; sig_timestamp := ev_timestamp event |})
          | None => (d, None)
          end
      end
  | _ => (d, None)
  end.

(** ** Probed paths *)
Definition default_probe_paths : list bytes :=
  as_bytes <$> ["/wp-login.php"; "/xmlrpc.php"; "/.env"; "/phpmyadmin"; "/wp-admin"]%string.
Definition default_segment_paths : list bytes :=
  as_bytes <$> ["/.git"; "/.svn"; "/.hg"; "/.env"; "/.aws"; "/.ssh"; "/.DS_Store"; "/.htpasswd"; "/vendor/phpunit"]%string.
Definition default_query_patterns : list bytes :=
  as_bytes <$> ["pearcmd"; "peclcmd"; "allow_url_include"; "auto_prepend_file"; "/etc/passwd"; "/proc/self/environ";
                "win.ini"; "..%2f"; "php://filter"; "php://input"; "jndi:"]%string.
Definition default_exact_paths : list bytes := as_bytes <$> ["/mcp"; "/api/mcp"; "/v1/models"]%string.

(** [char::to_digit(16)] of a byte. *)
Definition hex_value (b : Z) : option Z :=
  if is_ascii_digit b then Some (b - 48)
  else if in_range 97 102 b then Some (b - 87)
  else if in_range 65 70 b then Some (b - 55)
  else None.

(** The escapes decoded, invalid ones kept. *)
Fixpoint decode_escapes (s : bytes) : bytes :=
  match s with
  | [] => []
  | 37 :: ((a :: b :: rest) as tail) =>
      match hex_value a, hex_value b with
      | Some h, Some l => (h * 16 + l) :: decode_escapes rest
      | _, _ => 37 :: decode_escapes tail
      end
  | c :: rest => c :: decode_escapes rest
  end.
Definition percent_decode (s : bytes) : bytes := from_utf8_lossy (decode_escapes s).

Record PathProbeDetector : Type := {
  pp_paths : list bytes; pp_segment_paths : list bytes; pp_query_patterns : list bytes; pp_exact_paths : list bytes;
  pp_ban_duration : Duration; pp_ipv6_prefix : Z;
}.

Definition probe_with_config (paths : list bytes) (ban : Duration) : PathProbeDetector :=
  {| pp_paths := paths; pp_segment_paths := []; pp_query_patterns := []; pp_exact_paths := [];
     pp_ban_duration := ban; pp_ipv6_prefix := 128 |}.

Definition clean_patterns (v : list bytes) : list bytes :=
  List.filter (fun p => negb (bool_decide (p = []))) ((fun p => to_ascii_lowercase (trim p)) <$> v).

(** The path without its trailing slashes, but never empty. *)
Definition without_slashes (p : bytes) : bytes :=
  match trim_end_matches 47 p with [] => [47] | t => t end.

Definition with_extended_matching (segments queries exacts : list bytes) (d : PathProbeDetector) : PathProbeDetector :=
  {| pp_paths := pp_paths d; pp_segment_paths := clean_patterns segments; pp_query_patterns := clean_patterns queries;
     pp_exact_paths := without_slashes <$> clean_patterns exacts; pp_ban_duration := pp_ban_duration d;
     pp_ipv6_prefix := pp_ipv6_prefix d |}.
Definition probe_with_ipv6_prefix (prefix : Z) (d : PathProbeDetector) : PathProbeDetector :=
  {| pp_paths := pp_paths d; pp_segment_paths := pp_segment_paths d; pp_query_patterns := pp_query_patterns d;
     pp_exact_paths := pp_exact_paths d; pp_ban_duration := pp_ban_duration d; pp_ipv6_prefix := prefix |}.
Definition probe_new : PathProbeDetector :=
  with_extended_matching default_segment_paths default_query_patterns default_exact_paths
    (probe_with_config default_probe_paths (secs 259200)).

(** A match at [start]: it begins a segment and ends at a boundary. *)
Definition starts_segment (pat path : bytes) (start : nat) : bool :=
  (byte_at 0 pat =? 47) || (start =? 0)%nat || (byte_at (start - 1) path =? 47).
Definition ends_segment (pat path : bytes) (start : nat) : bool :=
  let end_ := (start + length pat)%nat in
  ends_with [47] pat || (end_ =? length path)%nat ||
  existsb (Z.eqb (byte_at end_ path)) [47; 46; 45; 95; 126].

(** The search resumes one character after the start of a rejected match. *)
Fixpoint segment_loop (fuel : nat) (pat path : bytes) (from : nat) : bool :=
  match fuel with
  | O => false
  | S fuel' =>
      match str_find pat (drop from path) with
      | None => false
      | Some pos =>
          let start := (from + pos)%nat in
          if starts_segment pat path start && ends_segment pat path start then true
          else
            let from := (start + match pat with [] => 1 | b :: _ => char_width b end)%nat in
            if (length path <=? from)%nat then false else segment_loop fuel' pat path from
      end
  end.

Definition segment_match (patterns : list bytes) (path : bytes) : option bytes :=
  List.find (fun pat => segment_loop (S (length path)) pat path 0) patterns.

(** Everything after the first matching kind is skipped. *)
Definition match_target (d : PathProbeDetector) (target : bytes) : option (string * bytes) :=
  match List.find (fun p => starts_with p target) (pp_paths d) with
  | Some p => Some ("path"%string, p)
  | None =>
      let '(path, query) := match split_once 63 target with Some (p, q) => (p, q) | None => (target, []) end in
      let path_lc := to_ascii_lowercase (before (Z.eqb 35) path) in
      match List.find (fun e => bool_decide (e = without_slashes path_lc)) (pp_exact_paths d) with
      | Some e => Some ("exact path"%string, e)
      | None =>
          let segment :=
            match segment_match (pp_segment_paths d) path_lc with
            | Some m => Some m
            | None =>
                if contains [37] path_lc
                then segment_match (pp_segment_paths d) (to_ascii_lowercase (percent_decode path_lc)) else None
            end in
          match segment with
          | Some m => Some ("path segment"%string, m)
          | None =>
              if bool_decide (query = []) then None
              else
                let raw := to_ascii_lowercase query in
                let once := to_ascii_lowercase (percent_decode raw) in
                let twice := to_ascii_lowercase (percent_decode once) in
                (fun pat => ("query pattern"%string, pat)) <$>
                  List.find (fun pat => contains pat raw || contains pat once || contains pat twice) (pp_query_patterns d)
          end
      end
  end.

Definition process_probe (event : NormalizedEvent) (d : PathProbeDetector) : PathProbeDetector * option DetectionSignal :=
  if negb (is_http (ev_event_type event)) then (d, None)
  else
    match meta event "path" ≫= match_target d with
    | None => (d, None)
    | Some (kind, matched) =>
        let ip := ev_source_ip event in
        let reason :=
          if decide (kind = "path"%string)
          then ("Path probe: request to suspicious path '" +:+ of_bytes matched +:+ "' from " +:+ ip_to_string ip)%string
          else ("Path probe: " +:+ kind +:+ " '" +:+ of_bytes matched +:+ "' matched in request from " +:+ ip_to_string ip)%string in
        (d, Some {| sig_source_ip := source_key ip (pp_ipv6_prefix d); sig_severity := 200; sig_confidence := f32_lit 95 100;
           sig_reason := reason;
           sig_evidence_hash := blake3 (as_bytes (ip_to_string ip +:+ ":path_probe:" +:+ of_bytes matched)%string);
           sig_suggested_action := Ban (pp_ban_duration d); sig_detector_name := "path_probe";
           sig_timestamp := ev_timestamp event |})
    end.

(** ** Scanner user agents *)
Definition default_scanner_signatures : list bytes :=
  as_bytes <$> ["nikto"; "sqlmap"; "nuclei"; "nessus"; "openvas"; "w3af"; "skipfish"; "wpscan"; "dirbuster"; "gobuster";
                "masscan"; "zgrab"; "wp2shell"; "cve-20"; "l9scan"; "l9explore"; "infrawatch"; "pbx-scanner";
                "censysinspect"; "odin-scanner"; "modatscanner"; "jndi:"; "/etc/passwd"; "win.ini"; "boot.ini"; "() {";
                "sleep("; "<script"]%string.

Record ScannerFingerprintDetector : Type := {
  sf_scanners : list bytes; sf_scanners_lc : list bytes; sf_ban_duration : Duration; sf_ipv6_prefix : Z;
}.

(** Blank signatures would match every user agent. *)
Definition scanner_with_config (scanners : list bytes) (ban : Duration) : ScannerFingerprintDetector :=
  let scanners := List.filter (fun s => negb (bool_decide (trim s = []))) scanners in
  {| sf_scanners := scanners; sf_scanners_lc := str_to_lowercase <$> scanners; sf_ban_duration := ban;
     sf_ipv6_prefix := DEFAULT_IPV6_PREFIX |}.
Definition scanner_new : ScannerFingerprintDetector := scanner_with_config default_scanner_signatures (secs 259200).
Definition scanner_with_ipv6_prefix (prefix : Z) (d : ScannerFingerprintDetector) : ScannerFingerprintDetector :=
  {| sf_scanners := sf_scanners d; sf_scanners_lc := sf_scanners_lc d; sf_ban_duration := sf_ban_duration d;
     sf_ipv6_prefix := prefix |}.

(** [position], then the signature as configured. *)
Definition matches_scanner (d : ScannerFingerprintDetector) (user_agent : bytes) : option bytes :=
  let ua_lower := str_to_lowercase user_agent in
  '(i, _) ← list_find (fun sig => contains sig ua_lower = true) (sf_scanners_lc d); sf_scanners d !! i.

Definition process_scanner (event : NormalizedEvent) (d : ScannerFingerprintDetector)
    : ScannerFingerprintDetector * option DetectionSignal :=
  if negb (is_http (ev_event_type event)) then (d, None)
  else
    match meta event "user_agent" with
    | None => (d, None)
    | Some user_agent =>
        match matches_scanner d user_agent with
        | None => (d, None)
        | Some matched =>
            let ip := ev_source_ip event in
            (d, Some {| sig_source_ip := source_key ip (sf_ipv6_prefix d); sig_severity := 200;
               sig_confidence := f32_lit 85 100;
               sig_reason := ("Scanner fingerprint: user-agent matches '" +:+ of_bytes matched +:+ "' from " +:+ ip_to_string ip)%string;
               sig_evidence_hash := blake3 (as_bytes (ip_to_string ip +:+ ":scanner_fingerprint:" +:+ of_bytes user_agent)%string);
               sig_suggested_action := Ban (sf_ban_duration d); sig_detector_name := "scanner_fingerprint";
               sig_timestamp := ev_timestamp event |})
        end
    end.

#[export] Instance honeypot_detector : Detector HoneypotDetector := multi_of_process process_honeypot.
#[export] Instance probe_detector : Detector PathProbeDetector := multi_of_process process_probe.
#[export] Instance scanner_detector : Detector ScannerFingerprintDetector := multi_of_process process_scanner.
End detectors.

(** ** Well-formed signals *)
Section wf.
Context `{IpNetOps} {laws : IpNetLaws} `{Blake3} {hash : Blake3Laws} `{UnicodeLower}.

Lemma process_honeypot_wf (event : NormalizedEvent) (d : HoneypotDetector) (s : DetectionSignal) :
  wf_ip (ev_source_ip event) -> 250 <= hp_severity d < 256 -> (process_honeypot event d).2 = Some s -> wf_signal s.
Proof using hash.
  intros Hip Hsev. unfold process_honeypot.
  assert (Hd : forall x, (d, None).2 = Some x -> wf_signal x) by done.
  destruct (ev_event_type event); try apply Hd; (destruct (meta event "path") as [p|]; [|apply Hd]);
    (destruct (List.find _ _) as [h|]; [|apply Hd]); intros [= <-];
    (split_and!; [by apply ip_to_net_wf|simpl; unfold in_width; lia|done|apply blake3_length]).
Qed.

Lemma process_probe_wf (event : NormalizedEvent) (d : PathProbeDetector) (s : DetectionSignal) :
  wf_ip (ev_source_ip event) -> (process_probe event d).2 = Some s -> wf_signal s.
Proof using laws hash.
  intros Hip. unfold process_probe. destruct (negb _); [done|]. destruct (_ ≫= _) as [[k m]|]; [|done].
  intros [= <-]. split_and!; [by apply source_key_wf|done|done|apply blake3_length].
Qed.

Lemma process_scanner_wf (event : NormalizedEvent) (d : ScannerFingerprintDetector) (s : DetectionSignal) :
  wf_ip (ev_source_ip event) -> (process_scanner event d).2 = Some s -> wf_signal s.
Proof using laws hash.
  intros Hip. unfold process_scanner. destruct (negb _); [done|]. destruct (meta _ _) as [ua|]; [|done].
  destruct (matches_scanner _ _); [|done].
  intros [= <-]. split_and!; [by apply source_key_wf|done|done|apply blake3_length].
Qed.

(** The constructors raise the severity of a honeypot to 250 at least. *)
#[export, refine] Instance honeypot_laws : DetectorLaws HoneypotDetector := {| det_ok d := 250 <= hp_severity d < 256 |}.
Proof using hash.
  intros event d Hip Hd. apply (multi_of_process_ok (fun d => 250 <= hp_severity d < 256) process_honeypot).
  - unfold process_honeypot. repeat case_match; done.
  - intros s. by apply process_honeypot_wf.
Defined.
#[export, refine] Instance probe_laws : DetectorLaws PathProbeDetector := {| det_ok _ := True |}.
Proof using laws hash. intros event d Hip _. apply (multi_of_process_ok (fun _ => True) process_probe); [done|]. intros s. by apply process_probe_wf. Defined.
#[export, refine] Instance scanner_laws : DetectorLaws ScannerFingerprintDetector := {| det_ok _ := True |}.
Proof using laws hash. intros event d Hip _. apply (multi_of_process_ok (fun _ => True) process_scanner); [done|]. intros s. by apply process_scanner_wf. Defined.
End wf.

(** ** Percent-encoding as an attacker writes it

    A text as a sequence of literal and escaped bytes; the case of each hex
    digit is free. *)
Inductive piece : Type :=
| Lit (b : Z)
| Esc (b : Z) (hi_upper lo_upper : bool).

Definition hex_digit (n : Z) (upper : bool) : Z := if n <? 10 then 48 + n else if upper then 55 + n else 87 + n.
Definition render_piece (p : piece) : bytes :=
  match p with Lit b => [b] | Esc b u v => [37; hex_digit (b / 16) u; hex_digit (b mod 16) v] end.
Definition render (ps : list piece) : bytes := ps ≫= render_piece.
Definition piece_byte (p : piece) : Z := match p with Lit b => b | Esc b _ _ => b end.
Definition text_of (ps : list piece) : bytes := piece_byte <$> ps.
Definition wf_piece (p : piece) : Prop :=
  match p with Lit b => in_width 8 b /\ b <> 37 | Esc b _ _ => in_width 8 b end.

Lemma hex_value_digit (n : Z) (u : bool) : 0 <= n < 16 -> hex_value (hex_digit n u) = Some n.
Proof.
  intros Hn. unfold hex_value, hex_digit, is_ascii_digit, in_range.
  destruct (Z.ltb_spec n 10), u; repeat case_match; breflect; try (f_equal; lia); exfalso;
    repeat match goal with H : (_ && _) = false |- _ => apply andb_false_iff in H as [?|?]; breflect end; lia.
Qed.

Lemma decode_lit (b : Z) (s : bytes) : b <> 37 -> decode_escapes (b :: s) = b :: decode_escapes s.
Proof.
  intros Hb. destruct (Z.eqb_spec b 37); [done|]. destruct s as [|x [|y s]]; simpl;
    repeat match goal with |- context [match ?z with _ => _ end] => is_var z; destruct z; try done end.
Qed.

Lemma decode_render (ps : list piece) (rest : bytes) : Forall wf_piece ps ->
  decode_escapes (render ps ++ rest) = text_of ps ++ decode_escapes rest.
Proof.
  induction 1 as [|[b|b u v] ps Hp _ IH]; [done|..]; unfold render in *; rewrite bind_cons, <- app_assoc.
  - destruct Hp as [_ Hb]. cbn [render_piece app]. by rewrite decode_lit, IH.
  - unfold wf_piece, in_width in Hp. simpl. rewrite !hex_value_digit by (split; [apply Z.div_pos || apply Z.mod_pos_bound|apply Z.div_lt_upper_bound || apply Z.mod_pos_bound]; lia).
    rewrite IH. f_equal. pose proof (Z.div_mod b 16). lia.
Qed.

(** Lower-casing an encoded text lower-cases its literals and its digits. *)
Definition lower_piece (p : piece) : piece :=
  match p with Lit b => Lit (lower_byte b) | Esc b _ _ => Esc b false false end.

Lemma lower_hex (n : Z) (u : bool) : 0 <= n < 16 -> lower_byte (hex_digit n u) = hex_digit n false.
Proof.
  intros Hn. unfold lower_byte, hex_digit, is_ascii_upper.
  destruct (Z.ltb_spec n 10), u; repeat case_match; breflect; try lia;
    repeat match goal with H : (_ && _) = false |- _ => apply andb_false_iff in H as [?|?]; breflect end; lia.
Qed.

Lemma lower_byte_range (b : Z) : in_width 8 b -> in_width 8 (lower_byte b) /\ (b <> 37 -> lower_byte b <> 37).
Proof. unfold lower_byte, is_ascii_upper, in_width. intros Hb. case_match; breflect; lia. Qed.

Lemma lower_render (ps : list piece) : Forall wf_piece ps ->
  to_ascii_lowercase (render ps) = render (lower_piece <$> ps) /\ Forall wf_piece (lower_piece <$> ps) /\
  to_ascii_lowercase (text_of (lower_piece <$> ps)) = to_ascii_lowercase (text_of ps).
Proof.
  induction 1 as [|p ps Hp _ (IH1 & IH2 & IH3)]; [done|]. unfold render, text_of, to_ascii_lowercase in *.
  rewrite !fmap_cons, !bind_cons, fmap_app, IH1, IH3. split_and!; [f_equal|constructor; [|done]|f_equal]; destruct p as [b|b u v]; simpl in *; try done.
  - unfold in_width in Hp. rewrite !lower_hex by (split; [apply Z.div_pos || apply Z.mod_pos_bound|apply Z.div_lt_upper_bound || apply Z.mod_pos_bound]; lia). done.
  - destruct Hp as [Hb Hne]. destruct (lower_byte_range b Hb). auto.
  - apply lower_byte_idem.
Qed.

(** The text of one decoding of a lower-cased encoding, in lower case. *)
Lemma decode_once (ps : list piece) : Forall wf_piece ps ->
  to_ascii_lowercase (percent_decode (to_ascii_lowercase (render ps))) = from_utf8_lossy (to_ascii_lowercase (text_of ps)).
Proof.
  intros Hps. destruct (lower_render ps Hps) as (Hr & Hwf & Ht). unfold percent_decode.
  rewrite Hr, <- (app_nil_r (render _)), decode_render by done. simpl. rewrite app_nil_r, <- lossy_lower. by rewrite Ht.
Qed.

(** Levels of encoding: the text itself, encoded once, or encoded twice (the
    inner encoding in ASCII, as a request target is). *)
Inductive encoded (text : bytes) : bytes -> Prop :=
| enc_plain : encoded text text
| enc_once (ps : list piece) : Forall wf_piece ps -> text_of ps = text -> encoded text (render ps)
| enc_twice (ps qs : list piece) : Forall wf_piece ps -> text_of ps = text -> Forall wf_piece qs ->
    text_of qs = render ps -> Forall (fun c => 0 <= c < 128) (render ps) -> encoded text (render qs).

Lemma lower_ascii (s : bytes) : Forall (fun c => 0 <= c < 128) s -> Forall (fun c => 0 <= c < 128) (to_ascii_lowercase s).
Proof.
  intros Hs. apply Forall_fmap. eapply Forall_impl; [exact Hs|]. intros c Hc. simpl in *.
  unfold lower_byte, is_ascii_upper. case_match; breflect; lia.
Qed.

Lemma encoded_found (text query pat : bytes) : Forall (fun c => 0 <= c < 128) pat ->
  encoded text query -> contains pat (to_ascii_lowercase text) = true ->
  let raw := to_ascii_lowercase query in
  let once := to_ascii_lowercase (percent_decode raw) in
  let twice := to_ascii_lowercase (percent_decode once) in
  contains pat raw || contains pat once || contains pat twice = true.
Proof.
  intros Hpat Henc Hc. cbv zeta. destruct Henc as [|ps Hps <-|ps qs Hps <- Hqs Eq Hascii].
  - by rewrite Hc.
  - rewrite decode_once by done. rewrite (lossy_contains pat _ Hpat Hc). by rewrite orb_true_r.
  - assert (Eo : to_ascii_lowercase (percent_decode (to_ascii_lowercase (render qs))) = to_ascii_lowercase (render ps)).
    { rewrite decode_once, Eq by done. by apply from_utf8_lossy_id, ascii_valid, lower_ascii. }
    rewrite Eo, decode_once by done. rewrite (lossy_contains pat _ Hpat Hc). by rewrite !orb_true_r.
Qed.

Lemma find_some_elem {A} (f : A -> bool) (l : list A) (x : A) : x ∈ l -> f x = true -> List.find f l <> None.
Proof. intros Hx Hf E. apply list_elem_of_In in Hx. eapply List.find_none in E; [|exact Hx]. congruence. Qed.

Lemma encoded_nonempty (text query : bytes) : encoded text query -> text <> [] -> query <> [].
Proof.
  intros Henc Ht. destruct Henc as [|ps _ E|ps qs _ E _ Eq _]; [done|..].
  - destruct ps as [|[b|b u v] ps]; [by subst|done|done].
  - destruct qs as [|[b|b u v] qs]; [|done|done]. destruct ps as [|[b|b u v] ps]; [by subst|done|done].
Qed.

Section probe.
Context `{IpNetOps} `{Blake3}.

Lemma match_target_query (d : PathProbeDetector) (path query text pat : bytes) :
  63 ∉ path -> encoded text query -> pat ∈ pp_query_patterns d -> pat <> [] -> Forall (fun c => 0 <= c < 128) pat ->
  contains pat (to_ascii_lowercase text) = true -> match_target d (path ++ 63 :: query) <> None.
Proof.
  intros Hq Henc Hin Hne Hpat Hc. unfold match_target. destruct (List.find _ (pp_paths d)); [done|].
  rewrite (proj2 (split_once_spec 63 (path ++ 63 :: query) path query)) by done.
  destruct (List.find _ (pp_exact_paths d)); [done|]. cbv zeta.
  destruct (match segment_match _ _ with Some _ => _ | None => _ end); [done|].
  rewrite bool_decide_eq_false_2.
  - rewrite fmap_None. eapply find_some_elem; [exact Hin|]. by apply (encoded_found text).
  - apply (encoded_nonempty text); [done|]. intros ->. destruct pat; [done|]. by apply contains_spec in Hc as ([] & ? & ?).
Qed.

(** Encoding does not hide a payload: a request whose query holds one of the
    configured (ASCII) patterns, in any letter case, plain or percent-encoded
    once or twice byte by byte as the attacker likes, makes the path-probe
    detector ask for a ban of its source. *)
Theorem query_payload_detected (d : PathProbeDetector) (event : NormalizedEvent) (path query text pat : bytes)
  (Hhttp : is_http (ev_event_type event) = true) (Htarget : meta event "path" = Some (path ++ 63 :: query))
  (Hpath : 63 ∉ path) (Henc : encoded text query) (Hin : pat ∈ pp_query_patterns d) (Hne : pat <> [])
  (Hascii : Forall (fun c => 0 <= c < 128) pat) (Hc : contains pat (to_ascii_lowercase text) = true) :
  exists s, (process_probe event d).2 = Some s /\ sig_source_ip s = source_key (ev_source_ip event) (pp_ipv6_prefix d) /\
    sig_suggested_action s = Ban (pp_ban_duration d).
Proof.
  unfold process_probe. rewrite Hhttp, Htarget. cbn [negb mbind option_bind].
  pose proof (match_target_query d path query text pat Hpath Henc Hin Hne Hascii Hc) as Hm.
  destruct (match_target d _) as [[k m]|]; [|done]. eexists. split; [reflexivity|]. done.
Qed.
End probe.

(** ** Segments *)
Definition segment_at (pat path : bytes) (i : nat) : Prop :=
  pat `prefix_of` drop i path /\ starts_segment pat path i = true /\ ends_segment pat path i = true.

(** Two occurrences of a valid pattern do not start within one character. *)
Lemma occurrences_apart (pat path : bytes) (b : Z) (start i : nat) :
  valid_utf8 (b :: pat) = true -> b :: pat `prefix_of` drop start path -> b :: pat `prefix_of` drop i path ->
  (start < i)%nat -> (start + char_width b <= i)%nat.
Proof.
  intros Hv [k1 H1] [k2 H2] Hlt. destruct (valid_first_char b pat Hv) as (Hb & Hw & Hcont).
  destruct (decide (start + char_width b <= i)%nat) as [|Hn]; [done|]. exfalso.
  specialize (Hcont (i - start)%nat ltac:(lia)).
  assert (E1 : byte_at (i - start) (b :: pat) = byte_at 0 (drop i path)).
  { rewrite <- (byte_at_app _ (b :: pat) k1) by lia. rewrite <- H1. unfold byte_at. rewrite !lookup_drop. do 2 f_equal. lia. }
  rewrite E1, H2 in Hcont. unfold byte_at in Hcont. simpl in Hcont. congruence.
Qed.

Lemma segment_loop_spec (fuel : nat) (b : Z) (pat path : bytes) (from : nat) :
  valid_utf8 (b :: pat) = true -> (length path - from < fuel)%nat ->
  segment_loop fuel (b :: pat) path from = true <-> exists i, (from <= i)%nat /\ segment_at (b :: pat) path i.
Proof.
  intros Hv. revert from. induction fuel as [|fuel IH]; intros from Hf; [lia|]. cbn [segment_loop].
  destruct (str_find (b :: pat) (drop from path)) as [pos|] eqn:Ef.
  2:{ split; [done|]. intros (i & Hi & (k & Hk) & _). apply str_find_None in Ef. exfalso.
      assert (Hc : contains (b :: pat) (drop from path) = true); [|congruence]. apply contains_spec.
      exists (take (i - from) (drop from path)), k.
      rewrite <- Hk. replace (drop i path) with (drop (i - from) (drop from path)) by (rewrite drop_drop; f_equal; lia).
      by rewrite take_drop. }
  apply str_find_Some in Ef as (Hp & Hpl & Hmin). rewrite drop_drop in Hp. set (start := (from + pos)%nat) in *.
  destruct (starts_segment (b :: pat) path start && ends_segment (b :: pat) path start) eqn:Eb.
  { apply andb_true_iff in Eb as [? ?]. split; [|done]. intros _. exists start. split; [lia|]. by split_and!. }
  assert (Hlater : forall i, (from <= i)%nat -> segment_at (b :: pat) path i ->
    (start + char_width b <= i)%nat /\ (i < length path)%nat).
  { intros i Hi (Hpi & Hs & He). split.
    - eapply occurrences_apart; [done|exact Hp|exact Hpi|]. destruct (Nat.lt_trichotomy i start) as [Hlt|[->|]]; [|by rewrite Hs, He in Eb|done].
      exfalso. apply (Hmin (i - from)%nat ltac:(lia)). rewrite drop_drop. by replace (from + (i - from))%nat with i by lia.
    - apply prefix_length in Hpi. rewrite length_drop in Hpi. simpl in Hpi. lia. }
  destruct (valid_first_char b pat Hv) as (_ & Hw & _).
  destruct (Nat.leb_spec (length path) (start + char_width b)) as [Hend|Hend].
  - split; [done|]. intros (i & Hi & Hs). destruct (Hlater i Hi Hs). lia.
  - rewrite IH by lia. split; intros (i & Hi & Hs); exists i; (split; [|done]); [lia|]. by apply Hlater.
Qed.

(** The segment search finds exactly what it describes: it answers the first
    pattern of the list that occurs in the path with a segment boundary before
    it and an end, slash, dot, dash, underscore or tilde after it, whatever
    occurrences without such boundaries come first; and it answers none when no
    pattern occurs so. *)
Theorem segment_match_exact (patterns : list bytes) (path : bytes)
  (Hpat : Forall (fun p => p <> [] /\ valid_utf8 p = true) patterns) :
  match segment_match patterns path with
  | Some p => exists l1 l2, patterns = l1 ++ p :: l2 /\ (exists i, segment_at p path i) /\
                forall q i, q ∈ l1 -> ~ segment_at q path i
  | None => forall p i, p ∈ patterns -> ~ segment_at p path i
  end.
Proof.
  assert (Hloop : forall p, p <> [] -> valid_utf8 p = true ->
    segment_loop (S (length path)) p path 0 = true <-> exists i, segment_at p path i).
  { intros [|b p] Hne Hv; [done|]. rewrite segment_loop_spec by (done || lia). split.
    - intros (i & _ & Hi). by exists i.
    - intros [i Hi]. exists i. split; [lia|done]. }
  unfold segment_match. induction Hpat as [|p ps [Hne Hv] _ IH]; cbn [List.find]; [by intros p i ?%not_elem_of_nil|].
  destruct (segment_loop (S (length path)) p path 0) eqn:E; cbv iota.
  - apply (Hloop p Hne Hv) in E. exists [], ps. split_and!; [done..|]. by intros q i ?%not_elem_of_nil.
  - assert (Hno : forall i, ~ segment_at p path i).
    { intros i Hi. assert (Ht : segment_loop (S (length path)) p path 0 = true) by (apply Hloop; [done..|]; by exists i). congruence. }
    destruct (List.find _ ps) as [q|].
    + destruct IH as (l1 & l2 & -> & Hex & Hbefore). exists (p :: l1), l2. split_and!; [done..|].
      intros x i [->|Hx]%elem_of_cons; [apply Hno|by apply Hbefore].
    + intros x i [->|Hx]%elem_of_cons; [apply Hno|by apply IH].
Qed.

(** ** Witnesses *)
Module ProbesSample.
#[local] Existing Instances ipnet_ref ipnet_ref_laws.
#[local] Instance flat_hash : Blake3 := fun _ => replicate 32 0.

(** [/EtC/passwd] with its first slash encoded twice: [%252F]. *)
Definition inner : list piece := Esc 47 true true :: (Lit <$> as_bytes "EtC/passwd").
Definition outer : list piece := Esc 37 false true :: (Lit <$> (drop 1 (render inner))).
Definition evasive : NormalizedEvent :=
  {| ev_timestamp := 0; ev_source_ip := IpV4 7; ev_event_type := HttpRequest; ev_source_name := "nginx"; ev_raw_line := "";
     ev_metadata := {["path"%string := "/a.php?%252FEtC/passwd"%string]} |}.

Lemma query_payload_detected_witness :
  render outer = as_bytes "%252FEtC/passwd" /\
  exists s, (process_probe evasive probe_new).2 = Some s /\ sig_source_ip s = source_key (IpV4 7) 128 /\
    sig_suggested_action s = Ban (secs 259200).
Proof.
  split; [by vm_compute|].
  apply (query_payload_detected probe_new evasive (as_bytes "/a.php") (render outer) (text_of inner) (as_bytes "/etc/passwd")).
  - reflexivity.
  - vm_compute. reflexivity.
  - apply (bool_decide_unpack _). by vm_compute.
  - apply (enc_twice _ inner outer); (reflexivity || (repeat constructor; by vm_compute)).
  - apply (bool_decide_unpack _). by vm_compute.
  - discriminate.
  - repeat constructor; by vm_compute.
  - vm_compute. reflexivity.
Defined.

Lemma segment_match_exact_witness :
  segment_match [as_bytes "/.git"] (as_bytes "/.github/.git-x") = Some (as_bytes "/.git") /\
  match segment_match [as_bytes "/.git"] (as_bytes "/.github/.git-x") with
  | Some p => exists l1 l2, [as_bytes "/.git"] = l1 ++ p :: l2 /\ (exists i, segment_at p (as_bytes "/.github/.git-x") i) /\
                forall q i, q ∈ l1 -> ~ segment_at q (as_bytes "/.github/.git-x") i
  | None => forall p i, p ∈ [as_bytes "/.git"] -> ~ segment_at p (as_bytes "/.github/.git-x") i
  end.
Proof.
  split; [by vm_compute|]. apply segment_match_exact. apply Forall_singleton. split; [discriminate|by vm_compute].
Defined.
End ProbesSample.
