(* ===== verification/PortScan.v ===== *)
(** * Port scans ([detectors/port_scan.rs])

    Three tiers over the same events: distinct ports per source in a short
    window, in a long one, and distinct ports per IPv4 subnet. Every tier tracks
    a bounded number of sources. *)
From S2P Require Import Prelude Text Models Floats Windows Detector.
From stdpp Require Import pretty.
Local Open Scope Z_scope.

Definition SCAN_SWEEP_EVERY : Z := 4096.
Definition DEFAULT_LONG_WINDOW_SECS : Z := 6 * 3600.
Definition DEFAULT_LONG_THRESHOLD : nat := 25.
Definition DEFAULT_LONG_BAN_SECS : Z := 7 * 24 * 3600.
Definition DEFAULT_MAX_TRACKED_IPS : N := 50000.
Definition DEFAULT_LONG_SUBNET_THRESHOLD : nat := 40.
Definition DEFAULT_LONG_SUBNET_MIN_IPS : nat := 3.

(** (port, last seen), and (port, source, last seen). *)
Abbreviation access := (gmap IpAddr (list (Z * DateTime))) (only parsing).
Abbreviation subnet_access := (gmap IpNet (list (Z * IpAddr * DateTime))) (only parsing).

Record PortScanDetector : Type := {
  ps_window : Duration; ps_threshold : nat; ps_ban_duration : Duration;
  ps_port_access : access;
  ps_long_window : Duration; ps_long_threshold : nat; ps_long_ban_duration : Duration;
  ps_long_access : access;
  ps_max_tracked_ips : N;
  ps_ipv6_prefix : Z;
  ps_long_subnet_v4_prefix : Z; ps_long_subnet_threshold : nat; ps_long_subnet_min_ips : nat;
  ps_long_subnet_access : subnet_access;
  ps_events : Z;
}.

Definition scan_with_config (window : Duration) (threshold : nat) (ban : Duration) : PortScanDetector :=
  {| ps_window := window; ps_threshold := threshold; ps_ban_duration := ban; ps_port_access := ∅;
     ps_long_window := secs DEFAULT_LONG_WINDOW_SECS; ps_long_threshold := DEFAULT_LONG_THRESHOLD;
     ps_long_ban_duration := secs DEFAULT_LONG_BAN_SECS; ps_long_access := ∅;
     ps_max_tracked_ips := DEFAULT_MAX_TRACKED_IPS; ps_ipv6_prefix := DEFAULT_IPV6_PREFIX;
     ps_long_subnet_v4_prefix := 0; ps_long_subnet_threshold := DEFAULT_LONG_SUBNET_THRESHOLD;
     ps_long_subnet_min_ips := DEFAULT_LONG_SUBNET_MIN_IPS; ps_long_subnet_access := ∅; ps_events := 0 |}.
Definition scan_new : PortScanDetector := scan_with_config (secs 600) 6 (secs (48 * 3600)).

(** The state of the three maps and the counter, replaced. *)
Definition scan_set (short long : access) (subnets : subnet_access) (n : Z) (d : PortScanDetector) : PortScanDetector :=
  {| ps_window := ps_window d; ps_threshold := ps_threshold d; ps_ban_duration := ps_ban_duration d;
     ps_port_access := short; ps_long_window := ps_long_window d; ps_long_threshold := ps_long_threshold d;
     ps_long_ban_duration := ps_long_ban_duration d; ps_long_access := long; ps_max_tracked_ips := ps_max_tracked_ips d;
     ps_ipv6_prefix := ps_ipv6_prefix d; ps_long_subnet_v4_prefix := ps_long_subnet_v4_prefix d;
     ps_long_subnet_threshold := ps_long_subnet_threshold d; ps_long_subnet_min_ips := ps_long_subnet_min_ips d;
     ps_long_subnet_access := subnets; ps_events := n |}.
Definition set_short (m : access) (d : PortScanDetector) := scan_set m (ps_long_access d) (ps_long_subnet_access d) (ps_events d) d.
Definition set_long (m : access) (d : PortScanDetector) := scan_set (ps_port_access d) m (ps_long_subnet_access d) (ps_events d) d.
Definition set_subnets (m : subnet_access) (d : PortScanDetector) := scan_set (ps_port_access d) (ps_long_access d) m (ps_events d) d.

Definition scan_with_ipv6_prefix (prefix : Z) (d : PortScanDetector) : PortScanDetector :=
  {| ps_window := ps_window d; ps_threshold := ps_threshold d; ps_ban_duration := ps_ban_duration d;
     ps_port_access := ps_port_access d; ps_long_window := ps_long_window d; ps_long_threshold := ps_long_threshold d;
     ps_long_ban_duration := ps_long_ban_duration d; ps_long_access := ps_long_access d;
     ps_max_tracked_ips := ps_max_tracked_ips d; ps_ipv6_prefix := prefix;
     ps_long_subnet_v4_prefix := ps_long_subnet_v4_prefix d; ps_long_subnet_threshold := ps_long_subnet_threshold d;
     ps_long_subnet_min_ips := ps_long_subnet_min_ips d; ps_long_subnet_access := ps_long_subnet_access d;
     ps_events := ps_events d |}.
Definition with_long_subnet_tier (v4_prefix : Z) (threshold min_ips : nat) (d : PortScanDetector) : PortScanDetector :=
  {| ps_window := ps_window d; ps_threshold := ps_threshold d; ps_ban_duration := ps_ban_duration d;
     ps_port_access := ps_port_access d; ps_long_window := ps_long_window d; ps_long_threshold := ps_long_threshold d;
     ps_long_ban_duration := ps_long_ban_duration d; ps_long_access := ps_long_access d;
     ps_max_tracked_ips := ps_max_tracked_ips d; ps_ipv6_prefix := ps_ipv6_prefix d;
     ps_long_subnet_v4_prefix := Z.min v4_prefix 32; ps_long_subnet_threshold := threshold;
     ps_long_subnet_min_ips := Nat.max min_ips 1; ps_long_subnet_access := ps_long_subnet_access d;
     ps_events := ps_events d |}.
Definition with_long_tier (window : Duration) (threshold : nat) (ban : Duration) (d : PortScanDetector) : PortScanDetector :=
  {| ps_window := ps_window d; ps_threshold := ps_threshold d; ps_ban_duration := ps_ban_duration d;
     ps_port_access := ps_port_access d; ps_long_window := window; ps_long_threshold := threshold;
     ps_long_ban_duration := ban; ps_long_access := ps_long_access d;
     ps_max_tracked_ips := ps_max_tracked_ips d; ps_ipv6_prefix := ps_ipv6_prefix d;
     ps_long_subnet_v4_prefix := ps_long_subnet_v4_prefix d; ps_long_subnet_threshold := ps_long_subnet_threshold d;
     ps_long_subnet_min_ips := ps_long_subnet_min_ips d; ps_long_subnet_access := ps_long_subnet_access d;
     ps_events := ps_events d |}.
Definition with_max_tracked_ips (max : N) (d : PortScanDetector) : PortScanDetector :=
  {| ps_window := ps_window d; ps_threshold := ps_threshold d; ps_ban_duration := ps_ban_duration d;
     ps_port_access := ps_port_access d; ps_long_window := ps_long_window d; ps_long_threshold := ps_long_threshold d;
     ps_long_ban_duration := ps_long_ban_duration d; ps_long_access := ps_long_access d;
     ps_max_tracked_ips := N.max max 1; ps_ipv6_prefix := ps_ipv6_prefix d;
     ps_long_subnet_v4_prefix := ps_long_subnet_v4_prefix d; ps_long_subnet_threshold := ps_long_subnet_threshold d;
     ps_long_subnet_min_ips := ps_long_subnet_min_ips d; ps_long_subnet_access := ps_long_subnet_access d;
     ps_events := ps_events d |}.

Definition scan_cutoff (now : DateTime) (window : Duration) : DateTime := now - default (secs 30) (duration_from_std window).

(** Entries newer than a cut. *)
Definition newer (c : DateTime) (l : list (Z * DateTime)) : list (Z * DateTime) := List.filter (fun x => c <? x.2) l.

Definition cleanup_old_entries (ip : IpAddr) (now : DateTime) (d : PortScanDetector) : PortScanDetector :=
  match ps_port_access d !! ip with
  | None => d
  | Some entries =>
      match newer (scan_cutoff now (ps_window d)) entries with
      | [] => set_short (delete ip (ps_port_access d)) d
      | kept => set_short (<[ip := kept]> (ps_port_access d)) d
      end
  end.

(** Only sources with an entry in their window are kept. *)
Definition sweep (now : DateTime) (d : PortScanDetector) : PortScanDetector :=
  let short := scan_cutoff now (ps_window d) in
  let long := scan_cutoff now (ps_long_window d) in
  scan_set (filter (fun kv => existsb (fun x : Z * DateTime => short <? x.2) kv.2 = true) (ps_port_access d))
           (filter (fun kv => existsb (fun x : Z * DateTime => long <? x.2) kv.2 = true) (ps_long_access d))
           (filter (fun kv => existsb (fun x : Z * IpAddr * DateTime => long <? x.2) kv.2 = true) (ps_long_subnet_access d))
           (ps_events d) d.

Definition scan_maybe_sweep (now : DateTime) (d : PortScanDetector) : PortScanDetector :=
  let n := ps_events d in
  let d := scan_set (ps_port_access d) (ps_long_access d) (ps_long_subnet_access d) (u64_add n 1) d in
  if n mod SCAN_SWEEP_EVERY =? SCAN_SWEEP_EVERY - 1 then sweep now d else d.

(** [admit]: may a new source be added to one of the maps? Sweeps once when
    full; a source that does not fit is not tracked. *)
Definition full {K} `{Countable K} {A} (d : PortScanDetector) (m : gmap K A) : bool :=
  (ps_max_tracked_ips d <=? N.of_nat (size m))%N.
Definition may_track (map : PortScanDetector -> access) (ip : IpAddr) (now : DateTime) (d : PortScanDetector)
    : PortScanDetector * bool :=
  if negb (full d (map d)) || bool_decide (is_Some (map d !! ip)) then (d, true)
  else let d := sweep now d in (d, negb (full d (map d))).

Section scan.
Context `{IpNetOps} `{Blake3}.

Definition scan_signal (target : IpNet) (evidence reason : string) (ban : Duration) (name : string) (now : DateTime) : DetectionSignal :=
  {| sig_source_ip := target; sig_severity := 200; sig_confidence := f32_lit 9 10; sig_reason := reason;
     sig_evidence_hash := blake3 (as_bytes evidence); sig_suggested_action := Ban ban; sig_detector_name := name;
     sig_timestamp := now |}.

(** The long-window tier of one source. *)
Definition long_tier (key : IpNet) (port : Z) (now : DateTime) (d : PortScanDetector) : PortScanDetector * option DetectionSignal :=
  let ip := net_addr key in
  if (ps_long_threshold d =? 0)%nat then (d, None)
  else
    let '(d, ok) := may_track ps_long_access ip now d in
    if negb ok then (d, None)
    else
      let c := scan_cutoff now (ps_long_window d) in
      let entries := List.filter (fun x => (c <? x.2) && negb (x.1 =? port)) (default [] (ps_long_access d !! ip)) ++ [(port, now)] in
      let unique := length entries in
      if (unique <? ps_long_threshold d)%nat then (set_long (<[ip := entries]> (ps_long_access d)) d, None)
      else
        let evidence := (net_to_string key +:+ ":port_scan_slow:" +:+ pretty unique +:+ "_ports:" +:+ fmt_uint (minute_of now))%string in
        let reason := ("Slow port scan detected: " +:+ pretty unique +:+ " unique ports in "
                       +:+ fmt_uint (as_secs (ps_long_window d)) +:+ "s")%string in
        (set_long (delete ip (ps_long_access d)) d,
         Some (scan_signal key evidence reason (ps_long_ban_duration d) "port_scan_slow" now)).

Definition distinct_ports (l : list (Z * IpAddr * DateTime)) : nat := size (list_to_set (l.*1.*1) : gset Z).
Definition distinct_sources (l : list (Z * IpAddr * DateTime)) : nat := size (list_to_set (l.*1.*2) : gset IpAddr).

(** Room for one more subnet, sweeping when full. *)
Definition subnet_room (subnet : IpNet) (now : DateTime) (d : PortScanDetector) : PortScanDetector * bool :=
  if full d (ps_long_subnet_access d) && negb (bool_decide (is_Some (ps_long_subnet_access d !! subnet))) then
    let d := sweep now d in (d, negb (full d (ps_long_subnet_access d)))
  else (d, true).

(** The distributed tier: every source of one IPv4 subnet. *)
Definition long_subnet_tier (ip : IpAddr) (port : Z) (now : DateTime) (d : PortScanDetector)
    : PortScanDetector * option DetectionSignal :=
  if (ps_long_subnet_threshold d =? 0)%nat || negb (match ip with IpV4 _ => true | IpV6 _ => false end) then (d, None)
  else
    match subnet_of ip (ps_long_subnet_v4_prefix d) 0 with
    | None => (d, None)
    | Some subnet =>
        let '(d, ok) := subnet_room subnet now d in
        if negb ok then (d, None)
        else
          let c := scan_cutoff now (ps_long_window d) in
          let cap := (ps_long_subnet_threshold d * 4 + 64)%nat in
          let entries := List.filter (fun x : Z * IpAddr * DateTime => (c <? x.2) && negb ((x.1.1 =? port) && bool_decide (x.1.2 = ip)))
                           (default [] (ps_long_subnet_access d !! subnet)) ++ [(port, ip, now)] in
          let entries := drop (length entries - cap) entries in
          let n_ports := distinct_ports entries in
          let n_ips := distinct_sources entries in
          if (n_ports <? ps_long_subnet_threshold d)%nat || (n_ips <? ps_long_subnet_min_ips d)%nat
          then (set_subnets (<[subnet := entries]> (ps_long_subnet_access d)) d, None)
          else
            let evidence := (net_to_string subnet +:+ ":port_scan_slow:subnet:" +:+ pretty n_ports +:+ "_ports:" +:+ fmt_uint (minute_of now))%string in
            let reason := ("Distributed slow port scan: " +:+ pretty n_ports +:+ " unique ports from " +:+ pretty n_ips
              +:+ " addresses in " +:+ net_to_string subnet +:+ " in " +:+ fmt_uint (as_secs (ps_long_window d)) +:+ "s")%string in
            (set_subnets (delete subnet (ps_long_subnet_access d)) d,
             Some (scan_signal subnet evidence reason (ps_long_ban_duration d) "port_scan_slow" now))
    end.

(** The short tier; [None] when the source is not tracked. *)
Definition short_tier (key : IpNet) (port : Z) (now : DateTime) (d : PortScanDetector)
    : PortScanDetector * option DetectionSignal :=
  let ip := net_addr key in
  let entries := List.filter (fun x => negb (x.1 =? port)) (default [] (ps_port_access d !! ip)) ++ [(port, now)] in
  let unique := length entries in
  if (ps_threshold d <=? unique)%nat then
    let evidence := (net_to_string key +:+ ":port_scan:" +:+ pretty unique +:+ "_ports")%string in
    let reason := ("Port scan detected: " +:+ pretty unique +:+ " unique ports in " +:+ fmt_uint (as_secs (ps_window d)) +:+ "s")%string in
    (set_long (delete ip (ps_long_access d)) (set_short (<[ip := []]> (ps_port_access d)) d),
     Some (scan_signal key evidence reason (ps_ban_duration d) "port_scan" now))
  else (set_short (<[ip := entries]> (ps_port_access d)) d, None).

Definition scan_port (key : IpNet) (source : IpAddr) (port : Z) (now : DateTime) (d : PortScanDetector)
    : PortScanDetector * option DetectionSignal :=
  let d := cleanup_old_entries (net_addr key) now (scan_maybe_sweep now d) in
  let '(d, subnet_signal) := long_subnet_tier source port now d in
  let '(d, ok) := may_track ps_port_access (net_addr key) now d in
  let '(d, short) := if ok then short_tier key port now d else (d, None) in
  match short with
  | Some s => (d, Some (default s subnet_signal))
  | None =>
      match subnet_signal with
      | Some s => (d, Some s)
      | None => long_tier key port now d
      end
  end.

Definition process_scan (event : NormalizedEvent) (d : PortScanDetector) : PortScanDetector * option DetectionSignal :=
  if negb (bool_decide (ev_event_type event = PortAccess)) then (d, None)
  else
    match meta event "port" ≫= parse_u16 with
    | None => (d, None)
    | Some port => scan_port (source_key (ev_source_ip event) (ps_ipv6_prefix d)) (ev_source_ip event) port (ev_timestamp event) d
    end.

#[export] Instance scan_detector : Detector PortScanDetector := multi_of_process process_scan.
End scan.

(** ** Memory *)
Definition ports_ok (limit : nat) (l : list (Z * DateTime)) : Prop := NoDup l.*1 /\ (length l < Nat.max 1 limit)%nat.

(** Each tier tracks at most [max_tracked_ips] sources, each with one entry per
    port and fewer entries than its threshold (four times the threshold plus 64
    for a subnet). *)
Definition scan_bounded (d : PortScanDetector) : Prop :=
  (N.of_nat (size (ps_port_access d)) <= ps_max_tracked_ips d)%N /\
  (N.of_nat (size (ps_long_access d)) <= ps_max_tracked_ips d)%N /\
  (N.of_nat (size (ps_long_subnet_access d)) <= ps_max_tracked_ips d)%N /\
  (forall ip l, ps_port_access d !! ip = Some l -> ports_ok (ps_threshold d) l) /\
  (forall ip l, ps_long_access d !! ip = Some l -> ports_ok (ps_long_threshold d) l) /\
  (forall n l, ps_long_subnet_access d !! n = Some l -> (length l <= ps_long_subnet_threshold d * 4 + 64)%nat).

Lemma size_insert_bounded {K A} `{Countable K} (m : gmap K A) (k : K) (v : A) (max : N) :
  (N.of_nat (size m) <= max)%N -> is_Some (m !! k) \/ (N.of_nat (size m) < max)%N ->
  (N.of_nat (size (<[k := v]> m)) <= max)%N.
Proof. intros Hm Hk. rewrite map_size_insert. destruct (m !! k) as [x|]; simpl; [unfold id; lia|]. destruct Hk as [[]|]; [done|lia]. Qed.

Lemma size_sub {K A} `{Countable K} (m m' : gmap K A) : m ⊆ m' -> (N.of_nat (size m) <= N.of_nat (size m'))%N.
Proof. intros Hs. rewrite <- !size_dom. apply subseteq_dom, subseteq_size in Hs. lia. Qed.

Lemma filter_ports (limit : nat) (f : Z * DateTime -> bool) (l : list (Z * DateTime)) :
  ports_ok limit l -> ports_ok limit (List.filter f l).
Proof.
  intros [Hn Hl]. split.
  - clear Hl. induction l as [|x l IH]; simpl in *; [done|]. apply NoDup_cons in Hn as [Hx Hn].
    destruct (f x); simpl; [|by apply IH]. constructor; [|by apply IH]. intros Hin. apply Hx.
    apply list_elem_of_fmap in Hin as (y & -> & [Hy _]%elem_of_lfilter). by apply list_elem_of_fmap_2.
  - pose proof (List.filter_length_le f l). lia.
Qed.

(** Pushing a port that was filtered out. *)
Lemma push_port (limit : nat) (f : Z * DateTime -> bool) (l : list (Z * DateTime)) (port : Z) (now : DateTime) :
  ports_ok limit l -> (forall x, f x = true -> x.1 <> port) ->
  (length (List.filter f l ++ [(port, now)]) < Nat.max 1 limit)%nat -> ports_ok limit (List.filter f l ++ [(port, now)]).
Proof.
  intros Hl Hf Hlen. split; [|done]. rewrite fmap_app. apply NoDup_app. split_and!; [by apply (filter_ports _ f) in Hl as [? _]| |].
  - intros p Hp Hq. apply list_elem_of_fmap in Hp as (x & -> & [_ Hx]%elem_of_lfilter).
    apply list_elem_of_singleton in Hq. by apply (Hf x Hx).
  - apply NoDup_singleton.
Qed.

Lemma ports_ok_nil (limit : nat) : ports_ok limit [].
Proof. split; [constructor|simpl; lia]. Qed.
Lemma default_ports (limit : nat) (o : option (list (Z * DateTime))) :
  (forall l, o = Some l -> ports_ok limit l) -> ports_ok limit (default [] o).
Proof. destruct o as [l|]; intros Ho; [by apply Ho|apply ports_ok_nil]. Qed.

Lemma sweep_bounded (now : DateTime) (d : PortScanDetector) : scan_bounded d -> scan_bounded (sweep now d).
Proof.
  intros (H1 & H2 & H3 & H4 & H5 & H6). unfold sweep. split_and!; simpl.
  - eapply N.le_trans; [apply size_sub, map_filter_subseteq|exact H1].
  - eapply N.le_trans; [apply size_sub, map_filter_subseteq|exact H2].
  - eapply N.le_trans; [apply size_sub, map_filter_subseteq|exact H3].
  - intros ip l [Hl _]%map_lookup_filter_Some. by eapply H4.
  - intros ip l [Hl _]%map_lookup_filter_Some. by eapply H5.
  - intros n l [Hl _]%map_lookup_filter_Some. by eapply H6.
Qed.

Lemma maybe_sweep_bounded (now : DateTime) (d : PortScanDetector) : scan_bounded d -> scan_bounded (scan_maybe_sweep now d).
Proof. intros Hd. unfold scan_maybe_sweep. case_match; [by apply sweep_bounded|done]. Qed.

(** Replacing one map. *)
Lemma set_short_bounded (m : access) (d : PortScanDetector) : scan_bounded d ->
  (N.of_nat (size m) <= ps_max_tracked_ips d)%N -> (forall ip l, m !! ip = Some l -> ports_ok (ps_threshold d) l) ->
  scan_bounded (set_short m d).
Proof. intros (H1 & H2 & H3 & H4 & H5 & H6) Hs Hm. by split_and!. Qed.
Lemma set_long_bounded (m : access) (d : PortScanDetector) : scan_bounded d ->
  (N.of_nat (size m) <= ps_max_tracked_ips d)%N -> (forall ip l, m !! ip = Some l -> ports_ok (ps_long_threshold d) l) ->
  scan_bounded (set_long m d).
Proof. intros (H1 & H2 & H3 & H4 & H5 & H6) Hs Hm. by split_and!. Qed.
Lemma set_subnets_bounded (m : subnet_access) (d : PortScanDetector) : scan_bounded d ->
  (N.of_nat (size m) <= ps_max_tracked_ips d)%N ->
  (forall n l, m !! n = Some l -> (length l <= ps_long_subnet_threshold d * 4 + 64)%nat) ->
  scan_bounded (set_subnets m d).
Proof. intros (H1 & H2 & H3 & H4 & H5 & H6) Hs Hm. by split_and!. Qed.

Lemma insert_ok {K A} `{Countable K} (P : A -> Prop) (m : gmap K A) (k : K) (v : A) :
  (forall j l, m !! j = Some l -> P l) -> P v -> forall j l, <[k := v]> m !! j = Some l -> P l.
Proof. intros Hm Hv j l. rewrite lookup_insert. case_decide; [by intros [= <-]|apply Hm]. Qed.
Lemma delete_ok {K A} `{Countable K} (P : A -> Prop) (m : gmap K A) (k : K) :
  (forall j l, m !! j = Some l -> P l) -> forall j l, delete k m !! j = Some l -> P l.
Proof. intros Hm j l [_ Hj]%lookup_delete_Some. by eapply Hm. Qed.
Lemma size_delete_bounded {K A} `{Countable K} (m : gmap K A) (k : K) (max : N) :
  (N.of_nat (size m) <= max)%N -> (N.of_nat (size (delete k m)) <= max)%N.
Proof. intros Hm. rewrite map_size_delete. destruct (m !! k); simpl; unfold id; lia. Qed.

Lemma cleanup_entries_bounded (ip : IpAddr) (now : DateTime) (d : PortScanDetector) :
  scan_bounded d -> scan_bounded (cleanup_old_entries ip now d).
Proof.
  intros Hd. destruct (Hd) as (H1 & H2 & H3 & H4 & H5 & H6). unfold cleanup_old_entries.
  destruct (ps_port_access d !! ip) as [l|] eqn:El; [|done].
  pose proof (filter_ports _ (fun x => scan_cutoff now (ps_window d) <? x.2) l (H4 _ _ El)) as Hk. unfold newer.
  destruct (List.filter _ l) as [|x k].
  - apply set_short_bounded; [done|by apply size_delete_bounded|by apply delete_ok].
  - apply set_short_bounded; [done| |by apply insert_ok]. apply size_insert_bounded; [done|]. left. by exists l.
Qed.

(** After [may_track], the source has a place. *)
Lemma may_track_spec (map : PortScanDetector -> access) (ip : IpAddr) (now : DateTime) (d : PortScanDetector) :
  scan_bounded d -> let '(d', ok) := may_track map ip now d in
  scan_bounded d' /\ (ok = true -> is_Some (map d' !! ip) \/ (N.of_nat (size (map d')) < ps_max_tracked_ips d')%N) /\
  d' = scan_set (ps_port_access d') (ps_long_access d') (ps_long_subnet_access d') (ps_events d) d.
Proof.
  intros Hd. unfold may_track. destruct (negb (full d (map d)) || _) eqn:E.
  - split_and!; [done| |by destruct d]. intros _. apply orb_true_iff in E as [E|E]; [right|left; by breflect].
    unfold full in E. apply negb_true_iff, N.leb_gt in E. done.
  - split_and!; [by apply sweep_bounded| |done]. intros E'. right. unfold full in E'. by apply negb_true_iff, N.leb_gt in E'.
Qed.

(** The parts of the state a step never touches. *)
Definition same_limits (d d' : PortScanDetector) : Prop :=
  d' = scan_set (ps_port_access d') (ps_long_access d') (ps_long_subnet_access d') (ps_events d') d.

Section bounded.
Context `{IpNetOps} {laws : IpNetLaws} `{Blake3} {hash : Blake3Laws}.

Lemma subnet_room_spec (n : IpNet) (now : DateTime) (d : PortScanDetector) : scan_bounded d ->
  let '(d', ok) := subnet_room n now d in scan_bounded d' /\ (ok = true ->
    is_Some (ps_long_subnet_access d' !! n) \/ (N.of_nat (size (ps_long_subnet_access d')) < ps_max_tracked_ips d')%N).
Proof.
  intros Hd. unfold subnet_room. destruct (full d _ && _) eqn:E.
  - split; [by apply sweep_bounded|]. intros E'. right. unfold full in E'. by apply negb_true_iff, N.leb_gt in E'.
  - split; [done|]. intros _. apply andb_false_iff in E as [E|E].
    + right. unfold full in E. by apply N.leb_gt in E.
    + left. apply negb_false_iff in E. by breflect.
Qed.

Lemma long_subnet_tier_bounded (ip : IpAddr) (port : Z) (now : DateTime) (d : PortScanDetector) :
  scan_bounded d -> scan_bounded (long_subnet_tier ip port now d).1.
Proof.
  intros Hd. unfold long_subnet_tier. case_match; [done|]. destruct (subnet_of _ _ _) as [n|]; [|done].
  pose proof (subnet_room_spec n now d Hd) as Hr. destruct (subnet_room n now d) as [d' ok]. destruct Hr as [Hb Hroom].
  destruct ok; [|done]. cbn [negb]. destruct (Hb) as (B1 & B2 & B3 & B4 & B5 & B6).
  destruct ((_ <? ps_long_subnet_threshold d')%nat || _); cbn [fst].
  - apply set_subnets_bounded; [done|apply size_insert_bounded; auto|]. apply insert_ok; [done|].
    rewrite length_drop. lia.
  - apply set_subnets_bounded; [done|by apply size_delete_bounded|by apply delete_ok].
Qed.

Lemma long_tier_bounded (key : IpNet) (port : Z) (now : DateTime) (d : PortScanDetector) :
  scan_bounded d -> scan_bounded (long_tier key port now d).1.
Proof.
  intros Hd. unfold long_tier. case_match; [done|].
  pose proof (may_track_spec ps_long_access (net_addr key) now d Hd) as Hr.
  destruct (may_track _ _ now d) as [d' ok]. destruct Hr as (Hb & Hroom & _). destruct ok; [|done]. cbn [negb].
  destruct (Hb) as (B1 & B2 & B3 & B4 & B5 & B6). destruct (Nat.ltb_spec (length (List.filter (fun x : Z * DateTime =>
    (scan_cutoff now (ps_long_window d') <? x.2) && negb (x.1 =? port)) (default [] (ps_long_access d' !! net_addr key)) ++ [(port, now)])) (ps_long_threshold d')); cbn [fst].
  - apply set_long_bounded; [done|apply size_insert_bounded; auto|]. apply insert_ok; [done|]. apply push_port; [|by intros x; rewrite andb_true_iff, negb_true_iff, Z.eqb_neq; intros []|lia].
    apply default_ports. intros l. by apply B5.
  - apply set_long_bounded; [done|by apply size_delete_bounded|by apply delete_ok].
Qed.

Lemma short_tier_bounded (key : IpNet) (port : Z) (now : DateTime) (d : PortScanDetector) : scan_bounded d ->
  is_Some (ps_port_access d !! net_addr key) \/ (N.of_nat (size (ps_port_access d)) < ps_max_tracked_ips d)%N ->
  scan_bounded (short_tier key port now d).1.
Proof.
  intros Hb Hroom. destruct (Hb) as (B1 & B2 & B3 & B4 & B5 & B6). unfold short_tier.
  destruct (Nat.leb_spec (ps_threshold d) (length (List.filter (fun x : Z * DateTime => negb (x.1 =? port))
    (default [] (ps_port_access d !! net_addr key)) ++ [(port, now)]))); cbn [fst].
  - apply set_long_bounded; [|by apply size_delete_bounded|by apply delete_ok].
    apply set_short_bounded; [done|apply size_insert_bounded; auto|]. apply insert_ok; [done|apply ports_ok_nil].
  - apply set_short_bounded; [done|apply size_insert_bounded; auto|]. apply insert_ok; [done|].
    apply push_port; [|by intros x; rewrite negb_true_iff, Z.eqb_neq|lia]. apply default_ports. intros l. by apply B4.
Qed.

Lemma scan_port_bounded (key : IpNet) (source : IpAddr) (port : Z) (now : DateTime) (d : PortScanDetector) :
  scan_bounded d -> scan_bounded (scan_port key source port now d).1.
Proof.
  intros Hd. unfold scan_port.
  pose proof (long_subnet_tier_bounded source port now _ (cleanup_entries_bounded (net_addr key) now _ (maybe_sweep_bounded now d Hd))) as Hs.
  destruct (long_subnet_tier _ _ _ _) as [d1 sub]. cbn [fst] in Hs.
  pose proof (may_track_spec ps_port_access (net_addr key) now d1 Hs) as Hr.
  destruct (may_track _ _ now d1) as [d2 ok]. destruct Hr as (Hb & Hroom & _).
  assert (Hb' : scan_bounded (if ok then short_tier key port now d2 else (d2, None)).1).
  { destruct ok; [|done]. apply short_tier_bounded; auto. }
  destruct (if ok then _ else _) as [d3 [s|]]; cbn [fst] in *; [done|].
  destruct sub; [done|]. by apply long_tier_bounded.
Qed.

Lemma run_scan_bounded (d : PortScanDetector) (es : list NormalizedEvent) :
  ps_port_access d = ∅ /\ ps_long_access d = ∅ /\ ps_long_subnet_access d = ∅ ->
  scan_bounded (run_events process_scan d es).
Proof.
  intros (E1 & E2 & E3).
  assert (Hb0 : scan_bounded d).
  { unfold scan_bounded. rewrite E1, E2, E3, !map_size_empty. split_and!; try (simpl; lia); by intros ? ? ?%lookup_empty_Some. }
  induction es as [|e es IH] using rev_ind; [done|]. unfold run_events in *. rewrite foldl_app. simpl.
  unfold process_scan. case_match; [done|]. destruct (_ ≫= _) as [port|]; [|done]. by apply scan_port_bounded.
Qed.

(** ** Well-formed signals *)
Lemma scan_port_wf (key : IpNet) (source : IpAddr) (port : Z) (now : DateTime) (d : PortScanDetector) (s : DetectionSignal) :
  wf_net key -> wf_ip source -> (scan_port key source port now d).2 = Some s -> wf_signal s.
Proof using laws hash.
  intros Hk Hip. unfold scan_port.
  assert (Hsub : forall d s, (long_subnet_tier source port now d).2 = Some s -> wf_signal s).
  { clear d s. intros d s. unfold long_subnet_tier. case_match; [done|]. destruct (subnet_of _ _ _) as [n|] eqn:En; [|done].
    destruct (subnet_room _ _ _) as [d' []]; [|done]. cbn [negb].
    destruct ((_ <? ps_long_subnet_threshold d')%nat || _); [done|]. intros [= <-].
    split_and!; [by eapply subnet_of_wf|done|done|apply blake3_length]. }
  assert (Hlong : forall d s, (long_tier key port now d).2 = Some s -> wf_signal s).
  { clear d s. intros d s. unfold long_tier. case_match; [done|]. destruct (may_track _ _ _ _) as [d' []]; [|done]. cbn [negb].
    destruct (_ <? ps_long_threshold d')%nat; [done|]. intros [= <-]. split_and!; [done|done|done|apply blake3_length]. }
  specialize (Hsub (cleanup_old_entries (net_addr key) now (scan_maybe_sweep now d))).
  destruct (long_subnet_tier _ _ _ _) as [d1 sub]. destruct (may_track _ _ _ _) as [d2 ok].
  assert (Hshort : forall s, (if ok then short_tier key port now d2 else (d2, None)).2 = Some s -> wf_signal s).
  { clear s. intros s. destruct ok; [|done]. unfold short_tier. destruct (ps_threshold d2 <=? _)%nat; [|done]. intros [= <-].
    split_and!; [done|done|done|apply blake3_length]. }
  destruct (if ok then _ else _) as [d3 [s'|]]; cbn [snd] in *.
  - intros [= <-]. destruct sub; simpl; auto.
  - destruct sub; [|apply Hlong]. intros [= <-]. auto.
Qed.

#[export, refine] Instance scan_laws : DetectorLaws PortScanDetector := {| det_ok _ := True |}.
Proof using laws hash.
  intros event d Hip _. apply (multi_of_process_ok (fun _ => True) process_scan); [done|]. intros s. unfold process_scan.
  case_match; [done|]. destruct (_ ≫= _) as [port|]; [|done]. apply scan_port_wf; [by apply source_key_wf|done].
Defined.

(** ** What a scan leaves behind *)
(** [p] is remembered for the source [k] with a time stamp after [lo]. *)
Definition seen (lo : DateTime) (k : IpAddr) (p : Z) (d : PortScanDetector) : Prop :=
  exists l t, ps_port_access d !! k = Some l /\ (p, t) ∈ l /\ lo < t.

(** A step that keeps the settings, adds no source and forgets nothing recent. *)
Definition frame (lo : DateTime) (d d' : PortScanDetector) : Prop :=
  same_limits d d' /\ dom (ps_port_access d') ⊆ dom (ps_port_access d) /\ forall k p, seen lo k p d -> seen lo k p d'.

Lemma frame_refl (lo : DateTime) (d : PortScanDetector) : frame lo d d.
Proof. split_and!; [by destruct d|done|done]. Qed.
Lemma frame_trans (lo : DateTime) (d d' d'' : PortScanDetector) : frame lo d d' -> frame lo d' d'' -> frame lo d d''.
Proof.
  intros (H1 & H2 & H3) (G1 & G2 & G3). split_and!; [|set_solver +H2 G2|auto].
  unfold same_limits in *. rewrite G1, H1. done.
Qed.
Lemma frame_other (lo : DateTime) (d d' : PortScanDetector) :
  same_limits d d' -> ps_port_access d' = ps_port_access d -> frame lo d d'.
Proof. intros Hl He. split_and!; [done|by rewrite He|]. unfold seen. by rewrite He. Qed.

Lemma frame_sweep (lo now : DateTime) (d : PortScanDetector) :
  scan_cutoff now (ps_window d) <= lo -> frame lo d (sweep now d).
Proof.
  intros Hc. split_and!; [done|apply dom_filter_subseteq|]. intros k p (l & t & Hl & Hin & Ht). exists l, t. split_and!; [|done|done].
  simpl. apply map_lookup_filter_Some. split; [done|]. simpl. apply existsb_exists. exists (p, t). split; [by apply list_elem_of_In|].
  apply Z.ltb_lt. simpl. lia.
Qed.

Lemma frame_maybe_sweep (lo now : DateTime) (d : PortScanDetector) :
  scan_cutoff now (ps_window d) <= lo -> frame lo d (scan_maybe_sweep now d).
Proof.
  intros Hc. unfold scan_maybe_sweep. case_match; [|by apply frame_other].
  eapply frame_trans; [|by apply frame_sweep]. by apply frame_other.
Qed.

Lemma frame_cleanup (lo now : DateTime) (ip : IpAddr) (d : PortScanDetector) :
  scan_cutoff now (ps_window d) <= lo -> frame lo d (cleanup_old_entries ip now d).
Proof.
  intros Hc. unfold cleanup_old_entries. destruct (ps_port_access d !! ip) as [l0|] eqn:E0; [|apply frame_refl].
  assert (Hkeep : forall p t, (p, t) ∈ l0 -> lo < t -> (p, t) ∈ newer (scan_cutoff now (ps_window d)) l0).
  { intros p t Hin Ht. apply elem_of_lfilter. split; [done|]. apply Z.ltb_lt. simpl. lia. }
  assert (Hd : ip ∈ dom (ps_port_access d)) by by apply elem_of_dom_2 in E0.
  destruct (newer _ l0) as [|x k0] eqn:Ek; (split_and!; [done|simpl; rewrite ?dom_delete, ?dom_insert; set_solver +Hd|]);
    intros k p (l & t & Hl & Hin & Ht); unfold seen; simpl; destruct (decide (k = ip)) as [->|Hne].
  - rewrite Hl in E0. injection E0 as ->. specialize (Hkeep p t Hin Ht). by apply not_elem_of_nil in Hkeep.
  - exists l, t. by rewrite lookup_delete_ne.
  - rewrite Hl in E0. injection E0 as ->. exists (x :: k0), t. rewrite lookup_insert_eq. auto.
  - exists l, t. by rewrite lookup_insert_ne.
Qed.

Lemma frame_subnet_tier (lo now : DateTime) (ip : IpAddr) (port : Z) (d : PortScanDetector) :
  scan_cutoff now (ps_window d) <= lo -> frame lo d (long_subnet_tier ip port now d).1.
Proof.
  intros Hc. unfold long_subnet_tier. destruct (_ || _); [apply frame_refl|]. destruct (subnet_of _ _ _) as [n|]; [|apply frame_refl].
  assert (Hr : frame lo d (subnet_room n now d).1).
  { unfold subnet_room. destruct (full d _ && _); [by apply frame_sweep|apply frame_refl]. }
  destruct (subnet_room n now d) as [d' []]; [|done]. cbn [negb fst] in *.
  destruct ((_ <? ps_long_subnet_threshold d')%nat || _); (eapply frame_trans; [exact Hr|]; by apply frame_other).
Qed.

Lemma frame_long_tier (lo now : DateTime) (key : IpNet) (port : Z) (d : PortScanDetector) :
  scan_cutoff now (ps_window d) <= lo -> frame lo d (long_tier key port now d).1.
Proof.
  intros Hc. unfold long_tier. case_match; [apply frame_refl|].
  assert (Hr : frame lo d (may_track ps_long_access (net_addr key) now d).1).
  { unfold may_track. destruct (_ || _); [apply frame_refl|by apply frame_sweep]. }
  destruct (may_track _ _ _ _) as [d' []]; [|done]. cbn [negb fst] in *.
  destruct (_ <? ps_long_threshold d')%nat; (eapply frame_trans; [exact Hr|]; by apply frame_other).
Qed.

(** A step at the source [k0]: it keeps the settings, adds at most [k0],
    forgets nothing recent of other sources and, when [quiet], nothing of [k0]
    but remembers [port]. *)
Definition step_at (lo : DateTime) (k0 : IpAddr) (port : Z) (quiet : Prop) (d d' : PortScanDetector) : Prop :=
  same_limits d d' /\ (size (ps_port_access d') <= S (size (ps_port_access d)))%nat /\
  (forall k p, k <> k0 -> seen lo k p d -> seen lo k p d') /\
  (quiet -> forall p, seen lo k0 p d \/ p = port -> seen lo k0 p d').

Lemma short_tier_step (lo now : DateTime) (key : IpNet) (port : Z) (d : PortScanDetector) :
  step_at lo (net_addr key) port ((short_tier key port now d).2 = None /\ lo < now) d (short_tier key port now d).1.
Proof.
  unfold short_tier. set (k0 := net_addr key). set (l0 := default [] (ps_port_access d !! k0)).
  set (entries := List.filter (fun x => negb (x.1 =? port)) l0 ++ [(port, now)]).
  assert (Hsize : forall v, (size (<[k0 := v]> (ps_port_access d)) <= S (size (ps_port_access d)))%nat).
  { intros v. rewrite map_size_insert. destruct (_ !! k0); simpl; unfold id; lia. }
  assert (Hother : forall v d' k p, ps_port_access d' = <[k0 := v]> (ps_port_access d) -> k <> k0 -> seen lo k p d -> seen lo k p d').
  { intros v d' k p Hd' Hne (l & t & Hk & ?). exists l, t. by rewrite Hd', lookup_insert_ne. }
  destruct (_ <=? _)%nat; cbn [fst snd].
  { split_and!; [done|apply Hsize|intros k p; by eapply Hother|by intros [? _]]. }
  split_and!; [done|apply Hsize|intros k p; by eapply Hother|].
  intros [_ Hlt] p Hp. exists entries. simpl. rewrite lookup_insert_eq. destruct (decide (p = port)) as [->|Hne].
  - exists now. split_and!; [done| |done]. apply elem_of_app. right. by apply list_elem_of_singleton.
  - destruct Hp as [(l & t & Hk & Hin & Ht)|]; [|done]. exists t. split_and!; [done| |done]. apply elem_of_app. left.
    apply elem_of_lfilter. unfold l0. rewrite Hk. split; [done|]. cbn [fst]. by rewrite (proj2 (Z.eqb_neq p port)).
Qed.

Lemma same_limits_trans (d d' d'' : PortScanDetector) : same_limits d d' -> same_limits d' d'' -> same_limits d d''.
Proof. unfold same_limits. intros H1 H2. rewrite H2, H1. done. Qed.

Lemma frame_step (lo : DateTime) (k0 : IpAddr) (port : Z) (Q R : Prop) (d1 d2 d3 d4 : PortScanDetector) :
  frame lo d1 d2 -> step_at lo k0 port Q d2 d3 -> frame lo d3 d4 -> (R -> Q) -> step_at lo k0 port R d1 d4.
Proof.
  intros (Hl & Hd & Hs) (Gl & Gz & Go & Gq) (Kl & Kd & Ks) HRQ.
  apply subseteq_size in Hd, Kd. rewrite !size_dom in Hd, Kd. split_and!; [|lia| |].
  - eapply same_limits_trans; [exact Hl|]. by eapply same_limits_trans.
  - intros k p Hne Hp. by apply Ks, Go, Hs.
  - intros HR p [Hp|Hp]; apply Ks, Gq; auto.
Qed.

(** One port event: either it is signalled, or the port is remembered. *)
Lemma scan_port_step (lo now : DateTime) (key : IpNet) (source : IpAddr) (port : Z) (d : PortScanDetector) :
  scan_cutoff now (ps_window d) <= lo -> (N.of_nat (size (ps_port_access d)) < ps_max_tracked_ips d)%N ->
  step_at lo (net_addr key) port ((scan_port key source port now d).2 = None /\ lo < now) d (scan_port key source port now d).1.
Proof.
  intros Hc Hroom. unfold scan_port.
  assert (Hf : frame lo d (long_subnet_tier source port now (cleanup_old_entries (net_addr key) now (scan_maybe_sweep now d))).1).
  { eapply frame_trans; [by apply frame_maybe_sweep|].
    eapply frame_trans; [apply frame_cleanup; unfold scan_maybe_sweep; by case_match|].
    apply frame_subnet_tier. unfold cleanup_old_entries, scan_maybe_sweep. repeat case_match; done. }
  destruct (long_subnet_tier _ _ _ _) as [d1 sub]. cbn [fst] in Hf. destruct (Hf) as (Hl & Hdom & _).
  assert (Hlim : ps_max_tracked_ips d1 = ps_max_tracked_ips d /\ ps_window d1 = ps_window d) by (unfold same_limits in Hl; by rewrite Hl).
  apply subseteq_size in Hdom. rewrite !size_dom in Hdom. destruct Hlim as [Hmax Hwin].
  assert (Hfull : full d1 (ps_port_access d1) = false) by (unfold full; apply N.leb_gt; lia).
  unfold may_track. rewrite Hfull. cbn [negb orb].
  pose proof (short_tier_step lo now key port d1) as Hst. destruct (short_tier key port now d1) as [d2 o]. cbn [fst snd] in Hst.
  assert (Hwin2 : ps_window d2 = ps_window d) by (destruct Hst as [Hl2 _]; unfold same_limits in Hl2; by rewrite Hl2).
  destruct o as [s|]; [|destruct sub as [s|]].
  - eapply frame_step; [exact Hf|exact Hst|apply frame_refl|]. intros [? _]. done.
  - eapply frame_step; [exact Hf|exact Hst|apply frame_refl|]. intros [? _]. done.
  - eapply frame_step; [exact Hf|exact Hst|apply frame_long_tier; by rewrite Hwin2|]. intros [_ ?]. done.
Qed.

Lemma scan_port_about (key : IpNet) (source : IpAddr) (port : Z) (now : DateTime) (d : PortScanDetector) (s : DetectionSignal) :
  (scan_port key source port now d).2 = Some s ->
  sig_source_ip s = key \/ subnet_of source (ps_long_subnet_v4_prefix d) 0 = Some (sig_source_ip s).
Proof.
  unfold scan_port. set (d1 := cleanup_old_entries _ _ _).
  assert (Hd1 : ps_long_subnet_v4_prefix d1 = ps_long_subnet_v4_prefix d).
  { unfold d1, cleanup_old_entries, scan_maybe_sweep. repeat case_match; reflexivity. }
  assert (Hsub : forall x, (long_subnet_tier source port now d1).2 = Some x ->
    subnet_of source (ps_long_subnet_v4_prefix d) 0 = Some (sig_source_ip x)).
  { intros x. rewrite <- Hd1. unfold long_subnet_tier. destruct (_ || _); [done|]. destruct (subnet_of _ _ _) as [n|] eqn:En; [|done].
    destruct (subnet_room _ _ _) as [d' []]; [|done]. cbn [negb].
    destruct ((_ <? ps_long_subnet_threshold d')%nat || _); [done|]. by intros [= <-]. }
  assert (Hlong : forall d' x, (long_tier key port now d').2 = Some x -> sig_source_ip x = key).
  { intros d' x. unfold long_tier. destruct (_ =? 0)%nat; [done|]. destruct (may_track _ _ _ _) as [d'' []]; [|done]. cbn [negb].
    destruct (_ <? ps_long_threshold d'')%nat; [done|]. by intros [= <-]. }
  destruct (long_subnet_tier _ _ _ _) as [d2 sub]. destruct (may_track _ _ _ _) as [d3 ok].
  assert (Hshort : forall x, (if ok then short_tier key port now d3 else (d3, None)).2 = Some x -> sig_source_ip x = key).
  { intros x. destruct ok; [|done]. unfold short_tier. destruct (_ <=? _)%nat; [|done]. by intros [= <-]. }
  destruct (if ok then _ else _) as [d4 [x|]]; cbn [snd] in *.
  - intros [= <-]. destruct sub; simpl; auto.
  - destruct sub; [intros [= <-]; auto|]. intros Hs. left. by eapply Hlong.
Qed.

(** Whatever happens, the settings stay. *)
Lemma may_track_limits (sel : PortScanDetector -> access) (ip : IpAddr) (now : DateTime) (d : PortScanDetector) :
  same_limits d (may_track sel ip now d).1.
Proof. unfold may_track. destruct (_ || _); by destruct d. Qed.
Lemma long_tier_limits (key : IpNet) (port : Z) (now : DateTime) (d : PortScanDetector) : same_limits d (long_tier key port now d).1.
Proof.
  unfold long_tier. destruct (_ =? 0)%nat; [by destruct d|].
  pose proof (may_track_limits ps_long_access (net_addr key) now d) as Hl.
  destruct (may_track _ _ _ _) as [d' []]; cbn [negb fst] in *; [|done].
  destruct (_ <? _)%nat; (eapply same_limits_trans; [exact Hl|done]).
Qed.
Lemma long_subnet_tier_limits (ip : IpAddr) (port : Z) (now : DateTime) (d : PortScanDetector) :
  same_limits d (long_subnet_tier ip port now d).1.
Proof.
  unfold long_subnet_tier. destruct (_ || _); [by destruct d|]. destruct (subnet_of _ _ _) as [n|]; [|by destruct d].
  assert (Hl : same_limits d (subnet_room n now d).1) by (unfold subnet_room; destruct (_ && _); by destruct d).
  destruct (subnet_room n now d) as [d' []]; cbn [negb fst] in *; [|done].
  destruct (_ || _); (eapply same_limits_trans; [exact Hl|done]).
Qed.
Lemma scan_port_limits (key : IpNet) (source : IpAddr) (port : Z) (now : DateTime) (d : PortScanDetector) :
  same_limits d (scan_port key source port now d).1.
Proof.
  unfold scan_port. set (d1 := cleanup_old_entries _ _ _).
  assert (H1 : same_limits d d1) by (unfold d1, cleanup_old_entries, scan_maybe_sweep; destruct d; repeat case_match; reflexivity).
  pose proof (long_subnet_tier_limits source port now d1) as H2. destruct (long_subnet_tier _ _ _ _) as [d2 sub].
  pose proof (may_track_limits ps_port_access (net_addr key) now d2) as H3. destruct (may_track _ _ _ _) as [d3 ok].
  assert (H4 : same_limits d3 (if ok then short_tier key port now d3 else (d3, None)).1).
  { destruct ok; [|by destruct d3]. unfold short_tier. by destruct (_ <=? _)%nat. }
  destruct (if ok then _ else _) as [d4 short]. cbn [fst] in *.
  assert (Hd : same_limits d d4) by (do 3 (eapply same_limits_trans; [eassumption|]); done).
  destruct short; [done|]. destruct sub; [done|]. eapply same_limits_trans; [exact Hd|apply long_tier_limits].
Qed.

(** The port a source tried, under its counting key. *)
Definition scan_of (prefix : Z) (e : NormalizedEvent) : option (IpAddr * Z) :=
  if bool_decide (ev_event_type e = PortAccess)
  then (fun p => (net_addr (source_key (ev_source_ip e) prefix), p)) <$> (meta e "port" ≫= parse_u16) else None.
Definition ports_tried (prefix : Z) (k : IpAddr) (es : list NormalizedEvent) : list Z :=
  omap (fun e => '(k', p) ← scan_of prefix e; if decide (k' = k) then Some p else None) es.

Lemma process_scan_of (e : NormalizedEvent) (d : PortScanDetector) :
  process_scan e d = match scan_of (ps_ipv6_prefix d) e with
    | Some (_, port) => scan_port (source_key (ev_source_ip e) (ps_ipv6_prefix d)) (ev_source_ip e) port (ev_timestamp e) d
    | None => (d, None) end.
Proof. unfold process_scan, scan_of. destruct (bool_decide _); [|done]. simpl. by destruct (_ ≫= _). Qed.

Lemma run_scan_size (d0 : PortScanDetector) (es : list NormalizedEvent) :
  ps_port_access d0 = ∅ -> (N.of_nat (length es) <= ps_max_tracked_ips d0)%N ->
  same_limits d0 (run_events process_scan d0 es) /\ (size (ps_port_access (run_events process_scan d0 es)) <= length es)%nat.
Proof.
  intros Hnew. induction es as [|e es IH] using rev_ind; intros Hlen.
  { split; [by destruct d0|]. unfold run_events. simpl. rewrite Hnew, map_size_empty. lia. }
  rewrite length_app in *. simpl in Hlen. destruct IH as [Hl Hs]; [lia|]. unfold run_events in *. rewrite foldl_app. simpl.
  set (d := foldl _ d0 es) in *. rewrite process_scan_of. destruct (scan_of _ e) as [[k p]|]; [|simpl; split; [done|lia]].
  destruct (scan_port_step (scan_cutoff (ev_timestamp e) (ps_window d)) (ev_timestamp e)
    (source_key (ev_source_ip e) (ps_ipv6_prefix d)) (ev_source_ip e) p d) as (Gl & Gs & _).
  - lia.
  - unfold same_limits in Hl. rewrite Hl. simpl. lia.
  - split; [by eapply same_limits_trans|]. simpl. lia.
Qed.

(** A block of events of one window: until one of the source's events is
    signalled, every port it tried is remembered. *)
Lemma scan_block (d0 : PortScanDetector) (lo : DateTime) (k : IpAddr) (pre x : list NormalizedEvent) :
  ps_port_access d0 = ∅ -> (N.of_nat (length (pre ++ x)) <= ps_max_tracked_ips d0)%N ->
  Forall (fun e => scan_cutoff (ev_timestamp e) (ps_window d0) <= lo /\
    forall p, scan_of (ps_ipv6_prefix d0) e = Some (k, p) -> lo < ev_timestamp e) x ->
  (exists x1 e x2 s p, x = x1 ++ e :: x2 /\ (process_scan e (run_events process_scan d0 (pre ++ x1))).2 = Some s /\
     scan_of (ps_ipv6_prefix d0) e = Some (k, p)) \/
  forall p, p ∈ ports_tried (ps_ipv6_prefix d0) k x -> seen lo k p (run_events process_scan d0 (pre ++ x)).
Proof.
  intros Hnew. induction x as [|e x IH] using rev_ind; intros Hlen Hx; [right; by intros p ?%not_elem_of_nil|].
  apply Forall_app in Hx as [Hx [Hc Hlo]%Forall_singleton]. rewrite app_assoc, length_app in Hlen. simpl in Hlen.
  destruct IH as [(x1 & e' & x2 & s & p & -> & Hs)|IH]; [lia|done| |].
  { left. exists x1, e', (x2 ++ [e]), s, p. by rewrite <- app_assoc. }
  destruct (run_scan_size d0 (pre ++ x) Hnew) as [Hl Hs]; [lia|]. unfold same_limits in Hl.
  rewrite app_assoc. unfold run_events in *. rewrite foldl_app. simpl. set (d := foldl _ d0 (pre ++ x)) in *.
  assert (Hlim : ps_window d = ps_window d0 /\ ps_ipv6_prefix d = ps_ipv6_prefix d0 /\ ps_max_tracked_ips d = ps_max_tracked_ips d0)
    by (rewrite Hl; done). destruct Hlim as (Hw & Hp & Hm).
  unfold ports_tried in *. rewrite omap_app. simpl. rewrite process_scan_of, Hp.
  destruct (scan_of (ps_ipv6_prefix d0) e) as [[k' p']|] eqn:Ee; simpl; [|right; by rewrite app_nil_r].
  assert (Hk : k' = net_addr (source_key (ev_source_ip e) (ps_ipv6_prefix d0))).
  { unfold scan_of in Ee. destruct (bool_decide _); [|done]. by apply fmap_Some in Ee as (? & _ & [= ->]). }
  destruct (scan_port_step lo (ev_timestamp e) (source_key (ev_source_ip e) (ps_ipv6_prefix d0)) (ev_source_ip e) p' d)
    as (_ & _ & Hother & Hsame); [by rewrite Hw|rewrite Hm; lia|]. rewrite <- Hk in *.
  destruct (decide (k' = k)) as [->|Hne].
  - destruct (scan_port _ _ p' _ d).2 as [s|] eqn:Eo.
    + left. exists x, e, [], s, p'. split_and!; [done| |done]. fold d. by rewrite process_scan_of, Hp, Ee.
    + right. intros p [Hin|Hin]%elem_of_app; apply Hsame; [by eauto|left; by apply IH|by eauto|right]. by apply list_elem_of_singleton in Hin.
  - right. rewrite app_nil_r. intros p Hin. apply Hother; [done|by apply IH].
Qed.

Lemma list_set_elem_of_nonempty (l : list Z) : (0 < size (list_to_set l : gset Z))%nat -> exists p, p ∈ l.
Proof.
  destruct l as [|p l]; [rewrite list_to_set_nil, size_empty; lia|]. intros _. exists p. apply elem_of_cons. by left.
Qed.

(** The scan detector's memory is bounded under any load: after any events, each
    of its three tiers tracks at most [max_tracked_ips] sources, a source has one
    entry per port and fewer entries than the threshold of its tier, and a
    subnet at most four times its threshold plus 64. *)
Theorem scan_memory_bounded (d0 : PortScanDetector) (es : list NormalizedEvent)
  (Hnew : ps_port_access d0 = ∅ /\ ps_long_access d0 = ∅ /\ ps_long_subnet_access d0 = ∅) :
  let d := run_events process_scan d0 es in
  (N.of_nat (size (ps_port_access d)) <= ps_max_tracked_ips d)%N /\
  (N.of_nat (size (ps_long_access d)) <= ps_max_tracked_ips d)%N /\
  (N.of_nat (size (ps_long_subnet_access d)) <= ps_max_tracked_ips d)%N /\
  (forall ip l, ps_port_access d !! ip = Some l -> NoDup l.*1 /\ (length l < Nat.max 1 (ps_threshold d))%nat) /\
  (forall ip l, ps_long_access d !! ip = Some l -> NoDup l.*1 /\ (length l < Nat.max 1 (ps_long_threshold d))%nat) /\
  (forall n l, ps_long_subnet_access d !! n = Some l -> (length l <= ps_long_subnet_threshold d * 4 + 64)%nat).
Proof. by apply run_scan_bounded. Qed.

(** A port scan is always detected: when a source (an IPv6 prefix counts as one)
    tries at least [threshold] different ports within one window, whatever came
    before and whatever other traffic is interleaved, one of its events is
    signalled, and the network to ban contains the address of that event;
    provided the whole history has at most [max_tracked_ips] events, so that the
    tier has room. *)
Theorem scan_detected (d0 : PortScanDetector) (pre block : list NormalizedEvent) (k : IpAddr) (now : DateTime)
  (Hnew : ps_port_access d0 = ∅ /\ ps_long_access d0 = ∅ /\ ps_long_subnet_access d0 = ∅)
  (Hroom : (N.of_nat (length (pre ++ block)) <= ps_max_tracked_ips d0)%N)
  (Hwf : Forall (fun e => wf_ip (ev_source_ip e)) block)
  (Htime : Forall (fun e => ev_timestamp e <= now /\ forall p, scan_of (ps_ipv6_prefix d0) e = Some (k, p) ->
    scan_cutoff now (ps_window d0) < ev_timestamp e) block)
  (Hports : (0 < ps_threshold d0 <= size (list_to_set (ports_tried (ps_ipv6_prefix d0) k block) : gset Z))%nat) :
  exists b1 e b2 s p, block = b1 ++ e :: b2 /\ (process_scan e (run_events process_scan d0 (pre ++ b1))).2 = Some s /\
    scan_of (ps_ipv6_prefix d0) e = Some (k, p) /\ in_net (sig_source_ip s) (ev_source_ip e).
Proof using laws.
  destruct (scan_block d0 (scan_cutoff now (ps_window d0)) k pre block (proj1 Hnew) Hroom) as [Hs|Hseen].
  { eapply Forall_impl; [exact Htime|]. intros e [Hle Hk]. split; [unfold scan_cutoff; lia|done]. }
  - destruct Hs as (b1 & e & b2 & s & p & Hb & Hs & He). exists b1, e, b2, s, p. split_and!; [done..|].
    destruct (run_scan_size d0 (pre ++ b1)) as [Hl _]; [apply Hnew| |].
    { subst block. rewrite !length_app in *. simpl in Hroom. lia. }
    rewrite process_scan_of in Hs. replace (ps_ipv6_prefix (run_events process_scan d0 (pre ++ b1))) with (ps_ipv6_prefix d0) in Hs
      by (unfold same_limits in Hl; by rewrite Hl). rewrite He in Hs.
    assert (Hip : wf_ip (ev_source_ip e)) by (subst block; apply Forall_app in Hwf as [_ Hwf]; by apply Forall_cons in Hwf as [? _]).
    apply scan_port_about in Hs as [->|Hq]; [by apply (source_key_spec _ (ev_source_ip e))|by eapply subnet_of_contains].
  - exfalso. destruct (run_scan_bounded d0 (pre ++ block) Hnew) as (_ & _ & _ & Hb & _).
    destruct (run_scan_size d0 (pre ++ block) (proj1 Hnew) Hroom) as [Hl _].
    set (ports := ports_tried _ k block) in *. assert (Hex : exists p0, p0 ∈ ports).
    { destruct (list_set_elem_of_nonempty ports) as [p0 ?]; [|by exists p0]. lia. }
    destruct Hex as [p0 Hp0]. destruct (Hseen p0 Hp0) as (l & _ & Hk & _). destruct (Hb k l Hk) as [Hnd Hlen].
    assert (Hsub : (list_to_set ports : gset Z) ⊆ list_to_set l.*1).
    { intros p Hp. apply elem_of_list_to_set in Hp. destruct (Hseen p Hp) as (l' & t & Hk' & Hin & _).
      rewrite Hk in Hk'. injection Hk' as <-. apply elem_of_list_to_set. by apply (list_elem_of_fmap_2 fst) in Hin. }
    apply subseteq_size in Hsub. rewrite (size_list_to_set (l.*1)), length_fmap in Hsub by done.
    replace (ps_threshold (run_events process_scan d0 (pre ++ block))) with (ps_threshold d0) in Hlen
      by (unfold same_limits in Hl; by rewrite Hl). lia.
Qed.
End bounded.

(** ** Witnesses *)
Module PortScanSample.
#[local] Existing Instances ipnet_ref ipnet_ref_laws.
#[local] Instance flat_hash : Blake3 := fun _ => replicate 32 0.

Definition syn (host t : Z) (port : string) : NormalizedEvent :=
  {| ev_timestamp := secs t; ev_source_ip := IpV6 (2 ^ 90 + host); ev_event_type := PortAccess; ev_source_name := "ufw";
     ev_raw_line := ""; ev_metadata := {["port"%string := port]} |}.
Definition det : PortScanDetector := scan_with_config (secs 60) 3 (secs 600).
Definition block : list NormalizedEvent := [syn 1 40 "22"; syn 2 41 "22"; syn 3 50 "+80"; syn 4 99 "443"].

Lemma scan_detected_witness :
  exists b1 e b2 s p, block = b1 ++ e :: b2 /\ (process_scan e (run_events process_scan det ([syn 5 0 "99999"] ++ b1))).2 = Some s /\
    scan_of 64 e = Some (IpV6 (2 ^ 90), p) /\ in_net (sig_source_ip s) (ev_source_ip e).
Proof.
  apply (scan_detected det [syn 5 0 "99999"] block (IpV6 (2 ^ 90)) (secs 99)).
  - repeat split; reflexivity.
  - vm_compute. discriminate.
  - apply Forall_forall. intros e He. assert (Hb : forallb (fun e => bool_decide (wf_ip (ev_source_ip e))) block = true) by by vm_compute.
    rewrite forallb_forall in Hb. apply list_elem_of_In in He. by apply Hb, bool_decide_eq_true in He.
  - unfold block. repeat constructor; try (vm_compute; discriminate); intros p _; vm_compute; reflexivity.
  - vm_compute. lia.
Defined.

Lemma scan_memory_bounded_witness :
  let d := run_events process_scan det block in
  (N.of_nat (size (ps_port_access d)) <= ps_max_tracked_ips d)%N.
Proof. refine (proj1 (scan_memory_bounded det block _)). split_and!; reflexivity. Defined.
End PortScanSample.
