(* ===== verification/Crawl.v ===== *)
(** * Distributed crawls ([detectors/distributed_crawl.rs], [distributed_slow.rs], [attack_state.rs])

    The detector that never bans: it counts fresh sources on expensive paths in
    a sliding window and switches between normal and under attack with
    hysteresis. Its published state, and the retired subnet heuristic. *)
From S2P Require Import Prelude Text Models Floats Windows Detector HttpRate.
Local Open Scope Z_scope.

(** ** Configuration and state *)
Record DistributedCrawlConfig : Type := {
  cr_window : Duration; cr_path_prefixes : list bytes; cr_fresh_ip_memory : Duration; cr_fresh_ip_threshold : nat;
  cr_off_threshold : nat; cr_cooldown : Duration; cr_max_tracked_ips : N; cr_exclude_static_fetchers : bool;
  cr_static_extensions : list bytes; cr_require_no_referer : bool; cr_ipv6_prefix : Z;
}.

Definition crawl_config_default : DistributedCrawlConfig := {|
  cr_window := secs 300; cr_path_prefixes := []; cr_fresh_ip_memory := secs 86400; cr_fresh_ip_threshold := 30;
  cr_off_threshold := 10; cr_cooldown := secs 900; cr_max_tracked_ips := 500000; cr_exclude_static_fetchers := true;
  cr_static_extensions := default_ignore_extensions; cr_require_no_referer := false; cr_ipv6_prefix := DEFAULT_IPV6_PREFIX |}.

Inductive CrawlTransition : Type := TurnedOn (fresh_ips : nat) | TurnedOff (fresh_ips : nat).
Record CrawlStatus : Type := { cs_under_attack : bool; cs_fresh_ips : nat; cs_transition : option CrawlTransition }.

Record Inner : Type := {
  in_seen_cur : gset IpAddr; in_seen_prev : gset IpAddr; in_generation_started : option DateTime;
  in_candidates : gmap IpAddr DateTime; in_order : list (DateTime * IpAddr);
  in_on : bool; in_below_since : option DateTime;
}.

Record DistributedCrawlDetector : Type := { cr_cfg : DistributedCrawlConfig; cr_inner : Inner }.

Definition crawl_with_config (cfg : DistributedCrawlConfig) : DistributedCrawlDetector := {|
  cr_cfg := {| cr_window := cr_window cfg; cr_path_prefixes := cr_path_prefixes cfg;
    cr_fresh_ip_memory := cr_fresh_ip_memory cfg; cr_fresh_ip_threshold := cr_fresh_ip_threshold cfg;
    cr_off_threshold := cr_off_threshold cfg; cr_cooldown := cr_cooldown cfg;
    cr_max_tracked_ips := N.max (cr_max_tracked_ips cfg) 2; cr_exclude_static_fetchers := cr_exclude_static_fetchers cfg;
    cr_static_extensions := to_ascii_lowercase <$> cr_static_extensions cfg;
    cr_require_no_referer := cr_require_no_referer cfg; cr_ipv6_prefix := cr_ipv6_prefix cfg |};
  cr_inner := {| in_seen_cur := ∅; in_seen_prev := ∅; in_generation_started := None; in_candidates := ∅; in_order := [];
                 in_on := false; in_below_since := None |} |}.

Definition chrono (d : Duration) : Duration := default 0 (duration_from_std d).

Definition is_static (cfg : DistributedCrawlConfig) (path : bytes) : bool :=
  let lower := to_ascii_lowercase (strip_query path) in
  existsb (fun ext => ends_with ext lower) (cr_static_extensions cfg).
Definition matches_prefix (cfg : DistributedCrawlConfig) (path : bytes) : bool :=
  existsb (fun p => starts_with p path) (cr_path_prefixes cfg).

Definition set_candidates (c : gmap IpAddr DateTime) (o : list (DateTime * IpAddr)) (i : Inner) : Inner :=
  {| in_seen_cur := in_seen_cur i; in_seen_prev := in_seen_prev i; in_generation_started := in_generation_started i;
     in_candidates := c; in_order := o; in_on := in_on i; in_below_since := in_below_since i |}.
Definition set_mode (on : bool) (below : option DateTime) (i : Inner) : Inner :=
  {| in_seen_cur := in_seen_cur i; in_seen_prev := in_seen_prev i; in_generation_started := in_generation_started i;
     in_candidates := in_candidates i; in_order := in_order i; in_on := on; in_below_since := below |}.
Definition set_seen (cur prev : gset IpAddr) (g : option DateTime) (i : Inner) : Inner :=
  {| in_seen_cur := cur; in_seen_prev := prev; in_generation_started := g;
     in_candidates := in_candidates i; in_order := in_order i; in_on := in_on i; in_below_since := in_below_since i |}.

(** Rotate the generations when due, then mark the key; was it known? *)
Definition mark_seen (cfg : DistributedCrawlConfig) (key : IpAddr) (now : DateTime) (i : Inner) : Inner * bool :=
  let half := chrono (cr_fresh_ip_memory cfg / 2) in
  let started := default now (in_generation_started i) in
  let '(cur, prev, g) :=
    if (half <=? now - started) || (cr_max_tracked_ips cfg / 2 <=? N.of_nat (size (in_seen_cur i)))%N
    then (∅, in_seen_cur i, now) else (in_seen_cur i, in_seen_prev i, started) in
  (set_seen ({[key]} ∪ cur) prev (Some g) i, bool_decide (key ∈ cur) || bool_decide (key ∈ prev)).

(** Is the candidate still the one this entry was made for? *)
Definition is_live (c : gmap IpAddr DateTime) (x : DateTime * IpAddr) : bool := bool_decide (c !! x.2 = Some x.1).

(** The loop that drops the oldest live candidate. *)
Fixpoint drop_oldest (c : gmap IpAddr DateTime) (o : list (DateTime * IpAddr)) : gmap IpAddr DateTime * list (DateTime * IpAddr) :=
  match o with
  | [] => (c, [])
  | x :: o' => if is_live c x then (delete x.2 c, o') else drop_oldest c o'
  end.

(** A referer other than a dash. *)
Definition has_referer (event : NormalizedEvent) : bool :=
  match meta event "referer" with
  | Some r => negb (bool_decide (trim r = [])) && negb (bool_decide (trim r = as_bytes "-"))
  | None => false
  end.

Section crawl.
Context `{IpNetOps}.

Definition crawl_key (cfg : DistributedCrawlConfig) (event : NormalizedEvent) : IpAddr :=
  net_addr (source_key (ev_source_ip event) (cr_ipv6_prefix cfg)).

Definition record_inner (cfg : DistributedCrawlConfig) (path : bytes) (event : NormalizedEvent) (i : Inner) : Inner :=
  let key := crawl_key cfg event in
  let now := ev_timestamp event in
  if cr_exclude_static_fetchers cfg && is_static cfg path then
    (mark_seen cfg key now (set_candidates (delete key (in_candidates i)) (in_order i) i)).1
  else
    let counted := matches_prefix cfg path && negb (cr_require_no_referer cfg && has_referer event) in
    let '(i, known) := mark_seen cfg key now i in
    if negb counted || known || bool_decide (is_Some (in_candidates i !! key)) then i
    else
      let '(c, o) := if (cr_max_tracked_ips cfg <=? N.of_nat (size (in_candidates i)))%N
                     then drop_oldest (in_candidates i) (in_order i) else (in_candidates i, in_order i) in
      set_candidates (<[key := now]> c) (o ++ [(now, key)]) i.

Definition crawl_record (event : NormalizedEvent) (d : DistributedCrawlDetector) : DistributedCrawlDetector :=
  if negb (is_http (ev_event_type event)) then d
  else match meta event "path" with
       | None => d
       | Some path => {| cr_cfg := cr_cfg d; cr_inner := record_inner (cr_cfg d) path event (cr_inner d) |}
       end.

(** Never a signal. *)
Definition process_crawl (event : NormalizedEvent) (d : DistributedCrawlDetector)
    : DistributedCrawlDetector * option DetectionSignal := (crawl_record event d, None).
End crawl.

(** Entries before the cut leave, with the candidates they were made for. *)
Fixpoint expire_order (cut : DateTime) (c : gmap IpAddr DateTime) (o : list (DateTime * IpAddr))
    : gmap IpAddr DateTime * list (DateTime * IpAddr) :=
  match o with
  | [] => (c, [])
  | x :: o' => if cut <=? x.1 then (c, o) else expire_order cut (if is_live c x then delete x.2 c else c) o'
  end.

Definition crawl_evaluate (now : DateTime) (d : DistributedCrawlDetector) : DistributedCrawlDetector * CrawlStatus :=
  let cfg := cr_cfg d in
  let i := cr_inner d in
  let '(c, o) := expire_order (now - chrono (cr_window cfg)) (in_candidates i) (in_order i) in
  let o := if (2 * N.of_nat (size c) + 1024 <? N.of_nat (length o))%N then List.filter (is_live c) o else o in
  let i := set_candidates c o i in
  let fresh := size c in
  let '(on, below, tr) :=
    if negb (in_on i) then
      if (cr_fresh_ip_threshold cfg <? fresh)%nat then (true, None, Some (TurnedOn fresh)) else (in_on i, in_below_since i, None)
    else if (fresh <? cr_off_threshold cfg)%nat then
      let since := default now (in_below_since i) in
      if chrono (cr_cooldown cfg) <=? now - since then (false, None, Some (TurnedOff fresh)) else (true, Some since, None)
    else (true, None, None) in
  ({| cr_cfg := cfg; cr_inner := set_mode on below i |},
   {| cs_under_attack := on; cs_fresh_ips := fresh; cs_transition := tr |}).

Definition crawl_tracked_ips (d : DistributedCrawlDetector) : nat :=
  (size (in_seen_cur (cr_inner d)) + size (in_seen_prev (cr_inner d)))%nat.

(** ** The retired heuristic: never a signal either. *)
Record DistributedSlowDetector : Type := {}.
Definition slow_with_config (_window : Duration) (_ip_threshold : nat) (_ban : Duration) : DistributedSlowDetector :=
  Build_DistributedSlowDetector.
Definition process_slow (_event : NormalizedEvent) (d : DistributedSlowDetector)
    : DistributedSlowDetector * option DetectionSignal := (d, None).

(** ** Published states: a process-wide table, by detector name. *)
Record AttackState : Type := { as_on : bool; as_value : Z; as_since : DateTime }.
Definition publish (detector : string) (s : AttackState) (reg : gmap string AttackState) : gmap string AttackState :=
  <[detector := s]> reg.
Definition update_value (detector : string) (v : Z) (reg : gmap string AttackState) : gmap string AttackState :=
  alter (fun s => {| as_on := as_on s; as_value := v; as_since := as_since s |}) detector reg.
Definition clear_state (detector : string) (reg : gmap string AttackState) : gmap string AttackState := delete detector reg.

#[export] Instance crawl_detector `{IpNetOps} : Detector DistributedCrawlDetector := multi_of_process process_crawl.
#[export] Instance slow_detector : Detector DistributedSlowDetector := multi_of_process process_slow.

#[export, refine] Instance crawl_laws `{IpNetOps} : DetectorLaws DistributedCrawlDetector := {| det_ok _ := True |}.
Proof. intros event d _ _. by apply (multi_of_process_ok (fun _ => True) process_crawl). Defined.
#[export, refine] Instance slow_laws : DetectorLaws DistributedSlowDetector := {| det_ok _ := True |}.
Proof. intros event d _ _. by apply (multi_of_process_ok (fun _ => True) process_slow). Defined.

(** [snapshot]: all states, by name. *)
Definition states_snapshot (reg : gmap string AttackState) : list (string * AttackState) :=
  omap (fun k => (fun s => (k, s)) <$> reg !! k) (sort_strings (elements (dom reg))).

(** ** Runs: events and evaluations, in time order *)
Inductive crawl_op : Type := CRecord (event : NormalizedEvent) | CEvaluate (now : DateTime).
Definition op_time (o : crawl_op) : DateTime := match o with CRecord e => ev_timestamp e | CEvaluate now => now end.

Section runs.
Context `{IpNetOps}.

(** The state, and what each evaluation reported. *)
Definition crawl_apply (s : DistributedCrawlDetector * list (DateTime * CrawlStatus)) (o : crawl_op)
    : DistributedCrawlDetector * list (DateTime * CrawlStatus) :=
  match o with
  | CRecord e => (crawl_record e s.1, s.2)
  | CEvaluate now => let '(d, st) := crawl_evaluate now s.1 in (d, s.2 ++ [(now, st)])
  end.
Definition crawl_run (cfg : DistributedCrawlConfig) (ops : list crawl_op) :=
  foldl crawl_apply (crawl_with_config cfg, []) ops.

Lemma crawl_run_snoc (cfg : DistributedCrawlConfig) (ops : list crawl_op) (o : crawl_op) :
  crawl_run cfg (ops ++ [o]) = crawl_apply (crawl_run cfg ops) o.
Proof. unfold crawl_run. by rewrite foldl_app. Qed.

(** Every candidate has its entry in the queue, which is in time order. *)
Definition queue_ok (last : DateTime) (c : gmap IpAddr DateTime) (o : list (DateTime * IpAddr)) : Prop :=
  (forall k t, c !! k = Some t -> (t, k) ∈ o) /\ StronglySorted Z.le o.*1 /\ Forall (fun x => x.1 <= last) o.

Definition crawl_inv (last : DateTime) (d : DistributedCrawlDetector) : Prop :=
  let cfg := cr_cfg d in let i := cr_inner d in
  (2 <= cr_max_tracked_ips cfg)%N /\
  (N.of_nat (size (in_seen_cur i)) <= cr_max_tracked_ips cfg / 2)%N /\
  (N.of_nat (size (in_seen_prev i)) <= cr_max_tracked_ips cfg / 2)%N /\
  (N.of_nat (size (in_candidates i)) <= cr_max_tracked_ips cfg)%N /\
  queue_ok last (in_candidates i) (in_order i).

Lemma queue_later (last last' : DateTime) (c : gmap IpAddr DateTime) (o : list (DateTime * IpAddr)) :
  last <= last' -> queue_ok last c o -> queue_ok last' c o.
Proof.
  intros Hle (H1 & H2 & H3). split_and!; [done..|]. eapply Forall_impl; [exact H3|]. intros x Hx. simpl in *. lia.
Qed.

Lemma queue_delete (last : DateTime) (c : gmap IpAddr DateTime) (o : list (DateTime * IpAddr)) (k : IpAddr) :
  queue_ok last c o -> queue_ok last (delete k c) o.
Proof. intros (H1 & H2 & H3). split_and!; [|done|done]. intros j t [_ Hj]%lookup_delete_Some. by apply H1. Qed.

(** One entry off the queue, with its candidate if that is live. *)
Lemma queue_pop (last : DateTime) (c : gmap IpAddr DateTime) (o : list (DateTime * IpAddr)) (x : DateTime * IpAddr) :
  queue_ok last c (x :: o) -> queue_ok last (if is_live c x then delete x.2 c else c) o.
Proof.
  intros (H1 & H2 & H3). inversion H2; subst. apply Forall_cons in H3 as [_ H3]. split_and!; [|done|done].
  intros k t Hk. unfold is_live in Hk. destruct (bool_decide_reflect (c !! x.2 = Some x.1)) as [Hx|Hx].
  - apply lookup_delete_Some in Hk as [Hne Hk]. destruct (proj1 (elem_of_cons _ _ _) (H1 k t Hk)) as [<-|]; [simpl in *; congruence|done].
  - destruct (proj1 (elem_of_cons _ _ _) (H1 k t Hk)) as [<-|]; [simpl in *; congruence|done].
Qed.

Lemma drop_oldest_ok (last : DateTime) (c : gmap IpAddr DateTime) (o : list (DateTime * IpAddr)) : queue_ok last c o ->
  queue_ok last (drop_oldest c o).1 (drop_oldest c o).2 /\
  ((0 < size c)%nat -> (size (drop_oldest c o).1 < size c)%nat).
Proof.
  induction o as [|x o IH]; intros Hq; cbn [drop_oldest].
  - split; [done|]. intros Hs. exfalso. destruct Hq as (H1 & _). destruct (map_choose c) as (k & t & Hk).
    { intros ->. rewrite map_size_empty in Hs. lia. }
    specialize (H1 k t Hk). by apply not_elem_of_nil in H1.
  - pose proof (queue_pop _ _ _ _ Hq) as Hp. destruct (is_live c x) eqn:E; cbn [fst snd]; [|by apply IH].
    split; [done|]. intros Hs. unfold is_live in E. breflect. rewrite map_size_delete, E. simpl. lia.
Qed.

Lemma expire_order_spec (cut last : DateTime) (c : gmap IpAddr DateTime) (o : list (DateTime * IpAddr)) : queue_ok last c o ->
  queue_ok last (expire_order cut c o).1 (expire_order cut c o).2 /\
  (expire_order cut c o).1 = filter (fun kt => cut <= kt.2) c.
Proof.
  revert c. induction o as [|x o IH]; intros c Hq; cbn [expire_order].
  - split; [done|]. assert (c = ∅) as ->; [|by rewrite map_filter_empty].
    apply map_empty. intros k. destruct (c !! k) as [t|] eqn:Hk; [|done]. destruct Hq as (H1 & _).
    specialize (H1 k t Hk). by apply not_elem_of_nil in H1.
  - destruct (Z.leb_spec cut x.1) as [Hle|Hlt]; cbn [fst snd].
    + split; [done|]. symmetry. apply map_filter_id. intros k t Hk. destruct Hq as (H1 & H2 & _). specialize (H1 k t Hk). simpl.
      apply elem_of_cons in H1 as [<-|Hin]; [done|]. inversion H2 as [|? ? _ Hall]; subst.
      rewrite Forall_forall in Hall. specialize (Hall t). simpl in Hle. transitivity x.1; [done|]. apply Hall.
      by apply (list_elem_of_fmap_2 fst) in Hin.
    + destruct (IH _ (queue_pop _ _ _ _ Hq)) as [Hq' Ef]. split; [exact Hq'|]. rewrite Ef. clear Ef. destruct (is_live c x) eqn:E; [|done].
      unfold is_live in E. breflect. apply map_filter_delete_not. intros t Ht. rewrite E in Ht. injection Ht as <-. simpl. lia.
Qed.

Lemma mark_seen_inv (cfg : DistributedCrawlConfig) (key : IpAddr) (now : DateTime) (i : Inner) :
  (2 <= cr_max_tracked_ips cfg)%N ->
  (N.of_nat (size (in_seen_cur i)) <= cr_max_tracked_ips cfg / 2)%N ->
  (N.of_nat (size (in_seen_prev i)) <= cr_max_tracked_ips cfg / 2)%N ->
  let i' := (mark_seen cfg key now i).1 in
  (N.of_nat (size (in_seen_cur i')) <= cr_max_tracked_ips cfg / 2)%N /\
  (N.of_nat (size (in_seen_prev i')) <= cr_max_tracked_ips cfg / 2)%N /\
  in_candidates i' = in_candidates i /\ in_order i' = in_order i.
Proof.
  intros Hmax Hc Hp. assert (1 <= cr_max_tracked_ips cfg / 2)%N by (apply N.div_le_lower_bound; lia).
  unfold mark_seen. destruct (_ || _) eqn:E; cbn [fst set_seen in_seen_cur in_seen_prev in_candidates in_order].
  - split_and!; [|done|done|done]. rewrite union_empty_r_L, size_singleton. lia.
  - apply orb_false_iff in E as [_ E]. apply N.leb_gt in E. split_and!; [|done|done|done].
    rewrite size_union_alt, size_singleton. assert (Hs : in_seen_cur i ∖ {[key]} ⊆ in_seen_cur i) by set_solver +.
    apply subseteq_size in Hs. lia.
Qed.

Lemma record_inv (last : DateTime) (d : DistributedCrawlDetector) (e : NormalizedEvent) :
  crawl_inv last d -> last <= ev_timestamp e -> crawl_inv (ev_timestamp e) (crawl_record e d).
Proof.
  intros (Hmax & Hcur & Hprev & Hcand & Hq) Hle. apply (queue_later _ _ _ _ Hle) in Hq. unfold crawl_record.
  destruct (negb _); [by split_and!|]. destruct (meta e "path") as [path|]; [|by split_and!].
  unfold crawl_inv, record_inner. cbn [cr_cfg cr_inner]. set (key := crawl_key _ _). destruct (_ && _).
  - destruct (mark_seen_inv (cr_cfg d) key (ev_timestamp e)
      (set_candidates (delete key (in_candidates (cr_inner d))) (in_order (cr_inner d)) (cr_inner d)) Hmax Hcur Hprev) as (H1 & H2 & H3 & H4).
    cbv zeta in *. rewrite H3, H4. split_and!; [done..| |by apply queue_delete]. simpl.
    rewrite map_size_delete. destruct (_ !! key); simpl; unfold id; lia.
  - destruct (mark_seen_inv (cr_cfg d) key (ev_timestamp e) (cr_inner d) Hmax Hcur Hprev) as (H1 & H2 & H3 & H4).
    destruct (mark_seen _ _ _ _) as [i known]. cbv zeta in *. cbn [fst] in *. rewrite H3, H4.
    destruct (negb _ || known || _) eqn:Ek; [rewrite <- H3, <- H4 in *; by split_and!|].
    assert (Hdrop : let '(c, o) := if (cr_max_tracked_ips (cr_cfg d) <=? N.of_nat (size (in_candidates (cr_inner d))))%N
        then drop_oldest (in_candidates (cr_inner d)) (in_order (cr_inner d)) else (in_candidates (cr_inner d), in_order (cr_inner d)) in
      queue_ok (ev_timestamp e) c o /\ (N.of_nat (size c) < cr_max_tracked_ips (cr_cfg d))%N).
    { destruct (drop_oldest_ok _ _ _ Hq) as [Hq' Hs]. destruct (N.leb_spec (cr_max_tracked_ips (cr_cfg d)) (N.of_nat (size (in_candidates (cr_inner d))))); [|done].
      destruct (drop_oldest _ _) as [c o]. simpl in *. split; [done|]. specialize (Hs ltac:(lia)). lia. }
    destruct (if (_ <=? _)%N then _ else _) as [c o]. destruct Hdrop as [(Q1 & Q2 & Q3) Hs]. simpl. split_and!; [done..| |].
    + rewrite map_size_insert. destruct (c !! key); simpl; unfold id; lia.
    + split_and!.
      * intros k t. rewrite lookup_insert. case_decide as Hk; [intros [= <-]; subst k|intros Ht; apply elem_of_app; left; by apply Q1].
        apply elem_of_app. right. by apply list_elem_of_singleton.
      * rewrite fmap_app. apply StronglySorted_app_2; [|done|repeat constructor].
        intros x y Hx Hy%list_elem_of_singleton. subst y. apply list_elem_of_fmap in Hx as (z & -> & Hz).
        rewrite Forall_forall in Q3. by apply Q3.
      * apply Forall_app. split; [done|]. apply Forall_singleton. simpl. lia.
Qed.

Lemma evaluate_inv (last now : DateTime) (d : DistributedCrawlDetector) : crawl_inv last d -> last <= now ->
  let '(d', st) := crawl_evaluate now d in
  crawl_inv now d' /\ cr_cfg d' = cr_cfg d /\
  in_candidates (cr_inner d') = filter (fun kt => now - chrono (cr_window (cr_cfg d)) <= kt.2) (in_candidates (cr_inner d)) /\
  cs_fresh_ips st = size (in_candidates (cr_inner d')).
Proof.
  intros (Hmax & Hcur & Hprev & Hcand & Hq) Hle. apply (queue_later _ _ _ _ Hle) in Hq. unfold crawl_evaluate.
  destruct (expire_order_spec (now - chrono (cr_window (cr_cfg d))) _ _ _ Hq) as [Hq' Hf].
  destruct (expire_order _ _ _) as [c o]. cbn [fst snd] in *.
  assert (Hq2 : queue_ok now c (if (2 * N.of_nat (size c) + 1024 <? N.of_nat (length o))%N then List.filter (is_live c) o else o)).
  { destruct (_ <? _)%N; [|done]. destruct Hq' as (Q1 & Q2 & Q3). split_and!.
    - intros k t Hk. apply elem_of_lfilter. split; [by apply Q1|]. by apply bool_decide_eq_true.
    - eapply sublist_fst; [apply filter_sublist|done].
    - apply Forall_forall. intros x [Hx _]%elem_of_lfilter. rewrite Forall_forall in Q3. by apply Q3. }
  assert (Hs : (N.of_nat (size c) <= cr_max_tracked_ips (cr_cfg d))%N).
  { rewrite Hf. eapply N.le_trans; [|exact Hcand]. rewrite <- !size_dom.
    pose proof (subseteq_size _ _ (dom_filter_subseteq (fun kt : IpAddr * DateTime => now - chrono (cr_window (cr_cfg d)) <= kt.2)
      (in_candidates (cr_inner d)) (D := gset IpAddr))). lia. }
  destruct (if negb _ then _ else _) as [[on below] tr]. unfold crawl_inv. simpl. by split_and!.
Qed.

(** In any reachable state. *)
Lemma crawl_reachable (cfg : DistributedCrawlConfig) (ops : list crawl_op) (last : DateTime) :
  StronglySorted Z.le (op_time <$> ops) -> Forall (fun o => op_time o <= last) ops ->
  crawl_inv last (crawl_run cfg ops).1 /\ cr_cfg (crawl_run cfg ops).1 = cr_cfg (crawl_with_config cfg).
Proof.
  revert last. induction ops as [|o ops IH] using rev_ind; intros last Hs Hl.
  - split; [|done]. unfold crawl_inv, crawl_run.
    cbn [foldl fst cr_cfg cr_inner crawl_with_config in_seen_cur in_seen_prev in_candidates in_order cr_max_tracked_ips].
    rewrite !size_empty, map_size_empty.
    split_and!; try apply N.le_0_l; [lia|]. split_and!; [by intros ? ? ?%lookup_empty_Some|constructor|constructor].
  - rewrite crawl_run_snoc. apply Forall_app in Hl as [_ Hl]. rewrite Forall_singleton in Hl.
    rewrite fmap_app in Hs. destruct (proj1 (StronglySorted_app _ _ _) Hs) as (Hle & Hs' & _).
    assert (Hbefore : Forall (fun x => op_time x <= op_time o) ops).
    { apply Forall_forall. intros x Hx. apply Hle; [by apply list_elem_of_fmap_2|by apply list_elem_of_singleton]. }
    destruct (IH (op_time o) Hs' Hbefore) as [Hi Hc]. destruct (crawl_run cfg ops) as [d log]. cbn [fst] in *.
    assert (Hup : forall d', crawl_inv (op_time o) d' -> crawl_inv last d').
    { intros d' (? & ? & ? & ? & Hq). split_and!; [done..|]. by apply (queue_later (op_time o)). }
    destruct o as [e|now]; simpl in *.
    + split; [apply Hup; by apply (record_inv (ev_timestamp e))|]. unfold crawl_record. repeat case_match; done.
    + pose proof (evaluate_inv now now d Hi ltac:(lia)) as He. destruct (crawl_evaluate now d) as [d' st].
      destruct He as (He & Hcfg & _). simpl. split; [by apply Hup|]. by rewrite Hcfg.
Qed.

(** The crawl detector measures exactly the window and stays within its memory:
    in any run of events and evaluations in time order, an evaluation reports
    the number of current candidates whose first hit lies in the window (it
    forgets precisely the others), at most [max_tracked_ips] candidates are kept,
    and at most as many sources are remembered as seen. *)
Theorem crawl_window_exact (cfg : DistributedCrawlConfig) (ops : list crawl_op) (now : DateTime)
  (Hs : StronglySorted Z.le (op_time <$> ops)) (Hl : Forall (fun o => op_time o <= now) ops) :
  let d := (crawl_run cfg ops).1 in
  let d' := (crawl_evaluate now d).1 in
  in_candidates (cr_inner d') = filter (fun kt => now - chrono (cr_window cfg) <= kt.2) (in_candidates (cr_inner d)) /\
  cs_fresh_ips (crawl_evaluate now d).2 = size (in_candidates (cr_inner d')) /\
  (N.of_nat (size (in_candidates (cr_inner d))) <= N.max (cr_max_tracked_ips cfg) 2)%N /\
  (N.of_nat (crawl_tracked_ips d) <= N.max (cr_max_tracked_ips cfg) 2)%N.
Proof.
  cbv zeta. destruct (crawl_reachable cfg ops now Hs Hl) as [Hi Hc]. pose proof (evaluate_inv now now _ Hi ltac:(lia)) as He.
  destruct (crawl_evaluate now _) as [d' st]. destruct He as (_ & _ & Hf & Hn). destruct Hi as (Hmax & Hcur & Hprev & Hcand & _).
  rewrite Hc in *. cbn [cr_cfg crawl_with_config cr_window cr_max_tracked_ips fst snd] in *. split_and!; [done|done|done|].
  unfold crawl_tracked_ips. rewrite Nat2N.inj_add. pose proof (N.Div0.mul_div_le (N.max (cr_max_tracked_ips cfg) 2) 2) as Hd.
  etransitivity; [apply (N.add_le_mono _ _ _ _ Hcur Hprev)|]. clear -Hd. revert Hd. generalize (N.max (cr_max_tracked_ips cfg) 2 / 2)%N. lia.
Qed.

(** ** Hysteresis *)
Definition calm (cfg : DistributedCrawlConfig) (x : DateTime * CrawlStatus) : Prop := (cs_fresh_ips x.2 < cr_off_threshold cfg)%nat.

(** A run of calm evaluations that began at [s]. *)
Definition calm_since (cfg : DistributedCrawlConfig) (s : DateTime) (log : list (DateTime * CrawlStatus)) : Prop :=
  exists l st l', log = l ++ (s, st) :: l' /\ Forall (calm cfg) ((s, st) :: l').

Definition transition_ok (cfg : DistributedCrawlConfig) (log : list (DateTime * CrawlStatus)) (t : DateTime) (st : CrawlStatus) : Prop :=
  match cs_transition st with
  | None => True
  | Some (TurnedOn n) => (cr_fresh_ip_threshold cfg < n)%nat /\ cs_under_attack st = true
  | Some (TurnedOff n) => cs_under_attack st = false /\ exists s, calm_since cfg s (log ++ [(t, st)]) /\ chrono (cr_cooldown cfg) <= t - s
  end.

Definition mode_inv (cfg : DistributedCrawlConfig) (s : DistributedCrawlDetector * list (DateTime * CrawlStatus)) : Prop :=
  cr_cfg s.1 = cr_cfg (crawl_with_config cfg) /\
  (in_on (cr_inner s.1) = false -> in_below_since (cr_inner s.1) = None) /\
  (forall t, in_below_since (cr_inner s.1) = Some t -> calm_since cfg t s.2) /\
  (forall l t st l', s.2 = l ++ (t, st) :: l' -> transition_ok cfg l t st).

Lemma mark_seen_mode (cfg : DistributedCrawlConfig) (key : IpAddr) (now : DateTime) (i : Inner) :
  in_below_since (mark_seen cfg key now i).1 = in_below_since i /\ in_on (mark_seen cfg key now i).1 = in_on i.
Proof. unfold mark_seen. by destruct (_ || _). Qed.

Lemma record_mode (d : DistributedCrawlDetector) (e : NormalizedEvent) :
  in_below_since (cr_inner (crawl_record e d)) = in_below_since (cr_inner d) /\
  in_on (cr_inner (crawl_record e d)) = in_on (cr_inner d) /\ cr_cfg (crawl_record e d) = cr_cfg d.
Proof.
  unfold crawl_record. destruct (negb _); [done|]. destruct (meta e "path") as [p|]; [|done]. cbn [cr_inner cr_cfg].
  unfold record_inner. destruct (_ && _).
  { pose proof (mark_seen_mode (cr_cfg d) (crawl_key (cr_cfg d) e) (ev_timestamp e)
      (set_candidates (delete (crawl_key (cr_cfg d) e) (in_candidates (cr_inner d))) (in_order (cr_inner d)) (cr_inner d))) as [-> ->]. done. }
  pose proof (mark_seen_mode (cr_cfg d) (crawl_key (cr_cfg d) e) (ev_timestamp e) (cr_inner d)) as [H1 H2].
  destruct (mark_seen _ _ _ _) as [i known]. cbn [fst] in *. destruct (_ || _); [done|]. by destruct (if (_ <=? _)%N then _ else _).
Qed.

Lemma calm_since_snoc (cfg : DistributedCrawlConfig) (s : DateTime) (log : list (DateTime * CrawlStatus)) (x : DateTime * CrawlStatus) :
  calm_since cfg s log -> calm cfg x -> calm_since cfg s (log ++ [x]).
Proof.
  intros (l & st & l' & -> & Hc) Hx. exists l, st, (l' ++ [x]). split; [by rewrite <- app_assoc|].
  rewrite app_comm_cons. apply Forall_app. by split; [|apply Forall_singleton].
Qed.

Lemma calm_since_now (cfg : DistributedCrawlConfig) (t : DateTime) (st : CrawlStatus) (log : list (DateTime * CrawlStatus)) :
  calm cfg (t, st) -> calm_since cfg t (log ++ [(t, st)]).
Proof. intros Hc. exists log, st, []. split; [done|by apply Forall_singleton]. Qed.

(** One evaluation: the state of the machine and what it reports. *)
Lemma evaluate_mode (cfg : DistributedCrawlConfig) (d : DistributedCrawlDetector) (log : list (DateTime * CrawlStatus)) (now : DateTime) :
  mode_inv cfg (d, log) -> let '(d', st) := crawl_evaluate now d in
  cr_cfg d' = cr_cfg d /\ (in_on (cr_inner d') = false -> in_below_since (cr_inner d') = None) /\
  (forall t, in_below_since (cr_inner d') = Some t -> calm_since cfg t (log ++ [(now, st)])) /\
  transition_ok cfg log now st.
Proof.
  intros (Hc & Hoff & Hbelow & _). cbn [fst snd] in *. unfold crawl_evaluate. destruct (expire_order _ _ _) as [c o]. rewrite Hc.
  cbn [set_candidates in_on in_below_since cr_cfg crawl_with_config cr_fresh_ip_threshold cr_off_threshold cr_cooldown].
  unfold transition_ok. destruct (in_on (cr_inner d)) eqn:Eon; cbn [negb].
  - destruct (Nat.ltb_spec (size c) (cr_off_threshold cfg)) as [Hlt|Hge]; [|done].
    assert (Hsince : forall st, cs_fresh_ips st = size c -> calm_since cfg (default now (in_below_since (cr_inner d))) (log ++ [(now, st)])).
    { intros st Hst. assert (calm cfg (now, st)) by (unfold calm; simpl; lia).
      destruct (in_below_since (cr_inner d)) as [s0|]; simpl; [by apply calm_since_snoc; [apply Hbelow|]|by apply calm_since_now]. }
    destruct (Z.leb_spec (chrono (cr_cooldown cfg)) (now - default now (in_below_since (cr_inner d)))) as [Hcool|Hcool]; simpl.
    + split_and!; [done..|]. eexists. split; [by apply Hsince|done].
    + split_and!; [done|done| |done]. intros t [= <-]. by apply Hsince.
  - destruct (Nat.ltb_spec (cr_fresh_ip_threshold cfg) (size c)); simpl; [done|]. rewrite Hoff by done. by split_and!.
Qed.

(** The attack flag has hysteresis: in any run, every report that turns it on
    measured more than [fresh_ip_threshold] fresh sources, and every report that
    turns it off ends an unbroken run of evaluations, at least [cooldown] long,
    that all measured fewer than [off_threshold]. *)
Theorem crawl_hysteresis (cfg : DistributedCrawlConfig) (ops : list crawl_op)
  (before after : list (DateTime * CrawlStatus)) (t : DateTime) (st : CrawlStatus)
  (Hlog : (crawl_run cfg ops).2 = before ++ (t, st) :: after) :
  match cs_transition st with
  | None => True
  | Some (TurnedOn n) => (cr_fresh_ip_threshold cfg < n)%nat /\ cs_under_attack st = true
  | Some (TurnedOff _) => cs_under_attack st = false /\
      exists s, calm_since cfg s (before ++ [(t, st)]) /\ chrono (cr_cooldown cfg) <= t - s
  end.
Proof.
  assert (Hinv : mode_inv cfg (crawl_run cfg ops)).
  { clear. induction ops as [|o ops IH] using rev_ind.
    - split_and!; [done..|]. intros l t st l' Hl. by destruct l.
    - rewrite crawl_run_snoc. destruct (crawl_run cfg ops) as [d log]. destruct o as [e|now]; simpl.
      + destruct (record_mode d e) as (H1 & H2 & H3). destruct IH as (Hc & Hoff & Hb & Hl). unfold mode_inv. simpl in *.
        rewrite H1, H2, H3. by split_and!.
      + pose proof (evaluate_mode cfg d log now IH) as He. destruct (crawl_evaluate now d) as [d' st].
        destruct He as (H1 & H2 & H3 & H4). destruct IH as (Hc & _ & _ & Hl). unfold mode_inv. simpl in *.
        split_and!; [by rewrite H1|done|done|]. intros l t x l' E. destruct l' as [|y l' _] using rev_ind.
        * apply app_inj_tail in E as [-> [= <- <-]]. done.
        * rewrite app_comm_cons, app_assoc in E. apply app_inj_tail in E as [-> _]. by eapply Hl. }
  destruct Hinv as (_ & _ & _ & Hl). by apply (Hl before t st after).
Qed.
End runs.

(** ** Witnesses *)
Module CrawlSample.
#[local] Existing Instance ipnet_ref.

Definition hit (host t : Z) : NormalizedEvent :=
  {| ev_timestamp := secs t; ev_source_ip := IpV4 host; ev_event_type := HttpRequest; ev_source_name := "nginx"; ev_raw_line := "";
     ev_metadata := {["path"%string := "/shop/search?q=1"%string]} |}.
Definition cfg : DistributedCrawlConfig :=
  {| cr_window := secs 10; cr_path_prefixes := [as_bytes "/shop/"]; cr_fresh_ip_memory := secs 1000; cr_fresh_ip_threshold := 1;
     cr_off_threshold := 1; cr_cooldown := secs 5; cr_max_tracked_ips := 100; cr_exclude_static_fetchers := true;
     cr_static_extensions := []; cr_require_no_referer := false; cr_ipv6_prefix := 64 |}.
Definition ops : list crawl_op :=
  [CRecord (hit 1 1); CRecord (hit 2 2); CEvaluate (secs 3); CEvaluate (secs 20); CEvaluate (secs 26)].

Lemma crawl_window_exact_witness :
  cs_fresh_ips (crawl_evaluate (secs 12) (crawl_run cfg (take 3 ops)).1).2 = 1%nat /\
  in_candidates (cr_inner (crawl_evaluate (secs 12) (crawl_run cfg (take 3 ops)).1).1) =
    filter (fun kt => secs 12 - chrono (cr_window cfg) <= kt.2) (in_candidates (cr_inner (crawl_run cfg (take 3 ops)).1)).
Proof.
  split; [by vm_compute|]. refine (proj1 (crawl_window_exact cfg (take 3 ops) (secs 12) _ _)).
  - apply (bool_decide_unpack _). by vm_compute.
  - apply (bool_decide_unpack _). by vm_compute.
Defined.

Lemma crawl_hysteresis_witness :
  exists before t st, (crawl_run cfg ops).2 = before ++ [(t, st)] /\ cs_transition st = Some (TurnedOff 0) /\
    exists s, calm_since cfg s (before ++ [(t, st)]) /\ chrono (cr_cooldown cfg) <= t - s.
Proof.
  assert (E : exists b t st, (crawl_run cfg ops).2 = b ++ (t, st) :: [] /\ cs_transition st = Some (TurnedOff 0)).
  { exists (take 2 (crawl_run cfg ops).2), (secs 26), {| cs_under_attack := false; cs_fresh_ips := 0; cs_transition := Some (TurnedOff 0) |}.
    split; [by vm_compute|reflexivity]. }
  destruct E as (b & t & st & E & Ht). exists b, t, st. split; [exact E|]. split; [exact Ht|].
  pose proof (crawl_hysteresis cfg ops b [] t st E) as Hh. rewrite Ht in Hh. exact (proj2 Hh).
Defined.
End CrawlSample.
