(* ===== verification/Campaign.v ===== *)
(** * The campaign detector ([detectors/campaign.rs])

    Requests to sensitive endpoints are counted per fingerprint (user agent, or
    virtual host) over a sliding window, whatever address they come from. A
    fingerprint with enough distinct addresses and requests is hot: its new
    participants are signalled at once, the earlier ones from a queue that is
    drained a few at a time. *)
From S2P Require Import Prelude Text Models Floats Windows Detector HttpRate.
From stdpp Require Import pretty.
Local Open Scope Z_scope.

Definition CAMPAIGN_SWEEP_EVERY : Z := 4096.
Definition MAX_FLAGGED_PER_KEY : N := 50000.
Definition MAX_PENDING : N := 20000.

Record CampaignConfig : Type := {
  cg_paths : list bytes; cg_methods : list bytes; cg_window : Duration; cg_min_distinct_ips : nat; cg_min_requests : nat;
  cg_hot_duration : Duration; cg_ban_duration : Duration; cg_ignore_user_agents : list bytes; cg_ignore_vhosts : list bytes;
  cg_ignore_redirects : bool; cg_vhost_min_distinct_ips : nat; cg_retro_ban : bool; cg_max_retro_bans : nat;
  cg_retro_batch : nat; cg_max_keys : nat; cg_max_hits_per_key : nat;
}.

Definition default_campaign_paths : list bytes := as_bytes <$> ["/wp-login.php"; "/xmlrpc.php"]%string.
Definition default_campaign_ignore_user_agents : list bytes :=
  as_bytes <$> ["Googlebot"; "bingbot"; "Jetpack"; "WordPress/"; "UptimeRobot"]%string.

Definition campaign_default : CampaignConfig := {|
  cg_paths := default_campaign_paths; cg_methods := [as_bytes "POST"]; cg_window := secs 1800; cg_min_distinct_ips := 20;
  cg_min_requests := 30; cg_hot_duration := secs (6 * 3600); cg_ban_duration := secs (24 * 3600);
  cg_ignore_user_agents := default_campaign_ignore_user_agents; cg_ignore_vhosts := []; cg_ignore_redirects := true;
  cg_vhost_min_distinct_ips := 0; cg_retro_ban := true; cg_max_retro_bans := N.to_nat 2000; cg_retro_batch := 32;
  cg_max_keys := N.to_nat 5000; cg_max_hits_per_key := N.to_nat 4096 |}.

Inductive KeyKind : Type := KindUserAgent | KindVhost.

Record KeyState : Type := {
  ks_kind : KeyKind; ks_label : bytes; ks_hits : list (DateTime * IpAddr); ks_ip_counts : gmap IpAddr Z;
  ks_last_seen : DateTime; ks_hot_until : option DateTime; ks_flagged : gset IpAddr;
}.

Record Pending : Type := { pd_ip : IpAddr; pd_reason : string }.

Record CampaignInner : Type := { ci_keys : gmap bytes KeyState; ci_pending : list Pending; ci_matched_events : Z }.

Record CampaignDetector : Type := {
  cg_cfg : CampaignConfig; cg_methods_upper : list bytes; cg_ignore_ua_lower : list bytes; cg_inner : CampaignInner;
}.

Definition key_state_new (kind : KeyKind) (label : bytes) (now : DateTime) : KeyState :=
  {| ks_kind := kind; ks_label := label; ks_hits := []; ks_ip_counts := ∅; ks_last_seen := now; ks_hot_until := None; ks_flagged := ∅ |}.

(** One hit of [ip] leaves the window. *)
Definition release (ip : IpAddr) (counts : gmap IpAddr Z) : gmap IpAddr Z :=
  match counts !! ip with
  | Some c => let c := wrap 32 (c - 1) in if c =? 0 then delete ip counts else <[ip := c]> counts
  | None => counts
  end.

Definition set_hits (hits : list (DateTime * IpAddr)) (counts : gmap IpAddr Z) (s : KeyState) : KeyState :=
  {| ks_kind := ks_kind s; ks_label := ks_label s; ks_hits := hits; ks_ip_counts := counts; ks_last_seen := ks_last_seen s;
     ks_hot_until := ks_hot_until s; ks_flagged := ks_flagged s |}.

Definition pop_front (s : KeyState) : KeyState :=
  match ks_hits s with
  | (_, ip) :: hits => set_hits hits (release ip (ks_ip_counts s)) s
  | [] => s
  end.

Fixpoint prune_hits (cutoff : DateTime) (hits : list (DateTime * IpAddr)) (counts : gmap IpAddr Z)
    : list (DateTime * IpAddr) * gmap IpAddr Z :=
  match hits with
  | (t, ip) :: hits' => if t <? cutoff then prune_hits cutoff hits' (release ip counts) else (hits, counts)
  | [] => (hits, counts)
  end.
Definition prune (cutoff : DateTime) (s : KeyState) : KeyState :=
  let '(hits, counts) := prune_hits cutoff (ks_hits s) (ks_ip_counts s) in set_hits hits counts s.

Definition is_hot (now : DateTime) (s : KeyState) : bool :=
  match ks_hot_until s with Some t => now <=? t | None => false end.

Definition campaign_with_config (cfg : CampaignConfig) : CampaignDetector := {|
  cg_cfg := {| cg_paths := cg_paths cfg; cg_methods := cg_methods cfg; cg_window := cg_window cfg;
    cg_min_distinct_ips := cg_min_distinct_ips cfg; cg_min_requests := cg_min_requests cfg;
    cg_hot_duration := cg_hot_duration cfg; cg_ban_duration := cg_ban_duration cfg;
    cg_ignore_user_agents := cg_ignore_user_agents cfg; cg_ignore_vhosts := to_ascii_lowercase <$> cg_ignore_vhosts cfg;
    cg_ignore_redirects := cg_ignore_redirects cfg; cg_vhost_min_distinct_ips := cg_vhost_min_distinct_ips cfg;
    cg_retro_ban := cg_retro_ban cfg; cg_max_retro_bans := cg_max_retro_bans cfg;
    cg_retro_batch := Nat.max (cg_retro_batch cfg) 1; cg_max_keys := Nat.max (cg_max_keys cfg) 1;
    cg_max_hits_per_key := Nat.max (cg_max_hits_per_key cfg) 1 |};
  cg_methods_upper := to_ascii_uppercase <$> cg_methods cfg;
  cg_ignore_ua_lower := List.filter (fun u => negb (bool_decide (u = []))) (to_ascii_lowercase <$> cg_ignore_user_agents cfg);
  cg_inner := {| ci_keys := ∅; ci_pending := []; ci_matched_events := 0 |} |}.
Definition campaign_new : CampaignDetector := campaign_with_config campaign_default.

(** [iter().find(..)] whose predicate slices the path: [None] when the slice
    panics, at the first configured endpoint whose length is not a character
    boundary of the path. *)
Fixpoint find_endpoint (paths : list bytes) (path : bytes) : option (option bytes) :=
  match paths with
  | [] => Some None
  | p :: ps =>
      if (length path <? length p)%nat then find_endpoint ps path
      else match slice_to (length p) path with
           | None => None
           | Some s => if eq_ignore_ascii_case s p then Some (Some p) else find_endpoint ps path
           end
  end.
Definition matched_endpoint (d : CampaignDetector) (path : bytes) : option (option bytes) :=
  find_endpoint (cg_paths (cg_cfg d)) (strip_query path).

Definition ua_ignored (d : CampaignDetector) (ua : bytes) : bool :=
  let lower := to_ascii_lowercase ua in existsb (fun u => contains u lower) (cg_ignore_ua_lower d).

(** What one call of [hit] is given. *)
Record Hit : Type := { h_key : bytes; h_kind : KeyKind; h_label : bytes; h_min_ips : nat }.

(** The guards of [process_http] and the fingerprints they let through: the
    outer [None] is the panic of [matched_endpoint], the inner one a request
    that does not count. *)
Definition request_hits (d : CampaignDetector) (event : NormalizedEvent) : option (option (list Hit)) :=
  let cfg := cg_cfg d in
  match meta event "method" with
  | None => Some None
  | Some m =>
      let method := to_ascii_uppercase m in
      if negb (bool_decide (method ∈ cg_methods_upper d)) then Some None else
      match meta event "path" with
      | None => Some None
      | Some path =>
          match matched_endpoint d path with
          | None => None
          | Some None => Some None
          | Some (Some endpoint) =>
              let redirect := match meta event "status_code" ≫= parse_u16 with
                              | Some code => (300 <=? code) && (code <? 400) | None => false end in
              if cg_ignore_redirects cfg && redirect then Some None else
              let ua := default [] (meta event "user_agent") in
              if ua_ignored d ua then Some None else
              let vhost := to_ascii_lowercase <$> meta event "vhost" in
              if match vhost with Some v => bool_decide (v ∈ cg_ignore_vhosts cfg) | None => false end then Some None else
              let ua_norm := if bool_decide (trim ua = []) then as_bytes "-" else trim ua in
              let endpoint := to_ascii_lowercase endpoint in
              let ua_hit := {|
                h_key := as_bytes "ua" ++ [31] ++ method ++ [31] ++ endpoint ++ [31] ++ ua_norm; h_kind := KindUserAgent;
                h_label := as_bytes "UA='" ++ truncate_chars 80 ua_norm ++ as_bytes "' " ++ method ++ [32] ++ endpoint;
                h_min_ips := cg_min_distinct_ips cfg |} in
              let vhost_hit v := {|
                h_key := as_bytes "vh" ++ [31] ++ method ++ [31] ++ endpoint ++ [31] ++ v; h_kind := KindVhost;
                h_label := method ++ [32] ++ v ++ endpoint; h_min_ips := cg_vhost_min_distinct_ips cfg |} in
              Some (Some (ua_hit :: (if (0 <? cg_vhost_min_distinct_ips cfg)%nat then option_list (vhost_hit <$> vhost) else [])))
          end
      end
  end.

Section campaign.
Context `{IpNetOps} `{Blake3} `{HashIter}.

Definition campaign_signal (cfg : CampaignConfig) (ip : IpAddr) (reason : string) (ts : DateTime) : DetectionSignal :=
  let evidence := (ip_to_string ip +:+ ":campaign:" +:+ reason)%string in
  {| sig_source_ip := ip_to_net ip; sig_severity := 200; sig_confidence := f32_lit 9 10; sig_reason := reason;
     sig_evidence_hash := blake3 (as_bytes evidence); sig_suggested_action := Ban (cg_ban_duration cfg);
     sig_detector_name := "campaign"; sig_timestamp := ts |}.

Definition sweep_keys (cfg : CampaignConfig) (now : DateTime) (keys : gmap bytes KeyState) : gmap bytes KeyState :=
  let idle := default (secs 3600) (duration_from_std (cg_window cfg)) in
  filter (fun ks => is_hot now ks.2 || (now - ks_last_seen ks.2 <? idle) = true) keys.

(** The order of the eviction: [(is_hot, last_seen)], cold before hot. *)
Definition evict_le (now : DateTime) (keys : gmap bytes KeyState) (a b : bytes) : bool :=
  match keys !! a, keys !! b with
  | Some x, Some y =>
      match is_hot now x, is_hot now y with
      | false, true => true
      | true, false => false
      | _, _ => ks_last_seen x <=? ks_last_seen y
      end
  | _, _ => true
  end.
Definition victim (now : DateTime) (keys : gmap bytes KeyState) : option bytes :=
  min_by_key (evict_le now keys) (hash_iter (dom keys)).

Fixpoint evict_until (fuel : nat) (max_keys : nat) (now : DateTime) (keys : gmap bytes KeyState) : gmap bytes KeyState :=
  match fuel with
  | O => keys
  | S fuel' =>
      if (max_keys <=? size keys)%nat then
        match victim now keys with
        | Some v => evict_until fuel' max_keys now (delete v keys)
        | None => keys
        end
      else keys
  end.

(** The loop removes a key at each turn: the number of keys is fuel enough. *)
Definition make_room (cfg : CampaignConfig) (now : DateTime) (keys : gmap bytes KeyState) : gmap bytes KeyState :=
  if (size keys <? cg_max_keys cfg)%nat then keys
  else let keys := sweep_keys cfg now keys in evict_until (size keys) (cg_max_keys cfg) now keys.

Definition kind_label (k : KeyKind) : string := match k with KindUserAgent => "fingerprint" | KindVhost => "vhost" end.

(** Prune, drop the oldest hit when full, push, and forget a hot period that is
    over. *)
Definition record_request (cfg : CampaignConfig) (ip : IpAddr) (now : DateTime) (s : KeyState) : KeyState :=
  let window := default (minutes 30) (duration_from_std (cg_window cfg)) in
  let s := prune (now - window) s in
  let s := if (cg_max_hits_per_key cfg <=? length (ks_hits s))%nat then pop_front s else s in
  let expired := match ks_hot_until s with Some _ => negb (is_hot now s) | None => false end in
  {| ks_kind := ks_kind s; ks_label := ks_label s; ks_hits := ks_hits s ++ [(now, ip)];
     ks_ip_counts := <[ip := u32_add (default 0 (ks_ip_counts s !! ip)) 1]> (ks_ip_counts s); ks_last_seen := now;
     ks_hot_until := if expired then None else ks_hot_until s; ks_flagged := if expired then ∅ else ks_flagged s |}.

Definition set_hot (until : DateTime) (flagged : gset IpAddr) (s : KeyState) : KeyState :=
  {| ks_kind := ks_kind s; ks_label := ks_label s; ks_hits := ks_hits s; ks_ip_counts := ks_ip_counts s;
     ks_last_seen := ks_last_seen s; ks_hot_until := Some until; ks_flagged := flagged |}.

(** Queue the earlier participants, up to the two caps. *)
Fixpoint queue_retro (reason : string) (ps : list IpAddr) (flagged : gset IpAddr) (pending : list Pending)
    : gset IpAddr * list Pending :=
  match ps with
  | [] => (flagged, pending)
  | p :: ps' =>
      if (MAX_FLAGGED_PER_KEY <=? N.of_nat (size flagged))%N then (flagged, pending)
      else if bool_decide (p ∈ flagged) then queue_retro reason ps' flagged pending
      else queue_retro reason ps' ({[p]} ∪ flagged)
             (if (N.of_nat (length pending) <? MAX_PENDING)%N then pending ++ [{| pd_ip := p; pd_reason := reason |}] else pending)
  end.

(** A hot fingerprint signals the participants it has not yet signalled; a cold
    one becomes hot when it reaches the thresholds. *)
Definition respond (cfg : CampaignConfig) (h : Hit) (ip : IpAddr) (now : DateTime) (s : KeyState) (pending : list Pending)
    : KeyState * list Pending * list DetectionSignal :=
  let hot := default (secs (6 * 3600)) (duration_from_std (cg_hot_duration cfg)) in
  let label := (kind_label (ks_kind s) +:+ " " +:+ of_bytes (ks_label s))%string in
  if is_hot now s then
    if (N.of_nat (size (ks_flagged s)) <? MAX_FLAGGED_PER_KEY)%N && negb (bool_decide (ip ∈ ks_flagged s)) then
      (set_hot (now + hot) ({[ip]} ∪ ks_flagged s) s, pending,
       [campaign_signal cfg ip ("Distributed login campaign (" +:+ label +:+ ") — new participant")%string now])
    else (set_hot (now + hot) (ks_flagged s) s, pending, [])
  else
    let distinct := size (ks_ip_counts s) in
    let requests := length (ks_hits s) in
    if (distinct <? h_min_ips h)%nat || (requests <? cg_min_requests cfg)%nat then (s, pending, [])
    else
      let reason := ("Distributed login campaign (" +:+ label +:+ "): " +:+ pretty distinct +:+ " IPs / " +:+ pretty requests
                     +:+ " requests in " +:+ fmt_uint (as_secs (cg_window cfg)) +:+ "s")%string in
      let flagged := {[ip]} ∪ ks_flagged s in
      let participants := take (cg_max_retro_bans cfg) (List.filter (fun p => negb (bool_decide (p = ip))) (hash_iter (dom (ks_ip_counts s)))) in
      let '(flagged, pending) := if cg_retro_ban cfg then queue_retro reason participants flagged pending else (flagged, pending) in
      (set_hot (now + hot) flagged s, pending, [campaign_signal cfg ip reason now]).

(** The whole [hit]. *)
Definition hit (cfg : CampaignConfig) (h : Hit) (ip : IpAddr) (now : DateTime) (i : CampaignInner)
    : CampaignInner * list DetectionSignal :=
  let keys := match ci_keys i !! h_key h with Some _ => ci_keys i | None => make_room cfg now (ci_keys i) end in
  let s := record_request cfg ip now (default (key_state_new (h_kind h) (h_label h) now) (keys !! h_key h)) in
  let '(s, pending, out) := respond cfg h ip now s (ci_pending i) in
  ({| ci_keys := <[h_key h := s]> keys; ci_pending := pending; ci_matched_events := ci_matched_events i |}, out).

Fixpoint hits (cfg : CampaignConfig) (hs : list Hit) (ip : IpAddr) (now : DateTime) (i : CampaignInner)
    : CampaignInner * list DetectionSignal :=
  match hs with
  | [] => (i, [])
  | h :: hs' => let '(i, out) := hit cfg h ip now i in let '(i, out') := hits cfg hs' ip now i in (i, out ++ out')
  end.

Definition count_matched (cfg : CampaignConfig) (now : DateTime) (i : CampaignInner) : CampaignInner :=
  let n := u64_add (ci_matched_events i) 1 in
  {| ci_keys := if n mod CAMPAIGN_SWEEP_EVERY =? 0 then sweep_keys cfg now (ci_keys i) else ci_keys i;
     ci_pending := ci_pending i; ci_matched_events := n |}.

Definition process_http (d : CampaignDetector) (event : NormalizedEvent) (i : CampaignInner)
    : option (CampaignInner * list DetectionSignal) :=
  let now := ev_timestamp event in
  match request_hits d event with
  | None => None
  | Some None => Some (i, [])
  | Some (Some hs) => Some (hits (cg_cfg d) hs (ev_source_ip event) now (count_matched (cg_cfg d) now i))
  end.

(** [out.retain(|s| seen.insert(s.source_ip))] *)
Fixpoint dedup_sources (seen : gset IpNet) (l : list DetectionSignal) : list DetectionSignal :=
  match l with
  | [] => []
  | s :: l' => if bool_decide (sig_source_ip s ∈ seen) then dedup_sources seen l'
               else s :: dedup_sources ({[sig_source_ip s]} ∪ seen) l'
  end.

(** The whole [process_multi]; [None] is a panic. *)
Definition campaign_process_multi (event : NormalizedEvent) (d : CampaignDetector)
    : option (CampaignDetector * list DetectionSignal) :=
  let cfg := cg_cfg d in
  let i := cg_inner d in
  let now := ev_timestamp event in
  let batch := cg_retro_batch cfg in
  let out := (fun p => campaign_signal cfg (pd_ip p) (pd_reason p) now) <$> take batch (ci_pending i) in
  let i := {| ci_keys := ci_keys i; ci_pending := drop batch (ci_pending i); ci_matched_events := ci_matched_events i |} in
  let put i := {| cg_cfg := cfg; cg_methods_upper := cg_methods_upper d; cg_ignore_ua_lower := cg_ignore_ua_lower d; cg_inner := i |} in
  match (if is_http (ev_event_type event) then process_http d event i else Some (i, [])) with
  | None => None
  | Some (i, out') =>
      let out := out ++ out' in
      Some (put i, if (1 <? length out)%nat then dedup_sources ∅ out else out)
  end.

Definition campaign_process (event : NormalizedEvent) (d : CampaignDetector) : option (CampaignDetector * option DetectionSignal) :=
  match campaign_process_multi event d with
  | Some (d', out) => Some (d', head out)
  | None => None
  end.
End campaign.

(** ** Counting *)
Definition occ (ip : IpAddr) (hits : list (DateTime * IpAddr)) : nat :=
  length (List.filter (fun x => bool_decide (x.2 = ip)) hits).

(** [ip_counts] is the number of hits of each address. *)
Definition tally (hits : list (DateTime * IpAddr)) (counts : gmap IpAddr Z) : Prop :=
  forall ip, counts !! ip = if (occ ip hits =? 0)%nat then None else Some (Z.of_nat (occ ip hits)).

Lemma occ_cons (t : DateTime) (a ip : IpAddr) (l : list (DateTime * IpAddr)) :
  occ ip ((t, a) :: l) = ((if decide (a = ip) then 1 else 0) + occ ip l)%nat.
Proof. unfold occ. cbn [List.filter snd]. case_bool_decide; destruct (decide (a = ip)); done. Qed.

Lemma occ_app (ip : IpAddr) (l k : list (DateTime * IpAddr)) : occ ip (l ++ k) = (occ ip l + occ ip k)%nat.
Proof. unfold occ. by rewrite List.filter_app, length_app. Qed.

Lemma occ_le (ip : IpAddr) (l : list (DateTime * IpAddr)) : (occ ip l <= length l)%nat.
Proof. apply List.filter_length_le. Qed.

Lemma release_tally (t : DateTime) (a : IpAddr) (l : list (DateTime * IpAddr)) (counts : gmap IpAddr Z) :
  Z.of_nat (length ((t, a) :: l)) < 2 ^ 32 -> tally ((t, a) :: l) counts -> tally l (release a counts).
Proof.
  intros Hlen Ht ip. pose proof (occ_le a l) as Hle. simpl in Hlen. unfold release.
  pose proof (Ht a) as Ha. rewrite occ_cons, decide_True in Ha by done. rewrite Ha. simpl.
  rewrite wrap_small by (unfold in_width; lia).
  pose proof (Ht ip) as Hip. rewrite occ_cons in Hip.
  destruct (decide (a = ip)) as [<-|Hne]; destruct (Z.eqb_spec (Z.of_nat (S (occ a l)) - 1) 0) as [E|E].
  - rewrite lookup_delete_eq. assert (occ a l = 0%nat) as -> by lia. done.
  - rewrite lookup_insert_eq. destruct (Nat.eqb_spec (occ a l) 0); [lia|]. f_equal. lia.
  - rewrite lookup_delete_ne by done. by rewrite Hip.
  - rewrite lookup_insert_ne by done. by rewrite Hip.
Qed.

Lemma tally_push (t : DateTime) (a : IpAddr) (l : list (DateTime * IpAddr)) (counts : gmap IpAddr Z) :
  Z.of_nat (length l) + 1 < 2 ^ 32 -> tally l counts ->
  tally (l ++ [(t, a)]) (<[a := u32_add (default 0 (counts !! a)) 1]> counts).
Proof.
  intros Hlen Ht ip. pose proof (occ_le a l) as Hle. rewrite occ_app, occ_cons. destruct (decide (a = ip)) as [<-|Hne].
  - rewrite lookup_insert_eq, Ht. destruct (Nat.eqb_spec (occ a l + (1 + occ a [])) 0) as [E|E]; [lia|]. f_equal.
    unfold u32_add. destruct (Nat.eqb_spec (occ a l) 0) as [E0|E0]; simpl default; rewrite wrap_small; cbn; unfold in_width; lia.
  - rewrite lookup_insert_ne, Ht by done. by rewrite Nat.add_0_r.
Qed.

Lemma occ_zero (ip : IpAddr) (l : list (DateTime * IpAddr)) : occ ip l = 0%nat <-> ip ∉ (snd <$> l).
Proof.
  induction l as [|[t a] l IH]; [split; [intros _; apply not_elem_of_nil|done]|].
  rewrite occ_cons, fmap_cons, not_elem_of_cons, <- IH. destruct (decide (a = ip)) as [->|Hne]; simpl; split.
  - lia.
  - by intros [? _].
  - intros E. by split.
  - by intros [_ ?].
Qed.

Lemma tally_dom (l : list (DateTime * IpAddr)) (counts : gmap IpAddr Z) :
  tally l counts -> dom counts = list_to_set (snd <$> l).
Proof.
  intros Ht. apply set_eq. intros ip. rewrite elem_of_dom, elem_of_list_to_set, Ht. pose proof (occ_zero ip l) as Hz.
  destruct (Nat.eqb_spec (occ ip l) 0) as [E|E].
  - split; [by intros [? ?]|]. intros Hin. by apply Hz in E.
  - split; [|by eexists]. intros _. destruct (decide (ip ∈ snd <$> l)); [done|]. by apply Hz in n.
Qed.

Lemma tally_size (l : list (DateTime * IpAddr)) (counts : gmap IpAddr Z) :
  tally l counts -> size counts = size (list_to_set (snd <$> l) : gset IpAddr).
Proof. intros Ht. by rewrite <- (tally_dom l counts Ht), size_dom. Qed.

(** ** The log of counted requests *)
Record LogEntry : Type := { le_hit : Hit; le_time : DateTime; le_ip : IpAddr }.

(** Every request that counts, with the fingerprints it counts under, in
    order. *)
Definition campaign_log (d : CampaignDetector) (es : list NormalizedEvent) : list LogEntry :=
  flat_map (fun e => match (if is_http (ev_event_type e) then request_hits d e else Some None) with
                     | Some (Some hs) => (fun h => {| le_hit := h; le_time := ev_timestamp e; le_ip := ev_source_ip e |}) <$> hs
                     | _ => []
                     end) es.

Definition of_key (k : bytes) (log : list LogEntry) : list (DateTime * IpAddr) :=
  (fun x => (le_time x, le_ip x)) <$> List.filter (fun x => bool_decide (h_key (le_hit x) = k)) log.

(** The requests of a fingerprint in the window that ends [now]. *)
Definition recent (cfg : CampaignConfig) (k : bytes) (now : DateTime) (log : list LogEntry) : list (DateTime * IpAddr) :=
  List.filter (fun x => now - default (minutes 30) (duration_from_std (cg_window cfg)) <=? x.1) (of_key k log).

(** At some request the fingerprint had enough distinct addresses and requests
    in the window. *)
Definition triggered (cfg : CampaignConfig) (k : bytes) (log : list LogEntry) : Prop :=
  exists pre x post, log = pre ++ x :: post /\ h_key (le_hit x) = k /\
    (h_min_ips (le_hit x) <= size (list_to_set (snd <$> recent cfg k (le_time x) (pre ++ [x])) : gset IpAddr))%nat /\
    (cg_min_requests cfg <= length (recent cfg k (le_time x) (pre ++ [x])))%nat.

Definition participant (k : bytes) (ip : IpAddr) (log : list LogEntry) : Prop :=
  exists x, x ∈ log /\ h_key (le_hit x) = k /\ le_ip x = ip.

(** The address took part in a campaign that reached the thresholds. *)
Definition backed (cfg : CampaignConfig) (ip : IpAddr) (log : list LogEntry) : Prop :=
  exists k, participant k ip log /\ triggered cfg k log.

Lemma triggered_app (cfg : CampaignConfig) (k : bytes) (log more : list LogEntry) :
  triggered cfg k log -> triggered cfg k (log ++ more).
Proof. intros (pre & x & post & -> & Hx). exists pre, x, (post ++ more). by rewrite <- app_assoc. Qed.
Lemma backed_app (cfg : CampaignConfig) (ip : IpAddr) (log more : list LogEntry) :
  backed cfg ip log -> backed cfg ip (log ++ more).
Proof.
  intros (k & (x & Hx & Hkx) & Ht). exists k. split; [|by apply triggered_app]. exists x. split; [|done].
  apply elem_of_app. by left.
Qed.

Lemma of_key_app (k : bytes) (l m : list LogEntry) : of_key k (l ++ m) = of_key k l ++ of_key k m.
Proof. unfold of_key. by rewrite List.filter_app, fmap_app. Qed.
Lemma of_key_snoc (log : list LogEntry) (x : LogEntry) :
  of_key (h_key (le_hit x)) (log ++ [x]) = of_key (h_key (le_hit x)) log ++ [(le_time x, le_ip x)].
Proof. rewrite of_key_app. unfold of_key at 2. simpl. by rewrite bool_decide_eq_true_2. Qed.
Lemma of_key_participant (k : bytes) (log : list LogEntry) (ip : IpAddr) :
  ip ∈ (of_key k log).*2 -> participant k ip log.
Proof.
  intros (y & -> & Hy)%list_elem_of_fmap. apply list_elem_of_fmap in Hy as (x & -> & Hx).
  apply elem_of_lfilter in Hx as [Hx Hk]. exists x. split_and!; [done|by apply bool_decide_eq_true in Hk|done].
Qed.

(** ** The invariant *)
Definition key_ok (cfg : CampaignConfig) (log : list LogEntry) (k : bytes) (s : KeyState) : Prop :=
  tally (ks_hits s) (ks_ip_counts s) /\ (length (ks_hits s) <= cg_max_hits_per_key cfg)%nat /\
  ks_hits s `sublist_of` of_key k log /\
  (ks_hot_until s = None -> ks_flagged s = ∅) /\ (N.of_nat (size (ks_flagged s)) <= MAX_FLAGGED_PER_KEY)%N /\
  (is_Some (ks_hot_until s) -> triggered cfg k log).

Definition campaign_inv (cfg : CampaignConfig) (log : list LogEntry) (i : CampaignInner) : Prop :=
  (size (ci_keys i) <= cg_max_keys cfg)%nat /\ map_Forall (key_ok cfg log) (ci_keys i) /\
  Forall (fun p => backed cfg (pd_ip p) log) (ci_pending i) /\ (N.of_nat (length (ci_pending i)) <= MAX_PENDING)%N.

Lemma key_ok_app (cfg : CampaignConfig) (log more : list LogEntry) (k : bytes) (s : KeyState) :
  key_ok cfg log k s -> key_ok cfg (log ++ more) k s.
Proof.
  intros (? & ? & Hs & ? & ? & Ht). split_and!; try done.
  - rewrite of_key_app. etransitivity; [exact Hs|]. by apply sublist_inserts_r.
  - intros Hh. by apply triggered_app, Ht.
Qed.

Lemma prune_hits_spec (c : DateTime) (l : list (DateTime * IpAddr)) (counts : gmap IpAddr Z) :
  Z.of_nat (length l) < 2 ^ 32 -> tally l counts ->
  tally (prune_hits c l counts).1 (prune_hits c l counts).2 /\
  (prune_hits c l counts).1 = drop_while (fun x => x.1 <? c) l.
Proof.
  revert counts. induction l as [|[t a] l IH]; intros counts Hlen Ht; simpl; [done|].
  destruct (t <? c); [|done]. apply IH; [simpl in Hlen; lia|]. by apply release_tally in Ht.
Qed.

Lemma sorted_times (l : list (DateTime * IpAddr)) (c : DateTime) : StronglySorted Z.le l.*1 ->
  Forall (fun x => c <= x.1) (drop_while (fun x => x.1 <? c) l).
Proof.
  induction l as [|[t a] l IH]; simpl; intros Hs; [done|]. inversion Hs as [|? ? Hs' Hle]; subst.
  destruct (Z.ltb_spec t c); [by apply IH|]. constructor; [done|].
  apply (Forall_impl (fun x => t <= x.1)); [exact (proj1 (Forall_fmap fst (Z.le t) l) Hle)|]. intros x Hx. lia.
Qed.

Lemma suffix_Forall {A} (P : A -> Prop) (l k : list A) : l `suffix_of` k -> Forall P k -> Forall P l.
Proof. intros [p ->] Hf. by apply Forall_app in Hf as [_ Hf]. Qed.

(** The queue and the set of signalled addresses stay under their caps. *)
Lemma queue_retro_ok (P : IpAddr -> Prop) (reason : string) (ps : list IpAddr) (flagged : gset IpAddr) (pending : list Pending) :
  Forall P ps -> Forall (fun p => P (pd_ip p)) pending -> (N.of_nat (size flagged) <= MAX_FLAGGED_PER_KEY)%N -> (N.of_nat (length pending) <= MAX_PENDING)%N ->
  let '(flagged', pending') := queue_retro reason ps flagged pending in
  Forall (fun p => P (pd_ip p)) pending' /\ (N.of_nat (size flagged') <= MAX_FLAGGED_PER_KEY)%N /\ (N.of_nat (length pending') <= MAX_PENDING)%N.
Proof.
  revert flagged pending. induction ps as [|p ps IH]; intros flagged pending Hps Hpend Hf Hp; simpl; [done|].
  apply Forall_cons in Hps as [HP Hps]. destruct (N.leb_spec MAX_FLAGGED_PER_KEY (N.of_nat (size flagged))); [done|].
  case_bool_decide as Hin; [by apply IH|]. apply IH; [done| | |].
  - destruct (_ <? _)%N; [|done]. apply Forall_app. split; [done|]. by rewrite Forall_singleton.
  - rewrite size_union, size_singleton by set_solver. lia.
  - destruct (N.ltb_spec (N.of_nat (length pending)) MAX_PENDING); [|done]. rewrite length_app. simpl. lia.
Qed.

Section room.
Context `{HashIter} {order : HashIterLaws}.

(** Room is made: below the cap, and nothing new. *)
Lemma evict_until_spec (fuel n : nat) (now : DateTime) (keys : gmap bytes KeyState) :
  (1 <= n)%nat -> (size keys <= fuel)%nat ->
  (size (evict_until fuel n now keys) < n)%nat /\ evict_until fuel n now keys ⊆ keys.
Proof using order.
  intros Hn. revert keys. induction fuel as [|fuel IH]; intros keys Hf; simpl; [split; [lia|done]|].
  destruct (Nat.leb_spec n (size keys)) as [Hge|Hlt]; [|done]. destruct (victim now keys) as [v|] eqn:E.
  - apply min_by_key_elem, elem_of_hash_iter, elem_of_dom in E as [s Hs].
    destruct (IH (delete v keys)) as [Hsz Hsub].
    { rewrite map_size_delete, Hs. simpl. unfold id. lia. }
    split; [done|]. etransitivity; [exact Hsub|apply delete_subseteq].
  - apply min_by_key_None in E. assert (size keys = 0%nat) as E0; [|lia].
    rewrite <- size_dom. apply size_empty_iff. apply set_equiv. intros k. rewrite <- elem_of_hash_iter, E. 
    split; [by intros ?%not_elem_of_nil|set_solver].
Qed.
End room.

Section invariant.
Context `{IpNetOps} `{Blake3} `{HashIter} {order : HashIterLaws} (cfg : CampaignConfig).
Hypothesis (Hkeys : (1 <= cg_max_keys cfg)%nat) (Hhits : (1 <= cg_max_hits_per_key cfg)%nat)
  (Hwide : Z.of_nat (cg_max_hits_per_key cfg) < 2 ^ 32).

Lemma make_space (c : DateTime) (s : KeyState) : tally (ks_hits s) (ks_ip_counts s) ->
  (length (ks_hits s) <= cg_max_hits_per_key cfg)%nat ->
  let s1 := prune c s in let s2 := if (cg_max_hits_per_key cfg <=? length (ks_hits s1))%nat then pop_front s1 else s1 in
  tally (ks_hits s2) (ks_ip_counts s2) /\ (length (ks_hits s2) < cg_max_hits_per_key cfg)%nat /\
  ks_hits s2 `suffix_of` drop_while (fun x => x.1 <? c) (ks_hits s) /\
  ks_hot_until s2 = ks_hot_until s /\ ks_flagged s2 = ks_flagged s.
Proof using Hkeys Hhits Hwide.
  intros Ht Hlen. pose proof (prune_hits_spec c (ks_hits s) (ks_ip_counts s) ltac:(lia) Ht) as [Ht1 Hd]. unfold prune.
  destruct (prune_hits c (ks_hits s) (ks_ip_counts s)) as [l counts]. cbn [fst snd] in *. subst l. cbn [ks_hits set_hits].
  pose proof (suffix_length _ _ (drop_while_suffix (fun x => x.1 <? c) (ks_hits s))) as Hle.
  destruct (Nat.leb_spec (cg_max_hits_per_key cfg) (length (drop_while (fun x => x.1 <? c) (ks_hits s)))) as [Hge|Hlt]; [|done].
  unfold pop_front. cbn [ks_hits set_hits ks_ip_counts]. destruct (drop_while _ _) as [|[t a] l]; [simpl in Hge; lia|].
  cbn [ks_hits set_hits ks_ip_counts ks_hot_until ks_flagged length] in *.
  split_and!; [by apply (release_tally t); [simpl; lia|]|lia|by apply suffix_cons_r|done|done].
Qed.

Lemma recent_sublist (k : bytes) (now : DateTime) (log : list LogEntry) (l : list (DateTime * IpAddr)) :
  l `sublist_of` of_key k log ->
  Forall (fun x => now - default (minutes 30) (duration_from_std (cg_window cfg)) <= x.1) l -> l `sublist_of` recent cfg k now log.
Proof.
  unfold recent. generalize (of_key k log). intros m Hs Hf. induction Hs as [|y l m Hs IH|y l m Hs IH]; simpl; [done| |].
  - apply Forall_cons in Hf as [Hy Hf]. apply Z.leb_le in Hy. rewrite Hy. by apply sublist_skip, IH.
  - destruct (_ <=? _); [apply sublist_cons|]; by apply IH.
Qed.

(** The hits of a fingerprint after one more request. *)
Lemma record_request_ok (log : list LogEntry) (x : LogEntry) (s : KeyState) :
  let k := h_key (le_hit x) in let s' := record_request cfg (le_ip x) (le_time x) s in
  StronglySorted Z.le (of_key k (log ++ [x])).*1 -> 0 <= default (minutes 30) (duration_from_std (cg_window cfg)) ->
  key_ok cfg log k s ->
  key_ok cfg (log ++ [x]) k s' /\ ks_hits s' `sublist_of` recent cfg k (le_time x) (log ++ [x]) /\
  (is_hot (le_time x) s' = false -> ks_hot_until s' = None).
Proof using Hkeys Hhits Hwide.
  intros k s' Hs Hw (Ht & Hlen & Hsub & Hfl & Hfs & Htr). unfold s', record_request.
  set (c := le_time x - default _ _) in *.
  pose proof (make_space c s Ht Hlen) as Hm. cbv zeta in Hm. set (s2 := if (_ <=? _)%nat then _ else _) in *.
  destruct Hm as (Ht2 & Hlen2 & Hsuf & Hhot2 & Hfl2). cbn [ks_hits ks_hot_until ks_flagged ks_ip_counts].
  assert (Hsub2 : ks_hits s2 ++ [(le_time x, le_ip x)] `sublist_of` of_key k (log ++ [x])).
  { unfold k. rewrite of_key_snoc. apply sublist_app; [|done]. etransitivity; [|exact Hsub].
    etransitivity; apply suffix_sublist; [exact Hsuf|apply drop_while_suffix]. }
  assert (Hwin : Forall (fun y => c <= y.1) (ks_hits s2 ++ [(le_time x, le_ip x)])).
  { apply Forall_app. split; [|rewrite Forall_singleton; simpl; subst c; lia].
    apply (suffix_Forall _ _ _ Hsuf), sorted_times. eapply sublist_sorted; [|exact Hs]. apply (fmap_sublist fst).
    unfold k. rewrite of_key_snoc. by apply sublist_inserts_r. }
  assert (Hh : forall t, is_hot (le_time x) s2 = false -> ks_hot_until s2 = Some t -> (le_time x <=? t) = false).
  { intros t E E'. unfold is_hot in E. by rewrite E' in E. }
  rewrite Hhot2, Hfl2 in *. split_and!.
  - split_and!; cbn [ks_hits ks_hot_until ks_flagged ks_ip_counts].
    + apply tally_push; [lia|done].
    + rewrite length_app. simpl. lia.
    + done.
    + destruct (ks_hot_until s) as [t|] eqn:E; [|intros _; by apply Hfl]. by destruct (is_hot _ s2).
    + case_match; [rewrite size_empty; lia|done].
    + intros Hsome. apply triggered_app, Htr. destruct (ks_hot_until s); [by eexists|]. by destruct Hsome.
  - by apply recent_sublist.
  - unfold is_hot at 1. cbn [ks_hot_until]. destruct (ks_hot_until s) as [t|] eqn:E; [|done].
    destruct (is_hot (le_time x) s2) eqn:E2; simpl; [|done]. unfold is_hot in E2. rewrite Hhot2 in E2. by rewrite E2.
Qed.

Lemma sweep_keys_sub (now : DateTime) (keys : gmap bytes KeyState) : sweep_keys cfg now keys ⊆ keys.
Proof. apply map_filter_subseteq. Qed.

Lemma make_room_spec (now : DateTime) (keys : gmap bytes KeyState) :
  (size (make_room cfg now keys) < cg_max_keys cfg)%nat /\ make_room cfg now keys ⊆ keys.
Proof using order Hkeys.
  unfold make_room. destruct (Nat.ltb_spec (size keys) (cg_max_keys cfg)) as [Hlt|_]; [done|].
  destruct (evict_until_spec (size (sweep_keys cfg now keys)) (cg_max_keys cfg) now (sweep_keys cfg now keys) Hkeys ltac:(done))
    as [Hsz Hsub]. split; [done|]. etransitivity; [exact Hsub|apply sweep_keys_sub].
Qed.

Lemma window_nonneg (w dflt : Duration) : 0 <= w -> 0 <= dflt -> 0 <= default dflt (duration_from_std w).
Proof. intros Hw Hd. unfold duration_from_std. by destruct (_ <=? _). Qed.

Definition signal_backed (log : list LogEntry) (s : DetectionSignal) : Prop :=
  exists ip, sig_source_ip s = ip_to_net ip /\ backed cfg ip log.

(** The thresholds reached on the hits kept are reached on the log. *)
Lemma trigger (log : list LogEntry) (x : LogEntry) (s : KeyState) :
  ks_hits s `sublist_of` recent cfg (h_key (le_hit x)) (le_time x) (log ++ [x]) -> tally (ks_hits s) (ks_ip_counts s) ->
  (h_min_ips (le_hit x) <= size (ks_ip_counts s))%nat -> (cg_min_requests cfg <= length (ks_hits s))%nat ->
  triggered cfg (h_key (le_hit x)) (log ++ [x]).
Proof.
  intros Hsub Ht Hd Hr. exists log, x, []. split_and!; [done|done| |].
  - rewrite (tally_size _ _ Ht) in Hd. etransitivity; [exact Hd|]. apply subseteq_size. intros ip.
    rewrite !elem_of_list_to_set. intros Hin. eapply elem_of_sublist; [exact Hin|]. by apply (fmap_sublist snd).
  - etransitivity; [exact Hr|]. by apply sublist_length.
Qed.

Lemma campaign_inv_put (log : list LogEntry) (x : LogEntry) (i : CampaignInner) (keys : gmap bytes KeyState) (s : KeyState)
    (pending : list Pending) :
  map_Forall (key_ok cfg log) keys -> (size (delete (h_key (le_hit x)) keys) < cg_max_keys cfg)%nat ->
  key_ok cfg (log ++ [x]) (h_key (le_hit x)) s ->
  Forall (fun p => backed cfg (pd_ip p) (log ++ [x])) pending -> (N.of_nat (length pending) <= MAX_PENDING)%N ->
  campaign_inv cfg (log ++ [x]) {| ci_keys := <[h_key (le_hit x) := s]> keys; ci_pending := pending;
    ci_matched_events := ci_matched_events i |}.
Proof using Hkeys Hhits.
  intros Hk Hsz Hs Hp Hl. split_and!; cbn [ci_keys ci_pending]; [|..|done|done].
  - rewrite <- insert_delete_eq, map_size_insert_None by apply lookup_delete_eq. lia.
  - apply map_Forall_insert_2; [done|]. eapply map_Forall_impl; [exact Hk|]. intros k st. apply key_ok_app.
Qed.

(** The map a hit is recorded in: room for the key, nothing new. *)
Lemma hit_keys (now : DateTime) (k : bytes) (keys : gmap bytes KeyState) : (size keys <= cg_max_keys cfg)%nat ->
  let keys' := match keys !! k with Some _ => keys | None => make_room cfg now keys end in
  keys' ⊆ keys /\ (size (delete k keys') < cg_max_keys cfg)%nat /\ keys' !! k = keys !! k.
Proof using order Hkeys Hhits.
  intros Hsz. cbv zeta. destruct (keys !! k) as [s|] eqn:E.
  - split_and!; [done| |done]. rewrite map_size_delete, E. simpl. unfold id.
    assert (size keys <> 0)%nat by (intros E0; apply map_size_empty_inv in E0; by subst). lia.
  - destruct (make_room_spec now keys) as [Hlt Hsub]. pose proof (lookup_weaken_None _ _ k E Hsub) as En.
    split_and!; [done| |done]. by rewrite delete_id.
Qed.

Lemma set_hot_ok (log : list LogEntry) (k : bytes) (s : KeyState) (until : DateTime) (flagged : gset IpAddr) :
  key_ok cfg log k s -> (N.of_nat (size flagged) <= MAX_FLAGGED_PER_KEY)%N -> triggered cfg k log ->
  key_ok cfg log k (set_hot until flagged s).
Proof. intros (? & ? & ? & ? & ? & ?) ? ?. by split_and!. Qed.

Lemma key_ok_new (log : list LogEntry) (k : bytes) (kind : KeyKind) (label : bytes) (now : DateTime) :
  key_ok cfg log k (key_state_new kind label now).
Proof. split_and!; simpl; [done|apply Nat.le_0_l|apply sublist_nil_l|done|done|by intros [? ?]]. Qed.

Lemma respond_ok (log : list LogEntry) (x : LogEntry) (s : KeyState) (pending : list Pending) :
  let k := h_key (le_hit x) in
  key_ok cfg (log ++ [x]) k s -> ks_hits s `sublist_of` recent cfg k (le_time x) (log ++ [x]) ->
  (is_hot (le_time x) s = false -> ks_hot_until s = None) ->
  Forall (fun p => backed cfg (pd_ip p) (log ++ [x])) pending -> (N.of_nat (length pending) <= MAX_PENDING)%N ->
  let '(s', pending', out) := respond cfg (le_hit x) (le_ip x) (le_time x) s pending in
  key_ok cfg (log ++ [x]) k s' /\ Forall (fun p => backed cfg (pd_ip p) (log ++ [x])) pending' /\
  (N.of_nat (length pending') <= MAX_PENDING)%N /\ Forall (signal_backed (log ++ [x])) out /\ (length out <= 1)%nat.
Proof using order Hkeys Hhits Hwide.
  intros k Hok Hrec Hcold Hp Hl. pose proof Hok as (Ht & _ & Hsub & Hfl & Hfs & Htr).
  assert (Hback : triggered cfg k (log ++ [x]) -> forall ip, participant k ip (log ++ [x]) -> backed cfg ip (log ++ [x]))
    by (intros ? ip ?; by exists k).
  assert (Hme : participant k (le_ip x) (log ++ [x])).
  { exists x. split; [|done]. apply elem_of_app. right. by apply list_elem_of_singleton. }
  unfold respond. destruct (is_hot (le_time x) s) eqn:Ehot.
  - assert (Htrig : triggered cfg k (log ++ [x])).
    { apply Htr. unfold is_hot in Ehot. by destruct (ks_hot_until s). }
    destruct (N.ltb_spec (N.of_nat (size (ks_flagged s))) MAX_FLAGGED_PER_KEY) as [Hlt|Hge]; simpl andb; cycle 1.
    { split_and!; [by apply set_hot_ok|done..|simpl; lia]. }
    case_bool_decide as Hin; simpl negb; cbv iota; (split_and!; [apply set_hot_ok; [done| |done]|done|done| |simpl; lia]); try done.
    + rewrite size_union, size_singleton by set_solver. lia.
    + rewrite Forall_singleton. exists (le_ip x). split; [done|by apply Hback].
  - destruct (Nat.ltb_spec (size (ks_ip_counts s)) (h_min_ips (le_hit x))) as [|Hd]; [simpl; by split_and!; try lia|].
    destruct (Nat.ltb_spec (length (ks_hits s)) (cg_min_requests cfg)) as [|Hr]; [simpl; by split_and!; try lia|].
    simpl orb. cbv iota zeta. pose proof (trigger log x s Hrec Ht Hd Hr) as Htrig. fold k in Htrig.
    rewrite Hfl in * by auto.
    set (reason := (_ +:+ _)%string). set (ps := take _ _).
    assert (Hps : Forall (fun p => backed cfg p (log ++ [x])) ps).
    { apply Forall_take, Forall_forall. intros p [Hin _]%elem_of_lfilter. apply Hback; [done|]. apply of_key_participant.
      apply elem_of_hash_iter in Hin. rewrite (tally_dom _ _ Ht), elem_of_list_to_set in Hin.
      eapply elem_of_sublist; [exact Hin|]. by apply (fmap_sublist snd). }
    pose proof (queue_retro_ok (fun p => backed cfg p (log ++ [x])) reason ps ({[le_ip x]} ∪ ∅) pending Hps Hp) as Hq.
    rewrite union_empty_r_L, size_singleton in *.
    assert (Hres : forall fl, (N.of_nat (size fl) <= MAX_FLAGGED_PER_KEY)%N -> key_ok cfg (log ++ [x]) k (set_hot (le_time x + default (secs (6 * 3600)) (duration_from_std (cg_hot_duration cfg))) fl s)) by (intros fl ?; by apply set_hot_ok).
    assert (Hsig : Forall (signal_backed (log ++ [x])) [campaign_signal cfg (le_ip x) reason (le_time x)]).
    { rewrite Forall_singleton. exists (le_ip x). split; [done|by apply Hback]. }
    destruct (cg_retro_ban cfg); [destruct (queue_retro _ _ _ _) as [fl pend]; destruct Hq as (? & ? & ?); [done|done|]|];
      (split_and!; [apply Hres; rewrite ?size_singleton; done|done..]).
Qed.

(** One call of [hit]. *)
Lemma hit_ok (log : list LogEntry) (x : LogEntry) (i : CampaignInner) :
  0 <= cg_window cfg -> StronglySorted Z.le (le_time <$> log ++ [x]) -> campaign_inv cfg log i ->
  let '(i', out) := hit cfg (le_hit x) (le_ip x) (le_time x) i in
  campaign_inv cfg (log ++ [x]) i' /\ Forall (signal_backed (log ++ [x])) out /\ (length out <= 1)%nat.
Proof using order Hkeys Hhits Hwide.
  intros Hw Hs (Hsz & Hk & Hp & Hl). set (k := h_key (le_hit x)).
  destruct (hit_keys (le_time x) k (ci_keys i) Hsz) as (Hsub & Hroom & Hlook). unfold hit. fold k.
  set (keys := match ci_keys i !! k with Some _ => _ | None => _ end) in *.
  assert (Hks : map_Forall (key_ok cfg log) keys) by (intros j s Hj; apply Hk; by eapply lookup_weaken).
  set (s0 := default _ (keys !! k)).
  assert (Hs0 : key_ok cfg log k s0).
  { unfold s0. destruct (keys !! k) as [s|] eqn:E; simpl; [by apply Hks|apply key_ok_new]. }
  assert (Hsk : StronglySorted Z.le (of_key k (log ++ [x])).*1).
  { eapply sublist_sorted; [|exact Hs]. unfold of_key. rewrite <- list_fmap_compose. apply (fmap_sublist le_time), filter_sublist. }
  destruct (record_request_ok log x s0 Hsk (window_nonneg _ (minutes 30) Hw ltac:(done)) Hs0) as (Hok & Hrec & Hcold).
  pose proof (respond_ok log x _ (ci_pending i) Hok Hrec Hcold) as Hr.
  destruct (respond _ _ _ _ _ _) as [[s pending] out]. destruct Hr as (Hs' & Hp' & Hl' & Hout & Hn); [|done|].
  { eapply Forall_impl; [exact Hp|]. intros p. apply backed_app. }
  split_and!; [|done|done]. by apply campaign_inv_put.
Qed.

Definition entries (hs : list Hit) (now : DateTime) (ip : IpAddr) : list LogEntry :=
  (fun h => {| le_hit := h; le_time := now; le_ip := ip |}) <$> hs.

Lemma hits_ok (hs : list Hit) (now : DateTime) (ip : IpAddr) (log : list LogEntry) (i : CampaignInner) :
  0 <= cg_window cfg -> StronglySorted Z.le (le_time <$> log ++ entries hs now ip) -> campaign_inv cfg log i ->
  let '(i', out) := hits cfg hs ip now i in
  campaign_inv cfg (log ++ entries hs now ip) i' /\ Forall (signal_backed (log ++ entries hs now ip)) out /\
  (length out <= length hs)%nat.
Proof using order Hkeys Hhits Hwide.
  intros Hw. revert log i. induction hs as [|h hs IH]; intros log i Hs Hi; [by rewrite app_nil_r|].
  cbn [hits]. set (x := {| le_hit := h; le_time := now; le_ip := ip |}).
  assert (E : log ++ entries (h :: hs) now ip = (log ++ [x]) ++ entries hs now ip) by by rewrite <- app_assoc.
  rewrite E in *. clear E. pose proof (hit_ok log x i Hw) as Hh. cbn [le_hit le_ip le_time x] in Hh.
  destruct (hit cfg h ip now i) as [i1 out1]. destruct Hh as (Hi1 & Ho1 & Hn1); [|done|].
  { rewrite fmap_app in Hs. by apply StronglySorted_app in Hs as (_ & Hs & _). }
  specialize (IH (log ++ [x]) i1 Hs Hi1). destruct (hits cfg hs ip now i1) as [i2 out2]. destruct IH as (Hi2 & Ho2 & Hn2).
  split_and!; [done| |rewrite length_app; simpl; lia].
  apply Forall_app. split; [|done]. eapply Forall_impl; [exact Ho1|]. intros s (a & Ha & Hb). exists a. split; [done|]. by apply backed_app.
Qed.

Lemma count_matched_inv (log : list LogEntry) (now : DateTime) (i : CampaignInner) :
  campaign_inv cfg log i -> campaign_inv cfg log (count_matched cfg now i).
Proof.
  intros (Hsz & Hk & Hp & Hl). split_and!; simpl; [| |done|done]; (case_match; [|done]).
  - etransitivity; [|exact Hsz]. apply map_subseteq_size, sweep_keys_sub.
  - intros k s Hs. apply Hk. by eapply lookup_weaken; [|apply sweep_keys_sub].
Qed.

Lemma dedup_sources_sub (l : list DetectionSignal) (seen : gset IpNet) : dedup_sources seen l `sublist_of` l.
Proof.
  revert seen. induction l as [|s l IH]; intros seen; simpl; [done|].
  case_bool_decide; [apply sublist_cons, IH|apply sublist_skip, IH].
Qed.
End invariant.

(** ** Runs *)
Section runs.
Context `{IpNetOps} `{Blake3} `{HashIter} {order : HashIterLaws}.

Lemma request_hits_static (d d' : CampaignDetector) (e : NormalizedEvent) :
  cg_cfg d = cg_cfg d' -> cg_methods_upper d = cg_methods_upper d' -> cg_ignore_ua_lower d = cg_ignore_ua_lower d' ->
  request_hits d e = request_hits d' e.
Proof. destruct d, d'. simpl. by intros -> -> ->. Qed.

Lemma request_hits_length (d : CampaignDetector) (e : NormalizedEvent) (hs : list Hit) :
  request_hits d e = Some (Some hs) -> (length hs <= 2)%nat.
Proof.
  unfold request_hits. repeat (case_match; try done); intros [= <-]; simpl; lia.
Qed.

(** The detector at work on the events [es]. *)
Definition at_work (cfg : CampaignConfig) (es : list NormalizedEvent) (d : CampaignDetector) : Prop :=
  let d0 := campaign_with_config cfg in
  cg_cfg d = cg_cfg d0 /\ cg_methods_upper d = cg_methods_upper d0 /\ cg_ignore_ua_lower d = cg_ignore_ua_lower d0 /\
  campaign_inv (cg_cfg d0) (campaign_log d0 es) (cg_inner d).

(** All events of a run, and all its signals; [None] once the code panics. *)
Fixpoint campaign_run (es : list NormalizedEvent) (d : CampaignDetector) : option (CampaignDetector * list DetectionSignal) :=
  match es with
  | [] => Some (d, [])
  | e :: es' =>
      match campaign_process_multi e d with
      | None => None
      | Some (d, out) => match campaign_run es' d with None => None | Some (d, out') => Some (d, out ++ out') end
      end
  end.

(** The fingerprints an event counts under. *)
Definition event_hits (d : CampaignDetector) (e : NormalizedEvent) : list Hit :=
  match (if is_http (ev_event_type e) then request_hits d e else Some None) with Some (Some hs) => hs | _ => [] end.

Lemma campaign_log_snoc (d : CampaignDetector) (es : list NormalizedEvent) (e : NormalizedEvent) :
  campaign_log d (es ++ [e]) = campaign_log d es ++ entries (event_hits d e) (ev_timestamp e) (ev_source_ip e).
Proof. unfold campaign_log, event_hits. rewrite flat_map_app. cbn [flat_map]. rewrite app_nil_r. by repeat case_match. Qed.

Lemma event_hits_length (d : CampaignDetector) (e : NormalizedEvent) : (length (event_hits d e) <= 2)%nat.
Proof.
  unfold event_hits. destruct (is_http _); [|simpl; lia]. destruct (request_hits d e) as [[hs|]|] eqn:E; simpl; [|lia..].
  by apply request_hits_length in E.
Qed.

Lemma http_ok (cfg : CampaignConfig) (d : CampaignDetector) (e : NormalizedEvent) (log : list LogEntry) (i i' : CampaignInner)
    (out : list DetectionSignal) (log' := log ++ entries (event_hits d e) (ev_timestamp e) (ev_source_ip e)) :
  cg_cfg d = cfg -> (1 <= cg_max_keys cfg)%nat -> (1 <= cg_max_hits_per_key cfg)%nat ->
  Z.of_nat (cg_max_hits_per_key cfg) < 2 ^ 32 -> 0 <= cg_window cfg -> StronglySorted Z.le (le_time <$> log') ->
  campaign_inv cfg log i ->
  (if is_http (ev_event_type e) then process_http d e i else Some (i, [])) = Some (i', out) ->
  campaign_inv cfg log' i' /\ Forall (signal_backed cfg log') out /\ (length out <= 2)%nat.
Proof using order.
  intros Hc Hk Hh Hwide Hw Hs Hi Hstep. pose proof (event_hits_length d e) as Hlen.
  unfold log', event_hits, process_http in *. rewrite Hc in Hstep. destruct (is_http _); [|injection Hstep as <- <-; by rewrite app_nil_r].
  destruct (request_hits d e) as [[hs|]|]; [|injection Hstep as <- <-; by rewrite app_nil_r|done].
  pose proof (hits_ok cfg Hk Hh Hwide hs (ev_timestamp e) (ev_source_ip e) log (count_matched cfg (ev_timestamp e) i) Hw Hs) as Hr.
  injection Hstep as Hstep. rewrite Hstep in Hr. destruct Hr as (? & ? & ?); [by apply count_matched_inv|]. split_and!; [done|done|lia].
Qed.

(** One event. *)
Lemma process_multi_at_work (cfg : CampaignConfig) (es : list NormalizedEvent) (e : NormalizedEvent) (d d' : CampaignDetector)
    (out : list DetectionSignal) (d0 := campaign_with_config cfg) (log' := campaign_log d0 (es ++ [e])) :
  0 <= cg_window cfg -> Z.of_nat (cg_max_hits_per_key cfg) < 2 ^ 32 -> StronglySorted Z.le (le_time <$> log') ->
  at_work cfg es d -> campaign_process_multi e d = Some (d', out) ->
  at_work cfg (es ++ [e]) d' /\ Forall (signal_backed (cg_cfg d0) log') out /\ (length out <= Nat.max (cg_retro_batch cfg) 1 + 2)%nat.
Proof using order.
  intros Hw Hwide Hs (Hc & Hm & Hu & Hi) Hstep. fold d0 in Hc, Hm, Hu, Hi. unfold campaign_process_multi in Hstep. rewrite Hc in Hstep.
  set (batch := cg_retro_batch (cg_cfg d0)) in *. set (i0 := {| ci_keys := _; ci_pending := drop _ _; ci_matched_events := _ |}) in *.
  destruct Hi as (Hsz & Hk & Hp & Hl). set (log := campaign_log d0 es) in *.
  assert (Hi0 : campaign_inv (cg_cfg d0) log i0).
  { split_and!; cbn [ci_keys ci_pending i0]; [done|done|by apply Forall_drop|]. rewrite length_drop. lia. }
  assert (Elog : log' = log ++ entries (event_hits d e) (ev_timestamp e) (ev_source_ip e)).
  { unfold log', event_hits. rewrite campaign_log_snoc. unfold event_hits. by rewrite (request_hits_static d d0). }
  destruct (if is_http _ then _ else _) as [[i' out']|] eqn:E; [|done]. injection Hstep as <- <-.
  pose proof (http_ok (cg_cfg d0) d e log i0 i' out' Hc) as Hh. rewrite <- Elog in Hh.
  destruct Hh as (Hi' & Ho & Hn); [simpl; lia|simpl; lia|simpl; lia|done|done|done|done|].
  set (drained := (fun p => _) <$> take batch (ci_pending (cg_inner d))).
  assert (Hd : Forall (signal_backed (cg_cfg d0) log') (drained ++ out')).
  { apply Forall_app. split; [|done]. unfold drained. apply Forall_fmap, Forall_take. eapply Forall_impl; [exact Hp|].
    intros p Hb. exists (pd_ip p). split; [done|]. rewrite Elog. by apply backed_app. }
  assert (Hdn : (length (drained ++ out') <= Nat.max (cg_retro_batch cfg) 1 + 2)%nat).
  { unfold drained. rewrite length_app, length_fmap, length_take. unfold batch. cbn [d0 campaign_with_config cg_cfg cg_retro_batch]. lia. }
  split; [by split_and!|]. destruct (1 <? _)%nat; [|done]. pose proof (dedup_sources_sub (drained ++ out') ∅) as Hsub.
  split; [|apply sublist_length in Hsub; lia].
  rewrite Forall_forall in Hd |- *. intros s Hin. apply Hd. by eapply elem_of_sublist.
Qed.

Lemma log_times (d : CampaignDetector) (es : list NormalizedEvent) (x : LogEntry) :
  x ∈ campaign_log d es -> le_time x ∈ ev_timestamp <$> es.
Proof.
  induction es as [|e es IH] using rev_ind; [by intros ?%not_elem_of_nil|]. rewrite campaign_log_snoc, fmap_app, !elem_of_app.
  intros [Hx|Hx]; [left; by apply IH|right]. apply list_elem_of_fmap in Hx as (h & -> & _). by apply list_elem_of_singleton.
Qed.

Lemma log_sorted (d : CampaignDetector) (es : list NormalizedEvent) :
  StronglySorted Z.le (ev_timestamp <$> es) -> StronglySorted Z.le (le_time <$> campaign_log d es).
Proof.
  induction es as [|e es IH] using rev_ind; [constructor|]. rewrite campaign_log_snoc, !fmap_app. intros Hs.
  destruct (proj1 (StronglySorted_app _ _ _) Hs) as (Hle & Hs' & _). apply StronglySorted_app_2; [|by apply IH|].
  - intros t u (x & -> & Hx)%list_elem_of_fmap (y & -> & Hy)%list_elem_of_fmap. apply list_elem_of_fmap in Hy as (h & -> & _).
    apply Hle; [by eapply log_times|by apply list_elem_of_singleton].
  - unfold entries. rewrite <- list_fmap_compose. induction (event_hits d e) as [|h hs IHh]; simpl; constructor; [done|].
    apply Forall_fmap, Forall_true. intros ?. simpl. lia.
Qed.

Lemma run_at_work (cfg : CampaignConfig) (pre es : list NormalizedEvent) (d d' : CampaignDetector) (out : list DetectionSignal) :
  0 <= cg_window cfg -> Z.of_nat (cg_max_hits_per_key cfg) < 2 ^ 32 -> StronglySorted Z.le (ev_timestamp <$> pre ++ es) ->
  at_work cfg pre d -> campaign_run es d = Some (d', out) ->
  at_work cfg (pre ++ es) d' /\
  Forall (signal_backed (cg_cfg (campaign_with_config cfg)) (campaign_log (campaign_with_config cfg) (pre ++ es))) out.
Proof using order.
  intros Hw Hwide. revert pre d out. induction es as [|e es IH]; intros pre d out Hs Hi; cbn [campaign_run].
  { intros [= <- <-]. by rewrite app_nil_r. }
  destruct (campaign_process_multi e d) as [[d1 out1]|] eqn:E1; [|done].
  destruct (campaign_run es d1) as [[d2 out2]|] eqn:E2; [|done]. intros [= <- <-].
  rewrite cons_middle, app_assoc in Hs |- *. assert (Hs1 : StronglySorted Z.le (ev_timestamp <$> pre ++ [e])).
  { rewrite fmap_app in Hs. by apply StronglySorted_app in Hs as (_ & Hs & _). }
  destruct (process_multi_at_work cfg pre e d d1 out1 Hw Hwide (log_sorted _ _ Hs1) Hi E1) as (Hi1 & Ho1 & _).
  destruct (IH (pre ++ [e]) d1 out2 Hs Hi1 E2) as [Hi2 Ho2]. split; [done|]. apply Forall_app. split; [|done].
  eapply Forall_impl; [exact Ho1|]. intros s (ip & Hip & Hb). exists ip. split; [done|].
  unfold campaign_log in *. rewrite flat_map_app. by apply backed_app.
Qed.

Lemma at_work_new (cfg : CampaignConfig) : at_work cfg [] (campaign_with_config cfg).
Proof. split_and!; [done..|]. split_and!; simpl; [rewrite map_size_empty; lia|apply map_Forall_empty|constructor|done]. Qed.

(** Every address the campaign detector signals, at once or from the queue, took
    part in a campaign that reached the thresholds: it made a counted request
    under some fingerprint, and at some request of that fingerprint the window
    that ended there held at least the required number of distinct addresses and
    of requests. Nobody is banned for other people's requests. *)
Theorem campaign_signals_backed (cfg : CampaignConfig) (es : list NormalizedEvent) (d : CampaignDetector) (out : list DetectionSignal)
  (Hw : 0 <= cg_window cfg) (Hwide : Z.of_nat (cg_max_hits_per_key cfg) < 2 ^ 32)
  (Hs : StronglySorted Z.le (ev_timestamp <$> es))
  (Hrun : campaign_run es (campaign_with_config cfg) = Some (d, out)) :
  forall s, s ∈ out -> exists ip k,
    let log := campaign_log (campaign_with_config cfg) es in
    sig_source_ip s = ip_to_net ip /\ participant k ip log /\ triggered cfg k log.
Proof using order.
  intros s Hin. destruct (run_at_work cfg [] es _ d out Hw Hwide Hs (at_work_new cfg) Hrun) as [_ Ho].
  rewrite Forall_forall in Ho. destruct (Ho s Hin) as (ip & Hip & k & Hpart & Htrig). by exists ip, k.
Qed.

(** The campaign detector works in bounded memory and emits bounded batches:
    after any run, at most [max_keys] fingerprints, [max_hits_per_key] requests
    and 50000 signalled addresses per fingerprint and 20000 queued signals are
    kept, and the next event emits at most [retro_batch + 2] signals. *)
Theorem campaign_bounded (cfg : CampaignConfig) (es : list NormalizedEvent) (d : CampaignDetector) (out : list DetectionSignal)
  (Hw : 0 <= cg_window cfg) (Hwide : Z.of_nat (cg_max_hits_per_key cfg) < 2 ^ 32)
  (Hs : StronglySorted Z.le (ev_timestamp <$> es))
  (Hrun : campaign_run es (campaign_with_config cfg) = Some (d, out)) :
  (size (ci_keys (cg_inner d)) <= Nat.max (cg_max_keys cfg) 1)%nat /\
  (N.of_nat (length (ci_pending (cg_inner d))) <= 20000)%N /\
  (forall k s, ci_keys (cg_inner d) !! k = Some s ->
    (length (ks_hits s) <= Nat.max (cg_max_hits_per_key cfg) 1)%nat /\ (N.of_nat (size (ks_flagged s)) <= 50000)%N /\
    size (ks_ip_counts s) = size (list_to_set (snd <$> ks_hits s) : gset IpAddr)) /\
  (forall e d' out', Forall (fun x => ev_timestamp x <= ev_timestamp e) es -> campaign_process_multi e d = Some (d', out') ->
    (length out' <= Nat.max (cg_retro_batch cfg) 1 + 2)%nat).
Proof using order.
  destruct (run_at_work cfg [] es _ d out Hw Hwide Hs (at_work_new cfg) Hrun) as [Hi _].
  destruct Hi as (Hc & Hm & Hu & Hsz & Hk & Hp & Hl) eqn:E. clear E. split_and!; [done|done| |].
  - intros k s Hs'. destruct (Hk k s Hs') as (Ht & Hlen & _ & _ & Hf & _). split_and!; [done|done|by apply tally_size].
  - intros e d' out' He Hstep. eapply (process_multi_at_work cfg es e d d' out' Hw Hwide); [|done|done].
    apply log_sorted. rewrite fmap_app. apply StronglySorted_app_2; [|done|by repeat constructor].
    intros t u (x & -> & Hx)%list_elem_of_fmap ->%list_elem_of_singleton. rewrite Forall_forall in He. by apply He.
Qed.
End runs.

(** ** The panic *)
Section panic.
Context `{IpNetOps} `{Blake3} `{HashIter}.

(** The endpoint is passed over: too long, or another path. *)
Definition passed_over (path p : bytes) : Prop :=
  (length path < length p)%nat \/
  (is_char_boundary (length p) path = true /\ eq_ignore_ascii_case (take (length p) path) p = false).

Lemma find_endpoint_panics (paths : list bytes) (path : bytes) : find_endpoint paths path = None <->
  exists pre p post, paths = pre ++ p :: post /\ Forall (passed_over path) pre /\
    (length p <= length path)%nat /\ is_char_boundary (length p) path = false.
Proof.
  induction paths as [|p ps IH]; simpl; [split; [done|]; intros (pre & ? & ? & E & _); by destruct pre|].
  assert (Hnext : passed_over path p ->
    (exists pre q post, ps = pre ++ q :: post /\ Forall (passed_over path) pre /\ (length q <= length path)%nat /\ is_char_boundary (length q) path = false) <->
    (exists pre q post, p :: ps = pre ++ q :: post /\ Forall (passed_over path) pre /\ (length q <= length path)%nat /\ is_char_boundary (length q) path = false)).
  { intros Hp. split; intros (pre & q & post & E & Hpre & Hq & Hb).
    - exists (p :: pre), q, post. subst. split_and!; [done|by constructor|done|done].
    - destruct pre as [|p' pre]; simplify_eq/=; [|apply Forall_cons in Hpre as [_ Hpre]; by exists pre, q, post].
      destruct Hp as [Hp|[Hp _]]; [lia|congruence]. }
  destruct (Nat.ltb_spec (length path) (length p)) as [Hlt|Hge]; [rewrite IH; apply Hnext; by left|].
  unfold slice_to. destruct (is_char_boundary (length p) path) eqn:Eb; [|split; [|done]; intros _; by exists [], p, ps].
  destruct (eq_ignore_ascii_case (take (length p) path) p) eqn:Ee; [|rewrite IH; apply Hnext; by right].
  split; [done|]. intros (pre & q & post & E & Hpre & Hq & Hb). destruct pre as [|p' pre]; simplify_eq/=; [congruence|].
  apply Forall_cons in Hpre as [[Hp|[_ Hp]] _]; [lia|congruence].
Qed.

(** The detector panics exactly on a request with a counted method whose path
    has, at the length of a configured endpoint, the middle of a character (and
    no earlier endpoint matches): the slice [path[..p.len()]] is not on a
    character boundary. The path is the attacker's. *)
Theorem campaign_panics_exactly (e : NormalizedEvent) (d : CampaignDetector) :
  campaign_process_multi e d = None <->
  is_http (ev_event_type e) = true /\
  exists m path pre p post, meta e "method" = Some m /\ to_ascii_uppercase m ∈ cg_methods_upper d /\ meta e "path" = Some path /\
    cg_paths (cg_cfg d) = pre ++ p :: post /\ Forall (passed_over (strip_query path)) pre /\
    (length p <= length (strip_query path))%nat /\ is_char_boundary (length p) (strip_query path) = false.
Proof.
  unfold campaign_process_multi. transitivity (is_http (ev_event_type e) = true /\ request_hits d e = None).
  { destruct (is_http _); [|split; [done|by intros [? _]]]. unfold process_http. destruct (request_hits d e) as [[hs|]|]; simpl.
    - destruct (hits _ _ _ _ _). split; [done|by intros [_ ?]].
    - split; [done|by intros [_ ?]].
    - done. }
  apply and_iff_compat_l. unfold request_hits. destruct (meta e "method") as [m|]; [|split; [done|naive_solver]].
  case_bool_decide as Hm; simpl negb; cbv iota; [|split; [done|naive_solver]].
  destruct (meta e "path") as [path|]; [|split; [done|naive_solver]]. transitivity (matched_endpoint d path = None).
  { destruct (matched_endpoint d path) as [[ep|]|]; [|done|done]. split; [|done]. by repeat case_match. }
  unfold matched_endpoint. rewrite find_endpoint_panics. naive_solver.
Qed.
End panic.

(** ** Witnesses *)
Module CampaignSample.
#[local] Existing Instance ipnet_ref.
#[local] Existing Instance hash_iter_ref.
#[local] Instance blake : Blake3 := fun _ => replicate 32 0.

Definition post (host t : Z) (path : bytes) : NormalizedEvent :=
  {| ev_timestamp := secs t; ev_source_ip := IpV4 host; ev_event_type := HttpRequest; ev_source_name := "nginx"; ev_raw_line := "";
     ev_metadata := list_to_map [("method", "post"); ("path", of_bytes path); ("user_agent", " audit/1.0 "); ("status_code", "200")]%string |}.
Definition cfg : CampaignConfig :=
  {| cg_paths := default_campaign_paths; cg_methods := [as_bytes "POST"]; cg_window := secs 60; cg_min_distinct_ips := 3;
     cg_min_requests := 3; cg_hot_duration := secs 600; cg_ban_duration := secs 3600;
     cg_ignore_user_agents := default_campaign_ignore_user_agents; cg_ignore_vhosts := []; cg_ignore_redirects := true;
     cg_vhost_min_distinct_ips := 0; cg_retro_ban := true; cg_max_retro_bans := 10; cg_retro_batch := 1;
     cg_max_keys := 4; cg_max_hits_per_key := 5 |}.
Definition login : bytes := as_bytes "/WP-login.php?x=1".
Definition es : list NormalizedEvent := [post 1 0 login; post 2 10 login; post 3 20 login; post 4 30 login; post 4 40 (as_bytes "/")].

Definition signalled (r : option (CampaignDetector * list DetectionSignal)) : list IpNet :=
  match r with Some (_, out) => sig_source_ip <$> out | None => [] end.

(** Three addresses trigger; the fourth is signalled on its first request, and
    the first two from the queue, one per event. *)
Example campaign_sample : signalled (campaign_run es (campaign_with_config cfg)) =
  [NetV4 3 32; NetV4 2 32; NetV4 4 32; NetV4 1 32].
Proof. by vm_compute. Qed.

(** [POST /wp-login.phé]: the thirteenth byte is inside the last character. *)
Example campaign_multibyte_panics :
  campaign_process_multi (post 1 0 (as_bytes "/wp-login.ph" ++ [195; 169])) campaign_new = None.
Proof. by vm_compute. Qed.

Definition d : CampaignDetector := match campaign_run es (campaign_with_config cfg) with Some (d, _) => d | None => campaign_new end.
Definition out : list DetectionSignal := match campaign_run es (campaign_with_config cfg) with Some (_, out) => out | None => [] end.
Lemma es_sorted : StronglySorted Z.le (ev_timestamp <$> es).
Proof. apply (bool_decide_unpack _). by vm_compute. Qed.
Lemma es_run : campaign_run es (campaign_with_config cfg) = Some (d, out).
Proof. by vm_compute. Qed.

(** The queued signal for the first address. *)
Lemma campaign_signals_backed_witness :
  out <> [] /\ Forall (fun s => exists ip k,
    let log := campaign_log (campaign_with_config cfg) es in
    sig_source_ip s = ip_to_net ip /\ participant k ip log /\ triggered cfg k log) out.
Proof.
  split; [by vm_compute|]. apply Forall_forall.
  apply (@campaign_signals_backed _ _ _ hash_iter_ref_laws cfg es d out); [by vm_compute|by vm_compute|exact es_sorted|exact es_run].
Defined.

Lemma campaign_bounded_witness : (size (ci_keys (cg_inner d)) <= 4)%nat.
Proof.
  refine (proj1 (@campaign_bounded _ _ _ hash_iter_ref_laws cfg es d out _ _ _ _));
    [by vm_compute|by vm_compute|exact es_sorted|exact es_run].
Defined.
End CampaignSample.
