(* ===== verification/Webshell.v ===== *)
(** * The web-shell probe detector ([detectors/webshell_probe.rs])

    Per source, the distinct suspicious PHP paths it asked for in a long window,
    each worth some points; the source is signalled on enough paths and enough
    points. The points are single-precision floats. *)
From S2P Require Import Prelude Text Models Floats Windows Detector HttpRate.
From stdpp Require Import pretty sorting.
Local Open Scope Z_scope.

Definition WEBSHELL_SWEEP_EVERY : Z := 4096.
Definition MAX_PATHS_PER_IP : nat := 256.

Record WebshellProbeConfig : Type := {
  ws_window : Duration; ws_min_distinct_paths : nat; ws_score_threshold : spec_float; ws_ban_duration : Duration;
  ws_legit_paths : list bytes; ws_ignore_user_agents : list bytes; ws_ignore_vhosts : list bytes;
  ws_shared_path_min_ips : nat; ws_max_tracked_ips : N; ws_max_tracked_paths : N; ws_ipv6_prefix : Z;
}.

Definition default_legit_php_paths : list bytes :=
  as_bytes <$> ["/index.php"; "wp-login.php"; "wp-cron.php"; "xmlrpc.php"; "wp-comments-post.php"; "wp-signup.php";
                "wp-activate.php"; "wp-trackback.php"; "wp-links-opml.php"; "wp-mail.php"; "/wp-admin/"; "/wp-json/";
                "/wp-includes/js/tinymce/"]%string.
Definition default_webshell_ignore_user_agents : list bytes :=
  as_bytes <$> ["Googlebot"; "bingbot"; "YandexBot"; "DuckDuckBot"; "Applebot"]%string.

Definition webshell_default : WebshellProbeConfig := {|
  ws_window := secs (6 * 3600); ws_min_distinct_paths := 6; ws_score_threshold := f32_lit 12 1;
  ws_ban_duration := secs (72 * 3600); ws_legit_paths := default_legit_php_paths;
  ws_ignore_user_agents := default_webshell_ignore_user_agents; ws_ignore_vhosts := []; ws_shared_path_min_ips := 3;
  ws_max_tracked_ips := 50000; ws_max_tracked_paths := 20000; ws_ipv6_prefix := DEFAULT_IPV6_PREFIX |}.

Inductive LegitRule : Type := Segment (s : bytes) | Exact (e : bytes) | Basename (b : bytes).

(** [(path hash, points, first seen)] *)
Abbreviation Probe := (Z * spec_float * DateTime)%type (only parsing).
Record IpState : Type := { is_paths : list Probe; is_last_seen : DateTime }.
Record PathState : Type := { ps_ips : list IpAddr; ps_last_seen : DateTime }.
Record WebshellInner : Type := { wi_ips : gmap IpAddr IpState; wi_paths : gmap Z PathState; wi_matched_events : Z }.
Record WebshellProbeDetector : Type := {
  ws_cfg : WebshellProbeConfig; ws_legit : list LegitRule; ws_ignore_ua_lower : list bytes; ws_inner : WebshellInner;
}.

Definition SHELL_WORDS : list bytes :=
  as_bytes <$> ["shell"; "wso"; "alfa"; "c99"; "r57"; "b374k"; "filemanager"; "file_manager"; "uploader"; "bypass";
                "backdoor"; "priv8"; "xleet"; "gecko"; "webadmin"; "cmd"; "symlink"; "mini"]%string.

(** ** The path *)
Record PhpPath : Type := { pp_norm : bytes; pp_unusual_ext : bool; pp_suspicious_name : bool; pp_in_uploads : bool }.

Definition php_like (ext_lower : bytes) : bool :=
  if starts_with (as_bytes "php") ext_lower then
    let rest := drop 3 ext_lower in (length rest <=? 1)%nat && forallb is_ascii_digit rest
  else existsb (fun e => bool_decide (ext_lower = as_bytes e)) ["phtml"; "phar"; "pht"; "phps"]%string.

Definition suspicious_stem (stem : bytes) : bool :=
  let stem_lower := to_ascii_lowercase stem in
  let all_digits := negb (bool_decide (stem = [])) && forallb is_ascii_digit stem in
  let random_mixed := (8 <=? length stem)%nat && existsb is_ascii_upper stem && existsb is_ascii_lower stem
                      && existsb is_ascii_digit stem in
  let shell_word := existsb (fun w => contains w stem_lower) SHELL_WORDS in
  all_digits || random_mixed || shell_word.

Definition classify_php_path (raw : bytes) : option PhpPath :=
  let path := strip_query raw in
  let trimmed := trim_end_matches 47 path in
  let trailing_slash := negb (length trimmed =? length path)%nat in
  match rsplit_once 46 (after_last 47 trimmed) with
  | None => None
  | Some (stem, ext) =>
      if negb (php_like (to_ascii_lowercase ext)) then None
      else
        let norm := to_ascii_lowercase trimmed in
        Some {| pp_norm := norm; pp_unusual_ext := negb (bool_decide (ext = as_bytes "php")) || trailing_slash;
                pp_suspicious_name := suspicious_stem stem; pp_in_uploads := contains (as_bytes "/wp-content/uploads/") norm |}
  end.

Definition legit_rule (p : bytes) : LegitRule :=
  let p := to_ascii_lowercase p in
  if starts_with [47] p && ends_with [47] p && (1 <? length p)%nat then Segment p
  else if starts_with [47] p then Exact p
  else Basename p.

Definition nonempty (s : bytes) : bool := negb (bool_decide (s = [])).

Definition webshell_with_config (cfg : WebshellProbeConfig) : WebshellProbeDetector := {|
  ws_cfg := {| ws_window := ws_window cfg; ws_min_distinct_paths := Nat.max (ws_min_distinct_paths cfg) 1;
    ws_score_threshold := ws_score_threshold cfg; ws_ban_duration := ws_ban_duration cfg; ws_legit_paths := ws_legit_paths cfg;
    ws_ignore_user_agents := ws_ignore_user_agents cfg; ws_ignore_vhosts := to_ascii_lowercase <$> ws_ignore_vhosts cfg;
    ws_shared_path_min_ips := ws_shared_path_min_ips cfg; ws_max_tracked_ips := N.max (ws_max_tracked_ips cfg) 1;
    ws_max_tracked_paths := N.max (ws_max_tracked_paths cfg) 1; ws_ipv6_prefix := ws_ipv6_prefix cfg |};
  ws_legit := legit_rule <$> List.filter nonempty (ws_legit_paths cfg);
  ws_ignore_ua_lower := List.filter nonempty (to_ascii_lowercase <$> ws_ignore_user_agents cfg);
  ws_inner := {| wi_ips := ∅; wi_paths := ∅; wi_matched_events := 0 |} |}.
Definition webshell_new : WebshellProbeDetector := webshell_with_config webshell_default.

Definition is_legit (legit : list LegitRule) (norm : bytes) : bool :=
  let basename := after_last 47 norm in
  existsb (fun r => match r with
                    | Segment s => contains s norm
                    | Exact e => bool_decide (norm = e)
                    | Basename b => bool_decide (basename = b) && negb (contains (as_bytes "/wp-content/") norm)
                    end) legit.

(** ** The points *)
Definition f32_sum (l : list spec_float) : spec_float := foldl f32_add (S754_zero true) l.

Definition points (php : PhpPath) (status : Z) (ua : bytes) (shared_bonus : spec_float) : spec_float :=
  let p := if (200 <=? status) && (status <? 300) then f32_lit 1 2 else f32_lit 1 1 in
  let ua_t := trim ua in
  let p := if bool_decide (ua_t = []) || bool_decide (ua_t = [45]) then f32_add p (f32_lit 1 1) else p in
  let p := if pp_unusual_ext php then f32_add p (f32_lit 3 2) else p in
  let p := if pp_suspicious_name php then f32_add p (f32_lit 1 1) else p in
  let p := if pp_in_uploads php then f32_add p (f32_lit 2 1) else p in
  f32_add p shared_bonus.

Definition webshell_window (cfg : WebshellProbeConfig) : Duration := default (secs (6 * 3600)) (duration_from_std (ws_window cfg)).

Definition webshell_sweep (cfg : WebshellProbeConfig) (now : DateTime) (i : WebshellInner) : WebshellInner :=
  let c := now - webshell_window cfg in
  {| wi_ips := filter (fun ks => c <= is_last_seen ks.2) (wi_ips i);
     wi_paths := filter (fun ks => c <= ps_last_seen ks.2) (wi_paths i); wi_matched_events := wi_matched_events i |}.

Section webshell.
Context `{IpNetOps} `{Blake3} `{HashIter}.

Definition path_hash (norm : bytes) : Z := of_le_bytes (take 8 (blake3 norm)).

(** By age, least recently seen first. *)
Definition older {K V} `{Countable K} (last_seen : V -> DateTime) (m : gmap K V) (a b : K) : Prop :=
  default 0 (last_seen <$> m !! a) <= default 0 (last_seen <$> m !! b).
#[export] Instance older_dec {K V} `{Countable K} (last_seen : V -> DateTime) (m : gmap K V) : RelDecision (older last_seen m).
Proof. intros a b. unfold older. apply _. Defined.

(** About a tenth of the entries leave, least recently seen first;
    [select_nth_unstable_by_key] does not say which of two equal ages. *)
Definition evict_oldest {K V} `{Countable K} (last_seen : V -> DateTime) (m : gmap K V) : gmap K V :=
  let n := Nat.max (size m / 10) 1 in
  foldr delete m (take n (merge_sort (older last_seen m) (hash_iter (dom m)))).

(** Sweep, then evict when still full. *)
Definition room_for_path (cfg : WebshellProbeConfig) (hash : Z) (now : DateTime) (i : WebshellInner) : WebshellInner :=
  let full i := (ws_max_tracked_paths cfg <=? N.of_nat (size (wi_paths i)))%N in
  if negb (bool_decide (is_Some (wi_paths i !! hash))) && full i then
    let i := webshell_sweep cfg now i in
    if full i then {| wi_ips := wi_ips i; wi_paths := evict_oldest ps_last_seen (wi_paths i); wi_matched_events := wi_matched_events i |}
    else i
  else i.
Definition room_for_ip (cfg : WebshellProbeConfig) (ip : IpAddr) (now : DateTime) (i : WebshellInner) : WebshellInner :=
  let full i := (ws_max_tracked_ips cfg <=? N.of_nat (size (wi_ips i)))%N in
  if negb (bool_decide (is_Some (wi_ips i !! ip))) && full i then
    let i := webshell_sweep cfg now i in
    if full i then {| wi_ips := evict_oldest is_last_seen (wi_ips i); wi_paths := wi_paths i; wi_matched_events := wi_matched_events i |}
    else i
  else i.

(** The other addresses that asked for the path. *)
Definition share_path (cfg : WebshellProbeConfig) (hash : Z) (ip : IpAddr) (now : DateTime) (i : WebshellInner)
    : WebshellInner * spec_float :=
  if (0 <? ws_shared_path_min_ips cfg)%nat then
    let i := room_for_path cfg hash now i in
    let cap := (ws_shared_path_min_ips cfg + 1)%nat in
    let ps := default {| ps_ips := []; ps_last_seen := now |} (wi_paths i !! hash) in
    let ips := if ps_last_seen ps <? now - webshell_window cfg then [] else ps_ips ps in
    let others := length (List.filter (fun p => negb (bool_decide (p = ip))) ips) in
    let bonus := if (ws_shared_path_min_ips cfg <=? others)%nat then f32_lit 1 1 else sf_zero in
    let ips := if bool_decide (ip ∈ ips) then ips
               else (if (cap <=? length ips)%nat then drop 1 ips else ips) ++ [ip] in
    ({| wi_ips := wi_ips i; wi_paths := <[hash := {| ps_ips := ips; ps_last_seen := now |}]> (wi_paths i);
        wi_matched_events := wi_matched_events i |}, bonus)
  else (i, sf_zero).

(** The guards before the lock is taken: the source's key, what the path is,
    the status and the user agent. *)
Definition webshell_request (d : WebshellProbeDetector) (event : NormalizedEvent) : option (PhpPath * Z * bytes) :=
  if negb (is_http (ev_event_type event)) then None else
  match meta event "path" ≫= classify_php_path with
  | None => None
  | Some php =>
      if is_legit (ws_legit d) (pp_norm php) then None else
      let ua := default [] (meta event "user_agent") in
      if existsb (fun u => contains u (to_ascii_lowercase ua)) (ws_ignore_ua_lower d) then None else
      if match meta event "vhost" with Some v => bool_decide (to_ascii_lowercase v ∈ ws_ignore_vhosts (ws_cfg d)) | None => false end
      then None
      else Some (php, default 0 (meta event "status_code" ≫= parse_u16), ua)
  end.

Definition webshell_signal (cfg : WebshellProbeConfig) (key : IpNet) (now : DateTime) (norm : bytes) (distinct : nat)
    (score : spec_float) : DetectionSignal :=
  let evidence := (net_to_string key +:+ ":webshell_probe:" +:+ pretty distinct +:+ ":" +:+ fmt_uint (minute_of now))%string in
  {| sig_source_ip := key; sig_severity := 200; sig_confidence := f32_lit 9 10;
     sig_reason := ("Webshell/backdoor probing: " +:+ pretty distinct +:+ " distinct suspicious PHP paths (score "
                    +:+ fmt_fixed 1 score +:+ ", last '" +:+ of_bytes norm +:+ "') in " +:+ fmt_uint (as_secs (ws_window cfg)) +:+ "s")%string;
     sig_evidence_hash := blake3 (as_bytes evidence); sig_suggested_action := Ban (ws_ban_duration cfg);
     sig_detector_name := "webshell_probe"; sig_timestamp := now |}.

(** The probe is recorded: the paths of the source, and the count and score on
    which it fires. *)
Definition record_probe (cfg : WebshellProbeConfig) (hash : Z) (pts : spec_float) (now : DateTime) (paths : list Probe)
    : list Probe * option (nat * spec_float) :=
  let paths := drop_while (fun x => x.2 <? now - webshell_window cfg) paths in
  if existsb (fun x => x.1.1 =? hash) paths then (paths, None)
  else
    let paths := (if (MAX_PATHS_PER_IP <=? length paths)%nat then drop 1 paths else paths) ++ [(hash, pts, now)] in
    let distinct := length paths in
    let score := f32_sum ((fun x => x.1.2) <$> paths) in
    if (distinct <? ws_min_distinct_paths cfg)%nat || SFltb score (ws_score_threshold cfg) then (paths, None)
    else ([], Some (distinct, score)).

Definition process_webshell (event : NormalizedEvent) (d : WebshellProbeDetector)
    : WebshellProbeDetector * option DetectionSignal :=
  match webshell_request d event with
  | None => (d, None)
  | Some (php, status, ua) =>
      let cfg := ws_cfg d in
      let i := ws_inner d in
      let key := source_key (ev_source_ip event) (ws_ipv6_prefix cfg) in
      let ip := net_addr key in
      let now := ev_timestamp event in
      let hash := path_hash (pp_norm php) in
      let n := u64_add (wi_matched_events i) 1 in
      let i := {| wi_ips := wi_ips i; wi_paths := wi_paths i; wi_matched_events := n |} in
      let i := if n mod WEBSHELL_SWEEP_EVERY =? 0 then webshell_sweep cfg now i else i in
      let '(i, bonus) := share_path cfg hash ip now i in
      let i := room_for_ip cfg ip now i in
      let paths := default [] (is_paths <$> wi_ips i !! ip) in
      let '(paths, fired) := record_probe cfg hash (points php status ua bonus) now paths in
      let i := {| wi_ips := <[ip := {| is_paths := paths; is_last_seen := now |}]> (wi_ips i); wi_paths := wi_paths i;
                  wi_matched_events := wi_matched_events i |} in
      ({| ws_cfg := cfg; ws_legit := ws_legit d; ws_ignore_ua_lower := ws_ignore_ua_lower d; ws_inner := i |},
       (fun '(distinct, score) => webshell_signal cfg key now (pp_norm php) distinct score) <$> fired)
  end.

#[export] Instance webshell_detector : Detector WebshellProbeDetector := multi_of_process process_webshell.
End webshell.

(** ** The score is exact *)
(** [n] half points. *)
Definition halves (n : Z) : spec_float := sf_of 24 n (-1).

Lemma halves_fit (n : Z) : 0 < n < 2 ^ 24 -> fits 24 128 n (-1).
Proof.
  intros Hn. pose proof (Zdigits_le n 24 ltac:(lia) ltac:(lia) ltac:(lia)).
  assert (1 <= Zdigits2 n) by (destruct n; simpl in *; lia). unfold fits, emin. lia.
Qed.

Lemma halves_add (p q : Z) : 0 < p -> 0 < q -> p + q < 2 ^ 24 -> f32_add (halves p) (halves q) = halves (p + q).
Proof. intros. apply add_exact; [lia|lia|apply halves_fit; lia..]. Qed.

Definition Zsum (l : list Z) : Z := foldr Z.add 0 l.

Lemma halves_sum (ks : list Z) : ks <> [] -> Forall (fun k => 0 < k) ks -> Zsum ks < 2 ^ 24 ->
  f32_sum (halves <$> ks) = halves (Zsum ks).
Proof.
  destruct ks as [|k ks]; [done|]. intros _ Hf Hs. apply Forall_cons in Hf as [Hk Hf]. unfold f32_sum. cbn [fmap list_fmap foldl].
  change (f32_add (S754_zero true) (halves k)) with (halves k). cbn [Zsum foldr] in *. fold (Zsum ks) in *.
  revert k Hk Hs. induction Hf as [|j ks Hj Hf IH]; intros k Hk Hs; cbn [fmap list_fmap foldl Zsum foldr] in *.
  { by rewrite Z.add_0_r. }
  fold (Zsum ks) in *.
  assert (0 <= Zsum ks) by (clear -Hf; induction Hf; simpl; unfold Zsum in *; simpl; lia).
  rewrite halves_add, IH by lia. f_equal. lia.
Qed.

(** The table of the module documentation, in half points, the shared-path bonus
    apart. *)
Definition half_points (php : PhpPath) (status : Z) (ua : bytes) : Z :=
  (if (200 <=? status) && (status <? 300) then 1 else 2)
  + (if bool_decide (trim ua = []) || bool_decide (trim ua = [45]) then 2 else 0)
  + (if pp_unusual_ext php then 3 else 0) + (if pp_suspicious_name php then 2 else 0) + (if pp_in_uploads php then 4 else 0).

Definition bonus_of (shared : bool) : spec_float := if shared then f32_lit 1 1 else sf_zero.

Lemma points_exact (php : PhpPath) (status : Z) (ua : bytes) (shared : bool) :
  points php status ua (bonus_of shared) = halves (half_points php status ua + if shared then 2 else 0).
Proof.
  unfold points, half_points. destruct (_ && _), (_ || _), (pp_unusual_ext php), (pp_suspicious_name php), (pp_in_uploads php), shared;
    by vm_compute.
Qed.

Lemma half_points_range (php : PhpPath) (status : Z) (ua : bytes) : 1 <= half_points php status ua <= 13.
Proof.
  unfold half_points. destruct (_ && _), (_ || _), (pp_unusual_ext php), (pp_suspicious_name php), (pp_in_uploads php); lia.
Qed.

(** ** What a source did *)
Record ProbeEntry : Type := { pe_ip : IpAddr; pe_norm : bytes; pe_half : Z; pe_time : DateTime }.

Section facts.
Context `{IpNetOps} `{Blake3} `{HashIter} {laws : IpNetLaws} {hash : Blake3Laws} {order : HashIterLaws}.

(** Every request for a suspicious path, under the source it is counted for. *)
Definition probe_of (d : WebshellProbeDetector) (e : NormalizedEvent) : option ProbeEntry :=
  (fun '(php, status, ua) => {| pe_ip := net_addr (source_key (ev_source_ip e) (ws_ipv6_prefix (ws_cfg d))); pe_norm := pp_norm php;
     pe_half := half_points php status ua; pe_time := ev_timestamp e |}) <$> webshell_request d e.
Definition webshell_log (d : WebshellProbeDetector) (es : list NormalizedEvent) : list ProbeEntry := omap (probe_of d) es.

(** A remembered probe is a request of the log. *)
Definition probe_ok (ip : IpAddr) (log : list ProbeEntry) (x : Probe) : Prop :=
  exists y shared, y ∈ log /\ pe_ip y = ip /\ pe_time y = x.2 /\ path_hash (pe_norm y) = x.1.1 /\
    x.1.2 = halves (pe_half y + if shared : bool then 2 else 0).
Definition paths_ok (ip : IpAddr) (log : list ProbeEntry) (paths : list Probe) : Prop :=
  Forall (probe_ok ip log) paths /\ NoDup ((fun x => x.1.1) <$> paths) /\ StronglySorted Z.le (snd <$> paths) /\
  (length paths <= MAX_PATHS_PER_IP)%nat.

Lemma probe_ok_app (ip : IpAddr) (log more : list ProbeEntry) (x : Probe) : probe_ok ip log x -> probe_ok ip (log ++ more) x.
Proof. intros (y & b & Hy & Hx). exists y, b. split; [|done]. apply elem_of_app. by left. Qed.

Lemma paths_ok_app (ip : IpAddr) (log more : list ProbeEntry) (paths : list Probe) : paths_ok ip log paths -> paths_ok ip (log ++ more) paths.
Proof. intros (Hf & Hrest). split; [|done]. eapply Forall_impl; [exact Hf|]. intros x. apply probe_ok_app. Qed.

Lemma paths_ok_nil (ip : IpAddr) (log : list ProbeEntry) : paths_ok ip log [].
Proof. split_and!; [constructor|constructor|constructor|simpl; lia]. Qed.

Lemma paths_ok_suffix (ip : IpAddr) (log : list ProbeEntry) (l k : list Probe) : l `suffix_of` k -> paths_ok ip log k -> paths_ok ip log l.
Proof.
  intros Hs (Hf & Hn & Ht & Hl). pose proof (suffix_length _ _ Hs) as Hle. destruct Hs as [p ->].
  apply Forall_app in Hf as [_ Hf]. rewrite fmap_app in Hn, Ht. apply NoDup_app in Hn as (_ & _ & Hn).
  apply StronglySorted_app in Ht as (_ & _ & Ht). split_and!; [done|done|done|lia].
Qed.

Lemma sorted_kept (c : DateTime) (l : list Probe) : StronglySorted Z.le (snd <$> l) ->
  Forall (fun x => c <= x.2) (drop_while (fun x => x.2 <? c) l).
Proof.
  induction l as [|x l IH]; simpl; intros Hs; [done|]. inversion Hs as [|? ? Hs' Hle]; subst.
  destruct (Z.ltb_spec x.2 c); [by apply IH|]. constructor; [done|].
  apply (Forall_impl (fun y => x.2 <= y.2)); [exact (proj1 (Forall_fmap snd (Z.le x.2) l) Hle)|]. intros y Hy. lia.
Qed.

Lemma paths_ok_push (log : list ProbeEntry) (x : ProbeEntry) (shared : bool) (l : list Probe) :
  Forall (fun y => pe_time y <= pe_time x) log -> paths_ok (pe_ip x) log l -> (length l < MAX_PATHS_PER_IP)%nat ->
  path_hash (pe_norm x) ∉ ((fun y => y.1.1) <$> l) ->
  paths_ok (pe_ip x) (log ++ [x]) (l ++ [(path_hash (pe_norm x), halves (pe_half x + if shared then 2 else 0), pe_time x)]).
Proof.
  intros Hle (Hf & Hn & Ht & _) Hlen Hnew. split_and!.
  - apply Forall_app. split; [eapply Forall_impl; [exact Hf|]; intros y; apply probe_ok_app|]. rewrite Forall_singleton.
    exists x, shared. split_and!; [|done..]. apply elem_of_app. right. by apply list_elem_of_singleton.
  - rewrite fmap_app. apply NoDup_app. split_and!; [done| |apply NoDup_singleton].
    intros h Hh ->%list_elem_of_singleton. done.
  - rewrite fmap_app. apply StronglySorted_app_2; [|done|by repeat constructor].
    intros t u (y & -> & Hy)%list_elem_of_fmap ->%list_elem_of_singleton. simpl.
    rewrite Forall_forall in Hf. destruct (Hf y Hy) as (z & b & Hz & _ & <- & _). rewrite Forall_forall in Hle. by apply Hle.
  - rewrite length_app. simpl. lia.
Qed.

(** The window holds the new probe and earlier ones, all in the window, and the
    score is the exact sum of their points. *)
Lemma record_probe_ok (cfg : WebshellProbeConfig) (log : list ProbeEntry) (x : ProbeEntry) (shared : bool) (paths : list Probe)
    (log' := log ++ [x]) (pts := halves (pe_half x + if shared then 2 else 0)) :
  0 <= webshell_window cfg -> Forall (fun y => pe_time y <= pe_time x) log -> paths_ok (pe_ip x) log paths ->
  paths_ok (pe_ip x) log' (record_probe cfg (path_hash (pe_norm x)) pts (pe_time x) paths).1 /\
  (forall n score, (record_probe cfg (path_hash (pe_norm x)) pts (pe_time x) paths).2 = Some (n, score) ->
    exists l, paths_ok (pe_ip x) log' l /\ Forall (fun y => pe_time x - webshell_window cfg <= y.2) l /\
      n = length l /\ score = f32_sum ((fun y => y.1.2) <$> l) /\ l <> [] /\
      (ws_min_distinct_paths cfg <= n)%nat /\ SFltb score (ws_score_threshold cfg) = false).
Proof.
  intros Hw Hle Hok. unfold record_probe. cbv zeta. set (c := pe_time x - webshell_window cfg). set (h := path_hash (pe_norm x)).
  set (l0 := drop_while (fun y : Probe => y.2 <? c) paths).
  assert (Hok0 : paths_ok (pe_ip x) log l0) by (eapply paths_ok_suffix; [apply drop_while_suffix|done]).
  assert (Hw0 : Forall (fun y => c <= y.2) l0) by (apply (sorted_kept c paths); apply Hok).
  destruct (existsb (fun y => y.1.1 =? h) l0) eqn:Edup; [split; [exact (paths_ok_app _ log [x] l0 Hok0)|by intros ? ? [=]]|].
  set (l1 := if (MAX_PATHS_PER_IP <=? length l0)%nat then drop 1 l0 else l0).
  assert (Hsuf : l1 `suffix_of` l0) by (unfold l1; case_match; [apply suffix_drop|done]).
  assert (Hlen : (length l1 < MAX_PATHS_PER_IP)%nat).
  { unfold l1. destruct Hok0 as (_ & _ & _ & Hl). destruct (Nat.leb_spec MAX_PATHS_PER_IP (length l0)); [|lia].
    rewrite length_drop. unfold MAX_PATHS_PER_IP in *. lia. }
  assert (Hnew : h ∉ ((fun y => y.1.1) <$> l1)).
  { intros (y & Ey & Hy)%list_elem_of_fmap. assert (Hy0 : y ∈ l0) by by eapply elem_of_sublist; [|apply suffix_sublist].
    apply not_true_iff_false in Edup. apply Edup, existsb_exists. exists y. split; [by apply list_elem_of_In|]. by apply Z.eqb_eq. }
  pose proof (paths_ok_push log x shared l1 Hle (paths_ok_suffix _ _ _ _ Hsuf Hok0) Hlen Hnew) as Hpush. fold h pts log' in Hpush.
  assert (Hwin : Forall (fun y => c <= y.2) (l1 ++ [(h, pts, pe_time x)])).
  { apply Forall_app. destruct Hsuf as [p Ep]. rewrite Ep in Hw0. apply Forall_app in Hw0 as [_ Hw0]. split; [done|].
    rewrite Forall_singleton. subst c. simpl. lia. }
  destruct (Nat.ltb_spec (length (l1 ++ [(h, pts, pe_time x)])) (ws_min_distinct_paths cfg)) as [Hlt|Hge]; [by split|].
  destruct (SFltb _ _) eqn:Es; simpl orb; cbv iota; [by split|]. split; [apply paths_ok_nil|]. intros n score [= <- <-].
  exists (l1 ++ [(h, pts, pe_time x)]). split_and!; [done..|by destruct l1|done|done].
Qed.

(** ** Memory *)
Lemma foldr_delete_sub {K V} `{Countable K} (ks : list K) (m : gmap K V) : foldr delete m ks ⊆ m.
Proof. induction ks as [|k ks IH]; simpl; [done|]. etransitivity; [apply delete_subseteq|done]. Qed.

Lemma evict_oldest_sub {K V} `{Countable K} (last : V -> DateTime) (m : gmap K V) : evict_oldest last m ⊆ m.
Proof. apply foldr_delete_sub. Qed.

Lemma evict_oldest_size {K V} `{Countable K} (last : V -> DateTime) (m : gmap K V) :
  (0 < size m)%nat -> (size (evict_oldest last m) < size m)%nat.
Proof using order.
  intros Hm. unfold evict_oldest. set (l := merge_sort _ _). assert (Hl : l ≡ₚ elements (dom m)).
  { unfold l. rewrite merge_sort_Permutation. apply hash_iter_perm. }
  destruct (Nat.max (size m / 10) 1) as [|n] eqn:En; [lia|]. destruct l as [|k l].
  { apply Permutation_nil_l in Hl. apply (f_equal length) in Hl. change (length (elements (dom m))) with (size (dom m)) in Hl.
    rewrite size_dom in Hl. simpl in Hl. lia. }
  cbn [take foldr]. eapply Nat.le_lt_trans; [apply map_subseteq_size, delete_mono, (foldr_delete_sub (take n l) m)|].
  assert (Hk : k ∈ dom m) by (apply elem_of_elements; rewrite <- Hl; left). apply elem_of_dom in Hk as [v Hv].
  rewrite map_size_delete, Hv. simpl. unfold id. lia.
Qed.

Definition webshell_inv (cfg : WebshellProbeConfig) (log : list ProbeEntry) (i : WebshellInner) : Prop :=
  (N.of_nat (size (wi_ips i)) <= ws_max_tracked_ips cfg)%N /\ (N.of_nat (size (wi_paths i)) <= ws_max_tracked_paths cfg)%N /\
  map_Forall (fun ip s => paths_ok ip log (is_paths s)) (wi_ips i).

(** Shrinking the maps keeps it. *)
Lemma webshell_inv_sub (cfg : WebshellProbeConfig) (log : list ProbeEntry) (i i' : WebshellInner) :
  wi_ips i' ⊆ wi_ips i -> wi_paths i' ⊆ wi_paths i -> webshell_inv cfg log i -> webshell_inv cfg log i'.
Proof.
  intros H1' H2' (Hi & Hp & Hk). pose proof (map_subseteq_size _ _ H1'). pose proof (map_subseteq_size _ _ H2').
  split_and!; [lia|lia|]. intros ip s Hs. apply Hk. by eapply lookup_weaken.
Qed.

Lemma webshell_sweep_sub (cfg : WebshellProbeConfig) (now : DateTime) (i : WebshellInner) :
  wi_ips (webshell_sweep cfg now i) ⊆ wi_ips i /\ wi_paths (webshell_sweep cfg now i) ⊆ wi_paths i.
Proof. split; apply map_filter_subseteq. Qed.

Lemma room_for_path_ok (cfg : WebshellProbeConfig) (log : list ProbeEntry) (h : Z) (now : DateTime) (i : WebshellInner)
    (i' := room_for_path cfg h now i) :
  (1 <= ws_max_tracked_paths cfg)%N -> webshell_inv cfg log i ->
  webshell_inv cfg log i' /\ (is_Some (wi_paths i' !! h) \/ (N.of_nat (size (wi_paths i')) < ws_max_tracked_paths cfg)%N).
Proof using order.
  intros Hmax Hi. unfold i', room_for_path. case_bool_decide as Hk; simpl negb; cbn [andb]; [by split; [|left]|].
  destruct (N.leb_spec (ws_max_tracked_paths cfg) (N.of_nat (size (wi_paths i)))) as [_|Hlt]; [|by split; [|right]].
  destruct (webshell_sweep_sub cfg now i) as [S1 S2]. set (j := webshell_sweep cfg now i) in *.
  assert (Hj : webshell_inv cfg log j) by by eapply webshell_inv_sub.
  destruct (N.leb_spec (ws_max_tracked_paths cfg) (N.of_nat (size (wi_paths j)))) as [Hge|Hlt]; [|by split; [|right]].
  pose proof (evict_oldest_size ps_last_seen (wi_paths j) ltac:(lia)) as Hev. split.
  - apply (webshell_inv_sub cfg log j); [done|apply evict_oldest_sub|done].
  - right. destruct Hj as (_ & Hp & _). cbn [wi_paths]. lia.
Qed.

Lemma room_for_ip_ok (cfg : WebshellProbeConfig) (log : list ProbeEntry) (ip : IpAddr) (now : DateTime) (i : WebshellInner)
    (i' := room_for_ip cfg ip now i) :
  (1 <= ws_max_tracked_ips cfg)%N -> webshell_inv cfg log i ->
  webshell_inv cfg log i' /\ (is_Some (wi_ips i' !! ip) \/ (N.of_nat (size (wi_ips i')) < ws_max_tracked_ips cfg)%N).
Proof using order.
  intros Hmax Hi. unfold i', room_for_ip. case_bool_decide as Hk; simpl negb; cbn [andb]; [by split; [|left]|].
  destruct (N.leb_spec (ws_max_tracked_ips cfg) (N.of_nat (size (wi_ips i)))) as [_|Hlt]; [|by split; [|right]].
  destruct (webshell_sweep_sub cfg now i) as [S1 S2]. set (j := webshell_sweep cfg now i) in *.
  assert (Hj : webshell_inv cfg log j) by by eapply webshell_inv_sub.
  destruct (N.leb_spec (ws_max_tracked_ips cfg) (N.of_nat (size (wi_ips j)))) as [Hge|Hlt]; [|by split; [|right]].
  pose proof (evict_oldest_size is_last_seen (wi_ips j) ltac:(lia)) as Hev. split.
  - apply (webshell_inv_sub cfg log j); [apply evict_oldest_sub|done|done].
  - right. destruct Hj as (Hp & _). cbn [wi_ips]. lia.
Qed.

(** Inserting under a key that is there or has room. *)
Lemma insert_room {K V} `{Countable K} (m : gmap K V) (k : K) (v : V) (n : N) :
  (N.of_nat (size m) <= n)%N -> is_Some (m !! k) \/ (N.of_nat (size m) < n)%N -> (N.of_nat (size (<[k := v]> m)) <= n)%N.
Proof. intros Hs Hr. rewrite map_size_insert. destruct (m !! k) eqn:E; simpl; unfold id; [lia|]. destruct Hr as [[? ?]|]; [done|lia]. Qed.

Lemma share_path_ok (cfg : WebshellProbeConfig) (log : list ProbeEntry) (h : Z) (ip : IpAddr) (now : DateTime) (i : WebshellInner) :
  (1 <= ws_max_tracked_paths cfg)%N -> webshell_inv cfg log i ->
  webshell_inv cfg log (share_path cfg h ip now i).1 /\ exists shared, (share_path cfg h ip now i).2 = bonus_of shared.
Proof using order.
  intros Hmax Hi. unfold share_path. destruct (_ <? _)%nat; [|split; [done|by exists false]].
  destruct (room_for_path_ok cfg log h now i Hmax Hi) as [(Hi1 & Hp1 & Hk1) Hroom]. set (j := room_for_path cfg h now i) in *. split.
  - split_and!; cbn [wi_ips wi_paths fst]; [done|by apply insert_room|done].
  - cbn [snd]. destruct (_ <=? _)%nat; [by exists true|by exists false].
Qed.

(** ** Runs *)
Definition webshell_after (cfg : WebshellProbeConfig) (es : list NormalizedEvent) : WebshellProbeDetector :=
  foldl (fun d e => (process_webshell e d).1) (webshell_with_config cfg) es.

Definition webshell_ready (cfg : WebshellProbeConfig) (log : list ProbeEntry) (d : WebshellProbeDetector) : Prop :=
  let d0 := webshell_with_config cfg in
  ws_cfg d = ws_cfg d0 /\ ws_legit d = ws_legit d0 /\ ws_ignore_ua_lower d = ws_ignore_ua_lower d0 /\
  webshell_inv (ws_cfg d0) log (ws_inner d).

(** The probes a signal rests on. *)
Definition probes_behind (cfg : WebshellProbeConfig) (log : list ProbeEntry) (x : ProbeEntry) : Prop :=
  exists l, paths_ok (pe_ip x) log l /\ Forall (fun y => pe_time x - webshell_window cfg <= y.2) l /\ l <> [] /\
    (ws_min_distinct_paths cfg <= length l)%nat /\ SFltb (f32_sum ((fun y => y.1.2) <$> l)) (ws_score_threshold cfg) = false.

Lemma probe_of_static (d d' : WebshellProbeDetector) (e : NormalizedEvent) :
  ws_cfg d = ws_cfg d' -> ws_legit d = ws_legit d' -> ws_ignore_ua_lower d = ws_ignore_ua_lower d' -> probe_of d e = probe_of d' e.
Proof. destruct d, d'. simpl. by intros -> -> ->. Qed.

Lemma tick_inv (cfg : WebshellProbeConfig) (log : list ProbeEntry) (now : DateTime) (n : Z) (i : WebshellInner) :
  webshell_inv cfg log i ->
  let j := {| wi_ips := wi_ips i; wi_paths := wi_paths i; wi_matched_events := n |} in
  webshell_inv cfg log (if n mod WEBSHELL_SWEEP_EVERY =? 0 then webshell_sweep cfg now j else j).
Proof. intros Hi. cbv zeta. destruct (_ =? 0); [|done]. by apply (webshell_inv_sub cfg log i); [apply map_filter_subseteq..|]. Qed.

(** A request that does not count changes nothing; one that does is one more
    entry of the log. *)
Lemma process_webshell_ok (cfg : WebshellProbeConfig) (log : list ProbeEntry) (e : NormalizedEvent) (d : WebshellProbeDetector)
    (d0 := webshell_with_config cfg) :
  0 <= ws_window cfg -> Forall (fun y => pe_time y <= ev_timestamp e) log -> webshell_ready cfg log d ->
  match probe_of d0 e with
  | None => process_webshell e d = (d, None)
  | Some x => webshell_ready cfg (log ++ [x]) (process_webshell e d).1 /\
      forall s, (process_webshell e d).2 = Some s ->
        sig_source_ip s = source_key (ev_source_ip e) (ws_ipv6_prefix cfg) /\ probes_behind (ws_cfg d0) (log ++ [x]) x
  end.
Proof using order.
  intros Hw Hle (Hc & Hl & Hu & Hi). fold d0 in Hc, Hl, Hu, Hi. rewrite <- (probe_of_static d d0) by done. unfold probe_of, process_webshell.
  destruct (webshell_request d e) as [[[php status] ua]|]; [|done]. cbn [fmap option_fmap option_map]. rewrite Hc.
  set (x := {| pe_ip := _; pe_norm := _; pe_half := _; pe_time := _ |}). cbv zeta.
  pose proof (tick_inv (ws_cfg d0) log (ev_timestamp e) (u64_add (wi_matched_events (ws_inner d)) 1) (ws_inner d) Hi) as Ht. cbv zeta in Ht.
  destruct (share_path_ok (ws_cfg d0) log (path_hash (pp_norm php)) (pe_ip x) (ev_timestamp e) _ ltac:(simpl; lia) Ht) as [Hs [shared Hb]].
  clear Ht. change (net_addr (source_key (ev_source_ip e) (ws_ipv6_prefix (ws_cfg d0)))) with (pe_ip x).
  destruct (share_path _ _ _ _ _) as [i1 bonus]. cbn [fst snd] in Hs, Hb. subst bonus.
  destruct (room_for_ip_ok (ws_cfg d0) log (pe_ip x) (ev_timestamp e) i1 ltac:(simpl; lia) Hs) as [(Hsz & Hp & Hk) Hroom].
  set (i2 := room_for_ip _ _ _ _) in *. rewrite points_exact.
  assert (Hpaths : paths_ok (pe_ip x) log (default [] (is_paths <$> wi_ips i2 !! pe_ip x))).
  { destruct (wi_ips i2 !! pe_ip x) as [st|] eqn:E; simpl; [by apply (Hk _ st)|apply paths_ok_nil]. }
  assert (Hwin : 0 <= webshell_window (ws_cfg d0)) by (unfold webshell_window, duration_from_std; simpl; by case_match).
  destruct (record_probe_ok (ws_cfg d0) log x shared _ Hwin Hle Hpaths) as [Hr1 Hr2]. cbn [pe_norm pe_half pe_time x] in Hr1, Hr2.
  destruct (record_probe _ _ _ _ _) as [paths fired]. cbn [fst snd] in *. split.
  - split_and!; [done..|]. split_and!; cbn [ws_inner wi_ips wi_paths]; [by apply insert_room|done|].
    apply map_Forall_insert_2; [done|]. eapply map_Forall_impl; [exact Hk|]. intros ip st. apply paths_ok_app.
  - intros s Hf. destruct fired as [[n score]|]; [|done]. injection Hf as <-. split; [done|].
    destruct (Hr2 n score eq_refl) as (l & Hl1 & Hl2 & -> & -> & Hne & Hmin & Hscore). by exists l.
Qed.

Lemma webshell_log_snoc (d : WebshellProbeDetector) (es : list NormalizedEvent) (e : NormalizedEvent) :
  webshell_log d (es ++ [e]) = webshell_log d es ++ option_list (probe_of d e).
Proof. unfold webshell_log. rewrite omap_app. f_equal. Qed.

Lemma probe_of_spec (d : WebshellProbeDetector) (e : NormalizedEvent) (x : ProbeEntry) :
  probe_of d e = Some x -> pe_time x = ev_timestamp e /\ 1 <= pe_half x <= 13 /\
    pe_ip x = net_addr (source_key (ev_source_ip e) (ws_ipv6_prefix (ws_cfg d))).
Proof.
  unfold probe_of. destruct (webshell_request d e) as [[[php status] ua]|]; [|done]. intros [= <-].
  split; [done|]. split; [apply half_points_range|done].
Qed.

Lemma webshell_log_times (d : WebshellProbeDetector) (es : list NormalizedEvent) (t : DateTime) :
  Forall (fun e => ev_timestamp e <= t) es -> Forall (fun y => pe_time y <= t) (webshell_log d es).
Proof.
  intros Hf. apply Forall_forall. intros y (e & He & Hy)%list_elem_of_omap. rewrite Forall_forall in Hf.
  apply probe_of_spec in Hy as (-> & _). by apply Hf.
Qed.

Lemma sorted_last (es : list NormalizedEvent) (e : NormalizedEvent) : StronglySorted Z.le (ev_timestamp <$> es ++ [e]) ->
  Forall (fun x => ev_timestamp x <= ev_timestamp e) es /\ StronglySorted Z.le (ev_timestamp <$> es).
Proof.
  rewrite fmap_app. intros Hs. destruct (proj1 (StronglySorted_app _ _ _) Hs) as (Hle & Hs' & _). split; [|done].
  apply Forall_forall. intros x Hx. apply Hle; [by apply list_elem_of_fmap_2|by apply list_elem_of_singleton].
Qed.

Lemma webshell_after_ready (cfg : WebshellProbeConfig) (es : list NormalizedEvent) :
  0 <= ws_window cfg -> StronglySorted Z.le (ev_timestamp <$> es) ->
  webshell_ready cfg (webshell_log (webshell_with_config cfg) es) (webshell_after cfg es).
Proof using order.
  intros Hw. induction es as [|e es IH] using rev_ind; intros Hs.
  { split_and!; [done..|]. split_and!; cbn; [rewrite map_size_empty; lia..|apply map_Forall_empty]. }
  apply sorted_last in Hs as [Hle Hs]. unfold webshell_after. rewrite foldl_snoc. fold (webshell_after cfg es).
  pose proof (process_webshell_ok cfg (webshell_log (webshell_with_config cfg) es) e _ Hw (webshell_log_times _ _ _ Hle) (IH Hs)) as Hp.
  rewrite webshell_log_snoc. destruct (probe_of _ e) as [x|]; [apply Hp|]. rewrite Hp. simpl. rewrite app_nil_r. by apply IH.
Qed.

(** The requests behind remembered probes. *)
Lemma probes_entries (ip : IpAddr) (log : list ProbeEntry) (l : list Probe) : Forall (probe_ok ip log) l ->
  exists ys : list (ProbeEntry * bool),
    Forall (fun y => y.1 ∈ log /\ pe_ip y.1 = ip) ys /\ (fun y => pe_time y.1) <$> ys = l.*2 /\
    (fun y => path_hash (pe_norm y.1)) <$> ys = (fun x => x.1.1) <$> l /\
    (fun x => x.1.2) <$> l = halves <$> ((fun y => pe_half y.1 + if y.2 : bool then 2 else 0) <$> ys).
Proof.
  induction 1 as [|x l (y & b & Hy & Hip & Ht & Hh & Hp) Hl (ys & H1' & H2' & H3' & H4')]; [by exists []|].
  exists ((y, b) :: ys). split_and!; [by constructor|..]; rewrite !fmap_cons; cbn [fst snd]; congruence.
Qed.

Lemma Zsum_bounds (l : list Z) (n : Z) : Forall (fun k => 0 < k <= n) l -> Zsum l <= n * Z.of_nat (length l).
Proof. induction 1 as [|k l Hk Hl IH]; [simpl; lia|]. cbn [Zsum foldr length]. fold (Zsum l). lia. Qed.

(** A signal of the web-shell detector is earned: in any run in time order, the
    source signalled asked, within the window, for at least the configured
    number of different PHP paths that are not legitimate, and the points of
    these requests, which the floating-point sum computes exactly, reach the
    threshold. *)
Theorem webshell_signal_sound (cfg : WebshellProbeConfig) (es : list NormalizedEvent) (e : NormalizedEvent)
  (d' : WebshellProbeDetector) (s : DetectionSignal)
  (Hw : 0 <= ws_window cfg) (Hs : StronglySorted Z.le (ev_timestamp <$> es ++ [e]))
  (Hfire : process_webshell e (webshell_after cfg es) = (d', Some s)) :
  let key := source_key (ev_source_ip e) (ws_ipv6_prefix cfg) in
  sig_source_ip s = key /\
  exists ys : list (ProbeEntry * bool),
    NoDup ((fun y => pe_norm y.1) <$> ys) /\ (Nat.max (ws_min_distinct_paths cfg) 1 <= length ys)%nat /\
    Forall (fun y => y.1 ∈ webshell_log (webshell_with_config cfg) (es ++ [e]) /\ pe_ip y.1 = net_addr key /\
                     ev_timestamp e - webshell_window cfg <= pe_time y.1) ys /\
    SFltb (halves (Zsum ((fun y => pe_half y.1 + if y.2 : bool then 2 else 0) <$> ys))) (ws_score_threshold cfg) = false.
Proof using order.
  cbv zeta. apply sorted_last in Hs as [Hle Hs]. set (log := webshell_log (webshell_with_config cfg) es).
  pose proof (process_webshell_ok cfg log e _ Hw (webshell_log_times _ _ _ Hle) (webshell_after_ready cfg es Hw Hs)) as Hp.
  rewrite webshell_log_snoc. fold log. destruct (probe_of _ e) as [x|] eqn:Ex; [|rewrite Hp in Hfire; by injection Hfire].
  rewrite Hfire in Hp. destruct Hp as [_ Hp]. destruct (Hp s eq_refl) as (Hsrc & l & (Hok & Hn & _ & Hlen) & Hwin & Hne & Hmin & Hscore).
  apply probe_of_spec in Ex as Ex'. destruct Ex' as (Et & _ & Eip). split; [done|].
  destruct (probes_entries _ _ _ Hok) as (ys & Hys & Htimes & Hhash & Hpts). exists ys.
  assert (Hl : length ys = length l) by (apply (f_equal length) in Htimes; by rewrite !length_fmap in Htimes).
  split_and!.
  - apply (NoDup_fmap_1 path_hash). rewrite <- list_fmap_compose. unfold compose. by rewrite Hhash.
  - rewrite Hl. done.
  - rewrite Forall_forall in Hys |- *. intros y Hy. destruct (Hys y Hy) as [Hin Hip]. simpl option_list.
    split_and!; [done|by rewrite Hip, Eip|]. rewrite <- Et.
    assert (Hyt : pe_time y.1 ∈ l.*2) by (rewrite <- Htimes; by apply (list_elem_of_fmap_2 (fun y => pe_time y.1))).
    apply list_elem_of_fmap in Hyt as (z & -> & Hz). rewrite Forall_forall in Hwin. by apply Hwin.
  - rewrite Hpts in Hscore. assert (Hrange : Forall (fun k => 0 < k <= 15) ((fun y => pe_half y.1 + if y.2 : bool then 2 else 0) <$> ys)).
    { apply Forall_fmap, Forall_forall. intros y Hy. rewrite Forall_forall in Hys. destruct (Hys y Hy) as [Hin _].
      change [x] with (option_list (Some x)) in Hin. rewrite <- Ex in Hin. unfold log in Hin. rewrite <- webshell_log_snoc in Hin.
      apply list_elem_of_omap in Hin as (e' & _ & He'). apply probe_of_spec in He' as (_ & ? & _). simpl. destruct y.2; lia. }
    rewrite halves_sum in Hscore; [done| | |].
    + destruct ys; [by destruct l|done].
    + eapply Forall_impl; [exact Hrange|]. simpl. lia.
    + apply Zsum_bounds in Hrange. rewrite length_fmap, Hl in Hrange. unfold MAX_PATHS_PER_IP in Hlen. lia.
Qed.

(** The web-shell detector works in bounded memory: at most [max_tracked_ips]
    sources with at most 256 paths each, and at most [max_tracked_paths] shared
    paths. *)
Theorem webshell_bounded (cfg : WebshellProbeConfig) (es : list NormalizedEvent)
  (Hw : 0 <= ws_window cfg) (Hs : StronglySorted Z.le (ev_timestamp <$> es)) :
  let i := ws_inner (webshell_after cfg es) in
  (N.of_nat (size (wi_ips i)) <= N.max (ws_max_tracked_ips cfg) 1)%N /\
  (N.of_nat (size (wi_paths i)) <= N.max (ws_max_tracked_paths cfg) 1)%N /\
  (forall ip st, wi_ips i !! ip = Some st -> (length (is_paths st) <= 256)%nat /\ NoDup ((fun x => x.1.1) <$> is_paths st)).
Proof using order.
  destruct (webshell_after_ready cfg es Hw Hs) as (_ & _ & _ & Hi & Hp & Hk). split_and!; [done|done|].
  intros ip st Hst. by destruct (Hk ip st Hst) as (_ & ? & _ & ?).
Qed.

Lemma process_webshell_wf (event : NormalizedEvent) (d : WebshellProbeDetector) (s : DetectionSignal) :
  wf_ip (ev_source_ip event) -> (process_webshell event d).2 = Some s -> wf_signal s.
Proof using laws hash.
  intros Hip. unfold process_webshell. destruct (webshell_request d event) as [[[php status] ua]|]; [|done].
  destruct (share_path _ _ _ _ _) as [i bonus]. destruct (record_probe _ _ _ _ _) as [paths [[n score]|]]; [|done]. intros [= <-].
  split_and!; [by apply source_key_wf|done|done|apply blake3_length].
Qed.

#[export, refine] Instance webshell_laws : DetectorLaws WebshellProbeDetector := {| det_ok _ := True |}.
Proof using laws hash. intros event d Hip _. apply (multi_of_process_ok (fun _ => True) process_webshell); [done|]. intros s. by apply process_webshell_wf. Defined.
End facts.

(** ** Witnesses *)
Module WebshellSample.
#[local] Existing Instance ipnet_ref.
#[local] Existing Instance hash_iter_ref.
(** Eight bytes of the text itself stand for its hash. *)
#[local] Instance blake : Blake3 := fun bs => take 32 (bs ++ replicate 32 0).

Definition get (t : Z) (path : string) : NormalizedEvent :=
  {| ev_timestamp := secs t; ev_source_ip := IpV4 7; ev_event_type := HttpRequest; ev_source_name := "nginx"; ev_raw_line := "";
     ev_metadata := list_to_map [("path", path); ("user_agent", "-"); ("status_code", "404")]%string |}.
Definition cfg : WebshellProbeConfig :=
  {| ws_window := secs 100; ws_min_distinct_paths := 3; ws_score_threshold := f32_lit 23 2; ws_ban_duration := secs 60;
     ws_legit_paths := default_legit_php_paths; ws_ignore_user_agents := []; ws_ignore_vhosts := [];
     ws_shared_path_min_ips := 3; ws_max_tracked_ips := 10; ws_max_tracked_paths := 10; ws_ipv6_prefix := 64 |}.

(** The first is legitimate, the third repeats the second; 3 + 4.5 + 4 points. *)
Definition es : list NormalizedEvent := [get 0 "/index.php"; get 10 "/222.php"; get 11 "/222.php?x"; get 20 "/Wso.phtml"].
Definition last : NormalizedEvent := get 30 "/wp-content/uploads/a.php".

Definition fired : option DetectionSignal := (process_webshell last (webshell_after cfg es)).2.
Example webshell_reason : sig_reason <$> fired =
  Some "Webshell/backdoor probing: 3 distinct suspicious PHP paths (score 11.5, last '/wp-content/uploads/a.php') in 100s"%string.
Proof. by vm_compute. Qed.

Definition the_signal : DetectionSignal := default (webshell_signal cfg (NetV4 0 0) 0 [] 0 sf_zero) fired.

Lemma webshell_signal_sound_witness : sig_source_ip the_signal = source_key (IpV4 7) 64.
Proof.
  refine (proj1 (@webshell_signal_sound _ _ _ hash_iter_ref_laws cfg es last (process_webshell last (webshell_after cfg es)).1 the_signal _ _ _)).
  - by vm_compute.
  - apply (bool_decide_unpack _). by vm_compute.
  - by vm_compute.
Defined.

Lemma webshell_bounded_witness : (N.of_nat (size (wi_ips (ws_inner (webshell_after cfg es)))) <= 10)%N.
Proof.
  refine (proj1 (@webshell_bounded _ _ _ hash_iter_ref_laws cfg es _ _)); [by vm_compute|]. apply (bool_decide_unpack _). by vm_compute.
Defined.
End WebshellSample.
