(* ===== verification/Timing.v ===== *)
(** * The timing detector ([detectors/timing.rs])

    Requests at suspiciously regular intervals: the standard deviation of the
    inter-arrival times of a source, in double precision. *)
From S2P Require Import Prelude Text Models Floats Windows Detector.
From stdpp Require Import pretty sorting.
Local Open Scope Z_scope.

Record TimingDetector : Type := {
  ti_window : Duration;
  ti_min_samples : Z;
  ti_stddev_threshold_ms : spec_float;
  ti_timestamps : gmap IpAddr (list DateTime);
}.

Definition timing_with_config (window : Duration) (min_samples : Z) (stddev_threshold_ms : spec_float) : TimingDetector :=
  {| ti_window := window; ti_min_samples := min_samples; ti_stddev_threshold_ms := stddev_threshold_ms; ti_timestamps := ∅ |}.
Definition timing_new : TimingDetector := timing_with_config (secs 60) 10 (f64_lit 50 1).

Definition set_timestamps (m : gmap IpAddr (list DateTime)) (d : TimingDetector) : TimingDetector :=
  {| ti_window := ti_window d; ti_min_samples := ti_min_samples d; ti_stddev_threshold_ms := ti_stddev_threshold_ms d;
     ti_timestamps := m |}.

Definition timing_cutoff (d : TimingDetector) (now : DateTime) : DateTime :=
  now - default (secs 60) (duration_from_std (ti_window d)).

(** Of one source; an empty list is dropped from the map. *)
Definition cleanup_timestamps (ip : IpAddr) (now : DateTime) (d : TimingDetector) : TimingDetector :=
  match ti_timestamps d !! ip with
  | None => d
  | Some ts =>
      let kept := List.filter (fun t => timing_cutoff d now <? t) ts in
      set_timestamps (if bool_decide (kept = []) then delete ip (ti_timestamps d) else <[ip := kept]> (ti_timestamps d)) d
  end.

(** [num_milliseconds]: towards zero. *)
Definition num_milliseconds (d : Z) : Z := Z.quot d 1000000.

(** [sorted.windows(2)], each as milliseconds. *)
Definition intervals (ts : list DateTime) : list spec_float :=
  let sorted := merge_sort Z.le ts in
  zip_with (fun a b => f64_of_u64 (num_milliseconds (b - a))) sorted (tail sorted).

Definition inter_arrival_stddev (ts : list DateTime) : option spec_float :=
  if (length ts <? 2)%nat then None
  else
    let xs := intervals ts in
    if bool_decide (xs = []) then None
    else
      let n := f64_of_u64 (Z.of_nat (length xs)) in
      let mean := f64_div (f64_sum xs) n in
      let variance := f64_div (f64_sum ((fun x => f64_mul (f64_sub x mean) (f64_sub x mean)) <$> xs)) n in
      Some (f64_sqrt variance).

Section timing.
Context `{IpNetOps} `{Blake3}.

Definition timing_signal (ip : IpAddr) (stddev : spec_float) (now : DateTime) : DetectionSignal :=
  let evidence := (ip_to_string ip +:+ ":timing:stddev=" +:+ fmt_fixed 1 stddev +:+ "ms")%string in
  {| sig_source_ip := ip_to_net ip; sig_severity := 40; sig_confidence := f32_lit 1 2;
     sig_reason := ("Bot-like request timing (stddev=" +:+ fmt_fixed 1 stddev +:+ "ms)")%string;
     sig_evidence_hash := blake3 (as_bytes evidence); sig_suggested_action := Observe;
     sig_detector_name := "timing"; sig_timestamp := now |}.

(** The verdict on the time stamps of a source. *)
Definition judge_timing (d : TimingDetector) (ts : list DateTime) : option spec_float :=
  if Z.of_nat (length ts) <? ti_min_samples d then None
  else match inter_arrival_stddev ts with
       | Some stddev => if SFltb stddev (ti_stddev_threshold_ms d) then Some stddev else None
       | None => None
       end.

Definition is_timed (t : EventType) : bool := match t with HttpRequest | Http4xx => true | _ => false end.

Definition process_timing (event : NormalizedEvent) (d : TimingDetector) : TimingDetector * option DetectionSignal :=
  if is_timed (ev_event_type event) then
    let ip := ev_source_ip event in
    let now := ev_timestamp event in
    let d := cleanup_timestamps ip now d in
    let ts := default [] (ti_timestamps d !! ip) ++ [now] in
    (set_timestamps (<[ip := ts]> (ti_timestamps d)) d, (fun x => timing_signal ip x now) <$> judge_timing d ts)
  else (d, None).

#[export] Instance timing_detector : Detector TimingDetector := multi_of_process process_timing.
End timing.

(** ** Regular intervals *)
(** Whole numbers below [2^53] are exact. *)
Lemma u53_fits (n : Z) : 0 < n < 2 ^ 53 -> fits 53 1024 n 0.
Proof.
  intros Hn. pose proof (Zdigits_le n 53 ltac:(lia) ltac:(lia) ltac:(lia)).
  assert (1 <= Zdigits2 n) by (destruct n; simpl in *; lia). unfold fits, emin. lia.
Qed.

Lemma f64_of_exact (n : Z) : 0 < n < 2 ^ 53 -> f64_of_u64 n = sf_of 53 n 0.
Proof.
  intros Hn. pose proof (normalize_exact 53 1024 ltac:(lia) ltac:(lia) n 0 0 (u53_fits n Hn) ltac:(lia)) as E.
  rewrite Z.pow_0_r, Z.mul_1_r in E. exact E.
Qed.

Lemma sum_from (g k : Z) (m : nat) : 0 < g -> 0 < k -> (k + Z.of_nat m) * g < 2 ^ 53 ->
  foldl f64_add (sf_of 53 (k * g) 0) (replicate m (sf_of 53 g 0)) = sf_of 53 ((k + Z.of_nat m) * g) 0.
Proof.
  intros Hg. revert k. induction m as [|m IH]; intros k Hk Hb; cbn [replicate foldl]; [f_equal; lia|].
  assert (E : f64_add (sf_of 53 (k * g) 0) (sf_of 53 g 0) = sf_of 53 (k * g + g) 0)
    by (apply add_exact; [lia|lia|apply u53_fits; nia..]). rewrite E.
  replace (k * g + g) with ((k + 1) * g) by lia. rewrite IH by lia. f_equal. lia.
Qed.

Lemma sum_zeros (m : nat) : foldl f64_add (S754_zero false) (replicate m (S754_zero false)) = S754_zero false.
Proof. by induction m. Qed.

(** The sum of [n] equal values, and their mean: nothing is rounded. *)
Lemma mean_even (g : Z) (n : nat) : (0 < n)%nat -> 0 <= g -> Z.of_nat n * Z.max 1 g < 2 ^ 53 ->
  f64_div (f64_sum (replicate n (f64_of_u64 g))) (f64_of_u64 (Z.of_nat n)) = f64_of_u64 g.
Proof.
  intros Hn Hg Hb. rewrite (f64_of_exact (Z.of_nat n)) by nia. destruct n as [|m]; [lia|]. unfold f64_sum. cbn [replicate foldl].
  destruct (decide (g = 0)) as [->|Hne].
  { change (f64_add (S754_zero true) (f64_of_u64 0)) with (S754_zero false). change (f64_of_u64 0) with (S754_zero false). by rewrite sum_zeros. }
  rewrite (f64_of_exact g) by nia. change (f64_add (S754_zero true) (sf_of 53 g 0)) with (sf_of 53 g 0).
  replace (sf_of 53 g 0) with (sf_of 53 (1 * g) 0) at 1 by by rewrite Z.mul_1_l.
  rewrite sum_from by nia. replace ((1 + Z.of_nat m) * g) with (g * Z.of_nat (S m)) by lia.
  unfold f64_div. by rewrite (div_exact 53 1024 ltac:(lia) ltac:(lia)) by (apply u53_fits; nia).
Qed.

Lemma sub_self (g : Z) : 0 <= g -> g < 2 ^ 53 -> f64_sub (f64_of_u64 g) (f64_of_u64 g) = S754_zero false.
Proof.
  intros Hg Hb. destruct (decide (g = 0)) as [->|Hne]; [done|]. rewrite f64_of_exact by lia.
  unfold f64_sub, sf_of, SFsub. cbv zeta. by rewrite Z.sub_diag.
Qed.

(** The gaps between time stamps in order, in milliseconds. *)
Definition gaps (ts : list DateTime) : list Z := zip_with (fun a b => num_milliseconds (b - a)) ts (tail ts).

Lemma merge_sort_sorted (ts : list DateTime) : StronglySorted Z.le ts -> merge_sort Z.le ts = ts.
Proof.
  intros Hs. apply (StronglySorted_unique Z.le); [by apply (StronglySorted_merge_sort _)|done|apply merge_sort_Permutation].
Qed.

Lemma gaps_length (ts : list DateTime) : length (gaps ts) = (length ts - 1)%nat.
Proof. unfold gaps. rewrite length_zip_with. destruct ts; [done|]. cbn [length tail]. lia. Qed.

Lemma intervals_even (ts : list DateTime) (g : Z) : StronglySorted Z.le ts -> Forall (eq g) (gaps ts) ->
  intervals ts = replicate (length ts - 1) (f64_of_u64 g).
Proof.
  intros Hs Hg. unfold intervals. rewrite merge_sort_sorted by done.
  assert (E : zip_with (fun a b => f64_of_u64 (num_milliseconds (b - a))) ts (tail ts) = f64_of_u64 <$> gaps ts).
  { unfold gaps. generalize (tail ts). clear. induction ts as [|t ts IH]; intros [|u us]; simpl; [done..|]. by rewrite IH. }
  rewrite E.
  rewrite <- gaps_length. clear Hs E. induction Hg as [|x l <- _ IH]; [done|]. rewrite fmap_cons, IH. done.
Qed.

Lemma stddev_even (ts : list DateTime) (g : Z) : StronglySorted Z.le ts -> Forall (eq g) (gaps ts) -> 0 <= g ->
  (2 <= length ts)%nat -> Z.of_nat (length ts) * Z.max 1 g < 2 ^ 53 ->
  inter_arrival_stddev ts = Some (S754_zero false).
Proof.
  intros Hs Hg Hg0 Hn Hb. unfold inter_arrival_stddev. rewrite (intervals_even ts g) by done.
  rewrite (proj2 (Nat.ltb_ge _ _)) by lia. rewrite bool_decide_eq_false_2 by (destruct (length ts) as [|[|]]; simpl; [lia|lia|done]).
  rewrite length_replicate, fmap_replicate, mean_even, sub_self by (lia || nia).
  rewrite (f64_of_exact (Z.of_nat (length ts - 1))) by nia. destruct (length ts - 1)%nat as [|m] eqn:Em; [lia|].
  change (f64_mul (S754_zero false) (S754_zero false)) with (S754_zero false). unfold f64_sum. cbn [replicate foldl].
  change (f64_add (S754_zero true) (S754_zero false)) with (S754_zero false). by rewrite sum_zeros.
Qed.

(** ** What the detector remembers *)
Section facts.
Context `{IpNetOps} {laws : IpNetLaws} `{Blake3} {hash : Blake3Laws}.

Lemma process_timing_wf (event : NormalizedEvent) (d : TimingDetector) (s : DetectionSignal) :
  wf_ip (ev_source_ip event) -> (process_timing event d).2 = Some s -> wf_signal s.
Proof using hash.
  intros Hip. unfold process_timing. destruct (is_timed _); [|done]. simpl. destruct (judge_timing _ _); [|done]. intros [= <-].
  split_and!; [by apply ip_to_net_wf|unfold in_width; simpl; lia|done|apply blake3_length].
Qed.

#[export, refine] Instance timing_laws : DetectorLaws TimingDetector := {| det_ok _ := True |}.
Proof using hash.
  intros event d Hip _. apply (multi_of_process_ok (fun _ => True) process_timing); [done|]. intros s. by apply process_timing_wf.
Defined.

Definition timing_run (d0 : TimingDetector) (es : list NormalizedEvent) : TimingDetector :=
  foldl (fun d e => (process_timing e d).1) d0 es.

(** The requests of a source. *)
Definition requests_of (ip : IpAddr) (es : list NormalizedEvent) : list DateTime :=
  omap (fun e => if is_timed (ev_event_type e) && bool_decide (ev_source_ip e = ip) then Some (ev_timestamp e) else None) es.

(** Those of the window that ends with a request at [now]. *)
Definition timing_window (d0 : TimingDetector) (ip : IpAddr) (es : list NormalizedEvent) (now : DateTime) : list DateTime :=
  List.filter (fun t => timing_cutoff d0 now <? t) (requests_of ip es) ++ [now].

Lemma cleanup_timestamps_lookup (ip j : IpAddr) (now : DateTime) (d : TimingDetector) :
  default [] (ti_timestamps (cleanup_timestamps ip now d) !! j) =
    let l := default [] (ti_timestamps d !! j) in
    if decide (j = ip) then List.filter (fun t => timing_cutoff d now <? t) l else l.
Proof.
  unfold cleanup_timestamps. destruct (ti_timestamps d !! ip) as [ts|] eqn:E; cbv zeta.
  - simpl. case_decide as Ej; [subst j|].
    + rewrite E. simpl. case_bool_decide as Hk; [by rewrite lookup_delete_eq, Hk|by rewrite lookup_insert_eq].
    + case_bool_decide; [by rewrite lookup_delete_ne by congruence|by rewrite lookup_insert_ne by congruence].
  - case_decide as Ej; [|done]. subst j. by rewrite E.
Qed.

Definition same_settings (d0 d : TimingDetector) : Prop :=
  ti_window d = ti_window d0 /\ ti_min_samples d = ti_min_samples d0 /\ ti_stddev_threshold_ms d = ti_stddev_threshold_ms d0.

Lemma cleanup_settings (ip : IpAddr) (now : DateTime) (d : TimingDetector) : same_settings d (cleanup_timestamps ip now d).
Proof. unfold cleanup_timestamps. by destruct (ti_timestamps d !! ip). Qed.

Lemma process_timing_settings (d0 d : TimingDetector) (e : NormalizedEvent) :
  same_settings d0 d -> same_settings d0 (process_timing e d).1.
Proof.
  unfold process_timing. destruct (is_timed _); [|done]. simpl.
  destruct (cleanup_settings (ev_source_ip e) (ev_timestamp e) d) as (E1 & E2 & E3). unfold same_settings. simpl.
  rewrite E1, E2, E3. done.
Qed.

Lemma timing_run_snoc (d0 : TimingDetector) (es : list NormalizedEvent) (e : NormalizedEvent) :
  timing_run d0 (es ++ [e]) = (process_timing e (timing_run d0 es)).1.
Proof. unfold timing_run. by rewrite foldl_app. Qed.

Lemma filter_later (c c' : Z) (l : list Z) : c <= c' ->
  List.filter (fun t => c' <? t) (List.filter (fun t => c <? t) l) = List.filter (fun t => c' <? t) l.
Proof.
  intros Hc. induction l as [|t l IH]; simpl; [done|].
  destruct (Z.ltb_spec c t) as [H1|H1]; simpl; [by rewrite IH|]. by rewrite IH, (proj2 (Z.ltb_ge c' t)) by lia.
Qed.

Lemma sorted_snoc (l : list DateTime) (t : DateTime) : StronglySorted Z.le (l ++ [t]) ->
  StronglySorted Z.le l /\ Forall (fun x => x <= t) l.
Proof.
  induction l as [|x l IH]; [split; constructor|]. simpl. intros Hs. inversion Hs as [|? ? Hs' Hle]; subst.
  destruct (IH Hs') as [Hl Hf]. apply Forall_app in Hle as [Hle Ht]. apply Forall_cons in Ht as [Ht _].
  split; constructor; done.
Qed.

(** Of each source, at least the requests of any window that ends later. *)
Lemma timing_remembers (d0 : TimingDetector) (es : list NormalizedEvent) (ip : IpAddr) (now : DateTime) :
  ti_timestamps d0 = ∅ -> StronglySorted Z.le (ev_timestamp <$> es) -> Forall (fun e => ev_timestamp e <= now) es ->
  same_settings d0 (timing_run d0 es) /\
  List.filter (fun t => timing_cutoff d0 now <? t) (default [] (ti_timestamps (timing_run d0 es) !! ip)) =
  List.filter (fun t => timing_cutoff d0 now <? t) (requests_of ip es).
Proof.
  intros Hnew. revert now. induction es as [|e es IH] using rev_ind; intros now Hs Hn.
  { split; [done|]. simpl. by rewrite Hnew, lookup_empty. }
  rewrite fmap_app in Hs. apply sorted_snoc in Hs as [Hs Hle]. apply Forall_app in Hn as [Hn He]. apply Forall_cons in He as [He _].
  apply (Forall_fmap ev_timestamp) in Hle.
  destruct (IH now Hs Hn) as [Hset Hnow]. destruct (IH (ev_timestamp e) Hs Hle) as [_ Hev].
  rewrite timing_run_snoc. split; [by apply process_timing_settings|].
  unfold requests_of. rewrite omap_app, List.filter_app. fold (requests_of ip es). rewrite <- Hnow.
  set (d := timing_run d0 es) in *. unfold process_timing. simpl. destruct (is_timed (ev_event_type e)); [|by rewrite app_nil_r].
  simpl. case_bool_decide as Eip.
  - subst ip. rewrite lookup_insert_eq. simpl. rewrite cleanup_timestamps_lookup. cbv zeta. rewrite decide_True by done.
    assert (Ec : timing_cutoff d = timing_cutoff d0) by (unfold timing_cutoff; by destruct Hset as (-> & _ & _)). rewrite Ec.
    rewrite List.filter_app. f_equal. apply filter_later. unfold timing_cutoff. lia.
  - rewrite lookup_insert_ne by congruence. rewrite cleanup_timestamps_lookup. cbv zeta. rewrite decide_False by congruence. by rewrite app_nil_r.
Qed.

(** Every source that ever sent a request stays in the map: nothing is swept. *)
Lemma timing_never_forgets (d0 : TimingDetector) (es : list NormalizedEvent) (ip : IpAddr) : ti_timestamps d0 = ∅ ->
  ip ∈ dom (ti_timestamps (timing_run d0 es)) <-> requests_of ip es <> [].
Proof.
  clear hash laws. intros Hnew. induction es as [|e es IH] using rev_ind; [simpl; rewrite Hnew; set_solver|].
  rewrite timing_run_snoc. unfold requests_of. rewrite omap_app. fold (requests_of ip es). set (d := timing_run d0 es) in *.
  unfold process_timing. simpl. destruct (is_timed (ev_event_type e)); [|by rewrite app_nil_r]. simpl.
  rewrite dom_insert, elem_of_union, elem_of_singleton. case_bool_decide as Eip.
  - subst. split; [intros _ []%app_nil|by left]. done.
  - rewrite app_nil_r, <- IH. unfold cleanup_timestamps. destruct (ti_timestamps d !! ev_source_ip e) eqn:E; simpl.
    + case_bool_decide; rewrite ?dom_delete, ?dom_insert; set_solver.
    + set_solver.
Qed.

Lemma window_sorted (d0 : TimingDetector) (ip : IpAddr) (es : list NormalizedEvent) (now : DateTime) :
  StronglySorted Z.le ((ev_timestamp <$> es) ++ [now]) -> StronglySorted Z.le (timing_window d0 ip es now).
Proof.
  apply sublist_sorted. unfold timing_window. apply sublist_app; [|done]. unfold requests_of.
  induction es as [|e es IH]; simpl; [done|]. destruct (is_timed _ && _); simpl; [|by apply sublist_cons].
  destruct (_ <? _); [by apply sublist_skip|by apply sublist_cons].
Qed.

(** The timing detector judges exactly the window: with events in order of time,
    it reports a request if and only if the requests of its source within the
    window that ends with it are at least [min_samples] and the standard
    deviation of their intervals is below the threshold. In particular a client
    whose requests come at equal intervals is always reported: sum, mean and
    deviation are computed without rounding error. *)
Theorem timing_judges_window (d0 : TimingDetector) (es : list NormalizedEvent) (e : NormalizedEvent)
  (Hnew : ti_timestamps d0 = ∅) (Htimed : is_timed (ev_event_type e) = true)
  (Hsorted : StronglySorted Z.le (ev_timestamp <$> es ++ [e])) :
  let W := timing_window d0 (ev_source_ip e) es (ev_timestamp e) in
  let out := (process_timing e (timing_run d0 es)).2 in
  (is_Some out <-> ti_min_samples d0 <= Z.of_nat (length W) /\
     exists x, inter_arrival_stddev W = Some x /\ SFltb x (ti_stddev_threshold_ms d0) = true) /\
  (forall g, Forall (eq g) (gaps W) -> 0 <= g -> (2 <= length W)%nat -> ti_min_samples d0 <= Z.of_nat (length W) ->
     Z.of_nat (length W) * Z.max 1 g < 2 ^ 53 -> SFltb sf_zero (ti_stddev_threshold_ms d0) = true ->
     exists s, out = Some s /\ sig_source_ip s = ip_to_net (ev_source_ip e) /\ sig_suggested_action s = Observe).
Proof.
  intros W out. rewrite fmap_app in Hsorted. pose proof Hsorted as Hall. apply sorted_snoc in Hsorted as [Hs Hle].
  apply (Forall_fmap ev_timestamp) in Hle.
  destruct (timing_remembers d0 es (ev_source_ip e) (ev_timestamp e) Hnew Hs Hle) as [Hset Hw].
  set (d := timing_run d0 es) in *.
  assert (Hout : out = (fun x => timing_signal (ev_source_ip e) x (ev_timestamp e)) <$> judge_timing d0 W).
  { unfold out, process_timing. rewrite Htimed. cbn [snd]. f_equal. unfold W, timing_window. rewrite <- Hw, cleanup_timestamps_lookup.
    cbv zeta. rewrite decide_True by done. destruct (cleanup_settings (ev_source_ip e) (ev_timestamp e) d) as (E1 & E2 & E3).
    destruct Hset as (F1 & F2 & F3). unfold judge_timing, timing_cutoff. by rewrite E2, E3, F1, F2, F3. }
  rewrite Hout, fmap_is_Some. unfold judge_timing. split.
  - destruct (Z.ltb_spec (Z.of_nat (length W)) (ti_min_samples d0)) as [Hlt|Hge].
    { split; [by intros [? ?]|intros [? _]; lia]. }
    destruct (inter_arrival_stddev W) as [x|]; [|split; [by intros [? ?]|by intros (_ & ? & ? & _)]].
    destruct (SFltb x _) eqn:Ex; split; [eauto|eauto|by intros [? ?]|intros (_ & y & [= <-] & ?); congruence].
  - intros g Hg Hg0 H2 Hmin Hb Hpos. rewrite (proj2 (Z.ltb_ge _ _)) by lia.
    rewrite (stddev_even W g) by (done || apply window_sorted; done). change sf_zero with (S754_zero false) in Hpos. rewrite Hpos.
    by eexists.
Qed.
End facts.

(** ** Witnesses *)
Module TimingSample.
#[local] Existing Instances ipnet_ref.
#[local] Instance blake : Blake3 := fun _ => replicate 32 0.

(** A request every 250 ms, with another client in between. *)
Definition request (ip t : Z) : NormalizedEvent :=
  {| ev_timestamp := t * 1000000; ev_source_ip := IpV4 ip; ev_event_type := HttpRequest; ev_source_name := "nginx";
     ev_raw_line := ""; ev_metadata := ∅ |}.
Definition det : TimingDetector := timing_with_config (secs 60) 4 (f64_lit 50 1).
Definition es : list NormalizedEvent := [request 7 0; request 8 10; request 7 250; request 7 500].
Definition last : NormalizedEvent := request 7 750.

Lemma timing_judges_window_witness :
  exists s, (process_timing last (timing_run det es)).2 = Some s /\ sig_source_ip s = ip_to_net (IpV4 7) /\ sig_suggested_action s = Observe.
Proof.
  refine (proj2 (timing_judges_window det es last _ _ _) 250 _ _ _ _ _ _).
  - reflexivity.
  - reflexivity.
  - apply (bool_decide_unpack _). by vm_compute.
  - apply (bool_decide_unpack _). by vm_compute.
  - lia.
  - vm_compute. lia.
  - vm_compute. congruence.
  - vm_compute. reflexivity.
  - vm_compute. reflexivity.
Defined.
End TimingSample.
