(* ===== verification/Entropy.v ===== *)
(** * The entropy detector ([detectors/entropy.rs], [detectors/entropy_analysis.rs])

    Features of a request target (entropies, compressibility, byte classes), the
    anomaly score made of them in double precision, and the signal. The binary
    logarithm of the platform and the DEFLATE compressor are parameters. *)
From S2P Require Import Prelude Text Models Floats Windows Detector.
From stdpp Require Import pretty.
Local Open Scope Z_scope.

(** [f64::log2], whose last digits are the platform's. *)
Class Log2 : Type := f64_log2 : spec_float -> spec_float.
(** [DeflateEncoder] at [Compression::fast], written and finished. *)
Class Deflate : Type := deflate : bytes -> option bytes.

Record EntropyFeatures : Type := {
  ef_shannon : spec_float;
  ef_bigram_entropy : spec_float;
  ef_compression_ratio : spec_float;
  ef_high_byte_fraction : spec_float;
  ef_control_char_fraction : spec_float;
  ef_known_benign_pattern : bool;
  ef_is_error_response : bool;
  ef_data_len : Z;
}.

Definition len_of (s : bytes) : Z := Z.of_nat (length s).
(** A [u32] counter of the elements that satisfy [f]. *)
Definition u32_count {A} (f : A -> bool) (l : list A) : Z := wrap 32 (Z.of_nat (length (List.filter f l))).

Section measures.
Context `{Log2} `{Deflate} `{HashIter}.

(** [entropy -= p * p.log2()] for one count. *)
Definition entropy_step (total : spec_float) (entropy : spec_float) (count : Z) : spec_float :=
  let p := f64_div (f64_of_u64 count) total in f64_sub entropy (f64_mul p (f64_log2 p)).

Definition shannon_entropy (data : bytes) : spec_float :=
  if bool_decide (data = []) then f64_zero
  else
    let counts := (fun b => u32_count (Z.eqb b) data) <$> seqZ 0 256 in
    foldl (fun h c => if 0 <? c then entropy_step (f64_of_u64 (len_of data)) h c else h) f64_zero counts.

(** The pairs in the order in which the hash map is walked. *)
Definition bigram_entropy (data : bytes) : spec_float :=
  if (length data <? 2)%nat then f64_zero
  else
    let pairs := zip data (tail data) in
    let counts := (fun p => u32_count (fun q => bool_decide (p = q)) pairs) <$> hash_iter (list_to_set pairs : gset (Z * Z)) in
    foldl (entropy_step (f64_of_u64 (len_of data - 1))) f64_zero counts.

Definition compression_ratio (data : bytes) : spec_float :=
  if len_of data <? 100 then f64_lit 1 2
  else match deflate data with
       | Some compressed => f64_div (f64_of_u64 (len_of compressed)) (f64_of_u64 (len_of data))
       | None => f64_lit 1 1
       end.
End measures.

(** ** Byte classes *)
Record CharClassProfile : Type := { cc_printable_ascii : Z; cc_high_bytes : Z; cc_control_chars : Z; cc_total : Z }.

Definition is_printable (b : Z) : bool := in_range 32 126 b || (b =? 9) || (b =? 10) || (b =? 13).
Definition is_high (b : Z) : bool := negb (is_printable b) && in_range 128 255 b.

Definition char_class_profile (data : bytes) : CharClassProfile :=
  {| cc_printable_ascii := Z.of_nat (length (List.filter is_printable data));
     cc_high_bytes := Z.of_nat (length (List.filter is_high data));
     cc_control_chars := Z.of_nat (length (List.filter (fun b => negb (is_printable b) && negb (is_high b)) data));
     cc_total := len_of data |}.

Definition fraction (part total : Z) : spec_float :=
  if total =? 0 then f64_zero else f64_div (f64_of_u64 part) (f64_of_u64 total).
Definition high_byte_fraction (p : CharClassProfile) : spec_float := fraction (cc_high_bytes p) (cc_total p).
Definition control_char_fraction (p : CharClassProfile) : spec_float := fraction (cc_control_chars p) (cc_total p).

(** ** The structure of the target *)
Record UrlParts : Type := { up_path : bytes; up_query_params : list (bytes * bytes) }.

Definition decompose_url (combined : bytes) : UrlParts :=
  let '(path, query) := default (combined, []) (split_once 63 combined) in
  {| up_path := path;
     up_query_params :=
       if bool_decide (query = []) then []
       else (fun pair => default (pair, []) (split_once 61 pair)) <$> split_on 38 query |}.

Definition BENIGN_PATH_PREFIXES : list bytes :=
  as_bytes <$> ["/wp-content/"; "/wp-includes/"; "/wp-admin/"; "/wp-json/"; "/wp-cron.php"; "/static/"; "/assets/"; "/media/";
                "/favicon"; "/robots.txt"; "/sitemap"; "/.well-known/"; "/cdn-cgi/"; "/node_modules/"; "/dist/"; "/build/";
                "/bundles/"]%string.

Definition BENIGN_PARAM_NAMES : list bytes :=
  as_bytes <$> ["ver"; "v"; "hash"; "etag"; "fbclid"; "gclid"; "utm_source"; "utm_medium"; "utm_campaign"; "utm_content";
                "utm_term"; "mc_cid"; "mc_eid"; "msclkid"; "_ga"; "ref"; "token"; "nonce"; "signature"; "sig";
                "rest_route"; "doing_wp_cron"; "wordfence_syncAttackData"; "wordfence_lh"; "timestamp"; "ical";
                "outlook-ical"; "post_type"; "action"; "orderby"; "order"; "per_page"; "_fields"; "_embed"; "include";
                "tags"; "tag"; "p"; "page_id"; "s"; "cat"; "paged"; "redirect_to"; "reauth"; "share"; "lang"; "pid"]%string.

Definition BENIGN_EXTENSIONS : list bytes :=
  as_bytes <$> [".css"; ".js"; ".png"; ".jpg"; ".jpeg"; ".gif"; ".svg"; ".ico"; ".woff"; ".woff2"; ".ttf"; ".eot"; ".otf";
                ".webp"; ".avif"; ".mp4"; ".webm"; ".map"; ".json"; ".xml"; ".txt"; ".pdf"; ".zip"; ".gz"]%string.

Definition is_benign_param (key : bytes) : bool := existsb (eq_ignore_ascii_case key) BENIGN_PARAM_NAMES.

Definition is_known_benign_url (path : bytes) (params : list (bytes * bytes)) : bool :=
  let path_lower := to_ascii_lowercase path in
  existsb (fun prefix => starts_with prefix path_lower) BENIGN_PATH_PREFIXES
  || existsb (fun ext => ends_with ext path_lower) BENIGN_EXTENSIONS
  || (negb (bool_decide (params = [])) && forallb (fun kv => is_benign_param kv.1) params).

Definition looks_like_hex_hash (s : bytes) : bool := (16 <=? length s)%nat && forallb is_ascii_hexdigit s.
Definition looks_like_base64 (s : bytes) : bool :=
  (20 <=? length s)%nat &&
  forallb (fun c => is_ascii_alpha c || is_ascii_digit c || existsb (Z.eqb c) (as_bytes "+/=-_")) s.

Section features.
Context `{Log2} `{Deflate} `{HashIter}.

Definition combined_target (path query : bytes) : bytes :=
  if bool_decide (query = []) then path else path ++ [63] ++ query.

(** The values of the parameters that are not known to carry tokens, if they
    have any length, or everything. *)
Definition analysis_target (data : bytes) (params : list (bytes * bytes)) : bytes :=
  let param_values := concat (snd <$> List.filter (fun kv => negb (is_benign_param kv.1)) params) in
  if (10 <=? length param_values)%nat then param_values else data.

Definition extract_features (path query : bytes) (status_code : Z) : EntropyFeatures :=
  let data := combined_target path query in
  let url_parts := decompose_url data in
  let profile := char_class_profile data in
  let target := analysis_target data (up_query_params url_parts) in
  {| ef_shannon := shannon_entropy target;
     ef_bigram_entropy := bigram_entropy target;
     ef_compression_ratio := compression_ratio target;
     ef_high_byte_fraction := high_byte_fraction profile;
     ef_control_char_fraction := control_char_fraction profile;
     ef_known_benign_pattern := is_known_benign_url (up_path url_parts) (up_query_params url_parts);
     ef_is_error_response := (400 <=? status_code) && (status_code <=? 599);
     ef_data_len := len_of data |}.
End features.

(** ** The anomaly score *)
Record ScoringWeights : Type := {
  w_compression : spec_float;
  w_bigram : spec_float;
  w_high_bytes : spec_float;
  w_control_chars : spec_float;
  w_shannon : spec_float;
  error_response_multiplier : spec_float;
  benign_penalty : spec_float;
  min_data_len : Z;
}.

Definition weights_default : ScoringWeights :=
  {| w_compression := f64_lit 35 1; w_bigram := f64_lit 20 1; w_high_bytes := f64_lit 100 1; w_control_chars := f64_lit 80 1;
     w_shannon := f64_lit 10 1; error_response_multiplier := f64_lit 15 10; benign_penalty := f64_lit 30 1; min_data_len := 15 |}.

Record AnomalyScore : Type := { an_score : spec_float; an_explanation : string; an_features : EntropyFeatures }.

(** A score and the parts of its explanation. *)
Abbreviation tally := (spec_float * list string)%type.

(** [(x - threshold).max(0.0) * weight / scale] counts when above a half. *)
Definition add_excess (x threshold weight scale : spec_float) (part : string) (t : tally) : tally :=
  let contrib := f64_div (f64_mul (sf_max (f64_sub x threshold) f64_zero) weight) scale in
  if sf_gt contrib (f64_lit 1 2) then (f64_add t.1 contrib, t.2 ++ [part]) else t.

(** [x * weight] counts when there is any. *)
Definition add_fraction (x weight : spec_float) (part : string) (t : tally) : tally :=
  if sf_gt x f64_zero then (f64_add t.1 (f64_mul x weight), t.2 ++ [part]) else t.

Definition percent (x : spec_float) : string := (fmt_fixed 1 (f64_mul x (f64_lit 100 1)) +:+ "%")%string.

(** The five features, in order. *)
Definition raw_score (f : EntropyFeatures) (w : ScoringWeights) : tally :=
  let t := (f64_zero, []) in
  let t := add_excess (ef_compression_ratio f) (f64_lit 75 100) (w_compression w) (f64_lit 25 100)
             ("compress=" +:+ fmt_fixed 2 (ef_compression_ratio f))%string t in
  let t := add_excess (ef_bigram_entropy f) (f64_lit 11 1) (w_bigram w) (f64_lit 4 1)
             ("bigram=" +:+ fmt_fixed 2 (ef_bigram_entropy f))%string t in
  let t := add_fraction (ef_high_byte_fraction f) (w_high_bytes w) ("highbytes=" +:+ percent (ef_high_byte_fraction f))%string t in
  let t := add_fraction (ef_control_char_fraction f) (w_control_chars w) ("ctrlchars=" +:+ percent (ef_control_char_fraction f))%string t in
  add_excess (ef_shannon f) (f64_lit 55 10) (w_shannon w) (f64_lit 25 10) ("shannon=" +:+ fmt_fixed 2 (ef_shannon f))%string t.

(** A rejected request weighs more, a known pattern less. *)
Definition adjust_score (f : EntropyFeatures) (w : ScoringWeights) (t : tally) : tally :=
  let t := if ef_is_error_response f && sf_gt t.1 f64_zero
           then (f64_mul t.1 (error_response_multiplier w), t.2 ++ ["4xx/5xx"%string]) else t in
  if ef_known_benign_pattern f then
    let score := sf_max (f64_sub t.1 (benign_penalty w)) f64_zero in
    (score, (if SFleb score f64_zero then [] else t.2) ++ ["benign-pattern"%string])
  else t.

Definition compute_anomaly_score (f : EntropyFeatures) (w : ScoringWeights) : option AnomalyScore :=
  if ef_data_len f <? min_data_len w then None
  else
    let '(score, parts) := adjust_score f w (raw_score f w) in
    Some {| an_score := sf_min score (f64_lit 100 1);
            an_explanation := if bool_decide (parts = []) then "no anomaly"%string else String.concat ", " parts;
            an_features := f |}.

(** ** The detector *)
Record EntropyDetector : Type := { en_weights : ScoringWeights; en_score_threshold : spec_float }.

Definition entropy_new : EntropyDetector := {| en_weights := weights_default; en_score_threshold := f64_lit 25 1 |}.

Definition entropy_from_config (score_threshold penalty error_multiplier : spec_float) : EntropyDetector :=
  let w := weights_default in
  {| en_weights :=
       {| w_compression := w_compression w; w_bigram := w_bigram w; w_high_bytes := w_high_bytes w;
          w_control_chars := w_control_chars w; w_shannon := w_shannon w; error_response_multiplier := error_multiplier;
          benign_penalty := penalty; min_data_len := min_data_len w |};
     en_score_threshold := score_threshold |}.

Definition entropy_with_range (min max : spec_float) : EntropyDetector :=
  {| en_weights := weights_default; en_score_threshold := if SFltb min (f64_lit 4 1) then f64_lit 5 1 else f64_lit 25 1 |}.

(** The largest character boundary up to [n]. *)
Fixpoint floor_boundary (n : nat) (s : bytes) : nat :=
  match n with
  | O => O
  | S n' => if is_char_boundary n s then n else floor_boundary n' s
  end.
Definition truncate_display (s : bytes) : bytes := if (length s <=? 80)%nat then s else take (floor_boundary 80 s) s.

(** [score] on the scale from the threshold to 100. *)
Definition normalized (threshold score : spec_float) : spec_float :=
  sf_min (f64_div (f64_sub score threshold) (f64_sub (f64_lit 100 1) threshold)) (f64_lit 1 1).
Definition entropy_severity (n : spec_float) : Z := sf_to_uint 255 (f64_add (f64_mul n (f64_lit 50 1)) (f64_lit 30 1)).
(** [x as f32] *)
Definition f64_to_f32 (x : spec_float) : spec_float :=
  match x with S754_finite s m e => binary_round 24 128 s m e | _ => x end.
Definition entropy_confidence (n : spec_float) : spec_float :=
  f64_to_f32 (f64_add (f64_lit 1 2) (f64_mul n (f64_lit 35 100))).

Section detector.
Context `{IpNetOps} `{Blake3} `{Log2} `{Deflate} `{HashIter}.

Definition entropy_signal (event : NormalizedEvent) (path query : bytes) (threshold : spec_float) (a : AnomalyScore)
    : DetectionSignal :=
  let n := normalized threshold (an_score a) in
  let evidence := (ip_to_string (ev_source_ip event) +:+ ":entropy_v2:" +:+ fmt_fixed 2 (an_score a) +:+ ":" +:+ of_bytes path)%string in
  {| sig_source_ip := ip_to_net (ev_source_ip event); sig_severity := entropy_severity n; sig_confidence := entropy_confidence n;
     sig_reason := ("Entropy anomaly (score=" +:+ fmt_fixed 1 (an_score a) +:+ ", H=" +:+ fmt_fixed 2 (ef_shannon (an_features a))
                    +:+ "): " +:+ of_bytes (truncate_display (combined_target path query)) +:+ " [" +:+ an_explanation a +:+ "]")%string;
     sig_evidence_hash := blake3 (as_bytes evidence); sig_suggested_action := Observe; sig_detector_name := "entropy";
     sig_timestamp := ev_timestamp event |}.

Definition status_of (event : NormalizedEvent) : Z := default 0 (meta event "status_code" ≫= parse_u16).

Definition process_entropy (event : NormalizedEvent) (d : EntropyDetector) : EntropyDetector * option DetectionSignal :=
  (d,
   if is_http (ev_event_type event) then
     match meta event "path" with
     | None => None
     | Some path =>
         let query := default [] (meta event "query") in
         match compute_anomaly_score (extract_features path query (status_of event)) (en_weights d) with
         | None => None
         | Some a =>
             if SFltb (an_score a) (en_score_threshold d) then None
             else Some (entropy_signal event path query (en_score_threshold d) a)
         end
     end
   else None).

#[export] Instance entropy_detector : Detector EntropyDetector := multi_of_process process_entropy.
End detector.

(** ** The range of a signal *)
Abbreviation f64_valid x := (valid_binary 53 1024 x = true) (only parsing).

Lemma add64 (x y : spec_float) : f64_valid x -> f64_valid y -> f64_valid (f64_add x y).
Proof. by apply add_valid. Qed.
Lemma sub64 (x y : spec_float) : f64_valid x -> f64_valid y -> f64_valid (f64_sub x y).
Proof. by apply sub_valid. Qed.
Lemma mul64 (x y : spec_float) : f64_valid x -> f64_valid y -> f64_valid (f64_mul x y).
Proof. by apply mul_valid. Qed.
Lemma div64 (x y : spec_float) : f64_valid x -> f64_valid y -> f64_valid (f64_div x y).
Proof. by apply div_valid. Qed.
Lemma of64 (n : Z) : f64_valid (f64_of_u64 n).
Proof. by apply normalize_valid. Qed.
Lemma lit64 (n d : Z) : f64_valid (f64_lit n d).
Proof. apply div64; apply of64. Qed.
Lemma min64 (x y : spec_float) : f64_valid x -> f64_valid y -> f64_valid (sf_min x y).
Proof. unfold sf_min. by repeat case_match. Qed.
Lemma max64 (x y : spec_float) : f64_valid x -> f64_valid y -> f64_valid (sf_max x y).
Proof. unfold sf_max. by repeat case_match. Qed.
Lemma zero64 : f64_valid f64_zero.
Proof. done. Qed.

Create HintDb f64.
#[export] Hint Resolve add64 sub64 mul64 div64 of64 lit64 min64 max64 zero64 : f64.

Definition valid_features (f : EntropyFeatures) : Prop :=
  f64_valid (ef_shannon f) /\ f64_valid (ef_bigram_entropy f) /\ f64_valid (ef_compression_ratio f) /\
  f64_valid (ef_high_byte_fraction f) /\ f64_valid (ef_control_char_fraction f).
Definition valid_weights (w : ScoringWeights) : Prop :=
  f64_valid (w_compression w) /\ f64_valid (w_bigram w) /\ f64_valid (w_high_bytes w) /\ f64_valid (w_control_chars w) /\
  f64_valid (w_shannon w) /\ f64_valid (error_response_multiplier w) /\ f64_valid (benign_penalty w).
(** The fields are doubles. *)
Definition valid_entropy (d : EntropyDetector) : Prop := valid_weights (en_weights d) /\ f64_valid (en_score_threshold d).

Lemma add_excess_valid (x th w sc : spec_float) (p : string) (t : tally) :
  f64_valid x -> f64_valid th -> f64_valid w -> f64_valid sc -> f64_valid t.1 -> f64_valid (add_excess x th w sc p t).1.
Proof. intros. unfold add_excess. destruct (sf_gt _ _); [|done]. simpl. auto 10 with f64. Qed.
Lemma add_fraction_valid (x w : spec_float) (p : string) (t : tally) :
  f64_valid x -> f64_valid w -> f64_valid t.1 -> f64_valid (add_fraction x w p t).1.
Proof. intros. unfold add_fraction. destruct (sf_gt _ _); [|done]. simpl. auto with f64. Qed.

Lemma adjust_valid (f : EntropyFeatures) (w : ScoringWeights) (t : tally) :
  valid_weights w -> f64_valid t.1 -> f64_valid (adjust_score f w t).1.
Proof.
  intros (_ & _ & _ & _ & _ & Hm & Hp) Ht. unfold adjust_score.
  destruct (ef_is_error_response f && _), (ef_known_benign_pattern f); simpl; auto 10 with f64.
Qed.

Lemma anomaly_score_valid (f : EntropyFeatures) (w : ScoringWeights) (a : AnomalyScore) :
  valid_features f -> valid_weights w -> compute_anomaly_score f w = Some a ->
  f64_valid (an_score a) /\ SFltb (f64_lit 100 1) (an_score a) = false.
Proof.
  intros (F1 & F2 & F3 & F4 & F5) Hw. unfold compute_anomaly_score. destruct (_ <? _); [done|].
  assert (Hr : f64_valid (raw_score f w).1).
  { destruct Hw as (W1 & W2 & W3 & W4 & W5 & _). unfold raw_score.
    repeat match goal with
      | |- valid_binary _ _ (fst (add_excess _ _ _ _ _ _)) = _ => apply add_excess_valid
      | |- valid_binary _ _ (fst (add_fraction _ _ _ _)) = _ => apply add_fraction_valid
      | |- valid_binary _ _ (f64_lit _ _) = _ => apply lit64
      | |- valid_binary _ _ (fst (_, _)) = _ => reflexivity
      | _ => assumption
      end. }
  pose proof (adjust_valid f w _ Hw Hr) as Ha. destruct (adjust_score _ _ _) as [x parts]. simpl in Ha. intros [= <-].
  simpl an_score. split; [by apply min64; [|apply lit64]|].
  unfold sf_min. destruct (is_nan x); [done|]. destruct (SFltb x (f64_lit 100 1)) eqn:E; [|done].
  change (is_nan (f64_lit 100 1)) with false. cbv iota.
  destruct (SFltb (f64_lit 100 1) x) eqn:E'; [|done]. pose proof (SFltb_trans _ _ _ E E') as Hx. by rewrite SFltb_irrefl in Hx.
Qed.

Lemma lit_hundred : f64_lit 100 1 = S754_finite false 7036874417766400 (-46).
Proof. by vm_compute. Qed.

(** [min] with a number is a number. *)
Lemma score_is_number (f : EntropyFeatures) (w : ScoringWeights) (a : AnomalyScore) :
  compute_anomaly_score f w = Some a -> an_score a <> S754_nan.
Proof.
  unfold compute_anomaly_score. destruct (_ <? _); [done|]. destruct (adjust_score _ _ _) as [x parts]. intros [= <-]. simpl an_score.
  unfold sf_min. rewrite lit_hundred. destruct x as [s|s| |s m e]; simpl is_nan; cbv iota; by repeat case_match.
Qed.

(** A number from zero to one, or negative zero. *)
Definition unit_like (n : spec_float) : Prop := unit_ok 53 n \/ n = S754_zero true.

Lemma normalized_unit (threshold score : spec_float) : f64_valid threshold -> f64_valid score ->
  SFltb (f64_lit 100 1) score = false -> SFltb score threshold = false -> score <> S754_nan ->
  unit_like (normalized threshold score).
Proof.
  intros Ht Hs Hcap Hge Hnan. unfold normalized. change (f64_lit 1 1) with f64_one.
  assert (Hcap' : SFltb (f64_lit 100 1) threshold = false).
  { destruct (SFltb (f64_lit 100 1) threshold) eqn:E; [|done]. by rewrite (not_lt_trans score _ threshold Hnan Hcap E) in Hge. }
  destruct (sub_plus 53 1024 ltac:(lia) ltac:(lia) _ _ (lit64 100 1) Ht Hcap') as [Hy|[Hz _]]; [|by rewrite lit_hundred in Hz].
  apply (plus_nonneg 53 1024) in Hy; [|lia|by apply sub64; [apply lit64|]].
  destruct (sub_plus 53 1024 ltac:(lia) ltac:(lia) _ _ Hs Ht Hge) as [Hx|[_ Hx]].
  - left. apply sf_min_one, div_nonneg; [lia|lia| |exact Hy]. apply (plus_nonneg 53 1024); [lia|by apply sub64|done].
  - unfold f64_sub at 1. rewrite Hx. revert Hy. fold f64_sub. generalize (f64_sub (f64_lit 100 1) threshold). clear.
    intros [[]|[]| |[] m e]; try done; intros _; (by right) || (left; by apply unit_ok_one).
Qed.

Lemma unit_below_one (m : positive) (e : Z) : unit_ok 53 (S754_finite false m e) -> vle (Z.pos m) e 1 0 /\ e <= 0.
Proof.
  intros [Hm He]. split; [|lia]. rewrite (vle_base e) by lia. rewrite Z.sub_diag, Z.mul_1_r, Z.mul_1_l.
  destruct He as [He|[-> Hm']]; [|exact Hm']. apply Z.lt_le_incl. eapply Z.lt_le_trans; [exact Hm|]. apply Z.pow_le_mono_r; lia.
Qed.

Lemma add_comm_finite (mx my : positive) (ex ey : Z) :
  f64_add (S754_finite false mx ex) (S754_finite false my ey) = f64_add (S754_finite false my ey) (S754_finite false mx ex).
Proof. unfold f64_add, SFadd. cbv zeta. by rewrite (Z.min_comm ex ey), Z.add_comm. Qed.

(** [a + n * c] lies between [a] and any [b] that is at least [a + c]. *)
Lemma affine_range (m a c b : positive) (e ea ec eb : Z) :
  unit_ok 53 (S754_finite false m e) ->
  Z.pos c < 2 ^ 53 -> Z.pos a < 2 ^ 53 -> Z.pos b < 2 ^ 53 ->
  -1074 <= ec <= 971 -> -1074 <= ea <= 971 -> -1074 <= eb <= 971 ->
  (forall k, k <= ea -> k <= ec -> k <= eb -> Z.pos a * 2 ^ (ea - k) + Z.pos c * 2 ^ (ec - k) <= Z.pos b * 2 ^ (eb - k)) ->
  let p := f64_mul (S754_finite false m e) (S754_finite false c ec) in
  p = S754_zero false \/
  (exists m1 e1, f64_add (S754_finite false a ea) p = S754_finite false m1 e1 /\ f64_add p (S754_finite false a ea) = S754_finite false m1 e1 /\
     vle (Z.pos a) ea (Z.pos m1) e1 /\ vle (Z.pos m1) e1 (Z.pos b) eb).
Proof.
  intros Hu Hc Ha Hb Rc Ra Rb Hsum p. destruct (unit_below_one m e Hu) as [Hle He].
  pose proof (mul_below 53 1024 ltac:(lia) ltac:(lia) m c e ec Hle He ltac:(unfold emin; lia) Hc) as Hp.
  assert (Ep : p = SFmul 53 1024 (S754_finite false m e) (S754_finite false c ec)) by done. rewrite <- Ep in Hp. clearbody p.
  destruct p as [[]|[]| |[] q f]; try done; [by left|right]. rewrite (add_comm_finite q).
  assert (Hsum' : let k := Z.min (Z.min ea f) eb in Z.pos a * 2 ^ (ea - k) + Z.pos q * 2 ^ (f - k) <= Z.pos b * 2 ^ (eb - k)).
  { cbv zeta. set (k := Z.min (Z.min ea f) eb). set (k' := Z.min k ec). specialize (Hsum k' ltac:(lia) ltac:(lia) ltac:(lia)).
    rewrite (vle_base k') in Hp by lia. apply (Z.mul_le_mono_pos_r _ _ (2 ^ (k - k'))); [apply Z.pow_pos_nonneg; lia|].
    rewrite Z.mul_add_distr_r, <- !Z.mul_assoc, <- !Z.pow_add_r by lia.
    replace (f - k + (k - k')) with (f - k') by lia. replace (ea - k + (k - k')) with (ea - k') by lia.
    replace (eb - k + (k - k')) with (eb - k') by lia. lia. }
  pose proof (add_below 53 1024 ltac:(lia) ltac:(lia) a q ea f (Z.pos b) eb ltac:(lia) ltac:(unfold emin; lia) ltac:(lia) Hsum') as Hup.
  pose proof (add_above 53 1024 ltac:(lia) a q ea f (Z.pos a) ea ltac:(lia) ltac:(unfold emin; lia) (or_introl (Z.le_refl _))) as Hlo.
  unfold f64_add. destruct (SFadd 53 1024 _ _) as [[]|[]| |[] m1 e1]; try done. by exists m1, e1.
Qed.

(** A sum of multiples of powers of two at the lowest one decides it at all. *)
Lemma sum_le_base (a c b ea ec eb k0 : Z) : k0 <= ea -> k0 <= ec -> k0 <= eb ->
  (ea = k0 \/ ec = k0 \/ eb = k0) ->
  a * 2 ^ (ea - k0) + c * 2 ^ (ec - k0) <= b * 2 ^ (eb - k0) ->
  forall k, k <= ea -> k <= ec -> k <= eb -> a * 2 ^ (ea - k) + c * 2 ^ (ec - k) <= b * 2 ^ (eb - k).
Proof.
  intros H1 H2 H3 Hor Hle k K1 K2 K3.
  replace (ea - k) with (ea - k0 + (k0 - k)) by lia. replace (ec - k) with (ec - k0 + (k0 - k)) by lia.
  replace (eb - k) with (eb - k0 + (k0 - k)) by lia. rewrite !Z.pow_add_r, !Z.mul_assoc, <- Z.mul_add_distr_r by lia.
  apply Z.mul_le_mono_nonneg_r; [apply Z.pow_nonneg; lia|done].
Qed.

Lemma severity_range (n : spec_float) : unit_like n -> 30 <= entropy_severity n <= 80.
Proof.
  intros [Hu| ->]; [|by vm_compute]. destruct n as [[]|[]| |[] m e]; try (exfalso; exact Hu); [by vm_compute|]. unfold entropy_severity.
  replace (f64_lit 50 1) with (S754_finite false 7036874417766400 (-47)) by by vm_compute.
  replace (f64_lit 30 1) with (S754_finite false 8444249301319680 (-48)) by by vm_compute.
  destruct (affine_range m 8444249301319680 7036874417766400 5629499534213120 e (-48) (-47) (-46) Hu
    ltac:(lia) ltac:(lia) ltac:(lia) ltac:(lia) ltac:(lia) ltac:(lia)
    (sum_le_base 8444249301319680 7036874417766400 5629499534213120 (-48) (-47) (-46) (-48) ltac:(lia) ltac:(lia) ltac:(lia) ltac:(lia) ltac:(by vm_compute)))
    as [->|(m1 & e1 & _ & -> & Hlo & Hhi)]; [by vm_compute|].
  pose proof (sf_floor_below m1 e1 5629499534213120 (-46) ltac:(lia) Hhi) as Hup.
  pose proof (sf_floor_above m1 e1 8444249301319680 (-48) ltac:(lia) ltac:(lia) Hlo) as Hdn.
  unfold sf_to_uint. change (5629499534213120 / 2 ^ (- (-46))) with 80 in Hup. change (8444249301319680 / 2 ^ (- (-48))) with 30 in Hdn. lia.
Qed.

Lemma confidence_range (n : spec_float) : unit_like n -> let c := entropy_confidence n in
  valid_binary 24 128 c = true /\ SFleb (f32_lit 1 2) c = true /\ SFleb c (f32_lit 85 100) = true.
Proof.
  intros [Hu| ->]; [|by vm_compute]. destruct n as [[]|[]| |[] m e]; try (exfalso; exact Hu); [by vm_compute|]. cbv zeta. unfold entropy_confidence.
  replace (f64_lit 35 100) with (S754_finite false 6305039478318694 (-54)) by by vm_compute.
  replace (f64_lit 1 2) with (S754_finite false 4503599627370496 (-53)) by by vm_compute.
  destruct (affine_range m 4503599627370496 6305039478318694 7656119366529843 e (-53) (-54) (-53) Hu
    ltac:(lia) ltac:(lia) ltac:(lia) ltac:(lia) ltac:(lia) ltac:(lia)
    (sum_le_base 4503599627370496 6305039478318694 7656119366529843 (-53) (-54) (-53) (-54) ltac:(lia) ltac:(lia) ltac:(lia) ltac:(lia) ltac:(by vm_compute)))
    as [->|(m1 & e1 & -> & _ & Hlo & Hhi)]; [by vm_compute|].
  replace (f32_lit 1 2) with (S754_finite false 8388608 (-24)) by by vm_compute.
  replace (f32_lit 85 100) with (S754_finite false 14260634 (-24)) by by vm_compute. unfold f64_to_f32.
  assert (Hlo' : vle 8388608 (-24) (Z.pos m1) e1) by (eapply vle_trans; [|exact Hlo]; by vm_compute).
  assert (Hhi' : vle (Z.pos m1) e1 14260634 (-24)) by (eapply vle_trans; [exact Hhi|]; by vm_compute).
  pose proof (binary_round_valid 24 128 ltac:(lia) ltac:(lia) false m1 e1) as Hv.
  pose proof (binary_round_above 24 128 ltac:(lia) m1 e1 8388608 (-24) ltac:(lia) ltac:(unfold emin; lia) Hlo') as Ha.
  assert (He1 : e1 <= 128 - 24).
  { destruct (Z.le_gt_cases e1 (128 - 24)) as [|Hgt]; [done|]. exfalso. rewrite (vle_base (-24)) in Hhi' by lia.
    assert (2 ^ 24 <= 2 ^ (e1 - -24)) by (apply Z.pow_le_mono_r; lia). nia. }
  pose proof (binary_round_below 24 128 ltac:(lia) ltac:(lia) m1 e1 14260634 (-24) He1 ltac:(unfold emin; lia) ltac:(lia) Hhi') as Hb.
  destruct (binary_round 24 128 false m1 e1) as [[]|[]| |[] m2 e2]; try done. split; [done|].
  apply valid_finite in Hv as [Hc _]. split; (apply (leb_vle 24 128); [lia|..]); done.
Qed.

(** ** The signals of the detector *)
(** [log2] is an operation on doubles. *)
Class Log2Laws `{Log2} : Prop := log2_valid : forall x, f64_valid x -> f64_valid (f64_log2 x).

Section facts.
Context `{IpNetOps} `{Blake3} {hash : Blake3Laws} `{Log2} {log2_laws : Log2Laws} `{Deflate} `{HashIter}.

Lemma entropy_step_valid (total h : spec_float) (c : Z) : f64_valid total -> f64_valid h -> f64_valid (entropy_step total h c).
Proof using log2_laws. intros. unfold entropy_step. auto 6 using log2_valid with f64. Qed.

Lemma foldl_valid {A} (f : spec_float -> A -> spec_float) (l : list A) (h : spec_float) :
  (forall h x, f64_valid h -> f64_valid (f h x)) -> f64_valid h -> f64_valid (foldl f h l).
Proof. intros Hf. revert h. induction l as [|x l IH]; intros h Hh; simpl; [done|]. by apply IH, Hf. Qed.

Lemma features_valid (path query : bytes) (status : Z) : valid_features (extract_features path query status).
Proof using log2_laws.
  unfold valid_features, extract_features. simpl. split_and!.
  - unfold shannon_entropy. case_bool_decide; [done|]. apply foldl_valid; [|done]. intros h c Hh.
    destruct (_ <? _); [|done]. apply entropy_step_valid; [apply of64|done].
  - unfold bigram_entropy. destruct (_ <? _)%nat; [done|]. apply foldl_valid; [|done]. intros h c Hh.
    apply entropy_step_valid; [apply of64|done].
  - unfold compression_ratio. destruct (_ <? _); [apply lit64|]. destruct (deflate _); auto with f64.
  - unfold high_byte_fraction, fraction. destruct (_ =? _); auto with f64.
  - unfold control_char_fraction, fraction. destruct (_ =? _); auto with f64.
Qed.

Lemma entropy_emits (event : NormalizedEvent) (d : EntropyDetector) (s : DetectionSignal) :
  valid_entropy d -> (process_entropy event d).2 = Some s ->
  exists n, unit_like n /\ sig_severity s = entropy_severity n /\ sig_confidence s = entropy_confidence n /\
    sig_source_ip s = ip_to_net (ev_source_ip event) /\ sig_suggested_action s = Observe /\ length (sig_evidence_hash s) = 32%nat.
Proof using log2_laws hash.
  intros [Hw Ht]. unfold process_entropy. cbn [snd]. destruct (is_http _); [|done]. destruct (meta event "path") as [path|]; [|done].
  destruct (compute_anomaly_score _ _) as [a|] eqn:Ea; [|done].
  pose proof Ea as Ea'. apply anomaly_score_valid in Ea as [Hv Hcap]; [|apply features_valid|done].
  destruct (SFltb (an_score a) _) eqn:Hge; [done|]. intros [= <-].
  exists (normalized (en_score_threshold d) (an_score a)). split_and!; [|done..|apply blake3_length].
  apply normalized_unit; try done. by apply (score_is_number _ _ _ Ea').
Qed.

Lemma process_entropy_wf (event : NormalizedEvent) (d : EntropyDetector) (s : DetectionSignal) :
  wf_ip (ev_source_ip event) -> valid_entropy d -> (process_entropy event d).2 = Some s -> wf_signal s.
Proof using log2_laws hash.
  intros Hip Hd Hs. destruct (entropy_emits event d s Hd Hs) as (n & Hn & Hsev & Hconf & Hsrc & _ & Hlen).
  destruct (confidence_range n Hn) as [Hv _]. pose proof (severity_range n Hn).
  split_and!; [rewrite Hsrc; by apply ip_to_net_wf|unfold in_width; rewrite Hsev; lia|by rewrite Hconf|done].
Qed.

#[export, refine] Instance entropy_laws : DetectorLaws EntropyDetector := {| det_ok := valid_entropy |}.
Proof using log2_laws hash.
  intros event d Hip Hd. apply (multi_of_process_ok valid_entropy process_entropy); [done|]. intros s. by apply process_entropy_wf.
Defined.

(** An entropy signal stays in its documented range: severity 30 to 80 and
    confidence 0.5 to 0.85 (in single precision), an observation about the
    source of the event, whatever doubles the thresholds and weights are, also
    infinite or not a number, and whatever the request is. *)
Theorem entropy_signal_in_range (event : NormalizedEvent) (d : EntropyDetector) (s : DetectionSignal)
  (Hd : valid_entropy d) (Hs : (process_entropy event d).2 = Some s) :
  30 <= sig_severity s <= 80 /\
  SFleb (f32_lit 1 2) (sig_confidence s) = true /\ SFleb (sig_confidence s) (f32_lit 85 100) = true /\
  sig_source_ip s = ip_to_net (ev_source_ip event) /\ sig_suggested_action s = Observe.
Proof using log2_laws hash.
  destruct (entropy_emits event d s Hd Hs) as (n & Hn & -> & -> & -> & -> & _).
  destruct (confidence_range n Hn) as (_ & ? & ?). split_and!; (assumption || reflexivity || by apply severity_range).
Qed.
End facts.

(** ** Witnesses *)
Module EntropySample.
#[local] Existing Instances ipnet_ref.
#[local] Instance blake : Blake3 := fun _ => replicate 32 0.
#[local] Instance blake_laws : Blake3Laws.
Proof. split; [done|]. intros bs. apply (bool_decide_unpack _). by vm_compute. Qed.
(** A coarse logarithm: the exponent. *)
#[local] Instance coarse_log2 : Log2 := fun x =>
  match x with
  | S754_finite _ m e => binary_normalize 53 1024 (Zdigits2 (Z.pos m) + e) 0 false
  | _ => S754_nan
  end.
#[local] Instance coarse_log2_laws : Log2Laws.
Proof. intros x _. destruct x as [s|s| |s m e]; try done. by apply normalize_valid. Qed.
#[local] Instance stored : Deflate := Some.
#[local] Existing Instance hash_iter_ref.

(** Bytes that no address bar produces. *)
Definition event : NormalizedEvent :=
  {| ev_timestamp := 0; ev_source_ip := IpV4 7; ev_event_type := Http4xx; ev_source_name := "nginx"; ev_raw_line := "";
     ev_metadata := {["path"%string := of_bytes (as_bytes "/x?q=" ++ [144; 144; 144; 144; 1; 2; 200; 201; 202; 203; 204; 205])]} |}.
Definition the_signal : DetectionSignal :=
  default (entropy_signal event [] [] f64_zero {| an_score := f64_zero; an_explanation := ""; an_features := extract_features [] [] 0 |})
    (process_entropy event entropy_new).2.

Lemma entropy_signal_in_range_witness : 30 <= sig_severity the_signal <= 80.
Proof.
  refine (proj1 (entropy_signal_in_range event entropy_new the_signal _ _)).
  - repeat split; vm_compute; reflexivity.
  - vm_compute. reflexivity.
Defined.
End EntropySample.
