(* ===== verification/Sigma.v ===== *)
(** * Sigma rules ([hiveguard-sigma/src/fieldmap.rs], [selection.rs], [rule.rs], [detector.rs])

    Field names resolved to event fields, selections with their modifiers and
    wildcards, rules read from a YAML document, and the detector that reports
    the most severe rule an event matches. The YAML reader, the regular
    expressions and the text of dates and addresses are parameters. *)
From S2P Require Import Prelude Text Models Floats Detector SigmaCond.
From stdpp Require Import pretty.
Local Open Scope Z_scope.

(** ** YAML values

    What the reader returns for a document without explicit tags; a number is
    kept as the text it prints as, a mapping in document order. *)
Inductive YamlValue : Type :=
| YNull
| YBool (b : bool)
| YNumber (text : bytes)
| YString (s : bytes)
| YSequence (l : list YamlValue)
| YMapping (m : list (YamlValue * YamlValue)).

Class SigmaEnv : Type := {
  yaml_debug : YamlValue -> bytes;      (** [{:?}] *)
  to_rfc3339 : DateTime -> bytes;
  debug_string : string -> bytes;       (** [{:?}] of a string *)
  regex : Type;
  regex_new : bytes -> option regex;
  regex_is_match : regex -> bytes -> bool;
}.

Definition y_as_str (v : YamlValue) : option bytes := match v with YString s => Some s | _ => None end.
Definition y_as_mapping (v : YamlValue) : option (list (YamlValue * YamlValue)) := match v with YMapping m => Some m | _ => None end.
(** [map.get("key")] *)
Definition y_get (m : list (YamlValue * YamlValue)) (key : string) : option YamlValue :=
  snd <$> List.find (fun kv => match kv.1 with YString s => bool_decide (s = as_bytes key) | _ => false end) m.

(** ** Fields *)
Definition default_field_entries : list (string * string) := [
  ("SourceAddress", "source_ip"); ("src_ip", "source_ip"); ("c-ip", "source_ip"); ("SrcIP", "source_ip"); ("srcip", "source_ip");
  ("sourceip", "source_ip"); ("SourceIp", "source_ip"); ("src", "source_ip"); ("c_ip", "source_ip"); ("src-ip", "source_ip");
  ("ClientIP", "source_ip"); ("ipaddr", "source_ip"); ("IpAddress", "source_ip"); ("IpAddr", "source_ip");
  ("RemoteAddress", "source_ip"); ("client_ip", "source_ip");
  ("EventLog", "raw_line"); ("Message", "raw_line"); ("LogEntry", "raw_line"); ("raw", "raw_line"); ("msg", "raw_line");
  ("message", "raw_line");
  ("cs-uri-stem", "http_path"); ("cs-uri", "http_path"); ("RequestUri", "http_path"); ("request_uri", "http_path");
  ("uri_path", "http_path"); ("http_path", "http_path"); ("URL", "http_path"); ("url", "http_path"); ("Url", "http_path");
  ("cs-method", "http_method"); ("http_method", "http_method"); ("RequestMethod", "http_method"); ("Method", "http_method");
  ("sc-status", "http_status"); ("status_code", "http_status"); ("http_status", "http_status"); ("StatusCode", "http_status");
  ("status", "http_status");
  ("UserAgent", "user_agent"); ("user_agent", "user_agent"); ("cs(User-Agent)", "user_agent"); ("HttpUserAgent", "user_agent");
  ("ua", "user_agent");
  ("Username", "user"); ("TargetUserName", "user"); ("user", "user"); ("User", "user"); ("LogonUser", "user");
  ("AccountName", "user"); ("SubjectUserName", "user"); ("account", "user");
  ("CommandLine", "command"); ("command", "command"); ("cmd", "command"); ("ProcessCommand", "command");
  ("EventID", "event_id"); ("eventid", "event_id"); ("event_id", "event_id");
  ("DestinationPort", "dst_port"); ("dst_port", "dst_port"); ("dpt", "dst_port"); ("DestPort", "dst_port"); ("dest_port", "dst_port");
  ("SourcePort", "src_port"); ("src_port", "src_port"); ("spt", "src_port");
  ("DestAddress", "dst_ip"); ("dst_ip", "dst_ip"); ("DestinationAddress", "dst_ip"); ("dhost", "dst_ip");
  ("Protocol", "protocol"); ("proto", "protocol");
  ("ProcessName", "process"); ("Image", "process"); ("process", "process");
  ("Hostname", "hostname"); ("hostname", "hostname"); ("dhost", "hostname"); ("ComputerName", "hostname");
  ("LogonType", "logon_type") ]%string.

Record FieldMapper : Type := { fm_map : gmap bytes bytes }.

Section fields.
Context `{IpNetOps} `{UnicodeLower} `{AddrText} `{SigmaEnv}.

(** Later entries replace earlier ones, in [collect] as in [insert]. *)
Definition extend_mappings (extra : list (bytes * bytes)) (m : gmap bytes bytes) : gmap bytes bytes :=
  foldl (fun m kv => <[str_to_lowercase kv.1 := kv.2]> m) m extra.
Definition mapping_bytes (l : list (string * string)) : list (bytes * bytes) := (fun kv => (as_bytes kv.1, as_bytes kv.2)) <$> l.

Definition default_field_map : gmap bytes bytes := extend_mappings (mapping_bytes default_field_entries) ∅.
Definition mapper_new : FieldMapper := {| fm_map := default_field_map |}.
(** The entries of a [HashMap], in its order. *)
Definition with_extra_mappings (extra : list (bytes * bytes)) (m : FieldMapper) : FieldMapper :=
  {| fm_map := extend_mappings extra (fm_map m) |}.

Definition ssh_field_mapper : FieldMapper :=
  with_extra_mappings (mapping_bytes [("srcport", "src_port"); ("port", "src_port"); ("method", "auth_method");
                                      ("AuthMethod", "auth_method")]%string) mapper_new.
Definition web_field_mapper : FieldMapper :=
  with_extra_mappings (mapping_bytes [("cs-referer", "http_referer"); ("Referer", "http_referer"); ("cs-bytes", "bytes_sent");
                                      ("sc-bytes", "bytes_received"); ("time-taken", "response_time_ms")]%string) mapper_new.

Definition event_type_debug (t : EventType) : bytes :=
  match t with
  | AuthFailure => as_bytes "AuthFailure" | AuthSuccess => as_bytes "AuthSuccess" | HttpRequest => as_bytes "HttpRequest"
  | Http4xx => as_bytes "Http4xx" | Http5xx => as_bytes "Http5xx" | SmtpAuthFailure => as_bytes "SmtpAuthFailure"
  | PortAccess => as_bytes "PortAccess" | ConnectionEvent => as_bytes "ConnectionEvent"
  | Custom name => as_bytes "Custom(" ++ debug_string name ++ as_bytes ")"
  end.

Definition get_field (m : FieldMapper) (event : NormalizedEvent) (sigma_field : bytes) : option bytes :=
  let key := default sigma_field (fm_map m !! str_to_lowercase sigma_field) in
  if bool_decide (key = as_bytes "source_ip") then Some (as_bytes (ip_to_string (ev_source_ip event)))
  else if bool_decide (key = as_bytes "raw_line") then Some (as_bytes (ev_raw_line event))
  else if bool_decide (key = as_bytes "source_name") then Some (as_bytes (ev_source_name event))
  else if bool_decide (key = as_bytes "event_type") then Some (event_type_debug (ev_event_type event))
  else if bool_decide (key = as_bytes "timestamp") then Some (to_rfc3339 (ev_timestamp event))
  else match ev_metadata event !! of_bytes key with
       | Some v => Some (as_bytes v)
       | None => as_bytes <$> ev_metadata event !! of_bytes (str_to_lowercase key)
       end.

(** ** Conditions on a field *)
Inductive FieldModifier : Type :=
| MContains | MStartsWith | MEndsWith | MRe | MCidr | MAll | MBase64 | MWinDash | MUtf16 | MWide | MUnknown (s : bytes).

Definition modifier_parse (s : bytes) : FieldModifier :=
  let l := str_to_lowercase s in
  let named t := bool_decide (l = as_bytes t) in
  if named "contains"%string then MContains else if named "startswith"%string then MStartsWith
  else if named "endswith"%string then MEndsWith else if named "re"%string then MRe
  else if named "cidr"%string then MCidr else if named "all"%string then MAll
  else if named "base64"%string || named "base64offset"%string then MBase64
  else if named "windash"%string then MWinDash
  else if named "utf16le"%string || named "utf16be"%string || named "utf16"%string then MUtf16
  else if named "wide"%string then MWide else MUnknown l.

Inductive SigmaValue : Type := SvString (s : bytes) | SvNull.
Definition value_as_str (v : SigmaValue) : option bytes := match v with SvString s => Some s | SvNull => None end.
Definition is_null (v : SigmaValue) : bool := match v with SvNull => true | SvString _ => false end.

Definition yaml_to_sigma_value (v : YamlValue) : SigmaValue :=
  match v with
  | YString s => SvString s
  | YNumber n => SvString n
  | YBool b => SvString (as_bytes (if b then "true" else "false"))
  | YNull => SvNull
  | _ => SvString (yaml_debug v)
  end.
Definition yaml_value_to_string (v : YamlValue) : bytes :=
  match v with
  | YString s => s
  | YNumber n => n
  | YBool b => as_bytes (if b then "true" else "false")
  | _ => []
  end.

Record FieldCondition : Type := {
  fc_field : option bytes; fc_modifiers : list FieldModifier; fc_values : list SigmaValue; fc_compiled_re : list (option regex);
}.

(** [glob_match_inner]; each call drops a character of the pattern or of the
    text, so their total length is fuel enough. *)
Fixpoint glob_match_inner (fuel : nat) (pattern text : list Z) : bool :=
  match fuel with
  | O => false
  | S fuel' =>
      match pattern, text with
      | [], [] => true
      | [], _ => false
      | p :: ps, _ =>
          if p =? 42 then
            glob_match_inner fuel' ps text || match text with [] => false | _ :: ts => glob_match_inner fuel' pattern ts end
          else match text with
               | t :: ts => if (p =? 63) || (p =? t) then glob_match_inner fuel' ps ts else false
               | [] => false
               end
      end
  end.
Definition glob_match (pattern text : bytes) : bool :=
  glob_match_inner (S (length (chars pattern) + length (chars text))) (chars pattern) (chars text).

Definition is_match_modifier (m : FieldModifier) : bool :=
  match m with MContains | MStartsWith | MEndsWith | MRe | MCidr => true | _ => false end.
Definition primary_match_modifier (c : FieldCondition) : option FieldModifier := List.find is_match_modifier (fc_modifiers c).

Definition match_single (c : FieldCondition) (haystack needle : bytes) (compiled_re : option regex) : bool :=
  let lh := str_to_lowercase haystack in
  let ln := str_to_lowercase needle in
  match primary_match_modifier c with
  | Some MContains => contains ln lh
  | Some MStartsWith => starts_with ln lh
  | Some MEndsWith => ends_with ln lh
  | Some MRe =>
      match compiled_re with
      | Some re => regex_is_match re haystack
      | None => match regex_new needle with Some re => regex_is_match re haystack | None => false end
      end
  | Some MCidr =>
      match parse_ip haystack, parse_net needle with
      | Some ip, Some net => net_contains net ip
      | _, _ => false
      end
  | _ => if contains [42] needle || contains [63] needle then glob_match ln lh else bool_decide (lh = ln)
  end.

Definition has_all (c : FieldCondition) : bool := existsb (fun m => match m with MAll => true | _ => false end) (fc_modifiers c).

(** The non-null values with their index. *)
Definition string_values (c : FieldCondition) : list (nat * bytes) :=
  omap (fun iv => (fun s => (iv.1, s)) <$> value_as_str iv.2) (imap pair (fc_values c)).

Definition condition_matches (m : FieldMapper) (event : NormalizedEvent) (c : FieldCondition) : bool :=
  let use_all := has_all c in
  let field_value := match fc_field c with
                     | Some fname => get_field m event fname
                     | None => Some (as_bytes (ev_raw_line event))
                     end in
  let has_null_value := existsb is_null (fc_values c) in
  let field_absent := bool_decide (field_value = None) || bool_decide (field_value = Some []) in
  let non_null_count := length (List.filter (fun v => negb (is_null v)) (fc_values c)) in
  if has_null_value && (non_null_count =? 0)%nat then field_absent
  else if has_null_value && (negb use_all && field_absent) then true
  else match field_value with
       | None => bool_decide (length (fc_values c) = 0%nat)
       | Some haystack =>
           let check iv := match_single c haystack iv.2 (fc_compiled_re c !! iv.1 ≫= id) in
           match string_values c with
           | [] => true
           | svs => if use_all then forallb check svs else existsb check svs
           end
       end.

(** ** Selections *)
Inductive SigmaSelection : Type :=
| FieldMap (conditions : list FieldCondition)
| OrList (groups : list (list FieldCondition))
| Keywords (keywords : list bytes).

Definition selection_matches (m : FieldMapper) (event : NormalizedEvent) (s : SigmaSelection) : bool :=
  match s with
  | FieldMap conditions => forallb (condition_matches m event) conditions
  | OrList groups => existsb (forallb (condition_matches m event)) groups
  | Keywords keywords =>
      let raw_lower := str_to_lowercase (as_bytes (ev_raw_line event)) in
      existsb (fun kw => contains (str_to_lowercase kw) raw_lower) keywords
  end.

(** ** Reading a rule *)
Inductive RuleError : Type := RuleParse (msg : string) | RuleCondition (e : SigmaError).

Definition parse_condition_values (value : YamlValue) : list SigmaValue :=
  match value with
  | YSequence seq => yaml_to_sigma_value <$> seq
  | other => [yaml_to_sigma_value other]
  end.

Definition parse_field_condition (key : bytes) (value : YamlValue) : FieldCondition :=
  let parts := split_on 124 key in
  let field_name := trim (default [] (head parts)) in
  let modifiers := modifier_parse <$> tail parts in
  let values := parse_condition_values value in
  let is_re := existsb (fun m => match m with MRe => true | _ => false end) modifiers in
  {| fc_field := if bool_decide (field_name = []) || bool_decide (field_name = as_bytes "keywords") then None else Some field_name;
     fc_modifiers := modifiers; fc_values := values;
     fc_compiled_re := if is_re then (fun v => value_as_str v ≫= regex_new) <$> values else replicate (length values) None |}.

Fixpoint parse_field_map (m : list (YamlValue * YamlValue)) : result (list FieldCondition) RuleError :=
  match m with
  | [] => Ok []
  | (k, v) :: m' =>
      match y_as_str k with
      | None => Err (RuleParse "field key must be a string")
      | Some key => let? rest := parse_field_map m' in Ok (parse_field_condition key v :: rest)
      end
  end.

Fixpoint parse_groups (name : bytes) (seq : list YamlValue) : result (list (list FieldCondition)) RuleError :=
  match seq with
  | [] => Ok []
  | YMapping m :: seq' => let? g := parse_field_map m in let? gs := parse_groups name seq' in Ok (g :: gs)
  | _ :: _ => Err (RuleParse ("selection '" +:+ of_bytes name +:+ "': expected mapping in sequence, got non-mapping")%string)
  end.

Definition parse_selection_from_value (value : YamlValue) (name : bytes) : result SigmaSelection RuleError :=
  match value with
  | YMapping m => let? conditions := parse_field_map m in Ok (FieldMap conditions)
  | YSequence [] => Ok (Keywords [])
  | YSequence (YMapping _ :: _ as seq) => let? groups := parse_groups name seq in Ok (OrList groups)
  | YSequence seq => Ok (Keywords (yaml_value_to_string <$> seq))
  | _ => Err (RuleParse ("selection '" +:+ of_bytes name +:+ "': expected mapping or sequence, got scalar")%string)
  end.

Inductive SigmaStatus : Type := Stable | Experimental | Deprecated | StatusTest | Unsupported.
Inductive SigmaLevel : Type := Informational | Low | Medium | High | Critical.
Definition to_severity (l : SigmaLevel) : Z :=
  match l with Informational => 10 | Low => 30 | Medium => 60 | High => 80 | Critical => 120 end.

Definition parse_status (s : bytes) : SigmaStatus :=
  let l := str_to_lowercase s in
  let named t := bool_decide (l = as_bytes t) in
  if named "stable"%string then Stable else if named "deprecated"%string then Deprecated
  else if named "test"%string then StatusTest else if named "unsupported"%string then Unsupported else Experimental.
Definition parse_level (s : bytes) : SigmaLevel :=
  let l := str_to_lowercase s in
  let named t := bool_decide (l = as_bytes t) in
  if named "informational"%string then Informational else if named "medium"%string then Medium
  else if named "high"%string then High else if named "critical"%string then Critical else Low.

Record SigmaLogSource : Type := { ls_category : option bytes; ls_product : option bytes; ls_service : option bytes }.
(** Selection names are kept as the characters the condition language reads. *)
Record SigmaDetection : Type := { sd_selections : gmap (list Z) SigmaSelection; sd_condition : bytes; sd_timeframe : option bytes }.

Definition optional_str (m : list (YamlValue * YamlValue)) (key : string) : option bytes := y_get m key ≫= y_as_str.
Definition require_str (m : list (YamlValue * YamlValue)) (key : string) : result bytes RuleError :=
  match optional_str m key with Some s => Ok s | None => Err (RuleParse ("missing required field '" +:+ key +:+ "'")%string) end.
Definition string_list (m : list (YamlValue * YamlValue)) (key : string) : list bytes :=
  match y_get m key with
  | Some (YSequence seq) => omap y_as_str seq
  | Some (YString s) => [s]
  | _ => []
  end.

Definition parse_logsource (m : list (YamlValue * YamlValue)) : result SigmaLogSource RuleError :=
  match y_get m "logsource" with
  | None => Err (RuleParse "missing required field 'logsource'")
  | Some v =>
      match y_as_mapping v with
      | None => Err (RuleParse "'logsource' must be a mapping")
      | Some ls => Ok {| ls_category := optional_str ls "category"; ls_product := optional_str ls "product";
                         ls_service := optional_str ls "service" |}
      end
  end.

(** All keys but [condition] and [timeframe] are selections. *)
Fixpoint parse_selections (m : list (YamlValue * YamlValue)) (acc : gmap (list Z) SigmaSelection)
    : result (gmap (list Z) SigmaSelection) RuleError :=
  match m with
  | [] => Ok acc
  | (k, v) :: m' =>
      match y_as_str k with
      | None => parse_selections m' acc
      | Some key =>
          if bool_decide (key = as_bytes "condition") || bool_decide (key = as_bytes "timeframe") then parse_selections m' acc
          else let? sel := parse_selection_from_value v key in parse_selections m' (<[chars key := sel]> acc)
      end
  end.

Definition parse_detection (m : list (YamlValue * YamlValue)) : result SigmaDetection RuleError :=
  match y_get m "detection" with
  | None => Err (RuleParse "missing required field 'detection'")
  | Some v =>
      match y_as_mapping v with
      | None => Err (RuleParse "'detection' must be a mapping")
      | Some det =>
          match optional_str det "condition" with
          | None => Err (RuleParse "'detection.condition' is required")
          | Some condition =>
              let? selections := parse_selections det ∅ in
              Ok {| sd_selections := selections; sd_condition := condition; sd_timeframe := optional_str det "timeframe" |}
          end
      end
  end.

Record SigmaRule : Type := {
  sr_title : bytes; sr_id : option bytes; sr_status : SigmaStatus; sr_description : option bytes; sr_author : option bytes;
  sr_date : option bytes; sr_tags : list bytes; sr_references : list bytes; sr_logsource : SigmaLogSource;
  sr_detection : SigmaDetection; sr_level : SigmaLevel; sr_falsepositives : list bytes; sr_condition_ast : ConditionExpr;
}.
End fields.

Section rules.
Context `{IpNetOps} `{UnicodeLower} `{AddrText} `{SigmaEnv} `{UnicodeTables} `{Blake3}.

(** [None] is the fuel of [parse_condition], which [parse_condition_total]
    excludes. *)
Definition rule_from_yaml_value (value : YamlValue) : option (result SigmaRule RuleError) :=
  match y_as_mapping value with
  | None => Some (Err (RuleParse "rule must be a YAML mapping"))
  | Some m =>
      match require_str m "title", parse_logsource m, parse_detection m with
      | Err e, _, _ | Ok _, Err e, _ | Ok _, Ok _, Err e => Some (Err e)
      | Ok title, Ok logsource, Ok detection =>
          match parse_condition (chars (sd_condition detection)) with
          | None => None
          | Some (Err e) => Some (Err (RuleCondition e))
          | Some (Ok ast) => Some (Ok {|
              sr_title := title; sr_id := optional_str m "id";
              sr_status := parse_status (default (as_bytes "experimental") (optional_str m "status"));
              sr_description := optional_str m "description"; sr_author := optional_str m "author"; sr_date := optional_str m "date";
              sr_tags := string_list m "tags"; sr_references := string_list m "references"; sr_logsource := logsource;
              sr_detection := detection; sr_level := parse_level (default (as_bytes "low") (optional_str m "level"));
              sr_falsepositives := string_list m "falsepositives"; sr_condition_ast := ast |})
          end
      end
  end.

Definition rule_matches (m : FieldMapper) (event : NormalizedEvent) (r : SigmaRule) : bool :=
  let selections := sd_selections (sr_detection r) in
  let matched := dom (filter (fun kv : list Z * SigmaSelection => selection_matches m event kv.2 = true) selections) in
  evaluate_condition (sr_condition_ast r) matched (dom selections).
Definition rule_severity (r : SigmaRule) : Z := to_severity (sr_level r).

(** ** The detector *)
Record SigmaDetector : Type := { sg_rules : list SigmaRule; sg_mapper : FieldMapper; sg_name : string; sg_stats : option (gmap bytes Z) }.
Definition sigma_new (rules : list SigmaRule) (mapper : FieldMapper) : SigmaDetector :=
  {| sg_rules := rules; sg_mapper := mapper; sg_name := "sigma"; sg_stats := None |}.
Definition with_stats (stats : gmap bytes Z) (d : SigmaDetector) : SigmaDetector :=
  {| sg_rules := sg_rules d; sg_mapper := sg_mapper d; sg_name := sg_name d; sg_stats := Some stats |}.
Definition sigma_reload (rules : list SigmaRule) (d : SigmaDetector) : SigmaDetector :=
  {| sg_rules := rules; sg_mapper := sg_mapper d; sg_name := sg_name d; sg_stats := sg_stats d |}.

Definition rule_key (r : SigmaRule) : bytes := default (sr_title r) (sr_id r).

Definition sigma_evidence_hash (key : bytes) (ip : IpAddr) (now_ms : Z) : list Z :=
  blake3 (as_bytes ("sigma:" +:+ of_bytes key +:+ ":" +:+ ip_to_string ip +:+ ":" +:+ pretty now_ms)%string).

Definition sigma_signal (event : NormalizedEvent) (now_ms : Z) (r : SigmaRule) : DetectionSignal :=
  {| sig_source_ip := ip_to_net (ev_source_ip event); sig_severity := rule_severity r; sig_confidence := f32_lit 85 100;
     sig_reason := ("[Sigma] " +:+ of_bytes (sr_title r) +:+ " (" +:+ of_bytes (default (as_bytes "no-id") (sr_id r)) +:+ ")")%string;
     sig_evidence_hash := sigma_evidence_hash (rule_key r) (ev_source_ip event) now_ms;
     sig_suggested_action := Ban (secs 86400); sig_detector_name := ("sigma:" +:+ of_bytes (rule_key r))%string;
     sig_timestamp := ev_timestamp event |}.

(** What the loop reads from outside at the rule number [n]: the clock, and
    whether [try_lock] finds the counters free. *)
Record Outside : Type := { now_ms_at : nat -> Z; lock_free_at : nat -> bool }.

Fixpoint sigma_loop (out : Outside) (m : FieldMapper) (event : NormalizedEvent) (n : nat) (rules : list SigmaRule)
    (stats : option (gmap bytes Z)) (best : option DetectionSignal) : option (gmap bytes Z) * option DetectionSignal :=
  match rules with
  | [] => (stats, best)
  | r :: rules' =>
      if negb (rule_matches m event r) then sigma_loop out m event (S n) rules' stats best
      else
        let stats := match stats with
                     | Some map => Some (if lock_free_at out n then <[rule_key r := u64_add (default 0 (map !! rule_key r)) 1]> map else map)
                     | None => None
                     end in
        let signal := sigma_signal event (now_ms_at out n) r in
        let best := match best with
                    | None => Some signal
                    | Some prev => if sig_severity prev <? sig_severity signal then Some signal else best
                    end in
        sigma_loop out m event (S n) rules' stats best
  end.

Definition process_sigma (out : Outside) (event : NormalizedEvent) (d : SigmaDetector) : SigmaDetector * option DetectionSignal :=
  let '(stats, best) := sigma_loop out (sg_mapper d) event 0 (sg_rules d) (sg_stats d) None in
  ({| sg_rules := sg_rules d; sg_mapper := sg_mapper d; sg_name := sg_name d; sg_stats := stats |}, best).
End rules.

(** ** Wildcards *)
(** What a pattern with [*] and [?] matches. *)
Inductive globs : list Z -> list Z -> Prop :=
| globs_nil : globs [] []
| globs_star (ps a b : list Z) : globs ps b -> globs (42 :: ps) (a ++ b)
| globs_any (ps : list Z) (t : Z) (ts : list Z) : globs ps ts -> globs (63 :: ps) (t :: ts)
| globs_char (c : Z) (ps ts : list Z) : c <> 42 -> globs ps ts -> globs (c :: ps) (c :: ts).

Lemma globs_star_inv (ps ts : list Z) : globs (42 :: ps) ts -> exists a b, ts = a ++ b /\ globs ps b.
Proof. inversion 1 as [|ps' a b Hg| |]; subst; [by exists a, b|done]. Qed.

Lemma glob_match_inner_spec (fuel : nat) (p t : list Z) : (length p + length t < fuel)%nat ->
  glob_match_inner fuel p t = true <-> globs p t.
Proof.
  revert p t. induction fuel as [|fuel IH]; intros p t Hf; [lia|]. destruct p as [|c p]; cbn [glob_match_inner].
  { destruct t; split; try done; [constructor|inversion 1]. }
  simpl in Hf. destruct (Z.eqb_spec c 42) as [->|Hstar].
  - rewrite orb_true_iff, IH by lia. split.
    + intros [Hg|Hg]; [by apply (globs_star p [] t)|]. destruct t as [|x t]; [done|].
      apply IH in Hg; [|simpl in *; lia]. apply globs_star_inv in Hg as (a & b & -> & Hg). by apply (globs_star p (x :: a) b).
    + intros (a & b & -> & Hg)%globs_star_inv. destruct a as [|x a]; [by left|]. right. cbn [app].
      apply IH; [simpl in *; lia|]. by constructor.
  - destruct t as [|x t]; [split; [done|by inversion 1]|]. simpl in Hf.
    destruct (Z.eqb_spec c 63) as [->|Hq]; [|destruct (Z.eqb_spec c x) as [->|Hne]]; simpl orb; cbv iota.
    + rewrite IH by lia. split; [by constructor|]. by inversion 1.
    + rewrite IH by lia. split; [by constructor|]. by inversion 1.
    + split; [done|]. by inversion 1.
Qed.

Lemma glob_match_spec (pattern text : bytes) : glob_match pattern text = true <-> globs (chars pattern) (chars text).
Proof. apply glob_match_inner_spec. lia. Qed.

(** ** What a condition means *)
Section semantics.
Context `{IpNetOps} `{UnicodeLower} `{AddrText} `{SigmaEnv}.

(** One value against the text of the field. *)
Definition text_matches (c : FieldCondition) (haystack needle : bytes) (compiled : option regex) : Prop :=
  let lh := str_to_lowercase haystack in
  let ln := str_to_lowercase needle in
  match primary_match_modifier c with
  | Some MContains => exists a b, lh = a ++ ln ++ b
  | Some MStartsWith => ln `prefix_of` lh
  | Some MEndsWith => ln `suffix_of` lh
  | Some MRe => exists re, (compiled = Some re \/ compiled = None /\ regex_new needle = Some re) /\ regex_is_match re haystack = true
  | Some MCidr => exists ip net, parse_ip haystack = Some ip /\ parse_net needle = Some net /\ net_contains net ip = true
  | _ => if decide (42 ∈ needle \/ 63 ∈ needle) then globs (chars ln) (chars lh) else lh = ln
  end.

Lemma contains_byte (b : Z) (s : bytes) : contains [b] s = true <-> b ∈ s.
Proof.
  rewrite contains_spec. split; [intros (x & y & ->); set_solver|]. intros (x & y & ->)%list_elem_of_split. by exists x, y.
Qed.

Lemma match_single_spec (c : FieldCondition) (haystack needle : bytes) (compiled : option regex) :
  match_single c haystack needle compiled = true <-> text_matches c haystack needle compiled.
Proof.
  assert (Hdef : (if contains [42] needle || contains [63] needle then glob_match (str_to_lowercase needle) (str_to_lowercase haystack)
                  else bool_decide (str_to_lowercase haystack = str_to_lowercase needle)) = true <->
    (if decide (42 ∈ needle \/ 63 ∈ needle) then globs (chars (str_to_lowercase needle)) (chars (str_to_lowercase haystack))
     else str_to_lowercase haystack = str_to_lowercase needle)).
  { destruct (decide _) as [Hw|Hw].
    - assert (contains [42] needle || contains [63] needle = true) as -> by (by rewrite orb_true_iff, !contains_byte).
      apply glob_match_spec.
    - assert (contains [42] needle || contains [63] needle = false) as ->
        by (apply not_true_iff_false; by rewrite orb_true_iff, !contains_byte).
      apply bool_decide_eq_true. }
  unfold match_single, text_matches. destruct (primary_match_modifier c) as [[]|]; try exact Hdef.
  - apply contains_spec.
  - apply starts_with_spec.
  - apply ends_with_spec.
  - destruct compiled as [re|]; [|destruct (regex_new needle) as [re|]]; naive_solver.
  - destruct (parse_ip haystack), (parse_net needle); naive_solver.
Qed.

Definition field_value (m : FieldMapper) (event : NormalizedEvent) (c : FieldCondition) : option bytes :=
  match fc_field c with Some fname => get_field m event fname | None => Some (as_bytes (ev_raw_line event)) end.
Definition absent (v : option bytes) : Prop := v = None \/ v = Some [].

(** No values: always. A null value: the field is absent, unless [all] asks for
    other values too. Otherwise one of the other values matches, or each of them
    with [all]. *)
Definition condition_holds (m : FieldMapper) (event : NormalizedEvent) (c : FieldCondition) : Prop :=
  let value i s h := fc_values c !! i = Some (SvString s) /\ text_matches c h s (fc_compiled_re c !! i ≫= id) in
  fc_values c = [] \/
  (SvNull ∈ fc_values c /\ absent (field_value m event c) /\ (has_all c = false \/ forall s, SvString s ∉ fc_values c)) \/
  (exists h, field_value m event c = Some h /\ (exists s, SvString s ∈ fc_values c) /\
     if has_all c then forall i s, fc_values c !! i = Some (SvString s) -> text_matches c h s (fc_compiled_re c !! i ≫= id)
     else exists i s, value i s h).

Lemma elem_of_string_values (c : FieldCondition) (i : nat) (s : bytes) :
  (i, s) ∈ string_values c <-> fc_values c !! i = Some (SvString s).
Proof.
  unfold string_values. rewrite list_elem_of_omap. split.
  - intros ([j v] & Hin & E). apply list_elem_of_lookup in Hin as (k & Hk). rewrite list_lookup_imap in Hk.
    destruct (fc_values c !! k) as [w|] eqn:Ew; [|done]. injection Hk as <- <-. destruct w; simplify_eq/=. done.
  - intros Hv. exists (i, SvString s). split; [|done]. apply list_elem_of_lookup. exists i. by rewrite list_lookup_imap, Hv.
Qed.

Lemma null_values (c : FieldCondition) : existsb is_null (fc_values c) = true <-> SvNull ∈ fc_values c.
Proof.
  rewrite existsb_exists. split.
  - intros (v & Hv & E). destruct v; [done|]. by apply list_elem_of_In.
  - intros Hv. exists SvNull. split; [by apply list_elem_of_In|done].
Qed.

Lemma no_strings (c : FieldCondition) :
  length (List.filter (fun v => negb (is_null v)) (fc_values c)) = 0%nat <-> forall s, SvString s ∉ fc_values c.
Proof.
  rewrite length_zero_iff_nil. split.
  - intros E s Hs. assert (SvString s ∈ List.filter (fun v => negb (is_null v)) (fc_values c)) as Hin by by apply elem_of_lfilter.
    rewrite E in Hin. by apply not_elem_of_nil in Hin.
  - intros Hn. destruct (List.filter _ _) as [|v l] eqn:E; [done|]. assert (Hv : v ∈ v :: l) by left. rewrite <- E in Hv.
    apply elem_of_lfilter in Hv as [Hv Hb]. destruct v as [s|]; [by apply Hn in Hv|done].
Qed.

Lemma string_values_nil (c : FieldCondition) : string_values c = [] <-> forall s, SvString s ∉ fc_values c.
Proof.
  split.
  - intros E s (i & Hi)%list_elem_of_lookup. apply elem_of_string_values in Hi. rewrite E in Hi. by apply not_elem_of_nil in Hi.
  - intros Hn. destruct (string_values c) as [|[i s] l] eqn:E; [done|]. assert (Hin : (i, s) ∈ (i, s) :: l) by left.
    rewrite <- E in Hin. apply elem_of_string_values in Hin. apply list_elem_of_lookup_2 in Hin. by apply Hn in Hin.
Qed.

(** The values that are tested against a text. *)
Lemma check_values (c : FieldCondition) (h : bytes) :
  let check iv := match_single c h iv.2 (fc_compiled_re c !! iv.1 ≫= id) in
  (if has_all c then forallb check (string_values c) else existsb check (string_values c)) = true <->
  (if has_all c then forall i s, fc_values c !! i = Some (SvString s) -> text_matches c h s (fc_compiled_re c !! i ≫= id)
   else exists i s, fc_values c !! i = Some (SvString s) /\ text_matches c h s (fc_compiled_re c !! i ≫= id)).
Proof.
  cbv zeta. destruct (has_all c).
  - rewrite forallb_forall. split.
    + intros Hf i s Hv. apply elem_of_string_values, list_elem_of_In in Hv. apply match_single_spec, (Hf (i, s) Hv).
    + intros Hf [i s] Hin. apply list_elem_of_In, elem_of_string_values in Hin. by apply match_single_spec, Hf.
  - rewrite existsb_exists. split.
    + intros ([i s] & Hin & Hm). apply list_elem_of_In, elem_of_string_values in Hin. exists i, s. by apply match_single_spec in Hm.
    + intros (i & s & Hv & Hm). exists (i, s). split; [by apply list_elem_of_In, elem_of_string_values|by apply match_single_spec].
Qed.

Lemma some_string (c : FieldCondition) : string_values c <> [] -> exists s, SvString s ∈ fc_values c.
Proof.
  intros Hne. destruct (string_values c) as [|[i s] l] eqn:E; [done|]. exists s. assert (Hin : (i, s) ∈ (i, s) :: l) by left.
  rewrite <- E in Hin. apply elem_of_string_values in Hin. by apply list_elem_of_lookup_2 in Hin.
Qed.

(** With a value that is not null, the field's text decides. *)
Lemma tested (c : FieldCondition) (fv : option bytes) : string_values c <> [] ->
  match fv with
  | None => bool_decide (length (fc_values c) = 0%nat)
  | Some h => let check iv := match_single c h iv.2 (fc_compiled_re c !! iv.1 ≫= id) in
              match string_values c with [] => true | svs => if has_all c then forallb check svs else existsb check svs end
  end = true <->
  exists h, fv = Some h /\
    if has_all c then forall i s, fc_values c !! i = Some (SvString s) -> text_matches c h s (fc_compiled_re c !! i ≫= id)
    else exists i s, fc_values c !! i = Some (SvString s) /\ text_matches c h s (fc_compiled_re c !! i ≫= id).
Proof.
  intros Hne. destruct fv as [h|].
  - pose proof (check_values c h) as Hc. cbv zeta in *. destruct (string_values c) as [|iv l]; [done|]. rewrite Hc. naive_solver.
  - rewrite bool_decide_eq_true. split; [|by intros (? & ? & _)]. intros E%length_zero_iff_nil.
    apply some_string in Hne as [s Hs]. rewrite E in Hs. by apply not_elem_of_nil in Hs.
Qed.

(** A condition on a field matches an event exactly when what it says holds:
    modifiers, wildcards, null values and the [all] modifier included. *)
Theorem condition_matches_spec (m : FieldMapper) (event : NormalizedEvent) (c : FieldCondition) :
  condition_matches m event c = true <-> condition_holds m event c.
Proof.
  unfold condition_matches, condition_holds. fold (field_value m event c). set (fv := field_value m event c).
  assert (Habs : bool_decide (fv = None) || bool_decide (fv = Some []) = true <-> absent fv)
    by by rewrite orb_true_iff, !bool_decide_eq_true.
  pose proof (null_values c) as Hnull. pose proof (no_strings c) as Hnos. pose proof (string_values_nil c) as Hsv.
  pose proof (tested c fv) as Ht. cbv zeta in Ht |- *.
  destruct (Nat.eqb_spec (length (List.filter (fun v => negb (is_null v)) (fc_values c))) 0) as [E|E].
  - pose proof (proj1 Hnos E) as E'. destruct (existsb is_null (fc_values c)); cbn [andb].
    + assert (Hn : SvNull ∈ fc_values c) by by apply Hnull.
      assert (Hv : fc_values c <> []) by (intros Ev; rewrite Ev in Hn; by apply not_elem_of_nil in Hn).
      rewrite Habs. split; [right; left; by split_and!; [| |right]|]. intros [?|[(_ & ? & _)|(h & _ & (s & Hs) & _)]]; [done|done|].
      by apply E' in Hs.
    + assert (Ev : fc_values c = []).
      { destruct (fc_values c) as [|[s|] l]; [done| |]; [destruct (E' s); left|]. assert (false = true) by (apply Hnull; left). done. }
      split; [by left|]. intros _. rewrite Ev. destruct fv; [|by rewrite bool_decide_eq_true_2]. by rewrite (proj2 Hsv E').
  - assert (Hne : string_values c <> []) by by rewrite Hsv, <- Hnos.
    assert (Hv : fc_values c <> []) by (intros Ev; rewrite Ev in E; done).
    pose proof (some_string c Hne) as Hsome. specialize (Ht Hne). rewrite andb_false_r.
    destruct (existsb is_null (fc_values c)); cbn [andb].
    + assert (Hn : SvNull ∈ fc_values c) by by apply Hnull.
      destruct (has_all c) eqn:Ea; cbn [negb andb].
      * rewrite Ht. split; [intros (h & ? & ?); right; right; by exists h|].
        intros [?|[(_ & _ & [?|Hno])|(h & ? & _ & ?)]]; [done|done| |by exists h]. destruct Hsome as [s Hs]. by apply Hno in Hs.
      * destruct (bool_decide (fv = None) || bool_decide (fv = Some [])) eqn:Eabs.
        { split; [|done]. intros _. right. left. split_and!; [done|by apply Habs|by left]. }
        rewrite Ht. split; [intros (h & ? & ?); right; right; by exists h|].
        intros [?|[(_ & Hab & _)|(h & ? & _ & ?)]]; [done|by apply Habs in Hab|by exists h].
    + rewrite Ht. split; [intros (h & ? & ?); right; right; by exists h|].
      intros [?|[(Hn & _)|(h & ? & _ & ?)]]; [done|by apply Hnull in Hn|by exists h].
Qed.
End semantics.

Section facts.
Context `{IpNetOps} `{UnicodeLower} `{AddrText} `{SigmaEnv}.

(** The modifiers that take part in matching. *)
Definition significant (x : FieldModifier) : bool := is_match_modifier x || match x with MAll => true | _ => false end.

(** The encoding modifiers ([base64], [windash], [utf16], [wide]) and unknown
    ones change nothing: a condition with them matches exactly what it matches
    without them. *)
Theorem encoding_modifiers_ignored (m : FieldMapper) (event : NormalizedEvent) (c : FieldCondition) :
  condition_matches m event c =
  condition_matches m event {| fc_field := fc_field c; fc_modifiers := List.filter significant (fc_modifiers c);
                               fc_values := fc_values c; fc_compiled_re := fc_compiled_re c |}.
Proof.
  assert (Hall : forall l, existsb (fun m => match m with MAll => true | _ => false end) (List.filter significant l) =
                           existsb (fun m => match m with MAll => true | _ => false end) l).
  { induction l as [|x l IH]; [done|]. simpl. by destruct x; simpl; rewrite ?IH. }
  assert (Hprim : forall l, List.find is_match_modifier (List.filter significant l) = List.find is_match_modifier l).
  { induction l as [|x l IH]; [done|]. simpl. destruct x; simpl; done. }
  unfold condition_matches, has_all. cbn [fc_field fc_modifiers fc_values fc_compiled_re]. rewrite Hall.
  unfold string_values, match_single, primary_match_modifier. cbn [fc_modifiers fc_values]. by rewrite Hprim.
Qed.
End facts.

Section mapping.
Context `{IpNetOps} `{UnicodeLower} {lower : UnicodeLowerLaws} `{AddrText} `{SigmaEnv}.

Lemma extend_ascii (l : list (bytes * bytes)) (m : gmap bytes bytes) :
  Forall (fun kv => Forall (fun b => 0 <= b < 128) kv.1) l ->
  extend_mappings l m = foldl (fun m kv => <[to_ascii_lowercase kv.1 := kv.2]> m) m l.
Proof using lower.
  intros Hf. revert m. induction Hf as [|kv l Hk Hl IH]; intros m; [done|].
  unfold extend_mappings in *. cbn [foldl]. by rewrite str_to_lowercase_ascii, IH.
Qed.

Definition ascii_field_map : gmap bytes bytes :=
  foldl (fun m kv => <[to_ascii_lowercase kv.1 := kv.2]> m) ∅ (mapping_bytes default_field_entries).

Lemma default_field_map_ascii : default_field_map = ascii_field_map.
Proof using lower. unfold default_field_map. apply extend_ascii. apply (bool_decide_unpack _). by vm_compute. Qed.

(** The built-in names of the path, the method and the status of a request. *)
Definition web_fields : list bytes :=
  as_bytes <$> ["cs-uri-stem"; "cs-uri"; "RequestUri"; "request_uri"; "uri_path"; "http_path"; "URL"; "url"; "Url"; "cs-method";
                "http_method"; "RequestMethod"; "Method"; "sc-status"; "status_code"; "http_status"; "StatusCode"; "status"]%string.

Definition web_accessors : list bytes := as_bytes <$> ["http_path"; "http_method"; "http_status"]%string.

Lemma web_fields_mapped (f : bytes) : f ∈ web_fields -> exists k, fm_map mapper_new !! str_to_lowercase f = Some k /\ k ∈ web_accessors.
Proof using lower.
  intros Hf. assert (Hascii : Forall (fun b => 0 <= b < 128) f).
  { assert (Hall : Forall (Forall (fun b => 0 <= b < 128)) web_fields) by (apply (bool_decide_unpack _); by vm_compute).
    rewrite Forall_forall in Hall. by apply Hall. }
  rewrite str_to_lowercase_ascii by done. unfold mapper_new, fm_map. rewrite default_field_map_ascii.
  assert (Hall : Forall (fun f => match ascii_field_map !! to_ascii_lowercase f with Some k => bool_decide (k ∈ web_accessors) | None => false end = true)
            web_fields) by (apply (bool_decide_unpack _); by vm_compute).
  rewrite Forall_forall in Hall. specialize (Hall f Hf). destruct (ascii_field_map !! _) as [k|]; [|done].
  exists k. split; [done|]. by apply bool_decide_eq_true in Hall.
Qed.

(** The built-in names resolve to entries of their own, not to those of the
    event's metadata that carry the path, the method and the status. *)
Lemma web_fields_unresolved (event : NormalizedEvent) (f : bytes) :
  (forall k, k ∈ web_accessors -> ev_metadata event !! of_bytes k = None) -> f ∈ web_fields -> get_field mapper_new event f = None.
Proof using lower.
  intros Hm Hf. destruct (web_fields_mapped f Hf) as (k & Hk & Hin). unfold get_field. rewrite Hk.
  assert (Hnot : forall s, s ∈ ["source_ip"; "raw_line"; "source_name"; "event_type"; "timestamp"]%string -> bool_decide (k = as_bytes s) = false).
  { intros s Hs. apply bool_decide_eq_false_2. intros ->. assert (Hdis : Forall (fun s => as_bytes s ∉ web_accessors) ["source_ip"; "raw_line"; "source_name"; "event_type"; "timestamp"]%string)
      by (apply (bool_decide_unpack _); by vm_compute). rewrite Forall_forall in Hdis. by apply (Hdis s Hs). }
  change (default f (Some k)) with k.
  rewrite (Hnot "source_ip"%string), (Hnot "raw_line"%string), (Hnot "source_name"%string), (Hnot "event_type"%string),
    (Hnot "timestamp"%string), Hm by (done || (apply (bool_decide_unpack _); by vm_compute)).
  assert (E : str_to_lowercase k = k).
  { assert (Hall : Forall (fun k => to_ascii_lowercase k = k /\ Forall (fun b => 0 <= b < 128) k) web_accessors)
      by (apply (bool_decide_unpack _); by vm_compute). rewrite Forall_forall in Hall. destruct (Hall k Hin) as [E Ha].
    by rewrite str_to_lowercase_ascii. }
  by rewrite E, Hm.
Qed.
End mapping.

(** ** What the detector reports *)
Section reports.
Context `{IpNetOps} {laws : IpNetLaws} `{UnicodeLower} `{AddrText} `{SigmaEnv} `{UnicodeTables} `{Blake3} {hash : Blake3Laws}.

(** [s] is the signal of the first of the most severe matching rules among the
    rules from number [n] on. *)
Definition worst (out : Outside) (m : FieldMapper) (event : NormalizedEvent) (n : nat) (rules : list SigmaRule) (s : DetectionSignal) : Prop :=
  exists i r, rules !! i = Some r /\ rule_matches m event r = true /\ s = sigma_signal event (now_ms_at out (n + i)) r /\
    forall j q, rules !! j = Some q -> rule_matches m event q = true ->
      rule_severity q <= rule_severity r /\ (rule_severity q = rule_severity r -> (i <= j)%nat).

Lemma worst_later (out : Outside) (m : FieldMapper) (event : NormalizedEvent) (n : nat) (r : SigmaRule) (rules : list SigmaRule) (s : DetectionSignal) :
  (rule_matches m event r = true -> rule_severity r < sig_severity s) ->
  worst out m event (S n) rules s -> worst out m event n (r :: rules) s.
Proof.
  intros Hr (i & q & Hi & Hq & -> & Hmax). exists (S i), q. split_and!; [done|done|by replace (n + S i)%nat with (S n + i)%nat by lia|].
  intros [|j] p Hj Hp; simpl in Hj.
  - injection Hj as <-. specialize (Hr Hp). simpl in Hr. lia.
  - destruct (Hmax j p Hj Hp) as [H1' H2']. split; [done|]. intros E. specialize (H2' E). lia.
Qed.

(** The induction hypothesis at the loop's next turn. *)
Ltac use_loop IH n best :=
  match goal with |- context [sigma_loop _ _ _ _ _ ?stats _] => specialize (IH n stats best) end.

(** The loop keeps the best so far, unless a later rule is more severe. *)
Lemma sigma_loop_best (out : Outside) (m : FieldMapper) (event : NormalizedEvent) (n : nat) (rules : list SigmaRule)
    (stats : option (gmap bytes Z)) (best : option DetectionSignal) :
  match (sigma_loop out m event n rules stats best).2, best with
  | None, None => Forall (fun r => rule_matches m event r = false) rules
  | None, Some _ => False
  | Some s, None => worst out m event n rules s
  | Some s, Some b =>
      s = b /\ Forall (fun r => rule_matches m event r = true -> rule_severity r <= sig_severity b) rules \/
      sig_severity b < sig_severity s /\ worst out m event n rules s
  end.
Proof.
  revert n stats best. induction rules as [|r rules IH]; intros n stats best; cbn [sigma_loop].
  { destruct best; [by left|constructor]. }
  destruct (rule_matches m event r) eqn:Er; cbn [negb]; cbv zeta.
  - set (s0 := sigma_signal event (now_ms_at out n) r).
    assert (Hhead : forall s', Forall (fun q => rule_matches m event q = true -> rule_severity q <= sig_severity s0) rules ->
      s' = s0 -> worst out m event n (r :: rules) s').
    { intros s' Hf ->. exists 0%nat, r. split_and!; [done|done|by rewrite Nat.add_0_r|]. intros [|j] q Hj Hq; simpl in Hj.
      - injection Hj as <-. lia.
      - split; [|lia]. rewrite Forall_forall in Hf. apply (Hf q); [by eapply list_elem_of_lookup_2|done]. }
    destruct best as [b|].
    + destruct (Z.ltb_spec (sig_severity b) (sig_severity s0)) as [Hlt|Hge].
      * use_loop IH (S n) (Some s0).
        destruct (sigma_loop _ _ _ _ _ _ _).2 as [s'|]; [|done]. right. destruct IH as [[-> Hf]|[Hgt Hw]].
        -- split; [done|by apply Hhead].
        -- split; [lia|]. apply worst_later; [intros _; exact Hgt|done].
      * use_loop IH (S n) (Some b).
        destruct (sigma_loop _ _ _ _ _ _ _).2 as [s'|]; [|done]. destruct IH as [[-> Hf]|[Hgt Hw]].
        -- left. split; [done|]. constructor; [by intros _|done].
        -- right. split; [done|]. apply worst_later; [intros _; simpl in *; lia|done].
    + use_loop IH (S n) (Some s0).
      destruct (sigma_loop _ _ _ _ _ _ _).2 as [s'|]; [|done]. destruct IH as [[-> Hf]|[Hgt Hw]]; [by apply Hhead|].
      apply worst_later; [intros _; exact Hgt|done].
  - specialize (IH (S n) stats best). destruct (sigma_loop _ _ _ _ _ _ _).2 as [s'|], best as [b|]; try done.
    + destruct IH as [[-> Hf]|[Hgt Hw]]; [left|right]; (split; [done|]); [constructor; [congruence|done]|apply worst_later; [congruence|done]].
    + apply worst_later; [congruence|done].
    + by constructor.
Qed.

(** The Sigma detector reports the most severe rule the event matches, the first
    of them on a tie, whatever the clock and the contention on the counters; it
    reports nothing exactly when no rule matches. *)
Theorem sigma_reports_worst (out : Outside) (event : NormalizedEvent) (d : SigmaDetector) :
  match (process_sigma out event d).2 with
  | None => forall r, r ∈ sg_rules d -> rule_matches (sg_mapper d) event r = false
  | Some s => exists i r, sg_rules d !! i = Some r /\ rule_matches (sg_mapper d) event r = true /\
      s = sigma_signal event (now_ms_at out i) r /\
      forall j q, sg_rules d !! j = Some q -> rule_matches (sg_mapper d) event q = true ->
        rule_severity q <= rule_severity r /\ (rule_severity q = rule_severity r -> (i <= j)%nat)
  end.
Proof.
  unfold process_sigma. pose proof (sigma_loop_best out (sg_mapper d) event 0 (sg_rules d) (sg_stats d) None) as Hb.
  destruct (sigma_loop _ _ _ _ _ _ _) as [stats [s|]]; simpl in *; [exact Hb|]. by apply Forall_forall.
Qed.

Lemma to_severity_range (l : SigmaLevel) : in_width 8 (to_severity l).
Proof. by destruct l. Qed.

Lemma process_sigma_wf (out : Outside) (event : NormalizedEvent) (d : SigmaDetector) (s : DetectionSignal) :
  wf_ip (ev_source_ip event) -> (process_sigma out event d).2 = Some s -> wf_signal s.
Proof using hash.
  intros Hip. unfold process_sigma. pose proof (sigma_loop_best out (sg_mapper d) event 0 (sg_rules d) (sg_stats d) None) as Hb.
  destruct (sigma_loop _ _ _ _ _ _ _) as [stats [s'|]]; simpl in *; [|done]. intros [= ->]. destruct Hb as (i & r & _ & _ & -> & _).
  split_and!; [by apply ip_to_net_wf|apply to_severity_range|done|apply blake3_length].
Qed.

(** A selection the rule does not define never matches; the rule is accepted,
    and a negation of it holds on every event. *)
Lemma unknown_selection (m : FieldMapper) (event : NormalizedEvent) (r : SigmaRule) (name : list Z) :
  sr_condition_ast r = Not (Selection name) -> name ∉ dom (sd_selections (sr_detection r)) -> rule_matches m event r = true.
Proof.
  intros Hc Hn. unfold rule_matches. rewrite Hc. cbn [evaluate_condition]. rewrite bool_decide_eq_false_2; [done|].
  intros Hin. apply Hn. eapply (dom_filter_subseteq _ (sd_selections (sr_detection r))). exact Hin.
Qed.
End reports.
