(* ===== verification/SshLog.v ===== *)
(** * OpenSSH log messages ([hiveguard-plugin-utils/src/ssh.rs])

    The parser behind the SSH sources. A message carries a user name the
    attacker chose; the address must come from the end of the message, where
    sshd wrote it. The regular expressions are parameters, with what their
    patterns say. *)
From S2P Require Import Prelude Text Models.
Local Open Scope Z_scope.

(** ** The patterns *)
(** [[0-9a-fA-F.:]] *)
Definition ip_char (b : Z) : bool := is_ascii_hexdigit b || (b =? 46) || (b =? 58).

Class SshPatterns : Type := {
  (** [envelope]: the message, and the time stamp when it is a classic one. *)
  envelope_captures : bytes -> option (bytes * option bytes);
  (** [connection]: user, address, port. *)
  connection_captures : bytes -> option (bytes * bytes * option bytes);
  fingerprint_is_match : bytes -> bool;
}.

(** [(?: port (?P<port>\d+))?(?: ssh2)?(?: \[preauth\])?], with the class of the
    digits. *)
Definition connection_tail (digit : Z -> Prop) (port : option bytes) (tail : bytes) : Prop :=
  exists a b, tail = (match port with Some p => as_bytes " port " ++ p | None => [] end) ++ a ++ b /\
    match port with Some p => p <> [] /\ Forall digit p | None => True end /\
    (a = [] \/ a = as_bytes " ssh2") /\ (b = [] \/ b = as_bytes " [preauth]").

(** [^(?P<user>.+) from (?P<ip>[0-9a-fA-F.:]+)...$] *)
Definition connection_shape (digit : Z -> Prop) (s user ip : bytes) (port : option bytes) : Prop :=
  exists tail, s = user ++ as_bytes " from " ++ ip ++ tail /\ user <> [] /\ (10 ∉ user) /\
    ip <> [] /\ Forall (fun b => ip_char b = true) ip /\ connection_tail digit port tail.

(** [\d] is any Unicode digit: an ASCII digit, or bytes of a wider character. *)
Definition ascii_digit (b : Z) : Prop := is_ascii_digit b = true.
Definition wide_digit (b : Z) : Prop := is_ascii_digit b = true \/ 128 <= b.

(** What the pattern says: a line of its shape matches, and the captures are
    such a decomposition. *)
Class SshPatternLaws `{SshPatterns} : Prop := {
  connection_complete (s user ip : bytes) (port : option bytes) :
    connection_shape ascii_digit s user ip port -> is_Some (connection_captures s);
  connection_sound (s user ip : bytes) (port : option bytes) :
    connection_captures s = Some (user, ip, port) -> connection_shape wide_digit s user ip port;
}.

(** ** The parser *)
Record SshEvent : Type := {
  se_timestamp_str : bytes; se_event_type : EventType; se_source_ip : IpAddr; se_user : bytes; se_invalid_user : bool;
  se_raw_line : bytes;
}.

Section parser.
Context `{AddrText} `{SshPatterns}.

Definition failed_prefixes : list bytes :=
  [as_bytes "Failed password for "; as_bytes "Failed publickey for "; as_bytes "Failed none for "].

(** [iter().find_map(|p| message.strip_prefix(p))] *)
Fixpoint strip_any (prefixes : list bytes) (s : bytes) : option bytes :=
  match prefixes with
  | [] => None
  | p :: ps => match strip_prefix p s with Some r => Some r | None => strip_any ps s end
  end.

(** What the start of the message says: the rest, the event, the invalid-user
    mark. *)
Definition classify_message (message : bytes) : option (bytes * EventType * bool) :=
  match strip_prefix (as_bytes "Invalid user ") message with
  | Some s => Some (s, AuthFailure, true)
  | None =>
      match strip_any failed_prefixes message with
      | Some s =>
          match strip_prefix (as_bytes "invalid user ") s with
          | Some user => Some (user, AuthFailure, true)
          | None => Some (s, AuthFailure, false)
          end
      | None =>
          match strip_prefix (as_bytes "Accepted password for ") message with
          | Some s => Some (s, AuthSuccess, false)
          | None =>
              match strip_prefix (as_bytes "Accepted publickey for ") message with
              | Some s => Some (s, AuthSuccess, false)
              | None => None
              end
          end
      end
  end.

(** The protocol marker and what follows it are cut off. *)
Definition cut_protocol (message rest : bytes) : option bytes :=
  if starts_with (as_bytes "Invalid user ") message then Some rest
  else match rsplit_once_str (as_bytes " ssh2") rest with
       | Some (body, suffix) =>
           if bool_decide (suffix = []) || bool_decide (suffix = as_bytes " [preauth]") then Some body
           else match strip_prefix (as_bytes ": ") suffix with
                | Some fingerprint => if fingerprint_is_match fingerprint then Some body else None
                | None => None
                end
       | None => Some rest
       end.

Definition parse_message (message : bytes) : option SshEvent :=
  match classify_message message with
  | None => None
  | Some (rest, event_type, invalid_user) =>
      match cut_protocol message rest ≫= connection_captures with
      | None => None
      | Some (user, ip, port) =>
          if match port with Some p => bool_decide (parse_u16 p = None) | None => false end then None
          else (fun a => {| se_timestamp_str := []; se_event_type := event_type; se_source_ip := a; se_user := user;
                            se_invalid_user := invalid_user; se_raw_line := message |}) <$> parse_ip ip
      end
  end.

Definition parse_ssh_line (line : bytes) : option SshEvent :=
  match envelope_captures line with
  | Some (message, ts) =>
      (fun e => {| se_timestamp_str := default [] ts; se_event_type := se_event_type e; se_source_ip := se_source_ip e;
                   se_user := se_user e; se_invalid_user := se_invalid_user e; se_raw_line := line |}) <$> parse_message message
  | None => parse_message line
  end.
End parser.

(** ** The address is sshd's *)
Lemma not_in_class (f : Z -> bool) (c : Z) (s : bytes) : f c = false -> Forall (fun b => f b = true) s -> c ∉ s.
Proof. intros Hc Hs Hin. rewrite Forall_forall in Hs. specialize (Hs c Hin). congruence. Qed.

(** No [m] after the last [from], and no space in the address. *)
Lemma tail_no_m (port : option bytes) (tail : bytes) : connection_tail wide_digit port tail -> 109 ∉ tail.
Proof.
  intros (a & b & -> & Hp & Ha & Hb). rewrite !not_elem_of_app. split_and!.
  - destruct port as [p|]; [|apply not_elem_of_nil]. rewrite not_elem_of_app. destruct Hp as [_ Hp]. split; [apply (bool_decide_unpack _); by vm_compute|].
    intros Hin. rewrite Forall_forall in Hp. destruct (Hp 109 Hin) as [?|?]; [done|lia].
  - destruct Ha as [->| ->]; [apply not_elem_of_nil|]. apply (bool_decide_unpack _). by vm_compute.
  - destruct Hb as [->| ->]; [apply not_elem_of_nil|]. apply (bool_decide_unpack _). by vm_compute.
Qed.

Section address.
Context `{AddrText} `{SshPatterns} {laws : SshPatternLaws}.

(** As sshd writes it: the connection of [user] from [ip], port [port]. *)
Definition connection_text (user ip port : bytes) : bytes := user ++ as_bytes " from " ++ ip ++ as_bytes " port " ++ port.

Lemma connection_text_shape (user ip port : bytes) :
  user <> [] -> 10 ∉ user -> ip <> [] -> Forall (fun b => ip_char b = true) ip -> port <> [] -> Forall ascii_digit port ->
  connection_shape ascii_digit (connection_text user ip port) user ip (Some port).
Proof.
  intros. exists (as_bytes " port " ++ port). split_and!; try done. exists [], []. split_and!; [by rewrite !app_nil_r|done|done|by left|by left].
Qed.

(** Whatever the user name holds, the captures are the user sshd was given, and
    the address and port it wrote. *)
Lemma connection_text_captures (user ip port : bytes) :
  user <> [] -> 10 ∉ user -> ip <> [] -> Forall (fun b => ip_char b = true) ip -> port <> [] -> Forall ascii_digit port ->
  connection_captures (connection_text user ip port) = Some (user, ip, Some port).
Proof using laws.
  intros Hu Hnl Hip Hipc Hp Hpd.
  destruct (connection_complete _ _ _ _ (connection_text_shape user ip port Hu Hnl Hip Hipc Hp Hpd)) as [[[u i] o] Hc].
  rewrite Hc. apply connection_sound in Hc as (tail & E & _ & _ & Hi & Hic & Ht). pose proof (tail_no_m o tail Ht) as Hm.
  assert (Hdig : forall c, is_ascii_digit c = false -> c ∉ port) by (intros c Hcd; by apply (not_in_class is_ascii_digit)).
  assert (Hnip : forall c l, ip_char c = false -> Forall (fun b => ip_char b = true) l -> c ∉ l) by (intros c l; apply not_in_class).
  (* the last [m] is that of sshd's [from] *)
  destruct (last_split 109 (user ++ as_bytes " fro") (32 :: ip ++ as_bytes " port " ++ port) (u ++ as_bytes " fro") (32 :: i ++ tail)) as [Eu Er].
  { unfold connection_text in E. rewrite <- !app_assoc. exact E. }
  { rewrite not_elem_of_cons, !not_elem_of_app. split_and!; [done|by apply Hnip|apply (bool_decide_unpack _); by vm_compute|by apply Hdig]. }
  { rewrite not_elem_of_cons, not_elem_of_app. split_and!; [done|by apply Hnip|done]. }
  apply app_inj_2 in Eu as [<- _]; [|done]. injection Er as Er.
  assert (Hs : forall t, tail = 32 :: t -> i = ip /\ t = as_bytes "port " ++ port).
  { intros t ->. destruct (first_split 32 ip (as_bytes "port " ++ port) i t Er); [by apply Hnip..|done]. }
  destruct Ht as (a & b & Etail & Hp' & Ha & Hb). destruct o as [p|]; simpl in Etail.
  - destruct (Hs _ Etail) as [-> Et]. injection Et as Et.
    assert (Hab : a = [] /\ b = []).
    { assert (H32 : 32 ∉ p ++ a ++ b) by (rewrite Et; by apply Hdig).
      rewrite !not_elem_of_app in H32. destruct Ha as [->| ->], Hb as [->| ->]; try done; destruct H32 as (_ & H1' & H2');
        first [destruct H1'; left|destruct H2'; left]. }
    destruct Hab as [-> ->]. by rewrite !app_nil_r in Et; subst.
  - exfalso. destruct Ha as [->| ->], Hb as [->| ->]; simpl in Etail.
    + subst tail. rewrite app_nil_r in Er. apply (Hnip 32 i eq_refl Hic). rewrite <- Er. apply elem_of_app. right. left.
    + by destruct (Hs _ Etail) as [_ Et].
    + by destruct (Hs _ Etail) as [_ Et].
    + by destruct (Hs _ Etail) as [_ Et].
Qed.

(** The ways sshd reports an authentication attempt: what it writes before the
    user name and after the connection, the event it means, and whether the
    account exists ([false]) or the name is the attacker's ([true]). *)
Definition auth_forms : list (bytes * bytes * EventType * bool) :=
  [ (as_bytes "Invalid user ", [], AuthFailure, true);
    (as_bytes "Failed password for ", as_bytes " ssh2", AuthFailure, false);
    (as_bytes "Failed password for invalid user ", as_bytes " ssh2", AuthFailure, true);
    (as_bytes "Failed publickey for ", as_bytes " ssh2", AuthFailure, false);
    (as_bytes "Failed publickey for invalid user ", as_bytes " ssh2", AuthFailure, true);
    (as_bytes "Failed none for ", as_bytes " ssh2", AuthFailure, false);
    (as_bytes "Failed none for invalid user ", as_bytes " ssh2", AuthFailure, true);
    (as_bytes "Accepted password for ", as_bytes " ssh2", AuthSuccess, false);
    (as_bytes "Accepted publickey for ", as_bytes " ssh2", AuthSuccess, false) ].

Definition mark : bytes := as_bytes "invalid user ".

Definition form_ok (f : bytes * bytes * EventType * bool) : Prop :=
  let '(pre, suf, t, marked) := f in
  forall text, marked = true \/ strip_prefix mark (text ++ suf) = None ->
    classify_message (pre ++ text ++ suf) = Some (text ++ suf, t, marked) /\
    cut_protocol (pre ++ text ++ suf) (text ++ suf) = Some text.

Lemma cut_ssh2 (pre text : bytes) : (forall more, starts_with (as_bytes "Invalid user ") (pre ++ more) = false) ->
  cut_protocol (pre ++ text ++ as_bytes " ssh2") (text ++ as_bytes " ssh2") = Some text.
Proof. intros Hp. unfold cut_protocol. by rewrite Hp, rsplit_once_str_end. Qed.

(** After a failure prefix, the mark decides. *)
Lemma classify_failed (s : bytes) : Forall (fun p => classify_message (p ++ s) =
  match strip_prefix mark s with Some user => Some (user, AuthFailure, true) | None => Some (s, AuthFailure, false) end) failed_prefixes.
Proof.
  unfold failed_prefixes, classify_message. rewrite !Forall_cons. split_and!; [..|apply Forall_nil_2].
  all: match goal with |- context [strip_prefix (as_bytes "Invalid user ") ?x] =>
    assert (strip_prefix (as_bytes "Invalid user ") x = None) as -> by reflexivity end.
  - unfold failed_prefixes; cbn [strip_any]. by rewrite strip_prefix_app.
  - unfold failed_prefixes; cbn [strip_any].
    assert (strip_prefix (as_bytes "Failed password for ") (as_bytes "Failed publickey for " ++ s) = None) as -> by reflexivity.
    by rewrite strip_prefix_app.
  - unfold failed_prefixes; cbn [strip_any].
    assert (strip_prefix (as_bytes "Failed password for ") (as_bytes "Failed none for " ++ s) = None) as -> by reflexivity.
    assert (strip_prefix (as_bytes "Failed publickey for ") (as_bytes "Failed none for " ++ s) = None) as -> by reflexivity.
    by rewrite strip_prefix_app.
Qed.

Lemma failed_form (p : bytes) (s : bytes) : p ∈ failed_prefixes ->
  classify_message (p ++ s) =
    match strip_prefix mark s with Some user => Some (user, AuthFailure, true) | None => Some (s, AuthFailure, false) end.
Proof. intros Hp. pose proof (classify_failed s) as Hall. rewrite Forall_forall in Hall. by apply Hall. Qed.

Lemma forms_ok : Forall form_ok auth_forms.
Proof using laws.
  assert (Hin : forall p, p ∈ ["Failed password for "; "Failed publickey for "; "Failed none for "]%string -> as_bytes p ∈ failed_prefixes)
    by (intros p Hp; unfold failed_prefixes; set_solver).
  assert (Hfail : forall p, p ∈ ["Failed password for "; "Failed publickey for "; "Failed none for "]%string ->
    form_ok (as_bytes p, as_bytes " ssh2", AuthFailure, false) /\ form_ok (as_bytes p ++ mark, as_bytes " ssh2", AuthFailure, true)).
  { intros p Hp. assert (Hne : forall more, starts_with (as_bytes "Invalid user ") (as_bytes p ++ more) = false).
    { intros more. repeat (apply elem_of_cons in Hp as [->|Hp]; [done|]). by apply not_elem_of_nil in Hp. }
    split; intros text Hm.
    - destruct Hm as [|Hm]; [done|]. split; [by rewrite failed_form, Hm by (by apply Hin)|by apply cut_ssh2].
    - split; [by rewrite <- app_assoc, failed_form, strip_prefix_app by (by apply Hin)|].
      apply cut_ssh2. intros more. rewrite <- app_assoc. apply Hne. }
  assert (Hok : forall p, p ∈ ["Accepted password for "; "Accepted publickey for "]%string -> form_ok (as_bytes p, as_bytes " ssh2", AuthSuccess, false)).
  { intros p Hp text _. assert (Hne : forall more, starts_with (as_bytes "Invalid user ") (as_bytes p ++ more) = false).
    { intros more. repeat (apply elem_of_cons in Hp as [->|Hp]; [done|]). by apply not_elem_of_nil in Hp. }
    split; [|by apply cut_ssh2]. repeat (apply elem_of_cons in Hp as [->|Hp]; [|]); [| |by apply not_elem_of_nil in Hp].
    - unfold classify_message. change (strip_prefix (as_bytes "Invalid user ") _) with (@None bytes).
      change (strip_any _ _) with (@None bytes). by rewrite strip_prefix_app.
    - unfold classify_message. change (strip_prefix (as_bytes "Invalid user ") _) with (@None bytes).
      change (strip_any _ _) with (@None bytes). change (strip_prefix (as_bytes "Accepted password for ") _) with (@None bytes).
      by rewrite strip_prefix_app. }
  assert (Hnotice : form_ok (as_bytes "Invalid user ", [], AuthFailure, true)).
  { intros text _. unfold classify_message, cut_protocol. rewrite strip_prefix_app, app_nil_r. done. }
  unfold auth_forms. rewrite !Forall_cons.
  split_and!; [exact Hnotice|apply Hfail; set_solver| |apply Hfail; set_solver| |apply Hfail; set_solver|
    |apply Hok; set_solver|apply Hok; set_solver|apply Forall_nil_2].
  - exact (proj2 (Hfail "Failed password for "%string ltac:(set_solver))).
  - exact (proj2 (Hfail "Failed publickey for "%string ltac:(set_solver))).
  - exact (proj2 (Hfail "Failed none for "%string ltac:(set_solver))).
Qed.


(** An attempt with the empty user name is not seen at all: the connection
    pattern wants at least one character before [ from ]. *)
Theorem ssh_empty_user_ignored (ip port : bytes)
  (Hip : Forall (fun b => ip_char b = true) ip) (Hport : Forall ascii_digit port) :
  parse_message (as_bytes "Invalid user " ++ connection_text [] ip port) = None.
Proof using laws.
  unfold parse_message, classify_message, cut_protocol. rewrite strip_prefix_app.
  assert (Hs : starts_with (as_bytes "Invalid user ") (as_bytes "Invalid user " ++ connection_text [] ip port) = true)
    by (apply starts_with_spec; by eexists). rewrite Hs. cbn [mbind option_bind].
  destruct (connection_captures (connection_text [] ip port)) as [[[u i] o]|] eqn:Hc; [exfalso|done].
  apply connection_sound in Hc as (tail & E & Hu & _ & _ & Hic & Ht).
  destruct (last_split 109 (as_bytes " fro") (32 :: ip ++ as_bytes " port " ++ port) (u ++ as_bytes " fro") (32 :: i ++ tail)) as [Eu _].
  { rewrite <- app_assoc. exact E. }
  { rewrite not_elem_of_cons, !not_elem_of_app. split_and!; [done|by apply (not_in_class ip_char)|apply (bool_decide_unpack _); by vm_compute|].
    by apply (not_in_class is_ascii_digit). }
  { rewrite not_elem_of_cons, not_elem_of_app. split_and!; [done|by apply (not_in_class ip_char)|by eapply tail_no_m]. }
  change (as_bytes " fro") with ([] ++ as_bytes " fro") in Eu at 1. apply app_inj_2 in Eu as [<- _]; done.
Qed.
End address.

(** ** The patterns, by exhaustive search *)
Module SshSample.
(** The lengths of the captures and the optional parts. *)
Abbreviation candidate := (nat * nat * nat * bytes * bytes)%type (only parsing).

Definition c_user (s : bytes) (c : candidate) : bytes := let '(k, _, _, _, _) := c in take k s.
Definition c_ip (s : bytes) (c : candidate) : bytes := let '(k, j, _, _, _) := c in take j (drop (k + 6) s).
Definition c_port (s : bytes) (c : candidate) : option bytes :=
  let '(k, j, m, _, _) := c in match m with O => None | _ => Some (take m (drop (k + 6 + j + 6) s)) end.
Definition fits (s : bytes) (c : candidate) : Prop :=
  let '(_, _, _, a, b) := c in
  s = c_user s c ++ as_bytes " from " ++ c_ip s c ++
      (match c_port s c with Some p => as_bytes " port " ++ p | None => [] end) ++ a ++ b /\
  c_user s c <> [] /\ (10 ∉ c_user s c) /\ c_ip s c <> [] /\ Forall (fun b => ip_char b = true) (c_ip s c) /\
  Forall (fun b => is_ascii_digit b = true) (default [] (c_port s c)) /\ (c_port s c <> Some []).
#[local] Instance fits_dec (s : bytes) (c : candidate) : Decision (fits s c).
Proof. destruct c as [[[[k j] m] a] b]. unfold fits. apply _. Defined.

Definition candidates (s : bytes) : list candidate :=
  k ← seq 0 (S (length s)); j ← seq 0 (S (length s)); m ← seq 0 (S (length s));
  a ← [[]; as_bytes " ssh2"]; b ← [[]; as_bytes " [preauth]"]; [(k, j, m, a, b)].

#[local] Instance patterns : SshPatterns := {|
  envelope_captures _ := None;
  connection_captures s :=
    (fun c => (c_user s c, c_ip s c, c_port s c)) <$> List.find (fun c => bool_decide (fits s c)) (candidates s);
  fingerprint_is_match _ := false |}.

Lemma elem_of_candidates (s : bytes) (k j m : nat) (a b : bytes) :
  (k, j, m, a, b) ∈ candidates s <-> (k <= length s /\ j <= length s /\ m <= length s)%nat /\
    (a = [] \/ a = as_bytes " ssh2") /\ (b = [] \/ b = as_bytes " [preauth]").
Proof.
  unfold candidates. repeat setoid_rewrite list_elem_of_bind. setoid_rewrite elem_of_seq. setoid_rewrite list_elem_of_singleton.
  split.
  - intros (k' & (j' & (m' & (a' & (b' & E & Hb) & Ha) & Hm) & Hj) & Hk). injection E as -> -> -> -> ->.
    split; [lia|]. set_solver.
  - intros ((Hk & Hj & Hm) & Ha & Hb). exists k. split; [|lia]. exists j. split; [|lia]. exists m. split; [|lia].
    exists a. split; [|set_solver]. exists b. split; [done|set_solver].
Qed.

Lemma patterns_laws : SshPatternLaws.
Proof.
  split.
  - intros s user ip port (tail & E & Hu & Hnl & Hi & Hic & a & b & Et & Hp & Ha & Hb). unfold connection_captures, patterns.
    apply fmap_is_Some. destruct (List.find _ _) as [c|] eqn:Ef; [by eexists|]. exfalso.
    set (c := (length user, length ip, length (default [] port), a, b)).
    assert (Huser : c_user s c = user) by (unfold c, c_user; rewrite E; by rewrite take_app_length).
    assert (Hip : c_ip s c = ip).
    { unfold c, c_ip. rewrite E, (app_assoc user). rewrite drop_app_length'; [by rewrite take_app_length|]. by rewrite length_app. }
    assert (Hport : c_port s c = port).
    { unfold c, c_port. destruct port as [p|]; [|done]. destruct Hp as [Hp _]. cbn [default]. unfold id.
      destruct (length p) as [|n] eqn:El; [by destruct p|]. f_equal. rewrite E, Et, <- El. rewrite !app_assoc.
      rewrite <- (app_assoc _ a b), <- (app_assoc _ p (a ++ b)). rewrite drop_app_length'; [by rewrite take_app_length|].
      rewrite !length_app. simpl. lia. }
    assert (Hfit : fits s c).
    { unfold fits. rewrite Huser, Hip, Hport. unfold c. rewrite E at 1. rewrite Et. split_and!; try done; destruct port as [p|]; try done.
      - apply Hp.
      - intros [= ->]. by destruct Hp. }
    assert (Hin : In c (candidates s)).
    { apply list_elem_of_In, elem_of_candidates. split; [|done]. rewrite E, Et. destruct port as [p|]; rewrite !length_app; simpl; lia. }
    pose proof (List.find_none _ _ Ef c Hin) as Hno. by apply bool_decide_eq_false in Hno.
  - intros s user ip port Hc. unfold connection_captures, patterns in Hc. apply fmap_Some in Hc as (c & Hc & [= -> -> ->]).
    apply List.find_some in Hc as [Hin Hfit%bool_decide_eq_true]. destruct c as [[[[k j] m] a] b].
    apply list_elem_of_In, elem_of_candidates in Hin as (_ & Ha & Hb). destruct Hfit as (E & Hu & Hnl & Hi & Hic & Hd & Hp).
    eexists. split_and!; [exact E|done..|]. exists a, b. split_and!; [done| |done|done].
    destruct (c_port s _) as [p|]; [|done]. split; [by intros ->|]. eapply Forall_impl; [exact Hd|]. intros x Hx. by left.
Qed.

#[local] Instance addr : AddrText := {| parse_ip _ := Some (IpV4 2130706433); parse_net _ := None |}.

(** A user name that looks like another message, with another address. *)
Definition name : bytes := as_bytes "a Failed password for victim from 198.51.100.42 port 22 ssh2".


Lemma ssh_empty_user_ignored_witness :
  parse_message (as_bytes "Invalid user " ++ connection_text [] (as_bytes "127.0.0.1") (as_bytes "60540")) = None.
Proof.
  apply (@ssh_empty_user_ignored addr patterns patterns_laws); apply (bool_decide_unpack _); by vm_compute.
Defined.
End SshSample.
