(* ===== verification/Tail.v ===== *)
(** * The file source ([plugins/source-file/src/lib.rs])

    Tailing a growing log file in bounded chunks: whole lines only, from a saved
    offset, restarting when the file is rotated and skipping ahead when the
    backlog is too large. Then the parsers that turn a line into an event. *)
From S2P Require Import Prelude Text Models.
From stdpp Require Import pretty.
Local Open Scope Z_scope.

(** ** Reading *)
Record ReadLimits : Type := { max_chunk_bytes : Z; max_lag_bytes : Z }.
Definition default_max_chunk_bytes : Z := 8 * 1024 * 1024.
Definition default_max_lag_bytes : Z := 128 * 1024 * 1024.

(** What one read sees of the file: its length when asked, and the bytes that
    are there when read (the file may have grown in between). *)
Record FileView : Type := { fv_len : Z; fv_content : bytes }.

Record ReadOutcome : Type := {
  ro_lines : list bytes; ro_offset : Z; ro_file_len : Z; ro_rotated : bool; ro_skipped_bytes : Z; ro_more : bool;
}.

(** [read_until(b'\n')]: up to and with the newline, or to the end. *)
Fixpoint read_until (s : bytes) : bytes * bytes :=
  match s with
  | [] => ([], [])
  | b :: s' => if b =? 10 then ([b], s') else let '(chunk, rest) := read_until s' in (b :: chunk, rest)
  end.

Definition ends_line (buf : bytes) : bool := bool_decide (last buf = Some 10).

(** The newline and a carriage return before it are cut off. *)
Definition line_text (buf : bytes) : bytes :=
  let e := (length buf - 1)%nat in
  let e := if (0 <? e)%nat && bool_decide (buf !! (e - 1)%nat = Some 13) then (e - 1)%nat else e in
  from_utf8_lossy (take e buf).

(** The loop: the lines, the bytes read, and whether it stopped at a line
    boundary rather than at the chunk limit. Each turn reads at least one byte,
    so the length of the rest is fuel enough. *)
Fixpoint read_loop (fuel : nat) (chunk : Z) (bytes_read : Z) (rest : bytes) (lines : list bytes) : list bytes * Z * bool :=
  if bytes_read <? chunk then
    match fuel with
    | O => (lines, bytes_read, true)
    | S fuel' =>
        let '(buf, rest') := read_until rest in
        if bool_decide (buf = []) then (lines, bytes_read, true)
        else if negb (ends_line buf) then (lines, bytes_read, true)
        else read_loop fuel' chunk (bytes_read + Z.of_nat (length buf)) rest' (lines ++ [line_text buf])
    end
  else (lines, bytes_read, false).

(** Where the read starts, and what is skipped. The subtraction is on [u64]. *)
Definition read_start (offset file_len : Z) (limits : ReadLimits) : Z * Z :=
  let start := if file_len <? offset then 0 else offset in
  let backlog := saturating_sub file_len start in
  if (0 <? max_lag_bytes limits) && (max_lag_bytes limits <? backlog) then
    let new_start := saturating_sub file_len (Z.max (max_chunk_bytes limits) 1) in
    (new_start, wrap 64 (new_start - start))
  else (start, 0).

(** The chunk from [start] on, of which [n] bytes are behind already. *)
Definition read_chunk (v : FileView) (rotated : bool) (start skipped n : Z) (rest : bytes) (limits : ReadLimits) : ReadOutcome :=
  let '(lines, bytes_read, at_boundary) := read_loop (length rest) (max_chunk_bytes limits) n rest [] in
  {| ro_lines := lines; ro_offset := start + bytes_read; ro_file_len := fv_len v; ro_rotated := rotated; ro_skipped_bytes := skipped;
     ro_more := negb at_boundary && (start + bytes_read <? fv_len v) |}.

(** [None]: the file is not there, between the two steps of a rotation. *)
Definition read_new_lines_blocking (file : option FileView) (offset : Z) (limits : ReadLimits) : ReadOutcome :=
  match file with
  | None => {| ro_lines := []; ro_offset := offset; ro_file_len := offset; ro_rotated := false; ro_skipped_bytes := 0; ro_more := false |}
  | Some v =>
      let rotated := fv_len v <? offset in
      let '(start, skipped) := read_start offset (fv_len v) limits in
      let nothing := {| ro_lines := []; ro_offset := start; ro_file_len := fv_len v; ro_rotated := rotated;
                        ro_skipped_bytes := skipped; ro_more := false |} in
      let rest := drop (Z.to_nat start) (fv_content v) in
      if fv_len v =? start then nothing
      else if 0 <? skipped then
        (* the partial first line is dropped *)
        let '(buf, rest) := read_until rest in
        if bool_decide (buf = []) || negb (ends_line buf) then nothing
        else read_chunk v rotated start skipped (Z.of_nat (length buf)) rest limits
      else read_chunk v rotated start skipped 0 rest limits
  end.

(** ** Draining *)
Record FileWatcher : Type := { fw_offset : Z }.

Definition read_new_lines (limits : ReadLimits) (file : option FileView) (w : FileWatcher) : FileWatcher * ReadOutcome :=
  let outcome := read_new_lines_blocking file (fw_offset w) limits in ({| fw_offset := ro_offset outcome |}, outcome).

Inductive SendResult : Type := Sent | SinkClosed | Cancelled.
Inductive DrainStatus : Type := Again | Finished | DrainError.

(** The events of a batch are sent in order; [sink n] is the answer to the
    [n]-th send. *)
Fixpoint send_events (sink : nat -> SendResult) (events sent : list NormalizedEvent) : list NormalizedEvent * SendResult :=
  match events with
  | [] => (sent, Sent)
  | e :: es => match sink (length sent) with Sent => send_events sink es (sent ++ [e]) | r => (sent, r) end
  end.

(** One turn of the loop of [drain_to_eof]: a batch that is not wholly delivered
    leaves the offset where the batch began. *)
Definition drain_step (parser : bytes -> option NormalizedEvent) (limits : ReadLimits) (sink : nat -> SendResult) (shutdown : bool)
    (file : option FileView) (w : FileWatcher) (sent : list NormalizedEvent) : FileWatcher * list NormalizedEvent * DrainStatus :=
  let batch_start := fw_offset w in
  let '(w, outcome) := read_new_lines limits file w in
  let '(sent, r) := send_events sink (omap parser (ro_lines outcome)) sent in
  match r with
  | Cancelled => ({| fw_offset := batch_start |}, sent, Finished)
  | SinkClosed => ({| fw_offset := batch_start |}, sent, DrainError)
  | Sent => (w, sent, if negb (ro_more outcome) || shutdown then Finished else Again)
  end.

(** The loop, on a file that does not change meanwhile. *)
Fixpoint drain_to_eof (fuel : nat) (parser : bytes -> option NormalizedEvent) (limits : ReadLimits) (sink : nat -> SendResult)
    (shutdown : bool) (file : option FileView) (w : FileWatcher) (sent : list NormalizedEvent)
    : option (FileWatcher * list NormalizedEvent * DrainStatus) :=
  match fuel with
  | O => None
  | S fuel' =>
      let '(w', sent', st) := drain_step parser limits sink shutdown file w sent in
      match st with
      | Again => drain_to_eof fuel' parser limits sink shutdown file w' sent'
      | _ => Some (w', sent', st)
      end
  end.

(** ** Lines *)
(** The terminated lines of a text, with their newlines. *)
Fixpoint raw_lines (acc s : bytes) : list bytes :=
  match s with
  | [] => []
  | b :: s' => if b =? 10 then (acc ++ [b]) :: raw_lines [] s' else raw_lines (acc ++ [b]) s'
  end.
Definition complete_lines (s : bytes) : list bytes := line_text <$> raw_lines [] s.

Lemma raw_lines_none (acc s : bytes) : 10 ∉ s -> raw_lines acc s = [].
Proof.
  revert acc. induction s as [|b s IH]; intros acc Hs; [done|]. apply not_elem_of_cons in Hs as [Hb Hs]. simpl.
  destruct (Z.eqb_spec b 10); [congruence|by apply IH].
Qed.

Lemma raw_lines_cut (a acc s : bytes) : 10 ∉ a -> raw_lines acc (a ++ 10 :: s) = (acc ++ a ++ [10]) :: raw_lines [] s.
Proof.
  revert acc. induction a as [|b a IH]; intros acc Ha; [done|]. apply not_elem_of_cons in Ha as [Hb Ha]. simpl.
  destruct (Z.eqb_spec b 10); [congruence|]. by rewrite IH, <- app_assoc by done.
Qed.

(** A text that is empty or ends in a newline. *)
Definition whole_lines (s : bytes) : Prop := s = [] \/ exists a, s = a ++ [10].

Lemma whole_lines_app (s t : bytes) : whole_lines s -> whole_lines t -> whole_lines (s ++ t).
Proof. intros Hs [->|[a ->]]; [by rewrite app_nil_r|]. right. exists (s ++ a). by rewrite <- app_assoc. Qed.

Lemma raw_lines_app (acc s t : bytes) : whole_lines s -> acc = [] \/ s <> [] ->
  raw_lines acc (s ++ t) = raw_lines acc s ++ raw_lines [] t.
Proof.
  intros [->|[a ->]]; [by intros [->|?]|]. intros _. revert acc. induction a as [|b a IH]; intros acc; simpl; [done|].
  destruct (b =? 10); simpl; by rewrite IH.
Qed.

Lemma complete_lines_app (s t : bytes) : whole_lines s -> complete_lines (s ++ t) = complete_lines s ++ complete_lines t.
Proof. intros Hs. unfold complete_lines. by rewrite raw_lines_app, fmap_app by auto. Qed.

Lemma read_until_spec (s : bytes) :
  (exists a rest, s = a ++ 10 :: rest /\ (10 ∉ a) /\ read_until s = (a ++ [10], rest)) \/ ((10 ∉ s) /\ read_until s = (s, [])).
Proof.
  induction s as [|b s IH]; [right; split; [apply not_elem_of_nil|done]|]. simpl. destruct (Z.eqb_spec b 10) as [->|Hb].
  { left. exists [], s. split_and!; [done|apply not_elem_of_nil|done]. }
  destruct IH as [(a & rest & -> & Ha & ->)|[Hn ->]].
  - left. exists (b :: a), rest. split_and!; [done| |done]. apply not_elem_of_cons. by split.
  - right. split; [|done]. apply not_elem_of_cons. by split.
Qed.

(** What the loop reads: whole lines, up to the last newline or past the chunk
    limit. *)
Lemma read_loop_spec (fuel : nat) (chunk n : Z) (rest : bytes) (acc : list bytes) : (length rest <= fuel)%nat ->
  exists consumed left, rest = consumed ++ left /\ whole_lines consumed /\
    let '(lines, m, at_boundary) := read_loop fuel chunk n rest acc in
    lines = acc ++ complete_lines consumed /\ m = n + Z.of_nat (length consumed) /\
    if at_boundary : bool then 10 ∉ left else chunk <= m /\ (n < chunk -> consumed <> []).
Proof.
  revert n rest acc. induction fuel as [|fuel IH]; intros n rest acc Hf; cbn [read_loop];
    destruct (Z.ltb_spec n chunk) as [Hlt|Hge].
  - exists [], rest. destruct rest; [|simpl in Hf; lia]. split_and!; [done|by left|by rewrite app_nil_r|simpl; lia|apply not_elem_of_nil].
  - exists [], rest. split_and!; [done|by left|by rewrite app_nil_r|simpl; lia|done|lia].
  - destruct (read_until_spec rest) as [(a & left & -> & Ha & Er)|[Hn Er]]; rewrite Er; cbv zeta beta iota.
    + rewrite bool_decide_eq_false_2 by (by destruct a). unfold ends_line. rewrite last_snoc, bool_decide_eq_true_2 by done. cbn [negb].
      destruct (IH (n + Z.of_nat (length (a ++ [10]))) left (acc ++ [line_text (a ++ [10])])) as (c & l & -> & Hc & Hloop).
      { rewrite length_app in Hf. simpl in Hf. lia. }
      exists (a ++ [10] ++ c), l. split; [by rewrite <- !app_assoc|].
      split; [rewrite app_assoc; apply whole_lines_app; [right; by exists a|done]|].
      destruct (read_loop _ _ _ _ _) as [[lines m] b]. destruct Hloop as (-> & -> & Hb).
      assert (Ec : complete_lines (a ++ [10] ++ c) = line_text (a ++ [10]) :: complete_lines c).
      { unfold complete_lines. simpl app. by rewrite raw_lines_cut. }
      rewrite Ec, <- app_assoc, !length_app. cbn [length]. split_and!; [done|lia|]. destruct b; [done|].
      destruct Hb as [Hb _]. rewrite length_app in Hb. cbn [length] in Hb. split; [lia|]. intros _. by destruct a.
    + exists [], rest. destruct (decide (rest = [])) as [->|Hne].
      { rewrite bool_decide_eq_true_2 by done. split_and!; [done|by left|by rewrite app_nil_r|simpl; lia|done]. }
      rewrite bool_decide_eq_false_2 by done. unfold ends_line. rewrite bool_decide_eq_false_2; cbn [negb].
      { split_and!; [done|by left|by rewrite app_nil_r|simpl; lia|done]. }
      intros Hl. apply last_Some in Hl as [l' ->]. destruct Hn. apply elem_of_app. right. left.
  - exists [], rest. split_and!; [done|by left|by rewrite app_nil_r|simpl; lia|done|lia].
Qed.

(** ** The offset *)
(** The backlog is never skipped. *)
Definition no_skip (limits : ReadLimits) (n : Z) : Prop := max_lag_bytes limits <= 0 \/ n <= max_lag_bytes limits.

Lemma read_start_plain (offset len : Z) (limits : ReadLimits) : 0 <= offset <= len -> no_skip limits len ->
  read_start offset len limits = (offset, 0).
Proof.
  intros Ho Hn. unfold read_start, saturating_sub. destruct (Z.ltb_spec len offset); [lia|].
  destruct (Z.ltb_spec 0 (max_lag_bytes limits)); [|done]. destruct (Z.ltb_spec (max_lag_bytes limits) (Z.max 0 (len - offset))); [|done].
  destruct Hn; lia.
Qed.

(** A read of a file that grew: the whole lines that follow the offset, all of
    them or a full chunk. *)
Lemma read_grown (v : FileView) (offset : Z) (limits : ReadLimits) :
  0 <= offset <= fv_len v -> fv_len v <= Z.of_nat (length (fv_content v)) -> no_skip limits (fv_len v) ->
  let r := read_new_lines_blocking (Some v) offset limits in
  exists consumed left, drop (Z.to_nat offset) (fv_content v) = consumed ++ left /\ whole_lines consumed /\
    ro_lines r = complete_lines consumed /\ ro_offset r = offset + Z.of_nat (length consumed) /\
    (ro_more r = true -> 0 < max_chunk_bytes limits -> consumed <> []) /\
    (ro_more r = false -> fv_len v = Z.of_nat (length (fv_content v)) -> 0 < max_chunk_bytes limits -> 10 ∉ left).
Proof.
  intros Ho Hlen Hn. cbv zeta. unfold read_new_lines_blocking. rewrite read_start_plain by done. cbv beta iota zeta.
  destruct (Z.eqb_spec (fv_len v) offset) as [E|E]; cbn [ro_lines ro_offset ro_more].
  { exists [], (drop (Z.to_nat offset) (fv_content v)). split_and!; [done|by left|done|simpl; lia|done|].
    intros _ El _. rewrite drop_ge by lia. apply not_elem_of_nil. }
  change (0 <? 0) with false. cbv iota. unfold read_chunk. set (rest := drop _ _).
  destruct (read_loop_spec (length rest) (max_chunk_bytes limits) 0 rest [] ltac:(lia)) as (c & l & Er & Hc & Hloop).
  exists c, l. split; [done|]. split; [done|]. destruct (read_loop _ _ _ _ _) as [[lines m] b]. destruct Hloop as (-> & -> & Hb).
  cbn [ro_lines ro_offset ro_more]. split_and!; [done|lia| |].
  - intros Hm Hchunk. destruct b; [done|]. apply Hb. lia.
  - intros Hm El Hchunk. destruct b; [done|]. cbn [negb andb] in Hm. apply Z.ltb_ge in Hm.
    assert (Hl : length l = 0%nat).
    { apply (f_equal length) in Er. unfold rest in Er. rewrite length_drop, length_app in Er. lia. }
    apply length_zero_iff_nil in Hl. subst l. apply not_elem_of_nil.
Qed.

(** ** Exactly once *)
(** Reads one after the other: the final offset and every line, in order. *)
Fixpoint tail_reads (limits : ReadLimits) (views : list (option FileView)) (offset : Z) : Z * list bytes :=
  match views with
  | [] => (offset, [])
  | v :: vs =>
      let r := read_new_lines_blocking v offset limits in
      let '(o, lines) := tail_reads limits vs (ro_offset r) in (o, ro_lines r ++ lines)
  end.

(** What an appended file shows, at least [n] bytes at first: each read sees a
    longer beginning of [file], or the file is not there for a moment. *)
Fixpoint grows (file : bytes) (n : Z) (views : list (option FileView)) : Prop :=
  match views with
  | [] => True
  | None :: vs => grows file n vs
  | Some v :: vs => n <= fv_len v <= Z.of_nat (length (fv_content v)) /\ fv_content v `prefix_of` file /\
      grows file (Z.of_nat (length (fv_content v))) vs
  end.

Lemma complete_lines_rest (consumed left : bytes) : whole_lines consumed -> 10 ∉ left ->
  complete_lines (consumed ++ left) = complete_lines consumed.
Proof. intros Hc Hl. rewrite complete_lines_app by done. unfold complete_lines at 2. by rewrite raw_lines_none, app_nil_r. Qed.

Lemma prefix_drop (pre rest v : bytes) : v `prefix_of` pre ++ rest -> (length pre <= length v)%nat ->
  exists k, drop (length pre) v `prefix_of` rest /\ v = pre ++ k /\ k = drop (length pre) v.
Proof.
  intros [t E] Hl. exists (drop (length pre) v). assert (Ev : v = pre ++ drop (length pre) v).
  { rewrite <- (take_drop (length pre) v) at 1. f_equal. rewrite <- (take_app_le v t) by done. rewrite <- E. by rewrite take_app_length. }
  split_and!; [|done|done]. exists t. rewrite Ev in E at 1. rewrite <- app_assoc in E. by apply app_inv_head in E.
Qed.

Lemma tail_reads_from (limits : ReadLimits) (file : bytes) (views : list (option FileView)) (pre rest : bytes) (n : Z) :
  no_skip limits (Z.of_nat (length file)) -> file = pre ++ rest -> whole_lines pre -> Z.of_nat (length pre) <= n -> grows file n views ->
  let '(off, lines) := tail_reads limits views (Z.of_nat (length pre)) in
  exists more rest', file = (pre ++ more) ++ rest' /\ off = Z.of_nat (length (pre ++ more)) /\ whole_lines (pre ++ more) /\
    lines = complete_lines more.
Proof.
  intros Hn. revert pre rest n. induction views as [|[v|] vs IH]; intros pre rest n Hfile Hw Hle Hg; cbn [tail_reads grows] in *.
  - exists [], rest. rewrite app_nil_r. by split_and!.
  - destruct Hg as ([H1 H2] & Hpre & Hg). assert (Hpl : (length pre <= length (fv_content v))%nat) by lia.
    rewrite Hfile in Hpre. destruct (prefix_drop pre rest (fv_content v) Hpre Hpl) as (k & Hk & Ev & Ek).
    assert (Hvl : (length (fv_content v) <= length file)%nat) by (rewrite Hfile; by apply prefix_length).
    destruct (read_grown v (Z.of_nat (length pre)) limits) as (c & l & Ed & Hc & Elines & Eoff & _); [lia|lia|destruct Hn; [left|right]; lia|].
    rewrite Nat2Z.id in Ed. destruct Hk as [t Et]. rewrite Ed, <- app_assoc in Et.
    assert (Elen : Z.of_nat (length pre) + Z.of_nat (length c) = Z.of_nat (length (pre ++ c))) by (rewrite length_app; lia).
    rewrite Eoff, Elen. specialize (IH (pre ++ c) (l ++ t) (Z.of_nat (length (fv_content v)))).
    destruct (tail_reads limits vs _) as [o lines]. destruct IH as (more & rest' & E & Eo & Hw' & El).
    + by rewrite Hfile, Et, <- app_assoc.
    + by apply whole_lines_app.
    + rewrite Ev, Ek, Ed, !length_app. lia.
    + done.
    + exists (c ++ more), rest'. rewrite app_assoc. split_and!; [done|done|done|]. by rewrite Elines, El, complete_lines_app.
  - specialize (IH pre rest n Hfile Hw Hle Hg). cbn [ro_offset ro_lines read_new_lines_blocking].
    destruct (tail_reads limits vs _) as [o lines]. exact IH.
Qed.


(** ** Draining *)
Lemma send_events_ok (sink : nat -> SendResult) (events sent : list NormalizedEvent) : (forall n, sink n = Sent) ->
  send_events sink events sent = (sent ++ events, Sent).
Proof.
  intros Hs. revert sent. induction events as [|e es IH]; intros sent; simpl; [by rewrite app_nil_r|]. by rewrite Hs, IH, <- app_assoc.
Qed.


(** ** The backlog limit *)
(** A batch limit above the backlog limit defeats the skip: with
    [max_lag_bytes] below the backlog and [max_chunk_bytes] at least the file,
    [new_start - start_offset] underflows, the read starts over at the beginning
    and delivers again every line but the first, although the offset was past
    them. *)
Theorem lag_skip_replays (limits : ReadLimits) (v : FileView) (offset : Z) (first rest : bytes)
  (Hlag : 0 < max_lag_bytes limits < fv_len v - offset) (Hoff : 0 < offset) (Hu64 : fv_len v < 2 ^ 64)
  (Hchunk : fv_len v <= max_chunk_bytes limits) (Hlen : fv_len v = Z.of_nat (length (fv_content v)))
  (Hfirst : fv_content v = first ++ 10 :: rest) (Hnl : 10 ∉ first) :
  let r := read_new_lines_blocking (Some v) offset limits in
  ro_rotated r = false /\ ro_lines r = complete_lines rest.
Proof.
  cbv zeta. assert (Es : read_start offset (fv_len v) limits = (0, 2 ^ 64 - offset)).
  { unfold read_start, saturating_sub. destruct (Z.ltb_spec (fv_len v) offset); [lia|].
    destruct (Z.ltb_spec 0 (max_lag_bytes limits)); [|lia].
    destruct (Z.ltb_spec (max_lag_bytes limits) (Z.max 0 (fv_len v - offset))); [|lia]. cbn [andb].
    rewrite Z.max_l by lia. replace (Z.max 0 (fv_len v - max_chunk_bytes limits)) with 0 by lia. f_equal.
    unfold wrap. rewrite <- (Z_mod_plus_full (0 - offset) 1), Z.mul_1_l. rewrite Z.mod_small by lia. lia. }
  unfold read_new_lines_blocking. rewrite Es. cbv beta iota zeta.
  destruct (Z.eqb_spec (fv_len v) 0); [lia|]. destruct (Z.ltb_spec 0 (2 ^ 64 - offset)); [|lia].
  change (Z.to_nat 0) with 0%nat. rewrite drop_0, Hfirst.
  destruct (read_until_spec (first ++ 10 :: rest)) as [(a & r & E & Ha & Er)|[Hn _]]; cycle 1.
  { destruct Hn. apply elem_of_app. right. left. }
  rewrite Er. destruct (first_split 10 a r first rest (eq_sym E) Ha Hnl) as [-> ->]. rewrite bool_decide_eq_false_2 by (by destruct first). unfold ends_line.
  rewrite last_snoc, bool_decide_eq_true_2 by done. cbn [orb negb]. unfold read_chunk.
  destruct (read_loop_spec (length rest) (max_chunk_bytes limits) (Z.of_nat (length (first ++ [10]))) rest [] ltac:(lia)) as (c & l & Erest & Hc & Hloop).
  destruct (read_loop _ _ _ _ _) as [[lines m] b]. destruct Hloop as (-> & -> & Hb). cbn [ro_rotated ro_lines].
  split; [apply Z.ltb_ge; lia|]. simpl app. rewrite Erest. destruct b; [by rewrite complete_lines_rest|].
  destruct l as [|x l]; [by rewrite app_nil_r|]. exfalso. destruct Hb as [Hb _].
  rewrite Hlen, Hfirst, Erest in Hchunk. rewrite !length_app in *. simpl in *. rewrite length_app in *. simpl in *. lia.
Qed.

(** ** Witnesses *)
Module TailSample.
Definition text : bytes := as_bytes "aaaa" ++ [10] ++ as_bytes "bbbb" ++ [10] ++ as_bytes "cccc" ++ [13; 10] ++ as_bytes "dd".
Definition view (n : nat) : FileView := {| fv_len := Z.of_nat n; fv_content := take n text |}.
Definition small : ReadLimits := {| max_chunk_bytes := 3; max_lag_bytes := 0 |}.

(** Half a line at a time, and a moment without the file. *)
Definition views : list (option FileView) := [Some (view 3); Some (view 7); None; Some (view 12); Some (view 18)].
Example tail_sample : tail_reads small views 0 = (16, as_bytes <$> ["aaaa"; "bbbb"; "cccc"]%string).
Proof. by vm_compute. Qed.


Definition parser (line : bytes) : option NormalizedEvent :=
  Some {| ev_timestamp := 0; ev_source_ip := IpV4 1; ev_event_type := AuthFailure; ev_source_name := "x"; ev_raw_line := of_bytes line;
          ev_metadata := ∅ |}.

(** Limits the configuration schema accepts; two lines were delivered before. *)
Definition narrow : ReadLimits := {| max_chunk_bytes := 65536; max_lag_bytes := 1 |}.
Lemma lag_skip_replays_witness :
  ro_lines (read_new_lines_blocking (Some (view 18)) 10 narrow) = as_bytes <$> ["bbbb"; "cccc"]%string.
Proof.
  refine (proj2 (lag_skip_replays narrow (view 18) 10 (as_bytes "aaaa") (drop 5 text) _ _ _ _ _ _ _)); try done.
  apply (bool_decide_unpack _). by vm_compute.
Defined.
End TailSample.
