(* ===== verification/LogParsers.v ===== *)
(** * From log lines to events ([plugins/source-file/src/lib.rs], [hiveguard-plugin-utils/src/nginx.rs])

    The parsers of the file source: nginx access logs with a trailing virtual
    host, SSH, postfix and custom lines. The regular expressions and the date
    formats are parameters. *)
From S2P Require Import Prelude Text Models Floats Detector HttpRate SigmaCond Sigma SshLog.
From stdpp Require Import pretty.
Local Open Scope Z_scope.

(** ** The patterns *)
Class LogPatterns : Type := {
  (** [NginxPattern::combined]: its six captures and where the match ends. *)
  nginx_captures : bytes -> option (bytes * bytes * bytes * bytes * bytes * bytes * nat);
  (** [%d/%b/%Y:%H:%M:%S %z] *)
  parse_nginx_timestamp : bytes -> option DateTime;
  (** [%Y %b %e %H:%M:%S] of the current year's date *)
  parse_syslog_timestamp : bytes -> option DateTime;
  (** [syslog_timestamp], [sasl_warning] (address, mechanism) and
      [sasl_login_failed] (address) *)
  syslog_timestamp_capture : bytes -> option bytes;
  sasl_warning_captures : bytes -> option (bytes * bytes);
  sasl_login_failed_capture : bytes -> option bytes;
}.

(** ** The virtual host *)
Definition is_whitespace_at (s : bytes) : bool := existsb (fun w => starts_with w s) WHITE_SPACE.
(** Control characters: U+0000 to U+001F and U+007F to U+009F. *)
Definition is_control_char (c : Z) : bool := in_range 0 31 c || in_range 127 159 c.
(** [chars().any(char::is_whitespace)]: some suffix starts with white space. *)
Fixpoint has_whitespace (s : bytes) : bool :=
  match s with [] => false | _ :: s' => is_whitespace_at s || has_whitespace s' end.

Definition trailing_vhost (rest : bytes) : option bytes :=
  let rest := trim_end rest in
  if negb (ends_with [34] rest) then None
  else
    match rsplit_once 34 (take (length rest - 1) rest) with
    | None => None
    | Some (_, host) =>
        if bool_decide (host = []) || bool_decide (host = [45]) || (253 <? length host)%nat
           || has_whitespace host || existsb is_control_char (chars host) then None
        else Some (to_ascii_lowercase host)
    end.

Example vhost_samples :
  trailing_vhost (as_bytes " " ++ [34] ++ as_bytes "x" ++ [34] ++ as_bytes " " ++ [34] ++ as_bytes "Shop.Example.ORG" ++ [34] ++ as_bytes "  ")
    = Some (as_bytes "shop.example.org") /\
  trailing_vhost (as_bytes " 0.123") = None /\ trailing_vhost ([34; 45; 34]) = None /\
  trailing_vhost ([34] ++ as_bytes "a b" ++ [34]) = None.
Proof. by vm_compute. Qed.

(** ** Nginx *)
(** [request.splitn(3, ' ')], at least two parts. *)
Definition parse_request_line (request : bytes) : option (bytes * bytes) :=
  match split_once 32 request with
  | None => None
  | Some (method, rest) => Some (method, match split_once 32 rest with Some (path, _) => path | None => rest end)
  end.

Record NginxEvent : Type := {
  ng_source_ip : IpAddr; ng_timestamp : DateTime; ng_method : bytes; ng_path : bytes; ng_status_code : Z; ng_user_agent : bytes;
  ng_vhost : option bytes; ng_raw_line : bytes;
}.

Section parsers.
Context `{AddrText} `{LogPatterns} `{SshPatterns}.

(** [now] is the clock, for a line without a readable date. *)
Definition parse_nginx_line (now : DateTime) (line : bytes) : option NginxEvent :=
  match nginx_captures line with
  | None => None
  | Some (c1, c2, c3, c4, _, c6, end_) =>
      match parse_ip c1, parse_request_line c3, parse_u16 c4 with
      | Some ip, Some (method, path), Some status =>
          Some {| ng_source_ip := ip; ng_timestamp := default now (parse_nginx_timestamp c2); ng_method := method; ng_path := path;
                  ng_status_code := status; ng_user_agent := c6; ng_vhost := trailing_vhost (drop end_ line); ng_raw_line := line |}
      | _, _, _ => None
      end
  end.

Definition status_to_event_type (status : Z) : EventType :=
  if in_range 400 499 status then Http4xx else if in_range 500 599 status then Http5xx else HttpRequest.

Definition parse_nginx_normalized (now : DateTime) (line : bytes) : option NormalizedEvent :=
  match parse_nginx_line now line with
  | None => None
  | Some e =>
      let metadata : gmap string string :=
        <["status_code"%string := fmt_uint (ng_status_code e)]> (<["user_agent"%string := of_bytes (ng_user_agent e)]>
          (<["method"%string := of_bytes (ng_method e)]> {["path"%string := of_bytes (ng_path e)]})) in
      Some {| ev_timestamp := ng_timestamp e; ev_source_ip := ng_source_ip e; ev_event_type := status_to_event_type (ng_status_code e);
              ev_source_name := "nginx"; ev_raw_line := of_bytes (ng_raw_line e);
              ev_metadata := match ng_vhost e with Some v => <["vhost"%string := of_bytes v]> metadata | None => metadata end |}
  end.

(** ** SSH, postfix, custom *)
Definition parse_ssh_normalized (now : DateTime) (line : bytes) : option NormalizedEvent :=
  match parse_ssh_line line with
  | None => None
  | Some e =>
      let metadata : gmap string string := {["user"%string := of_bytes (se_user e)]} in
      Some {| ev_timestamp := default now (parse_syslog_timestamp (se_timestamp_str e)); ev_source_ip := se_source_ip e;
              ev_event_type := se_event_type e; ev_source_name := "ssh"; ev_raw_line := of_bytes (se_raw_line e);
              ev_metadata := if se_invalid_user e then <["invalid_user"%string := "true"%string]> metadata else metadata |}
  end.

Record PostfixEvent : Type := { po_timestamp_str : bytes; po_source_ip : IpAddr; po_mechanism : bytes; po_raw_line : bytes }.

Definition parse_postfix_line (line : bytes) : option PostfixEvent :=
  let ts := default [] (syslog_timestamp_capture line) in
  let event ip mech := (fun a => {| po_timestamp_str := ts; po_source_ip := a; po_mechanism := mech; po_raw_line := line |}) <$> parse_ip ip in
  match sasl_warning_captures line with
  | Some (ip, mech) => event ip mech
  | None => match sasl_login_failed_capture line with Some ip => event ip (as_bytes "LOGIN") | None => None end
  end.

Definition parse_postfix_normalized (now : DateTime) (line : bytes) : option NormalizedEvent :=
  match parse_postfix_line line with
  | None => None
  | Some e =>
      Some {| ev_timestamp := default now (parse_syslog_timestamp (po_timestamp_str e)); ev_source_ip := po_source_ip e;
              ev_event_type := SmtpAuthFailure; ev_source_name := "postfix"; ev_raw_line := of_bytes (po_raw_line e);
              ev_metadata := {["mechanism"%string := of_bytes (po_mechanism e)]} |}
  end.

(** [captures]: the named groups of the configured pattern. *)
Definition parse_custom_normalized (captures : bytes -> option (gmap string bytes)) (detector_name : string) (now : DateTime)
    (line : bytes) : option NormalizedEvent :=
  match captures line with
  | None => None
  | Some groups =>
      match groups !! "ip"%string ≫= parse_ip with
      | None => None
      | Some ip =>
          Some {| ev_timestamp := now; ev_source_ip := ip; ev_event_type := Custom detector_name;
                  ev_source_name := ("custom_" +:+ detector_name)%string; ev_raw_line := of_bytes line;
                  ev_metadata := of_bytes <$> filter (fun kv => kv.1 ∈ ["user"; "path"; "status"]%string) groups |}
      end
  end.
End parsers.

(** ** What reaches the rules *)
Section composition.
Context `{AddrText} `{LogPatterns} `{IpNetOps} `{UnicodeLower} {lower : UnicodeLowerLaws} `{SigmaEnv}.

(** The keys of an nginx event. *)
Lemma nginx_metadata (now : DateTime) (line : bytes) (e : NormalizedEvent) (k : string) :
  parse_nginx_normalized now line = Some e -> k ∉ ["path"; "method"; "user_agent"; "status_code"; "vhost"]%string ->
  ev_metadata e !! k = None.
Proof using lower.
  unfold parse_nginx_normalized. destruct (parse_nginx_line now line) as [n|]; [|done]. intros [= <-] Hk. cbn [ev_metadata].
  assert (Hne : forall j, j ∈ ["path"; "method"; "user_agent"; "status_code"; "vhost"]%string -> j <> k) by (intros j Hj ->; done).
  destruct (ng_vhost n); rewrite ?lookup_insert_ne, lookup_singleton_ne; try done; apply Hne; set_solver.
Qed.

(** The Sigma detector with the built-in field names is blind to nginx events: a
    rule's condition on the path, the method or the status of a request, under
    any of their Sigma names, [status_code] included, finds no field, and
    matches no event the nginx parser produces. *)
Theorem sigma_blind_to_nginx (now : DateTime) (line : bytes) (e : NormalizedEvent) (c : FieldCondition) (f : bytes)
  (Hparse : parse_nginx_normalized now line = Some e) (Hf : f ∈ web_fields) (Hc : fc_field c = Some f)
  (Hvalue : fc_values c <> []) (Hnull : SvNull ∉ fc_values c) :
  get_field mapper_new e f = None /\ condition_matches mapper_new e c = false.
Proof using lower.
  assert (Hno : get_field mapper_new e f = None).
  { apply web_fields_unresolved; [|done]. intros k Hk. apply (nginx_metadata now line); [done|].
    assert (Hall : Forall (fun k => of_bytes k ∉ ["path"; "method"; "user_agent"; "status_code"; "vhost"]%string) web_accessors)
      by (apply (bool_decide_unpack _); by vm_compute). rewrite Forall_forall in Hall. by apply Hall. }
  split; [done|]. unfold condition_matches. rewrite Hc, Hno.
  assert (existsb is_null (fc_values c) = false) as ->.
  { apply not_true_iff_false. rewrite existsb_exists. intros (v & Hv & E). destruct v; [done|]. apply Hnull. by apply list_elem_of_In. }
  cbn [andb]. apply bool_decide_eq_false_2. by destruct (fc_values c).
Qed.
End composition.

(** ** Witnesses *)
Module LogSample.
#[local] Existing Instance ipnet_ref.
#[local] Instance addr : AddrText := {| parse_ip _ := Some (IpV4 7); parse_net _ := None |}.
#[local] Instance ascii : UnicodeLower := to_ascii_lowercase.
Lemma ascii_laws : UnicodeLowerLaws.
Proof. by intros s _. Qed.
#[local] Instance env : SigmaEnv := {|
  yaml_debug _ := []; to_rfc3339 _ := []; debug_string _ := []; regex := unit; regex_new _ := None; regex_is_match _ _ := false |}.
(** The captures of one line of an access log. *)
#[local] Instance patterns : LogPatterns := {|
  nginx_captures _ := Some (as_bytes "0.0.0.7", as_bytes "date", as_bytes "GET /wp-login.php HTTP/1.1", as_bytes "404", as_bytes "5",
                            as_bytes "curl", 0%nat);
  parse_nginx_timestamp _ := None; parse_syslog_timestamp _ := None; syslog_timestamp_capture _ := None;
  sasl_warning_captures _ := None; sasl_login_failed_capture _ := None |}.

Definition line : bytes := as_bytes "0.0.0.7 ... 404".
Definition e : NormalizedEvent :=
  {| ev_timestamp := 0; ev_source_ip := IpV4 7; ev_event_type := Http4xx; ev_source_name := "nginx"; ev_raw_line := of_bytes line;
     ev_metadata := list_to_map [("path", "/wp-login.php"); ("method", "GET"); ("user_agent", "curl"); ("status_code", "404")]%string |}.
(** [status_code: 404] *)
Definition c : FieldCondition :=
  {| fc_field := Some (as_bytes "status_code"); fc_modifiers := []; fc_values := [SvString (as_bytes "404")]; fc_compiled_re := [None] |}.

Lemma sigma_blind_to_nginx_witness : parse_nginx_normalized 0 line = Some e /\ condition_matches mapper_new e c = false.
Proof.
  assert (Hp : parse_nginx_normalized 0 line = Some e) by by vm_compute. split; [done|].
  refine (proj2 (@sigma_blind_to_nginx addr patterns _ ascii ascii_laws env 0 line e c (as_bytes "status_code") Hp _ eq_refl _ _)).
  - apply (bool_decide_unpack _). by vm_compute.
  - done.
  - intros Hin%list_elem_of_singleton. done.
Defined.
End LogSample.
