(* ===== verification/Syslog.v ===== *)
(** * Network syslog ([plugins/source-syslog/src])

    The source that takes log messages from other hosts: the parser of both
    syslog formats, the framing of a TCP stream, who may send and how much, and
    the routing of a message to the parser of its program. A Rust slice that
    panics is [None] of the outer option. Regular expressions and dates are
    parameters. *)
From S2P Require Import Prelude Text Models Detector SshLog LogParsers Whitelist.
Local Open Scope Z_scope.

(** ** Messages ([syslog_parser.rs]) *)
Inductive SyslogFacility : Type :=
| FKernel | FUser | FMail | FDaemon | FAuth | FSyslog | FLpr | FNews | FUucp | FClock | FAuthPriv | FFtp | FNtp | FLogAudit | FLogAlert | FCron
| FLocal0 | FLocal1 | FLocal2 | FLocal3 | FLocal4 | FLocal5 | FLocal6 | FLocal7.
Inductive SyslogSeverity : Type := Emergency | Alert | Critical | Error | Warning | Notice | Informational | Debugging.

Definition facilities : list SyslogFacility :=
  [FKernel; FUser; FMail; FDaemon; FAuth; FSyslog; FLpr; FNews; FUucp; FClock; FAuthPriv; FFtp; FNtp; FLogAudit; FLogAlert; FCron;
   FLocal0; FLocal1; FLocal2; FLocal3; FLocal4; FLocal5; FLocal6; FLocal7].
Definition facility_of (prival : Z) : SyslogFacility := nth (Z.to_nat (Z.shiftr prival 3)) facilities FUser.
Definition severity_of (prival : Z) : SyslogSeverity :=
  nth (Z.to_nat (Z.land prival 7)) [Emergency; Alert; Critical; Error; Warning; Notice; Informational; Debugging] Debugging.

(** [format!("{:?}", facility)] in lower case. *)
Definition facility_name (f : SyslogFacility) : bytes :=
  as_bytes match f with
  | FKernel => "kernel" | FUser => "user" | FMail => "mail" | FDaemon => "daemon" | FAuth => "auth" | FSyslog => "syslog" | FLpr => "lpr"
  | FNews => "news" | FUucp => "uucp" | FClock => "clock" | FAuthPriv => "authpriv" | FFtp => "ftp" | FNtp => "ntp" | FLogAudit => "logaudit"
  | FLogAlert => "logalert" | FCron => "cron" | FLocal0 => "local0" | FLocal1 => "local1" | FLocal2 => "local2" | FLocal3 => "local3"
  | FLocal4 => "local4" | FLocal5 => "local5" | FLocal6 => "local6" | FLocal7 => "local7"
  end.

Record StructuredDataElement : Type := { sd_id : bytes; sd_params : list (bytes * bytes) }.
Record SyslogMessage : Type := {
  sm_facility : SyslogFacility; sm_severity : SyslogSeverity; sm_timestamp : option DateTime; sm_hostname : option bytes;
  sm_app_name : option bytes; sm_procid : option bytes; sm_msgid : option bytes; sm_structured_data : list StructuredDataElement;
  sm_message : bytes;
}.

Definition parse_pri (input : bytes) : option (Z * bytes) :=
  rest ← strip_prefix [60] input;
  '(num, after) ← split_once 62 rest;
  prival ← parse_uint 255 num;
  if 191 <? prival then None else Some (prival, after).
Definition split_sp (input : bytes) : option (bytes * bytes) := split_once 32 input.
Definition nil_or_some (tok : bytes) : option bytes := if bool_decide (tok = [45]) then None else Some tok.

(** A quoted value up to its end, and what follows; every byte becomes the
    character of its number. *)
Fixpoint sd_value (s : bytes) : bytes * bytes :=
  match s with
  | [] => ([], [])
  | 92 :: c :: s' => let '(v, r) := sd_value s' in (encode_char c ++ v, r)
  | 34 :: s' => ([], s')
  | b :: s' => let '(v, r) := sd_value s' in (encode_char b ++ v, r)
  end.

(** The parameters of an element; fuel is the length of the text. *)
Fixpoint sd_params_from (fuel : nat) (rest : bytes) : list (bytes * bytes) * bytes :=
  match fuel, rest with
  | S fuel', 32 :: r =>
      if starts_with [93] r then ([], r)
      else match split_once 61 r with
           | None => ([], r)
           | Some (name, r) =>
               match strip_prefix [34] r with
               | None => ([], r)
               | Some r =>
                   let '(value, r) := sd_value r in
                   let '(ps, r) := sd_params_from fuel' r in ((name, value) :: ps, r)
               end
           end
  | _, _ => ([], rest)
  end.
Fixpoint sd_elements_from (fuel : nat) (rest : bytes) : list StructuredDataElement * bytes :=
  match fuel, rest with
  | S fuel', 91 :: r =>
      let id := before (fun c => (c =? 32) || (c =? 93)) r in
      let '(ps, r) := sd_params_from (length r) (drop (length id) r) in
      let r := default r (strip_prefix [93] r) in
      let '(es, r) := sd_elements_from fuel' r in ({| sd_id := id; sd_params := ps |} :: es, r)
  | _, _ => ([], rest)
  end.
Definition parse_structured_data (input : bytes) : list StructuredDataElement * bytes :=
  match strip_prefix [45] input with
  | Some rest => if bool_decide (rest = []) || starts_with [32] rest then ([], rest) else sd_elements_from (length input) input
  | None => sd_elements_from (length input) input
  end.

(** The dates of the two formats. *)
Class SyslogDates : Type := { parse_rfc3339 : bytes -> option DateTime }.

Section parser.
Context `{SyslogDates} `{LogPatterns}.

Definition parse_rfc5424_timestamp (ts : bytes) : option DateTime := if bool_decide (ts = [45]) then None else parse_rfc3339 ts.

Definition parse_rfc5424 (input : bytes) : option SyslogMessage :=
  '(prival, rest) ← parse_pri input;
  '(_, rest) ← split_sp rest;
  '(ts_tok, rest) ← split_sp rest;
  '(hostname_tok, rest) ← split_sp rest;
  '(app_name_tok, rest) ← split_sp rest;
  '(procid_tok, rest) ← split_sp rest;
  '(msgid_tok, rest) ← split_sp rest;
  let '(structured_data, rest) := parse_structured_data rest in
  Some {| sm_facility := facility_of prival; sm_severity := severity_of prival; sm_timestamp := parse_rfc5424_timestamp ts_tok;
          sm_hostname := nil_or_some hostname_tok; sm_app_name := nil_or_some app_name_tok; sm_procid := nil_or_some procid_tok;
          sm_msgid := nil_or_some msgid_tok; sm_structured_data := structured_data; sm_message := default rest (strip_prefix [32] rest) |}.

Definition non_empty (s : bytes) : option bytes := if bool_decide (s = []) then None else Some s.

(** The tag: program and process id; [None] where the slice between the
    brackets panics. *)
Definition split_tag (tag_part : bytes) : option (option bytes * option bytes) :=
  match str_find [91] tag_part with
  | Some bracket =>
      let pid_end := default (length tag_part) (str_find [93] tag_part) in
      if (pid_end <? bracket + 1)%nat then None
      else Some (non_empty (take bracket tag_part), non_empty (take (pid_end - (bracket + 1)) (drop (bracket + 1) tag_part)))
  | None => Some (non_empty tag_part, None)
  end.

Definition parse_rfc3164 (input : bytes) : option (option SyslogMessage) :=
  match parse_pri input with
  | None => Some None
  | Some (prival, rest) =>
      if (length rest <? 16)%nat then Some None else
      ts_str ← slice_to 15 rest;
      match split_sp (drop_while (Z.eqb 32) (drop 15 rest)) with
      | None => Some None
      | Some (hostname, rest) =>
          match split_once 58 rest with
          | None => Some None
          | Some (tag_part, text) =>
              '(app_name, procid) ← split_tag tag_part;
              Some (Some {| sm_facility := facility_of prival; sm_severity := severity_of prival;
                sm_timestamp := parse_syslog_timestamp (trim ts_str); sm_hostname := Some hostname; sm_app_name := app_name;
                sm_procid := procid; sm_msgid := None; sm_structured_data := []; sm_message := drop_while (Z.eqb 32) text |})
          end
      end
  end.

Definition trim_newlines (s : bytes) : bytes := rev (drop_while (fun c => (c =? 10) || (c =? 13)) (rev s)).
Definition starts_with_digit (s : bytes) : bool := match s with c :: _ => is_ascii_digit c | [] => false end.

Definition parse_syslog (input : bytes) : option (option SyslogMessage) :=
  let input := trim_newlines input in
  match (if default false ((fun p => starts_with_digit p.2) <$> parse_pri input) then parse_rfc5424 input else None) with
  | Some msg => Some (Some msg)
  | None => parse_rfc3164 input
  end.
End parser.

(** ** An address in the text *)
Section addresses.
Context `{AddrText}.
Definition is_v4 (ip : IpAddr) : bool := match ip with IpV4 _ => true | IpV6 _ => false end.

Definition word_address (word : bytes) (next : option bytes) : option IpAddr :=
  let lower := to_ascii_lowercase word in
  let from := if bool_decide (lower = as_bytes "from") || bool_decide (lower = as_bytes "client:")
              then next ≫= fun n => parse_ip (trim_chars ([91; 93; 44; 59; 39; 34; 40; 41]) n) else None in
  let after_eq := match strip_any [as_bytes "src="; as_bytes "client="; as_bytes "rhost="] lower with
    | Some candidate =>
        match parse_ip (trim_chars [91; 93; 44; 59] candidate) with
        | Some ip => Some ip
        | None => split_once 61 word ≫= fun p => parse_ip (trim_chars [91; 93; 44; 59] p.2)
        end
    | None => None
    end in
  let clean := trim_chars [91; 93; 44; 59; 40; 41] word in
  let plain := match parse_ip clean with
    | Some ip => if (is_v4 ip && bool_decide (46 ∈ clean)) || (negb (is_v4 ip) && (bool_decide (58 ∈ clean) || bool_decide (clean = [58; 58])))
                 then Some ip else None
    | None => None
    end in
  match from with Some ip => Some ip | None => match after_eq with Some ip => Some ip | None => plain end end.

Fixpoint first_address (words : list bytes) : option IpAddr :=
  match words with
  | [] => None
  | w :: ws => match word_address w (head ws) with Some ip => Some ip | None => first_address ws end
  end.
Definition extract_ip_from_message (message : bytes) : option IpAddr := first_address (split_whitespace message).
End addresses.

(** ** Framing ([source.rs]) *)
Definition MAX_UDP_DATAGRAM : nat := Z.to_nat 65535.
Inductive frame_error : Type := FrameTooLong | FrameNotUtf8 | BadOctetCount | FrameEof.

(** What is left of the stream, as the reads will deliver it: every piece is
    what one [fill_buf] returns, none is empty. *)
Definition stream : Type := list bytes.
Definition consume (n : nat) (buf : bytes) (s : stream) : stream := match drop n buf with [] => s | r => r :: s end.

Fixpoint read_line_from (line : bytes) (s : stream) : result (bytes * stream) frame_error :=
  match s with
  | [] => Ok (line, [])
  | buf :: s' =>
      match str_find [10] buf with
      | Some i => if (MAX_UDP_DATAGRAM <? length line + S i)%nat then Err FrameTooLong else Ok (line ++ take (S i) buf, consume (S i) buf s')
      | None => if (MAX_UDP_DATAGRAM <? length line + length buf)%nat then Err FrameTooLong else read_line_from (line ++ buf) s'
      end
  end.

(** One byte. *)
Definition next_byte (s : stream) : option (Z * stream) :=
  match s with
  | (b :: buf) :: s' => Some (b, consume 1 (b :: buf) s')
  | _ => None
  end.

(** The digits up to a space: [None] where the stream ends. The fuel is one
    more than the digits allowed. *)
Fixpoint read_count (fuel : nat) (digits : bytes) (s : stream) : result (option (bytes * stream)) frame_error :=
  match fuel with
  | O => Err BadOctetCount
  | S fuel' =>
      match next_byte s with
      | None => Ok None
      | Some (b, s) =>
          if b =? 32 then Ok (Some (digits, s))
          else if negb (is_ascii_digit b) then Err BadOctetCount
          else if (10 <? length (digits ++ [b]))%nat then Err BadOctetCount
          else read_count fuel' (digits ++ [b]) s
      end
  end.

(** [read_exact] over the pieces. *)
Fixpoint read_exact_from (n : nat) (acc : bytes) (s : stream) : option (bytes * stream) :=
  match s with
  | [] => if (n =? 0)%nat then Some (acc, []) else None
  | buf :: s' =>
      if (n =? 0)%nat then Some (acc, s)
      else if (n <=? length buf)%nat then Some (acc ++ take n buf, consume n buf s')
      else read_exact_from (n - length buf) (acc ++ buf) s'
  end.

Definition read_syslog_frame (s : stream) : result (option (bytes * stream)) frame_error :=
  match s with
  | [] => Ok None
  | buf :: _ =>
      if negb (starts_with_digit buf) then
        match read_line_from [] s with
        | Ok (line, s) => if valid_utf8 line then Ok (Some (line, s)) else Err FrameNotUtf8
        | Err e => Err e
        end
      else
        match read_count 11 [] s with
        | Err e => Err e
        | Ok None => Ok None
        | Ok (Some (digits, s)) =>
            match parse_uint u64_max digits with
            | None => Err BadOctetCount
            | Some count =>
                if Z.of_nat MAX_UDP_DATAGRAM <? count then Err FrameTooLong
                else match read_exact_from (Z.to_nat count) [] s with
                     | Some (bs, s) => Ok (Some (from_utf8_lossy bs, s))
                     | None => Err FrameEof
                     end
            end
        end
  end.

(** ** Who may send, and how much *)
Record SenderPolicy : Type := { sp_networks : option (list IpNet) }.
Definition LOOPBACK : list IpNet := [NetV4 (ipv4 127 0 0 0) 8; NetV6 1 128].
Definition policy_new (networks : option (list IpNet)) (mutual_tls : bool) : SenderPolicy :=
  {| sp_networks := match networks with Some l => Some l | None => if mutual_tls then None else Some LOOPBACK end |}.

(** [to_ipv4_mapped]: ::ffff:0:0/96 *)
Definition canonical_peer (ip : IpAddr) : IpAddr :=
  match ip with
  | IpV6 b => if Z.shiftr b 32 =? 65535 then IpV4 (Z.land b (2 ^ 32 - 1)) else ip
  | IpV4 _ => ip
  end.
Definition allows `{IpNetOps} (p : SenderPolicy) (ip : IpAddr) : bool :=
  match sp_networks p with
  | Some nets => existsb (fun net => net_contains net (canonical_peer ip)) nets
  | None => true
  end.

Definition UDP_RATE_LIMIT_PER_IP : Z := 10000.
Definition MAX_TRACKED_UDP_SENDERS : nat := Z.to_nat 10000.
Record RateLimiter : Type := { rl_counts : gmap IpAddr (Z * Z); rl_limit_per_sec : Z }.
Definition set_counts (m : gmap IpAddr (Z * Z)) (r : RateLimiter) : RateLimiter := {| rl_counts := m; rl_limit_per_sec := rl_limit_per_sec r |}.
Definition rate_new (limit : Z) : RateLimiter := {| rl_counts := ∅; rl_limit_per_sec := limit |}.

(** [duration_since] saturates; the count fits its 64 bits. *)
Definition whole_secs (now t : Z) : Z := saturating_sub now t / nanos_per_sec.
Definition rate_allow (now : Z) (ip : IpAddr) (r : RateLimiter) : RateLimiter * bool :=
  match rl_counts r !! ip with
  | None =>
      if (MAX_TRACKED_UDP_SENDERS <=? size (rl_counts r))%nat then (r, false)
      else (set_counts (<[ip := (1, now)]> (rl_counts r)) r, 1 <=? rl_limit_per_sec r)
  | Some (n, t) =>
      if 1 <=? whole_secs now t then (set_counts (<[ip := (1, now)]> (rl_counts r)) r, true)
      else (set_counts (<[ip := (n + 1, t)]> (rl_counts r)) r, n + 1 <=? rl_limit_per_sec r)
  end.
Definition rate_prune (now : Z) (r : RateLimiter) : RateLimiter :=
  set_counts (filter (fun kv : IpAddr * (Z * Z) => whole_secs now kv.2.2 < 10) (rl_counts r)) r.

(** ** Network devices ([netdev_parser.rs]) *)
Record NetdevEvent : Type := {
  nd_src_ip : IpAddr; nd_dst_ip : option IpAddr; nd_src_port : option Z; nd_dst_port : option Z; nd_proto : option bytes;
  nd_action : bytes; nd_device_type : string; nd_in_iface : option bytes; nd_raw : bytes;
}.

(** The named groups of the patterns. *)
Class NetdevPatterns : Type := {
  asa_captures : bytes -> option (nat * (string -> option bytes));    (** the first of the three that matches *)
  pf_classic_captures : bytes -> option (string -> option bytes);
}.

Section netdev.
Context `{IpNetOps} `{AddrText} `{NetdevPatterns}.

Definition opt_meta (k : string) (v : option string) (m : gmap string string) : gmap string string :=
  match v with Some s => <[k := s]> m | None => m end.
Definition to_normalized (now : DateTime) (source_name : string) (e : NetdevEvent) : NormalizedEvent :=
  let metadata : gmap string string := <["device_type"%string := nd_device_type e]> {["action"%string := of_bytes (nd_action e)]} in
  {| ev_timestamp := now; ev_source_ip := nd_src_ip e; ev_event_type := Custom ("netdev_" +:+ nd_device_type e); ev_source_name := source_name;
     ev_raw_line := of_bytes (nd_raw e);
     ev_metadata := opt_meta "src_port" (fmt_uint <$> nd_src_port e) (opt_meta "dst_port" (fmt_uint <$> nd_dst_port e)
       (opt_meta "proto" (of_bytes <$> nd_proto e) (opt_meta "in_iface" (of_bytes <$> nd_in_iface e)
         (opt_meta "dst_ip" (ip_to_string <$> nd_dst_ip e) metadata)))) |}.

Definition kv (line : bytes) (key : string) : option bytes :=
  let needle := as_bytes key ++ [61] in
  start ← str_find needle line;
  non_empty (before_white (drop (start + length needle) line)).

Definition parse_iptables_line (line : bytes) : option NetdevEvent :=
  src_ip ← kv line "SRC" ≫= parse_ip;
  let has s := contains (as_bytes s) line in
  Some {| nd_src_ip := src_ip; nd_dst_ip := kv line "DST" ≫= parse_ip; nd_src_port := kv line "SPT" ≫= parse_u16;
          nd_dst_port := kv line "DPT" ≫= parse_u16; nd_proto := to_ascii_uppercase <$> kv line "PROTO";
          nd_action := as_bytes (if has "ACCEPT" || has "accept" then "ACCEPT" else if has "REJECT" || has "reject" then "REJECT" else "DROP");
          nd_device_type := if has "nftables" || has "nft:" then "nftables" else "iptables"; nd_in_iface := kv line "IN"; nd_raw := line |}%string.

Definition permit_or_deny (line : bytes) : bytes := as_bytes (if contains (as_bytes "permit") (to_ascii_lowercase line) then "Permit" else "Deny").
Definition parse_cisco_asa_line (line : bytes) : option NetdevEvent :=
  if negb (contains (as_bytes "%ASA-") line) then None else
  '(which, group) ← asa_captures line;
  src_ip ← group "src_ip"%string ≫= parse_ip;
  let field {A} (f : bytes -> option A) (name : string) : option A := if (which <=? 1)%nat then group name ≫= f else None in
  Some {| nd_src_ip := src_ip; nd_dst_ip := field parse_ip "dst_ip"%string; nd_src_port := field parse_u16 "src_port"%string;
          nd_dst_port := field parse_u16 "dst_port"%string;
          nd_proto := if (which =? 0)%nat then to_ascii_uppercase <$> group "proto"%string else None;
          nd_action := if (which =? 0)%nat then default (as_bytes "Deny") (group "action"%string) else permit_or_deny line;
          nd_device_type := "cisco_asa"; nd_in_iface := None; nd_raw := line |}.

Definition parse_pf_filterlog (line : bytes) : option NetdevEvent :=
  csv ← match strip_prefix (as_bytes "filterlog: ") line with
        | Some rest => Some rest
        | None => if contains (as_bytes ",match,") line || contains (as_bytes ",block,") line || contains (as_bytes ",pass,") line then Some line else None
        end;
  let fields := split_on 44 csv in
  if (length fields <? 20)%nat then None else
  src_ip ← (trim <$> fields !! 18%nat) ≫= parse_ip;
  action ← fields !! 6%nat;
  Some {| nd_src_ip := src_ip; nd_dst_ip := (trim <$> fields !! 19%nat) ≫= parse_ip; nd_src_port := (trim <$> fields !! 20%nat) ≫= parse_u16;
          nd_dst_port := (trim <$> fields !! 21%nat) ≫= parse_u16; nd_proto := to_ascii_uppercase <$> fields !! 16%nat;
          nd_action := trim action; nd_device_type := "pfsense"; nd_in_iface := fields !! 4%nat; nd_raw := line |}.
Definition parse_pf_classic (line : bytes) : option NetdevEvent :=
  group ← pf_classic_captures line;
  src_ip ← group "src"%string ≫= parse_ip;
  Some {| nd_src_ip := src_ip; nd_dst_ip := group "dst"%string ≫= parse_ip; nd_src_port := group "sp"%string ≫= parse_u16;
          nd_dst_port := group "dp"%string ≫= parse_u16; nd_proto := None; nd_action := default (as_bytes "block") (group "action"%string);
          nd_device_type := "pfsense"; nd_in_iface := group "iface"%string; nd_raw := line |}.
Definition parse_pf_line (line : bytes) : option NetdevEvent :=
  match parse_pf_filterlog line with Some e => Some e | None => parse_pf_classic line end.
End netdev.

(** ** Routing ([syslog_router.rs]) *)
Inductive SyslogRouteParser : Type := RSsh | RNginx | RPostfix | RIptables | RCiscoAsa | RPfsense | RCustom | RDrop.
#[export] Instance SyslogRouteParser_eq_dec : EqDecision SyslogRouteParser.
Proof. solve_decision. Defined.
Record SyslogRouteConfig : Type := {
  rc_app_name : option bytes; rc_hostname_pattern : option bytes; rc_facility : option bytes; rc_parser : SyslogRouteParser; rc_pattern : option bytes;
}.
(** Regular expressions, kept as their text once they compile. *)
Class RouteRegex : Type := {
  re_new : bytes -> result unit string;
  re_is_match : bytes -> bytes -> bool;
  re_captures : bytes -> bytes -> option (string -> option bytes);
}.
Record CompiledRoute : Type := {
  cr_app_name : option bytes; cr_hostname_re : option bytes; cr_facility : option bytes; cr_parser : SyslogRouteParser; cr_custom_re : option bytes;
}.

Definition glob_char (c : Z) : bytes :=
  if c =? 42 then as_bytes ".*" else if c =? 63 then [46]
  else if bool_decide (c ∈ as_bytes "\.+^${}[]|()?*") then [92; c] else [c].
(** The bytes of a character wider than one are none of these. *)
Definition glob_to_regex_text (glob : bytes) : bytes := 94 :: (c ← glob; glob_char c) ++ [36].

Section router.
Context `{IpNetOps} `{AddrText} `{LogPatterns} `{SshPatterns} `{NetdevPatterns} `{RouteRegex}.
Local Open Scope rust_scope.

Definition compile_route (cfg : SyslogRouteConfig) : hresult CompiledRoute :=
  let? hostname_re := match rc_hostname_pattern cfg with
    | Some g => match re_new (glob_to_regex_text g) with Ok _ => Ok (Some (glob_to_regex_text g)) | Err e => Err (EConfig ("invalid hostname_pattern: " +:+ e)) end
    | None => Ok None
    end in
  let? custom_re := if bool_decide (rc_parser cfg = RCustom) then
      match rc_pattern cfg with
      | Some p => match re_new p with Ok _ => Ok (Some p) | Err e => Err (EConfig ("invalid custom route pattern `" +:+ of_bytes p +:+ "`: " +:+ e)) end
      | None => Err (EConfig "syslog route with parser: custom requires a `pattern` field")
      end
    else Ok None in
  Ok {| cr_app_name := to_ascii_lowercase <$> rc_app_name cfg; cr_hostname_re := hostname_re; cr_facility := to_ascii_lowercase <$> rc_facility cfg;
        cr_parser := rc_parser cfg; cr_custom_re := custom_re |}.
Fixpoint router_from_config (routes : list SyslogRouteConfig) : hresult (list CompiledRoute) :=
  match routes with
  | [] => Ok []
  | r :: rs => let? c := compile_route r in let? cs := router_from_config rs in Ok (c :: cs)
  end.

Definition route_matches (r : CompiledRoute) (msg : SyslogMessage) (app_lower : bytes) : bool :=
  match cr_app_name r with Some want => bool_decide (want = app_lower) | None => true end &&
  match cr_hostname_re r with Some re => re_is_match re (default [] (sm_hostname msg)) | None => true end &&
  match cr_facility r with Some want => bool_decide (facility_name (sm_facility msg) = want) | None => true end.

Definition custom_event (now : DateTime) (name source_name : string) (ip : IpAddr) (metadata : gmap string string) (message : bytes) : NormalizedEvent :=
  {| ev_timestamp := now; ev_source_ip := ip; ev_event_type := Custom name; ev_source_name := source_name; ev_raw_line := of_bytes message;
     ev_metadata := metadata |}.

Definition apply_parser (now : DateTime) (r : CompiledRoute) (msg : SyslogMessage) (app_lower : bytes) (source_name : string) (sender : option IpAddr)
    : option NormalizedEvent :=
  let message := sm_message msg in
  match cr_parser r with
  | RDrop => None
  | RSsh => parse_ssh_normalized now message
  | RNginx => parse_nginx_normalized now message
  | RPostfix => parse_postfix_normalized now message
  | RIptables => to_normalized now source_name <$> parse_iptables_line message
  | RCiscoAsa => to_normalized now source_name <$> parse_cisco_asa_line message
  | RPfsense => to_normalized now source_name <$> parse_pf_line message
  | RCustom =>
      re ← cr_custom_re r;
      group ← re_captures re message;
      text ← group "ip"%string;
      ip ← match parse_ip text with Some ip => Some ip | None => sender end;
      Some (custom_event (default now (sm_timestamp msg)) (of_bytes app_lower) source_name ip
        (opt_meta "syslog_hostname" (of_bytes <$> sm_hostname msg) {["syslog_app_name"%string := of_bytes app_lower]}) message)
  end.

(** The program without its subprocess, in lower case. *)
Definition app_of (msg : SyslogMessage) : bytes := to_ascii_lowercase (before (Z.eqb 47) (default [] (sm_app_name msg))).

Definition default_route (now : DateTime) (msg : SyslogMessage) (source_name : string) (sender : option IpAddr) : option NormalizedEvent :=
  let message := sm_message msg in
  let app := app_of msg in
  let one_of l := bool_decide (app ∈ as_bytes <$> l) in
  if one_of ["sshd"]%string then parse_ssh_normalized now message
  else if one_of ["nginx"; "apache2"; "httpd"]%string then parse_nginx_normalized now message
  else if one_of ["postfix"; "sendmail"]%string then parse_postfix_normalized now message
  else if one_of ["kernel"; "iptables"; "nftables"]%string then to_normalized now source_name <$> parse_iptables_line message
  else
    ip ← match extract_ip_from_message message with Some ip => Some ip | None => sender end;
    Some (custom_event (default now (sm_timestamp msg)) (of_bytes app) source_name ip
      (opt_meta "syslog_procid" (of_bytes <$> sm_procid msg) (opt_meta "syslog_app_name" (of_bytes <$> sm_app_name msg)
        (opt_meta "syslog_hostname" (of_bytes <$> sm_hostname msg) ∅))) message).

Definition route (now : DateTime) (routes : list CompiledRoute) (msg : SyslogMessage) (source_name : string) (sender : option IpAddr)
    : option NormalizedEvent :=
  match List.find (fun r => route_matches r msg (app_of msg)) routes with
  | Some r => apply_parser now r msg (app_of msg) source_name sender
  | None => default_route now msg source_name sender
  end.

(** ** The loops *)
Context `{SyslogDates}.
Record UdpSource : Type := { us_rate : RateLimiter; us_prune_counter : Z }.
Definition udp_new : UdpSource := {| us_rate := rate_new UDP_RATE_LIMIT_PER_IP; us_prune_counter := 0 |}.

(** What becomes of a datagram. *)
Inductive receipt : Type := Ignored | Event (e : NormalizedEvent) | Panicked.

Definition parse_and_route (now : DateTime) (routes : list CompiledRoute) (source_name : string) (sender : IpAddr) (line : bytes) : receipt :=
  match parse_syslog line with
  | None => Panicked
  | Some None => Ignored
  | Some (Some msg) => match route now routes msg source_name (Some sender) with Some e => Event e | None => Ignored end
  end.

(** [tick]: the monotonic clock. *)
Definition udp_step (now : DateTime) (tick : Z) (routes : list CompiledRoute) (senders : SenderPolicy) (source_name : string)
    (datagram : bytes) (sender : IpAddr) (u : UdpSource) : UdpSource * receipt :=
  if negb (allows senders sender) then (u, Ignored) else
  let counter := wrap 32 (us_prune_counter u + 1) in
  let rate := if counter mod 10000 =? 0 then rate_prune tick (us_rate u) else us_rate u in
  let '(rate, ok) := rate_allow tick sender rate in
  let u := {| us_rate := rate; us_prune_counter := counter |} in
  if negb ok then (u, Ignored)
  else if negb (valid_utf8 datagram) then (u, Ignored)
  else (u, parse_and_route now routes source_name sender datagram).

(** A connection: frames until the stream ends or a frame is bad; the last is
    what ended it. *)
Fixpoint tcp_connection (fuel : nat) (now : DateTime) (routes : list CompiledRoute) (source_name : string) (peer : IpAddr) (s : stream) : list receipt :=
  match fuel with
  | O => []
  | S fuel' =>
      match read_syslog_frame s with
      | Ok (Some (line, s)) =>
          match parse_and_route now routes source_name peer line with
          | Panicked => [Panicked]
          | r => r :: tcp_connection fuel' now routes source_name peer s
          end
      | _ => []
      end
  end.
End router.

(** * The parser *)
(** A closing bracket before the first opening one. *)
Definition brackets_crossed (tag : bytes) : Prop := exists i j, str_find [91] tag = Some i /\ str_find [93] tag = Some j /\ (j < i)%nat.

Lemma str_find_lt (c : Z) (s : bytes) (i : nat) : str_find [c] s = Some i -> (i < length s)%nat /\ s !! i = Some c.
Proof.
  intros (Hp & Hi & _)%str_find_Some. destruct Hp as [k Hk]. assert (Hl : drop i s !! 0%nat = Some c) by (by rewrite Hk).
  rewrite lookup_drop, Nat.add_0_r in Hl. split; [by eapply lookup_lt_Some|done].
Qed.

Lemma split_tag_panics (tag : bytes) : split_tag tag = None <-> brackets_crossed tag.
Proof.
  unfold split_tag, brackets_crossed. destruct (str_find [91] tag) as [i|] eqn:Ei; [|split; [done|by intros (? & ? & ? & _)]].
  pose proof (str_find_lt _ _ _ Ei) as [Hi Ci]. destruct (str_find [93] tag) as [j|] eqn:Ej; cbn [from_option]; unfold id.
  - destruct (str_find_lt _ _ _ Ej) as [Hj Cj]. destruct (Nat.ltb_spec j (i + 1)) as [Hlt|Hge].
    + split; [|done]. intros _. exists i, j. split_and!; try done. destruct (decide (j = i)) as [->|]; [congruence|lia].
    + split; [done|]. intros (i' & j' & [= <-] & [= <-] & ?). lia.
  - rewrite (proj2 (Nat.ltb_ge _ _)) by lia. split; [done|]. by intros (? & ? & _ & ? & _).
Qed.

Section panics.
Context `{SyslogDates} `{LogPatterns}.

(** C38: Reading a message panics exactly when it is not in the newer format and
    either its sixteenth byte is inside a character or the text before the first
    colon after the host name holds a closing bracket before its first opening
    one. Whoever may send messages, or get text into them, chooses that. *)
Theorem syslog_panics_exactly (input : bytes) : let s := trim_newlines input in
  parse_syslog input = None <->
  exists pri rest, parse_pri s = Some (pri, rest) /\ (starts_with_digit rest = true -> parse_rfc5424 s = None) /\ (16 <= length rest)%nat /\
    (is_char_boundary 15 rest = false \/
     exists host after tag text, split_sp (drop_while (Z.eqb 32) (drop 15 rest)) = Some (host, after) /\ split_once 58 after = Some (tag, text) /\
       brackets_crossed tag).
Proof.
  intros s. unfold parse_syslog. fold s. destruct (parse_pri s) as [[pri rest]|] eqn:Ep; cbn [fmap option_fmap option_map from_option snd]; unfold id; cycle 1.
  { unfold parse_rfc3164. rewrite Ep. split; [done|by intros (? & ? & ? & _)]. }
  assert (H3164 : parse_rfc3164 s = None <-> (16 <= length rest)%nat /\ (is_char_boundary 15 rest = false \/
    exists host after tag text, split_sp (drop_while (Z.eqb 32) (drop 15 rest)) = Some (host, after) /\ split_once 58 after = Some (tag, text) /\
       brackets_crossed tag)).
  { unfold parse_rfc3164. rewrite Ep. destruct (Nat.ltb_spec (length rest) 16) as [Hl|Hl]; [split; [done|lia]|].
    unfold slice_to. destruct (is_char_boundary 15 rest); cbn [mbind option_bind]; [|split; [by auto|done]].
    destruct (split_sp _) as [[host after]|]; [|split; [done|]; intros [_ [?|(? & ? & ? & ? & ? & _)]]; done].
    destruct (split_once 58 after) as [[tag text]|] eqn:Ec; [|split; [done|]; intros [_ [?|(? & ? & ? & ? & [= <- <-] & ? & _)]]; congruence].
    destruct (split_tag tag) as [[app pid]|] eqn:Et; cbn [mbind option_bind].
    - split; [done|]. intros [_ [?|(? & ? & ? & ? & [= <- <-] & Et' & Hx)]]; [done|]. rewrite Ec in Et'. injection Et' as <- <-.
      apply split_tag_panics in Hx. congruence.
    - split; [|done]. intros _. split; [done|]. right. exists host, after, tag, text. split_and!; try done. by apply split_tag_panics. }
  destruct (starts_with_digit rest) eqn:Ed; [destruct (parse_rfc5424 s) as [m|] eqn:E5|].
  - split; [done|]. intros (? & ? & [= <- <-] & Hd & _). by specialize (Hd Ed).
  - rewrite H3164. split; [intros [? ?]; by exists pri, rest|]. intros (? & ? & [= <- <-] & _ & ? & ?). done.
  - rewrite H3164. split; [intros [? ?]; exists pri, rest; split_and!; try done; congruence|]. intros (? & ? & [= <- <-] & _ & ? & ?). done.
Qed.
End panics.

(** ** The loops over structured data end by themselves *)
Lemma sd_value_shorter (s : bytes) : (length (sd_value s).2 <= length s)%nat.
Proof.
  induction s as [s IH] using (induction_ltof1 _ length). unfold ltof in IH. destruct s as [|b s]; [done|].
  assert (Hb : (length (sd_value s).2 <= length s)%nat) by (apply IH; simpl; lia).
  destruct s as [|c s].
  - cbn [sd_value]. destruct b as [|p|p]; try (simpl; lia). do 7 (destruct p; try (simpl; lia)).
  - assert (Hc : (length (sd_value s).2 <= length s)%nat) by (apply IH; simpl; lia).
    destruct (decide (b = 92)) as [->|H92]; [cbn [sd_value]; destruct (sd_value s); simpl in *; lia|].
    destruct (decide (b = 34)) as [->|H34]; [simpl; lia|].
    assert (E : sd_value (b :: c :: s) = let '(v, r) := sd_value (c :: s) in (encode_char b ++ v, r)).
    { cbn [sd_value]. destruct b as [|p|p]; try done. do 7 (destruct p; try done). }
    rewrite E. destruct (sd_value (c :: s)); simpl in *; lia.
Qed.

Lemma strip_prefix_shorter (p s r : bytes) : strip_prefix p s = Some r -> s = p ++ r.
Proof.
  unfold strip_prefix. destruct (starts_with p s) eqn:E; [|done]. intros [= <-]. apply starts_with_spec in E as [k ->]. by rewrite drop_app_length.
Qed.

Lemma sd_params_fuel (f f' : nat) (rest : bytes) : (length rest <= f)%nat -> (length rest <= f')%nat ->
  sd_params_from f rest = sd_params_from f' rest /\ (length (sd_params_from f rest).2 <= length rest)%nat.
Proof.
  revert f' rest. induction f as [|f IH]; intros f' rest Hf Hf'; [destruct rest; [by destruct f'|simpl in Hf; lia]|].
  destruct rest as [|c r]; [by destruct f'|]. destruct f' as [|f']; [simpl in Hf'; lia|]. simpl in Hf, Hf'.
  destruct (decide (c = 32)) as [->|Hc]; [|cbn [sd_params_from]; destruct c as [|p|p]; try done; do 7 (destruct p; try done)].
  cbn [sd_params_from]. destruct (starts_with [93] r); [split; [done|simpl; lia]|].
  destruct (split_once 61 r) as [[name r2]|] eqn:Es; [|split; [done|simpl; lia]]. apply split_once_spec in Es as [-> _]. rewrite length_app in Hf, Hf'. simpl in Hf, Hf'.
  destruct (strip_prefix [34] r2) as [r3|] eqn:Eq; [|split; [done|simpl; rewrite length_app; simpl; lia]]. apply strip_prefix_shorter in Eq as ->. simpl in Hf, Hf'.
  pose proof (sd_value_shorter r3) as Hv. destruct (sd_value r3) as [v r4]. simpl in Hv.
  destruct (IH f' r4) as [E L]; [lia..|]. rewrite E in L |- *. destruct (sd_params_from f' r4) as [ps r5]. simpl in *.
  split; [done|]. rewrite length_app. simpl. lia.
Qed.

(** The elements are read until no further one begins: the fuel, the length of
    the text, never runs out. *)
Lemma sd_elements_exit (f : nat) (rest : bytes) : (length rest <= f)%nat -> starts_with [91] (sd_elements_from f rest).2 = false.
Proof.
  revert rest. induction f as [|f IH]; intros rest Hf; [destruct rest; [done|simpl in Hf; lia]|].
  destruct rest as [|c r]; [done|]. simpl in Hf.
  destruct (decide (c = 91)) as [->|Hc].
  - cbn [sd_elements_from]. set (id := before _ r). destruct (sd_params_fuel (length r) (length r) (drop (length id) r)) as [_ L]; [rewrite length_drop; lia..|].
    destruct (sd_params_from (length r) (drop (length id) r)) as [ps r1]. rewrite length_drop in L. simpl in L.
    assert (Hd : (length (default r1 (strip_prefix [93%Z] r1)) <= f)%nat).
    { destruct (strip_prefix [93] r1) as [r2|] eqn:E2; simpl; [|lia]. apply strip_prefix_shorter in E2 as ->. simpl in L. lia. }
    specialize (IH _ Hd). by destruct (sd_elements_from f _) as [es r2].
  - assert (E : sd_elements_from (S f) (c :: r) = ([], c :: r)) by (cbn [sd_elements_from]; destruct c as [|p|p]; try done; do 7 (destruct p; try done)).
    rewrite E. cbn [snd starts_with]. rewrite (proj2 (Z.eqb_neq 91 c)) by done. done.
Qed.

(** * Framing *)
(** The same on the bytes of the stream. *)
Definition line_of (s : bytes) : bytes := match str_find [10] s with Some i => take (S i) s | None => s end.
Fixpoint count_ref (fuel : nat) (digits s : bytes) : result (option (bytes * bytes)) frame_error :=
  match fuel with
  | O => Err BadOctetCount
  | S fuel' =>
      match s with
      | [] => Ok None
      | b :: s => if b =? 32 then Ok (Some (digits, s)) else if negb (is_ascii_digit b) then Err BadOctetCount
                  else if (10 <? length (digits ++ [b]))%nat then Err BadOctetCount else count_ref fuel' (digits ++ [b]) s
      end
  end.
Definition frame_ref (s : bytes) : result (option (bytes * bytes)) frame_error :=
  match s with
  | [] => Ok None
  | _ =>
      if negb (starts_with_digit s) then
        let line := line_of s in
        if (MAX_UDP_DATAGRAM <? length line)%nat then Err FrameTooLong
        else if valid_utf8 line then Ok (Some (line, drop (length line) s)) else Err FrameNotUtf8
      else
        match count_ref 11 [] s with
        | Err e => Err e
        | Ok None => Ok None
        | Ok (Some (digits, s)) =>
            match parse_uint u64_max digits with
            | None => Err BadOctetCount
            | Some count =>
                if Z.of_nat MAX_UDP_DATAGRAM <? count then Err FrameTooLong
                else if (Z.to_nat count <=? length s)%nat then Ok (Some (from_utf8_lossy (take (Z.to_nat count) s), drop (Z.to_nat count) s))
                else Err FrameEof
            end
        end
  end.

(** What is left, as bytes. *)
Definition whole (r : result (option (bytes * stream)) frame_error) : result (option (bytes * bytes)) frame_error :=
  match r with Ok (Some (l, s)) => Ok (Some (l, concat s)) | Ok None => Ok None | Err e => Err e end.
Definition pieces (s : stream) : Prop := Forall (fun b => b <> []) s.

Lemma consume_concat (n : nat) (buf : bytes) (s : stream) : concat (consume n buf s) = drop n buf ++ concat s.
Proof. unfold consume. by destruct (drop n buf). Qed.
Lemma consume_pieces (n : nat) (buf : bytes) (s : stream) : pieces s -> pieces (consume n buf s).
Proof. unfold consume. intros Hs. destruct (drop n buf) eqn:E; [done|]. by constructor. Qed.

Lemma str_find_app_l (c : Z) (s t : bytes) (i : nat) : str_find [c] s = Some i -> str_find [c] (s ++ t) = Some i.
Proof.
  revert i. induction s as [|x s IH]; intros i; cbn [str_find starts_with app]; [done|]. destruct (c =? x) eqn:E; cbn [andb]; [done|].
  intros (j & Hj & ->)%fmap_Some. by rewrite (IH _ Hj).
Qed.
Lemma str_find_app_r (c : Z) (s t : bytes) : str_find [c] s = None -> str_find [c] (s ++ t) = Nat.add (length s) <$> str_find [c] t.
Proof.
  induction s as [|x s IH]; cbn [str_find starts_with app length]; intros Hn.
  - destruct (str_find [c] t); done.
  - destruct (c =? x); cbn [andb] in *; [done|]. apply fmap_None in Hn. rewrite (IH Hn). by destruct (str_find [c] t).
Qed.

Lemma read_line_whole (s : stream) (acc : bytes) : (length acc <= MAX_UDP_DATAGRAM)%nat ->
  let line := line_of (concat s) in
  match read_line_from acc s with
  | Ok (l, r) => (length acc + length line <= MAX_UDP_DATAGRAM)%nat /\ l = acc ++ line /\ concat r = drop (length line) (concat s)
  | Err e => (MAX_UDP_DATAGRAM < length acc + length line)%nat /\ e = FrameTooLong
  end.
Proof.
  revert acc. induction s as [|buf s IH]; intros acc Ha; cbn [read_line_from concat].
  - unfold line_of. cbn. rewrite app_nil_r. split; [lia|done].
  - destruct (str_find [10] buf) as [i|] eqn:Ei.
    + unfold line_of. rewrite (str_find_app_l _ _ _ _ Ei). destruct (str_find_lt _ _ _ Ei) as [Hi _].
      assert (Hl : length (take (S i) (buf ++ concat s)) = S i) by (rewrite length_take, length_app; lia). rewrite Hl.
      destruct (Nat.ltb_spec MAX_UDP_DATAGRAM (length acc + S i)) as [Hgt|Hle]; [done|]. split; [done|].
      rewrite take_app_le, consume_concat, drop_app_le by lia. done.
    + assert (Hlo : line_of (buf ++ concat s) = buf ++ line_of (concat s)).
      { unfold line_of. rewrite (str_find_app_r _ _ _ Ei). destruct (str_find [10] (concat s)) as [j|]; cbn [fmap option_fmap option_map]; [|done].
        rewrite <- Nat.add_succ_r, take_app_add. done. }
      rewrite Hlo, length_app. destruct (Nat.ltb_spec MAX_UDP_DATAGRAM (length acc + length buf)) as [Hgt|Hle]; [split; [lia|done]|].
      specialize (IH (acc ++ buf)). rewrite length_app in IH. specialize (IH Hle). destruct (read_line_from (acc ++ buf) s) as [[l r]|e].
      * destruct IH as (H1 & -> & ->). split; [lia|]. rewrite <- (assoc_L (++)). split; [done|]. by rewrite drop_app_add.
      * destruct IH as [H1 ->]. split; [lia|done].
Qed.

Lemma next_byte_whole (s : stream) : pieces s ->
  match next_byte s with
  | Some (b, s') => concat s = b :: concat s' /\ pieces s'
  | None => concat s = []
  end.
Proof.
  destruct s as [|[|b buf] s]; intros Hs; cbn [next_byte]; [done|by apply Forall_cons in Hs as [? _]|].
  apply Forall_cons in Hs as [_ Hs]. rewrite consume_concat. split; [done|by apply consume_pieces].
Qed.

Lemma read_count_whole (f : nat) (digits : bytes) (s : stream) : pieces s ->
  match read_count f digits s with
  | Ok (Some (ds, s')) => count_ref f digits (concat s) = Ok (Some (ds, concat s')) /\ pieces s'
  | Ok None => count_ref f digits (concat s) = Ok None
  | Err e => count_ref f digits (concat s) = Err e
  end.
Proof.
  revert digits s. induction f as [|f IH]; intros digits s Hs; cbn [read_count count_ref]; [done|].
  pose proof (next_byte_whole s Hs) as Hn. destruct (next_byte s) as [[b s']|]; [destruct Hn as [-> Hs']|by rewrite Hn].
  destruct (b =? 32); [done|]. destruct (negb (is_ascii_digit b)); [done|]. destruct (10 <? _)%nat; [done|]. by apply IH.
Qed.

Lemma read_exact_whole (n : nat) (acc : bytes) (s : stream) :
  match read_exact_from n acc s with
  | Some (bs, s') => (n <= length (concat s))%nat /\ bs = acc ++ take n (concat s) /\ concat s' = drop n (concat s)
  | None => (length (concat s) < n)%nat
  end.
Proof.
  revert n acc. induction s as [|buf s IH]; intros n acc; cbn [read_exact_from concat].
  - destruct (Nat.eqb_spec n 0) as [->|]; cbn; [by rewrite app_nil_r|lia].
  - destruct (Nat.eqb_spec n 0) as [->|Hn]; [rewrite take_0, drop_0, app_nil_r; split; [lia|done]|]. rewrite length_app.
    destruct (Nat.leb_spec n (length buf)) as [Hle|Hgt]; [rewrite consume_concat, take_app_le, drop_app_le by lia; split; [lia|done]|].
    specialize (IH (n - length buf)%nat (acc ++ buf)). destruct (read_exact_from _ _ s) as [[bs s']|]; [|lia]. destruct IH as (Hl & -> & ->).
    rewrite take_app_ge, drop_app_ge, (assoc_L (++)) by lia. split; [lia|done].
Qed.

Lemma read_line_pieces (s : stream) (acc : bytes) (l : bytes) (r : stream) : pieces s -> read_line_from acc s = Ok (l, r) -> pieces r.
Proof.
  revert acc. induction s as [|buf s IH]; intros acc Hs; cbn [read_line_from]; [by intros [= _ <-]|]. apply Forall_cons in Hs as [_ Hs].
  destruct (str_find [10] buf) as [i|]; destruct (_ <? _)%nat; try done; [intros [= _ <-]; by apply consume_pieces|by apply IH].
Qed.
Lemma read_exact_pieces (n : nat) (acc : bytes) (s : stream) (bs : bytes) (r : stream) : pieces s -> read_exact_from n acc s = Some (bs, r) -> pieces r.
Proof.
  revert n acc. induction s as [|buf s IH]; intros n acc Hs; cbn [read_exact_from]; destruct (n =? 0)%nat; try done; [by intros [= _ <-]..|].
  apply Forall_cons in Hs as [_ Hs]. destruct (n <=? _)%nat; [intros [= _ <-]; by apply consume_pieces|by apply IH].
Qed.
Lemma read_frame_pieces (s : stream) (l : bytes) (r : stream) : pieces s -> read_syslog_frame s = Ok (Some (l, r)) -> pieces r.
Proof.
  intros Hs. unfold read_syslog_frame. destruct s as [|buf s]; [done|]. destruct (negb _).
  - destruct (read_line_from [] _) as [[l' r']|] eqn:E; [|done]. destruct (valid_utf8 l'); [|done]. intros [= _ <-]. by eapply read_line_pieces.
  - pose proof (read_count_whole 11 [] _ Hs) as Hc. destruct (read_count 11 [] _) as [[[ds s']|]|]; try done. destruct Hc as [_ Hs'].
    destruct (parse_uint u64_max ds) as [count|]; [|done]. destruct (_ <? count); [done|].
    destruct (read_exact_from _ [] s') as [[bs r']|] eqn:E; [|done]. intros [= _ <-]. by eapply read_exact_pieces.
Qed.

(** A frame read from the pieces is the frame at the start of their
    concatenation, in either framing and for every error. *)
Lemma read_frame_whole (s : stream) : pieces s -> whole (read_syslog_frame s) = frame_ref (concat s).
Proof.
  intros Hs. destruct s as [|buf s]; [done|]. destruct buf as [|c buf]; [by apply Forall_cons in Hs as [? _]|].
  unfold read_syslog_frame, frame_ref. cbn [concat app]. change (c :: buf ++ concat s) with (concat ((c :: buf) :: s)).
  change (starts_with_digit (concat ((c :: buf) :: s))) with (starts_with_digit (c :: buf)). destruct (starts_with_digit (c :: buf)); cbn [negb].
  - pose proof (read_count_whole 11 [] _ Hs) as Hc. destruct (read_count 11 [] _) as [[[ds s']|]|e]; [destruct Hc as [-> Hs']|by rewrite Hc..].
    destruct (parse_uint u64_max ds) as [count|]; [|done]. destruct (_ <? count); [done|].
    pose proof (read_exact_whole (Z.to_nat count) [] s') as Hx. destruct (read_exact_from _ _ s') as [[bs s2]|].
    + destruct Hx as (Hl & -> & E). cbn [whole app]. rewrite (proj2 (Nat.leb_le _ _) Hl), E. done.
    + rewrite (proj2 (Nat.leb_gt _ _) Hx). done.
  - pose proof (read_line_whole ((c :: buf) :: s) [] (Nat.le_0_l _)) as Hl. cbv zeta in Hl. destruct (read_line_from [] _) as [[l r]|e].
    + destruct Hl as (Hl & -> & E). cbn [length app Nat.add] in Hl |- *. rewrite (proj2 (Nat.ltb_ge _ _) Hl). destruct (valid_utf8 _); [|done].
      cbn [whole]. by rewrite E.
    + destruct Hl as [Hl ->]. cbn [length Nat.add] in Hl. by rewrite (proj2 (Nat.ltb_lt _ _) Hl).
Qed.

(** A message after its length in decimal, as a sender frames it. *)
Definition counted (p : bytes * bytes) : Prop :=
  p.1 <> [] /\ (length p.1 <= 10)%nat /\ parse_digits 0 p.1 = Some (Z.of_nat (length p.2)) /\ (length p.2 <= MAX_UDP_DATAGRAM)%nat /\ valid_utf8 p.2 = true.
Definition frames (ps : list (bytes * bytes)) : bytes := '(ds, msg) ← ps; ds ++ 32 :: msg.

Lemma count_ref_digits (f : nat) (pre ds s : bytes) : Forall (fun c => is_ascii_digit c = true) ds -> (length ds < f)%nat ->
  (length pre + length ds <= 10)%nat -> count_ref f pre (ds ++ 32 :: s) = Ok (Some (pre ++ ds, s)).
Proof.
  revert pre ds. induction f as [|f IH]; intros pre ds Hd Hf Hl; [lia|]. destruct ds as [|d ds]; cbn [count_ref app]; [by rewrite app_nil_r|].
  apply Forall_cons in Hd as [H1 Hd]. cbn [length] in Hf, Hl. rewrite H1. destruct (Z.eqb_spec d 32) as [->|_]; [done|]. cbn [negb].
  rewrite length_app. cbn [length]. rewrite (proj2 (Nat.ltb_ge _ _)) by lia. rewrite IH; [by rewrite <- (assoc_L (++))|done|lia|rewrite length_app; simpl; lia].
Qed.

Lemma frame_ref_counted (ds msg rest : bytes) : counted (ds, msg) -> frame_ref (ds ++ 32 :: msg ++ rest) = Ok (Some (msg, rest)).
Proof.
  intros (Hne & Hl & Hp & Hm & Hv). cbn [fst snd] in *. pose proof (parse_digits_digits _ _ _ Hp) as Hd.
  assert (Hu : parse_uint u64_max ds = Some (Z.of_nat (length msg))).
  { unfold parse_uint. destruct ds as [|d ds]; [done|]. apply Forall_cons in Hd as [Hd _].
    assert (Hs : match d :: ds with 43 :: ((_ :: _) as s') => s' | _ => d :: ds end = d :: ds).
    { destruct d as [|p|p]; try done. do 6 (destruct p; try done). }
    rewrite Hs, Hp, (proj2 (Z.leb_le _ _)); [done|]. apply Nat2Z.inj_le in Hm. unfold MAX_UDP_DATAGRAM in Hm. rewrite Z2Nat.id in Hm by done. etrans; [exact Hm|done]. }
  unfold frame_ref. destruct ds as [|d ds]; [done|]. change ((d :: ds) ++ 32 :: msg ++ rest) with (d :: ds ++ 32 :: msg ++ rest) at 1.
  assert (starts_with_digit ((d :: ds) ++ 32 :: msg ++ rest) = true) as -> by (by apply Forall_cons in Hd as [? _]). cbn [negb app].
  change (d :: ds ++ 32 :: msg ++ rest) with ((d :: ds) ++ 32 :: msg ++ rest). rewrite count_ref_digits; [|done|apply Nat.lt_succ_r, Hl|exact Hl].
  cbn [app]. rewrite Hu, (proj2 (Z.ltb_ge _ _)) by (by apply Nat2Z.inj_le). rewrite Nat2Z.id.
  rewrite (proj2 (Nat.leb_le _ _)) by (rewrite length_app; lia). by rewrite take_app_length, drop_app_length, from_utf8_lossy_id.
Qed.

Section connections.
Context `{IpNetOps} `{AddrText} `{LogPatterns} `{SshPatterns} `{NetdevPatterns} `{RouteRegex} `{SyslogDates}.
Variables (now : DateTime) (routes : list CompiledRoute) (source_name : string) (peer : IpAddr).


Lemma tcp_counted (ps : list (bytes * bytes)) (fuel : nat) (s : stream) : Forall counted ps -> pieces s -> concat s = frames ps ->
  (length ps < fuel)%nat -> Forall (fun p => parse_and_route now routes source_name peer p.2 <> Panicked) ps ->
  tcp_connection fuel now routes source_name peer s = (fun p => parse_and_route now routes source_name peer p.2) <$> ps.
Proof.
  intros Hps. revert fuel s. induction Hps as [|[ds msg] ps Hp Hps IH]; intros fuel s Hs E Hf Hn; (destruct fuel as [|f]; [simpl in Hf; lia|]); cbn [tcp_connection].
  - pose proof (read_frame_whole s Hs) as W. rewrite E in W. cbn in W. by destruct (read_syslog_frame s) as [[[]|]|].
  - cbn [frames mbind list_bind] in E. rewrite <- (assoc_L (++)) in E. cbn [app] in E. pose proof (read_frame_whole s Hs) as W.
    rewrite E, (frame_ref_counted _ _ _ Hp) in W. destruct (read_syslog_frame s) as [[[l r]|]|] eqn:Er; try done. injection W as -> Er'.
    apply Forall_cons in Hn as [Hn1 Hn]. cbn [fmap list_fmap snd] in *. rewrite (IH f r); [|by eapply read_frame_pieces|done|simpl in Hf; lia|done].
    by destruct (parse_and_route now routes source_name peer msg).
Qed.

(** Every message a sender frames by its length comes out as it went in, in
    order, however the stream is cut: none is lost, joined or split, whatever
    line ends or digits it holds. *)
Theorem counted_frames_delivered (ps : list (bytes * bytes)) (s : stream) : Forall counted ps -> pieces s -> concat s = frames ps ->
  Forall (fun p => parse_and_route now routes source_name peer p.2 <> Panicked) ps ->
  tcp_connection (S (length ps)) now routes source_name peer s = (fun p => parse_and_route now routes source_name peer p.2) <$> ps.
Proof. intros. by apply tcp_counted; [..|lia|]. Qed.
End connections.

(** * The datagram source *)
(** What a sender may still have handled before the table resets its count
    again, in a span that begins at [lo] and is shorter than a second. *)
Definition allowance (lo : Z) (ip : IpAddr) (r : RateLimiter) : Z :=
  match rl_counts r !! ip with
  | None => rl_limit_per_sec r
  | Some (n, t) => Z.max 0 (rl_limit_per_sec r - n) + (if t <? lo then rl_limit_per_sec r else 0)
  end.
Definition rate_ok (r : RateLimiter) : Prop :=
  rl_limit_per_sec r = UDP_RATE_LIMIT_PER_IP /\ (size (rl_counts r) <= MAX_TRACKED_UDP_SENDERS)%nat /\
  forall ip n t, rl_counts r !! ip = Some (n, t) -> 0 <= n.

Lemma rate_prune_ok (now : Z) (r : RateLimiter) : rate_ok r -> rate_ok (rate_prune now r).
Proof.
  intros (Hl & Hs & Hn). split_and!; [done|..].
  - etrans; [|exact Hs]. apply map_subseteq_size, map_filter_subseteq.
  - intros ip n t [E _]%map_lookup_filter_Some. by eapply Hn.
Qed.
Lemma rate_allow_ok (now : Z) (ip : IpAddr) (r : RateLimiter) : rate_ok r -> rate_ok (rate_allow now ip r).1.
Proof.
  intros (Hl & Hs & Hn). unfold rate_allow. destruct (rl_counts r !! ip) as [[n t]|] eqn:E.
  - pose proof (Hn _ _ _ E). destruct (1 <=? _); (split_and!; [done|simpl; rewrite map_size_insert_Some; [done|by exists (n, t)]|]); simpl;
      intros ip' n' t'; destruct (decide (ip = ip')) as [->|Hne]; rewrite ?lookup_insert_eq, ?lookup_insert_ne by done; try apply Hn; intros [= <- _]; lia.
  - destruct (Nat.leb_spec MAX_TRACKED_UDP_SENDERS (size (rl_counts r))) as [Hf|Hf]; [done|].
    split_and!; [done|simpl; rewrite map_size_insert_None by done; lia|]. simpl. intros ip' n' t'.
    destruct (decide (ip = ip')) as [->|Hne]; rewrite ?lookup_insert_eq, ?lookup_insert_ne by done; [intros [= <- _]; lia|apply Hn].
Qed.

Lemma whole_secs_short (now t lo hi : Z) : hi - lo < nanos_per_sec -> lo <= now <= hi -> lo <= t -> whole_secs now t < 1.
Proof. intros. unfold whole_secs, saturating_sub, nanos_per_sec in *. apply Z.div_lt_upper_bound; lia. Qed.

Lemma rate_prune_allowance (lo hi now : Z) (ip : IpAddr) (r : RateLimiter) : hi - lo < nanos_per_sec -> lo <= now <= hi -> rate_ok r ->
  allowance lo ip (rate_prune now r) <= allowance lo ip r.
Proof.
  intros Hw Hnow (Hl & _ & Hn). unfold allowance, rate_prune. cbn [rl_counts set_counts rl_limit_per_sec].
  destruct (rl_counts r !! ip) as [[n t]|] eqn:E.
  - rewrite (map_lookup_filter _ _ ip), E. cbn [mbind option_bind]. destruct (decide (whole_secs now t < 10)) as [Hd|Hd].
    + rewrite option_guard_True by done. done.
    + rewrite option_guard_False by done. cbn [mbind option_bind]. destruct (Z.ltb_spec t lo) as [Ht|Ht]; [rewrite Hl; unfold UDP_RATE_LIMIT_PER_IP; lia|].
      pose proof (whole_secs_short now t lo hi Hw Hnow Ht). lia.
  - rewrite (map_lookup_filter _ _ ip), E. done.
Qed.

Lemma rate_allow_allowance (lo hi now : Z) (ip sender : IpAddr) (r : RateLimiter) : hi - lo < nanos_per_sec -> lo <= now <= hi -> rate_ok r ->
  (if (rate_allow now sender r).2 && bool_decide (sender = ip) then 1 else 0) + allowance lo ip (rate_allow now sender r).1 <= allowance lo ip r.
Proof.
  intros Hw Hnow (Hl & _ & Hn). unfold rate_allow, allowance. destruct (decide (sender = ip)) as [->|Hne].
  - rewrite bool_decide_eq_true_2 by done. rewrite Hl. unfold UDP_RATE_LIMIT_PER_IP. destruct (rl_counts r !! ip) as [[n t]|] eqn:E.
    + pose proof (Hn _ _ _ E). destruct (Z.leb_spec 1 (whole_secs now t)) as [Hs|Hs]; cbn [fst snd rl_counts set_counts rl_limit_per_sec andb];
        rewrite lookup_insert_eq, Hl; unfold UDP_RATE_LIMIT_PER_IP.
      * destruct (Z.ltb_spec t lo) as [Ht|Ht]; [rewrite (proj2 (Z.ltb_ge now lo)) by lia; lia|].
        pose proof (whole_secs_short now t lo hi Hw Hnow Ht). lia.
      * destruct (Z.leb_spec (n + 1) 10000), (t <? lo); cbn [andb]; lia.
    + destruct (_ <=? _)%nat; cbn [fst snd rl_counts set_counts rl_limit_per_sec andb]; [rewrite E, Hl; unfold UDP_RATE_LIMIT_PER_IP; lia|].
      rewrite lookup_insert_eq, Hl. unfold UDP_RATE_LIMIT_PER_IP. rewrite (proj2 (Z.ltb_ge now lo)) by lia. simpl. lia.
  - rewrite (bool_decide_eq_false_2 _ Hne), andb_false_r. destruct (rl_counts r !! sender) as [[n t]|]; [destruct (1 <=? _)|destruct (_ <=? _)%nat];
      cbn [fst rl_counts set_counts rl_limit_per_sec]; rewrite ?lookup_insert_ne by done; lia.
Qed.

Section datagrams.
Context `{IpNetOps} `{AddrText} `{LogPatterns} `{SshPatterns} `{NetdevPatterns} `{RouteRegex} `{SyslogDates}.
Variables (routes : list CompiledRoute) (senders : SenderPolicy) (source_name : string).

(** A datagram with the two clocks as it arrives. *)
Record datagram : Type := { dg_now : DateTime; dg_tick : Z; dg_bytes : bytes; dg_sender : IpAddr }.
Definition udp_recv (d : datagram) (u : UdpSource) : UdpSource * receipt :=
  udp_step (dg_now d) (dg_tick d) routes senders source_name (dg_bytes d) (dg_sender d) u.
Definition udp_run (ds : list datagram) (u : UdpSource) : UdpSource := foldl (fun u d => (udp_recv d u).1) u ds.
Definition is_handled (r : receipt) : bool := match r with Ignored => false | _ => true end.
(** How many datagrams of a sender are parsed. *)
Fixpoint handled (ip : IpAddr) (ds : list datagram) (u : UdpSource) : Z :=
  match ds with
  | [] => 0
  | d :: ds => let '(u', r) := udp_recv d u in (if is_handled r && bool_decide (dg_sender d = ip) then 1 else 0) + handled ip ds u'
  end.

Lemma udp_recv_ok (d : datagram) (u : UdpSource) : rate_ok (us_rate u) -> rate_ok (us_rate (udp_recv d u).1).
Proof.
  intros Hr. unfold udp_recv, udp_step. destruct (allows senders (dg_sender d)); cbn [negb]; [|done]. set (rate := if _ =? 0 then _ else _).
  assert (Hok : rate_ok rate) by (unfold rate; case_match; [by apply rate_prune_ok|done]). pose proof (rate_allow_ok (dg_tick d) (dg_sender d) rate Hok) as Ha.
  destruct (rate_allow (dg_tick d) (dg_sender d) rate) as [rate' ok]. by destruct (negb ok), (negb (valid_utf8 (dg_bytes d))).
Qed.
Lemma udp_run_ok (ds : list datagram) (u : UdpSource) : rate_ok (us_rate u) -> rate_ok (us_rate (udp_run ds u)).
Proof. revert u. induction ds as [|d ds IH]; intros u Hu; [done|]. apply IH, udp_recv_ok, Hu. Qed.
Lemma udp_new_ok : rate_ok (us_rate udp_new).
Proof. split_and!; [done|apply Nat.le_0_l|]. intros ip n t E. cbn in E. by rewrite lookup_empty in E. Qed.

Lemma udp_recv_allowance (lo hi : Z) (ip : IpAddr) (d : datagram) (u : UdpSource) : hi - lo < nanos_per_sec -> lo <= dg_tick d <= hi ->
  rate_ok (us_rate u) ->
  (if is_handled (udp_recv d u).2 && bool_decide (dg_sender d = ip) then 1 else 0) + allowance lo ip (us_rate (udp_recv d u).1) <= allowance lo ip (us_rate u).
Proof.
  intros Hw Ht Hr. unfold udp_recv, udp_step. destruct (allows senders (dg_sender d)); cbn [negb]; [|simpl; lia]. set (rate := if _ =? 0 then _ else _).
  assert (rate_ok rate /\ allowance lo ip rate <= allowance lo ip (us_rate u)) as [Hok Hle].
  { unfold rate. case_match; [split; [by apply rate_prune_ok|by apply (rate_prune_allowance lo hi)]|by split]. }
  pose proof (rate_allow_allowance lo hi (dg_tick d) ip (dg_sender d) rate Hw Ht Hok) as Ha.
  destruct (rate_allow (dg_tick d) (dg_sender d) rate) as [rate' ok]. cbn [fst snd] in Ha.
  destruct ok, (valid_utf8 (dg_bytes d)), (bool_decide _); cbn [negb fst snd is_handled andb us_rate] in *; try lia; case_match; lia.
Qed.

Lemma handled_allowance (lo hi : Z) (ip : IpAddr) (ds : list datagram) (u : UdpSource) : hi - lo < nanos_per_sec ->
  Forall (fun d => lo <= dg_tick d <= hi) ds -> rate_ok (us_rate u) -> handled ip ds u <= allowance lo ip (us_rate u).
Proof.
  intros Hw Hds. revert u. induction Hds as [|d ds Hd _ IH]; intros u Hu; cbn [handled].
  - destruct Hu as (Hl & _ & Hn). unfold allowance. rewrite Hl. unfold UDP_RATE_LIMIT_PER_IP. repeat case_match; lia.
  - pose proof (udp_recv_allowance lo hi ip d u Hw Hd Hu) as Ha. pose proof (udp_recv_ok d u Hu) as Hu'. specialize (IH _ Hu').
    destruct (udp_recv d u) as [u' r]. cbn [fst snd] in *. lia.
Qed.

Lemma handled_refused (ip : IpAddr) (ds : list datagram) (u : UdpSource) : allows senders ip = false -> handled ip ds u = 0.
Proof.
  intros Ha. revert u. induction ds as [|d ds IH]; intros u; cbn [handled]; [done|]. destruct (udp_recv d u) as [u' r] eqn:E. rewrite IH.
  case_bool_decide as Hd; [|by rewrite andb_false_r]. unfold udp_recv, udp_step in E. rewrite Hd, Ha in E. by injection E as <- <-.
Qed.

(** After any datagrams from any senders, in any order: at most ten thousand
    senders are remembered; of no sender are more than twenty thousand datagrams
    parsed within a second, and of one outside the allowed networks none ever
    is. *)
Theorem udp_flood_bounded (before ds : list datagram) (ip : IpAddr) (lo hi : Z) : hi - lo < nanos_per_sec ->
  Forall (fun d => lo <= dg_tick d <= hi) ds -> let u := udp_run before udp_new in
  (size (rl_counts (us_rate u)) <= MAX_TRACKED_UDP_SENDERS)%nat /\
  handled ip ds u <= if allows senders ip then 2 * UDP_RATE_LIMIT_PER_IP else 0.
Proof.
  intros Hw Hds u. pose proof (udp_run_ok before _ udp_new_ok) as Hu. fold u in Hu. split; [apply Hu|].
  destruct (allows senders ip) eqn:Ha; [|by rewrite handled_refused].
  etrans; [by apply (handled_allowance lo hi)|]. destruct Hu as (Hl & _ & Hn). unfold allowance. rewrite Hl. unfold UDP_RATE_LIMIT_PER_IP.
  destruct (rl_counts (us_rate u) !! ip) as [[n t]|] eqn:E; [pose proof (Hn _ _ _ E); case_match; lia|lia].
Qed.
End datagrams.

(** ** Witnesses *)
Module SyslogSample.
#[local] Existing Instance ipnet_ref.
#[local] Instance addr : AddrText := {| parse_ip s := if bool_decide (s = as_bytes "0.0.0.7") then Some (IpV4 7) else None; parse_net _ := None |}.
#[local] Instance logs : LogPatterns := {|
  nginx_captures _ := None; parse_nginx_timestamp _ := None; parse_syslog_timestamp _ := None; syslog_timestamp_capture _ := None;
  sasl_warning_captures _ := None; sasl_login_failed_capture _ := None |}.
#[local] Instance ssh : SshPatterns := {| envelope_captures _ := None; connection_captures _ := None; fingerprint_is_match _ := false |}.
#[local] Instance devices : NetdevPatterns := {| asa_captures _ := None; pf_classic_captures _ := None |}.
#[local] Instance regexes : RouteRegex := {| re_new _ := Ok tt; re_is_match _ _ := false; re_captures _ _ := None |}.
#[local] Instance dates : SyslogDates := {| parse_rfc3339 _ := None |}.

Definition peer : IpAddr := IpV4 (ipv4 127 0 0 1).
Definition handle : bytes -> receipt := parse_and_route 0 [] "syslog" peer.

Definition m1 : bytes := as_bytes "<34>Oct 11 22:14:15 web app[42]: denied src=0.0.0.7".
Definition m2 : bytes := as_bytes "<34>1 - web app - - [x@1 k=@] refused from 0.0.0.7".

(** The sender's address is only used where the text names none. *)
Example address_of_text : match handle m1, handle m2 with Event e1, Event e2 => ev_source_ip e1 = IpV4 7 /\ ev_source_ip e2 = IpV4 7 | _, _ => False end.
Proof. by vm_compute. Qed.

(** One datagram ends the task that reads them. *)
Example datagram_panics : handle (as_bytes "<34>Oct 11 22:14:15 web a]b[c: x") = Panicked.
Proof. by vm_compute. Qed.

Definition ps : list (bytes * bytes) := [(as_bytes "51", m1); (as_bytes "0050", m2)].
(** The bytes one at a time, or cut inside the first length. *)
Definition cut1 : stream := (fun b => [b]) <$> frames ps.
Definition cut2 : stream := [take 1 (frames ps); drop 1 (frames ps)].

Lemma counted_check (ds msg : bytes) : negb (bool_decide (ds = [])) && (length ds <=? 10)%nat && bool_decide (parse_digits 0 ds = Some (Z.of_nat (length msg)))
  && (Z.of_nat (length msg) <=? 65535) && valid_utf8 msg = true -> counted (ds, msg).
Proof.
  rewrite !andb_true_iff, negb_true_iff, Nat.leb_le, Z.leb_le, bool_decide_eq_true, bool_decide_eq_false.
  intros ((((? & ?) & ?) & Hm) & ?). split_and!; try done. cbn [snd]. apply Nat2Z.inj_le. unfold MAX_UDP_DATAGRAM. by rewrite Z2Nat.id.
Qed.

Lemma cuts : pieces cut1 /\ pieces cut2 /\ concat cut1 = concat cut2 /\ concat cut1 = frames ps.
Proof. split_and!; [by apply (bool_decide_unpack _); vm_compute..|by vm_compute|by vm_compute]. Qed.


Lemma counted_frames_delivered_witness : tcp_connection 3 0 [] "syslog" peer cut1 = [handle m1; handle m2].
Proof.
  refine (counted_frames_delivered 0 [] "syslog" peer ps cut1 _ (proj1 cuts) (proj2 (proj2 (proj2 cuts))) _).
  - by repeat (constructor; [apply counted_check; by vm_compute|]).
  - repeat constructor; by vm_compute.
Defined.

Definition d : datagram := {| dg_now := 0; dg_tick := 5; dg_bytes := m1; dg_sender := peer |}.
Definition local_only : SenderPolicy := policy_new None false.
Lemma udp_flood_bounded_witness : handled [] local_only "syslog" peer [d; d] udp_new = 2 /\
  handled [] local_only "syslog" peer [d; d] (udp_run [] local_only "syslog" [] udp_new) <= 20000.
Proof.
  split; [by vm_compute|]. refine (proj2 (udp_flood_bounded [] local_only "syslog" [] [d; d] peer 0 10 _ _)); [done|].
  repeat constructor; by vm_compute.
Defined.
End SyslogSample.
