(* ===== verification/PluginConfig.v ===== *)
(** * Configuration of the detector plugins

    [plugins/detector-*/src/lib.rs]: what turns the configuration of a plugin
    into a detector: the options with their defaults ([from_config]) and the
    validation of [init]. The daemon builds its detectors in no other way.
    [PluginError] is [hiveguard-plugin-api/src/error.rs]; reading the options
    from a JSON value is [serde]'s, the parameter [FromValue]. *)
From S2P Require Import Prelude Text Models Floats Detector Bruteforce HttpRate Probes PortScan Crawl Campaign Webshell Timing Entropy.
Local Open Scope Z_scope.

Inductive PluginError : Type :=
| ConfigValidation (msg : string)
| MissingConfig (field : string)
| PInit (msg : string)
| PRuntime (msg : string)
| PNotFound (msg : string)
| PSecret (msg : string)
| PIo (msg : string)
| PJson (msg : string)
| PApiVersionMismatch (plugin host : Z)
| POther (msg : string)
| PBusy (msg : string).

Definition map_err {A E F} (f : E -> F) (r : result A E) : result A F :=
  match r with Ok a => Ok a | Err e => Err (f e) end.

(** [serde_json::from_value] *)
Class FromValue (V C : Type) : Type := from_value : V -> result C string.

(** [init]: read, validate, build; [create] starts from the default detector and
    returns the plugin only when [init] succeeds. *)
Definition init_plugin {V C D} `{FromValue V C} (validate : C -> result unit PluginError) (from_config : C -> D) (v : V)
    : result D PluginError :=
  let? cfg := map_err ConfigValidation (from_value v) in
  let? _ := validate cfg in
  Ok (from_config cfg).

Definition no_checks {C} (_ : C) : result unit PluginError := Ok tt.
Definition check_v6 (key : string) (prefix : Z) : result unit PluginError := map_err ConfigValidation (validate_ipv6_prefix key prefix).
Definition check_v4 (key : string) (prefix : Z) : result unit PluginError := map_err ConfigValidation (validate_v4_subnet_prefix key prefix).

(** ** SSH and SMTP logins, HTTP errors *)
Record SshConfig : Type := {
  shc_threshold : option Z; shc_window_secs : option Z; shc_ban_duration_secs : option Z;
  shc_enum_threshold : option Z; shc_enum_window_secs : option Z; shc_enum_ban_duration_secs : option Z;
  shc_ipv6_prefix : option Z;
}.
Definition ssh_from_config (cfg : SshConfig) : SshBruteforceDetector :=
  ssh_with_ipv6_prefix (default DEFAULT_IPV6_PREFIX (shc_ipv6_prefix cfg))
    (ssh_with_config (default 5 (shc_threshold cfg)) (secs (default 300 (shc_window_secs cfg)))
       (secs (default 86400 (shc_ban_duration_secs cfg))) (default 3 (shc_enum_threshold cfg))
       (secs (default 120 (shc_enum_window_secs cfg))) (secs (default 172800 (shc_enum_ban_duration_secs cfg)))).
Definition ssh_validate (cfg : SshConfig) : result unit PluginError :=
  check_v6 "ipv6_prefix" (default DEFAULT_IPV6_PREFIX (shc_ipv6_prefix cfg)).

Record SmtpConfig : Type := { smc_threshold : option Z; smc_window_secs : option Z; smc_ban_duration_secs : option Z }.
Definition smtp_from_config (cfg : SmtpConfig) : SmtpBruteforceDetector :=
  smtp_with_config (default 5 (smc_threshold cfg)) (secs (default 300 (smc_window_secs cfg)))
    (secs (default 86400 (smc_ban_duration_secs cfg))).

Record Http4xxConfig : Type := { fxc_threshold : option Z; fxc_window_secs : option Z; fxc_ban_duration_secs : option Z }.
Definition fx_from_config (cfg : Http4xxConfig) : Http4xxFloodDetector :=
  fx_with_config (default 50 (fxc_threshold cfg)) (secs (default 60 (fxc_window_secs cfg)))
    (secs (default 3600 (fxc_ban_duration_secs cfg))).

(** ** Floods and web logins *)
Record HttpFloodConfig : Type := {
  flc_window_secs : option Z; flc_ip_threshold : option Z; flc_subnet_threshold : option Z;
  flc_ban_duration_secs : option Z; flc_ignore_extensions : option (list bytes);
}.
Definition flood_from_config (cfg : HttpFloodConfig) : HttpFloodDetector :=
  flood_with_config (secs (default 60 (flc_window_secs cfg))) (default 600 (flc_ip_threshold cfg))
    (default 2400 (flc_subnet_threshold cfg)) (secs (default 43200 (flc_ban_duration_secs cfg)))
    (default default_ignore_extensions (flc_ignore_extensions cfg)).

Record HttpLoginConfig : Type := {
  lgc_paths : option (list bytes); lgc_threshold : option Z; lgc_window_secs : option Z; lgc_ban_duration_secs : option Z;
  lgc_subnet_v4_prefix : option Z; lgc_subnet_v6_prefix : option Z; lgc_subnet_threshold : option Z;
  lgc_subnet_min_distinct_ips : option nat;
}.
Definition login_from_config (cfg : HttpLoginConfig) : HttpLoginBruteforceDetector :=
  login_with_subnet_aggregation (default 0 (lgc_subnet_v4_prefix cfg)) (default 0 (lgc_subnet_v6_prefix cfg))
    (default DEFAULT_SUBNET_THRESHOLD (lgc_subnet_threshold cfg))
    (default DEFAULT_SUBNET_MIN_DISTINCT_IPS (lgc_subnet_min_distinct_ips cfg))
    (login_with_config (default (as_bytes <$> ["/wp-login.php"; "/xmlrpc.php"]%string) (lgc_paths cfg))
       (default 5 (lgc_threshold cfg)) (secs (default 600 (lgc_window_secs cfg)))
       (secs (default 86400 (lgc_ban_duration_secs cfg)))).
Definition login_validate (cfg : HttpLoginConfig) : result unit PluginError :=
  let? _ := check_v4 "subnet_v4_prefix" (default 0 (lgc_subnet_v4_prefix cfg)) in
  check_v6 "subnet_v6_prefix" (default 0 (lgc_subnet_v6_prefix cfg)).

(** ** Paths and user agents *)
Record HoneypotConfig : Type := { hpc_paths : option (list bytes); hpc_ban_duration_secs : option Z; hpc_severity : option Z }.
Definition honeypot_from_config (cfg : HoneypotConfig) : HoneypotDetector :=
  honeypot_with_config
    (default (as_bytes <$> ["/backup.sql"; "/db-dump.sql"; "/admin-panel-secret"; "/admin-backup-2024.zip"]%string) (hpc_paths cfg))
    (secs <$> hpc_ban_duration_secs cfg) (default 250 (hpc_severity cfg)).

Record PathProbeConfig : Type := {
  ppc_paths : option (list bytes); ppc_ban_duration_secs : option Z; ppc_segment_paths : option (list bytes);
  ppc_query_patterns : option (list bytes); ppc_exact_paths : option (list bytes); ppc_ipv6_prefix : option Z;
}.
Definition probe_from_config (cfg : PathProbeConfig) : PathProbeDetector :=
  probe_with_ipv6_prefix (default 128 (ppc_ipv6_prefix cfg))
    (with_extended_matching (default default_segment_paths (ppc_segment_paths cfg))
       (default default_query_patterns (ppc_query_patterns cfg)) (default default_exact_paths (ppc_exact_paths cfg))
       (probe_with_config (default default_probe_paths (ppc_paths cfg)) (secs (default 259200 (ppc_ban_duration_secs cfg))))).
Definition probe_validate (cfg : PathProbeConfig) : result unit PluginError :=
  check_v6 "ipv6_prefix" (default 128 (ppc_ipv6_prefix cfg)).

Record ScannerConfig : Type := {
  sfc_scanners : option (list bytes); sfc_extra_scanners : list bytes; sfc_ban_duration_secs : option Z; sfc_ipv6_prefix : option Z;
}.
Definition scanner_from_config `{UnicodeLower} (cfg : ScannerConfig) : ScannerFingerprintDetector :=
  scanner_with_ipv6_prefix (default DEFAULT_IPV6_PREFIX (sfc_ipv6_prefix cfg))
    (scanner_with_config (default default_scanner_signatures (sfc_scanners cfg) ++ sfc_extra_scanners cfg)
       (secs (default 259200 (sfc_ban_duration_secs cfg)))).
Definition scanner_validate (cfg : ScannerConfig) : result unit PluginError :=
  check_v6 "ipv6_prefix" (default DEFAULT_IPV6_PREFIX (sfc_ipv6_prefix cfg)).

(** ** Ports *)
Record PortScanConfig : Type := {
  psc_window_secs : option Z; psc_threshold : option nat; psc_ban_duration_secs : option Z;
  psc_long_window_secs : option Z; psc_long_threshold : option nat; psc_long_ban_duration_secs : option Z;
  psc_max_tracked_ips : option N; psc_ipv6_prefix : option Z;
  psc_long_subnet_v4_prefix : option Z; psc_long_subnet_threshold : option nat; psc_long_subnet_min_ips : option nat;
}.
Definition scan_from_config (cfg : PortScanConfig) : PortScanDetector :=
  with_long_subnet_tier (default 0 (psc_long_subnet_v4_prefix cfg))
    (default DEFAULT_LONG_SUBNET_THRESHOLD (psc_long_subnet_threshold cfg))
    (default DEFAULT_LONG_SUBNET_MIN_IPS (psc_long_subnet_min_ips cfg))
    (scan_with_ipv6_prefix (default DEFAULT_IPV6_PREFIX (psc_ipv6_prefix cfg))
       (with_max_tracked_ips (default DEFAULT_MAX_TRACKED_IPS (psc_max_tracked_ips cfg))
          (with_long_tier (secs (default DEFAULT_LONG_WINDOW_SECS (psc_long_window_secs cfg)))
             (default DEFAULT_LONG_THRESHOLD (psc_long_threshold cfg))
             (secs (default DEFAULT_LONG_BAN_SECS (psc_long_ban_duration_secs cfg)))
             (scan_with_config (secs (default 600 (psc_window_secs cfg))) (default 6%nat (psc_threshold cfg))
                (secs (default 172800 (psc_ban_duration_secs cfg))))))).
Definition scan_validate (cfg : PortScanConfig) : result unit PluginError :=
  let? _ := check_v6 "ipv6_prefix" (default DEFAULT_IPV6_PREFIX (psc_ipv6_prefix cfg)) in
  check_v4 "long_subnet_v4_prefix" (default 0 (psc_long_subnet_v4_prefix cfg)).

(** ** Campaigns *)
Record CampaignOptions : Type := {
  cgc_paths : option (list bytes); cgc_methods : option (list bytes); cgc_window_secs : option Z;
  cgc_min_distinct_ips : option nat; cgc_min_requests : option nat; cgc_hot_secs : option Z; cgc_ban_duration_secs : option Z;
  cgc_ignore_user_agents : option (list bytes); cgc_extra_ignore_user_agents : list bytes;
  cgc_ignore_vhosts : option (list bytes); cgc_ignore_redirects : option bool; cgc_vhost_min_distinct_ips : option nat;
  cgc_retro_ban : option bool; cgc_max_retro_bans : option nat; cgc_retro_batch : option nat; cgc_max_keys : option nat;
  cgc_max_hits_per_key : option nat;
}.
Definition campaign_from_config (cfg : CampaignOptions) : CampaignDetector :=
  let d := campaign_default in
  campaign_with_config {|
    cg_paths := default (cg_paths d) (cgc_paths cfg); cg_methods := default (cg_methods d) (cgc_methods cfg);
    cg_window := default (cg_window d) (secs <$> cgc_window_secs cfg);
    cg_min_distinct_ips := default (cg_min_distinct_ips d) (cgc_min_distinct_ips cfg);
    cg_min_requests := default (cg_min_requests d) (cgc_min_requests cfg);
    cg_hot_duration := default (cg_hot_duration d) (secs <$> cgc_hot_secs cfg);
    cg_ban_duration := default (cg_ban_duration d) (secs <$> cgc_ban_duration_secs cfg);
    cg_ignore_user_agents := default (cg_ignore_user_agents d) (cgc_ignore_user_agents cfg) ++ cgc_extra_ignore_user_agents cfg;
    cg_ignore_vhosts := default (cg_ignore_vhosts d) (cgc_ignore_vhosts cfg);
    cg_ignore_redirects := default (cg_ignore_redirects d) (cgc_ignore_redirects cfg);
    cg_vhost_min_distinct_ips := default (cg_vhost_min_distinct_ips d) (cgc_vhost_min_distinct_ips cfg);
    cg_retro_ban := default (cg_retro_ban d) (cgc_retro_ban cfg);
    cg_max_retro_bans := default (cg_max_retro_bans d) (cgc_max_retro_bans cfg);
    cg_retro_batch := default (cg_retro_batch d) (cgc_retro_batch cfg);
    cg_max_keys := default (cg_max_keys d) (cgc_max_keys cfg);
    cg_max_hits_per_key := default (cg_max_hits_per_key d) (cgc_max_hits_per_key cfg) |}.
Definition campaign_validate (cfg : CampaignOptions) : result unit PluginError :=
  if bool_decide (cgc_paths cfg = Some []) then Err (ConfigValidation "paths must not be empty")
  else if bool_decide (cgc_methods cfg = Some []) then Err (ConfigValidation "methods must not be empty")
  else Ok tt.

(** ** Web shells *)
Record WebshellOptions : Type := {
  wsc_window_secs : option Z; wsc_min_distinct_paths : option nat; wsc_score_threshold : option spec_float;
  wsc_ban_duration_secs : option Z; wsc_legit_paths : option (list bytes); wsc_extra_legit_paths : list bytes;
  wsc_ignore_user_agents : option (list bytes); wsc_extra_ignore_user_agents : list bytes;
  wsc_ignore_vhosts : option (list bytes); wsc_shared_path_min_ips : option nat; wsc_max_tracked_ips : option N;
  wsc_max_tracked_paths : option N; wsc_ipv6_prefix : option Z;
}.
Definition webshell_from_config (cfg : WebshellOptions) : WebshellProbeDetector :=
  let d := webshell_default in
  webshell_with_config {|
    ws_window := default (ws_window d) (secs <$> wsc_window_secs cfg);
    ws_min_distinct_paths := default (ws_min_distinct_paths d) (wsc_min_distinct_paths cfg);
    ws_score_threshold := default (ws_score_threshold d) (wsc_score_threshold cfg);
    ws_ban_duration := default (ws_ban_duration d) (secs <$> wsc_ban_duration_secs cfg);
    ws_legit_paths := default (ws_legit_paths d) (wsc_legit_paths cfg) ++ wsc_extra_legit_paths cfg;
    ws_ignore_user_agents := default (ws_ignore_user_agents d) (wsc_ignore_user_agents cfg) ++ wsc_extra_ignore_user_agents cfg;
    ws_ignore_vhosts := default (ws_ignore_vhosts d) (wsc_ignore_vhosts cfg);
    ws_shared_path_min_ips := default (ws_shared_path_min_ips d) (wsc_shared_path_min_ips cfg);
    ws_max_tracked_ips := default (ws_max_tracked_ips d) (wsc_max_tracked_ips cfg);
    ws_max_tracked_paths := default (ws_max_tracked_paths d) (wsc_max_tracked_paths cfg);
    ws_ipv6_prefix := default (ws_ipv6_prefix d) (wsc_ipv6_prefix cfg) |}.

Definition is_finite (x : spec_float) : bool :=
  match x with S754_zero _ | S754_finite _ _ _ => true | S754_infinity _ | S754_nan => false end.
Definition webshell_validate (cfg : WebshellOptions) : result unit PluginError :=
  let? _ := check_v6 "ipv6_prefix" (default DEFAULT_IPV6_PREFIX (wsc_ipv6_prefix cfg)) in
  match wsc_score_threshold cfg with
  | Some s => if negb (is_finite s) || SFleb s sf_zero then Err (ConfigValidation "score_threshold must be > 0") else Ok tt
  | None => Ok tt
  end.

(** ** Timing, entropy, the retired heuristic *)
Record TimingConfig : Type := { tic_window_secs : option Z; tic_min_samples : option Z; tic_stddev_threshold_ms : option spec_float }.
Definition timing_from_config (cfg : TimingConfig) : TimingDetector :=
  timing_with_config (secs (default 60 (tic_window_secs cfg))) (default 10 (tic_min_samples cfg))
    (default (f64_lit 50 1) (tic_stddev_threshold_ms cfg)).

Record EntropyConfig : Type := {
  enc_score_threshold : option spec_float; enc_benign_penalty : option spec_float;
  enc_error_response_multiplier : option spec_float; enc_min_entropy : option spec_float; enc_max_entropy : option spec_float;
}.
Definition entropy_from_options (cfg : EntropyConfig) : EntropyDetector :=
  entropy_from_config (default (f64_lit 25 1) (enc_score_threshold cfg)) (default (f64_lit 30 1) (enc_benign_penalty cfg))
    (default (f64_lit 15 10) (enc_error_response_multiplier cfg)).

Record SlowConfig : Type := {
  slc_window_secs : option Z; slc_subnet_threshold : option nat; slc_ban_duration_secs : option Z; slc_ban_scope : option bytes;
}.
Definition slow_from_config (cfg : SlowConfig) : DistributedSlowDetector :=
  slow_with_config (secs (default 600 (slc_window_secs cfg))) (default 5%nat (slc_subnet_threshold cfg))
    (secs (default 43200 (slc_ban_duration_secs cfg))).
