(* ===== verification/CrawlPlugin.v ===== *)
(** * The distributed-crawl plugin

    [plugins/detector-distributed-crawl/src/lib.rs]: the settings, and the sink
    that shows the state of the detector to the web server: a flag file that
    exists while the site is under attack, and an entry in the table of
    published states. The detector itself is [Crawl.v]. Of the file system the
    model has the flag file; each operation on it may fail, and another program
    may remove the file at any time. *)
From S2P Require Import Prelude Text Models Detector Crawl PluginConfig.
From stdpp Require Import pretty.
Local Open Scope Z_scope.

Definition STATE_NAME : string := "distributed_crawl".
Definition DEFAULT_FLAG_FILE : bytes := as_bytes "/run/hiveguard/under_attack".

Record CrawlOptions : Type := {
  crc_path_prefixes : list bytes; crc_window_secs : option Z; crc_fresh_ip_memory_secs : option Z;
  crc_fresh_ip_threshold : option nat; crc_off_threshold : option nat; crc_cooldown_secs : option Z;
  crc_max_tracked_ips : option N; crc_exclude_static_fetchers : option bool; crc_static_extensions : option (list bytes);
  crc_require_no_referer : option bool; crc_ipv6_prefix : option Z; crc_flag_file : option bytes;
  crc_eval_interval_secs : option Z;
}.

Record Settings : Type := { st_detector : DistributedCrawlConfig; st_flag_file : option bytes; st_eval_interval : Duration }.

(** [Path::file_name] of an absolute path: the last component, neither empty nor
    [.], unless it is [..]. *)
Definition file_name (p : bytes) : option bytes :=
  match last (List.filter (fun c => negb (bool_decide (c = [] \/ c = [46]))) (split_on 47 p)) with
  | Some c => if bool_decide (c = [46; 46]) then None else Some c
  | None => None
  end.

Definition flag_path (flag_file : option bytes) : result (option bytes) PluginError :=
  match flag_file with
  | None => Ok (Some DEFAULT_FLAG_FILE)
  | Some s =>
      if bool_decide (trim s = []) then Ok None
      else if negb (starts_with [47] s) || bool_decide (file_name s = None)
      then Err (ConfigValidation "flag_file must be an absolute file path")
      else Ok (Some s)
  end.

Definition settings (cfg : CrawlOptions) : result Settings PluginError :=
  if bool_decide (crc_path_prefixes cfg = []) then Err (ConfigValidation "path_prefixes must list at least one path")
  else
    let d := crawl_config_default in
    let threshold := default (cr_fresh_ip_threshold d) (crc_fresh_ip_threshold cfg) in
    let off := default (threshold / 3)%nat (crc_off_threshold cfg) in
    if (threshold <? off)%nat
    then Err (ConfigValidation ("off_threshold (" +:+ pretty off +:+ ") must be <= fresh_ip_threshold (" +:+ pretty threshold +:+ ")"))
    else
      let ipv6_prefix := default (cr_ipv6_prefix d) (crc_ipv6_prefix cfg) in
      let? _ := check_v6 "ipv6_prefix" ipv6_prefix in
      let? flag_file := flag_path (crc_flag_file cfg) in
      Ok {| st_detector := {|
              cr_window := default (cr_window d) (secs <$> crc_window_secs cfg);
              cr_path_prefixes := crc_path_prefixes cfg;
              cr_fresh_ip_memory := default (cr_fresh_ip_memory d) (secs <$> crc_fresh_ip_memory_secs cfg);
              cr_fresh_ip_threshold := threshold; cr_off_threshold := off;
              cr_cooldown := default (cr_cooldown d) (secs <$> crc_cooldown_secs cfg);
              cr_max_tracked_ips := default (cr_max_tracked_ips d) (crc_max_tracked_ips cfg);
              cr_exclude_static_fetchers := default (cr_exclude_static_fetchers d) (crc_exclude_static_fetchers cfg);
              cr_static_extensions := default (cr_static_extensions d) (crc_static_extensions cfg);
              cr_require_no_referer := default (cr_require_no_referer d) (crc_require_no_referer cfg);
              cr_ipv6_prefix := ipv6_prefix |};
            st_flag_file := flag_file;
            st_eval_interval := secs (Z.max (default 5 (crc_eval_interval_secs cfg)) 1) |}.

(** ** The sink *)
Record StateSink : Type := { sk_flag_file : option bytes; sk_window_secs : Z; sk_threshold : nat }.

(** The content of the flag file, when it exists, and the published states. *)
Record Shown : Type := { sh_flag : option bytes; sh_states : gmap string AttackState }.
Definition set_flag (f : option bytes) (w : Shown) : Shown := {| sh_flag := f; sh_states := sh_states w |}.
Definition set_states (m : gmap string AttackState) (w : Shown) : Shown := {| sh_flag := sh_flag w; sh_states := m |}.

(** A write is a rename: it happens or it fails. A missing file counts as
    removed. [io]: the operation succeeds. *)
Definition write_flag (io : bool) (content : bytes) (w : Shown) : Shown := if io then set_flag (Some content) w else w.
Definition remove_flag (io : bool) (w : Shown) : Shown := if io then set_flag None w else w.

Section sink.
Context (to_rfc3339 : DateTime -> bytes).

Definition flag_content (sink : StateSink) (now : DateTime) (fresh_ips : nat) : bytes :=
  as_bytes "under_attack since=" ++ to_rfc3339 now ++
  as_bytes (" fresh_ips=" +:+ pretty fresh_ips +:+ " window_secs=" +:+ fmt_uint (sk_window_secs sink)
            +:+ " threshold=" +:+ pretty (sk_threshold sink)) ++ [10].

Definition startup (sink : StateSink) (now : DateTime) (io : bool) (w : Shown) : Shown :=
  let w := match sk_flag_file sink with Some _ => remove_flag io w | None => w end in
  set_states (publish STATE_NAME {| as_on := false; as_value := 0; as_since := now |} (sh_states w)) w.

Definition apply_status (sink : StateSink) (status : CrawlStatus) (now : DateTime) (io : bool) (w : Shown) : Shown :=
  match cs_transition status with
  | Some (TurnedOn fresh_ips) =>
      let w := set_states (publish STATE_NAME {| as_on := true; as_value := Z.of_nat fresh_ips; as_since := now |} (sh_states w)) w in
      match sk_flag_file sink with Some _ => write_flag io (flag_content sink now fresh_ips) w | None => w end
  | Some (TurnedOff fresh_ips) =>
      let w := set_states (publish STATE_NAME {| as_on := false; as_value := Z.of_nat fresh_ips; as_since := now |} (sh_states w)) w in
      match sk_flag_file sink with Some _ => remove_flag io w | None => w end
  | None =>
      let w := set_states (update_value STATE_NAME (Z.of_nat (cs_fresh_ips status)) (sh_states w)) w in
      match sk_flag_file sink, sh_flag w with
      | Some _, None => if cs_under_attack status then write_flag io (flag_content sink now (cs_fresh_ips status)) w else w
      | _, _ => w
      end
  end.

Definition sink_shutdown (sink : StateSink) (io : bool) (w : Shown) : Shown :=
  let w := match sk_flag_file sink with Some _ => remove_flag io w | None => w end in
  set_states (clear_state STATE_NAME (sh_states w)) w.

(** ** The plugin *)
Record CrawlPlugin : Type := { cp_detector : DistributedCrawlDetector; cp_sink : StateSink; cp_eval_interval : Duration }.

Definition crawl_plugin (s : Settings) : CrawlPlugin :=
  {| cp_detector := crawl_with_config (st_detector s);
     cp_sink := {| sk_flag_file := st_flag_file s; sk_window_secs := as_secs (cr_window (st_detector s));
                   sk_threshold := cr_fresh_ip_threshold (st_detector s) |};
     cp_eval_interval := st_eval_interval s |}.
Definition with_crawl (d : DistributedCrawlDetector) (p : CrawlPlugin) : CrawlPlugin :=
  {| cp_detector := d; cp_sink := cp_sink p; cp_eval_interval := cp_eval_interval p |}.

(** What happens to it: an event of the pipeline, a tick of its timer, another
    program that removes the flag file. *)
Inductive crawl_step : Type :=
| SEvent (event : NormalizedEvent)
| STick (now : DateTime) (io : bool)
| SRemoved.

Definition crawl_plugin_step `{IpNetOps} (pw : CrawlPlugin * Shown) (s : crawl_step) : CrawlPlugin * Shown :=
  let '(p, w) := pw in
  match s with
  | SEvent event => (with_crawl (crawl_record event (cp_detector p)) p, w)
  | STick now io =>
      let '(d, status) := crawl_evaluate now (cp_detector p) in
      (with_crawl d p, apply_status (cp_sink p) status now io w)
  | SRemoved => (p, set_flag None w)
  end.
End sink.

(** ** The flag tells the state *)
Section tracks.
Context (to_rfc3339 : DateTime -> bytes) `{IpNetOps}.

Definition crawl_plugin_run (s : Settings) (t0 : DateTime) (w0 : Shown) (steps : list crawl_step) : CrawlPlugin * Shown :=
  let p := crawl_plugin s in foldl (crawl_plugin_step to_rfc3339) (p, startup (cp_sink p) t0 true w0) steps.

Definition under_attack (p : CrawlPlugin) : bool := in_on (cr_inner (cp_detector p)).

(** The removal of the flag succeeds when an attack ends at this step. *)
Definition removal_ok (p : CrawlPlugin) (s : crawl_step) : bool :=
  match s with
  | STick now io => io || match cs_transition (crawl_evaluate now (cp_detector p)).2 with Some (TurnedOff _) => false | _ => true end
  | _ => true
  end.
Fixpoint removals_ok (pw : CrawlPlugin * Shown) (steps : list crawl_step) : bool :=
  match steps with
  | [] => true
  | s :: steps' => removal_ok pw.1 s && removals_ok (crawl_plugin_step to_rfc3339 pw s) steps'
  end.

Definition published_on (w : Shown) : option bool := as_on <$> sh_states w !! STATE_NAME.

(** What an evaluation reports is the mode it leaves. *)
Lemma evaluate_report (now : DateTime) (d : DistributedCrawlDetector) :
  let '(d', st) := crawl_evaluate now d in
  cs_under_attack st = in_on (cr_inner d') /\
  match cs_transition st with
  | Some (TurnedOn _) => in_on (cr_inner d') = true
  | Some (TurnedOff _) => in_on (cr_inner d') = false
  | None => in_on (cr_inner d') = in_on (cr_inner d)
  end.
Proof.
  unfold crawl_evaluate. destruct (expire_order _ _ _) as [c o]. cbn [set_candidates in_on].
  destruct (in_on (cr_inner d)) eqn:E; cbn [negb].
  - destruct (_ <? _)%nat; [|done]. by destruct (_ <=? _).
  - destruct (_ <? _)%nat; cbn; by rewrite ?E.
Qed.

(** The published state is the detector's, and the flag file is never left
    behind. *)
Definition tracks (p : CrawlPlugin) (w : Shown) : Prop :=
  published_on w = Some (under_attack p) /\ (is_Some (sh_flag w) -> under_attack p = true).

Lemma update_value_on (v : Z) (w : Shown) : published_on (set_states (update_value STATE_NAME v (sh_states w)) w) = published_on w.
Proof. unfold published_on, update_value. simpl. rewrite lookup_alter_eq, <- option_fmap_compose. done. Qed.

Lemma publish_on (st : AttackState) (f : option bytes) (m : gmap string AttackState) :
  published_on {| sh_flag := f; sh_states := publish STATE_NAME st m |} = Some (as_on st).
Proof. unfold published_on, publish. simpl. by rewrite lookup_insert_eq. Qed.

Lemma tick_tracks (f : bytes) (p : CrawlPlugin) (w : Shown) (now : DateTime) (io : bool) :
  sk_flag_file (cp_sink p) = Some f -> tracks p w -> removal_ok p (STick now io) = true ->
  let '(p', w') := crawl_plugin_step to_rfc3339 (p, w) (STick now io) in
  tracks p' w' /\ (io = true -> under_attack p' = true -> is_Some (sh_flag w')).
Proof.
  intros Hf [Hpub Hflag] Hrem. simpl in *. pose proof (evaluate_report now (cp_detector p)) as Hr.
  destruct (crawl_evaluate now (cp_detector p)) as [d st]. destruct Hr as [Hst Htr]. unfold apply_status. rewrite Hf.
  change (under_attack (with_crawl d p)) with (in_on (cr_inner d)). unfold tracks.
  change (under_attack (with_crawl d p)) with (in_on (cr_inner d)). cbn [snd] in Hrem.
  destruct (cs_transition st) as [[n|n]|].
  - rewrite Htr. destruct io; (split; [split; [apply publish_on|done]|]); intros; [by eexists|done].
  - rewrite orb_false_r in Hrem. rewrite Hrem, Htr. split; [|done]. split; [apply publish_on|]. by intros [? ?].
  - unfold under_attack in *.
    assert (Hu : published_on (set_states (update_value STATE_NAME (Z.of_nat (cs_fresh_ips st)) (sh_states w)) w) = Some (in_on (cr_inner d)))
      by by rewrite update_value_on, Htr.
    destruct (sh_flag w) as [x|] eqn:Ex; cbn [set_states sh_flag] in *; rewrite Ex.
    + split; [split; [exact Hu|]|]; cbn [sh_flag]; rewrite ?Ex; intros; [rewrite Htr; by apply Hflag|by eexists].
    + rewrite Hst. destruct (in_on (cr_inner d)) eqn:Eon; [destruct io|].
      * split; [split; [exact Hu|done]|]. intros. by eexists.
      * split; [split; [exact Hu|done]|done].
      * split; [split; [exact Hu|]|done]. simpl. rewrite ?Ex. by intros [? ?].
Qed.

Lemma step_tracks (f : bytes) (p : CrawlPlugin) (w : Shown) (s : crawl_step) :
  sk_flag_file (cp_sink p) = Some f -> tracks p w -> removal_ok p s = true ->
  sk_flag_file (cp_sink (crawl_plugin_step to_rfc3339 (p, w) s).1) = Some f /\
  tracks (crawl_plugin_step to_rfc3339 (p, w) s).1 (crawl_plugin_step to_rfc3339 (p, w) s).2.
Proof.
  intros Hf Ht Hr. destruct s as [e|now io|].
  - split; [exact Hf|]. destruct (record_mode (cp_detector p) e) as (_ & Hon & _).
    unfold tracks, under_attack in *. cbn [crawl_plugin_step fst snd with_crawl cp_detector]. by rewrite Hon.
  - pose proof (tick_tracks f p w now io Hf Ht Hr) as H1. cbn [crawl_plugin_step] in *. destruct (crawl_evaluate _ _) as [d st]. exact (conj Hf (proj1 H1)).
  - split; [done|]. destruct Ht as [Hp _]. split; [exact Hp|]. by intros [? ?].
Qed.

(** The flag file tells the web server the truth: from a start in the normal
    state, through any events, ticks and removals of the file by others, with
    any failures to write it, as long as it can be removed when an attack ends,
    the published state is the detector's, the file exists only under attack,
    and after a tick whose file operation succeeds it exists if and only if the
    site is under attack. *)
Theorem flag_tracks_attack (s : Settings) (f : bytes) (t0 now : DateTime) (w0 : Shown) (steps : list crawl_step)
  (Hf : st_flag_file s = Some f)
  (Hrem : removals_ok (crawl_plugin s, startup (cp_sink (crawl_plugin s)) t0 true w0) (steps ++ [STick now true]) = true) :
  let '(p, w) := crawl_plugin_run s t0 w0 steps in
  let '(p', w') := crawl_plugin_step to_rfc3339 (p, w) (STick now true) in
  tracks p w /\ (is_Some (sh_flag w') <-> under_attack p' = true).
Proof.
  unfold crawl_plugin_run. set (p0 := crawl_plugin s) in *. set (w1 := startup _ _ _ _) in *.
  assert (Hf0 : sk_flag_file (cp_sink p0) = Some f) by done.
  assert (Ht : tracks p0 w1).
  { unfold w1, startup. rewrite Hf0. split; [apply publish_on|]. by intros [? ?]. }
  clearbody p0 w1. revert p0 w1 Hf0 Ht Hrem. induction steps as [|st steps IH]; intros p w Hfp Ht Hrem.
  - cbn [foldl app removals_ok fst] in *. apply andb_true_iff in Hrem as [Hrem _].
    pose proof (tick_tracks f p w now true Hfp Ht Hrem) as Hk. destruct (crawl_plugin_step _ _ _) as [p' w'].
    destruct Hk as [[Hp Hk] Hw]. split; [done|]. split; [exact Hk|by apply Hw].
  - cbn [foldl app removals_ok fst] in *. apply andb_true_iff in Hrem as [H1 H2].
    destruct (step_tracks f p w st Hfp Ht H1) as [Hf' Ht']. destruct (crawl_plugin_step to_rfc3339 (p, w) st) as [p1 w1].
    by apply IH.
Qed.

(** A flag whose removal failed stays: later ticks rewrite a missing flag but
    never remove a stale one, until another attack has begun and ended. *)
Theorem stale_flag_stays (p : CrawlPlugin) (w : Shown) (now : DateTime) (io : bool)
  (Hoff : under_attack p = false) (Hflag : is_Some (sh_flag w))
  (Hquiet : cs_transition (crawl_evaluate now (cp_detector p)).2 = None) :
  let '(p', w') := crawl_plugin_step to_rfc3339 (p, w) (STick now io) in
  under_attack p' = false /\ sh_flag w' = sh_flag w.
Proof.
  destruct Hflag as [x Hx]. simpl. pose proof (evaluate_report now (cp_detector p)) as Hr.
  destruct (crawl_evaluate now (cp_detector p)) as [d st]. cbn [snd] in Hquiet. rewrite Hquiet in Hr. destruct Hr as [_ Hr].
  unfold apply_status. rewrite Hquiet. unfold under_attack in *. simpl. rewrite Hr, Hx. split; [exact Hoff|].
  destruct (sk_flag_file (cp_sink p)); exact Hx.
Qed.
End tracks.

(** ** Witnesses *)
Module CrawlPluginSample.
#[local] Existing Instance ipnet_ref.
Definition stamp (t : DateTime) : bytes := as_bytes (fmt_uint (t / nanos_per_sec)).
Definition options : CrawlOptions :=
  {| crc_path_prefixes := [as_bytes "/shop"]; crc_window_secs := Some 60; crc_fresh_ip_memory_secs := None;
     crc_fresh_ip_threshold := Some 2%nat; crc_off_threshold := None; crc_cooldown_secs := Some 10; crc_max_tracked_ips := Some 100%N;
     crc_exclude_static_fetchers := None; crc_static_extensions := None; crc_require_no_referer := None; crc_ipv6_prefix := None;
     crc_flag_file := Some (as_bytes "/run/attack"); crc_eval_interval_secs := Some 0 |}.
Definition the_settings : Settings :=
  match settings options with Ok s => s | Err _ => {| st_detector := crawl_config_default; st_flag_file := None; st_eval_interval := 0 |} end.
Definition visit (ip t : Z) : crawl_step :=
  SEvent {| ev_timestamp := secs t; ev_source_ip := IpV4 ip; ev_event_type := HttpRequest; ev_source_name := "nginx"; ev_raw_line := "";
            ev_metadata := {["path"%string := "/shop/item"%string]} |}.
Definition steps : list crawl_step :=
  [visit 1 0; visit 2 1; STick (secs 2) true; visit 3 3; visit 4 4; STick (secs 5) false; SRemoved; STick (secs 10) true].
Definition w0 : Shown := {| sh_flag := Some [1]; sh_states := ∅ |}.

Lemma flag_tracks_attack_witness :
  is_Some (sh_flag (crawl_plugin_run stamp the_settings 0 w0 steps).2) /\
  let '(p, w) := crawl_plugin_run stamp the_settings 0 w0 steps in
  let '(p', w') := crawl_plugin_step stamp (p, w) (STick (secs 12) true) in
  tracks p w /\ (is_Some (sh_flag w') <-> under_attack p' = true).
Proof.
  split; [apply (bool_decide_unpack _); by vm_compute|].
  apply (flag_tracks_attack stamp the_settings (as_bytes "/run/attack") 0 (secs 12) w0 steps); by vm_compute.
Defined.

Lemma stale_flag_stays_witness :
  sh_flag (crawl_plugin_step stamp (crawl_plugin the_settings, w0) (STick (secs 12) true)).2 = Some [1].
Proof.
  refine (proj2 (stale_flag_stays stamp (crawl_plugin the_settings) w0 (secs 12) true _ _ _)); [done|by eexists|by vm_compute].
Defined.

(** Relative paths, the root and dot-dot are refused, a blank path turns the
    flag file off. *)
Example flag_path_samples :
  flag_path (Some (as_bytes "/run/x/")) = Ok (Some (as_bytes "/run/x/")) /\ flag_path (Some (as_bytes "  ")) = Ok None /\
  is_ok (flag_path (Some (as_bytes "run/x"))) = false /\ is_ok (flag_path (Some (as_bytes "/"))) = false /\
  is_ok (flag_path (Some (as_bytes "/run/.."))) = false.
Proof. by vm_compute. Qed.
End CrawlPluginSample.
