(* ===== verification/Plugins.v ===== *)
(** * Detector plugins

    The detectors as the daemon has them: each plugin's [init] and [create], the
    table of linked detector plugins by id ([PluginDescriptor]s), boxed
    detectors ([Box<dyn DetectorPlugin>], [plugin_bridge.rs]), and the rule
    directory of the Sigma plugin ([hiveguard-sigma/src/loader.rs]). Campaign
    detection has its configuration here but no boxed form: its [process_multi]
    may panic ([Campaign.v]). *)
From S2P Require Import Prelude Text Models Floats Windows Detector Bruteforce HttpRate Probes PortScan Crawl Campaign Webshell Timing Entropy SigmaCond Sigma LogParsers PluginConfig CrawlPlugin.
Local Open Scope Z_scope.

(** ** Trait objects *)
Record DynDetector : Type := Dyn { dyn_ty : Type; dyn_impl : Detector dyn_ty; dyn_state : dyn_ty }.
Arguments Dyn {_ _} _.

#[export] Instance dyn_detector : Detector DynDetector := fun event b =>
  let '(d, out) := @process_multi _ (dyn_impl b) event (dyn_state b) in
  ({| dyn_ty := dyn_ty b; dyn_impl := dyn_impl b; dyn_state := d |}, out).

(** ** The Sigma plugin *)
(** [serde_yaml::from_str] *)
Class YamlParse : Type := yaml_from_str : bytes -> option YamlValue.

(** A file of a directory: its name, and its text unless it cannot be read. *)
Record DirFile : Type := { df_name : bytes; df_text : option bytes }.

(** [Path::extension] *)
Definition extension (name : bytes) : option bytes :=
  match rsplit_once 46 name with
  | Some (stem, ext) => if bool_decide (stem = []) then None else Some ext
  | None => None
  end.

Section sigma_plugin.
Context `{IpNetOps} `{UnicodeLower} `{AddrText} `{SigmaEnv} `{UnicodeTables} `{Blake3} `{YamlParse}.

Definition rule_of_text (text : bytes) : option SigmaRule :=
  match yaml_from_str text with
  | Some value => match rule_from_yaml_value value with Some (Ok rule) => Some rule | _ => None end
  | None => None
  end.

(** Files that are no rules, cannot be read or do not parse are skipped; a
    directory that cannot be listed has no rules. *)
Definition rule_of_file (f : DirFile) : option SigmaRule :=
  let ext := default [] (extension (df_name f)) in
  if bool_decide (ext = as_bytes "yml") || bool_decide (ext = as_bytes "yaml") then df_text f ≫= rule_of_text else None.
Definition load_rules_from_dir (dir : option (list DirFile)) : list SigmaRule :=
  match dir with Some files => omap rule_of_file files | None => [] end.

Record SigmaOptions : Type := { sgc_rules_dir : bytes; sgc_hot_reload : bool }.

(** The detector, the number of events it was given, what the clock and the
    lock of the counters show at each of them, and what the watcher has stored
    since the event before: the rules of the directory as it is then. *)
Record SigmaPlugin : Type := {
  sp_detector : SigmaDetector; sp_calls : nat; sp_outside : nat -> Outside; sp_reloads : nat -> option (option (list DirFile));
}.

Definition process_sigma_plugin (event : NormalizedEvent) (p : SigmaPlugin) : SigmaPlugin * option DetectionSignal :=
  let d := match sp_reloads p (sp_calls p) with
           | Some dir => sigma_reload (load_rules_from_dir dir) (sp_detector p)
           | None => sp_detector p
           end in
  let '(d, s) := process_sigma (sp_outside p (sp_calls p)) event d in
  ({| sp_detector := d; sp_calls := S (sp_calls p); sp_outside := sp_outside p; sp_reloads := sp_reloads p |}, s).

#[export] Instance sigma_plugin_detector : Detector SigmaPlugin := multi_of_process process_sigma_plugin.

(** Without hot reload nothing is ever stored. *)
Definition sigma_plugin (dirs : bytes -> option (list DirFile)) (outside : nat -> Outside)
    (changes : nat -> option (option (list DirFile))) (cfg : SigmaOptions) : SigmaPlugin :=
  {| sp_detector := sigma_new (load_rules_from_dir (dirs (sgc_rules_dir cfg))) mapper_new; sp_calls := 0;
     sp_outside := outside; sp_reloads := if sgc_hot_reload cfg then changes else fun _ => None |}.
End sigma_plugin.

(** ** The linked plugins *)
(** Deserialization of every plugin's options. *)
Class DetectorOptions (V : Type) : Type := {
  ssh_options :: FromValue V SshConfig; smtp_options :: FromValue V SmtpConfig; fx_options :: FromValue V Http4xxConfig;
  flood_options :: FromValue V HttpFloodConfig; login_options :: FromValue V HttpLoginConfig;
  honeypot_options :: FromValue V HoneypotConfig; probe_options :: FromValue V PathProbeConfig;
  scanner_options :: FromValue V ScannerConfig; scan_options :: FromValue V PortScanConfig;
  campaign_options :: FromValue V CampaignOptions; webshell_options :: FromValue V WebshellOptions;
  timing_options :: FromValue V TimingConfig; entropy_options :: FromValue V EntropyConfig;
  slow_options :: FromValue V SlowConfig; crawl_options :: FromValue V CrawlOptions; sigma_options :: FromValue V SigmaOptions;
}.

Section registry.
Context {V : Type} `{DetectorOptions V} `{IpNetOps} `{Blake3} `{UnicodeLower} `{HashIter} `{Log2} `{Deflate} `{AddrText} `{SigmaEnv}
  `{UnicodeTables} `{YamlParse}.
Context (dirs : bytes -> option (list DirFile)) (outside : nat -> Outside) (changes : nat -> option (option (list DirFile))).

Definition ssh_init : V -> result SshBruteforceDetector PluginError := init_plugin ssh_validate ssh_from_config.
Definition smtp_init : V -> result SmtpBruteforceDetector PluginError := init_plugin no_checks smtp_from_config.
Definition fx_init : V -> result Http4xxFloodDetector PluginError := init_plugin no_checks fx_from_config.
Definition flood_init : V -> result HttpFloodDetector PluginError := init_plugin no_checks flood_from_config.
Definition login_init : V -> result HttpLoginBruteforceDetector PluginError := init_plugin login_validate login_from_config.
Definition honeypot_init : V -> result HoneypotDetector PluginError := init_plugin no_checks honeypot_from_config.
Definition probe_init : V -> result PathProbeDetector PluginError := init_plugin probe_validate probe_from_config.
Definition scanner_init : V -> result ScannerFingerprintDetector PluginError := init_plugin scanner_validate scanner_from_config.
Definition scan_init : V -> result PortScanDetector PluginError := init_plugin scan_validate scan_from_config.
Definition campaign_init : V -> result CampaignDetector PluginError := init_plugin campaign_validate campaign_from_config.
Definition webshell_init : V -> result WebshellProbeDetector PluginError := init_plugin webshell_validate webshell_from_config.
Definition timing_init : V -> result TimingDetector PluginError := init_plugin no_checks timing_from_config.
Definition entropy_init : V -> result EntropyDetector PluginError := init_plugin no_checks entropy_from_options.
Definition slow_init : V -> result DistributedSlowDetector PluginError := init_plugin no_checks slow_from_config.
Definition crawl_init (v : V) : result CrawlPlugin PluginError :=
  let? cfg := map_err ConfigValidation (from_value v) in let? s := settings cfg in Ok (crawl_plugin s).
Definition sigma_init : V -> result SigmaPlugin PluginError := init_plugin no_checks (sigma_plugin dirs outside changes).

(** [create]: the plugin, boxed; for the crawl plugin its timer and sink run
    beside it ([CrawlPlugin.v]). *)
Definition boxed {D} `{Detector D} (init : V -> result D PluginError) (v : V) : result DynDetector PluginError :=
  let? d := init v in Ok (Dyn d).
Definition detector_registry : list (string * (V -> result DynDetector PluginError)) :=
  [ ("detector.ssh_bruteforce"%string, boxed ssh_init); ("detector.smtp_bruteforce"%string, boxed smtp_init);
    ("detector.http_4xx_flood"%string, boxed fx_init); ("detector.http_flood"%string, boxed flood_init);
    ("detector.http_login_bruteforce"%string, boxed login_init); ("detector.honeypot"%string, boxed honeypot_init);
    ("detector.path_probe"%string, boxed probe_init); ("detector.scanner_fingerprint"%string, boxed scanner_init);
    ("detector.port_scan"%string, boxed scan_init); ("detector.webshell_probe"%string, boxed webshell_init);
    ("detector.timing"%string, boxed timing_init); ("detector.entropy"%string, boxed entropy_init);
    ("detector.distributed_slow"%string, boxed slow_init);
    ("detector.distributed_crawl"%string, boxed (fun v => let? p := crawl_init v in Ok (cp_detector p)));
    ("detector.sigma"%string, boxed sigma_init) ].
End registry.

(** ** What a detector may point at *)
(** Not wider than what the prefixes of [netkey.rs] allow. *)
Definition narrow_net (n : IpNet) : bool :=
  match n with NetV4 _ p => 16 <=? Z.of_nat p | NetV6 _ p => 48 <=? Z.of_nat p end.

(** A signal names a narrow network around the source of its event. *)
Definition about_source (event : NormalizedEvent) (s : DetectionSignal) : Prop :=
  narrow_net (sig_source_ip s) = true /\ in_net (sig_source_ip s) (ev_source_ip event).

(** What the daemon relies on besides [DetectorLaws]. *)
Class ScopedLaws (D : Type) `{Detector D} : Type := {
  scoped : D -> Prop;
  process_multi_scoped (event : NormalizedEvent) (d : D) :
    wf_ip (ev_source_ip event) -> scoped d ->
    scoped (process_multi event d).1 /\ Forall (about_source event) (process_multi event d).2;
}.

Lemma multi_of_process_scoped {D} (P : D -> Prop) (process : NormalizedEvent -> D -> D * option DetectionSignal)
    (event : NormalizedEvent) (d : D) :
  P (process event d).1 -> (forall s, (process event d).2 = Some s -> about_source event s) ->
  P (multi_of_process process event d).1 /\ Forall (about_source event) (multi_of_process process event d).2.
Proof.
  unfold multi_of_process. destruct (process event d) as [d' [s|]]; simpl; intros Hp Hs; split; try done.
  constructor; [by apply Hs|done].
Qed.

(** The prefixes [init] lets through. *)
Definition v6_ok (p : Z) : Prop := p = 0 \/ 48 <= p <= 128.
Definition v4_ok (p : Z) : Prop := p = 0 \/ 16 <= p <= 32.

Lemma check_v6_ok (key : string) (p : Z) : check_v6 key p = Ok tt -> v6_ok p.
Proof.
  unfold check_v6, validate_ipv6_prefix. destruct (p =? 0) eqn:E0; [apply Z.eqb_eq in E0; by left|].
  unfold in_range, MIN_IPV6_PREFIX. destruct (48 <=? p) eqn:E1, (p <=? 128) eqn:E2; simpl; try done. breflect. right. lia.
Qed.
Lemma check_v4_ok (key : string) (p : Z) : check_v4 key p = Ok tt -> v4_ok p.
Proof.
  unfold check_v4, validate_v4_subnet_prefix. destruct (p =? 0) eqn:E0; [apply Z.eqb_eq in E0; by left|].
  unfold in_range, MIN_IPV4_SUBNET_PREFIX. destruct (16 <=? p) eqn:E1, (p <=? 32) eqn:E2; simpl; try done. breflect. right. lia.
Qed.

Create HintDb scope discriminated.

Section targets.
Context `{IpNetOps} {laws : IpNetLaws}.

Lemma ip_to_net_about (ip : IpAddr) : narrow_net (ip_to_net ip) = true /\ in_net (ip_to_net ip) ip.
Proof. destruct ip as [b|b]; (split; [done|]); split; done. Qed.

Lemma source_key_about (ip : IpAddr) (p : Z) :
  wf_ip ip -> v6_ok p -> narrow_net (source_key ip p) = true /\ in_net (source_key ip p) ip.
Proof using laws.
  intros Hip Hp. split; [|by apply (source_key_spec ip ip)]. destruct ip as [b|b]; simpl; [done|].
  rewrite net_trunc_law by (apply wf_v6; [done|apply source_key_prefix]). cbn [narrow_net trunc_ref]. apply Z.leb_le.
  destruct (Z.eqb_spec p 0), (Z.leb_spec 128 p); simpl; destruct Hp; lia.
Qed.

Lemma subnet_of_about (ip : IpAddr) (p q : Z) (n : IpNet) :
  wf_ip ip -> v4_ok p -> v6_ok q -> subnet_of ip p q = Some n -> narrow_net n = true /\ in_net n ip.
Proof using laws.
  intros Hip Hp Hq Hn. split; [|by eapply subnet_of_contains]. unfold v4_ok, v6_ok in *.
  destruct ip as [b|b]; simpl in Hn; case_match; simplify_eq; breflect.
  - rewrite net_trunc_law by (apply wf_v4; [done|lia]). cbn [narrow_net trunc_ref]. apply Z.leb_le. lia.
  - rewrite net_trunc_law by (apply wf_v6; [done|lia]). cbn [narrow_net trunc_ref]. apply Z.leb_le. lia.
Qed.

Lemma ip_to_subnet_about (ip : IpAddr) : wf_ip ip -> narrow_net (ip_to_subnet ip) = true /\ in_net (ip_to_subnet ip) ip.
Proof. intros Hip. split; [by destruct ip|by apply ip_to_subnet_spec]. Qed.
End targets.

#[export] Hint Resolve ip_to_net_about source_key_about subnet_of_about ip_to_subnet_about : scope.

(** Runs through the branches of a detector; what is left are its signals. *)
Ltac emitted := repeat (case_match; simplify_eq/=; try done).

Section scoped_detectors.
Context `{IpNetOps} {laws : IpNetLaws} `{Blake3} `{UnicodeLower} `{HashIter} `{Log2} `{Deflate}.

#[export, refine] Instance ssh_scoped : ScopedLaws SshBruteforceDetector := {| scoped d := v6_ok (ssh_ipv6_prefix d) |}.
Proof using laws.
  intros event d Hip Hd. apply (multi_of_process_scoped (fun d => v6_ok (ssh_ipv6_prefix d)) process_ssh);
    unfold process_ssh; [emitted|]. intros s Hs. emitted; apply (source_key_about (ev_source_ip event) (ssh_ipv6_prefix d) Hip Hd).
Defined.
#[export, refine] Instance smtp_scoped : ScopedLaws SmtpBruteforceDetector := {| scoped _ := True |}.
Proof.
  intros event d Hip _. apply (multi_of_process_scoped (fun _ => True) process_smtp); [done|]. unfold process_smtp.
  intros s Hs. emitted; apply ip_to_net_about.
Defined.
#[export, refine] Instance fx_scoped : ScopedLaws Http4xxFloodDetector := {| scoped _ := True |}.
Proof.
  intros event d Hip _. apply (multi_of_process_scoped (fun _ => True) process_4xx); [done|]. unfold process_4xx.
  intros s Hs. emitted; apply ip_to_net_about.
Defined.
#[export, refine] Instance flood_scoped : ScopedLaws HttpFloodDetector := {| scoped _ := True |}.
Proof.
  intros event d Hip _. apply (multi_of_process_scoped (fun _ => True) process_flood); [done|]. unfold process_flood, count_request.
  intros s Hs. emitted; (apply ip_to_net_about || by apply ip_to_subnet_about).
Defined.
#[export, refine] Instance honeypot_scoped : ScopedLaws HoneypotDetector := {| scoped _ := True |}.
Proof.
  intros event d Hip _. apply (multi_of_process_scoped (fun _ => True) process_honeypot); [done|]. unfold process_honeypot.
  intros s Hs. emitted; apply ip_to_net_about.
Defined.
#[export, refine] Instance probe_scoped : ScopedLaws PathProbeDetector := {| scoped d := v6_ok (pp_ipv6_prefix d) |}.
Proof using laws.
  intros event d Hip Hd. apply (multi_of_process_scoped (fun d => v6_ok (pp_ipv6_prefix d)) process_probe);
    unfold process_probe; [emitted|]. intros s Hs. emitted; apply (source_key_about (ev_source_ip event) (pp_ipv6_prefix d) Hip Hd).
Defined.
#[export, refine] Instance scanner_scoped : ScopedLaws ScannerFingerprintDetector := {| scoped d := v6_ok (sf_ipv6_prefix d) |}.
Proof using laws.
  intros event d Hip Hd. apply (multi_of_process_scoped (fun d => v6_ok (sf_ipv6_prefix d)) process_scanner);
    unfold process_scanner; [emitted|]. intros s Hs. emitted; apply (source_key_about (ev_source_ip event) (sf_ipv6_prefix d) Hip Hd).
Defined.

(** Subnets of logins. *)
Definition login_scope (d : HttpLoginBruteforceDetector) : Prop := v4_ok (lg_subnet_v4_prefix d) /\ v6_ok (lg_subnet_v6_prefix d).
Lemma login_sweep_scope (now : DateTime) (d : HttpLoginBruteforceDetector) : login_scope d -> login_scope (login_maybe_sweep now d).
Proof. intros Hd. unfold login_maybe_sweep. by case_match. Qed.
Lemma subnet_check_scope (ip : IpAddr) (now : DateTime) (path : bytes) (d : HttpLoginBruteforceDetector) :
  wf_ip ip -> login_scope d ->
  let '(d', o) := subnet_check ip now path d in
  login_scope d' /\ forall s, o = Some s -> narrow_net (sig_source_ip s) = true /\ in_net (sig_source_ip s) ip.
Proof using laws.
  intros Hip Hd. unfold subnet_check. destruct (_ =? 0); [done|]. destruct (subnet_of _ _ _) as [n|] eqn:En; [|done].
  destruct (_ <? Z.to_nat _)%nat; [done|]. destruct (_ <? lg_subnet_min_distinct_ips _)%nat; [done|].
  split; [done|]. intros s [= <-]. destruct Hd. by eapply subnet_of_about.
Qed.
#[export, refine] Instance login_scoped : ScopedLaws HttpLoginBruteforceDetector := {| scoped := login_scope |}.
Proof using laws.
  intros event d Hip Hd. apply (multi_of_process_scoped login_scope process_login); unfold process_login;
    (destruct (login_attempt _ _) as [path|]; [|done]); unfold count_login;
    pose proof (subnet_check_scope (ev_source_ip event) (ev_timestamp event) path _ Hip (login_sweep_scope (ev_timestamp event) d Hd)) as Hs;
    destruct (subnet_check _ _ _ _) as [d' [s'|]]; destruct Hs as [Hd' Hs].
  - exact Hd'.
  - by case_match.
  - intros s [= <-]. by apply Hs.
  - intros s. case_match; [done|]. intros [= <-]. apply ip_to_net_about.
Defined.

Definition scan_scope (d : PortScanDetector) : Prop := v6_ok (ps_ipv6_prefix d) /\ v4_ok (ps_long_subnet_v4_prefix d).
#[export, refine] Instance scan_scoped : ScopedLaws PortScanDetector := {| scoped := scan_scope |}.
Proof using laws.
  intros event d Hip [Hv6 Hv4]. apply (multi_of_process_scoped scan_scope process_scan); unfold process_scan;
    (destruct (negb _); [done|]); (destruct (_ ≫= _) as [port|]; [|done]).
  - pose proof (scan_port_limits (source_key (ev_source_ip event) (ps_ipv6_prefix d)) (ev_source_ip event) port (ev_timestamp event) d) as Hl.
    unfold same_limits in Hl. rewrite Hl. done.
  - intros s Hs. apply scan_port_about in Hs as [Hs|Hs].
    + unfold about_source. rewrite Hs. by apply source_key_about.
    + eapply subnet_of_about; [done|exact Hv4|by left|exact Hs].
Defined.

#[export, refine] Instance webshell_scoped : ScopedLaws WebshellProbeDetector := {| scoped d := v6_ok (ws_ipv6_prefix (ws_cfg d)) |}.
Proof using laws.
  intros event d Hip Hd. apply (multi_of_process_scoped (fun d => v6_ok (ws_ipv6_prefix (ws_cfg d))) process_webshell);
    unfold process_webshell; (destruct (webshell_request d event) as [[[php status] ua]|]; [|done]);
    destruct (share_path _ _ _ _ _) as [i bonus]; destruct (record_probe _ _ _ _ _) as [paths [[n score]|]]; try done.
  intros s [= <-]. by apply source_key_about.
Defined.
#[export, refine] Instance timing_scoped : ScopedLaws TimingDetector := {| scoped _ := True |}.
Proof.
  intros event d Hip _. apply (multi_of_process_scoped (fun _ => True) process_timing); [done|]. unfold process_timing.
  intros s. destruct (is_timed _); [|done]. cbn [snd]. destruct (judge_timing _ _); [|done]. intros [= <-]. apply ip_to_net_about.
Defined.
#[export, refine] Instance entropy_scoped : ScopedLaws EntropyDetector := {| scoped _ := True |}.
Proof.
  intros event d Hip _. apply (multi_of_process_scoped (fun _ => True) process_entropy); [done|]. unfold process_entropy. cbn [snd].
  intros s. destruct (is_http _); [|done]. destruct (meta event "path") as [path|]; [|done].
  destruct (compute_anomaly_score _ _) as [a|]; [|done]. destruct (SFltb _ _); [done|]. intros [= <-]. apply ip_to_net_about.
Defined.
#[export, refine] Instance crawl_scoped : ScopedLaws DistributedCrawlDetector := {| scoped _ := True |}.
Proof. intros event d _ _. by apply (multi_of_process_scoped (fun _ => True) process_crawl). Defined.
#[export, refine] Instance slow_scoped : ScopedLaws DistributedSlowDetector := {| scoped _ := True |}.
Proof. intros event d _ _. by apply (multi_of_process_scoped (fun _ => True) process_slow). Defined.
End scoped_detectors.

Section scoped_sigma.
Context `{IpNetOps} {laws : IpNetLaws} `{UnicodeLower} `{AddrText} `{SigmaEnv} `{UnicodeTables} `{Blake3} {hash : Blake3Laws} `{YamlParse}.

Lemma sigma_plugin_signal (event : NormalizedEvent) (p : SigmaPlugin) (s : DetectionSignal) :
  wf_ip (ev_source_ip event) -> (process_sigma_plugin event p).2 = Some s -> wf_signal s /\ about_source event s.
Proof using hash.
  intros Hip. unfold process_sigma_plugin. set (d := match sp_reloads p _ with Some _ => _ | None => _ end). set (out := sp_outside p _).
  pose proof (process_sigma_wf out event d s Hip) as Hwf. unfold process_sigma in *.
  pose proof (sigma_loop_best out (sg_mapper d) event 0 (sg_rules d) (sg_stats d) None) as Hb.
  destruct (sigma_loop _ _ _ _ _ _ _) as [stats [s'|]]; simpl in *; [|done]. intros [= ->]. split; [by apply Hwf|].
  destruct Hb as (i & r & _ & _ & -> & _). apply ip_to_net_about.
Qed.

#[export, refine] Instance sigma_plugin_laws : DetectorLaws SigmaPlugin := {| det_ok _ := True |}.
Proof using hash.
  intros event p Hip _. apply (multi_of_process_ok (fun _ => True) process_sigma_plugin); [done|]. intros s Hs. by eapply sigma_plugin_signal.
Defined.
#[export, refine] Instance sigma_plugin_scoped : ScopedLaws SigmaPlugin := {| scoped _ := True |}.
Proof using hash.
  intros event p Hip _. apply (multi_of_process_scoped (fun _ => True) process_sigma_plugin); [done|]. intros s Hs. by eapply sigma_plugin_signal.
Defined.
End scoped_sigma.

(** ** Boxed detectors *)
(** Whatever is in the box keeps the laws and starts out well. *)
Definition dyn_ok (b : DynDetector) : Prop :=
  exists (L : @DetectorLaws (dyn_ty b) (dyn_impl b)) (S : @ScopedLaws (dyn_ty b) (dyn_impl b)),
    @det_ok _ _ L (dyn_state b) /\ @scoped _ _ S (dyn_state b).

Lemma dyn_step (event : NormalizedEvent) (b : DynDetector) : wf_ip (ev_source_ip event) -> dyn_ok b ->
  dyn_ok (process_multi event b).1 /\ Forall wf_signal (process_multi event b).2 /\ Forall (about_source event) (process_multi event b).2.
Proof.
  intros Hip (L & S & Hok & Hsc). destruct b as [T I d]. simpl in *. unfold process_multi, dyn_detector. simpl.
  destruct (@process_multi_ok _ _ L event d Hip Hok) as [H1 H2]. destruct (@process_multi_scoped _ _ S event d Hip Hsc) as [H3 H4].
  unfold process_multi in *. destruct (I event d) as [d' out]. simpl in *. split_and!; [|done|done]. by exists L, S.
Qed.

#[export, refine] Instance dyn_laws : DetectorLaws DynDetector := {| det_ok := dyn_ok |}.
Proof. intros event b Hip Hb. destruct (dyn_step event b Hip Hb) as (? & ? & _). by split. Defined.
#[export, refine] Instance dyn_scoped : ScopedLaws DynDetector := {| scoped := dyn_ok |}.
Proof. intros event b Hip Hb. destruct (dyn_step event b Hip Hb) as (? & _ & ?). by split. Defined.

Definition dyn_run (b : DynDetector) (es : list NormalizedEvent) : DynDetector := foldl (fun b e => (process_multi e b).1) b es.

Lemma dyn_run_ok (b : DynDetector) (es : list NormalizedEvent) :
  Forall (fun e => wf_ip (ev_source_ip e)) es -> dyn_ok b -> dyn_ok (dyn_run b es).
Proof.
  intros Hes. revert b. induction Hes as [|e es He _ IH]; intros b Hb; [done|]. apply IH. by apply dyn_step.
Qed.

(** ** Accepted configurations *)
(** What the types of the options guarantee: a [u8] and doubles. *)
Class OptionsLaws (V : Type) `{DetectorOptions V} : Prop := {
  honeypot_severity_u8 (v : V) (cfg : HoneypotConfig) (n : Z) :
    from_value v = Ok cfg -> hpc_severity cfg = Some n -> in_width 8 n;
  entropy_doubles (v : V) (cfg : EntropyConfig) : from_value v = Ok cfg ->
    Forall (fun x => f64_valid x) (option_list (enc_score_threshold cfg) ++ option_list (enc_benign_penalty cfg)
                      ++ option_list (enc_error_response_multiplier cfg));
}.

Lemma init_plugin_ok {V C D} `{FromValue V C} (validate : C -> result unit PluginError) (from_config : C -> D) (v : V) (d : D) :
  init_plugin validate from_config v = Ok d -> exists cfg, from_value v = Ok cfg /\ validate cfg = Ok tt /\ d = from_config cfg.
Proof.
  unfold init_plugin. destruct (from_value v) as [cfg|]; simpl; [|done]. destruct (validate cfg) as [[]|] eqn:Ev; simpl; [|done].
  intros [= <-]. by exists cfg.
Qed.

Lemma boxed_ok {V D} `{Detector D} (L : DetectorLaws D) (S : ScopedLaws D) (init : V -> result D PluginError) (v : V) (b : DynDetector) :
  boxed init v = Ok b -> (forall d, init v = Ok d -> det_ok d /\ scoped d) -> dyn_ok b.
Proof. intros Hb Hd. apply result_bind_ok in Hb as (d & Hi & [= <-]). exists L, S. by apply Hd. Qed.

Section accepted.
Context {V : Type} `{DetectorOptions V} {opts : OptionsLaws V} `{IpNetOps} {laws : IpNetLaws} `{Blake3} {hash : Blake3Laws} `{UnicodeLower}
  `{HashIter} `{Log2} {log2_laws : Log2Laws} `{Deflate} `{AddrText} `{SigmaEnv} `{UnicodeTables} `{YamlParse}.
Context (dirs : bytes -> option (list DirFile)) (outside : nat -> Outside) (changes : nat -> option (option (list DirFile))).

Lemma honeypot_init_ok (v : V) (d : HoneypotDetector) : honeypot_init v = Ok d -> 250 <= hp_severity d < 256.
Proof using opts.
  intros (cfg & Hv & _ & ->)%init_plugin_ok. simpl. destruct (hpc_severity cfg) as [n|] eqn:En; simpl; [|lia].
  pose proof (honeypot_severity_u8 v cfg n Hv En) as Hn. unfold in_width in Hn. lia.
Qed.

Lemma entropy_init_ok (v : V) (d : EntropyDetector) : entropy_init v = Ok d -> valid_entropy d.
Proof using opts.
  intros (cfg & Hv & _ & ->)%init_plugin_ok. pose proof (entropy_doubles v cfg Hv) as Hf.
  rewrite !Forall_app in Hf. destruct Hf as (Hf1 & Hf2 & Hf3).
  assert (Hd : forall o x, Forall (fun x => f64_valid x) (option_list o) -> f64_valid x -> f64_valid (default x o)).
  { intros [y|] x Hy Hx; [by apply Forall_cons in Hy as [? _]|done]. }
  split; [|by apply Hd]. unfold valid_weights. simpl. split_and!; try (by apply Hd); by vm_compute.
Qed.

(** Every accepted configuration gives a detector that keeps its laws. *)
Lemma registry_ok (id : string) (create : V -> result DynDetector PluginError) (v : V) (b : DynDetector) :
  (id, create) ∈ detector_registry dirs outside changes -> create v = Ok b -> dyn_ok b.
Proof using opts laws hash log2_laws.
  intros Hin Hc. apply list_elem_of_In in Hin. unfold detector_registry in Hin. simpl in Hin.
  destruct_or! Hin; try contradiction; injection Hin as <- <-; refine (boxed_ok _ _ _ v b Hc _); intros d Hd.
  - apply init_plugin_ok in Hd as (cfg & _ & Hv & ->). split; [done|]. by eapply check_v6_ok.
  - by split.
  - by split.
  - by split.
  - apply init_plugin_ok in Hd as (cfg & _ & Hv & ->). apply result_bind_ok in Hv as ([] & Hv4 & Hv6). split; [done|].
    apply check_v4_ok in Hv4. apply check_v6_ok in Hv6. unfold v4_ok, v6_ok in *. split; simpl; unfold v4_ok, v6_ok; lia.
  - split; [by eapply honeypot_init_ok|done].
  - apply init_plugin_ok in Hd as (cfg & _ & Hv & ->). split; [done|]. by eapply check_v6_ok.
  - apply init_plugin_ok in Hd as (cfg & _ & Hv & ->). split; [done|]. by eapply check_v6_ok.
  - apply init_plugin_ok in Hd as (cfg & _ & Hv & ->). apply result_bind_ok in Hv as ([] & Hv6 & Hv4). split; [done|].
    apply check_v4_ok in Hv4. apply check_v6_ok in Hv6. split; simpl; unfold v4_ok, v6_ok in *; lia.
  - apply init_plugin_ok in Hd as (cfg & _ & Hv & ->). apply result_bind_ok in Hv as ([] & Hv6 & _). split; [done|].
    by eapply check_v6_ok.
  - by split.
  - split; [by eapply entropy_init_ok|done].
  - by split.
  - by split.
  - by split.
Qed.


End accepted.

(** ** Witnesses *)
Module PluginSample.
#[local] Existing Instances ipnet_ref ipnet_ref_laws EntropySample.blake EntropySample.blake_laws hash_iter_ref EntropySample.coarse_log2
  EntropySample.coarse_log2_laws EntropySample.stored LogSample.addr LogSample.ascii LogSample.env SigmaSample.ascii_only.
#[local] Instance no_yaml : YamlParse := fun _ => None.

(** The value is the IPv6 prefix of the SSH detector; every other plugin gets no
    options. *)
#[local] Instance options : DetectorOptions Z := {|
  ssh_options n := Ok {| shc_threshold := Some 2; shc_window_secs := None; shc_ban_duration_secs := None; shc_enum_threshold := None;
    shc_enum_window_secs := None; shc_enum_ban_duration_secs := None; shc_ipv6_prefix := Some n |};
  smtp_options _ := Err "unused"%string; fx_options _ := Err "unused"%string; flood_options _ := Err "unused"%string;
  login_options _ := Err "unused"%string;
  honeypot_options _ := Ok {| hpc_paths := None; hpc_ban_duration_secs := None; hpc_severity := Some 255 |};
  probe_options _ := Err "unused"%string; scanner_options _ := Err "unused"%string; scan_options _ := Err "unused"%string;
  campaign_options _ := Err "unused"%string; webshell_options _ := Err "unused"%string; timing_options _ := Err "unused"%string;
  entropy_options _ := Ok {| enc_score_threshold := Some (f64_lit 20 1); enc_benign_penalty := None; enc_error_response_multiplier := None;
    enc_min_entropy := None; enc_max_entropy := None |};
  slow_options _ := Err "unused"%string; crawl_options _ := Err "unused"%string; sigma_options _ := Err "unused"%string |}.
#[local] Instance options_laws : OptionsLaws Z.
Proof.
  split.
  - intros v cfg n [= <-] [= <-]. by vm_compute.
  - intros v cfg [= <-]. simpl. repeat constructor.
Qed.

Definition quiet (_ : nat) : Outside := {| now_ms_at _ := 0; lock_free_at _ := true |}.
Abbreviation registry := (detector_registry (fun _ => None) quiet (fun _ => None)).
Definition failure (host t : Z) : NormalizedEvent :=
  {| ev_timestamp := secs t; ev_source_ip := IpV6 (2 ^ 100 + host); ev_event_type := AuthFailure; ev_source_name := "sshd"; ev_raw_line := "";
     ev_metadata := ∅ |}.
Definition ssh : DynDetector := match boxed ssh_init 56 with Ok b => b | Err _ => Dyn Build_DistributedSlowDetector end.



Example extension_samples :
  extension (as_bytes "a.b.yml") = Some (as_bytes "yml") /\ extension (as_bytes ".yml") = None /\ extension (as_bytes "yml") = None.
Proof. by vm_compute. Qed.
End PluginSample.
