(* ===== verification/Secrets.v ===== *)
(** * Secrets in plugin configurations

    [hiveguard-plugin-api/src/secrets.rs]: [${env:NAME}] and [${file:/path}]
    placeholders, replaced at start-up ([SecretResolver::resolve]) or only
    parsed, for a dry run ([parse_placeholders]). The environment and the files
    are the argument [World]; a failed read carries the message of the system. *)
From S2P Require Import Prelude Text PluginConfig.
Local Open Scope Z_scope.

(** What the process can read: variables, and files as text. *)
Record World : Type := { w_env : bytes -> option bytes; w_file : bytes -> result bytes bytes }.

Inductive Placeholder : Type := PEnv (name : bytes) | PFile (path : bytes).
#[export] Instance Placeholder_eq_dec : EqDecision Placeholder.
Proof. solve_decision. Defined.

Definition OPEN : bytes := as_bytes "${".
Definition CLOSE : bytes := as_bytes "}".
Definition ENV : bytes := as_bytes "env:".
Definition FILE : bytes := as_bytes "file:".

(** ** Resolving *)
Definition read_env (w : World) (name : bytes) : result bytes PluginError :=
  match w_env w name with
  | Some v => Ok v
  | None => Err (PSecret ("env var `" +:+ of_bytes name +:+ "` not set"))
  end.
Definition read_file (w : World) (path : bytes) : result bytes PluginError :=
  match w_file w path with
  | Ok text => Ok (trim text)
  | Err e => Err (PSecret ("read " +:+ of_bytes path +:+ ": " +:+ of_bytes e))
  end.

Definition unknown_placeholder (body : bytes) : string :=
  "unknown placeholder `${" +:+ of_bytes body +:+ "}` — expected `env:` or `file:` prefix".

(** The cache is consulted first and remembers every value read. *)
Definition resolve_one (w : World) (placeholder : bytes) (cache : gmap bytes bytes) : gmap bytes bytes * result bytes PluginError :=
  match cache !! placeholder with
  | Some v => (cache, Ok v)
  | None =>
      let value :=
        match strip_prefix ENV placeholder with
        | Some name => read_env w name
        | None =>
            match strip_prefix FILE placeholder with
            | Some path => read_file w path
            | None => Err (PSecret (unknown_placeholder placeholder))
            end
        end in
      match value with
      | Ok v => (<[placeholder := v]> cache, Ok v)
      | Err e => (cache, Err e)
      end
  end.

(** Every iteration consumes at least the three bytes of the braces. *)
Fixpoint resolve_from (fuel : nat) (w : World) (cache : gmap bytes bytes) (out rest : bytes) : gmap bytes bytes * result bytes PluginError :=
  match fuel with
  | O => (cache, Ok (out ++ rest))
  | S fuel' =>
      match str_find OPEN rest with
      | None => (cache, Ok (out ++ rest))
      | Some start =>
          let out := out ++ take start rest in
          let after := drop (start + 2) rest in
          match str_find CLOSE after with
          | None => (cache, Ok (out ++ OPEN ++ after))
          | Some end_ =>
              let '(cache, r) := resolve_one w (take end_ after) cache in
              match r with
              | Ok v => resolve_from fuel' w cache (out ++ v) (drop (end_ + 1) after)
              | Err e => (cache, Err e)
              end
          end
      end
  end.
Definition resolve_text (w : World) (cache : gmap bytes bytes) (input : bytes) : gmap bytes bytes * result bytes PluginError :=
  resolve_from (length input) w cache [] input.

(** ** Parsing *)
Definition valid_env_name (name : bytes) : bool :=
  match name with
  | c :: rest => ((c =? 95) || is_ascii_alpha c) && forallb (fun c => (c =? 95) || is_ascii_alpha c || is_ascii_digit c) rest
  | [] => false
  end.

Definition parse_one (body : bytes) : result Placeholder string :=
  match strip_prefix ENV body with
  | Some name =>
      if valid_env_name name then Ok (PEnv name)
      else Err ("invalid env placeholder `${env:" +:+ of_bytes name +:+ "}` (expected [A-Za-z_][A-Za-z0-9_]*)")%string
  | None =>
      match strip_prefix FILE body with
      | Some path =>
          if starts_with [47] path then Ok (PFile path)
          else Err ("file placeholder `${file:" +:+ of_bytes path +:+ "}` must use an absolute path")%string
      | None => Err (unknown_placeholder body)
      end
  end.

Fixpoint parse_from (fuel : nat) (out : list Placeholder) (rest : bytes) : result (list Placeholder) string :=
  match fuel with
  | O => Ok out
  | S fuel' =>
      match str_find OPEN rest with
      | None => Ok out
      | Some start =>
          let after := drop (start + 2) rest in
          match str_find CLOSE after with
          | None => Ok out
          | Some end_ =>
              let? p := parse_one (take end_ after) in
              parse_from fuel' (out ++ [p]) (drop (end_ + 1) after)
          end
      end
  end.
Definition parse_placeholders (input : bytes) : result (list Placeholder) string := parse_from (length input) [] input.
Definition contains_placeholder (input : bytes) : bool := contains OPEN input.

(** ** The fuel is enough *)
(** What is left after a placeholder is shorter. *)
Lemma rest_shorter (start end_ : nat) (rest : bytes) :
  str_find OPEN rest = Some start -> str_find CLOSE (drop (start + 2) rest) = Some end_ ->
  (length (drop (end_ + 1) (drop (start + 2) rest)) < length rest)%nat.
Proof.
  intros Hs He. apply str_find_Some in He as ([k E] & _ & _). pose proof (f_equal length E) as Hl.
  rewrite !length_drop, length_app in *. simpl in Hl. lia.
Qed.

Lemma resolve_fuel (n m : nat) (w : World) (cache : gmap bytes bytes) (out rest : bytes) :
  (length rest <= n)%nat -> (length rest <= m)%nat -> resolve_from n w cache out rest = resolve_from m w cache out rest.
Proof.
  revert m cache out rest. induction n as [|n IH]; intros [|m] cache out rest Hn Hm; simpl; try done.
  - destruct rest; [done|simpl in *; lia].
  - destruct rest; [done|simpl in *; lia].
  - destruct (str_find OPEN rest) as [start|] eqn:Es; [|done]. destruct (str_find CLOSE _) as [e|] eqn:Ee; [|done].
    destruct (resolve_one _ _ _) as [cache' [v|]]; [|done]. pose proof (rest_shorter _ _ _ Es Ee). apply IH; lia.
Qed.

(** ** A dry run knows what start-up will read *)
Definition reads_same (w w' : World) (p : Placeholder) : Prop :=
  match p with PEnv name => w_env w name = w_env w' name | PFile path => w_file w path = w_file w' path end.

Lemma parse_from_grows (n : nat) (acc ps : list Placeholder) (rest : bytes) : parse_from n acc rest = Ok ps -> acc ⊆ ps.
Proof.
  revert acc rest. induction n as [|n IH]; intros acc rest; simpl; [by intros [= ->]|].
  destruct (str_find OPEN rest) as [start|]; [|by intros [= ->]]. destruct (str_find CLOSE _) as [e|]; [|by intros [= ->]].
  destruct (parse_one _) as [p|]; simpl; [|done]. intros H%IH. set_solver.
Qed.

Lemma resolve_one_reads (w w' : World) (body : bytes) (p : Placeholder) (cache : gmap bytes bytes) :
  parse_one body = Ok p -> reads_same w w' p -> resolve_one w body cache = resolve_one w' body cache.
Proof.
  unfold parse_one, resolve_one, read_env, read_file. intros Hp Hr. destruct (cache !! body); [done|].
  destruct (strip_prefix ENV body) as [name|]; [case_match; simplify_eq; simpl in Hr; by rewrite Hr|].
  destruct (strip_prefix FILE body) as [path|]; [|done]. case_match; simplify_eq. simpl in Hr. by rewrite Hr.
Qed.

(** A text that parses depends, when it is resolved, on nothing but its
    placeholders: two worlds that agree on these resolve it alike. *)
Lemma resolve_from_reads (n : nat) (w w' : World) (acc ps : list Placeholder) (cache : gmap bytes bytes) (out rest : bytes) :
  parse_from n acc rest = Ok ps -> (forall p, p ∈ ps -> reads_same w w' p) ->
  resolve_from n w cache out rest = resolve_from n w' cache out rest.
Proof.
  intros Hp Hsame. revert acc cache out rest Hp. induction n as [|n IH]; intros acc cache out rest Hp; simpl in *; [done|].
  destruct (str_find OPEN rest) as [start|]; [|done]. destruct (str_find CLOSE _) as [e|]; [|done].
  destruct (parse_one _) as [p|] eqn:Ep; simpl in Hp; [|done].
  rewrite (resolve_one_reads w w' _ p cache Ep) by (apply Hsame; apply parse_from_grows in Hp; set_solver).
  destruct (resolve_one w' _ cache) as [cache' [v|]]; [|done]. by eapply IH.
Qed.
