(* ===== verification/Host.v ===== *)
(** * The plugin host

    [hiveguard-host/src/loader.rs]: configuration entries ([hiveguard-config],
    [plugin_entry.rs]) are matched with the linked plugins
    ([hiveguard-plugin-api/src/registry.rs]), their secrets resolved, the result
    validated against the plugin's schema and handed to its factory; and the dry
    run that does the first half without reading a secret. The JSON Schema
    validator is the parameter [JsonSchema]; what is in a box of each plugin kind
    is the family [B]. *)
From S2P Require Import Prelude Text PluginConfig Secrets.
Local Open Scope Z_scope.

(** ** [serde_json::Value] *)
Inductive Value : Type :=
| VNull
| VBool (b : bool)
| VNumber (n : bytes)
| VString (s : bytes)
| VArray (l : list Value)
| VObject (m : list (bytes * Value)).

(** Induction through arrays and objects. *)
Section value_induction.
Context (P : Value -> Prop).
Context (Hnull : P VNull) (Hbool : forall b, P (VBool b)) (Hnumber : forall n, P (VNumber n)) (Hstring : forall s, P (VString s)).
Context (Harray : forall l, Forall P l -> P (VArray l)) (Hobject : forall m, Forall (fun kv => P kv.2) m -> P (VObject m)).

Fixpoint value_ind_nested (v : Value) : P v :=
  match v with
  | VNull => Hnull
  | VBool b => Hbool b
  | VNumber n => Hnumber n
  | VString s => Hstring s
  | VArray l => Harray l ((fix go l := match l return Forall P l with
                                       | [] => List.Forall_nil P
                                       | x :: l' => List.Forall_cons P x l' (value_ind_nested x) (go l')
                                       end) l)
  | VObject m => Hobject m ((fix go m := match m return Forall (fun kv => P kv.2) m with
                                         | [] => List.Forall_nil _
                                         | x :: m' => List.Forall_cons _ x m' (value_ind_nested x.2) (go m')
                                         end) m)
  end.
End value_induction.

(** ** Plugins *)
Inductive PluginKind : Type :=
| KLogSource | KNotifier | KEnforcer | KCtiProvider | KSiemSink | KDetector | KScoringEngine | KUiServer.
#[export] Instance PluginKind_eq_dec : EqDecision PluginKind.
Proof. solve_decision. Defined.

Definition API_VERSION : Z := 1.

Record SchemaViolation : Type := { sv_instance_path : bytes; sv_message : string }.
(** Compiling the schema may fail; otherwise the violations. *)
Class JsonSchema : Type := schema_violations : string -> Value -> result (list SchemaViolation) string.

Definition show_violation (v : SchemaViolation) : string :=
  (of_bytes (if bool_decide (sv_instance_path v = []) then [47] else sv_instance_path v) +:+ ": " +:+ sv_message v)%string.
Definition newline : string := String (Ascii.ascii_of_nat 10) EmptyString.
Definition format_violations (vs : list SchemaViolation) : string :=
  ("config violates schema:" +:+ newline +:+ String.concat newline ((fun v => ("  - " +:+ show_violation v)%string) <$> vs))%string.
Definition validate_against_schema `{JsonSchema} (schema : string) (v : Value) : result unit PluginError :=
  match schema_violations schema v with
  | Err e => Err (ConfigValidation e)
  | Ok [] => Ok tt
  | Ok vs => Err (ConfigValidation (format_violations vs))
  end.

(** [Display] *)
Definition show_error (e : PluginError) : string :=
  match e with
  | ConfigValidation m => "plugin config validation failed: " +:+ m
  | MissingConfig f => "plugin config missing required field: " +:+ f
  | PInit m => "plugin init failed: " +:+ m
  | PRuntime m => "plugin runtime error: " +:+ m
  | PNotFound m => "not found: " +:+ m
  | PSecret m => "secret resolution failed: " +:+ m
  | PIo m => "io error: " +:+ m
  | PJson m => "serde_json error: " +:+ m
  | PApiVersionMismatch p h => "api version mismatch: plugin built for " +:+ fmt_uint p +:+ ", host expects " +:+ fmt_uint h
  | POther m => m
  | PBusy m => "busy: " +:+ m
  end.

Record PluginEntry : Type := { pe_id : string; pe_name : option string; pe_config : Value; pe_optional : bool }.

Inductive LoaderError : Type :=
| UnknownPlugin (id : string)
| ApiVersionMismatch (id : string) (required host : Z)
| InvalidConfig (id msg : string)
| InitFailure (id msg : string).

(** ** Secrets inside a value *)
(** The first error ends the walk; what was read before it stays cached. *)
Section walk.
Context {A C : Type} (f : A -> gmap bytes bytes -> gmap bytes bytes * result C string).
Fixpoint walk (l : list A) (cache : gmap bytes bytes) : gmap bytes bytes * result (list C) string :=
  match l with
  | [] => (cache, Ok [])
  | x :: l' =>
      let '(cache, r) := f x cache in
      match r with
      | Err e => (cache, Err e)
      | Ok y => let '(cache, r) := walk l' cache in (cache, let? ys := r in Ok (y :: ys))
      end
  end.
End walk.

Definition map_ok {A C E} (f : A -> C) (r : result A E) : result C E := match r with Ok a => Ok (f a) | Err e => Err e end.

Fixpoint resolve_secrets (w : World) (v : Value) (cache : gmap bytes bytes) {struct v} : gmap bytes bytes * result Value string :=
  match v with
  | VString s => let '(cache, r) := resolve_text w cache s in (cache, map_ok VString (map_err show_error r))
  | VArray l => let '(cache, r) := walk (resolve_secrets w) l cache in (cache, map_ok VArray r)
  | VObject m =>
      let '(cache, r) := walk (fun kv cache => let '(cache, r) := resolve_secrets w kv.2 cache in (cache, map_ok (pair kv.1) r)) m cache in
      (cache, map_ok VObject r)
  | other => (cache, Ok other)
  end.

(** RFC 6901 *)
Definition escape_pointer (k : bytes) : bytes :=
  flat_map (fun c => if c =? 126 then [126; 48] else if c =? 47 then [126; 49] else [c]) k.

(** Every string leaf with a placeholder, in order, with its JSON pointer and
    its parsed placeholders; the first that does not parse is the error. *)
Section gather.
Context {A C : Type} (f : Z -> A -> result (list C) string).
Fixpoint gather (i : Z) (l : list A) : result (list C) string :=
  match l with
  | [] => Ok []
  | x :: l' => let? found := f i x in let? more := gather (i + 1) l' in Ok (found ++ more)
  end.
End gather.

Fixpoint collect_placeholders (v : Value) (path : bytes) {struct v} : result (list (bytes * list Placeholder)) string :=
  match v with
  | VString s => if contains_placeholder s then let? ps := parse_placeholders s in Ok [(path, ps)] else Ok []
  | VArray l => gather (fun i x => collect_placeholders x (path ++ [47] ++ as_bytes (fmt_uint i))) 0 l
  | VObject m => gather (fun _ kv => collect_placeholders kv.2 (path ++ [47] ++ escape_pointer kv.1)) 0 m
  | _ => Ok []
  end.

(** ** The loader *)
Section loader.
Context `{JsonSchema} (B : PluginKind -> Type).

(** A factory makes boxes of one kind. *)
Record PluginFactory : Type := Factory { pf_kind : PluginKind; pf_create : Value -> result (B pf_kind) PluginError }.
Record PluginDescriptor : Type := { pd_id : string; pd_api_version : Z; pd_config_schema : string; pd_factory : PluginFactory }.

Context (linked : list PluginDescriptor).

Definition find_descriptor (id : string) : option PluginDescriptor := List.find (fun d => bool_decide (pd_id d = id)) linked.

(** The descriptor of an entry; [None] for an optional plugin not linked. *)
Definition descriptor_of (entry : PluginEntry) : result (option PluginDescriptor) LoaderError :=
  match find_descriptor (pe_id entry) with
  | None => if pe_optional entry then Ok None else Err (UnknownPlugin (pe_id entry))
  | Some d =>
      if negb (pd_api_version d =? API_VERSION) then Err (ApiVersionMismatch (pe_id entry) (pd_api_version d) API_VERSION)
      else Ok (Some d)
  end.

Record ResolvedPlugin : Type := { rp_descriptor : PluginDescriptor; rp_resolved_config : Value }.

Definition resolve_entry (w : World) (entry : PluginEntry) (cache : gmap bytes bytes)
    : gmap bytes bytes * result (option ResolvedPlugin) LoaderError :=
  match descriptor_of entry with
  | Err e => (cache, Err e)
  | Ok None => (cache, Ok None)
  | Ok (Some d) =>
      let '(cache, r) := resolve_secrets w (pe_config entry) cache in
      match r with
      | Err msg => (cache, Err (InvalidConfig (pe_id entry) msg))
      | Ok v =>
          match validate_against_schema (pd_config_schema d) v with
          | Err e => (cache, Err (InvalidConfig (pe_id entry) (show_error e)))
          | Ok _ => (cache, Ok (Some {| rp_descriptor := d; rp_resolved_config := v |}))
          end
      end
  end.

Fixpoint resolve_entries (w : World) (entries : list PluginEntry) (cache : gmap bytes bytes)
    : gmap bytes bytes * result (list ResolvedPlugin) LoaderError :=
  match entries with
  | [] => (cache, Ok [])
  | entry :: entries' =>
      let '(cache, r) := resolve_entry w entry cache in
      match r with
      | Err e => (cache, Err e)
      | Ok o => let '(cache, r) := resolve_entries w entries' cache in (cache, let? rs := r in Ok (option_list o ++ rs))
      end
  end.

(** *** The dry run *)
Definition check_entry (entry : PluginEntry) : result (list (string * bytes * Placeholder)) LoaderError :=
  let? o := descriptor_of entry in
  match o with
  | None => Ok []
  | Some d =>
      let? found := map_err (InvalidConfig (pe_id entry)) (collect_placeholders (pe_config entry) []) in
      let paths := (List.filter (fun pl : bytes * list Placeholder => negb (bool_decide (pl.2 = []))) found).*1 in
      let? violations := map_err (fun e => InvalidConfig (pe_id entry) (show_error (ConfigValidation e)))
                           (schema_violations (pd_config_schema d) (pe_config entry)) in
      let remaining := List.filter (fun v => negb (bool_decide (sv_instance_path v ∈ paths))) violations in
      match remaining with
      | [] => Ok (flat_map (fun pl : bytes * list Placeholder => (fun p => (pe_id entry, pl.1, p)) <$> pl.2) found)
      | _ => Err (InvalidConfig (pe_id entry) (format_violations remaining))
      end
  end.
Fixpoint check_unresolved (entries : list PluginEntry) : result (list (string * bytes * Placeholder)) LoaderError :=
  match entries with
  | [] => Ok []
  | entry :: entries' => let? found := check_entry entry in let? more := check_unresolved entries' in Ok (found ++ more)
  end.

(** *** Instantiation *)
Record LoadedPlugins : Type := {
  log_sources : list (B KLogSource); notifiers : list (B KNotifier); enforcers : list (B KEnforcer);
  cti_providers : list (B KCtiProvider); siem_sinks : list (B KSiemSink); detectors : list (B KDetector);
  scoring_engines : list (B KScoringEngine); ui_servers : list (B KUiServer);
}.
Definition loaded_default : LoadedPlugins :=
  {| log_sources := []; notifiers := []; enforcers := []; cti_providers := []; siem_sinks := []; detectors := [];
     scoring_engines := []; ui_servers := [] |}.
Definition loaded_len (l : LoadedPlugins) : nat :=
  (length (log_sources l) + length (notifiers l) + length (enforcers l) + length (cti_providers l) + length (siem_sinks l)
   + length (detectors l) + length (scoring_engines l) + length (ui_servers l))%nat.

Inductive PluginInstance : Type := Loaded (k : PluginKind) (box : B k).

Definition push_instance (i : PluginInstance) (l : LoadedPlugins) : LoadedPlugins :=
  match i with
  | Loaded k box =>
      let on (k' : PluginKind) (f : list (B k')) : list (B k') :=
        match decide (k = k') with left e => f ++ [eq_rect k B box k' e] | right _ => f end in
      {| log_sources := on KLogSource (log_sources l); notifiers := on KNotifier (notifiers l); enforcers := on KEnforcer (enforcers l);
         cti_providers := on KCtiProvider (cti_providers l); siem_sinks := on KSiemSink (siem_sinks l);
         detectors := on KDetector (detectors l); scoring_engines := on KScoringEngine (scoring_engines l);
         ui_servers := on KUiServer (ui_servers l) |}
  end.

(** The data directory of the plugin is created first; [mkdir] gives the error
    of the system, if any. *)
Definition instantiate (mkdir : string -> option string) (rp : ResolvedPlugin) : result PluginInstance LoaderError :=
  let d := rp_descriptor rp in
  match mkdir (pd_id d) with
  | Some e => Err (InitFailure (pd_id d) ("failed to create data_dir: " +:+ e))
  | None => let? box := map_err (fun e => InitFailure (pd_id d) (show_error e)) (pf_create (pd_factory d) (rp_resolved_config rp)) in
            Ok (Loaded (pf_kind (pd_factory d)) box)
  end.
Fixpoint instantiate_all (mkdir : string -> option string) (rps : list ResolvedPlugin) (out : LoadedPlugins) : result LoadedPlugins LoaderError :=
  match rps with
  | [] => Ok out
  | rp :: rps' => let? i := instantiate mkdir rp in instantiate_all mkdir rps' (push_instance i out)
  end.
Definition load_categorized (w : World) (mkdir : string -> option string) (entries : list PluginEntry) (cache : gmap bytes bytes)
    : gmap bytes bytes * result LoadedPlugins LoaderError :=
  let '(cache, r) := resolve_entries w entries cache in
  (cache, let? rps := r in instantiate_all mkdir rps loaded_default).
End loader.

(** ** The dry run knows every secret *)
Lemma no_placeholder (w : World) (cache : gmap bytes bytes) (s : bytes) :
  contains_placeholder s = false -> resolve_text w cache s = (cache, Ok s).
Proof.
  intros Hc. unfold resolve_text. destruct (length s) as [|n]; simpl; [done|].
  destruct (str_find OPEN s) as [i|] eqn:Ef; [|done]. exfalso. apply str_find_Some in Ef as ([k E] & _ & _).
  unfold contains_placeholder in Hc. enough (contains OPEN s = true) by congruence.
  apply contains_spec. exists (take i s), k. rewrite <- E. by rewrite take_drop.
Qed.

Definition lists_all (w w' : World) (found : list (bytes * list Placeholder)) : Prop :=
  forall path ps p, (path, ps) ∈ found -> p ∈ ps -> reads_same w w' p.

Lemma lists_all_app (w w' : World) (a b : list (bytes * list Placeholder)) :
  lists_all w w' (a ++ b) -> lists_all w w' a /\ lists_all w w' b.
Proof.
  intros Hl. split; intros path ps p Hin; apply (Hl path ps p); apply elem_of_app; [by left|by right].
Qed.

Lemma walk_reads {A C D : Type} (f g : A -> gmap bytes bytes -> gmap bytes bytes * result C string) (h : Z -> A -> result (list (bytes * list Placeholder)) string)
    (w w' : World) (i : Z) (l : list A) (found : list (bytes * list Placeholder)) (k : list C -> D) (cache : gmap bytes bytes) :
  Forall (fun x => forall i found cache, h i x = Ok found -> lists_all w w' found -> f x cache = g x cache) l ->
  gather h i l = Ok found -> lists_all w w' found ->
  (let '(cache, r) := walk f l cache in (cache, map_ok k r)) = (let '(cache, r) := walk g l cache in (cache, map_ok k r)).
Proof.
  intros Hl Hg Hs. enough (E : walk f l cache = walk g l cache) by by rewrite E.
  revert i found cache Hg Hs. induction Hl as [|x l Hx _ IH]; intros i found cache Hg Hs; [done|]. simpl in *.
  apply result_bind_ok in Hg as (f1 & H1 & Hg). apply result_bind_ok in Hg as (f2 & H2 & [= <-]). apply lists_all_app in Hs as [Hs1 Hs2].
  rewrite (Hx _ _ cache H1 Hs1). destruct (g x cache) as [c [y|]]; [|done]. by rewrite (IH _ _ c H2 Hs2).
Qed.

Lemma resolve_secrets_reads (w w' : World) (v : Value) (path : bytes) (found : list (bytes * list Placeholder)) (cache : gmap bytes bytes) :
  collect_placeholders v path = Ok found -> lists_all w w' found -> resolve_secrets w v cache = resolve_secrets w' v cache.
Proof.
  revert path found cache. induction v as [| | |s|l IH|m IH] using value_ind_nested; intros path found cache Hc Hl; try done.
  - simpl in *. destruct (contains_placeholder s) eqn:Es; [|by rewrite !no_placeholder].
    destruct (parse_placeholders s) as [ps|] eqn:Ep; simplify_eq/=. unfold resolve_text, parse_placeholders in *.
    rewrite (resolve_from_reads _ w w' [] ps cache [] s Ep); [done|]. intros p Hp. apply (Hl path ps); [by left|done].
  - eapply walk_reads; [|exact Hc|exact Hl]. eapply Forall_impl; [exact IH|]. intros x Hx i f c. apply Hx.
  - eapply walk_reads; [|exact Hc|exact Hl]. eapply Forall_impl; [exact IH|]. intros [k x] Hx i f c Hf Hs. simpl in *. by erewrite Hx.
Qed.

Section loading.
Context `{JsonSchema} (B : PluginKind -> Type) (linked : list (PluginDescriptor B)).

Lemma check_entry_reads (w w' : World) (entry : PluginEntry) (found : list (string * bytes * Placeholder)) (cache : gmap bytes bytes) :
  check_entry B linked entry = Ok found -> (forall x, x ∈ found -> reads_same w w' x.2) ->
  resolve_entry B linked w entry cache = resolve_entry B linked w' entry cache.
Proof.
  intros Hc Hs. unfold check_entry, resolve_entry in *. destruct (descriptor_of B linked entry) as [[d|]|]; simpl in Hc; try done.
  apply result_bind_ok in Hc as (fs & Hf & Hc). apply result_bind_ok in Hc as (vs & _ & Hc).
  destruct (collect_placeholders (pe_config entry) []) as [fs'|] eqn:Ef; simplify_eq/=.
  rewrite (resolve_secrets_reads w w' _ _ _ cache Ef); [done|]. intros path ps p Hin Hp. case_match; simplify_eq.
  apply (Hs (pe_id entry, path, p)). apply list_elem_of_In, in_flat_map. exists (path, ps). split; [by apply list_elem_of_In|].
  apply list_elem_of_In, list_elem_of_fmap. by exists p.
Qed.

(** A dry run lists every secret: when it accepts a configuration, start-up
    depends on no environment variable and no file but those it reported. Two
    machines that agree on these load the same plugins, or fail alike; a
    placeholder cannot make the daemon read anything the operator was not
    shown. *)
Theorem dry_run_lists_secrets (w w' : World) (mkdir : string -> option string) (entries : list PluginEntry)
  (found : list (string * bytes * Placeholder)) (cache : gmap bytes bytes)
  (Hdry : check_unresolved B linked entries = Ok found) (Hsame : forall x, x ∈ found -> reads_same w w' x.2) :
  load_categorized B linked w mkdir entries cache = load_categorized B linked w' mkdir entries cache.
Proof.
  unfold load_categorized. enough (E : resolve_entries B linked w entries cache = resolve_entries B linked w' entries cache) by by rewrite E.
  revert found cache Hdry Hsame. induction entries as [|e es IH]; intros found cache Hd Hs; simpl in *; [done|].
  apply result_bind_ok in Hd as (f1 & H1 & Hd). apply result_bind_ok in Hd as (f2 & H2 & [= <-]).
  rewrite (check_entry_reads w w' e f1 cache H1) by (intros x Hx; apply Hs, elem_of_app; by left).
  destruct (resolve_entry B linked w' e cache) as [c [o|]]; [|done]. by rewrite (IH f2 c H2) by (intros x Hx; apply Hs, elem_of_app; by right).
Qed.

(** ** What is loaded *)
Definition by_kind (k : PluginKind) (l : LoadedPlugins B) : list (B k) :=
  match k with
  | KLogSource => log_sources B l | KNotifier => notifiers B l | KEnforcer => enforcers B l | KCtiProvider => cti_providers B l
  | KSiemSink => siem_sinks B l | KDetector => detectors B l | KScoringEngine => scoring_engines B l | KUiServer => ui_servers B l
  end.
Definition pick (k : PluginKind) (i : PluginInstance B) : option (B k) :=
  match i with Loaded _ k' box => match decide (k' = k) with left e => Some (eq_rect k' B box k e) | right _ => None end end.

Lemma push_by_kind (i : PluginInstance B) (l : LoadedPlugins B) (k : PluginKind) :
  by_kind k (push_instance B i l) = by_kind k l ++ option_list (pick k i).
Proof. destruct i as [[] box], k; simpl; by rewrite ?app_nil_r. Qed.

Lemma instantiate_all_spec (mkdir : string -> option string) (rps : list (ResolvedPlugin B)) (l out : LoadedPlugins B) :
  instantiate_all B mkdir rps l = Ok out ->
  exists ins, Forall2 (fun rp i => instantiate B mkdir rp = Ok i) rps ins /\ forall k, by_kind k out = by_kind k l ++ omap (pick k) ins.
Proof.
  revert l. induction rps as [|rp rps IH]; intros l Hi; simpl in Hi.
  - injection Hi as <-. exists []. split; [constructor|]. intros k. by rewrite app_nil_r.
  - apply result_bind_ok in Hi as (i & H1 & Hi). destruct (IH _ Hi) as (ins & H2 & Hk). exists (i :: ins).
    split; [by constructor|]. intros k. rewrite Hk, push_by_kind, <- app_assoc. f_equal. simpl. by destruct (pick k i).
Qed.

(** The configuration a plugin is made from: the one of the entry with its
    secrets filled in, valid for the plugin's schema. *)
Definition config_ok (w : World) (e : PluginEntry) (rp : ResolvedPlugin B) : Prop :=
  (exists c c', resolve_secrets w (pe_config e) c = (c', Ok (rp_resolved_config B rp))) /\
  validate_against_schema (pd_config_schema B (rp_descriptor B rp)) (rp_resolved_config B rp) = Ok tt.

Lemma resolve_entries_spec (w : World) (entries : list PluginEntry) (cache cache' : gmap bytes bytes) (rps : list (ResolvedPlugin B)) :
  resolve_entries B linked w entries cache = (cache', Ok rps) ->
  exists os, Forall2 (fun e o => descriptor_of B linked e = Ok (rp_descriptor B <$> o) /\ (forall rp, o = Some rp -> config_ok w e rp)) entries os /\
             rps = omap id os.
Proof.
  revert cache cache' rps. induction entries as [|e es IH]; intros cache cache' rps Hr; simpl in Hr.
  - injection Hr as _ <-. exists []. split; [constructor|done].
  - destruct (resolve_entry B linked w e cache) as [c [o|]] eqn:Ee; [|done].
    destruct (resolve_entries B linked w es c) as [c2 [rs|]] eqn:Ers; simplify_eq/=. destruct (IH _ _ _ Ers) as (os & Hos & ->).
    exists (o :: os). split; [|by destruct o]. constructor; [|done].
    unfold resolve_entry in Ee. destruct (descriptor_of B linked e) as [[d|]|]; simplify_eq/=; [|done].
    destruct (resolve_secrets w (pe_config e) cache) as [c3 [v|]] eqn:Ev; [|done].
    destruct (validate_against_schema (pd_config_schema B d) v) as [[]|] eqn:Es; simplify_eq/=.
    split; [done|]. intros rp [= <-]. split; [by exists cache, c|done].
Qed.

(** Loading is complete and in order: when it succeeds, every entry whose plugin
    is linked gave exactly one instance, made from its configuration with the
    secrets filled in and the schema satisfied; an entry that gave none is
    optional and not linked; and each category holds the instances of its kind in the order
    of the configuration. *)
Theorem load_in_order (w : World) (mkdir : string -> option string) (entries : list PluginEntry) (cache cache' : gmap bytes bytes)
  (out : LoadedPlugins B) (Hload : load_categorized B linked w mkdir entries cache = (cache', Ok out)) :
  exists (os : list (option (ResolvedPlugin B))) (ins : list (PluginInstance B)),
    Forall2 (fun e o => match o with
                        | None => find_descriptor B linked (pe_id e) = None /\ pe_optional e = true
                        | Some rp => find_descriptor B linked (pe_id e) = Some (rp_descriptor B rp) /\ pd_api_version B (rp_descriptor B rp) = API_VERSION /\
                                     config_ok w e rp
                        end) entries os /\
    Forall2 (fun rp i => instantiate B mkdir rp = Ok i) (omap id os) ins /\
    forall k, by_kind k out = omap (pick k) ins.
Proof.
  unfold load_categorized in Hload. destruct (resolve_entries B linked w entries cache) as [c [rps|]] eqn:Er; simplify_eq/=.
  destruct (resolve_entries_spec _ _ _ _ _ Er) as (os & Hos & ->). rename H1 into Hi. apply instantiate_all_spec in Hi as (ins & His & Hk).
  exists os, ins. split_and!; [|done|intros k; by rewrite Hk; destruct k]. eapply Forall2_impl; [exact Hos|]. intros e o [He Hok].
  unfold descriptor_of in He. destruct (find_descriptor B linked (pe_id e)) as [d|].
  - destruct (pd_api_version B d =? API_VERSION) eqn:Ev; simplify_eq/=. apply Z.eqb_eq in Ev. destruct o; simplify_eq/=. auto.
  - destruct (pe_optional e) eqn:Eo; simplify_eq/=. by destruct o; simplify_eq/=.
Qed.
End loading.

(** ** A sample configuration *)
Module HostSample.
Definition hook : bytes := as_bytes "hook".
Definition url : bytes := as_bytes "${env:HOOK_URL}".
Definition entry : PluginEntry :=
  {| pe_id := "notify-slack"; pe_name := None; pe_config := VObject [(hook, VString url)]; pe_optional := false |}.
Definition missing : PluginEntry := {| pe_id := "siem-x"; pe_name := None; pe_config := VNull; pe_optional := true |}.
(** A schema that asks for an object. *)
#[export] Instance object_schema : JsonSchema := fun _ v =>
  match v with VObject _ => Ok [] | _ => Ok [ {| sv_instance_path := []; sv_message := "not an object" |} ] end.
Definition box (_ : PluginKind) : Type := Value.
Definition slack : PluginDescriptor box :=
  {| pd_id := "notify-slack"; pd_api_version := 1; pd_config_schema := ""; pd_factory := Factory box KNotifier (fun v => Ok v) |}.
Definition env_of (v : string) : World :=
  {| w_env := fun n => if bool_decide (n = as_bytes "HOOK_URL") then Some (as_bytes v) else None; w_file := fun _ => Err (as_bytes "no such file") |}.
Definition other : World :=
  {| w_env := fun n => if bool_decide (n = as_bytes "HOOK_URL") then Some (as_bytes "https://x") else Some []; w_file := fun _ => Ok [] |}.
Definition out : LoadedPlugins box :=
  push_instance box (Loaded box KNotifier (VObject [(hook, VString (as_bytes "https://x"))])) (loaded_default box).
Definition fresh_cache : gmap bytes bytes := ∅.
Definition read_cache : gmap bytes bytes := (load_categorized box [slack] (env_of "https://x") (fun _ => None) [entry; missing] fresh_cache).1.

(** A second machine with the same hook, and everything else different. *)
Lemma dry_run_lists_secrets_witness :
  load_categorized box [slack] (env_of "https://x") (fun _ => None) [entry; missing] ∅ =
  load_categorized box [slack] other (fun _ => None) [entry; missing] ∅.
Proof.
  apply (dry_run_lists_secrets box [slack] (env_of "https://x") other (fun _ => None) [entry; missing]
           [("notify-slack"%string, as_bytes "/hook", PEnv (as_bytes "HOOK_URL"))] ∅); [vm_compute; reflexivity|].
  intros x Hx. apply list_elem_of_singleton in Hx as ->. vm_compute. reflexivity.
Defined.

Lemma load_in_order_witness :
  exists (os : list (option (ResolvedPlugin box))) (ins : list (PluginInstance box)),
    length os = 2%nat /\ Forall2 (fun rp i => instantiate box (fun _ => None) rp = Ok i) (omap id os) ins /\
    forall k, by_kind box k out = omap (pick box k) ins.
Proof.
  assert (Hl : load_categorized box [slack] (env_of "https://x") (fun _ => None) [entry; missing] fresh_cache = (read_cache, Ok out))
    by (vm_compute; reflexivity).
  destruct (load_in_order box [slack] (env_of "https://x") (fun _ => None) [entry; missing] fresh_cache read_cache out Hl) as (os & ins & Hos & Hins & Hk).
  exists os, ins. split; [symmetry; exact (Forall2_length _ _ _ Hos)|]. split; [exact Hins|exact Hk].
Defined.
End HostSample.
