(* ===== verification/Alerts.v ===== *)
(** * Alerts

    [hiveguard-plugin-api/src/traits/notifier.rs] (alerts and their kinds) and
    [hiveguard-host/src/dispatcher.rs]: the dispatcher hands each alert to every
    notifier that wants its kind, at most once per cooldown and key, and retries
    failed deliveries from a bounded queue. The readings of the monotonic clock
    and the outcomes of the deliveries are sequences, consumed in order. *)
From S2P Require Import Prelude Text Models Floats Detector.
Local Open Scope Z_scope.

Inductive AlertKind : Type :=
| KIpBanned | KSubnetBanned | KHighThreatDetected | KHoneypotHit | KPeerDown | KPeerQuarantined | KBanRateAnomaly.

Inductive AlertEvent : Type :=
| AIpBanned (ip : IpNet) (severity : Z) (reason : string) (geo : option GeoIpInfo)
| ASubnetBanned (subnet : IpNet) (ip_count : Z) (reason : string)
| APeerDown (node_id : string) (address : string)
| APeerQuarantined (node_id : string) (reason : string)
| AHighThreatDetected (ip : string) (score : spec_float) (top_detectors : list string)
| AHoneypotHit (ip : string) (path : string)
| ABanRateAnomaly (bans_per_minute threshold : Z).

Definition alert_kind (e : AlertEvent) : AlertKind :=
  match e with
  | AIpBanned _ _ _ _ => KIpBanned
  | ASubnetBanned _ _ _ => KSubnetBanned
  | AHighThreatDetected _ _ _ => KHighThreatDetected
  | AHoneypotHit _ _ => KHoneypotHit
  | APeerDown _ _ => KPeerDown
  | APeerQuarantined _ _ => KPeerQuarantined
  | ABanRateAnomaly _ _ => KBanRateAnomaly
  end.

Definition dedup_key `{IpNetOps} (e : AlertEvent) : string :=
  match e with
  | AIpBanned ip _ _ _ => "IpBanned:" +:+ net_to_string ip
  | ASubnetBanned subnet _ _ => "SubnetBanned:" +:+ net_to_string subnet
  | APeerDown node_id _ => "PeerDown:" +:+ node_id
  | APeerQuarantined node_id _ => "PeerQuarantined:" +:+ node_id
  | AHighThreatDetected ip _ _ => "HighThreatDetected:" +:+ ip
  | AHoneypotHit ip path => "HoneypotHit:" +:+ ip +:+ ":" +:+ path
  | ABanRateAnomaly _ _ => "BanRateAnomaly"
  end.

Definition RETRY_DELAYS : list Duration := [secs 5; secs 30; secs 120; secs 600].
Definition MAX_ATTEMPTS : Z := 4.

Record AlertDispatcherConfig : Type := { adc_cooldown_secs : Z; adc_queue_depth : nat; adc_channel_capacity : nat }.
Definition alert_config_default : AlertDispatcherConfig :=
  {| adc_cooldown_secs := 600; adc_queue_depth := 1000; adc_channel_capacity := 1024 |}.

Record PendingAlert : Type := {
  pa_event : AlertEvent; pa_notifier_idx : nat; pa_dedup_key : string; pa_attempt : Z; pa_next_try : DateTime;
}.
Record NotifierState : Type := { ns_supports : AlertKind -> bool; ns_last_sent : gmap string DateTime }.

Definition on_cooldown (key : string) (window : Duration) (now : DateTime) (st : NotifierState) : bool :=
  match ns_last_sent st !! key with Some t => now - t <? window | None => false end.
Definition record_sent (key : string) (now : DateTime) (st : NotifierState) : NotifierState :=
  {| ns_supports := ns_supports st; ns_last_sent := <[key := now]> (ns_last_sent st) |}.

(** A call of [notify]: when the cooldown was checked and when it returned. *)
Inductive outcome : Type := Delivered | Requeued (delay : Duration) | GivenUp.
Record Attempt : Type := {
  at_notifier : nat; at_key : string; at_attempt : Z; at_checked : DateTime; at_done : DateTime; at_outcome : outcome;
}.

(** The notifiers, the retry queue, how much of the two sequences is consumed,
    and the calls so far. *)
Record Dispatcher : Type := {
  di_notifiers : list NotifierState; di_queue : list PendingAlert; di_reads : nat; di_calls : nat; di_log : list Attempt;
}.

Section dispatcher.
Context `{IpNetOps} (clock : nat -> DateTime) (delivers : nat -> bool).

(** A delivery to the notifier [idx] unless the key is on cooldown: the state,
    and [Some now] when it failed. (The source reads the clock only where it
    needs it; the readings are arbitrary, so one more changes nothing.) *)
Definition deliver (cooldown : Duration) (idx : nat) (st : NotifierState) (key : string) (attempt : Z)
    (on_failure : outcome) (d : Dispatcher) : Dispatcher * option DateTime :=
  let checked := clock (di_reads d) in
  if on_cooldown key cooldown checked st
  then ({| di_notifiers := di_notifiers d; di_queue := di_queue d; di_reads := S (di_reads d); di_calls := di_calls d; di_log := di_log d |}, None)
  else
    let now := clock (S (di_reads d)) in
    let ok := delivers (di_calls d) in
    let call := {| at_notifier := idx; at_key := key; at_attempt := attempt; at_checked := checked; at_done := now;
                   at_outcome := if ok then Delivered else on_failure |} in
    ({| di_notifiers := if ok then <[idx := record_sent key now st]> (di_notifiers d) else di_notifiers d;
        di_queue := di_queue d; di_reads := S (S (di_reads d)); di_calls := S (di_calls d); di_log := di_log d ++ [call] |},
     if ok then None else Some now).

Definition set_queue (q : list PendingAlert) (d : Dispatcher) : Dispatcher :=
  {| di_notifiers := di_notifiers d; di_queue := q; di_reads := di_reads d; di_calls := di_calls d; di_log := di_log d |}.

(** Room for one more: the oldest pending alert is dropped when full. *)
Definition queue_push (depth : nat) (p : PendingAlert) (q : list PendingAlert) : list PendingAlert :=
  (if (depth <=? length q)%nat then tail q else q) ++ [p].

Definition delay_at (n : nat) : Duration := default (secs 600) (RETRY_DELAYS !! n).

Definition offer (event : AlertEvent) (cooldown : Duration) (depth : nat) (d : Dispatcher) (idx : nat) : Dispatcher :=
  match di_notifiers d !! idx with
  | None => d
  | Some st =>
      if negb (ns_supports st (alert_kind event)) then d
      else
        let key := dedup_key event in
        let '(d, failed) := deliver cooldown idx st key 0 (Requeued (delay_at 0)) d in
        match failed with
        | None => d
        | Some now =>
            set_queue (queue_push depth {| pa_event := event; pa_notifier_idx := idx; pa_dedup_key := key; pa_attempt := 1;
                                           pa_next_try := now + delay_at 0 |} (di_queue d)) d
        end
  end.
Definition handle_new_event (event : AlertEvent) (cooldown : Duration) (depth : nat) (d : Dispatcher) : Dispatcher :=
  foldl (offer event cooldown depth) d (seq 0 (length (di_notifiers d))).

(** One pending alert: what stays pending of it. *)
Definition retry_one (cooldown : Duration) (now : DateTime) (d : Dispatcher) (p : PendingAlert) : Dispatcher * list PendingAlert :=
  if now <? pa_next_try p then (d, [p])
  else
    match di_notifiers d !! pa_notifier_idx p with
    | None => (d, [])
    | Some st =>
        let next := u32_add (pa_attempt p) 1 in
        let delay := delay_at (Z.to_nat next) in
        let exhausted := MAX_ATTEMPTS <=? next in
        let '(d, failed) := deliver cooldown (pa_notifier_idx p) st (pa_dedup_key p) (pa_attempt p)
                              (if exhausted then GivenUp else Requeued delay) d in
        match failed with
        | None => (d, [])
        | Some t =>
            if exhausted then (d, [])
            else (d, [{| pa_event := pa_event p; pa_notifier_idx := pa_notifier_idx p; pa_dedup_key := pa_dedup_key p;
                         pa_attempt := next; pa_next_try := t + delay |}])
        end
    end.
Fixpoint retry_loop (cooldown : Duration) (now : DateTime) (queue still : list PendingAlert) (d : Dispatcher) : Dispatcher :=
  match queue with
  | [] => set_queue still d
  | p :: queue' =>
      let '(d, kept) := retry_one cooldown now d p in retry_loop cooldown now queue' (still ++ kept) d
  end.
Definition process_retry_queue (cooldown : Duration) (d : Dispatcher) : Dispatcher :=
  let now := clock (di_reads d) in
  retry_loop cooldown now (di_queue d) []
    {| di_notifiers := di_notifiers d; di_queue := []; di_reads := S (di_reads d); di_calls := di_calls d; di_log := di_log d |}.

(** How long the loop sleeps before it looks at the queue again. *)
Definition next_retry_in (now : DateTime) (d : Dispatcher) : option Duration :=
  (fun p => saturating_sub (pa_next_try p) now) <$> head (di_queue d).

(** ** The loop *)
Definition dispatcher_new (notifiers : list (AlertKind -> bool)) : Dispatcher :=
  {| di_notifiers := (fun f => {| ns_supports := f; ns_last_sent := ∅ |}) <$> notifiers; di_queue := []; di_reads := 0; di_calls := 0;
     di_log := [] |}.

Inductive dispatch_step : Type := DEvent (event : AlertEvent) | DTimer.
Definition dispatch (cfg : AlertDispatcherConfig) (d : Dispatcher) (s : dispatch_step) : Dispatcher :=
  let cooldown := secs (adc_cooldown_secs cfg) in
  match s with
  | DEvent event => handle_new_event event cooldown (adc_queue_depth cfg) d
  | DTimer => process_retry_queue cooldown d
  end.
Definition dispatch_run (cfg : AlertDispatcherConfig) (notifiers : list (AlertKind -> bool)) (steps : list dispatch_step) : Dispatcher :=
  foldl (dispatch cfg) (dispatcher_new notifiers) steps.
End dispatcher.

(** ** What the dispatcher promises *)
Lemma strongly_sorted_snoc {A} (R : A -> A -> Prop) (l : list A) (x : A) :
  StronglySorted R l -> Forall (fun a => R a x) l -> StronglySorted R (l ++ [x]).
Proof.
  induction 1 as [|y l Hs IH Hy]; intros Hx; simpl; [by repeat constructor|]. apply Forall_cons in Hx as [Hyx Hx].
  constructor; [by apply IH|]. apply Forall_app. split; [done|by repeat constructor].
Qed.

Lemma strongly_sorted_lookup {A} (R : A -> A -> Prop) (l : list A) (i j : nat) (a b : A) :
  StronglySorted R l -> l !! i = Some a -> l !! j = Some b -> (i < j)%nat -> R a b.
Proof.
  intros Hl. revert i j. induction Hl as [|x l Hl IH Hx]; intros [|i] [|j] Ha Hb Hij; simplify_eq/=; try lia.
  - rewrite Forall_forall in Hx. apply Hx. by eapply list_elem_of_lookup_2.
  - apply (IH i j); [done|done|lia].
Qed.

(** After a delivery the same notifier is not called for the same key until the
    cooldown is over. *)
Definition apart (cooldown : Duration) (a b : Attempt) : Prop :=
  at_outcome a = Delivered -> at_notifier a = at_notifier b -> at_key a = at_key b -> cooldown <= at_checked b - at_done a.

(** The first call and three retries, 5 seconds, 2 minutes and 10 minutes after
    the failure before. *)
Definition on_schedule (a : Attempt) : Prop :=
  0 <= at_attempt a <= 3 /\
  match at_outcome a with
  | Delivered => True
  | Requeued delay => at_attempt a < 3 /\ [secs 5; secs 120; secs 600] !! Z.to_nat (at_attempt a) = Some delay
  | GivenUp => at_attempt a = 3
  end.

Section promises.
Context `{IpNetOps} (clock : nat -> DateTime) (delivers : nat -> bool).
Context (monotone : forall n, clock n <= clock (S n)).

Record dispatch_inv (cooldown : Duration) (d : Dispatcher) : Prop := {
  di_apart : StronglySorted (apart cooldown) (di_log d);
  di_scheduled : Forall on_schedule (di_log d);
  di_past : Forall (fun a => at_done a <= clock (di_reads d)) (di_log d);
  di_remembered : Forall (fun a => at_outcome a = Delivered -> exists st t,
    di_notifiers d !! at_notifier a = Some st /\ ns_last_sent st !! at_key a = Some t /\ at_done a <= t) (di_log d);
}.

Lemma past_later (n : nat) (l : list Attempt) :
  Forall (fun a => at_done a <= clock n) l -> Forall (fun a => at_done a <= clock (S n)) l.
Proof using monotone. intros Hl. eapply Forall_impl; [exact Hl|]. intros a Ha. specialize (monotone n). simpl in *. lia. Qed.

Lemma set_queue_inv (cooldown : Duration) (q : list PendingAlert) (d : Dispatcher) :
  dispatch_inv cooldown d -> dispatch_inv cooldown (set_queue q d).
Proof. intros [? ? ? ?]. by constructor. Qed.

Lemma reads_inv (cooldown : Duration) (q : list PendingAlert) (d : Dispatcher) : dispatch_inv cooldown d ->
  dispatch_inv cooldown {| di_notifiers := di_notifiers d; di_queue := q; di_reads := S (di_reads d); di_calls := di_calls d; di_log := di_log d |}.
Proof using monotone. intros [? ? ? ?]. constructor; try done. by apply past_later. Qed.

(** A delivered alert is remembered, and what was remembered stays. *)
Lemma remember_insert (idx : nat) (key : string) (st : NotifierState) (now : DateTime) (ns : list NotifierState) (a : Attempt) :
  ns !! idx = Some st -> at_done a <= now ->
  (at_notifier a = idx /\ at_key a = key \/ exists st' t, ns !! at_notifier a = Some st' /\ ns_last_sent st' !! at_key a = Some t /\ at_done a <= t) ->
  exists st' t, <[idx := record_sent key now st]> ns !! at_notifier a = Some st' /\ ns_last_sent st' !! at_key a = Some t /\ at_done a <= t.
Proof.
  intros Hst Ha Hr. pose proof (lookup_lt_Some _ _ _ Hst) as Hlen. destruct (decide (at_notifier a = idx)) as [Ei|Ei].
  - exists (record_sent key now st). rewrite Ei, list_lookup_insert_eq by done. simpl.
    destruct (decide (at_key a = key)) as [->|Ek]; [exists now; by rewrite lookup_insert_eq|].
    destruct Hr as [[_ ?]|(st' & t & H1 & H2 & H3)]; [done|]. rewrite Ei, Hst in H1. injection H1 as <-.
    exists t. by rewrite lookup_insert_ne.
  - rewrite list_lookup_insert_ne by congruence. destruct Hr as [[? _]|Hr]; [done|exact Hr].
Qed.

Lemma deliver_inv (cooldown : Duration) (idx : nat) (st : NotifierState) (key : string) (attempt : Z) (o : outcome) (d : Dispatcher) :
  dispatch_inv cooldown d -> di_notifiers d !! idx = Some st ->
  (forall c t, on_schedule {| at_notifier := idx; at_key := key; at_attempt := attempt; at_checked := c; at_done := t; at_outcome := o |}) ->
  o <> Delivered -> 0 <= attempt <= 3 ->
  dispatch_inv cooldown (deliver clock delivers cooldown idx st key attempt o d).1 /\
  di_queue (deliver clock delivers cooldown idx st key attempt o d).1 = di_queue d /\
  length (di_notifiers (deliver clock delivers cooldown idx st key attempt o d).1) = length (di_notifiers d).
Proof using monotone.
  intros Hd Hst Hs Ho Hatt. unfold deliver. destruct (on_cooldown key cooldown _ st) eqn:Ec; [split; [by apply reads_inv|done]|].
  pose proof (past_later _ _ (past_later _ _ (di_past _ _ Hd))) as Hp2. pose proof (past_later _ _ (di_past _ _ Hd)) as Hp1.
  destruct Hd as [Hap Hsc Hpast Hrem]. cbn [fst]. split; [|split; [done|destruct (delivers _); [apply length_insert|done]]].
  constructor; cbn [di_log di_reads di_notifiers].
  - apply strongly_sorted_snoc; [done|]. eapply Forall_impl; [exact Hrem|]. intros a Ha Hdel Hn Hk. simpl in *.
    destruct (Ha Hdel) as (st' & t & H1 & H2 & H3). rewrite Hn, Hst in H1. injection H1 as <-. rewrite Hk in H2.
    unfold on_cooldown in Ec. rewrite H2 in Ec. apply Z.ltb_ge in Ec. lia.
  - apply Forall_app. split; [done|]. constructor; [|done]. destruct (delivers _); [|apply Hs]. split; [simpl; lia|done].
  - apply Forall_app. split; [done|]. constructor; [|done]. simpl. apply monotone.
  - apply Forall_app. split.
    + apply Forall_forall. intros a Ha Hdel. rewrite Forall_forall in Hrem, Hp1. specialize (Hrem a Ha Hdel). destruct (delivers _); [|done].
      apply remember_insert; [done|by apply Hp1|by right].
    + constructor; [|done]. destruct (delivers _); [|done]. intros _.
      apply (remember_insert idx key st (clock (S (di_reads d))) (di_notifiers d)
               {| at_notifier := idx; at_key := key; at_attempt := attempt; at_checked := clock (di_reads d);
                  at_done := clock (S (di_reads d)); at_outcome := Delivered |}); [done|simpl; lia|by left].
Qed.

Definition retries_ok (q : list PendingAlert) : Prop := Forall (fun p => 1 <= pa_attempt p <= 3) q.
Definition queue_bounded (depth : nat) (q : list PendingAlert) : Prop := retries_ok q /\ (length q <= Nat.max 1 depth)%nat.

Lemma queue_push_bounded (depth : nat) (p : PendingAlert) (q : list PendingAlert) :
  queue_bounded depth q -> 1 <= pa_attempt p <= 3 -> queue_bounded depth (queue_push depth p q).
Proof.
  intros [Hq Hlen] Hp. unfold queue_push. destruct (Nat.leb_spec depth (length q)); split; rewrite ?length_app; simpl.
  - apply Forall_app. split; [|by apply Forall_singleton]. destruct q; [constructor|by apply Forall_cons in Hq as [_ ?]].
  - destruct q; simpl in *; lia.
  - apply Forall_app. split; [done|by apply Forall_singleton].
  - lia.
Qed.

Lemma offer_inv (event : AlertEvent) (cooldown : Duration) (depth : nat) (d : Dispatcher) (idx : nat) :
  dispatch_inv cooldown d -> queue_bounded depth (di_queue d) ->
  dispatch_inv cooldown (offer clock delivers event cooldown depth d idx) /\
  queue_bounded depth (di_queue (offer clock delivers event cooldown depth d idx)).
Proof using monotone.
  intros Hd Hq. unfold offer. destruct (di_notifiers d !! idx) as [st|] eqn:Est; [|done]. destruct (negb _); [done|].
  pose proof (deliver_inv cooldown idx st (dedup_key event) 0 (Requeued (delay_at 0)) d Hd Est) as Hdel.
  destruct (deliver _ _ _ _ _ _ _ _ _) as [d' [now|]]; cbn [fst] in Hdel.
  - destruct Hdel as (Hd' & Hq' & _); [intros; repeat split; simpl; lia|done|lia|]. split; [by apply set_queue_inv|].
    simpl. apply queue_push_bounded; [by rewrite Hq'|simpl; lia].
  - destruct Hdel as (Hd' & Hq' & _); [intros; repeat split; simpl; lia|done|lia|]. split; [done|by rewrite Hq'].
Qed.

Lemma retry_one_inv (cooldown : Duration) (now : DateTime) (d : Dispatcher) (p : PendingAlert) :
  dispatch_inv cooldown d -> 1 <= pa_attempt p <= 3 ->
  let '(d', kept) := retry_one clock delivers cooldown now d p in
  dispatch_inv cooldown d' /\ retries_ok kept /\ (length kept <= 1)%nat.
Proof using monotone.
  intros Hd Hp. unfold retry_one. destruct (now <? _); [split_and!; [done|by apply Forall_singleton|done]|].
  destruct (di_notifiers d !! pa_notifier_idx p) as [st|] eqn:Est; [|split_and!; [done|constructor|simpl; lia]].
  assert (Enext : u32_add (pa_attempt p) 1 = pa_attempt p + 1) by (apply wrap_small; unfold in_width; lia). rewrite Enext.
  set (ex := MAX_ATTEMPTS <=? pa_attempt p + 1). set (o := if ex then _ else _).
  assert (Hs : forall c t, on_schedule {| at_notifier := pa_notifier_idx p; at_key := pa_dedup_key p; at_attempt := pa_attempt p;
                                          at_checked := c; at_done := t; at_outcome := o |}).
  { intros c t. split; [simpl; lia|]. unfold o, ex, MAX_ATTEMPTS. simpl. destruct (Z.leb_spec 4 (pa_attempt p + 1)); [lia|].
    split; [lia|]. assert (pa_attempt p = 1 \/ pa_attempt p = 2) as [->| ->] by lia; done. }
  pose proof (deliver_inv cooldown (pa_notifier_idx p) st (pa_dedup_key p) (pa_attempt p) o d Hd Est Hs) as Hdel.
  destruct (deliver _ _ _ _ _ _ _ _ _) as [d' [t|]]; cbn [fst] in Hdel.
  - destruct Hdel as (Hd' & _ & _); [unfold o; by destruct ex|lia|]. unfold ex, MAX_ATTEMPTS.
    destruct (Z.leb_spec 4 (pa_attempt p + 1)); (split_and!; [done| |simpl; lia]); [constructor|]. constructor; [simpl; lia|constructor].
  - destruct Hdel as (Hd' & _ & _); [unfold o; by destruct ex|lia|]. split_and!; [done|constructor|simpl; lia].
Qed.

Lemma retry_loop_inv (cooldown : Duration) (now : DateTime) (depth : nat) (queue still : list PendingAlert) (d : Dispatcher) :
  dispatch_inv cooldown d -> retries_ok queue -> retries_ok still -> (length still + length queue <= Nat.max 1 depth)%nat ->
  let d' := retry_loop clock delivers cooldown now queue still d in dispatch_inv cooldown d' /\ queue_bounded depth (di_queue d').
Proof using monotone.
  revert still d. induction queue as [|p queue IH]; intros still d Hd Hq Hs Hlen; simpl in *.
  - split; [by apply set_queue_inv|]. split; [done|simpl; lia].
  - apply Forall_cons in Hq as [Hp Hq]. pose proof (retry_one_inv cooldown now d p Hd Hp) as Hr.
    destruct (retry_one _ _ _ _ _ _) as [d' kept]. destruct Hr as (Hd' & Hk & Hn). apply IH; [done|done| |].
    + apply Forall_app. by split.
    + rewrite length_app. lia.
Qed.

Lemma dispatch_step_inv (cfg : AlertDispatcherConfig) (d : Dispatcher) (s : dispatch_step) :
  let cooldown := secs (adc_cooldown_secs cfg) in
  dispatch_inv cooldown d /\ queue_bounded (adc_queue_depth cfg) (di_queue d) ->
  dispatch_inv cooldown (dispatch clock delivers cfg d s) /\ queue_bounded (adc_queue_depth cfg) (di_queue (dispatch clock delivers cfg d s)).
Proof using monotone.
  intros cooldown [Hd Hq]. destruct s as [event|]; simpl.
  - unfold handle_new_event. generalize (seq 0 (length (di_notifiers d))). intros l. revert d Hd Hq.
    induction l as [|idx l IH]; intros d Hd Hq; [done|]. simpl. destruct (offer_inv event cooldown (adc_queue_depth cfg) d idx Hd Hq).
    by apply IH.
  - destruct Hq as [Hq Hlen]. apply retry_loop_inv; [by apply reads_inv|done|constructor|simpl; lia].
Qed.

Lemma dispatch_run_inv (cfg : AlertDispatcherConfig) (notifiers : list (AlertKind -> bool)) (steps : list dispatch_step) :
  let d := dispatch_run clock delivers cfg notifiers steps in
  dispatch_inv (secs (adc_cooldown_secs cfg)) d /\ queue_bounded (adc_queue_depth cfg) (di_queue d).
Proof using monotone.
  cbv zeta. induction steps as [|s steps IH] using rev_ind.
  - split; [by repeat constructor|]. split; [constructor|simpl; lia].
  - unfold dispatch_run. rewrite foldl_app. by apply dispatch_step_inv.
Qed.

(** No alert storm: through any alerts and retries, whatever deliveries fail, a
    notifier that received an alert is not called again for the same key before
    the cooldown is over, neither for a new alert nor for a retry. *)
Theorem alert_cooldown_kept (cfg : AlertDispatcherConfig) (notifiers : list (AlertKind -> bool)) (steps : list dispatch_step)
  (i j : nat) (a b : Attempt) (Ha : di_log (dispatch_run clock delivers cfg notifiers steps) !! i = Some a)
  (Hb : di_log (dispatch_run clock delivers cfg notifiers steps) !! j = Some b) (Hij : (i < j)%nat)
  (Hdel : at_outcome a = Delivered) (Hsame : at_notifier a = at_notifier b /\ at_key a = at_key b) :
  secs (adc_cooldown_secs cfg) <= at_checked b - at_done a.
Proof using monotone.
  destruct (dispatch_run_inv cfg notifiers steps) as [[Hap _ _ _] _].
  by apply (strongly_sorted_lookup _ _ _ _ _ _ Hap Ha Hb Hij Hdel); apply Hsame.
Qed.

(** Retrying ends and stays within its memory: through any alerts and retries,
    whatever deliveries fail, an alert is tried at most four times, 5 seconds, 2
    minutes and 10 minutes after the failure before, is given up after the
    fourth only, and at most [queue_depth] alerts wait (one when the depth is
    zero). *)
Theorem alert_retries_bounded (cfg : AlertDispatcherConfig) (notifiers : list (AlertKind -> bool)) (steps : list dispatch_step) :
  let d := dispatch_run clock delivers cfg notifiers steps in
  Forall on_schedule (di_log d) /\ Forall (fun p => 1 <= pa_attempt p <= 3) (di_queue d) /\
  (length (di_queue d) <= Nat.max 1 (adc_queue_depth cfg))%nat.
Proof using monotone. destruct (dispatch_run_inv cfg notifiers steps) as [[_ Hs _ _] [Hq Hl]]. by split_and!. Qed.
End promises.

(** The sleep before the next look at the queue is that of its first alert, not
    of the most urgent: a retry due in 5 seconds waits behind one due in ten
    minutes. *)
Theorem urgent_retry_waits (now : DateTime) (d : Dispatcher) (p q : PendingAlert) (rest : list PendingAlert)
  (Hq : di_queue d = p :: q :: rest) (Hp : pa_next_try p = now + secs 600) (Hdue : pa_next_try q = now + secs 5) :
  next_retry_in now d = Some (secs 600).
Proof. unfold next_retry_in. rewrite Hq. simpl. rewrite Hp. f_equal. unfold saturating_sub, secs, nanos_per_sec. lia. Qed.

(** ** Witnesses *)
Module AlertSample.
#[local] Existing Instance ipnet_ref.
Definition clock (n : nat) : DateTime := secs (60 * Z.of_nat n).
Lemma clock_monotone (n : nat) : clock n <= clock (S n).
Proof. unfold clock, secs, nanos_per_sec. lia. Qed.
(** The first call fails. *)
Definition delivers (n : nat) : bool := negb (n =? 0)%nat.
Definition hit : AlertEvent := AHoneypotHit "1.2.3.4" "/x".
Definition steps : list dispatch_step := [DEvent hit; DTimer; DEvent hit; DTimer; DEvent hit; DEvent hit; DEvent hit; DEvent hit;
  DEvent hit; DEvent hit; DEvent hit; DEvent hit; DEvent hit; DEvent hit].
Definition config : AlertDispatcherConfig := {| adc_cooldown_secs := 600; adc_queue_depth := 10; adc_channel_capacity := 10 |}.
Definition d : Dispatcher := dispatch_run clock delivers config [fun _ => true] steps.

(** One failure, the retry, and the next delivery ten minutes later. *)
Lemma alert_cooldown_kept_witness : length (di_log d) = 3%nat /\ 600 * nanos_per_sec <= secs (60 * 14) - secs (60 * 4).
Proof.
  split; [by vm_compute|].
  apply (alert_cooldown_kept clock delivers clock_monotone config [fun _ => true] steps 1 2
    {| at_notifier := 0; at_key := "HoneypotHit:1.2.3.4:/x"; at_attempt := 1; at_checked := secs (60 * 3); at_done := secs (60 * 4); at_outcome := Delivered |}
    {| at_notifier := 0; at_key := "HoneypotHit:1.2.3.4:/x"; at_attempt := 0; at_checked := secs (60 * 14); at_done := secs (60 * 15);
       at_outcome := Delivered |}); [by vm_compute|by vm_compute|lia|done|done].
Defined.

Lemma alert_retries_bounded_witness : (length (di_queue d) <= 10)%nat.
Proof. exact (proj2 (proj2 (alert_retries_bounded clock delivers clock_monotone config [fun _ => true] steps))). Defined.

Definition pending (t : DateTime) : PendingAlert :=
  {| pa_event := hit; pa_notifier_idx := 0; pa_dedup_key := ""; pa_attempt := 1; pa_next_try := t |}.
Lemma urgent_retry_waits_witness :
  next_retry_in 0 {| di_notifiers := []; di_queue := [pending (secs 600); pending (secs 5)]; di_reads := 0; di_calls := 0; di_log := [] |}
  = Some (secs 600).
Proof. by apply (urgent_retry_waits 0 _ (pending (secs 600)) (pending (secs 5)) []). Defined.
End AlertSample.
