(* ===== verification/Sanitize.v ===== *)
(** * Untrusted text ([hiveguard-plugin-api/src/sanitize.rs])

    What log data goes through before an agent sees it: control, escape and
    invisible characters are removed, credentials in query strings masked, text
    cut to length and text that reads like an instruction flagged. A string is
    its list of characters (code points); the masking of the source runs over
    bytes, but looks at ASCII characters only. *)
From S2P Require Import Prelude Text SigmaCond PluginConfig Secrets Host.
Local Open Scope Z_scope.

Definition UNTRUSTED_FIELD_MAX : nat := Z.to_nat 512.
Definition UNTRUSTED_LINE_MAX : nat := Z.to_nat 2048.
Definition TRUNCATION_MARK : str := 8230 :: as_bytes "[truncated]".
Definition MASK : str := as_bytes "***".
Definition DATA_TRUST_VALUE : str := as_bytes "untrusted_log_data".
Definition SECRET_QUERY_PARAMS : list str :=
  as_bytes <$> ["code"; "token"; "access_token"; "id_token"; "key"; "apikey"; "api_key"; "signature"; "sig"; "password"; "pass"; "pwd";
                "secret"; "session"; "sessionid"; "cronkey"; "auth"]%string.

(** ** Characters *)
Definition is_invisible_or_control (c : Z) : bool :=
  ((c <? 32) && negb (c =? 9)) || (c =? 127) || ((128 <=? c) && (c <=? 159)) || ((8234 <=? c) && (c <=? 8238)) ||
  ((8294 <=? c) && (c <=? 8297)) || ((8203 <=? c) && (c <=? 8207)) || (c =? 8288) || (c =? 65279) || ((917504 <=? c) && (c <=? 917631)).

(** Where the loop of [strip_unsafe_chars] stands: in the text, after an
    escape, in a control sequence, in an escaped string, or after an escape
    inside one. *)
Inductive strip_mode : Type := MText | MEsc | MCsi | MOsc | MOscEsc.

Definition csi_final (c : Z) : bool := (64 <=? c) && (c <=? 126).
Definition osc_start (c : Z) : bool := bool_decide (c ∈ as_bytes "]PX^_").

(** [sp]: the output so far ends with a space. *)
Fixpoint strip_go (m : strip_mode) (sp : bool) (s : str) : str :=
  match s with
  | [] => []
  | c :: s' =>
      let text :=
        if c =? 27 then strip_go MEsc sp s'
        else if c =? 155 then strip_go MCsi sp s'
        else if (c =? 10) || (c =? 13) then if sp then strip_go MText true s' else 32 :: strip_go MText true s'
        else if is_invisible_or_control c then strip_go MText sp s'
        else c :: strip_go MText (c =? 32) s' in
      match m with
      | MText => text
      | MEsc => if c =? 91 then strip_go MCsi sp s' else if osc_start c then strip_go MOsc sp s' else strip_go MText sp s'
      | MCsi => if csi_final c then strip_go MText sp s' else strip_go MCsi sp s'
      | MOsc => if (c =? 7) || (c =? 156) then strip_go MText sp s' else if c =? 27 then strip_go MOscEsc sp s' else strip_go MOsc sp s'
      | MOscEsc => if c =? 92 then strip_go MText sp s' else text
      end
  end.

Definition strip_unsafe_chars (s : str) : str := if existsb is_invisible_or_control s then strip_go MText false s else s.

(** ** Masking *)
Definition is_sep (c : Z) : bool := bool_decide (c ∈ as_bytes "?&;").
Definition name_char (c : Z) : bool := is_ascii_alpha c || is_ascii_digit c || bool_decide (c ∈ as_bytes "_-.").
Definition value_char (c : Z) : bool := negb (bool_decide (c ∈ [38; 59; 35; 34; 39; 32; 9; 10; 13])).
Definition secret_name (name : str) : bool := existsb (fun p => eq_ignore_ascii_case p name) SECRET_QUERY_PARAMS.

(** The loop from the character at hand on; the part copied so far is behind. *)
Fixpoint mask_from (fuel : nat) (s : str) : str :=
  match fuel, s with
  | S fuel', b :: t =>
      if is_sep b then
        let '(name, r) := span name_char t in
        match r with
        | e :: v =>
            if negb (bool_decide (name = [])) && (e =? 61) && secret_name name then
              let '(val, rest) := span value_char v in
              b :: name ++ e :: (if bool_decide (val = []) then [] else MASK) ++ mask_from fuel' rest
            else b :: mask_from fuel' t
        | [] => b :: mask_from fuel' t
        end
      else b :: mask_from fuel' t
  | _, _ => s
  end.
Definition mask_secret_params (s : str) : str := if bool_decide (61 ∈ s) then mask_from (length s) s else s.

(** ** Length *)
Definition truncate_marked (s : str) (max : nat) : str := if (length s <=? max)%nat then s else take max s ++ TRUNCATION_MARK.
Definition sanitize_text (s : str) (max : nat) : str := truncate_marked (mask_secret_params (strip_unsafe_chars s)) max.

(** ** Instructions *)
Definition INSTRUCTION_PATTERNS : list str :=
  as_bytes <$> ["ignore all instructions"; "ignore previous instructions"; "ignore all previous instructions"; "ignore prior instructions";
                "ignore the above"; "disregard previous instructions"; "disregard all previous instructions"; "forget previous instructions";
                "system prompt"; "you are now"; "new instructions"; "unban"; "whitelist"; "allowlist"; "<|im_start|>"; "<|im_end|>";
                "<|system|>"; "<|endoftext|>"; "[inst]"; "[/inst]"; "<<sys>>"]%string.

Definition hex_value (b : Z) : option Z :=
  if is_ascii_digit b then Some (b - 48)
  else if (97 <=? b) && (b <=? 102) then Some (b - 87)
  else if (65 <=? b) && (b <=? 70) then Some (b - 55) else None.

Fixpoint percent_bytes (s : bytes) : bytes :=
  match s with
  | 37 :: ((h :: l :: rest) as t) =>
      match hex_value h, hex_value l with
      | Some x, Some y => (x * 16 + y) :: percent_bytes rest
      | _, _ => 37 :: percent_bytes t
      end
  | b :: t => (if b =? 43 then 32 else b) :: percent_bytes t
  | [] => []
  end.
Definition percent_decode_lossy (s : bytes) : bytes := from_utf8_lossy (percent_bytes s).

Section instructions.
Context `{UnicodeTables}.

(** Words set apart by single spaces. *)
Fixpoint fold_words (last_space : bool) (s : str) : str :=
  match s with
  | [] => if last_space then [] else [32]
  | c :: s' =>
      if is_alphanumeric c then c :: fold_words false s'
      else if last_space then fold_words true s' else 32 :: fold_words true s'
  end.

Definition is_phrase (p : str) : bool := forallb (fun c => is_ascii_alpha c || (c =? 32)) p.

Definition looks_like_instruction (s : str) : bool :=
  if (length (utf8 s) <? 4)%nat then false else
  let decoded := to_lowercase (chars (percent_decode_lossy (percent_decode_lossy (utf8 s)))) in
  let words := 32 :: fold_words true decoded in
  existsb (fun p => if is_phrase p then contains (32 :: p ++ [32]) words else contains p decoded) INSTRUCTION_PATTERNS.

(** ** Responses *)
Definition LINE_KEYS : list str := as_bytes <$> ["raw"; "message"; "reason"; "line"]%string.
Definition INSTRUCTION_FLAG : str := as_bytes "instruction_like".
Definition DATA_TRUST : str := as_bytes "data_trust".

Fixpoint obj_insert (k : str) (v : Value) (m : list (str * Value)) : list (str * Value) :=
  match m with
  | [] => [(k, v)]
  | (k', v') :: m' => if bool_decide (k' = k) then (k, v) :: m' else (k', v') :: obj_insert k v m'
  end.

Definition text_limit (key : option str) : nat :=
  if default false ((fun k => bool_decide (k ∈ LINE_KEYS)) <$> key) then UNTRUSTED_LINE_MAX else UNTRUSTED_FIELD_MAX.

(** The cleaned value, whether a string of the enclosing object was hit, and
    how many objects were flagged inside. *)
Fixpoint walk (key : option str) (v : Value) : Value * bool * nat :=
  match v with
  | VString s => let clean := sanitize_text s (text_limit key) in (VString clean, looks_like_instruction clean, 0%nat)
  | VArray items =>
      let '(l, hit, n) :=
        (fix go l := match l with
                     | [] => ([], false, 0%nat)
                     | x :: l' =>
                         let '(x', hx, nx) := walk key x in
                         let '(rest, hr, nr) := go l' in (x' :: rest, hx || hr, (nx + nr)%nat)
                     end) items in
      (VArray l, hit, n)
  | VObject m =>
      let '(m', own, n) :=
        (fix go m := match m with
                     | [] => ([], false, 0%nat)
                     | (k, x) :: m' =>
                         let '(rest, hr, nr) := go m' in
                         if bool_decide (k = DATA_TRUST) || bool_decide (k = INSTRUCTION_FLAG) then ((k, x) :: rest, hr, nr)
                         else let '(x', hx, nx) := walk (Some k) x in ((k, x') :: rest, hx || hr, (nx + nr)%nat)
                     end) m in
      if own then (VObject (obj_insert INSTRUCTION_FLAG (VBool true) m'), false, S n) else (VObject m', false, n)
  | v => (v, false, 0%nat)
  end.

(** The last case of the source, a hit with no object around it, has nothing to
    flag: [walk] reports no hit of an object itself. *)
Definition sanitize_untrusted_json (v : Value) : Value * nat :=
  let '(v', own, n) := walk None v in
  match own, v' with
  | true, VObject m => (VObject (obj_insert INSTRUCTION_FLAG (VBool true) m), S n)
  | _, _ => (v', n)
  end.

Definition finalize_untrusted_response (v : Value) : Value :=
  let '(v', n) := sanitize_untrusted_json v in
  match v' with
  | VObject m =>
      let m := obj_insert DATA_TRUST (VString DATA_TRUST_VALUE) m in
      VObject (if (0 <? n)%nat then obj_insert (as_bytes "instruction_like_count") (VNumber (as_bytes (fmt_uint (Z.of_nat n)))) m else m)
  | v' => v'
  end.
End instructions.

(** ** Nothing unsafe is left *)
Definition shown (c : Z) : Prop := is_invisible_or_control c = false.

Lemma strip_go_shown (m : strip_mode) (sp : bool) (s : str) : Forall shown (strip_go m sp s).
Proof.
  revert m sp. induction s as [|c s IH]; intros m sp; simpl; [done|]. destruct m; repeat case_match; try constructor; done.
Qed.

Lemma strip_shown (s : str) : Forall shown (strip_unsafe_chars s).
Proof.
  unfold strip_unsafe_chars. case_match eqn:E; [apply strip_go_shown|]. rewrite <- not_true_iff_false, existsb_exists in E.
  apply Forall_forall. intros c Hc. unfold shown. apply not_true_iff_false. intros Hu. apply E. exists c. by rewrite <- list_elem_of_In.
Qed.

(** Text with nothing unsafe in it is left alone. *)
Lemma strip_id (s : str) : Forall shown s -> strip_unsafe_chars s = s.
Proof.
  intros Hs. unfold strip_unsafe_chars. assert (existsb is_invisible_or_control s = false) as ->; [|done].
  apply not_true_iff_false. rewrite existsb_exists. intros (c & Hc & Hu). apply list_elem_of_In in Hc.
  rewrite Forall_forall in Hs. specialize (Hs c Hc). unfold shown in Hs. congruence.
Qed.

(** ** Masking *)
(** Splitting at a character that a prefix does not hold. *)
Lemma app_split_after (c : Z) (p q l r : str) : p ++ q = l ++ c :: r -> c ∉ p -> exists l', l = p ++ l' /\ q = l' ++ c :: r.
Proof.
  revert l. induction p as [|x p IH]; intros l E Hc; [by exists l|]. destruct l as [|y l]; simpl in E.
  - injection E as -> _. destruct Hc. left.
  - injection E as -> E. apply not_elem_of_cons in Hc as [_ Hc]. destruct (IH l E Hc) as (l' & -> & ->). by exists l'.
Qed.

Lemma sep_not_name (c : Z) : is_sep c = true -> name_char c = false.
Proof. unfold is_sep. intros H%bool_decide_eq_true. set_unfold in H. naive_solver. Qed.

Lemma sep_not_value (c : Z) : is_sep c = true -> c <> 61 /\ (c ∉ MASK) /\ (c ∉ TRUNCATION_MARK).
Proof.
  unfold is_sep. intros H%bool_decide_eq_true. split; [set_unfold in H; naive_solver|].
  set_unfold in H. destruct_or?; subst; try done; split; vm_compute; intros Hc; set_unfold in Hc; naive_solver.
Qed.

(** A parameter of the text: a separator, a name, [=], and what follows. *)
Definition query_param (o pre name rest : str) : Prop :=
  exists sep, o = pre ++ sep :: name ++ 61 :: rest /\ is_sep sep = true /\ Forall (fun c => name_char c = true) name.

Definition value_of (rest : str) : str := (span value_char rest).1.

(** Up to the first separator the text is copied. *)
Lemma mask_prefix (f : nat) (t p r : str) : mask_from f t = p ++ r -> Forall (fun c => is_sep c = false) p -> exists t', t = p ++ t'.
Proof.
  revert f t. induction p as [|c p IH]; intros f t E Hp; [by exists t|]. apply Forall_cons in Hp as [Hc Hp].
  destruct f as [|f]; [by exists r|]. destruct t as [|b t]; [done|]. simpl in E. destruct (is_sep b) eqn:Eb.
  - exfalso. repeat case_match; simplify_eq/=; congruence.
  - injection E as -> E. destruct (IH f t E Hp) as [t' ->]. by exists t'.
Qed.

(** The first character is copied. *)
Lemma mask_head (f : nat) (t : str) : head (mask_from f t) = head t.
Proof. destruct f, t as [|b t]; try done. simpl. by repeat case_match. Qed.

Lemma name_no_sep (name : str) : Forall (fun c => name_char c = true) name -> Forall (fun c => is_sep c = false) (name ++ [61]).
Proof.
  intros Hn. apply Forall_app. split; [|by repeat constructor]. eapply Forall_impl; [exact Hn|]. intros c Hc.
  destruct (is_sep c) eqn:Es; [|done]. apply sep_not_name in Es. simpl in *. congruence.
Qed.

Lemma sep_not_in_name (sep : Z) (name : str) : is_sep sep = true -> Forall (fun c => name_char c = true) name -> sep ∉ name.
Proof. intros Hs Hn Hin. rewrite Forall_forall in Hn. specialize (Hn sep Hin). apply sep_not_name in Hs. congruence. Qed.

(** What a masked value reads as, when what follows ends it. *)
Lemma masked_value (val r : str) : match head r with Some c => value_char c = false | None => True end ->
  value_of ((if bool_decide (val = []) then [] else MASK) ++ r) = if bool_decide (val = []) then [] else MASK.
Proof.
  intros Hr. unfold value_of. rewrite span_intro; [done| |by destruct r]. case_bool_decide; [constructor|].
  unfold MASK. vm_compute. repeat constructor.
Qed.

(** After masking, no credential-like parameter has a value but the mask. *)
Lemma mask_from_hides (f : nat) (s pre name rest : str) : (length s <= f)%nat -> query_param (mask_from f s) pre name rest ->
  name <> [] -> secret_name name = true -> value_of rest = [] \/ value_of rest = MASK.
Proof.
  revert s pre. induction f as [|f IH]; intros s pre Hf (sep & E & Hs & Hn) Hne Hsec.
  { destruct s; [|simpl in Hf; lia]. by destruct pre. }
  destruct s as [|b t]; [by destruct pre|]. simpl in Hf.
  assert (Hcopy : (is_sep b = true -> forall v, t = name ++ 61 :: v -> False) -> b :: mask_from f t = pre ++ sep :: name ++ 61 :: rest ->
    value_of rest = [] \/ value_of rest = MASK).
  { intros Hno E'. destruct pre as [|x pre]; injection E' as -> E'; [|by eapply (IH t pre); [lia|exists sep|..]].
    exfalso. rewrite cons_middle, (assoc_L (++)) in E'. destruct (mask_prefix _ _ _ _ E' (name_no_sep _ Hn)) as [t' Et].
    rewrite <- (assoc_L (++)) in Et. by eapply (Hno Hs t'). }
  simpl in E. destruct (is_sep b) eqn:Eb; [|by apply Hcopy].
  destruct (span name_char t) as [n r] eqn:Et. apply span_app in Et as (Et & Hn' & Hr).
  assert (Hsame : forall v, t = name ++ 61 :: v -> n = name /\ r = 61 :: v).
  { intros v Ev. assert (Hsp : span name_char t = (name, 61 :: v)) by (rewrite Ev; by apply span_intro).
    rewrite Et, (span_intro _ _ _ Hn' Hr) in Hsp. by simplify_eq. }
  destruct r as [|e v]; [apply Hcopy; [|done]; intros _ v Ev; by apply Hsame in Ev as [_ Ev]|].
  case_match eqn:Ec; cycle 1.
  { apply Hcopy; [|done]. intros _ v' Ev. apply Hsame in Ev as [-> Ev]. injection Ev as -> _. rewrite Hsec in Ec.
    by rewrite bool_decide_eq_false_2 in Ec. }
  apply andb_prop in Ec as [Ec Hsec']. apply andb_prop in Ec as [_ ->%Z.eqb_eq].
  destruct (span value_char v) as [val r] eqn:Ev. apply span_app in Ev as (-> & _ & Hr').
  destruct pre as [|x pre]; injection E as -> E.
  - assert (n = name /\ (if bool_decide (val = []) then [] else MASK) ++ mask_from f r = rest) as [-> <-].
    { apply first_split in E; [done| |]; intros Hi; rewrite Forall_forall in *; [specialize (Hn' 61 Hi)|specialize (Hn 61 Hi)]; done. }
    rewrite masked_value; [case_bool_decide; auto|]. rewrite mask_head. by destruct r.
  - assert (Hlen : (length r <= f)%nat) by (subst t; rewrite !length_app in Hf; simpl in Hf; rewrite length_app in Hf; lia).
    destruct (sep_not_value sep Hs) as (Hs61 & HsM & _).
    rewrite cons_middle, !(assoc_L (++)) in E. apply app_split_after in E as (l' & _ & E).
    + eapply (IH r l' Hlen); [by exists sep|done..].
    + rewrite !not_elem_of_app, not_elem_of_cons. split_and!; [by eapply sep_not_in_name|done|apply not_elem_of_nil|idtac].
      case_bool_decide; [apply not_elem_of_nil|done].
Qed.

Lemma secret_no_eq (s pre name rest : str) : query_param s pre name rest -> 61 ∈ s.
Proof. intros (sep & -> & _). rewrite elem_of_app. right. right. rewrite elem_of_app. right. left. Qed.

Lemma mask_hides (s pre name rest : str) : query_param (mask_secret_params s) pre name rest -> name <> [] -> secret_name name = true ->
  value_of rest = [] \/ value_of rest = MASK.
Proof.
  unfold mask_secret_params. case_bool_decide as E; intros Hq; [by apply (mask_from_hides _ _ _ _ _ (Nat.le_refl _) Hq)|].
  by apply secret_no_eq in Hq.
Qed.

Lemma mask_from_shown (f : nat) (s : str) : Forall shown s -> Forall shown (mask_from f s).
Proof.
  revert s. induction f as [|f IH]; intros s Hs; [done|]. destruct s as [|b t]; [done|]. simpl.
  apply Forall_cons in Hs as [Hb Ht]. destruct (is_sep b); [|constructor; auto].
  destruct (span name_char t) as [n r] eqn:En. apply span_app in En as (En & _). destruct r as [|e v]; [constructor; auto|].
  case_match; [|constructor; auto]. destruct (span value_char v) as [val r] eqn:Ev. apply span_app in Ev as (Ev & _).
  pose proof Ht as Ht'. rewrite En, Ev in Ht'. apply Forall_app in Ht' as [Hn Ht']. apply Forall_cons in Ht' as [He Ht'].
  apply Forall_app in Ht' as [_ Hr]. constructor; [done|]. apply Forall_app. split; [done|]. constructor; [done|].
  apply Forall_app. split; [|auto]. destruct (bool_decide (val = [])); by repeat constructor.
Qed.

Lemma mask_shown (s : str) : Forall shown s -> Forall shown (mask_secret_params s).
Proof. unfold mask_secret_params. case_bool_decide; [apply mask_from_shown|done]. Qed.

(** *** Text cut to length *)
Lemma sep_not_in_mark (sep : Z) : is_sep sep = true -> sep ∉ TRUNCATION_MARK.
Proof. intros H. by apply sep_not_value in H as (_ & _ & H). Qed.

Lemma cut_value (s mark : str) (k : nat) : Forall (fun c => value_char c = true) mark ->
  exists j, value_of (take k s ++ mark) = take j (value_of s) ++ mark \/ value_of (take k s ++ mark) = value_of s.
Proof.
  intros Hm. assert (Hm' : span value_char mark = (mark, [])) by (rewrite <- (app_nil_r mark) at 1; by rewrite span_intro).
  revert k. unfold value_of. induction s as [|c s IH]; intros k; simpl.
  - exists 0%nat. left. rewrite take_nil. simpl. by rewrite Hm'.
  - destruct k as [|k]; simpl; [exists 0%nat; left; by rewrite Hm'|].
    destruct (value_char c) eqn:Ec; [|by exists 0%nat; right]. destruct (IH k) as [j Hj].
    destruct (span value_char (take k s ++ mark)), (span value_char s); simpl in *. exists (S j). destruct Hj as [->| ->]; auto.
Qed.

(** A parameter of the cut text is one of the text, cut. *)
Lemma cut_param (s pre name rest : str) (k : nat) : query_param (take k s ++ TRUNCATION_MARK) pre name rest ->
  exists rest' j, query_param s pre name rest' /\ rest = take j rest' ++ TRUNCATION_MARK.
Proof.
  intros (sep & E & Hs & Hn).
  assert (Hq : exists q, take k s = pre ++ sep :: name ++ 61 :: q /\ rest = q ++ TRUNCATION_MARK).
  { replace (pre ++ sep :: name ++ 61 :: rest) with ((pre ++ sep :: name ++ [61]) ++ rest) in E
      by (rewrite <- (assoc_L (++)); simpl; by rewrite <- (assoc_L (++))).
    apply app_eq_inv in E as [(q & Ep & ->)|(m & Em & E)].
    - exists q. split; [|done]. rewrite Ep, <- (assoc_L (++)). simpl. by rewrite <- (assoc_L (++)).
    - destruct m as [|x m _] using rev_ind; [exists []; rewrite app_nil_r in Em; simpl in E; by rewrite <- Em|exfalso].
      replace (pre ++ sep :: name ++ [61]) with ((pre ++ sep :: name) ++ [61]) in Em by (rewrite <- (assoc_L (++)); done).
      rewrite (assoc_L (++)) in Em. apply app_inj_tail in Em as [_ <-].
      assert (Hin : 61 ∈ TRUNCATION_MARK) by (rewrite E, !elem_of_app; left; right; left).
      vm_compute in Hin. set_unfold in Hin. naive_solver. }
  destruct Hq as (q & Eq & ->). exists (q ++ drop k s), (length q). split; [|by rewrite take_app_length].
  exists sep. split; [|done]. rewrite <- (take_drop k s) at 1. rewrite Eq, <- (assoc_L (++)). simpl. by rewrite <- (assoc_L (++)).
Qed.

(** ** Sanitised text *)
(** What may stand for the value of a credential: nothing, the mask, or as much
    of either as the cut left, with the mark of the cut. *)
Definition hidden_value (v : str) : Prop := v = [] \/ v = MASK \/ exists k, v = take k MASK ++ TRUNCATION_MARK.

Definition clean_text (max : nat) (s : str) : Prop :=
  Forall shown s /\ (length s <= max + length TRUNCATION_MARK)%nat /\
  forall pre name rest, query_param s pre name rest -> name <> [] -> secret_name name = true -> hidden_value (value_of rest).

Lemma mark_shown : Forall shown TRUNCATION_MARK.
Proof.
  apply (Forall_impl (fun c => Is_true (negb (is_invisible_or_control c)))); [by apply forallb_True|].
  intros c Hc%Is_true_true. by apply negb_true_iff.
Qed.

Lemma mark_value : Forall (fun c => value_char c = true) TRUNCATION_MARK.
Proof. unfold TRUNCATION_MARK. vm_compute. repeat constructor. Qed.

Lemma cut_hidden (s : str) (k : nat) : value_of s = [] \/ value_of s = MASK -> hidden_value (value_of (take k s ++ TRUNCATION_MARK)).
Proof.
  intros Hv. destruct (cut_value s TRUNCATION_MARK k mark_value) as [j [->| ->]]; [|destruct Hv as [->| ->]; unfold hidden_value; auto].
  right. right. destruct Hv as [->| ->]; [exists 0%nat; by rewrite take_nil|by exists j].
Qed.

Lemma sanitize_text_clean (s : str) (max : nat) : clean_text max (sanitize_text s max).
Proof.
  unfold sanitize_text, truncate_marked. set (m := mask_secret_params _).
  assert (Hm : Forall shown m) by apply mask_shown, strip_shown.
  destruct (Nat.leb_spec (length m) max) as [Hle|Hgt]; split_and!; try done.
  - lia.
  - intros pre name rest Hq Hn Hs. destruct (mask_hides _ _ _ _ Hq Hn Hs); unfold hidden_value; auto.
  - apply Forall_app. split; [by apply Forall_take|apply mark_shown].
  - rewrite length_app, length_take. lia.
  - intros pre name rest Hq Hn Hs. apply cut_param in Hq as (rest' & j & Hq & ->). apply cut_hidden.
    by apply (mask_hides _ _ _ _ Hq).
Qed.

(** ** Sanitised responses *)
Definition exempt (k : str) : bool := bool_decide (k = DATA_TRUST) || bool_decide (k = INSTRUCTION_FLAG).

Section responses.
Context `{UnicodeTables}.

(** The strings an object owns: its fields', through arrays. *)
Fixpoint owns (v : Value) : bool :=
  match v with
  | VString s => looks_like_instruction s
  | VArray l => existsb owns l
  | _ => false
  end.
Definition obj_owns (m : list (str * Value)) : bool := existsb (fun kx => negb (exempt kx.1) && owns kx.2) m.

(** How many objects own an instruction. *)
Fixpoint hits (v : Value) : nat :=
  match v with
  | VArray l => sum_list_with hits l
  | VObject m => (sum_list_with (fun kx => if exempt kx.1 then 0 else hits kx.2) m + (if obj_owns m then 1 else 0))%nat
  | _ => 0%nat
  end.

(** Every string is clean, and an object that owns an instruction says so. *)
Inductive clean (key : option str) : Value -> Prop :=
| clean_null : clean key VNull
| clean_bool b : clean key (VBool b)
| clean_number n : clean key (VNumber n)
| clean_string s : clean_text (text_limit key) s -> clean key (VString s)
| clean_array l : Forall (clean key) l -> clean key (VArray l)
| clean_object m : Forall (fun kx => exempt kx.1 = false -> clean (Some kx.1) kx.2) m ->
    (obj_owns m = true -> (INSTRUCTION_FLAG, VBool true) ∈ m) -> clean key (VObject m).

Lemma obj_insert_elem (k : str) (x : Value) (m : list (str * Value)) : (k, x) ∈ obj_insert k x m.
Proof. induction m as [|[k' x'] m IH]; simpl; [left|]. case_bool_decide; [left|by right]. Qed.

Lemma obj_insert_other (k j : str) (x y : Value) (m : list (str * Value)) : (j, y) ∈ m -> j <> k -> (j, y) ∈ obj_insert k x m.
Proof.
  intros Hin Hne. induction m as [|[k' x'] m IH]; simpl; [by apply elem_of_nil in Hin|].
  apply elem_of_cons in Hin as [[= -> ->]|Hin].
  - rewrite bool_decide_eq_false_2 by done. left.
  - case_bool_decide; right; auto.
Qed.

Lemma obj_insert_Forall (P : str * Value -> Prop) (k : str) (x : Value) (m : list (str * Value)) :
  Forall P m -> P (k, x) -> Forall P (obj_insert k x m).
Proof. intros Hm Hx. induction Hm as [|[k' x'] m Hk Hm IH]; simpl; [by constructor|]. by case_bool_decide; constructor. Qed.

(** A field that holds no string owns nothing. *)
Lemma obj_insert_owns (k : str) (x : Value) (m : list (str * Value)) : exempt k || negb (owns x) = true ->
  obj_owns (obj_insert k x m) = true -> obj_owns m = true.
Proof.
  intros Hx. assert (Hn : negb (exempt k) && owns x = false) by (destruct (exempt k), (owns x); done).
  induction m as [|[k' x'] m IH]; simpl; [by rewrite Hn|]. case_bool_decide as E; simpl.
  - rewrite Hn. simpl. intros ->. apply orb_true_r.
  - rewrite !orb_true_iff. intuition.
Qed.

Lemma insert_flag_hits (m : list (str * Value)) : obj_owns (obj_insert INSTRUCTION_FLAG (VBool true) m) = obj_owns m /\
  sum_list_with (fun kx => if exempt kx.1 then 0 else hits kx.2)%nat (obj_insert INSTRUCTION_FLAG (VBool true) m) =
  sum_list_with (fun kx => if exempt kx.1 then 0 else hits kx.2)%nat m.
Proof.
  induction m as [|[k x] m [IH1 IH2]]; [done|]. simpl. case_bool_decide as E; simpl; [by subst k|]. by rewrite IH1, IH2.
Qed.

(** The result of the inner loop on the rest of a list. *)
Tactic Notation "destruct_walk" hyp(l) "as" simple_intropattern(pat) :=
  match goal with |- context [?g l] => match type of g with list ?A -> list ?A * bool * nat => destruct (g l) as pat end end.

Definition walk_ok (key : option str) (v : Value) : Prop :=
  let '(v', h, n) := walk key v in clean key v' /\ h = owns v' /\ n = hits v'.

Lemma walk_array_ok (key : option str) (l : list Value) : Forall (walk_ok key) l -> walk_ok key (VArray l).
Proof.
  intros Hl. unfold walk_ok. simpl. induction Hl as [|x l Hx Hl IH]; [split; [by constructor|done]|].
  unfold walk_ok in Hx. destruct (walk key x) as [[x' hx] nx]. destruct Hx as (Hc & -> & ->).
  destruct_walk l as [[l' hr] nr].
  destruct IH as (Hcl & -> & ->). split; [inversion Hcl; subst; by do 2 constructor|done].
Qed.

Lemma walk_object_ok (key : option str) (m : list (str * Value)) : Forall (fun kx => forall key, walk_ok key kx.2) m -> walk_ok key (VObject m).
Proof.
  intros Hm. unfold walk_ok. simpl.
  assert (Hgo : let '(m', own, n) := (fix go m := match m with
                     | [] => ([], false, 0%nat)
                     | (k, x) :: m' =>
                         let '(rest, hr, nr) := go m' in
                         if bool_decide (k = DATA_TRUST) || bool_decide (k = INSTRUCTION_FLAG) then ((k, x) :: rest, hr, nr)
                         else let '(x', hx, nx) := walk (Some k) x in ((k, x') :: rest, hx || hr, (nx + nr)%nat)
                     end) m in
    Forall (fun kx => exempt kx.1 = false -> clean (Some kx.1) kx.2) m' /\ own = obj_owns m' /\
    n = sum_list_with (fun kx => if exempt kx.1 then 0 else hits kx.2)%nat m').
  { induction Hm as [|[k x] m Hx Hm IH]; [by split|].
    destruct_walk m as [[m' hr] nr]. destruct IH as (Hc & -> & ->).
    change (bool_decide (k = DATA_TRUST) || bool_decide (k = INSTRUCTION_FLAG)) with (exempt k). destruct (exempt k) eqn:Ek.
    - split_and!; [constructor; [by simpl; rewrite Ek|done]|by simpl; rewrite Ek..].
    - specialize (Hx (Some k)). unfold walk_ok in Hx. simpl in Hx. destruct (walk (Some k) x) as [[x' hx] nx]. destruct Hx as (Hcx & -> & ->).
      split_and!; [by constructor|by simpl; rewrite Ek..]. }
  destruct_walk m as [[m' own] n].
  destruct Hgo as (Hc & -> & ->). destruct (obj_owns m') eqn:Eo; simpl.
  - destruct (insert_flag_hits m') as [Hi1 Hi2]. rewrite Hi1, Hi2, Eo, Nat.add_1_r. split_and!; [|done..].
    constructor; [by apply obj_insert_Forall|intros _; apply obj_insert_elem].
  - rewrite Eo, Nat.add_0_r. split_and!; [|done..]. by constructor; [|rewrite Eo].
Qed.

Lemma walk_clean (v : Value) (key : option str) : walk_ok key v.
Proof.
  revert key. induction v as [|b|n|s|l IH|m IH] using value_ind_nested; intros key; try (split; [constructor|done]).
  - apply sanitize_text_clean.
  - apply walk_array_ok. by eapply Forall_impl; [exact IH|].
  - apply walk_object_ok. by eapply Forall_impl; [exact IH|].
Qed.

Lemma sanitize_json_clean (v : Value) : let '(v', n) := sanitize_untrusted_json v in clean None v' /\ n = hits v'.
Proof.
  unfold sanitize_untrusted_json. pose proof (walk_clean v None) as Hw. unfold walk_ok in Hw.
  destruct (walk None v) as [[v' own] n]. destruct Hw as (Hc & Ho & ->). destruct own, v'; try done.
Qed.

End responses.

(** On the texts of the source's own tests. *)
Module SanitizeSample.
Definition esc (s : string) : str := 27 :: as_bytes s.
Example strips_sequences :
  strip_unsafe_chars (as_bytes "a" ++ esc "[31mred" ++ esc "[0m" ++ [7] ++ as_bytes "b" ++ [9] ++ as_bytes "c" ++ [0; 133] ++ as_bytes "d" ++
    [8238] ++ as_bytes "e" ++ [8203] ++ as_bytes "h" ++ [917569] ++ as_bytes "i" ++ esc "]0;title" ++ [7] ++ as_bytes "j" ++ [155] ++
    as_bytes "2Jk" ++ esc "cl") = as_bytes "aredb" ++ [9] ++ as_bytes "cdehijkl".
Proof. vm_compute. reflexivity. Qed.

Example masks_params : mask_secret_params (as_bytes "/cb?code=abc123&state=ok&Token=T0K;sessionid=xyz HTTP/1.1") =
  as_bytes "/cb?code=***&state=ok&Token=***;sessionid=*** HTTP/1.1".
Proof. vm_compute. reflexivity. Qed.

Example keeps_other_params : mask_secret_params (as_bytes "/a?state=1&codex=2") = as_bytes "/a?state=1&codex=2".
Proof. vm_compute. reflexivity. Qed.
End SanitizeSample.
