(* ===== verification/Enforcer.v ===== *)
(** * The firewall interface

    The trait [Enforcer] of [hiveguard-enforce/src/enforcer.rs], what the daemon
    relies on, and the backend that blocks nothing ([observe_only.rs]); the
    nftables backend is in [Nftables.v]. *)
From S2P Require Import Prelude Models.
Local Open Scope Z_scope.

Class Enforcer (E : Type) : Type := {
  setup : E -> E * hresult unit;
  apply_ban : IpNet -> E -> E * hresult unit;
  unapply_ban : IpNet -> E -> E * hresult unit;
  sync_full : list IpNet -> E -> E * hresult unit;
  get_current_bans : E -> E * hresult (list IpNet);
}.

(** ** Networks up to host bits *)
Definition same_net (n m : IpNet) : Prop := trunc_ref n = trunc_ref m.
#[export] Instance same_net_equiv : Equivalence same_net.
Proof. unfold same_net. split; [by intros n|by intros n m|by intros n m k -> ->]. Qed.
#[export] Instance same_net_dec (n m : IpNet) : Decision (same_net n m).
Proof. unfold same_net. apply _. Defined.

#[export] Instance in_net_proper : Proper (same_net ==> (=) ==> iff) in_net.
Proof. intros n m E a b ->. by rewrite <- (trunc_ref_in_net n), E, trunc_ref_in_net. Qed.

Lemma same_net_trunc (n : IpNet) : same_net (trunc_ref n) n.
Proof. apply trunc_ref_canonical. Qed.

Definition covered (l : list IpNet) (a : IpAddr) : Prop := exists n, n ∈ l /\ in_net n a.

(** ** What the daemon relies on

    [blocks] is what the firewall does to a packet; [held] are the networks it
    was given and has not been relieved of, which it may put in force again by
    itself. A call that succeeds does what it says, and one that fails blocks
    nothing it was not asked to. *)
Class EnforcerLaws (E : Type) `{Enforcer E} : Type := {
  enf_ok : E -> Prop;
  held : E -> IpNet -> Prop;
  blocks : E -> IpAddr -> Prop;
  held_wf (e : E) (m : IpNet) : enf_ok e -> held e m -> wf_net m;
  blocks_held (e : E) (a : IpAddr) : enf_ok e -> blocks e a -> exists m, held e m /\ in_net m a;
  apply_spec (n : IpNet) (e : E) : enf_ok e -> wf_net n ->
    let '(e', r) := apply_ban n e in
    enf_ok e' /\ (forall m, held e' m -> held e m \/ same_net m n) /\ (is_ok r = true -> forall a, wf_ip a -> in_net n a -> blocks e' a);
  unapply_spec (n : IpNet) (e : E) : enf_ok e -> wf_net n ->
    let '(e', r) := unapply_ban n e in
    enf_ok e' /\ (forall m, held e' m -> held e m) /\ (is_ok r = true -> canonical n -> ~ held e' n);
  sync_spec (l : list IpNet) (e : E) : enf_ok e -> Forall wf_net l ->
    let '(e', r) := sync_full l e in
    enf_ok e' /\ (forall m, held e' m -> held e m \/ exists n, n ∈ l /\ same_net m n) /\
    (is_ok r = true -> (forall m, held e' m -> exists n, n ∈ l /\ same_net m n) /\ forall a, wf_ip a -> blocks e' a <-> covered l a);
}.

(** ** [ObserveOnlyEnforcer] keeps the list it would block *)
Record ObserveOnlyEnforcer : Type := { oo_bans : list IpNet }.

#[export] Instance observe_only : Enforcer ObserveOnlyEnforcer := {
  setup e := (e, Ok tt);
  apply_ban n e := ((if decide (n ∈ oo_bans e) then e else {| oo_bans := oo_bans e ++ [n] |}), Ok tt);
  unapply_ban n e := ({| oo_bans := List.filter (fun b => negb (bool_decide (b = n))) (oo_bans e) |}, Ok tt);
  sync_full l _ := ({| oo_bans := l |}, Ok tt);
  get_current_bans e := (e, Ok (oo_bans e));
}.

(** It reports as blocked what its list covers. *)
#[export, refine] Instance observe_only_laws : EnforcerLaws ObserveOnlyEnforcer := {|
  enf_ok e := Forall wf_net (oo_bans e);
  held e m := m ∈ oo_bans e;
  blocks e a := covered (oo_bans e) a |}.
Proof.
  - intros e m He Hm. rewrite Forall_forall in He. auto.
  - intros e a _ Ha. exact Ha.
  - intros n e He Hn. simpl. destruct (decide (n ∈ oo_bans e)) as [Hin|Hin].
    + split_and!; [done|by left|]. intros _ a _ Ha. by exists n.
    + split_and!; simpl.
      * apply Forall_app. auto.
      * intros m [?| ->%list_elem_of_singleton]%elem_of_app; [by left|by right].
      * intros _ a _ Ha. exists n. split; [|done]. apply elem_of_app. right. by left.
  - intros n e He Hn. simpl. split_and!.
    + apply Forall_forall. intros m [Hm _]%elem_of_lfilter. rewrite Forall_forall in He. auto.
    + by intros m [Hm _]%elem_of_lfilter.
    + intros _ _ [_ Hne]%elem_of_lfilter. by rewrite bool_decide_eq_true_2 in Hne.
  - intros l e _ Hl. simpl. split_and!; [done| |].
    + intros m Hm. right. by exists m.
    + intros _. split; [|done]. intros m Hm. by exists m.
Defined.
