(* ===== verification/Nftables.v ===== *)
(** * The nftables backend

    [hiveguard-enforce/src/nftables.rs]: every change of the ban list becomes
    one batch for the [nft] program, which applies it as a transaction. The
    program and the kernel are the parameter [Nft]; [NftLaws] says of it what
    its manual does, for the commands the batches use ([nft_run]). The order of
    networks and containment between them ([ipnet]) are the parameter
    [IpNetOrd]. *)
From S2P Require Import Prelude Text Models Host Enforcer.
Local Open Scope Z_scope.

(** ** The order of networks *)
Definition net_le (n m : IpNet) : Prop :=
  (net_width n < net_width m)%nat \/
  net_width n = net_width m /\ (net_bits n < net_bits m \/ net_bits n = net_bits m /\ (prefix_len n <= prefix_len m)%nat).

(** [Ord] and [contains] of [ipnet::IpNet]. *)
Class IpNetOrd : Type := { net_leb : IpNet -> IpNet -> bool; net_contains_net : IpNet -> IpNet -> bool }.
Class IpNetOrdLaws `{IpNetOrd} : Prop := {
  net_leb_law (n m : IpNet) : net_leb n m = true <-> net_le n m;
  net_contains_net_law (n m : IpNet) : wf_net n -> wf_net m ->
    net_contains_net n m = true <-> net_width n = net_width m /\ forall a, wf_ip a -> in_net m a -> in_net n a;
}.

Section batches.
Context `{IpNetOps} `{IpNetOrd}.

Definition sorts_before (n m : IpNet) : Prop := net_leb n m = true.
#[export] Instance sorts_before_dec (n m : IpNet) : Decision (sorts_before n m).
Proof. unfold sorts_before. apply _. Defined.
Definition sort_nets (l : list IpNet) : list IpNet := merge_sort sorts_before l.

(** Only the last network kept is compared. *)
Fixpoint dedup_from (last : IpNet) (l : list IpNet) : list IpNet :=
  match l with
  | [] => [last]
  | net :: l' => if net_contains_net last net then dedup_from last l' else last :: dedup_from net l'
  end.
Definition dedup_overlapping (nets : list IpNet) : list IpNet :=
  match sort_nets (net_trunc <$> nets) with [] => [] | n :: l => dedup_from n l end.

Definition format_net (n : IpNet) : bytes :=
  if (prefix_len n =? net_width n)%nat then as_bytes (ip_to_string (net_addr n)) else as_bytes (net_to_string n).

(** ** The enforcer *)
Inductive PreroutingState : Type := Absent | Matching | Mismatched.

Record NftablesEnforcer (K : Type) : Type := {
  table_name : bytes; set_name_v4 : bytes; set_name_v6 : bytes; sync_set_name_v4 : bytes; sync_set_name_v6 : bytes;
  sync_next_set_name_v4 : bytes; sync_next_set_name_v6 : bytes;
  desired_bans : gset IpNet; initialized : bool; prerouting_hook : bool; kernel : K;
}.

Definition nftables_new {K} (table_name set_name : bytes) (prerouting_hook : bool) (kernel : K) : NftablesEnforcer K :=
  let set_name_v6 := set_name ++ as_bytes "_v6" in
  {| table_name := table_name; set_name_v4 := set_name; set_name_v6 := set_name_v6;
     sync_set_name_v4 := set_name ++ as_bytes "_sync"; sync_set_name_v6 := set_name_v6 ++ as_bytes "_sync";
     sync_next_set_name_v4 := set_name ++ as_bytes "_sync_next"; sync_next_set_name_v6 := set_name_v6 ++ as_bytes "_sync_next";
     desired_bans := ∅; initialized := false; prerouting_hook := prerouting_hook; kernel := kernel |}.

(** [format!] of words separated by single blanks, with a newline. *)
Fixpoint join (sep : bytes) (ws : list bytes) : bytes :=
  match ws with
  | [] => []
  | [w] => w
  | w :: ws' => w ++ sep ++ join sep ws'
  end.
Definition line (ws : list bytes) : bytes := join [32] ws ++ [10].
Definition word (s : string) : bytes := as_bytes s.

Definition PREROUTING_CHAIN : bytes := word "prerouting".
Definition INPUT_CHAIN : bytes := word "input".
Definition PREROUTING_PRIORITY : Z := -300.
Definition fmt_int (n : Z) : string := if n <? 0 then "-" +:+ fmt_uint (- n) else fmt_uint n.

Section texts.
Context {K : Type} (e : NftablesEnforcer K).
Abbreviation table := (table_name K e).

Definition sets_v4 : list bytes := [set_name_v4 K e; sync_set_name_v4 K e; sync_next_set_name_v4 K e].
Definition sets_v6 : list bytes := [set_name_v6 K e; sync_set_name_v6 K e; sync_next_set_name_v6 K e].
Definition all_set_names : list bytes :=
  [set_name_v4 K e; set_name_v6 K e; sync_set_name_v4 K e; sync_set_name_v6 K e; sync_next_set_name_v4 K e; sync_next_set_name_v6 K e].

Definition drop_rules (chain : bytes) : bytes :=
  let rules family sets := mjoin ((fun s => line [word "add"; word "rule"; word "inet"; table; chain; word family; word "saddr"; word "@" ++ s; word "drop"]) <$> sets) in
  rules "ip" sets_v4 ++ rules "ip6" sets_v6.

Definition add_sets (type : string) (sets : list bytes) : bytes :=
  mjoin ((fun s => line [word "add"; word "set"; word "inet"; table; s; word "{"; word "type"; word type; word "flags"; word "interval;"; word "}"]) <$> sets).
Definition add_chain (chain : bytes) (priority : Z) : bytes :=
  line [word "add"; word "chain"; word "inet"; table; chain; word "{"; word "type"; word "filter"; word "hook"; chain; word "priority";
        word (fmt_int priority +:+ ";"); word "policy"; word "accept;"; word "}"].
Definition flush_chain (chain : bytes) : bytes := line [word "flush"; word "chain"; word "inet"; table; chain].
Definition delete_chain (chain : bytes) : bytes := line [word "delete"; word "chain"; word "inet"; table; chain].

Definition build_setup_batch (prerouting : PreroutingState) : bytes :=
  let chain := PREROUTING_CHAIN in
  let remove_existing := match prerouting with Absent => false | Matching => negb (prerouting_hook K e) | Mismatched => true end in
  line [word "add"; word "table"; word "inet"; table] ++
  add_sets "ipv4_addr;" sets_v4 ++ add_sets "ipv6_addr;" sets_v6 ++
  add_chain INPUT_CHAIN (-10) ++ flush_chain INPUT_CHAIN ++ drop_rules INPUT_CHAIN ++
  (if remove_existing then flush_chain chain ++ delete_chain chain else []) ++
  (if prerouting_hook K e then add_chain chain PREROUTING_PRIORITY ++ flush_chain chain ++ drop_rules chain else []).

Definition flush_set (set : bytes) : bytes := line [word "flush"; word "set"; word "inet"; table; set].
Definition append_replace_set_batch (set : bytes) (nets : list IpNet) : bytes :=
  flush_set set ++
  match nets with
  | [] => []
  | _ => line [word "add"; word "element"; word "inet"; table; set; word "{"; join (word ", ") (format_net <$> nets); word "}"]
  end.

Definition is_v4 (n : IpNet) : bool := match n with NetV4 _ _ => true | NetV6 _ _ => false end.
Definition build_sync_batch (banned : list IpNet) : bytes :=
  let deduped := dedup_overlapping banned in
  let v4 := List.filter is_v4 deduped in
  let v6 := List.filter (fun n => negb (is_v4 n)) deduped in
  append_replace_set_batch (sync_set_name_v4 K e) v4 ++ append_replace_set_batch (sync_set_name_v6 K e) v6 ++
  append_replace_set_batch (sync_next_set_name_v4 K e) v4 ++ append_replace_set_batch (sync_next_set_name_v6 K e) v6 ++
  append_replace_set_batch (set_name_v4 K e) v4 ++ append_replace_set_batch (set_name_v6 K e) v6 ++
  flush_set (sync_set_name_v4 K e) ++ flush_set (sync_set_name_v6 K e) ++
  flush_set (sync_next_set_name_v4 K e) ++ flush_set (sync_next_set_name_v6 K e).

(** An identifier of the nft language. *)
Definition valid_name (name : bytes) : bool :=
  match name with
  | [] => false
  | c :: _ => forallb (fun c => is_ascii_alpha c || is_ascii_digit c || (c =? 95)) name && negb (is_ascii_digit c)
  end.
End texts.
End batches.

(** ** The nft program

    A ruleset: tables, sets of networks (with their address family), and base
    chains whose rules drop the sources in a set. *)
Record Rule : Type := { ru_v6 : bool; ru_set : bytes }.
Record Chain : Type := { ch_hook : bytes; ch_priority : bytes; ch_rules : list Rule }.
Record Ruleset : Type := { rs_tables : gset bytes; rs_sets : gmap (bytes * bytes) (bool * list IpNet); rs_chains : gmap (bytes * bytes) Chain }.

Definition with_sets (f : gmap (bytes * bytes) (bool * list IpNet) -> gmap (bytes * bytes) (bool * list IpNet)) (v : Ruleset) : Ruleset :=
  {| rs_tables := rs_tables v; rs_sets := f (rs_sets v); rs_chains := rs_chains v |}.
Definition with_chains (f : gmap (bytes * bytes) Chain -> gmap (bytes * bytes) Chain) (v : Ruleset) : Ruleset :=
  {| rs_tables := rs_tables v; rs_sets := rs_sets v; rs_chains := f (rs_chains v) |}.
Definition with_rules (rules : list Rule) (c : Chain) : Chain := {| ch_hook := ch_hook c; ch_priority := ch_priority c; ch_rules := rules |}.

Definition word_is (s : string) (w : bytes) : bool := bool_decide (word s = w).
Definition set_decl (v6 : bool) : list bytes :=
  [word "{"; word "type"; word (if v6 then "ipv6_addr;" else "ipv4_addr;"); word "flags"; word "interval;"; word "}"].

(** Two networks of an interval set may not share an address. *)
Definition disjoint_nets (n m : IpNet) : bool := negb (bool_decide (in_net n (net_addr m))) && negb (bool_decide (in_net m (net_addr n))).
Fixpoint add_intervals (v6 : bool) (new els : list IpNet) : option (list IpNet) :=
  match new with
  | [] => Some els
  | n :: new' => if Bool.eqb (negb (is_v4 n)) v6 && forallb (disjoint_nets n) els then add_intervals v6 new' (els ++ [n]) else None
  end.

Section nft.
Context `{AddrText}.

Definition element_of (w : bytes) : option IpNet := match parse_ip w with Some a => Some (ip_to_net a) | None => parse_net w end.
(** Elements end with a comma, except the last. *)
Fixpoint elements_of (ws : list bytes) : option (list IpNet) :=
  match ws with
  | [] => None
  | [w; close] => if word_is "}" close then n ← element_of w; Some [n] else None
  | w :: ws' =>
      match rev w with
      | 44 :: w' => n ← element_of (rev w'); ns ← elements_of ws'; Some (n :: ns)
      | _ => None
      end
  end.

(** One command; [None]: it is refused, and the transaction with it. *)
Definition nft_add (object : bytes) (t : bytes) (args : list bytes) (v : Ruleset) : option Ruleset :=
  if word_is "table" object then
    match args with [] => Some {| rs_tables := {[ t ]} ∪ rs_tables v; rs_sets := rs_sets v; rs_chains := rs_chains v |} | _ => None end
  else if negb (bool_decide (t ∈ rs_tables v)) then None
  else if word_is "set" object then
    match args with
    | s :: decl =>
        v6 ← (if bool_decide (decl = set_decl false) then Some false else if bool_decide (decl = set_decl true) then Some true else None);
        match rs_sets v !! (t, s) with
        | None => Some (with_sets <[(t, s) := (v6, [])]> v)
        | Some (v6', _) => if Bool.eqb v6 v6' then Some v else None
        end
    | [] => None
    end
  else if word_is "chain" object then
    match args with
    | [c; _; _; _; _; hook; _; priority; _; _; _] =>
        match rs_chains v !! (t, c) with
        | None => Some (with_chains <[(t, c) := {| ch_hook := hook; ch_priority := priority; ch_rules := [] |}]> v)
        | Some ch => if bool_decide (ch_hook ch = hook) && bool_decide (ch_priority ch = priority) then Some v else None
        end
    | _ => None
    end
  else if word_is "rule" object then
    match args with
    | [c; family; _; 64 :: s; _] =>
        ch ← rs_chains v !! (t, c); set ← rs_sets v !! (t, s);
        let v6 := word_is "ip6" family in
        if Bool.eqb set.1 v6 then Some (with_chains <[(t, c) := with_rules (ch_rules ch ++ [{| ru_v6 := v6; ru_set := s |}]) ch]> v) else None
    | _ => None
    end
  else if word_is "element" object then
    match args with
    | s :: _ :: ws =>
        set ← rs_sets v !! (t, s); new ← elements_of ws; els ← add_intervals set.1 new set.2;
        Some (with_sets <[(t, s) := (set.1, els)]> v)
    | _ => None
    end
  else None.

Definition nft_flush (object t s : bytes) (v : Ruleset) : option Ruleset :=
  if word_is "set" object then set ← rs_sets v !! (t, s); Some (with_sets <[(t, s) := (set.1, [])]> v)
  else if word_is "chain" object then ch ← rs_chains v !! (t, s); Some (with_chains <[(t, s) := with_rules [] ch]> v)
  else None.

Definition run_line (ws : list bytes) (v : Ruleset) : option Ruleset :=
  match ws with
  | [[]] => Some v
  | verb :: object :: family :: t :: args =>
      if negb (word_is "inet" family) then None
      else if word_is "add" verb then nft_add object t args v
      else match args with
           | [s] =>
               if word_is "flush" verb then nft_flush object t s v
               else if word_is "delete" verb && word_is "chain" object then
                 ch ← rs_chains v !! (t, s); match ch_rules ch with [] => Some (with_chains (delete (t, s)) v) | _ => None end
               else None
           | _ => None
           end
  | _ => None
  end.
Definition nft_run (text : bytes) (v : Ruleset) : option Ruleset :=
  foldl (fun o l => v ← o; run_line (split_on 32 l) v) (Some v) (split_on 10 text).
End nft.

(** The program as the daemon calls it: [nft -f -], [nft -j list set] and
    [nft -j list chains]. A call may fail for any reason, a time-out included;
    the output of a listing is a JSON value unless it does not parse. *)
Class Nft (K : Type) : Type := {
  nft_apply : bytes -> K -> K * result unit string;
  nft_list_set : bytes -> bytes -> K -> K * result (option Value) string;
  nft_list_chains : K -> K * result (option Value) string;
}.

(** ** JSON values *)
Definition get (key : string) (v : Value) : option Value :=
  match v with
  | VObject m => snd <$> List.find (fun kv => bool_decide (kv.1 = as_bytes key)) m
  | _ => None
  end.
Definition as_array (v : Value) : option (list Value) := match v with VArray l => Some l | _ => None end.
Definition as_str (v : Value) : option bytes := match v with VString s => Some s | _ => None end.
(** Integers are numbers without fraction and exponent. *)
Definition as_u64 (v : Value) : option Z := match v with VNumber n => parse_uint u64_max n | _ => None end.
Definition as_i64 (v : Value) : option Z :=
  match v with
  | VNumber (45 :: n) => Z.opp <$> parse_uint (2 ^ 63) n
  | VNumber n => parse_uint (2 ^ 63 - 1) n
  | _ => None
  end.
Definition str_field (key value : string) (v : Value) : bool := bool_decide ((get key v ≫= as_str) = Some (as_bytes value)).

Definition chain_state (chain : Value) : PreroutingState :=
  if str_field "type" "filter" chain && str_field "hook" "prerouting" chain
     && bool_decide ((get "prio" chain ≫= as_i64) = Some PREROUTING_PRIORITY) && str_field "policy" "accept" chain
  then Matching else Mismatched.
Fixpoint first_chain (table : bytes) (items : list Value) : PreroutingState :=
  match items with
  | [] => Absent
  | item :: items' =>
      match get "chain" item with
      | Some chain =>
          if str_field "family" "inet" chain && bool_decide ((get "table" chain ≫= as_str) = Some table)
             && bool_decide ((get "name" chain ≫= as_str) = Some PREROUTING_CHAIN)
          then chain_state chain else first_chain table items'
      | None => first_chain table items'
      end
  end.
Definition parse_prerouting_state (json : option Value) (table : bytes) : PreroutingState :=
  match (json ≫= get "nftables") ≫= as_array with Some items => first_chain table items | None => Absent end.

Section listing.
Context `{IpNetOps} `{AddrText}.

(** [len as u8] keeps the low byte. *)
Definition parse_nft_element (v : Value) : option IpNet :=
  match as_str v with
  | Some s => match parse_ip s with Some a => Some (ip_to_net a) | None => parse_net s end
  | None =>
      p ← get "prefix" v; addr_str ← get "addr" p ≫= as_str; len ← get "len" p ≫= as_u64; a ← parse_ip addr_str;
      parse_net (as_bytes (ip_to_string a +:+ "/" +:+ fmt_uint (wrap 8 len)))
  end.
Definition set_elements (item : Value) : list IpNet :=
  match (get "set" item ≫= get "elem") ≫= as_array with Some elem => omap parse_nft_element elem | None => [] end.
Definition parse_nft_set_elements (json : option Value) : list IpNet :=
  match (json ≫= get "nftables") ≫= as_array with Some items => flat_map set_elements items | None => [] end.
End listing.

(** ** Operations *)
Section operations.
Context {K : Type} `{IpNetOps} `{IpNetOrd} `{AddrText} `{Nft K}.
Abbreviation E := (NftablesEnforcer K).

Definition with_kernel (k : K) (e : E) : E :=
  {| table_name := table_name K e; set_name_v4 := set_name_v4 K e; set_name_v6 := set_name_v6 K e; sync_set_name_v4 := sync_set_name_v4 K e;
     sync_set_name_v6 := sync_set_name_v6 K e; sync_next_set_name_v4 := sync_next_set_name_v4 K e;
     sync_next_set_name_v6 := sync_next_set_name_v6 K e; desired_bans := desired_bans K e; initialized := initialized K e;
     prerouting_hook := prerouting_hook K e; kernel := k |}.
Definition with_desired (d : gset IpNet) (init : bool) (e : E) : E :=
  {| table_name := table_name K e; set_name_v4 := set_name_v4 K e; set_name_v6 := set_name_v6 K e; sync_set_name_v4 := sync_set_name_v4 K e;
     sync_set_name_v6 := sync_set_name_v6 K e; sync_next_set_name_v4 := sync_next_set_name_v4 K e;
     sync_next_set_name_v6 := sync_next_set_name_v6 K e; desired_bans := d; initialized := init;
     prerouting_hook := prerouting_hook K e; kernel := kernel K e |}.

Definition execute_batch (batch : bytes) (e : E) : E * hresult unit :=
  let '(k, r) := nft_apply batch (kernel K e) in
  (with_kernel k e, match r with Ok _ => Ok tt | Err msg => Err (EEnforcement msg) end).

(** A [BTreeSet] is walked in order. *)
Definition btree_iter (s : gset IpNet) : list IpNet := sort_nets (elements s).

Definition nft_sync_full (banned : list IpNet) (e : E) : E * hresult unit :=
  let desired : gset IpNet := list_to_set (net_trunc <$> banned) in
  let '(e, r) := execute_batch (build_sync_batch e (btree_iter desired)) e in
  match r with Err x => (e, Err x) | Ok _ => (with_desired desired (initialized K e) e, Ok tt) end.
Definition nft_apply_ban (subject : IpNet) (e : E) : E * hresult unit :=
  nft_sync_full (btree_iter ({[ net_trunc subject ]} ∪ desired_bans K e)) e.
Definition nft_remove_ban (subject : IpNet) (e : E) : E * hresult unit :=
  nft_sync_full (btree_iter (desired_bans K e ∖ {[ net_trunc subject ]})) e.
Definition flush_batch (e : E) : E * hresult unit := nft_sync_full (btree_iter (desired_bans K e)) e.

(** The six sets in turn; the first failure ends it. *)
Fixpoint read_sets (sets : list bytes) (acc : list IpNet) (e : E) : E * hresult (list IpNet) :=
  match sets with
  | [] => (e, Ok acc)
  | s :: sets' =>
      let '(k, r) := nft_list_set (table_name K e) s (kernel K e) in
      match r with
      | Err msg => (with_kernel k e, Err (EEnforcement msg))
      | Ok json => read_sets sets' (acc ++ parse_nft_set_elements json) (with_kernel k e)
      end
  end.
Fixpoint dedup_adjacent (l : list IpNet) : list IpNet :=
  match l with
  | n :: (m :: _) as l' => if bool_decide (n = m) then dedup_adjacent l' else n :: dedup_adjacent l'
  | _ => l
  end.
Definition nft_current_bans (e : E) : E * hresult (list IpNet) :=
  let '(e, r) := read_sets (all_set_names e) [] e in
  (e, match r with Ok found => Ok (dedup_adjacent (sort_nets found)) | Err x => Err x end).

Definition nft_setup (e : E) : E * hresult unit :=
  if negb (forallb valid_name (table_name K e :: all_set_names e)) then (e, Err (EEnforcement "invalid nft table/set identifier"))
  else
    let '(k, listed) := nft_list_chains (kernel K e) in
    let prerouting := match listed with Ok json => parse_prerouting_state json (table_name K e) | Err _ => Absent end in
    let '(e, r) := execute_batch (build_setup_batch e prerouting) (with_kernel k e) in
    match r with
    | Err x => (e, Err x)
    | Ok _ =>
        if initialized K e then (with_desired (desired_bans K e) true e, Ok tt)
        else
          let '(e, r) := nft_current_bans e in
          match r with
          | Err x => (e, Err x)
          | Ok found => (with_desired (list_to_set found) true e, Ok tt)
          end
    end.

#[export] Instance nftables : Enforcer E := {
  setup := nft_setup; apply_ban := nft_apply_ban; unapply_ban := nft_remove_ban; sync_full := nft_sync_full; get_current_bans := nft_current_bans;
}.
End operations.
