(* ===== verification/AgentScan.v ===== *)
(** * Searching log files ([hiveguard-daemon/src/agent_logs.rs])

    What the interface for agents reads: dates and addresses in a line, the
    fields of a line by its format, and the scanner that walks a log backwards
    from its end in pieces and on into the rotated copies until the window is
    covered or the budget spent. Dates, regular expressions and gzip are
    parameters; a file is not changed while it is read. *)
From S2P Require Import Prelude Text Models Detector SshLog LogParsers.
Local Open Scope Z_scope.

(** ** Dates *)
Class AgentDates : Type := {
  ad_rfc3339 : bytes -> option DateTime;
  ad_naive : string -> bytes -> option DateTime;    (** [NaiveDateTime::parse_from_str], taken as UTC *)
  ad_zoned : string -> bytes -> option DateTime;    (** [DateTime::parse_from_str] *)
  ad_year : DateTime -> Z;
  ad_min_utc : DateTime;
  ad_max_utc : DateTime;
  ad_show : DateTime -> bytes;                      (** [to_rfc3339_opts] in seconds *)
  ad_journal : DateTime -> bytes;                   (** [%Y-%m-%d %H:%M:%S UTC] *)
}.

Definition parse_i64 (s : bytes) : option Z :=
  match s with
  | 45 :: ((_ :: _) as t) => match parse_digits 0 t with Some n => if n <=? 2 ^ 63 then Some (- n) else None | None => None end
  | _ => parse_uint (2 ^ 63 - 1) s
  end.

Definition MAX_RELATIVE_SECS : Z := 100 * 365 * 86400.
Definition parse_duration_secs (s : bytes) : option Z :=
  let s := trim s in
  if (length s <? 2)%nat || negb (forallb (fun c => c <? 128) s) then None else
  n ← parse_i64 (removelast s);
  if n <? 0 then None else
  mult ← match last s with
         | Some 115 => Some 1
         | Some 109 => Some 60
         | Some 104 => Some 3600
         | Some 100 => Some 86400
         | _ => None
         end;
  let v := n * mult in
  if (v <? 2 ^ 63) && (v <=? MAX_RELATIVE_SECS) then Some v else None.

Section dates.
Context `{AgentDates}.

Definition parse_time_spec (s : bytes) (now : DateTime) : result DateTime string :=
  let t := trim s in
  if bool_decide (t = []) then Err "empty time value"%string
  else if eq_ignore_ascii_case t (as_bytes "now") then Ok now
  else match ad_rfc3339 t with
  | Some dt => Ok dt
  | None =>
      match parse_duration_secs t with
      | Some s =>
          let out_of_range : result DateTime string := Err ("time value `" +:+ of_bytes t +:+ "` out of range")%string in
          if ad_min_utc <=? now - secs s then Ok (now - secs s) else out_of_range
      | None => Err ("invalid time `" +:+ of_bytes t +:+ "`: expected RFC 3339 (2026-10-09T05:00:00Z) or a relative age like 90s, 15m, 6h, 7d")%string
      end
  end.

(** A date the library can represent. *)
Definition representable (t : DateTime) : bool := (ad_min_utc <=? t) && (t <=? ad_max_utc).
Definition day : Duration := secs 86400.
Definition parse_traditional_syslog (head : bytes) (now : DateTime) : option DateTime :=
  let try y := match ad_naive "%Y %b %e %H:%M:%S" (as_bytes (fmt_uint y) ++ 32 :: head) with
               | Some t => if t <=? now + day then Some t else None
               | None => None
               end in
  match try (ad_year now) with Some t => Some t | None => try (ad_year now - 1) end.

(** [split_ascii_whitespace] *)
Definition is_ascii_whitespace (c : Z) : bool := bool_decide (c ∈ [32; 9; 10; 12; 13]).
Fixpoint ascii_words (word s : bytes) : list bytes :=
  match s with
  | [] => if bool_decide (word = []) then [] else [word]
  | c :: s' => if is_ascii_whitespace c then (if bool_decide (word = []) then [] else [word]) ++ ascii_words [] s' else ascii_words (word ++ [c]) s'
  end.
Definition split_ascii_whitespace (s : bytes) : list bytes := ascii_words [] s.

Fixpoint first_some {A B} (f : A -> option B) (l : list A) : option B :=
  match l with [] => None | a :: l' => match f a with Some b => Some b | None => first_some f l' end end.

(** The bracketed dates of access logs; fuel is the length of the text. *)
Fixpoint bracketed_ts (fuel : nat) (rest : bytes) : option DateTime :=
  match fuel, str_find [91] rest with
  | S fuel', Some open =>
      let after := drop (open + 1) rest in
      let here := match slice_to 26 after with
        | Some inner => if bool_decide (inner !! 2%nat = Some 47) then ad_zoned "%d/%b/%Y:%H:%M:%S %z" inner else None
        | None => None
        end in
      match here with Some t => Some t | None => bracketed_ts fuel' after end
  | _, _ => None
  end.

Definition detect_ts (line : bytes) (now : DateTime) : option DateTime :=
  let digit := match line with c :: _ => is_ascii_digit c | [] => false end in
  let upper := match line with c :: _ => is_ascii_upper c | [] => false end in
  let prefix :=
    if digit then
      let rfc := match split_ascii_whitespace line with
        | first :: _ => if (20 <=? length first)%nat && bool_decide (first !! 10%nat = Some 84) then ad_rfc3339 first else None
        | [] => None
        end in
      match rfc with
      | Some t => Some t
      | None => slice_to 19 line ≫= fun head => first_some (fun f => ad_naive f head) ["%Y-%m-%d %H:%M:%S"; "%Y/%m/%d %H:%M:%S"; "%Y-%m-%dT%H:%M:%S"]%string
      end
    else if upper && (15 <=? length line)%nat then slice_to 15 line ≫= fun head => parse_traditional_syslog head now
    else None in
  match prefix with
  | Some t => Some t
  | None => let scope := default line (slice_to (Nat.min (length line) 256) line) in bracketed_ts (length scope) scope
  end.
End dates.

(** ** Addresses in a line *)
Section addresses.
Context `{IpNetOps} `{AddrText}.

Definition parse_ip_or_cidr (s : bytes) : result IpNet string :=
  let s := trim s in
  match parse_net s with
  | Some net => Ok (net_trunc net)
  | None => match parse_ip s with Some ip => Ok (ip_to_net ip) | None => Err ("invalid ip/cidr `" +:+ of_bytes s +:+ "`")%string end
  end.

Definition is_ip_char (c : Z) : bool := is_ascii_hexdigit c || (c =? 46) || (c =? 58).
Definition parse_v4 (s : bytes) : option IpAddr := match parse_ip s with Some (IpV4 a) => Some (IpV4 a) | _ => None end.
Definition parse_v6 (s : bytes) : option IpAddr := match parse_ip s with Some (IpV6 a) => Some (IpV6 a) | _ => None end.

Definition token_to_ip (tok : bytes) : option IpAddr :=
  let tok := trim_chars [46] tok in
  if (length tok <? 3)%nat then None
  else if bool_decide (46 ∈ tok) then
    match parse_ip tok with
    | Some ip => Some ip
    | None =>
        let host := trim_end_matches 58 tok in
        match parse_v4 host with
        | Some ip => Some ip
        | None => match rsplit_once 58 host with
                  | Some (h, port) => if forallb is_ascii_digit port then parse_v4 h else None
                  | None => None
                  end
        end
    end
  else
    let tok := trim_end_matches 58 tok in
    if (length (List.filter (Z.eqb 58) tok) <? 2)%nat then None
    else if (length (List.filter (fun g => negb (bool_decide (g = []))) (split_on 58 tok)) <? 2)%nat then None
    else parse_v6 tok.

(** The longest runs of characters an address may have; a character of several
    bytes has none of them. *)
Fixpoint ip_tokens (tok s : bytes) : list bytes :=
  match s with
  | [] => [tok]
  | c :: s' => if is_ip_char c then ip_tokens (tok ++ [c]) s' else tok :: ip_tokens [] s'
  end.
Definition extract_ips (line : bytes) : list IpAddr := omap token_to_ip (ip_tokens [] line).

Definition ip_prefix_key (ip : IpAddr) (v4_len v6_len : nat) : string :=
  match ipnet_new ip (match ip with IpV4 _ => v4_len | IpV6 _ => v6_len end) with
  | Some n => net_to_string (net_trunc n)
  | None => ip_to_string ip
  end.
End addresses.

(** ** The fields of a line *)
Inductive Format : Type := FNginx | FSsh | FPostfix | FUfw | FSysLog | FRaw.
#[export] Instance Format_eq_dec : EqDecision Format.
Proof. solve_decision. Defined.
Definition format_of_text (s : bytes) : option Format :=
  let t := of_bytes (to_ascii_lowercase (trim s)) in
  if bool_decide (t = "nginx") then Some FNginx else if bool_decide (t = "ssh") then Some FSsh
  else if bool_decide (t = "postfix") then Some FPostfix else if bool_decide (t = "ufw") || bool_decide (t = "firewall") then Some FUfw
  else if bool_decide (t = "syslog") then Some FSysLog else if bool_decide (t = "raw") then Some FRaw else None.
Definition format_name (f : Format) : string :=
  match f with FNginx => "nginx" | FSsh => "ssh" | FPostfix => "postfix" | FUfw => "ufw" | FSysLog => "syslog" | FRaw => "raw" end.
Definition field_keys (f : Format) : list string :=
  match f with
  | FNginx => ["method"; "path"; "protocol"; "status"; "bytes"; "user_agent"]
  | FSsh => ["user"; "invalid_user"; "src_port"]
  | FPostfix => ["mechanism"]
  | FUfw => ["action"; "in"; "out"; "dst"; "proto"; "spt"; "port"; "flags"]
  | FSysLog => ["host"; "program"; "pid"]
  | FRaw => []
  end%string.
Definition profile_fields (f : Format) : list string :=
  match f with
  | FNginx => ["path"; "user_agent"] | FSsh => ["user"] | FUfw => ["port"] | FPostfix => ["mechanism"] | FSysLog => ["program"] | FRaw => []
  end%string.

Record Parsed : Type := { pd_ip : option IpAddr; pd_structured : bool; pd_event_type : option string; pd_fields : list (string * bytes) }.
Definition parsed_get (p : Parsed) (key : string) : option bytes :=
  if bool_decide (key = "event_type"%string) then as_bytes <$> pd_event_type p
  else if bool_decide (key = "ip"%string) then None
  else snd <$> List.find (fun kv => bool_decide (kv.1 = key)) (pd_fields p).

Definition event_type_name (e : EventType) : string :=
  match e with
  | AuthFailure => "AuthFailure" | AuthSuccess => "AuthSuccess" | HttpRequest => "HttpRequest" | Http4xx => "Http4xx" | Http5xx => "Http5xx"
  | SmtpAuthFailure => "SmtpAuthFailure" | PortAccess => "PortAccess" | ConnectionEvent => "ConnectionEvent" | Custom s => s
  end.

Definition parsed_ip_matches `{IpNetOps} `{AddrText} (p : Parsed) (net : IpNet) (raw : bytes) : bool :=
  if pd_structured p then match pd_ip p with Some ip => net_contains net ip | None => false end
  else existsb (net_contains net) (extract_ips raw).

Section parsers.
Context `{IpNetOps} `{AddrText} `{LogPatterns} `{SshPatterns}.

(** The nginx parser of [hiveguard-ingest/src/nginx_parser.rs]: address,
    method, path, protocol, status, bytes and user agent. *)
Definition ingest_request_line (request : bytes) : option (bytes * bytes * bytes) :=
  match split_once 32 request with
  | None => None
  | Some (method, rest) => Some (match split_once 32 rest with Some (path, protocol) => (method, path, protocol) | None => (method, rest, []) end)
  end.
Definition ingest_nginx_line (line : bytes) : option (IpAddr * bytes * bytes * bytes * Z * Z * bytes) :=
  match nginx_captures line with
  | None => None
  | Some (c1, _, c3, c4, c5, c6, _) =>
      match parse_ip c1, ingest_request_line c3, parse_u16 c4 with
      | Some ip, Some (method, path, protocol), Some status => Some (ip, method, path, protocol, status, default 0 (parse_uint u64_max c5), c6)
      | _, _, _ => None
      end
  end.

Definition non_empty (s : bytes) : option bytes := if bool_decide (s = []) then None else Some s.
(** [take_while] *)
Definition leading_digits (s : bytes) : bytes := before (fun c => negb (is_ascii_digit c)) s.
Definition ssh_src_port (line : bytes) : option bytes :=
  '(_, after) ← rsplit_once_str (as_bytes " port ") line;
  non_empty (leading_digits after).

Definition kv_field (line : bytes) (key : string) : option bytes :=
  let needle := as_bytes key ++ [61] in
  start ← if starts_with needle line then Some 0%nat else S <$> str_find (32 :: needle) line;
  Some (before_white (drop (start + length needle) line)).

Definition opt_field (name : string) (v : option bytes) : list (string * bytes) := match v with Some s => [(name, s)] | None => [] end.
Definition TCP_FLAGS : list bytes := as_bytes <$> ["SYN"; "ACK"; "FIN"; "RST"; "PSH"; "URG"]%string.
Definition join_words (ws : list bytes) : bytes := foldr (fun w acc => match acc with [] => w | _ => w ++ 32 :: acc end) [] ws.
Definition parse_ufw (line : bytes) : option Parsed :=
  ip ← kv_field line "SRC" ≫= parse_ip;
  let action := i ← str_find (as_bytes "[UFW ") line; end_ ← str_find [93] (drop (i + 5) line); Some (take end_ (drop (i + 5) line)) in
  let dpt := kv_field line "DPT" in
  let flags := List.filter (fun t => bool_decide (t ∈ TCP_FLAGS)) (split_ascii_whitespace line) in
  Some {| pd_ip := Some ip; pd_structured := true; pd_event_type := Some (match dpt with Some _ => "PortAccess" | None => "ConnectionEvent" end)%string;
          pd_fields := opt_field "action" action ++ opt_field "in" (kv_field line "IN") ++ opt_field "out" (kv_field line "OUT") ++
            opt_field "dst" (kv_field line "DST") ++ opt_field "proto" (to_ascii_uppercase <$> kv_field line "PROTO") ++
            opt_field "spt" (kv_field line "SPT") ++ opt_field "port" dpt ++ opt_field "flags" (match flags with [] => None | _ => Some (join_words flags) end) |}.

Definition strip_suffix (c : Z) (s : bytes) : option bytes := if bool_decide (last s = Some c) then Some (removelast s) else None.
(** Host, program and process id. *)
Definition syslog_header (line : bytes) : option (bytes * bytes * option bytes) :=
  match line with
  | [] => None
  | c :: _ =>
      rest ← if is_ascii_digit c then
               let word := before_white line in
               w ← white_prefix (drop (length word) line); Some (drop (length word + length w) line)
             else if is_char_boundary 15 line then Some (drop 15 line) else None;
      match split_ascii_whitespace rest with
      | host :: tag :: _ =>
          tag ← strip_suffix 58 tag;
          Some (match split_once 91 tag with Some (prog, pid) => (host, prog, strip_suffix 93 pid) | None => (host, tag, None) end)
      | _ => None
      end
  end.

Definition unstructured (fields : list (string * bytes)) (line : bytes) : Parsed :=
  {| pd_ip := head (extract_ips line); pd_structured := false; pd_event_type := None; pd_fields := fields |}.

Definition parse_line (f : Format) (line : bytes) : Parsed :=
  match f with
  | FNginx =>
      match ingest_nginx_line line with
      | Some (ip, method, path, protocol, status, sent, ua) =>
          {| pd_ip := Some ip; pd_structured := true; pd_event_type := Some (event_type_name (status_to_event_type status));
             pd_fields := [("method", method); ("path", path); ("protocol", protocol); ("status", as_bytes (fmt_uint status));
                           ("bytes", as_bytes (fmt_uint sent)); ("user_agent", ua)]%string |}
      | None => unstructured [] line
      end
  | FSsh =>
      match parse_ssh_line line with
      | Some e =>
          {| pd_ip := Some (se_source_ip e); pd_structured := true; pd_event_type := Some (event_type_name (se_event_type e));
             pd_fields := [("user", se_user e); ("invalid_user", as_bytes (if se_invalid_user e then "true" else "false"))]%string
                          ++ opt_field "src_port" (ssh_src_port line) |}
      | None => unstructured [] line
      end
  | FPostfix =>
      match parse_postfix_line line with
      | Some e => {| pd_ip := Some (po_source_ip e); pd_structured := true; pd_event_type := Some "SmtpAuthFailure"%string;
                     pd_fields := [("mechanism"%string, po_mechanism e)] |}
      | None => unstructured [] line
      end
  | FUfw => default (unstructured [] line) (parse_ufw line)
  | FSysLog =>
      match syslog_header line with
      | Some (host, program, pid) => unstructured ([("host", host); ("program", program)]%string ++ opt_field "pid" pid) line
      | None => unstructured [] line
      end
  | FRaw => unstructured [] line
  end.
End parsers.

(** ** The scanner *)
Definition CHUNK : nat := Z.to_nat (2 ^ 20).
Definition OLDER_STREAK_STOP : nat := 200.
Definition MAX_CARRY : nat := Z.to_nat (2 ^ 23).
Definition MAX_ROTATED : nat := 30.
Definition GZ_SKIP_FACTOR : nat := 16.

Record ScanWindow : Type := { w_since : DateTime; w_until : DateTime; w_budget : nat; w_include_rotated : bool; w_now : DateTime }.
Record ScanOutcome : Type := {
  so_lines : nat; so_bytes : nat; so_budget_hit : bool; so_reached_since : bool; so_oldest : option DateTime; so_newest : option DateTime;
  so_files : list bytes;
}.
Definition outcome_new : ScanOutcome :=
  {| so_lines := 0; so_bytes := 0; so_budget_hit := false; so_reached_since := false; so_oldest := None; so_newest := None; so_files := [] |}.
Record WalkState : Type := { ws_inherited : option DateTime; ws_older_streak : nat }.
Definition walk_new : WalkState := {| ws_inherited := None; ws_older_streak := 0 |}.

Inductive Visit : Type := VLine (line : bytes) (ts : option DateTime) | ForwardStart | ForwardEnd.
#[export] Instance Visit_eq_dec : EqDecision Visit.
Proof. solve_decision. Defined.

(** The outcome, the state of the walk and the calls of the visitor so far. *)
Record Scan : Type := { sc_out : ScanOutcome; sc_state : WalkState; sc_visits : list Visit }.
Definition set_out (o : ScanOutcome) (s : Scan) : Scan := {| sc_out := o; sc_state := sc_state s; sc_visits := sc_visits s |}.
Definition set_state (t : WalkState) (s : Scan) : Scan := {| sc_out := sc_out s; sc_state := t; sc_visits := sc_visits s |}.
Definition visit (v : Visit) (s : Scan) : Scan := {| sc_out := sc_out s; sc_state := sc_state s; sc_visits := sc_visits s ++ [v] |}.

Definition add_bytes (n : nat) (o : ScanOutcome) : ScanOutcome :=
  {| so_lines := so_lines o; so_bytes := so_bytes o + n; so_budget_hit := so_budget_hit o; so_reached_since := so_reached_since o;
     so_oldest := so_oldest o; so_newest := so_newest o; so_files := so_files o |}.
Definition hit_budget (o : ScanOutcome) : ScanOutcome :=
  {| so_lines := so_lines o; so_bytes := so_bytes o; so_budget_hit := true; so_reached_since := so_reached_since o;
     so_oldest := so_oldest o; so_newest := so_newest o; so_files := so_files o |}.
Definition reach_since (o : ScanOutcome) : ScanOutcome :=
  {| so_lines := so_lines o; so_bytes := so_bytes o; so_budget_hit := so_budget_hit o; so_reached_since := true;
     so_oldest := so_oldest o; so_newest := so_newest o; so_files := so_files o |}.
Definition push_file (p : bytes) (o : ScanOutcome) : ScanOutcome :=
  {| so_lines := so_lines o; so_bytes := so_bytes o; so_budget_hit := so_budget_hit o; so_reached_since := so_reached_since o;
     so_oldest := so_oldest o; so_newest := so_newest o; so_files := so_files o ++ [p] |}.

Definition min_opt (o : option DateTime) (t : DateTime) : option DateTime :=
  match o with Some u => if t <? u then Some t else Some u | None => Some t end.
Definition max_opt (o : option DateTime) (t : DateTime) : option DateTime :=
  match o with Some u => if u <? t then Some t else Some u | None => Some t end.
(** A line was read, with its own date if it has one. *)
Definition count_line (own : option DateTime) (o : ScanOutcome) : ScanOutcome :=
  {| so_lines := S (so_lines o); so_bytes := so_bytes o; so_budget_hit := so_budget_hit o; so_reached_since := so_reached_since o;
     so_oldest := match own with Some t => min_opt (so_oldest o) t | None => so_oldest o end;
     so_newest := match own with Some t => max_opt (so_newest o) t | None => so_newest o end; so_files := so_files o |}.

(** One file of the directory; [gz] is what the decoder makes of it: the bytes
    it delivers and whether it then reports an error. *)
Record LogFile : Type := { lf_bytes : bytes; lf_mtime : option DateTime }.
Class Gzip : Type := gunzip : bytes -> bytes * bool.
Definition Files : Type := bytes -> option LogFile.

Section scanner.
Context `{AgentDates}.
(** The sizes of the reads and of the longest line kept. *)
Context (chunk max_carry : nat).

(** [false]: the window is covered. *)
Definition handle_line (w : ScanWindow) (bs : bytes) (s : Scan) : Scan * bool :=
  let bs := strip_cr bs in
  if bool_decide (bs = []) then (s, true) else
  let line := from_utf8_lossy bs in
  let own := detect_ts line (w_now w) in
  let s := set_out (count_line own (sc_out s)) s in
  let st := sc_state s in
  let inherited := match own with Some t => Some t | None => ws_inherited st end in
  let streak n := {| ws_inherited := inherited; ws_older_streak := n |} in
  let eff := match own with Some t => Some t | None => ws_inherited st end in
  match eff with
  | Some t =>
      if w_until w <? t then (set_state (streak (ws_older_streak st)) s, true)
      else if t <? w_since w then
        match own with
        | Some _ =>
            let n := S (ws_older_streak st) in
            if (OLDER_STREAK_STOP <=? n)%nat then (set_out (reach_since (sc_out s)) (set_state (streak n) s), false)
            else (set_state (streak n) s, true)
        | None => (set_state (streak (ws_older_streak st)) s, true)
        end
      else
        let n := match own with Some _ => 0%nat | None => ws_older_streak st end in
        (visit (VLine line eff) (set_state (streak n) s), true)
  | None => (visit (VLine line eff) (set_state (streak (ws_older_streak st)) s), true)
  end.

(** The lines of a buffer from its end; what precedes the first line break is
    left. Fuel is the length of the buffer. *)
Fixpoint lines_back (fuel : nat) (w : ScanWindow) (buf : bytes) (s : Scan) : Scan * bool * bytes :=
  match fuel, rsplit_once 10 buf with
  | S fuel', Some (front, line) =>
      let '(s, go) := handle_line w line s in
      if go then lines_back fuel' w front s else (s, false, front)
  | _, _ => (s, true, buf)
  end.

(** Fuel is the length of the file: every turn reads a byte. *)
Fixpoint scan_file_from (fuel : nat) (w : ScanWindow) (content : bytes) (pos : nat) (carry : bytes) (s : Scan) : Scan :=
  match fuel with
  | O => s
  | S fuel' =>
      if (pos =? 0)%nat then s else
      let remaining := (w_budget w - so_bytes (sc_out s))%nat in
      if (remaining =? 0)%nat then set_out (hit_budget (sc_out s)) s else
      let want := Nat.min (Nat.min chunk pos) remaining in
      let pos := (pos - want)%nat in
      let buf := take want (drop pos content) ++ carry in
      let s := set_out (add_bytes want (sc_out s)) s in
      let '(s, go, rest) := lines_back (length buf) w buf s in
      if negb go then s
      else if (pos =? 0)%nat then (handle_line w rest s).1
      else if (max_carry <? length rest)%nat then scan_file_from fuel' w content pos [] s
      else scan_file_from fuel' w content pos rest s
  end.
Definition scan_file (w : ScanWindow) (content : bytes) (s : Scan) : Scan := scan_file_from (S (length content)) w content (length content) [] s.
End scanner.

(** ** Rotated copies *)
Section rotated.
Context `{AgentDates} `{Gzip}.
Context (chunk max_carry : nat).

(** [Some true]: gzip *)
Definition file_kind (fs : Files) (path : bytes) : option bool :=
  (fun f => bool_decide (take 2 (lf_bytes f) = [31; 139])) <$> fs path.
Fixpoint rotated_from (todo : nat) (n : Z) (fs : Files) (path : bytes) : list (bytes * bool) :=
  match todo with
  | O => []
  | S todo' =>
      let plain := path ++ 46 :: as_bytes (fmt_uint n) in
      let gz := plain ++ as_bytes ".gz" in
      match file_kind fs plain, file_kind fs gz with
      | Some kind, _ => (plain, kind) :: rotated_from todo' (n + 1) fs path
      | None, Some kind => (gz, kind) :: rotated_from todo' (n + 1) fs path
      | None, None => []
      end
  end.
Definition rotated_files (fs : Files) (path : bytes) : list (bytes * bool) := rotated_from MAX_ROTATED 1 fs path.

(** [read_until] of a line break within the limit; [err] is what the decoder
    reports after its last byte. [None]: the error. *)
Definition read_until (d : bytes) (err : bool) : option (bytes * bytes) :=
  match str_find [10] (take max_carry d) with
  | Some i => Some (take (S i) d, drop (S i) d)
  | None => if (max_carry <=? length d)%nat then Some (take max_carry d, drop max_carry d) else if err then None else Some (d, [])
  end.
Definition ends_line (line : bytes) : bool := bool_decide (last line = Some 10).

Fixpoint skip_line (fuel : nat) (d : bytes) (err : bool) (skipped : nat) : option (bytes * nat) :=
  match fuel with
  | O => Some (d, skipped)
  | S fuel' =>
      match read_until d err with
      | None => None
      | Some (rest, d') =>
          let skipped := (skipped + length rest)%nat in
          if bool_decide (rest = []) || ends_line rest then Some (d', skipped) else skip_line fuel' d' err skipped
      end
  end.

Record GzState : Type := { gs_scan : Scan; gs_inherited : option DateTime; gs_newer_streak : nat; gs_saw_older : bool }.
Definition gz_with (s : Scan) (inherited : option DateTime) (newer : nat) (older : bool) : GzState :=
  {| gs_scan := s; gs_inherited := inherited; gs_newer_streak := newer; gs_saw_older := older |}.

(** The text of a line; [false]: the rest is after the window. *)
Definition gz_line (w : ScanWindow) (bs : bytes) (g : GzState) : GzState * bool :=
  let bs := strip_cr (if ends_line bs then removelast bs else bs) in
  if bool_decide (bs = []) then (g, true) else
  let text := from_utf8_lossy bs in
  let own := detect_ts text (w_now w) in
  let s := set_out (count_line own (sc_out (gs_scan g))) (gs_scan g) in
  let inherited := match own with Some t => Some t | None => gs_inherited g end in
  match inherited with
  | None => (gz_with (visit (VLine text None) s) inherited (gs_newer_streak g) (gs_saw_older g), true)
  | Some t =>
      if t <? w_since w then (gz_with s inherited (gs_newer_streak g) true, true)
      else if w_until w <? t then
        match own with
        | Some _ => let n := S (gs_newer_streak g) in (gz_with s inherited n (gs_saw_older g), (n <? OLDER_STREAK_STOP)%nat)
        | None => (gz_with s inherited (gs_newer_streak g) (gs_saw_older g), true)
        end
      else (gz_with (visit (VLine text (Some t)) s) inherited 0 (gs_saw_older g), true)
  end.

(** [true]: ended without an error. Fuel is one more than the bytes. *)
Fixpoint gz_loop (fuel : nat) (w : ScanWindow) (d : bytes) (err : bool) (g : GzState) : GzState * bool :=
  match fuel with
  | O => (g, true)
  | S fuel' =>
      match read_until d err with
      | None => (g, false)
      | Some (line, d') =>
          let n := length line in
          let out := sc_out (gs_scan g) in
          let with_out o := gz_with (set_out o (gs_scan g)) (gs_inherited g) (gs_newer_streak g) (gs_saw_older g) in
          if (n =? 0)%nat then (g, true)
          else if (w_budget w <? so_bytes out + n)%nat then (with_out (hit_budget out), true)
          else
            let g := with_out (add_bytes n out) in
            if negb (ends_line line) && (max_carry <=? n)%nat then
              match skip_line (S (length d')) d' err 0 with
              | None => (g, false)
              | Some (d', m) => gz_loop fuel' w d' err (gz_with (set_out (add_bytes m (sc_out (gs_scan g))) (gs_scan g)) (gs_inherited g) (gs_newer_streak g) (gs_saw_older g))
              end
            else
              let '(g, go) := gz_line w line g in
              if go then gz_loop fuel' w d' err g else (g, true)
      end
  end.

(** The size in the last four bytes. *)
Definition gz_isize (file : bytes) : option Z :=
  if (length file <? 4)%nat then None else Some (foldr (fun b n => b + 256 * n) 0 (drop (length file - 4) file)).

(** [false]: an input/output error. *)
Definition scan_gz (w : ScanWindow) (path file : bytes) (s : Scan) : Scan * bool :=
  let remaining := (w_budget w - so_bytes (sc_out s))%nat in
  if (remaining =? 0)%nat then (set_out (hit_budget (sc_out s)) s, true) else
  match gz_isize file with
  | None => (s, false)
  | Some total =>
      let skip := (Z.to_nat total - remaining)%nat in
      if (remaining * GZ_SKIP_FACTOR <? skip)%nat then (set_out (hit_budget (sc_out s)) s, true) else
      let '(d, err) := gunzip file in
      let s := set_out (push_file path (sc_out s)) s in
      let start := if (0 <? skip)%nat then
                     if err && (length d <? skip)%nat then None else snd <$> read_until (drop skip d) err
                   else Some d in
      match start with
      | None => (s, false)
      | Some d =>
          let '(g, ok) := gz_loop (S (length d)) w d err (gz_with (visit ForwardStart s) None 0 false) in
          if negb ok then (gs_scan g, false) else
          let s := visit ForwardEnd (gs_scan g) in
          (if gs_saw_older g then set_out (reach_since (sc_out s)) s
           else if (0 <? skip)%nat then set_out (hit_budget (sc_out s)) s else s, true)
      end
  end.

Fixpoint scan_rotated (w : ScanWindow) (fs : Files) (rots : list (bytes * bool)) (s : Scan) : Scan :=
  match rots with
  | [] => s
  | (rot, gz) :: rots' =>
      if so_reached_since (sc_out s) || so_budget_hit (sc_out s) then s else
      match fs rot with
      | None => s
      | Some f =>
          if match lf_mtime f with Some t => t <? w_since w | None => false end then set_out (reach_since (sc_out s)) s else
          let '(s, ok) := if gz then scan_gz w rot (lf_bytes f) s
                          else (scan_file chunk max_carry w (lf_bytes f) (set_out (push_file rot (sc_out s)) s), true) in
          if negb ok then s else scan_rotated w fs rots' (set_state walk_new s)
      end
  end.

Inductive AgentError : Type :=
| BadRequest (m : string) | NotFound (m : string) | Unavailable (m : string) | Internal (m : string) | Busy (m : string).

Definition scan_source (w : ScanWindow) (fs : Files) (path : bytes) : result Scan AgentError :=
  match fs path with
  | None => Err (Unavailable ("cannot open " +:+ of_bytes path))
  | Some f =>
      let s := {| sc_out := push_file path outcome_new; sc_state := walk_new; sc_visits := [] |} in
      let s := scan_file chunk max_carry w (lf_bytes f) s in
      Ok (if negb (w_include_rotated w) then s else scan_rotated w fs (rotated_files fs path) s)
  end.
End rotated.

(** * What the pieces do not change *)
(** ** Lines *)
Lemma split_on_pieces (c : Z) (s : bytes) : Forall (fun p => c ∉ p) (split_on c s).
Proof.
  induction s as [|x s IH]; simpl; [by repeat constructor; apply not_elem_of_nil|]. destruct (split_on_ne c s) as (p & ps & E). rewrite E in IH |- *.
  apply Forall_cons in IH as [Hp Hps]. destruct (Z.eqb_spec x c); repeat constructor; try done; [apply not_elem_of_nil|].
  apply not_elem_of_cons. split; [congruence|done].
Qed.

Lemma split_on_first (c : Z) (s p : bytes) (ps : list bytes) : split_on c s = p :: ps -> (c ∉ p) /\ prefix p s.
Proof.
  intros Hs. pose proof (split_on_pieces c s) as Hf. rewrite Hs in Hf. apply Forall_cons in Hf as [Hp _]. split; [done|].
  destruct (decide (c ∈ s)) as [Hin|Hnin].
  - apply list_elem_of_split_l in Hin as (p' & B & -> & Hp'). rewrite split_on_sep, (split_on_free c p') in Hs by done. injection Hs as <- _. by exists (c :: B).
  - rewrite (split_on_free c s Hnin) in Hs. by injection Hs as <- _.
Qed.

(** A stretch without a line break lies within a line. *)
Lemma split_on_within (c : Z) (a x b : bytes) : c ∉ x -> exists l, l ∈ split_on c (a ++ x ++ b) /\ (length x <= length l)%nat.
Proof.
  intros Hx. induction a as [|y a IH]; simpl.
  - induction x as [|y x IHx]; simpl; [destruct (split_on_ne c b) as (p & ps & ->); exists p; split; [left|lia]|].
    apply not_elem_of_cons in Hx as [Hy Hx]. assert (Hh : forall p ps, split_on c (x ++ b) = p :: ps -> (length x <= length p)%nat).
    { clear -Hx. revert Hx. induction x as [|y x IH]; simpl; [lia|]. intros [Hy Hx]%not_elem_of_cons p ps.
      destruct (split_on_ne c (x ++ b)) as (q & qs & E). rewrite E. specialize (IH Hx _ _ E). destruct (Z.eqb_spec y c); [congruence|].
      intros [= <- _]. simpl. lia. }
    destruct (split_on_ne c (x ++ b)) as (p & ps & E). rewrite E. destruct (Z.eqb_spec y c); [congruence|]. specialize (Hh _ _ E).
    exists (y :: p). split; [left|simpl; lia].
  - destruct IH as (l & Hl & Hlen). destruct (split_on_ne c (a ++ x ++ b)) as (p & ps & E). rewrite E in Hl |- *.
    apply elem_of_cons in Hl as [->|Hl]; destruct (y =? c).
    + exists p. split; [by right; left|done].
    + exists (y :: p). split; [left|simpl; lia].
    + exists l. split; [by right; right|done].
    + exists l. split; [by right|done].
Qed.

Section chunks.
Context `{AgentDates}.

(** The lines one after the other, until the window is covered. *)
Fixpoint walk (w : ScanWindow) (ls : list bytes) (s : Scan) : Scan * bool :=
  match ls with
  | [] => (s, true)
  | l :: ls => let '(s, go) := handle_line w l s in if go then walk w ls s else (s, false)
  end.
Lemma walk_app (w : ScanWindow) (l1 l2 : list bytes) (s : Scan) :
  walk w (l1 ++ l2) s = let '(s', go) := walk w l1 s in if go then walk w l2 s' else (s', false).
Proof. revert s. induction l1 as [|l l1 IH]; intros s; simpl; [done|]. destruct (handle_line w l s) as [s' [|]]; [apply IH|done]. Qed.


Lemma rsplit_once_spec (c : Z) (s : bytes) :
  match rsplit_once c s with Some (a, b) => s = a ++ c :: b /\ c ∉ b | None => c ∉ s end.
Proof.
  unfold rsplit_once. destruct (split_once c (rev s)) as [[a b]|] eqn:E; simpl.
  - apply split_once_spec in E as [E Ha]. rewrite <- (rev_involutive s), E, rev_app_distr. simpl. rewrite <- (assoc_L (++)). split; [done|].
    by rewrite list_elem_of_In, <- in_rev, <- list_elem_of_In.
  - intros Hin. apply list_elem_of_In, in_rev, list_elem_of_In, list_elem_of_split in Hin as (l1 & l2 & Hs).
    revert E. clear -Hs. revert l1 Hs. induction (rev s) as [|x r IH]; intros l1 Hs; [by destruct l1|]. simpl.
    destruct (Z.eqb_spec x c); [done|]. destruct l1 as [|y l1]; simplify_eq/=. intros Hn%fmap_None. by eapply IH.
Qed.

(** The lines of a buffer: what precedes the first line break stays. *)
Lemma lines_back_spec (f : nat) (w : ScanWindow) (buf : bytes) (s : Scan) : (length buf <= f)%nat ->
  exists p ps, split_on 10 buf = p :: ps /\
  let '(s', go, rest) := lines_back f w buf s in walk w (rev ps) s = (s', go) /\ (go = true -> rest = p).
Proof.
  revert buf s. induction f as [|f IH]; intros buf s Hf; [destruct buf; [exists [], []; by split|simpl in Hf; lia]|].
  cbn [lines_back]. pose proof (rsplit_once_spec 10 buf) as Hr. destruct (rsplit_once 10 buf) as [[front line]|].
  - destruct Hr as [-> Hl]. rewrite length_app in Hf. simpl in Hf. rewrite split_on_sep, (split_on_free 10 line Hl).
    destruct (handle_line w line s) as [s1 [|]] eqn:E.
    + destruct (IH front s1) as (p & ps & -> & Hw); [lia|]. exists p, (ps ++ [line]). split; [done|].
      destruct (lines_back f w front s1) as [[s' go] rest]. rewrite rev_unit. cbn [walk]. by rewrite E.
    + destruct (split_on_ne 10 front) as (p & ps & ->). exists p, (ps ++ [line]). split; [done|]. rewrite rev_unit. cbn [walk]. by rewrite E.
  - rewrite (split_on_free 10 buf Hr). exists buf, []. by split.
Qed.

(** The outcome without the count of bytes. *)
Definition forget (s : Scan) : Scan :=
  let o := sc_out s in
  set_out {| so_lines := so_lines o; so_bytes := 0; so_budget_hit := so_budget_hit o; so_reached_since := so_reached_since o;
             so_oldest := so_oldest o; so_newest := so_newest o; so_files := so_files o |} s.
Lemma handle_line_forget (w : ScanWindow) (l : bytes) (s : Scan) :
  handle_line w l (forget s) = let '(s', go) := handle_line w l s in (forget s', go).
Proof. unfold handle_line. repeat case_match; simplify_eq/=; try done; congruence. Qed.
Lemma handle_line_bytes (w : ScanWindow) (l : bytes) (s : Scan) : so_bytes (sc_out (handle_line w l s).1) = so_bytes (sc_out s).
Proof. unfold handle_line. by repeat case_match. Qed.
Lemma walk_forget (w : ScanWindow) (ls : list bytes) (s : Scan) : walk w ls (forget s) = let '(s', go) := walk w ls s in (forget s', go).
Proof.
  revert s. induction ls as [|l ls IH]; intros s; simpl; [done|]. rewrite handle_line_forget. destruct (handle_line w l s) as [s' [|]]; [apply IH|done].
Qed.
Lemma walk_bytes (w : ScanWindow) (ls : list bytes) (s : Scan) : so_bytes (sc_out (walk w ls s).1) = so_bytes (sc_out s).
Proof.
  revert s. induction ls as [|l ls IH]; intros s; simpl; [done|]. pose proof (handle_line_bytes w l s) as Hb.
  destruct (handle_line w l s) as [s' [|]]; cbn [fst] in *; [by rewrite IH|done].
Qed.

(** What is left below [pos] of a file, cut at the budget, with [carry] after it:
    all lines of it at once. A first line the budget cut is left out. *)
Definition rest_ref (w : ScanWindow) (avail : nat) (content : bytes) (pos : nat) (carry : bytes) (s : Scan) : Scan :=
  let r := Nat.min avail pos in
  let ps := split_on 10 (take r (drop (pos - r) content) ++ carry) in
  let '(s', go) := walk w (rev (if (r =? pos)%nat then ps else tail ps)) s in
  if go && (r <? pos)%nat then set_out (hit_budget (sc_out s')) s' else s'.

Lemma rest_ref_forget (w : ScanWindow) (avail : nat) (content : bytes) (pos : nat) (carry : bytes) (s : Scan) :
  rest_ref w avail content pos carry (forget s) = forget (rest_ref w avail content pos carry s).
Proof. unfold rest_ref. rewrite walk_forget. destruct (walk w _ s) as [s' go]. by destruct (go && _). Qed.

(** One turn: the buffer's own lines, then the rest with what stays of it. *)
Lemma rest_ref_step (w : ScanWindow) (avail want pos : nat) (content carry p : bytes) (ps : list bytes) (s : Scan) :
  (0 < want)%nat -> (want <= pos)%nat -> (want <= avail)%nat -> (pos <= length content)%nat ->
  split_on 10 (take want (drop (pos - want) content) ++ carry) = p :: ps ->
  rest_ref w avail content pos carry s =
    let '(s', go) := walk w (rev ps) s in
    if negb go then s' else if (pos =? want)%nat then (handle_line w p s').1 else rest_ref w (avail - want) content (pos - want) p s'.
Proof.
  intros Hw0 Hwp Hwa Hpos Hs. unfold rest_ref. set (r := Nat.min avail pos). set (r' := Nat.min (avail - want) (pos - want)).
  assert (Er : r = (r' + want)%nat) by lia. assert (Ep : (pos - r)%nat = (pos - want - r')%nat) by lia.
  set (A := take r' (drop (pos - r) content)).
  assert (Et : take r (drop (pos - r) content) = A ++ take want (drop (pos - want) content)).
  { unfold A. rewrite Er at 1. rewrite <- take_take_drop, drop_drop. do 3 f_equal. lia. }
  assert (Es : split_on 10 (take r (drop (pos - r) content) ++ carry) = split_on 10 (A ++ p) ++ ps).
  { rewrite Et, <- (assoc_L (++)). set (buf := take want _ ++ carry) in *. destruct (decide (10 ∈ buf)) as [Hin|Hnin].
    - apply list_elem_of_split_l in Hin as (p' & B & -> & Hp'). rewrite split_on_sep, (split_on_free 10 p') in Hs by done. injection Hs as <- <-.
      by rewrite (assoc_L (++)), split_on_sep.
    - rewrite (split_on_free 10 buf Hnin) in Hs. injection Hs as <- <-. by rewrite app_nil_r. }
  rewrite Es. destruct (split_on_ne 10 (A ++ p)) as (q & qs & Eq). 
  assert (El : rev (if (r =? pos)%nat then split_on 10 (A ++ p) ++ ps else tail (split_on 10 (A ++ p) ++ ps)) =
    rev ps ++ rev (if (r' =? pos - want)%nat then split_on 10 (A ++ p) else tail (split_on 10 (A ++ p)))).
  { assert ((r =? pos)%nat = (r' =? pos - want)%nat) as -> by (destruct (Nat.eqb_spec r pos), (Nat.eqb_spec r' (pos - want)); (done || lia)).
    rewrite Eq. destruct (r' =? pos - want)%nat; cbn [tail app]; [by rewrite app_comm_cons, rev_app_distr|by rewrite rev_app_distr]. }
  rewrite El, walk_app. destruct (walk w (rev ps) s) as [s' [|]]; cbn [negb]; [|done].
  destruct (Nat.eqb_spec pos want) as [->|Hne].
  - assert (Hr0 : r' = 0%nat) by lia. rewrite Hr0, Nat.sub_diag. cbn [Nat.eqb]. assert (A = []) as -> by (unfold A; by rewrite Hr0, take_0). cbn [app].
    destruct (split_on_first _ _ _ _ Hs) as [Hp _]. rewrite (split_on_free 10 p Hp). cbn [rev app walk]. rewrite (proj2 (Nat.ltb_ge r want)) by lia.
    destruct (handle_line w p s') as [s2 [|]]; by rewrite ?andb_false_r.
  - assert ((r <? pos)%nat = (r' <? pos - want)%nat) as -> by (destruct (Nat.ltb_spec r pos), (Nat.ltb_spec r' (pos - want)); (done || lia)).
    rewrite <- Ep. done.
Qed.

Lemma short_stretch (max_carry : nat) (content : bytes) (i j : nat) : Forall (fun l => (length l <= max_carry)%nat) (split_on 10 content) ->
  10 ∉ take j (drop i content) -> (length (take j (drop i content)) <= max_carry)%nat.
Proof.
  intros Hl Hn. destruct (split_on_within 10 (take i content) (take j (drop i content)) (drop j (drop i content)) Hn) as (l & Hin & Hle).
  rewrite !take_drop in Hin. rewrite Forall_forall in Hl. specialize (Hl l Hin). lia.
Qed.

Lemma scan_file_from_ref (chunk max_carry f pos : nat) (w : ScanWindow) (content carry : bytes) (s : Scan) : (0 < chunk)%nat ->
  Forall (fun l => (length l <= max_carry)%nat) (split_on 10 content) -> (0 < pos < f)%nat -> (pos <= length content)%nat ->
  10 ∉ carry -> carry = take (length carry) (drop pos content) ->
  forget (scan_file_from chunk max_carry f w content pos carry s) = forget (rest_ref w (w_budget w - so_bytes (sc_out s)) content pos carry s).
Proof.
  intros Hch Hmc. revert pos carry s. induction f as [|f IH]; intros pos carry s Hf Hpos Hc Ec; [lia|]. cbn [scan_file_from].
  destruct (Nat.eqb_spec pos 0) as [->|_]; [lia|]. set (avail := (w_budget w - so_bytes (sc_out s))%nat).
  destruct (Nat.eqb_spec avail 0) as [E0|Hav].
  { unfold rest_ref. rewrite E0. cbn [Nat.min]. rewrite take_0. cbn [app]. rewrite (split_on_free 10 carry Hc).
    destruct (Nat.eqb_spec 0 pos); [lia|]. cbn [tail rev walk andb]. by rewrite (proj2 (Nat.ltb_lt 0 pos)) by lia. }
  set (want := Nat.min (Nat.min chunk pos) avail). assert (Hwant : (0 < want <= pos)%nat /\ (want <= avail)%nat) by lia.
  set (buf := take want (drop (pos - want) content) ++ carry). set (s1 := set_out (add_bytes want (sc_out s)) s).
  destruct (lines_back_spec (length buf) w buf s1) as (p & ps & Hs & Hw); [done|].
  assert (Hs1 : rest_ref w avail content pos carry (forget s) = rest_ref w avail content pos carry (forget s1)) by done.
  rewrite <- rest_ref_forget, Hs1, rest_ref_forget. rewrite (rest_ref_step w avail want pos content carry p ps s1) by (lia || done).
  pose proof (walk_bytes w (rev ps) s1) as Hb. destruct (lines_back (length buf) w buf s1) as [[s' go] rest]. destruct Hw as [Hw Hrest].
  rewrite Hw in Hb |- *. cbn [fst] in Hb. destruct go; cbn [negb]; [|done]. rewrite (Hrest eq_refl). clear Hrest rest.
  destruct (Nat.eqb_spec (pos - want) 0), (Nat.eqb_spec pos want); try lia; [done|].
  destruct (split_on_first _ _ _ _ Hs) as [Hp Hpre].
  assert (Eb : buf = take (want + length carry) (drop (pos - want) content)).
  { unfold buf. rewrite <- take_take_drop, drop_drop. f_equal. rewrite Ec at 1. do 2 f_equal. lia. }
  assert (Ep : p = take (length p) (drop (pos - want) content)).
  { rewrite Eb in Hpre. destruct Hpre as [k Hk]. pose proof (f_equal length Hk) as Hlk. rewrite length_take, length_app in Hlk.
    apply (f_equal (take (length p))) in Hk. by rewrite take_app_length, take_take, Nat.min_l in Hk by lia. }
  assert (Hlen : (length p <= max_carry)%nat) by (rewrite Ep; apply short_stretch; [done|by rewrite <- Ep]).
  rewrite (proj2 (Nat.ltb_ge max_carry (length p))) by done.
  rewrite IH; [|lia|lia|done|done]. rewrite Hb. unfold s1. cbn [sc_out set_out so_bytes add_bytes]. do 2 f_equal. lia.
Qed.

(** However large the pieces, the scan of a file is that of its lines. *)
Lemma scan_file_ref (chunk max_carry : nat) (w : ScanWindow) (content : bytes) (s : Scan) : (0 < chunk)%nat ->
  Forall (fun l => (length l <= max_carry)%nat) (split_on 10 content) ->
  forget (scan_file chunk max_carry w content s) = forget (rest_ref w (w_budget w - so_bytes (sc_out s)) content (length content) [] s).
Proof.
  intros Hch Hmc. unfold scan_file. destruct content as [|b content].
  - unfold rest_ref. cbn [length]. rewrite Nat.min_0_r. done.
  - apply scan_file_from_ref; try done; [simpl; lia|apply not_elem_of_nil].
Qed.

(** ** The window *)
Definition text_of (l : bytes) : bytes := from_utf8_lossy (strip_cr l).
Definition stamp (w : ScanWindow) (l : bytes) : option DateTime := if bool_decide (strip_cr l = []) then None else detect_ts (text_of l) (w_now w).
(** A line with a date in the window. *)
Definition in_window (w : ScanWindow) (l : bytes) : option Visit :=
  t ← stamp w l; if (w_since w <=? t) && (t <=? w_until w) then Some (VLine (text_of l) (Some t)) else None.
(** Every line that is not blank has a date. *)
Definition dated (w : ScanWindow) (l : bytes) : Prop := strip_cr l = [] \/ is_Some (stamp w l).
Definition not_after (w : ScanWindow) (l l' : bytes) : Prop := forall t t', stamp w l = Some t -> stamp w l' = Some t' -> t <= t'.

Lemma in_window_below (w : ScanWindow) (l : bytes) (t : DateTime) (ls : list bytes) : stamp w l = Some t -> t < w_since w ->
  Forall (fun l' => not_after w l' l) ls -> omap (in_window w) ls = [].
Proof.
  intros Hl Ht. induction 1 as [|l' ls Hn _ IH]; [done|]. cbn [omap list_omap]. unfold in_window at 1. destruct (stamp w l') as [t'|] eqn:E'; cbn [mbind option_bind]; [|done].
  specialize (Hn _ _ E' Hl). by rewrite (proj2 (Z.leb_gt _ _)) by lia.
Qed.

(** Newest first, in order of time, a walk visits exactly the lines of the
    window: what it leaves out when it stops early is older. *)
Lemma walk_window (w : ScanWindow) (ls : list bytes) (s : Scan) : Forall (dated w) ls -> StronglySorted (fun l l' => not_after w l' l) ls ->
  sc_visits (walk w ls s).1 = sc_visits s ++ omap (in_window w) ls /\ ((walk w ls s).2 = true -> so_reached_since (sc_out (walk w ls s).1) = so_reached_since (sc_out s)).
Proof.
  intros Hd Hsort. revert s. induction Hsort as [|l ls Hsort IH Hl]; intros s; [by rewrite app_nil_r|]. apply Forall_cons in Hd as [Hd Hds]. specialize (IH Hds).
  cbn [walk omap list_omap]. unfold in_window at 1, handle_line. destruct (bool_decide (strip_cr l = [])) eqn:Eb.
  { assert (stamp w l = None) as -> by (unfold stamp; by rewrite Eb). cbn [mbind option_bind]. apply IH. }
  destruct Hd as [Hd|[t Ht]]; [by apply bool_decide_eq_false in Eb|]. rewrite Ht. cbn [mbind option_bind]. pose proof Ht as Ht'. unfold stamp in Ht'. rewrite Eb in Ht'.
  fold (text_of l). rewrite Ht'. destruct (Z.ltb_spec (w_until w) t) as [Hu|Hu].
  { rewrite (proj2 (Z.leb_gt t _)) by lia. rewrite andb_false_r. match goal with |- context [walk w ls ?x] => exact (IH x) end. }
  rewrite (proj2 (Z.leb_le t _)) by lia. rewrite andb_true_r. destruct (Z.ltb_spec t (w_since w)) as [Hs|Hs].
  - rewrite (proj2 (Z.leb_gt _ t)) by lia. destruct (OLDER_STREAK_STOP <=? _)%nat; [|match goal with |- context [walk w ls ?x] => exact (IH x) end].
    rewrite (in_window_below w l t) by done. cbn [fst snd sc_visits set_out set_state]. by rewrite app_nil_r.
  - rewrite (proj2 (Z.leb_le _ t)) by lia. destruct (IH (visit (VLine (text_of l) (Some t)) (set_state {| ws_inherited := Some t; ws_older_streak := 0 |}
      (set_out (count_line (Some t) (sc_out s)) s)))) as [-> Hr]. split; [|exact Hr]. cbn [sc_visits visit set_state set_out]. by rewrite <- (assoc_L (++)).
Qed.

Lemma walk_keeps_budget (w : ScanWindow) (ls : list bytes) (s : Scan) : so_budget_hit (sc_out (walk w ls s).1) = so_budget_hit (sc_out s).
Proof.
  revert s. induction ls as [|l ls IH]; intros s; simpl; [done|].
  assert (Hh : so_budget_hit (sc_out (handle_line w l s).1) = so_budget_hit (sc_out s)) by (unfold handle_line; by repeat case_match).
  destruct (handle_line w l s) as [s' [|]]; cbn [fst] in *; [by rewrite IH|done].
Qed.
Lemma sorted_rev {A} (R : A -> A -> Prop) (l : list A) : StronglySorted R l -> StronglySorted (fun x y => R y x) (rev l).
Proof.
  induction 1 as [|x l _ IH Hx]; [constructor|]. simpl. clear -IH Hx. rewrite Forall_forall in Hx.
  assert (Hx' : Forall (R x) (rev l)) by (apply Forall_forall; intros y Hy; apply Hx; by rewrite list_elem_of_In, in_rev, <- list_elem_of_In).
  induction IH as [|y r _ IHr Hy]; simpl; [by repeat constructor|]. apply Forall_cons in Hx' as [Hxy Hxr]. constructor; [by apply IHr|].
  apply Forall_app. split; [done|]. by constructor.
Qed.

Lemma scan_file_window (chunk max_carry : nat) (w : ScanWindow) (content : bytes) (s : Scan) : (0 < chunk)%nat ->
  Forall (fun l => (length l <= max_carry)%nat) (split_on 10 content) -> (so_bytes (sc_out s) + length content <= w_budget w)%nat ->
  Forall (dated w) (split_on 10 content) -> StronglySorted (not_after w) (split_on 10 content) ->
  let s' := scan_file chunk max_carry w content s in
  sc_visits s' = sc_visits s ++ omap (in_window w) (rev (split_on 10 content)) /\ so_budget_hit (sc_out s') = so_budget_hit (sc_out s).
Proof.
  intros Hch Hmc Hb Hd Hsort s'. pose proof (scan_file_ref chunk max_carry w content s Hch Hmc) as E. fold s' in E.
  assert (Ev : sc_visits s' = sc_visits (forget s') /\ so_budget_hit (sc_out s') = so_budget_hit (sc_out (forget s'))) by done.
  destruct Ev as [-> ->]. rewrite E. unfold rest_ref. rewrite Nat.min_r, Nat.eqb_refl, Nat.ltb_irrefl by lia. rewrite Nat.sub_diag, drop_0, firstn_all, app_nil_r.
  destruct (walk_window w (rev (split_on 10 content)) s) as [Hv _]; [by apply Forall_rev| |].
  { apply sorted_rev. done. }
  pose proof (walk_keeps_budget w (rev (split_on 10 content)) s) as Hk. destruct (walk w _ s) as [s2 go]. cbn [fst] in *. by rewrite andb_false_r.
Qed.
End chunks.

(** * The budget *)
Section budget.
Context `{AgentDates} `{Gzip}.
Context (chunk max_carry : nat).

Definition within (w : ScanWindow) (s : Scan) : Prop := (so_bytes (sc_out s) <= w_budget w)%nat.

Lemma lines_back_bytes (f : nat) (w : ScanWindow) (buf : bytes) (s : Scan) : so_bytes (sc_out (lines_back f w buf s).1.1) = so_bytes (sc_out s).
Proof.
  revert buf s. induction f as [|f IH]; intros buf s; cbn [lines_back]; [done|]. destruct (rsplit_once 10 buf) as [[front line]|]; [|done].
  pose proof (handle_line_bytes w line s) as Hb. destruct (handle_line w line s) as [s' [|]]; cbn [fst] in *; [by rewrite IH|done].
Qed.

Lemma scan_file_within (f : nat) (w : ScanWindow) (content : bytes) (pos : nat) (carry : bytes) (s : Scan) : within w s ->
  within w (scan_file_from chunk max_carry f w content pos carry s).
Proof.
  unfold within. revert pos carry s. induction f as [|f IH]; intros pos carry s Hs; cbn [scan_file_from]; [done|].
  destruct (pos =? 0)%nat; [done|]. destruct (Nat.eqb_spec (w_budget w - so_bytes (sc_out s)) 0) as [|Hr]; [done|].
  set (want := Nat.min _ _). set (s1 := set_out (add_bytes want (sc_out s)) s). set (buf := take want _ ++ carry).
  assert (H1 : (so_bytes (sc_out s1) <= w_budget w)%nat) by (unfold s1; simpl; lia).
  pose proof (lines_back_bytes (length buf) w buf s1) as Hb. destruct (lines_back (length buf) w buf s1) as [[s2 go] rest]. cbn [fst] in Hb.
  destruct (negb go); [lia|]. destruct (_ =? 0)%nat; [rewrite handle_line_bytes; lia|]. destruct (_ <? _)%nat; apply IH; lia.
Qed.

(** No stretch without a line break reaches the longest line kept. *)
Definition short_lines (d : bytes) : Prop := forall a x b, d = a ++ x ++ b -> 10 ∉ x -> (length x < max_carry)%nat.
Lemma short_lines_drop (n : nat) (d : bytes) : short_lines d -> short_lines (drop n d).
Proof. intros Hd a x b E. apply (Hd (take n d ++ a) x b). by rewrite <- (assoc_L (++)), <- E, take_drop. Qed.

Lemma str_find_none (c : Z) (s : bytes) : str_find [c] s = None -> c ∉ s.
Proof.
  induction s as [|x s IH]; cbn [str_find starts_with]; intros Hf; [apply not_elem_of_nil|]. destruct (Z.eqb_spec c x); cbn [andb] in Hf; [done|].
  apply fmap_None in Hf. apply not_elem_of_cons. split; [congruence|by apply IH].
Qed.
Lemma read_until_short (d : bytes) (err : bool) (line d' : bytes) : short_lines d -> read_until max_carry d err = Some (line, d') ->
  (ends_line line = true \/ (length line < max_carry)%nat) /\ exists n, d' = drop n d.
Proof.
  intros Hd. unfold read_until. destruct (str_find [10] (take max_carry d)) as [i|] eqn:Ef.
  - intros [= <- <-]. split; [|by eexists]. left. unfold ends_line. apply bool_decide_eq_true.
    apply str_find_Some in Ef as ([k Hk] & _ & _). assert (Hi : take max_carry d !! i = Some 10) by (by rewrite <- (Nat.add_0_r i), <- lookup_drop, Hk).
    apply lookup_take_Some in Hi as [Hi _]. by rewrite (take_S_r _ _ _ Hi), last_snoc.
  - apply str_find_none in Ef. assert (Hl : (length (take max_carry d) < max_carry)%nat).
    { apply (Hd [] _ (drop max_carry d)); [by rewrite take_drop|done]. }
    rewrite length_take in Hl. rewrite (proj2 (Nat.leb_gt _ _)) by lia. destruct err; [done|]. intros [= <- <-]. split; [right; lia|].
    exists (length d). by rewrite drop_all.
Qed.

Lemma gz_line_bytes (w : ScanWindow) (bs : bytes) (g : GzState) : so_bytes (sc_out (gs_scan (gz_line w bs g).1)) = so_bytes (sc_out (gs_scan g)).
Proof. unfold gz_line. by repeat case_match. Qed.

Lemma gz_loop_within (f : nat) (w : ScanWindow) (d : bytes) (err : bool) (g : GzState) : short_lines d -> within w (gs_scan g) ->
  within w (gs_scan (gz_loop max_carry f w d err g).1).
Proof.
  unfold within. revert d g. induction f as [|f IH]; intros d g Hd Hg; cbn [gz_loop]; [done|]. destruct (read_until max_carry d err) as [[line d']|] eqn:Er; [|done].
  destruct (read_until_short _ _ _ _ Hd Er) as [Hl [n ->]]. destruct (_ =? 0)%nat; [done|]. destruct (Nat.ltb_spec (w_budget w) (so_bytes (sc_out (gs_scan g)) + length line)); [done|].
  assert (negb (ends_line line) && (max_carry <=? length line)%nat = false) as ->.
  { destruct Hl as [->|Hl]; [done|]. rewrite (proj2 (Nat.leb_gt _ _)) by done. by rewrite andb_false_r. }
  match goal with |- context [gz_line w line ?x] => pose proof (gz_line_bytes w line x) as Hb; destruct (gz_line w line x) as [g' [|]] end; cbn [fst] in *; simpl in Hb.
  - apply IH; [by apply short_lines_drop|lia].
  - lia.
Qed.

Lemma scan_gz_within (w : ScanWindow) (path file : bytes) (s : Scan) : short_lines (gunzip file).1 -> within w s ->
  within w (scan_gz max_carry w path file s).1.
Proof.
  intros Hd Hs. unfold scan_gz. destruct (_ =? 0)%nat; [done|]. destruct (gz_isize file) as [total|]; [|done]. destruct (_ <? _)%nat; [done|].
  destruct (gunzip file) as [d err]. cbn [fst] in Hd. set (skip := (Z.to_nat total - _)%nat). set (start := if (0 <? skip)%nat then _ else _).
  destruct start as [d'|] eqn:Est; [|done].
  assert (Hd' : short_lines d').
  { unfold start in Est. destruct (0 <? skip)%nat; [|by injection Est as <-]. destruct (err && _); [done|]. apply fmap_Some in Est as ([line r] & Er & ->).
    destruct (read_until_short _ _ _ _ (short_lines_drop skip d Hd) Er) as [_ [n ->]]. by do 2 apply short_lines_drop. }
  pose proof (gz_loop_within (S (length d')) w d' err (gz_with (visit ForwardStart (set_out (push_file path (sc_out s)) s)) None 0 false) Hd' Hs) as Hg.
  destruct (gz_loop max_carry (S (length d')) w d' err _) as [g ok]. cbn [fst] in Hg. destruct (negb ok); [done|]. by destruct (gs_saw_older g), (0 <? skip)%nat.
Qed.

Lemma scan_rotated_within (w : ScanWindow) (fs : Files) (rots : list (bytes * bool)) (s : Scan) :
  (forall p f, fs p = Some f -> short_lines (gunzip (lf_bytes f)).1) -> within w s -> within w (scan_rotated chunk max_carry w fs rots s).
Proof.
  intros Hfs. revert s. induction rots as [|[rot gz] rots IH]; intros s Hs; cbn [scan_rotated]; [done|]. destruct (_ || _); [done|].
  destruct (fs rot) as [f|] eqn:Ef; [|done]. destruct (match lf_mtime f with Some t => _ | None => _ end); [done|].
  assert (Hsc : forall s2 ok, (if gz then scan_gz max_carry w rot (lf_bytes f) s
    else (scan_file chunk max_carry w (lf_bytes f) (set_out (push_file rot (sc_out s)) s), true)) = (s2, ok) -> within w s2).
  { intros s2 ok. destruct gz; intros E.
    - pose proof (scan_gz_within w rot (lf_bytes f) s (Hfs _ _ Ef) Hs) as Hg. by rewrite E in Hg.
    - injection E as <- _. by apply scan_file_within. }
  destruct (if gz then _ else _) as [s2 ok]. specialize (Hsc _ _ eq_refl). destruct (negb ok); [done|]. by apply IH.
Qed.

(** A scan reads no more bytes than its budget, over the live file and all its
    rotated copies, as long as no line of a compressed one is overlong. *)
Theorem scan_budget_kept (w : ScanWindow) (fs : Files) (path : bytes) (s : Scan) :
  (forall p f, fs p = Some f -> short_lines (gunzip (lf_bytes f)).1) -> scan_source chunk max_carry w fs path = Ok s ->
  (so_bytes (sc_out s) <= w_budget w)%nat.
Proof.
  intros Hfs. unfold scan_source. destruct (fs path) as [f|] eqn:Ef; [|done]. intros [= <-].
  set (s0 := {| sc_out := _; sc_state := _; sc_visits := _ |}).
  assert (Hw : within w (scan_file chunk max_carry w (lf_bytes f) s0)) by (apply scan_file_within; apply Nat.le_0_l).
  destruct (negb (w_include_rotated w)); [done|]. by apply scan_rotated_within.
Qed.
End budget.

(** ** Witnesses *)
Module ScanSample.
(** Dates of this kind, read as their seconds. *)
#[local] Instance dates : AgentDates := {|
  ad_rfc3339 _ := None; ad_zoned _ _ := None; ad_year _ := 2026; ad_min_utc := 0; ad_max_utc := secs 1000; ad_show _ := []; ad_journal _ := [];
  ad_naive f s := if bool_decide (f = "%Y-%m-%d %H:%M:%S"%string) then secs <$> parse_digits 0 (drop 17 s) else None |}.
(** A file of this kind is its own decompression, after the two bytes of the magic. *)
#[local] Instance gz : Gzip := fun s => (drop 2 (take (length s - 4) s), false).

Definition line (t : string) (text : string) : bytes := as_bytes ("2026-10-09 06:12:" +:+ t +:+ " " +:+ text) ++ [10].
Definition w (since until budget : Z) (rotated : bool) : ScanWindow :=
  {| w_since := secs since; w_until := secs until; w_budget := Z.to_nat budget; w_include_rotated := rotated; w_now := secs 100 |}.
Definition live : LogFile := {| lf_bytes := line "05" "a" ++ line "06" "b"; lf_mtime := None |}.
Definition path : bytes := as_bytes "log".
Definition fs_of (l : list (string * LogFile)) : Files := fun p => snd <$> List.find (fun kv => bool_decide (as_bytes kv.1 = p)) l.
Definition compressed (s : bytes) : LogFile := {| lf_bytes := [31; 139] ++ s ++ [Z.of_nat (length s); 0; 0; 0]; lf_mtime := None |}.

Lemma short_check (mc : nat) (d : bytes) : Forall (fun l => (length l < mc)%nat) (split_on 10 d) -> short_lines mc d.
Proof. intros Hf a x b -> Hx. destruct (split_on_within 10 a x b Hx) as (l & Hl & Hle). rewrite Forall_forall in Hf. specialize (Hf l Hl). lia. Qed.

Definition copies : list (string * LogFile) := [("log", live); ("log.1", compressed (line "03" "x" ++ line "04" "y"))]%string.
Lemma scan_budget_kept_witness : exists s, scan_source 7 60 (w 0 90 70 true) (fs_of copies) path = Ok s /\ (so_bytes (sc_out s) <= 70)%nat /\ so_budget_hit (sc_out s) = true.
Proof.
  eexists. split; [vm_compute; reflexivity|]. split; [|by vm_compute].
  apply (scan_budget_kept 7 60 (w 0 90 70 true) (fs_of copies) path); [|by vm_compute].
  intros p f Hf. apply short_check. unfold fs_of, copies in Hf. apply fmap_Some in Hf as ([k f'] & Hin & ->). apply List.find_some in Hin as [Hin _].
  destruct Hin as [[= <- <-]|[[= <- <-]|[]]]; vm_compute; repeat constructor.
Defined.

(** An overlong line of a compressed copy is skipped without regard to the
    budget; the size at the end of a file of several members is that of the last
    one only: of 10 bytes 24 are read. *)
Example overlong_over_budget :
  let fs := fs_of [("log", {| lf_bytes := []; lf_mtime := None |}); ("log.1", {| lf_bytes := [31; 139] ++ replicate 23 65 ++ [10; 4; 0; 0; 0]; lf_mtime := None |})]%string in
  match scan_source 7 5 (w 0 90 10 true) fs path with
  | Ok s => so_bytes (sc_out s) = 24%nat /\ so_budget_hit (sc_out s) = false
  | Err _ => False
  end.
Proof. by vm_compute. Qed.

(** Only the end of an overlong line of a plain file is dropped: its beginning is
    taken for a line. *)
Example overlong_head_visited : let fs := fs_of [("log", {| lf_bytes := line "05" "a" ++ line "06" "this is much too long"; lf_mtime := None |})]%string in
  match scan_source 12 30 (w 0 90 1000 true) fs path with
  | Ok s => head (sc_visits s) = Some (VLine (as_bytes "2026-1") None)
  | Err _ => False
  end.
Proof. by vm_compute. Qed.

(** A line without a date at the end of the first rotated copy takes that of the
    oldest line of the live file. *)
Example date_from_newer_file : let fs := fs_of [("log", live); ("log.1", {| lf_bytes := as_bytes "no date" ++ [10]; lf_mtime := None |})]%string in
  match scan_source 7 60 (w 0 90 1000 true) fs path with
  | Ok s => last (sc_visits s) = Some (VLine (as_bytes "no date") (Some (secs 5)))
  | Err _ => False
  end.
Proof. by vm_compute. Qed.
End ScanSample.
