(* ===== verification/AgentLogs.v ===== *)
(** * Log queries of agents ([hiveguard-daemon/src/agent_logs.rs])

    Which logs may be read, how a request is checked, and what the three
    analyses and the journal return. JSON objects list their members in the
    order of the map; texts of system errors are left out. *)
From stdpp Require Import pretty.
From S2P Require Import Prelude Text Models Floats Detector SshLog LogParsers PluginConfig Secrets Host Nftables AgentScan.
Local Open Scope Z_scope.
Local Open Scope rust_scope.

Definition MAX_RAW_BYTES : nat := Z.to_nat 8192.
Definition DISTINCT_CAP : nat := Z.to_nat 10000.
Definition GLOBAL_DISTINCT_BUDGET : nat := Z.to_nat 1000000.
Definition MAX_GROUPS : nat := Z.to_nat 100000.
Definition MAX_SERIES_BUCKETS : Z := 10000.
Definition JOURNAL_FETCH_CAP : Z := 20000.
Definition BUSY_RETRY_AFTER_SECS : Z := 5.
Definition DEFAULT_LIMIT : Z := 200.
Definition DEFAULT_TOP : Z := 25.
Definition MAX_TOP : Z := 500.

(** ** Sources *)
Record FileSource : Type := { src_name : bytes; src_path : bytes; src_format : Format }.
Record AgentLogSourceConfig : Type := { als_name : bytes; als_path : bytes; als_format : bytes }.
Record AgentConfig : Type := {
  ac_log_sources : list AgentLogSourceConfig; ac_journal_units : list bytes; ac_max_scan_bytes : Z; ac_max_results : Z;
  ac_journal_timeout_secs : Z; ac_include_rotated : bool; ac_max_concurrent_scans : Z; ac_max_streams : Z;
}.
Record Inner : Type := {
  in_files : list FileSource; in_journal_units : list bytes; in_max_scan_bytes : Z; in_max_results : Z; in_journal_timeout_secs : Z;
  in_include_rotated : bool; in_max_concurrent_scans : Z; in_max_streams : Z;
}.

(** The first of [name], [name_2], [name_3] ... that is free; fuel is one more
    than the names taken. *)
Fixpoint unique_name (fuel : nat) (n : Z) (candidate name : bytes) (taken : list bytes) : bytes :=
  match fuel with
  | O => candidate
  | S fuel' => if bool_decide (candidate ∈ taken) then unique_name fuel' (n + 1) (name ++ 95 :: as_bytes (fmt_uint n)) name taken else candidate
  end.
Definition add_source (name path : bytes) (format : Format) (files : list FileSource) : list FileSource :=
  if existsb (fun f => bool_decide (src_path f = path)) files then files
  else files ++ [{| src_name := unique_name (S (length files)) 2 name name (src_name <$> files); src_path := path; src_format := format |}].
Definition add_unit (u : bytes) (units : list bytes) : list bytes :=
  if bool_decide (u = []) || bool_decide (u ∈ units) then units else units ++ [u].

Definition entry_path (e : PluginEntry) : option bytes :=
  p ← get "path" (pe_config e) ≫= as_str;
  if bool_decide (p = []) then None else Some p.
Definition add_entry (e : PluginEntry) (fu : list FileSource * list bytes) : list FileSource * list bytes :=
  let '(files, units) := fu in
  let named (d : string) := as_bytes (default d (pe_name e)) in
  let file d fmt := match entry_path e with Some p => (add_source (named d) p fmt files, units) | None => (files, units) end in
  if bool_decide (pe_id e = "source.file.nginx") then file "nginx"%string FNginx
  else if bool_decide (pe_id e = "source.file.ssh") then file "ssh"%string FSsh
  else if bool_decide (pe_id e = "source.file.postfix") then file "postfix"%string FPostfix
  else if bool_decide (pe_id e = "source.file.custom") then file "custom"%string FRaw
  else if bool_decide (pe_id e = "source.firewall") then
    (add_source (named "firewall"%string) (default (as_bytes "/var/log/ufw.log") (entry_path e)) FUfw files, units)
  else if bool_decide (pe_id e = "source.journald") then
    (files, foldl (fun us u => add_unit u us) units (omap as_str (default [] (get "units" (pe_config e) ≫= as_array))))
  else (files, units).
Definition add_log_source (c : AgentLogSourceConfig) (files : list FileSource) : list FileSource :=
  add_source (als_name c) (als_path c) (default FRaw (format_of_text (als_format c))) files.

Definition engine_from_config (plugins : list PluginEntry) (cfg : AgentConfig) : Inner :=
  let '(files, units) := foldl (fun fu e => add_entry e fu) ([], []) plugins in
  {| in_files := foldl (fun fs c => add_log_source c fs) files (ac_log_sources cfg);
     in_journal_units := foldl (fun us u => add_unit u us) units (ac_journal_units cfg);
     in_max_scan_bytes := Z.max 1 (ac_max_scan_bytes cfg); in_max_results := Z.max 1 (ac_max_results cfg);
     in_journal_timeout_secs := Z.max 1 (ac_journal_timeout_secs cfg); in_include_rotated := ac_include_rotated cfg;
     in_max_concurrent_scans := Z.max 1 (ac_max_concurrent_scans cfg); in_max_streams := Z.max 1 (ac_max_streams cfg) |}.

Definition inner_file (inner : Inner) (name : bytes) : result FileSource AgentError :=
  match List.find (fun f => bool_decide (src_name f = name)) (in_files inner) with
  | Some f => Ok f
  | None =>
      match strip_prefix (as_bytes "journal:") name with
      | Some unit =>
          if bool_decide (unit ∈ in_journal_units inner)
          then Err (BadRequest ("source `" +:+ of_bytes name +:+ "` is a journal; use /api/agent/journal?unit=" +:+ of_bytes unit))
          else Err (NotFound ("unknown log source `" +:+ of_bytes name +:+ "`"))
      | None => Err (NotFound ("unknown log source `" +:+ of_bytes name +:+ "`"))
      end
  end.

(** A slot of the scans, [running] of which are taken. *)
Definition scan_permit (running : Z) (inner : Inner) : result Z AgentError :=
  if running <? in_max_concurrent_scans inner then Ok (running + 1)
  else Err (Busy (fmt_uint (in_max_concurrent_scans inner) +:+ " log scan(s) already running (agent.max_concurrent_scans); retry in "
                  +:+ fmt_uint BUSY_RETRY_AFTER_SECS +:+ "s")).

(** The read-only token; [None]: the file cannot be read. *)
Definition load_read_token (file : option bytes) : option bytes :=
  raw ← file; if bool_decide (trim raw = []) then None else Some (trim raw).

(** ** Parameters of requests *)
Definition bad {A} (m : string) : result A AgentError := Err (BadRequest m).
Definition bool_text (b : bool) : bytes := as_bytes (if b then "true" else "false").
Definition opt_str (v : Value) (key : string) : result (option bytes) AgentError :=
  match get key v with
  | None | Some VNull => Ok None
  | Some (VString s) => Ok (Some s)
  | Some (VNumber n) => Ok (Some n)
  | Some (VBool b) => Ok (Some (bool_text b))
  | Some _ => bad ("`" +:+ key +:+ "` must be a string")
  end.
Definition opt_usize (v : Value) (key : string) : result (option Z) AgentError :=
  let wrong := bad ("`" +:+ key +:+ "` must be a non-negative integer") in
  match get key v with
  | None | Some VNull => Ok None
  | Some (VNumber n) => match as_u64 (VNumber n) with Some k => Ok (Some k) | None => wrong end
  | Some (VString s) =>
      if bool_decide (s = []) then Ok None else match parse_uint u64_max (trim s) with Some k => Ok (Some k) | None => wrong end
  | Some _ => wrong
  end.
Definition opt_bool (v : Value) (key : string) : result (option bool) AgentError :=
  let wrong := bad ("`" +:+ key +:+ "` must be a boolean") in
  match get key v with
  | None | Some VNull => Ok None
  | Some (VBool b) => Ok (Some b)
  | Some (VString s) =>
      let t := of_bytes (to_ascii_lowercase (trim s)) in
      if bool_decide (t ∈ ["true"; "1"; "yes"]%string) then Ok (Some true)
      else if bool_decide (t ∈ ["false"; "0"; "no"]%string) then Ok (Some false)
      else if bool_decide (t = ""%string) then Ok None else wrong
  | Some _ => wrong
  end.

(** Regular expressions within the size limit, kept as their text. *)
Class AgentRegex : Type := { rx_build : bytes -> result unit string; rx_is_match : bytes -> bytes -> bool }.

Inductive Matcher : Type := MExact (e : bytes) | MRe (r : bytes) | MStatusClass (c : Z).
Record Filter : Type := { fl_grep : option bytes; fl_ip : option IpNet; fl_fields : list (string * Matcher) }.

Section requests.
Context `{AgentDates} `{IpNetOps} `{AddrText} `{AgentRegex}.

Definition matcher_matches (m : Matcher) (v : bytes) : bool :=
  match m with
  | MExact e => eq_ignore_ascii_case v e
  | MRe r => rx_is_match r v
  | MStatusClass c => (length v =? 3)%nat && bool_decide (head v = Some c)
  end.
Definition build_regex (p : bytes) : result bytes AgentError :=
  match rx_build p with Ok _ => Ok p | Err e => bad ("invalid regex `" +:+ of_bytes p +:+ "`: " +:+ e) end.
Definition time_spec (s : bytes) (now : DateTime) : result DateTime AgentError :=
  match parse_time_spec s now with Ok t => Ok t | Err e => bad e end.

Definition window (params : Value) (default_since : string) (now : DateTime) : result (DateTime * DateTime) AgentError :=
  let? s := opt_str params "since" in
  let? since := time_spec (default (as_bytes default_since) s) now in
  let? u := opt_str params "until" in
  let? until := match u with Some u => if bool_decide (u = []) then Ok now else time_spec u now | None => Ok now end in
  if until <? since then bad "`since` is after `until`" else Ok (since, until).

Definition field_matcher (key : string) (s : bytes) : result Matcher AgentError :=
  let first := default 0 (head s) in
  if bool_decide (key = "status"%string) && (length s =? 3)%nat && is_ascii_digit first && eq_ignore_ascii_case (drop 1 s) (as_bytes "xx")
  then Ok (MStatusClass first)
  else if starts_with [94] s || bool_decide (124 ∈ s) || ends_with [36] s then let? r := build_regex s in Ok (MRe r)
  else Ok (MExact s).

Fixpoint filter_fields (format : Format) (m : list (bytes * Value)) : result (list (string * Matcher)) AgentError :=
  match m with
  | [] => Ok []
  | (k, v) :: m' =>
      let k := of_bytes k in
      let key := if bool_decide (k = "status_code") then "status"%string else k in
      if negb (bool_decide (key = "event_type")) && negb (bool_decide (key ∈ field_keys format)) then
        bad ("field `" +:+ k +:+ "` is not available for format `" +:+ format_name format +:+ "` (known: event_type, "
             +:+ String.concat ", " (field_keys format) +:+ ")")
      else
        match v with
        | VNull => filter_fields format m'
        | VString s | VNumber s => let? x := field_matcher key s in let? rest := filter_fields format m' in Ok ((key, x) :: rest)
        | VBool b => let? x := field_matcher key (bool_text b) in let? rest := filter_fields format m' in Ok ((key, x) :: rest)
        | _ => bad ("field `" +:+ k +:+ "`: expected string")
        end
  end.

Definition filter_from_value (v : Value) (format : Format) : result Filter AgentError :=
  let? g := opt_str v "grep" in
  let? grep := match g with Some g => if bool_decide (g = []) then Ok None else let? r := build_regex g in Ok (Some r) | None => Ok None end in
  let? i := opt_str v "ip" in
  let? ip := match i with
    | Some i => if bool_decide (i = []) then Ok None else match parse_ip_or_cidr i with Ok n => Ok (Some n) | Err e => bad e end
    | None => Ok None
    end in
  let? fields := match get "fields" v with
    | None | Some VNull => Ok []
    | Some (VObject m) => filter_fields format m
    | Some _ => bad "`fields` must be an object"
    end in
  Ok {| fl_grep := grep; fl_ip := ip; fl_fields := fields |}.

Definition needs_parse (f : Filter) : bool := match fl_ip f, fl_fields f with None, [] => false | _, _ => true end.
Definition grep_ok (f : Filter) (raw : bytes) : bool := match fl_grep f with Some r => rx_is_match r raw | None => true end.
Definition parsed_ok (f : Filter) (raw : bytes) (p : Parsed) : bool :=
  match fl_ip f with Some net => parsed_ip_matches p net raw | None => true end &&
  forallb (fun km => match parsed_get p km.1 with Some v => matcher_matches km.2 v | None => false end) (fl_fields f).

Definition required_source (inner : Inner) (params : Value) : result FileSource AgentError :=
  let? name := opt_str params "source" in
  match name with Some name => inner_file inner name | None => bad "`source` is required" end.

Record QueryRequest : Type := { q_src : FileSource; q_since : DateTime; q_until : DateTime; q_filter : Filter; q_limit : Z; q_parse : bool }.
Definition query_from_params (inner : Inner) (params : Value) (now : DateTime) : result QueryRequest AgentError :=
  let? src := required_source inner params in
  let? su := window params "1h" now in
  let? filter := filter_from_value params (src_format src) in
  let? l := opt_usize params "limit" in
  let? p := opt_bool params "parse" in
  Ok {| q_src := src; q_since := su.1; q_until := su.2; q_filter := filter; q_limit := Z.min (default DEFAULT_LIMIT l) (in_max_results inner);
        q_parse := default true p |}.
End requests.

(** ** The query *)
(** [drain(..len - n)] *)
Definition keep_last {A} (n : nat) (l : list A) : list A := drop (length l - n) l.
Definition JStr (s : string) : Value := VString (as_bytes s).
Definition JNum (n : Z) : Value := VNumber (as_bytes (fmt_uint n)).
Definition JOpt {A} (f : A -> Value) (o : option A) : Value := match o with Some a => f a | None => VNull end.
Definition obj (l : list (string * Value)) : Value := VObject ((fun kv => (as_bytes kv.1, kv.2)) <$> l).

Definition truncate_raw (s : bytes) : bytes :=
  if (length s <=? MAX_RAW_BYTES)%nat then s
  else take (List.fold_left (fun best n => if is_char_boundary n s then n else best) (seq 0 (S MAX_RAW_BYTES)) 0%nat) s ++ [226; 128; 166].

Section analyses.
Context `{AgentDates} `{IpNetOps} `{AddrText} `{AgentRegex} `{LogPatterns} `{SshPatterns} `{Gzip}.
Context (chunk max_carry : nat).

Definition fmt_ts (t : DateTime) : Value := VString (ad_show t).
Definition item_json (parsed : option Parsed) (raw : bytes) (ts : option DateTime) : Value :=
  obj (("ts"%string, JOpt fmt_ts ts) ::
    match parsed with
    | Some p => [("ip", JOpt (fun i => JStr (ip_to_string i)) (pd_ip p)); ("event_type", JOpt JStr (pd_event_type p));
                 ("fields", obj ((fun kv => (kv.1, VString kv.2)) <$> pd_fields p))]%string
    | None => []
    end ++ [("raw"%string, VString (truncate_raw raw))]).

Definition scan_window (inner : Inner) (since until now : DateTime) : ScanWindow :=
  {| w_since := since; w_until := until; w_budget := Z.to_nat (in_max_scan_bytes inner); w_include_rotated := in_include_rotated inner; w_now := now |}.

Record QueryAcc : Type := { qa_matched : nat; qa_items : list Value; qa_forward : option (list (bytes * option DateTime)) }.
Definition query_new : QueryAcc := {| qa_matched := 0; qa_items := []; qa_forward := None |}.

(** A line passes the filter. *)
Definition line_ok (f : Filter) (format : Format) (line : bytes) : bool :=
  grep_ok f line && (if needs_parse f then parsed_ok f line (parse_line format line) else true).
Definition query_item (req : QueryRequest) (lt : bytes * option DateTime) : Value :=
  item_json (if q_parse req then Some (parse_line (src_format (q_src req)) lt.1) else None) lt.1 lt.2.

Definition query_visit (req : QueryRequest) (a : QueryAcc) (v : Visit) : QueryAcc :=
  let limit := Z.to_nat (q_limit req) in
  match v with
  | ForwardStart => {| qa_matched := qa_matched a; qa_items := qa_items a; qa_forward := Some [] |}
  | ForwardEnd =>
      {| qa_matched := qa_matched a;
         qa_items := match qa_forward a with Some seg => qa_items a ++ (query_item req <$> rev seg) | None => qa_items a end; qa_forward := None |}
  | VLine line ts =>
      if negb (line_ok (q_filter req) (src_format (q_src req)) line) then a else
      match qa_forward a with
      | Some seg =>
          let free := (limit - length (qa_items a))%nat in
          let seg := if (0 <? free)%nat then let seg := seg ++ [(line, ts)] in if (free <? length seg)%nat then tail seg else seg else seg in
          {| qa_matched := S (qa_matched a); qa_items := qa_items a; qa_forward := Some seg |}
      | None =>
          {| qa_matched := S (qa_matched a);
             qa_items := if (length (qa_items a) <? limit)%nat then qa_items a ++ [query_item req (line, ts)] else qa_items a; qa_forward := None |}
      end
  end.

Record QueryResponse : Type := { qr_matched : nat; qr_items : list Value; qr_outcome : ScanOutcome }.
Definition run_query (inner : Inner) (fs : Files) (req : QueryRequest) (now : DateTime) : result QueryResponse AgentError :=
  let? s := scan_source chunk max_carry (scan_window inner (q_since req) (q_until req) now) fs (src_path (q_src req)) in
  let a := foldl (query_visit req) query_new (sc_visits s) in
  Ok {| qr_matched := qa_matched a; qr_items := rev (qa_items a); qr_outcome := sc_out s |}.

Definition window_json (w : ScanWindow) (o : ScanOutcome) : Value :=
  obj [("since", fmt_ts (w_since w)); ("until", fmt_ts (w_until w)); ("first_line_ts", JOpt fmt_ts (so_oldest o)); ("last_line_ts", JOpt fmt_ts (so_newest o));
       ("files", VArray (VString <$> so_files o))]%string.
Definition query_truncated (r : QueryResponse) : bool := so_budget_hit (qr_outcome r) || (length (qr_items r) <? qr_matched r)%nat.
Definition query_json (inner : Inner) (req : QueryRequest) (now : DateTime) (r : QueryResponse) : Value :=
  let o := qr_outcome r in
  obj [("source", VString (src_name (q_src req))); ("format", JStr (format_name (src_format (q_src req)))); ("scanned_lines", JNum (Z.of_nat (so_lines o)));
       ("scanned_bytes", JNum (Z.of_nat (so_bytes o))); ("matched", JNum (Z.of_nat (qr_matched r))); ("returned", JNum (Z.of_nat (length (qr_items r))));
       ("truncated", VBool (query_truncated r)); ("scan_capped", VBool (so_budget_hit o)); ("coverage_start", JOpt fmt_ts (so_oldest o));
       ("coverage_complete", VBool (so_reached_since o)); ("window", window_json (scan_window inner (q_since req) (q_until req) now) o);
       ("items", VArray (qr_items r))]%string.

Definition query (inner : Inner) (fs : Files) (running : Z) (params : Value) (now : DateTime) : result Value AgentError :=
  let? req := query_from_params inner params now in
  let? _ := scan_permit running inner in
  let? r := run_query inner fs req now in
  Ok (query_json inner req now r).

(** ** Statistics *)
Inductive GroupBy : Type := GIp | GIp24 | GIp48 | GField (f : string) | GEventType | GHour | GMinute | GDay.
#[export] Instance GroupBy_eq_dec : EqDecision GroupBy.
Proof. solve_decision. Defined.
Definition group_of_text (s : bytes) (format : Format) : result GroupBy AgentError :=
  let t := of_bytes s in
  let named k := bool_decide (t = k) in
  if named "ip"%string then Ok GIp else if named "ip24"%string then Ok GIp24 else if named "ip48"%string then Ok GIp48
  else if named "event_type"%string then Ok GEventType else if named "hour"%string then Ok GHour else if named "minute"%string then Ok GMinute
  else if named "day"%string then Ok GDay
  else
    let other := if named "status_code"%string then "status"%string else t in
    if bool_decide (other ∈ field_keys format) then Ok (GField other)
    else bad ("unknown group_by `" +:+ t +:+ "` for format `" +:+ format_name format +:+ "` (use ip, ip24, ip48, event_type, hour, minute, day"
              +:+ (match field_keys format with [] => "" | _ => ", " end) +:+ String.concat ", " (field_keys format) +:+ ")").
Definition is_ip_group (g : GroupBy) : bool := match g with GIp | GIp24 | GIp48 => true | _ => false end.
Definition is_time_group (g : GroupBy) : bool := match g with GHour | GMinute | GDay => true | _ => false end.
Definition group_name (g : GroupBy) : string :=
  match g with GIp => "ip" | GIp24 => "ip24" | GIp48 => "ip48" | GField f => f | GEventType => "event_type" | GHour => "hour" | GMinute => "minute" | GDay => "day" end.

Record StatsRequest : Type := {
  st_src : FileSource; st_since : DateTime; st_until : DateTime; st_filter : Filter; st_group_by : GroupBy; st_top : Z; st_bucket_secs : option Z;
}.
Definition stats_from_params (inner : Inner) (params : Value) (now : DateTime) : result StatsRequest AgentError :=
  let? src := required_source inner params in
  let? su := window params "1h" now in
  let? filter := match get "filter" params with
    | Some (VObject m) => filter_from_value (VObject m) (src_format src)
    | None | Some VNull => filter_from_value params (src_format src)
    | Some _ => bad "`filter` must be an object"
    end in
  let? g := opt_str params "group_by" in
  let? group_by := group_of_text (default (as_bytes "ip") g) (src_format src) in
  let? t := opt_usize params "top" in
  let? b := opt_str params "buckets" in
  let? bucket := match b with
    | Some b =>
        if bool_decide (b = []) then Ok None else
        match parse_duration_secs b with
        | Some s =>
            if s <? 60 then bad ("invalid buckets `" +:+ of_bytes b +:+ "` (e.g. 5m, 15m, 1h, 1d; minimum 1m)") else
            let span := Z.quot (Z.quot (su.2 - su.1) nanos_per_sec) s + 1 in
            if MAX_SERIES_BUCKETS <? span
            then bad ("buckets `" +:+ of_bytes b +:+ "` gives " +:+ fmt_uint span +:+ " buckets (max " +:+ fmt_uint MAX_SERIES_BUCKETS +:+ ")")
            else Ok (Some s)
        | None => bad ("invalid buckets `" +:+ of_bytes b +:+ "` (e.g. 5m, 15m, 1h, 1d; minimum 1m)")
        end
    | None => Ok None
    end in
  Ok {| st_src := src; st_since := su.1; st_until := su.2; st_filter := filter; st_group_by := group_by;
        st_top := Z.min (default (if is_time_group group_by then MAX_TOP else DEFAULT_TOP) t) MAX_TOP; st_bucket_secs := bucket |}.

(** Distinct values, counted as far as the limits allow. *)
Record Capped : Type := { cp_map : gmap bytes Z; cp_capped : bool }.
Definition capped_new : Capped := {| cp_map := ∅; cp_capped := false |}.
Definition capped_add (v : bytes) (budget : nat) (c : Capped) : Capped * nat :=
  match cp_map c !! v with
  | Some n => ({| cp_map := <[v := n + 1]> (cp_map c); cp_capped := cp_capped c |}, budget)
  | None =>
      if (size (cp_map c) <? DISTINCT_CAP)%nat && (0 <? budget)%nat then ({| cp_map := <[v := 1]> (cp_map c); cp_capped := cp_capped c |}, (budget - 1)%nat)
      else ({| cp_map := cp_map c; cp_capped := true |}, budget)
  end.
Definition capped_add_opt (v : option bytes) (budget : nat) (c : Capped) : Capped * nat :=
  match v with Some v => capped_add v budget c | None => (c, budget) end.

Fixpoint bytes_leb (a b : bytes) : bool :=
  match a, b with
  | [], _ => true
  | _ :: _, [] => false
  | x :: a', y :: b' => (x <? y) || ((x =? y) && bytes_leb a' b')
  end.
(** By falling count, then by key. *)
Definition more_frequent {A} (count : A -> Z) (a b : bytes * A) : Prop := count b.2 < count a.2 \/ (count a.2 = count b.2 /\ bytes_leb a.1 b.1 = true).
#[export] Instance more_frequent_dec {A} (count : A -> Z) (a b : bytes * A) : Decision (more_frequent count a b).
Proof. unfold more_frequent. apply _. Defined.
Definition earlier_key {A} (a b : bytes * A) : Prop := bytes_leb a.1 b.1 = true.
#[export] Instance earlier_key_dec {A} (a b : bytes * A) : Decision (earlier_key a b).
Proof. unfold earlier_key. apply _. Defined.
Definition capped_top (n : nat) (c : Capped) : list (bytes * Z) := take n (merge_sort (more_frequent id) (map_to_list (cp_map c))).

Record GroupAcc : Type := {
  ga_count : Z; ga_first : option DateTime; ga_last : option DateTime; ga_s4xx : Z; ga_s5xx : Z; ga_profile : list Capped; ga_ips : Capped;
}.
Definition group_new (n : nat) : GroupAcc :=
  {| ga_count := 0; ga_first := None; ga_last := None; ga_s4xx := 0; ga_s5xx := 0; ga_profile := replicate n capped_new; ga_ips := capped_new |}.
Definition touch_min (o ts : option DateTime) : option DateTime := match ts with Some t => min_opt o t | None => o end.
Definition touch_max (o ts : option DateTime) : option DateTime := match ts with Some t => max_opt o t | None => o end.

Definition unix_secs (t : DateTime) : Z := t / nanos_per_sec.
Definition time_key (ts : DateTime) (g : GroupBy) : bytes :=
  let s := match g with GMinute => 60 | GHour => 3600 | _ => 86400 end in
  let start := unix_secs ts / s * s in
  if representable (start * nanos_per_sec) then ad_show (start * nanos_per_sec) else [].

Record StatsAcc : Type := {
  sa_matched : Z; sa_no_key : Z; sa_other : Z; sa_groups : gmap bytes GroupAcc; sa_series : gmap Z Z; sa_budget : nat;
}.
Definition stats_new : StatsAcc :=
  {| sa_matched := 0; sa_no_key := 0; sa_other := 0; sa_groups := ∅; sa_series := ∅; sa_budget := GLOBAL_DISTINCT_BUDGET |}.

Definition group_key (g : GroupBy) (p : Parsed) (ts : option DateTime) : option bytes :=
  match g with
  | GIp => (fun i => as_bytes (ip_to_string i)) <$> pd_ip p
  | GIp24 => (fun i => as_bytes (ip_prefix_key i 24 64)) <$> pd_ip p
  | GIp48 => (fun i => as_bytes (ip_prefix_key i 16 48)) <$> pd_ip p
  | GEventType => as_bytes <$> pd_event_type p
  | GField f => parsed_get p f
  | _ => (fun t => time_key t g) <$> ts
  end.

(** The profile of a group, field by field. *)
Fixpoint add_profile (fields : list string) (p : Parsed) (cs : list Capped) (budget : nat) : list Capped * nat :=
  match fields, cs with
  | f :: fields', c :: cs' =>
      let '(c, budget) := capped_add_opt (parsed_get p f) budget c in
      let '(cs', budget) := add_profile fields' p cs' budget in (c :: cs', budget)
  | _, _ => (cs, budget)
  end.

Definition group_add (format : Format) (g : GroupBy) (p : Parsed) (ts : option DateTime) (budget : nat) (a : GroupAcc) : GroupAcc * nat :=
  let status := parsed_get p "status" ≫= head in
  let is_nginx := is_ip_group g && bool_decide (format = FNginx) in
  let '(profile, budget) := if is_ip_group g then add_profile (profile_fields format) p (ga_profile a) budget else (ga_profile a, budget) in
  let '(ips, budget) := if bool_decide (g = GField "path") then capped_add_opt ((fun i => as_bytes (ip_to_string i)) <$> pd_ip p) budget (ga_ips a)
                        else (ga_ips a, budget) in
  ({| ga_count := ga_count a + 1; ga_first := touch_min (ga_first a) ts; ga_last := touch_max (ga_last a) ts;
      ga_s4xx := if is_nginx && bool_decide (status = Some 52) then ga_s4xx a + 1 else ga_s4xx a;
      ga_s5xx := if is_nginx && bool_decide (status = Some 53) then ga_s5xx a + 1 else ga_s5xx a;
      ga_profile := profile; ga_ips := ips |}, budget).

Definition stats_visit (req : StatsRequest) (a : StatsAcc) (v : Visit) : StatsAcc :=
  let format := src_format (st_src req) in
  let g := st_group_by req in
  match v with
  | VLine line ts =>
      if negb (line_ok (st_filter req) format line) then a else
      let p := parse_line format line in
      let series := match st_bucket_secs req, ts with
        | Some b, Some t => let k := unix_secs t / b * b in <[k := default 0 (sa_series a !! k) + 1]> (sa_series a)
        | _, _ => sa_series a
        end in
      match group_key g p ts with
      | None => {| sa_matched := sa_matched a + 1; sa_no_key := sa_no_key a + 1; sa_other := sa_other a; sa_groups := sa_groups a; sa_series := series;
                   sa_budget := sa_budget a |}
      | Some key =>
          match sa_groups a !! key, (MAX_GROUPS <=? size (sa_groups a))%nat with
          | None, true => {| sa_matched := sa_matched a + 1; sa_no_key := sa_no_key a; sa_other := sa_other a + 1; sa_groups := sa_groups a;
                             sa_series := series; sa_budget := sa_budget a |}
          | found, _ =>
              let old := default (group_new (if is_ip_group g then length (profile_fields format) else 0)) found in
              let '(acc, budget) := group_add format g p ts (sa_budget a) old in
              {| sa_matched := sa_matched a + 1; sa_no_key := sa_no_key a; sa_other := sa_other a; sa_groups := <[key := acc]> (sa_groups a);
                 sa_series := series; sa_budget := budget |}
          end
      end
  | _ => a
  end.

Definition sorted_groups (req : StatsRequest) (m : gmap bytes GroupAcc) : list (bytes * GroupAcc) :=
  let top := Z.to_nat (st_top req) in
  if is_time_group (st_group_by req) then keep_last top (merge_sort earlier_key (map_to_list m))
  else take top (merge_sort (more_frequent ga_count) (map_to_list m)).

(** Rounds half away from zero. *)
Definition f64_round (x : spec_float) : spec_float :=
  match x with
  | S754_finite s m e =>
      if 0 <=? e then x
      else let k := 2 ^ (- e) in let n := (Zpos m + k / 2) / k in binary_normalize 53 1024 (if s then - n else n) 0 s
  | _ => x
  end.
Definition pct (count total : Z) : spec_float :=
  if total =? 0 then f64_zero
  else f64_div (f64_round (f64_div (f64_mul (f64_of_u64 count) (f64_of_u64 1000)) (f64_of_u64 total))) (f64_of_u64 10).

(** One bucket of the series: [Some true] covered, [Some false] in part. *)
Definition bucket_coverage (start len : Z) (o : ScanOutcome) : option bool :=
  if so_reached_since o then Some true else
  oldest ← unix_secs <$> so_oldest o;
  if oldest <=? start then Some true else if oldest <? start + len then Some false else None.

(** The buckets; fuel is their number. *)
Fixpoint series_from (fuel : nat) (b t end_ : Z) (series : gmap Z Z) (o : ScanOutcome) : list (Z * option Z * option bool) :=
  match fuel with
  | O => []
  | S fuel' =>
      if end_ <? t then [] else
      let count := default 0 (series !! t) in
      let cov := bucket_coverage t b o in
      (if representable (t * nanos_per_sec) then [(t, match cov with Some _ => Some count | None => None end, cov)] else [])
        ++ series_from fuel' b (t + b) end_ series o
  end.
Definition series_of (req : StatsRequest) (b : Z) (series : gmap Z Z) (o : ScanOutcome) : list (Z * option Z * option bool) :=
  let start := unix_secs (st_since req) / b * b in
  let end_ := unix_secs (st_until req) / b * b in
  series_from (Z.to_nat ((end_ - start) / b + 1)) b start end_ series o.

Record StatsResponse : Type := {
  sr_matched : Z; sr_distinct : nat; sr_no_key : Z; sr_other : Z; sr_groups : list (bytes * GroupAcc); sr_series : option (list (Z * option Z * option bool));
  sr_outcome : ScanOutcome;
}.
Definition run_stats (inner : Inner) (fs : Files) (req : StatsRequest) (now : DateTime) : result StatsResponse AgentError :=
  let? s := scan_source chunk max_carry (scan_window inner (st_since req) (st_until req) now) fs (src_path (st_src req)) in
  let a := foldl (stats_visit req) stats_new (sc_visits s) in
  Ok {| sr_matched := sa_matched a; sr_distinct := size (sa_groups a); sr_no_key := sa_no_key a; sr_other := sa_other a;
        sr_groups := sorted_groups req (sa_groups a); sr_series := (fun b => series_of req b (sa_series a) (sc_out s)) <$> st_bucket_secs req;
        sr_outcome := sc_out s |}.
Definition stats (inner : Inner) (fs : Files) (running : Z) (params : Value) (now : DateTime) : result StatsResponse AgentError :=
  let? req := stats_from_params inner params now in
  let? _ := scan_permit running inner in
  run_stats inner fs req now.

(** ** What the logs say of an address *)
Record ProfileAcc : Type := {
  pa_count : Z; pa_first : option DateTime; pa_last : option DateTime; pa_status : gmap bytes Z; pa_event_types : gmap string Z;
  pa_paths : Capped; pa_uas : Capped; pa_ports : Capped; pa_users : Capped; pa_budget : nat;
}.
Definition profile_new : ProfileAcc :=
  {| pa_count := 0; pa_first := None; pa_last := None; pa_status := ∅; pa_event_types := ∅; pa_paths := capped_new; pa_uas := capped_new;
     pa_ports := capped_new; pa_users := capped_new; pa_budget := GLOBAL_DISTINCT_BUDGET |}.
Definition bump {K} `{Countable K} (k : option K) (m : gmap K Z) : gmap K Z := match k with Some k => <[k := default 0 (m !! k) + 1]> m | None => m end.

Definition profile_visit (format : Format) (ip : IpAddr) (a : ProfileAcc) (v : Visit) : ProfileAcc :=
  match v with
  | VLine line ts =>
      let v4 := match ip with IpV4 _ => true | IpV6 _ => false end in
      if v4 && negb (contains (as_bytes (ip_to_string ip)) line) then a else
      let p := parse_line format line in
      if negb (parsed_ip_matches p (ip_to_net ip) line) then a else
      let '(paths, b) := capped_add_opt (parsed_get p "path") (pa_budget a) (pa_paths a) in
      let '(uas, b) := capped_add_opt (parsed_get p "user_agent") b (pa_uas a) in
      let '(ports, b) := capped_add_opt (parsed_get p "port") b (pa_ports a) in
      let '(users, b) := capped_add_opt (parsed_get p "user") b (pa_users a) in
      {| pa_count := pa_count a + 1; pa_first := touch_min (pa_first a) ts; pa_last := touch_max (pa_last a) ts;
         pa_status := bump (parsed_get p "status") (pa_status a); pa_event_types := bump (pd_event_type p) (pa_event_types a);
         pa_paths := paths; pa_uas := uas; pa_ports := ports; pa_users := users; pa_budget := b |}
  | _ => a
  end.
Definition profile_one (w : ScanWindow) (fs : Files) (src : FileSource) (ip : IpAddr) : result (ProfileAcc * bool) AgentError :=
  let? s := scan_source chunk max_carry w fs (src_path src) in
  Ok (foldl (profile_visit (src_format src) ip) profile_new (sc_visits s), so_budget_hit (sc_out s)).
Definition run_ip_profile (inner : Inner) (fs : Files) (ip : IpAddr) (since now : DateTime) : list (bytes * result (ProfileAcc * bool) AgentError) :=
  (fun src => (src_name src, profile_one (scan_window inner since now now) fs src ip)) <$> in_files inner.
Definition ip_profile_logs (inner : Inner) (fs : Files) (running : Z) (ip : IpAddr) (since : option bytes) (now : DateTime)
    : result (list (bytes * result (ProfileAcc * bool) AgentError)) AgentError :=
  let? t := time_spec (default (as_bytes "24h") since) now in
  let? _ := scan_permit running inner in
  Ok (run_ip_profile inner fs ip t now).
End analyses.

(** ** The journal *)
Class JsonText : Type := { json_of_text : bytes -> option Value; json_to_text : Value -> bytes }.
Record JournalRequest : Type := {
  jr_unit : bytes; jr_since : DateTime; jr_until : option DateTime; jr_priority : option Z; jr_grep : option bytes; jr_limit : Z;
}.
Definition priority_names : list (string * Z) :=
  [("emerg", 0); ("alert", 1); ("crit", 2); ("err", 3); ("error", 3); ("warning", 4); ("warn", 4); ("notice", 5); ("info", 6); ("debug", 7)]%string.
Definition parse_priority (s : bytes) : option Z :=
  let s := to_ascii_lowercase (trim s) in
  match parse_uint 255 s with
  | Some n => if n <=? 7 then Some n else None
  | None => snd <$> List.find (fun kv => bool_decide (as_bytes kv.1 = s)) priority_names
  end.

Section journal.
Context `{AgentDates} `{AgentRegex} `{JsonText}.

Definition journal_from_params (inner : Inner) (params : Value) (now : DateTime) : result JournalRequest AgentError :=
  let? u := opt_str params "unit" in
  let unit := match u with Some u => if bool_decide (u = []) then as_bytes "hiveguard" else u | None => as_bytes "hiveguard" end in
  let unit := default unit (strip_prefix (as_bytes "journal:") unit) in
  if negb (bool_decide (unit ∈ in_journal_units inner)) then
    Err (NotFound ("journal unit `" +:+ of_bytes unit +:+ "` is not allowed (allowed: " +:+ String.concat ", " (of_bytes <$> in_journal_units inner) +:+ ")"))
  else
    let? s := opt_str params "since" in
    let? since := time_spec (default (as_bytes "1h") s) now in
    let? u := opt_str params "until" in
    let? until := match u with Some u => if bool_decide (u = []) then Ok None else let? t := time_spec u now in Ok (Some t) | None => Ok None end in
    if match until with Some t => t <? since | None => false end then bad "`since` is after `until`" else
    let? p := opt_str params "priority" in
    let? priority := match p with
      | Some p => if bool_decide (p = []) then Ok None
                  else match parse_priority p with Some n => Ok (Some n) | None => bad ("invalid priority `" +:+ of_bytes p +:+ "`") end
      | None => Ok None
      end in
    let? g := opt_str params "grep" in
    let? grep := match g with Some g => if bool_decide (g = []) then Ok None else let? r := build_regex g in Ok (Some r) | None => Ok None end in
    let? l := opt_usize params "limit" in
    Ok {| jr_unit := unit; jr_since := since; jr_until := until; jr_priority := priority; jr_grep := grep;
          jr_limit := Z.min (default DEFAULT_LIMIT l) (in_max_results inner) |}.

Definition fetch_cap (req : JournalRequest) : Z := match jr_grep req with Some _ => JOURNAL_FETCH_CAP | None => Z.min (jr_limit req + 1) JOURNAL_FETCH_CAP end.
Definition journal_args (req : JournalRequest) : list bytes :=
  (as_bytes <$> ["--no-pager"; "-o"; "json"; "-u"]%string) ++ [jr_unit req; as_bytes "--since"; ad_journal (jr_since req)] ++
  match jr_until req with Some u => [as_bytes "--until"; ad_journal u] | None => [] end ++
  match jr_priority req with Some p => [as_bytes "-p"; as_bytes (fmt_uint p)] | None => [] end ++ [as_bytes "-n"; as_bytes (fmt_uint (fetch_cap req))].

Definition journal_value_text (v : Value) : option bytes :=
  match v with
  | VString s => Some s
  | VArray l => Some (from_utf8_lossy (omap (fun x => (fun n => n mod 256) <$> as_u64 x) l))
  | VNull => None
  | other => Some (json_to_text other)
  end.
Record JournalItem : Type := { ji_ts : option DateTime; ji_priority : option Z; ji_message : bytes; ji_pid : option bytes }.
Definition map_journal_line (line : bytes) : option JournalItem :=
  let line := trim line in
  if negb (starts_with [123] line) then None else
  v ← json_of_text line;
  let text k := get k v ≫= journal_value_text in
  Some {| ji_ts := (text "__REALTIME_TIMESTAMP"%string ≫= parse_i64) ≫= fun us => if representable (us * 1000) then Some (us * 1000) else None;
          ji_priority := text "PRIORITY"%string ≫= parse_uint 255; ji_message := default [] (text "MESSAGE"%string); ji_pid := text "_PID"%string |}.

Record JournalResponse : Type := { jo_matched : nat; jo_truncated : bool; jo_items : list JournalItem }.
Definition build_journal_response (req : JournalRequest) (stdout : bytes) : JournalResponse :=
  let fetched := omap map_journal_line (lines (from_utf8_lossy stdout)) in
  let items := List.filter (fun i => match jr_grep req with Some re => rx_is_match re (ji_message i) | None => true end) fetched in
  let kept := keep_last (Z.to_nat (jr_limit req)) items in
  {| jo_matched := length items; jo_truncated := (length kept <? length items)%nat || (fetch_cap req <=? Z.of_nat (length fetched)); jo_items := kept |}.
End journal.

(** * What is answered *)
(** ** The newest lines *)
Lemma rev_keep_last {A} (n : nat) (l : list A) : rev (keep_last n l) = take n (rev l).
Proof. unfold keep_last. by rewrite firstn_rev. Qed.
Lemma keep_last_snoc {A} (n : nat) (l : list A) (x : A) : (0 < n)%nat ->
  (let seg := keep_last n l ++ [x] in if (n <? length seg)%nat then tail seg else seg) = keep_last n (l ++ [x]).
Proof.
  intros Hn. unfold keep_last. cbv zeta. rewrite !length_app, length_drop. simpl. destruct (Nat.ltb_spec n (length l - (length l - n) + 1)) as [Hlt|Hge].
  - replace (length l + 1 - n)%nat with (S (length l - n)) by lia. rewrite <- drop_app_le by lia. set (k := (length l - n)%nat).
    change (tail (drop k (l ++ [x]))) with (drop 1 (drop k (l ++ [x]))). rewrite drop_drop. f_equal. lia.
  - replace (length l - n)%nat with 0%nat by lia. replace (length l + 1 - n)%nat with 0%nat by lia. done.
Qed.

(** The visits in falling order of age: a segment that came oldest first is
    turned round. *)
Fixpoint newest_first (seg : option (list (bytes * option DateTime))) (vs : list Visit) : list (bytes * option DateTime) :=
  match vs with
  | [] => []
  | VLine l t :: vs => match seg with Some sg => newest_first (Some (sg ++ [(l, t)])) vs | None => (l, t) :: newest_first None vs end
  | ForwardStart :: vs => newest_first (Some []) vs
  | ForwardEnd :: vs => match seg with Some sg => rev sg | None => [] end ++ newest_first None vs
  end.

Section answers.
Context `{AgentDates} `{IpNetOps} `{AddrText} `{AgentRegex} `{LogPatterns} `{SshPatterns}.

Definition accepts (req : QueryRequest) (lt : bytes * option DateTime) : bool := line_ok (q_filter req) (src_format (q_src req)) lt.1.

Lemma filter_rev {A} (f : A -> bool) (l : list A) : List.filter f (rev l) = rev (List.filter f l).
Proof. induction l as [|x l IH]; simpl; [done|]. rewrite List.filter_app, IH. simpl. destruct (f x); simpl; [done|by rewrite app_nil_r]. Qed.

Lemma query_items (req : QueryRequest) (vs : list Visit) (a : QueryAcc) (seg : option (list (bytes * option DateTime))) :
  let limit := Z.to_nat (q_limit req) in
  qa_forward a = (fun sg => keep_last (limit - length (qa_items a)) (List.filter (accepts req) sg)) <$> seg ->
  qa_items (foldl (query_visit req) a vs) =
    qa_items a ++ (query_item req <$> take (limit - length (qa_items a)) (List.filter (accepts req) (newest_first seg vs))).
Proof.
  intros limit. revert a seg. induction vs as [|v vs IH]; intros a seg Hf; cbn [foldl newest_first]; [cbn [List.filter]; by rewrite take_nil, app_nil_r|].
  destruct v as [l t| |].
  - unfold query_visit at 2. fold limit. destruct (line_ok _ _ l) eqn:Eok; cbn [negb].
    + assert (Ea : accepts req (l, t) = true) by done. destruct seg as [sg|]; rewrite Hf; cbn [fmap option_fmap option_map].
      * rewrite (IH _ (Some (sg ++ [(l, t)]))); [done|]. cbn [qa_forward qa_items fmap option_fmap option_map]. f_equal.
        rewrite List.filter_app. cbn [List.filter]. rewrite Ea. set (free := (limit - length (qa_items a))%nat).
        destruct (Nat.ltb_spec 0 free) as [Hfree|Hz]; [by apply keep_last_snoc|]. replace free with 0%nat by lia.
        unfold keep_last. by rewrite !Nat.sub_0_r, !drop_all.
      * cbn [List.filter]. rewrite Ea. destruct (Nat.ltb_spec (length (qa_items a)) limit) as [Hlt|Hge].
        -- rewrite (IH _ None) by done. cbn [qa_items]. rewrite length_app. cbn [length]. rewrite <- (assoc_L (++)). f_equal.
           replace (limit - length (qa_items a))%nat with (S (limit - (length (qa_items a) + 1))) by lia. done.
        -- rewrite (IH _ None) by done. cbn [qa_items]. by replace (limit - length (qa_items a))%nat with 0%nat by lia.
    + assert (Ea : accepts req (l, t) = false) by done. destruct seg as [sg|].
      * rewrite (IH a (Some (sg ++ [(l, t)]))); [done|]. rewrite Hf. cbn [fmap option_fmap option_map]. rewrite List.filter_app. cbn [List.filter].
        by rewrite Ea, app_nil_r.
      * cbn [List.filter]. rewrite Ea. by rewrite (IH a None).
  - cbn [query_visit]. rewrite (IH _ (Some [])); [done|]. by destruct (limit - _)%nat.
  - cbn [query_visit]. rewrite Hf. set (free := (limit - length (qa_items a))%nat). rewrite List.filter_app, take_app, fmap_app.
    rewrite (IH _ None) by done. cbn [qa_items]. destruct seg as [sg|]; cbn [fmap option_fmap option_map].
    + rewrite rev_keep_last, <- filter_rev. rewrite length_app, length_fmap, length_take, <- (assoc_L (++)). do 3 f_equal. unfold free. f_equal. lia.
    + cbn [List.filter]. rewrite take_nil. cbn [fmap list_fmap app length]. by rewrite Nat.sub_0_r.
Qed.

Definition visit_ok (req : QueryRequest) (v : Visit) : bool := match v with VLine l t => accepts req (l, t) | _ => false end.
Lemma query_matched (req : QueryRequest) (vs : list Visit) (a : QueryAcc) :
  qa_matched (foldl (query_visit req) a vs) = (qa_matched a + length (List.filter (visit_ok req) vs))%nat.
Proof.
  revert a. induction vs as [|v vs IH]; intros a; cbn [foldl List.filter length]; [lia|]. rewrite IH. destruct v as [l t| |]; [|done..].
  unfold query_visit, visit_ok at 2, accepts. cbn [fst]. destruct (line_ok _ _ l); cbn [negb length]; [|done]. destruct (qa_forward a); cbn [qa_matched]; lia.
Qed.

(** The dated lines of a file that lie in the window. *)
Definition window_line (w : ScanWindow) (l : bytes) : option (bytes * option DateTime) :=
  t ← stamp w l; if (w_since w <=? t) && (t <=? w_until w) then Some (text_of l, Some t) else None.
Definition window_lines (w : ScanWindow) (content : bytes) : list (bytes * option DateTime) := omap (window_line w) (split_on 10 content).

Lemma in_window_line (w : ScanWindow) (l : bytes) : in_window w l = (fun lt => VLine lt.1 lt.2) <$> window_line w l.
Proof. unfold in_window, window_line. destruct (stamp w l) as [t|]; cbn [mbind option_bind]; [|done]. by destruct (_ && _). Qed.
Lemma omap_one {A B} (f : A -> option B) (x : A) (l : list A) : omap f (x :: l) = option_list (f x) ++ omap f l.
Proof. simpl. by destruct (f x). Qed.
Lemma omap_in_window (w : ScanWindow) (ls : list bytes) : omap (in_window w) ls = (fun lt => VLine lt.1 lt.2) <$> omap (window_line w) ls.
Proof.
  induction ls as [|l ls IH]; [done|]. rewrite !omap_one. rewrite in_window_line, IH, fmap_app. f_equal. by destruct (window_line w l).
Qed.
Lemma omap_rev {A B} (f : A -> option B) (l : list A) : omap f (rev l) = rev (omap f l).
Proof.
  induction l as [|x l IH]; [done|]. rewrite omap_one. cbn [rev]. rewrite omap_app, IH, rev_app_distr. f_equal. simpl. by destruct (f x).
Qed.
Lemma newest_first_lines (lts : list (bytes * option DateTime)) : newest_first None ((fun lt => VLine lt.1 lt.2) <$> lts) = lts.
Proof. induction lts as [|[l t] lts IH]; [done|]. cbn [fmap list_fmap newest_first fst snd]. f_equal. exact IH. Qed.
Lemma filter_visits (req : QueryRequest) (lts : list (bytes * option DateTime)) :
  length (List.filter (visit_ok req) ((fun lt => VLine lt.1 lt.2) <$> lts)) = length (List.filter (accepts req) lts).
Proof.
  induction lts as [|[l t] lts IH]; [done|]. cbn [fmap list_fmap List.filter visit_ok fst snd]. destruct (accepts req (l, t)); cbn [length]; [f_equal|]; exact IH.
Qed.

Context `{Gzip}.
(** A log that can be searched exactly: within the budget, no overlong line, and
    every line dated, in the order of time. *)
Definition searchable (max_carry : nat) (w : ScanWindow) (content : bytes) : Prop :=
  Forall (fun l => (length l <= max_carry)%nat) (split_on 10 content) /\ (length content <= w_budget w)%nat /\
  Forall (dated w) (split_on 10 content) /\ StronglySorted (not_after w) (split_on 10 content).

Lemma scan_live (chunk max_carry : nat) (w : ScanWindow) (fs : Files) (path : bytes) (f : LogFile) : (0 < chunk)%nat -> fs path = Some f ->
  (w_include_rotated w = true -> rotated_files fs path = []) -> searchable max_carry w (lf_bytes f) ->
  exists s, scan_source chunk max_carry w fs path = Ok s /\ so_budget_hit (sc_out s) = false /\
    sc_visits s = (fun lt => VLine lt.1 lt.2) <$> rev (window_lines w (lf_bytes f)).
Proof.
  intros Hch Hf Hrot (Hl & Hb & Hd & Hs). unfold scan_source. rewrite Hf. set (s0 := {| sc_out := _; sc_state := _; sc_visits := _ |}).
  destruct (scan_file_window chunk max_carry w (lf_bytes f) s0 Hch Hl Hb Hd Hs) as [Hv Hh]. set (s := scan_file chunk max_carry w (lf_bytes f) s0) in *.
  exists s. split_and!.
  - destruct (w_include_rotated w) eqn:E; cbn [negb]; [|done]. by rewrite (Hrot eq_refl).
  - by rewrite Hh.
  - rewrite Hv. cbn [s0 sc_visits app]. by rewrite omap_in_window, omap_rev.
Qed.


(** ** Counts *)
Definition counts (req : StatsRequest) (lt : bytes * option DateTime) : bool := line_ok (st_filter req) (src_format (st_src req)) lt.1.
Definition key_of (req : StatsRequest) (lt : bytes * option DateTime) : option bytes := group_key (st_group_by req) (parse_line (src_format (st_src req)) lt.1) lt.2.
Definition number {A} (P : A -> bool) (l : list A) : Z := Z.of_nat (length (List.filter P l)).
Lemma number_snoc {A} (P : A -> bool) (l : list A) (x : A) : number P (l ++ [x]) = number P l + (if P x then 1 else 0).
Proof. unfold number. rewrite List.filter_app, length_app. cbn [List.filter]. destruct (P x); simpl; lia. Qed.
Lemma number_rev {A} (P : A -> bool) (l : list A) : number P (rev l) = number P l.
Proof. unfold number. by rewrite filter_rev, length_rev. Qed.

Definition has_key (req : StatsRequest) (k : option bytes) (lt : bytes * option DateTime) : bool := counts req lt && bool_decide (key_of req lt = k).
Definition unlisted (req : StatsRequest) (m : gmap bytes GroupAcc) (lt : bytes * option DateTime) : bool :=
  counts req lt && match key_of req lt with Some k => bool_decide (m !! k = None) | None => false end.

(** After any lines every group's count is exact, and every line that counts is
    without a key, of a group or one of the others. *)
Record stats_inv (req : StatsRequest) (lts : list (bytes * option DateTime)) (a : StatsAcc) : Prop := {
  si_matched : sa_matched a = number (counts req) lts;
  si_no_key : sa_no_key a = number (has_key req None) lts;
  si_other : sa_other a = number (unlisted req (sa_groups a)) lts;
  si_groups : forall k g, sa_groups a !! k = Some g -> ga_count g = number (has_key req (Some k)) lts;
  si_size : (size (sa_groups a) <= MAX_GROUPS)%nat;
  si_new : forall k, sa_groups a !! k = None -> (size (sa_groups a) < MAX_GROUPS)%nat -> number (has_key req (Some k)) lts = 0;
}.

Lemma group_add_count (format : Format) (g : GroupBy) (p : Parsed) (ts : option DateTime) (b : nat) (a : GroupAcc) :
  ga_count (group_add format g p ts b a).1 = ga_count a + 1.
Proof. unfold group_add. destruct (if is_ip_group g then _ else _) as [pr b1]. by destruct (if bool_decide (g = GField "path") then _ else _) as [ips b2]. Qed.

(** Adding a group changes which lines are unlisted only for its own key. *)
Lemma unlisted_insert (req : StatsRequest) (m : gmap bytes GroupAcc) (k : bytes) (g : GroupAcc) (lts : list (bytes * option DateTime)) :
  (is_Some (m !! k) \/ number (has_key req (Some k)) lts = 0) -> number (unlisted req (<[k := g]> m)) lts = number (unlisted req m) lts.
Proof.
  intros Hk. unfold number. do 2 f_equal. apply List.filter_ext_in. intros lt Hin. unfold unlisted. destruct (counts req lt) eqn:Ec; [|done]. cbn [andb].
  destruct (key_of req lt) as [k'|] eqn:Ek; [|done]. destruct (decide (k = k')) as [<-|Hne]; [|by rewrite lookup_insert_ne]. rewrite lookup_insert_eq.
  destruct Hk as [[g' ->]|Hz]; [done|]. exfalso. unfold number in Hz. assert (Hf : In lt (List.filter (has_key req (Some k)) lts)).
  { apply List.filter_In. split; [done|]. unfold has_key. rewrite Ec, Ek. by rewrite bool_decide_eq_true_2. }
  destruct (List.filter _ lts); [done|]. simpl in Hz. lia.
Qed.

Lemma stats_insert (req : StatsRequest) (lts : list (bytes * option DateTime)) (a : StatsAcc) (lt : bytes * option DateTime) (key : bytes)
  (acc : GroupAcc) (series : gmap Z Z) (b : nat) : stats_inv req lts a -> counts req lt = true -> key_of req lt = Some key ->
  ga_count acc = number (has_key req (Some key)) lts + 1 -> (is_Some (sa_groups a !! key) \/ (size (sa_groups a) < MAX_GROUPS)%nat) ->
  stats_inv req (lts ++ [lt]) {| sa_matched := sa_matched a + 1; sa_no_key := sa_no_key a; sa_other := sa_other a; sa_groups := <[key := acc]> (sa_groups a);
    sa_series := series; sa_budget := b |}.
Proof.
  intros [Hm Hn Ho Hg Hs Hnew] Ec Ek Hc Hroom.
  assert (Hk : forall k, has_key req k lt = bool_decide (Some key = k)) by (intros k; unfold has_key; by rewrite Ec, Ek).
  assert (Hz : is_Some (sa_groups a !! key) \/ number (has_key req (Some key)) lts = 0).
  { destruct (sa_groups a !! key) as [g|] eqn:Eg; [left; by eexists|]. destruct Hroom as [[g Hr]|Hr]; [done|]. right. by apply Hnew. }
  split; cbn [sa_matched sa_no_key sa_other sa_groups]; rewrite ?number_snoc.
  - by rewrite Hm, Ec.
  - rewrite Hn, Hk, bool_decide_eq_false_2 by done. lia.
  - rewrite unlisted_insert by done. unfold unlisted at 2. rewrite Ec, Ek, lookup_insert_eq. cbn [andb]. rewrite bool_decide_eq_false_2 by done. lia.
  - intros k g. rewrite number_snoc, Hk. destruct (decide (key = k)) as [<-|Hne].
    + rewrite lookup_insert_eq, bool_decide_eq_true_2 by done. by intros [= <-].
    + rewrite lookup_insert_ne, bool_decide_eq_false_2, Z.add_0_r by congruence. apply Hg.
  - destruct (sa_groups a !! key) as [g|] eqn:Eg; [rewrite map_size_insert_Some; [done|by eexists]|]. rewrite map_size_insert_None by done.
    destruct Hroom as [[? ?]|?]; [done|lia].
  - intros k. rewrite number_snoc, Hk. destruct (decide (key = k)) as [<-|Hne]; [by rewrite lookup_insert_eq|].
    rewrite lookup_insert_ne, bool_decide_eq_false_2, Z.add_0_r by congruence. intros Hkn Hsz. apply Hnew; [done|].
    destruct (sa_groups a !! key) as [g|] eqn:Eg; [rewrite map_size_insert_Some in Hsz; [done|by eexists]|]. rewrite map_size_insert_None in Hsz by done. lia.
Qed.

(** A line that changes no group. *)
Lemma stats_skip (req : StatsRequest) (lts : list (bytes * option DateTime)) (a a' : StatsAcc) (lt : bytes * option DateTime) : stats_inv req lts a ->
  sa_groups a' = sa_groups a -> (forall k, has_key req (Some k) lt = true -> sa_groups a !! k = None /\ (MAX_GROUPS <= size (sa_groups a))%nat) ->
  sa_matched a' = sa_matched a + (if counts req lt then 1 else 0) -> sa_no_key a' = sa_no_key a + (if has_key req None lt then 1 else 0) ->
  sa_other a' = sa_other a + (if unlisted req (sa_groups a) lt then 1 else 0) -> stats_inv req (lts ++ [lt]) a'.
Proof.
  intros [Hm Hn Ho Hg Hs Hnew] Egr Hk Em En Eo. split; rewrite ?Egr, ?Em, ?En, ?Eo, ?number_snoc; try lia.
  - intros k g Hkg. rewrite number_snoc. destruct (has_key req (Some k) lt) eqn:E; [destruct (Hk k E); congruence|]. rewrite Z.add_0_r. by apply Hg.
  - intros k Hkn Hsz. rewrite number_snoc. destruct (has_key req (Some k) lt) eqn:E; [destruct (Hk k E); lia|]. rewrite Z.add_0_r. by apply Hnew.
Qed.

Lemma stats_step (req : StatsRequest) (lts : list (bytes * option DateTime)) (a : StatsAcc) (lt : bytes * option DateTime) :
  stats_inv req lts a -> stats_inv req (lts ++ [lt]) (stats_visit req a (VLine lt.1 lt.2)).
Proof.
  intros Hi. pose proof (fun k => eq_refl : has_key req k lt = counts req lt && bool_decide (key_of req lt = k)) as Hk.
  pose proof (fun m => eq_refl : unlisted req m lt = counts req lt && match key_of req lt with Some k => bool_decide (m !! k = None) | None => false end) as Hu.
  unfold stats_visit. fold (counts req lt). fold (key_of req lt). destruct (counts req lt) eqn:Ec; cbn [negb andb] in *.
  2: { apply (stats_skip _ _ a); rewrite ?Hk, ?Hu, ?Ec, ?Z.add_0_r; try done. intros k. by rewrite Hk. }
  destruct (key_of req lt) as [key|] eqn:Ek.
  2: { apply (stats_skip _ _ a); rewrite ?Hu, ?Ec; cbn [sa_groups sa_matched sa_no_key sa_other]; rewrite ?Z.add_0_r; try done.
       - intros k. by rewrite Hk, bool_decide_eq_false_2.
       - by rewrite Hk, bool_decide_eq_true_2. }
  assert (Hadd : forall old, ga_count old = number (has_key req (Some key)) lts -> (is_Some (sa_groups a !! key) \/ (size (sa_groups a) < MAX_GROUPS)%nat) ->
    stats_inv req (lts ++ [lt]) (let '(acc, budget) := group_add (src_format (st_src req)) (st_group_by req) (parse_line (src_format (st_src req)) lt.1) lt.2 (sa_budget a) old in
      {| sa_matched := sa_matched a + 1; sa_no_key := sa_no_key a; sa_other := sa_other a; sa_groups := <[key := acc]> (sa_groups a);
         sa_series := match st_bucket_secs req with
                      | Some b => match lt.2 with Some t => let k := unix_secs t / b * b in <[k := default 0 (sa_series a !! k) + 1]> (sa_series a) | None => sa_series a end
                      | None => sa_series a end; sa_budget := budget |})).
  { intros old Hold Hroom. pose proof (group_add_count (src_format (st_src req)) (st_group_by req) (parse_line (src_format (st_src req)) lt.1) lt.2 (sa_budget a) old) as Hc.
    destruct (group_add _ _ _ _ _ old) as [acc b]. cbn [fst] in Hc. apply stats_insert; try done. by rewrite Hc, Hold. }
  destruct (sa_groups a !! key) as [old|] eqn:Eg; [|destruct (Nat.leb_spec MAX_GROUPS (size (sa_groups a))) as [Hfull|Hroom]].
  - apply Hadd; [by apply (si_groups _ _ _ Hi)|left; by eexists].
  - apply (stats_skip _ _ a); rewrite ?Ec; cbn [sa_groups sa_matched sa_no_key sa_other]; try done.
    + intros k. rewrite Hk. intros [= <-]%bool_decide_eq_true. done.
    + by rewrite Hk, bool_decide_eq_false_2, Z.add_0_r.
    + by rewrite Hu, bool_decide_eq_true_2.
  - apply Hadd; [|by right]. by rewrite (si_new _ _ _ Hi key Eg Hroom).
Qed.

Lemma stats_run (req : StatsRequest) (lts : list (bytes * option DateTime)) :
  stats_inv req lts (foldl (stats_visit req) stats_new ((fun lt => VLine lt.1 lt.2) <$> lts)).
Proof.
  induction lts as [|lt lts IH] using rev_ind; [|rewrite fmap_app, foldl_app; by apply stats_step].
  split; try done. apply Nat.le_0_l.
Qed.

Lemma stats_inv_rev (req : StatsRequest) (lts : list (bytes * option DateTime)) (a : StatsAcc) : stats_inv req (rev lts) a -> stats_inv req lts a.
Proof.
  intros [Hm Hn Ho Hg Hs Hw]. rewrite number_rev in Hm, Hn, Ho. split; try done; intros k.
  - intros g E. rewrite (Hg k g E). apply number_rev.
  - intros E Hz. rewrite <- (Hw k E Hz). symmetry. apply number_rev.
Qed.
End answers.

(** ** The order of groups *)
Lemma bytes_leb_total (a b : bytes) : bytes_leb a b = true \/ bytes_leb b a = true.
Proof.
  revert b. induction a as [|x a IH]; intros [|y b]; simpl; auto. destruct (IH b) as [E|E]; rewrite E; rewrite !orb_true_iff, !andb_true_iff, !Z.ltb_lt, !Z.eqb_eq; lia.
Qed.
Lemma bytes_leb_trans (a b c : bytes) : bytes_leb a b = true -> bytes_leb b c = true -> bytes_leb a c = true.
Proof.
  revert b c. induction a as [|x a IH]; intros [|y b] [|z c]; simpl; try done. rewrite !orb_true_iff, !andb_true_iff, !Z.ltb_lt, !Z.eqb_eq.
  intros [?|[-> ?]] [?|[-> ?]]; try (left; lia). right. split; [done|]. by eapply IH.
Qed.
#[export] Instance more_frequent_total {A} (count : A -> Z) : Total (more_frequent count).
Proof. intros [k a] [k' b]. unfold more_frequent. simpl. destruct (bytes_leb_total k k'), (Z.lt_trichotomy (count a) (count b)) as [|[|]]; auto. Qed.
#[export] Instance more_frequent_trans {A} (count : A -> Z) : Transitive (more_frequent count).
Proof.
  intros [k a] [k' b] [k'' c]. unfold more_frequent. simpl. intros [?|[? H1]] [?|[? H2]]; try (left; lia). right. split; [lia|]. by eapply bytes_leb_trans.
Qed.

(** What a ranking leaves out is no more frequent than what it keeps. *)
Lemma top_ranked {A} (count : A -> Z) (n : nat) (m : gmap bytes A) (k k' : bytes) (a a' : A) :
  let l := take n (merge_sort (more_frequent count) (map_to_list m)) in
  (k, a) ∈ l -> (k', a') ∉ l -> m !! k' = Some a' -> m !! k = Some a /\ count a' <= count a.
Proof.
  intros l Hk Hk' Hm. set (sorted := merge_sort (more_frequent count) (map_to_list m)) in *. fold l in Hk, Hk'.
  assert (Hp : sorted ≡ₚ map_to_list m) by apply merge_sort_Permutation.
  split; [apply elem_of_map_to_list; rewrite <- Hp, <- (take_drop n sorted); apply elem_of_app; by left|].
  assert (Hin : (k', a') ∈ drop n sorted).
  { apply elem_of_map_to_list in Hm. rewrite <- Hp, <- (take_drop n sorted), elem_of_app in Hm. by destruct Hm. }
  assert (Hs : StronglySorted (more_frequent count) (take n sorted ++ drop n sorted)) by (rewrite take_drop; apply (StronglySorted_merge_sort _)).
  pose proof (StronglySorted_app_1_elem_of _ _ _ _ _ Hs Hk Hin) as [Hlt|[E _]]; simpl in *; lia.
Qed.

Section statistics.
Context `{AgentDates} `{IpNetOps} `{AddrText} `{AgentRegex} `{LogPatterns} `{SshPatterns} `{Gzip}.

(** The statistics of a log whose lines are in the order of time are exact: every
    matching line of the window is counted once, in the group of its key or as
    one without; the groups listed are as many as asked for, their counts are the
    true ones, and unless there are more than a hundred thousand groups no key
    that is left out of a ranking is more frequent than one that is listed. *)
Theorem stats_exact (chunk max_carry : nat) (inner : Inner) (fs : Files) (req : StatsRequest) (now : DateTime) (f : LogFile) :
  let w := scan_window inner (st_since req) (st_until req) now in
  let lts := window_lines w (lf_bytes f) in
  (0 < chunk)%nat -> fs (src_path (st_src req)) = Some f ->
  (in_include_rotated inner = true -> rotated_files fs (src_path (st_src req)) = []) -> searchable max_carry w (lf_bytes f) ->
  exists r, run_stats chunk max_carry inner fs req now = Ok r /\
    sr_matched r = number (counts req) lts /\ sr_no_key r = number (has_key req None) lts /\
    (sr_distinct r <= MAX_GROUPS)%nat /\ length (sr_groups r) = Nat.min (Z.to_nat (st_top req)) (sr_distinct r) /\
    (forall k g, (k, g) ∈ sr_groups r -> ga_count g = number (has_key req (Some k)) lts) /\
    ((sr_distinct r < MAX_GROUPS)%nat -> is_time_group (st_group_by req) = false ->
     forall k g k', (k, g) ∈ sr_groups r -> k' ∉ (sr_groups r).*1 -> number (has_key req (Some k')) lts <= ga_count g).
Proof.
  intros w lts Hch Hf Hrot Hs. destruct (scan_live chunk max_carry w fs _ f Hch Hf Hrot Hs) as (s & Es & _ & Hv).
  unfold run_stats. fold w. rewrite Es. cbn [result_bind]. eexists. split; [done|]. cbn [sr_matched sr_no_key sr_distinct sr_groups].
  rewrite Hv. fold lts. pose proof (stats_inv_rev _ _ _ (stats_run req (rev lts))) as [Hm Hn _ Hg Hsz Hw]. set (a := foldl _ _ _) in *.
  assert (Hin : forall k g, (k, g) ∈ sorted_groups req (sa_groups a) -> sa_groups a !! k = Some g).
  { intros k g Hk. apply elem_of_map_to_list. unfold sorted_groups in Hk. destruct (is_time_group _).
    - rewrite <- (merge_sort_Permutation earlier_key). unfold keep_last in Hk. by apply (subseteq_drop _ _ _ Hk).
    - rewrite <- (merge_sort_Permutation (more_frequent ga_count)). by apply (subseteq_take _ _ _ Hk). }
  split_and!; try done.
  - unfold sorted_groups, keep_last. destruct (is_time_group _); rewrite ?length_drop, ?length_take, merge_sort_Permutation, length_map_to_list; lia.
  - intros k g Hk. by apply Hg, Hin.
  - intros Hroom Ht k g k' Hk Hk'. pose proof (Hg _ _ (Hin _ _ Hk)) as Hc. destruct (sa_groups a !! k') as [g'|] eqn:E'.
    + rewrite <- (Hg _ _ E'). unfold sorted_groups in Hk, Hk'. rewrite Ht in Hk, Hk'.
      assert (Hnot : (k', g') ∉ take (Z.to_nat (st_top req)) (merge_sort (more_frequent ga_count) (map_to_list (sa_groups a)))).
      { intros Hin'. apply Hk'. apply list_elem_of_fmap. by exists (k', g'). }
      by destruct (top_ranked ga_count _ _ _ _ _ _ Hk Hnot E').
    + rewrite (Hw _ E' Hroom), Hc. unfold number. lia.
Qed.
End statistics.

(** * What agents can reach *)
Lemma fmt_uint_inj (a b : Z) : as_bytes (fmt_uint a) = as_bytes (fmt_uint b) -> a = b.
Proof. intros E. apply (inj pretty). by apply (inj as_bytes). Qed.

Lemma unique_name_tries (f : nat) (n : Z) (c name : bytes) (taken : list bytes) :
  unique_name f n c name taken ∉ taken \/
  forall x, x ∈ take f (c :: ((fun i => name ++ 95 :: as_bytes (fmt_uint i)) <$> seqZ n (Z.of_nat f))) -> x ∈ taken.
Proof.
  revert n c. induction f as [|f IH]; intros n c; [right; intros x Hx; by apply elem_of_nil in Hx|]. cbn [unique_name].
  case_bool_decide as Hc; [|by left]. destruct (IH (n + 1) (name ++ 95 :: as_bytes (fmt_uint n))) as [Hl|Hr]; [by left|right].
  intros x. cbn [take]. rewrite elem_of_cons. intros [->|Hx]; [done|]. apply Hr. rewrite seqZ_cons in Hx by lia. cbn [fmap list_fmap] in Hx.
  by replace (Z.pred (Z.of_nat (S f))) with (Z.of_nat f) in Hx by lia.
Qed.
Lemma unique_name_fresh (name : bytes) (taken : list bytes) : unique_name (S (length taken)) 2 name name taken ∉ taken.
Proof.
  destruct (unique_name_tries (S (length taken)) 2 name name taken) as [|Hall]; [done|]. exfalso.
  set (cs := take _ _) in Hall.
  assert (Hnd : NoDup cs).
  { unfold cs. eapply sublist_NoDup; [|apply sublist_take]. constructor.
    - intros (i & E & _)%list_elem_of_fmap. apply (f_equal length) in E. rewrite length_app in E. simpl in E. lia.
    - apply NoDup_fmap_2_strong; [|apply NoDup_seqZ]. intros i j _ _ E. apply app_inv_head in E. injection E as E. by apply fmt_uint_inj. }
  assert (Hlen : length cs = S (length taken)).
  { unfold cs. rewrite length_take. simpl. rewrite length_fmap, length_seqZ. lia. }
  pose proof (submseteq_length _ _ (NoDup_submseteq _ _ Hnd Hall)). lia.
Qed.

(** ** Sources *)
(** A path the configuration names for reading. *)
Definition path_of_entry (e : PluginEntry) : option bytes :=
  if bool_decide (pe_id e ∈ ["source.file.nginx"; "source.file.ssh"; "source.file.postfix"; "source.file.custom"]%string) then entry_path e
  else if bool_decide (pe_id e = "source.firewall") then Some (default (as_bytes "/var/log/ufw.log") (entry_path e)) else None.
Definition configured (plugins : list PluginEntry) (cfg : AgentConfig) : list bytes := omap path_of_entry plugins ++ (als_path <$> ac_log_sources cfg).

Record sources_ok (paths : list bytes) (files : list FileSource) : Prop := {
  so_names : NoDup (src_name <$> files);
  so_paths : NoDup (src_path <$> files);
  so_served : forall p, p ∈ src_path <$> files <-> p ∈ paths;
}.

Lemma add_source_ok (paths : list bytes) (name path : bytes) (fmt : Format) (files : list FileSource) : sources_ok paths files ->
  sources_ok (paths ++ [path]) (add_source name path fmt files).
Proof.
  intros [Hn Hp Hs]. unfold add_source. destruct (existsb _ files) eqn:Ee.
  - apply existsb_exists in Ee as (f & Hf%list_elem_of_In & Ef%bool_decide_eq_true). split; try done. intros p. rewrite elem_of_app, list_elem_of_singleton, Hs.
    split; [auto|]. intros [?| ->]; [done|]. apply Hs, list_elem_of_fmap. by exists f.
  - assert (Hnew : path ∉ src_path <$> files).
    { intros (f & -> & Hf)%list_elem_of_fmap. apply not_true_iff_false in Ee. apply Ee, existsb_exists. exists f. split; [by apply list_elem_of_In|].
      by apply bool_decide_eq_true. }
    pose proof (unique_name_fresh name (src_name <$> files)) as Hfresh. rewrite length_fmap in Hfresh.
    split; rewrite fmap_app; cbn [fmap list_fmap src_name src_path].
    + apply NoDup_app. split_and!; [done| |apply NoDup_singleton]. intros x Hx ->%list_elem_of_singleton. done.
    + apply NoDup_app. split_and!; [done| |apply NoDup_singleton]. intros x Hx ->%list_elem_of_singleton. done.
    + intros p. by rewrite !elem_of_app, Hs.
Qed.

Lemma add_entry_ok (paths : list bytes) (e : PluginEntry) (files : list FileSource) (units : list bytes) : sources_ok paths files ->
  sources_ok (paths ++ option_list (path_of_entry e)) (add_entry e (files, units)).1.
Proof.
  intros Hok. assert (Hno : path_of_entry e = None -> sources_ok (paths ++ option_list (path_of_entry e)) files) by (intros ->; simpl; by rewrite app_nil_r).
  assert (Hfile : forall id d fmt, bool_decide (id ∈ ["source.file.nginx"; "source.file.ssh"; "source.file.postfix"; "source.file.custom"]%string) = true ->
    bool_decide (pe_id e = id) = true ->
    sources_ok (paths ++ option_list (path_of_entry e)) (match entry_path e with Some p => (add_source (as_bytes (default d (pe_name e))) p fmt files, units) | None => (files, units) end).1).
  { intros id d fmt Hid E%bool_decide_eq_true. unfold path_of_entry in *. rewrite E in Hno |- *. rewrite Hid in Hno |- *. destruct (entry_path e); [by apply add_source_ok|by apply Hno]. }
  unfold add_entry. cbv zeta. do 4 (match goal with |- context [bool_decide (pe_id e = ?id)] => destruct (bool_decide (pe_id e = id)) eqn:?; [by eapply Hfile; [|eassumption]; vm_compute|] end).
  assert (Hnot : bool_decide (pe_id e ∈ ["source.file.nginx"; "source.file.ssh"; "source.file.postfix"; "source.file.custom"]%string) = false).
  { apply bool_decide_eq_false. rewrite !not_elem_of_cons. split_and!; try (by eapply bool_decide_eq_false); apply not_elem_of_nil. }
  unfold path_of_entry in *. rewrite Hnot in Hno |- *. destruct (bool_decide (pe_id e = "source.firewall")); [by apply add_source_ok|].
  destruct (bool_decide (pe_id e = "source.journald")); by apply Hno.
Qed.

Lemma engine_sources (plugins : list PluginEntry) (cfg : AgentConfig) :
  sources_ok (configured plugins cfg) (in_files (engine_from_config plugins cfg)).
Proof.
  unfold engine_from_config, configured.
  assert (Hp : sources_ok (omap path_of_entry plugins) (foldl (fun fu e => add_entry e fu) ([], []) plugins).1).
  { induction plugins as [|e plugins IH] using rev_ind; [split; [constructor..|done]|]. rewrite foldl_app, omap_app. cbn [foldl].
    destruct (foldl _ _ plugins) as [files units]. pose proof (add_entry_ok _ e files units IH) as He. cbn [omap list_omap]. by destruct (path_of_entry e). }
  destruct (foldl _ _ plugins) as [files units]. cbn [fst in_files] in *. set (paths := omap _ plugins) in *. clearbody paths.
  induction (ac_log_sources cfg) as [|c cs IH] using rev_ind; [simpl; by rewrite app_nil_r|]. rewrite foldl_app, fmap_app, (assoc_L (++)). by apply add_source_ok.
Qed.

Lemma inner_file_in (inner : Inner) (name : bytes) (f : FileSource) : inner_file inner name = Ok f -> f ∈ in_files inner.
Proof.
  unfold inner_file. destruct (List.find _ _) as [g|] eqn:E; [|by repeat case_match]. intros [= <-]. apply List.find_some in E as [E _]. by apply list_elem_of_In.
Qed.

(** ** Reading *)
Section confined.
Context `{AgentDates} `{IpNetOps} `{AddrText} `{AgentRegex} `{LogPatterns} `{SshPatterns} `{Gzip}.
Context (chunk max_carry : nat).

(** The same log and the same rotated copies of it. *)
Definition same_log (fs fs' : Files) (path : bytes) : Prop :=
  fs path = fs' path /\ forall n, let p := path ++ 46 :: as_bytes (fmt_uint n) in fs p = fs' p /\ fs (p ++ as_bytes ".gz") = fs' (p ++ as_bytes ".gz").

Lemma rotated_same (fs fs' : Files) (path : bytes) (todo : nat) (n : Z) : same_log fs fs' path ->
  rotated_from todo n fs path = rotated_from todo n fs' path /\ Forall (fun r => fs r.1 = fs' r.1) (rotated_from todo n fs path).
Proof.
  intros [_ Hs]. revert n. induction todo as [|todo IH]; intros n; cbn [rotated_from]; [done|]. destruct (Hs n) as [Hp Hg]. unfold file_kind. rewrite Hp, Hg.
  destruct (IH (n + 1)) as [E F]. destruct (_ <$> fs' (path ++ _)); [rewrite E in F |- *; split; [done|by constructor]|].
  destruct (_ <$> fs' _); [rewrite E in F |- *; split; [done|by constructor]|done].
Qed.

Lemma scan_rotated_same (w : ScanWindow) (fs fs' : Files) (rots : list (bytes * bool)) (s : Scan) : Forall (fun r => fs r.1 = fs' r.1) rots ->
  scan_rotated chunk max_carry w fs rots s = scan_rotated chunk max_carry w fs' rots s.
Proof.
  intros Hr. revert s. induction Hr as [|[rot gz] rots Hr _ IH]; intros s; cbn [scan_rotated]; [done|]. cbn [fst] in Hr. rewrite Hr. destruct (_ || _); [done|].
  destruct (fs' rot) as [f|]; [|done]. destruct (match lf_mtime f with Some t => _ | None => _ end); [done|]. destruct (if gz then _ else _) as [s2 ok]. by destruct (negb ok).
Qed.
Lemma scan_source_same (w : ScanWindow) (fs fs' : Files) (path : bytes) : same_log fs fs' path ->
  scan_source chunk max_carry w fs path = scan_source chunk max_carry w fs' path.
Proof.
  intros Hs. unfold scan_source. rewrite (proj1 Hs). destruct (fs' path) as [f|]; [|done]. destruct (rotated_same fs fs' path MAX_ROTATED 1 Hs) as [E F].
  unfold rotated_files. rewrite (scan_rotated_same w fs fs' _ _ F), E. done.
Qed.

Lemma required_source_in (inner : Inner) (params : Value) (src : FileSource) : required_source inner params = Ok src -> src ∈ in_files inner.
Proof. unfold required_source. intros (name & _ & E)%result_bind_ok. destruct name; [by eapply inner_file_in|done]. Qed.

(** C39: Agents see the configured logs and nothing else: on two machines whose
    configured logs and their rotated copies are the same, every query, every
    statistic and every profile is answered alike, whatever the request says
    and whatever other files hold; and a journal that is read is one of the
    units allowed. *)
Theorem agents_confined (plugins : list PluginEntry) (cfg : AgentConfig) (fs fs' : Files) (running : Z) (params : Value) (now : DateTime)
  (ip : IpAddr) (since : option bytes) : let inner := engine_from_config plugins cfg in
  (forall p, p ∈ configured plugins cfg -> same_log fs fs' p) ->
  query chunk max_carry inner fs running params now = query chunk max_carry inner fs' running params now /\
  stats chunk max_carry inner fs running params now = stats chunk max_carry inner fs' running params now /\
  ip_profile_logs chunk max_carry inner fs running ip since now = ip_profile_logs chunk max_carry inner fs' running ip since now /\
  forall req, journal_from_params inner params now = Ok req -> jr_unit req ∈ in_journal_units inner.
Proof.
  intros inner Hsame.
  assert (Hsrc : forall w src, src ∈ in_files inner -> scan_source chunk max_carry w fs (src_path src) = scan_source chunk max_carry w fs' (src_path src)).
  { intros w src Hin. apply scan_source_same, Hsame, (so_served _ _ (engine_sources plugins cfg)), list_elem_of_fmap. by exists src. }
  split_and!.
  - unfold query. destruct (query_from_params inner params now) as [req|] eqn:E; [|done]. cbn [result_bind]. destruct (scan_permit running inner); [|done]. cbn [result_bind].
    unfold query_from_params in E. apply result_bind_ok in E as (src & Hs & E). unfold run_query. rewrite Hsrc; [done|].
    repeat (apply result_bind_ok in E as (? & _ & E)). injection E as <-. by eapply required_source_in.
  - unfold stats. destruct (stats_from_params inner params now) as [req|] eqn:E; [|done]. cbn [result_bind]. destruct (scan_permit running inner); [|done]. cbn [result_bind].
    unfold stats_from_params in E. apply result_bind_ok in E as (src & Hs & E). unfold run_stats. rewrite Hsrc; [done|].
    repeat (apply result_bind_ok in E as (? & _ & E)). injection E as <-. by eapply required_source_in.
  - unfold ip_profile_logs, run_ip_profile. destruct (time_spec _ now); [|done]. cbn [result_bind]. destruct (scan_permit running inner); [|done]. cbn [result_bind]. f_equal.
    apply list_fmap_ext. intros i src Hi%list_elem_of_lookup_2. unfold profile_one. by rewrite Hsrc.
  - intros req. unfold journal_from_params. intros (u & _ & E)%result_bind_ok. destruct (bool_decide _) eqn:Eb; cbn [negb] in E; [|done].
    apply bool_decide_eq_true in Eb. do 4 (apply result_bind_ok in E as (? & _ & E)). destruct (match _ with Some t => t <? _ | None => false end); [done|].
    repeat (apply result_bind_ok in E as (? & _ & E)). by injection E as <-.
Qed.
End confined.

(** ** Witnesses *)
Module LogsSample.
#[local] Existing Instance ipnet_ref.
#[local] Existing Instance ScanSample.dates.
#[local] Existing Instance ScanSample.gz.
#[local] Instance addr : AddrText := {| parse_ip _ := None; parse_net _ := None |}.
#[local] Instance logs : LogPatterns := {|
  nginx_captures _ := None; parse_nginx_timestamp _ := None; parse_syslog_timestamp _ := None; syslog_timestamp_capture _ := None;
  sasl_warning_captures _ := None; sasl_login_failed_capture _ := None |}.
#[local] Instance ssh : SshPatterns := {| envelope_captures _ := None; connection_captures _ := None; fingerprint_is_match _ := false |}.
(** Patterns without special characters. *)
#[local] Instance regexes : AgentRegex := {| rx_build _ := Ok tt; rx_is_match r s := contains r s |}.

Definition content : bytes := ScanSample.line "04" "x" ++ ScanSample.line "05" "a x" ++ ScanSample.line "06" "b" ++ ScanSample.line "07" "c x".
Definition file : LogFile := {| lf_bytes := content; lf_mtime := None |}.
Definition fs : Files := ScanSample.fs_of [("log", file)]%string.
Definition cfg : AgentConfig :=
  {| ac_log_sources := [{| als_name := as_bytes "app"; als_path := as_bytes "log"; als_format := as_bytes "raw" |}]; ac_journal_units := [as_bytes "hiveguard"];
     ac_max_scan_bytes := 1000; ac_max_results := 50; ac_journal_timeout_secs := 20; ac_include_rotated := true; ac_max_concurrent_scans := 2; ac_max_streams := 4 |}.
Definition inner : Inner := engine_from_config [] cfg.
Definition src : FileSource := {| src_name := as_bytes "app"; src_path := as_bytes "log"; src_format := FRaw |}.
Definition filter : Filter := {| fl_grep := Some (as_bytes "x"); fl_ip := None; fl_fields := [] |}.
Definition req : QueryRequest := {| q_src := src; q_since := secs 5; q_until := secs 90; q_filter := filter; q_limit := 1; q_parse := false |}.
Definition sreq : StatsRequest :=
  {| st_src := src; st_since := secs 5; st_until := secs 90; st_filter := filter; st_group_by := GDay; st_top := 5; st_bucket_secs := None |}.

Lemma log_searchable (w : ScanWindow) : w = scan_window inner (secs 5) (secs 90) (secs 100) -> searchable 60 w content.
Proof.
  intros ->. split_and!.
  - apply (bool_decide_unpack _). by vm_compute.
  - apply (bool_decide_unpack _). by vm_compute.
  - let l := eval vm_compute in (split_on 10 content) in change (split_on 10 content) with l.
    repeat (apply List.Forall_cons; [(by left) || (right; eexists; vm_compute; reflexivity)|]). apply List.Forall_nil.
  - let l := eval vm_compute in (split_on 10 content) in change (split_on 10 content) with l.
    repeat constructor; intros t t' E1 E2; vm_compute in E1, E2; simplify_eq; lia.
Qed.


Lemma stats_exact_witness : exists r, run_stats 7 60 inner fs sreq (secs 100) = Ok r /\ sr_matched r = 2 /\ sr_no_key r = 0.
Proof.
  destruct (stats_exact 7 60 inner fs sreq (secs 100) file ltac:(lia) eq_refl (fun _ => ltac:(by vm_compute)) (log_searchable _ eq_refl)) as (r & Hr & Hm & Hn & _).
  exists r. split; [exact Hr|]. rewrite Hm, Hn. by vm_compute.
Defined.

(** Whether there is a file of passwords makes no difference. *)
Definition params : Value := obj [("source", JStr "app"); ("since", JStr "95s")]%string.
Definition fs' : Files := ScanSample.fs_of [("log", file); ("passwd", file)]%string.
Lemma other_file (p : bytes) : p <> as_bytes "passwd" -> fs p = fs' p.
Proof.
  intros Hp. unfold fs, fs', ScanSample.fs_of. cbn [List.find fst]. destruct (bool_decide (as_bytes "log" = p)); [done|]. by rewrite bool_decide_eq_false_2 by congruence.
Qed.
Lemma agents_confined_witness : query 7 60 inner fs 0 params (secs 100) = query 7 60 inner fs' 0 params (secs 100).
Proof.
  refine (proj1 (agents_confined 7 60 [] cfg fs fs' 0 params (secs 100) (IpV4 1) None _)).
  intros p Hp. apply list_elem_of_singleton in Hp as ->. split; [by vm_compute|]. intros n.
  split; (apply other_file; intros E; apply (f_equal (fun s => s !! 3%nat)) in E; discriminate E).
Defined.
End LogsSample.
