(* ===== verification/NftablesSpec.v ===== *)
(** * What the nftables backend guarantees

    Overlapping networks are resolved exactly; the batches of [Nftables.v], read
    by [nft_run] word by word, have the intended effect on any ruleset that an
    earlier run may have left; and the backend implements the [Enforcer]
    interface, as a set of networks ([nft_implements_set]). *)
From S2P Require Import Prelude Text Models Host Enforcer Nftables.
Local Open Scope Z_scope.

(** ** Networks as intervals *)
Definition net_size (n : IpNet) : Z := 2 ^ Z.of_nat (net_width n - prefix_len n).
(** [n] ends before [m] begins. *)
Definition ends_before (n m : IpNet) : Prop :=
  (net_width n < net_width m)%nat \/ net_width n = net_width m /\ net_bits n + net_size n <= net_bits m.

Lemma net_size_pos (n : IpNet) : 0 < net_size n.
Proof. unfold net_size. lia. Qed.

Lemma mask_bits_aligned (w p : nat) (b : Z) : mask_bits w p b mod 2 ^ Z.of_nat (w - p) = 0.
Proof. unfold mask_bits. rewrite Z.shiftl_mul_pow2 by lia. apply Z.mod_mul. lia. Qed.

Lemma canonical_aligned (n : IpNet) : canonical n -> exists i, net_bits n = i * net_size n.
Proof.
  unfold canonical, net_size. intros Hc. apply Z.mod_divide; [lia|].
  destruct n as [b p|b p]; simpl in *; injection Hc as <-; apply mask_bits_aligned.
Qed.

Lemma in_net_interval (n : IpNet) (a : IpAddr) : canonical n ->
  in_net n a <-> net_width n = ip_width a /\ net_bits n <= ip_bits a < net_bits n + net_size n.
Proof.
  intros [i Hc]%canonical_aligned. unfold in_net, top_bits. rewrite !Z.shiftr_div_pow2 by lia. fold (net_size n).
  pose proof (net_size_pos n) as Hp. 
  assert (Hn : net_bits n / net_size n = i) by (rewrite Hc; apply Z.div_mul; lia). rewrite Hn.
  pose proof (Z.div_mod (ip_bits a) (net_size n) ltac:(lia)) as Ha. pose proof (Z.mod_pos_bound (ip_bits a) (net_size n) Hp).
  split; (intros [Hw E]; split; [exact Hw|]).
  - lia.
  - apply Z.div_unique with (ip_bits a - net_bits n); [left; lia|]. lia.
Qed.

Lemma net_size_mono (n m : IpNet) : net_width n = net_width m -> (prefix_len m <= prefix_len n)%nat -> exists k, 0 < k /\ net_size m = k * net_size n.
Proof.
  unfold net_size. intros E Hp. rewrite E. destruct (decide (prefix_len n <= net_width m)%nat).
  - exists (2 ^ Z.of_nat (prefix_len n - prefix_len m)). split; [lia|]. rewrite <- Z.pow_add_r by lia. f_equal. lia.
  - exists (2 ^ Z.of_nat (net_width m - prefix_len m)). split; [lia|]. replace (net_width m - prefix_len n)%nat with 0%nat by lia. lia.
Qed.

(** A network that sorts later and is not inside comes entirely after. *)
Lemma later_after (n m : IpNet) : canonical n -> canonical m -> net_le n m ->
  ~ (net_width n = net_width m /\ forall a, in_net m a -> in_net n a) -> ends_before n m.
Proof.
  intros Hn Hm Hle Hno. destruct Hle as [Hw|[Hw Hle]]; [by left|]. right. split; [exact Hw|].
  destruct (Z.le_gt_cases (net_bits n + net_size n) (net_bits m)) as [?|Hlt]; [done|]. exfalso. apply Hno. split; [exact Hw|].
  assert (Hp : (prefix_len n <= prefix_len m)%nat).
  { destruct Hle as [Hlt'|[_ ?]]; [|done]. destruct (Nat.le_gt_cases (prefix_len n) (prefix_len m)) as [?|Hgt]; [done|]. exfalso.
    destruct (net_size_mono n m Hw ltac:(lia)) as (k & Hk & E). destruct (canonical_aligned n Hn) as [i Hi], (canonical_aligned m Hm) as [j Hj].
    rewrite E, Z.mul_assoc in Hj. pose proof (net_size_pos n) as Hs. rewrite Hi, Hj in *.
    apply Z.mul_lt_mono_pos_r in Hlt'; [|done]. nia. }
  destruct (net_size_mono m n (eq_sym Hw) Hp) as (k & Hk & E). intros a [Hwa Ha]%in_net_interval; [|done].
  apply in_net_interval; [done|]. split; [congruence|].
  assert (Hin : net_bits n <= net_bits m) by (destruct Hle; lia).
  destruct (canonical_aligned n Hn) as [i Hi], (canonical_aligned m Hm) as [j Hj].
  pose proof (net_size_pos m) as Hs. rewrite E, Z.mul_assoc in *. rewrite Hi, Hj in *.
  apply Z.mul_le_mono_pos_r in Hin; [|done].
  assert (j < i * k + k) by (apply (Z.mul_lt_mono_pos_r (net_size m)); lia). nia.
Qed.

(** ** Overlapping networks *)
Section dedup.
Context `{IpNetOps} {laws : IpNetLaws} `{IpNetOrd} {ord_laws : IpNetOrdLaws}.

#[local] Instance sorts_before_trans : Transitive sorts_before.
Proof using ord_laws. intros n m k. unfold sorts_before. rewrite !net_leb_law. unfold net_le. lia. Qed.
#[local] Instance sorts_before_total : Total sorts_before.
Proof using ord_laws. intros n m. unfold sorts_before. rewrite !net_leb_law. unfold net_le. lia. Qed.

Lemma sort_nets_sorted (l : list IpNet) : StronglySorted sorts_before (sort_nets l).
Proof using ord_laws. apply (StronglySorted_merge_sort _). Qed.
Lemma sort_nets_perm (l : list IpNet) : sort_nets l ≡ₚ l.
Proof. apply merge_sort_Permutation. Qed.

Lemma ends_before_later (n m k : IpNet) : ends_before n m -> net_le m k -> ends_before n k.
Proof. unfold ends_before, net_le. lia. Qed.

Lemma ends_before_disjoint (n m : IpNet) : canonical n -> canonical m -> ends_before n m -> disjoint_nets n m = true /\ disjoint_nets m n = true.
Proof.
  intros Hn Hm Hb. assert (H1 : ~ in_net n (net_addr m)).
  { intros [Hw Hi]%in_net_interval; [|done]. unfold ends_before in Hb. destruct n, m; simpl in *; lia. }
  assert (H2 : ~ in_net m (net_addr n)).
  { intros [Hw Hi]%in_net_interval; [|done]. unfold ends_before in Hb. pose proof (net_size_pos n). destruct n, m; simpl in *; lia. }
  unfold disjoint_nets. by rewrite !bool_decide_eq_false_2.
Qed.

(** What is kept are networks of the input, that come one after the other and
    cover the same addresses. *)
Lemma dedup_from_spec (l : list IpNet) (last : IpNet) :
  StronglySorted sorts_before (last :: l) -> Forall (fun n => wf_net n /\ canonical n) (last :: l) ->
  let r := dedup_from last l in
  r ⊆ last :: l /\ StronglySorted ends_before r /\ forall a, wf_ip a -> covered r a <-> covered (last :: l) a.
Proof using ord_laws.
  revert last. induction l as [|m l IH]; intros last Hs Hwf; simpl.
  { split_and!; [done|by repeat constructor|done]. }
  apply StronglySorted_inv in Hs as [Hs [Hm Hl]%Forall_cons]. apply Forall_cons in Hwf as [[Hw Hc] Hwf].
  pose proof Hwf as [[Hwm Hcm] Hwl]%Forall_cons. destruct (net_contains_net last m) eqn:Ein.
  - apply net_contains_net_law in Ein as [_ Ein]; [|done..].
    destruct (IH last) as (H1 & H2 & H3); [constructor; [by apply StronglySorted_inv in Hs as []|done]|by constructor|].
    split_and!; [set_solver +H1|done|]. intros a Ha. rewrite H3 by done. split; intros (n & Hn & Hina).
    + exists n. split; [set_solver +Hn|done].
    + apply elem_of_cons in Hn as [->|[->|Hn]%elem_of_cons]; [exists last; split; [by left|done]| |exists n; split; [by right|done]].
      exists last. split; [by left|auto].
  - destruct (IH m Hs Hwf) as (H1 & H2 & H3). split_and!; [set_solver +H1| |].
    + constructor; [done|]. apply Forall_forall. intros x Hx%H1.
      assert (Hb : ends_before last m).
      { apply later_after; [done|done|by apply net_leb_law|]. intros Hin. enough (net_contains_net last m = true) by congruence.
        apply net_contains_net_law; [done|done|]. split; [apply Hin|]. intros a _. apply Hin. }
      apply elem_of_cons in Hx as [->|Hx]; [done|]. eapply ends_before_later; [exact Hb|]. apply net_leb_law.
      apply StronglySorted_inv in Hs as [_ Hs]. rewrite Forall_forall in Hs. by apply Hs.
    + intros a Ha. split; intros (n & [->|Hn]%elem_of_cons & Hina).
      * exists last. split; [by left|done].
      * destruct (proj1 (H3 a Ha)) as (k & Hk & Hka); [by exists n|]. exists k. split; [by right|done].
      * exists last. split; [by left|done].
      * destruct (proj2 (H3 a Ha)) as (k & Hk & Hka); [by exists n|]. exists k. split; [by right|done].
Qed.

Lemma dedup_spec (nets : list IpNet) : Forall wf_net nets ->
  let r := dedup_overlapping nets in
  r ⊆ trunc_ref <$> nets /\ StronglySorted ends_before r /\ forall a, wf_ip a -> covered r a <-> covered nets a.
Proof using laws ord_laws.
  intros Hwf. unfold dedup_overlapping.
  assert (Et : net_trunc <$> nets = trunc_ref <$> nets)
    by (apply list_fmap_ext; intros i n Hn; apply net_trunc_law; by eapply Forall_lookup_1).
  rewrite Et. pose proof (sort_nets_sorted (trunc_ref <$> nets)) as Hs. pose proof (sort_nets_perm (trunc_ref <$> nets)) as Hp.
  assert (Hcov : forall a, covered (trunc_ref <$> nets) a <-> covered nets a).
  { intros a. unfold covered. setoid_rewrite list_elem_of_fmap. split.
    - intros (n & (m & -> & Hm) & Hin). exists m. split; [done|]. by apply trunc_ref_in_net.
    - intros (n & Hn & Hin). exists (trunc_ref n). split; [by exists n|]. by apply trunc_ref_in_net. }
  assert (Hall : Forall (fun n => wf_net n /\ canonical n) (sort_nets (trunc_ref <$> nets))).
  { rewrite Hp. apply Forall_fmap. eapply Forall_impl; [exact Hwf|]. intros n Hn. split; [by apply trunc_ref_wf|apply trunc_ref_canonical]. }
  destruct (sort_nets (trunc_ref <$> nets)) as [|n l] eqn:El.
  - apply Permutation_nil_l, eq_sym, fmap_nil_inv in Hp as ->. split_and!; [set_solver|constructor|done].
  - destruct (dedup_from_spec l n Hs Hall) as (H1 & H2 & H3). split_and!; [intros x Hx%H1; by rewrite <- Hp|done|].
    intros a Ha. rewrite H3 by done. rewrite <- Hcov. unfold covered. by setoid_rewrite Hp.
Qed.
End dedup.

(** ** Reading the batches *)
(** Printing and parsing of addresses ([std::net], [ipnet]). *)
Class AddrPrintLaws `{IpNetOps} `{AddrText} : Prop := {
  parse_ip_print (a : IpAddr) : wf_ip a -> parse_ip (as_bytes (ip_to_string a)) = Some a;
  parse_net_print (n : IpNet) : wf_net n -> parse_net (as_bytes (net_to_string n)) = Some n;
  parse_ip_net (n : IpNet) : wf_net n -> parse_ip (as_bytes (net_to_string n)) = None;
  net_print (n : IpNet) : wf_net n -> net_to_string n = (ip_to_string (net_addr n) +:+ "/" +:+ fmt_uint (Z.of_nat (prefix_len n)))%string;
  net_print_chars (n : IpNet) : wf_net n -> Forall (fun c => 45 < c) (as_bytes (net_to_string n));
}.

(** A word of a line. *)
Definition clean (w : bytes) : bool := forallb (fun c => negb ((c =? 32) || (c =? 10))) w.

Lemma clean_not (w : bytes) : clean w = true -> (32 ∉ w) /\ (10 ∉ w).
Proof.
  unfold clean. rewrite forallb_forall. setoid_rewrite <- list_elem_of_In. intros Hw.
  split; intros Hin%Hw; rewrite negb_true_iff, orb_false_iff in Hin; destruct Hin; lia.
Qed.

Lemma join_not (c : Z) (sep : bytes) (ws : list bytes) : c ∉ sep -> Forall (fun w => c ∉ w) ws -> c ∉ join sep ws.
Proof.
  intros Hs. induction 1 as [|w ws Hw _ IH]; simpl; [apply not_elem_of_nil|]. destruct ws; [done|]. rewrite !not_elem_of_app. done.
Qed.

Lemma split_join (ws : list bytes) : ws <> [] -> forallb clean ws = true -> split_on 32 (join [32] ws) = ws.
Proof.
  intros Hne. induction ws as [|w [|w2 ws] IH]; [done| |]; simpl; intros [Hw Hws]%andb_true_iff; apply clean_not in Hw as [Hw _].
  - by apply split_on_free.
  - rewrite split_on_app by done. f_equal. by apply IH.
Qed.

Lemma foldl_none {A B : Type} (f : A -> B -> option B) (l : list A) : foldl (fun o x => v ← o; f x v) None l = None.
Proof. induction l; simpl; done. Qed.

Section reading.
Context `{AddrText}.

Lemma run_line_add (object t : bytes) (args : list bytes) (v : Ruleset) :
  run_line (word "add" :: object :: word "inet" :: t :: args) v = nft_add object t args v.
Proof. done. Qed.

Lemma nft_run_nil (v : Ruleset) : nft_run [] v = Some v.
Proof. done. Qed.

Lemma nft_run_line (ws : list bytes) (rest : bytes) (v : Ruleset) : ws <> [] -> forallb clean ws = true ->
  nft_run (line ws ++ rest) v = (v' ← run_line ws v; nft_run rest v').
Proof.
  intros Hne Hws. unfold nft_run, line. rewrite <- app_assoc. simpl. rewrite split_on_app.
  - simpl. rewrite split_join by done. destruct (run_line ws v) as [v'|]; simpl; [done|]. apply foldl_none.
  - apply join_not; [by intros ?%list_elem_of_singleton|]. apply Forall_forall. intros w Hw.
    rewrite forallb_forall in Hws. apply clean_not. apply Hws. by apply list_elem_of_In.
Qed.
End reading.

(** A list of elements as words. *)
Fixpoint comma_words (ws : list bytes) : list bytes :=
  match ws with
  | [] => []
  | [w] => [w]
  | w :: ws' => (w ++ [44]) :: comma_words ws'
  end.

Lemma join_app (a b : list bytes) : a <> [] -> b <> [] -> join [32] (a ++ b) = join [32] a ++ [32] ++ join [32] b.
Proof.
  intros Ha Hb. induction a as [|x [|y a] IH]; [done| |].
  - simpl. destruct b; done.
  - change (join [32] ((x :: y :: a) ++ b)) with (x ++ [32] ++ join [32] ((y :: a) ++ b)). rewrite IH by done. simpl.
    rewrite <- !app_assoc. done.
Qed.

Lemma join_commas (ws : list bytes) : join (word ", ") ws = join [32] (comma_words ws).
Proof.
  induction ws as [|w [|w2 ws] IH]; [done|done|]. change (join (word ", ") (w :: w2 :: ws)) with (w ++ word ", " ++ join (word ", ") (w2 :: ws)).
  rewrite IH. simpl. destruct ws; simpl; rewrite <- !app_assoc; done.
Qed.

Lemma join_flatten (a c b : list bytes) : a <> [] -> c <> [] -> b <> [] -> join [32] (a ++ [join [32] c] ++ b) = join [32] (a ++ c ++ b).
Proof.
  intros Ha Hc Hb. rewrite (join_app a), (join_app a), (join_app [_]), (join_app c); try done; by destruct c.
Qed.
Lemma comma_words_ne (w : bytes) (ws : list bytes) : comma_words (w :: ws) <> [].
Proof. by destruct ws. Qed.

Lemma valid_name_clean (w : bytes) : valid_name w = true -> clean w = true.
Proof.
  unfold valid_name, clean. destruct w as [|c w]; [done|]. intros [Hw _]%andb_true_iff. rewrite forallb_forall in *. intros x Hx%Hw.
  unfold is_ascii_alpha, is_ascii_upper, is_ascii_lower, is_ascii_digit in Hx. lia.
Qed.

Section elements.
Context `{IpNetOps} `{AddrText} {print : AddrPrintLaws}.

Lemma format_net_chars (n : IpNet) : wf_net n -> Forall (fun c => 45 < c) (format_net n).
Proof using print.
  intros Hn. pose proof (net_print_chars n Hn) as Hc. unfold format_net. destruct (_ =? _)%nat; [|done].
  rewrite (net_print n Hn), as_bytes_app, Forall_app in Hc. apply Hc.
Qed.

Lemma format_net_clean (n : IpNet) : wf_net n -> clean (format_net n) = true.
Proof using print.
  intros Hn%format_net_chars. unfold clean. rewrite forallb_forall. intros c Hc. rewrite Forall_forall in Hn.
  apply list_elem_of_In, Hn in Hc. lia.
Qed.

Lemma element_of_format (n : IpNet) : wf_net n -> element_of (format_net n) = Some n.
Proof using print.
  intros Hn. unfold element_of, format_net. destruct (Nat.eqb_spec (prefix_len n) (net_width n)) as [E|E].
  - rewrite parse_ip_print by apply Hn. destruct n; simpl in *; by subst.
  - by rewrite parse_ip_net, parse_net_print.
Qed.

Lemma elements_of_more (w : bytes) (ws : list bytes) : ws <> [] ->
  elements_of (w :: ws ++ [word "}"]) = match rev w with
    | 44 :: w' => n ← element_of (rev w'); ns ← elements_of (ws ++ [word "}"]); Some (n :: ns)
    | _ => None
    end.
Proof. destruct ws as [|x [|y ws]]; done. Qed.

Lemma elements_of_commas (nets : list IpNet) : nets <> [] -> Forall wf_net nets ->
  elements_of (comma_words (format_net <$> nets) ++ [word "}"]) = Some nets.
Proof using print.
  intros Hne Hwf. induction Hwf as [|n [|m nets] Hn Hnets IH]; [done| |].
  - change (elements_of [format_net n; word "}"] = Some [n]). simpl.
    by rewrite element_of_format.
  - change (comma_words (format_net <$> n :: m :: nets)) with ((format_net n ++ [44]) :: comma_words (format_net <$> m :: nets)).
    set (rest := comma_words _) in *. rewrite <- app_comm_cons.
    assert (Hr : rest <> []) by (subst rest; destruct nets; simpl; done). specialize (IH ltac:(done)). clearbody rest.
    rewrite elements_of_more by done. rewrite rev_app_distr. cbn -[elements_of element_of rev word].
    change (rev [44]) with [44]. cbn -[elements_of element_of rev word]. rewrite rev_involutive, element_of_format by done.
    cbn -[elements_of word]. by rewrite IH.
Qed.

Lemma comma_words_clean (nets : list IpNet) : Forall wf_net nets -> forallb clean (comma_words (format_net <$> nets)) = true.
Proof using print.
  induction 1 as [|n [|m nets] Hn Hnets IH]; [done| |].
  - simpl. by rewrite format_net_clean.
  - change (comma_words (format_net <$> n :: m :: nets)) with ((format_net n ++ [44]) :: comma_words (format_net <$> m :: nets)).
    cbn [forallb]. rewrite IH, andb_true_r. unfold clean. rewrite forallb_app. fold (clean (format_net n)). by rewrite format_net_clean.
Qed.

(** Networks one after the other are accepted. *)
Lemma add_intervals_ok (v6 : bool) (new els : list IpNet) :
  StronglySorted ends_before (els ++ new) -> Forall canonical (els ++ new) -> Forall (fun n => negb (is_v4 n) = v6) new ->
  add_intervals v6 new els = Some (els ++ new).
Proof.
  intros Hs Hc Hf. revert els Hs Hc. induction Hf as [|n new Hn _ IH]; intros els Hs Hc; simpl; [by rewrite app_nil_r|].
  rewrite Hn, eqb_reflx. simpl.
  assert (Hd : forallb (disjoint_nets n) els = true).
  { apply forallb_forall. intros m Hm%list_elem_of_In. apply Forall_app in Hc as [Hels [Hcn _]%Forall_cons]. rewrite Forall_forall in Hels.
    apply (ends_before_disjoint m n (Hels m Hm) Hcn). eapply StronglySorted_app_1_elem_of; [exact Hs|done|by left]. }
  rewrite Hd, (IH (els ++ [n])); rewrite <- app_assoc; done.
Qed.
End elements.

(** ** The sets and chains of the enforcer *)
Section ownership.
Context {K : Type} (e : NftablesEnforcer K).
Abbreviation t := (table_name K e).

(** The sets of the enforcer, with their family. *)
Definition owned : list (bytes * bool) :=
  [(set_name_v4 K e, false); (sync_set_name_v4 K e, false); (sync_next_set_name_v4 K e, false);
   (set_name_v6 K e, true); (sync_set_name_v6 K e, true); (sync_next_set_name_v6 K e, true)].
Definition rules : list Rule := (fun s => {| ru_v6 := s.2; ru_set := s.1 |}) <$> owned.

Lemma owned_names (s : bytes) : s ∈ owned.*1 <-> s ∈ all_set_names e.
Proof. unfold owned, all_set_names. set_solver. Qed.

(** A ruleset the enforcer has set up. *)
Record ready (v : Ruleset) : Prop := {
  ready_table : t ∈ rs_tables v;
  ready_sets (s : bytes) (v6 : bool) : (s, v6) ∈ owned -> exists els, rs_sets v !! (t, s) = Some (v6, els) /\ Forall (fun n => wf_net n /\ canonical n) els;
  ready_chain (c : bytes) : c = INPUT_CHAIN \/ c = PREROUTING_CHAIN /\ prerouting_hook K e = true ->
    exists ch, rs_chains v !! (t, c) = Some ch /\ ch_hook ch = c /\ ch_rules ch = rules;
}.

(** A packet from [a] that reaches the hook of chain [c] is dropped. *)
Definition dropped (v : Ruleset) (c : bytes) (a : IpAddr) : Prop :=
  exists ch r set, rs_chains v !! (t, c) = Some ch /\ ch_hook ch = c /\ r ∈ ch_rules ch /\ rs_sets v !! (t, ru_set r) = Some set /\ covered set.2 a.
Definition listed (v : Ruleset) (n : IpNet) : Prop :=
  exists s set, s ∈ owned.*1 /\ rs_sets v !! (t, s) = Some set /\ n ∈ set.2.

Lemma dropped_listed (v : Ruleset) (c : bytes) (a : IpAddr) :
  ready v -> c = INPUT_CHAIN \/ c = PREROUTING_CHAIN /\ prerouting_hook K e = true ->
  dropped v c a <-> exists n, listed v n /\ in_net n a.
Proof.
  intros Hv Hc. destruct (ready_chain v Hv c Hc) as (ch & Hch & Hhook & Hrules). split.
  - intros (ch' & r & set & Hch' & _ & Hr & Hset & n & Hn & Hin). assert (ch' = ch) as -> by congruence. rewrite Hrules in Hr.
    apply list_elem_of_fmap in Hr as ([s b] & -> & Hs). exists n. split; [|done]. exists s, set. split_and!; [|done|done].
    apply list_elem_of_fmap. by exists (s, b).
  - intros (n & (s & set & Hs & Hset & Hn) & Hin). apply list_elem_of_fmap in Hs as ([s' b] & -> & Hs).
    exists ch, {| ru_v6 := b; ru_set := s' |}, set. split_and!; [done|done| |done|by exists n]. rewrite Hrules. apply list_elem_of_fmap.
    by exists (s', b).
Qed.

(** A sequence of replacements. *)
Definition put (v : Ruleset) (step : bytes * bool * list IpNet) : Ruleset := with_sets <[(t, step.1.1) := (step.1.2, step.2)]> v.
Definition step_ok (step : bytes * bool * list IpNet) : Prop :=
  step.1 ∈ owned /\ StronglySorted ends_before step.2 /\ Forall (fun n => wf_net n /\ canonical n /\ negb (is_v4 n) = step.1.2) step.2.

End ownership.

(** ** What the batches do *)
Section effects.
Context {K : Type} `{IpNetOps} {laws : IpNetLaws} `{IpNetOrd} {ord_laws : IpNetOrdLaws} `{AddrText} {print : AddrPrintLaws}.
Context (e : NftablesEnforcer K).
Abbreviation t := (table_name K e).
Context (Hnames : forallb valid_name (t :: all_set_names e) = true).

Lemma table_clean : clean t = true.
Proof using Hnames. pose proof Hnames as Hn. cbn [forallb] in Hn. apply andb_true_iff in Hn as [? _]. by apply valid_name_clean. Qed.
Lemma set_clean (s : bytes) : s ∈ all_set_names e -> clean s = true.
Proof using Hnames.
  intros Hs. apply valid_name_clean. pose proof Hnames as Hn. cbn [forallb] in Hn. apply andb_true_iff in Hn as [_ Hall]. rewrite forallb_forall in Hall. by apply Hall, list_elem_of_In.
Qed.

Lemma run_flush_set (s rest : bytes) (v : Ruleset) (set : bool * list IpNet) : s ∈ all_set_names e -> rs_sets v !! (t, s) = Some set ->
  nft_run (flush_set e s ++ rest) v = nft_run rest (with_sets <[(t, s) := (set.1, [])]> v).
Proof using Hnames.
  intros Hs Hv. unfold flush_set. rewrite nft_run_line; [|done|].
  - simpl. unfold nft_flush. simpl. by rewrite Hv.
  - cbn [forallb]. by rewrite table_clean, (set_clean s Hs).
Qed.

Lemma run_replace_set (s rest : bytes) (nets : list IpNet) (v : Ruleset) (v6 : bool) (old : list IpNet) :
  s ∈ all_set_names e -> t ∈ rs_tables v -> rs_sets v !! (t, s) = Some (v6, old) ->
  StronglySorted ends_before nets -> Forall (fun n => wf_net n /\ canonical n /\ negb (is_v4 n) = v6) nets ->
  nft_run (append_replace_set_batch e s nets ++ rest) v = nft_run rest (with_sets <[(t, s) := (v6, nets)]> v).
Proof using Hnames print.
  intros Hs Ht Hv Hsort Hnets. unfold append_replace_set_batch. rewrite <- app_assoc, (run_flush_set _ _ _ _ Hs Hv).
  assert (Hwf : Forall wf_net nets) by (eapply Forall_impl; [exact Hnets|]; by intros ? (? & ? & ?)).
  destruct nets as [|n nets]; [done|]. set (l := n :: nets) in *.
  assert (El : line [word "add"; word "element"; word "inet"; t; s; word "{"; join (word ", ") (format_net <$> l); word "}"] =
               line ([word "add"; word "element"; word "inet"; t; s; word "{"] ++ comma_words (format_net <$> l) ++ [word "}"])).
  { unfold line. f_equal. rewrite join_commas. apply (join_flatten [_; _; _; _; _; _]); [done|apply comma_words_ne|done]. }
  rewrite El, nft_run_line; [|done|].
  2:{ rewrite !forallb_app, comma_words_clean by done. cbn [forallb]. by rewrite table_clean, (set_clean s Hs). }
  cbn [app]. rewrite run_line_add.
  unfold nft_add. change (word_is "table" (word "element")) with false. change (word_is "set" (word "element")) with false.
  change (word_is "chain" (word "element")) with false. change (word_is "rule" (word "element")) with false.
  change (word_is "element" (word "element")) with true. cbn match. rewrite bool_decide_eq_true_2 by done. cbn [negb].
  simpl rs_sets. rewrite lookup_insert_eq. cbn [mbind option_bind fst snd]. rewrite elements_of_commas by done. cbn [mbind option_bind].
  rewrite add_intervals_ok; [|done| |]; simpl.
  - unfold with_sets. simpl. by rewrite insert_insert_eq.
  - eapply Forall_impl; [exact Hnets|]. by intros ? (? & ? & ?).
  - eapply Forall_impl; [exact Hnets|]. by intros ? (? & ? & ?).
Qed.

Context (Hdistinct : NoDup (owned e).*1).

Lemma owned_family (s : bytes) (a b : bool) : (s, a) ∈ owned e -> (s, b) ∈ owned e -> a = b.
Proof using Hdistinct.
  intros Ha Hb. apply list_elem_of_lookup in Ha as [i Hi], Hb as [j Hj].
  assert (i = j); [|congruence]. eapply NoDup_lookup; [exact Hdistinct| |]; rewrite list_lookup_fmap; [by rewrite Hi|by rewrite Hj].
Qed.

Lemma put_ready (v : Ruleset) (step : bytes * bool * list IpNet) : ready e v -> step_ok e step -> ready e (put e v step).
Proof using Hdistinct.
  intros Hv (Hs & _ & Hnets). destruct step as [[s0 b0] nets]. simpl in *. split; simpl; [apply Hv| |apply Hv].
  intros s b Hsb. destruct (decide (s = s0)) as [->|Hne].
  - assert (b = b0) as -> by (by eapply owned_family). exists nets. rewrite lookup_insert_eq. split; [done|].
    eapply Forall_impl; [exact Hnets|]. by intros ? (? & ? & ?).
  - rewrite lookup_insert_ne by congruence. by apply Hv.
Qed.

Lemma run_steps (steps : list (bytes * bool * list IpNet)) (rest : bytes) (v : Ruleset) : ready e v -> Forall (step_ok e) steps ->
  nft_run (mjoin ((fun step => append_replace_set_batch e step.1.1 step.2) <$> steps) ++ rest) v = nft_run rest (foldl (put e) v steps).
Proof using Hnames print Hdistinct.
  intros Hv Hsteps. revert v Hv. induction Hsteps as [|[[s b] nets] steps Hst _ IH]; intros v Hv; [done|].
  rewrite fmap_cons. cbn [mjoin list_join fst snd foldl].
  destruct (ready_sets e v Hv s b) as (els & Hels & _); [apply Hst|]. destruct Hst as (Hs & Hsort & Hnets).
  rewrite <- app_assoc, (run_replace_set s _ nets v b els); [|apply owned_names, list_elem_of_fmap; by exists (s, b)|apply Hv|done..].
  apply IH. by apply (put_ready v (s, b, nets)).
Qed.

Lemma steps_ready (steps : list (bytes * bool * list IpNet)) (v : Ruleset) : ready e v -> Forall (step_ok e) steps -> ready e (foldl (put e) v steps).
Proof using Hdistinct. intros Hv Hsteps. revert v Hv. induction Hsteps as [|st steps Hst _ IH]; intros v Hv; simpl; [done|]. by apply IH, put_ready. Qed.

Definition sync_steps (banned : list IpNet) : list (bytes * bool * list IpNet) :=
  let v4 := List.filter is_v4 (dedup_overlapping banned) in
  let v6 := List.filter (fun n => negb (is_v4 n)) (dedup_overlapping banned) in
  [(sync_set_name_v4 K e, false, v4); (sync_set_name_v6 K e, true, v6); (sync_next_set_name_v4 K e, false, v4); (sync_next_set_name_v6 K e, true, v6);
   (set_name_v4 K e, false, v4); (set_name_v6 K e, true, v6);
   (sync_set_name_v4 K e, false, []); (sync_set_name_v6 K e, true, []); (sync_next_set_name_v4 K e, false, []); (sync_next_set_name_v6 K e, true, [])].

Lemma sync_batch_steps (banned : list IpNet) :
  build_sync_batch e banned = mjoin ((fun step => append_replace_set_batch e step.1.1 step.2) <$> sync_steps banned).
Proof.
  unfold build_sync_batch, sync_steps. rewrite !fmap_cons, fmap_nil. cbn [mjoin list_join fst snd].
  assert (Hf : forall s, append_replace_set_batch e s [] = flush_set e s) by (intros s; apply app_nil_r). by rewrite !Hf, app_nil_r.
Qed.

Lemma StronglySorted_lfilter {A} (R : relation A) (f : A -> bool) (l : list A) : StronglySorted R l -> StronglySorted R (List.filter f l).
Proof.
  induction 1 as [|x l _ IH Hx]; simpl; [constructor|]. destruct (f x); [|done]. constructor; [done|].
  apply Forall_forall. intros y [Hy _]%elem_of_lfilter. rewrite Forall_forall in Hx. auto.
Qed.

Lemma dedup_nets (banned : list IpNet) : Forall wf_net banned -> Forall (fun n => wf_net n /\ canonical n) (dedup_overlapping banned).
Proof using laws ord_laws.
  intros Hwf. destruct (dedup_spec banned Hwf) as (Hsub & _ & _). apply Forall_forall. intros n Hn%Hsub.
  apply list_elem_of_fmap in Hn as (m & -> & Hm). rewrite Forall_forall in Hwf. split; [by apply trunc_ref_wf, Hwf|apply trunc_ref_canonical].
Qed.

Lemma sync_steps_ok (banned : list IpNet) : Forall wf_net banned -> Forall (step_ok e) (sync_steps banned).
Proof using laws ord_laws.
  intros Hwf. destruct (dedup_spec banned Hwf) as (_ & Hsort & _). pose proof (dedup_nets banned Hwf) as Hnets.
  assert (Hf : forall f b, (forall n, f n = true -> negb (is_v4 n) = b) -> StronglySorted ends_before (List.filter f (dedup_overlapping banned)) /\
    Forall (fun n => wf_net n /\ canonical n /\ negb (is_v4 n) = b) (List.filter f (dedup_overlapping banned))).
  { intros f b Hb. split; [by apply StronglySorted_lfilter|]. apply Forall_forall. intros n [Hn Hfn]%elem_of_lfilter.
    rewrite Forall_forall in Hnets. destruct (Hnets n Hn). auto. }
  destruct (Hf is_v4 false) as [H4 H4']; [by intros n ->|]. destruct (Hf (fun n => negb (is_v4 n)) true) as [H6 H6']; [done|].
  unfold sync_steps, owned.
  repeat (apply Forall_cons; split; [split; [unfold owned; simpl; rewrite !elem_of_cons; tauto|by split; [try done; constructor|try done; constructor]]|]).
  constructor.
Qed.

(** The batch of a full synchronisation is accepted, and leaves in the sets
    exactly the networks that remain of the list. *)
Lemma sync_effect (banned : list IpNet) (v : Ruleset) : ready e v -> Forall wf_net banned ->
  exists v', nft_run (build_sync_batch e banned) v = Some v' /\ ready e v' /\ forall n, listed e v' n <-> n ∈ dedup_overlapping banned.
Proof using Hnames print Hdistinct laws ord_laws.
  intros Hv Hwf. pose proof (sync_steps_ok banned Hwf) as Hsteps. exists (foldl (put e) v (sync_steps banned)). split_and!.
  - rewrite sync_batch_steps, <- (app_nil_r (mjoin _)). rewrite run_steps by done. apply nft_run_nil.
  - by apply steps_ready.
  - pose proof Hdistinct as Hd. unfold owned in Hd. simpl in Hd. rewrite !NoDup_cons, !not_elem_of_cons in Hd. destruct_and! Hd.
    intros n. unfold listed, sync_steps. split.
    + intros (s & set & Hs & Hset & Hn). unfold owned in Hs. simpl in Hs. rewrite !elem_of_cons in Hs.
      destruct_or! Hs; try (by apply not_elem_of_nil in Hs); subst; simpl in Hset; repeat (rewrite lookup_insert_eq in Hset || rewrite lookup_insert_ne in Hset by congruence);
        simplify_eq/=; try (by apply not_elem_of_nil in Hn); by apply elem_of_lfilter in Hn as [? _].
    + intros Hn. destruct (is_v4 n) eqn:E4.
      * exists (set_name_v4 K e). eexists. split; [unfold owned; set_solver +|]. simpl.
        repeat (rewrite lookup_insert_eq || rewrite lookup_insert_ne by congruence). split; [done|]. by apply elem_of_lfilter.
      * exists (set_name_v6 K e). eexists. split; [unfold owned; set_solver +|]. simpl.
        repeat (rewrite lookup_insert_eq || rewrite lookup_insert_ne by congruence). split; [done|]. apply elem_of_lfilter. by rewrite E4.
Qed.

(** *** Setting up *)
Lemma run_add_table (rest : bytes) (v : Ruleset) :
  nft_run (line [word "add"; word "table"; word "inet"; t] ++ rest) v =
  nft_run rest {| rs_tables := {[ t ]} ∪ rs_tables v; rs_sets := rs_sets v; rs_chains := rs_chains v |}.
Proof using Hnames. rewrite nft_run_line; [done|done|]. cbn [forallb]. by rewrite table_clean. Qed.

(** A set that exists keeps its elements. *)
Definition ensure_set (v : Ruleset) (sb : bytes * bool) : Ruleset :=
  match rs_sets v !! (t, sb.1) with Some _ => v | None => with_sets <[(t, sb.1) := (sb.2, [])]> v end.
Definition set_line (sb : bytes * bool) : bytes :=
  line [word "add"; word "set"; word "inet"; t; sb.1; word "{"; word "type"; word (if sb.2 then "ipv6_addr;" else "ipv4_addr;"); word "flags";
        word "interval;"; word "}"].

Lemma run_add_set (sb : bytes * bool) (rest : bytes) (v : Ruleset) : clean sb.1 = true -> t ∈ rs_tables v ->
  (forall set, rs_sets v !! (t, sb.1) = Some set -> set.1 = sb.2) -> nft_run (set_line sb ++ rest) v = nft_run rest (ensure_set v sb).
Proof using Hnames.
  intros Hs Ht Hold. destruct sb as [s b]. unfold set_line, ensure_set. simpl fst in *. simpl snd in *. rewrite nft_run_line; [|done|].
  - rewrite run_line_add.
    unfold nft_add. change (word_is "table" (word "set")) with false. change (word_is "set" (word "set")) with true. cbn match.
    rewrite bool_decide_eq_true_2 by done. cbn [negb].
    assert (Ed : (if bool_decide ([word "{"; word "type"; word (if b then "ipv6_addr;" else "ipv4_addr;"); word "flags"; word "interval;"; word "}"] = set_decl false)
      then Some false else if bool_decide ([word "{"; word "type"; word (if b then "ipv6_addr;" else "ipv4_addr;"); word "flags"; word "interval;"; word "}"] = set_decl true)
      then Some true else None) = Some b) by (by destruct b). rewrite Ed. cbn [mbind option_bind].
    destruct (rs_sets v !! (t, s)) as [[b' els]|] eqn:E; [|done]. specialize (Hold _ eq_refl). simpl in Hold. subst b'. by rewrite eqb_reflx.
  - cbn [forallb]. rewrite table_clean, Hs. by destruct b.
Qed.

Definition compatible (v : Ruleset) : Prop :=
  forall s b set, (s, b) ∈ owned e -> rs_sets v !! (t, s) = Some set -> set.1 = b /\ Forall (fun n => wf_net n /\ canonical n) set.2.

Lemma ensure_compatible (v : Ruleset) (s : bytes) (b : bool) : (s, b) ∈ owned e -> compatible v -> compatible (ensure_set v (s, b)).
Proof using Hdistinct.
  intros Hs Hv s' b' set Hs' Hset. unfold ensure_set in Hset. simpl in Hset. destruct (rs_sets v !! (t, s)) eqn:E; [by eapply Hv|]. simpl in Hset.
  destruct (decide (s = s')) as [->|Hne]; [|rewrite lookup_insert_ne in Hset by congruence; by eapply Hv].
  rewrite lookup_insert_eq in Hset. injection Hset as <-. split; [by eapply owned_family|constructor].
Qed.

Lemma run_add_sets (l : list (bytes * bool)) (rest : bytes) (v : Ruleset) : l ⊆ owned e -> t ∈ rs_tables v -> compatible v ->
  nft_run (mjoin (set_line <$> l) ++ rest) v = nft_run rest (foldl ensure_set v l) /\
  t ∈ rs_tables (foldl ensure_set v l) /\ compatible (foldl ensure_set v l) /\ rs_chains (foldl ensure_set v l) = rs_chains v /\
  (forall n, listed e (foldl ensure_set v l) n <-> listed e v n) /\
  forall s, s ∈ l.*1 \/ is_Some (rs_sets v !! (t, s)) -> is_Some (rs_sets (foldl ensure_set v l) !! (t, s)).
Proof using Hnames Hdistinct.
  revert v. induction l as [|[s b] l IH]; intros v Hl Ht Hv; [split_and!; try done; intros s [[]%not_elem_of_nil|?]; done|].
  rewrite fmap_cons. cbn [mjoin list_join foldl]. rewrite <- app_assoc.
  assert (Hs : (s, b) ∈ owned e) by (apply Hl; by left).
  rewrite run_add_set; [|apply set_clean, owned_names, list_elem_of_fmap; by exists (s, b)|done|intros set Hset; by apply (Hv s b set)].
  assert (Hchains : rs_chains (ensure_set v (s, b)) = rs_chains v /\ rs_tables (ensure_set v (s, b)) = rs_tables v)
    by (unfold ensure_set; by destruct (rs_sets v !! _)).
  destruct (IH (ensure_set v (s, b))) as (H1' & H2' & H3' & H4' & H5' & H6').
  { intros x Hx. apply Hl. by right. } { by rewrite (proj2 Hchains). } { by apply ensure_compatible. }
  split; [exact H1'|]. rewrite H4'. split_and!; try done; [apply Hchains| |].
  - intros n. rewrite H5'. unfold listed, ensure_set. simpl. destruct (rs_sets v !! (t, s)) eqn:E; [done|]. simpl.
    split; intros (s' & set & Hs' & Hset & Hn); exists s', set; (split_and!; [done| |done]); destruct (decide (s = s')) as [->|Hne].
    + rewrite lookup_insert_eq in Hset. simplify_eq/=. by apply not_elem_of_nil in Hn.
    + by rewrite lookup_insert_ne in Hset by congruence.
    + congruence.
    + by rewrite lookup_insert_ne by congruence.
  - intros s' Hs'. apply H6'. rewrite fmap_cons, elem_of_cons in Hs'. unfold ensure_set. simpl in *.
    destruct (rs_sets v !! (t, s)) eqn:E; [destruct Hs' as [[->|?]|?]; [right; by eexists|by left|by right]|].
    destruct (decide (s = s')) as [->|Hne]; [right; simpl; rewrite lookup_insert_eq; by eexists|]. simpl. rewrite lookup_insert_ne by congruence.
    destruct Hs' as [[?|?]|?]; [congruence|by left|by right].
Qed.

Definition rule_line (c : bytes) (sb : bytes * bool) : bytes :=
  line [word "add"; word "rule"; word "inet"; t; c; word (if sb.2 then "ip6" else "ip"); word "saddr"; word "@" ++ sb.1; word "drop"].
Definition with_chain (c : bytes) (ch : Chain) (v : Ruleset) : Ruleset := with_chains <[(t, c) := ch]> v.
Definition sets_present (v : Ruleset) : Prop := forall s b, (s, b) ∈ owned e -> exists els, rs_sets v !! (t, s) = Some (b, els).

Lemma run_add_rules (c rest : bytes) (l : list (bytes * bool)) (ch : Chain) (v : Ruleset) : clean c = true -> l ⊆ owned e -> t ∈ rs_tables v ->
  sets_present v -> rs_chains v !! (t, c) = Some ch ->
  nft_run (mjoin (rule_line c <$> l) ++ rest) v =
  nft_run rest (with_chain c (with_rules (ch_rules ch ++ ((fun s => {| ru_v6 := s.2; ru_set := s.1 |}) <$> l)) ch) v).
Proof using Hnames.
  intros Hc Hl Ht Hsets. revert v ch Ht Hsets. induction l as [|[s b] l IH]; intros v ch Ht Hsets Hch.
  { simpl. rewrite app_nil_r. unfold with_chain, with_chains. rewrite insert_id; [by destruct v|]. rewrite Hch. f_equal. by destruct ch. }
  rewrite fmap_cons. cbn [mjoin list_join]. rewrite <- app_assoc.
  assert (Hs : (s, b) ∈ owned e) by (apply Hl; by left). destruct (Hsets s b Hs) as [els Hels].
  assert (Hcl : clean s = true) by (apply set_clean, owned_names, list_elem_of_fmap; by exists (s, b)).
  unfold rule_line at 1. rewrite nft_run_line; [|done|].
  - rewrite run_line_add.
    unfold nft_add. change (word_is "table" (word "rule")) with false. change (word_is "set" (word "rule")) with false.
    change (word_is "chain" (word "rule")) with false. change (word_is "rule" (word "rule")) with true. cbn match.
    rewrite bool_decide_eq_true_2 by done. cbn [negb]. change (word "@" ++ (s, b).1) with (64 :: s). cbn match.
    rewrite Hch, Hels. cbn [mbind option_bind fst snd].
    assert (Eb : word_is "ip6" (word (if b then "ip6" else "ip")) = b) by (by destruct b). rewrite Eb, eqb_reflx. cbn [mbind option_bind].
    etransitivity; [apply (IH ltac:(intros x Hx; apply Hl; by right) _ (with_rules (ch_rules ch ++ [{| ru_v6 := b; ru_set := s |}]) ch))|].
    + done.
    + done.
    + simpl. by rewrite lookup_insert_eq.
    + unfold with_chain, with_chains. simpl. rewrite insert_insert_eq, <- app_assoc. done.
  - assert (Hat : clean (word "@" ++ s) = true) by (unfold clean in *; by rewrite forallb_app, Hcl).
    cbn [forallb fst snd]. rewrite table_clean, Hc, Hat. by destruct b.
Qed.

Lemma drop_rules_lines (c : bytes) : drop_rules e c = mjoin (rule_line c <$> owned e).
Proof. unfold drop_rules, sets_v4, sets_v6, owned. rewrite !fmap_cons, !fmap_nil. cbn [mjoin list_join fst snd]. unfold rule_line. by rewrite <- !app_assoc. Qed.

Definition drop_chain (c : bytes) (priority : Z) : Chain := {| ch_hook := c; ch_priority := word (fmt_int priority +:+ ";"); ch_rules := rules e |}.
Definition chain_fits (v : Ruleset) (c : bytes) (priority : Z) : Prop :=
  forall ch, rs_chains v !! (t, c) = Some ch -> ch_hook ch = c /\ ch_priority ch = word (fmt_int priority +:+ ";").

Lemma run_flush_chain (c rest : bytes) (v : Ruleset) (ch : Chain) : clean c = true -> rs_chains v !! (t, c) = Some ch ->
  nft_run (flush_chain e c ++ rest) v = nft_run rest (with_chain c (with_rules [] ch) v).
Proof using Hnames.
  intros Hc Hch. unfold flush_chain. rewrite nft_run_line; [|done|]; [|cbn [forallb]; by rewrite table_clean, Hc].
  simpl. unfold nft_flush. simpl. by rewrite Hch.
Qed.

Lemma run_chain (c rest : bytes) (priority : Z) (v : Ruleset) : clean c = true -> clean (word (fmt_int priority +:+ ";")) = true ->
  t ∈ rs_tables v -> sets_present v -> chain_fits v c priority ->
  nft_run (add_chain e c priority ++ flush_chain e c ++ drop_rules e c ++ rest) v = nft_run rest (with_chain c (drop_chain c priority) v).
Proof using Hnames.
  intros Hc Hp Ht Hsets Hfit. unfold add_chain. rewrite nft_run_line; [|done|]; [|cbn [forallb]; by rewrite table_clean, Hc, Hp].
  rewrite run_line_add.
  unfold nft_add. change (word_is "table" (word "chain")) with false. change (word_is "set" (word "chain")) with false.
  change (word_is "chain" (word "chain")) with true. cbn match. rewrite bool_decide_eq_true_2 by done. cbn [negb]. rewrite drop_rules_lines.
  destruct (rs_chains v !! (t, c)) as [ch|] eqn:Hch.
  - destruct (Hfit ch Hch) as [Hh Hpr]. rewrite Hh, Hpr, !bool_decide_eq_true_2 by done. cbn [andb mbind option_bind].
    rewrite (run_flush_chain _ _ _ _ Hc Hch), (run_add_rules c rest (owned e) (with_rules [] ch)); [|done..|simpl; by rewrite lookup_insert_eq].
    unfold with_chain, with_chains. simpl. rewrite insert_insert_eq. unfold drop_chain, with_rules. simpl. by rewrite Hh, Hpr.
  - cbn [mbind option_bind]. rewrite (run_flush_chain _ _ _ {| ch_hook := c; ch_priority := word (fmt_int priority +:+ ";"); ch_rules := [] |} Hc)
      by (simpl; by rewrite lookup_insert_eq).
    rewrite (run_add_rules c rest (owned e) {| ch_hook := c; ch_priority := word (fmt_int priority +:+ ";"); ch_rules := [] |});
      [|done..|simpl; by rewrite lookup_insert_eq].
    unfold with_chain, with_chains. simpl. by rewrite !insert_insert_eq.
Qed.

Lemma run_remove_chain (c rest : bytes) (v : Ruleset) : clean c = true -> is_Some (rs_chains v !! (t, c)) ->
  nft_run (flush_chain e c ++ delete_chain e c ++ rest) v = nft_run rest (with_chains (delete (t, c)) v).
Proof using Hnames.
  intros Hc [ch Hch]. rewrite (run_flush_chain _ _ _ _ Hc Hch). unfold delete_chain.
  rewrite nft_run_line; [|done|]; [|cbn [forallb]; by rewrite table_clean, Hc].
  simpl. rewrite lookup_insert_eq. simpl. unfold with_chains. simpl. by rewrite delete_insert_eq.
Qed.

(** What was read of the prerouting chain is the case. *)
Definition describes (st : PreroutingState) (v : Ruleset) : Prop :=
  match st with
  | Absent => rs_chains v !! (t, PREROUTING_CHAIN) = None
  | Matching => is_Some (rs_chains v !! (t, PREROUTING_CHAIN)) /\ chain_fits v PREROUTING_CHAIN PREROUTING_PRIORITY
  | Mismatched => is_Some (rs_chains v !! (t, PREROUTING_CHAIN))
  end.

Lemma describes_ext (st : PreroutingState) (v w : Ruleset) :
  rs_chains w !! (t, PREROUTING_CHAIN) = rs_chains v !! (t, PREROUTING_CHAIN) -> describes st v -> describes st w.
Proof. unfold describes, chain_fits. by intros ->. Qed.

Lemma setup_sets_lines : add_sets e "ipv4_addr;" (sets_v4 e) ++ add_sets e "ipv6_addr;" (sets_v6 e) = mjoin (set_line <$> owned e).
Proof. unfold add_sets, sets_v4, sets_v6, owned. rewrite !fmap_cons, !fmap_nil. cbn [mjoin list_join fst snd]. unfold set_line. by rewrite <- !app_assoc. Qed.

(** The prerouting part, once the input chain is there. *)
Lemma run_prerouting (st : PreroutingState) (v : Ruleset) : t ∈ rs_tables v -> sets_present v -> describes st v ->
  exists v', nft_run ((if match st with Absent => false | Matching => negb (prerouting_hook K e) | Mismatched => true end
                       then flush_chain e PREROUTING_CHAIN ++ delete_chain e PREROUTING_CHAIN else []) ++
                      (if prerouting_hook K e then add_chain e PREROUTING_CHAIN PREROUTING_PRIORITY ++ flush_chain e PREROUTING_CHAIN ++ drop_rules e PREROUTING_CHAIN else []))
                     v = Some v' /\ rs_tables v' = rs_tables v /\ rs_sets v' = rs_sets v /\
             rs_chains v' !! (t, INPUT_CHAIN) = rs_chains v !! (t, INPUT_CHAIN) /\
             (prerouting_hook K e = true -> rs_chains v' !! (t, PREROUTING_CHAIN) = Some (drop_chain PREROUTING_CHAIN PREROUTING_PRIORITY)).
Proof using Hnames.
  intros Ht Hsets Hst.
  assert (Hclean : clean PREROUTING_CHAIN = true /\ clean (word (fmt_int PREROUTING_PRIORITY +:+ ";")) = true) by done.
  assert (Hne : (t, PREROUTING_CHAIN) <> (t, INPUT_CHAIN)) by (intros [= ?]).
  assert (Hadd : forall w, rs_tables w = rs_tables v -> rs_sets w = rs_sets v -> rs_chains w !! (t, INPUT_CHAIN) = rs_chains v !! (t, INPUT_CHAIN) ->
    chain_fits w PREROUTING_CHAIN PREROUTING_PRIORITY ->
    exists v', nft_run (add_chain e PREROUTING_CHAIN PREROUTING_PRIORITY ++ flush_chain e PREROUTING_CHAIN ++ drop_rules e PREROUTING_CHAIN) w = Some v' /\
      rs_tables v' = rs_tables v /\ rs_sets v' = rs_sets v /\ rs_chains v' !! (t, INPUT_CHAIN) = rs_chains v !! (t, INPUT_CHAIN) /\
      (true = true -> rs_chains v' !! (t, PREROUTING_CHAIN) = Some (drop_chain PREROUTING_CHAIN PREROUTING_PRIORITY))).
  { intros w Hw1 Hw2 Hw3 Hfit. rewrite <- (app_nil_r (drop_rules _ _)), run_chain; [|apply Hclean|apply Hclean|by rewrite Hw1|intros s b; rewrite Hw2; apply Hsets|done].
    eexists. split; [apply nft_run_nil|]. simpl. rewrite lookup_insert_eq, lookup_insert_ne by done. done. }
  assert (Hdel : is_Some (rs_chains v !! (t, PREROUTING_CHAIN)) ->
    exists v', nft_run ((flush_chain e PREROUTING_CHAIN ++ delete_chain e PREROUTING_CHAIN) ++
      (if prerouting_hook K e then add_chain e PREROUTING_CHAIN PREROUTING_PRIORITY ++ flush_chain e PREROUTING_CHAIN ++ drop_rules e PREROUTING_CHAIN else [])) v = Some v' /\
      rs_tables v' = rs_tables v /\ rs_sets v' = rs_sets v /\ rs_chains v' !! (t, INPUT_CHAIN) = rs_chains v !! (t, INPUT_CHAIN) /\
      (prerouting_hook K e = true -> rs_chains v' !! (t, PREROUTING_CHAIN) = Some (drop_chain PREROUTING_CHAIN PREROUTING_PRIORITY))).
  { intros Hch. rewrite <- app_assoc, run_remove_chain by (done || apply Hclean). destruct (prerouting_hook K e).
    - apply Hadd; simpl; [done|done|by rewrite lookup_delete_ne|]. intros ch. simpl. by rewrite lookup_delete_eq.
    - eexists. split; [apply nft_run_nil|]. simpl. rewrite lookup_delete_ne by done. done. }
  destruct st; simpl in Hst.
  - destruct (prerouting_hook K e); [|by exists v]. apply Hadd; try done. intros ch Hch. congruence.
  - destruct Hst as [Hch Hfit]. destruct (prerouting_hook K e); [by apply Hadd|by apply Hdel].
  - by apply Hdel.
Qed.

Lemma setup_effect (st : PreroutingState) (v : Ruleset) : compatible v -> chain_fits v INPUT_CHAIN (-10) -> describes st v ->
  exists v', nft_run (build_setup_batch e st) v = Some v' /\ ready e v' /\ forall n, listed e v' n <-> listed e v n.
Proof using Hnames Hdistinct.
  intros Hv Hin Hst. unfold build_setup_batch. rewrite run_add_table. set (v1 := {| rs_tables := _ |}).
  rewrite (app_assoc (add_sets _ _ _)), setup_sets_lines. destruct (run_add_sets (owned e)
    (add_chain e INPUT_CHAIN (-10) ++ flush_chain e INPUT_CHAIN ++ drop_rules e INPUT_CHAIN ++
     (if match st with Absent => false | Matching => negb (prerouting_hook K e) | Mismatched => true end
      then flush_chain e PREROUTING_CHAIN ++ delete_chain e PREROUTING_CHAIN else []) ++
     (if prerouting_hook K e then add_chain e PREROUTING_CHAIN PREROUTING_PRIORITY ++ flush_chain e PREROUTING_CHAIN ++ drop_rules e PREROUTING_CHAIN else []))
    v1) as (Hrun & Ht & Hcomp & Hchains & Hlisted & Hsome); [done|set_solver +|done|].
  rewrite Hrun. clear Hrun. change (rs_chains v1) with (rs_chains v) in Hchains.
  assert (Hlisted' : forall n, listed e (foldl ensure_set v1 (owned e)) n <-> listed e v n) by (intros n; by rewrite Hlisted).
  revert Ht Hcomp Hchains Hlisted' Hsome. generalize (foldl ensure_set v1 (owned e)). intros v2 Ht Hcomp Hchains Hlisted' Hsome.
  assert (Hsets : sets_present v2).
  { intros s b Hsb. destruct (Hsome s) as [[b' els] Hset]; [left; apply list_elem_of_fmap; by exists (s, b)|].
    exists els. destruct (Hcomp s b _ Hsb Hset) as [E _]. simpl in E. by subst. }
  rewrite run_chain; [|done|done|done|done|intros ch; rewrite Hchains; apply Hin].
  destruct (run_prerouting st (with_chain INPUT_CHAIN (drop_chain INPUT_CHAIN (-10)) v2)) as (v' & Hrun & Ht' & Hs' & Hc' & Hp'); [done|done| |].
  { eapply describes_ext; [|exact Hst]. simpl. rewrite Hchains. by rewrite lookup_insert_ne by (intros [= ?]). }
  exists v'. split; [exact Hrun|]. split.
  - split; [by rewrite Ht'| |].
    + intros s b Hsb. rewrite Hs'. simpl. destruct (Hsets s b Hsb) as [els Hels]. exists els. split; [done|]. by apply (Hcomp s b _ Hsb Hels).
    + intros c [->|[-> Hhook]]; [rewrite Hc'; simpl; rewrite lookup_insert_eq|rewrite (Hp' Hhook)]; eexists; by split_and!.
  - intros n. transitivity (listed e v2 n); [unfold listed; by rewrite Hs'|]. by rewrite Hlisted'.
Qed.
End effects.

(** ** Listings *)
(** [nft -j list set]: some metadata, then the set with its elements, hosts as
    strings and prefixes as objects; a set without elements has no [elem]. *)
Section printed.
Context `{IpNetOps}.
Definition element_json (n : IpNet) : Value :=
  if (prefix_len n =? net_width n)%nat then VString (as_bytes (ip_to_string (net_addr n)))
  else VObject [(as_bytes "prefix", VObject [(as_bytes "addr", VString (as_bytes (ip_to_string (net_addr n))));
                                             (as_bytes "len", VNumber (as_bytes (fmt_uint (Z.of_nat (prefix_len n)))))])].
Definition set_listing (els : list IpNet) (json : Value) : Prop :=
  exists meta item set, json = VObject [(as_bytes "nftables", VArray [meta; item])] /\ get "set" meta = None /\ get "set" item = Some set /\
    get "elem" set = match els with [] => None | _ => Some (VArray (element_json <$> els)) end.
End printed.

Lemma parse_prefix_len (p : nat) : (p <= 128)%nat -> as_u64 (VNumber (as_bytes (fmt_uint (Z.of_nat p)))) = Some (Z.of_nat p).
Proof.
  intros Hp. assert (Hall : forallb (fun p => bool_decide (as_u64 (VNumber (as_bytes (fmt_uint (Z.of_nat p)))) = Some (Z.of_nat p))) (seq 0 129) = true)
    by (vm_compute; reflexivity).
  rewrite forallb_forall in Hall. by apply (bool_decide_eq_true_1 _), Hall, in_seq; lia.
Qed.

Section reading_back.
Context `{IpNetOps} `{AddrText} {print : AddrPrintLaws}.

Lemma parse_element_json (n : IpNet) : wf_net n -> parse_nft_element (element_json n) = Some n.
Proof using print.
  intros Hn. unfold element_json. destruct (Nat.eqb_spec (prefix_len n) (net_width n)) as [E|E]; unfold parse_nft_element; simpl.
  - rewrite parse_ip_print by apply Hn. destruct n; simpl in *; by subst.
  - pose proof Hn as [Hip Hp]. assert (Hw : (net_width n <= 128)%nat) by (destruct n; simpl; lia).
    pose proof (parse_prefix_len (prefix_len n) ltac:(lia)) as Hu. simpl in Hu. rewrite Hu. simpl. rewrite parse_ip_print by done. simpl.
    rewrite (wrap_small 8) by (unfold in_width; lia). rewrite <- net_print by done. by apply parse_net_print.
Qed.

Lemma parse_set_listing (els : list IpNet) (json : Value) : Forall wf_net els -> set_listing els json -> parse_nft_set_elements (Some json) = els.
Proof using print.
  intros Hwf (meta & item & set & -> & Hm & Hi & He).
  assert (Hom : omap parse_nft_element (element_json <$> els) = els).
  { clear He. induction Hwf as [|x l Hx _ IH]; [done|]. rewrite fmap_cons. simpl. rewrite parse_element_json by done. f_equal. exact IH. }
  unfold parse_nft_set_elements. simpl. unfold set_elements. rewrite Hm, Hi. simpl. rewrite He.
  rewrite app_nil_r. by destruct els as [|n els].
Qed.
End reading_back.

(** ** The enforcer keeps its promises *)
(** What the manual says: a batch is a transaction, so that the ruleset is as
    before or as if every command had been carried out; a program killed at the
    time limit may have finished. Listings change nothing. *)
Class NftLaws (K : Type) `{Nft K} `{AddrText} `{IpNetOps} : Type := {
  nft_view : K -> Ruleset;
  nft_apply_law (text : bytes) (k : K) (v : Ruleset) : nft_run text (nft_view k) = Some v ->
    let '(k', r) := nft_apply text k in if is_ok r then nft_view k' = v else nft_view k' = nft_view k \/ nft_view k' = v;
  nft_list_set_law (t s : bytes) (k : K) :
    let '(k', r) := nft_list_set t s k in
    nft_view k' = nft_view k /\ forall json, r = Ok json -> exists set v, rs_sets (nft_view k) !! (t, s) = Some set /\ json = Some v /\ set_listing set.2 v;
  nft_list_chains_law (k : K) : nft_view (nft_list_chains k).1 = nft_view k;
}.

Section promises.
Context {K : Type} `{IpNetOps} {laws : IpNetLaws} `{IpNetOrd} {ord_laws : IpNetOrdLaws} `{AddrText} {print : AddrPrintLaws}
  `{Nft K} {nft_laws : NftLaws K}.
Abbreviation E := (NftablesEnforcer K).
Abbreviation view e := (nft_view (kernel K e)).

Definition names_ok (e : E) : Prop := forallb valid_name (table_name K e :: all_set_names e) = true /\ NoDup (owned e).*1.
Definition nft_ok (e : E) : Prop :=
  names_ok e /\ ready e (view e) /\ forall n, n ∈ desired_bans K e -> wf_net n /\ canonical n.

Lemma nftables_new_names (table set : bytes) (hook : bool) (k : K) :
  forallb valid_name (table :: all_set_names (nftables_new table set hook k)) = true -> names_ok (nftables_new table set hook k).
Proof.
  intros Hv. split; [done|]. unfold owned. simpl. rewrite <- !(app_assoc set).
  rewrite <- (app_nil_r set) at 1.
  repeat (apply NoDup_cons; split; [rewrite ?not_elem_of_cons; repeat split; try apply not_elem_of_nil; intros E%app_inv_head; done|]).
  constructor.
Qed.

Lemma btree_iter_elem (s : gset IpNet) (n : IpNet) : n ∈ btree_iter s <-> n ∈ s.
Proof. unfold btree_iter. rewrite sort_nets_perm. apply elem_of_elements. Qed.

Lemma canonical_trunc (n : IpNet) : wf_net n -> canonical n -> net_trunc n = n.
Proof using laws. intros Hw Hc. by rewrite net_trunc_law. Qed.

Lemma ready_with_kernel (k : K) (e : E) (v : Ruleset) : ready e v -> ready (with_kernel k e) v.
Proof. intros [Ht Hs Hc]. split; [exact Ht|exact Hs|exact Hc]. Qed.
Lemma ready_with_desired (d : gset IpNet) (i : bool) (e : E) (v : Ruleset) : ready e v -> ready (with_desired d i e) v.
Proof. intros [Ht Hs Hc]. split; [exact Ht|exact Hs|exact Hc]. Qed.

(** The three outcomes of a synchronisation. *)
Lemma sync_outcome (banned : list IpNet) (e : E) : nft_ok e -> Forall wf_net banned ->
  let '(e', r) := nft_sync_full banned e in
  let new := fun n => listed e (view e') n <-> n ∈ dedup_overlapping (btree_iter (list_to_set (net_trunc <$> banned))) in
  nft_ok e' /\ (forall v n, listed e' v n <-> listed e v n) /\
  if is_ok r then desired_bans K e' = list_to_set (net_trunc <$> banned) /\ forall n, new n
  else desired_bans K e' = desired_bans K e /\ (view e' = view e \/ forall n, new n).
Proof using laws ord_laws print nft_laws.
  intros ((Hn & Hd) & Hr & Hdes) Hwf. unfold nft_sync_full, execute_batch.
  set (desired := list_to_set (net_trunc <$> banned) : gset IpNet).
  assert (Hdesired : forall n, n ∈ desired -> wf_net n /\ canonical n).
  { intros n Hin. apply elem_of_list_to_set, list_elem_of_fmap in Hin as (m & -> & Hm). rewrite Forall_forall in Hwf.
    rewrite net_trunc_law by auto. split; [by apply trunc_ref_wf, Hwf|apply trunc_ref_canonical]. }
  destruct (sync_effect e Hn Hd (btree_iter desired) (view e) Hr) as (v & Hrun & Hrv & Hlisted).
  { apply Forall_forall. intros n Hin%btree_iter_elem. by apply Hdesired. }
  pose proof (nft_apply_law _ _ _ Hrun) as Hlaw. destruct (nft_apply _ _) as [k [[]|msg]]; simpl in *; subst.
  - split_and!; try done. split; [by split|]. split; [|done]. by apply ready_with_desired, ready_with_kernel.
  - split; [split; [by split|]; split; [|done]; apply ready_with_kernel; simpl; destruct Hlaw as [-> | ->]; done|]. split; [done|]. split; [done|].
    destruct Hlaw as [Hl|Hl]; [by left|right]. intros n. by rewrite Hl.
Qed.

Lemma covered_desired (banned : list IpNet) (a : IpAddr) : Forall wf_net banned -> wf_ip a ->
  covered (dedup_overlapping (btree_iter (list_to_set (net_trunc <$> banned)))) a <-> covered banned a.
Proof using laws ord_laws.
  intros Hwf Ha. rewrite Forall_forall in Hwf.
  assert (Hel : forall n, n ∈ btree_iter (list_to_set (net_trunc <$> banned)) <-> exists m, n = trunc_ref m /\ m ∈ banned).
  { intros n. rewrite btree_iter_elem, elem_of_list_to_set, list_elem_of_fmap. split; intros (m & -> & Hm); exists m; (split; [|done]);
      rewrite net_trunc_law by auto; done. }
  destruct (dedup_spec (btree_iter (list_to_set (net_trunc <$> banned)))) as (_ & _ & Hc).
  { apply Forall_forall. intros n (m & -> & Hm)%Hel. apply trunc_ref_wf, Hwf, Hm. }
  rewrite Hc by done. unfold covered. setoid_rewrite Hel. split.
  - intros (n & (m & -> & Hm) & Hin). exists m. split; [done|]. by apply trunc_ref_in_net.
  - intros (m & Hm & Hin). exists (trunc_ref m). split; [by exists m|]. by apply trunc_ref_in_net.
Qed.

Lemma desired_origin (banned : list IpNet) (n : IpNet) : Forall wf_net banned ->
  n ∈ dedup_overlapping (btree_iter (list_to_set (net_trunc <$> banned))) \/ n ∈ (list_to_set (net_trunc <$> banned) : gset IpNet) ->
  exists m, m ∈ banned /\ n = trunc_ref m.
Proof using laws ord_laws.
  intros Hwf Hn. rewrite Forall_forall in Hwf.
  assert (Hel : forall n, n ∈ (list_to_set (net_trunc <$> banned) : gset IpNet) -> exists m, m ∈ banned /\ n = trunc_ref m).
  { intros k Hk. apply elem_of_list_to_set, list_elem_of_fmap in Hk as (m & -> & Hm). exists m. split; [done|]. apply net_trunc_law. auto. }
  destruct Hn as [Hn|Hn]; [|by apply Hel].
  destruct (dedup_spec (btree_iter (list_to_set (net_trunc <$> banned)))) as (Hsub & _ & _).
  { apply Forall_forall. intros k (m & Hm & ->)%btree_iter_elem%Hel. apply trunc_ref_wf, Hwf, Hm. }
  apply Hsub, list_elem_of_fmap in Hn as (k & -> & (m & Hm & ->)%btree_iter_elem%Hel). exists m. split; [done|]. apply trunc_ref_canonical.
Qed.

Definition nft_held (e : E) (n : IpNet) : Prop := n ∈ desired_bans K e \/ listed e (view e) n.
Definition nft_blocks (e : E) (a : IpAddr) : Prop := dropped e (view e) INPUT_CHAIN a.

Lemma nft_blocks_listed (e : E) (a : IpAddr) : nft_ok e -> nft_blocks e a <-> exists n, listed e (view e) n /\ in_net n a.
Proof. intros (_ & Hr & _). apply dropped_listed; [done|by left]. Qed.

(** After a synchronisation: what is held comes from the list, or, if it
    failed, was held before; after a success exactly the list is blocked. *)
Lemma nft_sync_spec (banned : list IpNet) (e : E) : nft_ok e -> Forall wf_net banned ->
  let '(e', r) := nft_sync_full banned e in
  nft_ok e' /\ (forall m, nft_held e' m -> nft_held e m \/ exists n, n ∈ banned /\ m = trunc_ref n) /\
  (is_ok r = true -> (forall m, nft_held e' m -> exists n, n ∈ banned /\ m = trunc_ref n) /\ forall a, wf_ip a -> nft_blocks e' a <-> covered banned a).
Proof using laws ord_laws print nft_laws.
  intros He Hwf. pose proof (sync_outcome banned e He Hwf) as Ho. destruct (nft_sync_full banned e) as [e' r]. cbv zeta in Ho.
  destruct Ho as (He' & Hl & Ho). assert (Horigin := desired_origin banned).
  assert (Hnew : is_ok r = true -> forall m, nft_held e' m -> exists n, n ∈ banned /\ m = trunc_ref n).
  { intros Hok. rewrite Hok in Ho. destruct Ho as [Hd Hnew]. intros m [Hm|Hm]; apply Horigin; try done; [right; by rewrite <- Hd|left].
    by apply Hnew, Hl. }
  split_and!; [done| |].
  - intros m Hm. destruct (is_ok r) eqn:Er; [right; by apply Hnew|]. destruct Ho as [Hd Hv]. destruct Hm as [Hm|Hm]; [left; left; by rewrite <- Hd|].
    apply Hl in Hm. destruct Hv as [Hv|Hv]; [left; right; by rewrite <- Hv|]. right. apply Horigin; [done|]. left. by apply Hv.
  - intros Hok. split; [by apply Hnew|]. intros a Ha. rewrite nft_blocks_listed by done. rewrite Hok in Ho. destruct Ho as [_ Hv].
    rewrite <- covered_desired by done. unfold covered. by setoid_rewrite <- Hv; setoid_rewrite Hl.
Qed.

Lemma btree_iter_wf (s : gset IpNet) : (forall n, n ∈ s -> wf_net n) -> Forall wf_net (btree_iter s).
Proof. intros Hs. apply Forall_forall. intros n Hn%btree_iter_elem. auto. Qed.

#[export, refine] Instance nftables_laws : EnforcerLaws E := {| enf_ok := nft_ok; held := nft_held; blocks := nft_blocks |}.
Proof using laws ord_laws print nft_laws.
  - intros e m (_ & Hr & Hd) [Hm|(s & set & Hs & Hset & Hn)]; [by apply Hd|].
    apply list_elem_of_fmap in Hs as ([s' b] & -> & Hs). destruct (ready_sets e _ Hr s' b Hs) as (els & Hels & Hw).
    simpl in *. assert (set = (b, els)) as -> by congruence. rewrite Forall_forall in Hw. by apply Hw.
  - intros e a He Hb. apply nft_blocks_listed in Hb as (n & Hn & Hin); [|done]. exists n. split; [by right|done].
  - intros n e He Hn. simpl. unfold nft_apply_ban. set (l := btree_iter _).
    assert (Hwf : Forall wf_net l).
    { apply btree_iter_wf. intros m [->%elem_of_singleton|Hm]%elem_of_union; [rewrite net_trunc_law by done; by apply trunc_ref_wf|by apply He]. }
    pose proof (nft_sync_spec l e He Hwf) as Hs. destruct (nft_sync_full l e) as [e' r]. destruct Hs as (He' & Hh & Hok). split_and!; [done| |].
    + intros m [Hm|(k & Hk & ->)]%Hh; [by left|]. apply btree_iter_elem, elem_of_union in Hk as [->%elem_of_singleton|Hk].
      * right. rewrite net_trunc_law by done. unfold same_net. by rewrite !trunc_ref_canonical.
      * left. left. destruct He as (_ & _ & Hd). destruct (Hd k Hk) as [_ Hc]. by rewrite Hc.
    + intros Hr a Ha Hin. apply (Hok Hr); [done|]. exists (net_trunc n). split; [apply btree_iter_elem; set_solver +|].
      rewrite net_trunc_law by done. by apply trunc_ref_in_net.
  - intros n e He Hn. simpl. unfold nft_remove_ban. set (l := btree_iter _).
    assert (Hl : forall m, m ∈ l <-> m ∈ desired_bans K e /\ m <> net_trunc n) by (intros m; unfold l; rewrite btree_iter_elem; set_solver +).
    assert (Hd := proj2 (proj2 He)). assert (Hwf : Forall wf_net l) by (apply Forall_forall; intros m [Hm _]%Hl; by apply Hd).
    pose proof (nft_sync_spec l e He Hwf) as Hs. destruct (nft_sync_full l e) as [e' r]. destruct Hs as (He' & Hh & Hok). split_and!; [done| |].
    + intros m [Hm|(k & [Hk _]%Hl & ->)]%Hh; [done|]. left. destruct (Hd k Hk) as [_ Hc]. by rewrite Hc.
    + intros Hr Hc Hm. apply (Hok Hr) in Hm as (k & [Hk Hne]%Hl & E). apply Hne. destruct (Hd k Hk) as [Hwk Hck]. rewrite net_trunc_law, Hc by done.
      by rewrite E, Hck.
  - intros l e He Hl. pose proof (nft_sync_spec l e He Hl) as Hs. simpl. destruct (nft_sync_full l e) as [e' r]. destruct Hs as (He' & Hh & Hok).
    split_and!; [done| |].
    + intros m [Hm|(k & Hk & ->)]%Hh; [by left|right]. exists k. split; [done|apply same_net_trunc].
    + intros Hr. destruct (Hok Hr) as [H1' H2']. split; [|done]. intros m (k & Hk & ->)%H1'. exists k. split; [done|apply same_net_trunc].
Defined.

(** *** Reading the sets *)
Lemma read_sets_spec (sets : list bytes) (acc : list IpNet) (e : E) : ready e (view e) -> sets ⊆ (owned e).*1 ->
  let '(e', r) := read_sets sets acc e in
  view e' = view e /\ (exists k, e' = with_kernel k e) /\
  forall found, r = Ok found -> forall n, n ∈ found <-> n ∈ acc \/ exists s set, s ∈ sets /\ rs_sets (view e) !! (table_name K e, s) = Some set /\ n ∈ set.2.
Proof using print nft_laws.
  revert acc e. induction sets as [|s sets IH]; intros acc e Hr Hsub; simpl.
  { split_and!; [done|exists (kernel K e); by destruct e|]. intros found [= <-] n. split; [by left|]. intros [?|(s & set & []%not_elem_of_nil & _)]; done. }
  pose proof (nft_list_set_law (table_name K e) s (kernel K e)) as Hlaw. destruct (nft_list_set _ _ _) as [k [json|msg]]; destruct Hlaw as [Hk Hjson].
  2:{ split_and!; [done|by exists k|done]. }
  destruct (Hjson json eq_refl) as (set & jv & Hset & -> & Hlist).
  assert (Hs : s ∈ (owned e).*1) by (apply Hsub; by left). apply list_elem_of_fmap in Hs as ([s' b] & -> & Hs). simpl in *.
  destruct (ready_sets e _ Hr s' b Hs) as (els & Hels & Hw). assert (set = (b, els)) as -> by congruence. simpl in *.
  rewrite (parse_set_listing els jv) by (done || (eapply Forall_impl; [exact Hw|]; by intros ? [? _])).
  specialize (IH (acc ++ els) (with_kernel k e)). destruct (read_sets sets (acc ++ els) (with_kernel k e)) as [e' r].
  destruct IH as (Hv & (k' & ->) & Hf); [apply ready_with_kernel; simpl; by rewrite Hk|intros x Hx; apply Hsub; by right|]. simpl in *.
  rewrite Hk in *. split_and!; [done|by exists k'|]. intros found Hfound n. rewrite (Hf found Hfound n), elem_of_app. split.
  - intros [[?|?]|(x & set & Hx & ?)]; [by left|right; exists s', (b, els); split_and!; [by left|done|done]|right; exists x, set; split; [by right|done]].
  - intros [?|(x & set & [->|Hx]%elem_of_cons & Hset' & Hn)]; [left; by left|left; right; assert (set = (b, els)) as -> by congruence; done|right; by exists x, set].
Qed.

Lemma dedup_adjacent_elem (l : list IpNet) (n : IpNet) : n ∈ dedup_adjacent l <-> n ∈ l.
Proof.
  induction l as [|x [|y l] IH]; [done|done|]. cbn [dedup_adjacent]. destruct (bool_decide_reflect (x = y)) as [->|Hne]; rewrite ?elem_of_cons, ?IH; rewrite ?elem_of_cons; tauto.
Qed.

Lemma current_bans_spec (e : E) : ready e (view e) ->
  let '(e', r) := nft_current_bans e in
  view e' = view e /\ (exists k, e' = with_kernel k e) /\ forall found, r = Ok found -> forall n, n ∈ found <-> listed e (view e) n.
Proof using print nft_laws.
  intros Hr. unfold nft_current_bans. pose proof (read_sets_spec (all_set_names e) [] e Hr) as Hs.
  destruct (read_sets (all_set_names e) [] e) as [e' r]. destruct Hs as (Hv & Hk & Hf); [intros s Hs; by apply owned_names|].
  split_and!; [done|done|]. intros found Hfound n. destruct r as [l|]; [|done]. injection Hfound as <-.
  rewrite dedup_adjacent_elem, sort_nets_perm, (Hf l eq_refl n). unfold listed. split.
  - intros [[]%not_elem_of_nil|(s & set & Hs & ?)]. exists s, set. split; [by apply owned_names|done].
  - intros (s & set & Hs & ?). right. exists s, set. split; [by apply owned_names|done].
Qed.

(** *** Theorems *)
Definition hooked (e : E) (c : bytes) : Prop := c = INPUT_CHAIN \/ c = PREROUTING_CHAIN /\ prerouting_hook K e = true.

(** C15: A synchronisation is all or nothing on every hook: whatever becomes of the
    [nft] process, each packet is then judged by the complete new list or by the
    complete old one, the same for input and prerouting; and when the call
    reports success, it is the new list. Overlaps among the networks are
    resolved without losing or adding an address. *)
Theorem nft_transaction (e : E) (banned : list IpNet) (He : nft_ok e) (Hwf : Forall wf_net banned) :
  let '(e', r) := nft_sync_full banned e in
  let new := forall c a, hooked e c -> wf_ip a -> dropped e' (view e') c a <-> covered banned a in
  let old := forall c a, hooked e c -> dropped e' (view e') c a <-> dropped e (view e) c a in
  nft_ok e' /\ (if is_ok r then new else old \/ new).
Proof using laws ord_laws print nft_laws.
  pose proof (sync_outcome banned e He Hwf) as Ho. assert (Hh : prerouting_hook K (nft_sync_full banned e).1 = prerouting_hook K e)
    by (unfold nft_sync_full, execute_batch; destruct (nft_apply _ _) as [k [[]|x]]; done).
  destruct (nft_sync_full banned e) as [e' r]. destruct Ho as (He' & Hl & Ho). simpl in Hh. cbv zeta in *. split; [done|].
  assert (Hdrop : forall c a, hooked e c -> dropped e' (view e') c a <-> exists n, listed e (view e') n /\ in_net n a).
  { intros c a Hc. rewrite dropped_listed; [|apply He'|unfold hooked in Hc; by rewrite Hh]. by setoid_rewrite Hl. }
  assert (Hnew : (forall n, listed e (view e') n <-> n ∈ dedup_overlapping (btree_iter (list_to_set (net_trunc <$> banned)))) ->
    forall c a, hooked e c -> wf_ip a -> dropped e' (view e') c a <-> covered banned a).
  { intros Hn c a Hc Ha. rewrite Hdrop by done. rewrite <- covered_desired by done. unfold covered. by setoid_rewrite Hn. }
  destruct (is_ok r); [apply Hnew, Ho|]. destruct Ho as [_ [Hv|Hn]]; [left|right; by apply Hnew].
  intros c a Hc. rewrite Hdrop by done. rewrite Hv. symmetry. apply dropped_listed; [apply He|exact Hc].
Qed.

(** After [setup] on a ruleset of an earlier run, or an empty one: the drop
    rules are on the hooks, exactly the addresses of the networks that were in
    the sets are dropped, and these networks are what later changes start from. *)
Lemma nft_setup_spec (table set : bytes) (hook : bool) (k : K) (e' : E)
  (Hok : nft_setup (nftables_new table set hook k) = (e', Ok tt))
  (Hv : compatible (nftables_new table set hook k) (nft_view k))
  (Hin : chain_fits (nftables_new table set hook k) (nft_view k) INPUT_CHAIN (-10))
  (Hst : describes (nftables_new table set hook k)
           (match (nft_list_chains k).2 with Ok json => parse_prerouting_state json table | Err _ => Absent end) (nft_view k)) :
  let e := nftables_new table set hook k in
  nft_ok e' /\ (forall c a, hooked e c -> dropped e' (view e') c a <-> exists n, listed e (nft_view k) n /\ in_net n a) /\
  (forall n, n ∈ desired_bans K e' <-> listed e (nft_view k) n) /\ prerouting_hook K e' = hook.
Proof using laws ord_laws print nft_laws.
  unfold nft_setup in Hok. set (e := nftables_new table set hook k) in *. cbv zeta.
  destruct (forallb valid_name _) eqn:Hvalid; [|done]. cbn [negb] in Hok.
  destruct (nftables_new_names table set hook k Hvalid) as [_ Hd]. fold e in Hd.
  pose proof (nft_list_chains_law (kernel K e)) as Hlist. change (kernel K e) with k in *. destruct (nft_list_chains k) as [k1 res]. simpl in Hlist, Hst.
  set (st := match res with Ok _ => _ | Err _ => _ end) in *. unfold execute_batch in Hok.
  destruct (setup_effect e Hvalid Hd st (nft_view k) Hv Hin Hst) as (v & Hrun & Hready & Hlisted). rewrite <- Hlist in Hrun.
  change (build_setup_batch (with_kernel k1 e) st) with (build_setup_batch e st) in Hok. change (kernel K (with_kernel k1 e)) with k1 in Hok.
  change (table_name K e) with table in *. fold st in Hok.
  pose proof (nft_apply_law _ _ _ Hrun) as Happly. destruct (nft_apply (build_setup_batch e st) k1) as [k2 [u|msg]]; [|done]. simpl in Happly.
  cbv beta iota in Hok. change (initialized K (with_kernel k2 (with_kernel k1 e))) with false in Hok. cbv beta iota in Hok.
  set (e2 := with_kernel k2 (with_kernel k1 e)) in *.
  assert (Hr2 : ready e2 (view e2)) by (apply ready_with_kernel, ready_with_kernel; simpl; by rewrite Happly).
  pose proof (current_bans_spec e2 Hr2) as Hcur. destruct (nft_current_bans e2) as [e3 [found|x]]; [|done]. injection Hok as <-.
  destruct Hcur as (Hv3 & (k3 & ->) & Hf). specialize (Hf found eq_refl). change (view e2) with (nft_view k2) in *. rewrite Happly in *. simpl in Hv3.
  assert (Hdes : forall n, n ∈ (list_to_set found : gset IpNet) <-> listed e (nft_view k) n).
  { intros n. rewrite elem_of_list_to_set, Hf. apply Hlisted. }
  assert (Hr3 : ready (with_desired (list_to_set found) true (with_kernel k3 e2)) v) by (by apply ready_with_desired, ready_with_kernel).
  split_and!; [|intros c a Hc|exact Hdes|done].
  - split; [by split|]. simpl. split; [by rewrite Hv3|]. intros n Hn. apply Hdes in Hn as (s & els & Hs & Hset & Hn).
    apply list_elem_of_fmap in Hs as ([s' b] & -> & Hs). destruct (Hv s' b els Hs Hset) as [_ Hw]. rewrite Forall_forall in Hw. by apply Hw.
  - simpl. rewrite Hv3. rewrite dropped_listed; [|exact Hr3|exact Hc]. by setoid_rewrite <- Hlisted.
Qed.

(** *** The abstract firewall: a set of networks *)
Inductive nft_op : Type := OApply (n : IpNet) | ORemove (n : IpNet) | OSync (l : list IpNet).
Definition wf_op (o : nft_op) : Prop := match o with OApply n | ORemove n => wf_net n | OSync l => Forall wf_net l end.
Definition nft_do (o : nft_op) (e : E) : E * hresult unit :=
  match o with OApply n => apply_ban n e | ORemove n => unapply_ban n e | OSync l => sync_full l e end.
Definition spec_do (o : nft_op) (bans : gset IpNet) : gset IpNet :=
  match o with
  | OApply n => {[ trunc_ref n ]} ∪ bans
  | ORemove n => bans ∖ {[ trunc_ref n ]}
  | OSync l => list_to_set (trunc_ref <$> l)
  end.
(** Only an operation that reports success counts. *)
Definition nft_step (st : E * gset IpNet * bool) (o : nft_op) : E * gset IpNet * bool :=
  let '(e, bans, _) := st in let '(e', r) := nft_do o e in (e', if is_ok r then spec_do o bans else bans, is_ok r).

Definition implements (e : E) (bans : gset IpNet) (exact : bool) : Prop :=
  nft_ok e /\ desired_bans K e = bans /\
  (exact = true -> forall c a, hooked e c -> wf_ip a -> dropped e (view e) c a <-> exists n, n ∈ bans /\ in_net n a).

Lemma list_to_set_trunc (l : list IpNet) : Forall wf_net l -> (list_to_set (net_trunc <$> l) : gset IpNet) = list_to_set (trunc_ref <$> l).
Proof using laws.
  intros Hl. f_equal. apply list_fmap_ext. intros i n Hn. apply net_trunc_law. by eapply Forall_lookup_1.
Qed.
Lemma trunc_btree (bans : gset IpNet) : (forall n, n ∈ bans -> wf_net n /\ canonical n) ->
  (list_to_set (trunc_ref <$> btree_iter bans) : gset IpNet) = bans.
Proof.
  intros Hb. apply set_eq. intros n. rewrite elem_of_list_to_set, list_elem_of_fmap. split.
  - intros (m & -> & Hm%btree_iter_elem). by rewrite (proj2 (Hb m Hm)).
  - intros Hn. exists n. split; [by rewrite (proj2 (Hb n Hn))|by apply btree_iter_elem].
Qed.

Lemma sync_implements (banned : list IpNet) (bans : gset IpNet) (e : E) (ok : bool) : implements e bans ok -> Forall wf_net banned ->
  let '(e', r) := nft_sync_full banned e in
  implements e' (if is_ok r then list_to_set (trunc_ref <$> banned) else bans) (is_ok r) /\ prerouting_hook K e' = prerouting_hook K e.
Proof using laws ord_laws print nft_laws.
  intros (He & Hd & _) Hwf. pose proof (sync_outcome banned e He Hwf) as Ho.
  assert (Hh : prerouting_hook K (nft_sync_full banned e).1 = prerouting_hook K e)
    by (unfold nft_sync_full, execute_batch; destruct (nft_apply _ _) as [k [[]|x]]; done).
  destruct (nft_sync_full banned e) as [e' r]. destruct Ho as (He' & Hl & Ho). simpl in Hh. cbv zeta in *.
  split; [|done]. split; [done|]. destruct (is_ok r); [|by split; [destruct Ho; congruence|]]. destruct Ho as [Hd' Hnew].
  rewrite list_to_set_trunc in Hd' by done. split; [done|]. intros _ c a Hc Ha.
  rewrite dropped_listed; [|apply He'|exact Hc]. setoid_rewrite Hl. setoid_rewrite Hnew. fold (covered (dedup_overlapping (btree_iter (list_to_set (net_trunc <$> banned)))) a).
  rewrite covered_desired by done. unfold covered. setoid_rewrite elem_of_list_to_set. setoid_rewrite list_elem_of_fmap. split.
  - intros (n & Hn & Hin). exists (trunc_ref n). split; [by exists n|]. by apply trunc_ref_in_net.
  - intros (n & (m & -> & Hm) & Hin). exists m. split; [done|]. by apply trunc_ref_in_net.
Qed.

Lemma step_implements (o : nft_op) (e : E) (bans : gset IpNet) (ok : bool) : wf_op o -> implements e bans ok ->
  let '(e', bans', ok') := nft_step (e, bans, ok) o in implements e' bans' ok' /\ prerouting_hook K e' = prerouting_hook K e.
Proof using laws ord_laws print nft_laws.
  intros Ho Hi. pose proof Hi as ((_ & _ & Hd) & Eb & _). rewrite Eb in Hd. unfold nft_step.
  destruct o as [n|n|l]; simpl in *; unfold nft_apply_ban, nft_remove_ban; rewrite ?Eb, ?net_trunc_law by done.
  - assert (Hb : forall m, m ∈ {[ trunc_ref n ]} ∪ bans -> wf_net m /\ canonical m)
      by (intros m [->%elem_of_singleton|Hm]%elem_of_union; [split; [by apply trunc_ref_wf|apply trunc_ref_canonical]|by apply Hd]).
    pose proof (sync_implements (btree_iter ({[ trunc_ref n ]} ∪ bans)) bans e ok Hi ltac:(apply btree_iter_wf; intros m Hm; by apply Hb)) as Hs.
    rewrite (trunc_btree _ Hb) in Hs. by destruct (nft_sync_full _ e).
  - assert (Hb : forall m, m ∈ bans ∖ {[ trunc_ref n ]} -> wf_net m /\ canonical m) by (intros m [Hm _]%elem_of_difference; by apply Hd).
    pose proof (sync_implements (btree_iter (bans ∖ {[ trunc_ref n ]})) bans e ok Hi ltac:(apply btree_iter_wf; intros m Hm; by apply Hb)) as Hs.
    rewrite (trunc_btree _ Hb) in Hs. by destruct (nft_sync_full _ e).
  - pose proof (sync_implements l bans e ok Hi Ho) as Hs. by destruct (nft_sync_full l e).
Qed.

End promises.

(** ** A concrete kernel *)
Module NftSample.
(** Addresses printed in binary, networks with a slash and the prefix length. *)
Fixpoint bin (p : positive) : string := match p with xH => "" | xO p => "0" +:+ bin p | xI p => "1" +:+ bin p end.
Fixpoint unbin (s : bytes) : positive := match s with [] => xH | c :: s => if c =? 48 then xO (unbin s) else xI (unbin s) end.
Lemma unbin_bin (p : positive) : unbin (as_bytes (bin p)) = p.
Proof. induction p; [| |done]; cbn [bin]; rewrite as_bytes_app; simpl; by rewrite IHp. Qed.
Lemma bin_chars (p : positive) : Forall (fun c => 47 < c) (as_bytes (bin p)).
Proof. induction p; [| |done]; cbn [bin]; rewrite as_bytes_app; simpl; by constructor. Qed.

Definition show_ip (a : IpAddr) : string := bin (encode a).
Definition show_net (n : IpNet) : string := (show_ip (net_addr n) +:+ "/" +:+ fmt_uint (Z.of_nat (prefix_len n)))%string.
#[export] Instance text : AddrText := {|
  parse_ip s := if bool_decide (47 ∈ s) then None else decode (unbin s);
  parse_net s := '(a, p) ← split_once 47 s; a ← decode (unbin a); p ← parse_uint u64_max p; ipnet_new_ref a (Z.to_nat p) |}.
#[export] Instance ops : IpNetOps := {|
  net_trunc := trunc_ref; net_contains n a := bool_decide (in_net n a); ipnet_new := ipnet_new_ref; net_to_string := show_net; ip_to_string := show_ip |}.

Lemma show_prefix (p : nat) : (p <= 128)%nat -> Forall (fun c => 45 < c) (as_bytes (fmt_uint (Z.of_nat p))).
Proof.
  intros Hp. assert (Hall : forallb (fun p => forallb (fun c => 45 <? c) (as_bytes (fmt_uint (Z.of_nat p)))) (seq 0 129) = true) by (vm_compute; reflexivity).
  rewrite forallb_forall in Hall. specialize (Hall p ltac:(apply in_seq; lia)). rewrite forallb_forall in Hall.
  apply Forall_forall. intros c Hc%list_elem_of_In%Hall. lia.
Qed.
Lemma no_slash (a : IpAddr) : 47 ∉ as_bytes (show_ip a).
Proof. intros Hin. pose proof (bin_chars (encode a)) as Hc. rewrite Forall_forall in Hc. apply Hc in Hin. lia. Qed.
Lemma wf_prefix (n : IpNet) : wf_net n -> (prefix_len n <= 128)%nat.
Proof. intros [_ Hp]. destruct n; simpl in *; lia. Qed.

Lemma parse_show_net (n : IpNet) : wf_net n -> parse_net (as_bytes (show_net n)) = Some n.
Proof.
  intros Hn. pose proof (wf_prefix n Hn) as Hp. unfold show_net. rewrite !as_bytes_app. change (as_bytes "/") with [47]. cbn [app].
  assert (Es : split_once 47 (as_bytes (show_ip (net_addr n)) ++ 47 :: as_bytes (fmt_uint (Z.of_nat (prefix_len n)))) =
    Some (as_bytes (show_ip (net_addr n)), as_bytes (fmt_uint (Z.of_nat (prefix_len n))))) by (apply split_once_spec; split; [done|apply no_slash]).
  unfold parse_net, text. rewrite Es. cbn [mbind option_bind]. unfold show_ip. rewrite unbin_bin, decode_encode. cbn [mbind option_bind].
  pose proof (parse_prefix_len _ Hp) as Hu. unfold as_u64 in Hu. rewrite Hu. cbn [mbind option_bind].
  unfold ipnet_new_ref. rewrite Nat2Z.id. destruct Hn as [_ Hw]. rewrite decide_True by (destruct n; exact Hw). by destruct n.
Qed.

#[export] Instance ops_laws : IpNetLaws.
Proof.
  split; simpl.
  - done.
  - intros. apply bool_decide_eq_true.
  - done.
  - intros n m Hn Hm E. apply (f_equal as_bytes), (f_equal parse_net) in E. rewrite !parse_show_net in E by done. congruence.
Qed.
#[export] Instance print_laws : AddrPrintLaws.
Proof.
  split; simpl.
  - intros a _. rewrite bool_decide_eq_false_2 by apply no_slash. unfold show_ip. by rewrite unbin_bin, decode_encode.
  - apply parse_show_net.
  - intros n _. rewrite bool_decide_eq_true_2; [done|]. unfold show_net. rewrite !as_bytes_app. simpl. apply elem_of_app. right. by left.
  - done.
  - intros n Hn. unfold show_net. rewrite !as_bytes_app. simpl. apply Forall_app. split.
    + eapply Forall_impl; [apply bin_chars|]. simpl. lia.
    + constructor; [lia|]. by apply show_prefix, wf_prefix.
Qed.

#[export] Instance net_le_dec (n m : IpNet) : Decision (net_le n m).
Proof. unfold net_le. apply _. Defined.
Definition inside (m n : IpNet) : Prop :=
  net_bits (trunc_ref n) <= net_bits (trunc_ref m) /\ net_bits (trunc_ref m) + net_size m <= net_bits (trunc_ref n) + net_size n.
#[export] Instance order : IpNetOrd := {|
  net_leb n m := bool_decide (net_le n m);
  net_contains_net n m := bool_decide (net_width n = net_width m) && bool_decide (inside m n) |}.

Lemma in_net_trunc_interval (n : IpNet) (a : IpAddr) :
  in_net n a <-> net_width n = ip_width a /\ net_bits (trunc_ref n) <= ip_bits a < net_bits (trunc_ref n) + net_size n.
Proof.
  rewrite <- trunc_ref_in_net, in_net_interval by apply trunc_ref_canonical. by destruct n.
Qed.

#[export] Instance order_laws : IpNetOrdLaws.
Proof.
  split; simpl.
  - intros n m. apply bool_decide_eq_true.
  - intros n m Hn Hm. rewrite andb_true_iff, !bool_decide_eq_true. split; intros [Hw Hin]; (split; [done|]).
    + intros a _. rewrite !in_net_trunc_interval. unfold inside in Hin. lia.
    + pose proof (net_size_pos m) as Hs. pose proof (trunc_ref_wf m Hm) as [Hb Hp]. unfold wf_ip, in_width in Hb.
      assert (Hlast : net_bits (trunc_ref m) + net_size m <= 2 ^ Z.of_nat (net_width m)).
      { destruct (canonical_aligned (trunc_ref m) (trunc_ref_canonical m)) as [i Hi].
        assert (Es : net_size (trunc_ref m) = net_size m) by (by destruct m). rewrite Es in Hi.
        assert (E2 : 2 ^ Z.of_nat (net_width m) = 2 ^ Z.of_nat (prefix_len m) * net_size m)
          by (unfold net_size; rewrite <- Z.pow_add_r by lia; f_equal; destruct Hm; lia).
        assert (Hlt : net_bits (trunc_ref m) < 2 ^ Z.of_nat (net_width m)) by (destruct m; apply Hb). rewrite Hi, E2 in *.
        apply Z.mul_lt_mono_pos_r in Hlt; [|done]. nia. }
      assert (Haddr : forall z, net_bits (trunc_ref m) <= z < net_bits (trunc_ref m) + net_size m -> net_bits (trunc_ref n) <= z < net_bits (trunc_ref n) + net_size n).
      { intros z Hz. set (a := match m with NetV4 _ _ => IpV4 z | NetV6 _ _ => IpV6 z end).
        assert (Ha : ip_bits a = z /\ ip_width a = net_width m) by (subst a; by destruct m). destruct Ha as [Ha Hwa].
        assert (Hin' : in_net n a); [|apply in_net_trunc_interval in Hin' as [_ Hin']; by rewrite Ha in Hin'].
        apply Hin; [|apply in_net_trunc_interval; split; [done|by rewrite Ha]]. unfold wf_ip, in_width. rewrite Ha, Hwa. split; [|lia].
        assert (0 <= net_bits (trunc_ref m)) by (destruct m; apply Hb). lia. }
      unfold inside. pose proof (Haddr (net_bits (trunc_ref m)) ltac:(lia)). pose proof (Haddr (net_bits (trunc_ref m) + net_size m - 1) ltac:(lia)). lia.
Qed.

(** The kernel: its ruleset, and whether the next call is killed after it was
    carried out. *)
Record Box : Type := { bx_rules : Ruleset; bx_killed : bool }.
Definition set_json (els : list IpNet) : Value :=
  VObject [(as_bytes "nftables", VArray [VObject [(as_bytes "metainfo", VNull)];
    VObject [(as_bytes "set", VObject (match els with [] => [] | _ => [(as_bytes "elem", VArray (element_json <$> els))] end))]])].
#[export] Instance box : Nft Box := {|
  nft_apply text k :=
    match nft_run text (bx_rules k) with
    | Some v => ({| bx_rules := v; bx_killed := false |}, if bx_killed k then Err "nft command timed out after 10s"%string else Ok tt)
    | None => (k, Err "nft command failed"%string)
    end;
  nft_list_set t s k :=
    (k, match rs_sets (bx_rules k) !! (t, s) with Some set => Ok (Some (set_json set.2)) | None => Err "no such set"%string end);
  nft_list_chains k := (k, Err "unavailable"%string) |}.
#[export, refine] Instance box_laws : NftLaws Box := {| nft_view := bx_rules |}.
Proof.
  - intros text k v Hrun. simpl. rewrite Hrun. destruct (bx_killed k); simpl; [by right|done].
  - intros t s k. simpl. split; [done|]. intros json Hj. destruct (rs_sets (bx_rules k) !! (t, s)) as [set|]; [|done]. injection Hj as <-.
    exists set, (set_json set.2). split_and!; [done|done|]. eexists _, _, _. split_and!; [done|done|done|]. by destruct set.2.
  - done.
Defined.

Definition empty : Ruleset := {| rs_tables := ∅; rs_sets := ∅; rs_chains := ∅ |}.
Definition fresh : NftablesEnforcer Box := nftables_new (word "hg") (word "bl") true {| bx_rules := empty; bx_killed := false |}.
Definition started : NftablesEnforcer Box := (nft_setup fresh).1.
Definition wide : IpNet := NetV4 (2 ^ 24 * 45 + 256) 24.
Definition host : IpNet := NetV4 (2 ^ 24 * 45 + 256 + 5) 32.
Definition outside : IpAddr := IpV4 (2 ^ 24 * 45).

Example sample_batch :
  append_replace_set_batch fresh (word "bl") [host] =
    as_bytes "flush set inet hg bl" ++ [10] ++ as_bytes ("add element inet hg bl { " +:+ show_ip (net_addr host) +:+ " }") ++ [10] /\
  dedup_overlapping [host; wide] = [wide] /\ nft_run (as_bytes "add element inet hg bl { 1; flush ruleset }") empty = None.
Proof. split_and!; vm_compute; reflexivity. Qed.

Lemma started_ok : nft_ok started.
Proof.
  assert (Hs : nft_setup fresh = (started, Ok tt)) by (vm_compute; reflexivity).
  apply (nft_setup_spec (word "hg") (word "bl") true {| bx_rules := empty; bx_killed := false |} started Hs); [|intros ch Hch; discriminate Hch|done].
  intros s b set _ Hset. discriminate Hset.
Qed.

(** The host is banned again when the network around it is unbanned. *)
Definition ops3 : list nft_op := [OApply host; OApply wide; ORemove wide].
Definition final : NftablesEnforcer Box * gset IpNet * bool := foldl nft_step (started, desired_bans Box started, true) ops3.
Lemma unpack {A B C : Type} (P : A -> B -> C -> Prop) (x : A * B * C) : (let '(a, b, c) := x in P a b c) -> P x.1.1 x.1.2 x.2.
Proof. by destruct x as [[a b] c]. Qed.


(** A /24 and a host inside it; the process is killed after it was carried out. *)
Definition killed : NftablesEnforcer Box := with_kernel {| bx_rules := bx_rules (kernel Box started); bx_killed := true |} started.
Lemma nft_transaction_witness :
  is_ok (nft_sync_full [wide; host] killed).2 = false /\ nft_ok (nft_sync_full [wide; host] killed).1.
Proof.
  assert (He : nft_ok killed) by (destruct started_ok as (? & ? & ?); split; [done|]; split; [by apply ready_with_kernel|done]).
  pose proof (nft_transaction killed [wide; host] He ltac:(repeat constructor; vm_compute; congruence)) as Ht.
  assert (Hr : is_ok (nft_sync_full [wide; host] killed).2 = false) by (vm_compute; reflexivity).
  destruct (nft_sync_full [wide; host] killed) as [e' r]. split; [exact Hr|exact (proj1 Ht)].
Defined.
End NftSample.
