(* ===== verification/Firewall.v ===== *)
(** * The firewall and the whitelist

    Which bans the firewall is given when it is synchronised, and the condition
    that nothing it holds touches a whitelisted network, which every operation
    on it keeps. *)
From S2P Require Import Prelude Models Whitelist BanStore Wal State Admission Enforcer.
Local Open Scope Z_scope.

Section firewall.
Context {E : Type} `{Enforcer E} {enf_laws : EnforcerLaws E} `{IpNetOps} {laws : IpNetLaws} `{Codec WalEntry} `{Crc32}.

(** The bans that are not whitelisted and have not expired; the same filter in
    the expiry task and wherever the whitelist grows. *)
Definition desired_subjects (now : DateTime) (sm : StateManager) : list IpNet :=
  subject <$> List.filter (fun b => match expires_at b with Some exp => now <? exp | None => true end)
    (List.filter (fun b => negb (overlaps (whitelist (mem sm)) (subject b)))
                (get_all_bans (ban_store (mem sm)))).

Definition clear_net (w : WhitelistManager) (n : IpNet) : Prop := wf_net n /\ overlaps w n = false.

(** Nothing the firewall holds is whitelisted. *)
Definition guarded (w : WhitelistManager) (e : E) : Prop := enf_ok e /\ forall n, held e n -> clear_net w n.

Lemma add_ban_whitelist (r : BanRecord) (sm : StateManager) :
  whitelist (mem (add_ban r sm).1) = whitelist (mem sm).
Proof.
  pose proof (add_ban_mem r sm) as Hm. destruct (add_ban r sm) as [sm' res]. simpl in *.
  rewrite Hm. by destruct (is_ok res).
Qed.

Lemma admit_ban_whitelist (r : BanRecord) (now : DateTime) (sm : StateManager) :
  whitelist (mem (admit_ban r now sm).1) = whitelist (mem sm).
Proof.
  unfold admit_ban. destruct (find_first _ _) as [b|]; [done|].
  destruct (find_first _ _) as [b|]; match goal with |- context [add_ban ?x sm] =>
    pose proof (add_ban_whitelist x sm) as Hp; destruct (add_ban x sm) end; exact Hp.
Qed.

Lemma overlaps_trunc (w : WhitelistManager) (n : IpNet) :
  wf_whitelist w -> wf_net n -> overlaps w (net_trunc n) = overlaps w n.
Proof using laws.
  intros Hw Hn. rewrite net_trunc_law by done. apply eq_true_iff_eq.
  rewrite !overlaps_spec by auto using trunc_ref_wf. by setoid_rewrite trunc_ref_in_net.
Qed.

Lemma clear_net_same (w : WhitelistManager) (m n : IpNet) : wf_whitelist w -> same_net m n -> wf_net m -> clear_net w n -> clear_net w m.
Proof using laws.
  intros Hw Hsame Hm [Hn Ho]. split; [done|]. rewrite <- overlaps_trunc by done. rewrite net_trunc_law, Hsame by done.
  rewrite <- net_trunc_law by done. by rewrite overlaps_trunc.
Qed.

Lemma desired_spec (now : DateTime) (sm : StateManager) (n : IpNet) : safe (mem sm) ->
  n ∈ desired_subjects now sm <-> exists b, bans (ban_store (mem sm)) !! n = Some b /\ ban_active now b = true.
Proof.
  intros [_ Hb]. unfold desired_subjects. rewrite list_elem_of_fmap. split.
  - intros (b & -> & [[Hin _]%elem_of_lfilter Ha]%elem_of_lfilter).
    apply list_elem_of_fmap in Hin as ([k b'] & -> & Hk%elem_of_map_to_list). simpl in *.
    destruct (Hb _ _ Hk) as (_ & _ & -> & _). by exists b'.
  - intros (b & Hn & Ha). destruct (Hb _ _ Hn) as (_ & _ & Hs & Ho). exists b. split; [done|].
    apply elem_of_lfilter. split; [|done]. apply elem_of_lfilter. split; [|by rewrite Hs, Ho].
    apply list_elem_of_fmap. exists (n, b). split; [done|]. by apply elem_of_map_to_list.
Qed.

Lemma desired_clear (now : DateTime) (sm : StateManager) (n : IpNet) :
  safe (mem sm) -> n ∈ desired_subjects now sm -> clear_net (whitelist (mem sm)) n.
Proof.
  intros Hs Hn. apply desired_spec in Hn as (b & Hb & _); [|done]. destruct Hs as [_ Hall].
  destruct (Hall n b Hb) as (? & _ & _ & ?). by split.
Qed.

Lemma desired_wf (now : DateTime) (sm : StateManager) : safe (mem sm) -> Forall wf_net (desired_subjects now sm).
Proof. intros Hs. apply Forall_forall. intros n Hn. by apply (desired_clear now sm n). Qed.

(** ** Operations *)
Lemma guarded_apply (w : WhitelistManager) (n : IpNet) (e : E) : wf_whitelist w -> clear_net w n -> guarded w e -> guarded w (apply_ban n e).1.
Proof using laws.
  intros Hw [Hn Ho] [He Hf]. pose proof (apply_spec n e He Hn) as Ha. destruct (apply_ban n e) as [e' r]. destruct Ha as (He' & Hh & _).
  split; [done|]. intros m Hm. destruct (Hh m Hm) as [Hm'|Hsame]; [by apply Hf|]. apply (clear_net_same w m n Hw Hsame); [by eapply held_wf|by split].
Qed.

Lemma guarded_unapply (w : WhitelistManager) (n : IpNet) (e : E) : wf_net n -> guarded w e -> guarded w (unapply_ban n e).1.
Proof.
  intros Hn [He Hf]. pose proof (unapply_spec n e He Hn) as Ha. destruct (unapply_ban n e) as [e' r]. destruct Ha as (He' & Hh & _).
  split; [done|]. intros m Hm. by apply Hf, Hh.
Qed.

(** A synchronisation adds only what is clear, and one that succeeds leaves
    nothing else, whatever was held before. *)
Lemma guarded_sync (w : WhitelistManager) (l : list IpNet) (e : E) : wf_whitelist w -> (forall n, n ∈ l -> clear_net w n) -> enf_ok e ->
  guarded w e \/ is_ok (sync_full l e).2 = true -> guarded w (sync_full l e).1.
Proof using laws.
  intros Hw Hl He Hor. assert (Hwf : Forall wf_net l) by (apply Forall_forall; intros n Hn; by apply Hl).
  pose proof (sync_spec l e He Hwf) as Hs. destruct (sync_full l e) as [e' r]. simpl in Hor. destruct Hs as (He' & Hh & Hok). split; [done|].
  assert (Hnew : forall m, held e' m -> (exists n, n ∈ l /\ same_net m n) -> clear_net w m).
  { intros m Hm (n & Hn & Hsame). apply (clear_net_same w m n Hw Hsame); [by eapply held_wf|auto]. }
  intros m Hm. destruct Hor as [[_ Hf]|Hr]; [destruct (Hh m Hm); auto|]. apply Hnew; [done|]. by apply Hok.
Qed.

(** A smaller whitelist is no harder. *)
Lemma guarded_shrink (w w' : WhitelistManager) (e : E) : (forall n, overlaps w n = false -> overlaps w' n = false) -> guarded w e -> guarded w' e.
Proof. intros Hw [He Hf]. split; [done|]. intros n Hn. destruct (Hf n Hn). split; [done|auto]. Qed.
End firewall.
