(* ===== verification/Cloudflare.v ===== *)
(** * The Cloudflare backend ([hiveguard-enforce/src/cloudflare.rs])

    Bans kept in an IP list of an account: the queue of additions, the request
    budget, the requests with every error path, and the operations of
    [Enforcer.v]. The service is a parameter; what its documentation says about
    the list is the class [CloudLaws]. The backend does not satisfy
    [EnforcerLaws]: an operation reports success when its request failed. *)
From S2P Require Import Prelude Text Models Floats Windows Enforcer.
Local Open Scope Z_scope.
Local Open Scope rust_scope.

(** ** The request budget *)
Record TokenBucket : Type := { tb_tokens : Z; tb_max : Z; tb_refill_interval : Duration; tb_last_refill : Z }.
Definition BATCH_SIZE : nat := Z.to_nat 1000.
Definition RATE_LIMIT_MAX : Z := 1200.
Definition RATE_LIMIT_WINDOW : Duration := secs 300.

Definition bucket_new (now max : Z) (interval : Duration) : TokenBucket :=
  {| tb_tokens := max; tb_max := max; tb_refill_interval := interval; tb_last_refill := now |}.
(** [elapsed] reads the clock, and a refill reads it again. *)
Definition refill (now now' : Z) (b : TokenBucket) : TokenBucket :=
  if tb_refill_interval b <=? saturating_sub now (tb_last_refill b)
  then {| tb_tokens := tb_max b; tb_max := tb_max b; tb_refill_interval := tb_refill_interval b; tb_last_refill := now' |} else b.
Definition try_consume (now now' n : Z) (b : TokenBucket) : TokenBucket * bool :=
  let b := refill now now' b in
  if n <=? tb_tokens b
  then ({| tb_tokens := tb_tokens b - n; tb_max := tb_max b; tb_refill_interval := tb_refill_interval b; tb_last_refill := tb_last_refill b |}, true)
  else (b, false).

(** ** The service *)
(** An answer: an error of the HTTP library, or a status with its text and a
    body; a JSON body may fail to parse. *)
Inductive http (A : Type) : Type :=
| HttpFail (msg : string)
| HttpResp (status : Z) (status_text : string) (body : A).
Arguments HttpFail {A}. Arguments HttpResp {A}.
Record CfResponse (A : Type) : Type := { cf_success : bool; cf_errors : list string; cf_result : option A }.
Arguments cf_success {A}. Arguments cf_errors {A}. Arguments cf_result {A}.
Abbreviation json A := (result (CfResponse A) string) (only parsing).
Definition is_success (status : Z) : bool := (200 <=? status) && (status <? 300).

Class CloudApi (K : Type) : Type := {
  read_clock : K -> K * Z;
  get_lists : K -> K * http (json (list (string * string)));
  post_list : string -> K -> K * http (json string);
  post_rule : string -> string -> string -> K -> K * http (json (list string));
  post_items : string -> list string -> K -> K * http string;
  get_items : string -> K -> K * http (json (list (string * string)));
  delete_items : string -> list string -> K -> K * http string;
}.

Record CloudflareConfig : Type := { cf_enabled : bool; cf_zone_id : string; cf_list_name : string; cf_min_severity : Z; cf_zones : list string }.

Record CloudflareEnforcer (K : Type) : Type := {
  cf_config : CloudflareConfig; cf_bucket : TokenBucket; cf_list_id : option string; cf_pending : list IpNet; cf_service : K;
}.
Arguments cf_config {K}. Arguments cf_bucket {K}. Arguments cf_list_id {K}. Arguments cf_pending {K}. Arguments cf_service {K}.

(** [Vec::chunks] *)
Fixpoint chunks_fuel {A} (fuel n : nat) (l : list A) : list (list A) :=
  match fuel, l with
  | S fuel', _ :: _ => take n l :: chunks_fuel fuel' n (drop n l)
  | _, _ => []
  end.
Definition chunks {A} (n : nat) (l : list A) : list (list A) := chunks_fuel (length l) n l.

Definition join (sep : string) (l : list string) : string :=
  match l with [] => "" | x :: l' => foldl (fun acc s => acc +:+ sep +:+ s)%string x l' end.
(** [str::replace('-', '_')] *)
Definition dashes_to_underscores (s : string) : string := of_bytes ((fun c => if c =? 45 then 95 else c) <$> as_bytes s).

(** [collect] into a map: the last of equal keys stays. *)
Definition collect_map (l : list (string * string)) : gmap string string := foldl (fun m p => <[p.1 := p.2]> m) ∅ l.

(** ** Requests

    Every method takes the backend and may fail. *)
Section cloudflare.
Context {K : Type} `{CloudApi K} `{IpNetOps} `{HashIter}.
Abbreviation E := (CloudflareEnforcer K).
Definition M (A : Type) : Type := E -> E * hresult A.

Definition mret {A} (a : A) : M A := fun e => (e, Ok a).
Definition mfail {A} (msg : string) : M A := fun e => (e, Err (EEnforcement msg)).
Definition mthen {A B} (m : M A) (k : A -> M B) : M B := fun e => match m e with (e', Ok a) => k a e' | (e', Err x) => (e', Err x) end.
(** [match] on a result: the error goes to [h]. *)
Definition mcatch {A B} (m : M A) (k : A -> M B) (h : HiveGuardError -> M B) : M B :=
  fun e => match m e with (e', Ok a) => k a e' | (e', Err x) => h x e' end.

Definition set_service (k : K) (e : E) : E :=
  {| cf_config := cf_config e; cf_bucket := cf_bucket e; cf_list_id := cf_list_id e; cf_pending := cf_pending e; cf_service := k |}.
Definition set_bucket (b : TokenBucket) (e : E) : E :=
  {| cf_config := cf_config e; cf_bucket := b; cf_list_id := cf_list_id e; cf_pending := cf_pending e; cf_service := cf_service e |}.
Definition set_list_id (id : option string) (e : E) : E :=
  {| cf_config := cf_config e; cf_bucket := cf_bucket e; cf_list_id := id; cf_pending := cf_pending e; cf_service := cf_service e |}.
Definition set_pending (l : list IpNet) (e : E) : E :=
  {| cf_config := cf_config e; cf_bucket := cf_bucket e; cf_list_id := cf_list_id e; cf_pending := l; cf_service := cf_service e |}.
Definition send {A} (request : K -> K * A) : M A := fun e => let '(k, a) := request (cf_service e) in (set_service k e, Ok a).

Definition check_rate_limit : M unit := fun e =>
  let '(k, now) := read_clock (cf_service e) in
  let '(k, now') := read_clock k in
  let '(b, ok) := try_consume now now' 1 (cf_bucket e) in
  let e := set_bucket b (set_service k e) in
  if ok then (e, Ok tt) else (e, Err (EEnforcement "Cloudflare API rate limit exceeded; request dropped")).

Definition fetch_lists : M (gmap string string) :=
  mthen check_rate_limit (fun _ => mthen (send get_lists) (fun resp =>
    match resp with
    | HttpFail msg => mfail ("Cloudflare GET lists: " +:+ msg)
    | HttpResp status _ body =>
        if status =? 403 then mret ∅ else
        match body with
        | Err msg => mfail ("Cloudflare parse lists: " +:+ msg)
        | Ok b => if cf_success b then mret (collect_map (default [] (cf_result b)))
                  else mfail ("Cloudflare API error: " +:+ join ", " (cf_errors b))
        end
    end)).

Definition create_list : M string :=
  mthen check_rate_limit (fun _ e => mthen (send (post_list (cf_list_name (cf_config e)))) (fun resp =>
    match resp with
    | HttpFail msg => mfail ("Cloudflare POST list: " +:+ msg)
    | HttpResp status _ body =>
        if status =? 403 then mfail "Cloudflare 403: insufficient permissions to create IP list" else
        match body with
        | Err msg => mfail ("Cloudflare parse create_list: " +:+ msg)
        | Ok b => match cf_success b, cf_result b with
                  | true, Some id => mret id
                  | _, _ => mfail ("Cloudflare create list error: " +:+ join ", " (cf_errors b))
                  end
        end
    end) e).

Definition ensure_list_id : M string := fun e =>
  match cf_list_id e with
  | Some id => (e, Ok id)
  | None =>
      mthen fetch_lists (fun lists =>
        mthen (match lists !! cf_list_name (cf_config e) with Some existing => mret existing | None => create_list end)
          (fun id e => (set_list_id (Some id) e, Ok id))) e
  end.

Definition ensure_firewall_rule (zone_id : string) : M unit := 
  mthen check_rate_limit (fun _ e =>
    let name := cf_list_name (cf_config e) in
    mthen (send (post_rule zone_id ("ip.src in $" +:+ dashes_to_underscores name) ("Block IPs in " +:+ name +:+ " (HiveGuard)"))) (fun resp =>
    match resp with
    | HttpFail msg => mfail ("Cloudflare POST firewall rule: " +:+ msg)
    | HttpResp status _ body =>
        if status =? 403 then mret tt
        else if is_success status then match body with Err msg => mfail ("Cloudflare parse rule: " +:+ msg) | Ok _ => mret tt end
        else mret tt
    end) e).

Fixpoint add_chunks (list_id : string) (cs : list (list IpNet)) : M unit :=
  match cs with
  | [] => mret tt
  | c :: cs' =>
      mthen check_rate_limit (fun _ => mthen (send (post_items list_id (net_to_string <$> c))) (fun resp =>
        match resp with
        | HttpFail msg => mfail ("Cloudflare bulk add items: " +:+ msg)
        | HttpResp status text body =>
            if status =? 403 then mret tt
            else if negb (is_success status) then mfail ("Cloudflare bulk add HTTP " +:+ text +:+ ": " +:+ body)
            else add_chunks list_id cs'
        end))
  end.
Definition bulk_add_to_list (list_id : string) (ips : list IpNet) : M unit := add_chunks list_id (chunks BATCH_SIZE ips).

Definition flush_pending : M unit := fun e =>
  match cf_pending e with
  | [] => (e, Ok tt)
  | _ => mthen ensure_list_id (fun id e => bulk_add_to_list id (cf_pending e) (set_pending [] e)) e
  end.

Definition fetch_list_items (list_id : string) : M (gmap string string) :=
  mthen check_rate_limit (fun _ => mthen (send (get_items list_id)) (fun resp =>
    match resp with
    | HttpFail msg => mfail ("Cloudflare GET list items: " +:+ msg)
    | HttpResp status _ body =>
        if status =? 403 then mret ∅ else
        match body with
        | Err msg => mfail ("Cloudflare parse list items: " +:+ msg)
        | Ok b => if cf_success b then mret (collect_map (default [] (cf_result b)))
                  else mfail ("Cloudflare list items error: " +:+ join ", " (cf_errors b))
        end
    end)).

Definition delete_list_item (list_id item_id : string) : M unit :=
  mthen check_rate_limit (fun _ => mthen (send (delete_items list_id [item_id])) (fun resp =>
    match resp with
    | HttpFail msg => mfail ("Cloudflare DELETE item: " +:+ msg)
    | HttpResp status text body =>
        if status =? 403 then mret tt
        else if negb (is_success status) then mfail ("Cloudflare DELETE item HTTP " +:+ text +:+ ": " +:+ body)
        else mret tt
    end)).

(** The deletions: [false] when a 403 ended the synchronisation. *)
Fixpoint delete_chunks (list_id : string) (cs : list (list string)) : M bool :=
  match cs with
  | [] => mret true
  | c :: cs' =>
      mthen check_rate_limit (fun _ => mthen (send (delete_items list_id c)) (fun resp =>
        match resp with
        | HttpFail msg => mfail ("Cloudflare bulk delete: " +:+ msg)
        | HttpResp status text body =>
            if status =? 403 then mret false
            else if negb (is_success status) then mfail ("Cloudflare bulk delete HTTP " +:+ text +:+ ": " +:+ body)
            else delete_chunks list_id cs'
        end))
  end.

Definition values (m : gmap string string) : list string := k ← hash_iter (dom m); option_list (m !! k).

Definition replace_list_items (list_id : string) (ips : list IpNet) : M unit :=
  mthen (fetch_list_items list_id) (fun existing =>
    mthen (if bool_decide (existing = ∅) then mret true
           else mthen check_rate_limit (fun _ => delete_chunks list_id (chunks BATCH_SIZE (values existing))))
      (fun go_on => if go_on then match ips with [] => mret tt | _ => bulk_add_to_list list_id ips end else mret tt)).

(** ** The backend *)
Definition cloudflare_new (config : CloudflareConfig) (now : Z) (k : K) : E :=
  {| cf_config := config; cf_bucket := bucket_new now RATE_LIMIT_MAX RATE_LIMIT_WINDOW; cf_list_id := None; cf_pending := []; cf_service := k |}.

(** A failure to create a rule is logged. *)
Fixpoint rules_for (zones : list string) : M unit :=
  match zones with
  | [] => mret tt
  | z :: zones' => mcatch (ensure_firewall_rule z) (fun _ => rules_for zones') (fun _ => rules_for zones')
  end.
Definition cloudflare_setup : M unit := fun e =>
  if negb (cf_enabled (cf_config e)) then (e, Ok tt) else
  mcatch ensure_list_id (fun _ => rules_for (cf_zone_id (cf_config e) :: cf_zones (cf_config e))) (fun _ => mret tt) e.

Definition cloudflare_apply (n : IpNet) : M unit := fun e =>
  if negb (cf_enabled (cf_config e)) then (e, Ok tt) else
  let e := set_pending (cf_pending e ++ [n]) e in
  if (BATCH_SIZE <=? length (cf_pending e))%nat then flush_pending e else (e, Ok tt).

Definition cloudflare_remove (n : IpNet) : M unit := fun e =>
  if negb (cf_enabled (cf_config e)) then (e, Ok tt) else
  let lookup : M unit := mcatch ensure_list_id (fun id => mcatch (fetch_list_items id) (fun items =>
    match items !! net_to_string n with Some item => delete_list_item id item | None => mret tt end) (fun _ => mret tt)) (fun _ => mret tt) in
  mcatch flush_pending (fun _ => lookup) (fun _ => lookup) e.

Definition cloudflare_sync (banned : list IpNet) : M unit := fun e =>
  if negb (cf_enabled (cf_config e)) then (e, Ok tt) else
  mcatch ensure_list_id (fun id => mcatch (replace_list_items id banned) mret (fun _ => mret tt)) (fun _ => mret tt) (set_pending [] e).

Definition cloudflare_current `{AddrText} : M (list IpNet) := fun e =>
  if negb (cf_enabled (cf_config e)) then (e, Ok []) else
  match cf_list_id e with
  | None => (e, Ok [])
  | Some id => mcatch (fetch_list_items id) (fun items => mret (omap (fun s => parse_net (as_bytes s)) (hash_iter (dom items)))) (fun _ => mret []) e
  end.

#[export] Instance cloudflare `{AddrText} : Enforcer E := {
  setup := cloudflare_setup;
  apply_ban := cloudflare_apply;
  unapply_ban := cloudflare_remove;
  sync_full := cloudflare_sync;
  get_current_bans := cloudflare_current;
}.
End cloudflare.

(** * The budget *)
(** Requests as their two clock readings; how many get a token. *)
Definition bucket_step (b : TokenBucket) (r : Z * Z) : TokenBucket := (try_consume r.1 r.2 1 b).1.
Fixpoint admitted (reqs : list (Z * Z)) (b : TokenBucket) : Z :=
  match reqs with
  | [] => 0
  | r :: reqs' => (if (try_consume r.1 r.2 1 b).2 then 1 else 0) + admitted reqs' (bucket_step b r)
  end.

Definition bucket_ok (b : TokenBucket) : Prop := 0 <= tb_tokens b <= tb_max b.

Lemma bucket_step_spec (b : TokenBucket) (r : Z * Z) : bucket_ok b ->
  bucket_ok (bucket_step b r) /\ tb_max (bucket_step b r) = tb_max b /\ tb_refill_interval (bucket_step b r) = tb_refill_interval b.
Proof.
  unfold bucket_ok, bucket_step, try_consume, refill. intros Hb.
  destruct (_ <=? saturating_sub _ _); simpl; [destruct (Z.leb_spec 1 (tb_max b))|destruct (Z.leb_spec 1 (tb_tokens b))]; simpl; split_and!; done || lia.
Qed.

(** In less than one interval there is at most one refill. *)
Lemma admitted_bound (lo hi : Z) (reqs : list (Z * Z)) (b : TokenBucket) : bucket_ok b -> hi - lo < tb_refill_interval b ->
  Forall (fun r => lo <= r.1 <= r.2 /\ r.2 <= hi) reqs ->
  admitted reqs b <= tb_tokens b + (if tb_refill_interval b <=? saturating_sub hi (tb_last_refill b) then tb_max b else 0).
Proof.
  intros Hb Hw Hr. revert b Hb Hw. induction Hr as [|[now now'] reqs [Hlo Hhi] Hr IH]; intros b Hb Hw; cbn [admitted].
  - unfold bucket_ok in Hb. case_match; lia.
  - destruct (bucket_step_spec b (now, now') Hb) as (Hb' & Em & Ei). specialize (IH (bucket_step b (now, now')) Hb'). rewrite Em, Ei in IH.
    specialize (IH Hw). unfold bucket_step, try_consume, refill, saturating_sub, bucket_ok in *. simpl in *.
    destruct (Z.leb_spec (tb_refill_interval b) (Z.max 0 (now - tb_last_refill b))) as [Hf|Hf]; simpl in *.
    + destruct (Z.leb_spec 1 (tb_max b)); simpl in *; rewrite (proj2 (Z.leb_le _ (Z.max 0 (hi - tb_last_refill b)))) by lia;
        rewrite (proj2 (Z.leb_gt _ (Z.max 0 (hi - now')))) in IH by lia; lia.
    + destruct (Z.leb_spec 1 (tb_tokens b)); simpl in *; repeat case_match; lia.
Qed.

(** Whatever requests came before, in any span shorter than the window at most
    twice the limit get through. *)
Lemma budget_kept (before reqs : list (Z * Z)) (start max lo hi : Z) (interval : Duration) : 0 <= max -> hi - lo < interval ->
  Forall (fun r => lo <= r.1 <= r.2 /\ r.2 <= hi) reqs ->
  admitted reqs (foldl bucket_step (bucket_new start max interval) before) <= 2 * max.
Proof.
  intros Hm Hw Hr. set (b0 := bucket_new start max interval).
  assert (Hinv : forall b, bucket_ok b /\ tb_max b = max /\ tb_refill_interval b = interval ->
    let b' := foldl bucket_step b before in bucket_ok b' /\ tb_max b' = max /\ tb_refill_interval b' = interval).
  { induction before as [|r before IH]; intros b Hb; [done|]. simpl. apply IH. destruct Hb as (Hb & Em & Ei).
    destruct (bucket_step_spec b r Hb) as (? & -> & ->). done. }
  destruct (Hinv b0) as (Hb & Em & Ei); [unfold bucket_ok; simpl; split_and!; lia|]. fold b0.
  pose proof (admitted_bound lo hi reqs _ Hb ltac:(by rewrite Ei) Hr) as Ha. unfold bucket_ok in Hb. case_match; lia.
Qed.

(** * A service that accepts requests

    What the documentation says of an IP list, of requests that are accepted
    and carried out: [entries] maps the texts in a list to their item ids. *)
Class CloudLaws (K : Type) `{CloudApi K} : Type := {
  healthy : K -> Prop;
  entries : K -> string -> gmap string string;
  clock_law (k : K) : healthy k -> healthy (read_clock k).1 /\ forall l, entries (read_clock k).1 l = entries k l;
  items_law (k : K) (l : string) : healthy k -> let '(k', r) := get_items l k in
    healthy k' /\ (forall l', entries k' l' = entries k l') /\
    exists status text errs items, r = HttpResp status text (Ok {| cf_success := true; cf_errors := errs; cf_result := Some items |}) /\
      status <> 403 /\ collect_map items = entries k l;
  add_law (k : K) (l : string) (ips : list string) : healthy k -> let '(k', r) := post_items l ips k in
    healthy k' /\ (exists status text body, r = HttpResp status text body /\ is_success status = true) /\
    dom (entries k' l) = dom (entries k l) ∪ list_to_set ips;
  delete_law (k : K) (l : string) (ids : list string) : healthy k -> let '(k', r) := delete_items l ids k in
    healthy k' /\ (exists status text body, r = HttpResp status text body /\ is_success status = true) /\
    entries k' l = filter (fun kv : string * string => kv.2 ∉ ids) (entries k l);
}.

Lemma success_not_403 (status : Z) : is_success status = true -> (status =? 403) = false.
Proof. unfold is_success. rewrite andb_true_iff, Z.leb_le, Z.ltb_lt. intros. apply Z.eqb_neq. lia. Qed.

Lemma concat_chunks_fuel {A} (fuel n : nat) (l : list A) : (0 < n)%nat -> (length l <= fuel)%nat -> concat (chunks_fuel fuel n l) = l.
Proof.
  revert l. induction fuel as [|fuel IH]; intros l Hn Hl; [destruct l; [done|simpl in Hl; lia]|]. destruct l as [|x l]; [done|].
  cbn [chunks_fuel concat]. rewrite IH; [by rewrite take_drop|done|]. rewrite length_drop. simpl in *. lia.
Qed.
Lemma concat_chunks {A} (n : nat) (l : list A) : (0 < n)%nat -> concat (chunks n l) = l.
Proof. intros Hn. by apply concat_chunks_fuel. Qed.

Lemma chunks_fuel_length {A} (fuel n : nat) (l : list A) : (0 < n)%nat -> (length (chunks_fuel fuel n l) <= S (length l / n))%nat.
Proof.
  intros Hn. revert l. induction fuel as [|fuel IH]; intros l; [simpl; lia|]. destruct l as [|x l]; [simpl; lia|].
  cbn [chunks_fuel length]. set (k := x :: l). change (S (length l)) with (length k).
  destruct (decide (length k < n)%nat) as [Hlt|Hge].
  - rewrite drop_ge by lia. destruct fuel; simpl; lia.
  - specialize (IH (drop n k)). rewrite length_drop in IH. replace (length k) with (length k - n + 1 * n)%nat by lia.
    rewrite Nat.div_add by lia. lia.
Qed.
Lemma chunks_length {A} (n : nat) (l : list A) : (0 < n)%nat -> (length (chunks n l) <= S (length l / n))%nat.
Proof. intros Hn. by apply chunks_fuel_length. Qed.

Section healthy.
Context {K : Type} `{CloudApi K} {laws : CloudLaws K} `{IpNetOps}.
Abbreviation E := (CloudflareEnforcer K).

(** The service accepts, and [n] tokens are left. *)
Definition ready (n : nat) (e : E) : Prop := healthy (cf_service e) /\ bucket_ok (cf_bucket e) /\ Z.of_nat n <= tb_tokens (cf_bucket e).
Definition framed (e e' : E) : Prop := cf_config e' = cf_config e /\ cf_list_id e' = cf_list_id e /\ cf_pending e' = cf_pending e.

Lemma rate_limit_ready (n : nat) (e : E) : ready (S n) e -> exists e',
  check_rate_limit e = (e', Ok tt) /\ ready n e' /\ framed e e' /\ forall l, entries (cf_service e') l = entries (cf_service e) l.
Proof.
  intros (Hh & Hb & Ht). unfold check_rate_limit. destruct (clock_law _ Hh) as [Hh1 He1]. destruct (read_clock (cf_service e)) as [k1 now].
  destruct (clock_law _ Hh1) as [Hh2 He2]. simpl in *. destruct (read_clock k1) as [k2 now']. simpl in *.
  pose proof (bucket_step_spec (cf_bucket e) (now, now') Hb) as (Hb' & _). unfold bucket_step in Hb'. simpl in Hb'.
  assert (Hc : (try_consume now now' 1 (cf_bucket e)).2 = true /\ Z.of_nat n <= tb_tokens (try_consume now now' 1 (cf_bucket e)).1).
  { unfold try_consume, refill, bucket_ok in *. destruct (_ <=? saturating_sub _ _); simpl.
    - rewrite (proj2 (Z.leb_le 1 _)) by lia. simpl. lia.
    - rewrite (proj2 (Z.leb_le 1 _)) by lia. simpl. lia. }
  destruct (try_consume now now' 1 (cf_bucket e)) as [b ok]. simpl in Hc, Hb'. destruct Hc as [-> Hn].
  eexists. split; [done|]. split; [done|]. split; [done|]. intros l. simpl. by rewrite He2, He1.
Qed.

Lemma fetch_items_ready (n : nat) (id : string) (e : E) : ready (S n) e -> exists e',
  fetch_list_items id e = (e', Ok (entries (cf_service e) id)) /\ ready n e' /\ framed e e' /\
  forall l, entries (cf_service e') l = entries (cf_service e) l.
Proof.
  intros Hr. destruct (rate_limit_ready n e Hr) as (e1 & E1 & (Hh & Hb & Ht) & Hf & He). unfold fetch_list_items, mthen at 1. rewrite E1.
  unfold mthen, send. pose proof (items_law (cf_service e1) id Hh) as Hi. destruct (get_items id (cf_service e1)) as [k r].
  destruct Hi as (Hh' & He' & status & text & errs & items & -> & Hs & Hm). apply Z.eqb_neq in Hs. rewrite Hs. simpl. rewrite Hm, He.
  eexists. split; [done|]. split; [done|]. split; [done|]. intros l. simpl. by rewrite He', He.
Qed.

Lemma delete_chunks_ready (id : string) (cs : list (list string)) (n : nat) (e : E) : ready (length cs + n) e -> exists e',
  delete_chunks id cs e = (e', Ok true) /\ ready n e' /\ framed e e' /\
  entries (cf_service e') id = filter (fun kv : string * string => kv.2 ∉ concat cs) (entries (cf_service e) id).
Proof.
  revert e. induction cs as [|c cs IH]; intros e Hr.
  - exists e. split_and!; try done. symmetry. apply map_filter_id. intros k i _. simpl. apply not_elem_of_nil.
  - cbn [length Nat.add] in Hr. destruct (rate_limit_ready _ e Hr) as (e1 & E1 & (Hh & Hb & Ht) & Hf & He). cbn [delete_chunks].
    unfold mthen at 1. rewrite E1. unfold mthen, send. pose proof (delete_law (cf_service e1) id c Hh) as Hd.
    destruct (delete_items id c (cf_service e1)) as [k r]. destruct Hd as (Hh' & (status & text & body & -> & Hs) & Ed).
    rewrite (success_not_403 _ Hs), Hs. cbn [negb].
    destruct (IH (set_service k e1)) as (e2 & E2 & Hr2 & (F1 & F2 & F3) & Ee); [done|]. exists e2. split; [exact E2|]. split; [done|].
    destruct Hf as (G1 & G2 & G3). split; [split_and!; by rewrite ?F1, ?F2, ?F3|]. rewrite Ee. cbn [cf_service set_service]. rewrite Ed, He, map_filter_filter.
    apply map_filter_ext. intros i x _. simpl. rewrite elem_of_app. tauto.
Qed.

Lemma add_chunks_ready (id : string) (cs : list (list IpNet)) (n : nat) (e : E) : ready (length cs + n) e -> exists e',
  add_chunks id cs e = (e', Ok tt) /\ ready n e' /\ framed e e' /\
  dom (entries (cf_service e') id) = dom (entries (cf_service e) id) ∪ list_to_set (net_to_string <$> concat cs).
Proof.
  revert e. induction cs as [|c cs IH]; intros e Hr.
  - exists e. split_and!; try done. simpl. set_solver.
  - cbn [length Nat.add] in Hr. destruct (rate_limit_ready _ e Hr) as (e1 & E1 & (Hh & Hb & Ht) & Hf & He). cbn [add_chunks].
    unfold mthen at 1. rewrite E1. unfold mthen, send. pose proof (add_law (cf_service e1) id (net_to_string <$> c) Hh) as Hd.
    destruct (post_items id (net_to_string <$> c) (cf_service e1)) as [k r]. destruct Hd as (Hh' & (status & text & body & -> & Hs) & Ed).
    rewrite (success_not_403 _ Hs), Hs. cbn [negb].
    destruct (IH (set_service k e1)) as (e2 & E2 & Hr2 & (F1 & F2 & F3) & Ee); [done|]. exists e2. split; [exact E2|]. split; [done|].
    destruct Hf as (G1 & G2 & G3). split; [split_and!; by rewrite ?F1, ?F2, ?F3|]. rewrite Ee. cbn [cf_service set_service]. rewrite Ed, He.
    cbn [concat]. rewrite fmap_app, list_to_set_app_L. by rewrite (assoc_L (∪)).
Qed.

Context `{HashIter} {iter_laws : HashIterLaws}.

Lemma elem_of_values (m : gmap string string) (k v : string) : m !! k = Some v -> v ∈ values m.
Proof using iter_laws.
  intros Hm. unfold values. apply list_elem_of_bind. exists k. rewrite Hm. split; [left|]. apply elem_of_hash_iter, elem_of_dom. by eexists.
Qed.

Lemma values_length (m : gmap string string) : length (values m) = size m.
Proof using iter_laws.
  unfold values. rewrite <- (size_dom (D := gset string)). unfold size, set_size. simpl. rewrite <- (Permutation_length (hash_iter_perm (dom m))).
  assert (Hs : forall k, k ∈ hash_iter (dom m) -> is_Some (m !! k)) by (intros k Hk; by apply elem_of_hash_iter, elem_of_dom in Hk).
  induction (hash_iter (dom m)) as [|k ks IH]; [done|]. cbn [mbind list_bind]. rewrite length_app, IH; [|intros j Hj; apply Hs; by right].
  destruct (Hs k ltac:(left)) as [v ->]. done.
Qed.

Definition tokens_for (listed banned : nat) : nat := 4 + listed / BATCH_SIZE + banned / BATCH_SIZE.

End healthy.

(** * A service that does not

    A service of one list that answers every request with the same status; the
    clock stands still. *)
Module CloudSample.
#[local] Existing Instance ipnet_ref.
#[local] Existing Instance hash_iter_ref.
#[local] Existing Instance hash_iter_ref_laws.

Record Service : Type := { sv_status : Z; sv_items : gmap string string }.
Definition accepted (k : Service) : bool := is_success (sv_status k).
Definition reply {A} (k : Service) (body : A) : http A := HttpResp (sv_status k) "" body.
Definition with_items (m : gmap string string) (k : Service) : Service := {| sv_status := sv_status k; sv_items := m |}.
Definition listing {A} (k : Service) (r : A) : result (CfResponse A) string :=
  Ok {| cf_success := accepted k; cf_errors := []; cf_result := Some r |}.

(** An item's id is its text. *)
#[local] Instance api : CloudApi Service := {
  read_clock k := (k, 0);
  get_lists k := (k, reply k (listing k [("blocklist", "id")]%string));
  post_list _ k := (k, reply k (listing k "id"%string));
  post_rule _ _ _ k := (k, reply k (listing k []));
  post_items _ ips k := (if accepted k then with_items (foldl (fun m s => <[s := s]> m) (sv_items k) ips) k else k, reply k ""%string);
  get_items _ k := (k, reply k (listing k (map_to_list (sv_items k))));
  delete_items _ ids k :=
    (if accepted k then with_items (filter (fun kv : string * string => kv.2 ∉ ids) (sv_items k)) k else k, reply k ""%string);
}.

Lemma foldl_insert_dom (l : list string) (m : gmap string string) : dom (foldl (fun m s => <[s := s]> m) m l) = dom m ∪ list_to_set l.
Proof. revert m. induction l as [|s l IH]; intros m; simpl; [set_solver|]. rewrite IH. set_solver. Qed.

#[local, refine] Instance api_laws : CloudLaws Service := {| healthy k := accepted k = true; entries k _ := sv_items k |}.
Proof.
  - done.
  - intros k l Hk. split; [done|]. split; [done|]. unfold listing. rewrite Hk. eexists _, _, _, _. split; [done|]. split.
    + intros E. unfold accepted in Hk. by rewrite E in Hk.
    + unfold collect_map. apply foldl_insert_map_to_list.
  - intros k l ips Hk. simpl. rewrite Hk. split; [done|]. split; [by eexists _, _, _|]. apply foldl_insert_dom.
  - intros k l ids Hk. simpl. rewrite Hk. split; [done|]. split; [by eexists _, _, _|done].
Defined.

Definition config : CloudflareConfig :=
  {| cf_enabled := true; cf_zone_id := "zone"; cf_list_name := "blocklist"; cf_min_severity := 60; cf_zones := [] |}.
Definition host : IpNet := NetV4 134744072 32.
Definition other : IpNet := NetV4 16843009 32.
Definition edge (status : Z) (items : gmap string string) (pending : list IpNet) : CloudflareEnforcer Service :=
  {| cf_config := config; cf_bucket := bucket_new 0 RATE_LIMIT_MAX RATE_LIMIT_WINDOW; cf_list_id := Some "id"%string; cf_pending := pending;
     cf_service := {| sv_status := status; sv_items := items |} |}.


(** Removing a ban while the service refuses every request reports success,
    and the network stays in the list. *)
Example failed_unban_reported_done :
  let '(e', r) := cloudflare_remove host (edge 500 {[net_to_string host := "i"]}%string []) in
  r = Ok tt /\ sv_items (cf_service e') !! net_to_string host = Some "i"%string.
Proof. vm_compute. done. Qed.

(** A batch the service refuses is neither in the list nor queued again. *)
Example refused_batch_lost :
  let '(e', r) := flush_pending (edge 500 ∅ [host; other]) in is_ok r = false /\ cf_pending e' = [] /\ sv_items (cf_service e') = ∅.
Proof. vm_compute. done. Qed.

(** A ban waits in the queue while it is reported as applied. *)
Example ban_waits : let '(e', r) := cloudflare_apply host (edge 200 ∅ []) in r = Ok tt /\ cf_pending e' = [host] /\ sv_items (cf_service e') = ∅.
Proof. vm_compute. done. Qed.

(** Twice the limit gets through in two nanoseconds around a refill. *)
Example budget_doubled :
  admitted (replicate 1200 (secs 300 - 1, secs 300 - 1) ++ replicate 1200 (secs 300, secs 300)) (bucket_new 0 RATE_LIMIT_MAX RATE_LIMIT_WINDOW) = 2400.
Proof. vm_compute. reflexivity. Qed.
End CloudSample.
