(* ===== verification/Durations.v ===== *)
(** * Durations in configuration files and commands

    [HumanDuration] of [hiveguard-core/src/config.rs]: ["30s"], ["5m"], ["2h"],
    ["7d"] and ["permanent"], read by [parse_duration_string] and written by
    [Display] and [Serialize]. The result [None] stands for a panic. *)
From S2P Require Import Prelude Text.
From stdpp Require Import pretty.
Local Open Scope Z_scope.

(** [Some] of a number of seconds, or permanent. *)
Record HumanDuration : Type := Human { hd_duration : option Duration }.
Definition permanent : HumanDuration := Human None.
Definition from_secs (n : Z) : HumanDuration := Human (Some (secs n)).

Definition PERMANENT : bytes := as_bytes "permanent".
(** The factor of a unit, by its letter. *)
Definition unit_secs (suffix : bytes) : option Z :=
  if bool_decide (suffix = as_bytes "s") then Some 1
  else if bool_decide (suffix = as_bytes "m") then Some 60
  else if bool_decide (suffix = as_bytes "h") then Some 3600
  else if bool_decide (suffix = as_bytes "d") then Some 86400
  else None.

(** [split_at] panics inside a character; the products are of [u64] and wrap
    around. *)
Definition parse_duration_string (s : bytes) : option (result HumanDuration string) :=
  let s := trim s in
  if bool_decide (s = PERMANENT) then Some (Ok permanent)
  else if bool_decide (s = []) then Some (Err "empty duration string"%string)
  else
    num_str ← slice_to (length s - 1) s;
    let suffix := drop (length s - 1) s in
    Some (match parse_uint u64_max num_str with
          | None => Err ("invalid duration number: " +:+ of_bytes num_str)%string
          | Some num =>
              match unit_secs suffix with
              | Some unit => Ok (from_secs (wrap 64 (num * unit)))
              | None => Err ("unknown duration suffix: " +:+ of_bytes suffix)%string
              end
          end).

(** [Display] and [Serialize]: the largest unit that divides; fractions of a
    second are dropped. *)
Definition show_duration (d : HumanDuration) : string :=
  match hd_duration d with
  | None => "permanent"%string
  | Some d =>
      let n := d / nanos_per_sec in
      let with_unit (unit : Z) (letter : string) := (fmt_uint (n / unit) +:+ letter)%string in
      if (n mod 86400 =? 0) && (0 <? n) then with_unit 86400 "d"%string
      else if (n mod 3600 =? 0) && (0 <? n) then with_unit 3600 "h"%string
      else if (n mod 60 =? 0) && (0 <? n) then with_unit 60 "m"%string
      else (fmt_uint n +:+ "s")%string
  end.

(** ** Numbers as text *)
Lemma pretty_char (d : N) : (d < 10)%N -> exists c, as_bytes (String (pretty_N_char d) EmptyString) = [c] /\ is_ascii_digit c = true /\ c - 48 = Z.of_N d.
Proof.
  intros Hd. eexists. split; [reflexivity|].
  assert (Hall : forallb (fun n => let d := N.of_nat n in let c := Z.of_N (Ascii.N_of_ascii (pretty_N_char d)) in
    is_ascii_digit c && (c - 48 =? Z.of_N d)) (seq 0 10) = true) by (vm_compute; reflexivity).
  rewrite forallb_forall in Hall. specialize (Hall (N.to_nat d) ltac:(apply in_seq; lia)). rewrite N2Nat.id in Hall.
  apply andb_true_iff in Hall as [H1 H2%Z.eqb_eq]. by split.
Qed.

Lemma as_bytes_cons (c : Ascii.ascii) (s : string) : as_bytes (String c s) = as_bytes (String c EmptyString) ++ as_bytes s.
Proof. done. Qed.

Lemma parse_pretty_go (x : N) (s : string) : parse_digits 0 (as_bytes (pretty_N_go x s)) = parse_digits (Z.of_N x) (as_bytes s).
Proof.
  revert s. induction (N.lt_wf_0 x) as [x _ IH]; intros s. destruct (decide (x = 0%N)) as [->|Hx]; [by rewrite pretty_N_go_0|].
  rewrite pretty_N_go_step by lia. rewrite IH by (apply N.div_lt; lia).
  destruct (pretty_char (x mod 10) ltac:(apply N.mod_lt; lia)) as (c & Hc & Hd & Hv). rewrite as_bytes_cons, Hc. simpl. rewrite Hd, Hv.
  f_equal. pose proof (N.div_mod x 10 ltac:(lia)). lia.
Qed.

Lemma pretty_go_head (x : N) (s : string) : (0 < x)%N -> exists c t, as_bytes (pretty_N_go x s) = c :: t /\ is_ascii_digit c = true.
Proof.
  revert s. induction (N.lt_wf_0 x) as [x _ IH]; intros s Hx. rewrite pretty_N_go_step by done.
  destruct (decide (x / 10 = 0)%N) as [->|Hd].
  - rewrite pretty_N_go_0. destruct (pretty_char (x mod 10) ltac:(apply N.mod_lt; lia)) as (c & Hc & Hd & _). rewrite as_bytes_cons, Hc.
    by exists c, (as_bytes s).
  - apply IH; [apply N.div_lt; lia|by apply N.neq_0_lt_0].
Qed.

Lemma fmt_uint_N (n : Z) : 0 <= n -> fmt_uint n = pretty (Z.to_N n).
Proof. intros Hn. unfold fmt_uint. destruct n; done. Qed.

Lemma fmt_uint_digits (n : Z) : 0 <= n -> parse_digits 0 (as_bytes (fmt_uint n)) = Some n /\
  exists c t, as_bytes (fmt_uint n) = c :: t /\ is_ascii_digit c = true.
Proof.
  intros Hn. rewrite fmt_uint_N by done. unfold pretty, pretty_N. destruct (decide (Z.to_N n = 0%N)) as [E|E].
  - replace n with 0 by lia. split; [done|]. by exists 48, [].
  - rewrite parse_pretty_go. simpl. rewrite Z2N.id by done. split; [done|]. apply pretty_go_head. lia.
Qed.

Lemma parse_fmt_uint (max n : Z) : 0 <= n <= max -> parse_uint max (as_bytes (fmt_uint n)) = Some n.
Proof.
  intros [Hn Hm]. destruct (fmt_uint_digits n Hn) as [Hp (c & t & Ec & Hc)]. unfold parse_uint. rewrite Ec in *.
  assert (Hne : c <> 43) by (intros ->; done).
  assert (Es : match c :: t with 43 :: ((_ :: _) as s') => s' | _ => c :: t end = c :: t).
  { destruct c as [|p|p]; [done| |done]. do 6 (destruct p as [p|p|]; try done). }
  rewrite Es, Hp. by rewrite (proj2 (Z.leb_le n max)).
Qed.

(** ** Round trip *)
Lemma strip_front_keep (fuel : nat) (pats : list bytes) (c : Z) (s : bytes) :
  forallb (fun p => match p with [] => false | x :: _ => negb (x =? c) end) pats = true -> strip_front fuel pats (c :: s) = c :: s.
Proof.
  intros Hp. destruct fuel as [|fuel]; [done|]. simpl.
  assert (Hf : List.find (fun p => starts_with p (c :: s)) pats = None).
  { induction pats as [|p pats IH]; [done|]. apply andb_true_iff in Hp as [Hx Hp]. simpl. destruct p as [|x p]; [done|]. simpl.
    apply negb_true_iff in Hx. rewrite Hx. by apply IH. }
  by rewrite Hf.
Qed.

Lemma trim_keep (c l : Z) (s : bytes) : 48 <= c < 128 -> 97 <= l < 128 -> trim (c :: s ++ [l]) = c :: s ++ [l].
Proof.
  intros Hc Hl. unfold trim, trim_start. rewrite strip_front_keep by (cbn [forallb WHITE_SPACE]; repeat (apply andb_true_iff; split); lia).
  unfold trim_end. rewrite app_comm_cons, rev_app_distr. change (rev [l] ++ rev (c :: s)) with (l :: rev (c :: s)). rewrite strip_front_keep.
  - change (rev (l :: rev (c :: s))) with (rev (rev (c :: s)) ++ [l]). by rewrite rev_involutive.
  - change (forallb (fun p => match p with [] => false | x :: _ => negb (x =? l) end) ((@rev Z) <$> WHITE_SPACE))
      with (forallb (fun x => negb (x =? l)) [9; 10; 11; 12; 13; 32; 133; 160; 128; 128; 129; 130; 131; 132; 133; 134; 135; 136; 137; 138; 168; 169; 175; 159; 128]).
    cbn [forallb]. repeat (apply andb_true_iff; split); lia.
Qed.

(** A number and the letter of a unit. *)
Lemma parse_with_unit (n unit : Z) (letter : string) (l : Z) : 0 <= n <= u64_max -> as_bytes letter = [l] -> 97 <= l < 128 ->
  unit_secs [l] = Some unit -> parse_duration_string (as_bytes (fmt_uint n +:+ letter)) = Some (Ok (from_secs (wrap 64 (n * unit)))).
Proof.
  intros Hn Hl Hr Hu. destruct (fmt_uint_digits n ltac:(lia)) as [_ (c & t & Ec & Hc)]. pose proof (parse_fmt_uint u64_max n Hn) as Hp.
  unfold parse_duration_string. rewrite as_bytes_app, Hl, Ec in *. cbn [app].
  assert (Hd : 48 <= c < 58) by (unfold is_ascii_digit in Hc; lia). rewrite trim_keep by lia.
  rewrite (bool_decide_eq_false_2 (_ = PERMANENT)) by (intros [= -> _]; lia). rewrite bool_decide_eq_false_2 by done.
  assert (El : (length (c :: t ++ [l]) - 1 = length (c :: t))%nat) by (simpl; rewrite length_app; simpl; lia). rewrite El.
  rewrite app_comm_cons. unfold slice_to, is_char_boundary. rewrite list_lookup_middle by done.
  assert (Hcont : is_continuation l = false) by (unfold is_continuation; lia). rewrite Hcont. cbn [negb orb mbind option_bind].
  rewrite take_app_length, drop_app_length, Hp, Hu. done.
Qed.

Lemma unit_reads_back (n unit : Z) (letter : string) (l : Z) : 0 <= n <= u64_max -> as_bytes letter = [l] -> 97 <= l < 128 -> unit_secs [l] = Some unit ->
  0 < unit -> n mod unit = 0 -> parse_duration_string (as_bytes (fmt_uint (n / unit) +:+ letter)) = Some (Ok (from_secs n)).
Proof.
  intros Hn Hl Hr Hu Hpos Hmod. pose proof (Z.div_mod n unit ltac:(lia)) as Hdm.
  rewrite (parse_with_unit (n / unit) unit letter l); [|pose proof (Z.div_le_upper_bound n unit n); split; [apply Z.div_pos; lia|nia]|done..].
  rewrite wrap_small by (unfold in_width, u64_max in *; nia). do 3 f_equal. lia.
Qed.

(** Durations survive being written and read: every whole number of seconds
    that fits 64 bits, and permanent, is read back as it was written, whichever
    unit was chosen. *)
Theorem duration_round_trip (n : Z) (Hn : 0 <= n <= u64_max) :
  parse_duration_string (as_bytes (show_duration (from_secs n))) = Some (Ok (from_secs n)) /\
  parse_duration_string (as_bytes (show_duration permanent)) = Some (Ok permanent).
Proof.
  split; [|by vm_compute]. unfold show_duration, from_secs. simpl. unfold secs. rewrite Z.div_mul by done.
  destruct ((n mod 86400 =? 0) && (0 <? n)) eqn:E1; [breflect; by apply (unit_reads_back n 86400 "d" 100)|].
  destruct ((n mod 3600 =? 0) && (0 <? n)) eqn:E2; [breflect; by apply (unit_reads_back n 3600 "h" 104)|].
  destruct ((n mod 60 =? 0) && (0 <? n)) eqn:E3; [breflect; by apply (unit_reads_back n 60 "m" 109)|].
  rewrite <- (Z.div_1_r n) at 1. apply (unit_reads_back n 1 "s" 115); try done. apply Z.mod_1_r.
Qed.

Module DurationSample.
Lemma duration_round_trip_witness : parse_duration_string (as_bytes (show_duration (from_secs 7200))) = Some (Ok (from_secs 7200)).
Proof. apply (duration_round_trip 7200). split; vm_compute; congruence. Defined.

(** What goes wrong: a number of days above 2^64 seconds becomes another
    duration, and a text that ends inside a two-byte character is not refused. *)
Example duration_overflow : parse_duration_string (as_bytes "213503982334602d") = Some (Ok (from_secs 61184)).
Proof. by vm_compute. Qed.
Example duration_panic : parse_duration_string (as_bytes "5" ++ [194; 181]) = None.
Proof. by vm_compute. Qed.
End DurationSample.
