(* ===== verification/Config.v ===== *)
(** * Configuration ([hiveguard-core/src/config.rs])

    The sections the modelled components read and the check a configuration
    passes before the daemon uses it. Reading YAML, and sections that are only
    handed on, are left out; of a detector's section the fields are kept that
    the check reads. *)
From S2P Require Import Prelude Text Models Floats Durations.
Local Open Scope Z_scope.

Definition i64_max : Z := 2 ^ 63 - 1.

(** ** Sections *)
Record TrustConfig : Type := {
  ban_threshold : spec_float;
  new_node_grace_period : HumanDuration;
  new_node_threshold_multiplier : spec_float;
  max_bans_per_minute : Z;
  auto_quarantine_multiplier : spec_float;
  remote_min_prefix_v4 : Z;
  remote_min_prefix_v6 : Z;
  remote_max_ttl_secs : Z;
}.

Inductive SeedPeer : Type :=
| Address (addr : string)
| WithFingerprint (addr fp : string).
Definition seed_address (s : SeedPeer) : string := match s with Address a => a | WithFingerprint a _ => a end.
Definition seed_fingerprint (s : SeedPeer) : option string :=
  match s with Address _ => None | WithFingerprint _ f => Some f end.

Inductive ClusterMode : Type := Strict | AutoAccept.

Record NodeConfig : Type := {
  nc_name : string;
  listen_gossip : string;
  listen_api : string;
  data_dir : string;
  seeds : list SeedPeer;
  cluster_mode : ClusterMode;
  founder_nodes : list string;
}.


Record BotRuleConfig : Type := {
  rc_name : string;
  rc_ua_contains : bytes;
  rc_org : string;
  rc_policy : bytes;
  rc_ban_duration_secs : option Z;
}.

(** The threshold and ban duration of a detector's section. *)
Record Thresholded : Type := { th_threshold : Z; th_ban_duration : HumanDuration }.

Record DetectorsConfig : Type := {
  ssh_bruteforce : Thresholded;
  ssh_user_enum : Thresholded;
  path_probe_ban : HumanDuration;
  http_4xx_flood : Thresholded;
  scanner_fingerprint_ban : HumanDuration;
  smtp_bruteforce : Thresholded;
  port_scan : Thresholded;
  distributed_slow : Thresholded;
  honeypot_ban : HumanDuration;
}.

Record HiveGuardConfig : Type := {
  hc_node : NodeConfig;
  hc_whitelist : list bytes;
  hc_detectors : DetectorsConfig;
  hc_trust : TrustConfig;
  hc_backend : string;
  hc_bots : list BotRuleConfig;
}.

(** ** The check *)
Definition check_threshold (value : Z) : hresult unit := if value =? 0 then Err (EConfig "threshold must be > 0") else Ok tt.
Definition check_ban_duration (dur : HumanDuration) : hresult unit :=
  match hd_duration dur with
  | Some d => if d =? 0 then Err (EConfig "ban_duration must be > 0 (or 'permanent')") else Ok tt
  | None => Ok tt
  end.

Section config.
Context `{UnicodeLower} `{AddrText}.

Definition check_bot (bot : BotRuleConfig) : hresult unit :=
  if bool_decide (trim (rc_ua_contains bot) = []) then Err (EConfig "bot ua_contains must not be empty") else
  if negb (bool_decide (str_to_lowercase (rc_policy bot) ∈ as_bytes <$> ["allow"; "monitor"; "block"]%string))
  then Err (EConfig "unknown bot policy") else
  match rc_ban_duration_secs bot with
  | Some s => if (60 <=? s) && (s <=? 7 * 86400) then Ok tt else Err (EConfig "ban_duration_secs must be 60..=604800")
  | None => Ok tt
  end.

Fixpoint check_each {A} (f : A -> hresult unit) (l : list A) : hresult unit :=
  match l with
  | [] => Ok tt
  | x :: l' => let? _ := f x in check_each f l'
  end.

Definition check_trust (t : TrustConfig) : hresult unit :=
  if (32 <? remote_min_prefix_v4 t) || (128 <? remote_min_prefix_v6 t) then Err (EConfig "remote minimum prefix exceeds address width") else
  if (remote_max_ttl_secs t =? 0) || (i64_max <? remote_max_ttl_secs t)
  then Err (EConfig "remote maximum TTL must be positive and representable") else Ok tt.

Definition check_entry_net (entry : bytes) : hresult unit :=
  match parse_net entry with Some _ => Ok tt | None => Err (EConfig "invalid whitelist entry") end.

Definition check_detectors (d : DetectorsConfig) : hresult unit :=
  let? _ := check_each check_threshold
    (th_threshold <$> [ssh_bruteforce d; ssh_user_enum d; http_4xx_flood d; smtp_bruteforce d; port_scan d; distributed_slow d]) in
  check_each check_ban_duration
    [th_ban_duration (ssh_bruteforce d); th_ban_duration (ssh_user_enum d); path_probe_ban d; th_ban_duration (http_4xx_flood d);
     scanner_fingerprint_ban d; th_ban_duration (smtp_bruteforce d); th_ban_duration (port_scan d); th_ban_duration (distributed_slow d);
     honeypot_ban d].

Definition VALID_BACKENDS : list string := ["nftables"; "ipset"; "observe_only"]%string.

Definition validate (c : HiveGuardConfig) : hresult unit :=
  let? _ := check_each check_bot (hc_bots c) in
  let? _ := check_trust (hc_trust c) in
  let? _ := (if bool_decide (data_dir (hc_node c) = ""%string) then Err (EConfig "node.data_dir must not be empty") else Ok tt) in
  let? _ := check_each check_entry_net (hc_whitelist c) in
  let? _ := check_detectors (hc_detectors c) in
  if bool_decide (hc_backend c ∈ VALID_BACKENDS) then Ok tt else Err (EConfig "enforcement.backend must be one of them").

Fixpoint parse_all_nets (l : list bytes) : hresult (list IpNet) :=
  match l with
  | [] => Ok []
  | x :: l' =>
      match parse_net x with
      | Some n => let? rest := parse_all_nets l' in Ok (n :: rest)
      | None => Err (EConfig "invalid whitelist entry")
      end
  end.
Definition parsed_whitelist (c : HiveGuardConfig) : hresult (list IpNet) := parse_all_nets (hc_whitelist c).

(** ** What a checked configuration guarantees *)
Lemma check_each_ok {A} (f : A -> hresult unit) (l : list A) : check_each f l = Ok tt <-> Forall (fun x => f x = Ok tt) l.
Proof.
  induction l as [|x l IH]; simpl; [by split; constructor|]. rewrite Forall_cons, <- IH. destruct (f x) as [[]|e]; simpl; [naive_solver|].
  split; [done|]. by intros [? _].
Qed.

Definition bot_ok (bot : BotRuleConfig) : Prop :=
  trim (rc_ua_contains bot) <> [] /\ forall s, rc_ban_duration_secs bot = Some s -> 60 <= s <= 604800.
Definition trust_ok (t : TrustConfig) : Prop :=
  remote_min_prefix_v4 t <= 32 /\ remote_min_prefix_v6 t <= 128 /\ remote_max_ttl_secs t <> 0 /\ remote_max_ttl_secs t <= i64_max.

Lemma check_trust_ok (t : TrustConfig) : check_trust t = Ok tt -> trust_ok t.
Proof.
  unfold check_trust, trust_ok. destruct ((32 <? _) || _) eqn:E1; [done|]. destruct ((_ =? 0) || _) eqn:E2; [done|]. intros _.
  apply orb_false_iff in E1 as [E1 E1']. apply orb_false_iff in E2 as [E2 E2']. apply Z.eqb_neq in E2. breflect. lia.
Qed.

Lemma validate_ok (c : HiveGuardConfig) : validate c = Ok tt ->
  Forall bot_ok (hc_bots c) /\ trust_ok (hc_trust c) /\ data_dir (hc_node c) <> ""%string /\ check_detectors (hc_detectors c) = Ok tt /\
  hc_backend c ∈ VALID_BACKENDS /\ exists nets, parsed_whitelist c = Ok nets /\ Forall2 (fun s n => parse_net s = Some n) (hc_whitelist c) nets.
Proof.
  unfold validate. intros Hv. apply result_bind_ok in Hv as ([] & Hb%check_each_ok & Hv). apply result_bind_ok in Hv as ([] & Ht%check_trust_ok & Hv).
  apply result_bind_ok in Hv as ([] & Hd & Hv). apply result_bind_ok in Hv as ([] & Hw%check_each_ok & Hv). apply result_bind_ok in Hv as ([] & Hdet & Hv).
  assert (Hdir : data_dir (hc_node c) <> ""%string) by (intros Hn; by rewrite bool_decide_eq_true_2 in Hd).
  assert (Hback : hc_backend c ∈ VALID_BACKENDS) by (destruct (bool_decide (hc_backend c ∈ _)) eqn:Eb; [by apply bool_decide_eq_true in Eb|done]).
  split_and!; try apply Ht; try done.
  - eapply Forall_impl; [exact Hb|]. intros bot. unfold check_bot, bot_ok.
    destruct (bool_decide (trim _ = [])) eqn:Et; [done|]. apply bool_decide_eq_false in Et. destruct (negb _); [done|].
    destruct (rc_ban_duration_secs bot) as [s|]; [|by split]. destruct (_ && _) eqn:E; [|done]. breflect. split; [done|]. intros ? [= <-]. lia.
  - unfold parsed_whitelist. induction Hw as [|x l Hx _ IH]; simpl; [exists []; by split; constructor|].
    unfold check_entry_net in Hx. destruct (parse_net x) as [n|] eqn:En; [|done]. destruct IH as (nets & -> & Hf). exists (n :: nets). split; [done|by constructor].
Qed.
End config.
