(* ===== verification/Bots.v ===== *)
(** * The bot registry ([hiveguard-core/src/bot_registry.rs])

    Rules on user agents, the statistics kept about known and unknown bots, and
    the signal of a blocking rule. The user agent is the attacker's: it must
    neither exempt anyone nor fill the memory. *)
From S2P Require Import Prelude Text Models Floats Durations Config.
From stdpp Require Import pretty.
Local Open Scope Z_scope.

Definition MAX_UNKNOWN_BOTS : nat := Z.to_nat 1024.
Definition MAX_TRACKED_UA_BYTES : nat := Z.to_nat 1024.
Definition DEFAULT_BLOCK_BAN : Duration := secs 3600.

Inductive BotPolicy : Type := BotAllow | BotBlock | BotMonitor.
#[export] Instance BotPolicy_eq_dec : EqDecision BotPolicy.
Proof. solve_decision. Defined.

Record BotMatch : Type := { bm_policy : BotPolicy; bm_name : string; bm_block_ban : Duration }.

Definition BOT_POLICY_DETECTOR : string := "bot_policy".

Definition block_signal `{IpNetOps} `{Blake3} (m : BotMatch) (event : NormalizedEvent) : DetectionSignal :=
  let evidence := (ip_to_string (ev_source_ip event) +:+ ":" +:+ BOT_POLICY_DETECTOR +:+ ":" +:+ bm_name m +:+ ":"
    +:+ pretty (Z.quot (ev_timestamp event / nanos_per_sec) 60))%string in
  {| sig_source_ip := ip_to_net (ev_source_ip event);
     sig_severity := 150;
     sig_confidence := f32_lit 1 1;
     sig_reason := ("Bot policy block: User-Agent matches bot rule '" +:+ bm_name m +:+ "'")%string;
     sig_evidence_hash := blake3 (as_bytes evidence);
     sig_suggested_action := Ban (bm_block_ban m);
     sig_detector_name := BOT_POLICY_DETECTOR;
     sig_timestamp := ev_timestamp event |}.

Record BotRule : Type := { rule_name : string; ua_contains : bytes; rule_org : string; rule_policy : BotPolicy }.

Record BotStats : Type := {
  bs_name : string;
  bs_org : string;
  bs_policy : BotPolicy;
  request_count : Z;
  last_seen_ip : string;
  last_seen_ua : bytes;
  first_seen_at : option DateTime;
  last_seen_at : option DateTime;
}.

Record BotRegistry : Type := {
  reg_rules : list BotRule;
  reg_stats : gmap string BotStats;
  reg_unknown : gmap string BotStats;
  reg_block_bans : gmap string Duration;
}.

(** An allow rule only monitors: the user agent authenticates nobody. *)
Definition effective_policy (p : BotPolicy) : BotPolicy := match p with BotAllow => BotMonitor | p => p end.
Definition with_policy (p : BotPolicy) (r : BotRule) : BotRule :=
  {| rule_name := rule_name r; ua_contains := ua_contains r; rule_org := rule_org r; rule_policy := p |}.

Definition stats_new (name org : string) (p : BotPolicy) : BotStats :=
  {| bs_name := name; bs_org := org; bs_policy := p; request_count := 0; last_seen_ip := ""; last_seen_ua := [];
     first_seen_at := None; last_seen_at := None |}.

Definition registry_new (rules : list BotRule) : BotRegistry :=
  let rules := (fun r => with_policy (effective_policy (rule_policy r)) r) <$> rules in
  {| reg_rules := rules;
     reg_stats := foldl (fun m r => <[rule_name r := stats_new (rule_name r) (rule_org r) (rule_policy r)]> m) ∅ rules;
     reg_unknown := ∅; reg_block_bans := ∅ |}.

Definition with_block_ban_durations (durations : list (string * Duration)) (reg : BotRegistry) : BotRegistry :=
  {| reg_rules := reg_rules reg; reg_stats := reg_stats reg; reg_unknown := reg_unknown reg;
     reg_block_bans := foldl (fun m nd => <[nd.1 := nd.2]> m) (reg_block_bans reg) durations |}.

(** ** Reading a user agent *)

(** The longest prefix of at most [n] bytes that ends at a character. *)
Fixpoint floor_boundary (n : nat) (s : bytes) : nat :=
  if is_char_boundary n s then n else match n with S n' => floor_boundary n' s | O => O end.
Definition tracked_ua (ua : bytes) : bytes := take (floor_boundary (Nat.min (length ua) MAX_TRACKED_UA_BYTES) ua) ua.

Definition BOT_INDICATORS : list bytes :=
  as_bytes <$> ["bot"; "crawler"; "spider"; "scraper"; "fetcher"; "archiver"; "monitor"; "checker"; "slurp"; "scan";
                "http://"; "https://"; "+http"; "compatible;"]%string.
Definition is_bot_like_ua (ua_lower : bytes) : bool := existsb (fun ind => contains ind ua_lower) BOT_INDICATORS.

(** [str::find] of a predicate on ASCII characters. *)
Fixpoint find_where (f : Z -> bool) (s : bytes) : option nat :=
  match s with [] => None | c :: s' => if f c then Some 0%nat else S <$> find_where f s' end.

Definition extract_bot_key (ua_lower : bytes) : bytes :=
  let named :=
    start ← str_find (as_bytes "compatible;") ua_lower;
    if (start + 12 <=? length ua_lower)%nat && is_char_boundary (start + 12) ua_lower then
      let trimmed := trim_start (drop (start + 12) ua_lower) in
      e ← find_where (fun c => bool_decide (c ∈ as_bytes "/;)")) trimmed;
      Some (trim (take e trimmed))
    else None in
  match named with
  | Some key => key
  | None =>
      match str_find (as_bytes "/") ua_lower with
      | Some slash => if (slash <? 30)%nat then trim (take slash ua_lower) else truncate_chars 30 ua_lower
      | None => truncate_chars 30 ua_lower
      end
  end.

(** ** Operations *)
Section registry.
Context `{UnicodeLower}.

Definition policy_of_text (s : bytes) : BotPolicy :=
  let lower := str_to_lowercase s in
  if bool_decide (lower = as_bytes "block") then BotBlock
  else if bool_decide (lower = as_bytes "allow") then BotAllow else BotMonitor.

Definition from_rule_configs (cfgs : list BotRuleConfig) : BotRegistry :=
  with_block_ban_durations (omap (fun rc => (fun s => (rc_name rc, secs s)) <$> rc_ban_duration_secs rc) cfgs)
    (registry_new ((fun rc => {| rule_name := rc_name rc; ua_contains := rc_ua_contains rc; rule_org := rc_org rc;
                                 rule_policy := policy_of_text (rc_policy rc) |}) <$> cfgs)).

Definition rule_matches (ua_lower : bytes) (r : BotRule) : bool :=
  negb (bool_decide (trim (ua_contains r) = [])) && contains (str_to_lowercase (ua_contains r)) ua_lower.

(** One more request of a bot. *)
Definition touch (now : DateTime) (ip : string) (ua : bytes) (s : BotStats) : BotStats :=
  {| bs_name := bs_name s; bs_org := bs_org s; bs_policy := bs_policy s; request_count := u64_add (request_count s) 1;
     last_seen_ip := ip; last_seen_ua := ua;
     first_seen_at := match first_seen_at s with Some t => Some t | None => Some now end; last_seen_at := Some now |}.

Definition classify (now : DateTime) (user_agent : bytes) (ip : string) (reg : BotRegistry) : BotRegistry * option BotPolicy :=
  let ua := tracked_ua user_agent in
  let ua_lower := str_to_lowercase ua in
  match List.find (rule_matches ua_lower) (reg_rules reg) with
  | Some r =>
      let stat := default (stats_new (rule_name r) (rule_org r) (rule_policy r)) (reg_stats reg !! rule_name r) in
      ({| reg_rules := reg_rules reg; reg_stats := <[rule_name r := touch now ip ua stat]> (reg_stats reg);
          reg_unknown := reg_unknown reg; reg_block_bans := reg_block_bans reg |}, Some (rule_policy r))
  | None =>
      if is_bot_like_ua ua_lower then
        let key := of_bytes (extract_bot_key ua_lower) in
        if (MAX_UNKNOWN_BOTS <=? size (reg_unknown reg))%nat && negb (bool_decide (is_Some (reg_unknown reg !! key))) then (reg, None) else
        let stat := default (stats_new key "Unknown" BotMonitor) (reg_unknown reg !! key) in
        ({| reg_rules := reg_rules reg; reg_stats := reg_stats reg;
            reg_unknown := <[key := touch now ip ua stat]> (reg_unknown reg); reg_block_bans := reg_block_bans reg |}, None)
      else (reg, None)
  end.

Definition classify_rule (now : DateTime) (user_agent : bytes) (ip : string) (reg : BotRegistry) : BotRegistry * option BotMatch :=
  let '(reg, policy) := classify now user_agent ip reg in
  (reg,
   policy ← policy;
   r ← List.find (rule_matches (str_to_lowercase (tracked_ua user_agent))) (reg_rules reg);
   Some {| bm_policy := policy; bm_name := rule_name r; bm_block_ban := default DEFAULT_BLOCK_BAN (reg_block_bans reg !! rule_name r) |}).
End registry.

(** The first rule with the name, if any, gets the policy. *)
Fixpoint set_rule_policy (name : string) (p : BotPolicy) (rules : list BotRule) : option (list BotRule) :=
  match rules with
  | [] => None
  | r :: rules' =>
      if bool_decide (rule_name r = name) then Some (with_policy p r :: rules')
      else (cons r) <$> set_rule_policy name p rules'
  end.
Definition set_stat_policy (p : BotPolicy) (s : BotStats) : BotStats :=
  {| bs_name := bs_name s; bs_org := bs_org s; bs_policy := p; request_count := request_count s; last_seen_ip := last_seen_ip s;
     last_seen_ua := last_seen_ua s; first_seen_at := first_seen_at s; last_seen_at := last_seen_at s |}.

Definition set_policy (name : string) (policy : BotPolicy) (reg : BotRegistry) : BotRegistry * bool :=
  let policy := effective_policy policy in
  match set_rule_policy name policy (reg_rules reg) with
  | Some rules =>
      ({| reg_rules := rules; reg_stats := alter (set_stat_policy policy) name (reg_stats reg);
          reg_unknown := reg_unknown reg; reg_block_bans := reg_block_bans reg |}, true)
  | None =>
      match reg_unknown reg !! name with
      | Some stat =>
          ({| reg_rules := reg_rules reg ++ [{| rule_name := name; ua_contains := as_bytes name; rule_org := bs_org stat; rule_policy := policy |}];
              reg_stats := reg_stats reg; reg_unknown := <[name := set_stat_policy policy stat]> (reg_unknown reg);
              reg_block_bans := reg_block_bans reg |}, true)
      | None => (reg, false)
      end
  end.

(** ** The registry over time *)
Inductive bot_op : Type :=
| BClassify (now : DateTime) (ua : bytes) (ip : string)
| BSetPolicy (name : string) (p : BotPolicy).
Definition bot_step `{UnicodeLower} (reg : BotRegistry) (o : bot_op) : BotRegistry :=
  match o with
  | BClassify now ua ip => (classify_rule now ua ip reg).1
  | BSetPolicy name p => (set_policy name p reg).1
  end.

Lemma floor_boundary_le (n : nat) (s : bytes) : (floor_boundary n s <= n)%nat.
Proof. induction n as [|n IH]; cbn [floor_boundary]; destruct (is_char_boundary _ s); lia. Qed.
Lemma tracked_ua_short (ua : bytes) : (length (tracked_ua ua) <= MAX_TRACKED_UA_BYTES)%nat.
Proof. unfold tracked_ua. rewrite length_take. pose proof (floor_boundary_le (Nat.min (length ua) MAX_TRACKED_UA_BYTES) ua). lia. Qed.
Lemma tracked_ua_id (ua : bytes) : (length ua <= MAX_TRACKED_UA_BYTES)%nat -> tracked_ua ua = ua.
Proof.
  intros Hl. unfold tracked_ua. rewrite Nat.min_l by done. assert (Hb : is_char_boundary (length ua) ua = true).
  { unfold is_char_boundary. rewrite lookup_ge_None_2 by done. by rewrite Nat.eqb_refl. }
  replace (floor_boundary (length ua) ua) with (length ua) by (destruct (length ua); cbn [floor_boundary]; by rewrite Hb). by rewrite firstn_all.
Qed.

Lemma list_to_set_size (l : list string) : (size (list_to_set l : gset string) <= length l)%nat.
Proof.
  induction l as [|x l IH]; [done|]. cbn [list_to_set length]. rewrite size_union_alt, size_singleton.
  assert (size (list_to_set l ∖ {[x]} : gset string) <= size (list_to_set l : gset string))%nat by (apply subseteq_size; set_solver). lia.
Qed.

(** A kept entry: never an exemption, never a long string. *)
Definition stat_ok (s : BotStats) : Prop := bs_policy s <> BotAllow /\ (length (last_seen_ua s) <= MAX_TRACKED_UA_BYTES)%nat.
Definition stats_ok (m : gmap string BotStats) : Prop := forall k s, m !! k = Some s -> stat_ok s.

Record registry_inv (names : list string) (reg : BotRegistry) : Prop := {
  inv_rules : Forall (fun r => rule_policy r <> BotAllow) (reg_rules reg);
  inv_stats : stats_ok (reg_stats reg);
  inv_unknown : stats_ok (reg_unknown reg);
  inv_size : (size (reg_unknown reg) <= MAX_UNKNOWN_BOTS)%nat;
  inv_known : dom (reg_stats reg) ⊆ list_to_set (C := gset string) (rule_name <$> reg_rules reg);
  inv_promoted : exists promoted, rule_name <$> reg_rules reg = names ++ promoted /\ NoDup promoted /\
    forall n, n ∈ promoted -> is_Some (reg_unknown reg !! n);
}.

Lemma stats_ok_insert (m : gmap string BotStats) (k : string) (s : BotStats) : stat_ok s -> stats_ok m -> stats_ok (<[k := s]> m).
Proof. intros Hs Hm k' s'. rewrite lookup_insert. case_decide; [by intros [= <-]|apply Hm]. Qed.
Lemma effective_not_allow (p : BotPolicy) : effective_policy p <> BotAllow.
Proof. by destruct p. Qed.
Lemma stats_ok_default (m : gmap string BotStats) (k : string) (s : BotStats) : stat_ok s -> stats_ok m -> stat_ok (default s (m !! k)).
Proof. intros Hs Hm. destruct (m !! k) eqn:E; [by eapply Hm|done]. Qed.
Lemma touch_ok (now : DateTime) (ip : string) (ua : bytes) (s : BotStats) : stat_ok s -> stat_ok (touch now ip (tracked_ua ua) s).
Proof. intros [Hp _]. split; [done|apply tracked_ua_short]. Qed.
Lemma stats_new_ok (name org : string) (p : BotPolicy) : p <> BotAllow -> stat_ok (stats_new name org p).
Proof. intros Hp. split; [done|simpl; lia]. Qed.
#[local] Hint Resolve stats_ok_insert stats_ok_default touch_ok stats_new_ok effective_not_allow : core.

Section invariants.
Context `{UnicodeLower}.

Lemma classify_inv (names : list string) (now : DateTime) (ua : bytes) (ip : string) (reg : BotRegistry) : registry_inv names reg ->
  registry_inv names (classify now ua ip reg).1 /\ (classify now ua ip reg).2 <> Some BotAllow.
Proof.
  intros [Hr Hs Hu Hz Hk Hp]. unfold classify. destruct (List.find _ (reg_rules reg)) as [r|] eqn:Ef.
  - apply find_some in Ef as [Hin%list_elem_of_In _]. rewrite Forall_forall in Hr. pose proof (Hr r Hin) as Hpol. split; [|by intros [= ?]].
    split; simpl; [by apply Forall_forall| |done|done| |done].
    + apply stats_ok_insert; [|done]. apply touch_ok, stats_ok_default; auto.
    + rewrite dom_insert. assert (rule_name r ∈ rule_name <$> reg_rules reg) by (by apply list_elem_of_fmap_2). set_solver.
  - destruct (is_bot_like_ua _); [|done]. set (key := of_bytes _). destruct (_ && _) eqn:Efull; [done|]. split; [|done].
    split; simpl; [done|done| | |done|].
    + apply stats_ok_insert; [|done]. apply touch_ok, stats_ok_default; [|done]. by apply stats_new_ok.
    + rewrite map_size_insert. destruct (reg_unknown reg !! key) eqn:Ek; [done|]. simpl. apply andb_false_iff in Efull as [Hlt%Nat.leb_gt|Hc]; [lia|].
      by rewrite bool_decide_eq_false_2 in Hc by (by intros [? ?]).
    + destruct Hp as (pr & E & Hnd & Hin). exists pr. split_and!; [done..|]. intros n Hn. rewrite lookup_insert. case_decide; [done|auto].
Qed.

Lemma set_rule_policy_Some (name : string) (p : BotPolicy) (rules rules' : list BotRule) : set_rule_policy name p rules = Some rules' -> p <> BotAllow ->
  rule_name <$> rules' = rule_name <$> rules /\ (Forall (fun r => rule_policy r <> BotAllow) rules -> Forall (fun r => rule_policy r <> BotAllow) rules').
Proof.
  intros Hs Hp. revert rules' Hs. induction rules as [|r rules IH]; intros rules' Hs; simpl in Hs; [done|]. case_bool_decide.
  - injection Hs as <-. split; [done|]. intros [_ Hf]%Forall_cons. by constructor.
  - apply fmap_Some in Hs as (rs & Hrs & ->). destruct (IH rs Hrs) as [E Hf]. simpl. split; [by f_equal|]. intros [? ?]%Forall_cons. constructor; auto.
Qed.
Lemma set_rule_policy_None (name : string) (p : BotPolicy) (rules : list BotRule) : set_rule_policy name p rules = None -> name ∉ rule_name <$> rules.
Proof.
  induction rules as [|r rules IH]; simpl; [set_solver|]. case_bool_decide; [done|]. intros Hn%fmap_None. apply not_elem_of_cons. split; [congruence|auto].
Qed.

Lemma set_policy_inv (names : list string) (name : string) (p : BotPolicy) (reg : BotRegistry) : registry_inv names reg -> registry_inv names (set_policy name p reg).1.
Proof.
  intros [Hr Hs Hu Hz Hk Hp]. unfold set_policy. pose proof (effective_not_allow p) as Hpol. set (q := effective_policy p) in *.
  assert (Hset : forall s, stat_ok s -> stat_ok (set_stat_policy q s)) by (intros s [_ Hl]; by split).
  destruct (set_rule_policy name q (reg_rules reg)) as [rules|] eqn:Es.
  - destruct (set_rule_policy_Some _ _ _ _ Es Hpol) as [E Hf]. split; simpl; [auto| |done|done|by rewrite dom_alter_L, E|by rewrite E].
    intros k s. rewrite lookup_alter. case_decide; [|apply Hs]. intros (s' & Hs' & ->)%fmap_Some. eauto.
  - apply set_rule_policy_None in Es. destruct (reg_unknown reg !! name) as [stat|] eqn:Eu; [|done]. split; simpl.
    + apply Forall_app. split; [done|]. by apply Forall_singleton.
    + done.
    + apply stats_ok_insert; [|done]. eauto.
    + rewrite map_size_insert, Eu. done.
    + rewrite fmap_app. set_solver.
    + destruct Hp as (pr & E & Hnd & Hin). exists (pr ++ [name]). rewrite fmap_app, E, app_assoc. simpl. split_and!; [done| |].
      * apply NoDup_app. split_and!; [done| |apply NoDup_singleton]. intros n Hn ->%list_elem_of_singleton. apply Es. rewrite E. set_solver.
      * intros n Hn. rewrite lookup_insert. case_decide; [done|]. apply Hin. set_solver.
Qed.

Lemma registry_new_inv (rules : list BotRule) (ds : list (string * Duration)) :
  registry_inv (rule_name <$> rules) (with_block_ban_durations ds (registry_new rules)).
Proof.
  set (rs := (fun r => with_policy (effective_policy (rule_policy r)) r) <$> rules).
  assert (Hrs : Forall (fun r => rule_policy r <> BotAllow) rs) by (apply Forall_fmap, Forall_forall; intros r _; apply effective_not_allow).
  assert (Hnames : rule_name <$> rs = rule_name <$> rules) by (unfold rs; rewrite <- list_fmap_compose; by apply list_fmap_ext).
  assert (Hst : forall m, stats_ok m -> let m' := foldl (fun m r => <[rule_name r := stats_new (rule_name r) (rule_org r) (rule_policy r)]> m) m rs in
    stats_ok m' /\ dom m' ⊆ dom m ∪ list_to_set (rule_name <$> rs)).
  { clear Hnames. induction Hrs as [|r l Hr _ IH]; intros m Hm; simpl; [set_solver|].
    destruct (IH (<[rule_name r := stats_new (rule_name r) (rule_org r) (rule_policy r)]> m)) as [H1 H2]; [auto|]. split; [done|]. set_solver. }
  destruct (Hst ∅) as [H1 H2]; [by intros k s; rewrite lookup_empty|]. split; simpl; fold rs.
  - done.
  - done.
  - intros k s. by rewrite lookup_empty.
  - rewrite map_size_empty. lia.
  - set_solver.
  - exists []. rewrite app_nil_r. split_and!; [done|constructor|set_solver].
Qed.

Lemma bot_run_inv (names : list string) (ops : list bot_op) (reg : BotRegistry) : registry_inv names reg -> registry_inv names (foldl bot_step reg ops).
Proof.
  revert reg. induction ops as [|o ops IH]; intros reg Hi; simpl; [done|]. apply IH. destruct o as [now ua ip|name p]; simpl; [|by apply set_policy_inv].
  unfold classify_rule. destruct (classify_inv names now ua ip reg Hi) as [Hc _]. by destruct (classify now ua ip reg).
Qed.
End invariants.

(** ** Promises *)
Section promises.
Context `{UnicodeLower}.

(** The attacker's user agent buys nothing: after any requests and policy
    changes, whatever the rules say, no user agent is classified as allowed, and
    the registry holds no more than the configured rules, 1024 discovered bots,
    as many rules promoted from these, and a kilobyte of user agent for each. *)
Theorem registry_contained (cfgs : list BotRuleConfig) (ops : list bot_op) (now : DateTime) (ua : bytes) (ip : string) :
  let reg := foldl bot_step (from_rule_configs cfgs) ops in
  (classify now ua ip reg).2 <> Some BotAllow /\
  (length (reg_rules reg) <= length cfgs + MAX_UNKNOWN_BOTS)%nat /\ (size (reg_stats reg) <= length (reg_rules reg))%nat /\
  (size (reg_unknown reg) <= MAX_UNKNOWN_BOTS)%nat /\
  forall k s, reg_stats reg !! k = Some s \/ reg_unknown reg !! k = Some s -> (length (last_seen_ua s) <= MAX_TRACKED_UA_BYTES)%nat.
Proof.
  cbv zeta. pose proof (bot_run_inv _ ops _ (registry_new_inv ((fun rc => {| rule_name := rc_name rc; ua_contains := rc_ua_contains rc; rule_org := rc_org rc;
    rule_policy := policy_of_text (rc_policy rc) |}) <$> cfgs) (omap (fun rc => (fun s => (rc_name rc, secs s)) <$> rc_ban_duration_secs rc) cfgs))) as Hi.
  change (with_block_ban_durations _ (registry_new _)) with (from_rule_configs cfgs) in Hi. set (reg := foldl bot_step _ ops) in *.
  split; [apply (classify_inv _ now ua ip reg Hi)|]. destruct Hi as [_ Hs Hu Hz Hk (pr & E & Hnd & Hin)]. split_and!.
  - assert (Hlen : length (reg_rules reg) = (length cfgs + length pr)%nat).
    { rewrite <- (length_fmap rule_name), E, length_app, !length_fmap. done. }
    assert (Hsub : (length pr <= size (reg_unknown reg))%nat).
    { rewrite <- size_dom. rewrite <- (size_list_to_set (C := gset string) pr) by done. apply subseteq_size. intros n Hn%elem_of_list_to_set. apply elem_of_dom. auto. }
    lia.
  - rewrite <- size_dom. etransitivity; [apply subseteq_size, Hk|]. rewrite <- (length_fmap rule_name). apply list_to_set_size.
  - done.
  - intros k s [Hs'|Hu']; [apply (Hs k s Hs')|apply (Hu k s Hu')].
Qed.

(** Requests leave the rules and their ban durations as they are. *)
Lemma requests_keep_rules (reqs : list (DateTime * bytes * string)) (reg : BotRegistry) :
  let reg' := foldl (fun reg q => (classify_rule q.1.1 q.1.2 q.2 reg).1) reg reqs in
  reg_rules reg' = reg_rules reg /\ reg_block_bans reg' = reg_block_bans reg.
Proof.
  cbv zeta. revert reg. induction reqs as [|[[now ua] ip] reqs IH]; intros reg; simpl; [done|].
  assert (Hone : reg_rules (classify_rule now ua ip reg).1 = reg_rules reg /\ reg_block_bans (classify_rule now ua ip reg).1 = reg_block_bans reg).
  { unfold classify_rule, classify. destruct (List.find _ _); [done|]. destruct (is_bot_like_ua _); [|done]. by destruct (_ && _). }
  destruct (IH (classify_rule now ua ip reg).1) as [-> ->]. exact Hone.
Qed.

Lemma find_at {A} (f : A -> bool) (pre post : list A) (x : A) : Forall (fun y => f y = false) pre -> f x = true -> List.find f (pre ++ x :: post) = Some x.
Proof. intros Hp Hx. induction Hp as [|y pre Hy _ IH]; simpl; [by rewrite Hx|by rewrite Hy]. Qed.

Lemma block_bans_range (cfgs : list BotRuleConfig) (name : string) (m : gmap string Duration) : Forall bot_ok cfgs ->
  (forall d, m !! name = Some d -> secs 60 <= d <= secs 604800) ->
  forall d, foldl (fun m nd => <[nd.1 := nd.2]> m) m (omap (fun rc => (fun s => (rc_name rc, secs s)) <$> rc_ban_duration_secs rc) cfgs) !! name = Some d ->
    secs 60 <= d <= secs 604800.
Proof.
  intros Hok. revert m. induction Hok as [|rc cfgs [_ Hrc] _ IH]; intros m Hm d; simpl; [auto|].
  destruct (rc_ban_duration_secs rc) as [s|]; simpl; [|by apply IH]. apply IH. intros d'. rewrite lookup_insert.
  case_decide; [|auto]. intros [= <-]. specialize (Hrc s eq_refl). unfold secs, nanos_per_sec. lia.
Qed.

(** A blocking rule blocks: in a configuration that passed the check, after any
    requests, one whose user agent holds the pattern of a blocking rule, in any
    letter case, and of no rule before it, is matched by that rule, and the ban
    it leads to lasts between a minute and a week. *)
Theorem block_rule_enforced `{AddrText} (c : HiveGuardConfig) (pre post : list BotRuleConfig) (rc : BotRuleConfig)
  (reqs : list (DateTime * bytes * string)) (now : DateTime) (ua : bytes) (ip : string)
  (Hv : validate c = Ok tt) (Hbots : hc_bots c = pre ++ rc :: post) (Hblock : str_to_lowercase (rc_policy rc) = as_bytes "block")
  (Hua : (length ua <= MAX_TRACKED_UA_BYTES)%nat) (Hmatch : contains (str_to_lowercase (rc_ua_contains rc)) (str_to_lowercase ua) = true)
  (Hpre : Forall (fun b => contains (str_to_lowercase (rc_ua_contains b)) (str_to_lowercase ua) = false) pre) :
  let reg := foldl (fun reg q => (classify_rule q.1.1 q.1.2 q.2 reg).1) (from_rule_configs (hc_bots c)) reqs in
  exists m, (classify_rule now ua ip reg).2 = Some m /\ bm_policy m = BotBlock /\ bm_name m = rc_name rc /\ secs 60 <= bm_block_ban m <= secs 604800.
Proof.
  cbv zeta. destruct (validate_ok c Hv) as [Hok _]. destruct (requests_keep_rules reqs (from_rule_configs (hc_bots c))) as [Er Eb].
  set (reg := foldl _ _ reqs) in *. clearbody reg.
  set (rule_of := fun b => with_policy (effective_policy (policy_of_text (rc_policy b)))
    {| rule_name := rc_name b; ua_contains := rc_ua_contains b; rule_org := rc_org b; rule_policy := policy_of_text (rc_policy b) |}).
  assert (Erules : reg_rules reg = rule_of <$> pre ++ rc :: post) by (rewrite Er, <- Hbots; simpl; by rewrite <- list_fmap_compose).
  assert (Hf : List.find (rule_matches (str_to_lowercase (tracked_ua ua))) (reg_rules reg) = Some (rule_of rc)).
  { rewrite Erules, fmap_app, tracked_ua_id by done. apply find_at.
    - apply Forall_fmap. eapply Forall_impl; [exact Hpre|]. intros b Hb. unfold rule_matches. simpl. rewrite Hb. apply andb_false_r.
    - unfold rule_matches. simpl. rewrite Hmatch, andb_true_r. rewrite bool_decide_eq_false_2; [done|].
      rewrite Hbots in Hok. apply Forall_app in Hok as [_ [[? _] _]%Forall_cons]. done. }
  unfold classify_rule, classify. rewrite Hf. cbn [mbind option_bind reg_rules]. rewrite Hf. eexists. split; [reflexivity|]. simpl. rewrite Eb.
  split; [unfold policy_of_text; by rewrite bool_decide_eq_true_2|]. split; [done|].
  destruct (reg_block_bans (from_rule_configs (hc_bots c)) !! rc_name rc) as [d|] eqn:Ed; simpl; [|by vm_compute; split].
  apply (block_bans_range (hc_bots c) (rc_name rc) ∅ Hok); [by intros d'; rewrite lookup_empty|exact Ed].
Qed.
End promises.

(** ** Witness *)
Module BotSample.
#[local] Instance lower : UnicodeLower := to_ascii_lowercase.
#[local] Instance addr : AddrText := {| parse_ip _ := None; parse_net _ := None |}.
Definition hour : Thresholded := {| th_threshold := 5; th_ban_duration := from_secs 3600 |}.
Definition bot (name pattern policy : string) (ban : option Z) : BotRuleConfig :=
  {| rc_name := name; rc_ua_contains := as_bytes pattern; rc_org := ""; rc_policy := as_bytes policy; rc_ban_duration_secs := ban |}.
Definition sample : HiveGuardConfig :=
  {| hc_node := {| nc_name := "n"; listen_gossip := ""; listen_api := ""; data_dir := "/d"; seeds := []; cluster_mode := Strict; founder_nodes := [] |};
     hc_whitelist := [];
     hc_detectors := {| ssh_bruteforce := hour; ssh_user_enum := hour; path_probe_ban := permanent; http_4xx_flood := hour; scanner_fingerprint_ban := permanent;
                        smtp_bruteforce := hour; port_scan := hour; distributed_slow := hour; honeypot_ban := permanent |};
     hc_trust := {| ban_threshold := f64_lit 2 1; new_node_grace_period := from_secs 86400; new_node_threshold_multiplier := f64_lit 2 1;
                    max_bans_per_minute := 100; auto_quarantine_multiplier := f64_lit 10 1; remote_min_prefix_v4 := 24; remote_min_prefix_v6 := 48;
                    remote_max_ttl_secs := 86400 |};
     hc_backend := "nftables"; hc_bots := [bot "Google" "googlebot" "allow" None; bot "Bad" "BadBot" "Block" (Some 600)] |}.

Lemma block_rule_enforced_witness :
  exists m, (classify_rule 7 (as_bytes "Mozilla/5.0 badbot/1.0") "1.2.3.4" (from_rule_configs (hc_bots sample))).2 = Some m /\
    bm_policy m = BotBlock /\ bm_name m = "Bad"%string /\ secs 60 <= bm_block_ban m <= secs 604800.
Proof.
  apply (block_rule_enforced sample [bot "Google" "googlebot" "allow" None] [] (bot "Bad" "BadBot" "Block" (Some 600)) [] 7
    (as_bytes "Mozilla/5.0 badbot/1.0") "1.2.3.4").
  - vm_compute. reflexivity.
  - reflexivity.
  - vm_compute. reflexivity.
  - vm_compute. lia.
  - vm_compute. reflexivity.
  - repeat constructor.
Defined.

(** The name of a discovered bot without a space after the semicolon loses its
    first letter. *)
Example bot_key_cut :
  of_bytes (extract_bot_key (as_bytes "mozilla/5.0 (compatible; googlebot/2.1)")) = "googlebot"%string /\
  of_bytes (extract_bot_key (as_bytes "mozilla/5.0 (compatible;googlebot/2.1)")) = "ooglebot"%string.
Proof. by vm_compute. Qed.
End BotSample.
