(* ===== verification/Cti.v ===== *)
(** * Reputation feeds ([hiveguard-cti/src], [plugin_bridge.rs])

    The report cache with its file, the AbuseIPDB client and its retries, the
    four providers (AbuseIPDB, Spamhaus, OTX, Tor), the plugins around them with
    the bridge to the daemon, the GeoIP lookup, and the enricher that asks every
    provider. What the services answer is an input. *)
From S2P Require Import Prelude Text Models Whitelist Snapshot Floats Signed Windows Detector PluginConfig Durations.
Local Open Scope Z_scope.

(** ** Findings ([enricher.rs]) *)
Record CtiSignal : Type := { cti_provider : string; cti_severity : Z; cti_confidence : Z; cti_description : string }.
Record EnrichStats : Type := { cache_hit : bool; api_called : bool; api_error : bool }.
Definition no_stats : EnrichStats := {| cache_hit := false; api_called := false; api_error := false |}.
Definition was_hit : EnrichStats := {| cache_hit := true; api_called := false; api_error := false |}.
Definition was_called (error : bool) : EnrichStats := {| cache_hit := false; api_called := true; api_error := error |}.

(** ** The cache ([cache.rs]) *)
Record AbuseIpReport : Type := {
  ip_address : IpAddr; confidence_score : Z; total_reports : Z; last_reported_at : option DateTime;
  usage_type : option string; country_code : option string; isp : option string;
}.
Record Entry : Type := { en_report : AbuseIpReport; fetched_at_unix : Z }.

(** The durations of the cache are whole seconds of the wall clock. *)
Record CtiCache : Type := { cc_entries : gmap IpAddr Entry; cc_ttl : Z; cc_max_entries : nat }.

Definition DEFAULT_TTL_SECS : Z := 6 * 3600.
Definition DEFAULT_MAX_ENTRIES : nat := Z.to_nat 100000.
Definition with_options (ttl : Z) (max_entries : nat) : CtiCache := {| cc_entries := ∅; cc_ttl := ttl; cc_max_entries := max_entries |}.
Definition cache_new : CtiCache := with_options DEFAULT_TTL_SECS DEFAULT_MAX_ENTRIES.
Definition set_entries (m : gmap IpAddr Entry) (c : CtiCache) : CtiCache :=
  {| cc_entries := m; cc_ttl := cc_ttl c; cc_max_entries := cc_max_entries c |}.

(** [saturating_sub]: an entry from the future is new. *)
Definition is_expired (now ttl : Z) (e : Entry) : bool := ttl <=? Z.max 0 (now - fetched_at_unix e).

Definition cache_get (now : Z) (ip : IpAddr) (c : CtiCache) : CtiCache * option AbuseIpReport :=
  match cc_entries c !! ip with
  | Some e => if is_expired now (cc_ttl c) e then (set_entries (delete ip (cc_entries c)) c, None) else (c, Some (en_report e))
  | None => (c, None)
  end.

Definition older (p q : IpAddr * Z) : Prop := p.2 <= q.2.
#[export] Instance older_dec : RelDecision older.
Proof. intros p q. unfold older. apply _. Defined.

(** The entries by age; entries of the same age come in any order. *)
Definition by_age `{HashIter} (m : gmap IpAddr Entry) : list (IpAddr * Z) :=
  merge_sort older ((fun ip => (ip, from_option fetched_at_unix 0 (m !! ip))) <$> hash_iter (dom m)).
Definition target_remove (c : CtiCache) : nat := Nat.max (cc_max_entries c / 10) 1.
Definition evict_oldest `{HashIter} (c : CtiCache) : CtiCache :=
  set_entries (foldl (fun m ip => delete ip m) (cc_entries c) (take (target_remove c) (by_age (cc_entries c))).*1) c.

Definition cache_insert `{HashIter} (now : Z) (ip : IpAddr) (report : AbuseIpReport) (c : CtiCache) : CtiCache :=
  let c := if (cc_max_entries c <=? size (cc_entries c))%nat then evict_oldest c else c in
  set_entries (<[ip := {| en_report := report; fetched_at_unix := now |}]> (cc_entries c)) c.

Definition live_count (now : Z) (c : CtiCache) : nat :=
  size (filter (fun kv : IpAddr * Entry => is_expired now (cc_ttl c) kv.2 = false) (cc_entries c)).

(** *** The file *)
Definition to_be_bytes (n : nat) (x : Z) : bytes := rev (to_le_bytes n x).
Definition of_be_bytes (bs : bytes) : Z := of_le_bytes (rev bs).
Definition octets (ip : IpAddr) : bytes := match ip with IpV4 b => to_be_bytes 4 b | IpV6 b => to_be_bytes 16 b end.

(** [IpAddrBytes] from and to an address. *)
Definition IpAddrBytes : Type := bytes.
Definition ip_try_from (b : IpAddrBytes) : option IpAddr :=
  match length b with
  | 4%nat => Some (IpV4 (of_be_bytes b))
  | 16%nat => Some (IpV6 (of_be_bytes b))
  | _ => None
  end.
Definition DiskCache : Type := list (IpAddrBytes * Entry).

Definition load_entry (now ttl : Z) (m : gmap IpAddr Entry) (x : IpAddrBytes * Entry) : gmap IpAddr Entry :=
  if is_expired now ttl x.2 then m else match ip_try_from x.1 with Some ip => <[ip := x.2]> m | None => m end.
(** [None]: there is no file, or it cannot be read. *)
Definition load_from_disk `{Bincode DiskCache} (now : Z) (file : option bytes) (c : CtiCache) : CtiCache :=
  match file ≫= bincode_deserialize with
  | Some disk => set_entries (foldl (load_entry now (cc_ttl c)) (cc_entries c) disk) c
  | None => c
  end.

(** The entries written; [written] tells whether writing and renaming the
    temporary file went through. *)
Definition disk_entry (now : Z) (c : CtiCache) (ip : IpAddr) : DiskCache :=
  match cc_entries c !! ip with
  | Some e => if is_expired now (cc_ttl c) e then [] else [(octets ip, e)]
  | None => []
  end.
Definition disk_entries `{HashIter} (now : Z) (c : CtiCache) : DiskCache := hash_iter (dom (cc_entries c)) ≫= disk_entry now c.
Definition flush_to_disk `{HashIter} `{BincodeSer DiskCache} (now : Z) (written : bool) (c : CtiCache) (file : option bytes) : option bytes :=
  match bincode_serialize (disk_entries now c) with
  | Some bs => if written then Some bs else file
  | None => file
  end.

(** ** The AbuseIPDB client ([abuseipdb.rs]) *)
(** An error of the HTTP library: what the client looks at is whether the
    request ran out of time or found no connection. *)
Record RequestError : Type := { rq_timeout_or_connect : bool; rq_message : string }.
Inductive AbuseIpDbError : Type :=
| AbRequest (e : RequestError)
| AbApi (status : Z) (message : bytes)
| AbRateLimit (retry_after : option Z).

(** A response: its status with its text, the header [Retry-After], and what
    the library reads from the body, as text, as a report or as errors. *)
Record Response : Type := {
  rs_status : Z; rs_status_text : bytes; rs_retry_after : option bytes;
  rs_text : option bytes; rs_report : result AbuseIpReport RequestError; rs_errors : option (list bytes);
}.
Definition MAX_RETRIES : nat := 2.
Definition RETRY_BACKOFF_MS : Z := 300.

Inductive attempt_outcome : Type := Retry (e : AbuseIpDbError) | Return (r : result AbuseIpReport AbuseIpDbError).

(** One attempt. *)
Definition attempt_result (answer : result Response RequestError) : attempt_outcome :=
  match answer with
  | Err e => if rq_timeout_or_connect e then Retry (AbRequest e) else Return (Err (AbRequest e))
  | Ok resp =>
      if rs_status resp =? 429 then Return (Err (AbRateLimit (rs_retry_after resp ≫= parse_uint (2 ^ 64 - 1))))
      else if (500 <=? rs_status resp) && (rs_status resp <? 600) then Retry (AbApi (rs_status resp) (default [] (rs_text resp)))
      else if negb ((200 <=? rs_status resp) && (rs_status resp <? 300)) then
        Return (Err (AbApi (rs_status resp) (default (rs_status_text resp) (rs_errors resp ≫= head))))
      else Return (match rs_report resp with Ok r => Ok r | Err e => Err (AbRequest e) end)
  end.

(** The delay before an attempt. *)
Definition backoff_ms (attempt : nat) : Z := match attempt with O => 0 | S n => RETRY_BACKOFF_MS * 2 ^ Z.of_nat n end.

(** The loop: the result, the milliseconds slept and the requests made;
    [answer n] is what the service gives to attempt [n]. *)
Fixpoint check_from (left attempt : nat) (answer : nat -> result Response RequestError) (last_err : option AbuseIpDbError)
    : result AbuseIpReport AbuseIpDbError * Z * nat :=
  match left with
  | O => (Err (default (AbApi 0 (as_bytes "max retries exceeded")) last_err), 0, 0%nat)
  | S left' =>
      match attempt_result (answer attempt) with
      | Return r => (r, backoff_ms attempt, 1%nat)
      | Retry e =>
          let '(r, slept, n) := check_from left' (S attempt) answer (Some e) in (r, backoff_ms attempt + slept, S n)
      end
  end.
Definition client_check (answer : nat -> result Response RequestError) : result AbuseIpReport AbuseIpDbError * Z * nat :=
  check_from (S MAX_RETRIES) 0 answer None.

(** ** Providers

    The interface of [provider.rs]: the answers of the services, the clocks of
    the call, the address and the provider, to the provider after the call, a
    finding and the statistics. *)
Record OtxResponse : Type := { ox_threat_score : option spec_float; ox_pulse_count : option Z }.
Inductive dns_result : Type := DnsAddrs (l : list Z) | DnsNoRecords | DnsError.
Record Answers : Type := {
  ans_abuse : IpAddr -> nat -> result Response RequestError;
  ans_dns : bytes -> dns_result;
  ans_otx : IpAddr -> option OtxResponse;
}.
(** Seconds of the wall clock and the monotonic clock, at the lookup in the
    cache and when an answer is stored. *)
Record call_clock : Type := { unix_lookup : Z; unix_store : Z; instant_lookup : Z; instant_store : Z }.

Class CtiProvider (P : Type) : Type :=
  check : Answers -> call_clock -> IpAddr -> P -> P * (option CtiSignal * EnrichStats).

(** *** AbuseIPDB *)
Record AbuseIpDbProvider : Type := { ab_cache : CtiCache; ab_threshold : Z; ab_ban_on_first_hit : bool }.
Definition set_cache (c : CtiCache) (p : AbuseIpDbProvider) : AbuseIpDbProvider :=
  {| ab_cache := c; ab_threshold := ab_threshold p; ab_ban_on_first_hit := ab_ban_on_first_hit p |}.
Definition abuse_new `{Bincode DiskCache} (now : Z) (file : option bytes) (threshold : Z) (ban_on_first_hit : bool) (ttl : Z) (max : nat)
    : AbuseIpDbProvider :=
  {| ab_cache := load_from_disk now file (with_options ttl max); ab_threshold := threshold; ab_ban_on_first_hit := ban_on_first_hit |}.

(** The base is at most 123: nothing wraps. *)
Definition report_to_signal (p : AbuseIpDbProvider) (report : AbuseIpReport) : option CtiSignal :=
  if confidence_score report <? ab_threshold p then None else
  let base := 60 + confidence_score report / 4 in
  Some {| cti_provider := "abuseipdb"; cti_severity := if ab_ban_on_first_hit p then 200 else Z.min base 255;
          cti_confidence := confidence_score report;
          cti_description := "AbuseIPDB confidence " +:+ fmt_uint (confidence_score report) +:+ "/100 (" +:+ fmt_uint (total_reports report) +:+
            " reports)" +:+ from_option (fun i => ", ISP: " +:+ i) "" (isp report) |}%string.

#[export] Instance abuse_check `{HashIter} : CtiProvider AbuseIpDbProvider := fun ans ck ip p =>
  match cache_get (unix_lookup ck) ip (ab_cache p) with
  | (c, Some cached) => (set_cache c p, (report_to_signal p cached, was_hit))
  | (c, None) =>
      match (client_check (ans_abuse ans ip)).1.1 with
      | Ok report => (set_cache (cache_insert (unix_store ck) ip report c) p, (report_to_signal p report, was_called false))
      | Err _ => (set_cache c p, (None, was_called true))
      end
  end.

(** *** A cache on the monotonic clock, as Spamhaus and OTX keep it *)
Definition elapsed (now t : Z) : Z := Z.max 0 (now - t).
Definition lookup_fresh {A} (ttl now : Z) (ip : IpAddr) (cache : gmap IpAddr (A * Z)) : option A :=
  match cache !! ip with
  | Some (a, t) => if elapsed now t <? ttl then Some a else None
  | None => None
  end.

(** *** Spamhaus ([spamhaus.rs]) *)
Record SpamhausHit : Type := { sh_severity : Z; sh_description : string }.
Definition SPAMHAUS_TTL : Z := secs 3600.
Definition DNSBL_ZONE : bytes := as_bytes "zen.spamhaus.org".

Definition classify_code (addr : Z) : option SpamhausHit :=
  if negb (addr / 256 =? ipv4 0 127 0 0) then None else
  let code := addr mod 256 in
  if code =? 2 then Some {| sh_severity := 85; sh_description := "Spamhaus SBL: confirmed spam source" |}
  else if code =? 3 then Some {| sh_severity := 80; sh_description := "Spamhaus CSS: spam support service" |}
  else if (4 <=? code) && (code <=? 7) then Some {| sh_severity := 75; sh_description := "Spamhaus XBL: exploited/malware host" |}
  else if code =? 9 then Some {| sh_severity := 90; sh_description := "Spamhaus DROP: hijacked netblock" |}
  else if (code =? 10) || (code =? 11) then Some {| sh_severity := 50; sh_description := "Spamhaus PBL: dynamic/residential IP" |}
  else None.

Definition hex_char (n : Z) : Z := if n <? 10 then 48 + n else 87 + n.
Definition query_labels (ip : IpAddr) : list bytes :=
  match ip with
  | IpV4 b => rev ((fun o => as_bytes (fmt_uint o)) <$> octets (IpV4 b))
  | IpV6 b => rev ((fun n => [hex_char n]) <$> (o ← octets (IpV6 b); [Z.shiftr o 4; Z.land o 15]))
  end.
Definition make_query (ip : IpAddr) : bytes := foldr (fun l q => l ++ 46 :: q) DNSBL_ZONE (query_labels ip).

Definition best_hit (addrs : list Z) : option SpamhausHit :=
  foldl (fun best addr =>
    match classify_code addr with
    | Some h => if default true ((fun b => sh_severity b <? sh_severity h) <$> best) then Some h else best
    | None => best
    end) None addrs.

Record SpamhausProvider : Type := { sp_cache : gmap IpAddr (option SpamhausHit * Z); sp_min_severity : Z }.
Definition signal_from_hit (h : SpamhausHit) : CtiSignal :=
  {| cti_provider := "spamhaus"; cti_severity := sh_severity h; cti_confidence := sh_severity h; cti_description := sh_description h |}.
Definition spamhaus_signal (p : SpamhausProvider) (hit : option SpamhausHit) : option CtiSignal :=
  match hit with Some h => if sp_min_severity p <=? sh_severity h then Some (signal_from_hit h) else None | None => None end.
Definition spamhaus_store (ck : call_clock) (ip : IpAddr) (hit : option SpamhausHit) (p : SpamhausProvider) : SpamhausProvider :=
  {| sp_cache := <[ip := (hit, instant_store ck)]> (sp_cache p); sp_min_severity := sp_min_severity p |}.

#[export] Instance spamhaus_check : CtiProvider SpamhausProvider := fun ans ck ip p =>
  match lookup_fresh SPAMHAUS_TTL (instant_lookup ck) ip (sp_cache p) with
  | Some hit => (p, (spamhaus_signal p hit, was_hit))
  | None =>
      match ans_dns ans (make_query ip) with
      | DnsAddrs l => (spamhaus_store ck ip (best_hit l) p, (spamhaus_signal p (best_hit l), was_called false))
      | DnsNoRecords => (spamhaus_store ck ip None p, (None, was_called false))
      | DnsError => (p, (None, was_called true))
      end
  end.

(** *** OTX ([otx.rs]) *)
Record OtxHit : Type := { oh_threat_score : spec_float; oh_pulse_count : Z }.
Record OtxProvider : Type := { ox_cache : gmap IpAddr (option OtxHit * Z); ox_min_pulse_count : Z }.
Definition OTX_TTL : Z := secs (12 * 3600).

(** What [fetch] makes of the response. *)
Definition otx_hit (p : OtxProvider) (r : OtxResponse) : option OtxHit :=
  let score := default (f32_of_uint 0) (ox_threat_score r) in
  let pulses := default 0 (ox_pulse_count r) in
  if (ox_min_pulse_count p <=? pulses) || SFltb (f32_lit 30 1) score
  then Some {| oh_threat_score := score; oh_pulse_count := pulses |} else None.

Definition hit_to_signal (h : OtxHit) : CtiSignal :=
  let score := sf_to_uint 255 (sf_clamp (oh_threat_score h) (f32_of_uint 0) (f32_lit 100 1)) in
  {| cti_provider := "otx"; cti_severity := Z.min 255 (55 + score / 4); cti_confidence := score;
     cti_description := "OTX: threat_score=" +:+ fmt_fixed 1 (oh_threat_score h) +:+ ", pulses=" +:+ fmt_uint (oh_pulse_count h) |}%string.

#[export] Instance otx_check : CtiProvider OtxProvider := fun ans ck ip p =>
  match lookup_fresh OTX_TTL (instant_lookup ck) ip (ox_cache p) with
  | Some hit => (p, (hit_to_signal <$> hit, was_hit))
  | None =>
      match ans_otx ans ip with
      | Some r =>
          let hit := otx_hit p r in
          ({| ox_cache := <[ip := (hit, instant_store ck)]> (ox_cache p); ox_min_pulse_count := ox_min_pulse_count p |},
           (hit_to_signal <$> hit, was_called false))
      | None => (p, (None, was_called true))
      end
  end.

(** *** Tor ([tor.rs]) *)
Record TorProvider : Type := { exit_nodes : gset IpAddr }.
Definition TOR_SEVERITY : Z := 40.
Definition TOR_CONFIDENCE : Z := 95.

(** [fetch_exit_list] on the text of the list; a failed refresh keeps it. *)
Definition parse_exit_list `{AddrText} (text : bytes) : gset IpAddr :=
  list_to_set (l ← lines text; if starts_with (as_bytes "#") l || bool_decide (l = []) then [] else option_list (parse_ip (trim l))).
Definition tor_refresh `{AddrText} (fetched : option bytes) (p : TorProvider) : TorProvider :=
  match fetched with Some text => {| exit_nodes := parse_exit_list text |} | None => p end.
Definition tor_new `{AddrText} (fetched : option bytes) : TorProvider := tor_refresh fetched {| exit_nodes := ∅ |}.

#[export] Instance tor_check : CtiProvider TorProvider := fun _ _ ip p =>
  (p, (if bool_decide (ip ∈ exit_nodes p)
       then Some {| cti_provider := "tor"; cti_severity := TOR_SEVERITY; cti_confidence := TOR_CONFIDENCE; cti_description := "Tor exit node" |}
       else None, was_hit)).

(** ** Plugins ([plugins/cti-*/src/lib.rs]) and the bridge ([plugin_bridge.rs]) *)
Record CtiVerdict : Type := { cv_provider : string; cv_confidence : option Z; cv_reason : option string; cv_recommend_ban : bool }.
Record CtiPlugin (P : Type) : Type := { pl_id : string; pl_provider : option P; pl_ban_on_first_hit : bool }.
Arguments pl_id {P}. Arguments pl_provider {P}. Arguments pl_ban_on_first_hit {P}.

Definition verdict_of (ban_on_first_hit : bool) (s : CtiSignal) : CtiVerdict :=
  {| cv_provider := cti_provider s; cv_confidence := Some (cti_confidence s); cv_reason := Some (cti_description s);
     cv_recommend_ban := ban_on_first_hit && (90 <=? cti_confidence s) |}.

Definition plugin_lookup {P} `{CtiProvider P} (ans : Answers) (ck : call_clock) (ip : IpAddr) (pl : CtiPlugin P)
    : CtiPlugin P * result (option CtiVerdict) PluginError :=
  match pl_provider pl with
  | None => (pl, Err (PRuntime "plugin used before init"))
  | Some p =>
      let '(p', (signal, _)) := check ans ck ip p in
      ({| pl_id := pl_id pl; pl_provider := Some p'; pl_ban_on_first_hit := pl_ban_on_first_hit pl |},
       Ok (verdict_of (pl_ban_on_first_hit pl) <$> signal))
  end.

(** [CtiPluginAdapter] *)
#[export] Instance adapter_check {P} `{CtiProvider P} : CtiProvider (CtiPlugin P) := fun ans ck ip pl =>
  match plugin_lookup ans ck ip pl with
  | (pl', Ok (Some v)) =>
      (pl', (Some {| cti_provider := pl_id pl; cti_severity := if cv_recommend_ban v then 200 else 100;
                     cti_confidence := default 0 (cv_confidence v); cti_description := default "no detail provided"%string (cv_reason v) |},
             was_called false))
  | (pl', Ok None) => (pl', (None, was_called false))
  | (pl', Err _) => (pl', (None, was_called true))
  end.

(** ** The enricher *)
(** The plugins of the source. *)
Inductive DynProvider : Type :=
| DAbuse (p : CtiPlugin AbuseIpDbProvider)
| DSpamhaus (p : CtiPlugin SpamhausProvider)
| DOtx (p : CtiPlugin OtxProvider)
| DTor (p : CtiPlugin TorProvider).
#[export] Instance dyn_check `{HashIter} : CtiProvider DynProvider := fun ans ck ip d =>
  match d with
  | DAbuse p => let '(p', r) := check ans ck ip p in (DAbuse p', r)
  | DSpamhaus p => let '(p', r) := check ans ck ip p in (DSpamhaus p', r)
  | DOtx p => let '(p', r) := check ans ck ip p in (DOtx p', r)
  | DTor p => let '(p', r) := check ans ck ip p in (DTor p', r)
  end.

Definition segment0 (bits : Z) : Z := Z.shiftr bits 112.
Definition is_ipv6_link_local (bits : Z) : bool := Z.land (segment0 bits) 65472 =? 65152.
Definition is_ipv6_unique_local (bits : Z) : bool := Z.land (segment0 bits) 65024 =? 64512.
Definition is_non_routable (ip : IpAddr) : bool :=
  match ip with
  | IpV4 b =>
      let o := octets ip in
      let a := nth 0 o 0 in let c := nth 1 o 0 in
      (a =? 127) || ((a =? 10) || ((a =? 172) && (16 <=? c) && (c <=? 31)) || ((a =? 192) && (c =? 168))) ||
      ((a =? 169) && (c =? 254)) || (b =? 2 ^ 32 - 1) || (b =? 0)
  | IpV6 b => (b =? 1) || (b =? 0) || is_ipv6_link_local b || is_ipv6_unique_local b
  end.

Definition or_stats (a b : EnrichStats) : EnrichStats :=
  {| cache_hit := cache_hit a || cache_hit b; api_called := api_called a || api_called b; api_error := api_error a || api_error b |}.
Definition better (best : option CtiSignal) (sig : option CtiSignal) : option CtiSignal :=
  match sig with
  | Some s => if default true ((fun b => cti_severity b <? cti_severity s) <$> best) then Some s else best
  | None => best
  end.

Section enricher.
Context {P : Type} `{CtiProvider P}.

(** One clock for each provider asked. *)
Fixpoint enrich_all (ans : Answers) (clock : nat -> call_clock) (i : nat) (ip : IpAddr) (ps : list P) (best : option CtiSignal) (agg : EnrichStats)
    : list P * (option CtiSignal * EnrichStats) :=
  match ps with
  | [] => ([], (best, agg))
  | p :: ps' =>
      let '(p', (sig, stats)) := check ans (clock i) ip p in
      let '(rest, r) := enrich_all ans clock (S i) ip ps' (better best sig) (or_stats agg stats) in (p' :: rest, r)
  end.
Definition enrich (ans : Answers) (clock : nat -> call_clock) (ip : IpAddr) (ps : list P) : list P * (option CtiSignal * EnrichStats) :=
  if is_non_routable ip then (ps, (None, no_stats)) else enrich_all ans clock 0 ip ps None no_stats.
End enricher.

(** ** GeoIP ([geoip.rs])

    The database readers are a library's: a lookup gives nothing when the
    address is unknown. *)
Definition DATACENTER_ASNS : gset Z :=
  list_to_set [16509; 14618; 15169; 396982; 8075; 8069; 14061; 63949; 20473; 16276; 35540; 24940; 60068; 174; 3356].
Record GeoIpDb : Type := {
  country_reader : option (IpAddr -> option (option string));
  asn_reader : option (IpAddr -> option (option Z * option string));
  datacenter_asns : gset Z;
}.
Definition lookup_country (db : GeoIpDb) (ip : IpAddr) : option string := reader ← country_reader db; record ← reader ip; record.
Definition lookup_asn (db : GeoIpDb) (ip : IpAddr) : option Z * option string :=
  match asn_reader db with
  | Some reader => match reader ip with Some r => r | None => (None, None) end
  | None => (None, None)
  end.
Definition geo_lookup (db : GeoIpDb) (ip : IpAddr) : GeoIpInfo :=
  let '(asn, org) := lookup_asn db ip in
  {| geo_country_iso := lookup_country db ip; geo_asn := asn; geo_asn_org := org;
     geo_is_datacenter := default false ((fun n => bool_decide (n ∈ datacenter_asns db)) <$> asn) |}.
(** [load] on what the two files hold, and [try_load] where neither exists. *)
Definition geo_load (country : option (IpAddr -> option (option string))) (asn : option (IpAddr -> option (option Z * option string))) : GeoIpDb :=
  {| country_reader := country; asn_reader := asn; datacenter_asns := DATACENTER_ASNS |}.

(** * The client *)
(** What an attempt that is not retried returns. *)
Definition decisive (answer : result Response RequestError) (r : result AbuseIpReport AbuseIpDbError) : Prop := attempt_result answer = Return r.
Definition transient (answer : result Response RequestError) : Prop := exists e, attempt_result answer = Retry e.

Lemma backoff_nonneg (n : nat) : 0 <= backoff_ms n.
Proof. unfold backoff_ms, RETRY_BACKOFF_MS. destruct n as [|n]; [lia|]. pose proof (Z.pow_nonneg 2 (Z.of_nat n)). lia. Qed.

Lemma check_from_spec (left k : nat) (answer : nat -> result Response RequestError) (last_err : option AbuseIpDbError) :
  let '(r, slept, n) := check_from left k answer last_err in
  (n <= left)%nat /\ slept <= foldr (fun i s => backoff_ms i + s) 0 (seq k left) /\
  ((exists i, (k <= i < k + left)%nat /\ decisive (answer i) r /\ forall j, (k <= j < i)%nat -> transient (answer j)) \/
   ((forall j, (k <= j < k + left)%nat -> transient (answer j)) /\ exists e, r = Err e)).
Proof.
  revert k last_err. induction left as [|left IH]; intros k last_err; simpl.
  - split; [done|]. split; [lia|]. right. split; [intros; lia|by eexists].
  - destruct (attempt_result (answer k)) as [e|r] eqn:Ea.
    + specialize (IH (S k) (Some e)). destruct (check_from left (S k) answer (Some e)) as [[r slept] n]. destruct IH as (Hn & Hs & Hr).
      split; [lia|]. split; [lia|]. assert (Hk : transient (answer k)) by (by exists e).
      destruct Hr as [(i & Hi & Hd & Ht)|[Ht He]].
      * left. exists i. split; [lia|]. split; [done|]. intros j Hj. destruct (decide (j = k)) as [->|]; [done|]. apply Ht. lia.
      * right. split; [|done]. intros j Hj. destruct (decide (j = k)) as [->|]; [done|]. apply Ht. lia.
    + split; [lia|]. split.
      * assert (0 <= foldr (fun i s => backoff_ms i + s) 0 (seq (S k) left)); [|lia].
        induction (seq (S k) left) as [|i l IHl]; simpl; [lia|]. pose proof (backoff_nonneg i). lia.
      * left. exists k. split; [lia|]. split; [done|]. intros j Hj. lia.
Qed.

(** * The cache *)
Definition fresh (now ttl : Z) (e : Entry) : Prop := is_expired now ttl e = false.

Lemma delete_all_lookup (ks : list IpAddr) (m : gmap IpAddr Entry) (ip : IpAddr) :
  foldl (fun m ip => delete ip m) m ks !! ip = if decide (ip ∈ ks) then None else m !! ip.
Proof.
  revert m. induction ks as [|k ks IH]; intros m; cbn [foldl]; [by rewrite decide_False by apply not_elem_of_nil|]. rewrite IH.
  destruct (decide (ip = k)) as [->|Hne].
  - rewrite lookup_delete_eq. case_decide; by rewrite decide_True by left.
  - rewrite lookup_delete_ne by done. destruct (decide (ip ∈ ks)); [rewrite decide_True by (by right)|rewrite decide_False]; [done..|].
    rewrite not_elem_of_cons. done.
Qed.

Lemma delete_all_size (ks : list IpAddr) (m : gmap IpAddr Entry) : NoDup ks -> (forall k, k ∈ ks -> is_Some (m !! k)) ->
  (size (foldl (fun m ip => delete ip m) m ks) + length ks = size m)%nat.
Proof.
  intros Hnd. revert m. induction Hnd as [|k ks Hk Hnd IH]; intros m Hm; simpl; [lia|].
  assert (Hs : size m = S (size (delete k m))).
  { destruct (Hm k ltac:(left)) as [e He]. rewrite map_size_delete_Some by eauto.
    assert (size m <> 0%nat); [|lia]. intros E0%map_size_empty_iff. by rewrite E0, lookup_empty in He. }
  rewrite Hs, <- (IH (delete k m)); [lia|]. intros j Hj. rewrite lookup_delete_ne; [apply Hm; by right|]. intros ->. done.
Qed.

#[export] Instance older_trans : Transitive older.
Proof. intros x y z. unfold older. lia. Qed.
#[export] Instance older_total : Total older.
Proof. intros x y. unfold older. lia. Qed.

Section cache.
Context `{HashIter} {iter_laws : HashIterLaws}.

Lemma by_age_elem (m : gmap IpAddr Entry) (ip : IpAddr) (t : Z) : (ip, t) ∈ by_age m <-> exists e, m !! ip = Some e /\ fetched_at_unix e = t.
Proof using iter_laws.
  unfold by_age. rewrite merge_sort_Permutation, list_elem_of_fmap. split.
  - intros (k & [= -> ->] & Hk). apply elem_of_hash_iter, elem_of_dom in Hk as [e He]. exists e. by rewrite He.
  - intros (e & He & <-). exists ip. rewrite He. split; [done|]. apply elem_of_hash_iter, elem_of_dom. by eexists.
Qed.

Lemma by_age_keys (m : gmap IpAddr Entry) : (by_age m).*1 ≡ₚ elements (dom m).
Proof using iter_laws.
  unfold by_age. rewrite merge_sort_Permutation, <- list_fmap_compose. rewrite (list_fmap_ext _ id); [by rewrite list_fmap_id, hash_iter_perm|done].
Qed.

Lemma by_age_nodup (m : gmap IpAddr Entry) : NoDup (by_age m).*1.
Proof using iter_laws. rewrite by_age_keys. apply NoDup_elements. Qed.

(** Eviction removes a tenth, at least one, and keeps what is newer. *)
Lemma evict_oldest_spec (c : CtiCache) : let m := cc_entries c in let m' := cc_entries (evict_oldest c) in
  m' ⊆ m /\ (size m' + Nat.min (target_remove c) (size m) = size m)%nat /\
  forall ip e ip' e', m !! ip = Some e -> m' !! ip = None -> m' !! ip' = Some e' -> fetched_at_unix e <= fetched_at_unix e'.
Proof using iter_laws.
  simpl. set (l := by_age (cc_entries c)). set (n := target_remove c).
  assert (Hl : l = take n l ++ drop n l) by (by rewrite take_drop).
  assert (Hin : forall k, k ∈ (take n l).*1 -> is_Some (cc_entries c !! k)).
  { intros k Hk. apply list_elem_of_fmap in Hk as ([k' t] & -> & Hk). assert (Hk' : (k', t) ∈ l) by (rewrite Hl; apply elem_of_app; by left).
    apply by_age_elem in Hk' as (e & He & _). by exists e. }
  split; [|split].
  - apply map_subseteq_spec. intros k e. rewrite delete_all_lookup. by case_decide.
  - rewrite <- (delete_all_size (take n l).*1 (cc_entries c)) at 2; [|pose proof (by_age_nodup (cc_entries c)) as Hnd; fold l in Hnd; rewrite Hl, fmap_app in Hnd; by apply NoDup_app in Hnd as [? _]|done].
    rewrite length_fmap, length_take. assert (length l = size (cc_entries c)) as ->; [|done].
    transitivity (length l.*1); [by rewrite length_fmap|]. unfold l. rewrite (Permutation_length (by_age_keys _)). by rewrite <- size_dom.
  - intros ip e ip' e' He. rewrite !delete_all_lookup. case_decide as Hr; [|congruence]. intros _. case_decide as Hk; [done|]. intros He'.
    apply list_elem_of_fmap in Hr as ([k t] & -> & Hr). simpl in *.
    assert (Hs : StronglySorted older (take n l ++ drop n l)) by (rewrite <- Hl; apply (StronglySorted_merge_sort _)).
    assert (Hd : (ip', fetched_at_unix e') ∈ drop n l).
    { assert (Hi : (ip', fetched_at_unix e') ∈ l) by (apply by_age_elem; by exists e'). rewrite Hl in Hi. apply elem_of_app in Hi as [Hi|]; [|done].
      destruct Hk. apply list_elem_of_fmap. by eexists (_, _). }
    pose proof (StronglySorted_app_1_elem_of _ _ _ _ _ Hs Hr Hd) as Ho. unfold older in Ho. simpl in Ho.
    assert (Hk' : (k, t) ∈ l) by (rewrite Hl; apply elem_of_app; by left). apply by_age_elem in Hk' as (e2 & He2 & <-). simplify_eq. done.
Qed.

Lemma insert_subseteq (now : Z) (ip : IpAddr) (r : AbuseIpReport) (c : CtiCache) (k : IpAddr) (e : Entry) :
  cc_entries (cache_insert now ip r c) !! k = Some e ->
  (k = ip /\ e = {| en_report := r; fetched_at_unix := now |}) \/ cc_entries c !! k = Some e.
Proof using iter_laws.
  unfold cache_insert. cbn [cc_entries set_entries]. rewrite lookup_insert. case_decide as E; [intros [= <-]; by left|]. right.
  destruct (_ <=? _)%nat; [|done]. destruct (evict_oldest_spec c) as [Hsub _]. by eapply lookup_weaken.
Qed.

Definition within_limit (c : CtiCache) : Prop := (size (cc_entries c) <= Nat.max 1 (cc_max_entries c))%nat.

Lemma insert_within (now : Z) (ip : IpAddr) (r : AbuseIpReport) (c : CtiCache) : within_limit c -> within_limit (cache_insert now ip r c).
Proof using iter_laws.
  unfold within_limit, cache_insert. cbn [cc_entries set_entries cc_max_entries]. intros Hc. rewrite map_size_insert.
  destruct (Nat.leb_spec (cc_max_entries c) (size (cc_entries c))) as [Hfull|Hroom].
  - destruct (evict_oldest_spec c) as (_ & Hs & _). cbv zeta in Hs. assert (1 <= target_remove c)%nat by (unfold target_remove; lia).
    change (cc_max_entries (evict_oldest c)) with (cc_max_entries c).
    assert (size (cc_entries (evict_oldest c)) < Nat.max 1 (cc_max_entries c))%nat by lia. case_match; unfold id; lia.
  - case_match; unfold id; lia.
Qed.

Lemma get_spec (now : Z) (ip : IpAddr) (c : CtiCache) :
  let '(c', r) := cache_get now ip c in
  cc_entries c' ⊆ cc_entries c /\ cc_ttl c' = cc_ttl c /\ cc_max_entries c' = cc_max_entries c /\
  r = from_option (fun e => if is_expired now (cc_ttl c) e then None else Some (en_report e)) None (cc_entries c !! ip).
Proof. unfold cache_get. destruct (cc_entries c !! ip) as [e|]; [|done]. simpl. destruct (is_expired _ _ e); split_and!; try done. apply delete_subseteq. Qed.

(** ** What a provider says is what the service said *)
Record abuse_call : Type := { ac_answers : Answers; ac_clock : call_clock; ac_ip : IpAddr }.
Definition abuse_step (p : AbuseIpDbProvider) (call : abuse_call) : AbuseIpDbProvider := (check (ac_answers call) (ac_clock call) (ac_ip call) p).1.
Definition answered (call : abuse_call) : result AbuseIpReport AbuseIpDbError := (client_check (ans_abuse (ac_answers call) (ac_ip call))).1.1.

(** Every entry was fetched for its address in one of the calls. *)
Definition backed (calls : list abuse_call) (c : CtiCache) : Prop :=
  forall ip e, cc_entries c !! ip = Some e ->
    exists call, call ∈ calls /\ ac_ip call = ip /\ answered call = Ok (en_report e) /\ unix_store (ac_clock call) = fetched_at_unix e.

Definition abuse_inv (calls : list abuse_call) (p0 p : AbuseIpDbProvider) : Prop :=
  backed calls (ab_cache p) /\ within_limit (ab_cache p) /\ ab_threshold p = ab_threshold p0 /\ ab_ban_on_first_hit p = ab_ban_on_first_hit p0 /\
  cc_ttl (ab_cache p) = cc_ttl (ab_cache p0) /\ cc_max_entries (ab_cache p) = cc_max_entries (ab_cache p0).

Lemma backed_mono (calls calls' : list abuse_call) (c c' : CtiCache) : calls ⊆ calls' -> cc_entries c' ⊆ cc_entries c -> backed calls c -> backed calls' c'.
Proof.
  intros Hc Hm Hb ip e He. destruct (Hb ip e) as (call & Hin & ?); [by eapply lookup_weaken|]. exists call. split; [by apply Hc|done].
Qed.

Lemma abuse_step_inv (calls : list abuse_call) (p0 p : AbuseIpDbProvider) (call : abuse_call) :
  abuse_inv calls p0 p -> abuse_inv (calls ++ [call]) p0 (abuse_step p call).
Proof using iter_laws.
  intros (Hb & Hl & Ht & Hf & Httl & Hmax). unfold abuse_step, check, abuse_check.
  pose proof (get_spec (unix_lookup (ac_clock call)) (ac_ip call) (ab_cache p)) as Hg.
  destruct (cache_get _ _ _) as [c r]. destruct Hg as (Hsub & Ettl & Emax & _).
  assert (Hb' : backed (calls ++ [call]) c) by (eapply backed_mono; [|exact Hsub|exact Hb]; set_solver).
  assert (Hl' : within_limit c) by (unfold within_limit in *; rewrite Emax; etrans; [by apply map_subseteq_size|done]).
  destruct r as [r|]; [unfold abuse_inv; simpl; split_and!; by rewrite ?Ettl, ?Emax|].
  fold (answered call). destruct (answered call) as [r|e] eqn:Ea; simpl; [|unfold abuse_inv; simpl; split_and!; by rewrite ?Ettl, ?Emax].
  assert (Hk : cc_ttl (cache_insert (unix_store (ac_clock call)) (ac_ip call) r c) = cc_ttl c /\
               cc_max_entries (cache_insert (unix_store (ac_clock call)) (ac_ip call) r c) = cc_max_entries c)
    by (unfold cache_insert; simpl; by case_match).
  destruct Hk as [Kt Km]. unfold abuse_inv. cbn [ab_cache set_cache ab_threshold ab_ban_on_first_hit]. rewrite Kt, Km, Ettl, Emax.
  split_and!; try done; [|by apply insert_within].
  intros k e He. apply insert_subseteq in He as [[-> ->]|He]; [|by apply Hb'].
  exists call. split; [apply elem_of_app; right; left|done].
Qed.

Lemma abuse_run_inv (calls : list abuse_call) (p0 : AbuseIpDbProvider) : cc_entries (ab_cache p0) = ∅ ->
  abuse_inv calls p0 (foldl abuse_step p0 calls).
Proof using iter_laws.
  intros H0. induction calls as [|call calls IH] using rev_ind.
  - unfold abuse_inv, backed, within_limit. simpl. rewrite H0. split_and!; try done. rewrite map_size_empty. lia.
  - rewrite foldl_app. by apply abuse_step_inv.
Qed.

(** A finding of AbuseIPDB is about a report the service gave for that very
    address, in this call or, when it comes from the cache, in an earlier one
    less than the time to live ago; whatever the calls, the cache stays within
    its limit. *)
Theorem findings_backed (calls : list abuse_call) (p0 : AbuseIpDbProvider) (call : abuse_call) (s : CtiSignal) (st : EnrichStats) :
  let p := foldl abuse_step p0 calls in
  cc_entries (ab_cache p0) = ∅ -> (check (ac_answers call) (ac_clock call) (ac_ip call) p).2 = (Some s, st) ->
  (exists r, report_to_signal p0 r = Some s /\
     ((st = was_called false /\ answered call = Ok r) \/
      (st = was_hit /\ exists c, c ∈ calls /\ ac_ip c = ac_ip call /\ answered c = Ok r /\
         elapsed (unix_lookup (ac_clock call)) (unix_store (ac_clock c)) < cc_ttl (ab_cache p0)))) /\
  within_limit (ab_cache (abuse_step p call)).
Proof using iter_laws.
  intros p H0 Hs. destruct (abuse_run_inv calls p0 H0) as (Hb & Hl & Ht & Hf & Httl & Hmax). fold p in Hb, Hl, Ht, Hf, Httl, Hmax.
  split; [|destruct (abuse_run_inv (calls ++ [call]) p0 H0) as (_ & Hl' & _); by rewrite foldl_app in Hl'].
  assert (Hsig : forall r, report_to_signal p r = report_to_signal p0 r) by (intros r; unfold report_to_signal; by rewrite Ht, Hf).
  unfold check, abuse_check in Hs. pose proof (get_spec (unix_lookup (ac_clock call)) (ac_ip call) (ab_cache p)) as Hg.
  destruct (cache_get _ _ _) as [c r]. destruct Hg as (_ & _ & _ & Hr). destruct r as [r|].
  - injection Hs as Es <-. exists r. split; [by rewrite <- Hsig|]. right. split; [done|].
    destruct (cc_entries (ab_cache p) !! ac_ip call) as [e|] eqn:Ee; simpl in Hr; [|done]. destruct (is_expired _ _ _) eqn:Ex; [done|].
    injection Hr as ->. destruct (Hb _ _ Ee) as (c' & Hin & Hip & Ha & Hu). exists c'. split_and!; try done.
    unfold is_expired in Ex. apply Z.leb_gt in Ex. unfold elapsed. by rewrite Hu, <- Httl.
  - fold (answered call) in Hs. destruct (answered call) as [r'|e] eqn:Ea; [|done]. injection Hs as Es <-. exists r'. split; [by rewrite <- Hsig|].
    by left.
Qed.
End cache.

(** * The file *)
Lemma octets_roundtrip (ip : IpAddr) : wf_ip ip -> ip_try_from (octets ip) = Some ip.
Proof.
  unfold wf_ip, in_width, ip_try_from, octets, to_be_bytes, of_be_bytes.
  destruct ip as [b|b]; intros Hb; cbn [ip_bits ip_width] in Hb; rewrite length_rev, to_le_bytes_length, rev_involutive, of_to_le_bytes; try done.
Qed.

(** [bincode]: what is written is read back. *)
Class DiskLaws `{BincodeSer DiskCache} `{Bincode DiskCache} : Prop :=
  disk_roundtrip (d : DiskCache) (bs : bytes) : bincode_serialize d = Some bs -> bincode_deserialize bs = Some d.

Section file.
Context `{HashIter} {iter_laws : HashIterLaws} `{BincodeSer DiskCache} `{Bincode DiskCache} {disk_laws : DiskLaws}.

Lemma fresh_earlier (now now' ttl : Z) (e : Entry) : now <= now' -> is_expired now' ttl e = false -> is_expired now ttl e = false.
Proof. unfold is_expired. rewrite !Z.leb_gt. lia. Qed.

Lemma load_flushed (now now' : Z) (c : CtiCache) (ks : list IpAddr) (m : gmap IpAddr Entry) (ip : IpAddr) :
  now <= now' -> Forall wf_ip ks ->
  foldl (load_entry now' (cc_ttl c)) m (ks ≫= disk_entry now c) !! ip =
  match cc_entries c !! ip with
  | Some e => if is_expired now' (cc_ttl c) e then m !! ip else if decide (ip ∈ ks) then Some e else m !! ip
  | None => m !! ip
  end.
Proof.
  intros Hnow Hwf. revert m. induction Hwf as [|k ks Hk Hwf IH]; intros m.
  - cbn. by repeat case_match.
  - cbn [mbind list_bind]. rewrite foldl_app, IH. clear IH. destruct (decide (ip = k)) as [->|Hne].
    + unfold disk_entry. destruct (cc_entries c !! k) as [e|] eqn:Ek; [|done]. rewrite (decide_True (P := k ∈ k :: ks)) by left.
      destruct (is_expired now (cc_ttl c) e) eqn:E1; destruct (is_expired now' (cc_ttl c) e) eqn:E2; cbn [foldl].
      * done.
      * apply (fresh_earlier now) in E2; [congruence|done].
      * unfold load_entry. cbn [snd]. by rewrite E2.
      * unfold load_entry. cbn [fst snd]. rewrite E2, (octets_roundtrip k) by done. rewrite lookup_insert_eq. by case_decide.
    + assert (Hd : forall (A : Type) (a b : A), (if decide (ip ∈ k :: ks) then a else b) = if decide (ip ∈ ks) then a else b).
      { intros A a b. destruct (decide (ip ∈ ks)); [rewrite decide_True by (by right)|rewrite decide_False by (by rewrite not_elem_of_cons)]; done. }
      assert (Hm : foldl (load_entry now' (cc_ttl c)) m (disk_entry now c k) !! ip = m !! ip).
      { unfold disk_entry. destruct (cc_entries c !! k) as [e|]; [|done]. destruct (is_expired now (cc_ttl c) e); [done|]. cbn [foldl].
        unfold load_entry. cbn [fst snd]. destruct (is_expired now' (cc_ttl c) e); [done|]. rewrite (octets_roundtrip k) by done. by rewrite lookup_insert_ne. }
      destruct (cc_entries c !! ip); [|done]. by rewrite Hd, Hm.
Qed.

(** A cache written at shutdown and loaded at the next start holds exactly the
    reports that are still fresh then; a write that fails leaves the file as it
    was. *)
Theorem cache_reload (now now' : Z) (c : CtiCache) (file : option bytes) (bs : bytes) :
  now <= now' -> (forall ip, ip ∈ dom (cc_entries c) -> wf_ip ip) -> bincode_serialize (disk_entries now c) = Some bs ->
  cc_entries (load_from_disk now' (flush_to_disk now true c file) (with_options (cc_ttl c) (cc_max_entries c))) =
    filter (fun kv : IpAddr * Entry => is_expired now' (cc_ttl c) kv.2 = false) (cc_entries c) /\
  flush_to_disk now false c file = file.
Proof using iter_laws disk_laws.
  intros Hnow Hwf Hbs. unfold flush_to_disk. rewrite Hbs. split; [|done]. unfold load_from_disk. cbn [mbind option_bind].
  rewrite (disk_roundtrip _ _ Hbs). cbn [cc_entries set_entries with_options cc_ttl]. apply map_eq. intros ip. unfold disk_entries.
  rewrite load_flushed; [|done|].
  - destruct (cc_entries c !! ip) as [e|] eqn:Ee; [|symmetry; apply map_lookup_filter_None; by left].
    rewrite decide_True by (apply elem_of_hash_iter, elem_of_dom; by eexists). case_match eqn:Ex; symmetry.
    + apply map_lookup_filter_None. right. intros e' He'. simplify_eq/=. by rewrite Ex.
    + by apply map_lookup_filter_Some.
  - apply Forall_forall. intros k Hk. apply Hwf. by apply elem_of_hash_iter.
Qed.
End file.

(** * Blocklist queries *)
Lemma split_query (labels : list bytes) (zone : bytes) : Forall (fun l => 46 ∉ l) labels ->
  split_on 46 (foldr (fun l q => l ++ 46 :: q) zone labels) = labels ++ split_on 46 zone.
Proof. induction 1 as [|l ls Hl _ IH]; [done|]. cbn [foldr]. by rewrite split_on_app, IH by done. Qed.

Lemma fmt_uint_no_dot (n : Z) : 0 <= n -> 46 ∉ as_bytes (fmt_uint n).
Proof.
  intros Hn Hin. destruct (fmt_uint_digits n Hn) as [Hp _]. apply parse_digits_digits in Hp. rewrite Forall_forall in Hp. by specialize (Hp 46 Hin).
Qed.

Lemma to_le_bytes_range (n : nat) (x : Z) : Forall (fun b => 0 <= b < 256) (to_le_bytes n x).
Proof. revert x. induction n as [|n IH]; intros x; simpl; constructor; [apply Z.mod_pos_bound; lia|apply IH]. Qed.

Lemma octets_range (ip : IpAddr) : Forall (fun b => 0 <= b < 256) (octets ip).
Proof. destruct ip; apply Forall_rev, to_le_bytes_range. Qed.

Lemma octets_length (ip : IpAddr) : length (octets ip) = match ip with IpV4 _ => 4%nat | IpV6 _ => 16%nat end.
Proof. destruct ip; unfold octets, to_be_bytes; by rewrite length_rev, to_le_bytes_length. Qed.

Definition nibbles (bs : bytes) : list Z := o ← bs; [Z.shiftr o 4; Z.land o 15].

Lemma nibbles_range (bs : bytes) : Forall (fun b => 0 <= b < 256) bs -> Forall (fun n => 0 <= n < 16) (nibbles bs).
Proof.
  induction 1 as [|b bs Hb _ IH]; [done|]. unfold nibbles. cbn [mbind list_bind]. apply Forall_app. split; [|done].
  rewrite Z.shiftr_div_pow2 by lia. change 15 with (Z.ones 4). rewrite Z.land_ones by lia.
  repeat constructor; try apply Z.mod_pos_bound; try lia; [apply Z.div_pos; lia|apply Z.div_lt_upper_bound; lia].
Qed.

Lemma nibbles_inj (bs bs' : bytes) : nibbles bs = nibbles bs' -> bs = bs'.
Proof.
  revert bs'. induction bs as [|b bs IH]; intros [|b' bs'] E; try done. unfold nibbles in E. cbn [mbind list_bind app] in E.
  injection E as E1 E2 E3. f_equal; [|by apply IH]. rewrite !Z.shiftr_div_pow2 in E1 by lia. change 15 with (Z.ones 4) in E2.
  rewrite !Z.land_ones in E2 by lia. rewrite (Z.div_mod b 16), (Z.div_mod b' 16) by lia. change (2 ^ 4) with 16 in *. by rewrite E1, E2.
Qed.

Lemma fmap_inj_on {A B} (f : A -> B) (P : A -> Prop) (l k : list A) : (forall x y, P x -> P y -> f x = f y -> x = y) ->
  Forall P l -> Forall P k -> f <$> l = f <$> k -> l = k.
Proof.
  intros Hf Hl. revert k. induction Hl as [|x l Hx Hl IH]; intros [|y k] Hk E; try done. apply Forall_cons in Hk as [Hy Hk].
  injection E as E1 E2. f_equal; [by apply Hf|by apply IH].
Qed.

Lemma hex_char_dotless (n : Z) : 0 <= n < 16 -> hex_char n <> 46.
Proof. unfold hex_char. destruct (Z.ltb_spec n 10); lia. Qed.

Lemma query_labels_dotless (ip : IpAddr) : Forall (fun l => 46 ∉ l) (query_labels ip).
Proof.
  pose proof (octets_range ip) as Ho. destruct ip as [b|b]; unfold query_labels; apply Forall_rev, Forall_fmap.
  - eapply Forall_impl; [exact Ho|]. intros o Hr. simpl in *. apply fmt_uint_no_dot. lia.
  - eapply Forall_impl; [exact (nibbles_range _ Ho)|]. intros n Hn Hin. simpl in *. apply list_elem_of_singleton in Hin. by eapply hex_char_dotless.
Qed.

Lemma query_labels_inj (ip ip' : IpAddr) : wf_ip ip -> wf_ip ip' -> query_labels ip = query_labels ip' -> ip = ip'.
Proof.
  intros Hip Hip' E. assert (Ho : octets ip = octets ip' -> ip = ip').
  { intros Eo. apply octets_roundtrip in Hip, Hip'. rewrite Eo in Hip. congruence. }
  pose proof (octets_range ip) as R. pose proof (octets_range ip') as R'. pose proof (octets_length ip) as L. pose proof (octets_length ip') as L'.
  assert (Hx : forall bs, length (nibbles bs) = (2 * length bs)%nat) by (induction bs; simpl; lia).
  destruct ip as [b|b], ip' as [b'|b']; unfold query_labels in E; apply (f_equal (@rev bytes)) in E; rewrite !rev_involutive in E.
  - apply Ho. eapply fmap_inj_on; [|exact R|exact R'|exact E]. intros x y Hx' Hy Exy. simpl in Hx', Hy, Exy.
    pose proof (parse_fmt_uint 255 x ltac:(lia)) as Px. pose proof (parse_fmt_uint 255 y ltac:(lia)) as Py. rewrite Exy in Px. congruence.
  - apply (f_equal length) in E. rewrite !length_fmap in E. fold (nibbles (octets (IpV6 b'))) in E. rewrite Hx, L, L' in E. done.
  - apply (f_equal length) in E. rewrite !length_fmap in E. fold (nibbles (octets (IpV6 b))) in E. rewrite Hx, L, L' in E. done.
  - apply Ho, nibbles_inj. eapply fmap_inj_on; [|exact (nibbles_range _ R)|exact (nibbles_range _ R')|exact E].
    intros x y Hx' Hy [= Exy]. simpl in Hx', Hy. unfold hex_char in Exy. destruct (Z.ltb_spec x 10), (Z.ltb_spec y 10); lia.
Qed.

(** Different addresses are looked up under different names. *)
Lemma make_query_inj (ip ip' : IpAddr) : wf_ip ip -> wf_ip ip' -> make_query ip = make_query ip' -> ip = ip'.
Proof.
  intros Hip Hip' E. apply (f_equal (split_on 46)) in E. unfold make_query in E. rewrite !split_query in E by apply query_labels_dotless.
  apply app_inv_tail in E. by apply query_labels_inj.
Qed.

(** * The enricher *)
Section enricher_spec.
Context {P : Type} `{CtiProvider P} (ans : Answers) (clock : nat -> call_clock) (ip : IpAddr).

Definition outcomes (i : nat) (ps : list P) : list (P * (option CtiSignal * EnrichStats)) := imap (fun k p => check ans (clock (i + k)%nat) ip p) ps.

Lemma enrich_all_fold (i : nat) (ps : list P) (best : option CtiSignal) (agg : EnrichStats) :
  enrich_all ans clock i ip ps best agg =
  ((outcomes i ps).*1, (foldl better best (outcomes i ps).*2.*1, foldl or_stats agg (outcomes i ps).*2.*2)).
Proof.
  revert i best agg. induction ps as [|p ps IH]; intros i best agg; [done|]. unfold outcomes. cbn [enrich_all imap]. rewrite Nat.add_0_r.
  destruct (check ans (clock i) ip p) as [p' [sig stats]]. rewrite IH. unfold outcomes. cbn.
  rewrite (imap_ext (fun k p0 => check ans (clock (S i + k)%nat) ip p0) ((fun k p0 => check ans (clock (i + k)%nat) ip p0) ∘ S)); [done|].
  intros k p0 _. simpl. by rewrite Nat.add_succ_r.
Qed.

Definition is_best (sigs : list (option CtiSignal)) (best : option CtiSignal) : Prop :=
  match best with
  | None => Forall (fun o => o = None) sigs
  | Some s => exists l1 l2, sigs = l1 ++ Some s :: l2 /\ (forall s', Some s' ∈ l1 -> cti_severity s' < cti_severity s) /\
                            (forall s', Some s' ∈ l2 -> cti_severity s' <= cti_severity s)
  end.

Lemma better_best (sigs : list (option CtiSignal)) : is_best sigs (foldl better None sigs).
Proof.
  induction sigs as [|o sigs IH] using rev_ind; [by constructor|]. rewrite foldl_app. cbn [foldl]. unfold is_best in *.
  destruct (foldl better None sigs) as [b|]; destruct o as [s|]; unfold better; simpl.
  - destruct IH as (l1 & l2 & -> & H1 & H2). destruct (Z.ltb_spec (cti_severity b) (cti_severity s)) as [Hlt|Hge].
    + exists (l1 ++ Some b :: l2), []. split; [done|]. split; [|by intros s' ?%elem_of_nil]. intros s'. rewrite elem_of_app, elem_of_cons.
      intros [Hi|[[= ->]|Hi]]; [specialize (H1 _ Hi); lia|done|specialize (H2 _ Hi); lia].
    + exists l1, (l2 ++ [Some s]). rewrite <- (assoc_L (++)). split; [done|]. split; [done|]. intros s'. rewrite elem_of_app, list_elem_of_singleton.
      intros [Hi|[= ->]]; [auto|done].
  - destruct IH as (l1 & l2 & -> & H1 & H2). exists l1, (l2 ++ [None]). rewrite <- (assoc_L (++)). split; [done|]. split; [done|]. intros s'.
    rewrite elem_of_app, list_elem_of_singleton. intros [Hi|]; [auto|done].
  - exists sigs, []. split; [done|]. split; [|by intros s' ?%elem_of_nil]. intros s' Hi. rewrite Forall_forall in IH. by specialize (IH _ Hi).
  - apply Forall_app. split; [done|]. by constructor.
Qed.

(** The finding handed to the pipeline is the most severe of the providers',
    the first of equals, and there is none only where no provider has one; every
    provider is asked exactly once, and none about an address that is not
    routable. *)
Theorem enrich_best (ps : list P) :
  let '(ps', (best, stats)) := enrich ans clock ip ps in
  if is_non_routable ip then ps' = ps /\ best = None /\ stats = no_stats
  else ps' = (outcomes 0 ps).*1 /\ is_best (outcomes 0 ps).*2.*1 best.
Proof.
  unfold enrich. destruct (is_non_routable ip); [done|]. rewrite enrich_all_fold. split; [done|apply better_best].
Qed.
End enricher_spec.

(** A reputation query makes at most three requests and sleeps at most 900
    milliseconds; it returns what the first answer that is not transient says,
    and an error if all three are. *)
Theorem client_bounded (answer : nat -> result Response RequestError) :
  let '(r, slept, n) := client_check answer in
  (n <= 3)%nat /\ slept <= 900 /\
  ((exists i, (i < 3)%nat /\ decisive (answer i) r /\ forall j, (j < i)%nat -> transient (answer j)) \/
   ((forall j, (j < 3)%nat -> transient (answer j)) /\ exists e, r = Err e)).
Proof.
  unfold client_check. pose proof (check_from_spec (S MAX_RETRIES) 0 answer None) as Hc. destruct (check_from _ _ _ _) as [[r slept] n].
  destruct Hc as (Hn & Hs & Hr). split; [done|]. split; [done|]. destruct Hr as [(i & Hi & Hd & Ht)|[Ht He]].
  - left. exists i. split; [unfold MAX_RETRIES in Hi; lia|]. split; [done|]. intros j Hj. apply Ht. lia.
  - right. split; [|done]. intros j Hj. apply Ht. unfold MAX_RETRIES. lia.
Qed.

(** * The bridge *)
(** What reaches the enricher through the bridge has one of two severities,
    whatever the provider put into its finding. *)
Lemma bridge_severity {P} `{CtiProvider P} (ans : Answers) (ck : call_clock) (ip : IpAddr) (pl : CtiPlugin P) (s : CtiSignal) (st : EnrichStats) :
  (check ans ck ip pl).2 = (Some s, st) ->
  exists p sig, pl_provider pl = Some p /\ (check ans ck ip p).2.1 = Some sig /\ cti_confidence s = cti_confidence sig /\
    cti_severity s = if pl_ban_on_first_hit pl && (90 <=? cti_confidence sig) then 200 else 100.
Proof.
  unfold check at 1, adapter_check, plugin_lookup. destruct (pl_provider pl) as [p|]; [|done]. intros Hs. exists p.
  destruct (check ans ck ip p) as [p' [[sig|] st']]; [|done]. exists sig. injection Hs as <- _. done.
Qed.

Module CtiSample.
#[local] Existing Instance hash_iter_ref.
#[local] Existing Instance hash_iter_ref_laws.
Definition host : IpAddr := IpV4 134744072.
Definition report (score : Z) : AbuseIpReport :=
  {| ip_address := host; confidence_score := score; total_reports := 7; last_reported_at := None; usage_type := None; country_code := None;
     isp := Some "Example"%string |}.
Definition ok_response (score : Z) : Response :=
  {| rs_status := 200; rs_status_text := as_bytes "200 OK"; rs_retry_after := None; rs_text := None; rs_report := Ok (report score); rs_errors := None |}.
Definition busy : Response :=
  {| rs_status := 503; rs_status_text := as_bytes "503 Service Unavailable"; rs_retry_after := None; rs_text := None;
     rs_report := Err {| rq_timeout_or_connect := false; rq_message := "no body" |}; rs_errors := None |}.

(** The service is busy once, then answers. *)
Definition answers (score : Z) : Answers :=
  {| ans_abuse _ n := if (n =? 0)%nat then Ok busy else Ok (ok_response score); ans_dns _ := DnsNoRecords; ans_otx _ := None |}.
Definition down : Answers :=
  {| ans_abuse _ _ := Err {| rq_timeout_or_connect := true; rq_message := "timed out" |}; ans_dns _ := DnsError; ans_otx _ := None |}.
Definition clock (t : Z) : call_clock := {| unix_lookup := t; unix_store := t; instant_lookup := secs t; instant_store := secs t |}.
Definition call (a : Answers) (t : Z) : abuse_call := {| ac_answers := a; ac_clock := clock t; ac_ip := host |}.
Definition provider : AbuseIpDbProvider := {| ab_cache := with_options 100 2; ab_threshold := 75; ab_ban_on_first_hit := false |}.
Definition finding : CtiSignal :=
  {| cti_provider := "abuseipdb"; cti_severity := 82; cti_confidence := 90; cti_description := "AbuseIPDB confidence 90/100 (7 reports), ISP: Example" |}.

(** The service answers, then is down: the cached report serves. *)
Lemma findings_backed_witness :
  (check down (clock 1050) host (abuse_step provider (call (answers 90) 1000))).2 = (Some finding, was_hit) /\
  ((exists r, report_to_signal provider r = Some finding /\
     ((was_hit = was_called false /\ answered (call down 1050) = Ok r) \/
      (was_hit = was_hit /\ exists c, c ∈ [call (answers 90) 1000] /\ ac_ip c = host /\ answered c = Ok r /\
         elapsed 1050 (unix_store (ac_clock c)) < 100))) /\
   within_limit (ab_cache (abuse_step (abuse_step provider (call (answers 90) 1000)) (call down 1050)))).
Proof.
  assert (Hs : (check down (clock 1050) host (abuse_step provider (call (answers 90) 1000))).2 = (Some finding, was_hit)) by reflexivity.
  split; [exact Hs|]. exact (findings_backed [call (answers 90) 1000] provider (call down 1050) finding was_hit eq_refl Hs).
Defined.

(** A codec for the file: one number. *)
#[local] Instance report_eq_dec : EqDecision AbuseIpReport.
Proof. solve_decision. Defined.
#[local] Instance entry_eq_dec : EqDecision Entry.
Proof. solve_decision. Defined.
#[local] Instance report_countable : Countable AbuseIpReport.
Proof.
  refine (inj_countable' (fun r => (ip_address r, confidence_score r, total_reports r, last_reported_at r, (usage_type r, country_code r, isp r)))
    (fun '(a, b, c, d, (e, f, g)) => Build_AbuseIpReport a b c d e f g) _).
  by intros [].
Defined.
#[local] Instance entry_countable : Countable Entry.
Proof. refine (inj_countable' (fun e => (en_report e, fetched_at_unix e)) (fun '(a, b) => Build_Entry a b) _). by intros []. Defined.
#[local] Instance ser : BincodeSer DiskCache := fun d => Some [Z.pos (encode (d : list (bytes * Entry)))].
#[local] Instance de : Bincode DiskCache := fun bs => match bs with [Z.pos p] => decode (A := list (bytes * Entry)) p | _ => None end.
#[local] Instance disk : DiskLaws.
Proof. intros d bs [= <-]. exact (decode_encode (A := list (bytes * Entry)) d). Qed.

Definition one_cache : CtiCache := ab_cache (abuse_step provider (call (answers 90) 1000)).

Lemma cache_reload_witness :
  cc_entries (load_from_disk 1050 (flush_to_disk 1010 true one_cache None) (with_options (cc_ttl one_cache) (cc_max_entries one_cache))) =
    filter (fun kv : IpAddr * Entry => is_expired 1050 (cc_ttl one_cache) kv.2 = false) (cc_entries one_cache) /\
  flush_to_disk 1010 false one_cache None = None.
Proof.
  apply (cache_reload 1010 1050 one_cache None [Z.pos (encode (disk_entries 1010 one_cache : list (bytes * Entry)))]); [lia| |reflexivity].
  assert (Hd : forall ip, ip ∈ elements (dom (cc_entries one_cache)) -> wf_ip ip).
  { apply Forall_forall. replace (elements (dom (cc_entries one_cache))) with [host] by (vm_compute; reflexivity). by repeat constructor. }
  intros ip Hip. by apply Hd, elem_of_elements.
Defined.

(** A Tor exit node is a weak finding of its provider, and reaches the enricher
    as one of a hundred. *)
Definition tor : CtiPlugin TorProvider := {| pl_id := "cti.tor"; pl_provider := Some {| exit_nodes := {[ host ]} |}; pl_ban_on_first_hit := false |}.
Example tor_severity_raised :
  cti_severity <$> (check down (clock 0) host {| exit_nodes := {[ host ]} |}).2.1 = Some 40 /\
  cti_severity <$> (check down (clock 0) host tor).2.1 = Some 100.
Proof. split; vm_compute; reflexivity. Qed.
End CtiSample.
