(* ===== verification/Admin.v ===== *)
(** * Operators' commands

    Bans and whitelist entries made by hand: the Unix socket of the command line
    tool ([hiveguard-daemon/src/socket_server.rs]) and the calls of the user
    interfaces ([DaemonUiApi] of [ui_api.rs]), with the limits both apply
    ([hiveguard-core/src/api.rs]). Each holds the lock on the state while it
    changes the state and the firewall, so that it is one step. Texts of times
    and errors are the parameter [ApiText]; [None] stands for a panic. *)
From S2P Require Import Prelude Text Models Whitelist BanStore Wal State Recovery Admission Enforcer Firewall Durations PluginConfig.
Local Open Scope Z_scope.

(** ** Limits *)
Definition MIN_MUTATION_PREFIX_V4 : nat := 16.
Definition MIN_MUTATION_PREFIX_V6 : nat := 32.
Definition min_mutation_prefix (net : IpNet) : nat * string :=
  match net with NetV4 _ _ => (MIN_MUTATION_PREFIX_V4, "IPv4") | NetV6 _ _ => (MIN_MUTATION_PREFIX_V6, "IPv6") end.
Definition check_mutation_prefix `{IpNetOps} (net : IpNet) (what : string) : result unit string :=
  let '(min, family) := min_mutation_prefix net in
  if (prefix_len net <? min)%nat then
    Err ("refusing to " +:+ what +:+ " " +:+ net_to_string net +:+ ": " +:+ family +:+ " prefix /" +:+ fmt_uint (Z.of_nat (prefix_len net)) +:+
         " is wider than the allowed minimum /" +:+ fmt_uint (Z.of_nat min) +:+ " (narrower prefixes are fine; put wider ranges in config.yaml)")%string
  else Ok tt.

(** ** Requests and responses *)
Inductive ExportFormat : Type := FJson | FCsv.
Inductive ApiRequest : Type :=
| QStatus
| QBan (target : bytes) (duration : option bytes) (reason : option string)
| QUnban (target : bytes)
| QWhitelistAdd (target : bytes)
| QWhitelistRemove (target : bytes)
| QListBans (limit : option nat)
| QListWhitelist
| QTopThreats (limit : nat)
| QExportBans (format : ExportFormat)
| QReplay (duration : string).

Record BanInfo : Type := {
  bi_subject : string; bi_created_at : string; bi_expires_at : option string; bi_severity : Z; bi_reason : string; bi_source : string }.
Record ThreatInfo : Type := { ti_ip : string; ti_total_severity : Z; ti_ban_count : Z; ti_last_seen : string }.
Inductive ApiResponse : Type :=
| RStatusInfo (uptime_secs total_bans total_whitelisted : Z)
| ROk (message : string)
| RError (message : string)
| RBanList (bans : list BanInfo)
| RWhitelistEntries (entries : list string)
| RThreatList (threats : list ThreatInfo)
| RExportData (data : string) (format : ExportFormat).

(** Texts made elsewhere: times, a ban's source, an I/O error, JSON. *)
Class ApiText : Type := {
  rfc3339 : DateTime -> string; debug_source : BanSource -> string; io_error_text : IoErrorKind -> string; json_bans : list BanInfo -> string }.

Definition show_hg_error `{ApiText} (e : HiveGuardError) : string :=
  match e with
  | EConfig m => "configuration error: " +:+ m
  | EIo k => "I/O error: " +:+ io_error_text k
  | EParse m => "parse error: " +:+ m
  | EEnforcement m => "enforcement error: " +:+ m
  | EStorage m => "storage error: " +:+ m
  | EProtocol m => "protocol error: " +:+ m
  end.

(** What the commands work on: the state, the firewall if there is one, and the
    records handed to the cluster. *)
Record Admin (E : Type) : Type := { ad_state : StateManager; ad_enforcer : option E; ad_hook : bool; ad_announced : list BanRecord }.
Arguments ad_state {_}. Arguments ad_enforcer {_}. Arguments ad_hook {_}. Arguments ad_announced {_}.
Definition with_ad_state {E} (sm : StateManager) (ad : Admin E) : Admin E :=
  {| ad_state := sm; ad_enforcer := ad_enforcer ad; ad_hook := ad_hook ad; ad_announced := ad_announced ad |}.
Definition with_ad_enforcer {E} (e : E) (ad : Admin E) : Admin E :=
  {| ad_state := ad_state ad; ad_enforcer := Some e; ad_hook := ad_hook ad; ad_announced := ad_announced ad |}.
Definition hook_ban {E} (r : BanRecord) (ad : Admin E) : Admin E :=
  if ad_hook ad then {| ad_state := ad_state ad; ad_enforcer := ad_enforcer ad; ad_hook := true; ad_announced := ad_announced ad ++ [r] |} else ad.

Section commands.
Context {E : Type} `{Enforcer E} `{IpNetOps} `{AddrText} `{ApiText} `{Codec WalEntry} `{Crc32}.
(** [DateTime::<Utc>::MAX_UTC] *)
Context (max_utc : DateTime).

Definition checked_add_signed (t : DateTime) (d : Duration) : option DateTime := if t + d <=? max_utc then Some (t + d) else None.

(** A CIDR network, or an address alone. *)
Definition parse_target (target : bytes) : result IpNet string :=
  match parse_net target with
  | Some net => Ok net
  | None =>
      match parse_ip target with
      | Some ip => Ok (ip_to_net ip)
      | None => Err ("Invalid IP or CIDR: '" +:+ of_bytes target +:+ "'. Use format like 10.0.0.1 or 10.0.0.0/24")%string
      end
  end.

(** One call on the firewall, if there is one; true unless it failed. *)
Definition on_enforcer (f : E -> E * hresult unit) (ad : Admin E) : Admin E * hresult unit :=
  match ad_enforcer ad with
  | None => (ad, Ok tt)
  | Some e => let '(e', r) := f e in (with_ad_enforcer e' ad, r)
  end.

Definition manual_record (net : IpNet) (now : DateTime) (expires_at : option DateTime) (reason : string) : BanRecord :=
  {| subject := net; created_at := now; expires_at := expires_at; severity := 200; reason := reason; evidence_hash := replicate 32 0;
     source := ManualAdmin; geo_info := None |}.

(** *** The socket *)
(** A duration that [chrono] cannot hold makes the ban permanent; a date beyond
    its calendar panics. *)
Definition socket_expiry (now : DateTime) (d : option Duration) : option (option DateTime) :=
  match d with
  | None => Some None
  | Some d => match duration_from_std d with None => Some None | Some cd => Some <$> checked_add_signed now cd end
  end.

Definition socket_ban (now_expiry now : DateTime) (target : bytes) (duration : option bytes) (reason : option string) (ad : Admin E)
    : option (Admin E * ApiResponse) :=
  match parse_target target with
  | Err e => Some (ad, RError e)
  | Ok n =>
      let net := net_trunc n in
      match check_mutation_prefix net "ban" with
      | Err message => Some (ad, RError message)
      | Ok _ =>
          parsed ← (match duration with Some d => parse_duration_string d | None => Some (Ok (from_secs 86400)) end);
          match parsed with
          | Err e => Some (ad, RError ("Invalid duration: " +:+ e)%string)
          | Ok hd =>
              expires_at ← socket_expiry now_expiry (hd_duration hd);
              let record := manual_record net now expires_at (default "manual admin ban"%string reason) in
              let '(sm, res) := add_ban record (ad_state ad) in
              let ad := with_ad_state sm ad in
              Some (match res with
                    | Err e => (ad, RError ("Failed to ban: " +:+ show_hg_error e)%string)
                    | Ok _ =>
                        let '(ad, res) := on_enforcer (apply_ban net) (hook_ban record ad) in
                        (ad, match res with
                             | Err e => RError ("Ban saved; firewall apply failed (pending retry): " +:+ show_hg_error e)%string
                             | Ok _ => ROk ("Banned " +:+ net_to_string net)%string
                             end)
                    end)
          end
      end
  end.

Definition socket_unban (now : DateTime) (target : bytes) (ad : Admin E) : Admin E * ApiResponse :=
  match parse_target target with
  | Err e => (ad, RError e)
  | Ok n =>
      let net := net_trunc n in
      let '(sm, res) := revoke_ban now net (ad_state ad) in
      let ad := with_ad_state sm ad in
      match res with
      | Err e => (ad, RError ("Failed to unban: " +:+ show_hg_error e)%string)
      | Ok removed =>
          let '(ad, res) := on_enforcer (unapply_ban net) ad in
          (ad, match res with
               | Err e => RError ("Unban saved; firewall removal failed (pending retry): " +:+ show_hg_error e)%string
               | Ok _ => ROk (if removed then "Unbanned " +:+ net_to_string net else net_to_string net +:+ " was not banned")%string
               end)
      end
  end.

(** Adding an entry also lifts the bans it covers, in the state
    ([add_whitelist]) and, by a full synchronisation, in the firewall. *)
Definition whitelist_and_sync (now : DateTime) (net : IpNet) (ad : Admin E) : Admin E * result (result (list IpNet) HiveGuardError) HiveGuardError :=
  let '(sm, res) := add_whitelist net (ad_state ad) in
  let ad := with_ad_state sm ad in
  match res with
  | Err e => (ad, Err e)
  | Ok revoked =>
      let '(ad, res) := on_enforcer (sync_full (desired_subjects now sm)) ad in
      (ad, Ok (let? _ := res in Ok revoked))
  end.
Definition socket_whitelist_add (now : DateTime) (target : bytes) (ad : Admin E) : Admin E * ApiResponse :=
  match parse_target target with
  | Err e => (ad, RError e)
  | Ok n =>
      let net := net_trunc n in
      match check_mutation_prefix net "whitelist" with
      | Err message => (ad, RError message)
      | Ok _ =>
          let '(ad, res) := whitelist_and_sync now net ad in
          (ad, match res with
               | Err e => RError ("Failed to add whitelist: " +:+ show_hg_error e)%string
               | Ok (Err e) => RError ("Whitelist saved; firewall sync failed (pending retry): " +:+ show_hg_error e)%string
               | Ok (Ok []) => ROk ("Added " +:+ net_to_string net +:+ " to whitelist")%string
               | Ok (Ok revoked) =>
                   ROk ("Added " +:+ net_to_string net +:+ " to whitelist, revoked " +:+ fmt_uint (Z.of_nat (length revoked)) +:+ " covered ban(s)")%string
               end)
      end
  end.

Definition socket_whitelist_remove (target : bytes) (ad : Admin E) : Admin E * ApiResponse :=
  match parse_target target with
  | Err e => (ad, RError e)
  | Ok n =>
      let net := net_trunc n in
      let '(sm, res) := remove_whitelist net (ad_state ad) in
      (with_ad_state sm ad, match res with
                            | Ok _ => ROk ("Removed " +:+ net_to_string net +:+ " from whitelist")%string
                            | Err e => RError ("Failed to remove whitelist: " +:+ show_hg_error e)%string
                            end)
  end.

(** *** Questions *)
Definition ban_record_to_info (r : BanRecord) : BanInfo :=
  {| bi_subject := net_to_string (subject r); bi_created_at := rfc3339 (created_at r); bi_expires_at := rfc3339 <$> expires_at r;
     bi_severity := severity r; bi_reason := reason r; bi_source := debug_source (source r) |}.

(** A stable sort by falling severity. *)
Definition more_severe (a b : BanRecord) : Prop := severity b <= severity a.
#[export] Instance more_severe_dec (a b : BanRecord) : Decision (more_severe a b).
Proof. unfold more_severe. apply _. Defined.
Definition top_threats (limit : nat) (bans : list BanRecord) : list ThreatInfo :=
  (fun b => {| ti_ip := net_to_string (subject b); ti_total_severity := severity b; ti_ban_count := 1; ti_last_seen := rfc3339 (created_at b) |})
    <$> take limit (merge_sort more_severe bans).

(** Quotes are doubled inside the two quoted fields. *)
Definition quote : string := String (Ascii.ascii_of_nat 34) EmptyString.
Definition csv_escape (s : string) : string := of_bytes (flat_map (fun c => if c =? 34 then [34; 34] else [c]) (as_bytes s)).
Definition csv_line (b : BanInfo) : string :=
  (bi_subject b +:+ "," +:+ bi_created_at b +:+ "," +:+ default "permanent" (bi_expires_at b) +:+ "," +:+ fmt_uint (bi_severity b) +:+ "," +:+
   quote +:+ csv_escape (bi_reason b) +:+ quote +:+ "," +:+ quote +:+ csv_escape (bi_source b) +:+ quote +:+ String (Ascii.ascii_of_nat 10) EmptyString)%string.
Definition csv_export (bans : list BanInfo) : string :=
  ("subject,created_at,expires_at,severity,reason,source" +:+ String (Ascii.ascii_of_nat 10) EmptyString +:+ String.concat "" (csv_line <$> bans))%string.

(** [now] is the clock at the three places a command may read it; [uptime] the
    seconds since the start. *)
Definition process_request_inner (now : nat -> DateTime) (uptime : Z) (q : ApiRequest) (ad : Admin E) : option (Admin E * ApiResponse) :=
  let st := mem (ad_state ad) in
  match q with
  | QStatus => Some (ad, RStatusInfo uptime (Z.of_nat (length (get_all_bans (ban_store st)))) (Z.of_nat (size (wl_entries (whitelist st)))))
  | QBan target duration reason => socket_ban (now 0%nat) (now 1%nat) target duration reason ad
  | QUnban target => Some (socket_unban (now 0%nat) target ad)
  | QWhitelistAdd target => Some (socket_whitelist_add (now 0%nat) target ad)
  | QWhitelistRemove target => Some (socket_whitelist_remove target ad)
  | QListBans limit =>
      let all := get_all_bans (ban_store st) in
      Some (ad, RBanList (ban_record_to_info <$> match limit with Some n => take n all | None => all end))
  | QListWhitelist => Some (ad, RWhitelistEntries (net_to_string <$> elements (wl_entries (whitelist st))))
  | QTopThreats limit => Some (ad, RThreatList (top_threats limit (get_all_bans (ban_store st))))
  | QExportBans format =>
      let infos := ban_record_to_info <$> get_all_bans (ban_store st) in
      Some (ad, RExportData (match format with FJson => json_bans infos | FCsv => csv_export infos end) format)
  | QReplay duration =>
      Some (ad, RError ("Replay not yet implemented. Requested duration: " +:+ duration +:+ ". Future implementation requires persisted event journal.")%string)
  end.

(** *** The user interfaces *)
Record BanRequest : Type := { br_subject : IpNet; br_duration : Duration; br_reason : string }.

Definition ui_expiry (now : DateTime) (d : Duration) : result DateTime PluginError :=
  match duration_from_std d with
  | None => Err (ConfigValidation "ban duration out of range")
  | Some d =>
      if d <=? 0 then Err (ConfigValidation "ban duration must be positive")
      else match checked_add_signed now d with Some t => Ok t | None => Err (ConfigValidation "ban expiry out of range") end
  end.

Definition ui_add_ban (now : DateTime) (req : BanRequest) (ad : Admin E) : Admin E * result unit PluginError :=
  let subject := net_trunc (br_subject req) in
  match (let? _ := map_err ConfigValidation (check_mutation_prefix subject "ban") in ui_expiry now (br_duration req)) with
  | Err e => (ad, Err e)
  | Ok expires =>
      let '(sm, res) := add_ban (manual_record subject now (Some expires) (br_reason req)) (ad_state ad) in
      let ad := with_ad_state sm ad in
      match res with
      | Err e => (ad, Err (PRuntime ("failed to persist manual ban: " +:+ show_hg_error e)%string))
      | Ok _ => let '(ad, res) := on_enforcer (apply_ban subject) ad in
                (ad, map_err (fun e => PRuntime ("ban saved; firewall apply failed (pending retry): " +:+ show_hg_error e)%string) res)
      end
  end.

Definition ui_remove_ban (now : DateTime) (subject : IpNet) (ad : Admin E) : Admin E * result unit PluginError :=
  let subject := net_trunc subject in
  let '(sm, res) := revoke_ban now subject (ad_state ad) in
  let ad := with_ad_state sm ad in
  match res with
  | Err e => (ad, Err (PRuntime ("failed to remove ban: " +:+ show_hg_error e)%string))
  | Ok _ => let '(ad, res) := on_enforcer (unapply_ban subject) ad in
            (ad, map_err (fun e => PRuntime ("unban saved; firewall removal failed (pending retry): " +:+ show_hg_error e)%string) res)
  end.

Definition ui_add_whitelist (now : DateTime) (cidr : IpNet) (ad : Admin E) : Admin E * result unit PluginError :=
  let cidr := net_trunc cidr in
  match check_mutation_prefix cidr "whitelist" with
  | Err m => (ad, Err (ConfigValidation m))
  | Ok _ =>
      let '(ad, res) := whitelist_and_sync now cidr ad in
      (ad, match res with
           | Err e => Err (PRuntime ("failed to whitelist " +:+ net_to_string cidr +:+ ": " +:+ show_hg_error e)%string)
           | Ok (Err e) => Err (PRuntime ("whitelist saved; firewall sync failed (pending retry): " +:+ show_hg_error e)%string)
           | Ok (Ok _) => Ok tt
           end)
  end.

(** The entry is taken as it is written, host bits included. *)
Definition ui_remove_whitelist (cidr : IpNet) (ad : Admin E) : Admin E * result unit PluginError :=
  let '(sm, res) := remove_whitelist cidr (ad_state ad) in
  (with_ad_state sm ad, map_err (fun e => PRuntime ("failed to remove " +:+ net_to_string cidr +:+ " from whitelist: " +:+ show_hg_error e)%string) res).
End commands.

(** ** What a command leaves behind *)
(** Parsed addresses are addresses. *)
Class AddrWf `{AddrText} : Prop := {
  parse_ip_wf (s : bytes) (a : IpAddr) : parse_ip s = Some a -> wf_ip a;
  parse_net_wf (s : bytes) (n : IpNet) : parse_net s = Some n -> wf_net n;
}.

Section effects.
Context {E : Type} `{Enforcer E} {enf_laws : EnforcerLaws E} `{IpNetOps} {laws : IpNetLaws} `{AddrText} {addr : AddrWf} `{ApiText} `{Codec WalEntry} `{Crc32}.
Context (max_utc : DateTime).

Lemma parse_target_wf (target : bytes) (n : IpNet) : parse_target target = Ok n -> wf_net n.
Proof using addr.
  unfold parse_target. destruct (parse_net target) as [m|] eqn:Em; [intros [= <-]; by eapply parse_net_wf|].
  destruct (parse_ip target) as [a|] eqn:Ea; [|done]. intros [= <-]. eapply ip_to_net_wf, parse_ip_wf, Ea.
Qed.

(** No ban and nothing the firewall holds is whitelisted. *)
Definition admin_ok (ad : Admin E) : Prop :=
  safe (mem (ad_state ad)) /\ forall e, ad_enforcer ad = Some e -> guarded (whitelist (mem (ad_state ad))) e.

Lemma trunc_wf (n : IpNet) : wf_net n -> wf_net (net_trunc n).
Proof using laws. intros Hn. rewrite net_trunc_law by done. by apply trunc_ref_wf. Qed.

Lemma on_enforcer_state (f : E -> E * hresult unit) (ad : Admin E) : ad_state (on_enforcer f ad).1 = ad_state ad.
Proof. unfold on_enforcer. destruct (ad_enforcer ad) as [e|]; [|done]. by destruct (f e). Qed.

Lemma on_enforcer_ok (f : E -> E * hresult unit) (ad : Admin E) :
  (forall e, guarded (whitelist (mem (ad_state ad))) e -> guarded (whitelist (mem (ad_state ad))) (f e).1) -> admin_ok ad -> admin_ok (on_enforcer f ad).1.
Proof.
  intros Hf [Hs He]. split; [by rewrite on_enforcer_state|]. rewrite on_enforcer_state. unfold on_enforcer.
  destruct (ad_enforcer ad) as [e|] eqn:Ee; [|simpl; by rewrite Ee]. specialize (Hf e (He e eq_refl)). destruct (f e) as [e' r].
  simpl. by intros e0 [= <-].
Qed.

Lemma hook_ban_ok (r : BanRecord) (ad : Admin E) : admin_ok ad -> admin_ok (hook_ban r ad).
Proof. unfold hook_ban. by destruct (ad_hook ad). Qed.
Lemma hook_ban_state (r : BanRecord) (ad : Admin E) : ad_state (hook_ban r ad) = ad_state ad /\ ad_enforcer (hook_ban r ad) = ad_enforcer ad.
Proof. unfold hook_ban. by destruct (ad_hook ad). Qed.

Lemma hook_enforcer_ok (f : E -> E * hresult unit) (r : BanRecord) (ad : Admin E) : admin_ok (on_enforcer f ad).1 -> admin_ok (on_enforcer f (hook_ban r ad)).1.
Proof.
  unfold admin_ok, on_enforcer, hook_ban. destruct (ad_hook ad); [|done]. cbn. destruct (ad_enforcer ad) as [e|] eqn:Ee; [by destruct (f e)|]. cbn. by rewrite Ee.
Qed.

(** A ban goes into the state, then into the firewall. *)
Lemma recorded_ban_ok (r0 : BanRecord) (ad : Admin E) : wf_net (subject r0) -> net_trunc (subject r0) = subject r0 -> admin_ok ad ->
  let '(sm, res) := add_ban r0 (ad_state ad) in
  admin_ok (with_ad_state sm ad) /\ (is_ok res = true -> admin_ok (on_enforcer (apply_ban (subject r0)) (with_ad_state sm ad)).1).
Proof using laws.
  intros Hn Ht [Hs He]. pose proof (safe_add_ban r0 (ad_state ad) Hn Hs) as Hs'. pose proof (add_ban_whitelist r0 (ad_state ad)) as Hw.
  pose proof (add_ban_ok_clear r0 (ad_state ad)) as Hc. destruct (add_ban r0 (ad_state ad)) as [sm res]. simpl in *.
  assert (Hok : admin_ok (with_ad_state sm ad)) by (split; [done|]; simpl; by rewrite Hw).
  split; [done|]. intros Hres. specialize (Hc Hres). apply on_enforcer_ok; [|done]. intros e Hg. apply guarded_apply; [apply Hs'| |done].
  split; [done|]. simpl. by rewrite Hw, <- Ht.
Qed.

Lemma manual_ban_ok (net : IpNet) (now : DateTime) (exp : option DateTime) (reason : string) (ad : Admin E) :
  wf_net net -> admin_ok ad ->
  let '(sm, res) := add_ban (manual_record (net_trunc net) now exp reason) (ad_state ad) in
  admin_ok (with_ad_state sm ad) /\
  (is_ok res = true -> forall r, admin_ok (on_enforcer (apply_ban (net_trunc net)) (hook_ban r (with_ad_state sm ad))).1 /\
                                 admin_ok (on_enforcer (apply_ban (net_trunc net)) (with_ad_state sm ad)).1).
Proof using laws.
  intros Hn Hok. assert (net_trunc (net_trunc net) = net_trunc net) as Ht.
  { rewrite (net_trunc_law (net_trunc net)) by (by apply trunc_wf). rewrite net_trunc_law by done. apply trunc_ref_canonical. }
  pose proof (recorded_ban_ok (manual_record (net_trunc net) now exp reason) ad (trunc_wf net Hn) Ht Hok) as Hr. cbn [subject manual_record] in Hr.
  destruct (add_ban _ (ad_state ad)) as [sm res]. destruct Hr as [H1' H2']. split; [done|]. intros Hres r. specialize (H2' Hres). split; [|done].
  by apply hook_enforcer_ok.
Qed.

Lemma socket_ban_ok (now1 now : DateTime) (target : bytes) (duration : option bytes) (reason : option string) (ad ad' : Admin E) (r : ApiResponse) :
  admin_ok ad -> socket_ban max_utc now1 now target duration reason ad = Some (ad', r) -> admin_ok ad'.
Proof using laws addr.
  intros Hok. unfold socket_ban. destruct (parse_target target) as [n|] eqn:En; [|intros; by simplify_eq]. apply parse_target_wf in En.
  destruct (check_mutation_prefix _ _); [|intros; by simplify_eq]. destruct (match duration with Some _ => _ | None => _ end) as [[hd|]|]; [|simpl; intros; by simplify_eq|done].
  simpl. destruct (socket_expiry max_utc now1 (hd_duration hd)) as [exp|]; [|done]. simpl.
  pose proof (manual_ban_ok n now exp (default "manual admin ban"%string reason) ad En Hok) as Hm.
  destruct (add_ban _ (ad_state ad)) as [sm [u|e]]; destruct Hm as [H1' H2']; [|intros; by simplify_eq].
  destruct (H2' eq_refl (manual_record (net_trunc n) now exp (default "manual admin ban"%string reason))) as [H3' _].
  clear H2'. destruct (on_enforcer _ _) as [ad2 res]. intros; by simplify_eq.
Qed.

(** Entries of the log that only take away. *)
Lemma harmless_guarded (entry : WalEntry) (ad : Admin E) : harmless entry -> admin_ok ad -> admin_ok (with_ad_state (logged entry (ad_state ad)).1 ad).
Proof.
  intros Hh [Hs He]. split; [simpl; by apply safe_logged|]. simpl. intros e Hee. eapply guarded_shrink; [|by apply He]. intros n Hn.
  pose proof (logged_mem entry (ad_state ad)) as Hm. destruct (logged entry (ad_state ad)) as [sm' res]. simpl. rewrite Hm.
  destruct (is_ok res); [|done]. destruct entry; simpl in *; try done. by apply overlaps_remove.
Qed.

Lemma revoke_ban_ok (now : DateTime) (net : IpNet) (ad : Admin E) : wf_net net -> admin_ok ad ->
  let '(sm, res) := revoke_ban now (net_trunc net) (ad_state ad) in
  admin_ok (with_ad_state sm ad) /\ admin_ok (on_enforcer (unapply_ban (net_trunc net)) (with_ad_state sm ad)).1.
Proof using laws.
  intros Hn Ha. assert (Hok : admin_ok (with_ad_state (revoke_ban now (net_trunc net) (ad_state ad)).1 ad)).
  { unfold revoke_ban. rewrite (logged_fst (fun res => let? _ := res in Ok _)). by apply harmless_guarded. }
  destruct (revoke_ban now (net_trunc net) (ad_state ad)) as [sm res]. split; [done|]. apply on_enforcer_ok; [|done].
  intros e Hg. apply guarded_unapply; [by apply trunc_wf|done].
Qed.

(** A whitelisting that is reported done: whatever was banned or blocked before,
    nothing whitelisted is now. *)
Lemma whitelist_and_sync_ok (now : DateTime) (net : IpNet) (ad ad' : Admin E) (revoked : list IpNet) : wf_net net ->
  safe (mem (ad_state ad)) -> (forall e, ad_enforcer ad = Some e -> enf_ok e) ->
  whitelist_and_sync now net ad = (ad', Ok (Ok revoked)) ->
  admin_ok ad' /\ net ∈ all_entries (whitelist (mem (ad_state ad'))).
Proof using laws.
  intros Hn Hs He. unfold whitelist_and_sync. pose proof (safe_add_whitelist net (ad_state ad) Hn Hs) as Hw.
  assert (Hin : is_ok (add_whitelist net (ad_state ad)).2 = true -> net ∈ all_entries (whitelist (mem (add_whitelist net (ad_state ad)).1))).
  { unfold add_whitelist. pose proof (logged_mem (WAddWhitelist net) (ad_state ad)) as Hm. destruct (logged _ _) as [sm1 [u|x]]; [|done]. simpl in Hm.
    unfold revoke_bans_covered_by_whitelist. destruct (revoke_loop _ [] sm1) as [sm' [l|x]] eqn:El; [|done]. intros _.
    apply revoke_loop_ok in El as [Hwl _]. cbn [fst]. rewrite Hwl. rewrite Hm. simpl. unfold all_entries, whitelist_add. simpl. apply elem_of_app. right. apply elem_of_elements. set_solver +. }
  destruct (add_whitelist net (ad_state ad)) as [sm [l|x]]; [|done]. specialize (Hw eq_refl). specialize (Hin eq_refl). simpl in Hw, Hin.
  unfold on_enforcer. simpl. destruct (ad_enforcer ad) as [e|] eqn:Ee.
  - pose proof (guarded_sync (whitelist (mem sm)) (desired_subjects now sm) e (proj1 Hw)) as Hg.
    destruct (sync_full _ e) as [e' [u|x]]; [|intros; simplify_eq/=]. intros [= <- _]. split; [|done]. split; [done|]. simpl. intros e0 [= <-].
    apply Hg; [intros n Hin'; by eapply desired_clear|by apply He|by right].
  - intros [= <- _]. split; [|done]. split; [done|]. simpl. by rewrite Ee.
Qed.

(** ** All the commands *)
(** Whitelisting counts only when it is answered with success. *)
Definition clean_response (q : ApiRequest) (r : ApiResponse) : Prop :=
  match q, r with QWhitelistAdd _, RError _ => False | _, _ => True end.

Lemma admin_enf_ok (ad : Admin E) : admin_ok ad -> forall e, ad_enforcer ad = Some e -> enf_ok e.
Proof. intros [_ He] e Hee. by apply He. Qed.

Lemma process_request_ok (now : nat -> DateTime) (uptime : Z) (q : ApiRequest) (ad ad' : Admin E) (r : ApiResponse) :
  admin_ok ad -> process_request_inner max_utc now uptime q ad = Some (ad', r) -> clean_response q r -> admin_ok ad'.
Proof using laws addr.
  intros Hok. destruct q as [|target duration reason|target|target|target|limit| |limit|format|duration]; simpl; try (intros; by simplify_eq).
  - intros Hb _. by eapply socket_ban_ok.
  - intros [= Hb] _. unfold socket_unban in Hb. destruct (parse_target target) as [n|] eqn:En; [|by simplify_eq]. apply parse_target_wf in En.
    pose proof (revoke_ban_ok (now 0%nat) n ad En Hok) as Hr. destruct (revoke_ban _ _ _) as [sm [b|x]]; [|simplify_eq; apply Hr].
    destruct Hr as [_ Hr]. destruct (on_enforcer _ _) as [ad2 res]. by simplify_eq.
  - intros [= Hb] Hclean. unfold socket_whitelist_add in Hb. destruct (parse_target target) as [n|] eqn:En; [|by simplify_eq]. apply parse_target_wf in En.
    destruct (check_mutation_prefix _ _); [|by simplify_eq].
    pose proof (fun ad' revoked => whitelist_and_sync_ok (now 0%nat) (net_trunc n) ad ad' revoked (trunc_wf n En) (proj1 Hok) (admin_enf_ok ad Hok)) as Hw.
    destruct (whitelist_and_sync _ _ ad) as [ad2 [[revoked|x]|x]]; simplify_eq; try done. by destruct (Hw _ _ eq_refl).
  - intros [= Hb] _. unfold socket_whitelist_remove in Hb. destruct (parse_target target) as [n|] eqn:En; [|by simplify_eq].
    pose proof (harmless_guarded (WRemoveWhitelist (net_trunc n)) ad I Hok) as Hh. unfold remove_whitelist in Hb.
    destruct (logged _ _) as [sm res]. by simplify_eq/=.
Qed.

(** The calls of the user interfaces. *)
Inductive UiCall : Type :=
| UAddBan (req : BanRequest)
| URemoveBan (subject : IpNet)
| UAddWhitelist (cidr : IpNet)
| URemoveWhitelist (cidr : IpNet).
Definition wf_ui_call (c : UiCall) : Prop :=
  match c with UAddBan req => wf_net (br_subject req) | URemoveBan n | UAddWhitelist n | URemoveWhitelist n => wf_net n end.
Definition ui_call (now : DateTime) (c : UiCall) (ad : Admin E) : Admin E * result unit PluginError :=
  match c with
  | UAddBan req => ui_add_ban max_utc now req ad
  | URemoveBan n => ui_remove_ban now n ad
  | UAddWhitelist n => ui_add_whitelist now n ad
  | URemoveWhitelist n => ui_remove_whitelist n ad
  end.
Definition clean_ui (c : UiCall) (r : result unit PluginError) : Prop := match c, r with UAddWhitelist _, Err _ => False | _, _ => True end.

Lemma ui_call_ok (now : DateTime) (c : UiCall) (ad : Admin E) : wf_ui_call c -> admin_ok ad ->
  clean_ui c (ui_call now c ad).2 -> admin_ok (ui_call now c ad).1.
Proof using laws.
  intros Hwf Hok. destruct c as [req|n|n|n]; simpl in *.
  - intros _. unfold ui_add_ban. destruct (let? _ := _ in _) as [exp|]; [|done]. pose proof (manual_ban_ok (br_subject req) now (Some exp) (br_reason req) ad Hwf Hok) as Hm.
    destruct (add_ban _ _) as [sm [u|x]]; [|apply Hm]. destruct Hm as [_ Hm]. destruct (Hm eq_refl (manual_record (br_subject req) now None EmptyString)) as [_ H2'].
    by destruct (on_enforcer _ _).
  - intros _. unfold ui_remove_ban. pose proof (revoke_ban_ok now n ad Hwf Hok) as Hr. destruct (revoke_ban _ _ _) as [sm [b|x]]; [|apply Hr].
    destruct Hr as [_ Hr]. by destruct (on_enforcer _ _).
  - unfold ui_add_whitelist. destruct (check_mutation_prefix _ _); [|done].
    pose proof (fun ad' revoked => whitelist_and_sync_ok now (net_trunc n) ad ad' revoked (trunc_wf n Hwf) (proj1 Hok) (admin_enf_ok ad Hok)) as Hw.
    destruct (whitelist_and_sync _ _ ad) as [ad2 [[revoked|x]|x]]; try done. intros _. by destruct (Hw _ _ eq_refl).
  - intros _. unfold ui_remove_whitelist. pose proof (harmless_guarded (WRemoveWhitelist n) ad I Hok) as Hh. unfold remove_whitelist.
    by destruct (logged _ _).
Qed.

(** No command takes the firewall away. *)
Lemma on_enforcer_some (f : E -> E * hresult unit) (ad : Admin E) : is_Some (ad_enforcer ad) -> is_Some (ad_enforcer (on_enforcer f ad).1).
Proof. unfold on_enforcer. intros [e He]. rewrite He. destruct (f e). by eexists. Qed.

Lemma process_request_enforcer (now : nat -> DateTime) (uptime : Z) (q : ApiRequest) (ad ad' : Admin E) (r : ApiResponse) :
  is_Some (ad_enforcer ad) -> process_request_inner max_utc now uptime q ad = Some (ad', r) -> is_Some (ad_enforcer ad').
Proof.
  intros Hs. destruct q as [|target duration reason|target|target|target|limit| |limit|format|duration]; simpl; try (intros; by simplify_eq).
  - unfold socket_ban. destruct (parse_target target) as [n|]; [|intros; by simplify_eq]. destruct (check_mutation_prefix _ _); [|intros; by simplify_eq].
    destruct (match duration with Some _ => _ | None => _ end) as [[hd|]|]; simpl; [|intros; by simplify_eq|done].
    destruct (socket_expiry _ _ _) as [exp|]; [|done]. simpl. set (rec := manual_record _ _ _ _). destruct (add_ban rec _) as [sm [u|x]]; [|intros; by simplify_eq].
    pose proof (on_enforcer_some (apply_ban (net_trunc n)) (hook_ban rec (with_ad_state sm ad))) as Ho.
    rewrite (proj2 (hook_ban_state rec (with_ad_state sm ad))) in Ho. specialize (Ho Hs). destruct (on_enforcer _ _). intros; by simplify_eq.
  - unfold socket_unban. destruct (parse_target target) as [n|]; [|intros; by simplify_eq]. destruct (revoke_ban _ _ _) as [sm [b|x]]; [|intros; by simplify_eq].
    pose proof (on_enforcer_some (unapply_ban (net_trunc n)) (with_ad_state sm ad) Hs) as Ho. destruct (on_enforcer _ _). intros; by simplify_eq.
  - unfold socket_whitelist_add, whitelist_and_sync. destruct (parse_target target) as [n|]; [|intros; by simplify_eq].
    destruct (check_mutation_prefix _ _); [|intros; by simplify_eq]. destruct (add_whitelist _ _) as [sm [l|x]]; [|intros; by simplify_eq].
    pose proof (on_enforcer_some (sync_full (desired_subjects (now 0%nat) sm)) (with_ad_state sm ad) Hs) as Ho. destruct (on_enforcer _ _). intros; by simplify_eq.
  - unfold socket_whitelist_remove. destruct (parse_target target) as [n|]; [|intros; by simplify_eq]. destruct (remove_whitelist _ _). intros; by simplify_eq.
Qed.

Lemma ui_call_enforcer (now : DateTime) (c : UiCall) (ad : Admin E) : is_Some (ad_enforcer ad) -> is_Some (ad_enforcer (ui_call now c ad).1).
Proof.
  intros Hs. destruct c as [req|n|n|n]; simpl.
  - unfold ui_add_ban. destruct (let? _ := _ in _) as [exp|]; [|done]. destruct (add_ban _ _) as [sm [u|x]]; [|done].
    pose proof (on_enforcer_some (apply_ban (net_trunc (br_subject req))) (with_ad_state sm ad) Hs) as Ho. by destruct (on_enforcer _ _).
  - unfold ui_remove_ban. destruct (revoke_ban _ _ _) as [sm [b|x]]; [|done].
    pose proof (on_enforcer_some (unapply_ban (net_trunc n)) (with_ad_state sm ad) Hs) as Ho. by destruct (on_enforcer _ _).
  - unfold ui_add_whitelist, whitelist_and_sync. destruct (check_mutation_prefix _ _); [|done]. destruct (add_whitelist _ _) as [sm [l|x]]; [|done].
    pose proof (on_enforcer_some (sync_full (desired_subjects now sm)) (with_ad_state sm ad) Hs) as Ho. by destruct (on_enforcer _ _).
  - unfold ui_remove_whitelist. by destruct (remove_whitelist _ _).
Qed.

(** C24: Whitelisting by hand works at once: when the command line tool reports an
    address or network as whitelisted, none of its addresses is banned any
    more and the firewall blocks none of them, whatever bans, wider or narrower
    than the entry, were there before. *)
Theorem whitelist_add_lifts (now : DateTime) (target : bytes) (n : IpNet) (ad ad' : Admin E) (message : string) (ip : IpAddr)
  (Hs : safe (mem (ad_state ad))) (He : forall e, ad_enforcer ad = Some e -> enf_ok e)
  (Hok : socket_whitelist_add now target ad = (ad', ROk message)) (Hn : parse_target target = Ok n) (Hip : wf_ip ip) (Hin : in_net n ip) :
  is_banned (ban_store (mem (ad_state ad'))) ip = None /\ forall e, ad_enforcer ad' = Some e -> ~ blocks e ip.
Proof using laws addr.
  unfold socket_whitelist_add in Hok. rewrite Hn in Hok. apply parse_target_wf in Hn. destruct (check_mutation_prefix _ _); [|done].
  pose proof (fun ad' revoked => whitelist_and_sync_ok now (net_trunc n) ad ad' revoked (trunc_wf n Hn) Hs He) as Hw.
  destruct (whitelist_and_sync _ _ ad) as [ad2 [[revoked|x]|x]]; [|done..].
  assert (ad2 = ad') as -> by (by destruct revoked; simplify_eq). destruct (Hw ad' revoked eq_refl) as [[[Hwf Hall] Hg] Hentry]. clear Hw Hok.
  assert (Hover : forall m, wf_net m -> in_net m ip -> overlaps (whitelist (mem (ad_state ad'))) m = true).
  { intros m Hm Hmi. apply overlaps_spec; [done|done|]. exists (net_trunc n), ip. split_and!; [done|done| |done].
    rewrite net_trunc_law by done. by apply trunc_ref_in_net. }
  split.
  - destruct (is_banned _ ip) as [r|] eqn:Eb; [|done]. destruct (is_banned_sound _ _ _ Eb Hip) as (m & Hm & Hmi).
    destruct (Hall m r Hm) as (Hwm & _ & _ & Ho). by rewrite Hover in Ho.
  - intros e Hee Hblk. destruct (Hg e Hee) as [Heok Hf]. destruct (blocks_held _ _ Heok Hblk) as (m & Hm & Hmi). destruct (Hf m Hm) as [Hwm Ho].
    by rewrite Hover in Ho.
Qed.
End effects.

(** ** A wide ban and one whitelisted address *)
Module AdminSample.
#[local] Existing Instances ipnet_ref ipnet_ref_laws toy_crc.
#[local] Instance wal_codec : Codec WalEntry := codec_ref 0 WalEntry.
Definition friend : IpAddr := IpV4 (ipv4 9 9 9 9).
#[local] Instance addr : AddrText := {| parse_ip _ := Some friend; parse_net _ := None |}.
#[local] Instance addr_wf : AddrWf.
Proof. split; [|done]. intros s a [= <-]. vm_compute. split; congruence. Qed.
#[local] Instance texts : ApiText := {| rfc3339 _ := ""%string; debug_source _ := ""%string; io_error_text _ := ""%string; json_bans _ := ""%string |}.

Definition empty : Admin ObserveOnlyEnforcer :=
  {| ad_state := {| mem := mem_new; wal_writer := wal_open [] Sync; snapshot_disk := None; io_faults := [] |};
     ad_enforcer := Some {| oo_bans := [] |}; ad_hook := true; ad_announced := [] |}.
Definition request : BanRequest := {| br_subject := NetV4 (ipv4 9 9 0 0) 16; br_duration := secs 3600; br_reason := "" |}.
Definition max_utc : DateTime := secs 8210266876799.
Definition banned : Admin ObserveOnlyEnforcer := (ui_add_ban max_utc (secs 10) request empty).1.
Definition lifted := socket_whitelist_add (secs 20) (as_bytes "9.9.9.9") banned.

Lemma banned_ok : admin_ok banned.
Proof.
  apply (ui_call_ok max_utc (secs 10) (UAddBan request) empty); [vm_compute; repeat split; (congruence || lia)| |exact I].
  split; [apply safe_new|]. simpl. intros e [= <-]. split; [constructor|]. intros n []%not_elem_of_nil.
Qed.

Lemma whitelist_add_lifts_witness :
  is_banned (ban_store (mem (ad_state banned))) friend <> None /\
  is_banned (ban_store (mem (ad_state lifted.1))) friend = None /\ forall e, ad_enforcer lifted.1 = Some e -> ~ blocks e friend.
Proof.
  split; [vm_compute; congruence|].
  apply (whitelist_add_lifts (secs 20) (as_bytes "9.9.9.9") (ip_to_net friend) banned lifted.1
           ("Added " +:+ net_to_string (ip_to_net friend) +:+ " to whitelist, revoked 1 covered ban(s)")).
  - apply banned_ok.
  - exact (admin_enf_ok banned banned_ok).
  - vm_compute. reflexivity.
  - vm_compute. reflexivity.
  - vm_compute. split; congruence.
  - vm_compute. split; reflexivity.
Defined.

(** A duration of 300 million years: the command line makes the ban permanent,
    the user interfaces refuse it; 300,000 years end the task of the command
    line's connection. *)
Example overlong_durations :
  socket_expiry max_utc (secs 10) (Some (secs (300000000 * 365 * 86400))) = Some None /\
  ui_expiry max_utc (secs 10) (secs (300000000 * 365 * 86400)) = Err (ConfigValidation "ban duration out of range") /\
  socket_expiry max_utc (secs 10) (Some (secs (300000 * 365 * 86400))) = None.
Proof. by vm_compute. Qed.
End AdminSample.
