(* ===== verification/Redact.v ===== *)
(** * Secrets in the configuration the API shows

    [hiveguard-daemon/src/agent_api.rs] hides the values of secret keys, in the
    text of the configuration (line by line, so that everything else stays byte
    for byte) and in the settings of plugins (as JSON); [ui_api.rs] serves the
    one and writes a new configuration back. The YAML parser, the file system and
    the environment are parameters. *)
From S2P Require Import Prelude Text Models SigmaCond PluginConfig Secrets Host AgentScan AgentLogs Durations Floats Config Admin.
Local Open Scope Z_scope.
Local Open Scope rust_scope.

(** ** Secret keys *)
Definition REDACTED : bytes := as_bytes "<redacted>".
Definition QUOTED : bytes := 34 :: REDACTED ++ [34].
Definition SECRET_KEYS : list bytes :=
  as_bytes <$> ["auth_token"; "token"; "password"; "passwd"; "secret"; "api_key"; "apikey"; "access_token"; "refresh_token"; "client_secret";
                "private_key"; "secret_key"; "bearer_token"; "bot_token"; "webhook_secret"; "routing_key"; "integration_key"; "license_key";
                "hmac_key"; "shared_secret"; "sasl_password"]%string.
Definition SECRET_SUFFIXES : list bytes := as_bytes <$> ["_token"; "_key"; "_secret"; "_password"]%string.
Definition is_secret_key (key : bytes) : bool :=
  let k := to_ascii_lowercase (trim key) in bool_decide (k ∈ SECRET_KEYS) || existsb (fun s => ends_with s k) SECRET_SUFFIXES.
Definition is_placeholder_value (v : bytes) : bool := let v := trim v in starts_with OPEN v && ends_with CLOSE v.

(** ** Plugin settings *)
Fixpoint redacted_json (v : Value) : Value :=
  match v with
  | VObject m =>
      VObject ((fun kv : bytes * Value =>
        (kv.1, match kv.2 with
               | VString s => if is_secret_key kv.1 && negb (bool_decide (s = [])) && negb (is_placeholder_value s) then VString REDACTED else VString s
               | VNumber n => if is_secret_key kv.1 then VString REDACTED else VNumber n
               | _ => redacted_json kv.2
               end)) <$> m)
  | VArray a => VArray (redacted_json <$> a)
  | other => other
  end.

(** ** Lines of YAML *)
(** Where the closing quote is, after the opening one: [\ ] escapes in a text
    in double quotes, a doubled quote stands for itself in single quotes. *)
Fixpoint dq_close (s : bytes) : option nat :=
  match s with
  | [] => None
  | c :: s' =>
      if c =? 92 then match s' with [] => None | _ :: s'' => (fun i => S (S i)) <$> dq_close s'' end
      else if c =? 34 then Some 0%nat else S <$> dq_close s'
  end.
Fixpoint sq_close (s : bytes) : option nat :=
  match s with
  | [] => None
  | c :: s' =>
      if c =? 39 then match s' with
                      | c' :: s'' => if c' =? 39 then (fun i => S (S i)) <$> sq_close s'' else Some 0%nat
                      | [] => Some 0%nat
                      end
      else S <$> sq_close s'
  end.
(** A plain value ends at a comment. *)
Definition split_plain (t : bytes) : bytes * bytes :=
  let end_ := match str_find [32; 35] t with Some i => i | None => default (length t) (str_find [9; 35] t) end in
  let v := trim_end (take end_ t) in (v, drop (length v) t).
(** The value and what is left of the line. *)
Definition split_scalar (t : bytes) : bytes * bytes :=
  let quoted (close : option nat) := match close with Some i => (take (i + 2) t, drop (i + 2) t) | None => (t, []) end in
  match t with
  | c :: s => if c =? 34 then quoted (dq_close s) else if c =? 39 then quoted (sq_close s) else split_plain t
  | [] => split_plain t
  end.

Definition key_char (c : Z) : bool := is_ascii_alpha c || is_ascii_digit c || bool_decide (c ∈ as_bytes "_-.").
Definition is_blank (c : Z) : bool := (c =? 32) || (c =? 9).
Definition indent_of (s : bytes) : nat := length s - length (drop_while (Z.eqb 32) s).
(** The dashes of list items; fuel is the length of the line. *)
Fixpoint item_dashes (fuel : nat) (indent : nat) (t : bytes) : nat * bytes :=
  match fuel with
  | O => (indent, t)
  | S fuel' =>
      match strip_prefix [45; 32] t with
      | Some after => let trimmed := drop_while (Z.eqb 32) after in item_dashes fuel' (indent + (length t - length trimmed)) trimmed
      | None => (indent, t)
      end
  end.
Definition key_of (t : bytes) : option (bytes * bytes) :=
  let bare := let '(key, rest) := span key_char t in if bool_decide (rest = []) then None else Some (key, rest) in
  match t with
  | c :: q => if c =? 34 then split_once 34 q else if c =? 39 then split_once 39 q else bare
  | [] => bare
  end.
Definition yaml_key_line (line : bytes) : option (nat * bytes * bytes) :=
  let indent := indent_of line in
  let '(item_indent, t) := item_dashes (length line) indent (drop indent line) in
  if starts_with [35] t then None else
  kr ← key_of t;
  let '(key, after_key) := kr : bytes * bytes in
  if bool_decide (key = []) then None else
  rest ← strip_prefix [58] (drop_while is_blank after_key);
  match rest with
  | c :: _ => if is_blank c then Some (item_indent, key, rest) else None
  | [] => Some (item_indent, key, rest)
  end.

(** ** Flow mappings: [{enabled: true, token: abc}]

    The regular expression is deterministic: no part can give a character back
    to the next one. *)
Definition is_quote (c : Z) : bool := (c =? 34) || (c =? 39).
Definition opt_quote (s : bytes) : bytes * bytes :=
  match s with c :: s' => if is_quote c then ([c], s') else ([], s) | [] => ([], []) end.
Definition skip_space (s : bytes) : bytes * bytes := let r := trim_start s in (take (length s - length r) s, r).
Definition flow_stop (c : Z) : bool := (c =? 44) || (c =? 125).
Definition flow_bare (s : bytes) : option (bytes * bytes) :=
  match s with
  | c :: _ => if flow_stop c || bool_decide (is_Some (white_prefix s)) then None else Some (span (fun c => negb (flow_stop c)) s)
  | [] => None
  end.
Definition flow_value (s : bytes) : option (bytes * bytes) :=
  let quoted (close : option nat) := match close with Some i => Some (take (i + 2) s, drop (i + 2) s) | None => flow_bare s end in
  match s with
  | c :: s' => if c =? 34 then quoted (dq_close s') else if c =? 39 then quoted (str_find [39] s') else flow_bare s
  | [] => None
  end.
Record FlowMatch : Type := { fm_pre : bytes; fm_key : bytes; fm_mid : bytes; fm_val : bytes; fm_rest : bytes }.
Definition flow_match (s : bytes) : option FlowMatch :=
  match s with
  | c :: s1 =>
      if (c =? 123) || (c =? 44) then
        let '(sp, s2) := skip_space s1 in
        let '(q, s3) := opt_quote s2 in
        let '(key, s4) := span key_char s3 in
        if bool_decide (key = []) then None else
        let '(q', s5) := opt_quote s4 in
        let '(sp', s6) := skip_space s5 in
        s7 ← strip_prefix [58] s6;
        let '(sp'', s8) := skip_space s7 in
        vr ← flow_value s8;
        Some {| fm_pre := c :: sp ++ q; fm_key := key; fm_mid := q' ++ sp' ++ 58 :: sp''; fm_val := vr.1; fm_rest := vr.2 |}
      else None
  | [] => None
  end.
Definition flow_secret (m : FlowMatch) : bool :=
  let unq := trim_chars [34; 39] (trim (fm_val m)) in
  is_secret_key (fm_key m) && negb (bool_decide (unq = [])) && negb (is_placeholder_value unq) && negb (bool_decide (unq = REDACTED)).
Fixpoint flow_from (fuel : nat) (s : bytes) : bytes :=
  match fuel, s with
  | S fuel', c :: s' =>
      match flow_match s with
      | Some m => fm_pre m ++ fm_key m ++ fm_mid m ++ (if flow_secret m then QUOTED else fm_val m) ++ flow_from fuel' (fm_rest m)
      | None => c :: flow_from fuel' s'
      end
  | _, _ => s
  end.
Definition redact_flow (line : bytes) : bytes := if bool_decide (123 ∈ line) then flow_from (length line) line else line.

(** ** The text of the configuration *)
Fixpoint split_inclusive (c : Z) (s : bytes) : list bytes :=
  match s with
  | [] => []
  | x :: s' => if x =? c then [x] :: split_inclusive c s'
               else match split_inclusive c s' with [] => [[x]] | l :: ls => (x :: l) :: ls end
  end.
Definition split_eol (raw : bytes) : bytes * bytes :=
  match strip_suffix 10 raw with
  | Some l => match strip_suffix 13 l with Some l2 => (l2, [13; 10]) | None => (l, [10]) end
  | None => (raw, [])
  end.

(** [rs_skip]: lines deeper than this are dropped; [rs_pending]: a secret key of
    this depth had no value on its line. *)
Record RedactState : Type := { rs_skip : option nat; rs_pending : option nat }.
Definition NULLS : list bytes := as_bytes <$> ["~"; "null"; "Null"; "NULL"]%string.
Definition keep_value (value : bytes) : bool :=
  let unquoted := trim_chars [34; 39] value in
  bool_decide (unquoted = []) || is_placeholder_value unquoted || bool_decide (value ∈ NULLS).

(** The key on the line, if any, and then its flow mappings. *)
Definition key_step (line eol : bytes) (pending : option nat) : RedactState * bytes :=
  let out (st : RedactState) (l : bytes) := (st, redact_flow l ++ eol) in
  let kept := out {| rs_skip := None; rs_pending := pending |} line in
  match yaml_key_line line with
  | Some (key_indent, key, rest) =>
      if is_secret_key key then
        let after := drop_while is_blank rest in
        let lead := take (length rest - length after) rest in
        let head := take (length line - length rest) line in
        let '(value, tail) := split_scalar after in
        match after with
        | [] => out {| rs_skip := None; rs_pending := Some key_indent |} line
        | c :: _ =>
            if c =? 35 then out {| rs_skip := None; rs_pending := Some key_indent |} line
            else if (c =? 124) || (c =? 62) then out {| rs_skip := Some key_indent; rs_pending := pending |} (head ++ lead ++ QUOTED ++ tail)
            else if keep_value value then kept
            else out {| rs_skip := None; rs_pending := pending |} (head ++ lead ++ QUOTED ++ tail)
        end
      else kept
  | None => kept
  end.

Definition blank_line (line : bytes) : bool := bool_decide (trim line = []).
(** A line that can hold the value of the secret key above it. *)
Definition continues_value (base : nat) (line : bytes) : bool :=
  negb (blank_line line) && (base <? indent_of line)%nat && negb (starts_with [35] (trim_start line)).
Definition holds_value (line : bytes) : bool :=
  bool_decide (yaml_key_line line = None) && negb (starts_with [45; 32] (trim_start line)) && negb (bool_decide (trim_start line = [45])).
Definition redact_step (st : RedactState) (raw : bytes) : RedactState * bytes :=
  let '(line, eol) := split_eol raw in
  let dropped := match rs_skip st with Some base => blank_line line || (base <? indent_of line)%nat | None => false end in
  if dropped then (st, [])
  else match rs_pending st with
       | Some base =>
           if continues_value base line then
             if holds_value line
             then ({| rs_skip := Some base; rs_pending := None |}, take (indent_of line) line ++ QUOTED ++ eol)
             else key_step line eol None
           else key_step line eol (if blank_line line then Some base else None)
       | None => key_step line eol None
       end.
Fixpoint redact_lines (st : RedactState) (raws : list bytes) : RedactState * bytes :=
  match raws with
  | [] => (st, [])
  | raw :: raws' => let '(st, o) := redact_step st raw in let '(st, o') := redact_lines st raws' in (st, o ++ o')
  end.
Definition redact_new : RedactState := {| rs_skip := None; rs_pending := None |}.
Definition redact_config_text (content : bytes) : bytes := (redact_lines redact_new (split_inclusive 10 content)).2.

(** ** The parts of a line *)
Lemma suffix_take_drop (r s : bytes) : r `suffix_of` s -> take (length s - length r) s ++ r = s.
Proof. intros [k ->]. rewrite length_app. replace (length k + length r - length r)%nat with (length k) by lia. by rewrite take_app_length. Qed.

Lemma strip_front_suffix (n : nat) (pats : list bytes) (s : bytes) : strip_front n pats s `suffix_of` s.
Proof.
  revert s. induction n as [|n IH]; intros s; simpl; [done|]. case_match; [|done].
  etrans; [apply IH|]. exists (take (length l) s). by rewrite take_drop.
Qed.

Lemma skip_space_app (s a b : bytes) : skip_space s = (a, b) -> s = a ++ b.
Proof. unfold skip_space. intros [= <- <-]. symmetry. apply suffix_take_drop, strip_front_suffix. Qed.

Lemma opt_quote_app (s a b : bytes) : opt_quote s = (a, b) -> s = a ++ b.
Proof. destruct s as [|c s]; simpl; [by intros [= <- <-]|]. case_match; by intros [= <- <-]. Qed.

Lemma strip_prefix_Some (p s r : bytes) : strip_prefix p s = Some r -> s = p ++ r.
Proof.
  unfold strip_prefix. destruct (starts_with p s) eqn:E; [|done]. intros [= <-]. apply starts_with_spec in E as [k ->]. by rewrite drop_app_length.
Qed.

Lemma flow_bare_app (s v r : bytes) : flow_bare s = Some (v, r) -> s = v ++ r.
Proof. destruct s as [|c s]; [done|]. unfold flow_bare. case_match; [done|]. intros E%(inj Some). by apply span_app in E as [-> _]. Qed.

Lemma flow_value_app (s v r : bytes) : flow_value s = Some (v, r) -> s = v ++ r.
Proof.
  destruct s as [|c s]; [done|]. cbn [flow_value].
  set (quoted close := match close with Some i => Some (take (i + 2) (c :: s), drop (i + 2) (c :: s)) | None => flow_bare (c :: s) end).
  assert (forall close, quoted close = Some (v, r) -> c :: s = v ++ r) as Hq.
  { unfold quoted. intros [i|]; [|apply flow_bare_app]. intros E. injection E as E1 E2. by rewrite <- E1, <- E2, take_drop. }
  destruct (c =? 34); [apply Hq|]. destruct (c =? 39); [apply Hq|apply flow_bare_app].
Qed.

Definition fm_text (m : FlowMatch) : bytes := fm_pre m ++ fm_key m ++ fm_mid m ++ fm_val m ++ fm_rest m.
Lemma flow_match_text (s : bytes) (m : FlowMatch) : flow_match s = Some m -> s = fm_text m.
Proof.
  unfold flow_match, fm_text. destruct s as [|c s1]; [done|]. destruct (_ || _); [|done].
  destruct (skip_space s1) as [sp s2] eqn:E1. destruct (opt_quote s2) as [q s3] eqn:E2. destruct (span key_char s3) as [key s4] eqn:E3.
  case_bool_decide; [done|]. destruct (opt_quote s4) as [q' s5] eqn:E4. destruct (skip_space s5) as [sp' s6] eqn:E5.
  intros Em. apply bind_Some in Em as (s7 & E6 & Em). destruct (skip_space s7) as [sp'' s8] eqn:E7.
  apply bind_Some in Em as ([v r] & E8 & [= <-]). cbn.
  apply skip_space_app in E1 as ->. apply opt_quote_app in E2 as ->. apply span_app in E3 as [-> _]. apply opt_quote_app in E4 as ->.
  apply skip_space_app in E5 as ->. apply strip_prefix_Some in E6 as ->. apply skip_space_app in E7 as ->. apply flow_value_app in E8 as ->.
  by rewrite <- !app_assoc.
Qed.

Lemma split_eol_app (raw line eol : bytes) : split_eol raw = (line, eol) -> raw = line ++ eol.
Proof.
  assert (forall c s l, strip_suffix c s = Some l -> s = l ++ [c]) as Hs.
  { clear. intros c s l. unfold strip_suffix. case_bool_decide as E; [|done]. intros [= <-]. apply last_Some in E as [l' ->].
    by rewrite removelast_last. }
  unfold split_eol. destruct (strip_suffix 10 raw) as [l|] eqn:E1; [|by intros [= <- <-]; rewrite app_nil_r].
  apply Hs in E1 as ->. destruct (strip_suffix 13 l) as [l2|] eqn:E2; intros [= <- <-]; [|done]. apply Hs in E2 as ->. by rewrite <- app_assoc.
Qed.

Lemma split_inclusive_concat (c : Z) (s : bytes) : concat (split_inclusive c s) = s.
Proof.
  induction s as [|x s IH]; simpl; [done|]. case_match; simpl; [by rewrite IH|]. destruct (split_inclusive c s) as [|l ls]; simpl in *; by rewrite <- IH.
Qed.

(** ** Nothing is hidden without a marker *)
Definition marked (s : bytes) : Prop := contains REDACTED s = true.
Lemma marked_app (a b c : bytes) : marked b -> marked (a ++ b ++ c).
Proof.
  unfold marked. rewrite !contains_spec. intros (x & y & ->). exists (a ++ x), (y ++ c). by rewrite <- !app_assoc.
Qed.
Lemma marked_l (a b : bytes) : marked a -> marked (a ++ b).
Proof. exact (marked_app [] a b). Qed.
Lemma marked_r (a b : bytes) : marked b -> marked (a ++ b).
Proof. intros Hb. pose proof (marked_app a b [] Hb) as Hm. by rewrite app_nil_r in Hm. Qed.
Lemma marked_quoted : marked QUOTED.
Proof. by vm_compute. Qed.
Create HintDb redact discriminated.
#[local] Hint Resolve marked_l marked_r marked_quoted : redact.

Lemma flow_from_marked (n : nat) (s : bytes) : flow_from n s = s \/ marked (flow_from n s).
Proof.
  revert s. induction n as [|n IH]; intros [|c s]; [by left..|]. cbn [flow_from]. destruct (flow_match (c :: s)) as [m|] eqn:Em.
  - apply flow_match_text in Em. rewrite Em. unfold fm_text. destruct (flow_secret m); [right; auto 6 with redact|].
    destruct (IH (fm_rest m)) as [->|Hm]; [by left|right; auto 6 with redact].
  - destruct (IH s) as [->|Hm]; [by left|]. right. by apply (marked_r [c]).
Qed.
Lemma redact_flow_marked (s : bytes) : redact_flow s = s \/ marked (redact_flow s).
Proof. unfold redact_flow. case_bool_decide; [apply flow_from_marked|by left]. Qed.
Lemma redact_flow_keeps (s : bytes) : marked s -> marked (redact_flow s).
Proof. intros Hs. by destruct (redact_flow_marked s) as [->|]. Qed.

Lemma key_step_marked (line eol : bytes) (p : option nat) :
  (rs_skip (key_step line eol p).1 = None /\ (key_step line eol p).2 = line ++ eol) \/ marked (key_step line eol p).2.
Proof.
  assert (forall st : RedactState, rs_skip st = None -> (rs_skip (st, redact_flow line ++ eol).1 = None /\
    (st, redact_flow line ++ eol).2 = line ++ eol) \/ marked (st, redact_flow line ++ eol).2) as Hkept.
  { intros st Hst. simpl. destruct (redact_flow_marked line) as [->|Hm]; [by left|right; auto with redact]. }
  assert (forall h l t, marked (redact_flow (h ++ l ++ QUOTED ++ t) ++ eol)) as Hhid.
  { intros h l t. apply marked_l, redact_flow_keeps. auto with redact. }
  unfold key_step. cbv zeta. destruct (yaml_key_line line) as [[[ki key] rest]|]; [|by apply Hkept]. destruct (is_secret_key key); [|by apply Hkept].
  destruct (split_scalar _) as [value tail]. destruct (drop_while is_blank rest) as [|c after]; [by apply Hkept|].
  destruct (c =? 35); [by apply Hkept|]. destruct (_ || _); [right; apply Hhid|]. destruct (keep_value value); [by apply Hkept|right; apply Hhid].
Qed.

Lemma redact_step_marked (st st' : RedactState) (raw o : bytes) : rs_skip st = None -> redact_step st raw = (st', o) ->
  (rs_skip st' = None /\ o = raw) \/ marked o.
Proof.
  unfold redact_step. intros Hs. destruct (split_eol raw) as [line eol] eqn:El. apply split_eol_app in El as ->. rewrite Hs.
  assert (forall p, key_step line eol p = (st', o) -> (rs_skip st' = None /\ o = line ++ eol) \/ marked o) as Hk.
  { intros p E. pose proof (key_step_marked line eol p) as Hm. by rewrite E in Hm. }
  destruct (rs_pending st) as [base|]; [|apply Hk]. destruct (continues_value base line); [|apply Hk].
  destruct (holds_value line); [|apply Hk]. intros [= <- <-]. right. auto with redact.
Qed.

Lemma redact_lines_marked (st : RedactState) (raws : list bytes) : rs_skip st = None ->
  (redact_lines st raws).2 = concat raws \/ marked (redact_lines st raws).2.
Proof.
  revert st. induction raws as [|raw raws IH]; intros st Hs; [by left|]. simpl. destruct (redact_step st raw) as [st1 o] eqn:E1.
  specialize (IH st1). destruct (redact_lines st1 raws) as [st2 o'] eqn:E2. simpl in *.
  destruct (redact_step_marked _ _ _ _ Hs E1) as [[Hs1 ->]|Hm]; [|right; auto with redact].
  destruct (IH Hs1) as [->|Hm]; [by left|right; auto with redact].
Qed.

Lemma redact_unmarked (c : bytes) : redact_config_text c = c \/ marked (redact_config_text c).
Proof. unfold redact_config_text. rewrite <- (split_inclusive_concat 10 c) at 2. by apply redact_lines_marked. Qed.

(** ** Lines with a key *)
Definition graphic (c : Z) : Prop := 33 <= c < 127.

Lemma find_none_intro {A} (f : A -> bool) (l : list A) : (forall x, x ∈ l -> f x = false) -> List.find f l = None.
Proof.
  intros Hl. destruct (List.find f l) as [x|] eqn:E; [|done]. apply find_some in E as [Hx Hf]. apply list_elem_of_In in Hx. by rewrite Hl in Hf.
Qed.

Lemma white_not_graphic (w : bytes) (c : Z) : w ∈ WHITE_SPACE -> c ∈ w -> ~ graphic c.
Proof.
  intros Hw Hc. assert (Forall (Forall (fun c => ~ graphic c)) WHITE_SPACE) as Hall by (repeat constructor; unfold graphic; lia).
  rewrite Forall_forall in Hall. specialize (Hall w Hw). rewrite Forall_forall in Hall. by apply Hall.
Qed.

Lemma trim_start_spaces (n : nat) (c : Z) (s : bytes) : graphic c -> trim_start (replicate n 32 ++ c :: s) = c :: s.
Proof.
  intros Hc. unfold trim_start. rewrite length_app, length_replicate. generalize (length (c :: s)). intros k.
  induction n as [|n IH]; cbn [replicate app Nat.add].
  - apply strip_front_keep. unfold graphic in Hc. cbn [forallb WHITE_SPACE]. repeat (apply andb_true_iff; split); lia.
  - cbn [strip_front]. exact IH.
Qed.

Lemma strip_front_last (n : nat) (pats : list bytes) (s : bytes) (c : Z) : (forall p, p ∈ pats -> c ∉ p) ->
  exists s', strip_front n pats (s ++ [c]) = s' ++ [c].
Proof.
  intros Hp. revert s. induction n as [|n IH]; intros s; simpl; [by exists s|]. destruct (List.find _ pats) as [p|] eqn:E; [|by exists s].
  apply find_some in E as [Hin Hs]. apply list_elem_of_In in Hin. apply starts_with_spec in Hs as [k Hk].
  destruct k as [|y k] using rev_ind; [|].
  - rewrite app_nil_r in Hk. destruct (Hp p Hin). rewrite <- Hk. set_solver.
  - rewrite app_assoc in Hk. apply app_inj_tail in Hk as [-> ->]. rewrite <- app_assoc, drop_app_length. apply IH.
Qed.

Lemma not_blank (n : nat) (c : Z) (s : bytes) : graphic c -> blank_line (replicate n 32 ++ c :: s) = false.
Proof.
  intros Hc. apply bool_decide_eq_false. unfold trim. rewrite trim_start_spaces by done. unfold trim_end. cbn [rev].
  destruct (strip_front_last (length (c :: s)) ((@rev Z) <$> WHITE_SPACE) (rev s) c) as [s' ->].
  - intros p (w & -> & Hw)%list_elem_of_fmap Hin. apply list_elem_of_In, in_rev, list_elem_of_In in Hin. by eapply white_not_graphic.
  - rewrite rev_app_distr. done.
Qed.

Lemma indent_spaces (n : nat) (c : Z) (s : bytes) : c <> 32 -> indent_of (replicate n 32 ++ c :: s) = n.
Proof.
  intros Hc. unfold indent_of. assert (drop_while (Z.eqb 32) (replicate n 32 ++ c :: s) = c :: s) as ->.
  { induction n as [|n IH]; cbn [replicate app drop_while]; [|exact IH]. by destruct (Z.eqb_spec 32 c). }
  rewrite length_app, length_replicate. lia.
Qed.

Lemma key_char_graphic (c : Z) : key_char c = true -> graphic c /\ c <> 35 /\ c <> 34 /\ c <> 39 /\ c <> 58.
Proof.
  unfold key_char, is_ascii_alpha, is_ascii_upper, is_ascii_lower, is_ascii_digit, graphic. intros Hk.
  apply orb_true_iff in Hk as [Hk|Hk]; [lia|]. apply bool_decide_eq_true in Hk. set_unfold in Hk. naive_solver lia.
Qed.

(** [n] spaces, [d] dashes, the key and its colon. *)
Definition key_head (n d : nat) (key : bytes) : bytes := replicate n 32 ++ concat (replicate d [45; 32]) ++ key ++ [58].
Definition plain_key (key : bytes) : Prop := key <> [] /\ Forall (fun c => key_char c = true) key.
Definition blank_start (s : bytes) : Prop := match s with c :: _ => is_blank c = true | [] => True end.

Lemma key_head_front (d : nat) (key s : bytes) : plain_key key ->
  exists c t, concat (replicate d [45; 32]) ++ key ++ s = c :: t /\ graphic c /\ c <> 35.
Proof.
  intros [Hne Hk]. destruct d as [|d]; simpl.
  - destruct key as [|c key]; [done|]. apply Forall_cons in Hk as [Hc _]. apply key_char_graphic in Hc as (? & ? & _). by eexists _, _.
  - eexists _, _. split; [done|]. unfold graphic. lia.
Qed.

Lemma no_dash (key rest : bytes) : plain_key key -> strip_prefix [45; 32] (key ++ 58 :: rest) = None.
Proof.
  intros [Hne Hk]. unfold strip_prefix. assert (starts_with [45; 32] (key ++ 58 :: rest) = false) as ->; [|done].
  apply not_true_iff_false. intros [k E]%starts_with_spec. destruct key as [|a [|b key]]; [done|done|]. injection E as _ -> _.
  apply Forall_cons in Hk as [_ Hk]. by apply Forall_cons in Hk as [Hb _].
Qed.

Lemma item_dashes_head (fuel i d : nat) (key rest : bytes) : plain_key key -> (d <= fuel)%nat ->
  item_dashes fuel i (concat (replicate d [45; 32]) ++ key ++ 58 :: rest) = ((i + 2 * d)%nat, key ++ 58 :: rest).
Proof.
  intros Hk. revert i fuel. induction d as [|d IH]; intros i fuel Hf; cbn [replicate concat app].
  - rewrite Nat.add_0_r. destruct fuel as [|fuel]; [done|]. cbn [item_dashes]. by rewrite no_dash.
  - destruct fuel as [|fuel]; [lia|]. cbn [item_dashes].
    assert (forall x, strip_prefix [45; 32] (45 :: 32 :: x) = Some x) as -> by done.
    assert (drop_while (Z.eqb 32) (concat (replicate d [45; 32]) ++ key ++ 58 :: rest) = concat (replicate d [45; 32]) ++ key ++ 58 :: rest) as ->.
    { destruct (key_head_front d key (58 :: rest) Hk) as (c & t & -> & Hc & _). unfold graphic in Hc. cbn [drop_while]. by destruct (Z.eqb_spec 32 c); [lia|]. }
    rewrite IH by lia. f_equal. cbn [length]. lia.
Qed.

Lemma yaml_key_head (n d : nat) (key rest : bytes) : plain_key key -> blank_start rest ->
  yaml_key_line (key_head n d key ++ rest) = Some ((n + 2 * d)%nat, key, rest).
Proof.
  intros Hk Hr. unfold yaml_key_line, key_head. rewrite <- !app_assoc.
  destruct (key_head_front d key (58 :: rest) Hk) as (c & t & E & Hc & Hh).
  assert (indent_of (replicate n 32 ++ concat (replicate d [45; 32]) ++ key ++ [58] ++ rest) = n) as ->.
  { cbn [app]. rewrite E. apply indent_spaces. unfold graphic in Hc. lia. }
  rewrite (drop_app_length' (replicate n 32)) by (by rewrite length_replicate). cbn [app]. rewrite item_dashes_head; [|done|].
  2:{ rewrite !length_app. assert (length (concat (replicate d [45; 32])) = (2 * d)%nat) as -> by (clear; induction d; simpl; lia). lia. }
  destruct Hk as [Hne Hk]. destruct key as [|k key]; [done|]. pose proof Hk as Hk'. apply Forall_cons in Hk' as [Hc1 _].
  apply key_char_graphic in Hc1 as (Hg & H35 & H34 & H39 & _). cbn [app starts_with]. rewrite (proj2 (Z.eqb_neq 35 k)) by done. cbn [andb].
  unfold key_of. rewrite (proj2 (Z.eqb_neq k 34)), (proj2 (Z.eqb_neq k 39)) by done.
  change (k :: key ++ 58 :: rest) with ((k :: key) ++ 58 :: rest). rewrite (span_intro key_char (k :: key) (58 :: rest)) by done.
  rewrite bool_decide_eq_false_2 by done. cbn [mbind option_bind]. rewrite bool_decide_eq_false_2 by done.
  change (drop_while is_blank (58 :: rest)) with (58 :: rest). change (strip_prefix [58] (58 :: rest)) with (Some rest). cbn.
  destruct rest as [|x rest]; [done|]. simpl in Hr. by rewrite Hr.
Qed.

(** ** Values on a line *)
Lemma dq_close_end (body tail : bytes) : 34 ∉ body -> 92 ∉ body -> dq_close (body ++ 34 :: tail) = Some (length body).
Proof.
  induction body as [|c body IH]; intros Hq He; [done|]. apply not_elem_of_cons in Hq as [Hq ?], He as [He ?]. cbn [dq_close app].
  destruct (Z.eqb_spec c 92); [congruence|]. destruct (Z.eqb_spec c 34); [congruence|]. by rewrite IH.
Qed.
Lemma sq_close_end (body tail : bytes) : 39 ∉ body -> head tail <> Some 39 -> sq_close (body ++ 39 :: tail) = Some (length body).
Proof.
  intros Hq Ht. induction body as [|c body IH]; cbn [sq_close app].
  - destruct tail as [|x tail]; [done|]. cbn. destruct (Z.eqb_spec x 39); [|done]. subst. done.
  - apply not_elem_of_cons in Hq as [Hq ?]. destruct (Z.eqb_spec c 39); [congruence|]. by rewrite IH.
Qed.

Lemma find_comment (v c : bytes) (k : nat) : contains [32; 35] v = false ->
  str_find [32; 35] (v ++ replicate (S k) 32 ++ 35 :: c) = Some (length v + k)%nat.
Proof.
  intros Hv. induction v as [|x v IH].
  - clear Hv. induction k as [|k IH]; [done|]. cbn [length Nat.add] in *. cbn [app] in *. cbn [replicate app] in *. cbn [str_find].
    cbn [str_find] in IH. rewrite IH. done.
  - cbn [contains] in Hv. apply orb_false_iff in Hv as [Hx Hv]. specialize (IH Hv). cbn [app str_find].
    assert (starts_with [32; 35] (x :: v ++ replicate (S k) 32 ++ 35 :: c) = false) as ->; [|by rewrite IH].
    destruct v as [|y v]; [|exact Hx]. cbn. by rewrite andb_false_r.
Qed.

Lemma no_comment (q : Z) (v : bytes) (k : nat) : contains [q; 35] v = false -> contains [q; 35] (v ++ replicate k 32) = false.
Proof.
  intros Hv. induction v as [|x v IH].
  - clear Hv. induction k as [|k IH]; [done|]. cbn [app replicate contains] in *. rewrite IH. destruct k; cbn; by rewrite ?andb_false_r.
  - cbn [contains] in Hv. apply orb_false_iff in Hv as [Hx Hv]. specialize (IH Hv). cbn [app contains]. rewrite IH, orb_false_r.
    destruct v as [|y v]; [|exact Hx]. destruct k; cbn; by rewrite ?andb_false_r.
Qed.

Definition ends_black (v : bytes) : Prop := forall w, w ∈ WHITE_SPACE -> ends_with w v = false.
Lemma trim_end_spaces (v : bytes) (k : nat) : ends_black v -> trim_end (v ++ replicate k 32) = v.
Proof.
  intros Hv. unfold trim_end. rewrite rev_app_distr, length_app, length_replicate.
  assert (rev (replicate k 32) = replicate k 32) as -> by (rewrite rev_alt; apply reverse_replicate).
  enough (forall m, strip_front (m + k) ((@rev Z) <$> WHITE_SPACE) (replicate k 32 ++ rev v) = rev v) as -> by apply rev_involutive.
  intros m. induction k as [|k IH].
  - rewrite Nat.add_0_r. destruct m as [|m]; [done|]. cbn [replicate app strip_front]. rewrite find_none_intro; [done|].
    intros p (w & -> & Hw)%list_elem_of_fmap. by apply Hv.
  - replace (m + S k)%nat with (S (m + k)) by lia. cbn [replicate app strip_front]. exact IH.
Qed.

(** A value that ends on its line, and what follows it: in double quotes
    (without escapes), in single quotes, or plain. *)
Inductive scalar : bytes -> bytes -> Prop :=
| scalar_double body tail (Hq : 34 ∉ body) (He : 92 ∉ body) : scalar (34 :: body ++ [34]) tail
| scalar_single body tail (Hq : 39 ∉ body) (Ht : head tail <> Some 39) : scalar (39 :: body ++ [39]) tail
| scalar_plain c v k comment (Hc : (c ∉ as_bytes "'|>#") /\ c <> 34 /\ is_blank c = false)
    (Hs : contains [32; 35] (c :: v) = false) (Ht : contains [9; 35] (c :: v) = false) (Hw : ends_black (c :: v))
    (Hk : comment = [] \/ exists k' text, k = S k' /\ comment = 35 :: text) : scalar (c :: v) (replicate k 32 ++ comment).

Lemma split_plain_value (v comment : bytes) (k : nat) : contains [32; 35] v = false -> contains [9; 35] v = false -> ends_black v ->
  (comment = [] \/ exists k' text, k = S k' /\ comment = 35 :: text) ->
  split_plain (v ++ replicate k 32 ++ comment) = (v, replicate k 32 ++ comment).
Proof.
  intros Hs Ht Hw Hk. unfold split_plain. set (t := v ++ replicate k 32 ++ comment).
  enough (exists j, take (match str_find [32; 35] t with Some i => i | None => default (length t) (str_find [9; 35] t) end) t = v ++ replicate j 32) as [j ->].
  { rewrite trim_end_spaces by done. unfold t. by rewrite drop_app_length. }
  destruct Hk as [->|(k' & text & -> & ->)].
  - exists k. unfold t. rewrite app_nil_r. rewrite (proj2 (str_find_None _ _)), (proj2 (str_find_None _ _)) by by apply no_comment. cbn.
    by rewrite firstn_all.
  - exists k'. unfold t. rewrite find_comment by done. rewrite take_app_add. f_equal.
    replace (S k') with (k' + 1)%nat by lia. rewrite replicate_add, <- app_assoc. rewrite take_app_length'; [done|]. by rewrite length_replicate.
Qed.

Lemma quoted_split (q : Z) (body tail : bytes) :
  take (length body + 2) (q :: body ++ q :: tail) = q :: body ++ [q] /\ drop (length body + 2) (q :: body ++ q :: tail) = tail.
Proof.
  assert (q :: body ++ q :: tail = (q :: body ++ [q]) ++ tail) as -> by (simpl; by rewrite <- app_assoc).
  assert (length (q :: body ++ [q]) = (length body + 2)%nat) as E by (simpl; rewrite length_app; simpl; lia).
  by rewrite take_app_length', drop_app_length' by by rewrite E.
Qed.

Lemma scalar_split (v tail : bytes) : scalar v tail -> split_scalar (v ++ tail) = (v, tail) /\
  exists c v', v = c :: v' /\ c <> 35 /\ c <> 124 /\ c <> 62 /\ is_blank c = false.
Proof.
  intros [body t Hq He|body t Hq Ht|c w k comment (Hc & H34 & Hb) Hs Ht Hw Hk].
  - split; [|by eexists _, _]. cbn [app split_scalar]. change (34 =? 34) with true. cbv beta iota zeta.
    rewrite <- app_assoc. cbn [app]. rewrite dq_close_end by done.
    by destruct (quoted_split 34 body t) as [-> ->].
  - split; [|by eexists _, _]. cbn [app split_scalar]. change (39 =? 34) with false. change (39 =? 39) with true. cbv beta iota zeta.
    rewrite <- app_assoc. cbn [app]. rewrite sq_close_end by done.
    by destruct (quoted_split 39 body t) as [-> ->].
  - split; [|exists c, w; set_unfold in Hc; naive_solver]. cbn [app split_scalar].
    rewrite (proj2 (Z.eqb_neq c 34)) by done. rewrite (proj2 (Z.eqb_neq c 39)) by (set_unfold in Hc; naive_solver). by apply (split_plain_value (c :: w)).
Qed.

(** ** Documents that differ in secrets only *)
Definition line_end (line eol : bytes) : Prop :=
  (eol = [10] /\ last line <> Some 13) \/ eol = [13; 10] \/ (eol = [] /\ last line <> Some 10).
Lemma split_eol_end (line eol : bytes) : line_end line eol -> split_eol (line ++ eol) = (line, eol).
Proof.
  assert (forall c l, strip_suffix c (l ++ [c]) = Some l) as Hs.
  { intros c l. unfold strip_suffix. rewrite last_snoc, bool_decide_eq_true_2 by done. by rewrite removelast_last. }
  assert (forall c l, last l <> Some c -> strip_suffix c l = None) as Hn by (intros c l Hl; unfold strip_suffix; by rewrite bool_decide_eq_false_2).
  unfold split_eol. intros [[-> Hl]|[->|[-> Hl]]].
  - by rewrite Hs, Hn.
  - change [13; 10] with ([13] ++ [10]). by rewrite app_assoc, !Hs.
  - by rewrite app_nil_r, Hn.
Qed.

(** A line under a key of depth [base]. *)
Definition below (base : nat) (raw : bytes) : Prop := let line := (split_eol raw).1 in blank_line line = true \/ (base < indent_of line)%nat.

(** The secrets the redaction knows: a value on the line of its key, a block
    of text below it, and a value on the next line. *)
Inductive secret_part : list bytes -> list bytes -> Prop :=
| secret_scalar n d key lead v v' tail eol
    (Hkey : plain_key key) (Hsec : is_secret_key key = true) (Hlead : lead <> [] /\ Forall (fun c => is_blank c = true) lead)
    (Hv : scalar v tail /\ keep_value v = false /\ line_end (v ++ tail) eol)
    (Hv' : scalar v' tail /\ keep_value v' = false /\ line_end (v' ++ tail) eol) :
    secret_part [key_head n d key ++ lead ++ v ++ tail ++ eol] [key_head n d key ++ lead ++ v' ++ tail ++ eol]
| secret_block n d key lead c rest eol body body'
    (Hkey : plain_key key) (Hsec : is_secret_key key = true) (Hlead : lead <> [] /\ Forall (fun c => is_blank c = true) lead)
    (Hc : c = 124 \/ c = 62) (Heol : line_end (c :: rest) eol)
    (Hbody : Forall (below (n + 2 * d)) body) (Hbody' : Forall (below (n + 2 * d)) body') :
    secret_part ((key_head n d key ++ lead ++ c :: rest ++ eol) :: body) ((key_head n d key ++ lead ++ c :: rest ++ eol) :: body')
| secret_next n d key lead eol i c v c' v' eol' body body'
    (Hkey : plain_key key) (Hsec : is_secret_key key = true) (Hlead : Forall (fun c => is_blank c = true) lead)
    (Heol : line_end (58 :: lead) eol) (Hi : (n + 2 * d < i)%nat)
    (Hv : graphic c /\ c <> 35 /\ holds_value (replicate i 32 ++ c :: v) = true /\ line_end (c :: v) eol')
    (Hv' : graphic c' /\ c' <> 35 /\ holds_value (replicate i 32 ++ c' :: v') = true /\ line_end (c' :: v') eol')
    (Hbody : Forall (below (n + 2 * d)) body) (Hbody' : Forall (below (n + 2 * d)) body') :
    secret_part ((key_head n d key ++ lead ++ eol) :: (replicate i 32 ++ c :: v ++ eol') :: body)
                ((key_head n d key ++ lead ++ eol) :: (replicate i 32 ++ c' :: v' ++ eol') :: body').

Inductive same_public : list bytes -> list bytes -> Prop :=
| same_end : same_public [] []
| same_line raw a b : same_public a b -> same_public (raw :: a) (raw :: b)
| same_secret x y a b : secret_part x y -> same_public a b -> same_public (x ++ a) (y ++ b).

(** ** The step on each kind of line *)
Definition hides (st : RedactState) (indent : nat) : bool := match rs_skip st with Some base => (base <? indent)%nat | None => false end.

Lemma line_end_app (a b eol : bytes) : b <> [] -> line_end b eol -> line_end (a ++ b) eol.
Proof. intros Hb. unfold line_end. destruct b as [|x b]; [done|]. by rewrite last_app_cons. Qed.

Lemma key_line_step (st : RedactState) (n d : nat) (key rest eol : bytes) : plain_key key -> blank_start rest -> line_end (58 :: rest) eol ->
  redact_step st (key_head n d key ++ rest ++ eol) = if hides st n then (st, []) else key_step (key_head n d key ++ rest) eol None.
Proof.
  intros Hk Hr He. set (line := key_head n d key ++ rest).
  assert (split_eol (key_head n d key ++ rest ++ eol) = (line, eol)) as E.
  { rewrite app_assoc. apply split_eol_end. unfold line.
    assert (key_head n d key ++ rest = (replicate n 32 ++ concat (replicate d [45; 32]) ++ key) ++ 58 :: rest) as ->
      by (unfold key_head; by rewrite <- !app_assoc).
    by apply line_end_app. }
  destruct (key_head_front d key (58 :: rest) Hk) as (c & t & Ec & Hc & H35).
  assert (line = replicate n 32 ++ c :: t) as El by (unfold line, key_head; rewrite <- !app_assoc; f_equal; exact Ec).
  assert (blank_line line = false) as Hb by (rewrite El; by apply not_blank).
  assert (indent_of line = n) as Hi by (rewrite El; apply indent_spaces; unfold graphic in Hc; lia).
  assert (holds_value line = false) as Hh by (unfold holds_value, line; by rewrite yaml_key_head).
  unfold redact_step, hides. rewrite E, Hb, Hi. cbn [orb]. destruct (rs_skip st) as [base|].
  - destruct (base <? n)%nat; [done|]. destruct (rs_pending st) as [b|]; [|done]. destruct (continues_value b line); by rewrite ?Hh.
  - destruct (rs_pending st) as [b|]; [|done]. destruct (continues_value b line); by rewrite ?Hh.
Qed.

Lemma body_dropped (st : RedactState) (base b : nat) (body : list bytes) : rs_skip st = Some b -> (b <= base)%nat -> Forall (below base) body ->
  redact_lines st body = (st, []).
Proof.
  intros Hs Hb. induction 1 as [|raw body Hr _ IH]; [done|]. cbn [redact_lines].
  assert (redact_step st raw = (st, [])) as ->; [|by rewrite IH].
  unfold below in Hr. unfold redact_step. destruct (split_eol raw) as [line eol]. rewrite Hs. cbn [fst] in Hr.
  destruct Hr as [->|Hi]; [done|]. by rewrite (proj2 (Nat.ltb_lt b _)), orb_true_r by lia.
Qed.

Lemma redact_lines_app (st : RedactState) (a b : list bytes) :
  redact_lines st (a ++ b) = let '(st1, o) := redact_lines st a in let '(st2, o') := redact_lines st1 b in (st2, o ++ o').
Proof.
  revert st. induction a as [|raw a IH]; intros st; cbn [app redact_lines]; [by destruct (redact_lines st b)|].
  destruct (redact_step st raw) as [st1 o]. rewrite IH. destruct (redact_lines st1 a) as [st2 o2]. destruct (redact_lines st2 b). by rewrite app_assoc.
Qed.

Lemma blanks_dropped (lead x : bytes) : Forall (fun c => is_blank c = true) lead -> match x with c :: _ => is_blank c = false | [] => True end ->
  drop_while is_blank (lead ++ x) = x.
Proof.
  intros Hl Hx. induction Hl as [|c lead Hc _ IH]; cbn [app drop_while]; [|by rewrite Hc]. destruct x as [|c x]; [done|]. cbn [drop_while]. by rewrite Hx.
Qed.
Lemma blanks_start (lead x : bytes) : Forall (fun c => is_blank c = true) lead -> lead <> [] \/ x = [] -> blank_start (lead ++ x).
Proof. intros [|c l Hc Hl] Hor; [destruct Hor as [Hf| ->]; done|done]. Qed.

Section secret_line.
Context (n d : nat) (key lead x eol : bytes).
Hypothesis (Hkey : plain_key key) (Hsec : is_secret_key key = true) (Hlead : Forall (fun c => is_blank c = true) lead).
Hypothesis (Hx : match x with c :: _ => is_blank c = false | [] => True end) (Hne : lead <> [] \/ x = []).

(** What a line [key: x] of a secret key becomes. *)
Lemma secret_key_step : key_step (key_head n d key ++ lead ++ x) eol None =
  let '(value, tail) := split_scalar x in
  let hidden := redact_flow (key_head n d key ++ lead ++ QUOTED ++ tail) ++ eol in
  let same := redact_flow (key_head n d key ++ lead ++ x) ++ eol in
  let waits := ({| rs_skip := None; rs_pending := Some (n + 2 * d)%nat |}, same) in
  match x with
  | [] => waits
  | c :: _ => if c =? 35 then waits
              else if (c =? 124) || (c =? 62) then ({| rs_skip := Some (n + 2 * d)%nat; rs_pending := None |}, hidden)
              else if keep_value value then (redact_new, same) else (redact_new, hidden)
  end.
Proof using Hkey Hsec Hlead Hx Hne.
  unfold key_step. cbv zeta. rewrite yaml_key_head by (done || by apply blanks_start). cbv beta iota. rewrite Hsec.
  rewrite blanks_dropped by done.
  assert (take (length (lead ++ x) - length x) (lead ++ x) = lead) as ->.
  { rewrite length_app. replace (length lead + length x - length x)%nat with (length lead) by lia. apply take_app_length. }
  assert (take (length (key_head n d key ++ lead ++ x) - length (lead ++ x)) (key_head n d key ++ lead ++ x) = key_head n d key) as ->.
  { rewrite (length_app (key_head n d key)). replace (_ + _ - _)%nat with (length (key_head n d key)) by lia. apply take_app_length. }
  by destruct (split_scalar x).
Qed.
End secret_line.

Lemma scalar_line (st : RedactState) (n d : nat) (key lead v tail eol : bytes) :
  plain_key key -> is_secret_key key = true -> lead <> [] /\ Forall (fun c => is_blank c = true) lead ->
  scalar v tail /\ keep_value v = false /\ line_end (v ++ tail) eol ->
  redact_step st (key_head n d key ++ lead ++ v ++ tail ++ eol) =
    if hides st n then (st, []) else (redact_new, redact_flow (key_head n d key ++ lead ++ QUOTED ++ tail) ++ eol).
Proof.
  intros Hk Hsec [Hne Hl] (Hs & Hv & He). destruct (scalar_split _ _ Hs) as [Esp (c & v' & -> & H35 & H124 & H62 & Hb)].
  assert (lead ++ (c :: v') ++ tail ++ eol = (lead ++ c :: v' ++ tail) ++ eol) as -> by (rewrite <- app_assoc; simpl; by rewrite <- app_assoc).
  rewrite key_line_step; [|done|apply blanks_start; auto|by apply (line_end_app (58 :: lead) (c :: v' ++ tail))].
  destruct (hides st n); [done|]. rewrite secret_key_step by auto.
  change (c :: v' ++ tail) with ((c :: v') ++ tail). rewrite Esp. cbn [app]. rewrite (proj2 (Z.eqb_neq c 35)), (proj2 (Z.eqb_neq c 124)), (proj2 (Z.eqb_neq c 62)) by done.
  cbn [orb]. by rewrite Hv.
Qed.

(** After a line of a secret key that waits for a block, what is below is
    dropped. *)
Lemma block_line (st : RedactState) (n d : nat) (key lead : bytes) (c : Z) (rest eol : bytes) (body : list bytes) :
  plain_key key -> is_secret_key key = true -> lead <> [] /\ Forall (fun c => is_blank c = true) lead -> c = 124 \/ c = 62 ->
  line_end (c :: rest) eol -> Forall (below (n + 2 * d)) body ->
  redact_lines st ((key_head n d key ++ lead ++ c :: rest ++ eol) :: body) = redact_lines st [key_head n d key ++ lead ++ c :: rest ++ eol].
Proof.
  intros Hk Hsec [Hne Hl] Hc He Hb. cbn [redact_lines].
  assert (lead ++ c :: rest ++ eol = (lead ++ c :: rest) ++ eol) as -> by (by rewrite <- app_assoc).
  rewrite key_line_step; [|done|apply blanks_start; auto|by apply (line_end_app (58 :: lead) (c :: rest))].
  destruct (hides st n) eqn:Eh.
  - unfold hides in Eh. destruct (rs_skip st) as [b|] eqn:Eb; [|done]. apply Nat.ltb_lt in Eh. by rewrite (body_dropped st (n + 2 * d) b) by (done || lia).
  - rewrite secret_key_step; [|done..|destruct Hc as [-> | ->]; done|by left]. destruct (split_scalar (c :: rest)) as [v t].
    assert ((c =? 35) = false /\ (c =? 124) || (c =? 62) = true) as [-> ->] by lia.
    cbv beta iota zeta. by rewrite (body_dropped _ (n + 2 * d) (n + 2 * d)).
Qed.

Lemma next_line (st : RedactState) (n d : nat) (key lead eol : bytes) (i : nat) (c : Z) (v eol' : bytes) (body : list bytes) :
  plain_key key -> is_secret_key key = true -> Forall (fun c => is_blank c = true) lead -> line_end (58 :: lead) eol -> (n + 2 * d < i)%nat ->
  graphic c /\ c <> 35 /\ holds_value (replicate i 32 ++ c :: v) = true /\ line_end (c :: v) eol' -> Forall (below (n + 2 * d)) body ->
  redact_lines st ((key_head n d key ++ lead ++ eol) :: (replicate i 32 ++ c :: v ++ eol') :: body) =
    if hides st n then (st, []) else ({| rs_skip := Some (n + 2 * d)%nat; rs_pending := None |},
      (redact_flow (key_head n d key ++ lead) ++ eol) ++ replicate i 32 ++ QUOTED ++ eol').
Proof.
  intros Hk Hsec Hl He Hi (Hg & H35 & Hh & He') Hb. cbn [redact_lines]. rewrite key_line_step; [|done|rewrite <- (app_nil_r lead); apply blanks_start; auto|done].
  assert (split_eol (replicate i 32 ++ c :: v ++ eol') = (replicate i 32 ++ c :: v, eol')) as El.
  { rewrite app_comm_cons, app_assoc. by apply split_eol_end, line_end_app. }
  assert (indent_of (replicate i 32 ++ c :: v) = i) as Ei by (apply indent_spaces; unfold graphic in Hg; lia).
  destruct (hides st n) eqn:Eh.
  - unfold hides in Eh. destruct (rs_skip st) as [b|] eqn:Eb; [|done]. apply Nat.ltb_lt in Eh.
    assert (redact_step st (replicate i 32 ++ c :: v ++ eol') = (st, [])) as ->.
    { unfold redact_step. by rewrite El, Eb, Ei, (proj2 (Nat.ltb_lt b i)), orb_true_r by lia. }
    by rewrite (body_dropped st (n + 2 * d) b) by (done || lia).
  - rewrite <- (app_nil_r lead) at 1. rewrite secret_key_step by auto. destruct (split_scalar []) as [? ?].
    assert (continues_value (n + 2 * d) (replicate i 32 ++ c :: v) = true) as Ec.
    { unfold continues_value. rewrite not_blank, Ei, trim_start_spaces, (proj2 (Nat.ltb_lt (n + 2 * d) i)) by done. cbn [negb andb starts_with].
      by rewrite (proj2 (Z.eqb_neq 35 c)). }
    cbv beta iota zeta. unfold redact_step. rewrite El. cbn [rs_skip rs_pending]. rewrite Ec, Hh, Ei.
    cbv beta iota zeta. rewrite (body_dropped _ (n + 2 * d) (n + 2 * d)) by done.
    rewrite (take_app_length' (replicate i 32)) by (by rewrite length_replicate). by rewrite !app_nil_r.
Qed.

Lemma secret_part_lines (x y : list bytes) (st : RedactState) : secret_part x y -> redact_lines st x = redact_lines st y.
Proof.
  intros [n d key lead v v' tail eol Hk Hs Hl Hv Hv'|n d key lead c rest eol b b' Hk Hs Hl Hc He Hb Hb'|n d key lead eol i c v c' v' eol' b b' Hk Hs Hl He Hi Hv Hv' Hb Hb'].
  - cbn [redact_lines]. by rewrite !scalar_line.
  - etrans; [by apply block_line|symmetry; by apply block_line].
  - etrans; [by apply next_line|symmetry; by apply next_line].
Qed.

Lemma same_public_lines (a b : list bytes) (st : RedactState) : same_public a b -> redact_lines st a = redact_lines st b.
Proof.
  intros Hab. revert st. induction Hab as [|raw a b _ IH|x y a b Hxy _ IH]; intros st; [done| |].
  - cbn [redact_lines]. destruct (redact_step st raw) as [st1 o]. by rewrite IH.
  - rewrite !redact_lines_app, (secret_part_lines x y st Hxy). destruct (redact_lines st y) as [st1 o]. by rewrite IH.
Qed.

(** ** Settings that differ in secrets only *)
Definition secret_leaf (k : bytes) (v : Value) : Prop :=
  is_secret_key k = true /\
  match v with VString s => s <> [] /\ is_placeholder_value s = false | VNumber _ => True | _ => False end.
Inductive same_json : Value -> Value -> Prop :=
| same_value v : same_json v v
| same_array a b : Forall2 same_json a b -> same_json (VArray a) (VArray b)
| same_object m m' : Forall2 (fun x y : bytes * Value => x.1 = y.1 /\ (same_json x.2 y.2 \/ (secret_leaf x.1 x.2 /\ secret_leaf y.1 y.2))) m m' ->
    same_json (VObject m) (VObject m').

Definition redacted_member (kv : bytes * Value) : bytes * Value :=
  (kv.1, match kv.2 with
         | VString s => if is_secret_key kv.1 && negb (bool_decide (s = [])) && negb (is_placeholder_value s) then VString REDACTED else VString s
         | VNumber n => if is_secret_key kv.1 then VString REDACTED else VNumber n
         | _ => redacted_json kv.2
         end).
Lemma redacted_object (m : list (bytes * Value)) : redacted_json (VObject m) = VObject (redacted_member <$> m).
Proof. done. Qed.

Lemma secret_leaf_hidden (k : bytes) (v : Value) : secret_leaf k v -> redacted_member (k, v) = (k, VString REDACTED).
Proof.
  unfold redacted_member. intros [Hk Hv]. cbn [fst snd]. rewrite Hk. destruct v; try done. destruct Hv as [Hne ->].
  by rewrite bool_decide_eq_false_2.
Qed.

Lemma same_json_hidden (v v' : Value) : same_json v v' -> redacted_json v = redacted_json v'.
Proof.
  revert v'. induction v as [| | |s|l IH|m IH] using value_ind_nested; intros v' Hs; inversion Hs as [|a1 b1 Hab|x y Hxy]; subst; try done.
  - cbn [redacted_json]. f_equal. clear Hs. revert b1 Hab. induction IH as [|x l Hx _ IH]; intros b Hab; inversion Hab; subst; [done|].
    cbn. f_equal; [by apply Hx|by apply IH].
  - rewrite !redacted_object. f_equal. clear Hs. revert y Hxy. induction IH as [|[k x] m Hx _ IH]; intros b Hab; inversion Hab as [|? [k' x'] ? ? [Ek Hv] Hr]; subst; [done|].
    simpl in Ek, Hv, Hx. subst k'. rewrite !fmap_cons. f_equal; [|by apply IH]. destruct Hv as [Hv|[H1 H2]]; [|by rewrite !secret_leaf_hidden].
    specialize (Hx _ Hv). unfold redacted_member. cbn [fst snd]. f_equal. inversion Hv; subst; [done|exact Hx|exact Hx].
Qed.

(** ** Placeholders a configuration may hold *)
Definition ALLOWED_SECRET_FILE_DIRS : list bytes := as_bytes <$> ["/etc/hiveguard"; "/run/credentials"]%string.
(** The components of a path, without empty and [.] ones. *)
Definition components (p : bytes) : list bytes := List.filter (fun c => negb (bool_decide (c = []) || bool_decide (c = [46]))) (split_on 47 p).
Definition is_absolute (p : bytes) : bool := starts_with [47] p.
Definition path_starts_with (d p : bytes) : bool := bool_decide (components d `prefix_of` components p).
Definition secret_file_allowed (p : bytes) : bool :=
  is_absolute p && negb (bool_decide ([46; 46] ∈ components p)) && existsb (fun d => path_starts_with d p) ALLOWED_SECRET_FILE_DIRS.

(** What the daemon can see without reading: which files and which variables
    there are. *)
Record Surroundings : Type := { su_is_file : bytes -> bool; su_env_set : bytes -> bool }.

Definition placeholder_problem (su : Surroundings) (x : string * bytes * Placeholder) : list string :=
  let '(id, ptr, p) := x in
  let at_ := ("plugin `" +:+ id +:+ "` config " +:+ of_bytes (if bool_decide (ptr = []) then [47] else ptr) +:+ ": ")%string in
  match p with
  | PFile path =>
      let it := ("`${file:" +:+ of_bytes path +:+ "}`")%string in
      if negb (secret_file_allowed path)
      then [(at_ +:+ it +:+ " must point under /etc/hiveguard/ or /run/credentials (PUT /api/config refuses other paths)")%string]
      else if negb (su_is_file su path) then [(at_ +:+ it +:+ " does not exist")%string] else []
  | PEnv name => if su_env_set su name then [] else [(at_ +:+ "`${env:" +:+ of_bytes name +:+ "}` is not set in the daemon environment")%string]
  end.
Definition placeholder_policy (su : Surroundings) (found : list (string * bytes * Placeholder)) : list string := flat_map (placeholder_problem su) found.

(** ** Checking and replacing the configuration *)
(** A document, as far as it is looked at: the checked settings, the plugins
    and the section on agents. *)
Record ConfigDoc : Type := { cd_config : HiveGuardConfig; cd_plugins : list PluginEntry; cd_agent : AgentConfig; cd_read_token_file : option bytes }.
(** [serde_yaml::Value] *)
Inductive Yaml : Type :=
| YNull | YBool (b : bool) | YNumber (n : bytes) | YString (s : bytes) | YSequence (l : list Yaml) | YMapping (m : list (Yaml * Yaml))
| YTagged (tag : bytes) (v : Yaml).
Class ConfigYaml : Type := { yaml_value : bytes -> result Yaml string; yaml_config : bytes -> result ConfigDoc string }.

Definition show_loader_error (e : LoaderError) : string :=
  match e with
  | UnknownPlugin id => "plugin `" +:+ id +:+ "` not linked into this binary — recompile with the matching feature"
  | ApiVersionMismatch id required host => "plugin `" +:+ id +:+ "` requires api_version " +:+ fmt_uint required +:+ ", host provides " +:+ fmt_uint host
  | InvalidConfig id msg => "config for plugin `" +:+ id +:+ "` invalid: " +:+ msg
  | InitFailure id msg => "plugin `" +:+ id +:+ "` failed to initialise: " +:+ msg
  end.
Definition redacted_marker_error : string :=
  "content contains `<redacted>` — GET /api/config hides secrets; put the real value back, or better reference it as `${file:/etc/hiveguard/<name>}` / `${env:NAME}`".

Section config_api.
Context `{UnicodeLower} `{AddrText} `{ApiText} `{ConfigYaml} `{JsonSchema} (B : PluginKind -> Type) (linked : list (PluginDescriptor B)).

Definition check_config_document (content : bytes) : result (ConfigDoc * list (string * bytes * Placeholder)) (list string) :=
  match yaml_config content with
  | Err e => Err ["config parse error: " +:+ e]%string
  | Ok cfg =>
      let errors := match validate (cd_config cfg) with Ok _ => [] | Err e => ["validation: " +:+ show_hg_error e]%string end in
      match check_unresolved B linked (cd_plugins cfg), errors with
      | Ok found, [] => Ok (cfg, found)
      | Ok _, _ => Err errors
      | Err e, _ => Err (errors ++ ["plugin resolution: " +:+ show_loader_error e]%string)
      end
  end.

(** How the replacement of the file ends: an error before the new file took the
    place of the old one, an error after it, or none. *)
Inductive WriteOutcome : Type := WriteFailed (e : string) | SyncFailed (e : string) | Written.
Definition atomic_config_write (o : WriteOutcome) (content file : bytes) : bytes * result unit PluginError :=
  match o with
  | WriteFailed e => (file, Err (PRuntime ("config not saved: " +:+ e)))
  | SyncFailed e => (content, Err (PRuntime ("config not saved: " +:+ e)))
  | Written => (content, Ok tt)
  end.

(** [path]: is there a configuration file to work on; [file]: what it holds. *)
Definition get_config (path : bool) (file : result bytes string) : result bytes PluginError :=
  if path then match file with Ok c => Ok (redact_config_text c) | Err e => Err (PRuntime e) end
  else Err (PRuntime "Config path not available").
Definition put_config (path : bool) (su : Surroundings) (o : WriteOutcome) (content file : bytes) : bytes * result unit PluginError :=
  if negb path then (file, Err (PRuntime "Config path not available")) else
  if contains REDACTED content then (file, Err (ConfigValidation redacted_marker_error)) else
  match yaml_value content with
  | Err e => (file, Err (ConfigValidation ("YAML parse error: " +:+ e)))
  | Ok _ =>
      match check_config_document content with
      | Err errs => (file, Err (ConfigValidation (String.concat "; " errs)))
      | Ok (_, found) =>
          match placeholder_policy su found with
          | [] => atomic_config_write o content file
          | errs => (file, Err (ConfigValidation (String.concat "; " errs)))
          end
      end
  end.
End config_api.

(** ** What the interface guarantees *)
Section config_safe.
Context `{UnicodeLower} `{AddrText} `{ApiText} `{ConfigYaml} `{JsonSchema} (B : PluginKind -> Type) (linked : list (PluginDescriptor B)).

Lemma policy_allows (su : Surroundings) (found : list (string * bytes * Placeholder)) (id : string) (ptr path : bytes) :
  placeholder_policy su found = [] -> (id, ptr, PFile path) ∈ found -> secret_file_allowed path = true.
Proof.
  intros Hp Hin. unfold placeholder_policy in Hp. destruct (secret_file_allowed path) eqn:E; [done|]. exfalso.
  apply list_elem_of_split in Hin as (a & b & ->). rewrite flat_map_app in Hp. apply app_eq_nil in Hp as [_ Hp]. cbn in Hp. by rewrite E in Hp.
Qed.

Lemma put_config_changed (path : bool) (su : Surroundings) (o : WriteOutcome) (content file : bytes) :
  (put_config B linked path su o content file).1 <> file ->
  (put_config B linked path su o content file).1 = content /\ contains REDACTED content = false /\
  exists doc found, check_config_document B linked content = Ok (doc, found) /\ placeholder_policy su found = [].
Proof.
  unfold put_config. destruct path; [|done]. cbn [negb]. destruct (contains REDACTED content); [done|]. destruct (yaml_value content); [|done].
  destruct (check_config_document B linked content) as [[doc found]|errs]; [|done]. destruct (placeholder_policy su found) eqn:Ep; [|done].
  intros Hne. split_and!; [by destruct o|done|]. by exists doc, found.
Qed.

Lemma check_document_ok (content : bytes) (doc : ConfigDoc) (found : list (string * bytes * Placeholder)) :
  check_config_document B linked content = Ok (doc, found) ->
  yaml_config content = Ok doc /\ validate (cd_config doc) = Ok tt /\ check_unresolved B linked (cd_plugins doc) = Ok found.
Proof.
  unfold check_config_document. destruct (yaml_config content) as [cfg|]; [|done].
  destruct (check_unresolved B linked (cd_plugins cfg)) as [f|] eqn:Eu; [|done]. destruct (validate (cd_config cfg)) as [[]|] eqn:Ev; [|done].
  by intros [= <- <-].
Qed.

(** A marker never takes the place of a secret: when the configuration that is
    shown differs from the file, it carries the marker, and whatever still
    carries the marker after an edit is refused and leaves the file as it is,
    whatever the parser, the plugins and the file system do. *)
Theorem marker_never_written (su : Surroundings) (o : WriteOutcome) (file shown : bytes)
  (Hget : get_config true (Ok file) = Ok shown) (Hhid : shown <> file) :
  contains REDACTED shown = true /\
  forall edit, contains REDACTED edit = true -> put_config B linked true su o edit file = (file, Err (ConfigValidation redacted_marker_error)).
Proof.
  unfold get_config in Hget. injection Hget as Hs. subst shown. split; [by destruct (redact_unmarked file)|]. intros edit He. unfold put_config. cbn [negb]. by rewrite He.
Qed.

End config_safe.


(** ** A sample document *)
Module RedactSample.
(** A backquote stands for a double quote. *)
Definition text (l : string) : bytes := (fun c => if c =? 96 then 34 else c) <$> as_bytes l.
Definition doc (ls : list string) : bytes := flat_map (fun l => text l ++ [10]) ls.

(** What the redaction does to a value of every shape it knows. *)
Example redacted_layout :
  redact_config_text (doc ["plugins:"; "- id: ui.rest"; "  config:"; "    auth_token: `s3cr3t`   # admin";
    "    ingest: {enabled: true, token: inl1ne, parser: auto}"; "    password: ${env:HG_PW}"; "    api_key: 'k''ey'"; "    empty_token: ``";
    "    private_key: |"; "      -----BEGIN KEY-----"; "    after: kept"; "    routing_key:"; "      next-line"; "agent:"]%string) =
  doc ["plugins:"; "- id: ui.rest"; "  config:"; "    auth_token: `<redacted>`   # admin";
    "    ingest: {enabled: true, token: `<redacted>`, parser: auto}"; "    password: ${env:HG_PW}"; "    api_key: `<redacted>`"; "    empty_token: ``";
    "    private_key: `<redacted>`"; "    after: kept"; "    routing_key:"; "      `<redacted>`"; "agent:"]%string.
Proof. vm_compute. reflexivity. Qed.

(** Secrets of other shapes are shown: the second line of a value that spans
    lines, an item of a list, a value after a comment, a member of a flow mapping
    opened on the line before, text between two placeholders, and in JSON a
    string in an array. *)
Example secrets_shown :
  let d := doc ["token: `ab"; "  cd`"; "secret:"; "  - ef"; "password:"; "  # note"; "  gh"; "x: {a: 1,"; "  b: 2, token: ij}";
                "api_key: ${env:A}kl${env:B}"]%string in
  let shown := redact_config_text d in
  forallb (fun s => contains (as_bytes s) shown) ["cd"; "ef"; "gh"; "ij"; "kl"]%string = true /\
  let v := VObject [(as_bytes "api_key", VArray [VString (as_bytes "mn")])] in redacted_json v = v.
Proof. vm_compute. split; reflexivity. Qed.

Definition TOKEN : bytes := as_bytes "token".
Definition PRIVATE_KEY : bytes := as_bytes "private_key".
Definition ROUTING_KEY : bytes := as_bytes "routing_key".
(** A token in a list item, a key in a block and a value on the next line. *)
Definition tail : bytes := replicate 2 32 ++ as_bytes "# admin".
Definition parts (token : bytes) (block : list bytes) (c : Z) (next : bytes) : list (list bytes) :=
  [ [text "plugins:" ++ [10]]; [key_head 0 1 TOKEN ++ [32] ++ token ++ tail ++ [10]];
    (key_head 2 0 PRIVATE_KEY ++ [32] ++ 124 :: [] ++ [10]) :: block; [text "  name: a" ++ [10]];
    [key_head 2 0 ROUTING_KEY ++ [] ++ [10]; replicate 4 32 ++ c :: next ++ [10]] ].
Definition one : bytes := concat (concat (parts (as_bytes "s3cr3t") [text "    AAAA" ++ [10]; [10]] 100 (as_bytes "eep"))).
Definition two : bytes := concat (concat (parts (text "`x`") [text "    C" ++ [10]] 104 (as_bytes "i"))).

Lemma parts_same (t t' : bytes) (b b' : list bytes) (c c' : Z) (n n' : bytes) :
  secret_part [key_head 0 1 TOKEN ++ [32] ++ t ++ tail ++ [10]] [key_head 0 1 TOKEN ++ [32] ++ t' ++ tail ++ [10]] ->
  Forall (below 2) b -> Forall (below 2) b' ->
  (graphic c /\ c <> 35 /\ holds_value (replicate 4 32 ++ c :: n) = true /\ line_end (c :: n) [10]) ->
  (graphic c' /\ c' <> 35 /\ holds_value (replicate 4 32 ++ c' :: n') = true /\ line_end (c' :: n') [10]) ->
  same_public (concat (parts t b c n)) (concat (parts t' b' c' n')).
Proof.
  intros Ht Hb Hb' Hn Hn'. unfold parts. cbn [concat]. apply same_line. apply same_secret; [exact Ht|].
  apply (same_secret (_ :: b) (_ :: b')); [apply (secret_block 2 0 PRIVATE_KEY [32] 124 [] [10] b b'); try done|].
  - split; [done|repeat constructor].
  - split; [done|repeat constructor].
  - by left.
  - left. done.
  - apply same_line. apply same_secret; [|constructor].
    apply (secret_next 2 0 ROUTING_KEY [] [10] 4 c n c' n' [10] [] []); try done; [split; [done|repeat constructor]|by left|lia].
Qed.


(** *** Writing it back *)
Import HostSample.
#[local] Instance lower : UnicodeLower := to_ascii_lowercase.
#[local] Instance addr : AddrText := {| parse_ip _ := None; parse_net _ := None |}.
#[local] Instance texts : ApiText := {| rfc3339 _ := ""%string; debug_source _ := ""%string; io_error_text _ := ""%string; json_bans _ := ""%string |}.
Definition thr : Thresholded := {| th_threshold := 5; th_ban_duration := permanent |}.
Definition settings : HiveGuardConfig := {|
  hc_node := {| nc_name := "a"; listen_gossip := ""; listen_api := ""; data_dir := "/var"; seeds := []; cluster_mode := Strict; founder_nodes := [] |};
  hc_whitelist := [];
  hc_detectors := {| ssh_bruteforce := thr; ssh_user_enum := thr; path_probe_ban := permanent; http_4xx_flood := thr; scanner_fingerprint_ban := permanent;
                     smtp_bruteforce := thr; port_scan := thr; distributed_slow := thr; honeypot_ban := permanent |};
  hc_trust := {| ban_threshold := S754_zero false; new_node_grace_period := permanent; new_node_threshold_multiplier := S754_zero false; max_bans_per_minute := 1;
                 auto_quarantine_multiplier := S754_zero false; remote_min_prefix_v4 := 16; remote_min_prefix_v6 := 32; remote_max_ttl_secs := 60 |};
  hc_backend := "nftables"; hc_bots := [] |}.
Definition agents : AgentConfig := {|
  ac_log_sources := []; ac_journal_units := []; ac_max_scan_bytes := 1; ac_max_results := 1; ac_journal_timeout_secs := 1; ac_include_rotated := false;
  ac_max_concurrent_scans := 1; ac_max_streams := 1 |}.
Definition reads (path : string) : PluginEntry :=
  {| pe_id := "notify-slack"; pe_name := None; pe_config := VObject [(hook, VString (as_bytes ("${file:" +:+ path +:+ "}")))]; pe_optional := false |}.
(** A parser that takes a text for the path of the hook's secret. *)
#[local] Instance yaml : ConfigYaml :=
  {| yaml_value _ := Ok YNull;
     yaml_config s := Ok {| cd_config := settings; cd_plugins := [reads (of_bytes s)]; cd_agent := agents; cd_read_token_file := None |} |}.
Definition all_there : Surroundings := {| su_is_file _ := true; su_env_set _ := true |}.
Definition inside : bytes := as_bytes "/etc/hiveguard/hook".
Definition shadowed (secret : string) : World :=
  {| w_env _ := None; w_file p := Ok (if secret_file_allowed p then as_bytes "https://x" else as_bytes secret) |}.

Example outside_refused : (put_config box [slack] true all_there Written (as_bytes "/etc/hiveguard/../shadow") inside).1 = inside.
Proof. vm_compute. reflexivity. Qed.


Definition secret_file : bytes := doc ["token: abc"]%string.
Lemma marker_never_written_witness :
  contains REDACTED (redact_config_text secret_file) = true /\
  put_config box [slack] true all_there Written (redact_config_text secret_file) secret_file = (secret_file, Err (ConfigValidation redacted_marker_error)).
Proof.
  destruct (marker_never_written box [slack] all_there Written secret_file (redact_config_text secret_file)) as [Hs He];
    [reflexivity|vm_compute; congruence|]. split; [exact Hs|]. apply He. exact Hs.
Defined.
End RedactSample.
