(* ===== verification/Rest.v ===== *)
(** * The REST interface ([plugins/ui-rest/src])

    [auth.rs], [routes.rs], [agent.rs], [ws.rs], [state.rs] and the start of
    [lib.rs]: who may call what, which call of the daemon a request becomes, what
    is answered and what is written to the audit log. The daemon behind
    [UiApiHandle] is an interface; the extractors of the web framework (bodies,
    queries, path parameters) are the parameter [Extract]. Cross-origin headers
    and the frames of an open stream are left out. *)
From S2P Require Import Prelude Text Models Whitelist SigmaCond PluginConfig Secrets Host Sanitize Nftables AgentScan AgentLogs Admin.
Local Open Scope Z_scope.
Local Open Scope rust_scope.

(** ** Requests and answers *)
Inductive Method : Type := GET | HEAD | POST | PUT | DELETE | OPTIONS | OtherMethod.
#[export] Instance Method_eq_dec : EqDecision Method.
Proof. solve_decision. Defined.

Record Headers : Type := { h_authorization : option bytes; h_user_agent : option bytes; h_ws_protocol : option bytes }.
Record Request : Type := { rq_method : Method; rq_path : bytes; rq_headers : Headers; rq_body : bytes }.
(** The body of an answer is JSON, plain text, or what a stream sends. *)
Record Response : Type := { rs_status : Z; rs_body : Value; rs_retry_after : bool }.
Definition respond_json (status : Z) (v : Value) : Response := {| rs_status := status; rs_body := v; rs_retry_after := false |}.
Definition error_json (status : Z) (m : string) : Response := respond_json status (obj [("error", JStr m)]%string).

(** [HeaderValue::to_str]: visible ASCII and tabs. *)
Definition header_str (h : option bytes) : option bytes :=
  v ← h; if forallb (fun b => ((32 <=? b) && (b <? 127)) || (b =? 9)) v then Some v else None.

(** ** Calls of the daemon *)
Inductive ApiCall : Type :=
| CNodeInfo | CStats | CListBans | CListThreats | CListPlugins | CListWhitelist | CListPeers | CListBots | CGetConfig | CGetDetectors
| CFail2banPreview (db jail : option bytes) | CListSigmaRules | CGetSigmaRule (id : bytes) | CSigmaStats | CRenderMetrics | CSubscribe | CSubscribeAgent
| CAgentOverview | CAgentBans (params : Value) | CAgentThreats (params : Value) | CAgentLogSources | CAgentLogQuery (params : Value)
| CAgentLogStats (params : Value) | CAgentIpProfile (params : Value) | CAgentJournal (params : Value) | CAgentDetectors
| CAgentCatalog (kind : option bytes) | CAgentConfigValidate (content : bytes)
| CAddBan (req : BanRequest) | CRemoveBan (net : IpNet) | CAddWhitelist (net : IpNet) | CRemoveWhitelist (net : IpNet)
| CSetBotPolicy (name policy : bytes) | CPutConfig (content : bytes) | CPutDetectors (v : Value) | CFail2banImport (db jail : option bytes)
| CUpsertSigmaRule (yaml : bytes) | CDeleteSigmaRule (id : bytes) | CIngestLogs (lines : list bytes) (parser : bytes).

Definition is_mutation (c : ApiCall) : bool :=
  match c with
  | CAddBan _ | CRemoveBan _ | CAddWhitelist _ | CRemoveWhitelist _ | CSetBotPolicy _ _ | CPutConfig _ | CPutDetectors _ | CFail2banImport _ _
  | CUpsertSigmaRule _ | CDeleteSigmaRule _ | CIngestLogs _ _ => true
  | _ => false
  end.
(** A result as JSON, no result, or an error. *)
Inductive ApiResult : Type := AValue (v : Value) | ANone | AErr (e : PluginError).

(** What the handlers rely on: a call that only reads leaves the daemon as it
    is. *)
Class UiApiHandle (S : Type) : Type := api_call : ApiCall -> S -> S * ApiResult.
Class UiApiLaws {S : Type} (api : UiApiHandle S) : Prop :=
  reads_leave (c : ApiCall) (s : S) : is_mutation c = false -> (api_call c s).1 = s.

(** ** Authentication *)
Inductive TokenKind : Type := TAdmin | TRead.
#[export] Instance TokenKind_eq_dec : EqDecision TokenKind.
Proof. solve_decision. Defined.
Definition token_name (k : TokenKind) : string := match k with TAdmin => "admin" | TRead => "read" end.
Record AuthContext : Type := { ac_token : TokenKind; ac_source : string }.

Record IngestState : Type := {
  ig_enabled : bool; ig_token : option bytes; ig_parser : bytes; ig_rate_limit_per_sec : Z; ig_max_request_bytes : nat;
  ig_rate_limiter : Z * Z;   (** start of the window and requests in it *)
}.
Record AppState : Type := {
  as_auth_token : bytes; as_read_token : option bytes; as_ingest : IngestState; as_max_streams : nat; as_active_streams : nat;
}.

Definition READ_ONLY_POSTS : list bytes :=
  as_bytes <$> ["/api/agent/logs/query"; "/api/agent/logs/stats"; "/api/agent/ip"; "/api/agent/config/validate"]%string.
Definition READ_DENIED_GETS : list bytes := as_bytes <$> ["/api/fail2ban/preview"]%string.

Definition ct_eq (a b : bytes) : bool := if negb (length a =? length b)%nat then false else bool_decide (a = b).
Definition classify_token (st : AppState) (presented : bytes) : option TokenKind :=
  let admin := ct_eq presented (as_auth_token st) in
  let read := match as_read_token st with Some rt => ct_eq presented rt | None => false end in
  if admin then Some TAdmin else if read then Some TRead else None.
Definition read_token_allows (m : Method) (path : bytes) : bool :=
  if bool_decide (m = GET) || bool_decide (m = HEAD) then negb (bool_decide (path ∈ READ_DENIED_GETS))
  else bool_decide (m = POST) && bool_decide (path ∈ READ_ONLY_POSTS).
Definition client_source (h : Headers) (k : TokenKind) : string :=
  match k with
  | TRead => "agent"
  | TAdmin =>
      let ua := default [] (header_str (h_user_agent h)) in
      if starts_with (as_bytes "hiveguard-mcp") ua || starts_with (as_bytes "hg-agent-proxy") ua then "agent" else "rest"
  end.
Definition BEARER : bytes := as_bytes "Bearer ".
Definition bearer (h : Headers) : option bytes := v ← header_str (h_authorization h); strip_prefix BEARER v.

(** One audit record: the operation, its subject, where it came from and how it
    ended. *)
Record AuditRecord : Type := { au_op : string; au_subject : option str; au_source : string; au_token : string; au_status : option Z; au_outcome : string }.
Definition method_name (m : Method) : string :=
  match m with GET => "GET" | HEAD => "HEAD" | POST => "POST" | PUT => "PUT" | DELETE => "DELETE" | OPTIONS => "OPTIONS" | OtherMethod => "OTHER" end.
Definition unauthorized (m : string) : Response := error_json 401 m.
Definition denied_record (req : Request) (k : TokenKind) : AuditRecord :=
  {| au_op := method_name (rq_method req) +:+ " " +:+ of_bytes (rq_path req); au_subject := None; au_source := client_source (rq_headers req) k;
     au_token := token_name k; au_status := None; au_outcome := "denied" |}.
Definition require_auth (st : AppState) (req : Request) : result AuthContext (Response * list AuditRecord) :=
  match header_str (h_authorization (rq_headers req)) with
  | Some value =>
      if starts_with BEARER value then
        match classify_token st (drop (length BEARER) value) with
        | None => Err (unauthorized "Invalid authentication token", [])
        | Some k =>
            if bool_decide (k = TRead) && negb (read_token_allows (rq_method req) (rq_path req))
            then Err (error_json 403 "read-only token: this operation needs the admin token", [denied_record req k])
            else Ok {| ac_token := k; ac_source := client_source (rq_headers req) k |}
        end
      else Err (unauthorized "Malformed Authorization header (expected: Bearer <token>)", [])
  | None => Err (unauthorized "Missing Authorization header", [])
  end.

(** ** Handlers *)
(** A handler makes calls, one after the other, and ends with an answer and its
    audit records. *)
Inductive Plan : Type :=
| Done (r : Response) (log : list AuditRecord)
| Call (c : ApiCall) (k : ApiResult -> Plan).
Definition reply (r : Response) : Plan := Done r [].

(** What the framework reads from a request; [Err] is its own answer. *)
Class Extract : Type := {
  ex_ban_request : Request -> result BanRequest Response;
  ex_json : Request -> result Value Response;
  ex_json_field : string -> Request -> result bytes Response;
  ex_json_fail2ban : Request -> result (option bytes * option bytes) Response;
  ex_query : Request -> result (list (bytes * bytes)) Response;
  ex_query_fail2ban : Request -> result (option bytes * option bytes) Response;
  ex_query_kind : Request -> result (option bytes) Response;
  ex_path : bytes -> result bytes Response;
  percent_decode_utf8 : bytes -> option bytes;
}.

Definition busy_response (m : string) : Response := {| rs_status := 429; rs_body := obj [("error", JStr m)]%string; rs_retry_after := true |}.
Definition bad_request (m : string) : Response := error_json 400 m.
Definition err_response (other : Z) (e : PluginError) : Response :=
  match e with
  | PBusy m => busy_response m
  | ConfigValidation _ | MissingConfig _ => error_json 400 (show_error e)
  | PNotFound _ => error_json 404 (show_error e)
  | _ => error_json other (show_error e)
  end.
Definition plugin_err_to_response : PluginError -> Response := err_response 500.
Definition mgmt_err_to_response : PluginError -> Response := err_response 503.
Definition agent_respond (r : ApiResult) : Response :=
  match r with AValue v => respond_json 200 v | ANone => respond_json 200 VNull | AErr e => err_response 503 e end.

Definition is_success (status : Z) : bool := (200 <=? status) && (status <? 300).
Definition audit_record (ctx : AuthContext) (op : string) (subject : bytes) (r : Response) : AuditRecord :=
  {| au_op := op; au_subject := Some (sanitize_text (chars subject) 128); au_source := ac_source ctx; au_token := token_name (ac_token ctx);
     au_status := Some (rs_status r); au_outcome := if is_success (rs_status r) then "ok" else "error" |}.
(** [audit_mutation] after the inner block. *)
Definition audited (ctx : AuthContext) (op : string) (subject : bytes) (r : Response) : Plan := Done r [audit_record ctx op subject r].

Section handlers.
Context `{Extract} `{AddrText} `{IpNetOps} `{JsonText} `{UnicodeLower}.

Definition message (m : string) : Value := obj [("message", JStr m)]%string.
(** The calls that only read, and their answers. *)
Definition show_call (c : ApiCall) : Plan := Call c (fun r => reply match r with AValue v => respond_json 200 v | ANone => respond_json 200 VNull | AErr e => mgmt_err_to_response e end).
Definition show_as (field : string) (c : ApiCall) : Plan :=
  Call c (fun r => reply match r with AValue v => respond_json 200 (obj [(field, v)]) | ANone => respond_json 200 VNull | AErr e => mgmt_err_to_response e end).
(** A list, and how long it is. *)
Definition show_list (field : string) (c : ApiCall) : Plan :=
  Call c (fun r => reply match r with
    | AValue v => respond_json 200 (obj [(field, v); ("total"%string, JNum (Z.of_nat (length (default [] (as_array v)))))])
    | ANone => respond_json 200 VNull
    | AErr e => mgmt_err_to_response e
    end).
Definition agent_call (c : ApiCall) : Plan := Call c (fun r => reply (agent_respond r)).

Definition decode_target (raw : bytes) : result IpNet Response :=
  match percent_decode_utf8 raw with
  | None => Err (bad_request "invalid percent-encoded CIDR")
  | Some decoded =>
      match parse_net decoded with
      | Some n => Ok n
      | None => match parse_target decoded with Ok n => Ok n | Err _ => Err (bad_request ("invalid CIDR: '" +:+ of_bytes decoded +:+ "'")) end
      end
  end.

(** A handler gets the context of the request, its path parameters and the
    request. What the framework refuses never reaches it. *)
Definition Handler : Type := AuthContext -> list bytes -> Request -> Plan.
Definition extracted {A} (r : result A Response) (k : A -> Plan) : Plan := match r with Ok a => k a | Err r => reply r end.
Definition with_param (ps : list bytes) (k : bytes -> Plan) : Plan := match ps with p :: _ => extracted (ex_path p) k | [] => reply (error_json 500 "") end.

Definition post_ban : Handler := fun ctx _ req => extracted (ex_ban_request req) (fun b =>
  Call (CAddBan b) (fun r => audited ctx "ban" (as_bytes (net_to_string (br_subject b)))
    match r with AErr e => plugin_err_to_response e | _ => respond_json 201 (obj [("status", JStr "created")]%string) end)).
Definition delete_ban : Handler := fun ctx ps _ => with_param ps (fun cidr =>
  match decode_target cidr with
  | Err r => audited ctx "unban" cidr r
  | Ok net => Call (CRemoveBan net) (fun r => audited ctx "unban" cidr match r with AErr e => plugin_err_to_response e | _ => respond_json 204 VNull end)
  end).
Definition post_whitelist : Handler := fun ctx _ req => extracted (ex_json_field "cidr" req) (fun cidr =>
  match parse_target cidr with
  | Err e => audited ctx "whitelist_add" cidr (bad_request e)
  | Ok net => Call (CAddWhitelist net) (fun r => audited ctx "whitelist_add" cidr
      match r with AErr e => mgmt_err_to_response e | _ => respond_json 201 (message ("Whitelisted " +:+ net_to_string net)) end)
  end).
Definition delete_whitelist : Handler := fun ctx ps _ => with_param ps (fun cidr =>
  match decode_target cidr with
  | Err r => audited ctx "whitelist_remove" cidr r
  | Ok net => Call (CRemoveWhitelist net) (fun r => audited ctx "whitelist_remove" cidr
      match r with AErr e => mgmt_err_to_response e | _ => respond_json 200 (message ("Removed " +:+ net_to_string net +:+ " from whitelist")) end)
  end).
Definition post_bot_policy : Handler := fun ctx ps req => with_param ps (fun name => extracted (ex_json_field "policy" req) (fun policy =>
  Call (CSetBotPolicy name policy) (fun r => audited ctx "bot_policy" (name ++ 61 :: policy)
    match r with
    | AErr e => mgmt_err_to_response e
    | _ => respond_json 200 (message ("Policy for '" +:+ of_bytes name +:+ "' set to '" +:+ of_bytes (str_to_lowercase policy) +:+ "'"))
    end))).
Definition put_config : Handler := fun ctx _ req => extracted (ex_json_field "content" req) (fun content =>
  Call (CPutConfig content) (fun r => audited ctx "config_put" (as_bytes "config.yaml")
    match r with AErr e => mgmt_err_to_response e | _ => respond_json 200 (message "Config saved. Restart daemon to apply changes.") end)).
Definition put_detectors : Handler := fun ctx _ req => extracted (ex_json req) (fun v =>
  Call (CPutDetectors v) (fun r => audited ctx "detectors_put" []
    match r with AErr e => mgmt_err_to_response e | _ => respond_json 200 (message "Detector rules saved. Restart daemon to apply changes.") end)).
Definition get_fail2ban_preview : Handler := fun _ _ req => extracted (ex_query_fail2ban req) (fun q => show_list "bans" (CFail2banPreview q.1 q.2)).
Definition post_fail2ban_import : Handler := fun ctx _ req => extracted (ex_json_fail2ban req) (fun q =>
  Call (CFail2banImport q.1 q.2) (fun r => audited ctx "fail2ban_import" (default [] q.2)
    match r with AErr e => mgmt_err_to_response e | AValue v => respond_json 200 v | ANone => respond_json 200 VNull end)).
Definition post_sigma_rule : Handler := fun ctx _ req => extracted (ex_json_field "yaml" req) (fun yaml =>
  Call (CUpsertSigmaRule yaml) (fun r => audited ctx "sigma_upsert" []
    match r with
    | AErr e => mgmt_err_to_response e
    | AValue v => respond_json 200 (message ("Rule '" +:+ of_bytes (default [] (as_str v)) +:+ "' saved"))
    | ANone => respond_json 200 VNull
    end)).
Definition get_sigma_rule : Handler := fun _ ps _ => with_param ps (fun id =>
  Call (CGetSigmaRule id) (fun r => reply
    match r with
    | AValue v => respond_json 200 v
    | ANone => error_json 404 ("Rule '" +:+ of_bytes id +:+ "' not found")
    | AErr e => mgmt_err_to_response e
    end)).
Definition delete_sigma_rule : Handler := fun ctx ps _ => with_param ps (fun id =>
  Call (CDeleteSigmaRule id) (fun r => audited ctx "sigma_delete" id
    match r with AErr e => mgmt_err_to_response e | _ => respond_json 200 (message ("Rule '" +:+ of_bytes id +:+ "' deleted")) end)).

Definition params_to_value (q : list (bytes * bytes)) : Value := VObject ((fun kv : bytes * bytes => (kv.1, VString kv.2)) <$> q).
Definition agent_get (c : Value -> ApiCall) : Handler := fun _ _ req => extracted (ex_query req) (fun q => agent_call (c (params_to_value q))).
Definition agent_post (c : Value -> ApiCall) : Handler := fun _ _ req => extracted (ex_json req) (fun v => agent_call (c v)).
Definition get_agent_config : Handler := fun _ _ _ =>
  Call CGetConfig (fun r => reply match r with
    | AValue v => respond_json 200 (obj [("content", v); ("redacted", VBool true)]%string)
    | other => agent_respond other
    end).
Definition get_catalog : Handler := fun _ _ req => extracted (ex_query_kind req) (fun kind => agent_call (CAgentCatalog kind)).
Definition post_config_validate : Handler := fun _ _ req => extracted (ex_json_field "content" req) (fun c => agent_call (CAgentConfigValidate c)).

(** ** Routes *)
Inductive Seg : Type := Lit (s : bytes) | Param.
Definition show (c : ApiCall) : Handler := fun _ _ _ => show_call c.
Definition route_of (path : string) : list Seg := (fun s => if bool_decide (s = as_bytes "{}") then Param else Lit s) <$> split_on 47 (as_bytes path).
Definition api_routes : list (list Seg * list (Method * Handler)) :=
  (fun r : string * list (Method * Handler) => (route_of r.1, r.2)) <$>
  [ ("/api/info", [(GET, show CNodeInfo)]); ("/api/stats", [(GET, show CStats)]);
    ("/api/bans", [(GET, show CListBans); (POST, post_ban)]); ("/api/bans/{}", [(DELETE, delete_ban)]);
    ("/api/whitelist", [(GET, fun _ _ _ => show_as "entries" CListWhitelist); (POST, post_whitelist)]);
    ("/api/whitelist/{}", [(DELETE, delete_whitelist)]); ("/api/peers", [(GET, fun _ _ _ => show_as "peers" CListPeers)]);
    ("/api/bots", [(GET, show CListBots)]); ("/api/bots/{}/policy", [(POST, post_bot_policy)]);
    ("/api/config", [(GET, fun _ _ _ => show_as "content" CGetConfig); (PUT, put_config)]);
    ("/api/config/detectors", [(GET, show CGetDetectors); (PUT, put_detectors)]);
    ("/api/fail2ban/preview", [(GET, get_fail2ban_preview)]); ("/api/fail2ban/import", [(POST, post_fail2ban_import)]);
    ("/api/sigma/rules", [(GET, fun _ _ _ => show_list "rules" CListSigmaRules); (POST, post_sigma_rule)]);
    ("/api/sigma/rules/{}", [(GET, get_sigma_rule); (DELETE, delete_sigma_rule)]); ("/api/sigma/stats", [(GET, show CSigmaStats)]);
    ("/api/threats", [(GET, show CListThreats)]); ("/api/plugins", [(GET, show CListPlugins)]);
    ("/api/agent/overview", [(GET, fun _ _ _ => agent_call CAgentOverview)]); ("/api/agent/bans", [(GET, agent_get CAgentBans)]);
    ("/api/agent/threats", [(GET, agent_get CAgentThreats)]); ("/api/agent/logs/sources", [(GET, fun _ _ _ => agent_call CAgentLogSources)]);
    ("/api/agent/logs/query", [(POST, agent_post CAgentLogQuery)]); ("/api/agent/logs/stats", [(POST, agent_post CAgentLogStats)]);
    ("/api/agent/ip", [(POST, agent_post CAgentIpProfile)]); ("/api/agent/journal", [(GET, agent_get CAgentJournal)]);
    ("/api/agent/detectors", [(GET, fun _ _ _ => agent_call CAgentDetectors)]); ("/api/agent/catalog", [(GET, get_catalog)]);
    ("/api/agent/config", [(GET, get_agent_config)]); ("/api/agent/config/validate", [(POST, post_config_validate)]) ]%string.

(** A parameter matches one segment that is not empty. *)
Fixpoint match_path (pat : list Seg) (segs : list bytes) : option (list bytes) :=
  match pat, segs with
  | [], [] => Some []
  | Lit l :: pat', s :: segs' => if bool_decide (l = s) then match_path pat' segs' else None
  | Param :: pat', s :: segs' => if bool_decide (s = []) then None else cons s <$> match_path pat' segs'
  | _, _ => None
  end.
Fixpoint find_route {A} (routes : list (list Seg * A)) (path : bytes) : option (A * list bytes) :=
  match routes with
  | [] => None
  | (pat, a) :: routes' => match match_path pat (split_on 47 path) with Some ps => Some (a, ps) | None => find_route routes' path end
  end.
(** A handler for [GET] serves [HEAD] too. *)
Definition served_by (m : Method) : Method := match m with HEAD => GET | m => m end.
Definition pick {A} (m : Method) (hs : list (Method * A)) : option A := snd <$> List.find (fun h => bool_decide (h.1 = served_by m)) hs.

Definition serve_api (st : AppState) (hs : list (Method * Handler)) (ps : list bytes) (req : Request) : Plan :=
  match require_auth st req with
  | Err (r, log) => Done r log
  | Ok ctx => match pick (rq_method req) hs with Some h => h ctx ps req | None => reply (respond_json 405 VNull) end
  end.
End handlers.

(** ** Streams *)
Definition PROTOCOL_PREFIX : bytes := as_bytes "bearer.".
Definition extract_protocol_token (h : Headers) : option bytes :=
  raw ← header_str (h_ws_protocol h);
  head (omap (fun part => match strip_prefix PROTOCOL_PREFIX (trim part) with
                          | Some rest => if bool_decide (rest = []) then None else Some rest
                          | None => None
                          end) (split_on 44 raw)).
Definition text_response (status : Z) (m : string) : Response := respond_json status (JStr m).
(** The upgrade and the snapshots sent first; what follows only forwards
    events. *)
Definition ws_handler (st : AppState) (req : Request) : Plan :=
  let token := match extract_protocol_token (rq_headers req) with Some t => Some t | None => bearer (rq_headers req) end in
  match token with
  | None => reply (text_response 401 "missing token")
  | Some t =>
      match classify_token st t with
      | None => reply (text_response 401 "invalid token")
      | Some _ =>
          Call CNodeInfo (fun _ => Call CListBans (fun _ => Call CListThreats (fun _ => Call CListPlugins (fun _ => Call CSubscribe (fun _ =>
            reply (respond_json 101 VNull))))))
      end
  end.

Definition set_active (n : nat) (st : AppState) : AppState :=
  {| as_auth_token := as_auth_token st; as_read_token := as_read_token st; as_ingest := as_ingest st; as_max_streams := as_max_streams st;
     as_active_streams := n |}.
(** A slot is taken first and given back when there are too many. *)
Definition sse_handler (st : AppState) (req : Request) (available : bool) : AppState * Plan :=
  match bearer (rq_headers req) with
  | None => (st, reply (unauthorized "missing token (send `Authorization: Bearer <token>`; `?token=` is not accepted)"))
  | Some token =>
      match classify_token st token with
      | None => (st, reply (unauthorized "invalid token"))
      | Some _ =>
          if negb available
          then (st, Call CSubscribeAgent (fun _ => reply (error_json 503 "agent event stream not available on this daemon"))) else
          let max := Nat.max (as_max_streams st) 1 in
          if (max <=? as_active_streams st)%nat
          then (st, Call CSubscribeAgent (fun _ => reply (busy_response ("too many agent streams open (" +:+ fmt_uint (Z.of_nat max) +:+ ", agent.max_streams); retry later"))))
          else (set_active (S (as_active_streams st)) st, Call CSubscribeAgent (fun _ => reply (respond_json 200 VNull)))
      end
  end.
(** [StreamSlot::drop] *)
Definition stream_closed (st : AppState) : AppState := set_active (pred (as_active_streams st)) st.

(** ** Pushed log lines *)
Section ingest.
Context `{JsonText}.

Definition LINE_FIELDS : list string := ["message"; "log"; "msg"; "text"; "line"; "event"]%string.
Definition json_value_to_log_line (v : Value) : option bytes :=
  match v with
  | VString s => if bool_decide (trim s = []) then None else Some s
  | VObject _ =>
      head (omap (fun key => s ← get key v ≫= as_str; if bool_decide (trim s = []) then None else Some (trim s)) LINE_FIELDS)
  | _ => None
  end.
Definition body_lines (body : bytes) : list bytes :=
  match json_of_text body with
  | Some (VArray arr) => omap json_value_to_log_line arr
  | Some other => option_list (json_value_to_log_line other)
  | None =>
      omap (fun l => match json_of_text l with Some v => json_value_to_log_line v | None => Some l end)
           (List.filter (fun l => negb (bool_decide (trim l = []))) (lines body))
  end.

(** A new second starts a new count. *)
Definition push_rate_limit_ok (now : Z) (limiter : Z * Z) (max_per_sec : Z) : (Z * Z) * bool :=
  let '(start, count) := limiter in
  let '(start, count) := if nanos_per_sec <=? now - start then (now, 0) else (start, count) in
  if max_per_sec <=? count then ((start, count), false) else ((start, count + 1), true).

Definition set_limiter (l : Z * Z) (st : AppState) : AppState :=
  let ig := as_ingest st in
  {| as_auth_token := as_auth_token st; as_read_token := as_read_token st;
     as_ingest := {| ig_enabled := ig_enabled ig; ig_token := ig_token ig; ig_parser := ig_parser ig; ig_rate_limit_per_sec := ig_rate_limit_per_sec ig;
                     ig_max_request_bytes := ig_max_request_bytes ig; ig_rate_limiter := l |};
     as_max_streams := as_max_streams st; as_active_streams := as_active_streams st |}.

Definition counts_json (accepted rejected : Z) : Value := obj [("accepted", JNum accepted); ("rejected", JNum rejected)]%string.
Definition ingest_allowed (ig : IngestState) (h : Headers) : bool :=
  match ig_token ig, bearer h with
  | Some expected, Some provided => negb (bool_decide (trim expected = [])) && ct_eq provided expected
  | _, _ => false
  end.
Definition post_ingest_logs (now : Z) (st : AppState) (req : Request) : AppState * Plan :=
  let ig := as_ingest st in
  if negb (ingest_allowed ig (rq_headers req)) then (st, reply (error_json 401 "Unauthorized")) else
  let '(limiter, ok) := push_rate_limit_ok now (ig_rate_limiter ig) (ig_rate_limit_per_sec ig) in
  let st := set_limiter limiter st in
  if negb ok then (st, reply (error_json 429 "Rate limit exceeded")) else
  if negb (valid_utf8 (rq_body req)) then (st, reply (error_json 400 "Request body must be valid UTF-8")) else
  let body := trim (rq_body req) in
  if bool_decide (body = []) then (st, reply (respond_json 200 (counts_json 0 0))) else
  (st, Call (CIngestLogs (body_lines body) (ig_parser ig)) (fun r => reply
    match r with AValue v => respond_json 200 v | ANone => respond_json 200 VNull | AErr e => mgmt_err_to_response e end)).
End ingest.

(** ** The server *)
Section server.
Context `{Extract} `{AddrText} `{IpNetOps} `{JsonText} `{UnicodeLower}.

Definition is_get (m : Method) : bool := bool_decide (served_by m = GET).
(** [available]: is there an event stream; [files]: static files, if any are
    served. *)
Definition handle (now uptime : Z) (available : bool) (files : option (Request -> Response)) (st : AppState) (req : Request) : AppState * Plan :=
  let path := of_bytes (rq_path req) in
  let getter (p : AppState * Plan) := if is_get (rq_method req) then p else (st, reply (respond_json 405 VNull)) in
  if bool_decide (path = "/api/health"%string)
  then getter (st, reply (respond_json 200 (obj [("status", JStr "ok"); ("uptime_secs", JNum uptime)]%string)))
  else if bool_decide (path = "/api/stream"%string) then getter (st, ws_handler st req)
  else if bool_decide (path = "/api/agent/stream"%string) then getter (sse_handler st req available)
  else if bool_decide (path = "/metrics"%string)
  then getter (st, Call CRenderMetrics (fun r => reply match r with AValue v => respond_json 200 v | _ => text_response 503 ("# Metrics not enabled" +:+ newline) end))
  else if ig_enabled (as_ingest st) && bool_decide (path = "/api/ingest/logs"%string) then
    if negb (bool_decide (rq_method req = POST)) then (st, reply (respond_json 405 VNull))
    else if (ig_max_request_bytes (as_ingest st) <? length (rq_body req))%nat then (st, reply (respond_json 413 VNull))
    else post_ingest_logs now st req
  else match find_route api_routes (rq_path req) with
       | Some (hs, ps) => (st, serve_api st hs ps req)
       | None => (st, reply match files with Some f => f req | None => respond_json 404 VNull end)
       end.

Context {S : Type} `{UiApiHandle S}.
(** The calls in the order they are made. *)
Fixpoint run_plan (p : Plan) (s : S) : S * list ApiCall * Response * list AuditRecord :=
  match p with
  | Done r log => (s, [], r, log)
  | Call c k => let '(s, r) := api_call c s in let '(s, cs, resp, log) := run_plan (k r) s in (s, c :: cs, resp, log)
  end.
Definition serve (now uptime : Z) (available : bool) (files : option (Request -> Response)) (st : AppState) (req : Request) (s : S)
    : AppState * (S * list ApiCall * Response * list AuditRecord) :=
  let '(st, p) := handle now uptime available files st req in (st, run_plan p s).
End server.

(** ** Who may call what *)
Fixpoint plan_all (P : ApiCall -> Prop) (p : Plan) : Prop :=
  match p with
  | Done _ _ => True
  | Call c k => P c /\ forall r, plan_all P (k r)
  end.

Lemma plan_all_impl (P Q : ApiCall -> Prop) (p : Plan) : (forall c, P c -> Q c) -> plan_all P p -> plan_all Q p.
Proof. intros HPQ. induction p as [|c k IH]; simpl; [done|]. intros [Hc Hk]. split; auto. Qed.

Lemma run_plan_calls {S} `{UiApiHandle S} (P : ApiCall -> Prop) (p : Plan) (s : S) : plan_all P p -> Forall P (run_plan p s).1.1.2.
Proof.
  revert s. induction p as [|c k IH]; intros s; simpl; [constructor|]. intros [Hc Hk]. destruct (api_call c s) as [s1 r].
  specialize (IH r s1 (Hk r)). destruct (run_plan (k r) s1) as [[[s2 cs] resp] log]. by constructor.
Qed.

Lemma run_plan_reads {S} `{UiApiHandle S} `{!UiApiLaws _} (p : Plan) (s : S) : Forall (fun c => is_mutation c = false) (run_plan p s).1.1.2 ->
  (run_plan p s).1.1.1 = s.
Proof.
  revert s. induction p as [|c k IH]; intros s; simpl; [done|]. pose proof (reads_leave c s) as Hr. destruct (api_call c s) as [s1 r].
  specialize (IH r s1). destruct (run_plan (k r) s1) as [[[s2 cs] resp] log]. simpl in *. intros [Hc Hcs]%Forall_cons. rewrite IH by done. by apply Hr.
Qed.

Section plans.
Context `{Extract} (P : ApiCall -> Prop).
Lemma plan_reply (r : Response) : plan_all P (reply r).
Proof. done. Qed.
Lemma plan_call (c : ApiCall) (k : ApiResult -> Plan) : P c -> (forall r, plan_all P (k r)) -> plan_all P (Call c k).
Proof. by split. Qed.
Lemma plan_extracted {A} (r : result A Response) (k : A -> Plan) : (forall a, plan_all P (k a)) -> plan_all P (extracted r k).
Proof. intros Hk. destruct r; [apply Hk|done]. Qed.
Lemma plan_param (ps : list bytes) (k : bytes -> Plan) : (forall a, plan_all P (k a)) -> plan_all P (with_param ps k).
Proof. intros Hk. destruct ps; [done|]. by apply plan_extracted. Qed.
End plans.
(** Walk through a handler: extractors, calls, answers. *)
Ltac plan_step :=
  lazymatch goal with
  | |- plan_all _ (Done _ _) => exact I
  | |- plan_all _ (Call _ _) => apply plan_call; [|intros]
  | |- plan_all _ (extracted _ _) => apply plan_extracted; intros
  | |- plan_all _ (with_param _ _) => apply plan_param; intros
  | |- plan_all _ (match ?x with _ => _ end) => destruct x
  | |- plan_all ?P ?p => let q := eval hnf in p in change (plan_all P q)
  end.
Ltac plan_walk := repeat (progress (cbv beta; plan_step)).

Definition is_preview (c : ApiCall) : bool := match c with CFail2banPreview _ _ => true | _ => false end.
Definition harmless_call (c : ApiCall) : Prop := is_mutation c = false /\ is_preview c = false.

Section routing.
Context `{Extract} `{AddrText} `{IpNetOps} `{JsonText} `{UnicodeLower}.

Definition preview_route : list Seg := route_of "/api/fail2ban/preview".
(** The handlers for [GET] only read, and only one of them opens a database of
    the client's choice. *)
Lemma get_handlers : Forall (fun r : list Seg * list (Method * Handler) => Forall (fun mh : Method * Handler => mh.1 = GET ->
  forall ctx ps req, plan_all (fun c => is_mutation c = false) (mh.2 ctx ps req) /\ (r.1 = preview_route \/ plan_all harmless_call (mh.2 ctx ps req))) r.2) api_routes.
Proof.
  unfold api_routes. cbn [fmap list_fmap fst snd]. repeat first [apply Forall_nil_2|apply Forall_cons_2|progress cbv beta; cbn [snd]].
  all: intros Hm ctx ps req; try discriminate Hm; cbn [fst snd].
  all: (split; [plan_walk; reflexivity|first [left; reflexivity|right; plan_walk; split; reflexivity]]).
Qed.

Lemma post_handlers : Forall (fun r : list Seg * list (Method * Handler) => Forall (fun mh : Method * Handler => mh.1 = POST ->
  forall ctx ps req, plan_all harmless_call (mh.2 ctx ps req) \/ Forall (fun path => match_path r.1 (split_on 47 path) = None) READ_ONLY_POSTS) r.2) api_routes.
Proof.
  unfold api_routes. cbn [fmap list_fmap fst snd]. repeat first [apply Forall_nil_2|apply Forall_cons_2|progress cbv beta; cbn [snd]].
  all: intros Hm ctx ps req; try discriminate Hm; cbn [fst snd].
  all: first [left; plan_walk; split; reflexivity|right; repeat constructor].
Qed.

Lemma find_route_in {A} (routes : list (list Seg * A)) (path : bytes) (a : A) (ps : list bytes) : find_route routes path = Some (a, ps) ->
  exists pat, (pat, a) ∈ routes /\ match_path pat (split_on 47 path) = Some ps.
Proof.
  induction routes as [|[pat a'] routes IH]; simpl; [done|]. destruct (match_path pat (split_on 47 path)) as [ps'|] eqn:E.
  - intros [= -> ->]. exists pat. split; [left|done].
  - intros (pat' & Hin & Hm)%IH. exists pat'. split; [by right|done].
Qed.
Lemma pick_in {A} (m : Method) (hs : list (Method * A)) (h : A) : pick m hs = Some h -> (served_by m, h) ∈ hs.
Proof.
  unfold pick. intros (x & Hf & ->)%fmap_Some. apply find_some in Hf as [Hin Hm]. apply bool_decide_eq_true in Hm. destruct x as [m' h']. simpl in Hm. subst m'.
  by apply list_elem_of_In.
Qed.

Fixpoint join (c : Z) (ps : list bytes) : bytes :=
  match ps with [] => [] | [p] => p | p :: ps' => p ++ c :: join c ps' end.
Lemma join_split (c : Z) (s : bytes) : join c (split_on c s) = s.
Proof.
  induction s as [|x s IH]; [done|]. cbn [split_on]. destruct (split_on_ne c s) as (p & ps & E). rewrite E in *. destruct (Z.eqb_spec x c) as [->|Hx].
  - change (c :: join c (p :: ps) = c :: s). by rewrite IH.
  - destruct ps as [|q ps]; simpl in *; by rewrite IH.
Qed.
Lemma match_lits (ls segs ps : list bytes) : match_path (Lit <$> ls) segs = Some ps -> segs = ls.
Proof.
  revert segs ps. induction ls as [|l ls IH]; intros [|s segs] ps; simpl; try done. case_bool_decide; [|done]. subst. by intros ->%IH.
Qed.
Lemma match_preview (path : bytes) (ps : list bytes) : match_path preview_route (split_on 47 path) = Some ps -> path ∈ READ_DENIED_GETS.
Proof.
  change preview_route with (Lit <$> split_on 47 (as_bytes "/api/fail2ban/preview")). intros E%match_lits. apply (f_equal (join 47)) in E.
  rewrite !join_split in E. subst. by left.
Qed.

Lemma read_handlers (m : Method) (path : bytes) (hs : list (Method * Handler)) (ps : list bytes) (h : Handler) (ctx : AuthContext) (req : Request) :
  find_route api_routes path = Some (hs, ps) -> pick m hs = Some h -> read_token_allows m path = true -> plan_all harmless_call (h ctx ps req).
Proof.
  intros (pat & Hin & Hm)%find_route_in Hp%pick_in Hr. pose proof get_handlers as Hg. pose proof post_handlers as Hpo.
  rewrite Forall_forall in Hg, Hpo. specialize (Hg _ Hin). specialize (Hpo _ Hin). rewrite Forall_forall in Hg, Hpo. cbn [fst snd] in *.
  unfold read_token_allows in Hr. destruct (bool_decide (m = GET) || bool_decide (m = HEAD)) eqn:Em.
  - assert (served_by m = GET) as Es by (apply orb_true_iff in Em as [Em|Em]; apply bool_decide_eq_true in Em; by subst).
    rewrite Es in Hp. destruct (Hg _ Hp eq_refl ctx ps req) as [_ [->|Hh]]; [|done]. apply match_preview in Hm.
    apply negb_true_iff, bool_decide_eq_false in Hr. done.
  - apply andb_true_iff in Hr as [Ep Hpath]. apply bool_decide_eq_true in Ep, Hpath. subst m.
    destruct (Hpo _ Hp eq_refl ctx ps req) as [Hh|Hn]; [done|]. rewrite Forall_forall in Hn. by rewrite (Hn _ Hpath) in Hm.
Qed.

(** *** What a request may cause *)
Definition by_admin (st : AppState) (req : Request) : Prop := bearer (rq_headers req) = Some (as_auth_token st).
Definition by_client (st : AppState) (req : Request) : Prop := exists t k,
  (bearer (rq_headers req) = Some t \/ extract_protocol_token (rq_headers req) = Some t) /\ classify_token st t = Some k.
Definition by_pusher (st : AppState) (req : Request) : Prop := ig_enabled (as_ingest st) = true /\ ingest_allowed (as_ingest st) (rq_headers req) = true.
Definition is_ingest (c : ApiCall) : bool := match c with CIngestLogs _ _ => true | _ => false end.
Definition authorised (st : AppState) (req : Request) (c : ApiCall) : Prop :=
  by_admin st req \/ (by_client st req /\ harmless_call c) \/ (by_pusher st req /\ is_ingest c = true) \/ c = CRenderMetrics.

Lemma ct_eq_spec (a b : bytes) : ct_eq a b = true <-> a = b.
Proof.
  unfold ct_eq. destruct (Nat.eqb_spec (length a) (length b)) as [|Hn]; simpl; [by rewrite bool_decide_eq_true|]. split; [done|]. intros ->. done.
Qed.
Lemma require_auth_ok (st : AppState) (req : Request) (ctx : AuthContext) : require_auth st req = Ok ctx ->
  exists t, bearer (rq_headers req) = Some t /\ classify_token st t = Some (ac_token ctx) /\
  (ac_token ctx = TRead -> read_token_allows (rq_method req) (rq_path req) = true).
Proof.
  unfold require_auth, bearer. destruct (header_str _) as [v|]; [|done]. cbn [mbind option_bind]. unfold strip_prefix.
  destruct (starts_with BEARER v); [|done]. destruct (classify_token st _) as [k|] eqn:Ek; [|done].
  destruct (bool_decide (k = TRead) && _) eqn:Er; [done|]. intros [= <-]. eexists. split; [done|]. split; [exact Ek|]. cbn. intros ->.
  rewrite bool_decide_eq_true_2 in Er by done. simpl in Er. by apply negb_false_iff in Er.
Qed.

Lemma serve_api_authorised (st : AppState) (req : Request) (hs : list (Method * Handler)) (ps : list bytes) :
  find_route api_routes (rq_path req) = Some (hs, ps) -> plan_all (authorised st req) (serve_api st hs ps req).
Proof.
  intros Hf. unfold serve_api. destruct (require_auth st req) as [ctx|[r log]] eqn:Ea; [|done]. destruct (pick (rq_method req) hs) as [h|] eqn:Ep; [|done].
  apply require_auth_ok in Ea as (t & Ht & Hc & Hr). destruct (ac_token ctx) eqn:Ek.
  - apply (plan_all_impl (fun _ => True)).
    + intros c _. left. unfold classify_token in Hc. destruct (ct_eq t (as_auth_token st)) eqn:Et; [|by repeat case_match].
      apply ct_eq_spec in Et. by subst.
    + clear. induction (h ctx ps req) as [|c k IH]; simpl; auto.
  - apply (plan_all_impl harmless_call); [|by eapply read_handlers; [..|apply Hr]]. intros c Hh. right. left. split; [|done].
    exists t, TRead. auto.
Qed.

Lemma client_authorised (st : AppState) (req : Request) (t : bytes) (k : TokenKind) (c : ApiCall) :
  bearer (rq_headers req) = Some t \/ extract_protocol_token (rq_headers req) = Some t -> classify_token st t = Some k -> harmless_call c -> authorised st req c.
Proof. intros Ht Hk Hc. right. left. split; [|done]. by exists t, k. Qed.

Lemma ws_authorised (st : AppState) (req : Request) : plan_all (authorised st req) (ws_handler st req).
Proof.
  assert (forall t, bearer (rq_headers req) = Some t \/ extract_protocol_token (rq_headers req) = Some t ->
    plan_all (authorised st req) (match classify_token st t with
      | None => reply (text_response 401 "invalid token")
      | Some _ => Call CNodeInfo (fun _ => Call CListBans (fun _ => Call CListThreats (fun _ => Call CListPlugins (fun _ => Call CSubscribe (fun _ =>
            reply (respond_json 101 VNull)))))) end)) as Ht.
  { intros t Hb. destruct (classify_token st t) as [k|] eqn:Ek; [|done]. plan_walk; by apply (client_authorised st req t k). }
  unfold ws_handler. destruct (extract_protocol_token (rq_headers req)) as [t|] eqn:Et; [apply Ht; by right|].
  destruct (bearer (rq_headers req)) as [t|] eqn:Eb; [apply Ht; by left|done].
Qed.

Lemma sse_authorised (st : AppState) (req : Request) (available : bool) : plan_all (authorised st req) (sse_handler st req available).2.
Proof.
  unfold sse_handler. destruct (bearer (rq_headers req)) as [t|] eqn:Eb; [|done]. destruct (classify_token st t) as [k|] eqn:Ek; [|done].
  assert (authorised st req CSubscribeAgent) as Hs by (apply (client_authorised st req t k); [by left|done|done]).
  destruct (negb available); [|destruct (_ <=? _)%nat]; cbn [snd]; by plan_walk.
Qed.

Lemma ingest_authorised (now : Z) (st : AppState) (req : Request) : ig_enabled (as_ingest st) = true ->
  plan_all (authorised st req) (post_ingest_logs now st req).2.
Proof.
  intros He. unfold post_ingest_logs. destruct (ingest_allowed _ _) eqn:Ei; [|done]. cbn [negb].
  destruct (push_rate_limit_ok _ _ _) as [l ok]. destruct ok; [|done]. cbn [negb]. destruct (valid_utf8 _); [|done]. cbn [negb].
  case_bool_decide; [done|]. cbn [snd]. plan_walk. right. right. left. split; [by split|done].
Qed.

Lemma handle_authorised (now uptime : Z) (available : bool) (files : option (Request -> Response)) (st : AppState) (req : Request) :
  plan_all (authorised st req) (handle now uptime available files st req).2.
Proof.
  unfold handle. set (path := of_bytes (rq_path req)).
  destruct (bool_decide (path = "/api/health"%string)); [by destruct (is_get _)|].
  destruct (bool_decide (path = "/api/stream"%string)); [destruct (is_get _); [apply ws_authorised|done]|].
  destruct (bool_decide (path = "/api/agent/stream"%string)); [destruct (is_get _); [apply sse_authorised|done]|].
  destruct (bool_decide (path = "/metrics"%string)); [destruct (is_get _); [|done]; cbn [snd]; plan_walk; by do 3 right|].
  destruct (ig_enabled (as_ingest st) && _) eqn:Ei.
  - apply andb_true_iff in Ei as [Ei _]. destruct (negb _); [done|]. destruct (_ <? _)%nat; [done|]. by apply ingest_authorised.
  - destruct (find_route api_routes (rq_path req)) as [[hs ps]|] eqn:Ef; [by apply serve_api_authorised|done].
Qed.

End routing.

(** *** The theorem *)
Section authorisation.
Context `{Extract} `{AddrText} `{IpNetOps} `{JsonText} `{UnicodeLower} {S : Type} `{UiApiHandle S} `{laws : !UiApiLaws _}.

(** C16: Nothing happens behind the interface that the tokens do not allow: every
    call of the daemon a request causes comes from the holder of the admin token,
    or only reads (and does not open a database file of the client's choice) for
    the holder of some token, or pushes log lines with the token for these, or
    renders the public metrics; and the daemon's state can change only for the
    first and the third. *)
Theorem calls_authorised (now uptime : Z) (available : bool) (files : option (Request -> Response)) (st : AppState) (req : Request) (s : S) :
  let '(_, (s', calls, _, _)) := serve now uptime available files st req s in
  Forall (authorised st req) calls /\ (s' = s \/ by_admin st req \/ by_pusher st req).
Proof using laws.
  unfold serve. pose proof (handle_authorised now uptime available files st req) as Hh. destruct (handle _ _ _ _ _ _) as [st' p]. cbn [snd] in Hh.
  pose proof (run_plan_calls _ p s Hh) as Hc. pose proof (run_plan_reads p s) as Hr. destruct (run_plan p s) as [[[s' cs] r] log]. cbn in *.
  split; [done|]. destruct (decide (Forall (fun c => is_mutation c = false) cs)) as [Hm|Hm]; [left; by apply Hr|]. right.
  apply not_Forall_Exists in Hm; [|apply _]. apply Exists_exists in Hm as (c & Hin & Hm). rewrite Forall_forall in Hc.
  destruct (Hc c Hin) as [Ha|[[_ [Hn _]]|[[Hp _]| ->]]]; [by left|done|by right|by destruct Hm].
Qed.
End authorisation.

(** ** The audit log *)
Fixpoint plan_audited (ctx : AuthContext) (p : Plan) : Prop :=
  match p with
  | Done _ _ => True
  | Call c k => if is_mutation c then forall r, exists op subject resp, k r = audited ctx op subject resp else forall r, plan_audited ctx (k r)
  end.
Lemma run_plan_audited {S} `{UiApiHandle S} (ctx : AuthContext) (p : Plan) (s : S) (c : ApiCall) : plan_audited ctx p ->
  c ∈ (run_plan p s).1.1.2 -> is_mutation c = true -> exists op subject, (run_plan p s).2 = [audit_record ctx op subject (run_plan p s).1.2].
Proof.
  revert s. induction p as [|c' k IH]; intros s; simpl; [by intros _ Hc%not_elem_of_nil|]. destruct (api_call c' s) as [s1 r]. intros Hp Hin Hm.
  destruct (is_mutation c') eqn:Em.
  - destruct (Hp r) as (op & subject & resp & E). rewrite E. simpl. by exists op, subject.
  - specialize (IH r s1 (Hp r)). destruct (run_plan (k r) s1) as [[[s2 cs] resp] log]. simpl in *.
    apply elem_of_cons in Hin as [->|Hin]; [congruence|by apply IH].
Qed.

(** Walk through a handler up to its call. *)
Ltac audit_walk :=
  repeat (cbv beta; lazymatch goal with
  | |- plan_audited _ (Done _ _) => exact I
  | |- plan_audited _ (Call _ _) => simpl plan_audited; intros
  | |- plan_audited _ (match ?x with _ => _ end) => destruct x
  | |- plan_audited ?c ?p => let q := eval hnf in p in progress change (plan_audited c q)
  end).

Section auditing.
Context `{Extract} `{AddrText} `{IpNetOps} `{JsonText} `{UnicodeLower}.
Lemma all_audited : Forall (fun r : list Seg * list (Method * Handler) => Forall (fun mh : Method * Handler =>
  forall ctx ps req, plan_audited ctx (mh.2 ctx ps req)) r.2) api_routes.
Proof.
  unfold api_routes. cbn [fmap list_fmap fst snd]. repeat first [apply Forall_nil_2|apply Forall_cons_2|progress cbv beta; cbn [snd]].
  all: intros ctx ps req; cbn [fst snd]; audit_walk; unfold audited; eauto.
Qed.

Definition no_silent_change (c : ApiCall) : Prop := is_mutation c = true -> is_ingest c = true.
Definition kept_or_api (st : AppState) (req : Request) (p : Plan) : Prop :=
  plan_all no_silent_change p \/ exists hs ps, find_route api_routes (rq_path req) = Some (hs, ps) /\ p = serve_api st hs ps req.

Lemma handle_cases (now uptime : Z) (available : bool) (files : option (Request -> Response)) (st : AppState) (req : Request) :
  kept_or_api st req (handle now uptime available files st req).2.
Proof.
  unfold handle, kept_or_api. set (path := of_bytes (rq_path req)).
  destruct (bool_decide (path = "/api/health"%string)); [left; by destruct (is_get _)|].
  destruct (bool_decide (path = "/api/stream"%string)).
  { left. destruct (is_get _); [|done]. cbn [snd]. unfold ws_handler. repeat (case_match; try done); plan_walk; done. }
  destruct (bool_decide (path = "/api/agent/stream"%string)).
  { left. destruct (is_get _); [|done]. unfold sse_handler. repeat (case_match; try done); cbn [snd]; plan_walk; done. }
  destruct (bool_decide (path = "/metrics"%string)); [left; destruct (is_get _); [|done]; cbn [snd]; plan_walk; done|].
  destruct (ig_enabled (as_ingest st) && _).
  { left. destruct (negb _); [done|]. destruct (_ <? _)%nat; [done|]. unfold post_ingest_logs. destruct (push_rate_limit_ok _ _ _) as [l ok].
    repeat (case_match; try done); cbn [snd]; plan_walk; done. }
  destruct (find_route api_routes (rq_path req)) as [[hs ps]|]; [right; by exists hs, ps|by left].
Qed.

(** C17: Every change made through the interface is on record: a request that caused
    a call that changes something, other than pushing log lines, wrote exactly
    one audit record, under the admin token, with the status it was answered. *)
Theorem changes_audited {S} `{UiApiHandle S} (now uptime : Z) (available : bool) (files : option (Request -> Response)) (st st' : AppState) (req : Request)
  (s s' : S) (calls : list ApiCall) (r : Response) (log : list AuditRecord) (c : ApiCall)
  (Hs : serve now uptime available files st req s = (st', (s', calls, r, log))) (Hc : c ∈ calls) (Hm : is_mutation c = true) (Hi : is_ingest c = false) :
  exists op subject, log = [{| au_op := op; au_subject := subject; au_source := client_source (rq_headers req) TAdmin; au_token := "admin";
    au_status := Some (rs_status r); au_outcome := if is_success (rs_status r) then "ok" else "error" |}].
Proof.
  unfold serve in Hs. pose proof (handle_cases now uptime available files st req) as Hk. destruct (handle _ _ _ _ _ _) as [st1 p]. cbn [snd] in Hk.
  injection Hs as -> Hrun. destruct Hk as [Hn|(hs & ps & Hf & ->)].
  { pose proof (run_plan_calls _ p s Hn) as Hall. rewrite Hrun in Hall. cbn in Hall. rewrite Forall_forall in Hall. by rewrite (Hall c Hc Hm) in Hi. }
  unfold serve_api in Hrun. destruct (require_auth st req) as [ctx|[r0 l0]] eqn:Ea; [|injection Hrun as _ <- _ _; by apply not_elem_of_nil in Hc].
  destruct (pick (rq_method req) hs) as [h|] eqn:Ep; [|injection Hrun as _ <- _ _; by apply not_elem_of_nil in Hc].
  assert (ac_source ctx = client_source (rq_headers req) (ac_token ctx)) as Hsrc.
  { clear -Ea. unfold require_auth in Ea. repeat (case_match; try done). injection Ea as <-. done. }
  assert (ac_token ctx = TAdmin) as Hk.
  { apply require_auth_ok in Ea as (t & _ & _ & Hr). destruct (ac_token ctx) eqn:Ek; [done|]. exfalso.
    pose proof (run_plan_calls _ (h ctx ps req) s (read_handlers _ _ hs ps h ctx req Hf Ep (Hr eq_refl))) as Hall. rewrite Hrun in Hall.
    cbn in Hall. rewrite Forall_forall in Hall. destruct (Hall c Hc) as [Hn _]. congruence. }
  pose proof all_audited as Hall. rewrite Forall_forall in Hall. apply find_route_in in Hf as (pat & Hin & _). specialize (Hall _ Hin).
  rewrite Forall_forall in Hall. apply pick_in in Ep. specialize (Hall _ Ep ctx ps req). cbn [snd] in Hall.
  destruct (run_plan_audited ctx (h ctx ps req) s c Hall) as (op & subject & Hlog); [by rewrite Hrun|done|].
  rewrite Hrun in Hlog. cbn in Hlog. rewrite Hlog. exists op. unfold audit_record. rewrite Hsrc, Hk. by eexists.
Qed.
End auditing.

(** ** Limits *)
(** Opening and closing streams, with what else happens in between. *)
Lemma handle_streams `{Extract} `{AddrText} `{IpNetOps} `{JsonText} `{UnicodeLower} (now uptime : Z) (available : bool) (files : option (Request -> Response))
    (st : AppState) (req : Request) :
  let st' := (handle now uptime available files st req).1 in
  as_max_streams st' = as_max_streams st /\
  (as_active_streams st <= Nat.max (as_max_streams st) 1 -> as_active_streams st' <= Nat.max (as_max_streams st) 1)%nat.
Proof.
  unfold handle. set (path := of_bytes (rq_path req)).
  destruct (bool_decide (path = "/api/health"%string)); [by destruct (is_get _)|].
  destruct (bool_decide (path = "/api/stream"%string)); [by destruct (is_get _)|].
  destruct (bool_decide (path = "/api/agent/stream"%string)).
  { destruct (is_get _); [|done]. unfold sse_handler. destruct (bearer _); [|done]. destruct (classify_token st _); [|done]. destruct (negb available); [done|].
    destruct (Nat.leb_spec (Nat.max (as_max_streams st) 1) (as_active_streams st)); cbn; [done|]. split; [done|lia]. }
  destruct (bool_decide (path = "/metrics"%string)); [by destruct (is_get _)|].
  destruct (ig_enabled (as_ingest st) && _).
  { destruct (negb _); [done|]. destruct (_ <? _)%nat; [done|]. unfold post_ingest_logs. destruct (push_rate_limit_ok _ _ _) as [l ok]. by repeat (case_match; try done). }
  by destruct (find_route api_routes (rq_path req)) as [[hs ps]|].
Qed.

(** The times at which pushes are let through. *)
Fixpoint pushes (max : Z) (limiter : Z * Z) (times : list Z) : list Z :=
  match times with
  | [] => []
  | t :: times' => let '(limiter, ok) := push_rate_limit_ok t limiter max in (if ok then [t] else []) ++ pushes max limiter times'
  end.
Definition in_second (t0 t : Z) : bool := (t0 <=? t) && (t <? t0 + nanos_per_sec).

Section rate.
Context (max t0 : Z) (Hmax : 0 <= max).
(** [a] let through so far in the second from [t0]. *)
Definition on_track (a : Z) (limiter : Z * Z) : Prop :=
  0 <= limiter.2 <= max /\ a <= limiter.2 + (if t0 <=? limiter.1 then max else 0).

Lemma push_on_track (t a : Z) (limiter limiter' : Z * Z) (ok : bool) : 0 <= a -> t < t0 + nanos_per_sec -> (t < t0 -> a = 0) -> on_track a limiter ->
  push_rate_limit_ok t limiter max = (limiter', ok) -> on_track (if ok && in_second t0 t then a + 1 else a) limiter'.
Proof using Hmax.
  unfold push_rate_limit_ok, on_track, in_second. destruct limiter as [start count]. cbn [fst snd]. intros Ha Ht H0 [Hc Hb] Hp.
  destruct (Z.leb_spec nanos_per_sec (t - start)).
  - destruct (Z.leb_spec max 0); injection Hp as <- <-; cbn [fst snd andb]; destruct (Z.leb_spec t0 t), (Z.leb_spec t0 start), (Z.ltb_spec t (t0 + nanos_per_sec)); cbn; lia.
  - destruct (Z.leb_spec max count); injection Hp as <- <-; cbn [fst snd andb]; destruct (Z.leb_spec t0 t), (Z.leb_spec t0 start), (Z.ltb_spec t (t0 + nanos_per_sec)); cbn; lia.
Qed.

Lemma pushes_late (limiter : Z * Z) (times : list Z) : Forall (fun t => t0 + nanos_per_sec <= t) times -> List.filter (in_second t0) (pushes max limiter times) = [].
Proof using.
  intros Ht. revert limiter. induction Ht as [|t times Ht _ IH]; intros limiter; [done|]. cbn [pushes]. destruct (push_rate_limit_ok t limiter max) as [l ok].
  rewrite List.filter_app, IH, app_nil_r. destruct ok; [|done]. simpl. unfold in_second. destruct (Z.ltb_spec t (t0 + nanos_per_sec)); [lia|]. by rewrite andb_false_r.
Qed.

Lemma pushes_bounded (limiter : Z * Z) (times : list Z) (a : Z) : 0 <= a -> StronglySorted Z.le times -> (Exists (fun t => t < t0) times -> a = 0) -> on_track a limiter ->
  a + Z.of_nat (length (List.filter (in_second t0) (pushes max limiter times))) <= 2 * max.
Proof using Hmax.
  revert limiter a. induction times as [|t times IH]; intros limiter a Ha Hs H0 Ho.
  { destruct Ho as [Hc Hb]. cbn. destruct (t0 <=? limiter.1); lia. }
  apply StronglySorted_inv in Hs as [Hs Hall]. cbn [pushes]. destruct (push_rate_limit_ok t limiter max) as [l ok] eqn:Ep.
  destruct (Z.lt_ge_cases t (t0 + nanos_per_sec)) as [Hlt|Hge].
  - assert (t < t0 -> a = 0) as H0' by (intros; apply H0; by left). pose proof (push_on_track t a limiter l ok Ha Hlt H0' Ho Ep) as Ho'.
    rewrite List.filter_app, length_app. destruct (ok && in_second t0 t) eqn:Ei.
    + apply andb_true_iff in Ei as [-> Ei]. cbn [List.filter]. rewrite Ei. cbn [length].
      assert (Exists (fun t => t < t0) times -> a + 1 = 0) as H1.
      { intros Hx. exfalso. apply Exists_exists in Hx as (x & Hx & Hlx). rewrite Forall_forall in Hall. specialize (Hall x Hx). unfold in_second in Ei. lia. }
      specialize (IH l (a + 1) ltac:(lia) Hs H1 Ho'). lia.
    + assert (List.filter (in_second t0) (if ok then [t] else []) = []) as -> by (destruct ok; [cbn in *; by rewrite Ei|done]). cbn [length].
      apply IH; [done|done| |done]. intros Hx. apply H0. by right.
  - change (t :: times) with ([t] ++ times) in *. pose proof (pushes_late limiter (t :: times)) as Hl. cbn [pushes] in Hl. rewrite Ep in Hl. rewrite Hl.
    + destruct Ho as [Hc Hb]. cbn. destruct (t0 <=? limiter.1); lia.
    + constructor; [done|]. eapply Forall_impl; [exact Hall|]. cbn. lia.
Qed.
End rate.

(** Pushed log lines are throttled: whatever the clients send, and whenever, at
    most twice the configured number of pushes is let through in any second. *)
Theorem push_rate_bounded (max start t0 : Z) (times : list Z) (Hmax : 0 <= max) (Hs : StronglySorted Z.le times) :
  Z.of_nat (length (List.filter (in_second t0) (pushes max (start, 0) times))) <= 2 * max.
Proof.
  apply (pushes_bounded max t0 Hmax (start, 0) times 0); [lia|done|done|]. unfold on_track. cbn. split; [lia|]. destruct (t0 <=? start); lia.
Qed.

(** ** A sample server *)
Module RestSample.
#[local] Existing Instance ipnet_ref.
#[local] Instance addr : AddrText := {| parse_ip _ := Some (IpV4 (ipv4 9 9 9 9)); parse_net _ := None |}.
#[local] Instance lower : UnicodeLower := to_ascii_lowercase.
#[local] Instance json : JsonText := {| json_of_text _ := None; json_to_text _ := [] |}.
Definition ban : BanRequest := {| br_subject := NetV4 (ipv4 9 9 9 9) 32; br_duration := secs 60; br_reason := "" |}.
#[local] Instance extract : Extract := {|
  ex_ban_request _ := Ok ban; ex_json _ := Ok VNull; ex_json_field _ req := Ok (rq_body req); ex_json_fail2ban _ := Ok (None, None);
  ex_query _ := Ok []; ex_query_fail2ban _ := Ok (None, None); ex_query_kind _ := Ok None; ex_path p := Ok p; percent_decode_utf8 := Some |}.
(** A daemon that counts the changes. *)
#[local] Instance daemon : UiApiHandle nat := fun c n => if is_mutation c then (S n, ANone) else (n, AValue VNull).
#[local] Instance daemon_laws : UiApiLaws daemon.
Proof. intros c n Hc. unfold api_call, daemon. by rewrite Hc. Qed.

Definition app : AppState := {|
  as_auth_token := as_bytes "admin-T"; as_read_token := Some (as_bytes "read-T");
  as_ingest := {| ig_enabled := true; ig_token := Some (as_bytes "push-T"); ig_parser := as_bytes "auto"; ig_rate_limit_per_sec := 2; ig_max_request_bytes := 64;
                  ig_rate_limiter := (0, 0) |};
  as_max_streams := 1; as_active_streams := 0 |}.
Definition request (m : Method) (path token : string) : Request :=
  {| rq_method := m; rq_path := as_bytes path;
     rq_headers := {| h_authorization := Some (as_bytes ("Bearer " +:+ token)); h_user_agent := None; h_ws_protocol := None |}; rq_body := as_bytes "9.9.9.9" |}.
Definition answer (m : Method) (path token : string) : nat * list ApiCall * Z :=
  let '(_, (n, calls, r, _)) := serve 5 0 true None app (request m path token) 0%nat in (n, calls, rs_status r).

Example answers :
  answer DELETE "/api/bans/9.9.9.9" "admin-T" = (1%nat, [CRemoveBan (NetV4 (ipv4 9 9 9 9) 32)], 204) /\
  answer DELETE "/api/bans/9.9.9.9" "read-T" = (0%nat, [], 403) /\ answer DELETE "/api/bans/9.9.9.9" "guess" = (0%nat, [], 401) /\
  answer POST "/api/agent/logs/query" "read-T" = (0%nat, [CAgentLogQuery VNull], 200) /\
  answer GET "/api/fail2ban/preview" "read-T" = (0%nat, [], 403) /\
  answer POST "/api/ingest/logs" "push-T" = (1%nat, [CIngestLogs [as_bytes "9.9.9.9"] (as_bytes "auto")], 200) /\
  answer POST "/api/ingest/logs" "admin-T" = (0%nat, [], 401) /\ answer GET "/api/nothing" "admin-T" = (0%nat, [], 404) /\
  answer PUT "/api/info" "admin-T" = (0%nat, [], 405).
Proof. vm_compute. repeat split. Qed.

Lemma calls_authorised_witness :
  let '(_, (s', calls, _, _)) := serve 5 0 true None app (request DELETE "/api/bans/9.9.9.9" "read-T") 0%nat in
  Forall (authorised app (request DELETE "/api/bans/9.9.9.9" "read-T")) calls /\
  (s' = 0%nat \/ by_admin app (request DELETE "/api/bans/9.9.9.9" "read-T") \/ by_pusher app (request DELETE "/api/bans/9.9.9.9" "read-T")).
Proof. apply (calls_authorised 5 0 true None app (request DELETE "/api/bans/9.9.9.9" "read-T") 0%nat). Defined.

Lemma changes_audited_witness :
  let '(_, (s', calls, r, log)) := serve 5 0 true None app (request DELETE "/api/bans/9.9.9.9" "admin-T") 0%nat in
  s' = 1%nat /\ exists op subject, log = [{| au_op := op; au_subject := subject; au_source := "rest"; au_token := "admin"; au_status := Some 204; au_outcome := "ok" |}].
Proof.
  destruct (serve 5 0 true None app (request DELETE "/api/bans/9.9.9.9" "admin-T") 0%nat) as [st' [[[s' calls] r] log]] eqn:E.
  pose proof E as E'. vm_compute in E'. injection E' as _ <- Hcalls Hr _. split; [reflexivity|].
  assert (rs_status r = 204) as Hst by (rewrite <- Hr; reflexivity).
  destruct (changes_audited 5 0 true None app st' (request DELETE "/api/bans/9.9.9.9" "admin-T") 0%nat 1%nat calls r log (CRemoveBan (NetV4 (ipv4 9 9 9 9) 32)) E)
    as (op & subject & Hlog); [rewrite <- Hcalls; left|reflexivity|reflexivity|]. exists op, subject. rewrite Hst in Hlog. exact Hlog.
Defined.

(** Two pushes a second are allowed; four come through within a millisecond,
    at the end of one second and the beginning of the next. *)
Definition burst : list Z := [999000000; 999100000; 1000000000; 1000100000; 1000200000].
Lemma push_rate_bounded_witness :
  pushes 2 (0, 0) burst = [999000000; 999100000; 1000000000; 1000100000] /\
  Z.of_nat (length (List.filter (in_second 999000000) (pushes 2 (0, 0) burst))) <= 2 * 2.
Proof.
  split; [vm_compute; reflexivity|]. apply (push_rate_bounded 2 0 999000000 burst); [lia|]. unfold burst. repeat constructor; lia.
Defined.
End RestSample.
