(* ===== verification/AgentView.v ===== *)
(** * What agents see of bans and detections ([hiveguard-daemon/src/agent_api.rs])

    The filters and overviews of bans and detections, the live events, the view
    of the detectors and the check of a configuration that is not written. The
    iteration order of hash maps is the parameter [AnyOrder]. *)
From stdpp Require Import pretty.
From S2P Require Import Prelude Text Models Floats Detector SshLog LogParsers PluginConfig Secrets Host Nftables AgentScan AgentLogs Durations Config Admin Redact.
Local Open Scope Z_scope.
Local Open Scope rust_scope.

(** Some order of the elements. *)
Class AnyOrder : Type := hash_order : forall A : Type, list A -> list A.
Arguments hash_order {_ _} _.
Class AnyOrderLaws `{AnyOrder} : Prop := hash_order_perm (A : Type) (l : list A) : hash_order l ≡ₚ l.

(** ** Parameters *)
Section parameters.
Context `{AgentDates} `{JsonText}.

Definition p_str (params : Value) (key : string) : option bytes :=
  match get key params with
  | Some (VString s) => if bool_decide (trim s = []) then None else Some (trim s)
  | Some (VNumber n) => Some n
  | Some (VBool b) => Some (bool_text b)
  | _ => None
  end.
Definition p_bool (params : Value) (key : string) : result bool AgentError :=
  let wrong (t : bytes) := bad ("`" +:+ key +:+ "`: expected boolean, got " +:+ of_bytes t) in
  match get key params with
  | None | Some VNull => Ok false
  | Some (VBool b) => Ok b
  | Some (VString s) =>
      let t := of_bytes (to_ascii_lowercase s) in
      if bool_decide (t ∈ ["1"; "true"; "yes"; "on"]%string) then Ok true
      else if bool_decide (t ∈ ["0"; "false"; "no"; "off"; ""]%string) then Ok false
      else wrong (as_bytes ("`" +:+ t +:+ "`"))
  | Some other => wrong (json_to_text other)
  end.
Definition p_usize (params : Value) (key : string) (dflt max : Z) : result Z AgentError :=
  let wrong := bad ("`" +:+ key +:+ "` must be a non-negative integer") in
  match get key params with
  | None | Some VNull => Ok dflt
  | Some (VNumber n) => match as_u64 (VNumber n) with Some k => Ok (Z.min k max) | None => wrong end
  | Some (VString s) => match parse_uint u64_max (trim s) with Some k => Ok (Z.min k max) | None => wrong end
  | Some other => bad ("`" +:+ key +:+ "`: unexpected value " +:+ of_bytes (json_to_text other))
  end.
Definition p_time (params : Value) (key : string) (now : DateTime) : result (option DateTime) AgentError :=
  match p_str params key with
  | None => Ok None
  | Some s => match parse_time_spec s now with Ok t => Ok (Some t) | Err e => bad ("`" +:+ key +:+ "`: " +:+ e) end
  end.
End parameters.

(** ** Bans *)
Definition source_kind (s : BanSource) : string := match s with LocalDetector _ => "detector" | ClusterPeer _ => "peer" | ManualAdmin => "admin" end.
Definition is_subnet (n : IpNet) : bool := (prefix_len n <? net_width n)%nat.
Definition count_key (k : bytes) (m : gmap bytes Z) : gmap bytes Z := <[k := default 0 (m !! k) + 1]> m.
Definition count_keys (ks : list bytes) : gmap bytes Z := foldl (fun m k => count_key k m) ∅ ks.
(** Sorted by count, and then, as every JSON object, by key. *)
Definition sorted_counts (m : gmap bytes Z) : Value :=
  VObject ((fun kv : bytes * Z => (kv.1, JNum kv.2)) <$> merge_sort earlier_key (merge_sort (more_frequent id) (map_to_list m))).
Definition detector_of (r : BanRecord) : option bytes := match source r with LocalDetector d => Some (as_bytes d) | _ => None end.
Definition source_counts (rs : list BanRecord) : gmap bytes Z := count_keys ((fun r => as_bytes (source_kind (source r))) <$> rs).
Definition detector_counts (rs : list BanRecord) : gmap bytes Z := count_keys (omap detector_of rs).

Definition HOUR : Duration := secs 3600.
Definition count_if {A} (f : A -> bool) (l : list A) : Z := Z.of_nat (length (List.filter f l)).
Definition bans_overview (rs : list BanRecord) (now : DateTime) : Value :=
  obj [("total", JNum (Z.of_nat (length rs))); ("permanent", JNum (count_if (fun r => bool_decide (expires_at r = None)) rs));
       ("subnets", JNum (count_if (fun r => is_subnet (subject r)) rs));
       ("expiring_1h", JNum (count_if (fun r => match expires_at r with Some e => (e <=? now + HOUR)%Z | None => false end) rs));
       ("created_1h", JNum (count_if (fun r => (now - HOUR <=? created_at r)%Z) rs));
       ("created_24h", JNum (count_if (fun r => (now - 24 * HOUR <=? created_at r)%Z) rs));
       ("by_source", sorted_counts (source_counts rs)); ("by_detector", sorted_counts (detector_counts rs))]%string.

(** [Ord] of a network: the family, the address, the length. *)
Definition net_leb (a b : IpNet) : bool :=
  match a, b with
  | NetV4 x p, NetV4 y q | NetV6 x p, NetV6 y q => (x <? y) || ((x =? y) && (p <=? q)%nat)
  | NetV4 _ _, NetV6 _ _ => true
  | NetV6 _ _, NetV4 _ _ => false
  end.
Definition opt_leb (a b : option Z) : bool := match a, b with None, _ => true | Some _, None => false | Some x, Some y => x <=? y end.
Inductive BanSort : Type := ByCreated | ByExpires | BySeverity | BySubject.
Definition ban_leb (s : BanSort) (a b : BanRecord) : bool :=
  match s with
  | ByExpires => opt_leb (expires_at a) (expires_at b)
  | BySeverity => severity a <=? severity b
  | BySubject => net_leb (subject a) (subject b)
  | ByCreated => created_at a <=? created_at b
  end.
Definition ban_order (s : BanSort) (desc : bool) (a b : BanRecord) : Prop := (if desc then ban_leb s b a else ban_leb s a b) = true.
#[export] Instance ban_order_dec (s : BanSort) (desc : bool) (a b : BanRecord) : Decision (ban_order s desc a b).
Proof. unfold ban_order. apply _. Defined.

Record BanQuery : Type := {
  bq_source : option bytes; bq_detector : option bytes; bq_since : option DateTime; bq_until : option DateTime; bq_subnet_only : bool;
  bq_permanent_only : bool; bq_q : option bytes; bq_sort : BanSort; bq_desc : bool; bq_limit : Z; bq_offset : Z;
}.
Definition sort_of (s : bytes) : result BanSort AgentError :=
  if bool_decide (s = as_bytes "created_at") then Ok ByCreated else if bool_decide (s = as_bytes "expires_at") then Ok ByExpires
  else if bool_decide (s = as_bytes "severity") then Ok BySeverity else if bool_decide (s = as_bytes "subject") then Ok BySubject
  else bad ("`sort` must be one of created_at|expires_at|severity|subject, got `" +:+ of_bytes s +:+ "`").
Definition usize_max : Z := 2 ^ 64 - 1.

(** A ban as it is shown. *)
Record BanView : Type := {
  bv_subject : string; bv_severity : Z; bv_reason : string; bv_expires_at : option string; bv_source : string; bv_created_at : option string;
}.

Section bans.
Context `{AgentDates} `{JsonText} `{IpNetOps} `{ApiText}.

Definition ban_query (params : Value) (now : DateTime) (max_results : Z) : result BanQuery AgentError :=
  let src := to_ascii_lowercase <$> p_str params "source" in
  let? _ := (match src with
             | Some s => if bool_decide (s ∈ as_bytes <$> ["detector"; "peer"; "admin"]%string) then Ok tt
                         else bad ("`source` must be one of detector|peer|admin, got `" +:+ of_bytes s +:+ "`")
             | None => Ok tt
             end) in
  let? since := p_time params "since" now in
  let? until := p_time params "until" now in
  let? subnet_only := p_bool params "subnet_only" in
  let? permanent_only := p_bool params "permanent_only" in
  let? sort := sort_of (default (as_bytes "created_at") (p_str params "sort")) in
  let order := to_ascii_lowercase (default (as_bytes "desc") (p_str params "order")) in
  let? desc := (if bool_decide (order = as_bytes "desc") then Ok true else if bool_decide (order = as_bytes "asc") then Ok false
                else bad "`order` must be asc|desc") in
  let? limit := p_usize params "limit" 100 max_results in
  let? offset := p_usize params "offset" 0 usize_max in
  Ok {| bq_source := src; bq_detector := p_str params "detector"; bq_since := since; bq_until := until; bq_subnet_only := subnet_only;
        bq_permanent_only := permanent_only; bq_q := to_ascii_lowercase <$> p_str params "q"; bq_sort := sort; bq_desc := desc; bq_limit := limit;
        bq_offset := offset |}.

Definition holds_opt {A} (f : A -> bool) (o : option A) : bool := match o with Some a => f a | None => true end.
Definition ban_matches (q : BanQuery) (r : BanRecord) : bool :=
  holds_opt (fun s => bool_decide (as_bytes (source_kind (source r)) = s)) (bq_source q) &&
  holds_opt (fun d => bool_decide (detector_of r = Some d)) (bq_detector q) &&
  holds_opt (fun t => t <=? created_at r) (bq_since q) && holds_opt (fun t => created_at r <=? t) (bq_until q) &&
  (negb (bq_subnet_only q) || is_subnet (subject r)) && (negb (bq_permanent_only q) || bool_decide (expires_at r = None)) &&
  holds_opt (fun s => contains s (as_bytes (net_to_string (subject r))) || contains s (to_ascii_lowercase (as_bytes (reason r)))) (bq_q q).

Definition ban_matched (q : BanQuery) (rs : list BanRecord) : list BanRecord := List.filter (ban_matches q) rs.
Definition ban_sorted (q : BanQuery) (rs : list BanRecord) : list BanRecord := merge_sort (ban_order (bq_sort q) (bq_desc q)) (ban_matched q rs).
Definition ban_page (q : BanQuery) (rs : list BanRecord) : list BanRecord := take (Z.to_nat (bq_limit q)) (drop (Z.to_nat (bq_offset q)) (ban_sorted q rs)).

Definition ban_record_to_view (r : BanRecord) : BanView := {|
  bv_subject := net_to_string (subject r); bv_severity := severity r; bv_reason := reason r; bv_expires_at := rfc3339 <$> expires_at r;
  bv_source := match source r with LocalDetector d => "detector:" +:+ d | ClusterPeer p => "peer:" +:+ p | ManualAdmin => "admin" end;
  bv_created_at := Some (rfc3339 (created_at r)) |}.
Definition ban_view_json (b : BanView) : Value :=
  obj [("subject", JStr (bv_subject b)); ("severity", JNum (bv_severity b)); ("reason", JStr (bv_reason b)); ("expires_at", JOpt JStr (bv_expires_at b));
       ("source", JStr (bv_source b)); ("created_at", JOpt JStr (bv_created_at b))]%string.

Definition filter_bans (rs : list BanRecord) (params : Value) (now : DateTime) (max_results : Z) : result Value AgentError :=
  let? q := ban_query params now max_results in
  let matched := ban_matched q rs in
  Ok (obj [("total", JNum (Z.of_nat (length rs))); ("matched", JNum (Z.of_nat (length matched))); ("limit", JNum (bq_limit q)); ("offset", JNum (bq_offset q));
           ("by_source", sorted_counts (source_counts matched)); ("by_detector", sorted_counts (detector_counts matched));
           ("items", VArray ((fun r => ban_view_json (ban_record_to_view r)) <$> ban_page q rs))]%string).
End bans.

(** ** Detections *)
Record ThreatView : Type := {
  tv_ip : string; tv_severity : Z; tv_confidence : Z; tv_detector : string; tv_reason : string; tv_timestamp : string;
}.
Record IpAgg : Type := { ia_count : Z; ia_max_severity : Z; ia_detectors : gmap bytes Z; ia_first : option DateTime; ia_last : option DateTime }.
Definition agg_new : IpAgg := {| ia_count := 0; ia_max_severity := 0; ia_detectors := ∅; ia_first := None; ia_last := None |}.
(** More detections first, then higher severity. *)
Definition agg_before (a b : bytes * IpAgg) : Prop :=
  ia_count b.2 < ia_count a.2 \/ (ia_count a.2 = ia_count b.2 /\ ia_max_severity b.2 <= ia_max_severity a.2).
#[export] Instance agg_before_dec (a b : bytes * IpAgg) : Decision (agg_before a b).
Proof. unfold agg_before. apply _. Defined.

Section threats.
Context `{AgentDates} `{JsonText} `{IpNetOps} `{AddrText} `{ApiText} `{AnyOrder}.

Definition signal_to_threat_info (s : DetectionSignal) : ThreatView := {|
  tv_ip := ip_to_string (net_addr (sig_source_ip s)); tv_severity := sig_severity s;
  tv_confidence := sf_to_uint 255 (f32_mul (sf_clamp (sig_confidence s) (f32_of_uint 0) (f32_of_uint 1)) (f32_of_uint 100));
  tv_detector := sig_detector_name s; tv_reason := sig_reason s; tv_timestamp := rfc3339 (sig_timestamp s) |}.
Definition threat_time (t : ThreatView) : option DateTime := ad_rfc3339 (as_bytes (tv_timestamp t)).

Definition agg_add (t : ThreatView) (a : IpAgg) : IpAgg :=
  let ts := threat_time t in
  {| ia_count := ia_count a + 1; ia_max_severity := Z.max (ia_max_severity a) (tv_severity t);
     ia_detectors := count_key (as_bytes (tv_detector t)) (ia_detectors a); ia_first := touch_min (ia_first a) ts; ia_last := touch_max (ia_last a) ts |}.
Definition aggregate (ts : list ThreatView) : gmap bytes IpAgg :=
  foldl (fun m t => let ip := as_bytes (tv_ip t) in <[ip := agg_add t (default agg_new (m !! ip))]> m) ∅ ts.
Definition ranking (ts : list ThreatView) : list (bytes * IpAgg) := merge_sort agg_before (hash_order (map_to_list (aggregate ts))).
Definition top_ips (ts : list ThreatView) (top : nat) : Value :=
  VArray ((fun ka : bytes * IpAgg =>
    obj [("ip", VString ka.1); ("count", JNum (ia_count ka.2)); ("max_severity", JNum (ia_max_severity ka.2));
         ("detectors", VArray ((fun kv : bytes * Z => VString kv.1) <$> merge_sort earlier_key (map_to_list (ia_detectors ka.2))));
         ("first_seen", JOpt fmt_ts (ia_first ka.2)); ("last_seen", JOpt fmt_ts (ia_last ka.2))]%string)
    <$> take top (ranking ts)).
Definition by_detector (ts : list ThreatView) : Value := sorted_counts (count_keys ((fun t => as_bytes (tv_detector t)) <$> ts)).

Definition threats_overview (ts : list ThreatView) (now : DateTime) : Value :=
  let since (d : Duration) := count_if (fun t => match threat_time t with Some x => now - d <=? x | None => false end) ts in
  obj [("buffered", JNum (Z.of_nat (length ts))); ("last_1h", JNum (since HOUR)); ("last_24h", JNum (since (24 * HOUR)%Z));
       ("by_detector", by_detector ts); ("top_ips", top_ips ts 10)]%string.

Record ThreatQuery : Type := {
  tq_since : DateTime; tq_until : option DateTime; tq_detector : option bytes; tq_ip : option IpNet; tq_min_severity : Z; tq_limit : Z; tq_offset : Z;
}.
Definition threat_query (params : Value) (now : DateTime) (max_results : Z) : result ThreatQuery AgentError :=
  let? since := p_time params "since" now in
  let? until := p_time params "until" now in
  let? ip := (match p_str params "ip" with
              | None => Ok None
              | Some s => match parse_net s with
                          | Some n => Ok (Some n)
                          | None => match parse_ip s with Some a => Ok (Some (ip_to_net a)) | None => bad ("`ip`: not an IP or CIDR: `" +:+ of_bytes s +:+ "`") end
                          end
              end) in
  let? min_severity := p_usize params "min_severity" 0 255 in
  let? limit := p_usize params "limit" 200 max_results in
  let? offset := p_usize params "offset" 0 usize_max in
  Ok {| tq_since := default (now - HOUR) since; tq_until := until; tq_detector := p_str params "detector"; tq_ip := ip; tq_min_severity := min_severity;
        tq_limit := limit; tq_offset := offset |}.
(** A time that cannot be read counts as inside the window. *)
Definition threat_matches (q : ThreatQuery) (t : ThreatView) : bool :=
  let ts := threat_time t in
  holds_opt (fun x => tq_since q <=? x) ts && holds_opt (fun u => holds_opt (fun x => x <=? u) ts) (tq_until q) &&
  holds_opt (fun d => bool_decide (as_bytes (tv_detector t) = d)) (tq_detector q) &&
  holds_opt (fun net => match parse_ip (as_bytes (tv_ip t)) with Some a => net_contains net a | None => false end) (tq_ip q) &&
  (tq_min_severity q <=? tv_severity t).
Definition threat_json (t : ThreatView) : Value :=
  obj [("ip", JStr (tv_ip t)); ("severity", JNum (tv_severity t)); ("confidence", JNum (tv_confidence t)); ("detector", JStr (tv_detector t));
       ("reason", JStr (tv_reason t)); ("timestamp", JStr (tv_timestamp t))]%string.
Definition filter_threats (ts : list ThreatView) (params : Value) (now : DateTime) (max_results : Z) : result Value AgentError :=
  let? q := threat_query params now max_results in
  let matched := List.filter (threat_matches q) ts in
  Ok (obj [("buffered", JNum (Z.of_nat (length ts))); ("matched", JNum (Z.of_nat (length matched))); ("limit", JNum (tq_limit q)); ("offset", JNum (tq_offset q));
           ("window", obj [("since", fmt_ts (tq_since q)); ("until", JOpt fmt_ts (tq_until q))]); ("by_detector", by_detector matched);
           ("top_ips", top_ips matched 25);
           ("items", VArray (threat_json <$> take (Z.to_nat (tq_limit q)) (drop (Z.to_nat (tq_offset q)) matched)))]%string).

(** ** Live events *)
Inductive AgentEvent : Type := ESignal (t : ThreatView) | EBanAdded (b : BanView) | EBanRemoved (subject : string).
Definition event_kind (e : AgentEvent) : string := match e with ESignal _ => "signal" | EBanAdded _ => "ban_added" | EBanRemoved _ => "ban_removed" end.
Definition THREATS_BUFFER_CAP : nat := 500.
(** The recent detections, the oldest first, and the subjects of the last
    snapshot of the bans. *)
Record AgentFeed : Type := { af_threats : list ThreatView; af_last_subjects : option (gset string) }.
Definition feed_new : AgentFeed := {| af_threats := []; af_last_subjects := None |}.

Definition subjects (bs : list BanView) : gset string := list_to_set (bv_subject <$> bs).
(** [receivers]: how many streams are open. *)
Definition emit_ban_diff (receivers : nat) (current : list BanView) (f : AgentFeed) : AgentFeed * list AgentEvent :=
  let events := match af_last_subjects f with
                | Some prev =>
                    if (0 <? receivers)%nat
                    then (EBanAdded <$> List.filter (fun b => bool_decide (bv_subject b ∉ prev)) current) ++
                         (EBanRemoved <$> hash_order (elements (prev ∖ subjects current)))
                    else []
                | None => []
                end in
  ({| af_threats := af_threats f; af_last_subjects := Some (subjects current) |}, events).
Definition record_signal (s : DetectionSignal) (f : AgentFeed) : AgentFeed * list AgentEvent :=
  let info := signal_to_threat_info s in
  let buf := if (THREATS_BUFFER_CAP <=? length (af_threats f))%nat then tail (af_threats f) else af_threats f in
  ({| af_threats := buf ++ [info]; af_last_subjects := af_last_subjects f |}, [ESignal info]).
Definition list_threats (f : AgentFeed) : list ThreatView := rev (af_threats f).
End threats.

(** ** Pages *)
Lemma pages_concat {A} (k n : nat) (l : list A) : flat_map (fun i => take k (drop (i * k) l)) (seq 0 n) = take (n * k) l.
Proof.
  induction n as [|n IH]; [done|]. rewrite seq_S, flat_map_app, IH. cbn [flat_map Nat.add]. rewrite app_nil_r.
  replace (S n * k)%nat with (n * k + k)%nat by lia. by rewrite <- take_take_drop.
Qed.

Lemma net_leb_total (a b : IpNet) : net_leb a b = true \/ net_leb b a = true.
Proof. destruct a as [x p|x p], b as [y q|y q]; simpl; try (by left); try (by right); rewrite !orb_true_iff, !andb_true_iff, !Z.ltb_lt, !Z.eqb_eq, !Nat.leb_le; lia. Qed.
Lemma net_leb_trans (a b c : IpNet) : net_leb a b = true -> net_leb b c = true -> net_leb a c = true.
Proof. destruct a as [x p|x p], b as [y q|y q], c as [z r|z r]; simpl; try done; rewrite !orb_true_iff, !andb_true_iff, !Z.ltb_lt, !Z.eqb_eq, !Nat.leb_le; lia. Qed.
Lemma opt_leb_total (a b : option Z) : opt_leb a b = true \/ opt_leb b a = true.
Proof. destruct a, b; simpl; try (by left); try (by right); lia. Qed.
Lemma opt_leb_trans (a b c : option Z) : opt_leb a b = true -> opt_leb b c = true -> opt_leb a c = true.
Proof. destruct a, b, c; simpl; try done; lia. Qed.

#[export] Instance ban_order_total (s : BanSort) (desc : bool) : Total (ban_order s desc).
Proof.
  intros a b. unfold ban_order. assert (ban_leb s a b = true \/ ban_leb s b a = true) as Ht; [|destruct desc; tauto].
  destruct s; simpl; try lia; [apply opt_leb_total|apply net_leb_total].
Qed.
#[export] Instance ban_order_trans (s : BanSort) (desc : bool) : Transitive (ban_order s desc).
Proof.
  intros a b c. unfold ban_order. assert (forall x y z, ban_leb s x y = true -> ban_leb s y z = true -> ban_leb s x z = true) as Ht.
  { intros x y z. destruct s; simpl; try lia; [apply opt_leb_trans|apply net_leb_trans]. }
  destruct desc; eauto.
Qed.

Definition at_offset (q : BanQuery) (offset : Z) : BanQuery := {|
  bq_source := bq_source q; bq_detector := bq_detector q; bq_since := bq_since q; bq_until := bq_until q; bq_subnet_only := bq_subnet_only q;
  bq_permanent_only := bq_permanent_only q; bq_q := bq_q q; bq_sort := bq_sort q; bq_desc := bq_desc q; bq_limit := bq_limit q; bq_offset := offset |}.

(** Paging through the bans shows every match exactly once, in the order that
    was asked for: the pages at the offsets 0, limit, 2 limit, ... put together
    are the sorted matches. *)
Theorem ban_pages_exact `{IpNetOps} (q : BanQuery) (rs : list BanRecord) (n : nat) (Hlim : 0 < bq_limit q)
  (Hn : Z.of_nat (length (ban_matched q rs)) <= Z.of_nat n * bq_limit q) :
  let all := flat_map (fun i => ban_page (at_offset q (Z.of_nat i * bq_limit q)) rs) (seq 0 n) in
  all ≡ₚ ban_matched q rs /\ StronglySorted (ban_order (bq_sort q) (bq_desc q)) all.
Proof.
  assert (flat_map (fun i => ban_page (at_offset q (Z.of_nat i * bq_limit q)) rs) (seq 0 n) = ban_sorted q rs) as ->.
  { transitivity (flat_map (fun i => take (Z.to_nat (bq_limit q)) (drop (i * Z.to_nat (bq_limit q)) (ban_sorted q rs))) (seq 0 n)).
    - apply flat_map_ext. intros i. unfold ban_page. cbn [bq_limit bq_offset at_offset]. by rewrite (Z2Nat.inj_mul (Z.of_nat i)), Nat2Z.id by lia.
    - rewrite pages_concat. apply firstn_all2.
      assert (length (ban_sorted q rs) = length (ban_matched q rs)) as -> by apply Permutation_length, merge_sort_Permutation. nia. }
  split; [apply merge_sort_Permutation|apply StronglySorted_merge_sort; apply _].
Qed.

(** ** The ranking of addresses *)
Lemma aggregate_snoc `{AgentDates} (ts : list ThreatView) (t : ThreatView) :
  aggregate (ts ++ [t]) = <[as_bytes (tv_ip t) := agg_add t (default agg_new (aggregate ts !! as_bytes (tv_ip t)))]> (aggregate ts).
Proof. unfold aggregate. by rewrite foldl_app. Qed.

Definition from_ip (ip : bytes) (t : ThreatView) : bool := bool_decide (as_bytes (tv_ip t) = ip).
Lemma aggregate_exact `{AgentDates} (ts : list ThreatView) (ip : bytes) :
  aggregate ts !! ip = match List.filter (from_ip ip) ts with [] => None | mine => Some (foldl (fun a t => agg_add t a) agg_new mine) end.
Proof.
  induction ts as [|t ts IH] using rev_ind; [apply lookup_empty|]. rewrite aggregate_snoc, List.filter_app. cbn [List.filter]. unfold from_ip at 2.
  case_bool_decide as E.
  - subst ip. rewrite lookup_insert_eq, IH. destruct (List.filter _ ts) as [|x l]; [done|]. cbn [default app]. by rewrite app_comm_cons, foldl_app.
  - rewrite lookup_insert_ne, IH by done. by rewrite app_nil_r.
Qed.

#[export] Instance agg_before_total : Total agg_before.
Proof. intros a b. unfold agg_before. lia. Qed.
#[export] Instance agg_before_trans : Transitive agg_before.
Proof. intros a b c. unfold agg_before. lia. Qed.

Section ranking.
Context `{AgentDates} `{AnyOrder} `{laws : !AnyOrderLaws}.

Lemma ranking_elem (ts : list ThreatView) (ip : bytes) (a : IpAgg) : (ip, a) ∈ ranking ts <-> aggregate ts !! ip = Some a.
Proof using laws. unfold ranking. by rewrite merge_sort_Permutation, hash_order_perm, elem_of_map_to_list. Qed.

Lemma agg_count (ts : list ThreatView) (a : IpAgg) : ia_count (foldl (fun a t => agg_add t a) a ts) = ia_count a + Z.of_nat (length ts).
Proof using. revert a. induction ts as [|t ts IH]; intros a; cbn [foldl length]; [lia|]. rewrite IH. cbn. lia. Qed.

(** The addresses agents are shown first are those with the most detections,
    whatever order the hash map gave them: an address on the list has as many
    detections as the list says, and an address left out has no more. *)
Theorem top_ips_exact (ts : list ThreatView) (top : nat) (ip ip' : bytes) (a : IpAgg)
  (Hin : (ip, a) ∈ take top (ranking ts)) (Hout : ip' ∉ (take top (ranking ts)).*1) :
  ia_count a = count_if (from_ip ip) ts /\ 0 < ia_count a /\ count_if (from_ip ip') ts <= ia_count a.
Proof using laws.
  assert (forall x b, aggregate ts !! x = Some b -> ia_count b = count_if (from_ip x) ts /\ 0 < ia_count b) as Hcount.
  { intros x b Hb. rewrite aggregate_exact in Hb. unfold count_if. destruct (List.filter (from_ip x) ts) as [|t l]; [done|]. injection Hb as <-.
    change (agg_add t agg_new) with (agg_add t agg_new). pose proof (agg_count (t :: l) agg_new) as E. cbn [foldl ia_count agg_new] in E.
    cbn [length] in *. split; lia. }
  assert (aggregate ts !! ip = Some a) as Ha by (apply ranking_elem; by eapply subseteq_take).
  destruct (Hcount ip a Ha) as [E Hpos]. split_and!; [done|done|]. destruct (aggregate ts !! ip') as [a'|] eqn:Ea'.
  - destruct (Hcount ip' a' Ea') as [<- _]. apply ranking_elem in Ea'. pose proof (StronglySorted_merge_sort agg_before (hash_order (map_to_list (aggregate ts)))) as Hs.
    fold (ranking ts) in Hs. rewrite <- (take_drop top (ranking ts)) in Hs, Ea'. apply elem_of_app in Ea' as [Ht|Hd].
    + destruct Hout. apply list_elem_of_fmap. by exists (ip', a').
    + pose proof (StronglySorted_app_1_elem_of _ _ _ _ _ Hs Hin Hd) as Hb. unfold agg_before in Hb. cbn in Hb. lia.
  - rewrite aggregate_exact in Ea'. unfold count_if. destruct (List.filter (from_ip ip') ts); [cbn; lia|done].
Qed.
End ranking.

(** ** Following the events *)
(** What a subscriber does that keeps the set of bans: an event that does not
    fit what it knows is [None]. *)
Definition follow (known : option (gset string)) (e : AgentEvent) : option (gset string) :=
  s ← known;
  match e with
  | ESignal _ => Some s
  | EBanAdded b => if bool_decide (bv_subject b ∈ s) then None else Some ({[bv_subject b]} ∪ s)
  | EBanRemoved x => if bool_decide (x ∈ s) then Some (s ∖ {[x]}) else None
  end.

Lemma follow_added (bs : list BanView) (s : gset string) : NoDup (bv_subject <$> bs) -> Forall (fun b => bv_subject b ∉ s) bs ->
  foldl follow (Some s) (EBanAdded <$> bs) = Some (subjects bs ∪ s).
Proof.
  revert s. induction bs as [|b bs IH]; intros s; cbn [fmap list_fmap foldl]; [intros _ _; f_equal; set_solver|].
  intros [Hb Hnd]%NoDup_cons [Hs Hall]%Forall_cons. cbn [follow mbind option_bind]. rewrite bool_decide_eq_false_2 by done. rewrite IH; [|done|].
  - f_equal. unfold subjects. cbn. set_solver.
  - rewrite Forall_forall in Hall |- *. intros x Hx. apply not_elem_of_union. split; [|by apply Hall]. rewrite elem_of_singleton. intros E. apply Hb.
    rewrite <- E. by apply list_elem_of_fmap_2.
Qed.

Lemma follow_removed (xs : list string) (s : gset string) : NoDup xs -> (forall x, x ∈ xs -> x ∈ s) ->
  foldl follow (Some s) (EBanRemoved <$> xs) = Some (s ∖ list_to_set xs).
Proof.
  revert s. induction xs as [|x xs IH]; intros s; cbn [fmap list_fmap foldl]; [intros _ _; f_equal; set_solver|].
  intros [Hx Hnd]%NoDup_cons Hs. cbn [follow mbind option_bind]. rewrite bool_decide_eq_true_2 by (apply Hs; left). rewrite IH; [f_equal; set_solver|done|].
  intros y Hy. apply elem_of_difference. split; [apply Hs; by right|]. rewrite elem_of_singleton. congruence.
Qed.

(** What the daemon does while a stream is open. *)
Inductive FeedStep : Type := FSnapshot (bans : list BanView) (receivers : nat) | FSignal (s : DetectionSignal).
Section following.
Context `{AgentDates} `{IpNetOps} `{ApiText} `{AnyOrder} `{laws : !AnyOrderLaws}.

Definition feed_step (x : FeedStep) (f : AgentFeed) : AgentFeed * list AgentEvent :=
  match x with FSnapshot bans n => emit_ban_diff n bans f | FSignal s => record_signal s f end.
Fixpoint feed_run (xs : list FeedStep) (f : AgentFeed) : AgentFeed * list AgentEvent :=
  match xs with
  | [] => (f, [])
  | x :: xs' => let '(f, es) := feed_step x f in let '(f, es') := feed_run xs' f in (f, es ++ es')
  end.
Definition heard (x : FeedStep) : Prop := match x with FSnapshot bans n => (0 < n)%nat /\ NoDup (bv_subject <$> bans) | FSignal _ => True end.

Lemma follow_diff (n : nat) (bans : list BanView) (f : AgentFeed) (prev : gset string) : (0 < n)%nat -> NoDup (bv_subject <$> bans) ->
  af_last_subjects f = Some prev -> foldl follow (Some prev) (emit_ban_diff n bans f).2 = Some (subjects bans).
Proof using laws.
  intros Hn Hnd Hf. unfold emit_ban_diff. rewrite Hf, (proj2 (Nat.ltb_lt 0 n)) by done. cbn [snd]. rewrite foldl_app.
  assert (forall b, b ∈ List.filter (fun b => bool_decide (bv_subject b ∉ prev)) bans <-> b ∈ bans /\ bv_subject b ∉ prev) as Hfil.
  { intros b. rewrite !list_elem_of_In, filter_In. by rewrite bool_decide_eq_true. }
  rewrite follow_added.
  - rewrite follow_removed.
    + f_equal. rewrite hash_order_perm. unfold subjects. set_unfold. setoid_rewrite Hfil. intros x. split.
      * intros [[(b & -> & Hb)|Hx] Hd]; [naive_solver|]. destruct (decide (x ∈ subjects bans)) as [Hin|]; [unfold subjects in Hin; set_solver|]. exfalso. apply Hd. unfold subjects in *. set_solver.
      * intros (b & -> & Hb). split; [|naive_solver]. destruct (decide (bv_subject b ∈ prev)); [by right|left]. exists b. by split.
    + rewrite hash_order_perm. apply NoDup_elements.
    + intros x. rewrite hash_order_perm, elem_of_elements. set_solver.
  - eapply sublist_NoDup; [exact Hnd|]. clear. induction bans as [|b bans IH]; cbn [List.filter]; [done|]. case_match; by constructor.
  - apply Forall_forall. intros b Hb%Hfil. tauto.
Qed.

(** C31: A subscriber that starts from the daemon's baseline and applies the events
    as they come holds, after any sequence of snapshots and detections, exactly
    the subjects of the last snapshot; no event ever adds a ban it has or removes
    one it does not have. *)
Theorem events_follow_bans (xs : list FeedStep) (f f' : AgentFeed) (base : gset string) (es : list AgentEvent)
  (Hbase : af_last_subjects f = Some base) (Hxs : Forall heard xs) (Hrun : feed_run xs f = (f', es)) :
  foldl follow (Some base) es = af_last_subjects f'.
Proof using laws.
  revert f base es Hbase Hrun. induction Hxs as [|x xs Hx _ IH]; intros f base es Hbase Hrun; cbn [feed_run] in Hrun; [by injection Hrun as <- <-|].
  destruct (feed_step x f) as [f1 e1] eqn:E1. destruct (feed_run xs f1) as [f2 e2] eqn:E2. injection Hrun as -> <-. rewrite foldl_app.
  assert (exists base1, af_last_subjects f1 = Some base1 /\ foldl follow (Some base) e1 = Some base1) as (base1 & Hb1 & ->).
  { destruct x as [bans n|sig]; cbn [feed_step] in E1.
    - destruct Hx as [Hn Hnd]. pose proof (follow_diff n bans f base Hn Hnd Hbase) as Hd. rewrite E1 in Hd. exists (subjects bans). split; [|done].
      unfold emit_ban_diff in E1. by injection E1 as <- _.
    - unfold record_signal in E1. injection E1 as <- <-. by exists base. }
  by apply (IH f1 base1).
Qed.
End following.

(** ** Detectors and the catalogue *)
Record Manifest : Type := { mf_version : string; mf_description : string; mf_docs_url : option string }.
Definition plugin_kind_name (k : PluginKind) : string :=
  match k with
  | KLogSource => "Source" | KDetector => "Detector" | KEnforcer => "Enforcer" | KNotifier => "Notifier" | KSiemSink => "SiemSink" | KCtiProvider => "Cti"
  | KScoringEngine => "ScoringEngine" | KUiServer => "UiServer"
  end.
Definition core_detector_name (id : string) : string :=
  match strip_prefix (as_bytes "detector.") (as_bytes id) with Some rest => of_bytes rest | None => id end.

Section catalogue.
Context `{JsonText} (B : PluginKind -> Type) (linked : list (PluginDescriptor B)) (manifest : PluginDescriptor B -> Manifest).

Definition SCHEMA_KEYS : list string := ["type"; "default"; "description"; "enum"; "minimum"; "maximum"]%string.
Definition schema_entry (required : list bytes) (k : bytes) (v : Value) : Value :=
  obj (omap (fun key => (fun x => (key, x)) <$> get key v) SCHEMA_KEYS ++ (if bool_decide (k ∈ required) then [("required"%string, VBool true)] else [])).
Definition schema_summary (schema : string) : list (bytes * Value) :=
  match json_of_text (as_bytes schema) with
  | Some s =>
      match get "properties" s with
      | Some (VObject props) =>
          let required := match get "required" s with Some (VArray a) => omap as_str a | _ => [] end in
          (fun kv : bytes * Value => (kv.1, schema_entry required kv.1 kv.2)) <$> props
      | _ => []
      end
  | None => []
  end.

(** [counters]: the counters of the metrics, or an empty object. *)
Definition counter (counters : Value) (block : string) (key : string) : Value := default (JNum 0) (get block counters ≫= get key).
Definition schema_view (d : option (PluginDescriptor B)) : Value := VObject (match d with Some d => schema_summary (pd_config_schema B d) | None => [] end).
Definition detector_view (counters : Value) (e : PluginEntry) : Value :=
  let d := find_descriptor B linked (pe_id e) in
  let core := core_detector_name (pe_id e) in
  obj [("id", JStr (pe_id e)); ("name", JOpt JStr (pe_name e)); ("detector_name", JStr core);
       ("description", JOpt (fun d => JStr (mf_description (manifest d))) d); ("version", JOpt (fun d => JStr (mf_version (manifest d))) d);
       ("linked", VBool (bool_decide (is_Some d))); ("optional", VBool (pe_optional e)); ("config", redacted_json (pe_config e)); ("schema", schema_view d);
       ("signals_total", counter counters "detection_signals" (pe_id e)); ("bans_total", counter counters "bans_created" core)]%string.
Definition scoring_view (e : PluginEntry) : Value :=
  obj [("id", JStr (pe_id e)); ("config", redacted_json (pe_config e)); ("schema", schema_view (find_descriptor B linked (pe_id e)))]%string.
Definition has_prefix (p : string) (e : PluginEntry) : bool := starts_with (as_bytes p) (as_bytes (pe_id e)).
(** The last scoring entry counts. *)
Definition detectors_view (entries : list PluginEntry) (counters : Value) : Value :=
  obj [("detectors", VArray (detector_view counters <$> List.filter (has_prefix "detector.") entries));
       ("scoring", default VNull (scoring_view <$> last (List.filter (fun e => negb (has_prefix "detector." e) && has_prefix "scoring." e) entries)))]%string.

Definition KINDS : list bytes := as_bytes <$> ["source"; "detector"; "enforcer"; "notifier"; "siemsink"; "cti"; "scoringengine"; "uiserver"]%string.
Definition kind_key (d : PluginDescriptor B) : bytes := to_ascii_lowercase (as_bytes (plugin_kind_name (pf_kind B (pd_factory B d)))).
(** By kind, then by id. *)
Definition listed_before (a b : PluginDescriptor B) : Prop :=
  let ka := as_bytes (plugin_kind_name (pf_kind B (pd_factory B a))) in let kb := as_bytes (plugin_kind_name (pf_kind B (pd_factory B b))) in
  (if bool_decide (ka = kb) then bytes_leb (as_bytes (pd_id B a)) (as_bytes (pd_id B b)) else bytes_leb ka kb) = true.
#[local] Instance listed_before_dec (a b : PluginDescriptor B) : Decision (listed_before a b).
Proof using. unfold listed_before. apply _. Defined.
Definition instances (entries : list PluginEntry) (d : PluginDescriptor B) : Z := count_if (fun e => bool_decide (pe_id e = pd_id B d)) entries.
Definition named_key (kv : bytes * Value) : Value :=
  match kv.2 with VObject o => VObject (o ++ [(as_bytes "name", VString kv.1)]) | v => v end.
Definition plugin_view (entries : list PluginEntry) (d : PluginDescriptor B) : Value :=
  let m := manifest d in
  obj [("id", JStr (pd_id B d)); ("kind", JStr (plugin_kind_name (pf_kind B (pd_factory B d)))); ("version", JStr (mf_version m)); ("description", JStr (mf_description m));
       ("docs_url", JOpt JStr (mf_docs_url m)); ("enabled", VBool (0 <? instances entries d)%Z); ("instances", JNum (instances entries d));
       ("config_keys", VArray (named_key <$> schema_summary (pd_config_schema B d)))]%string.
Definition catalog_view (entries : list PluginEntry) (kind : option bytes) : result Value AgentError :=
  let wanted := match to_ascii_lowercase ∘ trim <$> kind with Some [] => None | k => k end in
  let? _ := (match wanted with
             | Some k => if bool_decide (k ∈ KINDS) then Ok tt
                         else bad ("`kind` must be one of Source|Detector|Enforcer|Notifier|SiemSink|Cti|ScoringEngine|UiServer, got `" +:+ of_bytes k +:+ "`")
             | None => Ok tt
             end) in
  let ds := List.filter (fun d => holds_opt (fun k => bool_decide (kind_key d = k)) wanted) linked in
  Ok (obj [("plugins"%string, VArray (plugin_view entries <$> merge_sort listed_before ds))]).

(** *** Settings agents may not see *)
Definition same_entry (e e' : PluginEntry) : Prop :=
  pe_id e = pe_id e' /\ pe_name e = pe_name e' /\ pe_optional e = pe_optional e' /\ same_json (pe_config e) (pe_config e').
Lemma same_entry_view (counters : Value) (e e' : PluginEntry) : same_entry e e' ->
  detector_view counters e = detector_view counters e' /\ scoring_view e = scoring_view e' /\ forall p, has_prefix p e = has_prefix p e'.
Proof using.
  destruct e as [id name cfg opt], e' as [id' name' cfg' opt']. intros (Hi & Hn & Ho & Hc%same_json_hidden). simpl in *. subst.
  unfold detector_view, scoring_view, has_prefix. cbn [pe_id pe_name pe_config pe_optional]. by rewrite Hc.
Qed.

Lemma filter_same (f : PluginEntry -> bool) (es es' : list PluginEntry) : Forall2 same_entry es es' -> (forall e e', same_entry e e' -> f e = f e') ->
  Forall2 same_entry (List.filter f es) (List.filter f es').
Proof using.
  intros Hes Hf. induction Hes as [|e e' es es' He _ IH]; simpl; [constructor|]. rewrite (Hf e e' He). destruct (f e'); [by constructor|done].
Qed.

Lemma same_last (l l' : list PluginEntry) : Forall2 same_entry l l' -> scoring_view <$> last l = scoring_view <$> last l'.
Proof using manifest.
  intros Hs. rewrite <- !fmap_last. f_equal. induction Hs as [|e e' l l' He _ IH]; [done|]. rewrite !fmap_cons, IH. f_equal. by apply (same_entry_view VNull).
Qed.

(** Two configurations that differ only in the secrets of plugins look the same
    in the view of the detectors. *)
Theorem settings_secrets_hidden (es es' : list PluginEntry) (counters : Value) (Hsame : Forall2 same_entry es es') :
  detectors_view es counters = detectors_view es' counters.
Proof using.
  unfold detectors_view. assert (forall p e e', same_entry e e' -> has_prefix p e = has_prefix p e') as Hp by (intros p e e' He; by apply (same_entry_view VNull)).
  assert (Forall2 same_entry (List.filter (has_prefix "detector.") es) (List.filter (has_prefix "detector.") es')) as Hd by (apply filter_same; eauto).
  assert (Forall2 same_entry (List.filter (fun e => negb (has_prefix "detector." e) && has_prefix "scoring." e) es)
                             (List.filter (fun e => negb (has_prefix "detector." e) && has_prefix "scoring." e) es')) as Hs.
  { apply filter_same; [done|]. intros e e' He. by rewrite !(Hp _ e e' He). }
  assert (detector_view counters <$> List.filter (has_prefix "detector.") es = detector_view counters <$> List.filter (has_prefix "detector.") es') as ->.
  { clear Hs. induction Hd as [|e e' l l' He _ IH]; [done|]. rewrite !fmap_cons, IH. f_equal. by apply same_entry_view. }
  by rewrite (same_last _ _ Hs).
Qed.
End catalogue.

(** ** Checking a configuration without writing it *)
Definition KNOWN_TOP_LEVEL : list bytes :=
  as_bytes <$> ["node"; "whitelist"; "sources"; "detectors"; "scoring"; "trust"; "enforcement"; "persistence"; "bots"; "cti"; "alerting"; "siem"; "sigma"; "plugins";
                "agent"]%string.
Definition LEGACY_SECTIONS : list bytes := as_bytes <$> ["sources"; "detectors"; "enforcement"; "scoring"]%string.
Definition PLUGIN_ENTRY_KEYS : list bytes := as_bytes <$> ["id"; "name"; "config"; "optional"]%string.
Definition AGENT_KEYS : list bytes :=
  as_bytes <$> ["log_sources"; "journal_units"; "max_scan_bytes"; "max_results"; "journal_timeout_secs"; "include_rotated"; "read_token_file";
                "max_concurrent_scans"; "max_streams"]%string.
Fixpoint yaml_str (y : Yaml) : option bytes := match y with YString s => Some s | YTagged _ v => yaml_str v | _ => None end.
Definition unknown_keys (known : list bytes) (m : list (Yaml * Yaml)) : list bytes :=
  List.filter (fun k => negb (bool_decide (k ∈ known))) (omap (fun kv => yaml_str kv.1) m).
(** The value under a string key; keys are compared as they are written. *)
Definition yaml_get (key : string) (m : list (Yaml * Yaml)) : option Yaml :=
  snd <$> List.find (fun kv : Yaml * Yaml => match kv.1 with YString s => bool_decide (s = as_bytes key) | _ => false end) m.

Definition entry_warnings (i : nat) (item : Yaml) : list string :=
  match item with
  | YMapping m =>
      let id := default (as_bytes "?") (yaml_get "id" m ≫= yaml_str) in
      (fun k => ("plugins[" +:+ fmt_uint (Z.of_nat i) +:+ "] (`" +:+ of_bytes id +:+ "`): key `" +:+ of_bytes k
        +:+ "` is ignored (only id/name/config/optional are read; there is no `enabled:` — remove the entry to disable)")%string) <$> unknown_keys PLUGIN_ENTRY_KEYS m
  | _ => []
  end.
Definition key_warnings (kv : Yaml * Yaml) : list string :=
  match yaml_str kv.1 with
  | None => []
  | Some key =>
      (if negb (bool_decide (key ∈ KNOWN_TOP_LEVEL)) then ["unknown top-level key `" +:+ of_bytes key +:+ "` is silently ignored by the daemon"]%string
       else if bool_decide (key ∈ LEGACY_SECTIONS)
       then ["legacy section `" +:+ of_bytes key +:+ "` is validated but NOT used at runtime (runtime behaviour comes from `plugins:`)"]%string else []) ++
      (match kv.2 with
       | YMapping m => if bool_decide (key = as_bytes "agent")
                       then (fun k => "unknown key `agent." +:+ of_bytes k +:+ "` is silently ignored by the daemon")%string <$> unknown_keys AGENT_KEYS m else []
       | YSequence items => if bool_decide (key = as_bytes "plugins") then concat (imap entry_warnings items) else []
       | _ => []
       end)
  end.

(** [file_len]: the length of a file that can be seen. *)
Definition agent_warnings (file_len : bytes -> option Z) (cfg : ConfigDoc) : list string :=
  (match cd_read_token_file cfg with
   | None => ["agent.read_token_file is not set — AI agents can only use the admin token (full write access); give them a read-only token file instead"]%string
   | Some p =>
       let it := ("agent.read_token_file `" +:+ of_bytes p +:+ "`")%string in
       if negb (secret_file_allowed p) then [it +:+ " should live under /etc/hiveguard/ (mode 0640)"]%string
       else match file_len p with
            | None => [it +:+ " does not exist or is not readable — the read-only token will be disabled"]%string
            | Some n => if (n =? 0)%Z then [it +:+ " is empty — the read-only token will be disabled"]%string else []
            end
   end ++
   (if (ac_max_concurrent_scans (cd_agent cfg) =? 0)%Z then ["agent.max_concurrent_scans: 0 is treated as 1"]%string else []) ++
   (if (ac_max_streams (cd_agent cfg) =? 0)%Z then ["agent.max_streams: 0 is treated as 1"]%string else [])).

Record Validation : Type := { va_errors : list string; va_warnings : list string; va_plugins : list string }.
Definition va_valid (v : Validation) : bool := bool_decide (va_errors v = []).

Definition NOT_LINKED : bytes := as_bytes "not linked into this binary".
(** Errors the check of the document adds: none twice, and none that reads like
    the error about plugins that are not linked. *)
Fixpoint add_errors (errors new : list string) : list string :=
  match new with
  | [] => errors
  | e :: new' => add_errors (if bool_decide (e ∈ errors) || contains NOT_LINKED (as_bytes e) then errors else errors ++ [e]) new'
  end.

Section validation.
Context `{UnicodeLower} `{AddrText} `{ApiText} `{ConfigYaml} `{JsonSchema} (B : PluginKind -> Type) (linked : list (PluginDescriptor B)).
Context (su : Surroundings) (file_len : bytes -> option Z).

Definition kind_errors (ps : list PluginEntry) : list string :=
  let has (p : string) := existsb (has_prefix p) ps in
  match ps with
  | [] => ["no `plugins:` entries — the daemon exits without an enforcer and a scoring engine"]%string
  | _ => (if has "enforcer." then [] else ["no `enforcer.*` plugin — the daemon refuses to start"]%string) ++
         (if has "scoring." then [] else ["no `scoring.*` plugin — the daemon refuses to start"]%string)
  end.
Definition kind_warnings (ps : list PluginEntry) : list string :=
  let has (p : string) := existsb (has_prefix p) ps in
  match ps with
  | [] => []
  | _ => (if has "source." then [] else ["no `source.*` plugin — nothing will be detected"]%string) ++
         (if has "detector." then [] else ["no `detector.*` plugin — nothing will be detected"]%string) ++
         (if has "ui.rest" then [] else ["no `ui.rest` plugin — this API will not be reachable after restart"]%string)
  end.
Definition unlinked (optional : bool) (ps : list PluginEntry) : list PluginEntry :=
  List.filter (fun p => bool_decide (find_descriptor B linked (pe_id p) = None :> option _) && eqb (pe_optional p) optional) ps.
Definition document_checks (content : bytes) (errors warnings : list string) (cfg : ConfigDoc) : Validation :=
  let ps := cd_plugins cfg in
  let errors := errors ++ kind_errors ps ++ ((fun p => "plugin `" +:+ pe_id p +:+ "` is not linked into this binary") <$> unlinked false ps)%string in
  let warnings := warnings ++ kind_warnings ps ++
    ((fun p => "plugin `" +:+ pe_id p +:+ "` is not linked into this binary (optional: skipped with a warning)") <$> unlinked true ps)%string ++
    agent_warnings file_len cfg in
  match check_config_document B linked content with
  | Ok (_, found) => {| va_errors := errors; va_warnings := warnings ++ placeholder_policy su found; va_plugins := pe_id <$> ps |}
  | Err list => {| va_errors := add_errors errors list; va_warnings := warnings; va_plugins := pe_id <$> ps |}
  end.
Definition validate_config (content : bytes) : Validation :=
  let errors := if contains REDACTED content then [redacted_marker_error] else [] in
  match yaml_value content with
  | Err e => {| va_errors := errors ++ ["YAML parse error: " +:+ e]%string; va_warnings := []; va_plugins := [] |}
  | Ok (YMapping m) =>
      let warnings := flat_map key_warnings m in
      match yaml_config content with
      | Err e => {| va_errors := errors ++ ["config parse error: " +:+ e]%string; va_warnings := warnings; va_plugins := [] |}
      | Ok cfg => document_checks content errors warnings cfg
      end
  | Ok _ => {| va_errors := errors ++ ["document root must be a mapping"]%string; va_warnings := []; va_plugins := [] |}
  end.

Lemma add_errors_nil (errors new : list string) : add_errors errors new = [] -> errors = [] /\ Forall (fun e => contains NOT_LINKED (as_bytes e) = true) new.
Proof using.
  revert errors. induction new as [|e new IH]; intros errors; cbn [add_errors]; [done|]. intros [He Hn]%IH.
  destruct (bool_decide (e ∈ errors)) eqn:Eb; cbn [orb] in He.
  - subst. apply bool_decide_eq_true in Eb. by apply not_elem_of_nil in Eb.
  - destruct (contains NOT_LINKED (as_bytes e)) eqn:Ec; [by split; [|constructor]|]. by apply app_eq_nil in He as [_ He].
Qed.

Lemma kind_errors_nil (ps : list PluginEntry) : kind_errors ps = [] -> Exists (fun p => has_prefix "enforcer." p = true) ps /\ Exists (fun p => has_prefix "scoring." p = true) ps.
Proof using.
  assert (forall x, existsb (has_prefix x) ps = true -> Exists (fun p => has_prefix x p = true) ps) as He.
  { intros x (p & Hp & Hx)%existsb_exists. apply Exists_exists. exists p. split; [by apply list_elem_of_In|done]. }
  unfold kind_errors. destruct ps as [|p ps]; [done|]. intros [E1 E2]%app_eq_nil. split; apply He.
  - by destruct (existsb (has_prefix "enforcer.") (p :: ps)).
  - by destruct (existsb (has_prefix "scoring.") (p :: ps)).
Qed.

(** A configuration reported as valid starts: it carries no marker, has a
    firewall backend and a scoring engine, every plugin that is not optional is
    there, and unless an error of the checks quotes the phrase about plugins that
    are not linked, all checks passed, so that sending it to be written succeeds
    as soon as its placeholders can be used. *)
Theorem valid_config_accepted (content file : bytes) (Hv : va_valid (validate_config content) = true)
  (Hphrase : forall errs, check_config_document B linked content = Err errs -> Exists (fun e => contains NOT_LINKED (as_bytes e) = false) errs) :
  contains REDACTED content = false /\ exists doc found, check_config_document B linked content = Ok (doc, found) /\
  Exists (fun p => has_prefix "enforcer." p = true) (cd_plugins doc) /\ Exists (fun p => has_prefix "scoring." p = true) (cd_plugins doc) /\
  Forall (fun p => pe_optional p = true \/ is_Some (find_descriptor B linked (pe_id p))) (cd_plugins doc) /\
  (placeholder_policy su found = [] -> put_config B linked true su Written content file = (content, Ok tt)).
Proof using.
  unfold va_valid in Hv. apply bool_decide_eq_true in Hv. unfold validate_config in Hv.
  destruct (yaml_value content) as [[| | | | |m|]|] eqn:Ey; try (by apply app_eq_nil in Hv as [_ Hv]).
  destruct (yaml_config content) as [cfg|] eqn:Ec; [|by apply app_eq_nil in Hv as [_ Hv]]. unfold document_checks in Hv.
  set (errors := _ ++ kind_errors _ ++ _) in Hv.
  assert (exists found, check_config_document B linked content = Ok (cfg, found) /\ errors = []) as (found & Hc & He).
  { destruct (check_config_document B linked content) as [[doc found]|errs] eqn:Ed.
    - exists found. split; [|done]. apply check_document_ok in Ed as [Hy _]. rewrite Ec in Hy. by injection Hy as <-.
    - cbn in Hv. apply add_errors_nil in Hv as [_ Hall]. specialize (Hphrase errs eq_refl). apply Exists_exists in Hphrase as (e & Hin & Hf).
      rewrite Forall_forall in Hall. by rewrite (Hall e Hin) in Hf. }
  apply app_eq_nil in He as [Hm He]. apply app_eq_nil in He as [Hk%kind_errors_nil Hu]. destruct Hk as [Hk1 Hk2].
  assert (contains REDACTED content = false) as Hr by (by destruct (contains REDACTED content)).
  split; [done|]. exists cfg, found. split_and!; [done..| |].
  - apply Forall_forall. intros p Hp. destruct (pe_optional p) eqn:Eo; [by left|right]. destruct (find_descriptor B linked (pe_id p)) eqn:Ef; [done|exfalso].
    apply fmap_nil_inv in Hu. assert (p ∈ unlinked false (cd_plugins cfg)) as Hin; [|by rewrite Hu in Hin; apply not_elem_of_nil in Hin].
    apply list_elem_of_In, filter_In. split; [by apply list_elem_of_In|]. by rewrite Ef, Eo.
  - intros Hp. unfold put_config. cbn [negb]. by rewrite Hr, Ey, Hc, Hp.
Qed.
End validation.

(** ** Samples *)
Module ViewSample.
Import HostSample RedactSample.
#[local] Existing Instance ipnet_ref.
#[local] Instance lower : UnicodeLower := to_ascii_lowercase.
#[local] Instance addr : AddrText := {| parse_ip _ := None; parse_net _ := None |}.
#[local] Instance texts : ApiText := {| rfc3339 _ := ""%string; debug_source _ := ""%string; io_error_text _ := ""%string; json_bans _ := ""%string |}.
#[local] Instance dates : AgentDates :=
  {| ad_rfc3339 _ := None; ad_naive _ _ := None; ad_zoned _ _ := None; ad_year _ := 2026; ad_min_utc := 0; ad_max_utc := 0; ad_show _ := []; ad_journal _ := [] |}.
(** Hash maps that iterate backwards. *)
#[local] Instance backwards : AnyOrder := fun A l => rev l.
#[local] Instance backwards_laws : AnyOrderLaws.
Proof. intros A l. symmetry. apply Permutation_rev. Qed.

Definition banned (n t : Z) : BanRecord := {|
  subject := NetV4 n 32; created_at := t; expires_at := None; severity := 10; reason := "x"; evidence_hash := []; source := ManualAdmin; geo_info := None |}.
Definition query : BanQuery := {|
  bq_source := None; bq_detector := None; bq_since := Some 2; bq_until := None; bq_subnet_only := false; bq_permanent_only := false; bq_q := None;
  bq_sort := ByCreated; bq_desc := true; bq_limit := 2; bq_offset := 0 |}.
Definition records : list BanRecord := [banned 1 1; banned 2 2; banned 3 5; banned 4 3].
Example pages : ban_page query records = [banned 3 5; banned 4 3] /\ ban_page (at_offset query 2) records = [banned 2 2].
Proof. vm_compute. split; reflexivity. Qed.
Lemma ban_pages_exact_witness :
  let all := flat_map (fun i => ban_page (at_offset query (Z.of_nat i * bq_limit query)) records) (seq 0 2) in
  all ≡ₚ ban_matched query records /\ StronglySorted (ban_order ByCreated true) all.
Proof. apply (ban_pages_exact query records 2); vm_compute; congruence. Defined.

Definition seen (ip : string) : ThreatView := {| tv_ip := ip; tv_severity := 5; tv_confidence := 50; tv_detector := "d"; tv_reason := ""; tv_timestamp := "" |}.
Definition sightings : list ThreatView := [seen "a"; seen "b"; seen "a"]%string.
Definition first_agg : IpAgg := foldl (fun a t => agg_add t a) agg_new [seen "a"; seen "a"]%string.
Lemma top_ips_exact_witness :
  ia_count first_agg = count_if (from_ip (as_bytes "a")) sightings /\ 0 < ia_count first_agg /\ count_if (from_ip (as_bytes "b")) sightings <= ia_count first_agg.
Proof.
  apply (top_ips_exact sightings 1 (as_bytes "a") (as_bytes "b") first_agg).
  - vm_compute. left.
  - vm_compute. intros Hin. apply list_elem_of_singleton in Hin. congruence.
Defined.

Definition view (s : string) : BanView := {| bv_subject := s; bv_severity := 1; bv_reason := ""; bv_expires_at := None; bv_source := "admin"; bv_created_at := None |}.
Definition base : gset string := {["a"; "b"]}%string.
Definition start : AgentFeed := {| af_threats := []; af_last_subjects := Some base |}.
Definition steps : list FeedStep := [FSnapshot [view "b"; view "c"] 1; FSnapshot [view "a"] 2]%string.
Definition stream : list AgentEvent := (feed_run steps start).2.
Lemma events_follow_bans_witness : length stream = 5%nat /\ foldl follow (Some base) stream = Some {["a"%string]}.
Proof.
  split; [vm_compute; reflexivity|].
  assert (foldl follow (Some base) stream = af_last_subjects (feed_run steps start).1) as ->; [|vm_compute; reflexivity].
  apply (events_follow_bans steps start (feed_run steps start).1 base stream).
  - reflexivity.
  - unfold steps. repeat constructor; try lia; vm_compute; set_solver.
  - unfold stream. destruct (feed_run steps start). reflexivity.
Defined.

#[local] Instance json : JsonText := {| json_of_text _ := None; json_to_text _ := [] |}.
Definition keyed (secret : string) : PluginEntry :=
  {| pe_id := "detector.x"; pe_name := None; pe_config := VObject [(as_bytes "api_key", VString (as_bytes secret))]; pe_optional := false |}.
Definition no_manifest (_ : PluginDescriptor box) : Manifest := {| mf_version := ""; mf_description := ""; mf_docs_url := None |}.
Lemma settings_secrets_hidden_witness :
  detectors_view box [slack] no_manifest [keyed "one"] VNull = detectors_view box [slack] no_manifest [keyed "two"] VNull.
Proof.
  apply (settings_secrets_hidden box [slack] no_manifest [keyed "one"] [keyed "two"] VNull). constructor; [|constructor].
  split; [reflexivity|]. split; [reflexivity|]. split; [reflexivity|]. cbn. apply same_object. constructor; [|constructor]. split; [reflexivity|].
  right. split; (split; [vm_compute; reflexivity|split; [vm_compute; congruence|vm_compute; reflexivity]]).
Defined.

(** *** A document with a firewall backend and a scoring engine *)
Definition linked : list (PluginDescriptor box) :=
  (fun id => {| pd_id := id; pd_api_version := 1; pd_config_schema := ""; pd_factory := Factory box KNotifier (fun v => Ok v) |}) <$> ["enforcer.x"; "scoring.x"]%string.
Definition plain (v : Value) (id : string) : PluginEntry := {| pe_id := id; pe_name := None; pe_config := v; pe_optional := false |}.
Definition document (v : Value) : ConfigDoc :=
  {| cd_config := settings; cd_plugins := plain v <$> ["enforcer.x"; "scoring.x"]%string; cd_agent := agents; cd_read_token_file := None |}.
#[local] Instance yaml : ConfigYaml := {| yaml_value _ := Ok (YMapping []); yaml_config s := Ok (document (if bool_decide (s = []) then VNull else VObject [])) |}.
Lemma valid_config_accepted_witness :
  va_valid (validate_config box linked all_there (fun _ => None) [47]) = true /\ put_config box linked true all_there Written [47] [] = ([47], Ok tt).
Proof.
  assert (va_valid (validate_config box linked all_there (fun _ => None) [47]) = true) as Hv by (vm_compute; reflexivity). split; [exact Hv|].
  destruct (valid_config_accepted box linked all_there (fun _ => None) [47] [] Hv) as (_ & doc & found & Hc & _ & _ & _ & Hput).
  - vm_compute. congruence.
  - apply Hput. vm_compute in Hc. injection Hc as <- <-. reflexivity.
Defined.

(** A schema whose violation quotes the phrase: the document is reported as
    valid and refused when it is sent. *)
#[local] Instance quoting : JsonSchema := fun _ v =>
  match v with VObject _ => Ok [] | _ => Ok [ {| sv_instance_path := []; sv_message := "not linked into this binary" |} ] end.
Example valid_but_refused :
  va_valid (validate_config box linked all_there (fun _ => None) []) = true /\ (put_config box linked true all_there Written [] [47]).1 = [47].
Proof. vm_compute. split; reflexivity. Qed.
End ViewSample.
