(* ===== verification/Fail2ban.v ===== *)
(** * Taking over from fail2ban ([hiveguard-daemon/src/fail2ban_import.rs])

    The bans of fail2ban's database, its jail files as a configuration snippet,
    the import by the command line tool over the socket, and the import of
    [ui_api.rs] into the running daemon. The [sqlite3] program is the parameter
    [Sqlite3]; in the parser of jail files the result [None] stands for a
    panic. *)
From stdpp Require Import pretty.
From S2P Require Import Prelude Text Models BanStore Whitelist Wal State Admission SigmaCond PluginConfig Enforcer Nftables AgentScan AgentLogs Firewall Durations Admin.
Local Open Scope Z_scope.
Local Open Scope rust_scope.

(** ** The database *)
Record Fail2banBan : Type := { fb_jail : bytes; fb_ip : bytes; fb_banned_at : DateTime; fb_expires_at : option DateTime }.

(** How a run of [sqlite3] ends. *)
Inductive SqliteRun : Type := NotStarted (e : string) | Exited (success : bool) (stdout stderr : bytes).
(** Is the program there, and what it does with a file and a query. *)
Class Sqlite3 : Type := { sqlite_found : bool; sqlite_run : bytes -> bytes -> SqliteRun }.

(** [DateTime::from_timestamp]: the range of the calendar in seconds. *)
Definition MIN_TIMESTAMP : Z := -8334601228800.
Definition MAX_TIMESTAMP : Z := 8210266876799.
Definition from_timestamp (s : Z) : option DateTime := if (MIN_TIMESTAMP <=? s) && (s <=? MAX_TIMESTAMP) then Some (secs s) else None.
(** Addition of [i64]. *)
Definition i64_add (a b : Z) : Z := (a + b + 2 ^ 63) mod 2 ^ 64 - 2 ^ 63.

Definition active_sql (now_epoch : Z) : bytes :=
  as_bytes ("SELECT jail,ip,timeofban,bantime FROM bans WHERE bantime = -1 OR (timeofban + bantime) > " +:+ fmt_int now_epoch +:+ ";").
(** [splitn(4, '|')], exactly four parts. *)
Definition split4 (line : bytes) : option (bytes * bytes * bytes * bytes) :=
  '(a, r) ← split_once 124 line; '(b, r) ← split_once 124 r; '(c, d) ← split_once 124 r; Some (a, b, c, d).
Definition ban_of_parts (now : DateTime) (jail ip : bytes) (timeofban bantime : Z) : Fail2banBan := {|
  fb_jail := jail; fb_ip := ip; fb_banned_at := default now (from_timestamp timeofban);
  fb_expires_at := if bantime <? 0 then None else from_timestamp (i64_add timeofban bantime) |}.
Definition parse_ban (now : DateTime) (line : bytes) : option Fail2banBan :=
  '(jail, ip, t, d) ← split4 line; Some (ban_of_parts now jail ip (default 0 (parse_i64 t)) (default 3600 (parse_i64 d))).
Definition read_active_bans `{Sqlite3} (now_epoch : Z) (now : DateTime) (db : bytes) : result (list Fail2banBan) string :=
  if negb sqlite_found then Err "sqlite3 binary not found; install it with: apt-get install sqlite3"%string else
  match sqlite_run db (active_sql now_epoch) with
  | NotStarted e => Err ("Failed to run sqlite3: " +:+ e)%string
  | Exited false _ stderr => Err ("sqlite3 error: " +:+ of_bytes (trim (from_utf8_lossy stderr)))%string
  | Exited true stdout _ => Ok (omap (parse_ban now) (lines (from_utf8_lossy stdout)))
  end.

(** ** Jail files *)
Record JailConfig : Type := {
  jc_name : bytes; jc_enabled : bool; jc_max_retry : Z; jc_find_time_secs : Z; jc_ban_time_secs : option Z; jc_log_paths : list bytes; jc_filter : option bytes;
}.
Definition jail_default : JailConfig := {|
  jc_name := []; jc_enabled := true; jc_max_retry := 5; jc_find_time_secs := 600; jc_ban_time_secs := Some 3600; jc_log_paths := []; jc_filter := None |}.
Definition jc_set_name (n : bytes) (j : JailConfig) : JailConfig := {|
  jc_name := n; jc_enabled := jc_enabled j; jc_max_retry := jc_max_retry j; jc_find_time_secs := jc_find_time_secs j; jc_ban_time_secs := jc_ban_time_secs j;
  jc_log_paths := jc_log_paths j; jc_filter := jc_filter j |}.

(** The product is of [u64] and wraps around. *)
Definition f2b_unit (suffix : bytes) : option Z := if bool_decide (suffix = as_bytes "w") then Some 604800 else unit_secs suffix.
Definition parse_f2b_time (s : bytes) : option (option Z) :=
  let s := trim s in
  match parse_i64 s with
  | Some n => Some (Some (Z.abs n))
  | None =>
      num ← slice_to (length s - 1) s;
      Some (n ← parse_uint u64_max num; mult ← f2b_unit (drop (length s - 1) s); Some (wrap 64 (n * mult)))
  end.

Definition apply_kv (j : JailConfig) (kv : bytes * bytes) : option JailConfig :=
  let '(key, value) := kv in
  let set_times (find : Z) (ban : option Z) := {|
    jc_name := jc_name j; jc_enabled := jc_enabled j; jc_max_retry := jc_max_retry j; jc_find_time_secs := find; jc_ban_time_secs := ban;
    jc_log_paths := jc_log_paths j; jc_filter := jc_filter j |} in
  if bool_decide (key = as_bytes "enabled") then Some {|
    jc_name := jc_name j; jc_enabled := eq_ignore_ascii_case value (as_bytes "true"); jc_max_retry := jc_max_retry j; jc_find_time_secs := jc_find_time_secs j;
    jc_ban_time_secs := jc_ban_time_secs j; jc_log_paths := jc_log_paths j; jc_filter := jc_filter j |}
  else if bool_decide (key = as_bytes "maxretry") then Some {|
    jc_name := jc_name j; jc_enabled := jc_enabled j; jc_max_retry := default (jc_max_retry j) (parse_uint u32_max value);
    jc_find_time_secs := jc_find_time_secs j; jc_ban_time_secs := jc_ban_time_secs j; jc_log_paths := jc_log_paths j; jc_filter := jc_filter j |}
  else if bool_decide (key = as_bytes "findtime") then
    t ← parse_f2b_time value; Some (set_times (default (jc_find_time_secs j) t) (jc_ban_time_secs j))
  else if bool_decide (key = as_bytes "bantime") then
    t ← parse_f2b_time value;
    Some match t with
         | Some n => set_times (jc_find_time_secs j) (if n =? 0 then None else Some n)
         | None => if starts_with [45] (trim_start value) then set_times (jc_find_time_secs j) None else j
         end
  else if bool_decide (key = as_bytes "logpath") then Some {|
    jc_name := jc_name j; jc_enabled := jc_enabled j; jc_max_retry := jc_max_retry j; jc_find_time_secs := jc_find_time_secs j;
    jc_ban_time_secs := jc_ban_time_secs j; jc_log_paths := split_whitespace value; jc_filter := jc_filter j |}
  else if bool_decide (key = as_bytes "filter") then Some {|
    jc_name := jc_name j; jc_enabled := jc_enabled j; jc_max_retry := jc_max_retry j; jc_find_time_secs := jc_find_time_secs j;
    jc_ban_time_secs := jc_ban_time_secs j; jc_log_paths := jc_log_paths j; jc_filter := Some value |}
  else Some j.
Fixpoint apply_kvs (kvs : list (bytes * bytes)) (j : JailConfig) : option JailConfig :=
  match kvs with [] => Some j | kv :: kvs' => j' ← apply_kv j kv; apply_kvs kvs' j' end.

(** The defaults and the jails read so far, and the section at hand. *)
Record IniState : Type := { ini_section : option bytes; ini_kvs : list (bytes * bytes); ini_defaults : JailConfig; ini_jails : gmap bytes JailConfig }.
Definition at_sep (c : Z) : bool := (c =? 61) || (c =? 58).

Section jails.
Context `{UnicodeLower}.

Definition flush (st : IniState) : option (JailConfig * gmap bytes JailConfig) :=
  match ini_section st with
  | None => Some (ini_defaults st, ini_jails st)
  | Some name =>
      if eq_ignore_ascii_case name (as_bytes "DEFAULT")
      then d ← apply_kvs (ini_kvs st) (ini_defaults st); Some (d, ini_jails st)
      else let key := str_to_lowercase name in
           j ← apply_kvs (ini_kvs st) (default (jc_set_name key (ini_defaults st)) (ini_jails st !! key));
           Some (ini_defaults st, <[key := j]> (ini_jails st))
  end.
Definition ini_line (st : IniState) (line : bytes) : option IniState :=
  let t := trim line in
  if bool_decide (t = []) || starts_with [35] t || starts_with [59] t then Some st
  else if starts_with [91] t && ends_with [93] t then
    '(d, js) ← flush st;
    Some {| ini_section := Some (trim (drop 1 (take (length t - 1) t))); ini_kvs := []; ini_defaults := d; ini_jails := js |}
  else match span (fun c => negb (at_sep c)) t with
       | (_, []) => Some st
       | (key, _ :: value) =>
           Some {| ini_section := ini_section st; ini_kvs := ini_kvs st ++ [(str_to_lowercase (trim key), trim value)];
                   ini_defaults := ini_defaults st; ini_jails := ini_jails st |}
       end.
Fixpoint ini_lines (ls : list bytes) (st : IniState) : option IniState := match ls with [] => Some st | l :: ls' => st' ← ini_line st l; ini_lines ls' st' end.
Definition parse_ini_into (text : bytes) (dj : JailConfig * gmap bytes JailConfig) : option (JailConfig * gmap bytes JailConfig) :=
  st ← ini_lines (lines text) {| ini_section := None; ini_kvs := []; ini_defaults := dj.1; ini_jails := dj.2 |}; flush st.
(** Files that cannot be read are passed over. *)
Fixpoint parse_files (files : list (result bytes string)) (dj : JailConfig * gmap bytes JailConfig) : option (gmap bytes JailConfig) :=
  match files with
  | [] => Some dj.2
  | Err _ :: files' => parse_files files' dj
  | Ok text :: files' => dj' ← parse_ini_into text dj; parse_files files' dj'
  end.
Definition parse_jail_configs (files : list (result bytes string)) : option (gmap bytes JailConfig) := parse_files files (jail_default, ∅).
End jails.

(** ** The snippet *)
Definition JAIL_DETECTOR_MAP : list (bytes * string) :=
  (fun p : string * string => (as_bytes p.1, p.2)) <$>
  [("sshd", "ssh_bruteforce"); ("ssh", "ssh_bruteforce"); ("ssh-ddos", "ssh_bruteforce"); ("nginx-http-auth", "http_4xx_flood"); ("nginx-botsearch", "path_probe");
   ("nginx-noscript", "path_probe"); ("postfix", "smtp_bruteforce"); ("postfix-sasl", "smtp_bruteforce"); ("dovecot", "smtp_bruteforce")]%string.
Definition jail_to_detector (name : bytes) : option string := snd <$> List.find (fun p : bytes * string => starts_with p.1 name) JAIL_DETECTOR_MAP.
Definition secs_to_hg (n : Z) : string :=
  if n mod 86400 =? 0 then fmt_uint (n / 86400) +:+ "d" else if n mod 3600 =? 0 then fmt_uint (n / 3600) +:+ "h"
  else if n mod 60 =? 0 then fmt_uint (n / 60) +:+ "m" else fmt_uint n +:+ "s".

Definition line_of (s : string) : bytes := as_bytes s ++ [10].
Definition jail_block (detector : string) (nj : bytes * JailConfig) : bytes :=
  as_bytes "  # imported from fail2ban jail '" ++ nj.1 ++ line_of "'" ++
  concat (line_of <$>
    ["  " +:+ detector +:+ ":"; "    enabled: true"; "    threshold: " +:+ fmt_uint (jc_max_retry nj.2); "    window: " +:+ secs_to_hg (jc_find_time_secs nj.2);
     "    ban_duration: " +:+ match jc_ban_time_secs nj.2 with Some n => secs_to_hg n | None => "permanent" end; ""]%string).
Definition generate_config_snippet (jails : gmap bytes JailConfig) : bytes :=
  let enabled := merge_sort earlier_key (List.filter (fun nj : bytes * JailConfig => jc_enabled nj.2) (map_to_list jails)) in
  let unrecognised := List.filter (fun nj : bytes * JailConfig => bool_decide (jail_to_detector nj.1 = None)) enabled in
  concat (line_of <$> ["# HiveGuard config snippet generated from fail2ban jails"; "# Add or merge these settings into your config.yaml"; ""; "detectors:"]%string) ++
  concat (omap (fun nj => (fun d => jail_block d nj) <$> jail_to_detector nj.1) enabled) ++
  match unrecognised with
  | [] => []
  | _ => concat (line_of <$> ["# The following jails have no direct HiveGuard equivalent;"; "# consider using a custom log source for them:"]%string) ++
         concat ((fun nj : bytes * JailConfig => as_bytes "#   " ++ nj.1 ++ [10]) <$> unrecognised)
  end.

(** ** Import over the socket *)
Record ImportResult : Type := { im_imported : Z; im_skipped : Z; im_errors : list string }.
Definition of_jail (filter : option bytes) (b : Fail2banBan) : bool := match filter with Some j => bool_decide (fb_jail b = j) | None => true end.
(** [num_seconds] of what is left, at least one. *)
Definition import_duration (now exp : DateTime) : bytes := as_bytes (secs_to_hg (Z.max 1 ((exp - now) ÷ nanos_per_sec))).
Definition import_request (now : DateTime) (b : Fail2banBan) : ApiRequest :=
  QBan (fb_ip b) (import_duration now <$> fb_expires_at b) (Some ("imported from fail2ban jail '" +:+ of_bytes (fb_jail b) +:+ "'")%string).

Section socket.
Context {S : Type} (send : ApiRequest -> S -> S * result ApiResponse string).
(** [nows]: the clock before each request. *)
Fixpoint send_bans (nows : nat -> DateTime) (bans : list Fail2banBan) (r : ImportResult) (s : S) : S * ImportResult :=
  match bans with
  | [] => (s, r)
  | b :: bans' =>
      let '(s', answer) := send (import_request (nows 0%nat) b) s in
      let r' := match answer with
                | Ok (ROk _) => {| im_imported := im_imported r + 1; im_skipped := im_skipped r; im_errors := im_errors r |}
                | Ok _ => {| im_imported := im_imported r; im_skipped := im_skipped r + 1; im_errors := im_errors r |}
                | Err e => {| im_imported := im_imported r; im_skipped := im_skipped r; im_errors := im_errors r ++ [of_bytes (fb_ip b) +:+ ": " +:+ e]%string |}
                end in
      send_bans (fun i => nows (Datatypes.S i)) bans' r' s'
  end.
Definition run_import `{Sqlite3} (now_epoch : Z) (now : DateTime) (nows : nat -> DateTime) (db : bytes) (dry_run : bool) (filter : option bytes) (s : S)
    : S * ImportResult :=
  match read_active_bans now_epoch now db with
  | Err e => (s, {| im_imported := 0; im_skipped := 0; im_errors := [e] |})
  | Ok all =>
      let bans := List.filter (of_jail filter) all in
      match bans with
      | [] => (s, {| im_imported := 0; im_skipped := 0; im_errors := [] |})
      | _ => if dry_run then (s, {| im_imported := 0; im_skipped := Z.of_nat (length bans); im_errors := [] |})
             else send_bans nows bans {| im_imported := 0; im_skipped := 0; im_errors := [] |} s
      end
  end.
End socket.

(** ** Import into the running daemon *)
Definition DEFAULT_F2B_DB : bytes := as_bytes "/var/lib/fail2ban/fail2ban.sqlite3".

Section daemon.
Context {E : Type} `{Enforcer E} `{IpNetOps} `{AddrText} `{ApiText} `{Codec WalEntry} `{Crc32} `{Sqlite3}.

Definition imported_record (net : IpNet) (b : Fail2banBan) : BanRecord :=
  {| subject := net; created_at := fb_banned_at b; expires_at := fb_expires_at b; severity := 200;
     reason := "imported from fail2ban (jail: " +:+ of_bytes (fb_jail b) +:+ ")"; evidence_hash := replicate 32 0; source := ManualAdmin; geo_info := None |}.
(** Does an existing ban end no earlier? *)
Definition keeps_existing (existing new : option DateTime) : bool :=
  match existing, new with None, _ => true | Some old, Some n => n <=? old | Some _, None => false end.
Definition import_record (sm : StateManager) (r : BanRecord) : BanRecord :=
  match List.find (fun b => bool_decide (subject b = subject r)) (get_all_bans (ban_store (mem sm))) with
  | Some existing => if keeps_existing (expires_at existing) (expires_at r) then existing else r
  | None => r
  end.
Definition skipped (m : string) (r : ImportResult) : ImportResult := {| im_imported := im_imported r; im_skipped := im_skipped r + 1; im_errors := im_errors r ++ [m] |}.
Definition import_one (acc : Admin E * ImportResult) (b : Fail2banBan) : Admin E * ImportResult :=
  let '(ad, info) := acc in
  let ip := of_bytes (fb_ip b) in
  match parse_ip (fb_ip b) with
  | None => (ad, skipped (ip +:+ ": invalid IP: invalid IP address syntax") info)
  | Some a =>
      let net := ip_to_net a in
      let '(sm, res) := add_ban (import_record (ad_state ad) (imported_record net b)) (ad_state ad) in
      let ad := with_ad_state sm ad in
      match res with
      | Err e => (ad, skipped (ip +:+ ": " +:+ show_hg_error e) info)
      | Ok _ =>
          let '(ad, res) := on_enforcer (apply_ban net) ad in
          (ad, match res with
               | Ok _ => {| im_imported := im_imported info + 1; im_skipped := im_skipped info; im_errors := im_errors info |}
               | Err e => skipped (ip +:+ ": ban saved; firewall failed (pending retry): " +:+ show_hg_error e) info
               end)
      end
  end.
Definition import_bans (bans : list Fail2banBan) (ad : Admin E) : Admin E * ImportResult :=
  foldl import_one (ad, {| im_imported := 0; im_skipped := 0; im_errors := [] |}) bans.
Definition fail2ban_import (now_epoch : Z) (now : DateTime) (db jail : option bytes) (ad : Admin E) : Admin E * result ImportResult PluginError :=
  match read_active_bans now_epoch now (default DEFAULT_F2B_DB db) with
  | Err e => (ad, Err (PRuntime e))
  | Ok all => let '(ad', info) := import_bans (List.filter (of_jail jail) all) ad in (ad', Ok info)
  end.

(** The rows shown before an import. *)
Record Fail2banRow : Type := { fr_jail : bytes; fr_ip : bytes; fr_banned_at : string; fr_expires_at : option string }.
Definition fail2ban_preview (now_epoch : Z) (now : DateTime) (db jail : option bytes) : result (list Fail2banRow) PluginError :=
  match read_active_bans now_epoch now (default DEFAULT_F2B_DB db) with
  | Err e => Err (PRuntime e)
  | Ok all => Ok ((fun b => {| fr_jail := fb_jail b; fr_ip := fb_ip b; fr_banned_at := rfc3339 (fb_banned_at b); fr_expires_at := rfc3339 <$> fb_expires_at b |})
                  <$> List.filter (of_jail jail) all)
  end.
End daemon.

(** ** Numbers in the database *)
Lemma parse_fmt_int (n : Z) : - 2 ^ 63 <= n < 2 ^ 63 -> parse_i64 (as_bytes (fmt_int n)) = Some n.
Proof.
  intros Hn. unfold fmt_int. destruct (Z.ltb_spec n 0) as [Hlt|Hge].
  - destruct (fmt_uint_digits (- n) ltac:(lia)) as [Hp (c & t & Ec & _)]. rewrite as_bytes_app, Ec in *. change (as_bytes "-") with [45]. cbn [app].
    unfold parse_i64. rewrite Hp, (proj2 (Z.leb_le _ _)) by lia. f_equal. lia.
  - pose proof (parse_fmt_uint (2 ^ 63 - 1) n ltac:(lia)) as Hp. destruct (fmt_uint_digits n Hge) as [_ (c & t & Ec & Hc)]. rewrite Ec in *.
    unfold parse_i64. assert (c <> 45) as Hne by (intros ->; done). destruct c as [|p|p]; [exact Hp| |exact Hp]. do 6 (destruct p as [p|p|]; try exact Hp); done.
Qed.

Lemma fmt_int_chars (n : Z) : Forall (fun c => c = 45 \/ is_ascii_digit c = true) (as_bytes (fmt_int n)).
Proof.
  assert (forall m, 0 <= m -> Forall (fun c => c = 45 \/ is_ascii_digit c = true) (as_bytes (fmt_uint m))) as Hu.
  { intros m Hm. destruct (fmt_uint_digits m Hm) as [Hp%parse_digits_digits _]. eapply Forall_impl; [exact Hp|]. auto. }
  unfold fmt_int. destruct (Z.ltb_spec n 0); [|by apply Hu]. rewrite as_bytes_app. apply Forall_app. split; [repeat constructor|]. apply Hu. lia.
Qed.
Lemma fmt_int_free (c n : Z) : c <> 45 -> is_ascii_digit c = false -> c ∉ as_bytes (fmt_int n).
Proof. intros Hc Hd Hin. pose proof (fmt_int_chars n) as Hf. rewrite Forall_forall in Hf. apply Hf in Hin as [?|?]; congruence. Qed.

(** *** Rows *)
Record Row : Type := { ro_jail : bytes; ro_ip : bytes; ro_timeofban : Z; ro_bantime : Z }.
(** The text of a row as [sqlite3] prints it. *)
Definition row_text (r : Row) : bytes :=
  ro_jail r ++ 124 :: ro_ip r ++ 124 :: as_bytes (fmt_int (ro_timeofban r)) ++ 124 :: as_bytes (fmt_int (ro_bantime r)).
Definition row_active (now_epoch : Z) (r : Row) : bool := (ro_bantime r =? -1) || (now_epoch <? ro_timeofban r + ro_bantime r).
Definition row_ok (r : Row) : Prop :=
  (124 ∉ ro_jail r) /\ (124 ∉ ro_ip r) /\ (10 ∉ ro_jail r) /\ (10 ∉ ro_ip r) /\ -1 <= ro_bantime r /\ MIN_TIMESTAMP <= ro_timeofban r <= MAX_TIMESTAMP /\
  ro_timeofban r + ro_bantime r <= MAX_TIMESTAMP.
Definition ban_of_row (r : Row) : Fail2banBan := {|
  fb_jail := ro_jail r; fb_ip := ro_ip r; fb_banned_at := secs (ro_timeofban r);
  fb_expires_at := if ro_bantime r =? -1 then None else Some (secs (ro_timeofban r + ro_bantime r)) |}.

Lemma lines_of_texts (ws : list bytes) : Forall (fun w => (10 ∉ w) /\ last w <> Some 13) ws -> lines (concat ((fun w => w ++ [10]) <$> ws)) = ws.
Proof.
  intros Hws. unfold lines. induction Hws as [|w ws [Hn Hl] _ IH]; [done|]. rewrite fmap_cons. cbn [concat]. rewrite <- app_assoc. cbn [app].
  rewrite split_on_sep, split_on_free by done. cbn [app]. destruct (split_on_ne 10 (concat ((fun w => w ++ [10]) <$> ws))) as (p & ps & Ep). rewrite Ep in *.
  change (lines_of (w :: p :: ps)) with (strip_cr w :: lines_of (p :: ps)). rewrite IH. f_equal. unfold strip_cr. by rewrite bool_decide_eq_false_2.
Qed.

Lemma row_text_line (r : Row) : row_ok r -> (10 ∉ row_text r) /\ last (row_text r) <> Some 13.
Proof.
  intros (_ & _ & Hj & Hi & _). split.
  - unfold row_text. rewrite !not_elem_of_app, !not_elem_of_cons, !not_elem_of_app, !not_elem_of_cons, !not_elem_of_app, !not_elem_of_cons. split_and!; try done; by apply fmt_int_free.
  - unfold row_text. rewrite !app_comm_cons, !app_assoc, last_app.
    destruct (last (124 :: as_bytes (fmt_int (ro_bantime r)))) as [c|] eqn:E; [|by rewrite last_None in E]. intros [= ->].
    apply last_Some_elem_of, elem_of_cons in E as [?|E]; [done|]. by apply fmt_int_free in E.
Qed.

Lemma row_parsed (now : DateTime) (r : Row) : row_ok r -> parse_ban now (row_text r) = Some (ban_of_row r).
Proof.
  intros (Hj & Hi & _ & _ & Hb & Ht & Hs). unfold parse_ban, split4, row_text, MIN_TIMESTAMP, MAX_TIMESTAMP in *.
  rewrite (proj2 (split_once_spec 124 _ _ _) (conj eq_refl Hj)). cbn [mbind option_bind]. rewrite (proj2 (split_once_spec 124 _ _ _) (conj eq_refl Hi)). cbn [mbind option_bind].
  rewrite (proj2 (split_once_spec 124 _ _ _) (conj eq_refl (fmt_int_free 124 (ro_timeofban r) ltac:(done) ltac:(done)))). cbn [mbind option_bind].
  rewrite !parse_fmt_int by lia. cbn [default from_option]. unfold id. unfold ban_of_parts, ban_of_row, from_timestamp, i64_add, MIN_TIMESTAMP, MAX_TIMESTAMP.
  rewrite Z.mod_small by lia. rewrite (proj2 (Z.leb_le _ (ro_timeofban r))), (proj2 (Z.leb_le (ro_timeofban r) _)) by lia. cbn [andb default from_option]. do 2 f_equal.
  destruct (Z.eqb_spec (ro_bantime r) (-1)) as [->|Hne]; [done|]. rewrite (proj2 (Z.ltb_ge _ _)) by lia.
  rewrite (proj2 (Z.leb_le _ _)), (proj2 (Z.leb_le _ _)) by lia. cbn [andb]. do 2 f_equal. lia.
Qed.

(** Reading fail2ban's database loses nothing: when the program prints the
    active rows, every one becomes a ban with its address and its end, in order,
    and what is not permanent ends in the future. *)
Theorem rows_read_back `{Sqlite3} (now_epoch : Z) (now : DateTime) (db : bytes) (rows : list Row) (Hfound : sqlite_found = true) (Hok : Forall row_ok rows)
  (Hutf : valid_utf8 (concat ((fun r => row_text r ++ [10]) <$> List.filter (row_active now_epoch) rows)) = true)
  (Hrun : sqlite_run db (active_sql now_epoch) = Exited true (concat ((fun r => row_text r ++ [10]) <$> List.filter (row_active now_epoch) rows)) []) :
  let bans := ban_of_row <$> List.filter (row_active now_epoch) rows in
  read_active_bans now_epoch now db = Ok bans /\ Forall (fun b => forall e, fb_expires_at b = Some e -> secs now_epoch < e) bans.
Proof.
  intros bans. assert (Forall (fun r => row_ok r /\ row_active now_epoch r = true) (List.filter (row_active now_epoch) rows)) as Hf.
  { apply Forall_forall. intros r [Hin Ha]%elem_of_lfilter. rewrite Forall_forall in Hok. auto. }
  split.
  - unfold read_active_bans. rewrite Hfound, Hrun. cbn [negb]. rewrite from_utf8_lossy_id by done. f_equal.
    rewrite (list_fmap_compose row_text (fun w => w ++ [10])), lines_of_texts.
    + subst bans. clear Hutf Hrun. induction Hf as [|r rs [Hr _] _ IH]; [done|]. rewrite !fmap_cons. cbn [omap list_omap]. by rewrite row_parsed, IH.
    + apply Forall_fmap. eapply Forall_impl; [exact Hf|]. intros r [Hr _]. by apply row_text_line.
  - subst bans. apply Forall_fmap. eapply Forall_impl; [exact Hf|]. intros r [_ Ha] e. cbn. unfold row_active in Ha. destruct (ro_bantime r =? -1); [done|].
    intros [= <-]. cbn in Ha. apply Z.ltb_lt in Ha. unfold secs, nanos_per_sec. lia.
Qed.

(** ** Durations *)
Lemma secs_to_hg_reads_back (n : Z) : 0 <= n <= u64_max -> parse_duration_string (as_bytes (secs_to_hg n)) = Some (Ok (from_secs n)).
Proof.
  intros Hn. unfold secs_to_hg. destruct (n mod 86400 =? 0) eqn:E1; [breflect; by apply (unit_reads_back n 86400 "d" 100)|].
  destruct (n mod 3600 =? 0) eqn:E2; [breflect; by apply (unit_reads_back n 3600 "h" 104)|].
  destruct (n mod 60 =? 0) eqn:E3; [breflect; by apply (unit_reads_back n 60 "m" 109)|].
  rewrite <- (Z.div_1_r n) at 1. apply (unit_reads_back n 1 "s" 115); try done. apply Z.mod_1_r.
Qed.

(** A ban sent over the socket ends when fail2ban's would: the duration in the
    request is read back by the daemon as what is left of the ban, to the second,
    and is never zero. *)
Theorem import_keeps_end (now exp : DateTime) (Hrange : exp - now <= secs u64_max) :
  exists d, parse_duration_string (import_duration now exp) = Some (Ok (Human (Some d))) /\ 0 < d /\ (secs 1 <= exp - now -> exp - secs 1 < now + d <= exp).
Proof.
  set (n := Z.max 1 ((exp - now) ÷ nanos_per_sec)). exists (secs n). unfold import_duration. fold n. unfold secs, nanos_per_sec in *.
  assert (0 <= exp - now -> (exp - now) ÷ 1000000000 = (exp - now) / 1000000000) as Hq by (intros Hp; apply Z.quot_div_nonneg; lia).
  assert (n <= u64_max) as Hmax.
  { subst n. apply Z.max_lub; [done|]. destruct (Z.le_gt_cases 0 (exp - now)) as [Hp|Hp].
    - unfold nanos_per_sec. rewrite Hq by lia. apply Z.div_le_upper_bound; lia.
    - unfold nanos_per_sec. pose proof (Z.quot_opp_l (now - exp) 1000000000 ltac:(done)) as Ho. replace (- (now - exp)) with (exp - now) in Ho by lia.
      rewrite Ho. pose proof (Z.quot_pos (now - exp) 1000000000 ltac:(lia) ltac:(done)). unfold u64_max. lia. }
  split_and!; [apply secs_to_hg_reads_back; lia|lia|]. intros Hp. subst n. unfold nanos_per_sec in *. rewrite Hq by lia.
  pose proof (Z.div_mod (exp - now) 1000000000 ltac:(lia)). pose proof (Z.mod_pos_bound (exp - now) 1000000000 ltac:(lia)).
  assert (1 <= (exp - now) / 1000000000) by (apply Z.div_le_lower_bound; lia). lia.
Qed.

(** ** The import into the daemon *)
(** The first ends no earlier than the second. *)
Definition lasts (a b : option DateTime) : Prop := match a, b with None, _ => True | Some x, Some y => y <= x | Some _, None => False end.
#[export] Instance lasts_po : PreOrder lasts.
Proof. split; [intros [x|]; simpl; [lia|done]|intros [x|] [y|] [z|]; simpl; try done; lia]. Qed.
(** Every ban is still there and ends no earlier. *)
Definition longer (m m' : Mem) : Prop :=
  forall n r, bans (ban_store m) !! n = Some r -> exists r', bans (ban_store m') !! n = Some r' /\ lasts (expires_at r') (expires_at r).
#[export] Instance longer_po : PreOrder longer.
Proof.
  split; [intros m n r Hr; by exists r|]. intros m1 m2 m3 H12 H23 n r Hr. destruct (H12 n r Hr) as (r2 & Hr2 & Hl). destruct (H23 n r2 Hr2) as (r3 & Hr3 & Hl').
  exists r3. split; [done|]. by etrans.
Qed.

Section import.
Context {E : Type} `{Enforcer E} {enf_laws : EnforcerLaws E} `{IpNetOps} {laws : IpNetLaws} `{AddrText} {addr : AddrWf} `{ApiText} `{Codec WalEntry} `{Crc32}.

Definition covered (b : Fail2banBan) (m : Mem) : Prop :=
  exists a r, parse_ip (fb_ip b) = Some a /\ bans (ban_store m) !! ip_to_net a = Some r /\ lasts (expires_at r) (fb_expires_at b).
Lemma covered_longer (b : Fail2banBan) (m m' : Mem) : longer m m' -> covered b m -> covered b m'.
Proof using. intros Hl (a & r & Ha & Hr & Hx). destruct (Hl _ _ Hr) as (r' & Hr' & Hx'). exists a, r'. split_and!; [done..|]. by etrans. Qed.

Lemma host_trunc (a : IpAddr) : wf_ip a -> net_trunc (ip_to_net a) = ip_to_net a.
Proof using laws.
  intros Ha. rewrite net_trunc_law by (by apply ip_to_net_wf). destruct a as [x|x]; cbn [ip_to_net trunc_ref]; f_equal; rewrite mask_bits_alt, Nat.sub_diag; simpl;
    rewrite Z.mod_1_r; lia.
Qed.

Lemma find_by_subject (m : Mem) (n : IpNet) : safe m -> List.find (fun b => bool_decide (subject b = n)) (get_all_bans (ban_store m)) = bans (ban_store m) !! n.
Proof using.
  intros [_ Hb]. assert (forall b, b ∈ get_all_bans (ban_store m) <-> bans (ban_store m) !! subject b = Some b) as Hin.
  { intros b. unfold get_all_bans. rewrite list_elem_of_fmap. split.
    - intros ([k b'] & -> & Hk%elem_of_map_to_list). cbn. by destruct (Hb _ _ Hk) as (_ & _ & -> & _).
    - intros Hl. exists (subject b, b). split; [done|]. by apply elem_of_map_to_list. }
  destruct (List.find _ _) as [b|] eqn:Ef.
  - apply List.find_some in Ef as [Hl%list_elem_of_In Hs]. breflect. subst n. symmetry. by apply Hin.
  - destruct (bans (ban_store m) !! n) as [b|] eqn:Eb; [|done]. destruct (Hb _ _ Eb) as (_ & _ & Hs & _). exfalso.
    assert (b ∈ get_all_bans (ban_store m)) as Hl%list_elem_of_In by (apply Hin; by rewrite Hs). eapply List.find_none in Ef; [|exact Hl]. cbn in Ef. by breflect.
Qed.

(** What the import writes: a ban of that address that ends no earlier than the
    one that was there and no earlier than fail2ban's. *)
Lemma import_record_spec (sm : StateManager) (net : IpNet) (b : Fail2banBan) : safe (mem sm) ->
  let r := import_record sm (imported_record net b) in
  subject r = net /\ lasts (expires_at r) (fb_expires_at b) /\ forall old, bans (ban_store (mem sm)) !! net = Some old -> lasts (expires_at r) (expires_at old).
Proof using.
  intros Hs. unfold import_record. cbn [subject imported_record]. rewrite find_by_subject by done. destruct (bans (ban_store (mem sm)) !! net) as [old|] eqn:Eo.
  - destruct (proj2 Hs _ _ Eo) as (_ & _ & Hsub & _). cbn [expires_at imported_record]. destruct (keeps_existing _ _) eqn:Ek; cbn [subject expires_at imported_record].
    + split_and!; [done| |by intros ? [= <-]]. unfold keeps_existing in Ek. destruct (expires_at old), (fb_expires_at b); simpl; try done. lia.
    + split_and!; [done|reflexivity|]. intros ? [= <-]. unfold keeps_existing in Ek. destruct (expires_at old), (fb_expires_at b); simpl; try done. lia.
  - cbn. by split_and!.
Qed.

Lemma import_one_ok (b : Fail2banBan) (ad ad' : Admin E) (info info' : ImportResult) : admin_ok ad -> import_one (ad, info) b = (ad', info') ->
  admin_ok ad' /\ longer (mem (ad_state ad)) (mem (ad_state ad')) /\
  ((exists m, im_errors info' = im_errors info ++ [m]) \/ (im_errors info' = im_errors info /\ covered b (mem (ad_state ad')))).
Proof using laws addr.
  intros Hok. unfold import_one. destruct (parse_ip (fb_ip b)) as [a|] eqn:Ea; [|intros [= <- <-]; split_and!; [done|reflexivity|left; by eexists]].
  pose proof (parse_ip_wf _ _ Ea) as Hwa. set (r := import_record _ _). destruct (import_record_spec (ad_state ad) (ip_to_net a) b (proj1 Hok)) as (Hsub & Hlast & Hold). fold r in Hsub, Hlast, Hold.
  pose proof (recorded_ban_ok r ad) as Hr. rewrite Hsub, host_trunc in Hr by done. specialize (Hr (ip_to_net_wf _ Hwa) eq_refl Hok).
  pose proof (add_ban_mem r (ad_state ad)) as Hm. cbn zeta in Hm. rewrite Hsub, host_trunc in Hm by done. destruct (add_ban r (ad_state ad)) as [sm res]. destruct Hr as [Hr1 Hr2].
  assert (longer (mem (ad_state ad)) (mem sm)) as Hl.
  { rewrite Hm. destruct (is_ok res); [|reflexivity]. intros n x Hx. cbn. rewrite bans_add. cbn. destruct (decide (n = ip_to_net a)) as [->|Hne].
    - eexists. rewrite lookup_insert_eq. split; [done|]. cbn. by apply Hold.
    - exists x. rewrite lookup_insert_ne by done. by split. }
  destruct res as [u|e]; [|intros [= <- <-]; split_and!; [done..|left; by eexists]]. specialize (Hr2 eq_refl). cbn [is_ok] in Hm.
  pose proof (on_enforcer_state (apply_ban (ip_to_net a)) (with_ad_state sm ad)) as Hst. destruct (on_enforcer _ _) as [ad2 res2]. cbn in Hr2, Hst.
  intros [= <- <-]. rewrite Hst. split_and!; [done..|]. destruct res2 as [u2|e2]; [right|left; by eexists]. split; [done|].
  exists a, (set_subject (ip_to_net a) r). rewrite Hm. cbn. rewrite bans_add. cbn. by rewrite lookup_insert_eq.
Qed.

Lemma import_bans_ok (bs : list Fail2banBan) (ad ad' : Admin E) (info info' : ImportResult) : admin_ok ad -> foldl import_one (ad, info) bs = (ad', info') ->
  admin_ok ad' /\ longer (mem (ad_state ad)) (mem (ad_state ad')) /\ (exists ms, im_errors info' = im_errors info ++ ms) /\
  (im_errors info' = im_errors info -> Forall (fun b => covered b (mem (ad_state ad'))) bs).
Proof using laws addr.
  revert ad info. induction bs as [|b bs IH]; intros ad info Hok; cbn [foldl].
  - intros [= <- <-]. split_and!; [done|reflexivity|exists []; by rewrite app_nil_r|done].
  - destruct (import_one (ad, info) b) as [ad1 info1] eqn:E1. intros Hf. destruct (import_one_ok b ad ad1 info info1 Hok E1) as (Hok1 & Hl1 & Hcov).
    destruct (IH ad1 info1 Hok1 Hf) as (Hok2 & Hl2 & (ms & Hms) & Hall). split_and!; [done|by etrans| |].
    + destruct Hcov as [[m Hm]|[Hm _]]; rewrite Hms, Hm; [exists (m :: ms); by rewrite <- app_assoc|by exists ms].
    + intros Hno. destruct Hcov as [[m Hm]|[Hm Hc]].
      * rewrite Hms, Hm, <- app_assoc in Hno. apply (f_equal length) in Hno. rewrite !length_app in Hno. simpl in Hno. lia.
      * constructor; [by apply (covered_longer b _ _ Hl2)|]. apply Hall. congruence.
Qed.

(** Importing fail2ban's bans never weakens the daemon: no ban disappears or
    ends earlier, nothing whitelisted is banned or blocked, and when no error is
    reported every address fail2ban had banned is banned at least as long. *)
Theorem import_only_extends `{Sqlite3} (now_epoch : Z) (now : DateTime) (db jail : option bytes) (all : list Fail2banBan) (ad ad' : Admin E) (info : ImportResult)
  (Hok : admin_ok ad) (Hread : read_active_bans now_epoch now (default DEFAULT_F2B_DB db) = Ok all)
  (Himp : fail2ban_import now_epoch now db jail ad = (ad', Ok info)) :
  admin_ok ad' /\ longer (mem (ad_state ad)) (mem (ad_state ad')) /\
  (im_errors info = [] -> forall b, b ∈ all -> of_jail jail b = true -> covered b (mem (ad_state ad'))).
Proof using laws addr.
  unfold fail2ban_import in Himp. rewrite Hread in Himp. unfold import_bans in Himp. destruct (foldl import_one _ _) as [ad1 info1] eqn:Ef. injection Himp as <- <-.
  destruct (import_bans_ok _ _ _ _ _ Hok Ef) as (H1' & H2' & _ & Hall). split_and!; [done..|]. intros He b Hin Hj. specialize (Hall He). rewrite Forall_forall in Hall.
  apply Hall, elem_of_lfilter. by split.
Qed.
End import.

(** ** A sample takeover *)
Module TakeoverSample.
#[local] Existing Instances ipnet_ref ipnet_ref_laws toy_crc.
#[local] Instance wal_codec : Codec WalEntry := codec_ref 0 WalEntry.
Definition guest : IpAddr := IpV4 (ipv4 9 9 9 9).
#[local] Instance addr : AddrText := {| parse_ip s := if bool_decide (s = as_bytes "9.9.9.9") then Some guest else None; parse_net _ := None |}.
#[local] Instance addr_wf : AddrWf.
Proof. split; [|done]. intros s a. cbn. case_bool_decide; [|done]. intros [= <-]. vm_compute. split; congruence. Qed.
#[local] Instance texts : ApiText := {| rfc3339 _ := ""%string; debug_source _ := ""%string; io_error_text _ := ""%string; json_bans _ := ""%string |}.
#[local] Instance lower : UnicodeLower := to_ascii_lowercase.

Definition rows : list Row :=
  [ {| ro_jail := as_bytes "sshd"; ro_ip := as_bytes "9.9.9.9"; ro_timeofban := 100; ro_bantime := -1 |};
    {| ro_jail := as_bytes "sshd"; ro_ip := as_bytes "9.9.9.9"; ro_timeofban := 100; ro_bantime := 600 |};
    {| ro_jail := as_bytes "sshd"; ro_ip := as_bytes "9.9.9.9"; ro_timeofban := 100; ro_bantime := 60 |} ].
Definition printed : bytes := concat ((fun r => row_text r ++ [10]) <$> List.filter (row_active 300) rows).
#[local] Instance sqlite : Sqlite3 := {| sqlite_found := true; sqlite_run _ _ := Exited true printed [] |}.

Lemma rows_read_back_witness : read_active_bans 300 (secs 300) DEFAULT_F2B_DB = Ok (ban_of_row <$> List.filter (row_active 300) rows).
Proof.
  apply (rows_read_back 300 (secs 300) DEFAULT_F2B_DB rows).
  - reflexivity.
  - repeat constructor; cbn; try (by apply (bool_decide_unpack _)); unfold MIN_TIMESTAMP, MAX_TIMESTAMP; try lia; vm_compute; repeat (intros Hin; try (apply elem_of_cons in Hin as [?|Hin]); try done); by apply not_elem_of_nil in Hin.
  - by vm_compute.
  - reflexivity.
Defined.

Definition before : Admin ObserveOnlyEnforcer :=
  {| ad_state := {| mem := mem_new; wal_writer := wal_open [] Sync; snapshot_disk := None; io_faults := [] |};
     ad_enforcer := Some {| oo_bans := [] |}; ad_hook := true; ad_announced := [] |}.
Definition outcome := fail2ban_import 300 (secs 300) None (Some (as_bytes "sshd")) before.
Definition taken : list Fail2banBan := ban_of_row <$> List.filter (row_active 300) rows.
Definition report : ImportResult := {| im_imported := 2; im_skipped := 0; im_errors := [] |}.

Lemma import_only_extends_witness : admin_ok outcome.1 /\ forall b, b ∈ taken -> covered b (mem (ad_state outcome.1)).
Proof.
  destruct (import_only_extends 300 (secs 300) None (Some (as_bytes "sshd")) taken before outcome.1 report) as (Hok & _ & Hall).
  - split; [apply safe_new|]. simpl. intros e [= <-]. split; [constructor|]. intros n []%not_elem_of_nil.
  - by vm_compute.
  - by vm_compute.
  - split; [exact Hok|]. intros b Hb. apply Hall; [reflexivity|exact Hb|]. apply list_elem_of_fmap in Hb as (r & -> & [Hr _]%elem_of_lfilter).
    apply elem_of_cons in Hr as [->|[->|[->|[]%not_elem_of_nil]%elem_of_cons]%elem_of_cons]; by vm_compute.
Defined.

Lemma import_keeps_end_witness : exists d, parse_duration_string (import_duration (secs 300) (secs 700)) = Some (Ok (Human (Some d))) /\ 0 < d.
Proof. destruct (import_keeps_end (secs 300) (secs 700)) as (d & Hd & Hp & _); [unfold secs, u64_max, nanos_per_sec; lia|]. exists d. split; [exact Hd|exact Hp]. Defined.

(** What goes wrong: a permanent jail becomes a ban of one second, a time that
    ends in a character of several bytes is not refused, and a long one wraps
    around. *)
Definition jail_file : bytes := line_of "[DEFAULT]" ++ line_of "bantime = 10m" ++ line_of "[SSHD]" ++ line_of "bantime = -1" ++ line_of "maxretry: 3".
Example permanent_jail_lost :
  (fun js => jc_ban_time_secs <$> js !! as_bytes "sshd") <$> parse_jail_configs [Ok jail_file] = Some (Some (Some 1)) /\
  parse_f2b_time (as_bytes "10" ++ [194; 181]) = None /\
  parse_f2b_time (as_bytes "30500568904944w") = Some (Some (30500568904944 * 604800 - 2 ^ 64)).
Proof. by vm_compute. Qed.

Example jail_snippet :
  generate_config_snippet (default ∅ (parse_jail_configs [Ok jail_file])) =
  line_of "# HiveGuard config snippet generated from fail2ban jails" ++ line_of "# Add or merge these settings into your config.yaml" ++ line_of "" ++
  line_of "detectors:" ++ line_of "  # imported from fail2ban jail 'sshd'" ++ line_of "  ssh_bruteforce:" ++ line_of "    enabled: true" ++
  line_of "    threshold: 3" ++ line_of "    window: 10m" ++ line_of "    ban_duration: 1s" ++ line_of "".
Proof. by vm_compute. Qed.
End TakeoverSample.
