(* ===== verification/Cluster.v ===== *)
(** * The cluster runtime ([hiveguard-daemon/src/cluster.rs])

    The actor that owns the coordinator, the trust table and the connections of
    a node, and shares the ban state and the firewall with the rest of the
    daemon. Every event of its inbox is a step; tasks it spawns (sending,
    signing, dialling, the digest round) are effects, and those that come back
    to it are steps of their own. QUIC connections are opaque handles, clock
    readings and random choices are arguments. Metrics and logging are left
    out. A step that panics, which ends the actor, is [None]. *)
From S2P Require Import Prelude Text Models Hlc Crdt BanStore Whitelist Wal Snapshot State Recovery Admission Floats AntiPoison Trust Signed Membership Gossip Sync Wire Enforcer Firewall Durations Config.
Local Open Scope Z_scope.

(** ** Local policy on remote bans *)

(** [chrono::Duration::seconds] panics beyond [i64::MAX] milliseconds, and so
    does adding a duration past the last representable date. *)
Definition chrono_seconds (n : Z) : option Duration := if Z.abs n <=? i64_max / 1000 then Some (secs n) else None.
Definition num_seconds (d : Duration) : Z := Z.quot d nanos_per_sec.

Definition set_window (created : DateTime) (expiry : option DateTime) (r : BanRecord) : BanRecord :=
  {| subject := subject r; created_at := created; expires_at := expiry; severity := severity r; reason := reason r;
     evidence_hash := evidence_hash r; source := source r; geo_info := geo_info r |}.
Definition set_source (s : BanSource) (r : BanRecord) : BanRecord :=
  {| subject := subject r; created_at := created_at r; expires_at := expires_at r; severity := severity r; reason := reason r;
     evidence_hash := evidence_hash r; source := s; geo_info := geo_info r |}.

Section policy.
(** The last instant [chrono] represents. *)
Context (max_utc : DateTime).

Definition utc_add (t : DateTime) (d : Duration) : option DateTime := if t + d <=? max_utc then Some (t + d) else None.

(** What is offered to peers; the outer option is the panic. *)
Definition announced_form (record : BanRecord) (max_secs : Z) (now : DateTime) : option (option BanRecord) :=
  match expires_at record with
  | None => Some None
  | Some expiry =>
      if (expiry <=? now) || (expiry <=? created_at record) || (max_secs <=? 0) then Some None else
      max ← chrono_seconds max_secs;
      if expiry - created_at record <=? max then Some (Some record) else
      let elapsed := Z.max 0 (num_seconds (now - created_at record)) in
      let slice := elapsed / max_secs in
      if i64_max <? slice * max_secs then Some None else
      offset ← chrono_seconds (slice * max_secs);
      created ← utc_add (created_at record) offset;
      window_end ← utc_add created max;
      Some (Some (set_window created (Some (Z.min expiry window_end)) record))
  end.

Definition announce_max_secs (policy : TrustConfig) : Z := Z.min i64_max (remote_max_ttl_secs policy).
End policy.

Definition min_prefix (policy : TrustConfig) (n : IpNet) : Z :=
  match n with NetV4 _ _ => remote_min_prefix_v4 policy | NetV6 _ _ => remote_min_prefix_v6 policy end.

Definition remote_policy_allows (policy : TrustConfig) (record : BanRecord) (now : DateTime) : bool :=
  match expires_at record with
  | None => false
  | Some expiry =>
      (remote_max_ttl_secs policy <=? i64_max) &&
      (min_prefix policy (subject record) <=? Z.of_nat (prefix_len (subject record))) &&
      (created_at record <=? now + minutes 5) &&
      (now <? expiry) && (created_at record <? expiry) &&
      (num_seconds (expiry - created_at record) <=? remote_max_ttl_secs policy) &&
      (num_seconds (expiry - now) <=? remote_max_ttl_secs policy)
  end.

(** ** The actor *)
Definition POW_DIFFICULTY : Z := 16.
Definition MAINTENANCE_INTERVAL : Duration := secs 5.
Definition DIGEST_MISMATCH_REPORT_INTERVAL : Duration := minutes 30.
Definition SEED_UNREACHABLE_WARN_AFTER : Duration := minutes 60.
Definition SEED_UNREACHABLE_REPEAT : Duration := secs (24 * 60 * 60).
Definition DIFF_BATCH : nat := 256.

Record Seed : Type := { raw_addr : string; sd_fingerprint : option string }.

(** The fields that never change. *)
Record ActorConfig : Type := {
  ac_node_id : string;
  ac_pkcs8 : list Z;
  ac_strict : bool;
  ac_allowed : gset string;
  ac_founders : gset string;
  ac_seeds : list Seed;
  ac_policy : TrustConfig;
}.

(** The budgets of incoming records. *)
Record Limits : Type := {
  li_rate : RateLimiter;
  li_raw : RateLimiter;
  li_window : DateTime;
  li_counts : gmap string Z;
}.

(** The state of the anti-entropy exchange with each peer. *)
Record Exchange : Type := {
  ex_offsets : gmap string nat;
  ex_requests : gmap string DateTime;
  ex_mismatches : gmap string (Z * option DateTime);
}.

Section actor.
Context {Conn : Type}.

(** [signing_slot]: at most one job is under way. *)
Record SigningJob : Type := { sj_conns : list Conn; sj_records : list BanRecord }.

Record ClusterActor : Type := {
  ca_config : ActorConfig;
  ca_coordinator : SyncCoordinator;
  ca_trust : TrustManager;
  ca_limits : Limits;
  ca_exchange : Exchange;
  ca_cache : SigningCache;
  ca_signing : option SigningJob;
  ca_connections : gmap string Conn;
  ca_outages : gmap string (DateTime * option DateTime);
  ca_dialing : gset string;
}.

Definition with_peers (pm : PeerManager) (a : ClusterActor) : ClusterActor :=
  let c := ca_coordinator a in
  {| ca_config := ca_config a; ca_coordinator := {| co_swim := co_swim c; co_gossip := co_gossip c; co_peers := pm |};
     ca_trust := ca_trust a; ca_limits := ca_limits a; ca_exchange := ca_exchange a; ca_cache := ca_cache a;
     ca_signing := ca_signing a; ca_connections := ca_connections a; ca_outages := ca_outages a; ca_dialing := ca_dialing a |}.
Definition with_coordinator (c : SyncCoordinator) (a : ClusterActor) : ClusterActor :=
  {| ca_config := ca_config a; ca_coordinator := c;
     ca_trust := ca_trust a; ca_limits := ca_limits a; ca_exchange := ca_exchange a; ca_cache := ca_cache a;
     ca_signing := ca_signing a; ca_connections := ca_connections a; ca_outages := ca_outages a; ca_dialing := ca_dialing a |}.
Definition with_trust (t : TrustManager) (a : ClusterActor) : ClusterActor :=
  {| ca_config := ca_config a; ca_coordinator := ca_coordinator a;
     ca_trust := t; ca_limits := ca_limits a; ca_exchange := ca_exchange a; ca_cache := ca_cache a;
     ca_signing := ca_signing a; ca_connections := ca_connections a; ca_outages := ca_outages a; ca_dialing := ca_dialing a |}.
Definition with_limits (l : Limits) (a : ClusterActor) : ClusterActor :=
  {| ca_config := ca_config a; ca_coordinator := ca_coordinator a;
     ca_trust := ca_trust a; ca_limits := l; ca_exchange := ca_exchange a; ca_cache := ca_cache a;
     ca_signing := ca_signing a; ca_connections := ca_connections a; ca_outages := ca_outages a; ca_dialing := ca_dialing a |}.
Definition with_exchange (x : Exchange) (a : ClusterActor) : ClusterActor :=
  {| ca_config := ca_config a; ca_coordinator := ca_coordinator a;
     ca_trust := ca_trust a; ca_limits := ca_limits a; ca_exchange := x; ca_cache := ca_cache a;
     ca_signing := ca_signing a; ca_connections := ca_connections a; ca_outages := ca_outages a; ca_dialing := ca_dialing a |}.
Definition with_signing (c : SigningCache) (j : option SigningJob) (a : ClusterActor) : ClusterActor :=
  {| ca_config := ca_config a; ca_coordinator := ca_coordinator a;
     ca_trust := ca_trust a; ca_limits := ca_limits a; ca_exchange := ca_exchange a; ca_cache := c;
     ca_signing := j; ca_connections := ca_connections a; ca_outages := ca_outages a; ca_dialing := ca_dialing a |}.
Definition with_links (cs : gmap string Conn) (o : gmap string (DateTime * option DateTime)) (d : gset string) (a : ClusterActor) : ClusterActor :=
  {| ca_config := ca_config a; ca_coordinator := ca_coordinator a;
     ca_trust := ca_trust a; ca_limits := ca_limits a; ca_exchange := ca_exchange a; ca_cache := ca_cache a;
     ca_signing := ca_signing a; ca_connections := cs; ca_outages := o; ca_dialing := d |}.

(** What a step asks of the network and of the task runtime. *)
Inductive Effect : Type :=
| SendMsg (conn : Conn) (msg : ClusterMessage)
| CloseConn (conn : Conn) (why : string)
| SpawnReader (node : string) (conn : Conn)
| SpawnDial (addr : string)
| SpawnDigest (conns : list Conn).

(** The readings and choices one step may use. *)
Record step_env : Type := {
  se_now : DateTime;
  se_gossip : DateTime;
  se_apply : DateTime;
  se_instant : DateTime;
  se_filter : nat -> DateTime;
  se_raw : nat -> DateTime * DateTime;
  se_eligible : BanRecord -> DateTime;
  se_ticks : nat -> DateTime * DateTime;
  se_choose : list PeerInfo -> option PeerInfo;
  se_timeouts : readings;
  se_open : Conn -> bool;
}.

Definition send_to (node : string) (msg : ClusterMessage) (a : ClusterActor) : list Effect :=
  match ca_connections a !! node with Some conn => [SendMsg conn msg] | None => [] end.

(** *** Connections *)
Definition register_peer (now : DateTime) (node : string) (key : list Z) (addr : string) (a : ClusterActor) : ClusterActor :=
  let pm := co_peers (ca_coordinator a) in
  let pm := match get_peer node pm with
            | Some _ => (update_peer_state now node Alive pm).1
            | None => add_peer (set_key key (peer_new now node addr node)) pm
            end in
  let pm := match get_peer node pm with
            | Some p => if bool_decide (public_key_bytes p = key) then pm else add_peer (set_key key p) pm
            | None => pm
            end in
  let a := with_peers pm a in
  with_trust (if bool_decide (node ∈ ac_founders (ca_config a)) then register_founder_node now node (ca_trust a)
              else register_node now node (ca_trust a)) a.

Definition on_peer_connected (env : step_env) (node : string) (key : list Z) (addr : string) (conn : Conn) (a : ClusterActor)
    : ClusterActor * list Effect :=
  if bool_decide (node = ac_node_id (ca_config a)) then (a, [CloseConn conn "self"]) else
  if ac_strict (ca_config a) && negb (bool_decide (node ∈ ac_allowed (ca_config a))) then (a, [CloseConn conn "unknown peer"]) else
  let fresh :=
    let a := register_peer (se_now env) node key addr a in
    (with_links (<[node := conn]> (ca_connections a)) (ca_outages a) (ca_dialing a) a, [SpawnReader node conn]) in
  match ca_connections a !! node with
  | Some existing =>
      if se_open env existing then (register_peer (se_now env) node key addr a, [CloseConn conn "duplicate"]) else fresh
  | None => fresh
  end.

(** *** Failure detection and maintenance *)
Definition drop_peer (node : string) (a : ClusterActor) : ClusterActor * list Effect :=
  let closed := match ca_connections a !! node with Some conn => [CloseConn conn "dead"] | None => [] end in
  let a := with_links (delete node (ca_connections a)) (ca_outages a) (ca_dialing a) a in
  (with_peers (remove_peer node (co_peers (ca_coordinator a))).1 a, closed).

Definition probe_action (st : ClusterActor * list Effect) (action : SwimAction) : ClusterActor * list Effect :=
  let '(a, out) := st in
  let me := ac_node_id (ca_config a) in
  match action with
  | SendPing target digest => (a, out ++ send_to target (Ping me digest) a)
  | SendPingReq target via => (a, out ++ flat_map (fun v => send_to v (PingReq me target) a) via)
  | MarkDead node | RemovePeer node => let '(a', more) := drop_peer node a in (a', out ++ more)
  | MarkSuspect _ | NoAction => (a, out)
  end.

Definition on_probe (env : step_env) (a : ClusterActor) : ClusterActor * list Effect :=
  let '(c, actions) := run_probe_cycle (se_now env) (se_choose env) (se_timeouts env) [] (ca_coordinator a) in
  foldl probe_action (with_coordinator c a, []) actions.

(** The entry of a seed that is down, and whether a warning is due. *)
Definition track_seed_outage (seed : Seed) (connected : bool) (now : DateTime) (a : ClusterActor) : ClusterActor * bool :=
  match sd_fingerprint seed with
  | None => (a, false)
  | Some fp =>
      if bool_decide (fp = ac_node_id (ca_config a)) then (a, false) else
      if connected then (with_links (ca_connections a) (delete (raw_addr seed) (ca_outages a)) (ca_dialing a) a, false) else
      let '(since, last_warn) := default (now, None) (ca_outages a !! raw_addr seed) in
      let due := (SEED_UNREACHABLE_WARN_AFTER <=? elapsed now since) &&
                 match last_warn with Some last => SEED_UNREACHABLE_REPEAT <=? elapsed now last | None => true end in
      (with_links (ca_connections a) (<[raw_addr seed := (since, if due then Some now else last_warn)]> (ca_outages a)) (ca_dialing a) a, due)
  end.

Definition dial (addr : string) (a : ClusterActor) : ClusterActor * list Effect :=
  if bool_decide (addr ∈ ca_dialing a) then (a, [])
  else (with_links (ca_connections a) (ca_outages a) ({[ addr ]} ∪ ca_dialing a) a, [SpawnDial addr]).

Definition seed_connected (a : ClusterActor) (seed : Seed) : bool :=
  match sd_fingerprint seed with
  | Some fp => bool_decide (is_Some (ca_connections a !! fp))
  | None => negb (bool_decide (ca_connections a = ∅))
  end.

Definition maintain_seed (now : DateTime) (st : ClusterActor * list Effect) (seed : Seed) : ClusterActor * list Effect :=
  let '(a, out) := st in
  let connected := seed_connected a seed in
  let '(a, _) := track_seed_outage seed connected now a in
  if connected then (a, out) else let '(a, more) := dial (raw_addr seed) a in (a, out ++ more).

Definition connections_of `{HashOrder} (nodes : gset string) (a : ClusterActor) : list Conn :=
  omap (fun n => ca_connections a !! n) (hash_keys nodes).

Definition on_maintenance `{HashOrder} (env : step_env) (a : ClusterActor) : ClusterActor * list Effect :=
  let '(a, out) := foldl (maintain_seed (se_instant env)) (a, []) (ac_seeds (ca_config a)) in
  match connections_of (dom (ca_connections a)) a with
  | [] => (a, out)
  | conns => (a, out ++ [SpawnDigest conns])
  end.

(** *** Announcing bans *)
Definition send_signed_bans (targets : list string) (records : list BanRecord) (a : ClusterActor) : ClusterActor :=
  match ca_signing a with
  | Some _ => a
  | None => with_signing (ca_cache a) (Some {| sj_conns := omap (fun n => ca_connections a !! n) targets; sj_records := records |}) a
  end.

Definition on_local_ban `{HashOrder} (max_utc : DateTime) (env : step_env) (rec : BanRecord) (a : ClusterActor) : option ClusterActor :=
  if is_cluster_source (source rec) then Some a else
  form ← announced_form max_utc rec (announce_max_secs (ac_policy (ca_config a))) (se_now env);
  Some (match form with
        | None => a
        | Some rec => send_signed_bans (hash_keys (dom (ca_connections a))) [rec] a
        end).

(** [filter_map] over a function that may panic. *)
Fixpoint filter_map_panic {A B} (f : A -> option (option B)) (l : list A) : option (list B) :=
  match l with
  | [] => Some []
  | x :: l' =>
      o ← f x;
      rest ← filter_map_panic f l';
      Some (match o with Some y => y :: rest | None => rest end)
  end.

Definition rotate_left {A} (k : nat) (l : list A) : list A := drop k l ++ take k l.

(** [sort_by_key] is stable. *)
Definition by_subject `{IpNetOps} (r s : BanRecord) : Prop := String.le (net_to_string (subject r)) (net_to_string (subject s)).
#[export] Instance by_subject_dec `{IpNetOps} (r s : BanRecord) : Decision (by_subject r s).
Proof. unfold by_subject. apply _. Defined.

Definition announceable (r : BanRecord) : bool :=
  negb (is_cluster_source (source r)) && bool_decide (is_Some (expires_at r)).

(** The records of one difference response, and the next offset. *)
Definition diff_batch {A} (offset : nat) (missing : list A) : list A * nat :=
  let len := length missing in
  let batch := take DIFF_BATCH (rotate_left (offset mod len) missing) in
  (batch, ((offset + length batch) mod len)%nat).

Section exchange.
Context `{Blake3} `{IpNetOps} `{BincodeSer version}.

Definition on_diff_request (max_utc : DateTime) (env : step_env) (from : string) (missing_keys : list string) (sm : StateManager)
    (a : ClusterActor) : option ClusterActor :=
  let x := ca_exchange a in
  let now := se_instant env in
  if default false ((fun last => elapsed now last <? MAINTENANCE_INTERVAL) <$> ex_requests x !! from) then Some a else
  let x := {| ex_offsets := ex_offsets x; ex_requests := <[from := now]> (ex_requests x); ex_mismatches := ex_mismatches x |} in
  let missing := co_handle_diff_request missing_keys (get_all_bans (ban_store (mem sm))) in
  let missing := merge_sort by_subject (List.filter announceable missing) in
  let offset := default 0%nat (ex_offsets x !! from) in
  match missing with
  | [] => Some (with_exchange {| ex_offsets := <[from := offset]> (ex_offsets x); ex_requests := ex_requests x; ex_mismatches := ex_mismatches x |} a)
  | _ =>
      let '(batch, offset) := diff_batch offset missing in
      batch ← filter_map_panic (fun r => announced_form max_utc r (announce_max_secs (ac_policy (ca_config a))) (se_now env)) batch;
      Some (send_signed_bans [from] batch
        (with_exchange {| ex_offsets := <[from := offset]> (ex_offsets x); ex_requests := ex_requests x; ex_mismatches := ex_mismatches x |} a))
  end.

(** The mismatch counter of a peer; a report resets it. *)
Definition note_digest_mismatch (peer : string) (now : DateTime) (a : ClusterActor) : ClusterActor :=
  let x := ca_exchange a in
  let '(count, last) := default (0, None) (ex_mismatches x !! peer) in
  let count := u64_add count 1 in
  let due := match last with Some last => DIGEST_MISMATCH_REPORT_INTERVAL <=? elapsed now last | None => true end in
  with_exchange {| ex_offsets := ex_offsets x; ex_requests := ex_requests x;
                   ex_mismatches := <[peer := if due then (0, Some now) else (count, last)]> (ex_mismatches x) |} a.

Definition on_digest_exchange (env : step_env) (from : string) (root : list Z) (sm : StateManager) (a : ClusterActor)
    : ClusterActor * list Effect :=
  match co_handle_digest_exchange root (get_all_bans (ban_store (mem sm))) from with
  | Some (SendDiffRequest _ missing_keys) =>
      let a := note_digest_mismatch from (se_instant env) a in (a, send_to from (DiffRequest missing_keys) a)
  | _ =>
      let x := ca_exchange a in
      (with_exchange {| ex_offsets := ex_offsets x; ex_requests := ex_requests x;
                        ex_mismatches := alter (fun e => (0, e.2)) from (ex_mismatches x) |} a, [])
  end.

Definition local_digest (sm : StateManager) : list Z := compute_digest (get_all_bans (ban_store (mem sm))).
End exchange.
End actor.
Arguments ClusterActor : clear implicits.
Arguments Effect : clear implicits.
Arguments step_env : clear implicits.
Arguments SigningJob : clear implicits.

(** ** Bans from peers *)
Section remote.
Context {E : Type} `{Enforcer E} `{IpNetOps} `{Codec WalEntry} `{Crc32}.

Definition remote_changes_state (sm : StateManager) (record : BanRecord) : bool :=
  match is_banned (ban_store (mem sm)) (net_addr (subject record)) with
  | None => true
  | Some existing =>
      bool_decide (subject existing = subject record) && is_cluster_source (source existing) && newer record existing
  end.

(** The test a record passes before and after the quorum filter. *)
Definition applicable (policy : TrustConfig) (now : DateTime) (sm : StateManager) (rec : BanRecord) : bool :=
  remote_policy_allows policy rec now && accepts_remote_ban rec sm &&
  negb (overlaps (whitelist (mem sm)) (subject rec)) && remote_changes_state sm rec.

(** One iteration of [apply_bans]. *)
Definition apply_remote (policy : TrustConfig) (now : DateTime) (from : string) (st : StateManager * E) (rec : BanRecord)
    : StateManager * E :=
  let '(sm, e) := st in
  if negb (remote_policy_allows policy rec now) then st else
  if overlaps (whitelist (mem sm)) (subject rec) then st else
  if negb (accepts_remote_ban rec sm) || negb (remote_changes_state sm rec) then st else
  let rec' := if is_cluster_source (source rec) then rec else set_source (ClusterPeer from) rec in
  match add_ban rec' sm with
  | (sm', Ok _) => (sm', (apply_ban (subject rec) e).1)
  | (sm', Err _) => (sm', e)
  end.

Definition apply_bans (policy : TrustConfig) (now : DateTime) (from : string) (records : list BanRecord) (sm : StateManager) (e : E)
    : StateManager * E := foldl (apply_remote policy now from) (sm, e) records.
End remote.

(** The daemon's state as the actor sees it. *)
Record Node (Conn E : Type) : Type := {
  nd_actor : ClusterActor Conn;
  nd_state : StateManager;
  nd_enforcer : E;
}.
Arguments nd_actor {Conn E} n.
Arguments nd_state {Conn E} n.
Arguments nd_enforcer {Conn E} n.
Arguments Build_Node {Conn E}.

Definition with_actor {Conn E} (a : ClusterActor Conn) (nd : Node Conn E) : Node Conn E := Build_Node a (nd_state nd) (nd_enforcer nd).

(** Events of the inbox, and the tasks that report back. *)
Inductive ActorEvent (Conn : Type) : Type :=
| PeerConnected (node : string) (key : list Z) (addr : string) (conn : Conn)
| Inbound (from : string) (msg : ClusterMessage)
| LocalBan (rec : BanRecord)
| Probe
| Maintenance
| SigningDone
| DialDone (addr : string)
| DigestRound (conns : list Conn).
Arguments PeerConnected {Conn}.
Arguments Inbound {Conn}.
Arguments LocalBan {Conn}.
Arguments Probe {Conn}.
Arguments Maintenance {Conn}.
Arguments SigningDone {Conn}.
Arguments DialDone {Conn}.
Arguments DigestRound {Conn}.

Section node.
Context {Conn E : Type} `{Enforcer E} `{IpNetOps} `{Codec WalEntry} `{Crc32}.
Context `{Blake3} `{Ed25519} `{HashOrder} `{BincodeSer version, BincodeSer BanRecord, BincodeSer SignedBanRecord}.

(** [peer_public_keys]: the peer table is keyed by node id. *)
Definition peer_public_keys (pm : PeerManager) : gmap string (list Z) :=
  list_to_map ((fun p => (node_id p, public_key_bytes p)) <$>
    List.filter (fun p => negb (bool_decide (public_key_bytes p = []))) (all_peers pm)).

(** The checks before signatures are verified; the limiter is charged last. *)
Fixpoint prefilter (env : step_env Conn) (policy : TrustConfig) (sm : StateManager) (from : string) (i : nat)
    (records : list SignedBanRecord) (batch : gset (string * string)) (raw : RateLimiter) : list SignedBanRecord * RateLimiter :=
  match records with
  | [] => ([], raw)
  | signed :: rest =>
      let key := (signer_id signed, record_key (sb_record signed)) in
      if negb (applicable policy (se_filter env i) sm (sb_record signed)) || bool_decide (key ∈ batch)
      then prefilter env policy sm from (S i) rest batch raw
      else
        let '(raw, ok) := check_and_record (se_raw env i).1 (se_raw env i).2 from raw in
        let '(kept, raw) := prefilter env policy sm from (S i) rest ({[ key ]} ∪ batch) raw in
        (if ok then signed :: kept else kept, raw)
  end.

Definition ingest_remote_bans (env : step_env Conn) (from : string) (records : list SignedBanRecord) (nd : Node Conn E) : Node Conn E :=
  match records with
  | [] => nd
  | _ =>
      let a := nd_actor nd in
      let policy := ac_policy (ca_config a) in
      let l := ca_limits a in
      let stale := secs 60 <=? elapsed (se_instant env) (li_window l) in
      let counts := if stale then ∅ else li_counts l in
      let window := if stale then se_instant env else li_window l in
      let '(kept, raw) := prefilter env policy (nd_state nd) from 0 records ∅ (li_raw l) in
      let '(c, rate, action) :=
        co_handle_ban_sync_filtered_with_policy (se_gossip env) from (ca_trust a) (peer_public_keys (co_peers (ca_coordinator a)))
          (fun rec => applicable policy (se_eligible env rec) (nd_state nd) rec) (se_ticks env) kept counts (li_rate l) (ca_coordinator a) in
      let finish counts := with_limits {| li_rate := rate; li_raw := raw; li_window := window; li_counts := counts |} (with_coordinator c a) in
      match action with
      | Some (ApplyBans out) =>
          let counts := <[from := default 0 (counts !! from) + Z.of_nat (length out)]> counts in
          let '(sm, e) := apply_bans policy (se_apply env) from out (nd_state nd) (nd_enforcer nd) in
          Build_Node (finish counts) sm e
      | _ => with_actor (finish counts) nd
      end
  end.

Definition on_inbound (max_utc : DateTime) (env : step_env Conn) (from : string) (msg : ClusterMessage) (nd : Node Conn E)
    : option (Node Conn E * list (Effect Conn)) :=
  let a := with_peers (update_peer_state (se_now env) from Alive (co_peers (ca_coordinator (nd_actor nd)))).1 (nd_actor nd) in
  let nd := with_actor a nd in
  let me := ac_node_id (ca_config a) in
  match msg with
  | Ping _ _ => Some (nd, send_to from (Pong me (local_digest (nd_state nd))) a)
  | Pong _ _ => Some (with_actor (with_coordinator (co_handle_pong (se_now env) from (ca_coordinator a)) a) nd, [])
  | PingReq _ target => Some (nd, send_to target (Ping me (local_digest (nd_state nd))) a)
  | BanSync _ records | DiffResponse records => Some (ingest_remote_bans env from records nd, [])
  | DigestExchange root => let '(a, out) := on_digest_exchange env from root (nd_state nd) a in Some (with_actor a nd, out)
  | DiffRequest missing => a ← on_diff_request max_utc env from missing (nd_state nd) a; Some (with_actor a nd, [])
  | MembershipUpdate _ => Some (nd, [])
  end.

(** The blocking job: sign what can be signed, in order. *)
Fixpoint sign_all (id : string) (pkcs8 : list Z) (records : list BanRecord) (c : SigningCache) : SigningCache * list SignedBanRecord :=
  match records with
  | [] => (c, [])
  | r :: rest =>
      let '(c, res) := cache_sign r id pkcs8 POW_DIFFICULTY c in
      let '(c, signed) := sign_all id pkcs8 rest c in
      (c, match res with Ok s => s :: signed | Err _ => signed end)
  end.

Definition signing_done (a : ClusterActor Conn) : ClusterActor Conn * list (Effect Conn) :=
  match ca_signing a with
  | None => (a, [])
  | Some job =>
      let '(c, signed) := sign_all (ac_node_id (ca_config a)) (ac_pkcs8 (ca_config a)) (sj_records job) (ca_cache a) in
      (with_signing c None a,
       flat_map (fun page => (fun conn => SendMsg conn (DiffResponse page)) <$> sj_conns job) (signed_pages signed))
  end.

Definition cluster_step (max_utc : DateTime) (env : step_env Conn) (ev : ActorEvent Conn) (nd : Node Conn E)
    : option (Node Conn E * list (Effect Conn)) :=
  let a := nd_actor nd in
  let lift r := let '(a, out) := r in Some (with_actor a nd, out) in
  match ev with
  | PeerConnected node key addr conn => lift (on_peer_connected env node key addr conn a)
  | Inbound from msg => on_inbound max_utc env from msg nd
  | LocalBan rec => a ← on_local_ban max_utc env rec a; Some (with_actor a nd, [])
  | Probe => lift (on_probe env a)
  | Maintenance => lift (on_maintenance env a)
  | SigningDone => lift (signing_done a)
  | DialDone addr => Some (with_actor (with_links (ca_connections a) (ca_outages a) (ca_dialing a ∖ {[ addr ]}) a) nd, [])
  | DigestRound conns => Some (nd, (fun conn => SendMsg conn (DigestExchange (local_digest (nd_state nd)))) <$> conns)
  end.

(** [forward_connected]: the node id is the fingerprint of the presented key. *)
Definition forward_connected (cert : option (list Z)) (addr : string) (conn : Conn) : option (ActorEvent Conn) :=
  match cert with
  | Some key => Some (PeerConnected (to_hex (blake3 key)) key addr conn)
  | None => None
  end.

(** The fingerprints accepted in strict mode. *)
Definition allowed_fingerprints (seeds : list SeedPeer) : gset string := list_to_set (omap seed_fingerprint seeds).
Definition resolved_seeds (seeds : list SeedPeer) : list Seed :=
  (fun s => {| raw_addr := seed_address s; sd_fingerprint := seed_fingerprint s |}) <$> seeds.
Definition initial_trust (now : DateTime) (founders : gset string) (trust : TrustConfig) : TrustManager :=
  foldl (fun tm fp => register_founder_node now fp tm) (manager_new (ban_threshold trust)) (hash_keys founders).

(** [spawn_cluster] once the identity is loaded and the socket bound. *)
Definition cluster_new (now : DateTime) (id : string) (pkcs8 : list Z) (node : NodeConfig) (trust : TrustConfig) : ClusterActor Conn :=
  let founders : gset string := list_to_set (founder_nodes node) in
  {| ca_config := {| ac_node_id := id; ac_pkcs8 := pkcs8;
                     ac_strict := match cluster_mode node with Strict => true | AutoAccept => false end;
                     ac_allowed := allowed_fingerprints (seeds node); ac_founders := founders;
                     ac_seeds := resolved_seeds (seeds node); ac_policy := trust |};
     ca_coordinator := coordinator_new id swim_default {| fanout := 8; pow_difficulty := POW_DIFFICULTY |};
     ca_trust := initial_trust now founders trust;
     ca_limits := {| li_rate := limiter_new (Z.to_nat (max_bans_per_minute trust)) (minutes 1);
                     li_raw := limiter_new (Z.to_nat 10000) (minutes 1); li_window := now; li_counts := ∅ |};
     ca_exchange := {| ex_offsets := ∅; ex_requests := ∅; ex_mismatches := ∅ |};
     ca_cache := cache_new DEFAULT_CAPACITY; ca_signing := None; ca_connections := ∅; ca_outages := ∅; ca_dialing := ∅ |}.
End node.
