(* ===== verification/ClusterSpec.v ===== *)
(** * What the cluster runtime promises

    The window in which a ban is announced, the rotation of the anti-entropy
    responses, and the safety of what peers can make a node do: which bans
    enter the store, on whose word, and what the firewall gets to see. *)
From S2P Require Import Prelude Text Models Hlc Crdt BanStore Whitelist Wal Snapshot State Recovery Admission Floats AntiPoison Trust Signed Membership Gossip Sync Wire Enforcer Firewall Durations Config Cluster.
Local Open Scope Z_scope.

(** ** Announced windows *)
Lemma num_seconds_le (d n : Z) : 0 <= d -> d <= secs n -> num_seconds d <= n.
Proof. unfold num_seconds, secs, nanos_per_sec. intros Hd Hn. rewrite Z.quot_div_nonneg by lia. apply Z.div_le_upper_bound; lia. Qed.

(** The slice an instant falls into. *)
Lemma slice_spec (d m : Z) : 0 <= d -> 0 < m ->
  let k := Z.max 0 (num_seconds d) / m in 0 <= k /\ secs (k * m) <= d < secs (k * m) + secs m.
Proof.
  intros Hd Hm. unfold num_seconds, secs, nanos_per_sec. rewrite Z.quot_div_nonneg by lia.
  rewrite Z.max_r by (apply Z.div_pos; lia). rewrite Z.div_div by lia. cbv zeta.
  pose proof (Z.div_mod d (1000000000 * m) ltac:(lia)) as Hdm. pose proof (Z.mod_pos_bound d (1000000000 * m) ltac:(lia)) as Hr.
  split; [apply Z.div_pos; lia|]. split; nia.
Qed.
Lemma slice_unique (d m k k' : Z) : 0 < m -> secs (k * m) <= d < secs (k * m) + secs m -> secs (k' * m) <= d < secs (k' * m) + secs m -> k = k'.
Proof. unfold secs, nanos_per_sec. nia. Qed.

Section announced.
Context (max_utc : DateTime).

(** The receiver takes bans of this length and width. *)
Definition receives (policy : TrustConfig) (max_secs : Z) (n : IpNet) : Prop :=
  max_secs <= remote_max_ttl_secs policy <= i64_max /\ min_prefix policy n <= Z.of_nat (prefix_len n).

Lemma policy_allows_window (policy : TrustConfig) (max_secs : Z) (w : BanRecord) (expiry now : DateTime) :
  receives policy max_secs (subject w) -> expires_at w = Some expiry -> created_at w < expiry -> expiry - created_at w <= secs max_secs ->
  created_at w <= now < expiry -> remote_policy_allows policy w now = true.
Proof.
  intros [Hm Hp] He Hce Hlen Hnow. unfold remote_policy_allows. rewrite He.
  assert (H1 : num_seconds (expiry - created_at w) <= max_secs) by (apply num_seconds_le; lia).
  assert (H2 : num_seconds (expiry - now) <= max_secs) by (apply num_seconds_le; lia).
  unfold minutes, secs, nanos_per_sec. repeat (apply andb_true_iff; split); try apply Z.leb_le; try apply Z.ltb_lt; lia.
Qed.

(** The windows a ban is announced in, as the code documents them. *)
Definition window_of (r w : BanRecord) (max_secs expiry : Z) : Prop :=
  (expiry - created_at r <= secs max_secs /\ w = r) \/
  (secs max_secs < expiry - created_at r /\ exists k, 0 <= k /\
     w = set_window (created_at r + secs (k * max_secs)) (Some (Z.min expiry (created_at r + secs (k * max_secs) + secs max_secs))) r).

Lemma announced_form_window (r w : BanRecord) (max_secs now expiry : Z) : expires_at r = Some expiry -> created_at r <= now ->
  announced_form max_utc r max_secs now = Some (Some w) ->
  0 < max_secs /\ now < expiry /\ created_at r < expiry /\ is_Some (chrono_seconds max_secs) /\ window_of r w max_secs expiry /\
  created_at w <= now /\ forall e, expires_at w = Some e -> now < e.
Proof.
  intros He Hc. unfold announced_form. rewrite He. destruct (_ || _ || _) eqn:Ed; [done|]. apply orb_false_iff in Ed as [[E1 E2]%orb_false_iff E3].
  breflect. destruct (chrono_seconds max_secs) as [mx|] eqn:Em; [|done]. simpl.
  assert (mx = secs max_secs) as -> by (unfold chrono_seconds in Em; case_match; congruence).
  destruct (Z.leb_spec (expiry - created_at r) (secs max_secs)).
  { intros [= <-]. split_and!; try lia; [by eexists|by left|]. intros e. rewrite He. intros [= <-]. done. }
  destruct (slice_spec (now - created_at r) max_secs ltac:(lia) ltac:(lia)) as [Hk Hin]. set (k := _ / max_secs) in *.
  destruct (i64_max <? k * max_secs); [done|]. destruct (chrono_seconds (k * max_secs)) as [o|] eqn:Eo; [|done]. simpl.
  assert (o = secs (k * max_secs)) as -> by (unfold chrono_seconds in Eo; case_match; congruence). unfold utc_add.
  destruct (created_at r + secs (k * max_secs) <=? max_utc); [|done]. simpl. destruct (_ <=? max_utc); [|done]. simpl. intros [= <-].
  split_and!; try lia; [by eexists|right; split; [done|by exists k]|simpl; lia|]. intros e [= <-]. lia.
Qed.

(** Every instant of a window announces it. *)
Lemma announced_form_stable (r w : BanRecord) (max_secs now now' expiry : Z) : expires_at r = Some expiry -> created_at r <= now ->
  announced_form max_utc r max_secs now = Some (Some w) ->
  created_at w <= now' -> (forall e, expires_at w = Some e -> now' < e) -> announced_form max_utc r max_secs now' = Some (Some w).
Proof.
  intros He Hc Hn H1 H2. destruct (announced_form_window r w max_secs now expiry He Hc Hn) as (Hm & Hne & Hce & [mx Hmx] & Hw & Hcw & Hew).
  unfold announced_form in *. rewrite He, Hmx in *. assert (mx = secs max_secs) as -> by (unfold chrono_seconds in Hmx; case_match; congruence).
  assert (Hlt : now' < expiry).
  { destruct Hw as [[_ ->]|(_ & k & _ & ->)]; [by apply H2|]. specialize (H2 _ eq_refl). lia. }
  assert (E1 : ((expiry <=? now') || (expiry <=? created_at r) || (max_secs <=? 0)) = false) by (rewrite !orb_false_iff, !Z.leb_gt; lia).
  rewrite E1. destruct Hw as [[Hlen ->]|(Hlen & k & Hk & ->)].
  - cbn [mbind option_bind]. by rewrite (proj2 (Z.leb_le _ _) Hlen).
  - simpl in H1, H2, Hcw, Hew. specialize (H2 _ eq_refl). specialize (Hew _ eq_refl).
    assert (Hsl : 0 <= secs (k * max_secs)) by (unfold secs, nanos_per_sec; nia).
    destruct (slice_spec (now - created_at r) max_secs ltac:(lia) ltac:(lia)) as [_ Hin].
    destruct (slice_spec (now' - created_at r) max_secs ltac:(lia) ltac:(lia)) as [_ Hin'].
    rewrite (slice_unique _ _ _ k Hm Hin) in Hn by lia. rewrite (slice_unique _ _ _ k Hm Hin') by lia.
    by destruct ((expiry <=? now) || _ || _).
Qed.

(** C28: A ban of any length reaches peers as windows they accept: what is announced
    of a local ban is the part of it that contains the present, within its
    lifetime; a peer whose limits are no tighter accepts it at every instant of
    that window; and throughout the window the same record is announced, so its
    proof of work is mined once. *)
Theorem announced_window_accepted (policy : TrustConfig) (r w : BanRecord) (max_secs now now' : Z)
  (Hcreated : created_at r <= now) (Hform : announced_form max_utc r max_secs now = Some (Some w))
  (Hpeer : receives policy max_secs (subject r)) :
  exists first last, created_at w = first /\ expires_at w = Some last /\ created_at r <= first <= now /\ now < last /\
    subject w = subject r /\ (forall e, expires_at r = Some e -> last <= e) /\
    (first <= now' < last -> remote_policy_allows policy w now' = true /\ announced_form max_utc r max_secs now' = Some (Some w)).
Proof.
  assert (exists expiry, expires_at r = Some expiry) as [expiry He] by (unfold announced_form in Hform; destruct (expires_at r); [eauto|done]).
  destruct (announced_form_window r w max_secs now expiry He Hcreated Hform) as (Hm & Hne & Hce & _ & Hw & Hcw & Hew).
  assert (exists last, expires_at w = Some last /\ last <= expiry /\ created_at r <= created_at w /\ subject w = subject r /\ last - created_at w <= secs max_secs)
    as (last & Hl & Hle & Hfirst & Hs & Hlen).
  { destruct Hw as [[Hl ->]|(Hl & k & Hk & ->)]; [exists expiry; by repeat split|]. 
    assert (0 <= secs (k * max_secs)) by (unfold secs, nanos_per_sec; nia). eexists. split_and!; [reflexivity| | |done|]; simpl; lia. }
  specialize (Hew last Hl). exists (created_at w), last. split_and!; try done.
  - intros e. rewrite He. by intros [= <-].
  - intros Hin. split; [eapply policy_allows_window; [by rewrite Hs|exact Hl|lia|exact Hlen|exact Hin]|].
    apply (announced_form_stable r w max_secs now now' expiry He Hcreated Hform); [lia|]. rewrite Hl. intros e [= <-]. lia.
Qed.

(** No live ban is withheld: while limits and dates are representable, a ban
    that has not expired and is not permanent is announced. *)
Lemma announced_form_total (r : BanRecord) (max_secs now expiry : Z) : expires_at r = Some expiry -> created_at r <= now -> now < expiry ->
  0 < max_secs <= i64_max / 1000 -> now + secs max_secs <= max_utc -> now - created_at r <= secs (i64_max / 1000) ->
  exists w, announced_form max_utc r max_secs now = Some (Some w).
Proof.
  intros He Hc Hn Hm Hmax Hage. unfold announced_form. rewrite He. assert (Hlim : 0 <= i64_max / 1000 <= i64_max) by done.
  rewrite (proj2 (orb_false_iff _ _)); [|rewrite orb_false_iff, !Z.leb_gt; lia].
  assert (Hsec : forall n, 0 <= n <= i64_max / 1000 -> chrono_seconds n = Some (secs n))
    by (intros n ?; unfold chrono_seconds; rewrite (proj2 (Z.leb_le (Z.abs n) _)) by (rewrite Z.abs_eq by lia; lia); done).
  revert Hlim Hm Hage Hsec. generalize (i64_max / 1000) as lim. intros lim Hlim Hm Hage Hsec.
  rewrite (Hsec max_secs) by lia. cbn [mbind option_bind]. destruct (_ <=? secs max_secs); [by eexists|].
  destruct (slice_spec (now - created_at r) max_secs ltac:(lia) ltac:(lia)) as [Hk Hin]. set (k := _ / max_secs) in *.
  assert (Hkm : 0 <= k * max_secs <= lim) by (split; [nia|unfold secs, nanos_per_sec in *; lia]).
  rewrite (proj2 (Z.ltb_ge i64_max (k * max_secs))) by lia.
  rewrite Hsec by done. cbn [mbind option_bind]. unfold utc_add.
  rewrite (proj2 (Z.leb_le (created_at r + secs (k * max_secs)) max_utc)) by (unfold secs, nanos_per_sec in *; lia). cbn [mbind option_bind].
  rewrite (proj2 (Z.leb_le _ max_utc)) by lia. by eexists.
Qed.

(** A lifetime limit that validation accepts as representable but [chrono]
    cannot express as milliseconds stops the actor at the first live ban. *)
Lemma long_ttl_panics (policy : TrustConfig) (r : BanRecord) (now expiry : Z) : expires_at r = Some expiry -> now < expiry -> created_at r < expiry ->
  i64_max / 1000 < remote_max_ttl_secs policy -> announced_form max_utc r (announce_max_secs policy) now = None.
Proof.
  intros He Hn Hc Hm. unfold announced_form. rewrite He. assert (Hp : i64_max / 1000 < announce_max_secs policy).
  { unfold announce_max_secs. apply Z.min_glb_lt; [done|exact Hm]. }
  assert (Hl : 0 <= i64_max / 1000) by done. revert Hl Hp. unfold chrono_seconds. generalize (i64_max / 1000) as lim. intros lim Hl Hp.
  rewrite (proj2 (orb_false_iff _ _)) by (rewrite orb_false_iff, !Z.leb_gt; lia). by rewrite (proj2 (Z.leb_gt (Z.abs (announce_max_secs policy)) lim)) by lia.
Qed.
End announced.

(** ** Rotation of difference responses *)
Section rotation.
Context {A : Type}.

Lemma rotate_lookup (k i : nat) (l : list A) : (k <= length l)%nat -> (i < length l)%nat ->
  rotate_left k l !! i = l !! ((k + i) mod length l)%nat.
Proof.
  intros Hk Hi. unfold rotate_left. destruct (decide (i < length l - k)%nat) as [Hlt|Hge].
  - rewrite lookup_app_l by (rewrite length_drop; lia). rewrite lookup_drop. by rewrite Nat.mod_small by lia.
  - rewrite lookup_app_r by (rewrite length_drop; lia). rewrite length_drop. rewrite lookup_take, decide_True by lia.
    f_equal. replace (k + i)%nat with (i - (length l - k) + 1 * length l)%nat by lia. rewrite Nat.Div0.mod_add, Nat.mod_small; lia.
Qed.

Lemma diff_batch_spec (offset : nat) (l : list A) : l <> [] ->
  let '(batch, next) := diff_batch offset l in
  (forall i, (i < Nat.min DIFF_BATCH (length l))%nat -> batch !! i = l !! ((offset + i) mod length l)%nat) /\
  next = ((offset + Nat.min DIFF_BATCH (length l)) mod length l)%nat.
Proof.
  intros Hl. assert (Hn : length l <> 0%nat) by by destruct l. unfold diff_batch.
  pose proof (Nat.mod_upper_bound offset (length l) Hn) as Ho.
  assert (Hlen : length (rotate_left (offset mod length l) l) = length l) by (unfold rotate_left; rewrite length_app, length_drop, length_take; lia).
  rewrite length_take, Hlen. split; [|done]. intros i Hi. rewrite lookup_take, decide_True by lia. rewrite rotate_lookup by lia. f_equal. by rewrite Nat.Div0.add_mod_idemp_l.
Qed.

(** What [n] requests in a row are answered with. *)
Fixpoint diff_rounds (n : nat) (offset : nat) (l : list A) : list A :=
  match n with
  | O => []
  | S n' => let '(batch, next) := diff_batch offset l in batch ++ diff_rounds n' next l
  end.

(** No ban starves: whatever a peer keeps refusing, as many requests as there
    are batches of 256 offer it every missing record, wherever the rotation
    stood. *)
Theorem diff_rotation_fair (offset : nat) (l : list A) (x : A) (Hx : x ∈ l) :
  x ∈ diff_rounds (S (length l / DIFF_BATCH)) offset l.
Proof.
  apply list_elem_of_lookup in Hx as [p Hp]. pose proof (lookup_lt_Some _ _ _ Hp) as Hlt. set (n := length l) in *. set (b := Nat.min DIFF_BATCH n).
  assert (Hb : (0 < b)%nat) by (subst b; unfold DIFF_BATCH; lia). assert (Hl : l <> []) by (intros ->; simpl in *; lia).
  set (d := ((p + (n - offset mod n)) mod n)%nat). assert (Hd : (d < n)%nat) by (apply Nat.mod_upper_bound; lia).
  assert (Hpd : ((offset + d) mod n = p)%nat).
  { unfold d. rewrite Nat.Div0.add_mod_idemp_r. rewrite <- Nat.Div0.add_mod_idemp_l.
    pose proof (Nat.mod_upper_bound offset n ltac:(lia)). replace (offset mod n + (p + (n - offset mod n)))%nat with (p + 1 * n)%nat by lia.
    rewrite Nat.Div0.mod_add. by apply Nat.mod_small. }
  assert (Hrounds : forall m, (d < m * b)%nat -> x ∈ diff_rounds m offset l).
  { clearbody d. intros m. revert offset d Hd Hpd. induction m as [|m IH]; intros offset d Hd Hpd Hm; [lia|]. cbn [diff_rounds].
    pose proof (diff_batch_spec offset l Hl) as Hs. destruct (diff_batch offset l) as [batch next]. destruct Hs as [Hs Hnext]. apply elem_of_app.
    destruct (decide (d < b)%nat) as [Hdb|Hdb]; [left; apply list_elem_of_lookup; exists d; rewrite Hs by exact Hdb; fold n; by rewrite Hpd|right].
    apply (IH next (d - b)%nat); [lia| |lia]. rewrite Hnext. fold n b. rewrite Nat.Div0.add_mod_idemp_l. by replace (offset + b + (d - b))%nat with (offset + d)%nat by lia. }
  apply Hrounds. pose proof (Nat.div_mod_eq n DIFF_BATCH). pose proof (Nat.mod_upper_bound n DIFF_BATCH). subst b. unfold DIFF_BATCH in *. lia.
Qed.
End rotation.

(** ** What peers can do to the state *)
Section remote.
Context {E : Type} `{Enforcer E} {enf_laws : EnforcerLaws E} `{IpNetOps} {laws : IpNetLaws} `{Codec WalEntry} `{Crc32}.

Definition is_remote (r : BanRecord) : Prop := is_cluster_source (source r) = true.

(** The shared state is sound: bans are clear of the whitelist, the store's
    counters are right and have room for [room] more, nothing the firewall
    holds is whitelisted. *)
Definition shared_ok (room : nat) (sm : StateManager) (e : E) : Prop :=
  safe (mem sm) /\ store_inv (ban_store (mem sm)) /\ Z.of_nat (size (bans (ban_store (mem sm))) + room) < 2 ^ 32 /\
  guarded (whitelist (mem sm)) e.

(** The form in which a record received from [from] is stored. *)
Definition stored_form (from : string) (r : BanRecord) : BanRecord :=
  set_subject (trunc_ref (subject r)) (if is_cluster_source (source r) then r else set_source (ClusterPeer from) r).

(** A ban that may enter: a record of [records], within the policy, clear of
    the whitelist and not revoked. *)
Definition admissible (policy : TrustConfig) (now : DateTime) (from : string) (records : list BanRecord) (sm : StateManager) (n : IpNet) (r : BanRecord) : Prop :=
  exists r0, r0 ∈ records /\ r = stored_form from r0 /\ subject r = n /\ remote_policy_allows policy r now = true /\
    overlaps (whitelist (mem sm)) n = false /\ accepts_remote_ban r0 sm = true.

Lemma stored_remote (from : string) (r : BanRecord) : is_remote (stored_form from r).
Proof. unfold is_remote, stored_form. by destruct (is_cluster_source (source r)) eqn:Es. Qed.

(** How the store may change: local bans stay as they are, and what is new or
    replaced is an admissible remote ban. *)
Definition remote_change (ok : IpNet -> BanRecord -> Prop) (sm sm' : StateManager) : Prop :=
  whitelist (mem sm') = whitelist (mem sm) /\ revocations (mem sm') = revocations (mem sm) /\
  forall n, bans (ban_store (mem sm')) !! n = bans (ban_store (mem sm)) !! n \/
    exists r, bans (ban_store (mem sm')) !! n = Some r /\ ok n r /\
      match bans (ban_store (mem sm)) !! n with Some old => is_remote old | None => True end.

Lemma remote_change_refl (ok : IpNet -> BanRecord -> Prop) (sm : StateManager) : remote_change ok sm sm.
Proof. split_and!; [done|done|]. by left. Qed.

Lemma remote_change_trans (ok : IpNet -> BanRecord -> Prop) (sm1 sm2 sm3 : StateManager) :
  (forall n r, ok n r -> is_remote r) -> remote_change ok sm1 sm2 -> remote_change ok sm2 sm3 -> remote_change ok sm1 sm3.
Proof.
  intros Hrem (Hw1 & Hr1 & Hb1) (Hw2 & Hr2 & Hb2). split_and!; [congruence|congruence|]. intros n.
  destruct (Hb2 n) as [E2|(r & Hr & Hok & Hold)].
  - rewrite E2. apply Hb1.
  - right. exists r. split_and!; [done..|]. destruct (Hb1 n) as [E1|(r1 & Hr1' & Hok1 & Hold1)]; [by rewrite E1 in Hold|done].
Qed.

(** The test on the store never lets a record replace a local ban. *)
Lemma remote_changes_spec (sm : StateManager) (r old : BanRecord) : store_inv (ban_store (mem sm)) -> safe (mem sm) -> wf_net (subject r) ->
  remote_changes_state sm r = true -> bans (ban_store (mem sm)) !! trunc_ref (subject r) = Some old -> is_remote old /\ newer r old = true.
Proof using laws.
  intros Hinv Hsafe Hwf Hc Hold. unfold remote_changes_state in Hc.
  assert (Hip : wf_ip (net_addr (subject r))) by apply Hwf.
  assert (Hin : in_net (trunc_ref (subject r)) (net_addr (subject r))) by (rewrite trunc_ref_in_net; by destruct (subject r)).
  destruct (Hsafe) as [_ Hall]. destruct (Hall _ _ Hold) as (_ & Hcan & Hsub & _).
  pose proof (is_banned_longest_prefix _ _ Hinv Hip) as Hl.
  destruct (is_banned (ban_store (mem sm)) (net_addr (subject r))) as [ex|]; [|by destruct (Hl _ _ Hold Hcan Hin)].
  apply andb_true_iff in Hc as [[Hs%bool_decide_eq_true Hsrc]%andb_true_iff Hnew].
  destruct Hl as (m & Hm & _ & _ & _). destruct (Hall _ _ Hm) as (_ & Hcm & Hsm & _).
  assert (m = trunc_ref (subject r)) as -> by (rewrite <- Hs, Hsm; symmetry; exact Hcm). rewrite Hold in Hm. injection Hm as ->. done.
Qed.

Lemma policy_stored (policy : TrustConfig) (from : string) (r : BanRecord) (now : DateTime) :
  remote_policy_allows policy (stored_form from r) now = remote_policy_allows policy r now.
Proof. unfold remote_policy_allows, min_prefix, stored_form. destruct (is_cluster_source (source r)); simpl; by destruct (subject r). Qed.

Lemma accepts_mem (r : BanRecord) (sm sm' : StateManager) :
  whitelist (mem sm') = whitelist (mem sm) -> revocations (mem sm') = revocations (mem sm) -> accepts_remote_ban r sm' = accepts_remote_ban r sm.
Proof. intros Hw Hr. unfold accepts_remote_ban. by rewrite Hw, Hr. Qed.

Lemma apply_remote_ok (policy : TrustConfig) (now : DateTime) (from : string) (records : list BanRecord) (r : BanRecord) (room : nat) (sm : StateManager) (e : E) :
  r ∈ records -> wf_net (subject r) -> shared_ok (S room) sm e ->
  let '(sm', e') := apply_remote policy now from (sm, e) r in
  shared_ok room sm' e' /\ remote_change (admissible policy now from records sm) sm sm'.
Proof using laws.
  intros Hr Hwf (Hs & Hi & Hroom & Hg). unfold apply_remote.
  assert (Hsame : shared_ok room sm e /\ remote_change (admissible policy now from records sm) sm sm)
    by (split; [|apply remote_change_refl]; split_and!; [done|done|lia|apply Hg..]).
  destruct (remote_policy_allows policy r now) eqn:Ep; [cbn [negb]|done]. destruct (overlaps _ (subject r)) eqn:Eo; [done|].
  destruct (accepts_remote_ban r sm) eqn:Ea; [|done]. destruct (remote_changes_state sm r) eqn:Ec; [cbn [negb orb]|done].
  set (r' := if is_cluster_source _ then r else _). assert (Hsub : subject r' = subject r) by (subst r'; by destruct (is_cluster_source _)).
  pose proof (add_ban_mem r' sm) as Hm. pose proof (safe_add_ban r' sm ltac:(by rewrite Hsub) Hs) as Hsafe.
  destruct (add_ban r' sm) as [sm' [u|x]]; cbn [is_ok fst] in *; [|unfold shared_ok; rewrite Hm; split_and!; [done|done|lia|done|]].
  2: { split_and!; [by rewrite Hm..|]. intros n. left. by rewrite Hm. }
  assert (Hst : set_subject (net_trunc (subject r')) r' = stored_form from r) by (unfold stored_form; by rewrite net_trunc_law, Hsub by by rewrite Hsub).
  rewrite Hst in Hm. assert (Hss : subject (stored_form from r) = trunc_ref (subject r)) by done.
  destruct (store_add_ban_ok (stored_form from r) (ban_store (mem sm))) as [Hi' Hb']; [rewrite Hss; by apply trunc_ref_wf|done|lia|].
  assert (Hw : whitelist (mem sm') = whitelist (mem sm)) by by rewrite Hm. split.
  - split_and!; [done|by rewrite Hm| |].
    + rewrite Hm. simpl. rewrite Hb'. pose proof (map_size_insert (M := gmap IpNet) (subject (stored_form from r)) (stored_form from r) (bans (ban_store (mem sm)))) as Hsz.
      rewrite Hsz. destruct (bans _ !! _); simpl; lia.
    + rewrite Hw. apply guarded_apply; [apply Hs|by split|done].
  - split_and!; [done|by rewrite Hm|]. intros n. rewrite Hm. simpl. rewrite Hb', Hss. destruct (decide (n = trunc_ref (subject r))) as [->|Hne].
    + right. exists (stored_form from r). rewrite lookup_insert_eq. split_and!; [done| |].
      * exists r. split_and!; [done..| | |done]; [by rewrite policy_stored|]. rewrite <- net_trunc_law by done. rewrite overlaps_trunc; [done|apply Hs|done].
      * destruct (bans _ !! trunc_ref (subject r)) as [old|] eqn:Eold; [|done]. by apply (remote_changes_spec sm r old Hi Hs Hwf Ec Eold).
    + left. by rewrite lookup_insert_ne by congruence.
Qed.

Lemma remote_change_mono (P Q : IpNet -> BanRecord -> Prop) (sm sm' : StateManager) :
  (forall n r, P n r -> Q n r) -> remote_change P sm sm' -> remote_change Q sm sm'.
Proof.
  intros HPQ (Hw & Hr & Hb). split_and!; [done|done|]. intros n. destruct (Hb n) as [?|(r & ? & ? & ?)]; [by left|right]. exists r. auto.
Qed.

Lemma apply_bans_ok (policy : TrustConfig) (now : DateTime) (from : string) (all records : list BanRecord) (room : nat) (sm : StateManager) (e : E) :
  records ⊆ all -> Forall (fun r => wf_net (subject r)) records -> shared_ok (length records + room) sm e ->
  let '(sm', e') := apply_bans policy now from records sm e in
  shared_ok room sm' e' /\ remote_change (admissible policy now from all sm) sm sm'.
Proof using laws.
  unfold apply_bans. revert sm e. induction records as [|r rs IH]; intros sm e Hsub Hwf Hok; cbn [foldl]; [split; [done|apply remote_change_refl]|].
  apply Forall_cons in Hwf as [Hr Hwf]. pose proof (apply_remote_ok policy now from all r (length rs + room) sm e ltac:(set_solver) Hr Hok) as H1'.
  destruct (apply_remote policy now from (sm, e) r) as [sm1 e1]. destruct H1' as [Hok1 Hc1].
  specialize (IH sm1 e1 ltac:(set_solver) Hwf Hok1). destruct (foldl _ (sm1, e1) rs) as [sm2 e2]. destruct IH as [Hok2 Hc2]. split; [done|].
  eapply remote_change_trans; [|exact Hc1|].
  - intros n b (r0 & _ & -> & _). apply stored_remote.
  - eapply remote_change_mono; [|exact Hc2]. intros n b (r0 & ? & ? & ? & ? & Ho & Ha). exists r0.
    destruct Hc1 as (Hw & Hrev & _). rewrite Hw in Ho. rewrite (accepts_mem r0 sm sm1 Hw Hrev) in Ha. done.
Qed.

(** Whatever records are applied, the state stays safe and the firewall
    guarded. *)
Lemma apply_bans_guarded (policy : TrustConfig) (now : DateTime) (from : string) (records : list BanRecord) (sm : StateManager) (e : E) :
  Forall (fun r => wf_net (subject r)) records -> safe (mem sm) -> guarded (whitelist (mem sm)) e ->
  let '(sm', e') := apply_bans policy now from records sm e in safe (mem sm') /\ guarded (whitelist (mem sm')) e'.
Proof using laws.
  unfold apply_bans. intros Hwf. revert sm e. induction Hwf as [|r rs Hr _ IH]; intros sm e Hs Hg; cbn [foldl]; [done|].
  enough (Hstep : let '(sm', e') := apply_remote policy now from (sm, e) r in safe (mem sm') /\ guarded (whitelist (mem sm')) e')
    by (destruct (apply_remote policy now from (sm, e) r) as [sm' e']; destruct Hstep; by apply IH).
  unfold apply_remote. destruct (negb (remote_policy_allows _ _ _)); [done|]. destruct (overlaps _ (subject r)) eqn:Eo; [done|].
  destruct (_ || _); [done|]. set (r' := if is_cluster_source _ then r else _).
  assert (Hsub : subject r' = subject r) by (subst r'; by destruct (is_cluster_source _)).
  pose proof (safe_add_ban r' sm ltac:(by rewrite Hsub) Hs) as Hsafe. pose proof (add_ban_whitelist r' sm) as Hw.
  destruct (add_ban r' sm) as [sm' [u|x]]; simpl in Hsafe, Hw; rewrite Hw; split; try done. apply guarded_apply; [apply Hs|by split|done].
Qed.
End remote.

(** ** Who may speak *)
Section authority.
Context {Conn E : Type} `{Enforcer E} {enf_laws : EnforcerLaws E} `{IpNetOps} {laws : IpNetLaws} `{Codec WalEntry} `{Crc32}.
Context `{Blake3} `{Ed25519} `{HashOrder} `{BincodeSer version, BincodeSer BanRecord, BincodeSer SignedBanRecord}.

(** An observation [s] signed with the key its name is the fingerprint of; in
    strict mode [s] is one of the configured peers. *)
Definition authorised (cfg : ActorConfig) (s : string) : Prop := (ac_strict cfg = true -> s ∈ ac_allowed cfg) /\ s <> ac_node_id cfg.
Definition vouched (cfg : ActorConfig) (s : string) (v : BanRecord) : Prop :=
  authorised cfg s /\ is_cluster_source (source v) = false /\
  exists key signed, to_hex (blake3 key) = s /\ signer_id signed = s /\ sb_record signed = v /\ is_ok (sb_verify signed key) = true.

(** The peers of the table are authorised and known by the fingerprint of
    their key. *)
Definition peer_ok (cfg : ActorConfig) (id : string) (p : PeerInfo) : Prop :=
  node_id p = id /\ authorised cfg id /\ (public_key_bytes p = [] \/ to_hex (blake3 (public_key_bytes p)) = id).
Definition peers_ok (cfg : ActorConfig) (pm : PeerManager) : Prop := forall id p, known_peers pm !! id = Some p -> peer_ok cfg id p.

Lemma peer_ok_state (cfg : ActorConfig) (id : string) (s : PeerState) (now : DateTime) (p : PeerInfo) : peer_ok cfg id p -> peer_ok cfg id (set_state s now p).
Proof. done. Qed.

Lemma peers_ok_update (cfg : ActorConfig) (now : DateTime) (id : string) (s : PeerState) (pm : PeerManager) :
  peers_ok cfg pm -> peers_ok cfg (update_peer_state now id s pm).1.
Proof.
  intros Hp n p. rewrite update_lookup. case_decide; [|apply Hp]. intros (q & Hq & ->)%fmap_Some. apply peer_ok_state. auto.
Qed.
Lemma peers_ok_add (cfg : ActorConfig) (p : PeerInfo) (pm : PeerManager) : peer_ok cfg (node_id p) p -> peers_ok cfg pm -> peers_ok cfg (add_peer p pm).
Proof. intros Hp Hpm n q. simpl. rewrite lookup_insert. case_decide as Hd; [intros [= <-]; by subst|apply Hpm]. Qed.
Lemma peers_ok_remove (cfg : ActorConfig) (id : string) (pm : PeerManager) : peers_ok cfg pm -> peers_ok cfg (remove_peer id pm).1.
Proof. intros Hp n q. simpl. rewrite lookup_delete. case_decide; [done|apply Hp]. Qed.
Lemma peers_ok_timeouts (cfg : ActorConfig) (rd : readings) (pm : PeerManager) (s : SwimMembership) :
  peers_ok cfg pm -> peers_ok cfg (check_timeouts rd pm s).1.2.
Proof.
  intros Hp n p Hn. assert (Hk : peers_keyed pm) by (intros id q Hq; by apply Hp in Hq as [? _]).
  pose proof (check_timeouts_peer rd pm s n Hk) as Hc. destruct (check_timeouts rd pm s) as [[s' pm'] acts]. cbn [fst snd] in *.
  assert (Hok : forall q st t, known_peers pm !! n = Some q -> peer_ok cfg n (set_state st t q)) by (intros q st t Hq; apply peer_ok_state; auto).
  destruct Hc as (_ & pm1 & pm2 & H1' & H2' & H3'). destruct H3' as [E3|[_ E3]]; [|congruence]. rewrite E3 in Hn.
  destruct H2' as [E2|[_ E2]]; rewrite E2 in Hn; destruct H1' as [E1|(_ & i & E1)]; rewrite E1 in Hn; destruct (known_peers pm !! n) as [q|] eqn:Eq; simplify_eq/=; auto.
  apply peer_ok_state, peer_ok_state. auto.
Qed.

(** A key in use belongs to the node it is filed under. *)
Lemma peer_keys_ok (cfg : ActorConfig) (pm : PeerManager) (s : string) (key : list Z) : peers_ok cfg pm -> peer_public_keys pm !! s = Some key ->
  authorised cfg s /\ to_hex (blake3 key) = s.
Proof.
  intros Hp Hk. apply elem_of_list_to_map_2 in Hk. apply list_elem_of_fmap in Hk as (p & [= -> ->] & [Hin Hne]%elem_of_lfilter).
  apply list_elem_of_fmap in Hin as ([id q] & -> & Hin%elem_of_map_to_list). simpl in *. destruct (Hp id q Hin) as (-> & Ha & [Hnil|Hh]); [|done].
  by rewrite bool_decide_eq_true_2 in Hne.
Qed.

Lemma keys_vouch (cfg : ActorConfig) (pm : PeerManager) (signed : SignedBanRecord) : peers_ok cfg pm ->
  authentic (peer_public_keys pm) signed = true -> is_cluster_source (source (sb_record signed)) = false -> vouched cfg (signer_id signed) (sb_record signed).
Proof.
  intros Hp Ha Hs. unfold authentic in Ha. destruct (peer_public_keys pm !! signer_id signed) as [key|] eqn:Ek; [|done].
  destruct (peer_keys_ok cfg pm _ _ Hp Ek) as [Hau Hh]. split_and!; [apply Hau..|done|]. by exists key, signed.
Qed.

(** *** The actor's own state *)
Definition actor_ok (cfg : ActorConfig) (a : ClusterActor Conn) : Prop :=
  ca_config a = cfg /\ peers_ok cfg (co_peers (ca_coordinator a)) /\ engine_ok (vouched cfg) (co_gossip (ca_coordinator a)).

Lemma register_peer_ok (cfg : ActorConfig) (now : DateTime) (node : string) (key : list Z) (addr : string) (a : ClusterActor Conn) :
  authorised cfg node -> to_hex (blake3 key) = node -> actor_ok cfg a -> actor_ok cfg (register_peer now node key addr a).
Proof.
  intros Ha Hk (Hc & Hp & Hg). unfold register_peer. set (pm0 := co_peers (ca_coordinator a)) in *. cbv zeta. set (pm1 := match get_peer node pm0 with Some _ => _ | None => _ end).
  assert (H1' : peers_ok cfg pm1).
  { subst pm1. destruct (get_peer node pm0); [by apply peers_ok_update|]. apply peers_ok_add; [|done]. by split_and!; [|apply Ha..|right]. }
  set (pm2 := match get_peer node pm1 with Some _ => _ | None => _ end).
  assert (H2' : peers_ok cfg pm2); [|by split_and!].
  subst pm2. destruct (get_peer node pm1) as [p|] eqn:Ep; [|done]. case_bool_decide; [done|]. destruct (H1' _ _ Ep) as (Hn & Hau & _).
  apply peers_ok_add; [|done]. simpl. rewrite Hn. split_and!; [done|apply Hau..|by right].
Qed.

Lemma on_peer_connected_ok (cfg : ActorConfig) (env : step_env Conn) (node : string) (key : list Z) (addr : string) (conn : Conn) (a : ClusterActor Conn) :
  to_hex (blake3 key) = node -> actor_ok cfg a -> actor_ok cfg (on_peer_connected env node key addr conn a).1.
Proof.
  intros Hk Ha. pose proof Ha as (Hc & _ & _). unfold on_peer_connected. rewrite Hc. case_bool_decide as Hself; [done|].
  destruct (ac_strict cfg && _) eqn:Es; [done|]. assert (Hau : authorised cfg node).
  { split; [|done]. intros Ht. rewrite Ht in Es. by apply negb_false_iff, bool_decide_eq_true in Es. }
  pose proof (register_peer_ok cfg (se_now env) node key addr a Hau Hk Ha) as Hr.
  destruct (ca_connections a !! node) as [ex|]; [destruct (se_open env ex)|]; exact Hr.
Qed.

Lemma probe_actions_ok (cfg : ActorConfig) (actions : list SwimAction) (st : ClusterActor Conn * list (Effect Conn)) :
  actor_ok cfg st.1 -> actor_ok cfg (foldl probe_action st actions).1.
Proof.
  revert st. induction actions as [|x l IH]; intros [a out] Ha; [done|]. cbn [foldl]. apply IH.
  assert (Hd : forall n, actor_ok cfg (drop_peer n a).1).
  { intros n. destruct Ha as (Hc & Hp & Hg). split_and!; [done|by apply peers_ok_remove|done]. }
  unfold probe_action. destruct x as [t d|t via|n|n|n|]; try done; (pose proof (Hd n) as Hn; by destruct (drop_peer n a)).
Qed.

Lemma on_probe_ok (cfg : ActorConfig) (env : step_env Conn) (a : ClusterActor Conn) : actor_ok cfg a -> actor_ok cfg (on_probe env a).1.
Proof.
  intros (Hc & Hp & Hg). unfold on_probe, run_probe_cycle. destruct (select_probe_target _ _ _ _ _) as [swim1 probe].
  pose proof (peers_ok_timeouts cfg (se_timeouts env) _ swim1 Hp) as Ht. destruct (check_timeouts _ _ swim1) as [[swim2 peers] timeouts].
  by apply probe_actions_ok.
Qed.

Lemma on_maintenance_ok (cfg : ActorConfig) (env : step_env Conn) (a : ClusterActor Conn) : actor_ok cfg a -> actor_ok cfg (on_maintenance env a).1.
Proof.
  intros Ha. unfold on_maintenance.
  assert (Hf : forall l (st : ClusterActor Conn * list (Effect Conn)), actor_ok cfg st.1 -> actor_ok cfg (foldl (maintain_seed (se_instant env)) st l).1).
  { induction l as [|sd l IH]; intros [b out] Hb; [done|]. cbn [foldl]. apply IH. unfold maintain_seed.
    assert (Htr : actor_ok cfg (track_seed_outage sd (seed_connected b sd) (se_instant env) b).1).
    { unfold track_seed_outage. destruct (sd_fingerprint sd); [|done]. case_bool_decide; [done|]. destruct (seed_connected _ _); [done|].
      by destruct (default _ _). }
    destruct (track_seed_outage _ _ _ b) as [b1 due]. destruct (seed_connected b sd); [done|]. unfold dial. by case_bool_decide. }
  pose proof (Hf (ac_seeds (ca_config a)) (a, []) Ha) as Hm. destruct (foldl _ _ _) as [b out]. by destruct (connections_of _ b).
Qed.

Lemma send_signed_ok (cfg : ActorConfig) (targets : list string) (records : list BanRecord) (a : ClusterActor Conn) :
  actor_ok cfg a -> actor_ok cfg (send_signed_bans targets records a).
Proof. intros Ha. unfold send_signed_bans. by destruct (ca_signing a). Qed.

Lemma on_diff_request_ok (cfg : ActorConfig) (max_utc : DateTime) (env : step_env Conn) (from : string) (keys : list string) (sm : StateManager) (a a' : ClusterActor Conn) :
  actor_ok cfg a -> on_diff_request max_utc env from keys sm a = Some a' -> actor_ok cfg a'.
Proof.
  intros Ha. unfold on_diff_request. destruct (default false _); [by intros [= <-]|]. destruct (merge_sort _ _) as [|r rs]; [by intros [= <-]|].
  destruct (diff_batch _ (r :: rs)) as [batch next]. destruct (filter_map_panic _ batch); [|done]. intros [= <-]. by apply send_signed_ok.
Qed.

Lemma on_local_ban_ok (cfg : ActorConfig) (max_utc : DateTime) (env : step_env Conn) (r : BanRecord) (a a' : ClusterActor Conn) :
  actor_ok cfg a -> on_local_ban max_utc env r a = Some a' -> actor_ok cfg a'.
Proof.
  intros Ha. unfold on_local_ban. destruct (is_cluster_source _); [by intros [= <-]|]. destruct (announced_form _ _ _ _) as [[w|]|]; [|by intros [= <-]|done].
  intros [= <-]. by apply send_signed_ok.
Qed.

(** *** Records on their way in *)
Lemma process_one_out (now : DateTime) (sender : string) (tm : TrustManager) (keys : gmap string (list Z)) (eligible : BanRecord -> bool)
    (ticks : nat -> DateTime * DateTime) (i : nat) (signed : SignedBanRecord) (st : sync_state) :
  let st' := process_one now sender tm keys eligible ticks i signed st in
  st_out st' = st_out st \/ exists votes, st_out st' = st_out st ++ [merged_record signed votes].
Proof.
  cbv zeta. assert (Hdec : forall key votes st0, let st' := decide_one now sender tm eligible ticks i signed key votes st0 in
    st_out st' = st_out st0 \/ exists votes, st_out st' = st_out st0 ++ [merged_record signed votes]).
  { intros key votes st0. cbv zeta. unfold decide_one. destruct (negb (should_enforce _ _)); [by left|]. destruct (negb (eligible _)); [by left|].
    destruct (check_and_record _ _ _ _) as [rl ok]. destruct (negb ok); [by left|]. right. by exists votes. }
  unfold process_one. destruct (_ || _); [by left|]. destruct (bincode_serialize signed) as [enc|]; [|by left].
  destruct (_ <? _); [by left|]. destruct (_ || _); [by left|]. destruct (negb _); [by left|]. unfold vote_one.
  destruct (negb _ && _); [by left|]. destruct (_ !! signer_id signed) as [old|].
  - destruct (newer _ _); [by left|]. refine (Hdec _ _ (set_votes _ _ _)).
  - destruct (_ || _); [by left|]. refine (Hdec _ _ (set_votes _ _ _)).
Qed.

Lemma process_all_out (now : DateTime) (sender : string) (tm : TrustManager) (keys : gmap string (list Z)) (eligible : BanRecord -> bool)
    (ticks : nat -> DateTime * DateTime) (records : list SignedBanRecord) (i : nat) (st : sync_state) :
  Forall (fun s => wf_net (subject (sb_record s))) records -> Forall (fun r => wf_net (subject r)) (st_out st) ->
  let st' := process_all now sender tm keys eligible ticks i records st in
  Forall (fun r => wf_net (subject r)) (st_out st') /\ (length (st_out st') <= length (st_out st) + length records)%nat.
Proof.
  cbv zeta. intros Hwf. revert i st. induction Hwf as [|s records Hs _ IH]; intros i st Hst; simpl; [split; [done|lia]|].
  destruct (process_one_out now sender tm keys eligible ticks i s st) as [Ho|[votes Ho]]; cbv zeta in Ho.
  - destruct (IH (S i) (process_one now sender tm keys eligible ticks i s st)) as [H1' H2']; [by rewrite Ho|]. rewrite Ho in H2'. split; [done|lia].
  - destruct (IH (S i) (process_one now sender tm keys eligible ticks i s st)) as [H1' H2'].
    { rewrite Ho. apply Forall_app. split; [done|]. by apply Forall_singleton. }
    rewrite Ho, length_app in H2'. simpl in H2'. split; [done|lia].
Qed.

Lemma prefilter_sublist (env : step_env Conn) (policy : TrustConfig) (sm : StateManager) (from : string) (i : nat) (records : list SignedBanRecord)
    (batch : gset (string * string)) (raw : RateLimiter) : (prefilter env policy sm from i records batch raw).1 `sublist_of` records.
Proof.
  revert i batch raw. induction records as [|s rs IH]; intros i batch raw; cbn [prefilter]; [done|].
  destruct (_ || _); [by apply sublist_cons|]. destruct (check_and_record _ _ _ raw) as [raw1 ok]. set (b := {[_]} ∪ batch).
  pose proof (IH (S i) b raw1) as Hs. destruct (prefilter _ _ _ _ (S i) rs b raw1) as [kept raw2]. simpl in *.
  destruct ok; [by apply sublist_skip|by apply sublist_cons].
Qed.

(** The quorum behind a record: enough trust in the authorised nodes that
    signed an observation of the same subject, none of which is younger, less
    severe or shorter than what is applied. *)
Definition backed (cfg : ActorConfig) (tm : TrustManager) (r : BanRecord) : Prop :=
  exists votes : gmap string BanRecord, votes <> ∅ /\ should_enforce (hash_keys (dom votes)) tm = true /\
    forall s v, votes !! s = Some v -> vouched cfg s v /\ net_to_string (subject v) = net_to_string (subject r) /\
      created_at r <= created_at v /\ severity r <= severity v /\ forall e, expires_at v = Some e -> exists e', expires_at r = Some e' /\ e' <= e.

(** What a peer may add: an admissible ban with a quorum behind it. *)
Definition legitimate (cfg : ActorConfig) (tm : TrustManager) (now : DateTime) (sm : StateManager) (n : IpNet) (r : BanRecord) : Prop :=
  is_remote r /\ subject r = n /\ remote_policy_allows (ac_policy cfg) r now = true /\ overlaps (whitelist (mem sm)) n = false /\
  exists from r0, r = stored_form from r0 /\ accepts_remote_ban r0 sm = true /\ backed cfg tm r0.

Lemma legitimate_remote (cfg : ActorConfig) (tm : TrustManager) (now : DateTime) (sm : StateManager) (from : string) (out : list BanRecord) (n : IpNet) (r : BanRecord) :
  Forall (backed cfg tm) out -> admissible (ac_policy cfg) now from out sm n r -> legitimate cfg tm now sm n r.
Proof.
  intros Hb (r0 & Hin & -> & Hs & Hp & Ho & Ha). split_and!; [apply stored_remote|done..|]. exists from, r0. split_and!; [done..|].
  rewrite Forall_forall in Hb. auto.
Qed.

Lemma ingest_ok (cfg : ActorConfig) (env : step_env Conn) (from : string) (records : list SignedBanRecord) (nd : Node Conn E) :
  Forall (fun s => wf_net (subject (sb_record s))) records -> actor_ok cfg (nd_actor nd) ->
  shared_ok (length records) (nd_state nd) (nd_enforcer nd) ->
  let nd' := ingest_remote_bans env from records nd in
  actor_ok cfg (nd_actor nd') /\ shared_ok 0 (nd_state nd') (nd_enforcer nd') /\
  remote_change (legitimate cfg (ca_trust (nd_actor nd)) (se_apply env) (nd_state nd)) (nd_state nd) (nd_state nd').
Proof using laws.
  intros Hwf Ha Hok. cbv zeta. pose proof Ha as (Hc & Hp & Hg).
  assert (Hstay : forall a, actor_ok cfg a -> actor_ok cfg a /\ shared_ok 0 (nd_state nd) (nd_enforcer nd) /\
    remote_change (legitimate cfg (ca_trust (nd_actor nd)) (se_apply env) (nd_state nd)) (nd_state nd) (nd_state nd)).
  { intros a Hact. split; [done|]. split; [|apply remote_change_refl]. destruct Hok as (? & ? & ? & ?). split_and!; [done|done|lia|done..]. }
  unfold ingest_remote_bans. destruct records as [|s0 rs]; [by apply Hstay|]. set (recs := s0 :: rs) in *. rewrite Hc.
  pose proof (prefilter_sublist env (ac_policy cfg) (nd_state nd) from 0 recs ∅ (li_raw (ca_limits (nd_actor nd)))) as Hsub.
  destruct (prefilter _ _ _ _ _ recs _ _) as [kept raw]. cbn [fst] in Hsub. set (counts := if secs 60 <=? _ then ∅ else _).
  assert (Hkept : Forall (fun s => wf_net (subject (sb_record s))) kept) by (apply Forall_forall; intros s Hin; rewrite Forall_forall in Hwf; apply Hwf; by eapply elem_of_sublist).
  unfold co_handle_ban_sync_filtered_with_policy. set (keys := peer_public_keys _). set (elig := fun rec => applicable _ _ _ rec).
  pose proof (filter_sound (se_gossip env) from (ca_trust (nd_actor nd)) keys elig (se_ticks env) (vouched cfg)
    (fun signed => keys_vouch cfg _ signed Hp) (co_gossip (ca_coordinator (nd_actor nd))) kept counts (li_rate (ca_limits (nd_actor nd))) Hg) as Hs.
  destruct (handle_ban_sync_filtered_with_policy _ _ _ _ _ _ _ _ _ _) as [[g rate] action] eqn:Eh. destruct Hs as [Hg' Hs].
  destruct action as [[| | |out]|]; [done|done|done| |by apply Hstay]. destruct Hs as [Hs _].
  assert (Hout : Forall (fun r => wf_net (subject r)) out /\ (length out <= length recs)%nat).
  { unfold handle_ban_sync_filtered_with_policy in Eh. destruct kept as [|k0 ks]; [done|]. destruct (quarantined _ _ _); [done|].
    match type of Eh with context [process_all ?a ?b ?c ?d ?e ?f ?g ?h ?st] =>
      destruct (process_all_out a b c d e f h g st Hkept (Forall_nil_2 _)) as [Hf Hl] end.
    apply sublist_length in Hsub. simpl st_out in Hl. destruct (st_out _) as [|x xs]; [done|]. injection Eh as _ _ <-. simpl in *. split; [done|lia]. }
  destruct Hout as [Hwfo Hlen]. assert (Hroom : shared_ok (length out + 0) (nd_state nd) (nd_enforcer nd)).
  { destruct Hok as (? & ? & ? & ?). split_and!; [done|done|lia|done..]. }
  pose proof (apply_bans_ok (ac_policy cfg) (se_apply env) from out out 0 _ _ ltac:(done) Hwfo Hroom) as Hap.
  destruct (apply_bans _ _ _ out _ _) as [sm' e']. destruct Hap as [Hok' Hch]. cbn [nd_actor nd_state nd_enforcer]. split; [done|]. split; [done|].
  eapply remote_change_mono; [|exact Hch]. intros n r. apply legitimate_remote. eapply Forall_impl; [exact Hs|].
  intros r0 (_ & _ & votes & Hq & (s1 & _ & [v1 Hv1]) & Hv). exists votes. split_and!; [|done|done]. intros ->. by rewrite lookup_empty in Hv1.
Qed.

(** *** Steps and runs *)
Definition event_records (ev : ActorEvent Conn) : list SignedBanRecord :=
  match ev with Inbound _ (BanSync _ rs) | Inbound _ (DiffResponse rs) => rs | _ => [] end.

(** What the transport guarantees: a node is named by the key it proved to
    hold, and networks are well formed. *)
Definition wf_event (ev : ActorEvent Conn) : Prop :=
  match ev with
  | PeerConnected node key _ _ => to_hex (blake3 key) = node
  | _ => Forall (fun s => wf_net (subject (sb_record s))) (event_records ev)
  end.

Definition step_ok (cfg : ActorConfig) (env : step_env Conn) (nd nd' : Node Conn E) : Prop :=
  actor_ok cfg (nd_actor nd') /\ shared_ok 0 (nd_state nd') (nd_enforcer nd') /\
  remote_change (legitimate cfg (ca_trust (nd_actor nd)) (se_apply env) (nd_state nd)) (nd_state nd) (nd_state nd').

Lemma step_local_ok (cfg : ActorConfig) (env : step_env Conn) (room : nat) (a : ClusterActor Conn) (nd : Node Conn E) :
  actor_ok cfg a -> shared_ok room (nd_state nd) (nd_enforcer nd) -> step_ok cfg env nd (with_actor a nd).
Proof. intros Ha (? & ? & ? & ?). split; [done|]. split; [|apply remote_change_refl]. split_and!; [done|done|simpl; lia|done..]. Qed.

Lemma on_inbound_ok (cfg : ActorConfig) (max_utc : DateTime) (env : step_env Conn) (from : string) (msg : ClusterMessage) (nd nd' : Node Conn E) (out : list (Effect Conn)) :
  actor_ok cfg (nd_actor nd) -> wf_event (Inbound from msg) -> shared_ok (length (event_records (Inbound from msg))) (nd_state nd) (nd_enforcer nd) ->
  on_inbound max_utc env from msg nd = Some (nd', out) -> step_ok cfg env nd nd'.
Proof using laws.
  intros Ha Hwf Hok. unfold on_inbound. set (a := with_peers _ (nd_actor nd)).
  assert (Hau : actor_ok cfg a) by (destruct Ha as (? & ? & ?); split_and!; [done|by apply peers_ok_update|done]).
  assert (Hlocal : forall b, actor_ok cfg b -> step_ok cfg env nd (with_actor b (with_actor a nd))) by (intros b Hb; exact (step_local_ok cfg env _ b nd Hb Hok)).
  assert (Hingest : forall rs, event_records (Inbound from msg) = rs -> wf_event (Inbound from msg) = Forall (fun s => wf_net (subject (sb_record s))) rs ->
    step_ok cfg env nd (ingest_remote_bans env from rs (with_actor a nd))).
  { intros rs Hr Hw. rewrite Hr in Hok. rewrite Hw in Hwf. exact (ingest_ok cfg env from rs (with_actor a nd) Hwf Hau Hok). }
  destruct msg as [x d|x d|x t|x rs|root|ks|rs|ps]; intros Hs.
  - injection Hs as <- _. exact (Hlocal a Hau).
  - injection Hs as <- _. apply Hlocal. destruct Hau as (? & ? & ?). split_and!; [done|by apply peers_ok_update|done].
  - injection Hs as <- _. exact (Hlocal a Hau).
  - injection Hs as <- _. by apply Hingest.
  - assert (Hd : actor_ok cfg (on_digest_exchange env from root (nd_state nd) a).1).
    { unfold on_digest_exchange. destruct (co_handle_digest_exchange _ _ _) as [[| |tgt ks|]|]; try exact Hau. unfold note_digest_mismatch. by destruct (default _ _). }
    cbn [with_actor nd_state] in Hs. destruct (on_digest_exchange _ _ _ _ a) as [b o]. injection Hs as <- _. by apply Hlocal.
  - destruct (on_diff_request max_utc env from ks _ a) as [b|] eqn:Ed; [|done]. injection Hs as <- _. apply Hlocal. by eapply on_diff_request_ok.
  - injection Hs as <- _. by apply Hingest.
  - injection Hs as <- _. exact (Hlocal a Hau).
Qed.

Lemma cluster_step_ok (cfg : ActorConfig) (max_utc : DateTime) (env : step_env Conn) (ev : ActorEvent Conn) (nd nd' : Node Conn E) (out : list (Effect Conn)) :
  actor_ok cfg (nd_actor nd) -> wf_event ev -> shared_ok (length (event_records ev)) (nd_state nd) (nd_enforcer nd) ->
  cluster_step max_utc env ev nd = Some (nd', out) -> step_ok cfg env nd nd'.
Proof using laws.
  intros Ha Hwf Hok Hs. pose proof (fun b Hb => step_local_ok cfg env _ b nd Hb Hok) as Hlocal.
  destruct ev as [node key addr conn|from msg|r| | | |addr|conns]; unfold cluster_step in Hs.
  - pose proof (on_peer_connected_ok cfg env node key addr conn _ Hwf Ha) as Hp. destruct (on_peer_connected _ _ _ _ _ _) as [b o]. simplify_eq/=. by apply Hlocal.
  - by eapply on_inbound_ok.
  - destruct (on_local_ban max_utc env r (nd_actor nd)) as [b|] eqn:El; simplify_eq/=. apply Hlocal. by eapply on_local_ban_ok.
  - pose proof (on_probe_ok cfg env _ Ha) as Hp. destruct (on_probe _ _) as [b o]. simplify_eq/=. by apply Hlocal.
  - pose proof (on_maintenance_ok cfg env _ Ha) as Hp. destruct (on_maintenance _ _) as [b o]. simplify_eq/=. by apply Hlocal.
  - assert (Hd : actor_ok cfg (signing_done (nd_actor nd)).1) by (unfold signing_done; destruct (ca_signing _); [by destruct (sign_all _ _ _ _)|done]).
    destruct (signing_done _) as [b o]. simplify_eq/=. by apply Hlocal.
  - simplify_eq/=. by apply Hlocal.
  - injection Hs as <- _. exact (Hlocal (nd_actor nd) Ha).
Qed.

(** The actors a node can have, whatever the rest of the daemon does to the
    shared state between its steps. *)
Inductive cluster_reach (max_utc : DateTime) (a0 : ClusterActor Conn) : ClusterActor Conn -> Prop :=
| reach_start : cluster_reach max_utc a0 a0
| reach_next (a : ClusterActor Conn) (env : step_env Conn) (ev : ActorEvent Conn) (sm : StateManager) (e : E) (nd' : Node Conn E) (out : list (Effect Conn)) :
    cluster_reach max_utc a0 a -> wf_event ev -> shared_ok (length (event_records ev)) sm e ->
    cluster_step max_utc env ev (Build_Node a sm e) = Some (nd', out) -> cluster_reach max_utc a0 (nd_actor nd').

Lemma reach_ok (max_utc : DateTime) (a0 a : ClusterActor Conn) (cfg : ActorConfig) : actor_ok cfg a0 -> cluster_reach max_utc a0 a -> actor_ok cfg a.
Proof using laws.
  intros Hstart. induction 1 as [|a env ev sm e nd' out _ IH Hwf Hok Hs]; [done|]. by apply (cluster_step_ok cfg max_utc env ev (Build_Node a sm e) nd' out IH Hwf Hok Hs).
Qed.

Lemma cluster_new_ok (now : DateTime) (id : string) (pkcs8 : list Z) (node : NodeConfig) (trust : TrustConfig) :
  let a := cluster_new now id pkcs8 node trust in actor_ok (ca_config a) a.
Proof. split_and!; [done| |]; intros ? ?; simpl; [by rewrite lookup_empty|]. intros s v. by rewrite lookup_empty. Qed.

(** C13: What peers can do to a node. From a node's start, after any events and
    whatever its other parts did meanwhile, a step of the cluster runtime
    changes the ban store in one way only: it adds a ban, or renews one that
    came from the cluster, that is within the operator's limits on width,
    lifetime and future dating, is clear of the whitelist, was not revoked, and
    has behind it enough trust in nodes that each signed an observation of it
    with the key they are named by, in strict mode nodes the operator listed.
    Bans of this node are never replaced, shortened or removed, and the
    firewall is never given a whitelisted network. *)
Theorem remote_bans_legitimate (max_utc now : DateTime) (id : string) (pkcs8 : list Z) (node : NodeConfig) (trust : TrustConfig)
  (a : ClusterActor Conn) (env : step_env Conn) (ev : ActorEvent Conn) (sm : StateManager) (e : E) (nd' : Node Conn E) (out : list (Effect Conn))
  (Hreach : cluster_reach max_utc (cluster_new now id pkcs8 node trust) a) (Hev : wf_event ev)
  (Hok : shared_ok (length (event_records ev)) sm e) (Hstep : cluster_step max_utc env ev (Build_Node a sm e) = Some (nd', out)) :
  shared_ok 0 (nd_state nd') (nd_enforcer nd') /\
  remote_change (legitimate (ca_config (cluster_new (Conn := Conn) now id pkcs8 node trust)) (ca_trust a) (se_apply env) sm) sm (nd_state nd').
Proof using laws.
  pose proof (reach_ok max_utc _ a _ (cluster_new_ok now id pkcs8 node trust) Hreach) as Ha.
  destruct (cluster_step_ok _ max_utc env ev (Build_Node a sm e) nd' out Ha Hev Hok Hstep) as (_ & Hs & Hc). by split.
Qed.
End authority.

(** ** Witnesses *)
Module ClusterSample.
Import SignedSample.
#[local] Existing Instances ipnet_ref ipnet_ref_laws toy_crc toy_blake3 toy_ed.
#[local] Instance wal_codec : Codec WalEntry := codec_ref 0 WalEntry.
#[local] Instance order : HashOrder := fun X => elements X.
#[local] Instance ser_version : BincodeSer version := fun _ => Some [].
#[local] Instance ser_record : BincodeSer BanRecord := fun r => Some [severity r].
#[local] Instance ser_signed : BincodeSer SignedBanRecord := fun s => Some (as_bytes (signer_id s)).

Definition max_utc : DateTime := secs 8210266876799.
Definition trust : TrustConfig :=
  {| ban_threshold := f64_lit 1 1; new_node_grace_period := from_secs 86400; new_node_threshold_multiplier := f64_lit 2 1;
     max_bans_per_minute := 100; auto_quarantine_multiplier := f64_lit 10 1;
     remote_min_prefix_v4 := 24; remote_min_prefix_v6 := 48; remote_max_ttl_secs := 86400 |}.
Definition peer : string := to_hex (blake3 [7]).
Definition node : NodeConfig :=
  {| nc_name := "n"; listen_gossip := "0.0.0.0:7946"; listen_api := ""; data_dir := "/d"; seeds := [WithFingerprint "10.0.0.2:7946" peer];
     cluster_mode := Strict; founder_nodes := [peer] |}.
Definition env (now : DateTime) : step_env nat :=
  {| se_now := now; se_gossip := now; se_apply := now; se_instant := now; se_filter := fun _ => now; se_raw := fun _ => (now, now);
     se_eligible := fun _ => now; se_ticks := fun _ => (now, now); se_choose := head; se_timeouts := SwimSample.rd now; se_open := fun _ => true |}.

(** A ban of three days, and the window a peer gets to see on the second. *)
Definition long_ban : BanRecord :=
  {| subject := NetV4 (ipv4 9 9 9 9) 32; created_at := 0; expires_at := Some (secs 259200); severity := 9; reason := "ssh";
     evidence_hash := []; source := LocalDetector "ssh"; geo_info := None |}.
Definition day2 : DateTime := secs 100000.
Definition window : BanRecord := set_window (secs 86400) (Some (secs 172800)) long_ban.

Lemma announced_window_accepted_witness :
  announced_form max_utc long_ban (announce_max_secs trust) day2 = Some (Some window) /\ remote_policy_allows trust window (secs 150000) = true.
Proof.
  assert (Hf : announced_form max_utc long_ban (announce_max_secs trust) day2 = Some (Some window)) by (vm_compute; reflexivity).
  split; [exact Hf|].
  assert (Hr : receives trust (announce_max_secs trust) (subject long_ban)) by (vm_compute; repeat split; congruence).
  destruct (announced_window_accepted max_utc trust long_ban window (announce_max_secs trust) day2 (secs 150000) ltac:(vm_compute; congruence) Hf Hr)
    as (first & last & <- & Hl & _ & _ & _ & _ & Ha).
  injection Hl as <-. apply Ha. vm_compute. split; congruence.
Defined.

Lemma diff_rotation_fair_witness : 300%nat ∈ diff_rounds 3 10 (seq 0 600).
Proof. apply (diff_rotation_fair 10 (seq 0 600) 300%nat). apply elem_of_seq. lia. Defined.

(** A ban of the longest accepted lifetime, from a node whose clock is two
    seconds ahead, is refused until these have passed, although records dated
    up to five minutes ahead are tolerated. *)
Example skewed_peer_refused :
  remote_policy_allows trust (set_window (secs 2) (Some (secs 86402)) long_ban) 0 = false /\
  remote_policy_allows trust (set_window (secs 2) (Some (secs 86400)) long_ban) 0 = true.
Proof. by vm_compute. Qed.

(** The peer connects and reports the window of its ban. *)
Definition signed : SignedBanRecord := {| sb_record := window; signer_id := peer; signature := [9]; pow := {| nonce := 0; difficulty := 16 |} |}.
Definition blank : StateManager := {| mem := mem_new; wal_writer := wal_open [] Sync; snapshot_disk := None; io_faults := [] |}.
Definition fw : ObserveOnlyEnforcer := {| oo_bans := [] |}.
Definition boot : ClusterActor nat := cluster_new day2 "me" [1] node trust.
Definition joined : ClusterActor nat := (on_peer_connected (env day2) peer [7] "10.0.0.2:7946" 1%nat boot).1.
Definition report : ActorEvent nat := Inbound peer (DiffResponse [signed]).
Definition after : Node nat ObserveOnlyEnforcer :=
  default (Build_Node joined blank fw) (fst <$> cluster_step max_utc (env day2) report (Build_Node joined blank fw)).

Lemma blank_ok (room : nat) : Z.of_nat room < 2 ^ 32 -> shared_ok room blank fw.
Proof.
  intros Hr. split; [apply safe_new|]. split; [apply store_new_inv|]. split; [simpl; rewrite map_size_empty; lia|]. split; [constructor|].
  intros n Hn. by apply not_elem_of_nil in Hn.
Qed.

Lemma remote_bans_legitimate_witness :
  legitimate (ca_config boot) (ca_trust joined) day2 blank (NetV4 (ipv4 9 9 9 9) 32) (stored_form peer (set_source (ClusterPeer peer) window)).
Proof.
  assert (Hreach : cluster_reach (E := ObserveOnlyEnforcer) max_utc boot joined).
  { apply (reach_next max_utc boot boot (env day2) (PeerConnected peer [7] "10.0.0.2:7946" 1%nat) blank fw (Build_Node joined blank fw) [SpawnReader peer 1%nat]);
      [apply reach_start|reflexivity|by apply blank_ok|vm_compute; reflexivity]. }
  destruct (remote_bans_legitimate max_utc day2 "me" [1] node trust joined (env day2) report blank fw after [] Hreach) as (_ & _ & _ & Hc).
  - repeat constructor; vm_compute; (congruence || lia).
  - by apply blank_ok.
  - vm_compute. reflexivity.
  - destruct (Hc (NetV4 (ipv4 9 9 9 9) 32)) as [Hsame|(r & Hr & Hl & _)].
    + vm_compute in Hsame. discriminate.
    + assert (r = stored_form peer (set_source (ClusterPeer peer) window)) as <-; [|exact Hl].
      vm_compute in Hr. injection Hr as <-. vm_compute. reflexivity.
Defined.
End ClusterSample.
