(* ===== verification/Pipeline.v ===== *)
(** * The event pipeline ([hiveguard-daemon/src/pipeline.rs], [whitelist_sync.rs])

    What happens to one event, from its enrichment to the firewall, and the
    periodic tasks, operators' commands ([Admin.v]) and bans from peers
    ([Cluster.v]) that share the state and the firewall with it. Detectors are
    parameters; what the bot registry ([Bots.v]) and the reputation feeds
    ([Cti.v]) found is an input; the firewall is the interface of [Enforcer.v]. Logging,
    metrics, alerts and SIEM export only produce output and are left out. *)
From S2P Require Import Prelude Text Models Hlc Crdt BanStore Whitelist Wal Snapshot State Recovery Admission Floats Scoring Detector Enforcer Firewall Durations Config Bots Cti Admin Cluster ClusterSpec.
From stdpp Require Import pretty.
Local Open Scope Z_scope.

(** ** The bot policy *)
Definition BOT_SIGNAL_INTERVAL : Duration := secs 60.
Definition BOT_SIGNAL_TRACKED_MAX : nat := Z.to_nat 10000.

(** [Instant::duration_since] saturates at zero. *)
Definition since (now t : Z) : Duration := Z.max 0 (now - t).

Definition recent (now : Z) (t : Z) : bool := since now t <? BOT_SIGNAL_INTERVAL.

Definition bot_block_signal `{IpNetOps} `{Blake3} (now : Z) (event : NormalizedEvent) (m : BotMatch)
    (last : gmap IpAddr Z) : gmap IpAddr Z * option DetectionSignal :=
  if default false (recent now <$> last !! ev_source_ip event) then (last, None)
  else
    let last :=
      if (BOT_SIGNAL_TRACKED_MAX <=? size last)%nat then
        let kept := filter (fun kv : IpAddr * Z => recent now kv.2 = true) last in
        if (BOT_SIGNAL_TRACKED_MAX <=? size kept)%nat then ∅ else kept
      else last in
    (<[ev_source_ip event := now]> last, Some (block_signal m event)).

(** ** Enrichment *)
Definition bool_to_string (b : bool) : string := if b then "true" else "false".

Definition opt_insert (k : string) (v : option string) (m : gmap string string) : gmap string string :=
  match v with Some s => <[k := s]> m | None => m end.

(** The GeoIP facts put into an event's metadata. *)
Definition geo_metadata (info : GeoIpInfo) (m : gmap string string) : gmap string string :=
  <["geo_datacenter"%string := bool_to_string (geo_is_datacenter info)]>
    (opt_insert "geo_org" (geo_asn_org info)
      (opt_insert "geo_asn" (pretty <$> geo_asn info)
        (opt_insert "geo_country" (geo_country_iso info) m))).

Definition set_metadata (m : gmap string string) (e : NormalizedEvent) : NormalizedEvent :=
  {| ev_timestamp := ev_timestamp e; ev_source_ip := ev_source_ip e; ev_event_type := ev_event_type e;
     ev_source_name := ev_source_name e; ev_raw_line := ev_raw_line e; ev_metadata := m |}.

Definition set_severity (sev : Z) (s : DetectionSignal) : DetectionSignal :=
  {| sig_source_ip := sig_source_ip s; sig_severity := sev; sig_confidence := sig_confidence s;
     sig_reason := sig_reason s; sig_evidence_hash := sig_evidence_hash s;
     sig_suggested_action := sig_suggested_action s; sig_detector_name := sig_detector_name s;
     sig_timestamp := sig_timestamp s |}.

(** The datacenter multiplier, for signals about the event's own source. *)
Definition boost `{IpNetOps} (geo : option GeoIpInfo) (multiplier : spec_float) (source : IpAddr)
    (s : DetectionSignal) : DetectionSignal :=
  match geo with
  | Some gi =>
      if net_contains (sig_source_ip s) source && geo_is_datacenter gi && negb (SFeqb multiplier (f32_lit 1 1))
      then set_severity (sf_to_uint 255 (sf_min (f32_mul (f32_of_uint (sig_severity s)) multiplier) (f32_lit 255 1))) s
      else s
  | None => s
  end.

(** The signal made of a finding of the reputation feeds. *)
Definition cti_detection (now : DateTime) (ip : IpAddr) (sig : CtiSignal) : DetectionSignal :=
  {| sig_source_ip := ip_to_net ip; sig_severity := cti_severity sig;
     sig_confidence := SFdiv 24 128 (f32_of_uint (cti_confidence sig)) (f32_lit 100 1);
     sig_reason := cti_description sig; sig_evidence_hash := replicate 32 0;
     sig_suggested_action := Ban (secs 86400); sig_detector_name := cti_provider sig; sig_timestamp := now |}.

(** [decision_to_record] of [plugin_bridge.rs]; a duration out of range makes
    the ban permanent. *)
Definition decision_to_record (d : BanDecision) : BanRecord := {|
  subject := bd_subject d; created_at := bd_timestamp d;
  expires_at := (fun cd => bd_timestamp d + cd) <$> duration_from_std (bd_duration d);
  severity := bd_severity d; reason := bd_reason d; evidence_hash := bd_evidence_hash d;
  source := bd_source d; geo_info := None |}.

(** ** The pipeline *)
Record Pipeline (E D : Type) : Type := {
  p_detectors : list D;
  p_scoring : ScoringEngine;
  p_state : StateManager;
  p_enforcer : E;
  p_bot_last : gmap IpAddr Z;
  p_trusted_asns : gset Z;
  p_multiplier : spec_float;
  p_announced : list BanRecord;
}.
Arguments p_detectors {E D}. Arguments p_scoring {E D}. Arguments p_state {E D}. Arguments p_enforcer {E D}.
Arguments p_bot_last {E D}. Arguments p_trusted_asns {E D}. Arguments p_multiplier {E D}. Arguments p_announced {E D}.

Section setters.
Context {E D : Type}.
Definition with_detectors (ds : list D) (p : Pipeline E D) : Pipeline E D :=
  {| p_detectors := ds; p_scoring := p_scoring p; p_state := p_state p; p_enforcer := p_enforcer p;
     p_bot_last := p_bot_last p; p_trusted_asns := p_trusted_asns p; p_multiplier := p_multiplier p;
     p_announced := p_announced p |}.
Definition with_scoring (sc : ScoringEngine) (p : Pipeline E D) : Pipeline E D :=
  {| p_detectors := p_detectors p; p_scoring := sc; p_state := p_state p; p_enforcer := p_enforcer p;
     p_bot_last := p_bot_last p; p_trusted_asns := p_trusted_asns p; p_multiplier := p_multiplier p;
     p_announced := p_announced p |}.
Definition with_state_enforcer (sm : StateManager) (e : E) (p : Pipeline E D) : Pipeline E D :=
  {| p_detectors := p_detectors p; p_scoring := p_scoring p; p_state := sm; p_enforcer := e;
     p_bot_last := p_bot_last p; p_trusted_asns := p_trusted_asns p; p_multiplier := p_multiplier p;
     p_announced := p_announced p |}.
Definition with_bot_last (m : gmap IpAddr Z) (p : Pipeline E D) : Pipeline E D :=
  {| p_detectors := p_detectors p; p_scoring := p_scoring p; p_state := p_state p; p_enforcer := p_enforcer p;
     p_bot_last := m; p_trusted_asns := p_trusted_asns p; p_multiplier := p_multiplier p;
     p_announced := p_announced p |}.
Definition with_announced (l : list BanRecord) (p : Pipeline E D) : Pipeline E D :=
  {| p_detectors := p_detectors p; p_scoring := p_scoring p; p_state := p_state p; p_enforcer := p_enforcer p;
     p_bot_last := p_bot_last p; p_trusted_asns := p_trusted_asns p; p_multiplier := p_multiplier p;
     p_announced := l |}.
Definition announce (r : BanRecord) (p : Pipeline E D) : Pipeline E D :=
  {| p_detectors := p_detectors p; p_scoring := p_scoring p; p_state := p_state p; p_enforcer := p_enforcer p;
     p_bot_last := p_bot_last p; p_trusted_asns := p_trusted_asns p; p_multiplier := p_multiplier p;
     p_announced := p_announced p ++ [r] |}.
End setters.

(** Clock readings while one signal is processed. *)
Record signal_clock : Type := { now_evaluate : DateTime; now_admit : DateTime }.

Section pipeline.
Context {E D : Type} `{Enforcer E} `{Detector D}.
Context `{IpNetOps} `{Blake3}.
Context `{Codec WalEntry} `{Crc32}.
Context `{Codec SnapshotDataV4, Codec SnapshotDataV2, Bincode SnapshotDataV2, Bincode SnapshotDataV1}.

(** [admit]: persist, then replicate; true only for a brand-new ban. *)
Definition admit_record (now : DateTime) (r : BanRecord) (p : Pipeline E D) : Pipeline E D * bool :=
  let '(sm, res) := admit_ban r now (p_state p) in
  let p := with_state_enforcer sm (p_enforcer p) p in
  match res with
  | Err _ => (p, false)
  | Ok (AlreadyCovered _ _) => (p, false)
  | Ok (Extended _) => (announce r p, false)
  | Ok Added => (announce r p, true)
  end.

(** A decision of the scoring engine; [attach] adds the GeoIP facts. *)
Definition enforce_decision (now : DateTime) (attach : BanRecord -> BanRecord) (d : BanDecision)
    (p : Pipeline E D) : Pipeline E D :=
  let r := attach (decision_to_record d) in
  let '(p, added) := admit_record now r p in
  if added then with_state_enforcer (p_state p) (apply_ban (subject r) (p_enforcer p)).1 p else p.

Definition score_signal (ck : signal_clock) (attach : BanRecord -> BanRecord) (signal : DetectionSignal)
    (p : Pipeline E D) : Pipeline E D :=
  if overlaps (whitelist (mem (p_state p))) (sig_source_ip signal) then p
  else
    let '(sc, d) := evaluate (now_evaluate ck) (net_addr (sig_source_ip signal)) (record signal (p_scoring p)) in
    let p := with_scoring sc p in
    match d with
    | None => p
    | Some d => enforce_decision (now_admit ck) attach d p
    end.

Definition attach_if_about (source : IpAddr) (geo : option GeoIpInfo) (r : BanRecord) : BanRecord :=
  if net_contains (subject r) source then set_geo_info geo r else r.

(** Every detector sees the event, in order. *)
Definition run_detectors (event : NormalizedEvent) (ds : list D) : list D * list DetectionSignal :=
  foldr (fun d '(ds', out) => let '(d', ss) := process_multi event d in (d' :: ds', ss ++ out)) ([], []) ds.

(** What the environment answers about one event: the GeoIP lookup (if a
    database is loaded), the matching bot rule, the reputation finding, and the
    clocks. *)
Record event_input : Type := {
  ei_event : NormalizedEvent;
  ei_geo : option GeoIpInfo;
  ei_bot : option BotMatch;
  ei_cti : option CtiSignal;
  ei_instant : Z;
  ei_cti_now : DateTime;
  ei_clock : nat -> signal_clock;
}.

(** The loop over the signals of one event. *)
Fixpoint score_signals (i : nat) (clock : nat -> signal_clock) (attach : BanRecord -> BanRecord)
    (ss : list DetectionSignal) (p : Pipeline E D) : Pipeline E D :=
  match ss with
  | [] => p
  | s :: ss' => score_signals (S i) clock attach ss' (score_signal (clock i) attach s p)
  end.

Definition bot_signals (inp : event_input) (event : NormalizedEvent) (p : Pipeline E D)
    : Pipeline E D * list DetectionSignal :=
  match ei_bot inp with
  | Some m =>
      match bm_policy m with
      | BotBlock =>
          let '(last, sig) := bot_block_signal (ei_instant inp) event m (p_bot_last p) in
          (with_bot_last last p, option_list sig)
      | BotAllow | BotMonitor => (p, [])
      end
  | None => (p, [])
  end.

Definition trusted (p : Pipeline E D) (geo : option GeoIpInfo) : bool :=
  match geo with
  | Some gi => match geo_asn gi with Some asn => bool_decide (asn ∈ p_trusted_asns p) | None => false end
  | None => false
  end.

(** One iteration of [Pipeline::run]. *)
Definition process_event (inp : event_input) (p : Pipeline E D) : Pipeline E D :=
  let event := match ei_geo inp with
               | Some gi => set_metadata (geo_metadata gi (ev_metadata (ei_event inp))) (ei_event inp)
               | None => ei_event inp
               end in
  if trusted p (ei_geo inp) then p
  else
    let source := ev_source_ip event in
    let '(p, bots) := bot_signals inp event p in
    let p := match ei_cti inp with
             | Some c => score_signal (ei_clock inp 0) (set_geo_info (ei_geo inp))
                           (cti_detection (ei_cti_now inp) source c) p
             | None => p
             end in
    let '(ds, found) := run_detectors event (p_detectors p) in
    let p := with_detectors ds p in
    let signals := bots ++ (boost (ei_geo inp) (p_multiplier p) source <$> found) in
    score_signals 1 (ei_clock inp) (attach_if_about source (ei_geo inp)) signals p.

(** ** Background tasks *)
(** The loop of one expiry tick; a failed removal is logged and skipped. *)
Fixpoint expire_loop (expired : list IpNet) (sm : StateManager) : StateManager :=
  match expired with
  | [] => sm
  | n :: expired' => expire_loop expired' (remove_ban n sm).1
  end.

Definition expired_subjects (now : DateTime) (sm : StateManager) : list IpNet :=
  subject <$> List.filter (fun b => match expires_at b with Some exp => exp <=? now | None => false end)
                (get_all_bans (ban_store (mem sm))).

(** One tick of [ban_expiry_task]. *)
Definition expiry_tick (now : DateTime) (p : Pipeline E D) : Pipeline E D :=
  let sm := expire_loop (expired_subjects now (p_state p)) (p_state p) in
  with_state_enforcer sm (sync_full (desired_subjects now sm) (p_enforcer p)).1 p.

(** One tick of [snapshot_task]. *)
Definition snapshot_tick (fault : save_fault) (tf : bool) (p : Pipeline E D) : Pipeline E D :=
  with_state_enforcer (take_snapshot fault tf (p_state p)).1 (p_enforcer p) p.

(** ** Start-up ([whitelist_sync.rs]) *)
Fixpoint add_missing (nets : list IpNet) (sm : StateManager) : StateManager * hresult unit :=
  match nets with
  | [] => (sm, Ok tt)
  | n :: nets' =>
      if covers (whitelist (mem sm)) n then add_missing nets' sm
      else
        let '(sm', res) := add_whitelist n sm in
        match res with
        | Err x => (sm', Err x)
        | Ok _ => add_missing nets' sm'
        end
  end.

Definition apply_config_whitelist (nets : list IpNet) (sm : StateManager) : StateManager * hresult (list IpNet) :=
  let '(sm', res) := add_missing nets sm in
  match res with
  | Err x => (sm', Err x)
  | Ok _ => revoke_bans_covered_by_whitelist sm'
  end.

(** [now] is read once per ban. *)
Definition init_whitelist_and_sync (nets : list IpNet) (now : BanRecord -> DateTime) (sm : StateManager) (e : E)
    : StateManager * E * hresult unit :=
  let '(sm', res) := apply_config_whitelist nets sm in
  match res with
  | Err x => (sm', e, Err x)
  | Ok _ =>
      let current := subject <$> List.filter (fun b => match expires_at b with Some exp => now b <? exp | None => true end)
                       (get_all_bans (ban_store (mem sm'))) in
      let '(e', res) := sync_full current e in (sm', e', res)
  end.

(** Every removal is tried; the last error is reported. *)
Fixpoint drop_loop (revoked : list IpNet) (failure : option HiveGuardError) (e : E) : E * hresult unit :=
  match revoked with
  | [] => (e, match failure with Some x => Err x | None => Ok tt end)
  | n :: revoked' =>
      let '(e', res) := unapply_ban n e in
      drop_loop revoked' (match res with Err x => Some x | Ok _ => failure end) e'
  end.

Definition drop_from_enforcer (revoked : list IpNet) (e : E) : E * hresult unit :=
  match revoked with [] => (e, Ok tt) | _ => drop_loop revoked None e end.
End pipeline.

(** ** The firewall never blocks a protected address *)
Section firewall.
Context {E D : Type} `{Enforcer E} {enf_laws : EnforcerLaws E} `{Detector D}.
Context `{IpNetOps} {laws : IpNetLaws} `{Blake3}.
Context `{Codec WalEntry} {codec : CodecLaws WalEntry} `{Crc32} {crc : Crc32Laws}.
Context `{Codec SnapshotDataV4} {snap_codec : CodecLaws SnapshotDataV4}.
Context `{Codec SnapshotDataV2, Bincode SnapshotDataV2, Bincode SnapshotDataV1}.
Context {det_laws : DetectorLaws D} `{AddrText} {addr : AddrWf} `{ApiText} (max_utc : DateTime).

Definition firewall_ok (p : Pipeline E D) : Prop :=
  safe (mem (p_state p)) /\ guarded (whitelist (mem (p_state p))) (p_enforcer p) /\
  (forall ip s, s ∈ bucket (p_scoring p) ip -> wf_net (sig_source_ip s)).

Lemma admit_added_clear (r : BanRecord) (now : DateTime) (sm : StateManager) :
  safe (mem sm) -> wf_net (subject r) -> (admit_ban r now sm).2 = Ok Added ->
  clear_net (whitelist (mem sm)) (subject r).
Proof using laws.
  intros [Hw _] Hwf. unfold admit_ban. destruct (find_first _ _) as [b|]; [done|].
  destruct (find_first _ _) as [b|].
  - by destruct (add_ban _ sm) as [sm' [[]|x]].
  - pose proof (add_ban_ok_clear r sm) as Hc. destruct (add_ban r sm) as [sm' [[]|x]]; [|done].
    intros _. split; [done|]. rewrite <- overlaps_trunc by done. by apply Hc.
Qed.

Lemma admit_record_ok (now : DateTime) (r : BanRecord) (p : Pipeline E D) :
  wf_net (subject r) -> firewall_ok p ->
  let '(p', added) := admit_record now r p in
  firewall_ok p' /\ (added = true -> clear_net (whitelist (mem (p_state p'))) (subject r)).
Proof using laws.
  intros Hwf (Hs & Hf & Hsc). unfold admit_record.
  pose proof (safe_admit_ban r now (p_state p) Hwf Hs) as Hs'.
  pose proof (admit_ban_whitelist r now (p_state p)) as Hw. pose proof (admit_added_clear r now (p_state p) Hs Hwf) as Hc.
  destruct (admit_ban r now (p_state p)) as [sm res]. simpl in *.
  assert (Hok : forall q, p_state q = sm -> p_enforcer q = p_enforcer p -> p_scoring q = p_scoring p -> firewall_ok q).
  { intros q Hq He Hq'. unfold firewall_ok. rewrite Hq, He, Hq', Hw. by split. }
  destruct res as [[]|x]; (split; [by apply Hok|]); try done.
  intros _. simpl. rewrite Hw. by apply Hc.
Qed.

Lemma apply_ok_firewall (n : IpNet) (p : Pipeline E D) :
  firewall_ok p -> clear_net (whitelist (mem (p_state p))) n ->
  firewall_ok (with_state_enforcer (p_state p) (apply_ban n (p_enforcer p)).1 p).
Proof using laws.
  intros (Hs & Hg & Hsc) Hn. split; [done|]. split; [|done]. simpl. apply guarded_apply; [apply Hs|done|done].
Qed.

Lemma enforce_decision_ok (now : DateTime) (attach : BanRecord -> BanRecord) (d : BanDecision) (p : Pipeline E D) :
  (forall r, subject (attach r) = subject r) -> wf_net (bd_subject d) -> firewall_ok p ->
  firewall_ok (enforce_decision now attach d p).
Proof using laws enf_laws.
  intros Ha Hd Hp. unfold enforce_decision.
  pose proof (admit_record_ok now (attach (decision_to_record d)) p) as Hr. rewrite Ha in *. simpl in Hr.
  specialize (Hr Hd Hp). destruct (admit_record _ _ p) as [p' added]. destruct Hr as [Hp' Hc].
  destruct added; [|done]. apply apply_ok_firewall; auto.
Qed.

Lemma score_signal_ok (ck : signal_clock) (attach : BanRecord -> BanRecord) (s : DetectionSignal) (p : Pipeline E D) :
  (forall r, subject (attach r) = subject r) -> wf_net (sig_source_ip s) -> firewall_ok p ->
  firewall_ok (score_signal ck attach s p).
Proof using laws enf_laws.
  intros Ha Hs Hp. unfold score_signal. destruct (overlaps _ _); [done|].
  set (ip := net_addr (sig_source_ip s)). pose proof (evaluate_exact (now_evaluate ck) ip (record s (p_scoring p))) as Hev.
  destruct Hp as (Hsafe & Hf & Hsc).
  assert (Hrec : forall j x, x ∈ bucket (record s (p_scoring p)) j -> wf_net (sig_source_ip x)).
  { intros j x. rewrite record_bucket. case_decide; [|by apply Hsc].
    intros [Hx|Hx%list_elem_of_singleton]%elem_of_app; [by apply (Hsc j)|by subst]. }
  cbv zeta in Hev. destruct (evaluate _ ip _) as [sc d]. destruct Hev as (_ & Hother & Hd).
  assert (Hlive : forall x, x ∈ live (record s (p_scoring p)) (now_evaluate ck) (bucket (record s (p_scoring p)) ip) ->
    wf_net (sig_source_ip x)).
  { intros x [Hx _]%elem_of_lfilter. by apply (Hrec ip). }
  assert (Hok : firewall_ok (with_scoring sc p)).
  { split; [done|]. split; [done|]. simpl. intros j x Hx. destruct (decide (j = ip)) as [->|Hne].
    - destruct d as [d|]; [destruct Hd as (_ & _ & Hb & _)|destruct Hd as [_ Hb]]; rewrite Hb in Hx; [by apply not_elem_of_nil in Hx|by apply Hlive].
    - rewrite Hother in Hx by done. by apply (Hrec j). }
  destruct d as [d|]; [|done]. apply enforce_decision_ok; [done| |done].
  destruct Hd as (_ & _ & _ & _ & _ & Hsub & _). apply list_elem_of_fmap in Hsub as (x & -> & Hx). by apply Hlive.
Qed.

Lemma score_signals_ok (i : nat) (clock : nat -> signal_clock) (attach : BanRecord -> BanRecord)
    (ss : list DetectionSignal) (p : Pipeline E D) :
  (forall r, subject (attach r) = subject r) -> Forall (fun s => wf_net (sig_source_ip s)) ss ->
  firewall_ok p -> firewall_ok (score_signals i clock attach ss p).
Proof using laws enf_laws.
  intros Ha Hss. revert i p. induction Hss as [|s ss Hs _ IH]; intros i p Hp; simpl; [done|].
  apply IH, score_signal_ok; done.
Qed.

Lemma run_detectors_ok (event : NormalizedEvent) (ds : list D) :
  wf_ip (ev_source_ip event) -> Forall det_ok ds ->
  Forall det_ok (run_detectors event ds).1 /\ Forall (fun s => wf_net (sig_source_ip s)) (run_detectors event ds).2.
Proof using det_laws.
  intros Hip. unfold run_detectors. induction 1 as [|d ds Hd _ [IHd IHs]]; simpl; [by split|].
  destruct (foldr _ _ ds) as [ds' out]. destruct (process_multi_ok event d Hip Hd) as [Hd' Hs].
  destruct (process_multi event d) as [d' ss]. simpl in *. split; [by constructor|]. apply Forall_app. split; [|done].
  eapply Forall_impl; [exact Hs|]. by intros s [? _].
Qed.

(** Only the detectors themselves change their state. *)
Lemma score_signal_detectors (ck : signal_clock) (attach : BanRecord -> BanRecord) (s : DetectionSignal) (p : Pipeline E D) :
  p_detectors (score_signal ck attach s p) = p_detectors p.
Proof.
  unfold score_signal, enforce_decision, admit_record. destruct (overlaps _ _); [done|].
  destruct (evaluate _ _ _) as [sc [d|]]; [|done]. simpl. destruct (admit_ban _ _ _) as [sm [[| |]|x]]; done.
Qed.

Lemma score_signals_detectors (i : nat) (clock : nat -> signal_clock) (attach : BanRecord -> BanRecord)
    (ss : list DetectionSignal) (p : Pipeline E D) : p_detectors (score_signals i clock attach ss p) = p_detectors p.
Proof. revert i p. induction ss as [|s ss IH]; intros i p; simpl; [done|]. by rewrite IH, score_signal_detectors. Qed.

Lemma boost_source (geo : option GeoIpInfo) (mult : spec_float) (ip : IpAddr) (s : DetectionSignal) :
  sig_source_ip (boost geo mult ip s) = sig_source_ip s.
Proof. unfold boost. destruct geo as [gi|]; [|done]. by destruct (_ && _). Qed.

Lemma bot_block_signal_out (now : Z) (event : NormalizedEvent) (m : BotMatch) (last : gmap IpAddr Z) :
  (bot_block_signal now event m last).2 = None \/ (bot_block_signal now event m last).2 = Some (block_signal m event).
Proof. unfold bot_block_signal. destruct (default false _); [by left|by right]. Qed.

Lemma bot_signals_ok (inp : event_input) (event : NormalizedEvent) (p : Pipeline E D) :
  wf_ip (ev_source_ip event) -> firewall_ok p ->
  firewall_ok (bot_signals inp event p).1 /\ Forall (fun s => wf_net (sig_source_ip s)) (bot_signals inp event p).2.
Proof.
  intros Hip Hp. unfold bot_signals. destruct (ei_bot inp) as [m|]; [|done].
  destruct (bm_policy m); [done| |done].
  pose proof (bot_block_signal_out (ei_instant inp) event m (p_bot_last p)) as Ho.
  destruct (bot_block_signal _ event m _) as [last o]. cbn [fst snd] in *. split; [exact Hp|].
  destruct Ho as [-> | ->]; constructor; [by apply ip_to_net_wf|constructor].
Qed.

Lemma process_event_ok (inp : event_input) (p : Pipeline E D) :
  wf_ip (ev_source_ip (ei_event inp)) -> firewall_ok p -> Forall det_ok (p_detectors p) ->
  firewall_ok (process_event inp p) /\ Forall det_ok (p_detectors (process_event inp p)).
Proof using laws enf_laws det_laws.
  intros Hip Hp Hds. unfold process_event. set (event := match ei_geo inp with Some _ => _ | None => _ end).
  assert (Hsrc : ev_source_ip event = ev_source_ip (ei_event inp)) by (subst event; by destruct (ei_geo inp)).
  destruct (trusted p (ei_geo inp)); [done|]. rewrite <- Hsrc in Hip.
  destruct (bot_signals_ok inp event p Hip Hp) as [Hp1 Hbots].
  assert (Hds1 : p_detectors (bot_signals inp event p).1 = p_detectors p)
    by (unfold bot_signals; destruct (ei_bot inp) as [m|]; [|done]; destruct (bm_policy m); [done| |done]; by destruct (bot_block_signal _ _ _ _)).
  destruct (bot_signals inp event p) as [p1 bots]. simpl in Hp1, Hbots, Hds1.
  set (p2 := match ei_cti inp with Some _ => _ | None => _ end).
  assert (Hp2 : firewall_ok p2 /\ p_detectors p2 = p_detectors p).
  { subst p2. destruct (ei_cti inp) as [c|]; [|done]. split; [|by rewrite score_signal_detectors].
    apply score_signal_ok; [done| |done]. by apply ip_to_net_wf. }
  destruct Hp2 as [Hp2 Hds2]. rewrite <- Hds2 in Hds. destruct (run_detectors_ok event _ Hip Hds) as [Hds' Hd].
  destruct (run_detectors _ _) as [ds found]. split; [|by rewrite score_signals_detectors].
  apply score_signals_ok; [|apply Forall_app; split; [done|]|exact Hp2].
  - intros r. unfold attach_if_about. by destruct (net_contains _ _).
  - apply Forall_fmap. eapply Forall_impl; [exact Hd|]. intros s Hs. simpl. by rewrite boost_source.
Qed.

(** ** Ticks *)
Lemma expire_loop_mem (ns : list IpNet) (sm : StateManager) :
  let sm' := expire_loop ns sm in
  whitelist (mem sm') = whitelist (mem sm) /\
  bans (ban_store (mem sm')) ⊆ bans (ban_store (mem sm)) /\
  (forall n, n ∉ ns -> bans (ban_store (mem sm')) !! n = bans (ban_store (mem sm)) !! n).
Proof.
  revert sm. induction ns as [|n ns IH]; intros sm; cbn [expire_loop]; [done|].
  pose proof (remove_ban_mem n sm) as Hm. destruct (remove_ban n sm) as [sm1 res]. cbn [fst].
  destruct (IH sm1) as (Hw & Hsub & Hkeep). cbv zeta in *. rewrite Hw, Hm.
  destruct (is_ok res); rewrite Hm in *; [|split_and!; [done|done|]; intros k Hk; apply Hkeep; set_solver +Hk].
  simpl in *. rewrite bans_remove in *. split_and!; [done| |].
  - etransitivity; [exact Hsub|]. apply delete_subseteq.
  - intros k Hk. apply not_elem_of_cons in Hk as [Hne Hk]. rewrite Hkeep by done. by rewrite lookup_delete_ne.
Qed.

Lemma expiry_tick_safe (now : DateTime) (sm : StateManager) :
  safe (mem sm) -> safe (mem (expire_loop (expired_subjects now sm) sm)).
Proof.
  intros Hs. destruct (expire_loop_mem (expired_subjects now sm) sm) as (Hw & Hsub & _).
  by eapply safe_shrink.
Qed.

Lemma expiry_tick_ok (now : DateTime) (p : Pipeline E D) : firewall_ok p -> firewall_ok (expiry_tick now p).
Proof using enf_laws laws.
  intros (Hs & Hf & Hsc). unfold expiry_tick.
  pose proof (expiry_tick_safe now _ Hs) as Hs'.
  destruct (expire_loop_mem (expired_subjects now (p_state p)) (p_state p)) as (Hw & _ & _).
  split; [exact Hs'|]. split; [|exact Hsc]. simpl. apply guarded_sync; [apply Hs'|intros n Hn; by eapply desired_clear|apply Hf|left].
  by rewrite Hw.
Qed.

Lemma snapshot_tick_mem (fault : save_fault) (tf : bool) (sm : StateManager) :
  mem (take_snapshot fault tf sm).1 = mem sm.
Proof. unfold take_snapshot. destruct (save_snapshot_with_revocations _ _ _ _ _ _) as [disk [u|x]]; [|done]. by destruct (truncate _ _). Qed.

(** ** Start-up *)
Lemma add_missing_safe (nets : list IpNet) (sm sm' : StateManager) :
  Forall wf_net nets -> safe (mem sm) -> add_missing nets sm = (sm', Ok tt) -> safe (mem sm').
Proof using laws.
  intros Hn. revert sm. induction Hn as [|n nets Hn _ IH]; intros sm Hs E1; cbn [add_missing] in E1.
  { by injection E1 as <-. }
  destruct (covers _ n); [by eapply IH|]. pose proof (safe_add_whitelist n sm Hn Hs) as Ha.
  destruct (add_whitelist n sm) as [sm1 [u|x]]; [|done]. eapply IH; [|exact E1]. by apply Ha.
Qed.

Lemma config_whitelist_safe (nets : list IpNet) (sm sm' : StateManager) (revoked : list IpNet) :
  Forall wf_net nets -> safe (mem sm) -> apply_config_whitelist nets sm = (sm', Ok revoked) -> safe (mem sm').
Proof using laws.
  intros Hn Hs. unfold apply_config_whitelist.
  destruct (add_missing nets sm) as [sm1 [[]|x]] eqn:Ea; [|done]. apply add_missing_safe in Ea; [|done..].
  unfold revoke_bans_covered_by_whitelist. intros Er. apply revoke_loop_ok in Er as [Hw Hb].
  eapply safe_shrink; [exact Ea| |done]. apply map_subseteq_spec. intros k r. rewrite Hb. by case_decide.
Qed.

(** ** Runs *)
Inductive pipe_op : Type :=
| PEvent (inp : event_input)
| PExpiry (now : DateTime)
| PSnapshot (fault : save_fault) (tf : bool)
| PCommand (now : nat -> DateTime) (uptime : Z) (q : ApiRequest)
| PUi (now : DateTime) (c : UiCall)
| PRemote (policy : TrustConfig) (now : DateTime) (from : string) (records : list BanRecord).

(** Commands and the cluster runtime work on the same state and the same
    firewall. *)
Definition admin_of (p : Pipeline E D) : Admin E :=
  {| ad_state := p_state p; ad_enforcer := Some (p_enforcer p); ad_hook := true; ad_announced := p_announced p |}.
Definition with_admin (ad : Admin E) (p : Pipeline E D) : Pipeline E D :=
  with_announced (ad_announced ad) (with_state_enforcer (ad_state ad) (default (p_enforcer p) (ad_enforcer ad)) p).

Definition pipe_step (p : Pipeline E D) (o : pipe_op) : Pipeline E D :=
  match o with
  | PEvent inp => process_event inp p
  | PExpiry now => expiry_tick now p
  | PSnapshot fault tf => snapshot_tick fault tf p
  | PCommand now uptime q =>
      match process_request_inner max_utc now uptime q (admin_of p) with Some (ad, _) => with_admin ad p | None => p end
  | PUi now c => with_admin (ui_call max_utc now c (admin_of p)).1 p
  | PRemote policy now from records =>
      let '(sm, e) := apply_bans policy now from records (p_state p) (p_enforcer p) in with_state_enforcer sm e p
  end.

(** Every whitelisting by hand was reported as done. *)
Definition op_clean (p : Pipeline E D) (o : pipe_op) : Prop :=
  match o with
  | PCommand now uptime q =>
      match process_request_inner max_utc now uptime q (admin_of p) with Some (_, r) => clean_response q r | None => True end
  | PUi now c => clean_ui c (ui_call max_utc now c (admin_of p)).2
  | _ => True
  end.
Fixpoint clean_run (p : Pipeline E D) (ops : list pipe_op) : Prop :=
  match ops with [] => True | o :: ops' => op_clean p o /\ clean_run (pipe_step p o) ops' end.

Lemma with_admin_ok (ad : Admin E) (p : Pipeline E D) : firewall_ok p -> admin_ok ad -> is_Some (ad_enforcer ad) -> firewall_ok (with_admin ad p).
Proof.
  intros (_ & _ & Hsc) [Hs Hg] [e He]. unfold firewall_ok, with_admin. rewrite He. simpl. split; [done|]. split; [by apply Hg|done].
Qed.
Lemma admin_of_ok (p : Pipeline E D) : firewall_ok p -> admin_ok (admin_of p) /\ is_Some (ad_enforcer (admin_of p)).
Proof. intros (Hs & Hg & _). split; [|by eexists]. split; [done|]. simpl. by intros e [= <-]. Qed.

Definition wf_pipe_op (o : pipe_op) : Prop :=
  match o with PEvent inp => wf_ip (ev_source_ip (ei_event inp)) | PUi _ c => wf_ui_call c
  | PRemote _ _ _ records => Forall (fun r => wf_net (subject r)) records | _ => True end.

Lemma pipe_run_ok (ops : list pipe_op) (p : Pipeline E D) :
  Forall wf_pipe_op ops -> clean_run p ops -> firewall_ok p -> Forall det_ok (p_detectors p) -> firewall_ok (foldl pipe_step p ops).
Proof using laws enf_laws det_laws addr.
  intros Hops. revert p. induction Hops as [|o ops Ho _ IH]; intros p Hc Hp Hds; simpl; [done|]. destruct Hc as [Hc Hclean].
  assert (Hstep : firewall_ok (pipe_step p o) /\ Forall det_ok (p_detectors (pipe_step p o))); [|destruct Hstep; by apply IH].
  destruct (admin_of_ok p Hp) as [Ha Hs]. destruct o as [inp|now|fault tf|now uptime q|now c|policy now from rs]; simpl in *.
  - by apply process_event_ok.
  - split; [by apply expiry_tick_ok|done].
  - split; [|done]. destruct Hp as (Hsm & Hf & Hsc). unfold snapshot_tick, firewall_ok. simpl. by rewrite snapshot_tick_mem.
  - destruct (process_request_inner max_utc now uptime q (admin_of p)) as [[ad r]|] eqn:Er; [|done]. split; [|done].
    apply with_admin_ok; [done|exact (process_request_ok max_utc now uptime q (admin_of p) ad r Ha Er Hc)|exact (process_request_enforcer max_utc now uptime q (admin_of p) ad r Hs Er)].
  - split; [|done]. apply with_admin_ok; [done|by apply ui_call_ok|by apply ui_call_enforcer].
  - destruct Hp as (Hsm & Hf & Hsc). pose proof (apply_bans_guarded policy now from rs (p_state p) (p_enforcer p) Ho Hsm Hf) as Hap.
    destruct (apply_bans _ _ _ rs _ _) as [sm e]. split; [|done]. by destruct Hap.
Qed.


(** C12: The expiry tick reconciles the firewall. When the synchronisation succeeds,
    the firewall blocks exactly the addresses of the bans that are active at
    that moment: expired bans are gone from it, failed or lost earlier commands
    are repaired, no active ban is dropped; and no active ban leaves the store. *)
Theorem expiry_tick_reconciles (now : DateTime) (p : Pipeline E D)
  (Hs : safe (mem (p_state p))) (He : enf_ok (p_enforcer p))
  (Hok : let sm := expire_loop (expired_subjects now (p_state p)) (p_state p) in
         is_ok (sync_full (desired_subjects now sm) (p_enforcer p)).2 = true) :
  let p' := expiry_tick now p in
  let before := bans (ban_store (mem (p_state p))) in
  (forall a, wf_ip a -> blocks (p_enforcer p') a <-> exists n b, before !! n = Some b /\ ban_active now b = true /\ in_net n a) /\
  (forall n b, before !! n = Some b -> ban_active now b = true -> bans (ban_store (mem (p_state p'))) !! n = Some b).
Proof using enf_laws.
  cbv zeta in *. unfold expiry_tick. simpl.
  set (sm := expire_loop _ (p_state p)) in *.
  destruct (expire_loop_mem (expired_subjects now (p_state p)) (p_state p)) as (_ & Hsub & Hkeep). fold sm in Hsub, Hkeep.
  assert (Hact : forall n b, bans (ban_store (mem (p_state p))) !! n = Some b -> ban_active now b = true ->
    bans (ban_store (mem sm)) !! n = Some b).
  { intros n b Hb Ha. rewrite Hkeep; [done|]. unfold expired_subjects. intros Hx.
    apply list_elem_of_fmap in Hx as (b' & -> & [Hin Hexp]%elem_of_lfilter).
    apply list_elem_of_fmap in Hin as ([k b''] & -> & Hk%elem_of_map_to_list). simpl in *.
    destruct Hs as [_ Hall]. destruct (Hall k b'' Hk) as (_ & _ & Hsubj & _). rewrite Hsubj in Hb.
    assert (b'' = b) by congruence. subst b''. unfold ban_active in Ha.
    destruct (expires_at b); [breflect; lia|done]. }
  pose proof (expiry_tick_safe now _ Hs) as Hs'. fold sm in Hs'.
  pose proof (sync_spec _ _ He (desired_wf now sm Hs')) as Hsync. destruct (sync_full _ _) as [e' r]. simpl in *.
  destruct Hsync as (_ & _ & [_ Hb]%(fun H => H Hok)). split; [|done]. intros a Hwa. rewrite Hb by done. unfold covered.
  setoid_rewrite (fun n => desired_spec now sm n Hs').
  split; [intros (n & (b & Hnb & Ha) & Hin)|intros (n & b & Hnb & Ha & Hin)]; exists n.
  - exists b. split_and!; [by eapply lookup_weaken|done|done].
  - split; [|done]. exists b. split; [by apply Hact|done].
Qed.
End firewall.

(** ** Witnesses *)
Module PipelineSample.
#[local] Existing Instances ipnet_ref ipnet_ref_laws toy_crc toy_crc_laws no_v2.
#[local] Instance wal_codec : Codec WalEntry := codec_ref 0 WalEntry.
#[local] Instance wal_laws : CodecLaws WalEntry := codec_ref_laws 0 WalEntry.
#[local] Instance snap_codec : Codec SnapshotDataV4 := codec_ref 0 SnapshotDataV4.
#[local] Instance snap_laws : CodecLaws SnapshotDataV4 := codec_ref_laws 0 SnapshotDataV4.
#[local] Instance v2_bincode : Bincode SnapshotDataV2 := no_bincode _.
#[local] Instance v1_bincode : Bincode SnapshotDataV1 := no_bincode _.
#[local] Instance flat_hash : Blake3 := fun _ => replicate 32 0.

(** A detector that reports 9.9.9.9 for every event it sees. *)
Definition attacker : IpNet := NetV4 (ipv4 9 9 9 9) 32.
#[local] Instance eager : Detector unit := fun ev d => (d,
  [{| sig_source_ip := attacker; sig_severity := 200; sig_confidence := f32_lit 1 1; sig_reason := "probe";
      sig_evidence_hash := replicate 32 0; sig_suggested_action := Ban (minutes 60); sig_detector_name := "eager";
      sig_timestamp := ev_timestamp ev |}]).

Definition start : StateManager :=
  {| mem := mem_new; wal_writer := wal_open [] Sync; snapshot_disk := None; io_faults := [] |}.
Definition booted := init_whitelist_and_sync [entry_net] (fun _ => 0) start {| oo_bans := [] |}.
Definition pipeline : Pipeline ObserveOnlyEnforcer unit :=
  {| p_detectors := [tt]; p_scoring := {| sc_config := ScoringSample.cfg; signals := ∅ |};
     p_state := booted.1.1; p_enforcer := booted.1.2; p_bot_last := ∅; p_trusted_asns := ∅;
     p_multiplier := f32_lit 1 1; p_announced := [] |}.
Definition event : event_input :=
  {| ei_event := {| ev_timestamp := secs 10; ev_source_ip := IpV4 (ipv4 9 9 9 9); ev_event_type := HttpRequest;
                    ev_source_name := "nginx"; ev_raw_line := ""; ev_metadata := ∅ |};
     ei_geo := None; ei_bot := None; ei_cti := None; ei_instant := 0; ei_cti_now := secs 10;
     ei_clock := fun _ => {| now_evaluate := secs 10; now_admit := secs 10 |} |}.
(** The event, 5.5.5.5 whitelisted by hand, a peer's ban of it, and a tick. *)
#[local] Instance addr : AddrText := {| parse_ip _ := Some (IpV4 (ipv4 5 5 5 5)); parse_net _ := None |}.
#[local] Instance addr_wf : AddrWf.
Proof. split; [|done]. intros s a [= <-]. vm_compute. split; congruence. Qed.
#[local] Instance texts : ApiText := {| rfc3339 _ := ""%string; debug_source _ := ""%string; io_error_text _ := ""%string; json_bans _ := ""%string |}.
Definition max_utc : DateTime := secs 8210266876799.
Definition ops : list pipe_op := [PEvent event; PCommand (fun _ => secs 10) 0 (QWhitelistAdd (as_bytes "5.5.5.5"));
   PRemote ClusterSample.trust (secs 10) "peer" [set_subject (NetV4 (ipv4 5 5 5 0) 24) ClusterSample.long_ban]; PExpiry (secs 11)].

#[local, refine] Instance eager_laws : DetectorLaws unit := {| det_ok _ := True |}.
Proof. intros ev d _ _. split; [done|]. constructor; [|done]. vm_compute. repeat split; (congruence || lia). Defined.


Lemma pipeline_ok : firewall_ok pipeline.
Proof.
  split_and!; simpl.
  - apply (config_whitelist_safe [entry_net] start _ []); [|apply safe_new|vm_compute; reflexivity].
    repeat constructor; vm_compute; (congruence || lia).
  - split; [constructor|]. intros n Hn. vm_compute in Hn. by apply not_elem_of_nil in Hn.
  - intros ip s. unfold bucket. simpl. rewrite lookup_empty. by intros ?%not_elem_of_nil.
Qed.

Lemma expiry_tick_reconciles_witness :
  blocks (p_enforcer (expiry_tick (secs 11) (process_event event pipeline))) (IpV4 (ipv4 9 9 9 9)).
Proof.
  assert (Hok : firewall_ok (process_event event pipeline))
    by (apply process_event_ok; [vm_compute; split; congruence|exact pipeline_ok|repeat constructor]).
  destruct Hok as (Hs & [He _] & _).
  apply (expiry_tick_reconciles (secs 11) (process_event event pipeline) Hs He); [vm_compute; reflexivity|vm_compute; split; congruence|].
  exists attacker. eexists. split; [vm_compute; reflexivity|]. split; vm_compute; [reflexivity|split; reflexivity].
Defined.
End PipelineSample.
